(* ===== verification/_CoqProject ===== *)
-Q . S2P
Prelude.v
ATree.v
PageAlloc.v
Region.v
RegionProps.v
Heap.v
HeapInv.v
HeapAlloc.v
HeapResize.v
HeapProps.v
Malloc.v
MallocProps.v
Vm.v
VmInv.v
VmOps.v
VmProt.v
VmFree.v
VmProps.v
VmCalm.v
VmHeap.v
Ringbuffer.v
Canonbuffer.v
PacketBuffer.v
PacketCopy.v
PacketProps.v
ReadLocks.v
Rwlock.v
Handle.v
HandleGet.v
Unicode.v
Rect.v
RectBlocks.v
RectStrips.v
RectProps.v
Window.v
WindowMap.v
WindowVis.v
WindowStack.v
WindowProps.v
