(* ===== verification/Prelude.v ===== *)
(** * Verification of KOS mk3

    KOS is an operating system for i386/x86-64: a kernel (src/kernel), a C library
    (src/libs/libc) and user programs.  This library models core parts of the kernel,
    of its C library and of the window server as Rocq functions and proves what makes
    them correct.
    File names below are relative to the repository's directory src/.

    ** The parts and how they interact

    The page allocator hands out physical memory, from which memory regions (the
    objects that address spaces map) get their pages.  Address spaces map ranges of
    pages to regions by nodes, which they keep in an address tree and in a list.  The
    kernel heap manages pages that the address space of the kernel maps for it; it finds
    its free ranges with address trees as well.  kmalloc hands out the blocks of four
    heaps with a header in front of each.  Tasks synchronize with R/W-locks; each task keeps a
    table of the locks it reads, so that reading is recursive and a reader can become
    the writer.  Pipes and terminals move bytes through ring buffers (with the I/O
    vectors of readv/writev), terminals collect lines in canon buffers, and sockets keep
    the packets they receive in packet buffers; processes reach all objects through the
    handle manager, the table of file descriptors, which owns references to them.  The C
    library, which is also linked into the kernel, converts between the Unicode
    encodings.  The window server (apps/wms) keeps
    the windows of its clients, whom it knows by ids, in Z-order; every window and the
    background have a set of rectangles where they are visible, from which the display
    is drawn.

    ** The files

    - [Prelude]: machine integers with wrap-around ([wrap], [u32]), the outcomes of
      kernel code ([Ret], [Throw] for C exceptions, [Panic] for a failed assertion or
      an invalid access), tactics that run such code ([kstep], [kinv]), code that
      changes a state ([SM]) with its rules ([srun]), code that does not throw
      ([quietly]), bit lemmas.
    - [ATree]: include/hybrid/list/atree.h and atree-abi.h, the trees of disjoint
      ranges of keys, for any key width.  Histories refine a partial map from keys to
      nodes; the insertion functions agree.
    - [PageAlloc]: kernel/src/kernel/memory.c.  A zone is its bitmap of data words,
      as bytes, with its counters ([mzone]); [page_malloc_part], [page_malloc],
      [page_malloc_at] and [page_free] scan and update the words with the masks and
      byte swaps of the code.  Proved against the set of free pages: an allocation
      takes a free run of the right length and nothing else, a failed one changes
      nothing (or fails an assertion, in a case that is stated), freeing restores, a
      double free is caught.
    - [Region]: kernel/src/vm/region.c.  A region is its chain of parts, each with
      reference and lock counts and a scatter list of physical pages; splitting,
      merging and the operations on ranges of pages, with the answers of the heap as an
      oracle, and physical memory as the class [FrameAllocator].  The abstraction is a
      list of pages with their attributes; [region_ok] is the invariant.
    - [RegionProps]: what each operation does to the pages, ownership of physical
      pages and heap blocks over the life of a region, and the page allocator of
      [PageAlloc] as an instance of [FrameAllocator].
    - [Heap]: kernel/src/kernel/heap.c, in a build without CONFIG_DEBUG_HEAP for 32-bit
      pointers: the heap with its tree and its lists by size, the pages it manages (class
      [KernelVM]: mapping, searching and merging may throw, and pages that are given
      back may stay mapped) and the contents of memory.  [HeapInv]: the invariant
      [heap_ok] and freeing, with what is given back; [HeapAlloc]: allocation; [HeapResize]: allocation at an address, aligned
      blocks, reallocation, trimming; [HeapProps]: the theorems, stated of the memory in
      use and its contents, and the safety of any client of the heap.  They are about flags
      that are allowed ([allowed]): [GFP_KERNEL] in the address space of the kernel, as an
      assertion demands, and [GFP_LOCKED] while physical pages last, since the code frees
      pages it does not have when they run out.
    - [Malloc]: kernel/src/kernel/malloc.c, kmalloc and its relatives over the four kernel
      heaps, with the headers of the blocks in memory.  [MallocProps]: the safety of any
      client of kmalloc.
    - [Vm]: kernel/src/vm/vm.c, the address spaces of the kernel and of a task; whatever
      may throw (allocations, locks, notification functions, page tables) asks an oracle,
      and so does dropping references on the pages of a region, which leaks them when
      memory runs out.
      [VmInv]: the invariant of tree and list, the pages that a list of nodes maps, and
      the references that nodes hold on regions; [VmOps]: splitting, unmapping, mapping at
      an address; [VmProt]: protection; [VmFree]: [vm_getfree] and [vm_map]; [VmProps]: the
      operations as transitions of an abstract page map, histories, and lookup against a
      linear search; [VmCalm]: the operations return if nothing throws; [VmHeap]: the
      address space of the kernel, in which requests may fail for want of memory at any
      time, as an instance of [KernelVM], so that the theorems of the heap hold on it.
    - [Ringbuffer]: kernel/src/fs/ringbuffer.c and iov.c.  The buffer with its read
      and write pointers, all reads, writes, peeks, and the blocking loops; the heap
      it grows in is the class [RingHeap].  Proved against a queue of bytes.
    - [Canonbuffer]: kernel/src/fs/canonbuffer.c over a heap of owned blocks (class
      [CanonHeap]).  Histories refine an abstract line editor, and leak nothing.
    - [PacketBuffer]: kernel/src/net/packetbuffer.c and its header.  A circular buffer of
      bytes with the headers, payloads and ancillary data of packets; what other tasks do
      while one waits is part of the state.  [PacketCopy]: copies across the end of the
      buffer and the packet they make; [PacketProps]: the buffer as a queue of packets,
      through growth, waiting and failures, for limits up to 8192 bytes (which keep the
      16-bit addresses from overflowing), and its finalization.
    - [ReadLocks]: the read-lock hash table of kernel/src/sched/rwlock.c, with its
      probing, growth and deletion; it refines a finite map (class [ReadTable]).
    - [Rwlock]: the lock operations of rwlock.c as programs over atomic accesses to
      the lock, interleaved by a step relation for any number of threads up to 65535;
      they use the table through [ReadTable].  Mutual exclusion and the absence of
      failed assertions are invariants of all reachable states, as long as threads call
      poll only while they hold the lock and downgrade only where it does nothing, and
      do not use the lock again after an interrupted read (three bugs, [Example]s show
      what they break).
    - [Handle]: the handle manager of kernel/src/fs/handle.c, with symbolic handles
      and the drive table of kernel/src/fs/path.c, in a state monad with exceptions
      and reference counts.  Histories refine a POSIX descriptor table.
    - [HandleGet]: the typed conversions [handle_get_*] and [handle_fcntl] of
      handle.c on that table; objects they lead to are fields of the class [ObjEnv].
    - [Unicode]: libs/libc/unicode.c, the four conversions with shift states and
      modes, and the allocating variants, against the reference encodings.
    - [Rect]: apps/wms/rect.c and rect.h.  A set of points is a chain of strips, each
      with its blocks; the answers of realloc and malloc are part of the state.
      [RectBlocks]: the loops over blocks; [RectStrips]: chains, splitting and merging of
      strips; [RectProps]: insertion, removal and moving as operations on sets of points,
      what is left after an exception, and the rectangles of an iteration.
    - [Window]: apps/wms/window.c and display.c.  A display has its windows in Z-order,
      their visible sets, and logs of drawing calls, with all their arguments, and messages.  [WindowVis]: the loops
      that hand points from one set to another; [WindowStack]: every point belongs to the
      first window in Z-order that has it, and each operation keeps this; [WindowProps]:
      histories of operations, the hit test, and that redrawing after a history copies
      each visible point from the right place of the right buffer.
    - [WindowMap]: apps/wms/windowmap.c, the hash table of windows, with the choice of
      ids and the registration of windows in server.c; it refines a finite map.

    ** Conventions and bounds

    Operations keep the names of the C functions (a leading [__] is dropped); loops
    and [goto] become functions named after what they do, which the map of the
    manifest assigns to lines.  Loops that are not structural take fuel; running out
    of fuel is [Panic], so that every theorem "the result is ..." also says that the
    fuel suffices: the bound is the number of words, slots or source units left, two
    rounds for a retry after growing, 33 for the doublings of a 32-bit number, the
    levels of a tree, the bytes or pages of free memory in units of what a turn takes,
    the points of a rectangle for loops that start over after each part of it.
    Integers that may overflow are kept at their width; sizes of objects in memory
    are [nat].  Except in [Rwlock], one operation runs at a time: locks are not
    contended and a compare-exchange succeeds.  Blocking waits are choices of the
    environment.

    Deviations of the code from what it means to do are stated as [Example]s that
    evaluate the model on a concrete input, next to the theorem whose hypothesis
    excludes them (the last section of each file).

    ** Not modelled

    Of vm.c: the contents of the page tables, merging of nodes of different regions,
    deallocation of pages, loading of pages into memory, cloning and vm_extend; the
    theorems about address spaces are for a kernel booted with the option nomerge, because
    vm_merge_before breaks the tree (an [Example] of [VmProps] shows it), and those about
    vm_getfree for requests without alignment and gap.  Scheduling and context switches,
    inodes and path resolution, file system drivers, devices, the loader and
    unwinder, and user programs other than the window server; of that, the copying
    of pixels within [Copy_Rect], the relay of input and the requests of clients (render.c,
    event.c, the rest of server.c).  The
    theorems about windows are for displays whose windows are not shown again once
    hidden, as Window_ShowUnlocked is wrong ([Example]s of [WindowProps] show it and the
    other excluded cases).  Left out of the modelled files: [ringbuffer_fini], the
    formatted printers of unicode.c, the assertions of rwlock.c on the connections of a
    task, the nested kmalloc of the descriptors of heap pages, the functions of packetbuffer.h that poll or wait for
    a condition, the debug fills and validation of heap.c, and the
    parts of path.c, task.c and corebase.c that the modelled code does not use.  The
    read-lock table and the canon buffer are those of a build with a heap alignment of
    16, the heap that of a build with 8.  What could follow: the moving of mappings
    ([vm_extract] to [vm_remap], which are defined), vm_extend, POSIX signals, sockets
    and the VIO dispatch of vm/vio.c. *)
From stdpp Require Export base list list_numbers numbers.
From Stdlib Require Export ZArith Lia.
From Stdlib Require Import ZifyBool.
#[export] Set Default Goal Selector "!".

(** * Machine integers

    A [w]-bit unsigned integer is a [Z]; an arithmetic operation that may leave
    the range is followed by [wrap w]. *)
Definition wrap (w z : Z) : Z := z `mod` 2 ^ w.
Definition u8 (z : Z) : Z := wrap 8 z.
Definition u16 (z : Z) : Z := wrap 16 z.
Definition u32 (z : Z) : Z := wrap 32 z.
Definition u64 (z : Z) : Z := wrap 64 z.

Create HintDb kos.
Open Scope Z_scope.

(** * Outcomes of kernel code

    [Ret a]: the function returns [a].  [Throw e]: it leaves through the C
    exception mechanism ([error_throw]).  [Panic]: an [assert]/[assertf] of a
    debug build fails, memory outside of an object is accessed, or a loop of the
    model runs out of fuel. *)
Inductive error_code : Set :=
| E_BADALLOC
| E_INTERRUPT
| E_WOULDBLOCK
| E_SEGFAULT
| E_NOT_IMPLEMENTED
| E_INVALID_ALIGNMENT
| E_UNICODE_ERROR
| E_BUFFER_TOO_SMALL
| E_RETRY_RWLOCK
| E_OVERFLOW
| E_INVALID_ARGUMENT
| E_NET_ERROR.
#[export] Instance error_code_eq_dec : EqDecision error_code.
Proof. solve_decision. Defined.

Inductive outcome (A : Type) : Type :=
| Ret (a : A)
| Throw (e : error_code)
| Panic.
Arguments Ret {A} a.
Arguments Throw {A} e.
Arguments Panic {A}.

#[export] Instance outcome_ret : MRet outcome := fun A a => Ret a.
#[export] Instance outcome_bind : MBind outcome := fun A B f m =>
  match m with Ret a => f a | Throw e => Throw e | Panic => Panic end.

(** The C statement [assert(b);]. *)
Definition kassert (b : bool) : outcome unit := if b then Ret tt else Panic.
(** Access to an object that has to exist ([None]: out of bounds). *)
Definition access {A} (o : option A) : outcome A :=
  match o with Some a => Ret a | None => Panic end.

Lemma kassert_true (b : bool) : b = true -> kassert b = Ret tt.
Proof. by intros ->. Qed.
Lemma bind_ret {A B} (a : A) (f : A -> outcome B) : (Ret a ≫= f) = f a.
Proof. done. Qed.
Lemma bind_kassert {B} (b : bool) (f : unit -> outcome B) :
  b = true -> (kassert b ≫= f) = f tt.
Proof. by intros ->. Qed.
Lemma bind_kassert_false {B} (b : bool) (f : unit -> outcome B) :
  b = false -> (kassert b ≫= f) = Panic.
Proof. by intros ->. Qed.
Lemma bind_access {A B} (o : option A) (a : A) (f : A -> outcome B) :
  o = Some a -> (access o ≫= f) = f a.
Proof. by intros ->. Qed.
Lemma bind_outcome_inv {A B} (m : outcome A) (f : A -> outcome B) b :
  (m ≫= f) = Ret b -> exists a, m = Ret a /\ f a = Ret b.
Proof. destruct m; cbn; try discriminate. eauto. Qed.
Lemma kassert_inv {B} (b : bool) (f : unit -> outcome B) r :
  (kassert b ≫= f) = Ret r -> b = true /\ f tt = Ret r.
Proof. destruct b; cbn; [auto | discriminate]. Qed.
Lemma access_inv {A B} (o : option A) (f : A -> outcome B) r :
  (access o ≫= f) = Ret r -> exists a, o = Some a /\ f a = Ret r.
Proof. destruct o; cbn; [eauto | discriminate]. Qed.

(** [kstep]: execute one assertion or access whose side condition is closed by
    [lia] or an assumption; [ksteps]: as many as possible. *)
Ltac kside := first [ assumption | done | lia | eassumption ].
Ltac kstep :=
  first [ rewrite bind_kassert by kside
        | rewrite bind_ret
        | erewrite bind_access by kside ].
Ltac ksteps := repeat kstep.
(** [kinv H]: decompose a successful run [H : (m ≫= f) = Ret r]. *)
Ltac kinv H :=
  match type of H with
  | (kassert _ ≫= _) = Ret _ =>
      apply kassert_inv in H; let E := fresh "Hassert" in destruct H as [E H]
  | (access _ ≫= _) = Ret _ =>
      apply access_inv in H; let x := fresh "x" in let E := fresh "Hacc" in
      destruct H as (x & E & H)
  | (_ ≫= _) = Ret _ =>
      apply bind_outcome_inv in H; let x := fresh "x" in let E := fresh "Hrun" in
      destruct H as (x & E & H)
  end.

(** * Code with a state

    Code that changes a state [S].  What was changed before an exception stays
    changed. *)
Inductive sres (S A : Type) : Type :=
| SRet (a : A) (s : S)
| SThrow (e : error_code) (s : S)
| SPanic.
Arguments SRet {S A} a s.
Arguments SThrow {S A} e s.
Arguments SPanic {S A}.
Definition SM (S A : Type) : Type := S -> sres S A.
#[export] Instance SM_ret {S} : MRet (SM S) := fun A a s => SRet a s.
#[export] Instance SM_bind {S} : MBind (SM S) := fun A B f m s =>
  match m s with
  | SRet a s => f a s
  | SThrow e s => SThrow e s
  | SPanic => SPanic
  end.
Section StateCode.
Context {S A : Type}.
Definition sget : SM S S := fun s => SRet s s.
Definition sput (s : S) : SM S unit := fun _ => SRet tt s.
Definition sthrow (e : error_code) : SM S A := fun s => SThrow e s.
Definition scheck (b : bool) : SM S unit := fun s => if b then SRet tt s else SPanic.
(** Code without a state of its own. *)
Definition slift (m : outcome A) : SM S A := fun s =>
  match m with Ret a => SRet a s | Throw e => SThrow e s | Panic => SPanic end.
(** [TRY m FINALLY f]. *)
Definition sfinally (m : SM S A) (f : SM S unit) : SM S A := fun s =>
  match m s with
  | SRet a s => (f ≫= fun _ => mret a) s
  | SThrow e s => (f ≫= fun _ => sthrow e) s
  | SPanic => SPanic
  end.
(** [TRY m EXCEPT h]: the handler gets the error. *)
Definition scatch (m : SM S A) (h : error_code -> SM S A) : SM S A := fun s =>
  match m s with
  | SRet a s => SRet a s
  | SThrow e s => h e s
  | SPanic => SPanic
  end.
End StateCode.

(** [srun m s Q R]: from the state [s], [m] does not panic; it returns in a state
    that [Q] holds of, or throws in a state that [R] holds of. *)
Definition srun {S A} (m : SM S A) (s : S) (Q : A -> S -> Prop) (R : error_code -> S -> Prop)
    : Prop :=
  match m s with SRet a s => Q a s | SThrow e s => R e s | SPanic => False end.
Section Srun.
Context {S A B : Type}.
Implicit Types (m : SM S A) (s : S) (R : error_code -> S -> Prop).
Lemma srun_bind m (f : A -> SM S B) s (Q : B -> S -> Prop) R :
  srun m s (fun a s' => srun (f a) s' Q R) R -> srun (m ≫= f) s Q R.
Proof. unfold srun, mbind, SM_bind. by destruct (m s). Qed.
Lemma srun_unbind m (f : A -> SM S B) s (Q : B -> S -> Prop) R :
  srun (m ≫= f) s Q R -> srun m s (fun a s' => srun (f a) s' Q R) R.
Proof. unfold srun, mbind, SM_bind. by destruct (m s). Qed.
Lemma srun_mono m s (Q Q' : A -> S -> Prop) R R' :
  srun m s Q R -> (forall a s', Q a s' -> Q' a s') -> (forall e s', R e s' -> R' e s') ->
  srun m s Q' R'.
Proof. unfold srun. destruct (m s); naive_solver. Qed.
Lemma srun_ret (a : A) s (Q : A -> S -> Prop) R : Q a s -> srun (mret a) s Q R.
Proof. done. Qed.
Lemma srun_throw e s (Q : A -> S -> Prop) R : R e s -> srun (sthrow e) s Q R.
Proof. done. Qed.
Lemma srun_check b s (Q : unit -> S -> Prop) R : b = true -> Q tt s -> srun (scheck b) s Q R.
Proof. unfold srun, scheck. by intros ->. Qed.
Lemma srun_finally m f s (Q : A -> S -> Prop) R :
  srun m s (fun a s' => srun f s' (fun _ s'' => Q a s'') R)
           (fun e s' => srun f s' (fun _ s'' => R e s'') R) ->
  srun (sfinally m f) s Q R.
Proof.
  unfold srun, sfinally, mbind, SM_bind. destruct (m s) as [a s1|e s1|]; [| |done];
    by destruct (f s1).
Qed.
Lemma srun_catch m h s (Q : A -> S -> Prop) R :
  srun m s Q (fun e s' => srun (h e) s' Q R) -> srun (scatch m h) s Q R.
Proof. unfold srun, scatch. by destruct (m s). Qed.
Lemma srun_catch_bind (m : SM S B) (f : B -> SM S A) h s (Q : A -> S -> Prop) R :
  srun m s (fun a s' => srun (scatch (f a) h) s' Q R) (fun e s' => srun (h e) s' Q R) ->
  srun (scatch (m ≫= f) h) s Q R.
Proof. unfold srun, scatch, mbind, SM_bind. by destruct (m s). Qed.
Lemma srun_inv m s (Q : A -> S -> Prop) R :
  srun m s Q R ->
  (exists a s', m s = SRet a s' /\ Q a s') \/ (exists e s', m s = SThrow e s' /\ R e s').
Proof. unfold srun. destruct (m s); [left|right|]; naive_solver. Qed.
Lemma srun_total m s Q : srun m s Q (fun _ _ => False) -> exists a s', m s = SRet a s'.
Proof. unfold srun. destruct (m s) as [a s'| |]; [|done..]. by exists a, s'. Qed.
Lemma srun_safe m s Q R : srun m s Q R -> m s <> SPanic.
Proof. unfold srun. by destruct (m s). Qed.
(** Whether a run returns, which a concrete one is computed to do. *)
Definition returnsb m s : bool := match m s with SRet _ _ => true | _ => false end.
Lemma srun_returns m s (Q : A -> S -> Prop) R :
  returnsb m s = true -> srun m s Q R -> exists a s', m s = SRet a s' /\ Q a s'.
Proof. unfold returnsb, srun. destruct (m s) as [a s'| |]; try done. intros _ H. by exists a, s'. Qed.
Lemma srun_lift (o : outcome A) s (Q : A -> S -> Prop) R a :
  o = Ret a -> Q a s -> srun (slift o) s Q R.
Proof. unfold srun, slift. by intros ->. Qed.
End Srun.

(** Code that does not throw as long as the environment answers every request
    ([calm]), and keeps it so. *)
Definition no_throw {A} (o : outcome A) : Prop := match o with Throw _ => False | _ => True end.
Lemma no_throw_bind {A B} (o : outcome A) (f : A -> outcome B) :
  no_throw o -> (forall a, no_throw (f a)) -> no_throw (o ≫= f).
Proof. intros Ho Hf. destruct o; [apply Hf|done..]. Qed.
Lemma no_throw_assert b : no_throw (kassert b).
Proof. by destruct b. Qed.
Lemma no_throw_access {A} (o : option A) : no_throw (access o).
Proof. by destruct o. Qed.

Section Quietly.
Context {S : Type} (calm : S -> Prop).
Definition quietly {A} (m : SM S A) : Prop := forall s, calm s ->
  match m s with SRet _ s' => calm s' | SThrow _ _ => False | SPanic => True end.
Context {A B : Type}.
Lemma quietly_ret (a : A) : quietly (mret a).
Proof. by intros s Hs. Qed.
Lemma quietly_bind (m : SM S A) (f : A -> SM S B) :
  quietly m -> (forall a, quietly (f a)) -> quietly (m ≫= f).
Proof.
  intros Hm Hf s Hs. specialize (Hm s Hs). unfold mbind, SM_bind. destruct (m s) as [a s'|e s'|]; [|done..]. by apply Hf.
Qed.
Lemma quietly_catch (m : SM S A) h : quietly m -> quietly (scatch m h).
Proof. intros Hm s Hs. specialize (Hm s Hs). unfold scatch. by destruct (m s). Qed.
Lemma quietly_check b : quietly (scheck b).
Proof. intros s Hs. unfold scheck. by destruct b. Qed.
Lemma quietly_lift (o : outcome A) : no_throw o -> quietly (slift o).
Proof. intros Ho s Hs. unfold slift. by destruct o. Qed.
Lemma quietly_get : quietly sget.
Proof. by intros s Hs. Qed.
Lemma quietly_returns (m : SM S A) s Q R :
  quietly m -> calm s -> srun m s Q R -> exists a s', m s = SRet a s' /\ Q a s' /\ calm s'.
Proof.
  intros Hm Hs H. specialize (Hm s Hs). unfold srun in H. destruct (m s) as [a s'|e s'|]; [|done..]. by exists a, s'.
Qed.
End Quietly.
Create HintDb quiet.
#[export] Hint Resolve no_throw_assert no_throw_access quietly_ret quietly_catch quietly_check quietly_lift
  quietly_get : quiet.
(** Following the code. *)
Ltac quiet_step :=
  match goal with
  | |- forall _, _ => intro
  | |- no_throw (_ ≫= _) => apply no_throw_bind
  | |- quietly _ (_ ≫= _) => apply quietly_bind
  | |- _ => solve [eauto with quiet]
  | |- quietly _ (slift _) => apply quietly_lift
  | |- quietly _ (scatch _ _) => apply quietly_catch
  | |- no_throw (Ret _) => exact I
  | |- no_throw Panic => exact I
  | |- no_throw (match ?x with _ => _ end) => destruct x
  | |- quietly _ (match ?x with _ => _ end) => destruct x
  end.
Ltac quiet_run := cbv zeta; repeat (quiet_step; cbv beta zeta).

(** Boolean tests in hypotheses and goals. *)
Ltac destr_if :=
  match goal with
  | |- context [if ?b then _ else _] => destruct b eqn:?
  | H : context [if ?b then _ else _] |- _ => destruct b eqn:?
  end.

(** Division and remainder for [lia]. *)
Ltac mlia := Z.div_mod_to_equations; lia.
Ltac mnia := Z.div_mod_to_equations; nia.

(** * Wrap-around *)
Lemma wrap_range w z : 0 <= w -> 0 <= wrap w z < 2 ^ w.
Proof. intros. apply Z.mod_pos_bound. by apply Z.pow_pos_nonneg. Qed.
Lemma wrap_small w z : 0 <= z < 2 ^ w -> wrap w z = z.
Proof. apply Z.mod_small. Qed.
Lemma u32_small z : 0 <= z < 4294967296 -> u32 z = z.
Proof. apply (wrap_small 32). Qed.
Lemma u32_range z : 0 <= u32 z < 4294967296.
Proof. by apply (wrap_range 32). Qed.
Lemma testbit_wrap w z i :
  0 <= w -> Z.testbit (wrap w z) i = (i <? w) && Z.testbit z i.
Proof.
  intros Hw. unfold wrap. destruct (Z.ltb_spec i w); cbn.
  - by rewrite Z.mod_pow2_bits_low.
  - by rewrite Z.mod_pow2_bits_high.
Qed.
Lemma testbit_high w z i : 0 <= z < 2 ^ w -> 0 <= w <= i -> Z.testbit z i = false.
Proof.
  intros Hz Hi. rewrite <- (wrap_small w z Hz), testbit_wrap by lia.
  by replace (i <? w) with false by lia.
Qed.
(** A non-negative number whose bits from [w] on are clear is below [2^w]. *)
Lemma bits_below w z :
  0 <= w -> 0 <= z -> (forall i, w <= i -> Z.testbit z i = false) -> 0 <= z < 2 ^ w.
Proof.
  intros Hw Hz Hbits. cut (wrap w z = z).
  { intros <-. by apply wrap_range. }
  apply Z.bits_inj'. intros i Hi. rewrite testbit_wrap by done.
  destruct (Z.ltb_spec i w); cbn; [done|]. by rewrite Hbits.
Qed.

(** Numbers without a common bit: [lor] is [+]. *)
Lemma lor_add k a b : 0 <= k -> 0 <= b < 2 ^ k -> Z.lor (a * 2 ^ k) b = a * 2 ^ k + b.
Proof.
  intros Hk Hb. pose proof (Z.add_lor_land (a * 2 ^ k) b).
  assert (Z.land (a * 2 ^ k) b = 0); [|lia].
  apply Z.bits_inj'. intros i Hi. rewrite Z.land_spec, Z.bits_0, Z.mul_pow2_bits by lia.
  destruct (Z.ltb_spec i k).
  - by rewrite Z.testbit_neg_r by lia.
  - rewrite (testbit_high k b) by lia. apply andb_false_r.
Qed.
Lemma land_low k a : 0 <= k -> Z.land a (2 ^ k - 1) = a `mod` 2 ^ k.
Proof. intros. rewrite <- Z.land_ones by lia. f_equal. rewrite Z.ones_equiv. lia. Qed.
(** A decidable property of the numbers below a bound, by enumeration. *)
Lemma forall_below (P : Z -> bool) (n : nat) :
  forallb (fun i => P (Z.of_nat i)) (seq 0 n) = true -> forall z, 0 <= z < Z.of_nat n -> P z = true.
Proof.
  intros Hall z Hz. rewrite forallb_forall in Hall. specialize (Hall (Z.to_nat z)).
  rewrite Z2Nat.id in Hall by lia. apply Hall. apply in_seq. lia.
Qed.

(** * Counting *)
Fixpoint countZ (f : Z -> bool) (n : nat) : Z :=
  match n with
  | O => 0
  | S n' => countZ f n' + (if f (Z.of_nat n') then 1 else 0)
  end.
Lemma countZ_ext f g n :
  (forall i, 0 <= i < Z.of_nat n -> f i = g i) -> countZ f n = countZ g n.
Proof.
  induction n as [|n IH]; intros Hfg; cbn; [done|].
  rewrite Hfg by lia. rewrite IH; [done|]. intros i Hi. apply Hfg. lia.
Qed.
Lemma countZ_bounds f n : 0 <= countZ f n <= Z.of_nat n.
Proof. induction n as [|n IH]; cbn -[Z.of_nat]; [done|]. destr_if; lia. Qed.
(** Setting the bits of an interval that were all clear adds its length. *)
Lemma countZ_range f g a b n :
  0 <= a <= b ->
  (forall i, 0 <= i < Z.of_nat n -> (a <= i < b -> f i = false /\ g i = true)) ->
  (forall i, 0 <= i < Z.of_nat n -> ~ (a <= i < b) -> g i = f i) ->
  countZ g n = countZ f n + (Z.min b (Z.of_nat n) - Z.min a (Z.of_nat n)).
Proof.
  intros Hab. induction n as [|n IH]; intros Hin Hout; cbn -[Z.of_nat]; [lia|].
  rewrite IH by (intros; (apply Hin || apply Hout); lia).
  destruct (decide (a <= Z.of_nat n < b)) as [Hi|Hi].
  - destruct (Hin (Z.of_nat n)) as [-> ->]; lia.
  - rewrite Hout by lia. lia.
Qed.
Lemma countZ_all f n :
  countZ f n = Z.of_nat n -> forall i, 0 <= i < Z.of_nat n -> f i = true.
Proof.
  induction n as [|n IH]; cbn -[Z.of_nat]; intros Hc i Hi; [lia|].
  pose proof (countZ_bounds f n). destruct (f (Z.of_nat n)) eqn:Hn; [|lia].
  destruct (decide (i = Z.of_nat n)) as [->|]; [done|]. apply IH; lia.
Qed.
Lemma filter_all {A} (P : A -> Prop) `{!forall x, Decision (P x)} (l : list A) :
  Forall P l -> filter P l = l.
Proof. induction 1 as [|x l Hx _ IH]; [done|]. by rewrite filter_cons_True, IH. Qed.
