(* ===== verification/ATree.v ===== *)
(** Address trees: include/hybrid/list/atree.h and atree-abi.h.

    An address tree maps disjoint ranges of keys to nodes.  Each slot of the tree
    belongs to an aligned power-of-two range of keys, given by its center [semi] and
    by [level]; a node sits at a slot whose range contains it, and the two branches
    of a slot cover the halves of its range.  The heaps, the address spaces and the
    unwinder's caches use such trees.

    A tree is a value of [atree]; a pointer [T **] into it is a path from the root.
    [tree_wf] is the invariant the debug build asserts along the searched path (for
    all nodes), [aelems] the nodes a tree holds. *)
From S2P Require Import Prelude.

(** The macros [ATREE_NODE_MIN] and [ATREE_NODE_MAX], which the user of
    atree-abi.h defines for its type of nodes. *)
Class TreeNode (T : Type) : Type := {
  node_min : T -> Z;
  node_max : T -> Z
}.

Inductive atree (T : Type) : Type :=
| ANil
| ANode (a_min : atree T) (x : T) (a_max : atree T).
Arguments ANil {T}.
Arguments ANode {T} a_min x a_max.

(** A step of a path: [a_min] or [a_max]. *)
Inductive branch : Set := Bmin | Bmax.

(** * The walk through the tree

    Keys have [w] bits.  A walk below level 0 shifts by [(unsigned int)-1] bits, which
    C leaves undefined; an x86 processor takes the amount modulo [w], and so does
    [key_bit].  The level is then -1. *)
Definition key_bit (w n : Z) : Z := Z.shiftl 1 (n `mod` w).
Definition ATREE_SEMI0 (w : Z) : Z := (2 ^ w - 1) `div` 2 + 1.
Definition ATREE_LEVEL0 (w : Z) : Z := w - 1.
Definition ATREE_MAPMIN (w semi level : Z) : Z := Z.ldiff semi (key_bit w level).
Definition ATREE_MAPMAX (w semi level : Z) : Z := Z.lor semi (key_bit w level - 1).
Definition ATREE_WALKMIN (w semi level : Z) : Z * Z :=
  (Z.lor (Z.ldiff semi (key_bit w level)) (key_bit w (level - 1)), level - 1).
Definition ATREE_WALKMAX (w semi level : Z) : Z * Z :=
  (Z.lor semi (key_bit w (level - 1)), level - 1).
#[global] Arguments ATREE_WALKMIN : simpl never.
#[global] Arguments ATREE_WALKMAX : simpl never.

Section Ops.
Context {T : Type} `{TreeNode T} (w : Z).

(** [priv_reinsertall], given [insert_at] for the root it inserts into. *)
Fixpoint priv_reinsertall (insert : atree T -> T -> outcome (atree T))
    (root insert_root : atree T) : outcome (atree T) :=
  match insert_root with
  | ANil => Ret root
  | ANode l x r =>
      priv_reinsertall insert root l ≫= fun root1 =>
      priv_reinsertall insert root1 r ≫= fun root2 =>
      insert root2 x
  end.

(** The assertions at the label [again] of the three insertion functions. *)
Definition insert_checks (newleaf : T) (semi level : Z) : outcome unit :=
  kassert (node_min newleaf <=? node_max newleaf) ≫= fun _ =>
  kassert (ATREE_MAPMIN w semi level <=? node_min newleaf) ≫= fun _ =>
  kassert (node_max newleaf <=? ATREE_MAPMAX w semi level).
Definition overlaps (x y : T) : bool :=
  (node_min x <=? node_max y) && (node_min y <=? node_max x).
Definition covers (x : T) (key : Z) : bool := (node_min x <=? key) && (key <=? node_max x).

Fixpoint insert_at (fuel : nat) (root : atree T) (newleaf : T) (semi level : Z)
    : outcome (atree T) :=
  match fuel with
  | O => Panic
  | S fuel =>
      insert_checks newleaf semi level ≫= fun _ =>
      match root with
      | ANil => Ret (ANode ANil newleaf ANil)
      | ANode l iter r =>
          kassert (negb (overlaps newleaf iter)) ≫= fun _ =>
          if covers newleaf semi then
            kassert ((node_max iter <=? semi) || (semi <=? node_min iter)) ≫= fun _ =>
            priv_reinsertall (fun t x => insert_at fuel t x semi level)
              (ANode ANil newleaf ANil) root
          else if node_max newleaf <? semi then
            let '(semi', level') := ATREE_WALKMIN w semi level in
            insert_at fuel l newleaf semi' level' ≫= fun l' => Ret (ANode l' iter r)
          else
            kassert (semi <? node_min newleaf) ≫= fun _ =>
            let '(semi', level') := ATREE_WALKMAX w semi level in
            insert_at fuel r newleaf semi' level' ≫= fun r' => Ret (ANode l iter r')
      end
  end.

(** Each level is entered at most twice: once by the new leaf, once by a node that
    the leaf displaces. *)
Definition insert_fuel (level : Z) : nat := Z.to_nat (2 * level + 3).

(** [tryinsert_at]: the result and the tree afterwards. *)
Fixpoint tryinsert_at (fuel : nat) (root : atree T) (newleaf : T) (semi level : Z)
    : outcome (bool * atree T) :=
  match fuel with
  | O => Panic
  | S fuel =>
      insert_checks newleaf semi level ≫= fun _ =>
      match root with
      | ANil => Ret (true, ANode ANil newleaf ANil)
      | ANode l iter r =>
          if overlaps newleaf iter then Ret (false, root)
          else if covers newleaf semi then
            kassert ((node_max iter <=? semi) || (semi <=? node_min iter)) ≫= fun _ =>
            priv_reinsertall
              (fun t x => insert_at (insert_fuel level) t x semi level)
              (ANode ANil newleaf ANil) root ≫= fun t => Ret (true, t)
          else if node_max newleaf <? semi then
            let '(semi', level') := ATREE_WALKMIN w semi level in
            tryinsert_at fuel l newleaf semi' level' ≫= fun '(b, l') =>
            Ret (b, ANode l' iter r)
          else
            kassert (semi <? node_min newleaf) ≫= fun _ =>
            let '(semi', level') := ATREE_WALKMAX w semi level in
            tryinsert_at fuel r newleaf semi' level' ≫= fun '(b, r') =>
            Ret (b, ANode l iter r')
      end
  end.

(** [pinsert_at]: the path of the slot the leaf was stored in, its [semi] and
    [level], and the tree afterwards. *)
Fixpoint pinsert_at (fuel : nat) (root : atree T) (newleaf : T) (semi level : Z)
    : outcome (list branch * Z * Z * atree T) :=
  match fuel with
  | O => Panic
  | S fuel =>
      insert_checks newleaf semi level ≫= fun _ =>
      match root with
      | ANil => Ret ([], semi, level, ANode ANil newleaf ANil)
      | ANode l iter r =>
          kassert (negb (overlaps newleaf iter)) ≫= fun _ =>
          if covers newleaf semi then
            kassert ((node_max iter <=? semi) || (semi <=? node_min iter)) ≫= fun _ =>
            priv_reinsertall
              (fun t x => insert_at (insert_fuel level) t x semi level)
              (ANode ANil newleaf ANil) root ≫= fun t => Ret ([], semi, level, t)
          else if node_max newleaf <? semi then
            let '(semi', level') := ATREE_WALKMIN w semi level in
            pinsert_at fuel l newleaf semi' level' ≫= fun '(p, s, v, l') =>
            Ret (Bmin :: p, s, v, ANode l' iter r)
          else
            kassert (semi <? node_min newleaf) ≫= fun _ =>
            let '(semi', level') := ATREE_WALKMAX w semi level in
            pinsert_at fuel r newleaf semi' level' ≫= fun '(p, s, v, r') =>
            Ret (Bmax :: p, s, v, ANode l iter r')
      end
  end.

(** [pop_at] on the slot it is given: the node that was there, and the slot's tree
    afterwards. *)
Definition pop_at (slot : atree T) (semi level : Z) : outcome (T * atree T) :=
  match slot with
  | ANil => Panic
  | ANode l root r =>
      let insert t x := insert_at (insert_fuel level) t x semi level in
      priv_reinsertall insert ANil l ≫= fun t1 =>
      priv_reinsertall insert t1 r ≫= fun t2 =>
      Ret (root, t2)
  end.

(** The assertions of the debug build on the node a search visits. *)
Definition locate_checks (x : T) (semi level : Z) : outcome unit :=
  kassert (node_min x <=? node_max x) ≫= fun _ =>
  kassert (ATREE_MAPMIN w semi level <=? node_min x) ≫= fun _ =>
  kassert (node_max x <=? ATREE_MAPMAX w semi level).

Fixpoint locate_at (root : atree T) (key semi level : Z) : outcome (option T) :=
  match root with
  | ANil => Ret None
  | ANode l x r =>
      locate_checks x semi level ≫= fun _ =>
      if covers x key then Ret (Some x)
      else kassert (negb (level =? -1)) ≫= fun _ =>
      if key <? semi then
        let '(semi', level') := ATREE_WALKMIN w semi level in locate_at l key semi' level'
      else
        let '(semi', level') := ATREE_WALKMAX w semi level in locate_at r key semi' level'
  end.

(** The slot found below a branch, as seen from the node above it. *)
Definition ptr_step (b : branch) (o : option (list branch * Z * Z))
    : option (list branch * Z * Z) :=
  match o with Some (p, s, v) => Some (b :: p, s, v) | None => None end.

Fixpoint plocate_at (root : atree T) (key semi level : Z)
    : outcome (option (list branch * Z * Z)) :=
  match root with
  | ANil => Ret None
  | ANode l x r =>
      locate_checks x semi level ≫= fun _ =>
      if covers x key then Ret (Some ([], semi, level))
      else kassert (negb (level =? -1)) ≫= fun _ =>
      if key <? semi then
        let '(semi', level') := ATREE_WALKMIN w semi level in
        plocate_at l key semi' level' ≫= fun o =>
        Ret (ptr_step Bmin o)
      else
        let '(semi', level') := ATREE_WALKMAX w semi level in
        plocate_at r key semi' level' ≫= fun o =>
        Ret (ptr_step Bmax o)
  end.

(** Reading and writing the slot a pointer leads to. *)
Fixpoint slot_get (root : atree T) (p : list branch) : outcome (atree T) :=
  match p, root with
  | [], _ => Ret root
  | Bmin :: p, ANode l _ _ => slot_get l p
  | Bmax :: p, ANode _ _ r => slot_get r p
  | _, ANil => Panic
  end.
Fixpoint slot_set (root : atree T) (p : list branch) (t : atree T) : outcome (atree T) :=
  match p, root with
  | [], _ => Ret t
  | Bmin :: p, ANode l x r => slot_set l p t ≫= fun l' => Ret (ANode l' x r)
  | Bmax :: p, ANode l x r => slot_set r p t ≫= fun r' => Ret (ANode l x r')
  | _, ANil => Panic
  end.

(** [pop_at] through a pointer into the tree. *)
Definition ppop_at (root : atree T) (p : list branch) (semi level : Z)
    : outcome (T * atree T) :=
  slot_get root p ≫= fun slot =>
  pop_at slot semi level ≫= fun '(x, slot') =>
  slot_set root p slot' ≫= fun root' =>
  Ret (x, root').

Definition remove_at (root : atree T) (key semi level : Z)
    : outcome (option T * atree T) :=
  plocate_at root key semi level ≫= fun remove_head =>
  match remove_head with
  | None => Ret (None, root)
  | Some (p, s, v) =>
      ppop_at root p s v ≫= fun '(x, root') => Ret (Some x, root')
  end.

(** The convenience functions. *)
Definition insert (root : atree T) (newleaf : T) : outcome (atree T) :=
  insert_at (insert_fuel (ATREE_LEVEL0 w)) root newleaf (ATREE_SEMI0 w) (ATREE_LEVEL0 w).
Definition tryinsert (root : atree T) (newleaf : T) : outcome (bool * atree T) :=
  tryinsert_at (insert_fuel (ATREE_LEVEL0 w)) root newleaf
    (ATREE_SEMI0 w) (ATREE_LEVEL0 w).
Definition pop (root : atree T) : outcome (T * atree T) :=
  pop_at root (ATREE_SEMI0 w) (ATREE_LEVEL0 w).
Definition remove (root : atree T) (key : Z) : outcome (option T * atree T) :=
  remove_at root key (ATREE_SEMI0 w) (ATREE_LEVEL0 w).
Definition locate (root : atree T) (key : Z) : outcome (option T) :=
  locate_at root key (ATREE_SEMI0 w) (ATREE_LEVEL0 w).
End Ops.

(** * What a tree holds, and when it is well-formed *)
Section Spec.
Context {T : Type} `{TreeNode T} (w : Z) (Hw : 1 <= w).

Fixpoint aelems (t : atree T) : list T :=
  match t with ANil => [] | ANode l x r => x :: aelems l ++ aelems r end.

Definition disjoint (x y : T) : Prop := node_max x < node_min y \/ node_max y < node_min x.
Fixpoint separated (l : list T) : Prop :=
  match l with [] => True | x :: l => Forall (disjoint x) l /\ separated l end.

(** A slot at [level] has the [2 ^ (level + 1)] keys from [base]. *)
Definition in_slot (x : T) (base level : Z) : Prop :=
  base <= node_min x <= node_max x /\ node_max x < base + 2 ^ (level + 1).
Fixpoint tree_wf (t : atree T) (base level : Z) : Prop :=
  match t with
  | ANil => True
  | ANode l x r =>
      in_slot x base level /\ tree_wf l base (level - 1) /\
      tree_wf r (base + 2 ^ level) (level - 1)
  end.
(** [semi] and [level] describe the slot that starts at [base]. *)
Definition slot_at (base semi level : Z) : Prop :=
  -1 <= level < w /\ 0 <= base /\ (2 ^ (level + 1) | base) /\
  (0 <= level -> semi = base + 2 ^ level) /\
  ATREE_MAPMIN w semi level <= base /\
  base + 2 ^ (level + 1) - 1 <= ATREE_MAPMAX w semi level.

(** ** Slots *)
Lemma lor_ge a b : 0 <= a -> 0 <= b -> a <= Z.lor a b.
Proof.
  intros. apply Z.ldiff_le; [by apply Z.lor_nonneg|]. apply Z.bits_inj'. intros i _.
  rewrite Z.ldiff_spec, Z.lor_spec, Z.bits_0. by destruct (Z.testbit a i), (Z.testbit b i).
Qed.
Lemma ldiff_lor_le a b : 0 <= a -> Z.ldiff (Z.lor a b) b <= a.
Proof.
  intros. apply Z.ldiff_le; [done|]. apply Z.bits_inj'. intros i _.
  rewrite !Z.ldiff_spec, Z.lor_spec, Z.bits_0.
  by destruct (Z.testbit a i), (Z.testbit b i).
Qed.
Lemma lor_bit b n : 0 <= n -> (2 ^ (n + 1) | b) -> Z.lor b (2 ^ n) = b + 2 ^ n.
Proof. intros Hn [k ->]. apply lor_add; [lia|]. rewrite Z.pow_add_r; lia. Qed.
Lemma ldiff_bit b n : 0 <= n -> (2 ^ (n + 1) | b) -> Z.ldiff (b + 2 ^ n) (2 ^ n) = b.
Proof.
  intros Hn Hb. rewrite <- lor_bit by done. destruct Hb as [k ->].
  apply Z.bits_inj'. intros i Hi. rewrite Z.ldiff_spec, Z.lor_spec, Z.pow2_bits_eqb by done.
  destruct (Z.eqb_spec n i) as [->|]; [|by rewrite orb_false_r, andb_true_r].
  rewrite Z.mul_pow2_bits_low by lia. done.
Qed.
Lemma key_bit_small n : 0 <= n < w -> key_bit w n = 2 ^ n.
Proof. intros. unfold key_bit. by rewrite Z.mod_small, Z.shiftl_1_l by lia. Qed.
Lemma key_bit_nonneg n : 1 <= key_bit w n.
Proof.
  unfold key_bit. rewrite Z.shiftl_1_l. pose proof (Z.mod_pos_bound n w).
  pose proof (Z.pow_pos_nonneg 2 (n `mod` w)). lia.
Qed.
Lemma slot_at_intro base level :
  0 <= level < w -> 0 <= base -> (2 ^ (level + 1) | base) ->
  slot_at base (base + 2 ^ level) level.
Proof.
  intros Hl Hb Hd. split_and!; try done; try lia.
  - unfold ATREE_MAPMIN. rewrite key_bit_small, ldiff_bit by (done || lia). lia.
  - unfold ATREE_MAPMAX. rewrite key_bit_small by lia. destruct Hd as [k ->].
    rewrite Z.pow_add_r by lia.
    replace (k * (2 ^ level * 2 ^ 1) + 2 ^ level) with ((2 * k + 1) * 2 ^ level) by lia.
    pose proof (Z.pow_pos_nonneg 2 level). rewrite lor_add; lia.
Qed.
(** The slot of one key that a walk below level 0 leads to. *)
Lemma slot_at_key base :
  0 <= base -> slot_at base (Z.lor base (key_bit w (-1))) (-1).
Proof.
  intros Hb. pose proof (key_bit_nonneg (-1)). split_and!; try lia.
  - apply Z.divide_1_l.
  - by apply ldiff_lor_le.
  - transitivity (Z.lor base (key_bit w (-1))).
    + change (2 ^ (-1 + 1)) with 1. etransitivity; [|apply lor_ge; lia]. lia.
    + apply lor_ge; [apply Z.lor_nonneg|]; lia.
Qed.
Lemma slot_walkmin base semi level :
  slot_at base semi level -> 0 <= level ->
  exists semi', ATREE_WALKMIN w semi level = (semi', level - 1) /\
    slot_at base semi' (level - 1).
Proof.
  intros (Hl & Hb & Hd & Hs & _) Hl0. eexists; split; [done|]. rewrite Hs by done.
  rewrite (key_bit_small level), ldiff_bit by (done || lia).
  destruct (decide (level = 0)) as [->|]; [by apply slot_at_key|].
  assert (Hd' : (2 ^ (level - 1 + 1) | base)).
  { replace (level - 1 + 1) with level by lia. etransitivity; [|apply Hd].
    exists 2. rewrite Z.pow_add_r; lia. }
  rewrite key_bit_small, lor_bit by (done || lia). apply slot_at_intro; (done || lia).
Qed.
Lemma slot_walkmax base semi level :
  slot_at base semi level -> 0 <= level ->
  exists semi', ATREE_WALKMAX w semi level = (semi', level - 1) /\
    slot_at (base + 2 ^ level) semi' (level - 1).
Proof.
  intros (Hl & Hb & Hd & Hs & _) Hl0. eexists; split; [done|]. rewrite Hs by done.
  pose proof (Z.pow_pos_nonneg 2 level).
  destruct (decide (level = 0)) as [->|]; [apply slot_at_key; lia|].
  assert (Hd' : (2 ^ (level - 1 + 1) | base + 2 ^ level)).
  { replace (level - 1 + 1) with level by lia. apply Z.divide_add_r; [|done].
    etransitivity; [|apply Hd]. exists 2. rewrite Z.pow_add_r; lia. }
  rewrite key_bit_small, lor_bit by (done || lia). apply slot_at_intro; (done || lia).
Qed.
Lemma slot_at_root : slot_at 0 (ATREE_SEMI0 w) (ATREE_LEVEL0 w).
Proof.
  unfold ATREE_SEMI0, ATREE_LEVEL0.
  replace ((2 ^ w - 1) `div` 2 + 1) with (0 + 2 ^ (w - 1)).
  { apply slot_at_intro; [lia|lia|apply Z.divide_0_r]. }
  replace (2 ^ w) with (2 * 2 ^ (w - 1)); [mlia|].
  rewrite <- Z.pow_succ_r by lia. f_equal. lia.
Qed.

(** ** Sets of disjoint ranges *)
#[export] Instance disjoint_sym : Symmetric disjoint.
Proof. intros x y []; [right|left]; done. Qed.
#[export] Instance separated_perm : Proper ((≡ₚ) ==> iff) separated.
Proof.
  assert (Himp : forall l k, l ≡ₚ k -> separated l -> separated k).
  { induction 1 as [|x l k Hp IH|x y l|l k m _ IH1 _ IH2]; cbn; [done| | |by auto].
    - intros [Hx Hl]. split; [|by auto]. rewrite list.Forall_forall in *.
      intros y Hy. apply Hx. by rewrite Hp.
    - intros (Hx & Hy & Hl). apply Forall_cons_1 in Hx as [Hyx Hxl].
      split_and!; try done. constructor; [by symmetry|done]. }
  intros l k Hp. split; apply Himp; [done|by symmetry].
Qed.
Lemma separated_app l k :
  separated (l ++ k) <->
  separated l /\ separated k /\ forall x y, x ∈ l -> y ∈ k -> disjoint x y.
Proof.
  induction l as [|x l IH]; cbn.
  - split; [|tauto]. intros. split_and!; [done..|]. by intros ?? ?%not_elem_of_nil.
  - rewrite Forall_app, IH, !list.Forall_forall. split.
    + intros ([Hl Hk] & ? & ? & Hlk). split; [done|]. split; [done|].
      intros y z [->|Hy]%elem_of_cons Hz; [by apply Hk|by apply Hlk].
    + intros ((Hx & ?) & ? & Hlk). split; [split; [done|]|split; [done|split; [done|]]].
      * intros y Hy. apply Hlk; [by left|done].
      * intros y z Hy Hz. apply Hlk; [by right|done].
Qed.
Lemma overlaps_false (x y : T) : overlaps x y = false <-> disjoint x y.
Proof. unfold overlaps, disjoint. lia. Qed.
(** [separated] as a program, for concrete trees. *)
Fixpoint separatedb (l : list T) : bool :=
  match l with [] => true | x :: l => forallb (fun y => negb (overlaps x y)) l && separatedb l end.
Lemma separatedb_spec l : separatedb l = true -> separated l.
Proof.
  induction l as [|x l IH]; cbn; [done|]. rewrite andb_true_iff, forallb_forall.
  intros [Hx Hl]. split; [|auto]. apply Forall_forall. intros y Hy.
  apply overlaps_false, negb_true_iff. auto.
Qed.

Lemma in_slot_min x base level :
  0 <= level -> in_slot x base level -> node_max x < base + 2 ^ level ->
  in_slot x base (level - 1).
Proof. unfold in_slot. intros. replace (level - 1 + 1) with level by lia. lia. Qed.
Lemma in_slot_max x base level :
  0 <= level -> in_slot x base level -> base + 2 ^ level <= node_min x ->
  in_slot x (base + 2 ^ level) (level - 1).
Proof.
  unfold in_slot. intros Hl. replace (level - 1 + 1) with level by lia.
  rewrite Z.pow_add_r by lia. lia.
Qed.
Lemma tree_wf_elems t base level :
  -1 <= level -> tree_wf t base level -> Forall (fun x => in_slot x base level) (aelems t).
Proof.
  revert base level. induction t as [|l IHl x r IHr]; intros base level Hlv; cbn; [done|].
  intros (Hx & Hl & Hr). constructor; [done|].
  destruct (decide (level = -1)) as [->|].
  { destruct l as [|? y ?], r as [|? z ?]; cbn in *; unfold in_slot in *; try lia. done. }
  apply IHl in Hl; [|lia]. apply IHr in Hr; [|lia]. rewrite Forall_app; split.
  - eapply list.Forall_impl; [done|]. intros y. unfold in_slot.
    replace (level - 1 + 1) with level by lia. rewrite Z.pow_add_r by lia. lia.
  - eapply list.Forall_impl; [done|]. intros y. unfold in_slot.
    replace (level - 1 + 1) with level by lia. rewrite Z.pow_add_r by lia. lia.
Qed.
(** Below level 0 there are no branches. *)
Lemma tree_wf_key l x r base : tree_wf (ANode l x r) base (-1) -> l = ANil /\ r = ANil.
Proof. destruct l, r; cbn; unfold in_slot; cbn; lia || auto. Qed.

(** ** Insertion *)
Lemma insert_checks_ok x base semi level :
  slot_at base semi level -> in_slot x base level -> insert_checks w x semi level = Ret tt.
Proof.
  intros (_ & _ & _ & _ & Hmin & Hmax) Hx. unfold insert_checks, in_slot in *.
  rewrite !bind_kassert by lia. by apply kassert_true; lia.
Qed.

(** Any insertion function that keeps [P] may be iterated over a tree. *)
Lemma reinsertall_spec (P : atree T -> Prop) (good : T -> Prop) ins :
  (forall t y, P t -> good y -> separated (y :: aelems t) ->
     exists t', ins t y = Ret t' /\ P t' /\ aelems t' ≡ₚ y :: aelems t) ->
  forall from t, P t -> Forall good (aelems from) -> separated (aelems from ++ aelems t) ->
  exists t', priv_reinsertall ins t from = Ret t' /\ P t' /\
    aelems t' ≡ₚ aelems from ++ aelems t.
Proof.
  intros Hins from. induction from as [|l IHl x r IHr]; intros t HP Hg Hs; cbn in *.
  { by exists t. }
  inversion_clear Hg as [|? ? Hx Hlr]. apply Forall_app in Hlr as [Hgl Hgr].
  assert (Hperm : x :: (aelems l ++ aelems r) ++ aelems t ≡ₚ
    x :: aelems r ++ aelems l ++ aelems t) by solve_Permutation.
  change (separated (x :: (aelems l ++ aelems r) ++ aelems t)) in Hs. rewrite Hperm in Hs.
  assert (Hs1 : separated (aelems l ++ aelems t)).
  { destruct Hs as [_ Hs]. by apply separated_app in Hs as (_ & Hs & _). }
  destruct (IHl t HP Hgl Hs1) as (t1 & -> & HP1 & Hp1). cbn.
  destruct (IHr t1 HP1 Hgr) as (t2 & -> & HP2 & Hp2).
  { rewrite Hp1. by destruct Hs. }
  cbn. destruct (Hins t2 x HP2 Hx) as (t' & -> & HP' & Hp').
  { by rewrite Hp2, Hp1. }
  exists t'. split_and!; [done..|]. rewrite Hp', Hp2, Hp1. by symmetry.
Qed.

(** What an insertion into the slot at [base] achieves. *)
Definition inserted (t : atree T) (x : T) (base level : Z) (r : outcome (atree T)) : Prop :=
  exists t', r = Ret t' /\ tree_wf t' base level /\ aelems t' ≡ₚ x :: aelems t.
Definition insert_spec (fuel : nat) (level : Z) : Prop :=
  forall base semi t x, slot_at base semi level -> tree_wf t base level ->
    in_slot x base level -> separated (x :: aelems t) ->
    inserted t x base level (insert_at w fuel t x semi level).

(** Two disjoint ranges do not fit into the slot of one key. *)
Lemma node_level_nonneg l c r x base semi level :
  slot_at base semi level -> tree_wf (ANode l c r) base level -> in_slot x base level ->
  separated (x :: aelems (ANode l c r)) ->
  0 <= level /\ disjoint x c /\ semi = base + 2 ^ level /\
  separated (x :: aelems l) /\ separated (x :: aelems r).
Proof.
  intros (Hlv & _ & _ & Hs & _) (Hc & _) Hx [Hxc Hcl]. cbn in *.
  apply Forall_cons_1 in Hxc as [Hd Hlr]. apply Forall_app in Hlr as [Hxl Hxr].
  destruct Hcl as [_ (Hsl & Hsr & _)%separated_app].
  assert (0 <= level).
  { destruct (decide (level = -1)) as [->|]; [|lia].
    unfold in_slot, disjoint in *. cbn in *. lia. }
  split_and!; auto.
Qed.
(** A leaf that does not cover [semi] ends up below the node in its way. *)
Lemma insert_descend fuel l c r x base semi level :
  insert_spec fuel (level - 1) ->
  slot_at base semi level -> tree_wf (ANode l c r) base level -> in_slot x base level ->
  separated (x :: aelems (ANode l c r)) -> covers x semi = false ->
  exists l' r', insert_at w (S fuel) (ANode l c r) x semi level = Ret (ANode l' c r') /\
    tree_wf (ANode l' c r') base level /\
    aelems (ANode l' c r') ≡ₚ x :: aelems (ANode l c r).
Proof.
  intros IH Hat Hwf Hx Hsep Hcov.
  destruct (node_level_nonneg _ _ _ _ _ _ _ Hat Hwf Hx Hsep) as (Hl & Hd & Hs & Hsl & Hsr).
  cbn [insert_at]. rewrite (insert_checks_ok _ _ _ _ Hat Hx). cbn.
  rewrite (proj2 (overlaps_false _ _) Hd), Hcov. cbn. destruct Hwf as (Hc & Hwl & Hwr).
  destruct (Z.ltb_spec (node_max x) semi) as [Hlt|Hge].
  - destruct (slot_walkmin _ _ _ Hat Hl) as (semi' & -> & Hat').
    destruct (IH base semi' l x Hat' Hwl) as (l' & -> & Hwl' & Hp); [|done|].
    { apply in_slot_min; (done || lia). }
    exists l', r. split_and!; [done..|]. cbn. rewrite Hp. solve_Permutation.
  - assert (Hmin : semi < node_min x) by (unfold covers, in_slot in *; lia).
    rewrite bind_kassert by lia.
    destruct (slot_walkmax _ _ _ Hat Hl) as (semi' & -> & Hat').
    destruct (IH _ semi' r x Hat' Hwr) as (r' & -> & Hwr' & Hp); [|done|].
    { apply in_slot_max; (done || lia). }
    exists l, r'. split_and!; [done..|]. cbn. rewrite Hp. solve_Permutation.
Qed.
(** A leaf that covers [semi] takes the slot; the nodes that were there are
    inserted below it. *)
Lemma reinsert_below fuel from c base semi level :
  insert_spec fuel (level - 1) -> slot_at base semi level -> in_slot c base level ->
  covers c semi = true -> tree_wf from base level -> separated (c :: aelems from) ->
  exists l r, priv_reinsertall (fun t x => insert_at w (S fuel) t x semi level)
      (ANode ANil c ANil) from = Ret (ANode l c r) /\
    tree_wf (ANode l c r) base level /\ aelems (ANode l c r) ≡ₚ c :: aelems from.
Proof.
  intros IH Hat Hc Hcov Hwf Hsep.
  set (P t := tree_wf t base level /\ exists l r, t = ANode l c r).
  destruct (reinsertall_spec P (fun x => in_slot x base level)
    (fun t x => insert_at w (S fuel) t x semi level)) with (from := from)
    (t := ANode ANil c ANil) as (t' & Hr & (Hwf' & l & r & ->) & Hp).
  - intros t y [Hwt (l & r & ->)] Hy Hs.
    destruct (insert_descend fuel l c r y base semi level) as (l' & r' & ? & ? & ?);
      try done.
    + cbn in Hs. destruct Hs as [[Hd _]%Forall_cons_1 _].
      unfold covers, disjoint in *. lia.
    + exists (ANode l' c r'). split_and!; [done|split; eauto|done].
  - split; eauto. by split_and!.
  - apply tree_wf_elems; [|done]. by destruct Hat as [? _]; lia.
  - rewrite Permutation_app_comm. done.
  - exists l, r. split_and!; [done..|]. rewrite Hp. cbn. solve_Permutation.
Qed.
Lemma insert_at_spec fuel level :
  -1 <= level -> 2 * level + 3 <= Z.of_nat fuel -> insert_spec fuel level.
Proof.
  intros Hl. remember (Z.to_nat (level + 1)) as n eqn:Hn. revert fuel level Hl Hn.
  induction n as [|n IH]; intros fuel level Hlv Hn Hfuel base semi t x Hat Hwf Hx Hsep;
    (destruct fuel as [|fuel]; [lia|]); destruct t as [|l c r].
  1,3: exists (ANode ANil x ANil); cbn; by rewrite (insert_checks_ok _ _ _ _ Hat Hx).
  all: destruct (node_level_nonneg _ _ _ _ _ _ _ Hat Hwf Hx Hsep) as (Hl & Hd & Hs & _).
  { lia. }
  destruct (covers x semi) eqn:Hcov.
  - cbn [insert_at]. rewrite (insert_checks_ok _ _ _ _ Hat Hx). cbn.
    rewrite (proj2 (overlaps_false _ _) Hd), Hcov. cbn.
    rewrite bind_kassert by (unfold covers, disjoint in *; lia).
    destruct fuel as [|fuel]; [lia|].
    destruct (reinsert_below fuel (ANode l c r) x base semi level) as (l' & r' & ? & ? & ?);
      try done.
    { apply IH; lia. }
    by exists (ANode l' x r').
  - destruct (insert_descend fuel l c r x base semi level) as (l' & r' & ? & ? & ?); try done.
    { apply IH; lia. }
    by exists (ANode l' c r').
Qed.

(** ** Lookup *)
Lemma locate_checks_ok x base semi level :
  slot_at base semi level -> in_slot x base level -> locate_checks w x semi level = Ret tt.
Proof. exact (insert_checks_ok x base semi level). Qed.

Definition in_keys (key base level : Z) : Prop := base <= key < base + 2 ^ (level + 1).
(** A key of the slot that its node does not cover is in one of the branches, and
    no node of the other branch covers it. *)
Lemma key_branch l x r base semi level key :
  slot_at base semi level -> tree_wf (ANode l x r) base level ->
  in_keys key base level -> covers x key = false ->
  0 <= level /\ semi = base + 2 ^ level /\
  if key <? semi
  then in_keys key base (level - 1) /\ forall y, y ∈ aelems r -> covers y key = false
  else in_keys key (base + 2 ^ level) (level - 1) /\
       forall y, y ∈ aelems l -> covers y key = false.
Proof.
  intros (Hlv & _ & _ & Hs & _) (Hx & Hl & Hr) Hk Hcov.
  assert (H0 : 0 <= level).
  { destruct (decide (level = -1)) as [->|]; [|lia].
    unfold in_slot, in_keys, covers in *. cbn in *. lia. }
  split; [done|]. specialize (Hs H0). split; [done|].
  apply tree_wf_elems in Hl, Hr; [|lia..]. rewrite list.Forall_forall in Hl, Hr.
  unfold in_keys in *. replace (level - 1 + 1) with level by lia.
  rewrite Z.pow_add_r in Hk by lia.
  destruct (Z.ltb_spec key semi); (split; [lia|]); intros y Hy;
    [specialize (Hr y Hy)|specialize (Hl y Hy)]; unfold in_slot, covers in *;
    replace (level - 1 + 1) with level in * by lia; lia.
Qed.
Lemma locate_at_spec t base semi level key :
  slot_at base semi level -> tree_wf t base level -> in_keys key base level ->
  exists o, locate_at w t key semi level = Ret o /\
    match o with
    | Some x => x ∈ aelems t /\ covers x key = true
    | None => forall x, x ∈ aelems t -> covers x key = false
    end.
Proof.
  revert base semi level. induction t as [|l IHl x r IHr]; intros base semi level Hat Hwf Hk.
  { exists None. split; [done|]. by intros ? ?%not_elem_of_nil. }
  cbn [locate_at]. rewrite (locate_checks_ok _ _ _ _ Hat (proj1 Hwf)). cbn [outcome_bind mbind].
  destruct (covers x key) eqn:Hcov.
  { exists (Some x). split; [done|]. split; [by left|done]. }
  destruct (key_branch _ _ _ _ _ _ _ Hat Hwf Hk Hcov) as (Hl & Hs & Hb).
  rewrite bind_kassert by lia. destruct Hwf as (_ & Hwl & Hwr). cbn [aelems].
  destruct (key <? semi).
  - destruct (slot_walkmin _ _ _ Hat Hl) as (semi' & -> & Hat').
    destruct (IHl _ _ _ Hat' Hwl (proj1 Hb)) as (o & -> & Ho). exists o. split; [done|].
    destruct o as [y|]; [destruct Ho; split; [right; apply elem_of_app; by left|done]|].
    intros y [->|[Hy|Hy]%elem_of_app]%elem_of_cons; [done|auto|by apply Hb].
  - destruct (slot_walkmax _ _ _ Hat Hl) as (semi' & -> & Hat').
    destruct (IHr _ _ _ Hat' Hwr (proj1 Hb)) as (o & -> & Ho). exists o. split; [done|].
    destruct o as [y|]; [destruct Ho; split; [right; apply elem_of_app; by right|done]|].
    intros y [->|[Hy|Hy]%elem_of_app]%elem_of_cons; [done|by apply Hb|auto].
Qed.

(** What a pointer into the tree gives its holder: the slot, and the right to
    replace the slot's tree. *)
Definition points_to (t : atree T) (base level : Z) (key : Z) (p : list branch) (s v : Z)
    : Prop :=
  exists b l x r rest, slot_get t p = Ret (ANode l x r) /\ covers x key = true /\
    slot_at b s v /\ tree_wf (ANode l x r) b v /\
    aelems t ≡ₚ aelems (ANode l x r) ++ rest /\
    forall sub, tree_wf sub b v -> exists t', slot_set t p sub = Ret t' /\
      tree_wf t' base level /\ aelems t' ≡ₚ aelems sub ++ rest.
Lemma points_to_min l x r base level key p s v :
  in_slot x base level -> tree_wf r (base + 2 ^ level) (level - 1) ->
  points_to l base (level - 1) key p s v ->
  points_to (ANode l x r) base level key (Bmin :: p) s v.
Proof.
  intros Hx Hr (b & l0 & x0 & r0 & rest & Hget & Hc & Hat & Hwf & Hp & Hset).
  exists b, l0, x0, r0, (rest ++ x :: aelems r). split_and!; try done.
  - cbn [aelems]. rewrite Hp. cbn. solve_Permutation.
  - intros sub Hsub. destruct (Hset sub Hsub) as (t' & He & Hwf' & Hp').
    exists (ANode t' x r). cbn. rewrite He. split_and!; try done.
    rewrite Hp'. solve_Permutation.
Qed.
Lemma points_to_max l x r base level key p s v :
  in_slot x base level -> tree_wf l base (level - 1) ->
  points_to r (base + 2 ^ level) (level - 1) key p s v ->
  points_to (ANode l x r) base level key (Bmax :: p) s v.
Proof.
  intros Hx Hr (b & l0 & x0 & r0 & rest & Hget & Hc & Hat & Hwf & Hp & Hset).
  exists b, l0, x0, r0, (rest ++ x :: aelems l). split_and!; try done.
  - cbn [aelems]. rewrite Hp. cbn. solve_Permutation.
  - intros sub Hsub. destruct (Hset sub Hsub) as (t' & He & Hwf' & Hp').
    exists (ANode l x t'). cbn. rewrite He. split_and!; try done.
    rewrite Hp'. solve_Permutation.
Qed.
Lemma plocate_at_spec t base semi level key :
  slot_at base semi level -> tree_wf t base level -> in_keys key base level ->
  exists o, plocate_at w t key semi level = Ret o /\
    match o with
    | Some (p, s, v) => points_to t base level key p s v
    | None => forall x, x ∈ aelems t -> covers x key = false
    end.
Proof.
  revert base semi level. induction t as [|l IHl x r IHr]; intros base semi level Hat Hwf Hk.
  { exists None. split; [done|]. by intros ? ?%not_elem_of_nil. }
  cbn [plocate_at]. rewrite (locate_checks_ok _ _ _ _ Hat (proj1 Hwf)).
  cbn [outcome_bind mbind]. destruct (covers x key) eqn:Hcov.
  { exists (Some ([], semi, level)). split; [done|].
    exists base, l, x, r, []. split_and!; try done; [by rewrite app_nil_r|].
    intros sub Hsub. exists sub. by rewrite app_nil_r. }
  destruct (key_branch _ _ _ _ _ _ _ Hat Hwf Hk Hcov) as (Hl & Hs & Hb).
  rewrite bind_kassert by lia. destruct Hwf as (Hx & Hwl & Hwr). cbn [aelems].
  destruct (key <? semi).
  - destruct (slot_walkmin _ _ _ Hat Hl) as (semi' & -> & Hat').
    destruct (IHl _ _ _ Hat' Hwl (proj1 Hb)) as (o & -> & Ho).
    eexists; split; [done|]. destruct o as [[[p s] v]|]; cbn.
    + by apply points_to_min.
    + intros y [->|[Hy|Hy]%elem_of_app]%elem_of_cons; [done|auto|by apply Hb].
  - destruct (slot_walkmax _ _ _ Hat Hl) as (semi' & -> & Hat').
    destruct (IHr _ _ _ Hat' Hwr (proj1 Hb)) as (o & -> & Ho).
    eexists; split; [done|]. destruct o as [[[p s] v]|]; cbn.
    + by apply points_to_max.
    + intros y [->|[Hy|Hy]%elem_of_app]%elem_of_cons; [done|by apply Hb|auto].
Qed.

(** ** Removal *)
Lemma insert_fuel_ok level :
  -1 <= level -> insert_spec (insert_fuel level) level.
Proof. intros. apply insert_at_spec; unfold insert_fuel; lia. Qed.
Lemma pop_at_spec l x r base semi level :
  slot_at base semi level -> tree_wf (ANode l x r) base level ->
  separated (aelems (ANode l x r)) ->
  exists t, pop_at w (ANode l x r) semi level = Ret (x, t) /\ tree_wf t base level /\
    aelems t ≡ₚ aelems l ++ aelems r.
Proof.
  intros Hat Hwf [_ Hsep]. assert (Hlv : -1 <= level) by (destruct Hat; lia).
  pose proof (tree_wf_elems _ _ _ Hlv Hwf) as Hall. cbn in Hall.
  apply Forall_cons_1 in Hall as [_ [Hgl Hgr]%Forall_app].
  pose proof (reinsertall_spec (fun t => tree_wf t base level)
    (fun x => in_slot x base level)
    (fun t x => insert_at w (insert_fuel level) t x semi level)) as Hre.
  specialize (Hre (fun t y Ht Hy Hs => insert_fuel_ok level Hlv base semi t y Hat Ht Hy Hs)).
  destruct (Hre l ANil I Hgl) as (t1 & E1 & Hw1 & Hp1).
  { cbn. rewrite app_nil_r. by apply separated_app in Hsep as [? _]. }
  cbn in Hp1. rewrite app_nil_r in Hp1.
  destruct (Hre r t1 Hw1 Hgr) as (t2 & E2 & Hw2 & Hp2).
  { by rewrite Hp1, Permutation_app_comm. }
  exists t2. unfold pop_at. rewrite E1. cbn. rewrite E2. split_and!; try done.
  by rewrite Hp2, Hp1, Permutation_app_comm.
Qed.
Lemma ppop_at_spec t base level key p s v :
  points_to t base level key p s v -> separated (aelems t) ->
  exists x t', ppop_at w t p s v = Ret (x, t') /\ covers x key = true /\
    tree_wf t' base level /\ aelems t ≡ₚ x :: aelems t' /\ separated (aelems t').
Proof.
  intros (b & l & x & r & rest & Hget & Hc & Hat & Hwf & Hp & Hset) Hsep.
  rewrite Hp in Hsep. pose proof Hsep as (Hs1 & _)%separated_app.
  destruct (pop_at_spec l x r b s v Hat Hwf Hs1) as (sub & Hpop & Hwf' & Hp').
  destruct (Hset sub Hwf') as (t' & Hst & Hwt & Hpt).
  exists x, t'. unfold ppop_at. rewrite Hget. cbn [mbind outcome_bind]. rewrite Hpop.
  cbn [mbind outcome_bind]. rewrite Hst. split_and!; try done.
  - rewrite Hp, Hpt, Hp'. done.
  - rewrite Hpt, Hp'. by destruct Hsep.
Qed.
End Spec.

(** * The abstract map

    An address tree implements a partial map from keys to nodes. *)
Section Map.
Context {T : Type} `{TreeNode T} (w : Z) (Hw : 1 <= w).

Definition keymap : Type := Z -> option T.
Inductive tree_op : Type :=
| OpInsert (x : T)
| OpRemove (key : Z)
| OpLocate (key : Z).

Definition tree_step (t : atree T) (op : tree_op) : outcome (option T * atree T) :=
  match op with
  | OpInsert x => insert w t x ≫= fun t' => Ret (None, t')
  | OpRemove key => remove w t key
  | OpLocate key => locate w t key ≫= fun o => Ret (o, t)
  end.
Definition map_step (m : keymap) (op : tree_op) : option T * keymap :=
  match op with
  | OpInsert x => (None, fun k => if covers x k then Some x else m k)
  | OpRemove key =>
      (m key, match m key with
              | Some x => fun k => if covers x k then None else m k
              | None => m
              end)
  | OpLocate key => (m key, m)
  end.
(** A range may be inserted when none of its keys is mapped. *)
Definition node_fits (x : T) : Prop := 0 <= node_min x <= node_max x /\ node_max x < 2 ^ w.
Definition op_ok (m : keymap) (op : tree_op) : Prop :=
  match op with
  | OpInsert x => node_fits x /\ forall k, covers x k = true -> m k = None
  | OpRemove key | OpLocate key => 0 <= key < 2 ^ w
  end.

Fixpoint tree_run (t : atree T) (ops : list tree_op) : outcome (list (option T) * atree T) :=
  match ops with
  | [] => Ret ([], t)
  | op :: ops =>
      tree_step t op ≫= fun '(r, t') =>
      tree_run t' ops ≫= fun '(rs, t'') => Ret (r :: rs, t'')
  end.
Fixpoint map_run (m : keymap) (ops : list tree_op) : list (option T) * keymap :=
  match ops with
  | [] => ([], m)
  | op :: ops =>
      let '(r, m') := map_step m op in
      let '(rs, m'') := map_run m' ops in (r :: rs, m'')
  end.
Fixpoint ops_ok (m : keymap) (ops : list tree_op) : Prop :=
  match ops with
  | [] => True
  | op :: ops => op_ok m op /\ ops_ok (snd (map_step m op)) ops
  end.

Definition atree_ok (t : atree T) : Prop :=
  tree_wf t 0 (ATREE_LEVEL0 w) /\ separated (aelems t).
Definition represents (t : atree T) (m : keymap) : Prop :=
  forall k, 0 <= k < 2 ^ w ->
    match m k with
    | Some x => x ∈ aelems t /\ covers x k = true
    | None => forall x, x ∈ aelems t -> covers x k = false
    end.

Lemma covers_unique l x y k :
  separated l -> x ∈ l -> y ∈ l -> covers x k = true -> covers y k = true -> x = y.
Proof.
  induction l as [|z l IH]; cbn; [by intros _ ?%not_elem_of_nil|].
  intros [Hz Hl] Hx Hy Hcx Hcy. rewrite list.Forall_forall in Hz.
  apply elem_of_cons in Hx as [->|Hx], Hy as [->|Hy]; [done| | |by auto];
    [pose proof (Hz y Hy)|pose proof (Hz x Hx)]; unfold disjoint, covers in *; lia.
Qed.
Lemma in_keys_root k : 0 <= k < 2 ^ w -> in_keys k 0 (ATREE_LEVEL0 w).
Proof. unfold in_keys, ATREE_LEVEL0. by replace (w - 1 + 1) with w by lia. Qed.
Lemma in_slot_root x : node_fits x -> in_slot x 0 (ATREE_LEVEL0 w).
Proof. unfold in_slot, node_fits, ATREE_LEVEL0. by replace (w - 1 + 1) with w by lia. Qed.
Lemma atree_ok_fits t x : atree_ok t -> x ∈ aelems t -> node_fits x.
Proof.
  intros [Hwf _] Hx. apply tree_wf_elems in Hwf; [|unfold ATREE_LEVEL0; lia].
  rewrite list.Forall_forall in Hwf. specialize (Hwf x Hx).
  unfold in_slot, node_fits, ATREE_LEVEL0 in *. by replace (w - 1 + 1) with w in * by lia.
Qed.

(** ** The functions on whole trees *)
Lemma insert_ok t x :
  atree_ok t -> node_fits x -> Forall (disjoint x) (aelems t) ->
  exists t', insert w t x = Ret t' /\ atree_ok t' /\ aelems t' ≡ₚ x :: aelems t.
Proof.
  intros [Hwf Hsep] Hx Hd.
  destruct (insert_fuel_ok w Hw (ATREE_LEVEL0 w)) with (base := 0) (semi := ATREE_SEMI0 w)
    (t := t) (x := x) as (t' & He & Hwf' & Hp); try done.
  - unfold ATREE_LEVEL0. lia.
  - by apply slot_at_root.
  - by apply in_slot_root.
  - exists t'. split_and!; try done. split; [done|]. rewrite Hp. by split.
Qed.
Lemma locate_ok t k :
  atree_ok t -> 0 <= k < 2 ^ w ->
  exists o, locate w t k = Ret o /\
    match o with
    | Some x => x ∈ aelems t /\ covers x k = true
    | None => forall x, x ∈ aelems t -> covers x k = false
    end.
Proof.
  intros [Hwf _] Hk. apply (locate_at_spec w Hw _ 0); [by apply slot_at_root|done|].
  by apply in_keys_root.
Qed.
Lemma plocate_ok t k :
  atree_ok t -> 0 <= k < 2 ^ w ->
  exists o, plocate_at w t k (ATREE_SEMI0 w) (ATREE_LEVEL0 w) = Ret o /\
    match o with
    | Some (p, s, v) => points_to w t 0 (ATREE_LEVEL0 w) k p s v
    | None => forall x, x ∈ aelems t -> covers x k = false
    end.
Proof.
  intros [Hwf _] Hk. apply (plocate_at_spec w Hw _ 0); [by apply slot_at_root|done|].
  by apply in_keys_root.
Qed.
Lemma ppop_ok t k p s v :
  atree_ok t -> points_to w t 0 (ATREE_LEVEL0 w) k p s v ->
  exists x t', ppop_at w t p s v = Ret (x, t') /\ covers x k = true /\
    atree_ok t' /\ aelems t ≡ₚ x :: aelems t'.
Proof.
  intros [_ Hsep] Hp.
  destruct (ppop_at_spec w Hw _ _ _ _ _ _ _ Hp Hsep) as (x & t' & ? & ? & ? & ? & ?).
  by exists x, t'.
Qed.
Lemma remove_ok t k :
  atree_ok t -> 0 <= k < 2 ^ w ->
  exists o t', remove w t k = Ret (o, t') /\ atree_ok t' /\
    match o with
    | Some x => covers x k = true /\ aelems t ≡ₚ x :: aelems t'
    | None => t' = t /\ forall x, x ∈ aelems t -> covers x k = false
    end.
Proof.
  intros Hok Hk. destruct (plocate_ok t k Hok Hk) as (o & He & Ho).
  unfold remove, remove_at. rewrite He. cbn [mbind outcome_bind].
  destruct o as [[[p s] v]|]; [|by exists None, t].
  destruct (ppop_ok t k p s v Hok Ho) as (x & t' & -> & Hc & Hok' & Hp).
  by exists (Some x), t'.
Qed.

(** ** Refinement *)
Lemma unmapped_disjoint t m x :
  atree_ok t -> represents t m -> node_fits x ->
  (forall k, covers x k = true -> m k = None) -> Forall (disjoint x) (aelems t).
Proof.
  intros Hok Hrep Hx Hm. rewrite list.Forall_forall. intros y Hy.
  pose proof (atree_ok_fits t y Hok Hy) as Hfy.
  destruct (overlaps x y) eqn:Ho; [|by apply overlaps_false].
  set (k := Z.max (node_min x) (node_min y)).
  assert (covers x k = true /\ covers y k = true) as [Hcx Hcy]
    by (unfold covers, overlaps, node_fits, k in *; lia).
  specialize (Hrep k). rewrite (Hm k Hcx), Hrep in *; try done;
    unfold covers, node_fits in *; lia.
Qed.
Lemma represents_insert t t' m x :
  represents t m -> aelems t' ≡ₚ x :: aelems t ->
  represents t' (fun k => if covers x k then Some x else m k).
Proof.
  intros Hrep Hp k Hk. specialize (Hrep k Hk).
  destruct (covers x k) eqn:Hc; [|destruct (m k) as [y|]].
  - split; [|done]. rewrite Hp. by left.
  - split; [|apply Hrep]. rewrite Hp. right. apply Hrep.
  - intros y. rewrite Hp. intros [->|Hy]%elem_of_cons; auto.
Qed.
Lemma represents_remove t t' m x :
  represents t m -> separated (aelems t) -> aelems t ≡ₚ x :: aelems t' ->
  represents t' (fun k => if covers x k then None else m k).
Proof.
  intros Hrep Hsep Hp k Hk. specialize (Hrep k Hk).
  rewrite Hp in Hsep. cbn in Hsep. rewrite list.Forall_forall in Hsep.
  destruct Hsep as [Hd _], (covers x k) eqn:Hc; [|destruct (m k) as [y|]].
  - intros y Hy. specialize (Hd y Hy). unfold covers, disjoint in *. lia.
  - destruct Hrep as [Hy Hcy]. rewrite Hp in Hy.
    apply elem_of_cons in Hy as [->|]; [congruence|done].
  - intros y Hy. apply Hrep. rewrite Hp. by right.
Qed.
(** The node a lookup finds is the one the map has. *)
Lemma lookup_agrees t m k (o : option T) :
  atree_ok t -> represents t m -> 0 <= k < 2 ^ w ->
  match o with
  | Some x => x ∈ aelems t /\ covers x k = true
  | None => forall x, x ∈ aelems t -> covers x k = false
  end -> o = m k.
Proof.
  intros Hok Hrep Hk Ho. specialize (Hrep k Hk).
  destruct o as [x|], (m k) as [y|]; try done.
  - f_equal. apply (covers_unique (aelems t) x y k); [apply Hok|naive_solver..].
  - destruct Ho as [Hx Hc]. by rewrite Hrep in Hc.
  - destruct Hrep as [Hx Hc]. by rewrite Ho in Hc.
Qed.
Lemma tree_step_refines t m op :
  atree_ok t -> represents t m -> op_ok m op ->
  exists t', tree_step t op = Ret (fst (map_step m op), t') /\ atree_ok t' /\
    represents t' (snd (map_step m op)).
Proof.
  intros Hok Hrep Hop. destruct op as [x|k|k]; cbn in *.
  - destruct Hop as [Hx Hm]. destruct (insert_ok t x) as (t' & -> & Hok' & Hp); try done.
    { by apply (unmapped_disjoint t m). }
    exists t'. split_and!; try done. by apply (represents_insert t).
  - destruct (remove_ok t k Hok Hop) as (o & t' & -> & Hok' & Ho).
    rewrite <- (lookup_agrees t m k o); try done.
    2: { destruct o as [x|]; [|apply Ho]. destruct Ho as [? Hp]. split; [|done].
         rewrite Hp. by left. }
    exists t'. split_and!; try done. destruct o as [x|].
    + apply (represents_remove t); [done|apply Hok|apply Ho].
    + by destruct Ho as [-> _].
  - destruct (locate_ok t k Hok Hop) as (o & -> & Ho). exists t.
    by rewrite (lookup_agrees t m k o).
Qed.
Lemma tree_run_refines ops t m :
  atree_ok t -> represents t m -> ops_ok m ops ->
  exists t', tree_run t ops = Ret (fst (map_run m ops), t') /\ atree_ok t' /\
    represents t' (snd (map_run m ops)).
Proof.
  revert t m. induction ops as [|op ops IH]; intros t m Hok Hrep; cbn; [eauto|].
  intros [Hop Hops]. destruct (tree_step_refines t m op Hok Hrep Hop) as (t1 & -> & Hok1 & Hr1).
  destruct (map_step m op) as [r m1]. cbn in *.
  destruct (IH t1 m1 Hok1 Hr1 Hops) as (t2 & -> & Hok2 & Hr2).
  destruct (map_run m1 ops) as [rs m2]. by exists t2.
Qed.
End Map.

(** * The variants of insertion *)
Section Variants.
Context {T : Type} `{TreeNode T} (w : Z) (Hw : 1 <= w).

Lemma reinsertall_ext (f g : atree T -> T -> outcome (atree T)) from t t' :
  (forall t x t', f t x = Ret t' -> g t x = Ret t') ->
  priv_reinsertall f t from = Ret t' -> priv_reinsertall g t from = Ret t'.
Proof.
  intros Hfg. revert t t'. induction from as [|l IHl x r IHr]; intros t t' He; [done|].
  cbn in *. kinv He. kinv He. erewrite IHl by done. cbn. erewrite IHr by done. by apply Hfg.
Qed.
(** More fuel does not change the result. *)
Lemma insert_at_mono fuel fuel' t x semi level t' :
  (fuel <= fuel')%nat -> insert_at w fuel t x semi level = Ret t' ->
  insert_at w fuel' t x semi level = Ret t'.
Proof.
  revert fuel' t x semi level t'.
  induction fuel as [|fuel IH]; intros fuel' t x semi level t' Hle He; [done|].
  destruct fuel' as [|fuel']; [lia|]. cbn [insert_at] in *. kinv He. rewrite Hrun. cbn.
  destruct t as [|l c r]; [done|]. kinv He. rewrite bind_kassert by done.
  destruct (covers x semi).
  - kinv He. rewrite bind_kassert by done. eapply reinsertall_ext; [|done].
    intros t0 x1 t1. apply IH. lia.
  - destruct (node_max x <? semi).
    + destruct (ATREE_WALKMIN w semi level). kinv He. by erewrite IH by (done || lia).
    + kinv He. rewrite bind_kassert by done.
      destruct (ATREE_WALKMAX w semi level). kinv He. by erewrite IH by (done || lia).
Qed.

(** [reinsert_below] with the fuel of a caller: the slot keeps its new node, and
    any other fuel that is enough gives the same tree. *)
Lemma reinsert_root fuel from c base semi level t' :
  slot_at w base semi level -> 0 <= level -> in_slot c base level -> covers c semi = true ->
  tree_wf from base level -> separated (c :: aelems from) ->
  priv_reinsertall (fun t x => insert_at w fuel t x semi level) (ANode ANil c ANil) from
    = Ret t' ->
  exists l r, t' = ANode l c r /\
    priv_reinsertall (fun t x => insert_at w (insert_fuel level) t x semi level)
      (ANode ANil c ANil) from = Ret t'.
Proof.
  intros Hat Hl Hc Hcov Hwf Hsep He'.
  destruct (reinsert_below w Hw (Z.to_nat (2 * level + 2)) from c base semi level)
    as (l & r & He & _); try done.
  { apply insert_at_spec; lia. }
  replace (S (Z.to_nat (2 * level + 2))) with (insert_fuel level) in He
    by (unfold insert_fuel; lia).
  set (big := Nat.max fuel (insert_fuel level)).
  assert (Hbig : forall f t, (f <= big)%nat ->
    priv_reinsertall (fun t x => insert_at w f t x semi level) (ANode ANil c ANil) from
      = Ret t ->
    priv_reinsertall (fun t x => insert_at w big t x semi level) (ANode ANil c ANil) from
      = Ret t).
  { intros f t Hf. apply reinsertall_ext. intros ???. by apply insert_at_mono. }
  apply Hbig in He' as Hb'; [|lia]. apply Hbig in He as Hb; [|lia].
  assert (t' = ANode l c r) as -> by congruence. by exists l, r.
Qed.

(** [pinsert_at] builds the tree of [insert_at], and its pointer leads to the leaf. *)
Lemma pinsert_at_equiv fuel t x base semi level t' :
  slot_at w base semi level -> tree_wf t base level -> in_slot x base level ->
  separated (x :: aelems t) ->
  insert_at w fuel t x semi level = Ret t' ->
  exists p s v l r, pinsert_at w fuel t x semi level = Ret (p, s, v, t') /\
    slot_get t' p = Ret (ANode l x r).
Proof.
  revert t base semi level t'. induction fuel as [|fuel IH];
    intros t base semi level t' Hat Hwf Hx Hsep He; [done|].
  cbn [insert_at pinsert_at] in *. kinv He. rewrite Hrun. cbn [mbind outcome_bind].
  destruct t as [|l c r]; [injection He as <-; by exists [], semi, level, ANil, ANil|].
  destruct (node_level_nonneg w _ _ _ _ _ _ _ Hat Hwf Hx Hsep) as (Hl & Hd & Hs & Hsl & Hsr).
  kinv He. rewrite bind_kassert by done. destruct Hwf as (Hc & Hwl & Hwr).
  destruct (covers x semi) eqn:Hcov.
  - kinv He. rewrite bind_kassert by done.
    destruct (reinsert_root fuel (ANode l c r) x base semi level t')
      as (l' & r' & -> & ->); try done.
    by exists [], semi, level, l', r'.
  - destruct (Z.ltb_spec (node_max x) semi).
    + destruct (slot_walkmin w Hw _ _ _ Hat Hl) as (semi' & Hwalk & Hat'). rewrite Hwalk in *.
      kinv He. injection He as <-. destruct (IH l base semi' (level - 1) x1)
        as (p & s & v & l0 & r0 & -> & Hget); try done.
      { apply in_slot_min; (done || lia). }
      by exists (Bmin :: p), s, v, l0, r0.
    + kinv He. rewrite bind_kassert by done.
      destruct (slot_walkmax w Hw _ _ _ Hat Hl) as (semi' & Hwalk & Hat'). rewrite Hwalk in *.
      kinv He. injection He as <-. destruct (IH r (base + 2 ^ level) semi' (level - 1) x1)
        as (p & s & v & l0 & r0 & -> & Hget); try done.
      { apply in_slot_max; (done || lia). }
      by exists (Bmax :: p), s, v, l0, r0.
Qed.
Lemma tryinsert_at_equiv fuel t x base semi level t' :
  slot_at w base semi level -> tree_wf t base level -> in_slot x base level ->
  separated (x :: aelems t) ->
  insert_at w fuel t x semi level = Ret t' ->
  tryinsert_at w fuel t x semi level = Ret (true, t').
Proof.
  revert t base semi level t'. induction fuel as [|fuel IH];
    intros t base semi level t' Hat Hwf Hx Hsep He; [done|].
  cbn [insert_at tryinsert_at] in *. kinv He. rewrite Hrun. cbn [mbind outcome_bind].
  destruct t as [|l c r]; [by injection He as <-|].
  destruct (node_level_nonneg w _ _ _ _ _ _ _ Hat Hwf Hx Hsep) as (Hl & Hd & Hs & Hsl & Hsr).
  kinv He. rewrite (proj2 (overlaps_false _ _) Hd). destruct Hwf as (Hc & Hwl & Hwr).
  destruct (covers x semi) eqn:Hcov.
  - kinv He. rewrite bind_kassert by done.
    by destruct (reinsert_root fuel (ANode l c r) x base semi level t')
      as (l' & r' & -> & ->).
  - destruct (Z.ltb_spec (node_max x) semi).
    + destruct (slot_walkmin w Hw _ _ _ Hat Hl) as (semi' & Hwalk & Hat'). rewrite Hwalk in *.
      kinv He. injection He as <-. erewrite IH; try done.
      { apply in_slot_min; (done || lia). }
    + kinv He. rewrite bind_kassert by done.
      destruct (slot_walkmax w Hw _ _ _ Hat Hl) as (semi' & Hwalk & Hat'). rewrite Hwalk in *.
      kinv He. injection He as <-. erewrite IH; try done.
      { apply in_slot_max; (done || lia). }
Qed.
End Variants.

(** * The properties of address trees *)

(** Ranges of keys as nodes, for concrete trees. *)
#[export] Instance range_node : TreeNode (Z * Z) := {| node_min := fst; node_max := snd |}.

(** C11: Any history of insertions (of ranges that are not mapped yet), removals and
    lookups on an empty address tree runs without a failed assertion, gives the
    results of a partial map from keys to nodes, and leaves a well-formed tree that
    represents that map. *)
Theorem atree_refines_map {T} `{TreeNode T} (w : Z) (ops : list (tree_op (T := T))) :
  1 <= w -> ops_ok w (fun _ => None) ops ->
  exists t, tree_run w ANil ops = Ret (fst (map_run (fun _ => None) ops), t) /\
    atree_ok w t /\ represents w t (snd (map_run (fun _ => None) ops)).
Proof.
  intros Hw Hops. apply (tree_run_refines w Hw ops ANil); [by split| |done].
  intros k _ x Hx. by apply not_elem_of_nil in Hx.
Qed.
Definition demo_ops : list (tree_op (T := Z * Z)) :=
  [OpInsert (4096, 8191); OpInsert (2147483648, 2147487743); OpLocate 5000;
   OpInsert (8192, 12287); OpRemove 2147483650; OpLocate 2147483650; OpLocate 12287].
Lemma atree_refines_witness :
  exists t, tree_run 32 ANil demo_ops =
      Ret ([None; None; Some (4096, 8191); None; Some (2147483648, 2147487743); None;
            Some (8192, 12287)], t).
Proof.
  destruct (atree_refines_map 32 demo_ops) as (t & Ht & _).
  - lia.
  - cbn [demo_ops ops_ok op_ok map_step snd]. unfold node_fits, covers.
    split_and!; cbn [node_min node_max range_node fst snd]; try lia;
      intros k Hk; repeat (case_match; try lia); done.
  - exists t. exact Ht.
Defined.

(** The three insertion functions agree: on a range that is not mapped,
    [pinsert_at] and [tryinsert_at] build the tree that [insert_at] builds (they
    never fail), [tryinsert_at] reports success, and the pointer of [pinsert_at]
    leads to the slot that holds the new leaf. *)
Theorem insert_variants_equiv {T} `{TreeNode T} (w : Z) t (x : T) :
  1 <= w -> atree_ok w t -> node_fits w x -> Forall (disjoint x) (aelems t) ->
  let n := insert_fuel (ATREE_LEVEL0 w) in
  exists t', insert w t x = Ret t' /\ aelems t' ≡ₚ x :: aelems t /\
    tryinsert w t x = Ret (true, t') /\
    exists p s v l r,
      pinsert_at w n t x (ATREE_SEMI0 w) (ATREE_LEVEL0 w) = Ret (p, s, v, t') /\
      slot_get t' p = Ret (ANode l x r).
Proof.
  intros Hw Hok Hx Hd. destruct (insert_ok w Hw t x Hok Hx Hd) as (t' & He & _ & Hp).
  exists t'. destruct Hok as [Hwf Hsep]. split_and!; try done.
  - apply (tryinsert_at_equiv w Hw) with (base := 0); try done;
      [by apply slot_at_root|by apply in_slot_root].
  - apply (pinsert_at_equiv w Hw) with (base := 0); try done;
      [by apply slot_at_root|by apply in_slot_root].
Qed.
Lemma insert_variants_witness :
  exists t', insert 32 (ANode ANil (4096, 8191) ANil) (2147483648, 2147487743) = Ret t' /\
    aelems t' ≡ₚ [(2147483648, 2147487743); (4096, 8191)].
Proof.
  destruct (insert_variants_equiv 32 (ANode ANil (4096, 8191) ANil) (2147483648, 2147487743))
    as (t' & He & Hp & _).
  - lia.
  - by vm_compute.
  - by vm_compute.
  - constructor; [right; by vm_compute|constructor].
  - by exists t'.
Defined.

(** [tryinsert_at] is meant to report that a range is mapped already.  It looks only
    at the nodes in its way: when the new range covers the center of a slot, the
    nodes below are re-inserted with [insert_at], which asserts that they do not
    overlap. *)
Example tryinsert_overlap_below :
  tree_run 8 ANil [OpInsert (10, 11); OpInsert (100, 110); OpInsert (20, 21)]
    = Ret ([None; None; None],
           ANode (ANode (ANode ANil (20, 21) ANil) (100, 110) ANil) (10, 11) ANil) /\
  tryinsert 8 (ANode (ANode (ANode ANil (20, 21) ANil) (100, 110) ANil) (10, 11) ANil)
    (105, 130) = Panic.
Proof. by vm_compute. Qed.
