(* ===== verification/PageAlloc.v ===== *)
(** Physical page allocator: [src/kernel/src/kernel/memory.c].

    A zone keeps one bit per page in an array of 32-bit data words
    ([mz_fpages], set = free).  The C code updates the words with atomic
    read-modify-write instructions; the definitions below execute one call
    without interference from another thread, so that every
    [ATOMIC_CMPXCH] succeeds at its first attempt. *)
From S2P Require Import Prelude.

(** * Data words *)
Definition DATAWORD_BITS : Z := 32.

(** [BSWAP_BE2H32] on a little-endian host. *)
Definition SWAPPTR (x : Z) : Z :=
  Z.lor (Z.lor (Z.shiftl (Z.land x 255) 24)
               (Z.shiftl (Z.land (Z.shiftr x 8) 255) 16))
        (Z.lor (Z.shiftl (Z.land (Z.shiftr x 16) 255) 8)
               (Z.land (Z.shiftr x 24) 255)).

Definition FIXED_SHL (x y : Z) : Z :=
  if DATAWORD_BITS <=? y then 0 else u32 (Z.shiftl x y).

(** The mask of [n] pages starting at bit [off] of a data word, in host order:
    [(FIXED_SHL((uintptr_t)1,n)-1) << off]. *)
Definition page_mask (n off : Z) : Z :=
  u32 (Z.shiftl (u32 (FIXED_SHL 1 n - 1)) off).

(** * Zones *)
Record mzone : Type := MkZone {
  mz_min : Z;
  mz_max : Z;
  mz_used : Z;
  mz_free : Z;
  mz_fpages : list Z
}.

(** Number of bytes of [mz_fpages]. *)
Definition mz_bytes (z : mzone) : Z :=
  (mz_max z - mz_min z + 1 + 7) `div` 8 + 2 * 4.

(** Store [w] in data word [iter] and move [n] pages to the free counter. *)
Definition mz_store (z : mzone) (iter w n : Z) : mzone :=
  MkZone (mz_min z) (mz_max z) (u32 (mz_used z - n)) (u32 (mz_free z + n))
         (<[Z.to_nat iter := w]> (mz_fpages z)).

Fixpoint mzone_free_loop (fuel : nat) (zone : mzone)
    (iter zone_relative_page num_pages : Z) : outcome mzone :=
  if num_pages =? 0 then Ret zone else
  match fuel with
  | O => Panic
  | S fuel =>
      kassert (4 * iter <? mz_bytes zone);;
      let word_offset := Z.land zone_relative_page (DATAWORD_BITS - 1) in
      let free_pages := Z.min (DATAWORD_BITS - word_offset) num_pages in
      let free_mask := SWAPPTR (page_mask free_pages word_offset) in
      old_mask ← access (mz_fpages zone !! Z.to_nat iter);
      kassert (Z.land old_mask free_mask =? 0);;
      mzone_free_loop fuel
        (mz_store zone iter (Z.lor old_mask free_mask) free_pages)
        (iter + 1) (zone_relative_page + free_pages) (num_pages - free_pages)
  end.

Definition mzone_free (zone : mzone) (zone_relative_page num_pages : Z) : outcome mzone :=
  kassert (negb (mz_max zone =? 0));;
  kassert (negb (num_pages =? 0));;
  kassert (u32 (zone_relative_page + num_pages)
             <=? u32 (u32 (mz_max zone + 1) - mz_min zone));;
  mzone_free_loop (Z.to_nat num_pages) zone
    (zone_relative_page `div` DATAWORD_BITS) zone_relative_page num_pages.

(** The loop of [mzone_malloc_at]: [inl z] when all pages could be taken,
    [inr (z, base)] when the page word at [base] could not. *)
Fixpoint mzone_malloc_at_loop (fuel : nat) (zone : mzone)
    (iter base missing_pages : Z) : outcome (mzone + mzone * Z) :=
  if missing_pages =? 0 then Ret (inl zone) else
  match fuel with
  | O => Panic
  | S fuel =>
      kassert (4 * iter <? mz_bytes zone);;
      let word_offset := Z.land base (DATAWORD_BITS - 1) in
      let alloc_pages := Z.min (DATAWORD_BITS - word_offset) missing_pages in
      let alloc_mask := SWAPPTR (page_mask alloc_pages word_offset) in
      origword ← access (mz_fpages zone !! Z.to_nat iter);
      if negb (Z.land origword alloc_mask =? alloc_mask)
      then Ret (inr (zone, base))
      else mzone_malloc_at_loop fuel
             (mz_store zone iter (Z.ldiff origword alloc_mask) (- alloc_pages))
             (iter + 1) (base + alloc_pages) (missing_pages - alloc_pages)
  end.

Definition mzone_malloc_at (zone : mzone) (zone_relative_page num_pages : Z)
    : outcome (mzone * bool) :=
  kassert (negb (mz_max zone =? 0));;
  kassert (negb (num_pages =? 0));;
  kassert (u32 (zone_relative_page + num_pages)
             <=? u32 (u32 (mz_max zone + 1) - mz_min zone));;
  if mz_free zone <? num_pages then Ret (zone, false) else
  r ← mzone_malloc_at_loop (Z.to_nat num_pages) zone
        (zone_relative_page `div` DATAWORD_BITS) zone_relative_page num_pages;
  match r with
  | inl zone' => Ret (zone', true)
  | inr (zone', base) =>
      kassert (zone_relative_page <=? base);;
      if base =? zone_relative_page then Ret (zone', false) else
      zone'' ← mzone_free zone' zone_relative_page (base - zone_relative_page);
      Ret (zone'', false)
  end.

(** * Searching a zone *)

(** [while (!(dataword & 1)) dataword >>= 1,++alloc_offset;] *)
Fixpoint scan_used (fuel : nat) (dataword alloc_offset : Z) : Z * Z :=
  match fuel with
  | O => (dataword, alloc_offset)
  | S fuel =>
      if Z.odd dataword then (dataword, alloc_offset)
      else scan_used fuel (Z.shiftr dataword 1) (alloc_offset + 1)
  end.

(** [while ((dataword & 1) && (alloc_size < max_pages)) dataword >>= 1,++alloc_size;] *)
Fixpoint scan_free (fuel : nat) (dataword alloc_size max_pages : Z) : Z * Z :=
  match fuel with
  | O => (dataword, alloc_size)
  | S fuel =>
      if Z.odd dataword && (alloc_size <? max_pages)
      then scan_free fuel (Z.shiftr dataword 1) (alloc_size + 1) max_pages
      else (dataword, alloc_size)
  end.

(** How the code leaves the scan of one data word: [continue], [goto next_zone]
    or [return alloc_base] with [*res_pages]. *)
Inductive word_scan : Type :=
| WS_continue (zone : mzone)
| WS_next_zone (zone : mzone)
| WS_return (zone : mzone) (alloc_base res_pages : Z).

(** The code from label [scan_alloc_offset] on. *)
Fixpoint scan_alloc_offset (fuel : nat) (zone : mzone)
    (iter origword dataword alloc_offset min_pages max_pages : Z) : outcome word_scan :=
  match fuel with
  | O => Panic
  | S fuel =>
      let '(dataword, alloc_offset) := scan_used 32 dataword alloc_offset in
      let '(dataword, alloc_size) := scan_free 32 dataword 0 max_pages in
      kassert (alloc_offset + alloc_size <=? DATAWORD_BITS);;
      let alloc_mask := SWAPPTR (page_mask alloc_size alloc_offset) in
      kassert (Z.land origword alloc_mask =? alloc_mask);;
      let alloc_base := iter * DATAWORD_BITS + alloc_offset in
      let taken := mz_store zone iter (Z.ldiff origword alloc_mask) (- alloc_size) in
      if alloc_size <? min_pages then
        if negb (dataword =? 0) then
          kassert (negb (alloc_offset + alloc_size =? DATAWORD_BITS));;
          scan_alloc_offset fuel zone iter origword dataword
            (alloc_offset + alloc_size) min_pages max_pages
        else if negb (alloc_offset + alloc_size =? DATAWORD_BITS) then
          Ret (WS_continue zone)
        else
          let missing_pages := min_pages - alloc_size in
          let max_avail := u32 (u32 (mz_max zone - mz_min zone + 1) - alloc_base) in
          if max_avail <? missing_pages then Ret (WS_next_zone zone) else
          r ← mzone_malloc_at taken (alloc_base + alloc_size) missing_pages;
          match r with
          | (zone', true) =>
              Ret (WS_return zone' (u32 (alloc_base + mz_min zone)) (alloc_size + missing_pages))
          | (zone', false) =>
              w ← access (mz_fpages zone' !! Z.to_nat iter);
              Ret (WS_continue (mz_store zone' iter (Z.lor w alloc_mask) alloc_size))
          end
      else Ret (WS_return taken (u32 (alloc_base + mz_min zone)) alloc_size)
  end.

(** [for (; iter < end; ++iter)]: [None] when control reaches [next_zone]. *)
Fixpoint scan_zone (fuel : nat) (zone : mzone) (iter min_pages max_pages : Z)
    : outcome (mzone * option (Z * Z)) :=
  if 4 * iter <? (mz_max zone - mz_min zone) `div` 8 + 1 then
    match fuel with
    | O => Panic
    | S fuel =>
        kassert (4 * iter <? mz_bytes zone);;
        origword ← access (mz_fpages zone !! Z.to_nat iter);
        if origword =? 0 then scan_zone fuel zone (iter + 1) min_pages max_pages else
        r ← scan_alloc_offset 33 zone iter origword (SWAPPTR origword) 0 min_pages max_pages;
        match r with
        | WS_continue zone' => scan_zone fuel zone' (iter + 1) min_pages max_pages
        | WS_next_zone zone' => Ret (zone', None)
        | WS_return zone' base n => Ret (zone', Some (base, n))
        end
    end
  else Ret (zone, None).

(** [do { ... } while (zone_id--);] *)
Fixpoint page_malloc_zones (zone_id : nat) (mzones : list mzone) (min_pages max_pages : Z)
    : outcome (list mzone * option (Z * Z)) :=
  let next mzones := match zone_id with
                     | O => Ret (mzones, None)
                     | S zone_id => page_malloc_zones zone_id mzones min_pages max_pages
                     end in
  zone ← access (mzones !! zone_id);
  kassert (negb (mz_max zone =? 0));;
  if mz_free zone <? min_pages then next mzones else
  r ← scan_zone (length (mz_fpages zone)) zone 0 min_pages max_pages;
  match r with
  | (zone', Some res) => Ret (<[zone_id := zone']> mzones, Some res)
  | (zone', None) => next (<[zone_id := zone']> mzones)
  end.

(** Result [inr (base, res_pages)], or [inl E_BADALLOC] when the exception
    raised at the end is not continued by its handler. *)
Definition page_malloc_part (mzones : list mzone) (min_pages max_pages : Z) (max_zone : nat)
    : outcome (list mzone * (error_code + Z * Z)) :=
  kassert (min_pages <=? max_pages);;
  kassert (bool_decide (max_zone < length mzones)%nat);;
  r ← page_malloc_zones max_zone mzones min_pages max_pages;
  Ret (r.1, match r.2 with Some res => inr res | None => inl E_BADALLOC end).

Definition page_malloc (mzones : list mzone) (num_pages : Z) (max_zone : nat)
    : outcome (list mzone * (error_code + Z)) :=
  r ← page_malloc_part mzones num_pages num_pages max_zone;
  Ret (r.1, match r.2 with inr (base, _) => inr base | inl e => inl e end).

(** * Ranges that may span several zones *)

(** [while (num_pages && i--)]. *)
Fixpoint page_free_loop (i : nat) (mzones : list mzone) (base num_pages : Z)
    : outcome (list mzone) :=
  match i with
  | O => Ret mzones
  | S i =>
      if num_pages =? 0 then Ret mzones else
      zone ← access (mzones !! i);
      kassert (negb (mz_max zone =? 0));;
      if (u32 (base + num_pages) <=? mz_min zone) && negb (u32 (base + num_pages) =? 0)
      then page_free_loop i mzones base num_pages else
      let zone_end := u32 (base + num_pages) in
      let zone_start := if mz_min zone <? base then base else mz_min zone in
      kassert (u32 (zone_end - 1) <=? mz_max zone);;
      kassert (zone_start <? zone_end);;
      zone' ← mzone_free zone (zone_start - mz_min zone) (zone_end - zone_start);
      page_free_loop i (<[i := zone']> mzones) base (zone_start - base)
  end.

Definition page_free (mzones : list mzone) (base num_pages : Z) : outcome (list mzone) :=
  kassert ((base <=? u32 (base + num_pages)) || (u32 (base + num_pages) =? 0));;
  page_free_loop (length mzones) mzones base num_pages.

Fixpoint page_malloc_at_loop (i : nat) (mzones : list mzone)
    (base num_pages remaining_num_pages : Z) : outcome (list mzone * bool) :=
  match i with
  | O => Ret (mzones, true)
  | S i =>
      if remaining_num_pages =? 0 then Ret (mzones, true) else
      zone ← access (mzones !! i);
      if (u32 (base + num_pages) <=? mz_min zone) && negb (u32 (base + num_pages) =? 0)
      then page_malloc_at_loop i mzones base num_pages remaining_num_pages else
      let zone_end := u32 (base + num_pages) in
      let zone_start := if mz_min zone <? base then base else mz_min zone in
      let err mzones :=
        mzones' ← page_free mzones zone_end (num_pages - remaining_num_pages);
        Ret (mzones', false) in
      if mz_max zone <? u32 (zone_end - 1) then err mzones else
      kassert (zone_start <? zone_end);;
      kassert (negb (zone_end =? zone_start));;
      r ← mzone_malloc_at zone (zone_start - mz_min zone) (zone_end - zone_start);
      if r.2 : bool
      then page_malloc_at_loop i (<[i := r.1]> mzones) base num_pages (zone_start - base)
      else err (<[i := r.1]> mzones)
  end.

Definition page_malloc_at (mzones : list mzone) (base num_pages : Z)
    : outcome (list mzone * bool) :=
  page_malloc_at_loop (length mzones) mzones base num_pages num_pages.

(** * Bits of a data word *)

(** The stored position of host bit [i]. *)
Definition swap_bit (i : Z) : Z := 8 * (3 - i `div` 8) + i `mod` 8.

Lemma land_255_testbit x i : 0 <= i -> Z.testbit (Z.land x 255) i = (i <? 8) && Z.testbit x i.
Proof.
  intros Hi. rewrite Z.land_spec. change 255 with (Z.ones 8).
  rewrite Z.testbit_ones_nonneg by lia. apply andb_comm.
Qed.

(** The byte placed at bits [s .. s+7] of the result. *)
Lemma swap_piece_testbit x r s i :
  0 <= i -> 0 <= s -> 0 <= r ->
  Z.testbit (Z.shiftl (Z.land (Z.shiftr x r) 255) s) i
  = (s <=? i) && (i <? s + 8) && Z.testbit x (i - s + r).
Proof.
  intros Hi Hs Hr. rewrite Z.shiftl_spec by lia.
  destruct (Z.leb_spec s i); cbn.
  - rewrite land_255_testbit, Z.shiftr_spec by lia. f_equal. lia.
  - by rewrite Z.testbit_neg_r by lia.
Qed.

Lemma SWAPPTR_testbit x i :
  0 <= i -> Z.testbit (SWAPPTR x) i = (i <? 32) && Z.testbit x (swap_bit i).
Proof.
  intros Hi. unfold SWAPPTR.
  rewrite <- (Z.shiftl_0_r (Z.land (Z.shiftr x 24) 255)).
  rewrite <- (Z.shiftr_0_r x) at 1.
  rewrite !Z.lor_spec, !swap_piece_testbit by lia. unfold swap_bit.
  assert (Hd : i < 8 \/ 8 <= i < 16 \/ 16 <= i < 24 \/ 24 <= i < 32 \/ 32 <= i) by lia.
  destruct Hd as [Hd|[Hd|[Hd|[Hd|Hd]]]];
    repeat match goal with
    | |- context [?a <=? ?b] => first [ replace (a <=? b) with true by lia
                                      | replace (a <=? b) with false by lia ]
    | |- context [?a <? ?b] => first [ replace (a <? b) with true by lia
                                     | replace (a <? b) with false by lia ]
    end; cbn [andb orb]; rewrite ?orb_false_r; try done; f_equal; mlia.
Qed.

Lemma swap_bit_range i : 0 <= i < 32 -> 0 <= swap_bit i < 32.
Proof. unfold swap_bit. mlia. Qed.
Lemma swap_bit_invol i : 0 <= i < 32 -> swap_bit (swap_bit i) = i.
Proof. unfold swap_bit. mlia. Qed.

Lemma SWAPPTR_nonneg x : 0 <= SWAPPTR x.
Proof.
  unfold SWAPPTR. rewrite !Z.lor_nonneg, !Z.shiftl_nonneg, !Z.land_nonneg. lia.
Qed.
Lemma SWAPPTR_range x : 0 <= SWAPPTR x < 2 ^ 32.
Proof.
  apply bits_below; [lia|apply SWAPPTR_nonneg|]. intros i Hi.
  rewrite SWAPPTR_testbit by lia. by replace (i <? 32) with false by lia.
Qed.
Lemma SWAPPTR_invol x : 0 <= x < 2 ^ 32 -> SWAPPTR (SWAPPTR x) = x.
Proof.
  intros Hx. apply Z.bits_inj'. intros i Hi. rewrite SWAPPTR_testbit by lia.
  destruct (Z.ltb_spec i 32); cbn.
  - rewrite SWAPPTR_testbit, swap_bit_invol by (pose proof (swap_bit_range i); lia).
    by replace (swap_bit i <? 32) with true by (pose proof (swap_bit_range i); lia).
  - by rewrite (testbit_high 32).
Qed.
Ltac swap_bits :=
  apply Z.bits_inj'; intros i Hi; rewrite ?SWAPPTR_testbit by lia;
  rewrite ?Z.lor_spec, ?Z.land_spec, ?Z.ldiff_spec, ?SWAPPTR_testbit by lia;
  destruct (i <? 32) eqn:?; cbn [andb orb negb]; try done.
Lemma SWAPPTR_lor x y : SWAPPTR (Z.lor x y) = Z.lor (SWAPPTR x) (SWAPPTR y).
Proof. swap_bits. Qed.
Lemma SWAPPTR_land x y : SWAPPTR (Z.land x y) = Z.land (SWAPPTR x) (SWAPPTR y).
Proof. swap_bits. Qed.
Lemma SWAPPTR_ldiff x y : SWAPPTR (Z.ldiff x y) = Z.ldiff (SWAPPTR x) (SWAPPTR y).
Proof. swap_bits. Qed.

Lemma FIXED_SHL_ones n : 0 <= n <= 32 -> u32 (FIXED_SHL 1 n - 1) = Z.ones n.
Proof.
  intros Hn. unfold FIXED_SHL, DATAWORD_BITS. destruct (Z.leb_spec 32 n).
  - by replace n with 32 by lia.
  - rewrite Z.ones_equiv, <- Z.sub_1_r, Z.shiftl_mul_pow2, Z.mul_1_l by lia.
    pose proof (Z.pow_lt_mono_r 2 n 32). pose proof (Z.pow_pos_nonneg 2 n).
    rewrite !u32_small; [done|lia|]. rewrite u32_small; lia.
Qed.

Lemma page_mask_testbit n off i :
  0 <= n -> 0 <= off -> n + off <= 32 -> 0 <= i ->
  Z.testbit (page_mask n off) i = (off <=? i) && (i <? off + n).
Proof.
  intros Hn Ho Hs Hi. unfold page_mask. rewrite FIXED_SHL_ones by lia.
  unfold u32. rewrite testbit_wrap, Z.shiftl_spec by lia.
  destruct (Z.leb_spec off i); cbn.
  - rewrite Z.testbit_ones_nonneg by lia. lia.
  - rewrite Z.testbit_neg_r by lia. apply andb_false_r.
Qed.
Lemma page_mask_range n off : 0 <= page_mask n off < 2 ^ 32.
Proof. apply u32_range. Qed.

(** * The pages of a zone *)

Definition page_bit (ws : list Z) (p : Z) : bool :=
  Z.testbit (SWAPPTR (default 0 (ws !! Z.to_nat (p `div` 32)))) (p `mod` 32).

(** Zone-relative page [p] is free. *)
Definition is_free (z : mzone) (p : Z) : bool := page_bit (mz_fpages z) p.

Definition in_range (a n p : Z) : bool := (a <=? p) && (p <? a + n).

(** Number of pages of the zone. *)
Definition mz_pages (z : mzone) : Z := mz_max z - mz_min z + 1.

Section Words.
Context (ws : list Z) (k : Z) (w n off : Z).
Hypothesis Hk : 0 <= k.
Hypothesis Hw : ws !! Z.to_nat k = Some w.
Hypothesis Hn : 0 <= n.
Hypothesis Hoff : 0 <= off.
Hypothesis Hfit : n + off <= 32.

Lemma page_bit_insert w' p :
  0 <= p ->
  page_bit (<[Z.to_nat k := w']> ws) p
  = if p `div` 32 =? k then Z.testbit (SWAPPTR w') (p `mod` 32) else page_bit ws p.
Proof.
  intros Hp. unfold page_bit. destruct (Z.eqb_spec (p `div` 32) k) as [->|Hne].
  - rewrite list_lookup_insert_eq; [done|]. by eapply lookup_lt_Some.
  - rewrite list_lookup_insert_ne; [done|]. pose proof (Z.div_pos p 32). lia.
Qed.

Lemma page_bit_word p : 0 <= p -> p `div` 32 = k -> page_bit ws p = Z.testbit (SWAPPTR w) (p `mod` 32).
Proof. intros Hp E. unfold page_bit. by rewrite E, Hw. Qed.

Lemma mask_in_range p :
  0 <= p ->
  (p `div` 32 =? k) && Z.testbit (page_mask n off) (p `mod` 32) = in_range (32 * k + off) n p.
Proof.
  intros Hp. pose proof (Z.mod_pos_bound p 32). rewrite page_mask_testbit by lia.
  unfold in_range. Z.div_mod_to_equations. lia.
Qed.

Lemma page_bit_set p :
  0 <= p ->
  page_bit (<[Z.to_nat k := Z.lor w (SWAPPTR (page_mask n off))]> ws) p
  = page_bit ws p || in_range (32 * k + off) n p.
Proof.
  intros Hp. rewrite page_bit_insert, <- mask_in_range by done.
  destruct (Z.eqb_spec (p `div` 32) k) as [E|E]; cbn; [|by rewrite orb_false_r].
  by rewrite SWAPPTR_lor, Z.lor_spec, SWAPPTR_invol, (page_bit_word p)
    by (done || apply page_mask_range).
Qed.

Lemma page_bit_clear p :
  0 <= p ->
  page_bit (<[Z.to_nat k := Z.ldiff w (SWAPPTR (page_mask n off))]> ws) p
  = page_bit ws p && negb (in_range (32 * k + off) n p).
Proof.
  intros Hp. rewrite page_bit_insert, <- mask_in_range by done.
  destruct (Z.eqb_spec (p `div` 32) k) as [E|E]; cbn; [|by rewrite andb_true_r].
  by rewrite SWAPPTR_ldiff, Z.ldiff_spec, SWAPPTR_invol, (page_bit_word p)
    by (done || apply page_mask_range).
Qed.

(** A bit of a range of the word, through the page it stands for. *)
Lemma range_bit i :
  off <= i < off + n -> Z.testbit (SWAPPTR w) i = page_bit ws (32 * k + i).
Proof.
  intros Hi. rewrite page_bit_word by mlia. f_equal. mlia.
Qed.

Lemma land_mask_host c :
  0 <= w < 2 ^ 32 -> (c = 0 \/ c = page_mask n off) ->
  (Z.land w (SWAPPTR (page_mask n off)) = SWAPPTR c
   <-> Z.land (SWAPPTR w) (page_mask n off) = c).
Proof.
  intros Hr Hc.
  assert (Hcr : 0 <= c < 2 ^ 32) by (destruct Hc as [->| ->]; [lia|apply page_mask_range]).
  split; intros H.
  - apply (f_equal SWAPPTR) in H.
    by rewrite SWAPPTR_land, !SWAPPTR_invol in H by (done || apply page_mask_range).
  - rewrite <- H, SWAPPTR_land, SWAPPTR_invol; [done|lia].
Qed.

Lemma mask_disjoint :
  0 <= w < 2 ^ 32 ->
  Z.land w (SWAPPTR (page_mask n off)) = 0
  <-> forall p, in_range (32 * k + off) n p = true -> page_bit ws p = false.
Proof.
  intros Hr. change 0 with (SWAPPTR 0) at 1. rewrite land_mask_host by auto. split.
  - intros H p Hp. unfold in_range in Hp. replace p with (32 * k + (p - 32 * k)) by lia.
    rewrite <- range_bit by lia.
    apply (f_equal (fun x => Z.testbit x (p - 32 * k))) in H.
    rewrite Z.land_spec, page_mask_testbit, Z.testbit_0_l in H by lia.
    by replace ((off <=? p - 32 * k) && (p - 32 * k <? off + n)) with true in H by lia;
      rewrite andb_true_r in H.
  - intros H. apply Z.bits_inj'. intros i Hi.
    rewrite Z.land_spec, page_mask_testbit, Z.testbit_0_l by lia.
    destruct ((off <=? i) && (i <? off + n)) eqn:E; [|apply andb_false_r].
    rewrite range_bit, H by (unfold in_range; lia). done.
Qed.

Lemma mask_included :
  0 <= w < 2 ^ 32 ->
  Z.land w (SWAPPTR (page_mask n off)) = SWAPPTR (page_mask n off)
  <-> forall p, in_range (32 * k + off) n p = true -> page_bit ws p = true.
Proof.
  intros Hr. rewrite land_mask_host by auto. split.
  - intros H p Hp. unfold in_range in Hp. replace p with (32 * k + (p - 32 * k)) by lia.
    rewrite <- range_bit by lia.
    apply (f_equal (fun x => Z.testbit x (p - 32 * k))) in H.
    rewrite Z.land_spec, page_mask_testbit in H by lia.
    by replace ((off <=? p - 32 * k) && (p - 32 * k <? off + n)) with true in H by lia;
      rewrite andb_true_r in H.
  - intros H. apply Z.bits_inj'. intros i Hi.
    rewrite Z.land_spec, page_mask_testbit by lia.
    destruct ((off <=? i) && (i <? off + n)) eqn:E; [|apply andb_false_r].
    by rewrite range_bit, H by (unfold in_range; lia).
Qed.

Lemma mask_not_included :
  0 <= w < 2 ^ 32 ->
  Z.land w (SWAPPTR (page_mask n off)) <> SWAPPTR (page_mask n off) ->
  exists q, in_range (32 * k + off) n q = true /\ page_bit ws q = false.
Proof.
  intros Hr Hm. set (a := 32 * k + off).
  destruct (decide (Exists (fun i => page_bit ws (a + Z.of_nat i) = false) (seq 0 (Z.to_nat n))))
    as [He|He].
  - apply List.Exists_exists in He as (i & Hi1%in_seq & Hi2). exists (a + Z.of_nat i).
    split; [unfold in_range; lia|done].
  - exfalso. apply Hm, mask_included; [done|]. intros p Hp. unfold in_range in Hp. fold a in Hp.
    apply not_Exists_Forall in He; [|apply _]. rewrite List.Forall_forall in He.
    specialize (He (Z.to_nat (p - a))). rewrite in_seq in He.
    specialize (He ltac:(lia)). cbn in He.
    replace (a + Z.of_nat (Z.to_nat (p - a))) with p in He by lia.
    by destruct (page_bit ws p).
Qed.
End Words.

(** * Well-formed zones *)
Record zone_wf (z : mzone) : Prop := {
  wf_min : 0 <= mz_min z;
  wf_max : mz_min z <= mz_max z < 2 ^ 31;
  wf_max0 : mz_max z <> 0;
  wf_len : length (mz_fpages z) = Z.to_nat (mz_bytes z `div` 4);
  wf_words : Forall (fun w => 0 <= w < 2 ^ 32) (mz_fpages z);
  wf_tail : forall p, mz_pages z <= p -> is_free z p = false;
  wf_free : mz_free z = countZ (is_free z) (Z.to_nat (mz_pages z));
  wf_used : 0 <= mz_used z < 2 ^ 32
}.

Lemma zone_word z p :
  zone_wf z -> 0 <= p < mz_pages z ->
  exists w, mz_fpages z !! Z.to_nat (p `div` 32) = Some w /\ 0 <= w < 2 ^ 32
            /\ 4 * (p `div` 32) < mz_bytes z.
Proof.
  intros Hwf Hp. unfold mz_pages in Hp. pose proof (wf_len z Hwf) as Hl.
  destruct (lookup_lt_is_Some_2 (mz_fpages z) (Z.to_nat (p `div` 32))) as [w Hw].
  { rewrite Hl. unfold mz_bytes. mlia. }
  exists w. split; [done|]. split.
  - exact (Forall_lookup_1 _ _ _ _ (wf_words z Hwf) Hw).
  - unfold mz_bytes. mlia.
Qed.

Lemma zone_bounds z :
  zone_wf z ->
  u32 (u32 (mz_max z + 1) - mz_min z) = mz_pages z
  /\ u32 (mz_max z - mz_min z + 1) = mz_pages z /\ 0 < mz_pages z <= 2 ^ 31.
Proof.
  intros Hwf. pose proof (wf_min z Hwf). pose proof (wf_max z Hwf).
  unfold mz_pages. rewrite (u32_small (mz_max z + 1)), !u32_small by lia. lia.
Qed.

Lemma wf_free_range z : zone_wf z -> 0 <= mz_free z <= mz_pages z.
Proof.
  intros Hwf. rewrite (wf_free z Hwf).
  pose proof (countZ_bounds (is_free z) (Z.to_nat (mz_pages z))).
  pose proof (zone_bounds z Hwf). lia.
Qed.

Lemma lor_range32 x y : 0 <= x < 2 ^ 32 -> 0 <= y < 2 ^ 32 -> 0 <= Z.lor x y < 2 ^ 32.
Proof.
  intros Hx Hy. apply bits_below; [lia|rewrite Z.lor_nonneg; lia|]. intros i Hi.
  by rewrite Z.lor_spec, !(testbit_high 32) by lia.
Qed.
Lemma ldiff_range32 x y : 0 <= x < 2 ^ 32 -> 0 <= Z.ldiff x y < 2 ^ 32.
Proof.
  intros Hx. apply bits_below; [lia|rewrite Z.ldiff_nonneg; lia|]. intros i Hi.
  by rewrite Z.ldiff_spec, (testbit_high 32) by lia.
Qed.

Section Store.
Context (z : mzone) (iter w off n : Z).
Hypothesis Hwf : zone_wf z.
Hypothesis Hw : mz_fpages z !! Z.to_nat iter = Some w.
Hypothesis Hiter : 0 <= iter.
Hypothesis Hoff : 0 <= off.
Hypothesis Hn : 0 <= n.
Hypothesis Hfit : n + off <= 32.
Hypothesis Hin : 32 * iter + off + n <= mz_pages z.

Let a := 32 * iter + off.
Let Hwr : 0 <= w < 2 ^ 32 := Forall_lookup_1 _ _ _ _ (wf_words z Hwf) Hw.

(** Freeing pages [a .. a+n-1] that were all in use. *)
Lemma mz_store_free :
  (forall p, in_range a n p = true -> is_free z p = false) ->
  let z' := mz_store z iter (Z.lor w (SWAPPTR (page_mask n off))) n in
  zone_wf z' /\ forall p, 0 <= p -> is_free z' p = is_free z p || in_range a n p.
Proof.
  intros Hall z'.
  assert (Hb : forall p, 0 <= p -> is_free z' p = is_free z p || in_range a n p).
  { intros p Hp. by apply page_bit_set. }
  pose proof (zone_bounds z Hwf) as (_ & _ & HP).
  split; [|exact Hb]. destruct Hwf as [H1 H2 H3 H4 H5 H6 H7 H8].
  assert (Hc : countZ (is_free z') (Z.to_nat (mz_pages z)) = mz_free z + n).
  { rewrite H7, (countZ_range (is_free z) _ a (a + n)); [lia|lia| |];
      intros i Hi Hr; rewrite Hb by lia.
    - rewrite Hall by (unfold in_range; lia). unfold in_range. lia.
    - replace (in_range a n i) with false by (unfold in_range; lia). apply orb_false_r. }
  constructor; cbn; try done.
  - by rewrite length_insert.
  - apply Forall_insert; [done|]. apply lor_range32; [done|apply SWAPPTR_range].
  - intros p Hp. fold z'. unfold mz_pages in *. cbn in Hp.
    rewrite Hb, H6 by lia. unfold in_range. lia.
  - change (u32 (mz_free z + n) = countZ (is_free z') (Z.to_nat (mz_pages z))).
    rewrite u32_small; [by rewrite Hc|]. rewrite <- Hc.
    pose proof (countZ_bounds (is_free z') (Z.to_nat (mz_pages z))). lia.
  - apply u32_range.
Qed.

(** Taking pages [a .. a+n-1] that were all free. *)
Lemma mz_store_take :
  (forall p, in_range a n p = true -> is_free z p = true) ->
  let z' := mz_store z iter (Z.ldiff w (SWAPPTR (page_mask n off))) (- n) in
  zone_wf z' /\ forall p, 0 <= p -> is_free z' p = is_free z p && negb (in_range a n p).
Proof.
  intros Hall z'.
  assert (Hb : forall p, 0 <= p -> is_free z' p = is_free z p && negb (in_range a n p)).
  { intros p Hp. by apply page_bit_clear. }
  pose proof (zone_bounds z Hwf) as (_ & _ & HP).
  split; [|exact Hb]. destruct Hwf as [H1 H2 H3 H4 H5 H6 H7 H8].
  assert (Hc : mz_free z = countZ (is_free z') (Z.to_nat (mz_pages z)) + n).
  { rewrite H7, (countZ_range (is_free z') _ a (a + n)); [lia|lia| |];
      intros i Hi Hr; rewrite Hb by lia.
    - rewrite Hall by (unfold in_range; lia). unfold in_range. lia.
    - replace (in_range a n i) with false by (unfold in_range; lia). by rewrite andb_true_r. }
  constructor; cbn; try done.
  - by rewrite length_insert.
  - apply Forall_insert; [done|]. by apply ldiff_range32.
  - intros p Hp. fold z'. unfold mz_pages in *. cbn in Hp. by rewrite Hb, H6 by lia.
  - change (u32 (mz_free z + - n) = countZ (is_free z') (Z.to_nat (mz_pages z))).
    pose proof (countZ_bounds (is_free z') (Z.to_nat (mz_pages z))).
    rewrite u32_small; lia.
  - apply u32_range.
Qed.
End Store.

(** * [mzone_free] *)

(** Same page span, and the two page counters have the same sum. *)
Definition same_span (z z' : mzone) : Prop :=
  mz_min z' = mz_min z /\ mz_max z' = mz_max z
  /\ u32 (mz_used z' + mz_free z') = u32 (mz_used z + mz_free z).

#[export] Instance same_span_preorder : PreOrder same_span.
Proof.
  split; [done|]. intros x y z (H1 & H2 & H3) (H4 & H5 & H6).
  unfold same_span. by rewrite H4, H5, H6.
Qed.
Lemma mz_store_span z iter w n : same_span z (mz_store z iter w n).
Proof.
  split_and!; [done..|]. cbn. unfold u32, wrap. rewrite <- Z.add_mod by lia. f_equal. lia.
Qed.
Lemma same_span_pages z z' : same_span z z' -> mz_pages z' = mz_pages z.
Proof. intros (H1 & H2 & _). unfold mz_pages. by rewrite H1, H2. Qed.
#[export] Hint Resolve mz_store_span : kos.

Lemma word_offset_mod x : 0 <= x -> Z.land x (DATAWORD_BITS - 1) = x `mod` 32.
Proof. intros Hx. change (DATAWORD_BITS - 1) with (Z.ones 5). by rewrite Z.land_ones. Qed.

Lemma in_range_split a n k p : 0 <= k <= n ->
  in_range a n p = in_range a k p || in_range (a + k) (n - k) p.
Proof. unfold in_range. lia. Qed.

(** What every iteration of the word loops computes for pages [rel ..]. *)
Lemma word_step z rel num :
  zone_wf z -> 0 <= rel -> 0 < num -> rel + num <= mz_pages z ->
  let off := rel `mod` 32 in
  let k := Z.min (DATAWORD_BITS - off) num in
  exists w, mz_fpages z !! Z.to_nat (rel `div` 32) = Some w /\ 0 <= w < 2 ^ 32
    /\ (4 * (rel `div` 32) <? mz_bytes z) = true
    /\ 0 <= off /\ 0 < k <= num /\ k + off <= 32
    /\ 32 * (rel `div` 32) + off = rel
    /\ (num - k = 0 \/ rel `div` 32 + 1 = (rel + k) `div` 32).
Proof.
  intros Hwf Hr Hn Hb off k. destruct (zone_word z rel Hwf) as (w & Hw & Hwr & Hbytes); [lia|].
  exists w. unfold off, k, DATAWORD_BITS in *. split_and!; try done; mlia.
Qed.

Section FreeLoop.
Lemma mzone_free_loop_ok fuel : forall z iter rel num,
  zone_wf z -> 0 <= rel -> 0 <= num -> rel + num <= mz_pages z ->
  (num = 0 \/ iter = rel `div` 32) -> (Z.to_nat num <= fuel)%nat ->
  (forall p, in_range rel num p = true -> is_free z p = false) ->
  exists z', mzone_free_loop fuel z iter rel num = Ret z' /\ zone_wf z' /\ same_span z z'
    /\ forall p, 0 <= p -> is_free z' p = is_free z p || in_range rel num p.
Proof.
  induction fuel as [|fuel IH]; intros z iter rel num Hwf Hr Hn Hb Hit Hf Hused;
    cbn [mzone_free_loop]; destruct (Z.eqb_spec num 0) as [->|Hnz]; try lia.
  1,2: exists z; split_and!; try done; intros p Hp; unfold in_range; lia.
  destruct Hit as [?| ->]; [lia|].
  destruct (word_step z rel num) as (w & Hw & Hwr & Hby & Ho & Hk & Hfit & Hrel & Hnext);
    try lia; [done|].
  rewrite word_offset_mod by done. set (off := rel `mod` 32) in *.
  set (k := Z.min (DATAWORD_BITS - off) num) in *.
  assert (Hused1 : forall p, in_range (32 * (rel `div` 32) + off) k p = true -> is_free z p = false).
  { intros p Hp. apply Hused. unfold in_range in *. lia. }
  pose proof (Z.div_pos rel 32) as Hi.
  rewrite bind_kassert by done. erewrite bind_access by done.
  rewrite bind_kassert by (apply Z.eqb_eq; apply (mask_disjoint (mz_fpages z) (rel `div` 32));
                           done || lia).
  destruct (mz_store_free z (rel `div` 32) w off k) as [Hwf1 Hb1]; try done; try lia.
  set (z1 := mz_store _ _ _ _) in *. rewrite Hrel in Hb1.
  destruct (IH z1 (rel `div` 32 + 1) (rel + k) (num - k)) as (z' & Hrun & Hwf' & Hsp & Hbits);
    try done; try lia.
  - change (mz_pages z1) with (mz_pages z). lia.
  - intros p Hp. rewrite Hb1, Hused by (unfold in_range in *; lia). unfold in_range in *; lia.
  - exists z'. split_and!; try done; [etrans; [apply mz_store_span|done]|]. intros p Hp.
    rewrite Hbits, Hb1, <- orb_assoc by done. f_equal. symmetry. apply in_range_split. lia.
Qed.

(** A page of the range that is already free makes the assertion fail. *)
Lemma mzone_free_loop_double fuel : forall z iter rel num q,
  zone_wf z -> 0 <= rel -> 0 <= num -> rel + num <= mz_pages z ->
  (num = 0 \/ iter = rel `div` 32) ->
  in_range rel num q = true -> is_free z q = true ->
  mzone_free_loop fuel z iter rel num = Panic.
Proof.
  induction fuel as [|fuel IH]; intros z iter rel num q Hwf Hr Hn Hb Hit Hq Hfree;
    cbn [mzone_free_loop]; destruct (Z.eqb_spec num 0) as [->|Hnz];
    try (unfold in_range in Hq; lia); [done|].
  destruct Hit as [?| ->]; [lia|].
  destruct (word_step z rel num) as (w & Hw & Hwr & Hby & Ho & Hk & Hfit & Hrel & Hnext);
    try lia; [done|].
  rewrite word_offset_mod by done. set (off := rel `mod` 32) in *.
  set (k := Z.min (DATAWORD_BITS - off) num) in *.
  pose proof (Z.div_pos rel 32) as Hi.
  rewrite bind_kassert by done. erewrite bind_access by done.
  destruct (Z.eqb_spec (Z.land w (SWAPPTR (page_mask k off))) 0) as [Hd|Hd]; [|done].
  cbn [kassert]. rewrite bind_ret.
  rewrite (mask_disjoint (mz_fpages z) (rel `div` 32)) in Hd by (done || lia).
  destruct (mz_store_free z (rel `div` 32) w off k) as [Hwf1 Hb1]; try done; try lia.
  assert (Hq0 : 0 <= q) by (unfold in_range in Hq; lia).
  apply IH with (q := q); try done; try lia.
  - change (mz_pages (mz_store _ _ _ _)) with (mz_pages z). lia.
  - rewrite (in_range_split rel num k) in Hq by lia. apply orb_true_iff in Hq as [Hq|Hq]; [|done].
    rewrite <- Hrel in Hq. apply Hd in Hq. unfold is_free in Hfree. congruence.
  - rewrite Hb1, Hfree by done. done.
Qed.
End FreeLoop.

Lemma free_bound z rel num :
  zone_wf z -> 0 <= rel -> 0 < num -> rel + num <= mz_pages z ->
  (u32 (rel + num) <=? u32 (u32 (mz_max z + 1) - mz_min z)) = true
  /\ negb (mz_max z =? 0) = true /\ negb (num =? 0) = true.
Proof.
  intros Hwf Hr Hn Hb. destruct (zone_bounds z Hwf) as (-> & _ & HP).
  rewrite u32_small by lia. pose proof (wf_max0 z Hwf). lia.
Qed.

Lemma mzone_free_ok z rel num :
  zone_wf z -> 0 <= rel -> 0 < num -> rel + num <= mz_pages z ->
  (forall p, in_range rel num p = true -> is_free z p = false) ->
  exists z', mzone_free z rel num = Ret z' /\ zone_wf z' /\ same_span z z'
    /\ forall p, 0 <= p -> is_free z' p = is_free z p || in_range rel num p.
Proof.
  intros Hwf Hr Hn Hb Hused. unfold mzone_free.
  destruct (free_bound z rel num) as (H1 & H2 & H3); try done.
  rewrite !bind_kassert by done. apply mzone_free_loop_ok; try done; lia || auto.
Qed.

(** Two well-formed zones of the same span that agree on every page are equal. *)
Lemma zone_ext z z' :
  zone_wf z -> zone_wf z' -> same_span z z' ->
  (forall p, 0 <= p -> is_free z' p = is_free z p) -> z' = z.
Proof.
  intros Hwf Hwf' Hsp Hbits. pose proof (same_span_pages _ _ Hsp) as HP.
  destruct Hsp as (Hmin & Hmax & Hsum).
  assert (Hfree : mz_free z' = mz_free z).
  { rewrite (wf_free z Hwf), (wf_free z' Hwf'), HP. apply countZ_ext. intros; apply Hbits; lia. }
  assert (Hused : mz_used z' = mz_used z).
  { rewrite Hfree in Hsum. unfold u32, wrap in Hsum.
    pose proof (wf_used z Hwf). pose proof (wf_used z' Hwf'). mlia. }
  assert (Hpages : mz_fpages z' = mz_fpages z).
  { apply list_eq_same_length with (length (mz_fpages z)); [done| |].
    { rewrite (wf_len z Hwf), (wf_len z' Hwf'). unfold mz_bytes. by rewrite Hmin, Hmax. }
    intros i x y Hi Hx Hy.
    pose proof (Forall_lookup_1 _ _ _ _ (wf_words z' Hwf') Hx) as Hxr.
    pose proof (Forall_lookup_1 _ _ _ _ (wf_words z Hwf) Hy) as Hyr. cbn in Hxr, Hyr.
    rewrite <- (SWAPPTR_invol x), <- (SWAPPTR_invol y) by done. f_equal.
    apply Z.bits_inj'. intros j Hj. destruct (decide (j < 32)).
    2: { by rewrite !(testbit_high 32) by (apply SWAPPTR_range || lia). }
    specialize (Hbits (32 * Z.of_nat i + j) ltac:(lia)). unfold is_free in Hbits.
    rewrite (page_bit_word _ (Z.of_nat i) x), (page_bit_word _ (Z.of_nat i) y) in Hbits
      by (rewrite ?Nat2Z.id; done || mlia).
    by replace ((32 * Z.of_nat i + j) `mod` 32) with j in Hbits by mlia. }
  destruct z, z'; cbn in *. by subst.
Qed.

(** * [mzone_malloc_at] *)
Lemma mzone_malloc_at_loop_ok fuel : forall z iter rel num,
  zone_wf z -> 0 <= rel -> 0 <= num -> rel + num <= mz_pages z ->
  (num = 0 \/ iter = rel `div` 32) -> (Z.to_nat num <= fuel)%nat ->
  (exists z', mzone_malloc_at_loop fuel z iter rel num = Ret (inl z')
     /\ zone_wf z' /\ same_span z z'
     /\ (forall p, in_range rel num p = true -> is_free z p = true)
     /\ forall p, 0 <= p -> is_free z' p = is_free z p && negb (in_range rel num p))
  \/ (exists z' base q, mzone_malloc_at_loop fuel z iter rel num = Ret (inr (z', base))
     /\ zone_wf z' /\ same_span z z' /\ rel <= base < rel + num
     /\ in_range rel num q = true /\ is_free z q = false
     /\ (forall p, in_range rel (base - rel) p = true -> is_free z p = true)
     /\ forall p, 0 <= p -> is_free z' p = is_free z p && negb (in_range rel (base - rel) p)).
Proof.
  induction fuel as [|fuel IH]; intros z iter rel num Hwf Hr Hn Hb Hit Hf;
    cbn [mzone_malloc_at_loop]; destruct (Z.eqb_spec num 0) as [->|Hnz]; try lia.
  1,2: left; exists z; split_and!; try done; intros p Hp; unfold in_range in *; lia.
  destruct Hit as [?| ->]; [lia|].
  destruct (word_step z rel num) as (w & Hw & Hwr & Hby & Ho & Hk & Hfit & Hrel & Hnext);
    try lia; [done|].
  rewrite word_offset_mod by done. set (off := rel `mod` 32) in *.
  set (k := Z.min (DATAWORD_BITS - off) num) in *. pose proof (Z.div_pos rel 32) as Hi.
  rewrite bind_kassert by done. erewrite bind_access by done.
  pose proof (mask_included (mz_fpages z) (rel `div` 32) w k off) as Hmask.
  specialize (Hmask ltac:(lia) Hw ltac:(lia) Ho Hfit Hwr). rewrite Hrel in Hmask.
  destruct (Z.eqb_spec (Z.land w (SWAPPTR (page_mask k off))) (SWAPPTR (page_mask k off)))
    as [Hm|Hm]; cbn [negb].
  - rewrite Hmask in Hm.
    destruct (mz_store_take z (rel `div` 32) w off k) as [Hwf1 Hb1]; try done; try lia.
    { by rewrite Hrel. }
    set (z1 := mz_store _ _ _ _) in *. rewrite Hrel in Hb1.
    assert (Hsp1 : same_span z z1) by apply mz_store_span.
    assert (Hfree1 : forall p, 0 <= p -> is_free z1 p = true -> is_free z p = true).
    { intros p Hp. rewrite Hb1 by done. by intros [? _]%andb_true_iff. }
    destruct (IH z1 (rel `div` 32 + 1) (rel + k) (num - k))
      as [(z' & Hrun & Hwf' & Hsp & Hall & Hbits)
         |(z' & base & q & Hrun & Hwf' & Hsp & Hbase & Hq & Hqf & Hall & Hbits)];
      try done; try lia.
    { change (mz_pages z1) with (mz_pages z). lia. }
    + left. exists z'. split_and!; try done; [by etrans| |].
      * intros p Hp. rewrite (in_range_split rel num k) in Hp by lia.
        apply orb_true_iff in Hp as [Hp|Hp]; [by apply Hm|].
        apply Hfree1; [unfold in_range in Hp; lia|]. by apply Hall.
      * intros p Hp. rewrite Hbits, Hb1, (in_range_split rel num k), negb_orb by lia.
        by rewrite andb_assoc.
    + right. exists z', base, q. split_and!; try done; [by etrans|lia|lia| | | |].
      * unfold in_range in *; lia.
      * rewrite Hb1 in Hqf by (unfold in_range in Hq; lia).
        replace (in_range rel k q) with false in Hqf by (unfold in_range in *; lia).
        by rewrite andb_true_r in Hqf.
      * intros p Hp. rewrite (in_range_split rel (base - rel) k) in Hp by lia.
        apply orb_true_iff in Hp as [Hp|Hp]; [by apply Hm|].
        apply Hfree1; [unfold in_range in Hp; lia|]. apply Hall.
        by replace (base - (rel + k)) with (base - rel - k) by lia.
      * intros p Hp. rewrite Hbits, Hb1, (in_range_split rel (base - rel) k), negb_orb by lia.
        rewrite andb_assoc. by replace (base - (rel + k)) with (base - rel - k) by lia.
  - right.
    destruct (mask_not_included (mz_fpages z) (rel `div` 32) w k off)
      as (q & Hq & Hqf); try done; try lia.
    rewrite Hrel in Hq. exists z, rel, q.
    split_and!; try done; try lia; [unfold in_range in *; lia| |];
      intros p Hp; unfold in_range in *; lia.
Qed.

(** A range is all free, or it holds a page in use. *)
Lemma range_cases z rel num :
  (forall p, in_range rel num p = true -> is_free z p = true)
  \/ exists q, in_range rel num q = true /\ is_free z q = false.
Proof.
  destruct (decide (Forall (fun i => is_free z (rel + Z.of_nat i) = true) (seq 0 (Z.to_nat num))))
    as [Hf|Hf].
  - left. intros p Hp. unfold in_range in Hp. rewrite List.Forall_forall in Hf.
    specialize (Hf (Z.to_nat (p - rel))). rewrite in_seq in Hf. specialize (Hf ltac:(lia)).
    cbn in Hf. by replace (rel + Z.of_nat (Z.to_nat (p - rel))) with p in Hf by lia.
  - right. apply not_Forall_Exists in Hf; [|apply _].
    apply List.Exists_exists in Hf as (i & Hi%in_seq & Hif). exists (rel + Z.of_nat i).
    split; [unfold in_range; lia|]. cbn in Hif. by destruct (is_free z (rel + Z.of_nat i)).
Qed.

Lemma free_run_counted z rel num :
  zone_wf z -> 0 <= rel -> 0 <= num -> rel + num <= mz_pages z ->
  (forall p, in_range rel num p = true -> is_free z p = true) -> num <= mz_free z.
Proof.
  intros Hwf Hr Hn Hb Hall. rewrite (wf_free z Hwf).
  rewrite (countZ_range (fun p => is_free z p && negb (in_range rel num p)) _ rel (rel + num));
    [|lia| |].
  - match goal with |- context [countZ ?f ?n] => pose proof (countZ_bounds f n) end. lia.
  - intros i Hi Hri. assert (E : in_range rel num i = true) by (unfold in_range; lia).
    by rewrite (Hall i E), E.
  - intros i Hi Hri. replace (in_range rel num i) with false by (unfold in_range; lia).
    by rewrite andb_true_r.
Qed.

Lemma mzone_malloc_at_ok z rel num :
  zone_wf z -> 0 <= rel -> 0 < num -> rel + num <= mz_pages z ->
  exists z' b, mzone_malloc_at z rel num = Ret (z', b) /\ zone_wf z' /\ same_span z z'
    /\ (if b : bool
        then (forall p, in_range rel num p = true -> is_free z p = true)
             /\ forall p, 0 <= p -> is_free z' p = is_free z p && negb (in_range rel num p)
        else z' = z /\ exists q, in_range rel num q = true /\ is_free z q = false).
Proof.
  intros Hwf Hr Hn Hb. unfold mzone_malloc_at.
  destruct (free_bound z rel num) as (H1 & H2 & H3); try done. rewrite !bind_kassert by done.
  destruct (Z.ltb_spec (mz_free z) num) as [Hlt|Hge].
  { exists z, false. split_and!; try done.
    destruct (range_cases z rel num) as [Hall|?]; [|done].
    pose proof (free_run_counted z rel num Hwf Hr ltac:(lia) Hb Hall). lia. }
  destruct (mzone_malloc_at_loop_ok (Z.to_nat num) z (rel `div` DATAWORD_BITS) rel num)
    as [(z' & -> & Hwf' & Hsp & Hall & Hbits)
       |(z' & base & q & -> & Hwf' & Hsp & Hbase & Hq & Hqf & Hall & Hbits)];
    try done; try lia; [by right| |]; rewrite bind_ret.
  { by exists z', true. }
  rewrite bind_kassert by lia. destruct (Z.eqb_spec base rel) as [->|Hne].
  - exists z', false. split_and!; try done; [|by exists q].
    apply zone_ext; try done. intros p Hp. rewrite Hbits by done.
    replace (in_range rel (rel - rel) p) with false by (unfold in_range; lia). apply andb_true_r.
  - destruct (mzone_free_ok z' rel (base - rel)) as (z'' & -> & Hwf'' & Hsp' & Hbits');
      try done; try lia; [by rewrite (same_span_pages _ _ Hsp); lia| |].
    { intros p Hp. rewrite Hbits, Hp by (unfold in_range in Hp; lia). apply andb_false_r. }
    rewrite bind_ret. exists z'', false. split_and!; try done; [by etrans| |by exists q].
    apply zone_ext; try done; [by etrans|]. intros p Hp. rewrite Hbits', Hbits by done.
    destruct (in_range rel (base - rel) p) eqn:E; [by rewrite (Hall p E)|].
    by rewrite andb_true_r, orb_false_r.
Qed.

Lemma mzone_malloc_at_oob z rel num :
  zone_wf z -> 0 <= rel -> 0 < num -> mz_pages z < rel + num < 2 ^ 32 ->
  mzone_malloc_at z rel num = Panic.
Proof.
  intros Hwf Hr Hn Hb. unfold mzone_malloc_at. pose proof (wf_max0 z Hwf).
  rewrite !bind_kassert by lia. destruct (zone_bounds z Hwf) as (-> & _ & HP).
  rewrite u32_small by lia. by rewrite bind_kassert_false by lia.
Qed.

(** * Scanning a data word *)
Section Scan.
Context (D : Z).
Hypothesis HD : 0 <= D < 2 ^ 32.

Lemma odd_shiftr off : 0 <= off -> Z.odd (Z.shiftr D off) = Z.testbit D off.
Proof. intros. by rewrite <- Z.bit0_odd, Z.shiftr_spec by lia. Qed.

Lemma shiftr_next off : 0 <= off -> Z.shiftr (Z.shiftr D off) 1 = Z.shiftr D (off + 1).
Proof. intros. by rewrite Z.shiftr_shiftr by lia. Qed.

Lemma shiftr_zero off : 0 <= off ->
  Z.shiftr D off = 0 <-> forall i, off <= i -> Z.testbit D i = false.
Proof.
  intros Ho. split.
  - intros H i Hi. apply (f_equal (fun x => Z.testbit x (i - off))) in H.
    rewrite Z.shiftr_spec, Z.testbit_0_l in H by lia.
    by replace (i - off + off) with i in H by lia.
  - intros H. apply Z.bits_inj'. intros i Hi. rewrite Z.shiftr_spec, Z.testbit_0_l by lia.
    apply H. lia.
Qed.

Lemma scan_used_spec fuel : forall off,
  0 <= off -> Z.shiftr D off <> 0 -> 32 - off <= Z.of_nat fuel ->
  exists off', scan_used fuel (Z.shiftr D off) off = (Z.shiftr D off', off')
    /\ off <= off' < 32 /\ Z.testbit D off' = true
    /\ forall i, off <= i < off' -> Z.testbit D i = false.
Proof.
  induction fuel as [|fuel IH]; intros off Ho Hnz Hf; cbn [scan_used].
  - exfalso. apply Hnz, shiftr_zero; [done|]. intros i Hi. apply (testbit_high 32); lia.
  - rewrite odd_shiftr by done. destruct (Z.testbit D off) eqn:Hb.
    + exists off. split_and!; try done; try lia. destruct (decide (off < 32)); [done|].
      rewrite (testbit_high 32) in Hb; lia || done.
    + rewrite shiftr_next by done. destruct (IH (off + 1)) as (off' & -> & Hr & Hs & Hc); try lia.
      * intros H. apply Hnz, shiftr_zero; [done|]. intros i Hi.
        destruct (decide (i = off)) as [->|]; [done|].
        rewrite (shiftr_zero (off + 1)) in H by lia. apply H. lia.
      * exists off'. split_and!; try done; try lia. intros i Hi.
        destruct (decide (i = off)) as [->|]; [done|]. apply Hc. lia.
Qed.

Lemma scan_free_spec fuel : forall off size maxp,
  0 <= off -> 0 <= size <= maxp -> off + size <= 32 -> 32 - off - size <= Z.of_nat fuel ->
  exists size', scan_free fuel (Z.shiftr D (off + size)) size maxp = (Z.shiftr D (off + size'), size')
    /\ size <= size' <= maxp /\ off + size' <= 32
    /\ (size' = maxp \/ Z.testbit D (off + size') = false)
    /\ forall i, off + size <= i < off + size' -> Z.testbit D i = true.
Proof.
  induction fuel as [|fuel IH]; intros off size maxp Ho Hs Hfit Hf; cbn [scan_free].
  { exists size. split_and!; try done; try lia. right. apply (testbit_high 32); lia. }
  rewrite odd_shiftr by lia.
  destruct (Z.testbit D (off + size)) eqn:Hb; cbn [andb].
  - assert (off + size < 32).
    { destruct (decide (off + size < 32)); [done|]. rewrite (testbit_high 32) in Hb; lia || done. }
    destruct (Z.ltb_spec size maxp).
    + rewrite shiftr_next by lia. replace (off + size + 1) with (off + (size + 1)) by lia.
      destruct (IH off (size + 1) maxp) as (size' & -> & H1 & H2 & H3 & H4); try lia.
      exists size'. split_and!; try done; try lia. intros i Hi.
      destruct (decide (i = off + size)) as [->|]; [done|]. apply H4. lia.
    + exists size. split_and!; try done; lia.
  - exists size. split_and!; try done; try lia; auto.
Qed.
End Scan.

(** * Searching *)

(** Pages [a .. a+n-1] of the zone are all free. *)
Definition free_run (z : mzone) (a n : Z) : Prop :=
  forall p, in_range a n p = true -> is_free z p = true.

(** [z'] is [z] with exactly the free pages [a .. a+n-1] taken. *)
Definition taken (z z' : mzone) (a n : Z) : Prop :=
  zone_wf z' /\ same_span z z' /\ 0 <= a /\ a + n <= mz_pages z /\ free_run z a n
  /\ forall p, 0 <= p -> is_free z' p = is_free z p && negb (in_range a n p).

Definition scan_post (z : mzone) (lo hi minp maxp : Z) (r : outcome word_scan) : Prop :=
  match r with
  | Ret (WS_continue z') => z' = z /\ forall a, lo <= a < hi -> ~ free_run z a minp
  | Ret (WS_next_zone z') => z' = z /\ forall a, lo <= a -> ~ free_run z a minp
  | Ret (WS_return z' base n) =>
      exists a, base = mz_min z + a /\ taken z z' a n /\ minp <= n <= maxp
  | Panic => 1 < minp /\ exists a, is_free z a = true /\ 0 <= a < mz_pages z /\ mz_pages z < a + minp
  | Throw _ => False
  end.

Lemma free_run_blocked z a n q :
  is_free z q = false -> a <= q < a + n -> ~ free_run z a n.
Proof. intros Hq Hr Hrun. rewrite (Hrun q) in Hq; [done|]. unfold in_range. lia. Qed.

(** A page taken by nobody lies in the zone. *)
Lemma free_in_zone z p : zone_wf z -> is_free z p = true -> p < mz_pages z.
Proof.
  intros Hwf Hp. destruct (decide (p < mz_pages z)); [done|].
  rewrite (wf_tail z Hwf) in Hp; lia || done.
Qed.

Section ScanWord.
Context (z : mzone) (iter w : Z).
Hypothesis Hwf : zone_wf z.
Hypothesis Hiter : 0 <= iter.
Hypothesis Hw : mz_fpages z !! Z.to_nat iter = Some w.

Let Hwr : 0 <= w < 2 ^ 32 := Forall_lookup_1 _ _ _ _ (wf_words z Hwf) Hw.

Lemma host_bit i : 0 <= i < 32 -> Z.testbit (SWAPPTR w) i = is_free z (32 * iter + i).
Proof. intros Hi. apply (range_bit _ iter w 32 0); done || lia. Qed.

Section Run.
Context (off n : Z).
Hypothesis Hoff : 0 <= off.
Hypothesis Hn : 0 < n.
Hypothesis Hfit : off + n <= 32.
Hypothesis Hset : forall i, off <= i < off + n -> Z.testbit (SWAPPTR w) i = true.

Lemma word_run_free : free_run z (32 * iter + off) n.
Proof.
  intros p Hp. unfold in_range in Hp. replace p with (32 * iter + (p - 32 * iter)) by lia.
  rewrite <- host_bit by lia. apply Hset. lia.
Qed.

Lemma word_run_in_zone : 32 * iter + off + n <= mz_pages z.
Proof.
  pose proof (free_in_zone z (32 * iter + off + n - 1) Hwf) as H.
  rewrite word_run_free in H by (unfold in_range; lia). lia.
Qed.

Lemma word_run_taken :
  taken z (mz_store z iter (Z.ldiff w (SWAPPTR (page_mask n off))) (- n)) (32 * iter + off) n.
Proof.
  pose proof word_run_in_zone. pose proof word_run_free.
  destruct (mz_store_take z iter w off n) as [H1 H2]; try done; try lia.
  split_and!; try done; [apply mz_store_span|lia].
Qed.

Lemma word_run_mask :
  Z.land w (SWAPPTR (page_mask n off)) = SWAPPTR (page_mask n off).
Proof. apply (mask_included (mz_fpages z) iter); try done; try lia. apply word_run_free. Qed.

(** Giving back what [word_run_taken] took restores the zone. *)
Lemma word_run_restore z1 w1 :
  z1 = mz_store z iter (Z.ldiff w (SWAPPTR (page_mask n off))) (- n) ->
  mz_fpages z1 !! Z.to_nat iter = Some w1 ->
  mz_store z1 iter (Z.lor w1 (SWAPPTR (page_mask n off))) n = z.
Proof.
  intros Hz1 Hw1. destruct word_run_taken as (Hwf1 & Hsp & H0 & Hb & Hrun & Hbits).
  rewrite <- Hz1 in *. pose proof (same_span_pages _ _ Hsp) as HP.
  destruct (mz_store_free z1 iter w1 off n) as [Hwf2 Hbits2]; try done; try lia.
  { intros p Hp. rewrite Hbits, Hp by (unfold in_range in Hp; lia). apply andb_false_r. }
  apply zone_ext; try done; [etrans; [exact Hsp|apply mz_store_span]|]. intros p Hp.
  rewrite Hbits2, Hbits by done.
  destruct (in_range (32 * iter + off) n p) eqn:E; [by rewrite (Hrun p E)|].
  by rewrite andb_true_r, orb_false_r.
Qed.
End Run.

(** The branch that extends the run at the top of a word into the next ones. *)
Lemma scan_extend off n minp maxp :
  0 <= off -> 0 < n -> off + n = 32 -> n < minp -> minp <= maxp ->
  minp <= mz_free z ->
  (forall i, off <= i < off + n -> Z.testbit (SWAPPTR w) i = true) ->
  let alloc_base := iter * DATAWORD_BITS + off in
  let alloc_mask := SWAPPTR (page_mask n off) in
  scan_post z (32 * iter + off) (32 * iter + 32) minp maxp
    (if u32 (u32 (mz_max z - mz_min z + 1) - alloc_base) <? minp - n
     then Ret (WS_next_zone z)
     else r ← mzone_malloc_at (mz_store z iter (Z.ldiff w alloc_mask) (- n))
                (alloc_base + n) (minp - n);
          match r with
          | (z', true) =>
              Ret (WS_return z' (u32 (alloc_base + mz_min z)) (n + (minp - n)))
          | (z', false) =>
              w' ← access (mz_fpages z' !! Z.to_nat iter);
              Ret (WS_continue (mz_store z' iter (Z.lor w' alloc_mask) n))
          end).
Proof.
  intros Ho Hn Hfit Hmin Hmax Hfree Hset base mask.
  pose proof (word_run_taken off n Ho Hn ltac:(lia) Hset) as (Hwf1 & Hsp & H0 & Hb & Hrun & Hbits).
  pose proof (word_run_restore off n Ho Hn ltac:(lia) Hset) as Hrest.
  fold mask in Hwf1, Hsp, Hbits, Hrest. set (z1 := mz_store _ _ _ _) in *.
  destruct (zone_bounds z Hwf) as (_ & -> & HP). pose proof (wf_free_range z Hwf).
  pose proof (wf_min z Hwf). pose proof (wf_max z Hwf). unfold mz_pages in HP.
  pose proof (same_span_pages _ _ Hsp) as HP1.
  assert (Hbase : base = 32 * iter + off) by (unfold base, DATAWORD_BITS; lia).
  clearbody base. subst base. rewrite (u32_small (mz_pages z - _)) by (unfold mz_pages in *; lia).
  destruct (Z.ltb_spec (mz_pages z - (32 * iter + off)) (minp - n)) as [Hlt|Hge].
  { split; [done|]. intros a Ha. apply (free_run_blocked _ _ _ (a + minp - 1)); [|lia].
    apply (wf_tail z Hwf). lia. }
  destruct (decide (32 * iter + off + minp <= mz_pages z)) as [Hin|Hout].
  - destruct (mzone_malloc_at_ok z1 (32 * iter + off + n) (minp - n))
      as (z2 & b & -> & Hwf2 & Hsp2 & Hpost); try done; try lia.
    rewrite bind_ret. destruct b.
    + destruct Hpost as [Hall Hbits2]. exists (32 * iter + off).
      rewrite u32_small by (unfold mz_pages in *; lia).
      replace (n + (minp - n)) with minp by lia. unfold taken. split_and!; try done; try lia; [by etrans| |].
      * intros p Hp. rewrite (in_range_split _ minp n) in Hp by lia.
        apply orb_true_iff in Hp as [Hp|Hp]; [by apply Hrun|]. pose proof (Hall p Hp) as Hf.
        rewrite Hbits in Hf by (unfold in_range in Hp; lia). by apply andb_true_iff in Hf as [? _].
      * intros p Hp. rewrite Hbits2, Hbits, (in_range_split _ minp n), negb_orb by lia.
        by rewrite andb_assoc.
    + destruct Hpost as [-> (q & Hq & Hqf)].
      destruct (lookup_lt_is_Some_2 (mz_fpages z1) (Z.to_nat iter)) as [w' Hw'].
      { cbn. rewrite length_insert. by eapply lookup_lt_Some. }
      erewrite bind_access by done. split; [by apply Hrest|]. intros a Ha.
      apply (free_run_blocked _ _ _ q); [|unfold in_range in Hq; lia].
      rewrite Hbits in Hqf by (unfold in_range in Hq; lia).
      replace (in_range _ n q) with false in Hqf by (unfold in_range in *; lia).
      by rewrite andb_true_r in Hqf.
  - rewrite (mzone_malloc_at_oob z1) by (done || (unfold mz_pages in *; lia)). split; [unfold mz_pages in *; lia|].
    exists (32 * iter + off). split; [|unfold mz_pages in *; lia]. apply Hrun. unfold in_range. lia.
Qed.

Lemma scan_alloc_offset_ok fuel : forall off minp maxp,
  0 <= off -> 32 - off < Z.of_nat fuel -> 0 < minp <= maxp -> minp <= mz_free z ->
  Z.shiftr (SWAPPTR w) off <> 0 ->
  scan_post z (32 * iter + off) (32 * iter + 32) minp maxp
    (scan_alloc_offset fuel z iter w (Z.shiftr (SWAPPTR w) off) off minp maxp).
Proof.
  induction fuel as [|fuel IH]; intros off minp maxp Ho Hf Hm Hfree Hnz.
  { exfalso. apply Hnz, shiftr_zero; [done|]. intros i Hi.
    apply (testbit_high 32); [apply SWAPPTR_range|lia]. }
  cbn [scan_alloc_offset].
  destruct (scan_used_spec (SWAPPTR w) (SWAPPTR_range w) 32 off) as (off' & -> & Hr & Hs & Hc);
    try done; try lia.
  destruct (scan_free_spec (SWAPPTR w) (SWAPPTR_range w) 32 off' 0 maxp)
    as (n & Hscan & Hnr & Hfit & Hend & Hset); try lia.
  rewrite Z.add_0_r in Hscan, Hset. rewrite Hscan.
  assert (Hn : 0 < n).
  { destruct (decide (n = 0)) as [->|]; [|lia]. rewrite Z.add_0_r, Hs in Hend.
    destruct Hend as [Hend|Hend]; [lia|done]. }
  rewrite bind_kassert by (unfold DATAWORD_BITS; lia).
  rewrite bind_kassert by (apply Z.eqb_eq, word_run_mask; done || lia).
  pose proof (word_run_taken off' n ltac:(lia) Hn Hfit Hset) as Htaken.
  destruct (Z.ltb_spec n minp) as [Hshort|Hlong].
  2: { assert (HP := Htaken). destruct HP as (_ & _ & H0 & Hb & _).
       pose proof (wf_min z Hwf). pose proof (wf_max z Hwf). unfold mz_pages in Hb.
       exists (32 * iter + off'). unfold DATAWORD_BITS. rewrite u32_small by lia.
       split_and!; try apply Htaken; lia. }
  assert (Hlow : forall a, 32 * iter + off <= a < 32 * iter + off' -> ~ free_run z a minp).
  { intros a Ha. apply (free_run_blocked _ _ _ a); [|lia].
    replace a with (32 * iter + (a - 32 * iter)) by lia. rewrite <- host_bit by lia. apply Hc. lia. }
  assert (Hlow2 : off' + n < 32 ->
    forall a, 32 * iter + off <= a < 32 * iter + (off' + n) -> ~ free_run z a minp).
  { intros Hlt a Ha. destruct (decide (a < 32 * iter + off')); [apply Hlow; lia|].
    apply (free_run_blocked _ _ _ (32 * iter + (off' + n))); [|lia].
    rewrite <- host_bit by lia. destruct Hend as [->|?]; [lia|done]. }
  destruct (Z.eqb_spec (Z.shiftr (SWAPPTR w) (off' + n)) 0) as [Hz|Hz]; cbn [negb].
  - unfold DATAWORD_BITS at 1. destruct (Z.eqb_spec (off' + n) 32) as [Htop|Htop]; cbn [negb].
    + pose proof (scan_extend off' n minp maxp ltac:(lia) Hn Htop Hshort ltac:(lia) Hfree Hset) as He.
      cbn zeta in He. destruct (u32 _ <? _); [destruct He as [_ He]; split; [done|]|].
      * intros a Ha. destruct (decide (a < 32 * iter + off')); [apply Hlow; lia|apply He; lia].
      * destruct (mzone_malloc_at _ _ _) as [[z' []]| |]; try done; cbn in He |- *.
        destruct (mz_fpages z' !! Z.to_nat iter); cbn in He |- *; [|done].
        destruct He as [He1 He]. split; [done|]. intros a Ha.
        destruct (decide (a < 32 * iter + off')); [apply Hlow; lia|apply He; lia].
    + split; [done|]. intros a Ha.
      destruct (decide (a < 32 * iter + (off' + n))); [apply Hlow2; lia|].
      apply (free_run_blocked _ _ _ a); [|lia].
      replace a with (32 * iter + (a - 32 * iter)) by lia. rewrite <- host_bit by lia.
      apply (shiftr_zero (SWAPPTR w) (off' + n)); done || lia.
  - assert (Hlt : off' + n < 32).
    { destruct (decide (off' + n < 32)); [done|]. exfalso. apply Hz, shiftr_zero; [lia|].
      intros i Hi. apply (testbit_high 32); [apply SWAPPTR_range|lia]. }
    rewrite bind_kassert by (unfold DATAWORD_BITS; lia).
    specialize (IH (off' + n) minp maxp ltac:(lia) ltac:(lia) Hm Hfree Hz).
    unfold scan_post in *. destruct (scan_alloc_offset _ _ _ _ _ _ _ _) as [[]| |]; try done.
    all: destruct IH as [-> IH]; split; [done|]; intros a Ha.
    all: destruct (decide (a < 32 * iter + (off' + n))); [apply Hlow2; lia|apply IH; lia].
Qed.
End ScanWord.

Lemma free_run_fits z a n :
  zone_wf z -> 0 <= a -> 0 < n -> free_run z a n -> a + n <= mz_pages z /\ n <= mz_free z.
Proof.
  intros Hwf Ha Hn Hrun.
  assert (a + n <= mz_pages z).
  { pose proof (free_in_zone z (a + n - 1) Hwf) as H. rewrite Hrun in H by (unfold in_range; lia). lia. }
  split; [done|]. by apply (free_run_counted z a n); try lia.
Qed.

(** The words scanned by [scan_zone] are those that hold a page of the zone. *)
Lemma scan_zone_bound z iter :
  zone_wf z -> 0 <= iter ->
  (4 * iter <? (mz_max z - mz_min z) `div` 8 + 1) = (32 * iter <? mz_pages z).
Proof.
  intros Hwf Hi. pose proof (wf_max z Hwf). unfold mz_pages. mlia.
Qed.

Definition zone_post (z : mzone) (lo minp maxp : Z) (r : outcome (mzone * option (Z * Z))) : Prop :=
  match r with
  | Ret (z', None) => z' = z /\ forall a, lo <= a -> ~ free_run z a minp
  | Ret (z', Some (base, n)) =>
      exists a, base = mz_min z + a /\ taken z z' a n /\ minp <= n <= maxp
  | Panic => 1 < minp /\ exists a, is_free z a = true /\ 0 <= a < mz_pages z /\ mz_pages z < a + minp
  | Throw _ => False
  end.

Lemma scan_zone_ok z fuel : forall iter minp maxp,
  zone_wf z -> 0 <= iter -> 0 < minp <= maxp -> minp <= mz_free z ->
  Z.of_nat (length (mz_fpages z)) - iter <= Z.of_nat fuel ->
  zone_post z (32 * iter) minp maxp (scan_zone fuel z iter minp maxp).
Proof.
  induction fuel as [|fuel IH]; intros iter minp maxp Hwf Hi Hm Hfree Hf; cbn [scan_zone];
    rewrite scan_zone_bound by done; destruct (Z.ltb_spec (32 * iter) (mz_pages z)) as [Hlt|Hge].
  2,4: split; [done|]; intros a Ha; apply (free_run_blocked _ _ _ a); [|lia];
       apply (wf_tail z Hwf); lia.
  - destruct (zone_word z (32 * iter) Hwf) as (w & Hw & _ & _); [lia|].
    apply lookup_lt_Some in Hw. replace ((32 * iter) `div` 32) with iter in Hw by mlia. lia.
  - destruct (zone_word z (32 * iter) Hwf) as (w & Hw & Hwr & Hby); [lia|].
    replace ((32 * iter) `div` 32) with iter in * by mlia.
    rewrite bind_kassert by lia. erewrite bind_access by done.
    assert (Hcont : (forall a, 32 * iter <= a < 32 * iter + 32 -> ~ free_run z a minp) ->
      zone_post z (32 * iter) minp maxp (scan_zone fuel z (iter + 1) minp maxp)).
    { intros Hword. specialize (IH (iter + 1) minp maxp Hwf ltac:(lia) Hm Hfree ltac:(lia)).
      unfold zone_post in *. destruct (scan_zone _ _ _ _ _) as [[z' [[b n]|]]| |]; try done.
      destruct IH as [-> IH]. split; [done|]. intros a Ha.
      destruct (decide (a < 32 * iter + 32)); [apply Hword; lia|apply IH; lia]. }
    destruct (Z.eqb_spec w 0) as [->|Hnz].
    + apply Hcont. intros a Ha. apply (free_run_blocked _ _ _ a); [|lia].
      replace a with (32 * iter + (a - 32 * iter)) by lia.
      rewrite <- (host_bit z iter 0) by (done || lia). apply Z.testbit_0_l.
    + pose proof (scan_alloc_offset_ok z iter w Hwf Hi Hw 33 0 minp maxp) as Hs.
      rewrite Z.shiftr_0_r, Z.add_0_r in Hs.
      specialize (Hs ltac:(lia) ltac:(lia) Hm Hfree).
      unfold scan_post in Hs. destruct (scan_alloc_offset _ _ _ _ _ _ _ _) as [[z'|z'|z' b n]| |].
      all: try (destruct Hs; [|done]; intros E; apply Hnz;
                rewrite <- (SWAPPTR_invol w), E by done; done).
      all: cbn [mbind outcome_bind].
      all: assert (Hne : SWAPPTR w <> 0)
        by (intros E; apply Hnz; rewrite <- (SWAPPTR_invol w), E by done; done).
      all: specialize (Hs Hne); try done.
      destruct Hs as [-> Hs]. by apply Hcont.
Qed.

(** * [page_malloc_part] *)
Definition search_post (id : nat) (zs : list mzone) (minp maxp : Z)
    (r : outcome (list mzone * option (Z * Z))) : Prop :=
  match r with
  | Ret (zs', None) =>
      zs' = zs /\ forall i z a, (i <= id)%nat -> zs !! i = Some z -> 0 <= a -> ~ free_run z a minp
  | Ret (zs', Some (base, n)) =>
      exists i z z' a, (i <= id)%nat /\ zs !! i = Some z /\ zs' = <[i := z']> zs
        /\ base = mz_min z + a /\ taken z z' a n /\ minp <= n <= maxp
  | Panic =>
      1 < minp /\ exists i z a, (i <= id)%nat /\ zs !! i = Some z /\ is_free z a = true
        /\ 0 <= a < mz_pages z /\ mz_pages z < a + minp
  | Throw _ => False
  end.

Lemma search_post_next id zs minp maxp r :
  search_post id zs minp maxp r ->
  (forall z a, zs !! S id = Some z -> 0 <= a -> ~ free_run z a minp) ->
  search_post (S id) zs minp maxp r.
Proof.
  unfold search_post. intros H Hz. destruct r as [[zs' [[b n]|]]| |]; try done.
  - destruct H as (i & z & z' & a & Hi & H). exists i, z, z', a. split; [lia|done].
  - destruct H as [-> H]. split; [done|]. intros i z a Hi Hl Ha.
    destruct (decide (i = S id)) as [->|]; [by eapply Hz|]. apply (H i z a); done || lia.
  - destruct H as (Hm & i & z & a & Hi & H). split; [done|]. exists i, z, a. split; [lia|done].
Qed.

Lemma zone_search_ok z minp maxp :
  zone_wf z -> 0 < minp <= maxp ->
  (mz_free z <? minp) = false ->
  zone_post z 0 minp maxp (scan_zone (length (mz_fpages z)) z 0 minp maxp).
Proof.
  intros Hwf Hm Hge. apply (scan_zone_ok z _ 0); try done; lia.
Qed.

Lemma page_malloc_zones_ok id : forall zs minp maxp,
  Forall zone_wf zs -> (id < length zs)%nat -> 0 < minp <= maxp ->
  search_post id zs minp maxp (page_malloc_zones id zs minp maxp).
Proof.
  induction id as [|id IH]; intros zs minp maxp Hwfs Hid Hm;
    destruct (lookup_lt_is_Some_2 zs _ Hid) as [z Hz];
    pose proof (Forall_lookup_1 _ _ _ _ Hwfs Hz) as Hwf; cbn in Hwf;
    pose proof (wf_max0 z Hwf);
    assert (Hfew : (mz_free z <? minp) = true -> forall a, 0 <= a -> ~ free_run z a minp)
      by (intros Hlt a Ha Hrun;
          pose proof (free_run_fits z a minp Hwf Ha ltac:(lia) Hrun); lia);
    cbn [page_malloc_zones]; erewrite bind_access by done; rewrite bind_kassert by lia;
    (destruct (mz_free z <? minp) eqn:Hlt;
     [|pose proof (zone_search_ok z minp maxp Hwf Hm Hlt) as Hs;
       destruct (scan_zone _ _ _ _ _) as [[z' [[b n]|]]| |]; try done; cbn [mbind outcome_bind]]).
  - split; [done|]. intros i z0 a Hi Hl Ha. replace i with 0%nat in * by lia.
    rewrite Hz in Hl. injection Hl as <-. by apply Hfew.
  - destruct Hs as (a & H1 & H2 & H3). by exists 0%nat, z, z', a.
  - destruct Hs as [-> Hs]. rewrite list_insert_id by done. split; [done|].
    intros i z0 a Hi Hl Ha. replace i with 0%nat in * by lia.
    rewrite Hz in Hl. injection Hl as <-. by apply Hs.
  - destruct Hs as (H1 & a & H2 & H3). split; [done|]. by exists 0%nat, z, a.
  - apply search_post_next; [apply IH; done || lia|]. intros z0 a Hl Ha.
    rewrite Hz in Hl. injection Hl as <-. by apply Hfew.
  - destruct Hs as (a & H1 & H2 & H3). by exists (S id), z, z', a.
  - destruct Hs as [-> Hs]. rewrite list_insert_id by done.
    apply search_post_next; [apply IH; done || lia|]. intros z0 a Hl Ha.
    rewrite Hz in Hl. injection Hl as <-. by apply Hs.
  - destruct Hs as (H1 & a & H2 & H3). split; [done|]. by exists (S id), z, a.
Qed.

(** * Ranges over several zones *)

(** [mzones] is in ascending order of addresses. *)
Definition zones_sorted (zs : list mzone) : Prop :=
  forall i j x y, (i < j)%nat -> zs !! i = Some x -> zs !! j = Some y -> mz_max x < mz_min y.

(** Every page of [base .. base+n-1] belongs to one of the first [k] zones, and
    is in use. *)
Definition covered_used (k : nat) (zs : list mzone) (base n : Z) : Prop :=
  forall p, base <= p < base + n ->
  exists i z, (i < k)%nat /\ zs !! i = Some z /\ mz_min z <= p <= mz_max z
    /\ is_free z (p - mz_min z) = false.

Definition freed (base n : Z) (z z' : mzone) : Prop :=
  zone_wf z' /\ same_span z z'
  /\ forall p, 0 <= p < mz_pages z ->
     is_free z' p = is_free z p || in_range (base - mz_min z) n p.

Lemma freed_none base n z :
  zone_wf z -> (n <= 0 \/ base + n <= mz_min z) -> freed base n z z.
Proof.
  intros Hwf Hn. split_and!; [done|done|]. intros p Hp.
  replace (in_range _ n p) with false by (unfold in_range; lia). by rewrite orb_false_r.
Qed.

Lemma zones_sorted_min zs i j x y :
  zones_sorted zs -> Forall zone_wf zs -> (i <= j)%nat ->
  zs !! i = Some x -> zs !! j = Some y -> mz_min x <= mz_min y.
Proof.
  intros Hs Hwf Hij Hx Hy. destruct (decide (i = j)) as [->|].
  - by simplify_eq.
  - pose proof (Hs i j x y ltac:(lia) Hx Hy).
    pose proof (wf_max x (Forall_lookup_1 _ _ _ _ Hwf Hx)). lia.
Qed.

(** The topmost zone below the end of a covered range contains its last page. *)
Lemma covered_top zs k base n z :
  zones_sorted zs -> Forall zone_wf zs -> 0 < n ->
  covered_used (S k) zs base n -> zs !! k = Some z -> mz_min z < base + n ->
  base + n - 1 <= mz_max z.
Proof.
  intros Hs Hwf Hn Hcov Hz Hlt. destruct (Hcov (base + n - 1)) as (i & x & Hi & Hx & Hr & _); [lia|].
  destruct (decide (i = k)) as [->|]; [simplify_eq; lia|].
  pose proof (Hs i k x z ltac:(lia) Hx Hz). lia.
Qed.

(** The part of a covered range that lies in the topmost zone is in use. *)
Lemma covered_top_used zs k base n z p :
  zones_sorted zs -> Forall zone_wf zs -> covered_used (S k) zs base n -> zs !! k = Some z ->
  base <= p < base + n -> mz_min z <= p -> is_free z (p - mz_min z) = false.
Proof.
  intros Hs Hwf Hcov Hz Hp Hm. destruct (Hcov p Hp) as (i & x & Hi & Hx & Hr & Hu).
  destruct (decide (i = k)) as [->|]; [by simplify_eq|].
  pose proof (Hs i k x z ltac:(lia) Hx Hz). lia.
Qed.

Lemma covered_shrink zs k base n m z z' :
  zones_sorted zs -> covered_used (S k) zs base n -> zs !! k = Some z ->
  m <= n -> base + m <= mz_min z \/ m <= 0 ->
  covered_used k (<[k := z']> zs) base m.
Proof.
  intros Hs Hcov Hz Hm Hb p Hp. destruct (Hcov p) as (i & x & Hi & Hx & Hr & Hu); [lia|].
  assert (i <> k) by (intros ->; simplify_eq; lia).
  exists i, x. split; [lia|]. by rewrite list_lookup_insert_ne by lia.
Qed.

Lemma zones_sorted_insert zs k z z' :
  zones_sorted zs -> zs !! k = Some z -> same_span z z' -> zones_sorted (<[k := z']> zs).
Proof.
  intros Hs Hz (Hmin & Hmax & _) i j x y Hij Hx Hy.
  rewrite list_lookup_insert in Hx. rewrite list_lookup_insert in Hy.
  repeat case_decide; simplify_eq; destruct_and?; subst; simplify_eq; try lia;
    rewrite ?Hmin, ?Hmax; (eapply Hs; [exact Hij|done|done]).
Qed.

(** The iteration of [page_free] that handles zone [z]. *)
Lemma page_free_zone z base n start :
  zone_wf z -> base + n - 1 <= mz_max z ->
  base <= start -> mz_min z <= start < base + n -> (start = base \/ start = mz_min z) ->
  (forall p, base <= p < base + n -> mz_min z <= p -> is_free z (p - mz_min z) = false) ->
  exists z', mzone_free z (start - mz_min z) (base + n - start) = Ret z' /\ freed base n z z'.
Proof.
  intros Hwf Htop Hb Hst Hor Hused.
  destruct (mzone_free_ok z (start - mz_min z) (base + n - start)) as (z' & Hrun & Hwf' & Hsp & Hbits);
    try done; try lia; [unfold mz_pages; lia| |].
  { intros p Hp. unfold in_range in Hp. replace p with (p + mz_min z - mz_min z) by lia.
    apply Hused; lia. }
  exists z'. unfold freed. split_and!; try done. intros p Hp. rewrite Hbits by lia. f_equal. unfold in_range. lia.
Qed.

(** Zones below the one just handled only see the rest of the range. *)
Lemma freed_lower x x' z base n start :
  mz_max x < mz_min z -> mz_min z <= start -> start <= base + n -> base <= start ->
  freed base (start - base) x x' -> freed base n x x'.
Proof.
  intros H1 H2 H3 H4 (Hwf & Hsp & Hbits). split_and!; try done. intros p Hp.
  rewrite Hbits by done. f_equal. unfold in_range, mz_pages in *. lia.
Qed.

Lemma page_free_loop_ok k : forall zs base n,
  Forall zone_wf zs -> zones_sorted zs -> (k <= length zs)%nat ->
  0 <= base -> 0 <= n -> base + n < 2 ^ 32 -> covered_used k zs base n ->
  exists zs', page_free_loop k zs base n = Ret zs' /\ length zs' = length zs
    /\ forall j z, zs !! j = Some z -> exists z', zs' !! j = Some z'
         /\ ((j < k)%nat -> freed base n z z') /\ ((k <= j)%nat -> z' = z).
Proof.
  induction k as [|k IH]; intros zs base n Hwf Hs Hk Hb Hn Hbn Hcov; cbn [page_free_loop].
  { exists zs. split_and!; try done. intros j z Hz. exists z. split_and!; [done|lia|done]. }
  destruct (Z.eqb_spec n 0) as [->|Hn0].
  { exists zs. split_and!; try done. intros j z Hz. exists z. split_and!; try done. intros _.
    apply freed_none; [|lia]. exact (Forall_lookup_1 _ _ _ _ Hwf Hz). }
  destruct (lookup_lt_is_Some_2 zs k) as [z Hz]; [lia|]. erewrite bind_access by done.
  assert (Hwfz : zone_wf z) by exact (Forall_lookup_1 _ _ _ _ Hwf Hz).
  pose proof (wf_max0 z Hwfz). rewrite bind_kassert by lia. rewrite u32_small by lia.
  destruct ((base + n <=? mz_min z) && negb (base + n =? 0)) eqn:Hskip.
  - destruct (IH zs base n) as (zs' & -> & Hl & Hz'); try done; try lia.
    { rewrite <- (list_insert_id zs k z) by done. eapply covered_shrink; done || lia. }
    exists zs'. split_and!; try done. intros j x Hx.
    destruct (Hz' j x Hx) as (x' & Hx' & Hlow & Hhigh). exists x'. split_and!; try done.
    + intros Hj. destruct (decide (j = k)) as [->|]; [|apply Hlow; lia].
      rewrite Hhigh by lia. simplify_eq. apply freed_none; [done|lia].
    + intros Hj. apply Hhigh. lia.
  - pose proof (covered_top zs k base n z Hs Hwf ltac:(lia) Hcov Hz ltac:(lia)) as Htop.
    rewrite u32_small by lia. rewrite bind_kassert by lia.
    pose proof (wf_min z Hwfz). set (start := if mz_min z <? base then base else mz_min z).
    assert (Hst : base <= start /\ mz_min z <= start < base + n /\ (start = base \/ start = mz_min z))
      by (unfold start; destr_if; lia).
    clearbody start. rewrite bind_kassert by lia.
    destruct (page_free_zone z base n start) as (z' & -> & Hfreed); try done; try lia.
    { intros p Hp Hm. eapply covered_top_used; done. }
    rewrite bind_ret.
    destruct (IH (<[k := z']> zs) base (start - base)) as (zs' & -> & Hl & Hz'); try done; try lia.
    { apply Forall_insert; [done|apply Hfreed]. }
    { eapply zones_sorted_insert; done || apply Hfreed. }
    { rewrite length_insert. lia. }
    { eapply covered_shrink; done || lia. }
    rewrite length_insert in Hl. exists zs'. split_and!; try done. intros j x Hx.
    destruct (decide (j = k)) as [->|Hjk].
    + simplify_eq. destruct (Hz' k z') as (z2 & Hz2 & _ & Hr); [by apply list_lookup_insert_eq|].
      rewrite Hr in Hz2 by lia. exists z'. split_and!; done || lia.
    + destruct (Hz' j x) as (x' & Hx' & Hlow & Hhigh); [by rewrite list_lookup_insert_ne by lia|].
      exists x'. split_and!; try done; intros Hj; [|apply Hhigh; lia].
      apply (freed_lower x x' z base n start); try lia; [|apply Hlow; lia].
      apply (Hs j k); done || lia.
Qed.

Lemma page_free_ok zs base n :
  Forall zone_wf zs -> zones_sorted zs -> 0 <= base -> 0 <= n -> base + n < 2 ^ 32 ->
  covered_used (length zs) zs base n ->
  exists zs', page_free zs base n = Ret zs' /\ Forall2 (freed base n) zs zs'.
Proof.
  intros Hwf Hs Hb Hn Hbn Hcov. unfold page_free. rewrite u32_small by lia.
  rewrite bind_kassert by lia.
  destruct (page_free_loop_ok (length zs) zs base n) as (zs' & -> & Hl & Hz); try done.
  exists zs'. split; [done|]. apply Forall2_same_length_lookup_2; [done|].
  intros i x y Hx Hy. destruct (Hz i x Hx) as (x' & Hx' & Hf & _). simplify_eq. apply Hf.
  by eapply lookup_lt_Some.
Qed.

(** Zones are determined by their pages below the end. *)
Lemma zone_ext_pages z z' :
  zone_wf z -> zone_wf z' -> same_span z z' ->
  (forall p, 0 <= p < mz_pages z -> is_free z' p = is_free z p) -> z' = z.
Proof.
  intros Hwf Hwf' Hsp Hbits. apply zone_ext; try done. intros p Hp.
  destruct (decide (p < mz_pages z)); [apply Hbits; lia|].
  rewrite (wf_tail z Hwf), (wf_tail z' Hwf'); [done| |lia]. rewrite (same_span_pages _ _ Hsp). lia.
Qed.

Lemma freed_outside base n z z' :
  zone_wf z -> (base + n <= mz_min z \/ mz_max z < base) -> freed base n z z' -> z' = z.
Proof.
  intros Hwf Hout (Hwf' & Hsp & Hbits). apply zone_ext_pages; try done. intros p Hp.
  rewrite Hbits by done. unfold mz_pages in Hp.
  replace (in_range _ n p) with false by (unfold in_range; lia). apply orb_false_r.
Qed.

Lemma freed_taken z z' z'' a n :
  zone_wf z -> taken z z' a n -> freed (mz_min z + a) n z' z'' -> z'' = z.
Proof.
  intros Hwf (Hwf' & Hsp & Ha & Hb & Hrun & Hbits) (Hwf'' & Hsp' & Hbits').
  apply zone_ext_pages; try done; [by etrans|]. intros p Hp.
  rewrite Hbits' by (rewrite (same_span_pages _ _ Hsp); lia). rewrite Hbits by lia.
  destruct Hsp as (-> & _). replace (mz_min z + a - mz_min z) with a by lia.
  destruct (in_range a n p) eqn:E; [by rewrite (Hrun p E)|]. by rewrite andb_true_r, orb_false_r.
Qed.

Lemma taken_free_back zs i z z' a n :
  Forall zone_wf zs -> zones_sorted zs -> zs !! i = Some z -> taken z z' a n -> 0 < n ->
  page_free (<[i := z']> zs) (mz_min z + a) n = Ret zs.
Proof.
  intros Hwf Hs Hz Ht Hn. assert (Hwfz : zone_wf z) by exact (Forall_lookup_1 _ _ _ _ Hwf Hz).
  pose proof Ht as (Hwf' & Hsp & Ha & Hb & Hrun & Hbits). pose proof (wf_min z Hwfz).
  pose proof (wf_max z Hwfz). unfold mz_pages in Hb. pose proof Hsp as (Hmin & Hmax & _).
  assert (Hi : (i < length zs)%nat) by by eapply lookup_lt_Some.
  destruct (page_free_ok (<[i := z']> zs) (mz_min z + a) n) as (zs'' & -> & HF); try lia.
  - by apply Forall_insert.
  - by eapply zones_sorted_insert.
  - intros p Hp. exists i, z'. rewrite length_insert, list_lookup_insert_eq by done.
    split_and!; try done; try lia. rewrite Hbits by lia.
    replace (in_range a n _) with true by (unfold in_range; lia). apply andb_false_r.
  - f_equal. assert (Hlen : length zs'' = length zs)
      by (apply Forall2_length in HF; by rewrite length_insert in HF).
    apply list_eq_same_length with (length zs); [done|done|]. intros j x y Hj Hx Hy.
    destruct (decide (j = i)) as [->|Hne].
    + simplify_eq. eapply freed_taken; [done|done|].
      eapply Forall2_lookup_lr; [exact HF|by apply list_lookup_insert_eq|done].
    + apply (freed_outside (mz_min z + a) n); [exact (Forall_lookup_1 _ _ _ _ Hwf Hy)| |].
      * destruct (decide (j < i)%nat).
        { pose proof (Hs j i y z ltac:(lia) Hy Hz). lia. }
        pose proof (Hs i j z y ltac:(lia) Hz Hy). lia.
      * eapply Forall2_lookup_lr; [exact HF|by rewrite list_lookup_insert_ne by done|done].
Qed.

(** * Deciding well-formedness of a concrete zone *)
Definition zone_wfb (z : mzone) : bool :=
  (0 <=? mz_min z) && (mz_min z <=? mz_max z) && (mz_max z <? 2 ^ 31) && negb (mz_max z =? 0)
  && (Z.of_nat (length (mz_fpages z)) =? mz_bytes z `div` 4)
  && forallb (fun w => (0 <=? w) && (w <? 2 ^ 32)) (mz_fpages z)
  && forallb (fun p => negb (is_free z (mz_pages z + Z.of_nat p)))
       (seq 0 (Z.to_nat (32 * Z.of_nat (length (mz_fpages z)) - mz_pages z)))
  && (mz_free z =? countZ (is_free z) (Z.to_nat (mz_pages z)))
  && (0 <=? mz_used z) && (mz_used z <? 2 ^ 32).

Lemma zone_wfb_sound z : zone_wfb z = true -> zone_wf z.
Proof.
  unfold zone_wfb. rewrite !andb_true_iff, !forallb_forall.
  intros (((((((((H1 & H2) & H3) & H4) & H5) & H6) & H7) & H8) & H9) & H10).
  constructor; try lia.
  - apply List.Forall_forall. intros w Hw. specialize (H6 w Hw). lia.
  - intros p Hp. destruct (decide (p < 32 * Z.of_nat (length (mz_fpages z)))).
    + specialize (H7 (Z.to_nat (p - mz_pages z))). rewrite in_seq in H7.
      specialize (H7 ltac:(lia)). apply negb_true_iff in H7.
      by replace (mz_pages z + Z.of_nat (Z.to_nat (p - mz_pages z))) with p in H7 by lia.
    + unfold is_free, page_bit. rewrite lookup_ge_None_2 by mlia. cbn. apply Z.testbit_0_l.
Qed.

(** * Properties *)

(** C3: On well-formed zones, [page_malloc_part] has one of three outcomes.  It returns
    between [min_pages] and [max_pages] contiguous pages that were free in one of the
    zones [0 .. max_zone] and takes exactly those; or it reports [E_BADALLOC], which
    happens only when none of these zones has [min_pages] contiguous free pages, and
    then changes nothing; or the assertion of [mzone_malloc_at] fails, which happens
    only for a request for several pages when a zone has a free page closer than
    [min_pages] to its end.  In particular a request for a single page fails no
    assertion. *)
Theorem page_malloc_part_spec zs minp maxp max_zone :
  Forall zone_wf zs -> (max_zone < length zs)%nat -> 0 < minp <= maxp ->
  match page_malloc_part zs minp maxp max_zone with
  | Ret (zs', inr (base, n)) =>
      minp <= n <= maxp /\ exists i z z' a, (i <= max_zone)%nat /\ zs !! i = Some z
        /\ zs' = <[i := z']> zs /\ base = mz_min z + a /\ taken z z' a n
  | Ret (zs', inl e) =>
      e = E_BADALLOC /\ zs' = zs /\ forall i z a, (i <= max_zone)%nat -> zs !! i = Some z ->
        0 <= a -> ~ free_run z a minp
  | Panic =>
      1 < minp /\ exists i z a, (i <= max_zone)%nat /\ zs !! i = Some z /\ is_free z a = true
        /\ 0 <= a < mz_pages z /\ mz_pages z < a + minp
  | Throw _ => False
  end.
Proof.
  intros Hwf Hid Hm. unfold page_malloc_part.
  rewrite bind_kassert by lia. rewrite bind_kassert by (by apply bool_decide_eq_true).
  pose proof (page_malloc_zones_ok max_zone zs minp maxp Hwf Hid Hm) as H.
  unfold search_post in H. destruct (page_malloc_zones _ _ _ _) as [[zs' [[b n]|]]| |]; try done.
  destruct H as (i & z & z' & a & H1 & H2 & H3 & H4 & H5 & H6). split; [done|].
  by exists i, z, z', a.
Qed.

(** A request for a single page always returns: with a page that was free, or
    with [E_BADALLOC] when no zone up to [max_zone] has a free page. *)
Theorem page_malloc_single zs max_zone :
  Forall zone_wf zs -> (max_zone < length zs)%nat ->
  exists zs' r, page_malloc zs 1 max_zone = Ret (zs', r) /\
  match r with
  | inr base => exists i z z' a, (i <= max_zone)%nat /\ zs !! i = Some z
      /\ zs' = <[i := z']> zs /\ base = mz_min z + a /\ taken z z' a 1
  | inl e => e = E_BADALLOC /\ zs' = zs
      /\ forall i z p, (i <= max_zone)%nat -> zs !! i = Some z -> 0 <= p -> is_free z p = false
  end.
Proof.
  intros Hwf Hid. unfold page_malloc, page_malloc_part.
  rewrite bind_kassert by lia. rewrite bind_kassert by (by apply bool_decide_eq_true).
  pose proof (page_malloc_zones_ok max_zone zs 1 1 Hwf Hid ltac:(lia)) as H.
  unfold search_post in H.
  destruct (page_malloc_zones _ _ _ _) as [[zs' [[b n]|]]| |]; [| |done|lia]; cbn; eexists _, _;
    (split; [done|]).
  - destruct H as (i & z & z' & a & H1 & H2 & H3 & H4 & H5 & H6).
    replace n with 1 in H5 by lia. by exists i, z, z', a.
  - destruct H as [-> H]. split_and!; try done. intros i z p Hi Hz Hp.
    destruct (is_free z p) eqn:E; [|done]. exfalso. apply (H i z p Hi Hz Hp).
    intros q Hq. unfold in_range in Hq. by replace q with p by lia.
Qed.

(** [mzone_malloc_at] on a range inside the zone returns; it succeeds exactly
    when every page of the range is free, takes exactly that range, and a failed call leaves the
    zone, statistics included, as it was. *)
Theorem mzone_malloc_at_spec z rel num :
  zone_wf z -> 0 <= rel -> 0 < num -> rel + num <= mz_pages z ->
  exists z' b, mzone_malloc_at z rel num = Ret (z', b)
    /\ (b = true <-> free_run z rel num)
    /\ (b = true -> taken z z' rel num) /\ (b = false -> z' = z).
Proof.
  intros Hwf Hr Hn Hb. destruct (mzone_malloc_at_ok z rel num) as (z' & b & -> & Hwf' & Hsp & H);
    try done.
  exists z', b. destruct b.
  - destruct H as [Hall Hbits]. split_and!; done.
  - destruct H as [-> (q & Hq & Hqf)]. split_and!; try done. split; [done|]. intros Hrun.
    rewrite (Hrun q Hq) in Hqf. done.
Qed.

(** C38: [page_free] of pages that all belong to zones and are in use returns and
    marks exactly these pages as free in every zone the range touches. *)
Theorem page_free_spec zs base n :
  Forall zone_wf zs -> zones_sorted zs -> 0 <= base -> 0 <= n -> base + n < 2 ^ 32 ->
  covered_used (length zs) zs base n ->
  exists zs', page_free zs base n = Ret zs' /\ Forall2 (freed base n) zs zs'.
Proof.
  apply page_free_ok.
Qed.

(** Freeing a range that holds a free page is caught by the assertion. *)
Theorem mzone_free_double z rel num q :
  zone_wf z -> 0 <= rel -> 0 < num -> rel + num <= mz_pages z ->
  rel <= q < rel + num -> is_free z q = true -> mzone_free z rel num = Panic.
Proof.
  intros Hwf Hr Hn Hb Hq Hf. unfold mzone_free.
  destruct (free_bound z rel num) as (H1 & H2 & H3); try done. rewrite !bind_kassert by done.
  apply mzone_free_loop_double with (q := q); try done; [lia|by right|unfold in_range; lia].
Qed.

(** Freeing what [page_malloc] returned restores all zones. *)
Theorem page_malloc_free_roundtrip zs num max_zone zs' base :
  Forall zone_wf zs -> zones_sorted zs -> (max_zone < length zs)%nat -> 0 < num ->
  page_malloc zs num max_zone = Ret (zs', inr base) ->
  page_free zs' base num = Ret zs.
Proof.
  intros Hwf Hs Hid Hn Hrun. unfold page_malloc, page_malloc_part in Hrun.
  rewrite bind_kassert in Hrun by lia.
  rewrite bind_kassert in Hrun by (by apply bool_decide_eq_true).
  pose proof (page_malloc_zones_ok max_zone zs num num Hwf Hid ltac:(lia)) as H.
  unfold search_post in H.
  destruct (page_malloc_zones _ _ _ _) as [[zs1 [[b n]|]]| |]; cbn in Hrun; simplify_eq.
  destruct H as (i & z & z' & a & H1 & H2 & -> & -> & H5 & H6).
  replace n with num in H5 by lia. by apply taken_free_back.
Qed.

Lemma page_malloc_at_skip k : forall zs base n i z,
  Forall zone_wf zs -> zones_sorted zs -> zs !! i = Some z -> 0 <= base -> 0 < n ->
  base + n - 1 <= mz_max z -> (i < k <= length zs)%nat ->
  page_malloc_at_loop k zs base n n = page_malloc_at_loop (S i) zs base n n.
Proof.
  induction k as [|k IH]; intros zs base n i z Hwf Hs Hz Hb Hn Hin Hk; [lia|].
  destruct (decide (i = k)) as [->|Hne]; [done|].
  rewrite <- (IH zs base n i z) by (done || lia). cbn [page_malloc_at_loop].
  destruct (lookup_lt_is_Some_2 zs k) as [x Hx]; [lia|].
  replace (n =? 0) with false by lia. rewrite Hx. cbn [access]. rewrite bind_ret.
  pose proof (Hs i k z x ltac:(lia) Hz Hx).
  pose proof (wf_max z (Forall_lookup_1 _ _ _ _ Hwf Hz)). rewrite u32_small by lia.
  by replace ((base + n <=? mz_min x) && negb (base + n =? 0)) with true by lia.
Qed.

Lemma page_malloc_at_done k zs base n : page_malloc_at_loop k zs base n 0 = Ret (zs, true).
Proof. by destruct k. Qed.

(** [page_malloc_at] on a range inside one zone returns, succeeds exactly
    when all its pages are free, and changes nothing otherwise. *)
Theorem page_malloc_at_spec zs i z base n :
  Forall zone_wf zs -> zones_sorted zs -> zs !! i = Some z -> mz_min z <= base -> 0 < n ->
  base + n - 1 <= mz_max z ->
  exists zs' b, page_malloc_at zs base n = Ret (zs', b)
    /\ (b = true <-> free_run z (base - mz_min z) n)
    /\ (b = true -> exists z', zs' = <[i := z']> zs /\ taken z z' (base - mz_min z) n)
    /\ (b = false -> zs' = zs).
Proof.
  intros Hwf Hs Hz Hb Hn Hin. assert (Hwfz : zone_wf z) by exact (Forall_lookup_1 _ _ _ _ Hwf Hz).
  pose proof (wf_min z Hwfz). pose proof (wf_max z Hwfz).
  assert (Hi : (i < length zs)%nat) by by eapply lookup_lt_Some.
  unfold page_malloc_at. rewrite (page_malloc_at_skip _ zs base n i z) by (done || lia).
  cbn [page_malloc_at_loop]. replace (n =? 0) with false by lia. rewrite Hz. cbn [access].
  rewrite bind_ret, !u32_small by (rewrite ?u32_small; lia).
  replace ((base + n <=? mz_min z) && negb (base + n =? 0)) with false by lia.
  replace (mz_max z <? base + n - 1) with false by lia.
  replace (if mz_min z <? base then base else mz_min z) with base by (destr_if; lia).
  rewrite !bind_kassert by lia. replace (base + n - base) with n by lia.
  destruct (mzone_malloc_at_ok z (base - mz_min z) n) as (z' & b & -> & Hwf' & Hsp & Hres);
    try done; try lia; [unfold mz_pages; lia|].
  rewrite bind_ret. destruct b; cbn [fst snd].
  - destruct Hres as [Hall Hbits]. rewrite Z.sub_diag, page_malloc_at_done. exists (<[i := z']> zs), true.
    split_and!; try done. intros _. exists z'. split; [done|].
    split_and!; try done; unfold mz_pages; lia.
  - destruct Hres as [-> (q & Hq & Hqf)]. rewrite list_insert_id, Z.sub_diag by done.
    unfold page_free. rewrite Z.add_0_r, u32_small by lia. rewrite bind_kassert by lia.
    exists zs, false.
    replace (page_free_loop (length zs) zs (base + n) 0) with (Ret zs) by by destruct zs.
    split_and!; try done. split; [done|]. intros Hrun. by rewrite (Hrun q Hq) in Hqf.
Qed.

(** * Witnesses and concrete runs *)

(** Pages 0..39, of which 0..9 and 16..31 are free. *)
Definition zone_ex : mzone := MkZone 0 39 14 26 [SWAPPTR 4294902783; 0; 0].
(** Two adjacent zones of 32 pages; in the upper one pages 2 and 3 are in use. *)
Definition zone_lo : mzone := MkZone 0 31 0 32 [4294967295; 0; 0].
Definition zone_hi : mzone := MkZone 32 63 2 30 [SWAPPTR 4294967283; 0; 0].

Lemma zone_ex_wf : zone_wf zone_ex.
Proof. apply zone_wfb_sound. vm_compute. reflexivity. Qed.
Lemma zone_lo_wf : zone_wf zone_lo.
Proof. apply zone_wfb_sound. vm_compute. reflexivity. Qed.
Lemma zone_hi_wf : zone_wf zone_hi.
Proof. apply zone_wfb_sound. vm_compute. reflexivity. Qed.
Lemma zone_ex_wfs : Forall zone_wf [zone_ex].
Proof. repeat constructor; apply zone_ex_wf. Qed.
Lemma zones_ex_wf : Forall zone_wf [zone_lo; zone_hi].
Proof. repeat constructor; apply zone_lo_wf || apply zone_hi_wf. Qed.
Lemma zones_ex_sorted : zones_sorted [zone_lo; zone_hi].
Proof.
  intros [|[|i]] [|[|j]] x y Hij Hx Hy; cbn in *; simplify_eq; try lia; done.
Qed.

(** A request for 20 contiguous pages makes [page_malloc] hit the assertion of
    [mzone_malloc_at]: the free run 16..31 ends with its data word, the check against
    [max_avail] ignores the 16 pages already found, and the range 32..35 that is tried next is
    not part of the zone of 32 pages. *)
Example page_malloc_panics :
  page_malloc [MkZone 0 31 6 26 [SWAPPTR 4294902783; 0; 0]] 20 0 = Panic.
Proof. vm_compute. reflexivity. Qed.

(** [page_malloc_at] on a range over two zones reports failure although all its
    pages are free; on the way it keeps pages 32 and 33 and frees page 34, which is
    in use and outside of the range. *)
Example page_malloc_at_two_zones :
  exists lo hi, page_malloc_at [zone_lo; zone_hi] 30 4 = Ret ([lo; hi], false)
    /\ free_run zone_lo 30 2 /\ free_run zone_hi 0 2
    /\ is_free zone_hi 2 = false /\ is_free hi 2 = true
    /\ is_free zone_hi 0 = true /\ is_free hi 0 = false.
Proof.
  eexists _, _. split; [vm_compute; reflexivity|].
  split_and!; try (vm_compute; reflexivity); intros p Hp; unfold in_range in Hp.
  - assert (p = 30 \/ p = 31) as [->| ->] by lia; vm_compute; reflexivity.
  - assert (p = 0 \/ p = 1) as [->| ->] by lia; vm_compute; reflexivity.
Qed.

Lemma page_malloc_part_witness :
  exists zs', page_malloc_part [zone_ex] 1 12 0 = Ret (zs', inr (0, 10)) /\ 1 <= 10 <= 12.
Proof.
  pose proof (page_malloc_part_spec [zone_ex] 1 12 0
    zone_ex_wfs ltac:(cbn; lia) ltac:(lia)) as H.
  destruct (page_malloc_part [zone_ex] 1 12 0) as [[zs' [e|[base n]]]| |] eqn:E;
    vm_compute in E; try discriminate.
  injection E as <- <- <-. eexists. split; [reflexivity|apply H].
Defined.

Lemma page_malloc_single_witness :
  exists zs' r, page_malloc [zone_lo; zone_hi] 1 1 = Ret (zs', r) /\ r = inr 32.
Proof.
  destruct (page_malloc_single [zone_lo; zone_hi] 1 zones_ex_wf ltac:(cbn; lia)) as (zs' & r & H & _).
  exists zs', r. split; [exact H|]. vm_compute in H. injection H as <- <-. reflexivity.
Defined.

Lemma mzone_malloc_at_witness :
  exists z' b, mzone_malloc_at zone_ex 8 10 = Ret (z', b) /\ (b = false -> z' = zone_ex).
Proof.
  destruct (mzone_malloc_at_spec zone_ex 8 10 zone_ex_wf ltac:(lia) ltac:(lia) ltac:(vm_compute; discriminate))
    as (z' & b & H & _ & _ & Hf). exists z', b. split; [exact H|exact Hf].
Defined.

Lemma page_free_witness :
  exists zs', page_free [zone_lo; zone_hi] 34 2 = Ret zs'
    /\ Forall2 (freed 34 2) [zone_lo; zone_hi] zs'.
Proof.
  apply (page_free_spec [zone_lo; zone_hi] 34 2 zones_ex_wf zones_ex_sorted); try lia.
  intros p Hp. exists 1%nat, zone_hi. assert (p = 34 \/ p = 35) as [->| ->] by lia;
    (split; [cbn; lia|]); (split; [reflexivity|]); (split; [cbn; lia|vm_compute; reflexivity]).
Defined.

Lemma mzone_free_double_witness : mzone_free zone_ex 30 4 = Panic.
Proof.
  apply (mzone_free_double zone_ex 30 4 31 zone_ex_wf); try lia; vm_compute; reflexivity || discriminate.
Defined.

Lemma page_malloc_free_witness :
  exists zs' base, page_malloc [zone_lo; zone_hi] 3 1 = Ret (zs', inr base)
    /\ page_free zs' base 3 = Ret [zone_lo; zone_hi].
Proof.
  eexists _, _. split; [vm_compute; reflexivity|].
  apply (page_malloc_free_roundtrip [zone_lo; zone_hi] 3 1 _ _ zones_ex_wf zones_ex_sorted);
    [cbn; lia|lia|]. vm_compute. reflexivity.
Defined.

Lemma page_malloc_at_witness :
  exists zs' b, page_malloc_at [zone_lo; zone_hi] 36 4 = Ret (zs', b) /\ (b = false -> zs' = [zone_lo; zone_hi]).
Proof.
  destruct (page_malloc_at_spec [zone_lo; zone_hi] 1 zone_hi 36 4 zones_ex_wf zones_ex_sorted
    eq_refl ltac:(cbn; lia) ltac:(lia) ltac:(cbn; lia)) as (zs' & b & H & _ & _ & Hf).
  exists zs', b. split; [exact H|exact Hf].
Defined.
