(* ===== verification/Region.v ===== *)
(** Memory regions: kernel/src/vm/region.c.

    A region is a sequence of pages that several address spaces may map.  Its pages
    are described by parts: a sorted chain in which each part has a reference count,
    a lock count and a state for all of its pages, and, when the pages are in core,
    a scatter list of physical page ranges.  Operations on a range of pages split
    the parts at the bounds of the range, update the parts between them, and merge
    parts that have become alike.

    The chain is a list of parts; a pointer to a part is its index.  What a region
    means is its list of pages ([region_pages]).  Blocks of the kernel heap have
    numbers, and an oracle decides which allocations succeed; physical pages come
    from an allocator with the interface [FrameAllocator], which [PageAlloc]
    implements. *)
From S2P Require Import Prelude PageAlloc.
From stdpp Require Import list.
#[local] Open Scope Z_scope.

(** * Interfaces *)

(** What the region code relies on of the physical page allocator: [frame_used] are
    the pages that are allocated. *)
Class FrameAllocator : Type := {
  frames_st : Type;
  frames_ok : frames_st -> Prop;
  frame_used : frames_st -> Z -> Prop;
  frames_malloc : frames_st -> Z -> outcome (frames_st * (error_code + Z));
  frames_free : frames_st -> Z -> Z -> outcome frames_st;
  frames_malloc_spec : forall s n, frames_ok s -> 0 < n ->
    match frames_malloc s n with
    | Ret (s', inr base) =>
        frames_ok s' /\ 0 <= base /\ base + n < 2 ^ 32 /\
        (forall p, base <= p < base + n -> ~ frame_used s p) /\
        (forall p, frame_used s' p <-> frame_used s p \/ base <= p < base + n)
    | Ret (s', inl e) => e = E_BADALLOC /\ s' = s
    | Panic => 1 < n
    | Throw _ => False
    end;
  frames_free_spec : forall s base n, frames_ok s -> 0 <= base -> 0 <= n ->
    base + n < 2 ^ 32 -> (forall p, base <= p < base + n -> frame_used s p) ->
    exists s', frames_free s base n = Ret s' /\ frames_ok s' /\
      forall p, frame_used s' p <-> frame_used s p /\ ~ base <= p < base + n;
}.

(** * Data *)
Record scatter : Type := MkScatter { ps_addr : Z; ps_size : Z }.
Inductive part_state : Set := VM_PART_MISSING | VM_PART_INCORE | VM_PART_INSWAP | VM_PART_UNKNOWN.
#[export] Instance part_state_eq_dec : EqDecision part_state.
Proof. solve_decision. Defined.
Definition VM_PART_FWEAKREF : Z := 2.
Definition VM_PART_FSPLITTING : Z := 64.
Definition INT16_MAX : Z := 32767.
Definition INT16_MIN : Z := -32768.

(** [vp_block] is the heap block of the part, [None] for [vr_part0], which is a
    field of the region. *)
Record vm_part : Type := MkPart {
  vp_block : option nat;
  vp_refcnt : Z;
  vp_start : Z;
  vp_state : part_state;
  vp_flags : Z;
  vp_locked : Z;
  py_iscatter : list scatter;
}.
Definition set_refcnt (p : vm_part) (n : Z) : vm_part :=
  MkPart (vp_block p) n (vp_start p) (vp_state p) (vp_flags p) (vp_locked p) (py_iscatter p).
Definition set_locked (p : vm_part) (n : Z) : vm_part :=
  MkPart (vp_block p) (vp_refcnt p) (vp_start p) (vp_state p) (vp_flags p) n (py_iscatter p).
Definition set_flags (p : vm_part) (n : Z) : vm_part :=
  MkPart (vp_block p) (vp_refcnt p) (vp_start p) (vp_state p) n (vp_locked p) (py_iscatter p).
Definition set_scatter (p : vm_part) (l : list scatter) : vm_part :=
  MkPart (vp_block p) (vp_refcnt p) (vp_start p) (vp_state p) (vp_flags p) (vp_locked p) l.

(** [vr_init] with the part of [vr_setup] it makes valid. *)
Inductive region_init : Type :=
| VM_REGION_INIT_FNORMAL
| VM_REGION_INIT_FFILLER (s_filler : Z)
| VM_REGION_INIT_FRANDOM
| VM_REGION_INIT_FFILE (f_node : option nat) (f_begin f_start f_size f_filler : Z)
| VM_REGION_INIT_FFILE_RO (f_node : option nat) (f_begin f_start f_size f_filler : Z)
| VM_REGION_INIT_FUSER (u_func : option nat) (u_closure : nat) (u_delta : Z)
| VM_REGION_INIT_FVIO (v_ops : nat) (has_fini : bool) (v_closure : nat).
Inductive region_type : Set :=
  VM_REGION_MEM | VM_REGION_PHYSICAL | VM_REGION_RESERVED | VM_REGION_VIO
| VM_REGION_LOGUARD | VM_REGION_HIGUARD.
Definition VM_REGION_FIMMUTABLE : Z := 4096.
Definition VM_REGION_FDONTMERGE : Z := 8192.
Definition VM_REGION_FLEAKINGPARTS : Z := 16384.
Definition VM_REGION_FCOREREGION : Z := 32768.

(** [vr_lock] is the number of times the running task holds the mutex. *)
Record vm_region : Type := MkRegion {
  vr_block : nat;
  vr_refcnt : Z;
  vr_lock : Z;
  vr_type : region_type;
  vr_init : region_init;
  vr_flags : Z;
  vr_size : Z;
  vr_parts : list vm_part;
}.

(** Calls into code outside of the model. *)
Inductive region_call : Type :=
| CallInodeIncref (node : nat)
| CallInodeDecref (node : nat)
| CallUserDecref (func closure : nat) (delta size : Z)
| CallVioFini (ops closure : nat)
| CallCorebaseDecref (block : nat).

(** How an allocation ends: with memory, with [NULL] (only where the caller asked
    not to move the block), or with [E_BADALLOC]. *)
Inductive alloc_answer : Set := AOk | ANull | AFail.

Section Ops.
Context `{FA : FrameAllocator}.

Record rstate : Type := MkRs {
  rs_reg : vm_region;
  rs_oracle : nat -> alloc_answer;
  rs_live : list nat;
  rs_next : nat;
  rs_phys : frames_st;
  rs_calls : list region_call;
}.
Abbreviation RM := (SM rstate).

Definition with_reg (s : rstate) (r : vm_region) : rstate :=
  MkRs r (rs_oracle s) (rs_live s) (rs_next s) (rs_phys s) (rs_calls s).
Definition with_parts (r : vm_region) (l : list vm_part) : vm_region :=
  MkRegion (vr_block r) (vr_refcnt r) (vr_lock r) (vr_type r) (vr_init r) (vr_flags r)
    (vr_size r) l.
Definition with_flags (r : vm_region) (f : Z) : vm_region :=
  MkRegion (vr_block r) (vr_refcnt r) (vr_lock r) (vr_type r) (vr_init r) f (vr_size r)
    (vr_parts r).
Definition with_lock (r : vm_region) (n : Z) : vm_region :=
  MkRegion (vr_block r) (vr_refcnt r) n (vr_type r) (vr_init r) (vr_flags r) (vr_size r)
    (vr_parts r).
Definition region : RM vm_region := fun s => SRet (rs_reg s) s.
Definition set_region (r : vm_region) : RM unit := fun s => SRet tt (with_reg s r).
Definition set_parts (l : list vm_part) : RM unit := fun s =>
  SRet tt (with_reg s (with_parts (rs_reg s) l)).
Definition get_part (i : nat) : RM vm_part := fun s =>
  match vr_parts (rs_reg s) !! i with Some p => SRet p s | None => SPanic end.
Definition set_part (i : nat) (p : vm_part) : RM unit := fun s =>
  SRet tt (with_reg s (with_parts (rs_reg s) (<[i := p]> (vr_parts (rs_reg s))))).
Definition mutex_get : RM unit := fun s =>
  SRet tt (with_reg s (with_lock (rs_reg s) (vr_lock (rs_reg s) + 1))).
Definition mutex_put : RM unit := fun s =>
  SRet tt (with_reg s (with_lock (rs_reg s) (vr_lock (rs_reg s) - 1))).
Definition call (c : region_call) : RM unit := fun s =>
  SRet tt (MkRs (rs_reg s) (rs_oracle s) (rs_live s) (rs_next s) (rs_phys s) (rs_calls s ++ [c])).

(** ** Memory *)
(** The next answer of the oracle. *)
Definition ask : RM alloc_answer := fun s =>
  SRet (rs_oracle s 0%nat)
    (MkRs (rs_reg s) (fun n => rs_oracle s (S n)) (rs_live s) (rs_next s) (rs_phys s) (rs_calls s)).
Definition fresh_block : RM nat := fun s =>
  SRet (rs_next s) (MkRs (rs_reg s) (rs_oracle s) (rs_next s :: rs_live s) (S (rs_next s))
    (rs_phys s) (rs_calls s)).
Definition kmalloc : RM nat :=
  a ← ask;
  match a with AOk => fresh_block | _ => sthrow E_BADALLOC end.
(** [krealloc] with [GFP_NOMOVE]: whether the block could be extended. *)
Definition krealloc_nomove : RM bool :=
  a ← ask;
  match a with AOk => mret true | ANull => mret false | AFail => sthrow E_BADALLOC end.
(** Freeing a block that is not allocated is an error of the heap. *)
Definition kfree (b : nat) : RM unit := fun s =>
  if bool_decide (b ∈ rs_live s)
  then SRet tt (MkRs (rs_reg s) (rs_oracle s) (list_difference (rs_live s) [b]) (rs_next s)
         (rs_phys s) (rs_calls s))
  else SPanic.
(** [if (part != &self->vr_part0) kfree(part);] *)
Definition part_free (p : vm_part) : RM unit :=
  match vp_block p with Some b => kfree b | None => mret tt end.
Definition set_phys (f : frames_st) : RM unit := fun s =>
  SRet tt (MkRs (rs_reg s) (rs_oracle s) (rs_live s) (rs_next s) f (rs_calls s)).
Definition frame_free (base n : Z) : RM unit :=
  s ← sget; f ← slift (frames_free (rs_phys s) base n); set_phys f.
Definition frame_malloc (n : Z) : RM Z :=
  s ← sget; r ← slift (frames_malloc (rs_phys s) n);
  set_phys (fst r) ≫= fun _ => match snd r with inl e => sthrow e | inr base => mret base end.

(** ** Splitting *)
(** The loop over the scatter list: the entry that page [part_offset] lies in, and
    the pages before that entry. *)
Fixpoint scatter_find (l : list scatter) (i : nat) (scatter_total part_offset : Z)
    : outcome (nat * Z) :=
  match l with
  | [] => Panic
  | s :: l =>
      if part_offset <? scatter_total + ps_size s then Ret (i, scatter_total)
      else scatter_find l (S i) (scatter_total + ps_size s) part_offset
  end.
(** The scatter lists of the lower and the upper part. *)
Definition scatter_split (l : list scatter) (part_offset : Z)
    : outcome (list scatter * list scatter) :=
  (if (length l =? 1)%nat then Ret (0%nat, 0) else scatter_find l 0 0 part_offset)
    ≫= fun '(i, scatter_total) =>
  access (l !! i) ≫= fun split =>
  let scatter_total := part_offset - scatter_total in
  kassert (scatter_total <? ps_size split) ≫= fun _ =>
  Ret (take i l ++ [MkScatter (ps_addr split) scatter_total],
       MkScatter (ps_addr split + scatter_total) (ps_size split - scatter_total) :: drop (S i) l).

(** The index of the new part is [part + 1]. *)
Definition vm_part_splitafter (part : nat) (part_offset : Z) : RM nat :=
  r ← region;
  p ← get_part part;
  let next := vr_parts r !! S part in
  let before_next s := match next with None => true | Some q => s <? vp_start q end in
  scheck (negb (part_offset =? 0)) ≫= fun _ =>
  scheck (vp_start p <? vp_start p + part_offset) ≫= fun _ =>
  scheck (before_next (vp_start p + part_offset)) ≫= fun _ =>
  scheck (Z.land (vp_flags p) VM_PART_FSPLITTING =? 0) ≫= fun _ =>
  set_part part (set_flags p (Z.lor (vp_flags p) VM_PART_FSPLITTING)) ≫= fun _ =>
  new_part ← sfinally
    (p ← get_part part;
     match vp_state p with
     | VM_PART_INCORE =>
         lists ← slift (scatter_split (py_iscatter p) part_offset);
         b ← kmalloc;
         set_part part (set_scatter p (fst lists)) ≫= fun _ =>
         mret (MkPart (Some b) (vp_refcnt p) (vp_start p) (vp_state p)
           (Z.ldiff (vp_flags p) VM_PART_FSPLITTING) (vp_locked p) (snd lists))
     | _ =>
         b ← kmalloc;
         mret (MkPart (Some b) (vp_refcnt p) (vp_start p) (vp_state p)
           (Z.ldiff (vp_flags p) VM_PART_FSPLITTING) (vp_locked p) (py_iscatter p))
     end)
    (p ← get_part part; set_part part (set_flags p (Z.ldiff (vp_flags p) VM_PART_FSPLITTING)));
  let start := vp_start p + part_offset in
  let new_part := MkPart (vp_block new_part) (vp_refcnt new_part) start (vp_state new_part)
    (vp_flags new_part) (vp_locked new_part) (py_iscatter new_part) in
  scheck (before_next start) ≫= fun _ =>
  r ← region;
  set_parts (take (S part) (vr_parts r) ++ new_part :: drop (S part) (vr_parts r)) ≫= fun _ =>
  mret (S part).

(** [while (part->vp_chain.le_next && part->vp_chain.le_next->vp_start <= part_address)
    part = part->vp_chain.le_next;] from the part [i], with the parts behind it. *)
Fixpoint find_part (rest : list vm_part) (i : nat) (part_address : Z) : nat :=
  match rest with
  | q :: rest => if vp_start q <=? part_address then find_part rest (S i) part_address else i
  | [] => i
  end.
Definition vm_region_split_before (part_address : Z) : RM nat :=
  r ← region;
  scheck (part_address <? vr_size r) ≫= fun _ =>
  p0 ← get_part 0;
  scheck (vp_start p0 =? 0) ≫= fun _ =>
  let part := find_part (drop 1 (vr_parts r)) 0 part_address in
  p ← get_part part;
  if vp_start p =? part_address then mret part
  else
    scheck (match vr_parts r !! S part with None => true | Some q => part_address <? vp_start q end)
      ≫= fun _ =>
    scheck (vp_start p <? part_address) ≫= fun _ =>
    vm_part_splitafter part (part_address - vp_start p).

(** ** Merging *)
Definition scatter_end (s : scatter) : Z := ps_addr s + ps_size s.
Definition graft (s t : scatter) : scatter := MkScatter (ps_addr s) (ps_size t + ps_size s).

(** The merged scatter list, and whether it needs a larger block than that of
    [next]; [self_start] and [next_start] are the starts of the parts. *)
Definition merge_scatter (self next : list scatter) (self_start next_start : Z)
    : outcome (list scatter * bool) :=
  kassert (negb (length self =? 0)%nat) ≫= fun _ =>
  kassert (negb (length next =? 0)%nat) ≫= fun _ =>
  access (last self) ≫= fun s =>
  access (head next) ≫= fun t =>
  if (length self =? 1)%nat && (scatter_end s =? ps_addr t) then
    kassert (self_start + ps_size s =? next_start) ≫= fun _ =>
    Ret (graft s t :: tail next, false)
  else
    let required_scatter :=
      if (length self =? 1)%nat then S (length next)
      else ((if (scatter_end s =? ps_addr t)%Z then length self - 1 else length self)
            + length next)%nat in
    let required_scatter := (required_scatter - length next)%nat in
    kassert (negb (required_scatter =? 0)%nat) ≫= fun _ =>
    let full := take (length self - 1) self in
    if (required_scatter =? length self)%nat then Ret (full ++ s :: next, true)
    else
      kassert (required_scatter =? length self - 1)%nat ≫= fun _ =>
      kassert (scatter_end s =? ps_addr t) ≫= fun _ =>
      Ret (full ++ graft s t :: tail next, true).

(** The block of the merged part: that of [next], extended in place or replaced by
    a new one; [None] when there is no memory. *)
Definition merge_block (next : vm_part) : RM (option (option nat)) :=
  match vp_block next with
  | None => fun _ => SPanic
  | Some b =>
      scatch
        (extended ← krealloc_nomove;
         if (extended : bool) then mret (Some (Some b))
         else b' ← kmalloc; kfree b ≫= fun _ => mret (Some (Some b')))
        (fun e => if bool_decide (e = E_BADALLOC) then mret None else sthrow e)
  end.

(** Whether [self] was merged into its successor, which is then found at the index
    of [self]. *)
Definition vm_region_mergenext (self : nat) : RM bool :=
  r ← region;
  p ← get_part self;
  match vr_parts r !! S self with
  | None => mret false
  | Some q =>
      if negb (vp_refcnt q =? vp_refcnt p) then mret false
      else if negb (vp_locked q =? vp_locked p) then mret false
      else if negb (bool_decide (vp_state q = vp_state p)) then mret false
      else
        merged ←
          match vp_state p with
          | VM_PART_INCORE =>
              m ← slift (merge_scatter (py_iscatter p) (py_iscatter q) (vp_start p) (vp_start q));
              if (snd m : bool) then
                b ← merge_block q;
                mret ((fun b => (b, fst m)) <$> (b : option (option nat)))
              else mret (Some (vp_block q, fst m))
          | _ => mret (Some (vp_block q, py_iscatter q))
          end;
        match (merged : option (option nat * list scatter)) with
        | None => mret false
        | Some (b, l) =>
            let next := MkPart b (vp_refcnt q) (vp_start p) (vp_state q) (vp_flags q)
              (vp_locked q) l in
            set_parts (take self (vr_parts r) ++ next :: drop (S (S self)) (vr_parts r))
              ≫= fun _ =>
            scheck (match self with
                    | O => true
                    | S i => match vr_parts r !! i with
                             | Some prev => vp_start prev <? vp_start next
                             | None => false
                             end
                    end) ≫= fun _ =>
            part_free p ≫= fun _ =>
            mret true
        end
  end.

(** ** Operations on a range of pages *)
(** What the four functions do to a part: an assertion on it, the update (or the
    error that is thrown instead), and what an exception undoes in the parts that
    were updated before. *)
Record part_op : Type := MkPartOp {
  po_check : vm_part -> bool;
  po_update : vm_part -> error_code + vm_part;
  po_undo : option (vm_part -> outcome vm_part);
}.
Definition incref_op : part_op :=
  MkPartOp (fun _ => true) (fun p => inr (set_refcnt p (vp_refcnt p + 1)))
    (Some (fun p => kassert (negb (vp_refcnt p =? 0)) ≫= fun _ =>
                    Ret (set_refcnt p (vp_refcnt p - 1)))).
Definition decref_op : part_op :=
  MkPartOp (fun p => negb (vp_refcnt p =? 0))
    (fun p => inr (set_refcnt p (vp_refcnt p - 1))) None.
Definition inclck_op : part_op :=
  MkPartOp (fun _ => true)
    (fun p => if vp_locked p =? INT16_MAX then inl E_OVERFLOW
              else inr (set_locked p (vp_locked p + 1)))
    (Some (fun p => Ret (set_locked p (vp_locked p - 1)))).
Definition declck_op : part_op :=
  MkPartOp (fun _ => true)
    (fun p => if vp_locked p =? INT16_MIN then inl E_OVERFLOW
              else inr (set_locked p (vp_locked p - 1)))
    (Some (fun p => Ret (set_locked p (vp_locked p + 1)))).

(** [for (undo = first_part; undo != iter; undo = undo->vp_chain.le_next) ...], for
    [n] parts from [i]. *)
Fixpoint undo_parts (f : vm_part -> outcome vm_part) (n i : nat) : RM unit :=
  match n with
  | O => mret tt
  | S n =>
      p ← get_part i;
      p' ← slift (f p);
      set_part i p' ≫= fun _ => undo_parts f n (S i)
  end.
Definition range_handler (op : part_op) (first_part iter : nat) (e : error_code) : RM unit :=
  match po_undo op with
  | Some f => undo_parts f (iter - first_part) first_part ≫= fun _ => sthrow e
  | None => sthrow e
  end.
Definition update_part (op : part_op) (iter : nat) : RM unit :=
  p ← get_part iter;
  match po_update op p with
  | inl e => sthrow e
  | inr p' => set_part iter p'
  end.
(** The loop: the index of the last part it has reached. *)
Fixpoint range_loop (op : part_op) (fuel : nat) (first_part iter : nat) (range_end : Z)
    : RM nat :=
  match fuel with
  | O => fun _ => SPanic
  | S fuel =>
      r ← region;
      p ← get_part iter;
      if range_end <=? vp_start p then mret iter
      else
        scheck (po_check op p) ≫= fun _ =>
        let part_end :=
          match vr_parts r !! S iter with Some q => vp_start q | None => vr_size r end in
        if range_end <? part_end then
          scatch
            (vm_part_splitafter iter (range_end - vp_start p) ≫= fun _ => update_part op iter)
            (range_handler op first_part iter) ≫= fun _ =>
          mret iter
        else
          scatch (update_part op iter) (range_handler op first_part iter) ≫= fun _ =>
          if range_end =? part_end then mret iter
          else range_loop op fuel first_part (S iter) range_end
  end.
(** The merges at both ends of the range. *)
Definition merge_ends (first_part iter : nat) : RM unit :=
  iter ← match first_part with
         | O => mret iter
         | S before_first =>
             merged ← vm_region_mergenext before_first;
             mret (if (merged : bool) then pred iter else iter)
         end;
  _ ← vm_region_mergenext iter;
  mret tt.
Definition region_range (op : part_op) (first_page num_pages : Z) : RM unit :=
  let range_end := first_page + num_pages in
  first_part ← vm_region_split_before first_page;
  r ← region;
  iter ← range_loop op (S (length (vr_parts r))) first_part first_part range_end;
  merge_ends first_part iter.

Definition vm_region_incref_range (first_page num_pages : Z) : RM unit :=
  r ← region;
  scheck (first_page + num_pages <=? vr_size r) ≫= fun _ =>
  mutex_get ≫= fun _ =>
  sfinally (region_range incref_op first_page num_pages) mutex_put.
Definition vm_region_decref_range (first_page num_pages : Z) : RM unit :=
  r ← region;
  scheck (first_page + num_pages <=? vr_size r) ≫= fun _ =>
  mutex_get ≫= fun _ =>
  scatch (region_range decref_op first_page num_pages ≫= fun _ => mutex_put)
    (fun e =>
       r ← region;
       set_region (with_flags r (Z.lor (vr_flags r) VM_REGION_FLEAKINGPARTS)) ≫= fun _ =>
       mutex_put ≫= fun _ =>
       if bool_decide (e = E_BADALLOC) then mret tt else sthrow e).
Definition vm_region_inclck_range (first_page num_pages : Z) : RM unit :=
  r ← region;
  scheck (first_page + num_pages <=? vr_size r) ≫= fun _ =>
  mutex_get ≫= fun _ =>
  sfinally (region_range inclck_op first_page num_pages) mutex_put.
Definition vm_region_declck_range (first_page num_pages : Z) : RM unit :=
  r ← region;
  scheck (first_page + num_pages <=? vr_size r) ≫= fun _ =>
  mutex_get ≫= fun _ =>
  sfinally (region_range declck_op first_page num_pages) mutex_put.

(** ** Creation and destruction *)
Definition part0 : vm_part := MkPart None 0 0 VM_PART_MISSING 0 0 [].
Definition vm_region_alloc (num_pages : Z) : RM unit :=
  b ← kmalloc;
  set_region (MkRegion b 1 0 VM_REGION_MEM VM_REGION_INIT_FNORMAL 0 num_pages [part0]).
Definition with_init (r : vm_region) (t : region_type) (i : region_init) (f : Z) : vm_region :=
  MkRegion (vr_block r) (vr_refcnt r) (vr_lock r) t i f (vr_size r) (vr_parts r).
Definition vm_region_alloc_file (num_pages : Z) (enable_writeback : bool) (node : nat)
    (begin start size filler : Z) : RM unit :=
  vm_region_alloc num_pages ≫= fun _ =>
  call (CallInodeIncref node) ≫= fun _ =>
  r ← region;
  set_region (with_init r (vr_type r)
    (if enable_writeback then VM_REGION_INIT_FFILE (Some node) begin start size filler
     else VM_REGION_INIT_FFILE_RO (Some node) begin start size filler) (vr_flags r)).
Definition vm_region_alloc_vio (num_pages : Z) (ops : nat) (has_fini : bool) (closure : nat)
    : RM unit :=
  vm_region_alloc num_pages ≫= fun _ =>
  r ← region;
  set_region (with_init r VM_REGION_VIO (VM_REGION_INIT_FVIO ops has_fini closure)
    (Z.lor (vr_flags r) VM_REGION_FDONTMERGE)).
(** The state and the number of entries are set before the pages are allocated, the
    entry itself (here without pages until then) behind. *)
Definition vm_region_prefault : RM unit :=
  p ← get_part 0;
  let with_scatter l := MkPart (vp_block p) (vp_refcnt p) (vp_start p) VM_PART_INCORE
    (vp_flags p) (vp_locked p) l in
  set_part 0 (with_scatter [MkScatter 0 0]) ≫= fun _ =>
  r ← region;
  base ← frame_malloc (vr_size r);
  set_part 0 (with_scatter [MkScatter base (vr_size r)]).

Fixpoint free_scatter (l : list scatter) : RM unit :=
  match l with
  | [] => mret tt
  | s :: l => frame_free (ps_addr s) (ps_size s) ≫= fun _ => free_scatter l
  end.
Fixpoint destroy_parts (l : list vm_part) : RM unit :=
  match l with
  | [] => mret tt
  | p :: l =>
      (match vp_state p with
       | VM_PART_INCORE =>
           if negb (Z.land (vp_flags p) VM_PART_FWEAKREF =? 0) then mret tt
           else free_scatter (py_iscatter p)
       | _ => mret tt
       end) ≫= fun _ =>
      part_free p ≫= fun _ => destroy_parts l
  end.
Definition vm_region_free : RM unit :=
  r ← region;
  scheck (Z.land (vr_flags r) VM_REGION_FIMMUTABLE =? 0) ≫= fun _ =>
  if negb (Z.land (vr_flags r) VM_REGION_FCOREREGION =? 0) then
    set_region (with_flags r (Z.ldiff (vr_flags r) VM_REGION_FCOREREGION)) ≫= fun _ =>
    call (CallCorebaseDecref (vr_block r))
  else kfree (vr_block r).
Definition vm_region_destroy : RM unit :=
  r ← region;
  destroy_parts (vr_parts r) ≫= fun _ =>
  (match vr_init r with
   | VM_REGION_INIT_FFILE (Some node) _ _ _ _ | VM_REGION_INIT_FFILE_RO (Some node) _ _ _ _ =>
       call (CallInodeDecref node)
   | VM_REGION_INIT_FUSER (Some f) closure delta =>
       call (CallUserDecref f closure delta (vr_size r * 4096))
   | VM_REGION_INIT_FVIO ops true closure => call (CallVioFini ops closure)
   | _ => mret tt
   end) ≫= fun _ =>
  vm_region_free.
End Ops.

(** * The pages of a region *)
(** The pages of a weak part do not belong to the region. *)
Definition weak (p : vm_part) : bool := negb (Z.land (vp_flags p) VM_PART_FWEAKREF =? 0).
Record page_info : Type := MkPage {
  pg_refcnt : Z;
  pg_locked : Z;
  pg_state : part_state;
  pg_frame : option Z;
  pg_weak : bool;
}.
Definition frames_of (l : list scatter) : list Z :=
  concat (map (fun s => seqZ (ps_addr s) (ps_size s)) l).
Fixpoint scatter_total (l : list scatter) : Z :=
  match l with [] => 0 | s :: l => ps_size s + scatter_total l end.
Definition page_of (p : vm_part) (f : option Z) : page_info :=
  MkPage (vp_refcnt p) (vp_locked p) (vp_state p) f (weak p).
(** The pages of a part with [len] pages. *)
Definition part_frames (p : vm_part) (len : Z) : list (option Z) :=
  match vp_state p with
  | VM_PART_INCORE => Some <$> frames_of (py_iscatter p)
  | _ => replicate (Z.to_nat len) None
  end.
Definition part_pages (p : vm_part) (len : Z) : list page_info := page_of p <$> part_frames p len.
(** Where the parts before [l] end. *)
Definition part_end (l : list vm_part) (size : Z) : Z :=
  match l with [] => size | q :: _ => vp_start q end.
Fixpoint pages_of (l : list vm_part) (size : Z) : list page_info :=
  match l with
  | [] => []
  | p :: l => part_pages p (part_end l size - vp_start p) ++ pages_of l size
  end.
Definition region_pages (r : vm_region) : list page_info := pages_of (vr_parts r) (vr_size r).

(** * The invariant *)
(** Page numbers have 32 bits; a scatter entry may be empty. *)
Definition scatter_ok (s : scatter) : Prop :=
  0 <= ps_addr s /\ 0 <= ps_size s /\ ps_addr s + ps_size s < 2 ^ 32.
Definition attr_ok (p : vm_part) : Prop :=
  Z.land (vp_flags p) VM_PART_FSPLITTING = 0 /\ 0 <= vp_refcnt p /\
  INT16_MIN <= vp_locked p <= INT16_MAX.
Definition part_ok (p : vm_part) (len : Z) : Prop :=
  0 < len /\ attr_ok p /\
  (vp_state p = VM_PART_INCORE ->
     py_iscatter p <> [] /\ Forall scatter_ok (py_iscatter p) /\
     scatter_total (py_iscatter p) = len).
(** The parts [l] cover the pages from [start] to [size]. *)
Fixpoint parts_wf (start : Z) (l : list vm_part) (size : Z) : Prop :=
  match l with
  | [] => start = size
  | p :: l =>
      vp_start p = start /\ part_ok p (part_end l size - start) /\
      parts_wf (part_end l size) l size
  end.
Definition part_blocks (l : list vm_part) : list nat := omap vp_block l.
(** The flag [VM_PART_FWEAKREF] is given to all of a region. *)
Definition uniform (l : list vm_part) : Prop := exists w, Forall (fun p => weak p = w) l.
(** [others] are the blocks of the heap that do not belong to the region. *)
Record region_ok `{FrameAllocator} (others : list nat) (s : rstate) : Prop := {
  ro_parts : parts_wf 0 (vr_parts (rs_reg s)) (vr_size (rs_reg s));
  ro_size : 0 < vr_size (rs_reg s);
  ro_live : rs_live s ≡ₚ others ++ vr_block (rs_reg s) :: part_blocks (vr_parts (rs_reg s));
  ro_nodup : NoDup (rs_live s);
  ro_next : Forall (fun b => (b < rs_next s)%nat) (rs_live s);
  ro_static : Forall (fun p => is_Some (vp_block p)) (tail (vr_parts (rs_reg s)));
  ro_weak : uniform (vr_parts (rs_reg s));
}.

(** ** Scatter lists *)
Lemma scatter_total_app l k : scatter_total (l ++ k) = scatter_total l + scatter_total k.
Proof. induction l as [|s l IH]; cbn; [done|]. lia. Qed.
Lemma scatter_total_nonneg l : Forall scatter_ok l -> 0 <= scatter_total l.
Proof. induction 1 as [|s l [? ?] _ IH]; cbn; lia. Qed.
Lemma frames_of_app l k : frames_of (l ++ k) = frames_of l ++ frames_of k.
Proof. unfold frames_of. by rewrite map_app, concat_app. Qed.
Lemma frames_of_length l :
  Forall scatter_ok l -> length (frames_of l) = Z.to_nat (scatter_total l).
Proof.
  induction 1 as [|s l Hs Hl IH]; cbn; [done|].
  rewrite length_app, length_seqZ. change (concat _) with (frames_of l). rewrite IH.
  apply scatter_total_nonneg in Hl. unfold scatter_ok in Hs. lia.
Qed.
Lemma seqZ_split a m n : 0 <= m -> 0 <= n -> seqZ a (m + n) = seqZ a m ++ seqZ (a + m) n.
Proof. intros. by rewrite seqZ_app. Qed.

Lemma scatter_find_ok l i total off :
  Forall scatter_ok l -> total <= off < total + scatter_total l ->
  exists j s, scatter_find l i total off = Ret ((i + j)%nat, total + scatter_total (take j l)) /\
    l !! j = Some s /\ total + scatter_total (take j l) <= off /\
    off < total + scatter_total (take j l) + ps_size s.
Proof.
  intros Hl. revert i total. induction Hl as [|s l Hs Hl IH]; intros i total Hoff; cbn in *.
  { lia. }
  destruct (Z.ltb_spec off (total + ps_size s)).
  - exists 0%nat, s. cbn. rewrite Nat.add_0_r, Z.add_0_r. split_and!; (done || lia).
  - destruct (IH (S i) (total + ps_size s)) as (j & t & -> & Hj & ? & ?); [lia|].
    exists (S j), t. cbn. rewrite Nat.add_succ_r. split_and!; try done; try lia.
    do 2 f_equal. lia.
Qed.
Lemma scatter_split_ok l off len :
  l <> [] -> Forall scatter_ok l -> scatter_total l = len -> 0 < off < len ->
  exists l1 l2, scatter_split l off = Ret (l1, l2) /\ l1 <> [] /\ l2 <> [] /\
    Forall scatter_ok l1 /\ Forall scatter_ok l2 /\
    scatter_total l1 = off /\ scatter_total l2 = len - off /\
    frames_of l = frames_of l1 ++ frames_of l2.
Proof.
  intros Hne Hl Htot Hoff. unfold scatter_split.
  assert (exists j s, (if (length l =? 1)%nat then Ret (0%nat, 0) else scatter_find l 0 0 off)
      = Ret (j, scatter_total (take j l)) /\ l !! j = Some s /\
      scatter_total (take j l) <= off < scatter_total (take j l) + ps_size s)
    as (j & s & -> & Hj & Hin).
  { destruct (Nat.eqb_spec (length l) 1) as [E|_].
    - destruct l as [|s [|? ?]]; try done. exists 0%nat, s. cbn in *. split_and!; (done || lia).
    - destruct (scatter_find_ok l 0 0 off) as (j & s & -> & ? & ? & ?); [done|lia|].
      exists j, s. by split_and!. }
  cbn. rewrite Hj. cbn. rewrite bind_kassert by lia. eexists _, _. split; [done|].
  pose proof (take_drop_middle l j s Hj) as Hmid.
  assert (Hs : scatter_ok s) by (rewrite Forall_lookup in Hl; eauto).
  unfold scatter_ok in Hs.
  rewrite <- Hmid in Htot. rewrite scatter_total_app in Htot. cbn in Htot.
  split_and!.
  - by destruct (take j l).
  - done.
  - apply Forall_app. split; [by apply Forall_take|]. constructor; [unfold scatter_ok; cbn; lia|done].
  - constructor; [unfold scatter_ok; cbn; lia|by apply Forall_drop].
  - rewrite scatter_total_app. cbn. lia.
  - cbn. lia.
  - rewrite <- Hmid at 1. rewrite !frames_of_app. cbn. rewrite app_nil_r, <- app_assoc.
    f_equal. set (t := off - _). replace (ps_size s) with (t + (ps_size s - t)) at 1 by lia.
    rewrite seqZ_split by lia. by rewrite <- app_assoc.
Qed.

(** ** Chains of parts *)
Lemma part_pages_length p len : part_ok p len -> length (part_pages p len) = Z.to_nat len.
Proof.
  intros (Hlen & _ & Hin). unfold part_pages, part_frames. rewrite length_fmap.
  destruct (vp_state p); try by rewrite length_replicate.
  destruct (Hin eq_refl) as (_ & Hall & <-). by rewrite length_fmap, frames_of_length.
Qed.
Lemma part_end_app l k size : part_end (l ++ k) size = part_end l (part_end k size).
Proof. by destruct l. Qed.
Lemma parts_wf_app start l k size :
  parts_wf start (l ++ k) size <->
  parts_wf start l (part_end k size) /\ parts_wf (part_end k size) k size.
Proof.
  revert start. induction l as [|p l IH]; intros start; cbn.
  - split; [|by intros [-> ?]]. intros Hk. split; [|].
    + destruct k; cbn in *; [done|naive_solver].
    + destruct k; cbn in *; naive_solver.
  - rewrite part_end_app, IH. tauto.
Qed.
Lemma pages_of_app l k size :
  pages_of (l ++ k) size = pages_of l (part_end k size) ++ pages_of k size.
Proof. induction l as [|p l IH]; cbn; [done|]. by rewrite part_end_app, IH, <- app_assoc. Qed.
Lemma parts_wf_le start l size : parts_wf start l size -> start <= size.
Proof.
  revert start. induction l as [|p l IH]; intros start; cbn; [lia|].
  intros (_ & [? _] & ?%IH). lia.
Qed.
Lemma pages_of_length start l size :
  parts_wf start l size -> length (pages_of l size) = Z.to_nat (size - start).
Proof.
  revert start. induction l as [|p l IH]; intros start; cbn; [intros ->; lia|].
  intros (-> & Hp & Hl). rewrite length_app, (IH _ Hl), part_pages_length by done.
  pose proof (parts_wf_le _ _ _ Hl). destruct Hp as [? _]. lia.
Qed.
Lemma parts_wf_nonempty start l size : parts_wf start l size -> start < size -> l <> [].
Proof. intros Hl Hlt ->. cbn in Hl. lia. Qed.

(** * Splitting *)
Section Proofs.
Context `{FA : FrameAllocator}.
Implicit Types s : rstate.

(** The fields of the region other than its parts, and the rest of the kernel. *)
Definition same_env s s' : Prop :=
  with_parts (rs_reg s') [] = with_parts (rs_reg s) [] /\ rs_phys s' = rs_phys s /\
  rs_calls s' = rs_calls s.
#[export] Instance same_env_trans : Transitive same_env.
Proof. intros s1 s2 s3 (?&?&?) (?&?&?). split_and!; congruence. Qed.
#[export] Instance same_env_refl : Reflexive same_env.
Proof. done. Qed.
Lemma same_env_size s s' : same_env s s' -> vr_size (rs_reg s') = vr_size (rs_reg s).
Proof. by intros ([=] & _). Qed.
Lemma same_env_block s s' : same_env s s' -> vr_block (rs_reg s') = vr_block (rs_reg s).
Proof. by intros ([=] & _). Qed.

(** Parts that agree on everything but their position and memory. *)
Definition alike (p q : vm_part) : Prop :=
  vp_refcnt p = vp_refcnt q /\ vp_locked p = vp_locked q /\ vp_state p = vp_state q /\
  vp_flags p = vp_flags q.

Definition parts s : list vm_part := vr_parts (rs_reg s).
Definition size s : Z := vr_size (rs_reg s).
Definition pages s : list page_info := region_pages (rs_reg s).

Lemma alike_weak p q : alike p q -> weak p = weak q.
Proof. unfold weak. by intros (_ & _ & _ & ->). Qed.

(** Exchanging the parts [mid] of the chain for [mid'], with the heap adjusted. *)
Lemma region_ok_replace others s s' pre mid mid' post :
  region_ok others s -> same_env s s' -> parts s = pre ++ mid ++ post ->
  parts s' = pre ++ mid' ++ post ->
  (let e := part_end post (size s) in
   parts_wf (part_end mid e) mid e -> parts_wf (part_end mid e) mid' e /\
   part_end mid' e = part_end mid e) ->
  rs_live s' ≡ₚ others ++ vr_block (rs_reg s) :: part_blocks (pre ++ mid' ++ post) ->
  NoDup (rs_live s') -> Forall (fun b => (b < rs_next s')%nat) (rs_live s') ->
  Forall (fun p => is_Some (vp_block p)) (tail (pre ++ mid' ++ post)) ->
  (forall w, Forall (fun p => weak p = w) mid -> Forall (fun p => weak p = w) mid') ->
  region_ok others s'.
Proof.
  intros Hok Hsame Hp Hp' Hmid Hlive Hnd Hnext Hst Hw.
  pose proof (ro_parts _ _ Hok) as Hwf. unfold parts in *. rewrite Hp in Hwf.
  apply parts_wf_app in Hwf as [Hpre Hwf]. apply parts_wf_app in Hwf as [Hm Hpost].
  rewrite part_end_app in Hpre, Hm.
  destruct (Hmid Hm) as [Hm' He]. unfold size in *.
  split; rewrite ?Hp', ?(same_env_size _ _ Hsame), ?(same_env_block _ _ Hsame); try done.
  - rewrite parts_wf_app, parts_wf_app, part_end_app, He. by split_and!.
  - by apply Hok.
  - destruct (ro_weak _ _ Hok) as [w Hu]. rewrite Hp, !Forall_app in Hu. exists w.
    rewrite !Forall_app. naive_solver.
Qed.

(** ** The primitives *)
Definition asked s : rstate :=
  MkRs (rs_reg s) (fun n => rs_oracle s (S n)) (rs_live s) (rs_next s) (rs_phys s) (rs_calls s).
Definition fresh s : rstate :=
  MkRs (rs_reg s) (rs_oracle s) (rs_next s :: rs_live s) (S (rs_next s)) (rs_phys s) (rs_calls s).
Definition setp s (l : list vm_part) : rstate := with_reg s (with_parts (rs_reg s) l).
Lemma srun_region s Q R : Q (rs_reg s) s -> srun region s Q R.
Proof. done. Qed.
Lemma srun_get_part i p s Q R : parts s !! i = Some p -> Q p s -> srun (get_part i) s Q R.
Proof. unfold srun, get_part, parts. by intros ->. Qed.
Lemma srun_set_part i p s Q R : Q tt (setp s (<[i := p]> (parts s))) -> srun (set_part i p) s Q R.
Proof. done. Qed.
Lemma srun_set_parts l s Q R : Q tt (setp s l) -> srun (set_parts l) s Q R.
Proof. done. Qed.
Lemma srun_kmalloc s Q R :
  Q (rs_next s) (fresh (asked s)) -> R E_BADALLOC (asked s) -> srun kmalloc s Q R.
Proof. unfold srun, kmalloc, mbind, SM_bind. cbn. by destruct (rs_oracle s 0). Qed.
Lemma insert_mid {A} (pre : list A) x y post :
  <[length pre := y]> (pre ++ x :: post) = pre ++ y :: post.
Proof. rewrite insert_app_r_alt by lia. by rewrite Nat.sub_diag. Qed.
Lemma lookup_mid {A} (pre : list A) x post : (pre ++ x :: post) !! length pre = Some x.
Proof. by rewrite list_lookup_middle. Qed.
Lemma lookup_mid_S {A} (pre : list A) x post :
  (pre ++ x :: post) !! S (length pre) = head post.
Proof. rewrite lookup_app_r by lia. replace (S (length pre) - length pre)%nat with 1%nat by lia.
  by destruct post. Qed.
Lemma flags_restore f :
  Z.land f VM_PART_FSPLITTING = 0 ->
  Z.ldiff (Z.lor f VM_PART_FSPLITTING) VM_PART_FSPLITTING = f.
Proof.
  intros Hf. apply Z.bits_inj'. intros i Hi. rewrite Z.ldiff_spec, Z.lor_spec.
  assert (Z.testbit (Z.land f VM_PART_FSPLITTING) i = false) as E by (rewrite Hf; apply Z.bits_0).
  rewrite Z.land_spec in E. destruct (Z.testbit f i), (Z.testbit _ i); done.
Qed.

(** [p] is divided into [p1] and [p2] at page [off]. *)
Definition divided (p p1 p2 : vm_part) (off len : Z) : Prop :=
  alike p p1 /\ alike p p2 /\ vp_start p1 = vp_start p /\ vp_start p2 = vp_start p + off /\
  vp_block p1 = vp_block p /\ part_ok p1 off /\ part_ok p2 (len - off) /\
  part_pages p len = part_pages p1 off ++ part_pages p2 (len - off).
Lemma part_pages_alike p q len :
  alike p q -> part_frames p len = part_frames q len -> part_pages p len = part_pages q len.
Proof.
  intros Ha Hf. unfold part_pages. rewrite Hf. apply list_fmap_ext.
  intros _ f _. unfold page_of. rewrite (alike_weak _ _ Ha). by destruct Ha as (-> & -> & -> & _).
Qed.
(** The two parts that a split makes of [p]. *)
Lemma divide_incore p len off b l1 l2 :
  part_ok p len -> 0 < off < len -> vp_state p = VM_PART_INCORE ->
  scatter_split (py_iscatter p) off = Ret (l1, l2) ->
  divided p (set_scatter p l1)
    (MkPart (Some b) (vp_refcnt p) (vp_start p + off) (vp_state p) (vp_flags p) (vp_locked p) l2)
    off len.
Proof.
  intros (Hlen & Hf & Hin) Hoff Hst Hsp. destruct (Hin Hst) as (Hne & Hall & Htot).
  destruct (scatter_split_ok _ off len Hne Hall Htot Hoff)
    as (l1' & l2' & E & Hn1 & Hn2 & Ha1 & Ha2 & Ht1 & Ht2 & Hfr).
  rewrite Hsp in E. injection E as <- <-.
  split_and!; try done; unfold part_ok; cbn.
  1,2: split_and!; try done; lia.
  unfold part_pages, part_frames, page_of. cbn. by rewrite Hst, Hfr, !fmap_app.
Qed.
Lemma divide_other p len off b :
  part_ok p len -> 0 < off < len -> vp_state p <> VM_PART_INCORE ->
  divided p p
    (MkPart (Some b) (vp_refcnt p) (vp_start p + off) (vp_state p) (vp_flags p) (vp_locked p)
       (py_iscatter p)) off len.
Proof.
  intros (Hlen & Hf & Hin) Hoff Hst.
  split_and!; try done; unfold part_ok; cbn.
  1,2: split_and!; try done; lia.
  unfold part_pages, part_frames, page_of. cbn -[replicate].
  replace (Z.to_nat len) with (Z.to_nat off + Z.to_nat (len - off))%nat by lia.
  rewrite replicate_add. destruct (vp_state p); try done; by rewrite fmap_app.
Qed.

(** What a split of the part [p] (between [pre] and [post]) achieves. *)
Definition split_post others s pre p post off (j : nat) s' : Prop :=
  j = S (length pre) /\ region_ok others s' /\ same_env s s' /\
  exists p1 p2, parts s' = pre ++ p1 :: p2 :: post /\
    divided p p1 p2 off (part_end post (size s) - vp_start p).
Definition unchanged others s (e : error_code) s' : Prop :=
  e = E_BADALLOC /\ region_ok others s' /\ same_env s s' /\ parts s' = parts s.

Lemma region_ok_part others s pre p post :
  region_ok others s -> parts s = pre ++ p :: post ->
  part_ok p (part_end post (size s) - vp_start p) /\
  parts_wf 0 pre (vp_start p) /\ parts_wf (part_end post (size s)) post (size s).
Proof.
  intros Hok Hp. pose proof (ro_parts _ _ Hok) as Hwf. unfold parts, size in *.
  rewrite Hp in Hwf. apply parts_wf_app in Hwf as [Hpre (_ & Hpok & Hpost)]. by split_and!.
Qed.
Lemma part_blocks_app l k : part_blocks (l ++ k) = part_blocks l ++ part_blocks k.
Proof. apply omap_app. Qed.
Lemma region_ok_asked others s : region_ok others s -> region_ok others (asked s).
Proof. by intros []. Qed.
(** The tail of a chain when a part is replaced, or one is added behind it. *)
Lemma static_tail pre p p1 post :
  Forall (fun p => is_Some (vp_block p)) (tail (pre ++ p :: post)) ->
  vp_block p1 = vp_block p ->
  Forall (fun p => is_Some (vp_block p)) (tail (pre ++ p1 :: post)).
Proof.
  intros Ht Hb. destruct pre as [|q pre]; cbn in *; [done|].
  apply Forall_app in Ht as [Hpre [Hp Hpost]%Forall_cons]. apply Forall_app.
  split; [done|]. constructor; [by rewrite Hb|done].
Qed.
Lemma split_ok others s pre p post p1 p2 off :
  region_ok others s -> parts s = pre ++ p :: post ->
  divided p p1 p2 off (part_end post (size s) - vp_start p) ->
  vp_block p2 = Some (rs_next s) ->
  region_ok others (setp (fresh (asked s)) (pre ++ p1 :: p2 :: post)).
Proof.
  intros Hok Hp (Ha1 & Ha2 & Hs1 & Hs2 & Hb1 & Hok1 & Hok2 & _) Hb2.
  pose proof (ro_live _ _ Hok) as Hlive. pose proof (ro_next _ _ Hok) as Hnext.
  pose proof (ro_nodup _ _ Hok) as Hnd. pose proof (ro_static _ _ Hok) as Hst.
  unfold parts in Hp. rewrite Hp in Hlive, Hst.
  apply (region_ok_replace others s _ pre [p] [p1; p2] post); try done.
  - intros e _. cbn. rewrite Hs1, Hs2. split; [|done].
    replace (e - (vp_start p + off)) with (e - vp_start p - off) by lia.
    replace (vp_start p + off - vp_start p) with off by lia. by split_and!.
  - cbn. rewrite Hlive. rewrite !part_blocks_app. cbn. rewrite Hb1, Hb2. cbn.
    destruct (vp_block p); cbn; solve_Permutation.
  - cbn. constructor; [|done]. intros Hin. rewrite Forall_forall in Hnext.
    specialize (Hnext _ Hin). lia.
  - cbn. constructor; [lia|]. eapply Forall_impl; [done|]. cbn. lia.
  - apply (static_tail pre p p1 (p2 :: post)); [|done].
    assert (is_Some (vp_block p2)) by (rewrite Hb2; eauto).
    destruct pre; cbn in *; [by constructor|].
    apply Forall_app in Hst as [? [? ?]%Forall_cons]. apply Forall_app. split; [done|].
    by repeat constructor.
  - intros w [Hw _]%Forall_cons. apply alike_weak in Ha1, Ha2.
    repeat apply Forall_cons_2; try done; congruence.
Qed.

(** The end of [vm_part_splitafter], from the FINALLY block on: [p1f] is the lower
    part while it is being split. *)
Lemma split_tail others s pre p post p1f np off R :
  region_ok others s -> parts s = pre ++ p :: post ->
  match head post with None => true | Some q => vp_start p + off <? vp_start q end = true ->
  divided p (set_flags p1f (Z.ldiff (vp_flags p1f) VM_PART_FSPLITTING))
    (MkPart (vp_block np) (vp_refcnt np) (vp_start p + off) (vp_state np) (vp_flags np)
       (vp_locked np) (py_iscatter np)) off (part_end post (size s) - vp_start p) ->
  vp_block np = Some (rs_next s) ->
  srun (q ← get_part (length pre);
        set_part (length pre) (set_flags q (Z.ldiff (vp_flags q) VM_PART_FSPLITTING)))
    (setp (fresh (asked s)) (pre ++ p1f :: post))
    (fun _ s1 => srun
       (scheck (match head post with None => true | Some q => vp_start p + off <? vp_start q end)
          ≫= fun _ =>
        r ← region;
        set_parts (take (S (length pre)) (vr_parts r) ++
          MkPart (vp_block np) (vp_refcnt np) (vp_start p + off) (vp_state np) (vp_flags np)
            (vp_locked np) (py_iscatter np) :: drop (S (length pre)) (vr_parts r)) ≫= fun _ =>
        mret (S (length pre))) s1 (split_post others s pre p post off) R) R.
Proof.
  intros Hok Hp Hb Hd Hblock. apply srun_bind. apply srun_get_part with (p := p1f).
  { apply lookup_mid. }
  apply srun_set_part. unfold parts. cbn [rs_reg setp with_reg with_parts vr_parts].
  rewrite insert_mid. apply srun_bind, srun_check; [done|]. apply srun_bind, srun_region.
  cbn [rs_reg setp with_reg with_parts vr_parts].
  replace (take (S (length pre)) _) with (pre ++ [set_flags p1f (Z.ldiff (vp_flags p1f) VM_PART_FSPLITTING)]).
  2: { rewrite take_app_ge by lia. replace (S _ - _)%nat with 1%nat by lia. done. }
  replace (drop (S (length pre)) _) with post.
  2: { rewrite drop_app_ge by lia. replace (S _ - _)%nat with 1%nat by lia. done. }
  rewrite <- app_assoc. cbn [app]. apply srun_bind, srun_set_parts, srun_ret.
  split; [done|]. split; [by apply (split_ok others s pre p post _ _ off)|].
  split; [done|]. eexists _, _. split; [done|]. exact Hd.
Qed.
Lemma split_fail others s pre p post R :
  region_ok others s -> parts s = pre ++ p :: post ->
  Z.land (vp_flags p) VM_PART_FSPLITTING = 0 ->
  srun (q ← get_part (length pre);
        set_part (length pre) (set_flags q (Z.ldiff (vp_flags q) VM_PART_FSPLITTING)))
    (asked (setp s (pre ++ set_flags p (Z.lor (vp_flags p) VM_PART_FSPLITTING) :: post)))
    (fun _ s1 => unchanged others s E_BADALLOC s1) R.
Proof.
  intros Hok Hp Hf. apply srun_bind. eapply srun_get_part; [apply lookup_mid|].
  apply srun_set_part. unfold parts in *.
  cbn [rs_reg setp with_reg with_parts vr_parts asked]. rewrite insert_mid. cbn.
  rewrite flags_restore by done. replace (set_flags (set_flags _ _) _) with p by by destruct p.
  unfold setp, unchanged, parts. cbn. rewrite Hp. split_and!; try done.
  apply region_ok_asked in Hok. destruct Hok as [H1 H2 H3 H4 H5 H6].
  cbn in *. rewrite Hp in *. by split.
Qed.
Lemma splitafter_ok others s pre p post off :
  region_ok others s -> parts s = pre ++ p :: post ->
  0 < off < part_end post (size s) - vp_start p ->
  srun (vm_part_splitafter (length pre) off) s (split_post others s pre p post off)
    (unchanged others s).
Proof.
  intros Hok Hp Hoff. destruct (region_ok_part _ _ _ _ _ Hok Hp) as (Hpok & _ & _).
  pose proof Hpok as (_ & [Hfl _] & _).
  assert (Hbefore : match head post with None => true | Some q => vp_start p + off <? vp_start q end
    = true) by (destruct post; cbn in *; lia).
  unfold vm_part_splitafter. apply srun_bind, srun_region.
  apply srun_bind. apply srun_get_part with (p := p). { by rewrite Hp, lookup_mid. }
  unfold parts in Hp. cbn. rewrite Hp, lookup_mid_S.
  apply srun_bind, srun_check; [lia|]. apply srun_bind, srun_check; [lia|].
  apply srun_bind, srun_check; [done|]. apply srun_bind, srun_check; [lia|].
  apply srun_bind, srun_set_part. unfold parts. rewrite Hp, insert_mid.
  set (pf := set_flags p _). apply srun_bind, srun_finally.
  apply srun_bind. apply srun_get_part with (p := pf). { apply lookup_mid. }
  destruct (decide (vp_state p = VM_PART_INCORE)) as [Hst|Hst].
  - change (vp_state pf) with (vp_state p). rewrite Hst.
    pose proof Hpok as (Hlen & _ & Hin). destruct (Hin Hst) as (Hne & Hall & Htot).
    destruct (scatter_split_ok _ off _ Hne Hall Htot Hoff) as (l1 & l2 & Hsp & _).
    apply srun_bind. apply srun_lift with (a := (l1, l2)); [done|].
    apply srun_bind, srun_kmalloc; [|by apply split_fail].
    apply srun_bind, srun_set_part. unfold parts. cbn [rs_reg setp with_reg with_parts vr_parts fresh asked].
    rewrite insert_mid. apply srun_ret. cbv zeta.
    apply (split_tail others s pre p post (set_scatter pf l1)
      (MkPart (Some (rs_next s)) (vp_refcnt p) (vp_start p) VM_PART_INCORE
         (Z.ldiff (vp_flags pf) VM_PART_FSPLITTING) (vp_locked p) l2) off); try done.
    cbn. rewrite flags_restore by done.
    pose proof (divide_incore p _ off (rs_next s) l1 l2 Hpok Hoff Hst Hsp) as Hd.
    rewrite Hst in Hd. exact Hd.
  - match goal with |- srun ?m _ _ _ => replace m with
      (b ← kmalloc; mret (MkPart (Some b) (vp_refcnt p) (vp_start p) (vp_state p)
         (Z.ldiff (vp_flags pf) VM_PART_FSPLITTING) (vp_locked p) (py_iscatter p)) : SM rstate vm_part)
      by by destruct p as [? ? ? [] ? ? ?] end.
    apply srun_bind, srun_kmalloc; [|by apply split_fail]. apply srun_ret. cbv zeta.
    apply (split_tail others s pre p post pf
      (MkPart (Some (rs_next s)) (vp_refcnt p) (vp_start p) (vp_state p)
         (Z.ldiff (vp_flags pf) VM_PART_FSPLITTING) (vp_locked p) (py_iscatter p)) off); try done.
    cbn. rewrite !flags_restore by done.
    replace (set_flags pf (vp_flags p)) with p by by destruct p.
    by apply divide_other.
Qed.

Lemma find_part_ok addr rest p i e :
  vp_start p <= addr < e ->
  exists pre q post, p :: rest = pre ++ q :: post /\
    find_part rest i addr = (i + length pre)%nat /\
    vp_start q <= addr < part_end post e.
Proof.
  revert p i. induction rest as [|q rest IH]; intros p i Hp; cbn.
  - exists [], p, []. cbn. split_and!; try done; lia.
  - destruct (Z.leb_spec (vp_start q) addr) as [Hq|Hq].
    + destruct (IH q (S i)) as (pre & q' & post & E & -> & ?); [lia|].
      exists (p :: pre), q', post. rewrite E. cbn. split_and!; try done; lia.
    + exists [], p, (q :: rest). cbn. split_and!; try done; lia.
Qed.
(** The pages are those of the parts around a part, and its own. *)
Lemma pages_mid s pre p post :
  parts s = pre ++ p :: post ->
  pages s = pages_of pre (vp_start p) ++ part_pages p (part_end post (size s) - vp_start p)
    ++ pages_of post (size s).
Proof. unfold pages, region_pages, parts. intros ->. by rewrite pages_of_app. Qed.
Lemma pages_divided s s' pre p p1 p2 post off :
  parts s = pre ++ p :: post -> parts s' = pre ++ p1 :: p2 :: post -> same_env s s' ->
  divided p p1 p2 off (part_end post (size s) - vp_start p) -> pages s' = pages s.
Proof.
  intros Hp Hp' Hsame (_ & _ & Hs1 & Hs2 & _ & _ & _ & Hpg).
  rewrite (pages_mid s pre p post Hp), (pages_mid s' pre p1 (p2 :: post) Hp').
  assert (size s' = size s) as -> by (by apply same_env_size). cbn.
  rewrite Hs1, Hs2, Hpg, <- app_assoc. do 2 f_equal; [f_equal; lia|].
  do 2 f_equal. lia.
Qed.
(** A part starts at [addr], and the pages are the same as before. *)
Definition split_at others s (addr : Z) (j : nat) s' : Prop :=
  region_ok others s' /\ same_env s s' /\ pages s' = pages s /\
  exists pre p post, parts s' = pre ++ p :: post /\ j = length pre /\ vp_start p = addr.
Lemma split_before_ok others s addr :
  region_ok others s -> 0 <= addr < size s ->
  srun (vm_region_split_before addr) s (split_at others s addr) (unchanged others s).
Proof.
  intros Hok Haddr. pose proof (ro_parts _ _ Hok) as Hwf. unfold size in Haddr.
  unfold vm_region_split_before. apply srun_bind, srun_region.
  apply srun_bind, srun_check; [lia|].
  destruct (vr_parts (rs_reg s)) as [|p0 rest] eqn:Hparts; [cbn in Hwf; lia|].
  destruct Hwf as (H0 & _ & _). apply srun_bind. apply srun_get_part with (p := p0).
  { unfold parts. by rewrite Hparts. }
  apply srun_bind, srun_check; [lia|]. cbv zeta. change (drop 1 (p0 :: rest)) with rest.
  destruct (find_part_ok addr rest p0 0 (vr_size (rs_reg s))) as (pre & p & post & Hl & -> & Hin);
    [lia|].
  rewrite Nat.add_0_l. assert (Hp : parts s = pre ++ p :: post) by (unfold parts; congruence).
  apply srun_bind. apply srun_get_part with (p := p). { by rewrite Hp, lookup_mid. }
  destruct (Z.eqb_spec (vp_start p) addr) as [Hs|Hs].
  { apply srun_ret. split_and!; try done. by exists pre, p, post. }
  rewrite Hl, lookup_mid_S. apply srun_bind, srun_check.
  { destruct post; cbn in *; [done|lia]. }
  apply srun_bind, srun_check; [lia|]. eapply srun_mono.
  - apply splitafter_ok; [done|done|]. unfold size. lia.
  - intros j s' (-> & Hok' & Hsame & p1 & p2 & Hp' & Hd). split_and!; try done.
    + by eapply pages_divided.
    + exists (pre ++ [p1]), p2, post. rewrite <- app_assoc, length_app. cbn.
      split_and!; [done|lia|]. destruct Hd as (_ & _ & _ & -> & _). lia.
  - done.
Qed.

(** ** Merging *)
Lemma merge_scatter_ok self next ss ns :
  self <> [] -> next <> [] -> Forall scatter_ok self ->
  Forall scatter_ok next -> ss + scatter_total self = ns ->
  exists l grow, merge_scatter self next ss ns = Ret (l, grow) /\ l <> [] /\
    Forall scatter_ok l /\
    scatter_total l = scatter_total self + scatter_total next /\
    frames_of l = frames_of self ++ frames_of next.
Proof.
  intros Hs Hn Has Han Hss. unfold merge_scatter.
  destruct (exists_last Hs) as (full & sl & ->). destruct next as [|t next]; [done|].
  rewrite length_app, last_snoc. cbn [length]. apply Forall_app in Has as [Haf [Hsl _]%Forall_cons].
  apply Forall_cons in Han as [Ht Han]. rewrite scatter_total_app in Hss. cbn in Hss.
  rewrite !bind_kassert by (apply negb_true_iff, Nat.eqb_neq; lia). cbn [access head].
  rewrite !bind_ret.
  assert (Hgraft : scatter_end sl = ps_addr t ->
    seqZ (ps_addr sl) (ps_size t + ps_size sl)
    = seqZ (ps_addr sl) (ps_size sl) ++ seqZ (ps_addr t) (ps_size t)).
  { unfold scatter_end. intros <-. rewrite Z.add_comm. apply seqZ_split; [apply Hsl|apply Ht]. }
  assert (Hgok : scatter_end sl = ps_addr t -> scatter_ok (graft sl t)).
  { unfold scatter_end, scatter_ok, graft in *. cbn. lia. }
  replace (take _ (full ++ [sl])) with full.
  2: { rewrite take_app_le by lia. rewrite take_ge by lia. done. }
  destruct (Nat.eqb_spec (length full + 1) 1) as [H1|H1], (Z.eqb_spec (scatter_end sl) (ps_addr t)) as [He|He];
    cbn [andb].
  - destruct full; [|cbn in H1; lia]. rewrite bind_kassert by (cbn in *; lia).
    eexists _, _. split; [done|]. cbn in *. split_and!; try done; try lia.
    + constructor; [by apply Hgok|done].
    + by rewrite Hgraft, app_nil_r, <- app_assoc.
  - rewrite bind_kassert by (apply negb_true_iff, Nat.eqb_neq; lia).
    replace (S (S (length next)) - S (length next) =? length full + 1)%nat with true
      by (symmetry; apply Nat.eqb_eq; lia).
    eexists _, _. split; [done|]. rewrite !frames_of_app, !scatter_total_app. cbn.
    split_and!; [by destruct full|by rewrite Forall_app, !Forall_cons|lia|].
    by rewrite app_nil_r, <- app_assoc.
  - rewrite bind_kassert by (apply negb_true_iff, Nat.eqb_neq; lia).
    replace (length full + 1 - 1 + S (length next) - S (length next) =? length full + 1)%nat
      with false by (symmetry; apply Nat.eqb_neq; lia).
    rewrite bind_kassert by (apply Nat.eqb_eq; lia). cbn.
    eexists _, _. split; [done|]. rewrite !frames_of_app, !scatter_total_app. cbn.
    split_and!; [by destruct full| |lia|].
    + rewrite Forall_app, Forall_cons. split_and!; [done|by apply Hgok|done].
    + by rewrite Hgraft, app_nil_r, <- !app_assoc.
  - rewrite bind_kassert by (apply negb_true_iff, Nat.eqb_neq; lia).
    replace (length full + 1 + S (length next) - S (length next) =? length full + 1)%nat with true
      by (symmetry; apply Nat.eqb_eq; lia).
    eexists _, _. split; [done|]. rewrite !frames_of_app, !scatter_total_app. cbn.
    split_and!; [by destruct full|by rewrite Forall_app, !Forall_cons|lia|].
    by rewrite app_nil_r, <- app_assoc.
Qed.

(** The heap as the operations see it. *)
Definition heap_ok s : Prop :=
  NoDup (rs_live s) /\ Forall (fun b => (b < rs_next s)%nat) (rs_live s).
Definition same_but_heap s s' : Prop :=
  rs_reg s' = rs_reg s /\ rs_phys s' = rs_phys s /\ rs_calls s' = rs_calls s.
Lemma remove_block (live rest : list nat) b :
  NoDup live -> live ≡ₚ b :: rest -> list_difference live [b] ≡ₚ rest.
Proof.
  intros Hnd Hp. pose proof Hnd as Hnd'. rewrite Hp in Hnd'.
  apply NoDup_cons in Hnd' as [Hni Hnd']. apply NoDup_Permutation; [by apply NoDup_list_difference|done|].
  intros x. rewrite list_elem_of_difference, list_elem_of_singleton, Hp, elem_of_cons.
  split; [naive_solver|]. intros Hx. split; [by right|]. by intros ->.
Qed.
Lemma srun_kfree b rest s Q R :
  heap_ok s -> rs_live s ≡ₚ b :: rest ->
  (forall s', same_but_heap s s' -> heap_ok s' -> rs_live s' ≡ₚ rest -> Q tt s') ->
  srun (kfree b) s Q R.
Proof.
  intros [Hnd Hnext] Hp HQ. unfold srun, kfree.
  rewrite bool_decide_eq_true_2 by (rewrite Hp; by left).
  pose proof (remove_block _ rest b Hnd Hp) as Hrest.
  apply HQ; [done| |done]. split; cbn; rewrite Hrest.
  - rewrite Hp in Hnd. by apply NoDup_cons in Hnd as [_ ?].
  - rewrite Hp in Hnext. by apply Forall_cons in Hnext as [_ ?].
Qed.
Lemma fresh_heap_ok s : heap_ok s -> heap_ok (fresh s).
Proof.
  intros [Hnd Hnext]. split; cbn.
  - constructor; [|done]. intros Hin. rewrite Forall_forall in Hnext.
    specialize (Hnext _ Hin). lia.
  - constructor; [lia|]. eapply Forall_impl; [done|]. cbn. lia.
Qed.
Lemma srun_merge_block q b rest s :
  vp_block q = Some b -> heap_ok s -> rs_live s ≡ₚ b :: rest ->
  srun (merge_block q) s
    (fun o s' => same_but_heap s s' /\ heap_ok s' /\
       match o with
       | None => rs_live s' = rs_live s
       | Some b' => exists nb, b' = Some nb /\ rs_live s' ≡ₚ nb :: rest
       end)
    (fun _ _ => False).
Proof.
  intros Hb Hheap Hp. unfold merge_block. rewrite Hb. apply srun_catch.
  apply srun_bind. unfold krealloc_nomove. apply srun_bind.
  change (srun ask s ?Q ?R) with (Q (rs_oracle s 0%nat) (asked s)). cbv beta.
  destruct (rs_oracle s 0%nat).
  - apply srun_ret, srun_ret. split_and!; try done; try apply Hheap. by exists b.
  - apply srun_ret. apply srun_bind, srun_kmalloc.
    + apply srun_bind. apply (srun_kfree b (rs_next s :: rest)).
      * by apply (fresh_heap_ok (asked (asked s))).
      * cbn. rewrite Hp. solve_Permutation.
      * intros s' Hsame Hok Hl. apply srun_ret. split; [exact Hsame|]. split; [done|].
        by exists (rs_next s).
    + rewrite bool_decide_eq_true_2 by done. apply srun_ret.
      split_and!; try done; apply Hheap.
  - apply srun_throw. rewrite bool_decide_eq_true_2 by done. apply srun_ret.
    split_and!; try done; apply Hheap.
Qed.

Definition merge_post others s pre p post (merged : bool) s' : Prop :=
  region_ok others s' /\ same_env s s' /\ pages s' = pages s /\
  if merged then exists q post' next, post = q :: post' /\
    parts s' = pre ++ next :: post' /\ vp_start next = vp_start p
  else parts s' = parts s.

Lemma region_ok_heap others s : region_ok others s -> heap_ok s.
Proof. intros Hok. split; apply Hok. Qed.
(** [next] has the pages of [p] and [q]. *)
Definition united (p q next : vm_part) (len1 len2 : Z) : Prop :=
  vp_start next = vp_start p /\ part_ok next (len1 + len2) /\ weak next = weak q /\
  part_pages next (len1 + len2) = part_pages p len1 ++ part_pages q len2.

(** The end of [vm_region_mergenext]: [next] (with block [nb]) takes the place of
    [p] and [q]. *)
Lemma merge_tail others s s1 pre p q post next nb :
  region_ok others s -> parts s = pre ++ p :: q :: post -> same_but_heap s s1 -> heap_ok s1 ->
  rs_live s1 ≡ₚ nb :: others ++ vr_block (rs_reg s) :: part_blocks (pre ++ p :: post) ->
  vp_block next = Some nb ->
  united p q next (vp_start q - vp_start p) (part_end post (size s) - vp_start q) ->
  srun (set_parts (take (length pre) (vr_parts (rs_reg s)) ++ next ::
          drop (S (S (length pre))) (vr_parts (rs_reg s))) ≫= fun _ =>
        scheck (match length pre with
                | O => true
                | S i => match vr_parts (rs_reg s) !! i with
                         | Some prev => vp_start prev <? vp_start next
                         | None => false
                         end
                end) ≫= fun _ =>
        part_free p ≫= fun _ => mret true) s1
    (merge_post others s pre p (q :: post)) (fun _ _ => False).
Proof.
  intros Hok Hp (Hreg & Hphys & Hcalls) Hheap Hlive Hnb (Hst & Hpok & Hweak & Hpg).
  pose proof (ro_parts _ _ Hok) as Hwf. pose proof (ro_static _ _ Hok) as Hstat.
  pose proof (pages_mid s pre p (q :: post) Hp) as Hpages.
  unfold parts, size in *. rewrite Hp in Hwf, Hstat |- *.
  apply parts_wf_app in Hwf as [Hpre (_ & Hpok1 & _ & Hpok2 & Hpost)]. cbn in Hpre, Hpok1.
  rewrite take_app_length.
  replace (drop (S (S (length pre))) _) with post.
  2: { rewrite drop_app_ge by lia. replace (S (S _) - _)%nat with 2%nat by lia. done. }
  apply srun_bind, srun_set_parts. apply srun_bind, srun_check.
  { destruct pre as [|x pre] using rev_ind; [done|]. rewrite length_app, Nat.add_1_r.
    rewrite <- app_assoc. cbn [app]. rewrite lookup_mid, Hst. apply parts_wf_app in Hpre as [_ (? & [? _] & _)].
    cbn in *. lia. }
  set (s2 := setp s1 _). apply srun_bind.
  assert (Hfinal : forall s3, same_but_heap s2 s3 -> heap_ok s3 ->
    rs_live s3 ≡ₚ nb :: others ++ vr_block (rs_reg s) :: part_blocks (pre ++ post) ->
    merge_post others s pre p (q :: post) true s3).
  { intros s3 (Hr3 & Hp3 & Hc3) Hh3 Hl3. unfold s2 in *. cbn in *.
    assert (Hp' : vr_parts (rs_reg s3) = pre ++ next :: post) by by rewrite Hr3.
    split_and!.
    - split; rewrite ?Hp', ?Hr3; cbn; rewrite ?Hreg; try apply Hh3; try apply Hok.
      + rewrite parts_wf_app. cbn. rewrite Hst.
        replace (_ - vp_start p) with (vp_start q - vp_start p
          + (part_end post (vr_size (rs_reg s)) - vp_start q)) by lia. by split_and!.
      + rewrite Hl3, !part_blocks_app. cbn. rewrite Hnb. solve_Permutation.
      + destruct pre; cbn in *; [by apply Forall_cons in Hstat as [_ ?]|].
        apply Forall_app in Hstat as [? [_ [_ ?]%Forall_cons]%Forall_cons].
        apply Forall_app. split; [done|]. constructor; [by rewrite Hnb|done].
      + destruct (ro_weak _ _ Hok) as [w Hu]. exists w. rewrite Hp in Hu.
        apply Forall_app in Hu as [? [_ [? ?]%Forall_cons]%Forall_cons].
        apply Forall_app. split; [done|]. apply Forall_cons. by rewrite Hweak.
    - split_and!; [|congruence..]. rewrite Hr3. cbn. by rewrite Hreg.
    - rewrite (pages_mid s3 pre next post Hp'), Hpages. unfold size. rewrite Hr3. cbn.
      rewrite Hreg, Hst. f_equal. rewrite app_assoc. f_equal. rewrite <- Hpg. f_equal. lia.
    - by exists q, post, next. }
  unfold part_free. destruct (vp_block p) as [bp|] eqn:Hbp.
  - apply (srun_kfree bp (nb :: others ++ vr_block (rs_reg s) :: part_blocks (pre ++ post))).
    + done.
    + cbn. rewrite Hlive, !part_blocks_app. cbn. rewrite Hbp. solve_Permutation.
    + intros s3 Hs3 Hh3 Hl3. apply srun_ret. by apply Hfinal.
  - apply srun_ret, srun_ret. apply Hfinal; [done|done|].
    cbn. rewrite Hlive, !part_blocks_app. cbn. by rewrite Hbp.
Qed.

Lemma unite_incore p q len1 len2 nb l :
  part_ok p len1 -> part_ok q len2 -> vp_state p = VM_PART_INCORE ->
  vp_state q = vp_state p -> vp_refcnt q = vp_refcnt p -> vp_locked q = vp_locked p ->
  weak q = weak p -> l <> [] -> Forall scatter_ok l ->
  scatter_total l = scatter_total (py_iscatter p) + scatter_total (py_iscatter q) ->
  frames_of l = frames_of (py_iscatter p) ++ frames_of (py_iscatter q) ->
  united p q (MkPart (Some nb) (vp_refcnt q) (vp_start p) (vp_state q) (vp_flags q)
    (vp_locked q) l) len1 len2.
Proof.
  intros (Hl1 & Hf1 & Hi1) (Hl2 & Hf2 & Hi2) Hst Hst2 Hrc Hlk Hw Hne Hall Htot Hfr.
  destruct (Hi1 Hst) as (_ & _ & <-). destruct (Hi2 (eq_trans Hst2 Hst)) as (_ & _ & <-).
  split_and!; try done.
  - split_and!; try done. cbn. lia.
  - unfold part_pages, part_frames, page_of. cbn -[frames_of].
    change (weak (MkPart _ _ _ _ (vp_flags q) _ _)) with (weak q). rewrite Hw.
    by rewrite Hrc, Hlk, Hst2, Hst, Hfr, !fmap_app.
Qed.
Lemma unite_other p q len1 len2 nb :
  part_ok p len1 -> part_ok q len2 -> vp_state p <> VM_PART_INCORE ->
  vp_state q = vp_state p -> vp_refcnt q = vp_refcnt p -> vp_locked q = vp_locked p ->
  weak q = weak p -> united p q (MkPart (Some nb) (vp_refcnt q) (vp_start p) (vp_state q) (vp_flags q)
    (vp_locked q) (py_iscatter q)) len1 len2.
Proof.
  intros (Hl1 & Hf1 & _) (Hl2 & Hf2 & _) Hst Hst2 Hrc Hlk Hw.
  split_and!; try done.
  - split_and!; try done; cbn; [lia|]. rewrite Hst2. by intros ?.
  - unfold part_pages, part_frames, page_of. cbn -[replicate]. rewrite Hrc, Hlk, Hst2.
    change (weak (MkPart _ _ _ _ (vp_flags q) _ _)) with (weak q). rewrite Hw.
    replace (Z.to_nat (len1 + len2)) with (Z.to_nat len1 + Z.to_nat len2)%nat by lia.
    rewrite replicate_add. destruct (vp_state p); try done; by rewrite fmap_app.
Qed.
Lemma mergenext_ok others s pre p post :
  region_ok others s -> parts s = pre ++ p :: post ->
  srun (vm_region_mergenext (length pre)) s (merge_post others s pre p post)
    (fun _ _ => False).
Proof.
  intros Hok Hp. pose proof (region_ok_part _ _ _ _ _ Hok Hp) as (Hpok1 & _ & Hpost).
  unfold vm_region_mergenext. apply srun_bind, srun_region.
  apply srun_bind. apply srun_get_part with (p := p). { by rewrite Hp, lookup_mid. }
  assert (Hskip : srun (mret false : SM rstate bool) s (merge_post others s pre p post)
    (fun _ _ => False)) by by apply srun_ret.
  pose proof Hp as Hp'. unfold parts in Hp'. rewrite Hp', lookup_mid_S.
  destruct post as [|q post]; cbn [head]; [done|].
  destruct (Z.eqb_spec (vp_refcnt q) (vp_refcnt p)) as [Hrc|]; [cbn [negb]|done].
  destruct (Z.eqb_spec (vp_locked q) (vp_locked p)) as [Hlk|]; [cbn [negb]|done].
  destruct (decide (vp_state q = vp_state p)) as [Hst|];
    [rewrite bool_decide_eq_true_2 by done|by rewrite bool_decide_eq_false_2]; cbn [negb].
  cbn in Hpok1, Hpost. destruct Hpost as (_ & Hpok2 & _).
  assert (exists bq, vp_block q = Some bq) as [bq Hbq].
  { pose proof (ro_static _ _ Hok) as Hs. rewrite Hp' in Hs.
    destruct pre; cbn in Hs; [by apply Forall_cons in Hs as [? _]|].
    by apply Forall_app in Hs as [_ [_ [? _]%Forall_cons]%Forall_cons]. }
  assert (Hw : weak q = weak p).
  { destruct (ro_weak _ _ Hok) as [w Hu]. rewrite Hp' in Hu.
    apply Forall_app in Hu as [_ [? [? _]%Forall_cons]%Forall_cons]. congruence. }
  set (rest := others ++ vr_block (rs_reg s) :: part_blocks (pre ++ p :: post)).
  assert (Hlive : rs_live s ≡ₚ bq :: rest).
  { rewrite (ro_live _ _ Hok), Hp'. unfold rest. rewrite !part_blocks_app. cbn. rewrite Hbq.
    destruct (vp_block p); cbn; solve_Permutation. }
  pose proof (region_ok_heap _ _ Hok) as Hheap. apply srun_bind.
  assert (Hfin : forall nb l s1, same_but_heap s s1 -> heap_ok s1 -> rs_live s1 ≡ₚ nb :: rest ->
    united p q (MkPart (Some nb) (vp_refcnt q) (vp_start p) (vp_state q) (vp_flags q)
      (vp_locked q) l) (vp_start q - vp_start p) (part_end post (size s) - vp_start q) ->
    srun (let next := MkPart (Some nb) (vp_refcnt q) (vp_start p) (vp_state q) (vp_flags q)
            (vp_locked q) l in
          set_parts (take (length pre) (pre ++ p :: q :: post) ++ next ::
            drop (S (S (length pre))) (pre ++ p :: q :: post)) ≫= fun _ =>
          scheck (match length pre with
                  | O => true
                  | S i => match (pre ++ p :: q :: post) !! i with
                           | Some prev => vp_start prev <? vp_start next
                           | None => false
                           end
                  end) ≫= fun _ =>
          part_free p ≫= fun _ => mret true) s1
      (merge_post others s pre p (q :: post)) (fun _ _ => False)).
  { intros nb l s1 Hs1 Hh1 Hl1 Hun. cbv zeta. rewrite <- Hp'.
    by apply (merge_tail others s s1 pre p q post _ nb). }
  destruct (decide (vp_state p = VM_PART_INCORE)) as [Hin|Hin].
  - rewrite Hin. destruct Hpok1 as (Hl1 & Hf1 & Hi1) eqn:E1. clear E1.
    destruct (Hi1 Hin) as (Hne1 & Hall1 & Ht1).
    pose proof Hpok2 as (_ & _ & Hi2). destruct (Hi2 (eq_trans Hst Hin)) as (Hne2 & Hall2 & Ht2).
    destruct (merge_scatter_ok (py_iscatter p) (py_iscatter q) (vp_start p) (vp_start q))
      as (l & grow & Hms & Hne & Hall & Htot & Hfr); try done; [lia|].
    apply srun_bind. apply srun_lift with (a := (l, grow)); [done|]. cbn [snd fst].
    pose proof (fun nb => unite_incore p q _ _ nb l (conj Hl1 (conj Hf1 Hi1)) Hpok2 Hin Hst Hrc
      Hlk Hw Hne Hall Htot Hfr) as Hun.
    destruct grow.
    + apply srun_bind. eapply srun_mono; [by apply (srun_merge_block q bq rest)| |done].
      intros [b|] s1 (Hs1 & Hh1 & Hl'); apply srun_ret; cbn.
      * destruct Hl' as (nb & -> & Hl'). by apply Hfin.
      * destruct Hs1 as (Hr1 & Hph1 & Hc1). split_and!.
        -- destruct Hh1 as [Hnd1 Hnx1]. destruct Hok. split; rewrite ?Hr1; try done.
           by rewrite Hl'.
        -- split_and!; congruence.
        -- unfold pages. by rewrite Hr1.
        -- unfold parts. by rewrite Hr1.
    + apply srun_ret. cbn. rewrite Hbq. by apply Hfin.
  - match goal with |- srun ?m _ _ _ => replace m with
      (mret (Some (Some bq, py_iscatter q)) : SM rstate _)
      by (rewrite <- Hbq; by destruct (vp_state p)) end.
    apply srun_ret. apply Hfin; try done. by apply unite_other.
Qed.

(** ** Updates of parts *)
(** [p'] is [p] with other counters. *)
Definition upd_rel (p p' : vm_part) : Prop :=
  vp_block p = vp_block p' /\ vp_start p = vp_start p' /\ vp_state p = vp_state p' /\
  vp_flags p = vp_flags p' /\ py_iscatter p = py_iscatter p' /\ attr_ok p /\ attr_ok p'.
#[local] Instance upd_rel_sym : Symmetric upd_rel.
Proof. unfold upd_rel. intros p q (-> & -> & -> & -> & -> & ? & ?). by split_and!. Qed.
Lemma upd_rel_ok p p' len : upd_rel p p' -> part_ok p len -> part_ok p' len.
Proof.
  intros (_ & _ & Hst & _ & Hsc & _ & Ha) (? & _ & ?). unfold part_ok. rewrite <- Hst, <- Hsc.
  by split_and!.
Qed.
Lemma upd_rel_end l l' e : Forall2 upd_rel l l' -> part_end l' e = part_end l e.
Proof. destruct 1 as [|p p' l l' Hp _]; cbn; [done|]. symmetry. apply Hp. Qed.
Lemma upd_rel_wf l l' start e : Forall2 upd_rel l l' -> parts_wf start l e -> parts_wf start l' e.
Proof.
  intros Hl. revert start. induction Hl as [|p p' l l' Hp Hl IH]; intros start; cbn; [done|].
  rewrite (upd_rel_end l l') by done. intros (Hs & Hok & Hwf).
  split_and!; [|by eapply upd_rel_ok|by apply IH].
  destruct Hp as (_ & E & _). congruence.
Qed.
Lemma upd_rel_blocks l l' : Forall2 upd_rel l l' -> part_blocks l' = part_blocks l.
Proof.
  unfold part_blocks. induction 1 as [|p p' l l' Hp Hl IH]; cbn; [done|].
  destruct Hp as [-> _]. by rewrite IH.
Qed.
Lemma upd_rel_static l l' :
  Forall2 upd_rel l l' -> Forall (fun p => is_Some (vp_block p)) l ->
  Forall (fun p => is_Some (vp_block p)) l'.
Proof.
  induction 1 as [|p p' l l' Hp Hl IH]; [done|]. rewrite !Forall_cons.
  intros [? ?]. split; [|auto]. by destruct Hp as [<- _].
Qed.
Lemma region_ok_upd others s l' :
  region_ok others s -> Forall2 upd_rel (parts s) l' -> region_ok others (setp s l').
Proof.
  intros [H1 H2 H3 H4 H5 H6 H7] Hl. unfold parts in Hl. split; cbn -[part_blocks]; try done.
  - by eapply upd_rel_wf.
  - by rewrite (upd_rel_blocks _ _ Hl).
  - destruct Hl; [done|]. by eapply upd_rel_static.
  - destruct H7 as [w Hu]. exists w. revert Hu. clear -Hl.
    induction Hl as [|p p' l l' (_ & _ & _ & Hf & _) _ IH]; [done|].
    intros [Hp ?]%Forall_cons. apply Forall_cons. split; [|by apply IH].
    unfold weak in *. by rewrite <- Hf.
Qed.
Lemma upd_rel_refl p len : part_ok p len -> upd_rel p p.
Proof. intros (_ & Ha & _). by split_and!. Qed.
Lemma parts_refl start l e : parts_wf start l e -> Forall2 upd_rel l l.
Proof.
  revert start. induction l as [|p l IH]; intros start; cbn; [done|].
  intros (_ & Hok & Hl). constructor; [by eapply upd_rel_refl|by eapply IH].
Qed.

(** Applying [f] to the [n] pages from page [a]. *)
Definition map_range (f : page_info -> page_info) (a n : Z) (l : list page_info)
    : list page_info :=
  imap (fun i x => if decide (a <= Z.of_nat i < a + n) then f x else x) l.
Lemma map_range_comp f a m n l :
  0 <= m -> 0 <= n -> map_range f (a + m) n (map_range f a m l) = map_range f a (m + n) l.
Proof.
  intros Hm Hn. apply list_eq. intros i. unfold map_range. rewrite !list_lookup_imap.
  destruct (l !! i) as [x|]; cbn; [|done]. f_equal. repeat case_decide; done || lia.
Qed.
Lemma map_range_0 f a l : map_range f a 0 l = l.
Proof.
  apply list_eq. intros i. unfold map_range. rewrite list_lookup_imap.
  destruct (l !! i); cbn; [|done]. f_equal. case_decide; [lia|done].
Qed.
Lemma map_range_mid f (l1 l2 l3 : list page_info) :
  map_range f (Z.of_nat (length l1)) (Z.of_nat (length l2)) (l1 ++ l2 ++ l3)
  = l1 ++ (f <$> l2) ++ l3.
Proof.
  apply list_eq. intros i. unfold map_range. rewrite list_lookup_imap.
  destruct (decide (i < length l1)%nat).
  { rewrite !lookup_app_l by lia. destruct (l1 !! i); cbn; [|done].
    f_equal. case_decide; [lia|done]. }
  rewrite !(lookup_app_r l1) by lia. destruct (decide (i - length l1 < length l2)%nat).
  { rewrite !lookup_app_l by (rewrite ?length_fmap; lia). rewrite list_lookup_fmap.
    destruct (l2 !! _); cbn; [|done]. f_equal. case_decide; [done|lia]. }
  rewrite !lookup_app_r by (rewrite ?length_fmap; lia). rewrite length_fmap.
  destruct (l3 !! _); cbn; [|done]. f_equal. case_decide; [lia|done].
Qed.

(** What an operation on parts does to pages: [pf] changes a page, [pchk] is what
    it asserts of a page, and [perr] the error a page gives rise to. *)
Record op_spec (op : part_op) (pf : page_info -> page_info) (pchk : page_info -> bool)
    (perr : page_info -> option error_code) : Prop := {
  os_check : forall p fr, po_check op p = pchk (page_of p fr);
  os_update : forall p, attr_ok p -> po_check op p = true ->
    match po_update op p with
    | inl e => forall fr, perr (page_of p fr) = Some e
    | inr p' => upd_rel p p' /\ (forall fr, page_of p' fr = pf (page_of p fr)) /\
        forall u, po_undo op = Some u -> u p' = Ret p
    end;
}.
Lemma part_pages_upd p p' f len :
  upd_rel p p' -> (forall fr, page_of p' fr = f (page_of p fr)) ->
  part_pages p' len = f <$> part_pages p len.
Proof.
  intros (_ & _ & Hst & _ & Hsc & _) Hf. unfold part_pages, part_frames.
  rewrite <- Hst, <- Hsc, <- list_fmap_compose. apply list_fmap_ext. intros _ fr _. apply Hf.
Qed.

(** ** The loop over a range *)
Lemma map_range_lookup f a n l i :
  map_range f a n l !! i =
  (fun x => if decide (a <= Z.of_nat i < a + n) then f x else x) <$> l !! i.
Proof. unfold map_range. by rewrite list_lookup_imap. Qed.
Lemma part_first_page p len : part_ok p len -> exists fr, part_pages p len !! 0%nat = Some (page_of p fr).
Proof.
  intros Hok. pose proof (part_pages_length p len Hok) as Hlen. destruct Hok as [? _].
  unfold part_pages in *. destruct (part_frames p len) as [|fr l]; cbn in *; [lia|by exists fr].
Qed.
Lemma pages_setp s l : pages (setp s l) = pages_of l (size s).
Proof. done. Qed.
(** The pages from the start of a part on. *)
Lemma pages_lookup_part others s pre p post i :
  region_ok others s -> parts s = pre ++ p :: post ->
  0 <= i < part_end post (size s) - vp_start p ->
  pages s !! Z.to_nat (vp_start p + i) =
  part_pages p (part_end post (size s) - vp_start p) !! Z.to_nat i.
Proof.
  intros Hok Hp Hi. destruct (region_ok_part _ _ _ _ _ Hok Hp) as (Hpok & Hpre & _).
  rewrite (pages_mid s pre p post Hp). pose proof (parts_wf_le _ _ _ Hpre).
  pose proof (pages_of_length _ _ _ Hpre) as Hl.
  rewrite lookup_app_r by (rewrite Hl; lia). rewrite Hl.
  rewrite lookup_app_l by (rewrite part_pages_length by done; lia).
  f_equal. lia.
Qed.
Lemma pages_update others s pre p p' f post :
  region_ok others s -> parts s = pre ++ p :: post -> upd_rel p p' ->
  (forall fr, page_of p' fr = f (page_of p fr)) ->
  region_ok others (setp s (pre ++ p' :: post)) /\
  pages (setp s (pre ++ p' :: post)) =
  map_range f (vp_start p) (part_end post (size s) - vp_start p) (pages s).
Proof.
  intros Hok Hp Hr Hf. destruct (region_ok_part _ _ _ _ _ Hok Hp) as (Hpok & Hpre & Hpost).
  pose proof (parts_wf_le _ _ _ Hpre) as Hle. split.
  - apply region_ok_upd; [done|]. rewrite Hp. apply Forall2_app; [by eapply parts_refl|].
    constructor; [done|by eapply parts_refl].
  - rewrite (pages_mid s pre p post Hp), pages_setp, pages_of_app. cbn.
    assert (vp_start p' = vp_start p) as -> by (symmetry; apply Hr).
    rewrite (part_pages_upd p p' f) by done.
    rewrite <- map_range_mid. rewrite part_pages_length by done.
    rewrite (pages_of_length _ _ _ Hpre). destruct Hpok as [? _].
    rewrite !Z2Nat.id by lia. f_equal. lia.
Qed.

Section Loop.
Context (others : list nat) (op : part_op) (pf : page_info -> page_info)
  (pchk : page_info -> bool) (perr : page_info -> option error_code)
  (Hop : op_spec op pf pchk perr).

Lemma srun_update_part s pre p post :
  region_ok others s -> parts s = pre ++ p :: post -> po_check op p = true ->
  srun (update_part op (length pre)) s
    (fun _ s' => exists p', s' = setp s (pre ++ p' :: post) /\ upd_rel p p' /\
       (forall fr, page_of p' fr = pf (page_of p fr)) /\
       forall u, po_undo op = Some u -> u p' = Ret p)
    (fun e s' => s' = s /\ forall fr, perr (page_of p fr) = Some e).
Proof.
  intros Hok Hp Hchk. destruct (region_ok_part _ _ _ _ _ Hok Hp) as ((_ & Ha & _) & _).
  unfold update_part. apply srun_bind. apply srun_get_part with (p := p).
  { by rewrite Hp, lookup_mid. }
  pose proof (os_update _ _ _ _ Hop p Ha Hchk) as H.
  destruct (po_update op p) as [e|p']; [by apply srun_throw|].
  apply srun_set_part. rewrite Hp, insert_mid. by exists p'.
Qed.
Lemma srun_undo u pre done done0 rest s R :
  parts s = pre ++ done ++ rest -> Forall2 (fun p' p => u p' = Ret p) done done0 ->
  srun (undo_parts u (length done) (length pre)) s
    (fun _ s' => s' = setp s (pre ++ done0 ++ rest)) R.
Proof.
  intros Hp Hf. revert pre s Hp. induction Hf as [|p' p done done0 Hu Hf IH]; intros pre s Hp;
    cbn [undo_parts length].
  - apply srun_ret. unfold parts in Hp. destruct s as [[] ? ? ? ? ?]. cbn in *. by subst.
  - apply srun_bind. apply srun_get_part with (p := p'). { rewrite Hp. cbn [app]. by rewrite lookup_mid. }
    apply srun_bind. eapply srun_lift; [done|].
    apply srun_bind, srun_set_part. rewrite Hp. cbn [app]. rewrite insert_mid.
    assert (Hlen : S (length pre) = length (pre ++ [p])) by (rewrite length_app; cbn; lia).
    rewrite Hlen. eapply srun_mono; [apply (IH (pre ++ [p]))| |done].
    + unfold parts. cbn. by rewrite <- app_assoc.
    + intros [] s' ->. unfold setp. cbn. by rewrite <- app_assoc.
Qed.

(** [done0] are the parts the loop has passed, [done] what has become of them. *)
Record loop_inv (s0 : rstate) pre done0 done rest s : Prop := {
  li_parts : parts s = pre ++ done ++ rest;
  li_ok : region_ok others s;
  li_env : same_env s0 s;
  li_upd : Forall2 upd_rel done0 done;
  li_undo : forall u, po_undo op = Some u -> Forall2 (fun p' p => u p' = Ret p) done done0;
  li_pages : pages (setp s (pre ++ done0 ++ rest)) = pages s0;
}.
Definition range_failed (s0 s : rstate) (cur range_end : Z) (e : error_code) (s' : rstate)
    : Prop :=
  region_ok others s' /\ same_env s0 s' /\
  (e = E_BADALLOC \/ exists i pg, cur <= Z.of_nat i < range_end /\
     pages s !! i = Some pg /\ perr pg = Some e) /\
  match po_undo op with
  | Some _ => pages s' = pages s0
  | None => exists m, 0 <= m <= range_end - cur /\ pages s' = map_range pf cur m (pages s)
  end.

Lemma srun_handler s0 pre done0 done rest s e Q :
  loop_inv s0 pre done0 done rest s ->
  srun (range_handler op (length pre) (length (pre ++ done)) e) s Q
    (fun e' s' => e' = e /\ region_ok others s' /\ same_env s0 s' /\
       match po_undo op with Some _ => pages s' = pages s0 | None => pages s' = pages s end).
Proof.
  intros [Hp Hok Henv Hupd Hundo Hpg]. unfold range_handler.
  destruct (po_undo op) as [u|]; [|by apply srun_throw].
  rewrite length_app. replace (_ + _ - _)%nat with (length done) by lia.
  apply srun_bind. eapply (srun_mono _ _ _ _ (fun _ _ => False));
    [by apply (srun_undo u pre done done0 rest), Hundo| |done].
  intros [] s' ->. apply srun_throw. split_and!; try done.
  apply region_ok_upd; [done|]. rewrite Hp. pose proof (ro_parts _ _ Hok) as Hwf.
  unfold parts in Hp. rewrite Hp in Hwf. apply parts_wf_app in Hwf as [Hpre Hwf].
  apply parts_wf_app in Hwf as [_ Hrest].
  apply Forall2_app; [by eapply parts_refl|]. apply Forall2_app; [|by eapply parts_refl].
  apply Forall2_flip. eapply Forall2_impl; [exact Hupd|]. intros ? ? ?. by apply upd_rel_sym.
Qed.

Lemma part_start_pages s pre p post :
  region_ok others s -> parts s = pre ++ p :: post ->
  exists fr, pages s !! Z.to_nat (vp_start p) = Some (page_of p fr).
Proof.
  intros Hok Hp. destruct (region_ok_part _ _ _ _ _ Hok Hp) as (Hpok & Hpre & _).
  destruct (part_first_page _ _ Hpok) as [fr Hfr]. exists fr.
  replace (vp_start p) with (vp_start p + 0) at 1 by lia.
  rewrite (pages_lookup_part others s pre p post 0) by (done || destruct Hpok; lia). done.
Qed.
Lemma loop_inv_asked s0 pre done0 done rest s s' :
  loop_inv s0 pre done0 done rest s -> unchanged others s E_BADALLOC s' ->
  loop_inv s0 pre done0 done rest s' /\ pages s' = pages s.
Proof.
  intros [Hp Hok Henv Hupd Hundo Hpg] (_ & Hok' & Henv' & Hp').
  pose proof (same_env_size _ _ Henv') as Hsz. split; [split|]; try done.
  - congruence.
  - by transitivity s.
  - rewrite <- Hpg. unfold pages, region_pages. cbn. by rewrite Hsz.
  - unfold pages, region_pages, parts in *. by rewrite Hp', Hsz.
Qed.
(** After the split of the last part of the range. *)
Lemma loop_inv_split s0 pre done0 done p p1 p2 post off s s' :
  loop_inv s0 pre done0 done (p :: post) s -> region_ok others s' -> same_env s s' ->
  parts s' = (pre ++ done) ++ p1 :: p2 :: post ->
  divided p p1 p2 off (part_end post (size s) - vp_start p) ->
  loop_inv s0 pre done0 done (p1 :: p2 :: post) s' /\ pages s' = pages s.
Proof.
  intros [Hp Hok Henv Hupd Hundo Hpg] Hok' Henv' Hp' Hd.
  rewrite app_assoc in Hp. split; [split|]; try done.
  - by rewrite Hp', <- app_assoc.
  - by transitivity s.
  - rewrite <- Hpg. eapply (pages_divided _ _ (pre ++ done0) p p1 p2 post off).
    + cbn. by rewrite app_assoc.
    + cbn. by rewrite app_assoc.
    + destruct Henv' as (E & ? & ?). split_and!; [|done..]. exact E.
    + exact Hd.
  - by eapply pages_divided.
Qed.
Lemma loop_inv_next s0 pre done0 done p p' post s :
  loop_inv s0 pre done0 done (p :: post) s -> upd_rel p p' ->
  (forall u, po_undo op = Some u -> u p' = Ret p) ->
  region_ok others (setp s (pre ++ done ++ p' :: post)) ->
  loop_inv s0 pre (done0 ++ [p]) (done ++ [p']) post (setp s (pre ++ done ++ p' :: post)).
Proof.
  intros [Hp Hok Henv Hupd Hundo Hpg] Hr Hu Hok'. split; try done.
  - unfold parts. cbn. by rewrite <- app_assoc.
  - apply Forall2_app; [done|by constructor].
  - intros u E. apply Forall2_app; [by apply Hundo|]. constructor; [by apply Hu|done].
  - rewrite <- Hpg. unfold pages, region_pages. cbn. by rewrite <- app_assoc.
Qed.

Definition range_done (s0 s : rstate) (first : nat) (cur range_end : Z) (j : nat)
    (s' : rstate) : Prop :=
  region_ok others s' /\ same_env s0 s' /\ (first <= j < length (parts s'))%nat /\
  pages s' = map_range pf cur (range_end - cur) (pages s).

(** The last part of the range, up to [range_end], which may be its end. *)
Lemma srun_last_part s0 pre done0 done p post s range_end :
  loop_inv s0 pre done0 done (p :: post) s -> po_check op p = true ->
  vp_start p < range_end -> range_end = part_end post (size s) ->
  srun (scatch (update_part op (length (pre ++ done)))
          (range_handler op (length pre) (length (pre ++ done)))) s
    (fun _ s' => exists p', s' = setp s (pre ++ done ++ p' :: post) /\
       region_ok others s' /\ upd_rel p p' /\
       (forall u, po_undo op = Some u -> u p' = Ret p) /\
       pages s' = map_range pf (vp_start p) (range_end - vp_start p) (pages s))
    (range_failed s0 s (vp_start p) range_end).
Proof.
  intros Hinv Hchk Hlt Hend. pose proof Hinv as [Hp Hok Henv Hupd Hundo Hpg].
  rewrite app_assoc in Hp. apply srun_catch.
  eapply srun_mono; [by apply (srun_update_part s (pre ++ done) p post)|..].
  - intros [] s' (p' & -> & Hr & Hf & Hu). exists p'. rewrite <- app_assoc.
    destruct (pages_update others s (pre ++ done) p p' pf post Hok Hp Hr Hf) as [Hok' Hpg'].
    rewrite <- app_assoc in Hok', Hpg'. rewrite Hend. by split_and!.
  - intros e s' [-> He]. eapply (srun_mono _ _ (fun _ _ => False));
      [by apply (srun_handler s0 pre done0 done (p :: post))|done|].
    intros e' s' (-> & Hok' & Henv' & Hpg'). split_and!; try done.
    + right. destruct (part_start_pages s (pre ++ done) p post Hok Hp) as [fr Hfr].
      destruct (region_ok_part _ _ _ _ _ Hok Hp) as (_ & Hle%parts_wf_le & _).
      exists (Z.to_nat (vp_start p)), (page_of p fr). split_and!; [lia..|done|by apply He].
    + destruct (po_undo op); [done|]. exists 0. rewrite map_range_0. split; [lia|done].
Qed.

Lemma range_failed_trans s0 s s1 cur mid range_end e s' :
  0 <= mid - cur -> mid <= range_end ->
  (forall i pg, mid <= Z.of_nat i < range_end -> pages s1 !! i = Some pg -> pages s !! i = Some pg) ->
  pages s1 = map_range pf cur (mid - cur) (pages s) ->
  range_failed s0 s1 mid range_end e s' -> range_failed s0 s cur range_end e s'.
Proof.
  intros Hm Hle Hsame Hpg (Hok & Henv & He & Hres). split_and!; try done.
  - destruct He as [He|(i & pg & Hi & Hpi & Hpe)]; [by left|right].
    exists i, pg. split_and!; [lia|lia|by apply Hsame|done].
  - destruct (po_undo op); [done|]. destruct Hres as (m & Hmb & ->).
    exists (mid - cur + m). rewrite Hpg. split; [lia|].
    rewrite <- map_range_comp by lia. by replace (cur + (mid - cur)) with mid by lia.
Qed.
Lemma range_loop_ok fuel s0 pre done0 done p post s range_end :
  loop_inv s0 pre done0 done (p :: post) s -> (length post < fuel)%nat ->
  vp_start p <= range_end <= size s ->
  (forall i pg, vp_start p <= Z.of_nat i < range_end -> pages s !! i = Some pg -> pchk pg = true) ->
  srun (range_loop op fuel (length pre) (length (pre ++ done)) range_end) s
    (range_done s0 s (length pre) (vp_start p) range_end)
    (range_failed s0 s (vp_start p) range_end).
Proof.
  revert done0 done p post s. induction fuel as [|fuel IH];
    intros done0 done p post s Hinv Hfuel Hend Hchk; [lia|].
  pose proof Hinv as [Hp Hok Henv Hupd Hundo Hpg]. rewrite app_assoc in Hp.
  destruct (region_ok_part _ _ _ _ _ Hok Hp) as (Hpok & Hpre & Hpost).
  pose proof (parts_wf_le _ _ _ Hpre) as Hstart.
  assert (Hidx : (length pre <= length (pre ++ done) < length (parts s))%nat)
    by (rewrite Hp, (length_app _ (p :: post)), !length_app; cbn; lia).
  cbn [range_loop]. apply srun_bind, srun_region.
  apply srun_bind. apply srun_get_part with (p := p). { by rewrite Hp, lookup_mid. }
  destruct (Z.leb_spec range_end (vp_start p)).
  { apply srun_ret. split; [done|]. split; [done|]. split; [done|].
    replace (range_end - vp_start p) with 0 by lia. by rewrite map_range_0. }
  assert (Hcp : po_check op p = true).
  { destruct (part_start_pages s (pre ++ done) p post Hok Hp) as [fr Hfr].
    rewrite (os_check _ _ _ _ Hop p fr). apply (Hchk _ _) with (2 := Hfr). lia. }
  apply srun_bind, srun_check; [done|].
  replace (match vr_parts (rs_reg s) !! S (length (pre ++ done)) with
    | Some q => vp_start q | None => vr_size (rs_reg s) end) with (part_end post (size s)).
  2: { unfold parts in Hp. rewrite Hp, lookup_mid_S. by destruct post. }
  cbv zeta. destruct (Z.ltb_spec range_end (part_end post (size s))) as [Hlt|Hge].
  - apply srun_bind, srun_catch_bind. eapply srun_mono; [apply splitafter_ok; try done; lia|..].
    + intros j s1 (_ & Hok1 & Henv1 & p1 & p2 & Hp1 & Hd).
      destruct (loop_inv_split s0 pre done0 done p p1 p2 post _ s s1 Hinv Hok1 Henv1 Hp1 Hd)
        as [Hinv1 Hpg1].
      pose proof Hd as (Ha1 & _ & Hs1 & Hs2 & _). pose proof Ha1 as (Hr1 & Hl1 & Hst1 & _).
      apply alike_weak in Ha1.
      assert (Hcp1 : po_check op p1 = true).
      { rewrite (os_check _ _ _ _ Hop p1 None). rewrite (os_check _ _ _ _ Hop p None) in Hcp.
        unfold page_of in *. congruence. }
      eapply srun_mono; [apply (srun_last_part s0 pre done0 done p1 (p2 :: post) s1 range_end)|..];
        try done; try (cbn; lia).
      * intros [] s2 (p' & -> & Hok2 & _ & _ & Hpg2). apply srun_ret.
        rewrite Hs1, Hpg1 in Hpg2. split; [done|]. split; [|split; [|done]].
        -- etransitivity; [exact (li_env _ _ _ _ _ _ Hinv1)|done].
        -- unfold parts. cbn. rewrite !length_app. cbn. lia.
      * intros e s2 Hf. rewrite Hs1 in Hf. apply (range_failed_trans s0 s s1 (vp_start p) (vp_start p));
          try done; try lia; rewrite ?Hpg1; [naive_solver|].
        rewrite Z.sub_diag. by rewrite map_range_0.
    + intros e s1 Hun. assert (e = E_BADALLOC) as -> by by destruct Hun.
      destruct (loop_inv_asked _ _ _ _ _ _ _ Hinv Hun) as [Hinv1 Hpg1].
      eapply (srun_mono _ _ (fun _ _ => False)); [by apply (srun_handler s0 pre done0 done (p :: post))|done|].
      intros e' s' (-> & Hok' & Henv' & Hpg'). split_and!; try done; [by left|].
      destruct (po_undo op); [done|]. exists 0. rewrite map_range_0. split; [lia|congruence].
  - assert (Hpe : part_end post (size s) <= range_end) by lia. clear Hge.
    apply srun_bind. eapply srun_mono;
      [apply (srun_last_part s0 pre done0 done p post s (part_end post (size s)))|..]; try done.
    { destruct Hpok as [? _]. lia. }
    + intros [] s1 (p' & -> & Hok1 & Hr & Hu & Hpg1).
      destruct (Z.eqb_spec range_end (part_end post (size s))) as [He|He].
      { apply srun_ret. rewrite He. split; [done|]. split; [done|]. split; [|done].
        unfold parts in *. cbn. rewrite Hp, !length_app in Hidx. rewrite !length_app. cbn in *. lia. }
      destruct post as [|q post]; [cbn in *; lia|].
      pose proof (loop_inv_next _ _ _ _ _ _ _ _ Hinv Hr Hu Hok1) as Hinv1.
      replace (S (length (pre ++ done))) with (length (pre ++ done ++ [p']))
        by (rewrite !length_app; cbn; lia).
      assert (Hsame : forall i pg, vp_start q <= Z.of_nat i < range_end ->
        pages (setp s (pre ++ done ++ p' :: q :: post)) !! i = Some pg -> pages s !! i = Some pg).
      { intros i pg Hi. rewrite Hpg1, map_range_lookup. cbn.
        destruct (pages s !! i); cbn; [|done]. rewrite decide_False by (cbn in *; lia). done. }
      destruct Hpok as [Hlen _]. cbn in Hpe, He, Hlen. cbn [part_end] in Hpg1.
      eapply srun_mono; [apply (IH (done0 ++ [p]) (done ++ [p']) q post _ Hinv1)|..].
      * cbn in Hfuel. lia.
      * unfold size in *. cbn. lia.
      * intros i pg Hi Hl. apply (Hchk i); [lia|by apply Hsame].
      * intros j s2 (Hok2 & Henv2 & Hj & Hpg2). split; [done|]. split; [done|]. split; [done|].
        rewrite Hpg2, Hpg1. replace (vp_start q) with (vp_start p + (vp_start q - vp_start p)) at 1 by lia.
        rewrite map_range_comp by lia. f_equal. lia.
      * intros e s2. apply range_failed_trans; (done || lia).
    + intros e s1 (Hok1 & Henv1 & Herr & Hres). split_and!; try done.
      * destruct Herr as [?|(i & pg & Hi & Hl & Hpe')]; [by left|right].
        exists i, pg. split_and!; (done || lia).
      * destruct (po_undo op); [done|]. destruct Hres as (m & Hm & ->). exists m. split; [lia|done].
Qed.

Lemma mergenext_idx s j :
  region_ok others s -> (j < length (parts s))%nat ->
  srun (vm_region_mergenext j) s
    (fun merged s' => region_ok others s' /\ same_env s s' /\ pages s' = pages s /\
       length (parts s') = if merged then pred (length (parts s)) else length (parts s))
    (fun _ _ => False).
Proof.
  intros Hok Hj. destruct (lookup_lt_is_Some_2 (parts s) j Hj) as [p Hp].
  pose proof (take_drop_middle _ _ _ Hp) as E.
  assert (Hlen : length (take j (parts s)) = j) by (rewrite length_take; lia).
  rewrite <- Hlen. eapply srun_mono; [by apply mergenext_ok, (eq_sym E)| |done].
  intros merged s' (Hok' & Henv & Hpg & Hm). split_and!; try done. destruct merged; [|by rewrite Hm].
  destruct Hm as (q & post' & next & Hpost & Hp' & _). rewrite Hp'.
  assert (length (parts s) = length (take j (parts s) ++ p :: q :: post')) as -> by (rewrite <- Hpost; by f_equal).
  rewrite !length_app. cbn. lia.
Qed.
Lemma merge_ends_ok s first j :
  region_ok others s -> (first <= j < length (parts s))%nat ->
  srun (merge_ends first j) s
    (fun _ s' => region_ok others s' /\ same_env s s' /\ pages s' = pages s) (fun _ _ => False).
Proof.
  intros Hok Hj. unfold merge_ends. apply srun_bind.
  assert (Hend : forall s1 i, region_ok others s1 -> same_env s s1 -> pages s1 = pages s ->
    (i < length (parts s1))%nat ->
    srun (_ ← vm_region_mergenext i; mret tt) s1
      (fun _ s' => region_ok others s' /\ same_env s s' /\ pages s' = pages s) (fun _ _ => False)).
  { intros s1 i Hok1 Henv1 Hpg1 Hi. apply srun_bind.
    eapply srun_mono; [by apply mergenext_idx| |done].
    intros m s2 (Hok2 & Henv2 & Hpg2 & _). apply srun_ret.
    split_and!; [done|by transitivity s1|congruence]. }
  destruct first as [|before].
  - apply srun_ret. apply Hend; (done || lia).
  - apply srun_bind. eapply srun_mono; [apply mergenext_idx; [done|lia]| |done].
    intros m s1 (Hok1 & Henv1 & Hpg1 & Hlen). apply srun_ret.
    apply Hend; try done. destruct m; lia.
Qed.
Lemma region_range_ok s first num :
  region_ok others s -> 0 <= first < size s -> 0 <= num -> first + num <= size s ->
  (forall i pg, first <= Z.of_nat i < first + num -> pages s !! i = Some pg -> pchk pg = true) ->
  srun (region_range op first num) s
    (fun _ s' => region_ok others s' /\ same_env s s' /\
       pages s' = map_range pf first num (pages s))
    (range_failed s s first (first + num)).
Proof.
  intros Hok Hf Hn He Hchk. unfold region_range. apply srun_bind.
  eapply srun_mono; [by apply (split_before_ok others s first)|..].
  - intros j s1 (Hok1 & Henv1 & Hpg1 & pre & p & post & Hp1 & -> & Hst).
    apply srun_bind, srun_region. apply srun_bind.
    assert (Hinv : loop_inv s pre [] [] (p :: post) s1).
    { split; try done. rewrite <- Hpg1. unfold pages, region_pages, parts in *. cbn. by rewrite Hp1. }
    pose proof (range_loop_ok (S (length (vr_parts (rs_reg s1)))) s pre [] [] p post s1 (first + num)
      Hinv) as Hloop. rewrite app_nil_r, Hst, Hpg1 in Hloop.
    pose proof (same_env_size _ _ Henv1) as Hsz. unfold size in *. rewrite Hsz in Hloop.
    eapply srun_mono; [apply Hloop|..].
    + unfold parts in Hp1. rewrite Hp1, length_app. cbn. lia.
    + lia.
    + done.
    + intros j s2 (Hok2 & Henv2 & Hj & Hpg2). replace (first + num - first) with num in Hpg2 by lia.
      eapply srun_mono; [by apply merge_ends_ok| |done].
      intros [] s3 (Hok3 & Henv3 & Hpg3). split_and!; [done|by transitivity s2|congruence].
    + intros e s2 (Hok2 & Henv2 & Herr & Hres). rewrite Hpg1 in *. by split_and!.
  - intros e s1 (-> & Hok1 & Henv1 & Hp1). split_and!; try done; [by left|].
    assert (Hpg1 : pages s1 = pages s).
    { pose proof (same_env_size _ _ Henv1) as Hsz. unfold pages, region_pages, parts in *.
      by rewrite Hp1, Hsz. }
    destruct (po_undo op); [done|]. exists 0. rewrite map_range_0. split; [lia|done].
Qed.
End Loop.

(** ** The four operations *)
Definition page_refcnt (d : Z) (pg : page_info) : page_info :=
  MkPage (pg_refcnt pg + d) (pg_locked pg) (pg_state pg) (pg_frame pg) (pg_weak pg).
Definition page_locked (d : Z) (pg : page_info) : page_info :=
  MkPage (pg_refcnt pg) (pg_locked pg + d) (pg_state pg) (pg_frame pg) (pg_weak pg).
Definition lock_limit (limit : Z) (pg : page_info) : option error_code :=
  if pg_locked pg =? limit then Some E_OVERFLOW else None.

Lemma incref_spec : op_spec incref_op (page_refcnt 1) (fun _ => true) (fun _ => None).
Proof.
  split; [done|]. intros p (Hf & Hr & Hl) _. cbn. split_and!; try done.
  - unfold upd_rel, attr_ok. cbn. split_and!; (done || lia).
  - intros u [= <-]. cbn. rewrite bind_kassert by lia. unfold set_refcnt. cbn. destruct p. cbn.
    do 2 f_equal. lia.
Qed.
Lemma decref_spec :
  op_spec decref_op (page_refcnt (-1)) (fun pg => negb (pg_refcnt pg =? 0)) (fun _ => None).
Proof.
  split; [done|]. intros p (Hf & Hr & Hl) Hc. cbn in *. split_and!; try done.
  unfold upd_rel, attr_ok. cbn. split_and!; (done || lia).
Qed.
Lemma inclck_spec :
  op_spec inclck_op (page_locked 1) (fun _ => true) (lock_limit INT16_MAX).
Proof.
  split; [done|]. intros p (Hf & Hr & Hl) _. cbn. unfold lock_limit. cbn.
  destruct (Z.eqb_spec (vp_locked p) INT16_MAX); [done|]. split_and!; try done.
  - unfold upd_rel, attr_ok. cbn. split_and!; (done || lia).
  - intros u [= <-]. unfold set_locked. cbn. destruct p. cbn. do 2 f_equal. lia.
Qed.
Lemma declck_spec :
  op_spec declck_op (page_locked (-1)) (fun _ => true) (lock_limit INT16_MIN).
Proof.
  split; [done|]. intros p (Hf & Hr & Hl) _. cbn. unfold lock_limit. cbn.
  destruct (Z.eqb_spec (vp_locked p) INT16_MIN); [done|]. split_and!; try done.
  - unfold upd_rel, attr_ok. cbn. split_and!; (done || lia).
  - intros u [= <-]. unfold set_locked. cbn. destruct p. cbn. do 2 f_equal. lia.
Qed.

(** The mutex is released again. *)
Definition locked (d : Z) s : rstate := with_reg s (with_lock (rs_reg s) (vr_lock (rs_reg s) + d)).
Lemma region_ok_locked others d s : region_ok others s -> region_ok others (locked d s).
Proof. by intros []. Qed.
Lemma same_env_locked s s' :
  same_env (locked 1 s) s' -> same_env s (locked (-1) s').
Proof.
  intros (E & Hph & Hc). split_and!; [|done..]. destruct s as [[] ? ? ? ? ?], s' as [[] ? ? ? ? ?].
  unfold with_parts, locked in *. cbn in *. injection E as -> -> -> -> -> -> ->.
  f_equal. lia.
Qed.
Definition in_range s (first num : Z) : Prop :=
  0 <= first < size s /\ 0 <= num /\ first + num <= size s.
Lemma srun_locked_range others op pf pchk perr u s first num :
  op_spec op pf pchk perr -> po_undo op = Some u ->
  region_ok others s -> in_range s first num ->
  (forall i pg, first <= Z.of_nat i < first + num -> pages s !! i = Some pg -> pchk pg = true) ->
  srun (r ← region;
        scheck (first + num <=? vr_size r) ≫= fun _ =>
        mutex_get ≫= fun _ => sfinally (region_range op first num) mutex_put) s
    (fun _ s' => region_ok others s' /\ same_env s s' /\
       pages s' = map_range pf first num (pages s))
    (fun e s' => region_ok others s' /\ same_env s s' /\ pages s' = pages s /\
       (e = E_BADALLOC \/ exists i pg, first <= Z.of_nat i < first + num /\
          pages s !! i = Some pg /\ perr pg = Some e)).
Proof.
  intros Hop Hu Hok (Hf & Hn & He) Hchk. apply srun_bind, srun_region.
  apply srun_bind, srun_check; [unfold size in *; lia|]. apply srun_bind.
  change (srun mutex_get s ?Q ?R) with (Q tt (locked 1 s)). cbv beta. apply srun_finally.
  eapply srun_mono; [eapply (region_range_ok others op pf pchk perr Hop (locked 1 s)); try done;
    by apply region_ok_locked|..].
  - intros [] s' (Hok' & Henv & Hpg). change (srun mutex_put s' ?Q ?R) with (Q tt (locked (-1) s')).
    cbv beta. split_and!; [by apply region_ok_locked|by apply same_env_locked|done].
  - intros e s' (Hok' & Henv & Herr & Hres).
    change (srun mutex_put s' ?Q ?R) with (Q tt (locked (-1) s')). cbv beta. rewrite Hu in Hres.
    split_and!; [by apply region_ok_locked|by apply same_env_locked|done|done].
Qed.
End Proofs.
