(* ===== verification/RegionProps.v ===== *)
(** What the operations of [Region] guarantee, and their composition with the
    physical page allocator of [PageAlloc].

    The first section creates and destroys regions; the second makes the page
    allocator an instance of the interface [FrameAllocator]; the third states the
    properties, with instances of each on concrete regions. *)
From S2P Require Import Prelude.
From stdpp Require Import list relations.
From S2P Require Import PageAlloc Region.
#[local] Open Scope Z_scope.

(** * Ownership of physical pages *)
(** The physical pages that a region will free. *)
Definition own_frame (pg : page_info) : option Z :=
  if pg_weak pg then None else pg_frame pg.
Definition own_frames (l : list page_info) : list Z := omap own_frame l.

Section Life.
Context `{FA : FrameAllocator}.
Implicit Types s : rstate.

(** The region owns its pages: no page is described twice, and all are allocated. *)
Record frames_owned s : Prop := {
  fo_ok : frames_ok (rs_phys s);
  fo_nodup : NoDup (own_frames (pages s));
  fo_used : Forall (frame_used (rs_phys s)) (own_frames (pages s));
}.

Lemma omap_fmap {A B C} (f : B -> option C) (g : A -> B) (l : list A) :
  omap f (g <$> l) = omap (fun x => f (g x)) l.
Proof. induction l as [|x l IH]; cbn; [done|]. by rewrite IH. Qed.
Lemma own_frames_app l k : own_frames (l ++ k) = own_frames l ++ own_frames k.
Proof. apply omap_app. Qed.
(** Operations that keep the frames of the pages keep the ownership. *)
Lemma own_frames_map f a n l :
  (forall pg, own_frame (f pg) = own_frame pg) -> own_frames (map_range f a n l) = own_frames l.
Proof.
  intros Hf. unfold own_frames.
  assert (forall k, omap own_frame k = omap id (own_frame <$> k)) as Hid
    by (intros k; by rewrite omap_fmap).
  rewrite !Hid. f_equal. apply list_eq. intros i. rewrite !list_lookup_fmap, map_range_lookup.
  destruct (l !! i); cbn; [|done]. case_decide; by rewrite ?Hf.
Qed.
Lemma own_frames_part p len :
  own_frames (part_pages p len) =
  if bool_decide (vp_state p = VM_PART_INCORE) && negb (weak p)
  then frames_of (py_iscatter p) else [].
Proof.
  unfold own_frames, part_pages, part_frames. rewrite omap_fmap.
  assert (forall n, omap (fun f => own_frame (page_of p f)) (replicate n None) = []) as Hnone.
  { unfold own_frame. cbn. induction n as [|n IH]; [done|]. cbn. by destruct (weak p). }
  destruct (vp_state p) eqn:E; cbn -[frames_of]; try by rewrite Hnone.
  rewrite omap_fmap. unfold own_frame. cbn. destruct (weak p); cbn;
    by induction (frames_of _) as [|x l IH]; cbn; rewrite ?IH.
Qed.

(** ** Destruction *)
Definition with_phys s (f : frames_st) : rstate :=
  MkRs (rs_reg s) (rs_oracle s) (rs_live s) (rs_next s) f (rs_calls s).
(** [f'] is [f] without the pages [l]. *)
Definition released (f f' : frames_st) (l : list Z) : Prop :=
  frames_ok f' /\ forall p, frame_used f' p <-> frame_used f p /\ p ∉ l.
Lemma released_nil f : frames_ok f -> released f f [].
Proof. split; [done|]. intros p. rewrite elem_of_nil. naive_solver. Qed.
Lemma released_app f f1 f2 l k : released f f1 l -> released f1 f2 k -> released f f2 (l ++ k).
Proof.
  intros [_ H1] [? H2]. split; [done|]. intros p. rewrite H2, H1, elem_of_app. naive_solver.
Qed.
Lemma released_keeps f f1 l k :
  released f f1 l -> NoDup (l ++ k) -> Forall (frame_used f) (l ++ k) -> Forall (frame_used f1) k.
Proof.
  intros [_ H1] (_ & Hd & _)%NoDup_app Hu. apply Forall_app in Hu as [_ Hu].
  rewrite Forall_forall in Hu |- *. intros p Hp. apply H1. split; [by apply Hu|].
  intros Hl. by apply (Hd p).
Qed.

Lemma srun_free_scatter l : forall s (Q : unit -> rstate -> Prop) R,
  frames_ok (rs_phys s) -> Forall scatter_ok l -> NoDup (frames_of l) ->
  Forall (frame_used (rs_phys s)) (frames_of l) ->
  (forall f, released (rs_phys s) f (frames_of l) -> Q tt (with_phys s f)) ->
  srun (free_scatter l) s Q R.
Proof.
  induction l as [|e l IH]; intros s Q R Hok Hall Hnd Hu HQ.
  - apply srun_ret. destruct s. apply HQ. by apply released_nil.
  - apply Forall_cons in Hall as [(? & ? & ?) Hall].
    change (frames_of (e :: l)) with (seqZ (ps_addr e) (ps_size e) ++ frames_of l) in *.
    assert (forall p, p ∈ seqZ (ps_addr e) (ps_size e) <->
      ps_addr e <= p < ps_addr e + ps_size e) as Hin by (intros p; by rewrite elem_of_seqZ).
    destruct (frames_free_spec (rs_phys s) (ps_addr e) (ps_size e)) as (f & Hf & Hfok & Hfu); try done.
    { apply Forall_app in Hu as [Hu _]. rewrite Forall_forall in Hu. intros p Hp.
      by apply Hu, Hin. }
    assert (released (rs_phys s) f (seqZ (ps_addr e) (ps_size e))) as Hrel.
    { split; [done|]. intros p. by rewrite Hfu, Hin. }
    apply srun_bind. unfold frame_free. apply srun_bind.
    change (srun sget s ?Q' ?R') with (Q' s s). cbv beta. apply srun_bind.
    apply srun_lift with (a := f); [done|].
    change (srun (set_phys f) s ?Q' ?R') with (Q' tt (with_phys s f)). cbv beta.
    apply IH; try done.
    + by apply NoDup_app in Hnd as (_ & _ & ?).
    + by eapply released_keeps.
    + intros f' Hf'. apply (HQ f'). by eapply released_app.
Qed.

(** What destroying the parts [l] leaves: the heap blocks [rest] and the pages that
    do not belong to the parts. *)
Definition parts_freed s (rest : list nat) (l : list Z) s' : Prop :=
  rs_reg s' = rs_reg s /\ rs_calls s' = rs_calls s /\ heap_ok s' /\ rs_live s' ≡ₚ rest /\
  released (rs_phys s) (rs_phys s') l.

Lemma srun_part_free p rest s (Q : unit -> rstate -> Prop) R :
  heap_ok s -> rs_live s ≡ₚ rest ++ part_blocks [p] ->
  (forall s', same_but_heap s s' -> heap_ok s' -> rs_live s' ≡ₚ rest -> Q tt s') ->
  srun (part_free p) s Q R.
Proof.
  unfold part_free, part_blocks. cbn. intros Hh Hl HQ. destruct (vp_block p) as [b|].
  - apply (srun_kfree b rest); [done| |done]. by rewrite Hl, Permutation_app_comm.
  - apply srun_ret. apply HQ; [done|done|]. by rewrite Hl, app_nil_r.
Qed.
Lemma srun_part_pages p len s (Q : unit -> rstate -> Prop) R :
  part_ok p len -> frames_ok (rs_phys s) -> NoDup (own_frames (part_pages p len)) ->
  Forall (frame_used (rs_phys s)) (own_frames (part_pages p len)) ->
  (forall f, released (rs_phys s) f (own_frames (part_pages p len)) -> Q tt (with_phys s f)) ->
  srun (match vp_state p with
        | VM_PART_INCORE =>
            if negb (Z.land (vp_flags p) VM_PART_FWEAKREF =? 0) then mret tt
            else free_scatter (py_iscatter p)
        | _ => mret tt
        end) s Q R.
Proof.
  intros (_ & _ & Hin) Hok. rewrite own_frames_part. change (negb (_ =? 0)) with (weak p).
  assert (forall Q : unit -> rstate -> Prop,
    (forall f, released (rs_phys s) f [] -> Q tt (with_phys s f)) ->
    srun (mret tt : SM rstate unit) s Q R) as Hskip.
  { intros Q' HQ. apply srun_ret. destruct s. apply HQ. by apply released_nil. }
  destruct (vp_state p), (weak p); cbn -[srun mret free_scatter frames_of]; intros Hnd Hu HQ;
    try by apply Hskip.
  destruct (Hin eq_refl) as (_ & Hall & _). by apply srun_free_scatter.
Qed.
Lemma destroy_parts_ok l : forall s start rest,
  parts_wf start l (size s) -> heap_ok s -> rs_live s ≡ₚ rest ++ part_blocks l ->
  frames_ok (rs_phys s) -> NoDup (own_frames (pages_of l (size s))) ->
  Forall (frame_used (rs_phys s)) (own_frames (pages_of l (size s))) ->
  srun (destroy_parts l) s
    (fun _ s' => parts_freed s rest (own_frames (pages_of l (size s))) s') (fun _ _ => False).
Proof.
  induction l as [|p l IH]; intros s start rest Hwf Hh Hl Hok Hnd Hu.
  - apply srun_ret. split_and!; try done. { by rewrite Hl, app_nil_r. } by apply released_nil.
  - destruct Hwf as (<- & Hp & Hwf). cbn [pages_of] in *. rewrite own_frames_app in Hnd, Hu |- *.
    cbn [destroy_parts]. apply srun_bind. eapply srun_part_pages; [done|done| | |].
    { by apply NoDup_app in Hnd as (? & _ & _). } { by apply Forall_app in Hu as [? _]. }
    intros f Hf. apply srun_bind. apply (srun_part_free p (rest ++ part_blocks l)).
    { done. } { cbn. rewrite Hl. unfold part_blocks. cbn. destruct (vp_block p); solve_Permutation. }
    intros s1 (Hr1 & Hp1 & Hc1) Hh1 Hl1. cbn in Hr1, Hp1, Hc1.
    assert (size s1 = size s) as Hsz by (unfold size; by rewrite Hr1).
    eapply srun_mono; [apply (IH s1 (part_end l (size s)) rest); rewrite ?Hsz, ?Hp1; try done|..].
    + apply Hf.
    + by apply NoDup_app in Hnd as (_ & _ & ?).
    + by eapply released_keeps.
    + intros [] s' (Hr & Hc & Hh' & Hl' & Hrel). rewrite Hsz, Hp1 in Hrel.
      split_and!; try congruence. by eapply released_app.
    + done.
Qed.

(** What else the destructor calls. *)
Definition fini_calls (r : vm_region) : list region_call :=
  match vr_init r with
  | VM_REGION_INIT_FFILE (Some node) _ _ _ _ | VM_REGION_INIT_FFILE_RO (Some node) _ _ _ _ =>
      [CallInodeDecref node]
  | VM_REGION_INIT_FUSER (Some f) closure delta =>
      [CallUserDecref f closure delta (vr_size r * 4096)]
  | VM_REGION_INIT_FVIO ops true closure => [CallVioFini ops closure]
  | _ => []
  end.

Lemma srun_call c s (Q : unit -> rstate -> Prop) R :
  (forall s', rs_reg s' = rs_reg s -> rs_live s' = rs_live s -> rs_next s' = rs_next s ->
     rs_phys s' = rs_phys s -> rs_calls s' = rs_calls s ++ [c] -> Q tt s') ->
  srun (call c) s Q R.
Proof. intros HQ. by apply HQ. Qed.
(** What the destructor of a region leaves; a region that belongs to a corebase is
    given back to it instead of being freed. *)
Definition destroyed (others : list nat) s s' : Prop :=
  let core := negb (Z.land (vr_flags (rs_reg s)) VM_REGION_FCOREREGION =? 0) in
  let b := vr_block (rs_reg s) in
  rs_live s' ≡ₚ others ++ (if core then [b] else []) /\
  rs_calls s' = rs_calls s ++ fini_calls (rs_reg s) ++ (if core then [CallCorebaseDecref b] else []) /\
  released (rs_phys s) (rs_phys s') (own_frames (pages s)).
Lemma region_free_ok s s0 others :
  heap_ok s -> rs_reg s = rs_reg s0 ->
  Z.land (vr_flags (rs_reg s0)) VM_REGION_FIMMUTABLE = 0 ->
  rs_live s ≡ₚ others ++ [vr_block (rs_reg s0)] ->
  rs_calls s = rs_calls s0 ++ fini_calls (rs_reg s0) ->
  released (rs_phys s0) (rs_phys s) (own_frames (pages s0)) ->
  srun vm_region_free s (fun _ s' => destroyed others s0 s') (fun _ _ => False).
Proof.
  intros Hh Hr Him Hl Hc Hrel. unfold vm_region_free. apply srun_bind, srun_region.
  rewrite Hr. apply srun_bind, srun_check; [by apply Z.eqb_eq|].
  unfold destroyed. destruct (negb (_ =? 0)).
  - apply srun_bind.
    change (srun (set_region ?r) s ?Q ?R) with (Q tt (with_reg s r)). cbv beta. apply srun_call.
    cbn. intros s' _ Hl' _ Hp' Hc'. rewrite Hl', Hp', Hc', Hc, <- app_assoc. by split_and!.
  - apply (srun_kfree _ others).
    { done. } { by rewrite Hl, Permutation_app_comm. }
    intros s' (_ & Hp' & Hc') _ Hl'. rewrite Hl', Hp', Hc', Hc, !app_nil_r. by split_and!.
Qed.
Lemma region_destroy_ok others s :
  region_ok others s -> frames_owned s -> Z.land (vr_flags (rs_reg s)) VM_REGION_FIMMUTABLE = 0 ->
  srun vm_region_destroy s (fun _ s' => destroyed others s s') (fun _ _ => False).
Proof.
  intros Hok [Hf Hnd Hu] Him. pose proof (region_ok_heap _ _ Hok) as Hh.
  unfold vm_region_destroy. apply srun_bind, srun_region, srun_bind.
  eapply srun_mono; [apply (destroy_parts_ok _ s 0 (others ++ [vr_block (rs_reg s)]))|..]; try done.
  { apply Hok. } { rewrite (ro_live _ _ Hok), <- app_assoc. done. }
  intros [] s1 (Hr & Hc & Hh1 & Hl1 & Hrel). apply srun_bind.
  assert (forall s2, rs_reg s2 = rs_reg s1 -> rs_live s2 = rs_live s1 -> rs_next s2 = rs_next s1 ->
    rs_phys s2 = rs_phys s1 -> rs_calls s2 = rs_calls s1 ++ fini_calls (rs_reg s) ->
    srun vm_region_free s2 (fun _ s' => destroyed others s s') (fun _ _ => False)) as Hfree.
  { intros s2 Hr2 Hl2 Hn2 Hp2 Hc2. apply region_free_ok;
      [unfold heap_ok; by rewrite Hl2, Hn2|congruence|done|by rewrite Hl2|by rewrite Hc2, Hc|
       by rewrite Hp2]. }
  unfold fini_calls in Hfree.
  destruct (vr_init (rs_reg s)) as [| | |[n|]|[n|]|[f|]|ops [] ?]; first
    [ by apply srun_call
    | apply srun_ret, Hfree; by rewrite ?app_nil_r ].
Qed.

(** ** Creation *)
(** A new region: nothing is in core, and no page is referenced or locked. *)
Definition new_page : page_info := MkPage 0 0 VM_PART_MISSING None false.
Definition created (others : list nat) s (n : Z) (r : region_init) s' : Prop :=
  region_ok others s' /\ size s' = n /\ pages s' = replicate (Z.to_nat n) new_page /\
  vr_init (rs_reg s') = r /\ vr_refcnt (rs_reg s') = 1 /\ vr_lock (rs_reg s') = 0 /\
  rs_phys s' = rs_phys s.
Lemma region_alloc_ok s n :
  heap_ok s -> 0 < n ->
  srun (vm_region_alloc n) s
    (fun _ s' => created (rs_live s) s n VM_REGION_INIT_FNORMAL s' /\
       vr_flags (rs_reg s') = 0 /\ rs_calls s' = rs_calls s)
    (fun e s' => e = E_BADALLOC /\ s' = asked s).
Proof.
  intros Hh Hn. unfold vm_region_alloc. apply srun_bind, srun_kmalloc; [|done].
  pose proof (fresh_heap_ok s Hh) as [Hnd Hnext].
  change (srun (set_region ?r) ?s ?Q ?R) with (Q tt (with_reg s r)). cbv beta.
  split; [|done]. split; [|split; [done|split; [|done]]].
  - split; cbn -[part_blocks]; try done.
    + unfold part_ok, attr_ok. cbn. unfold INT16_MIN, INT16_MAX. split_and!; done || lia.
    + cbn. by rewrite Permutation_app_comm.
    + exists false. by repeat constructor.
  - unfold pages, region_pages. cbn. rewrite app_nil_r, Z.sub_0_r. unfold part_pages, part_frames.
    cbn. by rewrite fmap_replicate.
Qed.
Lemma created_init others s n i s' t j f :
  created others s n i s' ->
  created others s n j (with_reg s' (with_init (rs_reg s') t j f)).
Proof. intros ([] & ? & ? & _ & ? & ? & ?). by repeat split. Qed.
Lemma region_alloc_file_ok s n wb node begin start fsize filler :
  heap_ok s -> 0 < n ->
  srun (vm_region_alloc_file n wb node begin start fsize filler) s
    (fun _ s' => created (rs_live s) s n
       (if wb then VM_REGION_INIT_FFILE (Some node) begin start fsize filler
        else VM_REGION_INIT_FFILE_RO (Some node) begin start fsize filler) s' /\
       vr_flags (rs_reg s') = 0 /\ rs_calls s' = rs_calls s ++ [CallInodeIncref node])
    (fun e s' => e = E_BADALLOC /\ s' = asked s).
Proof.
  intros Hh Hn. unfold vm_region_alloc_file. apply srun_bind.
  eapply srun_mono; [by apply region_alloc_ok| |done].
  intros [] s' (Hc & Hf & Hcalls). apply srun_bind, srun_call.
  intros s2 Hr2 Hl2 Hn2 Hp2 Hc2. apply srun_bind, srun_region.
  change (srun (set_region ?r) ?s ?Q ?R) with (Q tt (with_reg s r)). cbv beta.
  rewrite Hr2. split_and!; [|done|cbn; by rewrite Hc2, Hcalls].
  apply (created_init _ _ _ _ _ (vr_type (rs_reg s'))
    (if wb then VM_REGION_INIT_FFILE (Some node) begin start fsize filler
     else VM_REGION_INIT_FFILE_RO (Some node) begin start fsize filler) (vr_flags (rs_reg s'))) in Hc.
  destruct Hc as ([] & ? & ? & ? & ? & ? & ?). repeat split; cbn in *; try done;
    rewrite ?Hl2, ?Hn2, ?Hp2; done.
Qed.
Lemma region_alloc_vio_ok s n ops has_fini closure :
  heap_ok s -> 0 < n ->
  srun (vm_region_alloc_vio n ops has_fini closure) s
    (fun _ s' => created (rs_live s) s n (VM_REGION_INIT_FVIO ops has_fini closure) s' /\
       vr_type (rs_reg s') = VM_REGION_VIO /\ vr_flags (rs_reg s') = VM_REGION_FDONTMERGE /\
       rs_calls s' = rs_calls s)
    (fun e s' => e = E_BADALLOC /\ s' = asked s).
Proof.
  intros Hh Hn. unfold vm_region_alloc_vio. apply srun_bind.
  eapply srun_mono; [by apply region_alloc_ok| |done].
  intros [] s' (Hc & Hf & Hcalls). apply srun_bind, srun_region.
  change (srun (set_region ?r) ?s ?Q ?R) with (Q tt (with_reg s r)). cbv beta.
  rewrite Hf. split_and!; [by eapply created_init|done..].
Qed.

(** Filling the pages of a region that has one part. *)
Definition core_page (p : vm_part) (f : Z) : page_info :=
  MkPage (vp_refcnt p) (vp_locked p) VM_PART_INCORE (Some f) (weak p).
Lemma own_core_pages p l :
  own_frames (core_page p <$> l) = if weak p then [] else l.
Proof.
  unfold own_frames, core_page, own_frame. rewrite omap_fmap. cbn.
  destruct (weak p); induction l as [|f l IH]; cbn; by rewrite ?IH.
Qed.
Lemma region_prefault_ok others s p :
  region_ok others s -> parts s = [p] -> frames_ok (rs_phys s) ->
  frames_malloc (rs_phys s) (size s) <> Panic ->
  srun vm_region_prefault s
    (fun _ s' => region_ok others s' /\ frames_owned s' /\ same_env (with_phys s (rs_phys s')) s' /\
       exists base, pages s' = core_page p <$> seqZ base (size s) /\
         (forall f, frame_used (rs_phys s') f <-> frame_used (rs_phys s) f \/ f ∈ seqZ base (size s)))
    (fun e s' => e = E_BADALLOC /\ same_env s s' /\ pages s' = []).
Proof.
  intros Hok Hp Hf Hnp. pose proof (frames_malloc_spec (rs_phys s) (size s) Hf (ro_size _ _ Hok)) as Hm.
  unfold vm_region_prefault. apply srun_bind, srun_get_part with (p := p). { by rewrite Hp. }
  apply srun_bind, srun_set_part. rewrite Hp. cbn [list_insert insert].
  apply srun_bind, srun_region. apply srun_bind. unfold frame_malloc. apply srun_bind.
  set (s1 := setp s _). change (srun sget s1 ?Q' ?R') with (Q' s1 s1). cbv beta.
  change (rs_phys s1) with (rs_phys s). change (vr_size (rs_reg s1)) with (size s).
  destruct (frames_malloc (rs_phys s) (size s)) as [[f r]|e|] eqn:E; [|done|done].
  apply srun_bind. apply srun_lift with (a := (f, r)); [done|]. apply srun_bind.
  change (srun (set_phys ?f) ?s ?Q' ?R') with (Q' tt (with_phys s f)). cbv beta. cbn [snd fst].
  pose proof (ro_parts _ _ Hok) as Hwf. unfold parts in Hp. rewrite Hp in Hwf.
  destruct Hwf as (Hst & Hpok & _). cbn in Hst, Hpok. change (vr_size (rs_reg s)) with (size s) in Hpok.
  destruct r as [e|base].
  - destruct Hm as [-> ->]. apply srun_throw. split_and!; try done.
  - destruct Hm as (Hfok & Hb & Hbn & Hfree & Hused). apply srun_ret, srun_set_part.
    assert (pages (setp (with_phys s1 f) [MkPart (vp_block p) (vp_refcnt p) (vp_start p)
      VM_PART_INCORE (vp_flags p) (vp_locked p) [MkScatter base (size s)]])
      = core_page p <$> seqZ base (size s)) as Hpg.
    { rewrite pages_setp. cbn. unfold part_pages, part_frames. cbn. rewrite !app_nil_r.
      by rewrite <- list_fmap_compose. }
    unfold s1 in *. cbn [parts with_phys setp with_reg rs_reg with_parts vr_parts list_insert insert].
    split; [|split; [|split; [done|]]].
    + destruct Hok. split; try done; cbn -[part_blocks] in *; rewrite ?Hp in *; try done.
      * split; [done|]. split; [|done]. split; [apply Hpok|]. split; [apply Hpok|].
        intros _. unfold size in *. cbn in *. split_and!; [done| |lia].
        repeat constructor; cbn; lia.
      * by exists (weak p); repeat constructor.
    + split; [done|rewrite Hpg, own_core_pages..].
      * destruct (weak p); [constructor|apply NoDup_seqZ].
      * destruct (weak p); [done|]. rewrite Forall_forall. intros g Hg. apply Hused. right.
        by apply elem_of_seqZ.
    + exists base. split; [done|]. intros g. cbn. rewrite elem_of_seqZ. apply Hused.
Qed.

(** ** Sequences of operations *)
Definition ends {A} (m : SM rstate A) s s' : Prop :=
  match m s with SRet _ s1 | SThrow _ s1 => s1 = s' | SPanic => False end.
Lemma srun_ends {A} (m : SM rstate A) s s' Q R (P : Prop) :
  srun m s Q R -> ends m s s' -> (forall a, Q a s' -> P) -> (forall e, R e s' -> P) -> P.
Proof. unfold srun, ends. destruct (m s); [intros ? -> ?..|done]; naive_solver. Qed.
Definition referenced s (first num : Z) : Prop :=
  forall i pg, first <= Z.of_nat i < first + num -> pages s !! i = Some pg -> 0 < pg_refcnt pg.
(** An operation on a range, whether it returns or throws. *)
Inductive region_step s : rstate -> Prop :=
| step_incref first num s' : in_range s first num ->
    ends (vm_region_incref_range first num) s s' -> region_step s s'
| step_decref first num s' : in_range s first num -> referenced s first num ->
    ends (vm_region_decref_range first num) s s' -> region_step s s'
| step_inclck first num s' : in_range s first num ->
    ends (vm_region_inclck_range first num) s s' -> region_step s s'
| step_declck first num s' : in_range s first num ->
    ends (vm_region_declck_range first num) s s' -> region_step s s'.

(** What an operation on a range keeps of a region. *)
Record same_life s s' : Prop := {
  sl_block : vr_block (rs_reg s') = vr_block (rs_reg s);
  sl_init : vr_init (rs_reg s') = vr_init (rs_reg s);
  sl_size : vr_size (rs_reg s') = vr_size (rs_reg s);
  sl_core : Z.land (vr_flags (rs_reg s')) VM_REGION_FCOREREGION =
            Z.land (vr_flags (rs_reg s)) VM_REGION_FCOREREGION;
  sl_immutable : Z.land (vr_flags (rs_reg s')) VM_REGION_FIMMUTABLE =
                 Z.land (vr_flags (rs_reg s)) VM_REGION_FIMMUTABLE;
  sl_phys : rs_phys s' = rs_phys s;
  sl_calls : rs_calls s' = rs_calls s;
  sl_frames : own_frames (pages s') = own_frames (pages s);
}.
#[export] Instance same_life_refl : Reflexive same_life.
Proof. by split. Qed.
#[export] Instance same_life_trans : Transitive same_life.
Proof. intros s1 s2 s3 [] []. split; congruence. Qed.
Lemma same_env_life s s' :
  same_env s s' -> own_frames (pages s') = own_frames (pages s) -> same_life s s'.
Proof. intros ([=] & ? & ?) ?. split; congruence. Qed.
Lemma same_life_owned s s' : same_life s s' -> frames_owned s -> frames_owned s'.
Proof. intros [] []. split; congruence. Qed.
Lemma same_life_destroyed others s s1 s2 :
  same_life s s1 -> destroyed others s1 s2 -> destroyed others s s2.
Proof.
  intros []. unfold destroyed, fini_calls. by rewrite sl_block0, sl_init0, sl_size0, sl_core0,
    sl_phys0, sl_calls0, sl_frames0.
Qed.

(** ** The operations on a range *)
(** [vm_region_decref_range], when it has decremented the first [m] pages. *)
Definition decref_post (others : list nat) s (first num : Z) s' : Prop :=
  region_ok others s' /\ exists m leaking, 0 <= m <= num /\
    pages s' = map_range (page_refcnt (-1)) first m (pages s) /\
    (leaking = false -> m = num) /\
    rs_phys s' = rs_phys s /\ rs_calls s' = rs_calls s /\
    with_parts (rs_reg s') [] =
      with_parts (if (leaking : bool)
        then with_flags (rs_reg s) (Z.lor (vr_flags (rs_reg s)) VM_REGION_FLEAKINGPARTS)
        else rs_reg s) [].
(** An operation that ran out of memory has changed no page. *)
Definition unchanged (others : list nat) s (e : error_code) s' : Prop :=
  e = E_BADALLOC /\ region_ok others s' /\ same_env s s' /\ pages s' = pages s.
Lemma incref_ok others s first num :
  region_ok others s -> in_range s first num ->
  srun (vm_region_incref_range first num) s
    (fun _ s' => region_ok others s' /\ same_env s s' /\
       pages s' = map_range (page_refcnt 1) first num (pages s))
    (unchanged others s).
Proof.
  intros Hok Hr. eapply srun_mono; [by eapply (srun_locked_range _ _ _ _ _ _ _ _ _ incref_spec)|done|].
  intros e s' (Hok' & Henv & Hpg & Herr). split_and!; try done.
  destruct Herr as [?|(i & pg & _ & _ & [=])]; done.
Qed.
Lemma decref_ok others s first num :
  region_ok others s -> in_range s first num -> referenced s first num ->
  srun (vm_region_decref_range first num) s
    (fun _ s' => decref_post others s first num s') (fun _ _ => False).
Proof.
  intros Hok (Hf & Hn & He) Hrc. unfold vm_region_decref_range. apply srun_bind, srun_region.
  apply srun_bind, srun_check; [unfold size in *; lia|]. apply srun_bind.
  change (srun mutex_get s ?Q ?R) with (Q tt (locked 1 s)). cbv beta.
  apply srun_catch, srun_bind.
  eapply srun_mono; [eapply (region_range_ok others decref_op _ _ _ decref_spec (locked 1 s)); try done|..].
  - by apply region_ok_locked.
  - intros i pg Hi Hl. specialize (Hrc i pg Hi Hl). lia.
  - intros [] s' (Hok' & Henv & Hpg). change (srun mutex_put s' ?Q ?R) with (Q tt (locked (-1) s')).
    cbv beta. apply same_env_locked in Henv as (E & Hph & Hc).
    split; [by apply region_ok_locked|]. exists num, false. split_and!; (done || lia).
  - intros e s' (Hok' & Henv & Herr & m & Hm & Hpg).
    assert (e = E_BADALLOC) as -> by (destruct Herr as [?|(i & pg & _ & _ & [=])]; done).
    apply same_env_locked in Henv as (E & Hph & Hc). split.
    + by destruct Hok'.
    + exists m, true. split_and!; try done; try lia.
      destruct s as [[] ? ? ? ? ?], s' as [[] ? ? ? ? ?]. unfold with_parts, locked in *.
      cbn in *. injection E as E1 E2 E3 E4 E5 E6 E7. subst. f_equal; lia.
Qed.
(** A change of the lock counts by [d], which fails at a page whose count is [limit]. *)
Definition lock_post (others : list nat) (d : Z) s (first num : Z) (_ : unit) s' : Prop :=
  region_ok others s' /\ same_env s s' /\
  pages s' = map_range (page_locked d) first num (pages s).
Definition lock_failed (others : list nat) (limit : Z) s (first num : Z) (e : error_code) s' : Prop :=
  region_ok others s' /\ same_env s s' /\ pages s' = pages s /\
  (e = E_BADALLOC \/
   e = E_OVERFLOW /\ exists i pg, first <= Z.of_nat i < first + num /\
     pages s !! i = Some pg /\ pg_locked pg = limit).
Lemma lock_limit_error others limit s first num e s' :
  region_ok others s' /\ same_env s s' /\ pages s' = pages s /\
  (e = E_BADALLOC \/ exists i pg, first <= Z.of_nat i < first + num /\
     pages s !! i = Some pg /\ lock_limit limit pg = Some e) ->
  lock_failed others limit s first num e s'.
Proof.
  intros (? & ? & ? & Herr). split_and!; try done. destruct Herr as [?|(i & pg & Hi & Hpg & He)];
    [by left|right]. unfold lock_limit in He. destruct (Z.eqb_spec (pg_locked pg) limit); [|done].
  injection He as <-. split; [done|]. by exists i, pg.
Qed.
Lemma inclck_ok others s first num :
  region_ok others s -> in_range s first num ->
  srun (vm_region_inclck_range first num) s (lock_post others 1 s first num)
    (lock_failed others INT16_MAX s first num).
Proof.
  intros Hok Hr. eapply srun_mono; [by eapply (srun_locked_range _ _ _ _ _ _ _ _ _ inclck_spec)|done|].
  intros e s'. apply lock_limit_error.
Qed.
Lemma declck_ok others s first num :
  region_ok others s -> in_range s first num ->
  srun (vm_region_declck_range first num) s (lock_post others (-1) s first num)
    (lock_failed others INT16_MIN s first num).
Proof.
  intros Hok Hr. eapply srun_mono; [by eapply (srun_locked_range _ _ _ _ _ _ _ _ _ declck_spec)|done|].
  intros e s'. apply lock_limit_error.
Qed.

Lemma leaking_flags (f k : Z) :
  Z.land VM_REGION_FLEAKINGPARTS k = 0 ->
  Z.land (Z.lor f VM_REGION_FLEAKINGPARTS) k = Z.land f k.
Proof. intros Hk. by rewrite Z.land_lor_distr_l, Hk, Z.lor_0_r. Qed.
Lemma decref_life others s first num s' :
  decref_post others s first num s' -> region_ok others s' /\ same_life s s'.
Proof.
  intros (Hok & m & leaking & _ & Hpg & _ & Hph & Hc & E). split; [done|].
  unfold with_parts in E. destruct leaking; injection E as E1 E2 E3 E4 E5 E6 E7;
    split; rewrite ?E6, ?Hpg, ?own_frames_map; try done; by apply leaking_flags.
Qed.
Lemma region_step_ok others s s' :
  region_ok others s -> region_step s s' -> region_ok others s' /\ same_life s s'.
Proof.
  intros Hok [first num s1 Hr He|first num s1 Hr Href He|first num s1 Hr He|first num s1 Hr He].
  - eapply srun_ends; [by eapply incref_ok|done| |].
    + intros [] (? & ? & Hpg). split; [done|]. apply same_env_life; [done|].
      by rewrite Hpg, own_frames_map.
    + intros e (_ & ? & ? & Hpg). split; [done|]. apply same_env_life; [done|]. by rewrite Hpg.
  - eapply srun_ends; [by eapply decref_ok|done| |done]. intros []. apply decref_life.
  - eapply srun_ends; [by eapply inclck_ok|done| |].
    + intros [] (? & ? & Hpg). split; [done|]. apply same_env_life; [done|].
      by rewrite Hpg, own_frames_map.
    + intros e (? & ? & Hpg & _). split; [done|]. apply same_env_life; [done|]. by rewrite Hpg.
  - eapply srun_ends; [by eapply declck_ok|done| |].
    + intros [] (? & ? & Hpg). split; [done|]. apply same_env_life; [done|].
      by rewrite Hpg, own_frames_map.
    + intros e (? & ? & Hpg & _). split; [done|]. apply same_env_life; [done|]. by rewrite Hpg.
Qed.
Lemma region_steps_ok others s s' :
  region_ok others s -> rtc region_step s s' -> region_ok others s' /\ same_life s s'.
Proof.
  intros Hok H. induction H as [s|s s1 s' Hstep _ IH]; [done|].
  destruct (region_step_ok _ _ _ Hok Hstep) as [Hok1 Hl1]. destruct (IH Hok1) as [Hok' Hl].
  split; [done|]. by etransitivity.
Qed.
End Life.

(** * The page allocator as a source of frames *)
(** [MZONE_ANY] is the last zone. *)
Definition zones_ok (zs : list mzone) : Prop := Forall zone_wf zs /\ zones_sorted zs /\ zs <> [].
Definition zone_used (zs : list mzone) (p : Z) : Prop :=
  exists i z, zs !! i = Some z /\ mz_min z <= p <= mz_max z /\ is_free z (p - mz_min z) = false.

(** A page lies in at most one zone. *)
Lemma zones_disjoint zs i j x y p :
  zones_sorted zs -> zs !! i = Some x -> zs !! j = Some y ->
  mz_min x <= p <= mz_max x -> mz_min y <= p <= mz_max y -> i = j.
Proof.
  intros Hs Hx Hy Hpx Hpy. destruct (Nat.lt_trichotomy i j) as [Hlt|[?|Hlt]]; [|done|].
  - specialize (Hs i j x y Hlt Hx Hy). lia.
  - specialize (Hs j i y x Hlt Hy Hx). lia.
Qed.
Lemma zone_used_taken zs i z z' a n p :
  zones_ok zs -> zs !! i = Some z -> taken z z' a n ->
  (mz_min z + a <= p < mz_min z + a + n -> ~ zone_used zs p) /\
  (zone_used (<[i := z']> zs) p <-> zone_used zs p \/ mz_min z + a <= p < mz_min z + a + n).
Proof.
  intros (Hwf & Hs & _) Hz (Hwf' & (Hmin & Hmax & _) & Ha & Han & Hrun & Hbits).
  unfold mz_pages in *. pose proof (lookup_lt_Some _ _ _ Hz) as Hlt.
  assert (forall q, mz_min z <= q -> PageAlloc.in_range a n (q - mz_min z) = true <->
    mz_min z + a <= q < mz_min z + a + n) as Hir by (intros; unfold PageAlloc.in_range; lia).
  split; [|split].
  - intros Hp (j & y & Hy & Hpy & Hf).
    assert (j = i) as -> by (eapply zones_disjoint; try done; lia). simplify_eq.
    rewrite Hrun in Hf; [done|]. apply Hir; lia.
  - intros (j & y & Hy & Hpy & Hf). destruct (decide (j = i)) as [->|Hne].
    + rewrite list_lookup_insert_eq in Hy by done. injection Hy as <-. rewrite Hmin, Hmax in *.
      rewrite Hbits in Hf by lia. apply andb_false_iff in Hf as [Hf|Hf].
      * left. by exists i, z.
      * right. apply negb_false_iff in Hf. apply Hir; [lia|done].
    + rewrite list_lookup_insert_ne in Hy by done. left. by exists j, y.
  - intros [(j & y & Hy & Hpy & Hf)|Hp].
    + destruct (decide (j = i)) as [->|Hne].
      * simplify_eq. exists i, z'. rewrite list_lookup_insert_eq by done. rewrite Hmin, Hmax.
        split_and!; try done; try lia. rewrite Hbits by lia. by rewrite Hf.
      * exists j, y. by rewrite list_lookup_insert_ne.
    + exists i, z'. rewrite list_lookup_insert_eq by done. rewrite Hmin, Hmax.
      split; [done|]. split; [lia|]. rewrite Hbits by lia.
      rewrite (proj2 (Hir p ltac:(lia)) Hp). by rewrite andb_false_r.
Qed.
Lemma zones_ok_taken zs i z z' a n :
  zones_ok zs -> zs !! i = Some z -> taken z z' a n -> zones_ok (<[i := z']> zs).
Proof.
  intros (Hwf & Hs & Hne) Hz (Hwf' & Hsp & _). split_and!.
  - by apply Forall_insert.
  - by eapply zones_sorted_insert.
  - intros E%(f_equal length). rewrite length_insert in E. by destruct zs.
Qed.
Lemma zones_ok_freed zs zs' base n :
  zones_ok zs -> Forall2 (freed base n) zs zs' -> zones_ok zs'.
Proof.
  intros (Hwf & Hs & Hne) Hf. split_and!.
  - apply Forall_lookup. intros i x Hx.
    by destruct (Forall2_lookup_r _ _ _ _ _ Hf Hx) as (? & _ & ? & _).
  - intros i j x y Hij Hx Hy.
    destruct (Forall2_lookup_r _ _ _ _ _ Hf Hx) as (x0 & Hx0 & _ & (Hm1 & Hm2 & _) & _).
    destruct (Forall2_lookup_r _ _ _ _ _ Hf Hy) as (y0 & Hy0 & _ & (Hm3 & Hm4 & _) & _).
    specialize (Hs i j x0 y0 Hij Hx0 Hy0). lia.
  - by destruct Hf.
Qed.
Lemma zone_used_freed zs zs' base n p :
  Forall2 (freed base n) zs zs' ->
  zone_used zs' p <-> zone_used zs p /\ ~ base <= p < base + n.
Proof.
  intros Hf. split.
  - intros (i & z' & Hz' & Hp & Hfr).
    destruct (Forall2_lookup_r _ _ _ _ _ Hf Hz') as (z & Hz & _ & (Hm1 & Hm2 & _) & Hb).
    rewrite Hm1, Hm2 in *. unfold mz_pages in Hb. rewrite Hb in Hfr by lia.
    apply orb_false_iff in Hfr as [? Hr]. split; [by exists i, z|].
    unfold PageAlloc.in_range in Hr. lia.
  - intros [(i & z & Hz & Hp & Hfr) Hn].
    destruct (Forall2_lookup_l _ _ _ _ _ Hf Hz) as (z' & Hz' & _ & (Hm1 & Hm2 & _) & Hb).
    exists i, z'. rewrite Hm1, Hm2. split; [done|]. split; [done|]. unfold mz_pages in Hb.
    rewrite Hb, Hfr by lia. unfold PageAlloc.in_range. cbn. lia.
Qed.

Definition zones_malloc (zs : list mzone) (n : Z) : outcome (list mzone * (error_code + Z)) :=
  PageAlloc.page_malloc zs n (pred (length zs)).
Lemma zones_malloc_ok zs n :
  zones_ok zs -> 0 < n ->
  match zones_malloc zs n with
  | Ret (zs', inr base) =>
      zones_ok zs' /\ 0 <= base /\ base + n < 2 ^ 32 /\
      (forall p, base <= p < base + n -> ~ zone_used zs p) /\
      (forall p, zone_used zs' p <-> zone_used zs p \/ base <= p < base + n)
  | Ret (zs', inl e) => e = E_BADALLOC /\ zs' = zs
  | Panic => 1 < n
  | Throw _ => False
  end.
Proof.
  intros Hok Hn. pose proof Hok as (Hwf & Hs & Hne).
  assert (pred (length zs) < length zs)%nat as Hid by (destruct zs; [done|cbn; lia]).
  pose proof (page_malloc_zones_ok _ zs n n Hwf Hid ltac:(lia)) as H.
  unfold zones_malloc, PageAlloc.page_malloc, page_malloc_part. rewrite bind_kassert by lia.
  rewrite bind_kassert by (by apply bool_decide_eq_true). unfold search_post in H.
  destruct (page_malloc_zones _ _ _ _) as [[zs' [[b m]|]]| |]; cbn in *; [|naive_solver..].
  destruct H as (i & z & z' & a & Hi & Hz & -> & -> & Ht & Hm). replace m with n in * by lia.
  pose proof (Forall_lookup_1 _ _ _ _ Hwf Hz) as Hzwf. cbn in Hzwf.
  pose proof (wf_min _ Hzwf). pose proof (wf_max _ Hzwf).
  pose proof Ht as (_ & _ & ? & Hend & _). unfold mz_pages in Hend.
  split_and!; [by eapply zones_ok_taken|lia|lia|..];
    intros p; by apply (zone_used_taken zs i z z' a n p).
Qed.
Lemma zones_free_ok zs base n :
  zones_ok zs -> 0 <= base -> 0 <= n -> base + n < 2 ^ 32 ->
  (forall p, base <= p < base + n -> zone_used zs p) ->
  exists zs', PageAlloc.page_free zs base n = Ret zs' /\ zones_ok zs' /\
    forall p, zone_used zs' p <-> zone_used zs p /\ ~ base <= p < base + n.
Proof.
  intros Hok Hb Hn Hbn Hu. destruct (page_free_ok zs base n) as (zs' & E & Hf); try apply Hok; try done.
  { intros p Hp. destruct (Hu p Hp) as (i & z & Hz & H). exists i, z.
    split; [by eapply lookup_lt_Some|done]. }
  exists zs'. split_and!; [done|by eapply zones_ok_freed|]. intros p. by apply zone_used_freed.
Qed.
#[export] Instance zone_frames : FrameAllocator := {|
  frames_st := list mzone;
  frames_ok := zones_ok;
  frame_used := zone_used;
  frames_malloc := zones_malloc;
  frames_free := PageAlloc.page_free;
  frames_malloc_spec := zones_malloc_ok;
  frames_free_spec := zones_free_ok;
|}.

(** * The properties of regions *)

(** C27: [vm_region_incref_range] adds one to the reference count of every page of the
    range and changes no other page and no other attribute; when it throws (for lack
    of memory) no page has changed.  In both cases the chain of parts is well-formed,
    no heap block has leaked, and the lock is released. *)
Theorem region_incref_spec `{FrameAllocator} others s first num :
  region_ok others s -> in_range s first num ->
  srun (vm_region_incref_range first num) s
    (fun _ s' => region_ok others s' /\ same_env s s' /\
       pages s' = map_range (page_refcnt 1) first num (pages s))
    (unchanged others s).
Proof. apply incref_ok. Qed.

(** [vm_region_decref_range] on pages that are all referenced never throws.  It
    subtracts one from the reference count of every page of the range, or, when there
    is no memory to split a part, of the pages of a prefix of the range, and then
    marks the region as leaking; nothing else changes. *)
Theorem region_decref_spec `{FrameAllocator} others s first num :
  region_ok others s -> in_range s first num -> referenced s first num ->
  srun (vm_region_decref_range first num) s
    (fun _ s' => region_ok others s' /\ exists m leaking, 0 <= m <= num /\
       pages s' = map_range (page_refcnt (-1)) first m (pages s) /\
       (leaking = false -> m = num) /\
       rs_phys s' = rs_phys s /\ rs_calls s' = rs_calls s /\
       with_parts (rs_reg s') [] =
         with_parts (if (leaking : bool)
           then with_flags (rs_reg s) (Z.lor (vr_flags (rs_reg s)) VM_REGION_FLEAKINGPARTS)
           else rs_reg s) [])
    (fun _ _ => False).
Proof. apply decref_ok. Qed.

(** C28: [vm_region_inclck_range] and [vm_region_declck_range] change the lock count of
    every page of the range by one.  They throw [E_OVERFLOW] only when the count of a
    page of the range has reached its limit, and [E_BADALLOC] when a part cannot be
    split; an operation that throws has undone its changes, so that no page differs. *)
Theorem region_lock_spec `{FrameAllocator} others s first num :
  region_ok others s -> in_range s first num ->
  srun (vm_region_inclck_range first num) s (lock_post others 1 s first num)
    (lock_failed others INT16_MAX s first num) /\
  srun (vm_region_declck_range first num) s (lock_post others (-1) s first num)
    (lock_failed others INT16_MIN s first num).
Proof. intros Hok Hr. by split; [apply inclck_ok|apply declck_ok]. Qed.

(** C39: The functions that create regions throw [E_BADALLOC] without changing anything
    but the answer of the heap, or make a well-formed region whose pages are all
    missing, unreferenced and unlocked; a file region holds a reference to its node. *)
Theorem region_create_spec `{FrameAllocator} s n :
  heap_ok s -> 0 < n ->
  srun (vm_region_alloc n) s
    (fun _ s' => created (rs_live s) s n VM_REGION_INIT_FNORMAL s' /\
       vr_flags (rs_reg s') = 0 /\ rs_calls s' = rs_calls s)
    (fun e s' => e = E_BADALLOC /\ s' = asked s) /\
  (forall wb node begin start fsize filler,
     srun (vm_region_alloc_file n wb node begin start fsize filler) s
       (fun _ s' => created (rs_live s) s n
          (if wb then VM_REGION_INIT_FFILE (Some node) begin start fsize filler
           else VM_REGION_INIT_FFILE_RO (Some node) begin start fsize filler) s' /\
          vr_flags (rs_reg s') = 0 /\ rs_calls s' = rs_calls s ++ [CallInodeIncref node])
       (fun e s' => e = E_BADALLOC /\ s' = asked s)) /\
  (forall ops has_fini closure,
     srun (vm_region_alloc_vio n ops has_fini closure) s
       (fun _ s' => created (rs_live s) s n (VM_REGION_INIT_FVIO ops has_fini closure) s' /\
          vr_type (rs_reg s') = VM_REGION_VIO /\ vr_flags (rs_reg s') = VM_REGION_FDONTMERGE /\
          rs_calls s' = rs_calls s)
       (fun e s' => e = E_BADALLOC /\ s' = asked s)).
Proof.
  intros Hh Hn. split_and!; intros;
    [by apply region_alloc_ok|by apply region_alloc_file_ok|by apply region_alloc_vio_ok].
Qed.

(** [vm_region_prefault] on a region with one part gives every page a physical page
    that was free, takes no other, and makes the region their owner.  It can throw
    only [E_BADALLOC]; the region then claims to be in core without having any page. *)
Theorem region_prefault_spec `{FrameAllocator} others s p :
  region_ok others s -> parts s = [p] -> frames_ok (rs_phys s) ->
  frames_malloc (rs_phys s) (size s) <> Panic ->
  srun vm_region_prefault s
    (fun _ s' => region_ok others s' /\ frames_owned s' /\ same_env (with_phys s (rs_phys s')) s' /\
       exists base, pages s' = core_page p <$> seqZ base (size s) /\
         (forall f, frame_used (rs_phys s') f <-> frame_used (rs_phys s) f \/ f ∈ seqZ base (size s)))
    (fun e s' => e = E_BADALLOC /\ same_env s s' /\ pages s' = []).
Proof. apply region_prefault_ok. Qed.

(** C12: After any sequence of operations on ranges of a region, whether they returned or
    threw, the destructor returns, frees exactly the physical pages that the region
    owned at the start and all its heap blocks, and makes the calls that release what
    fills the region. *)
Theorem region_lifecycle `{FrameAllocator} others s s' :
  region_ok others s -> frames_owned s ->
  Z.land (vr_flags (rs_reg s)) VM_REGION_FIMMUTABLE = 0 ->
  rtc region_step s s' ->
  srun vm_region_destroy s' (fun _ s'' => destroyed others s s'') (fun _ _ => False).
Proof.
  intros Hok Hown Him Hsteps. destruct (region_steps_ok _ _ _ Hok Hsteps) as [Hok' Hl].
  eapply srun_mono; [apply (region_destroy_ok others s')|intros [] s''|done].
  - done.
  - by eapply same_life_owned.
  - by rewrite (sl_immutable _ _ Hl).
  - by apply same_life_destroyed.
Qed.

(** * A concrete region *)
(** Five pages in two parts, with the physical pages 10-12 and 14-15 of [zone_ex];
    block 7 of the heap belongs to someone else, and every allocation succeeds. *)
Definition region_ex : vm_region :=
  MkRegion 0 1 0 VM_REGION_MEM VM_REGION_INIT_FNORMAL 0 5
    [MkPart None 1 0 VM_PART_INCORE 0 0 [MkScatter 10 3];
     MkPart (Some 1%nat) 2 3 VM_PART_INCORE 0 0 [MkScatter 14 2]].
Definition state_ex : rstate := MkRs region_ex (fun _ => AOk) [7; 0; 1]%nat 8 [zone_ex] [].
(** The heap of a kernel without regions, and one whose next allocation fails. *)
Definition state_new : rstate := MkRs region_ex (fun _ => AOk) [7]%nat 8 [zone_ex] [].
(** A region with one page that has not been loaded. *)
Definition region_one : vm_region :=
  MkRegion 0 1 0 VM_REGION_MEM VM_REGION_INIT_FNORMAL 0 1 [part0].
Definition state_one : rstate := MkRs region_one (fun _ => AOk) [7; 0]%nat 8 [zone_ex] [].

Ltac part_check :=
  split; [done|]; split; [split; [done|]; split; [|split]; by vm_compute|];
  intros ?; first [done | split; [done|]; split; [repeat constructor; cbn; lia|done]].
Lemma state_ex_ok : region_ok [7%nat] state_ex.
Proof.
  split; cbn -[part_blocks]; try done.
  - split; [done|]. split; [part_check|]. split; [done|]. split; [part_check|done].
  - by apply (bool_decide_unpack _).
  - repeat constructor; lia.
  - repeat constructor. by eexists.
  - exists false. by repeat constructor.
Qed.
Lemma zones_ex_ok : zones_ok [zone_ex].
Proof.
  split_and!; [apply zone_ex_wfs| |done]. intros [|i] [|j] x y ? ? ?; cbn in *; try lia; done.
Qed.
Lemma state_ex_owned : frames_owned state_ex.
Proof.
  split; [apply zones_ex_ok|by apply (bool_decide_unpack _)|].
  change (own_frames (pages state_ex)) with [10; 11; 12; 14; 15].
  repeat constructor; (exists 0%nat, zone_ex; split_and!; [done|cbn; lia|cbn; lia|by vm_compute]).
Qed.
Lemma state_one_ok : region_ok [7%nat] state_one.
Proof.
  split; cbn -[part_blocks]; try done.
  - by apply (bool_decide_unpack _).
  - repeat constructor; lia.
  - exists false. by repeat constructor.
Qed.
Lemma state_ex_referenced : referenced state_ex 1 3.
Proof.
  intros i pg Hi. change (pages state_ex) with
    [MkPage 1 0 VM_PART_INCORE (Some 10) false; MkPage 1 0 VM_PART_INCORE (Some 11) false;
     MkPage 1 0 VM_PART_INCORE (Some 12) false; MkPage 2 0 VM_PART_INCORE (Some 14) false;
     MkPage 2 0 VM_PART_INCORE (Some 15) false].
  intros Hpg. apply list_elem_of_lookup_2 in Hpg.
  repeat (apply elem_of_cons in Hpg as [->|Hpg]; [cbn; lia|]). by apply elem_of_nil in Hpg.
Qed.

Lemma in_range_ex : in_range state_ex 1 3.
Proof. split; [split; by vm_compute|]. split; by vm_compute. Qed.

(** Referencing pages 1-3 of the example splits both parts. *)
Lemma region_incref_witness :
  exists a s', vm_region_incref_range 1 3 state_ex = SRet a s' /\
    region_ok [7%nat] s' /\ same_env state_ex s' /\
    pages s' = map_range (page_refcnt 1) 1 3 (pages state_ex).
Proof.
  eapply srun_returns; [by vm_compute|].
  exact (region_incref_spec [7%nat] state_ex 1 3 state_ex_ok in_range_ex).
Defined.
Lemma region_decref_witness :
  exists a s', vm_region_decref_range 1 3 state_ex = SRet a s' /\
    (region_ok [7%nat] s' /\ exists m leaking, 0 <= m <= 3 /\
       pages s' = map_range (page_refcnt (-1)) 1 m (pages state_ex) /\
       (leaking = false -> m = 3) /\
       rs_phys s' = rs_phys state_ex /\ rs_calls s' = rs_calls state_ex /\
       with_parts (rs_reg s') [] =
         with_parts (if (leaking : bool)
           then with_flags (rs_reg state_ex)
             (Z.lor (vr_flags (rs_reg state_ex)) VM_REGION_FLEAKINGPARTS)
           else rs_reg state_ex) []).
Proof.
  eapply srun_returns; [by vm_compute|].
  exact (region_decref_spec [7%nat] state_ex 1 3 state_ex_ok in_range_ex state_ex_referenced).
Defined.
Lemma region_lock_witness :
  exists a s', vm_region_inclck_range 1 3 state_ex = SRet a s' /\
    lock_post [7%nat] 1 state_ex 1 3 a s'.
Proof.
  eapply srun_returns; [by vm_compute|].
  exact (proj1 (region_lock_spec [7%nat] state_ex 1 3 state_ex_ok in_range_ex)).
Defined.
Lemma state_new_heap : heap_ok state_new.
Proof. split; cbn; repeat constructor; (set_solver || lia). Qed.
Lemma region_create_witness :
  exists a s', vm_region_alloc 4 state_new = SRet a s' /\
    (created [7%nat] state_new 4 VM_REGION_INIT_FNORMAL s' /\ vr_flags (rs_reg s') = 0 /\
     rs_calls s' = []).
Proof.
  eapply srun_returns; [by vm_compute|].
  exact (proj1 (region_create_spec state_new 4 state_new_heap eq_refl)).
Defined.
Lemma region_prefault_witness :
  exists a s', vm_region_prefault state_one = SRet a s' /\
    (region_ok [7%nat] s' /\ frames_owned s' /\ same_env (with_phys state_one (rs_phys s')) s' /\
     exists base, pages s' = core_page part0 <$> seqZ base 1 /\
       (forall f, frame_used (rs_phys s') f <-> frame_used [zone_ex] f \/ f ∈ seqZ base 1)).
Proof.
  eapply srun_returns; [by vm_compute|].
  apply (region_prefault_spec [7%nat] state_one part0 state_one_ok eq_refl zones_ex_ok).
  by vm_compute.
Defined.
(** The state after pages 1-3 of the example have been referenced. *)
Definition state_ref : rstate :=
  match vm_region_incref_range 1 3 state_ex with SRet _ s | SThrow _ s => s | SPanic => state_ex end.
Lemma state_ref_step : rtc region_step state_ex state_ref.
Proof.
  apply rtc_once, (step_incref _ 1 3); [apply in_range_ex|]. unfold ends, state_ref.
  pose proof (eq_refl : returnsb (vm_region_incref_range 1 3) state_ex = true) as H.
  unfold returnsb in H. by destruct (vm_region_incref_range 1 3 state_ex).
Qed.
Lemma region_lifecycle_witness :
  exists a s', vm_region_destroy state_ref = SRet a s' /\ destroyed [7%nat] state_ex s'.
Proof.
  eapply srun_returns; [by vm_compute|].
  exact (region_lifecycle [7%nat] state_ex state_ref state_ex_ok state_ex_owned eq_refl
    state_ref_step).
Defined.

(** When the physical memory is exhausted, [vm_region_prefault] leaves the region with a
    part that is in core and has no page. *)
Example prefault_failed :
  match vm_region_prefault (MkRs region_one (fun _ => AOk) [7; 0]%nat 8
    [MkZone 0 31 32 0 [0; 0; 0]] []) with
  | SThrow e s => e = E_BADALLOC /\ vp_state <$> parts s = [VM_PART_INCORE] /\ pages s = []
  | _ => False
  end.
Proof. by vm_compute. Qed.
