(* ===== verification/Heap.v ===== *)
(** The kernel heap: kernel/src/kernel/heap.c, with include/kernel/heap.h.

    A heap keeps the free ranges of the memory it manages in two structures: an
    address tree ([ATree]), which finds the neighbours of a range that is being freed,
    and an array of lists by size, which allocations search.  A free range is described
    by a header in its first bytes, so that whatever those bytes held is lost.

    The state has the heap, the address space of the kernel (through the interface
    [KernelVM]), and the contents of memory: [hs_mem] maps an address to a byte, or to
    [None] where the contents are not known.  The model is that of a build without
    CONFIG_DEBUG_HEAP for a machine with 32-bit pointers; assertions are enabled, and
    the randomization of offsets can be.  One thread runs at a time. *)
From S2P Require Import Prelude.
From stdpp Require Import list sorting.
From S2P Require Import ATree.
#[local] Open Scope Z_scope.

(** * Configuration *)
Definition PAGESIZE : Z := 4096.
Definition HEAP_ALIGNMENT : Z := 8.
(** [offsetof(struct mfree,mf_data)]: two links each for the list and the tree, the
    size, and the byte [mf_flags]. *)
Definition SIZEOF_MFREE : Z := 21.
Definition HEAP_MINSIZE : Z := 24.
Definition GFP_LOCKED : Z := 1.
Definition GFP_KERNEL : Z := 2.
Definition GFP_CALLOC : Z := 16.
Definition GFP_ATOMIC : Z := 2048.
Definition GFP_NOOVER : Z := 4096.
Definition GFP_NOMAP : Z := 16384.
Definition GFP_HEAPMASK : Z := 3.
Definition VM_GETFREE_FBELOW : Z := 1.
Definition has (flags bit : Z) : bool := negb (Z.land flags bit =? 0).
Definition IS_ALIGNED (x a : Z) : bool := x `mod` a =? 0.
Definition HEAP_BUCKET_OFFSET : Z := 4.
Definition clz32 (x : Z) : Z := if x =? 0 then 32 else 31 - Z.log2 x.
Definition HEAP_BUCKET_OF (size : Z) : Z := 32 - clz32 size - HEAP_BUCKET_OFFSET.
Definition HEAP_BUCKET_COUNT : Z := 32 - (HEAP_BUCKET_OFFSET - 1).

(** * Interfaces *)
(** The address space of the kernel, as the heap sees it.  [vm_mapped] are the mapped pages
    that the heap has not given back; [vm_free] are those where nothing is mapped at all.  [vm_unmap] with [VM_UNMAP_NOEXCEPT] only logs that memory for
    the division of a mapping was missing (vm.h:886): the pages then stay mapped and belong
    to nobody, so that they are not [vm_free].  The last page is never free (it belongs to
    the page tables).  [page_malloc] says whether physical pages can be had, [this_kernel]
    whether [THIS_VM == &vm_kernel]. *)
Class KernelVM : Type := {
  vm_st : Type;
  vm_ok : vm_st -> Prop;
  vm_mapped : vm_st -> Z -> bool;
  vm_free : vm_st -> Z -> Prop;
  this_kernel : vm_st -> bool;
  page_malloc : vm_st -> Z -> bool;
  vm_getfree : vm_st -> Z -> Z -> Z -> outcome Z;
  vm_getanynode : vm_st -> Z -> Z -> bool;
  vm_map : Z -> Z -> SM vm_st unit;
  vm_unmap : Z -> Z -> SM vm_st unit;
  vm_merge_before : Z -> SM vm_st unit;
  vm_free_spec : forall v q, vm_ok v -> vm_free v q -> vm_mapped v q = false /\ q <> 2 ^ 20 - 1;
  vm_getfree_spec : forall v hint n mode, vm_ok v -> 0 < n ->
    match vm_getfree v hint n mode with
    | Ret p => 0 <= p /\ p + n < 2 ^ 20 /\ forall q, p <= q < p + n -> vm_free v q
    | Throw _ => True
    | Panic => False
    end;
  vm_getanynode_spec : forall v lo hi, vm_ok v ->
    vm_getanynode v lo hi = false -> forall q, lo <= q <= hi -> vm_free v q;
  vm_map_spec : forall v p n, vm_ok v -> 0 <= p -> 0 < n -> p + n < 2 ^ 20 ->
    (forall q, p <= q < p + n -> vm_free v q) ->
    srun (vm_map p n) v
      (fun _ v' => vm_ok v' /\
         forall q, vm_mapped v' q = vm_mapped v q || ((p <=? q) && (q <? p + n)))
      (fun _ v' => vm_ok v' /\ forall q, vm_mapped v' q = vm_mapped v q);
  vm_unmap_spec : forall v p n, vm_ok v -> 0 <= p -> 0 < n -> p + n < 2 ^ 20 ->
    (forall q, p <= q < p + n -> vm_mapped v q = true) ->
    srun (vm_unmap p n) v
      (fun _ v' => vm_ok v' /\
         forall q, vm_mapped v' q = vm_mapped v q && negb ((p <=? q) && (q <? p + n)))
      (fun _ _ => False);
  vm_merge_spec : forall v p, vm_ok v ->
    srun (vm_merge_before p) v
      (fun _ v' => vm_ok v' /\ forall q, vm_mapped v' q = vm_mapped v q) (fun _ _ => False);
}.

(** * Data *)
(** A free range; [mf_base] is its address. *)
Record mfree : Type := MkFree { mf_base : Z; mf_size : Z; mf_flags : Z }.
#[export] Instance mfree_eq_dec : EqDecision mfree.
Proof. solve_decision. Defined.
Definition MFREE_END (x : mfree) : Z := mf_base x + mf_size x.
#[export] Instance mfree_node : TreeNode mfree := {|
  node_min := mf_base;
  node_max := fun x => MFREE_END x - 1
|}.
Record heap : Type := MkHeap {
  h_addr : atree mfree;
  h_size : list (list mfree);
  h_overalloc : Z;
  h_freethresh : Z;
  h_hintpage : Z;
  h_hintmode : Z;
  h_dangle : Z;
}.

Section Ops.
Context `{VM : KernelVM}.

(** [hs_oracle] answers the requests to other parts of the kernel: [None] grants one,
    [Some e] is the error it fails with.  [hs_rand] are the results of [rand()], when
    offsets are randomized. *)
Record hstate : Type := MkHs {
  hs_heap : heap;
  hs_vm : vm_st;
  hs_mem : Z -> option Z;
  hs_oracle : nat -> option error_code;
  hs_rand : option (nat -> Z);
}.
Abbreviation HM := (SM hstate).

Definition with_heap (s : hstate) (h : heap) : hstate :=
  MkHs h (hs_vm s) (hs_mem s) (hs_oracle s) (hs_rand s).
Definition with_vm (s : hstate) (v : vm_st) : hstate :=
  MkHs (hs_heap s) v (hs_mem s) (hs_oracle s) (hs_rand s).
Definition with_mem (s : hstate) (m : Z -> option Z) : hstate :=
  MkHs (hs_heap s) (hs_vm s) m (hs_oracle s) (hs_rand s).
Definition with_lists (h : heap) (t : atree mfree) (l : list (list mfree)) : heap :=
  MkHeap t l (h_overalloc h) (h_freethresh h) (h_hintpage h) (h_hintmode h) (h_dangle h).
Definition with_hint (h : heap) (p : Z) : heap :=
  MkHeap (h_addr h) (h_size h) (h_overalloc h) (h_freethresh h) p (h_hintmode h) (h_dangle h).
Definition with_dangle (h : heap) (n : Z) : heap :=
  MkHeap (h_addr h) (h_size h) (h_overalloc h) (h_freethresh h) (h_hintpage h) (h_hintmode h) n.
Definition self : HM heap := fun s => SRet (hs_heap s) s.
Definition set_heap (h : heap) : HM unit := fun s => SRet tt (with_heap s h).
Definition ask : HM (option error_code) := fun s =>
  SRet (hs_oracle s 0%nat)
    (MkHs (hs_heap s) (hs_vm s) (hs_mem s) (fun n => hs_oracle s (S n)) (hs_rand s)).
Definition request : HM unit :=
  a ← ask; match a with Some e => sthrow e | None => mret tt end.
(** The next random number, if offsets are randomized. *)
Definition rand : HM (option Z) := fun s =>
  match hs_rand s with
  | Some f => SRet (Some (f 0%nat))
      (MkHs (hs_heap s) (hs_vm s) (hs_mem s) (hs_oracle s) (Some (fun n => f (S n))))
  | None => SRet None s
  end.
Definition add_dangle (n : Z) : HM unit := fun s =>
  SRet tt (with_heap s (with_dangle (hs_heap s) (u32 (h_dangle (hs_heap s) + n)))).

(** ** Memory *)
Definition fill (m : Z -> option Z) (a n : Z) (b : option Z) : Z -> option Z := fun x =>
  if (a <=? x) && (x <? a + n) then b else m x.
Definition memset (a b n : Z) : HM unit := fun s => SRet tt (with_mem s (fill (hs_mem s) a n (Some b))).
(** What is written to the header of a free range, and what new pages hold, is not modelled. *)
Definition clobber (a n : Z) : HM unit := fun s => SRet tt (with_mem s (fill (hs_mem s) a n None)).
Definition memcpy (dst src n : Z) : HM unit := fun s =>
  SRet tt (with_mem s (fun x =>
    if (dst <=? x) && (x <? dst + n) then hs_mem s (src + (x - dst)) else hs_mem s x)).

(** ** Pages *)
Definition on_vm {A} (m : SM vm_st A) : HM A := fun s =>
  match m (hs_vm s) with
  | SRet a v => SRet a (with_vm s v)
  | SThrow e v => SThrow e (with_vm s v)
  | SPanic => SPanic
  end.
(** The new mapping of [core_page_alloc] and [core_page_allocat]
    ([vm_insert_and_activate_node], which may throw), with its contents. *)
Definition core_map (page num_pages flags : Z) : HM unit :=
  on_vm (vm_map page num_pages) ≫= fun _ =>
  (if has flags GFP_CALLOC then memset (page * PAGESIZE) 0 (num_pages * PAGESIZE)
   else clobber (page * PAGESIZE) (num_pages * PAGESIZE)).
(** [vm_tryacquire], and [vm_acquire] unless [GFP_ATOMIC] forbids to wait; waiting may be
    interrupted. *)
Definition acquire (flags : Z) : HM unit :=
  a ← ask;
  match a with
  | Some _ => if has flags GFP_ATOMIC then sthrow E_WOULDBLOCK else request
  | None => mret tt
  end.
(** The physical pages of locked memory.  The region is marked as having them before they
    are allocated, so that when [page_malloc] throws the handler frees the pages from
    physical address zero on, which it does not own: nothing can be said of the kernel
    afterwards, and the model stops there. *)
Definition lock_pages (num_pages flags : Z) : HM unit :=
  if has flags GFP_LOCKED then s ← sget; scheck (page_malloc (hs_vm s) num_pages) else mret tt.
(** The first [request] is for the descriptors of the mapping.  They come from
    [vm_corealloc] or from the heap of [GFP_SHARED|GFP_LOCKED], which is another one. *)
Definition core_page_alloc (num_pages flags : Z) : HM Z :=
  scheck (negb (num_pages =? 0)) ≫= fun _ =>
  if has flags GFP_NOMAP then sthrow E_WOULDBLOCK
  else
    request ≫= fun _ =>
    lock_pages num_pages flags ≫= fun _ =>
    acquire flags ≫= fun _ =>
    s ← sget;
    let h := hs_heap s in
    scheck (negb (has flags GFP_KERNEL) || this_kernel (hs_vm s)) ≫= fun _ =>
    result ← slift (vm_getfree (hs_vm s) (h_hintpage h) num_pages (h_hintmode h));
    set_heap (with_hint h result) ≫= fun _ =>
    core_map result num_pages flags ≫= fun _ =>
    mret result.
Definition core_page_allocat (page_index num_pages flags : Z) : HM bool :=
  scheck (negb (num_pages =? 0)) ≫= fun _ =>
  if has flags GFP_NOMAP then sthrow E_WOULDBLOCK
  else
    acquire flags ≫= fun _ =>
    s ← sget;
    if vm_getanynode (hs_vm s) page_index (page_index + num_pages) then mret false
    else
      request ≫= fun _ =>
      lock_pages num_pages flags ≫= fun _ =>
      core_map page_index num_pages flags ≫= fun _ =>
      mret true.
(** [if (vm_tryacquire(&vm_kernel)) { vm_merge_before(...); vm_merge_before(...); ... }] *)
Definition merge_new (page num_pages : Z) : HM unit :=
  a ← ask;
  match a with
  | Some _ => mret tt
  | None =>
      on_vm (vm_merge_before page) ≫= fun _ =>
      on_vm (vm_merge_before (page + num_pages))
  end.
(** [vm_unmap] with [VM_UNMAP_NOEXCEPT]; what the pages held is not known afterwards. *)
Definition core_unmap (page_index num_pages : Z) : HM unit :=
  on_vm (vm_unmap page_index num_pages) ≫= fun _ =>
  clobber (page_index * PAGESIZE) (num_pages * PAGESIZE).
Definition core_page_free (page_index num_pages : Z) : HM unit :=
  scheck (negb (num_pages =? 0)) ≫= fun _ => core_unmap page_index num_pages.

(** ** The lists of free ranges *)
(** [while ((slot = *pslot) != NULL && MFREE_SIZE(slot) < num_bytes) ...], and the
    insertion before [slot]. *)
Fixpoint insert_by_size (node : mfree) (l : list mfree) : list mfree :=
  match l with
  | slot :: l' => if mf_size slot <? mf_size node then slot :: insert_by_size node l'
                  else node :: l
  | [] => [node]
  end.
Definition heap_insert_node_unlocked (node : mfree) : HM unit :=
  scheck (negb (mf_size node =? 0)) ≫= fun _ =>
  h ← self;
  t ← slift (insert 32 (h_addr h) node);
  let i := Z.to_nat (HEAP_BUCKET_OF (mf_size node)) in
  l ← slift (access (h_size h !! i));
  set_heap (with_lists h t (<[i := insert_by_size node l]> (h_size h))) ≫= fun _ =>
  clobber (mf_base node) SIZEOF_MFREE.
(** [LIST_REMOVE(slot,mf_lsize)]: the node is in one of the lists. *)
Definition list_remove (x : mfree) (ls : list (list mfree)) : outcome (list (list mfree)) :=
  kassert (bool_decide (x ∈ concat ls)) ≫= fun _ =>
  Ret (filter (fun y => mf_base y ≠ mf_base x) <$> ls).
(** Finding the range that holds an address, and taking it out of the heap. *)
Definition take_at (key : Z) : HM (option mfree) :=
  h ← self;
  pslot ← slift (plocate_at 32 (h_addr h) key (ATREE_SEMI0 32) (ATREE_LEVEL0 32));
  match pslot with
  | None => mret None
  | Some (p, addr_semi, addr_level) =>
      popped ← slift (ppop_at 32 (h_addr h) p addr_semi addr_level);
      ls ← slift (list_remove (fst popped) (h_size h));
      set_heap (with_lists h (snd popped) ls) ≫= fun _ =>
      mret (Some (fst popped))
  end.
(** [asserte(mfree_tree_remove(&self->h_addr,MFREE_BEGIN(chain)) == chain);
    LIST_REMOVE(chain,mf_lsize);] *)
Definition take_chain (chain : mfree) : HM unit :=
  h ← self;
  removed ← slift (remove 32 (h_addr h) (mf_base chain));
  scheck (bool_decide (fst removed = Some chain)) ≫= fun _ =>
  ls ← slift (list_remove chain (h_size h));
  set_heap (with_lists h (snd removed) ls).

(** ** Freeing *)
Definition set_size (x : mfree) (size flags : Z) : mfree := MkFree (mf_base x) size flags.
(** The range that [ptr ... +num_bytes] becomes together with its neighbours. *)
Definition extend_above (slot : mfree) (ptr num_bytes flags : Z) : HM mfree :=
  let slot := set_size slot (mf_size slot + num_bytes)
    (Z.land (mf_flags slot) (Z.land flags GFP_CALLOC)) in
  high ← take_at (u32 (ptr + num_bytes));
  match high with
  | Some high_slot =>
      let slot := set_size slot (mf_size slot + mf_size high_slot)
        (Z.land (mf_flags slot) (Z.land (mf_flags high_slot) GFP_CALLOC)) in
      (if has (mf_flags slot) GFP_CALLOC then memset (mf_base high_slot) 0 SIZEOF_MFREE
       else mret tt) ≫= fun _ =>
      mret slot
  | None => mret slot
  end.
Definition extend_below (ptr num_bytes flags : Z) : HM mfree :=
  above ← take_at (u32 (ptr + num_bytes));
  match above with
  | Some slot =>
      let slot_flags := Z.land (mf_flags slot) flags in
      (if has slot_flags GFP_CALLOC then memset (mf_base slot) 0 SIZEOF_MFREE else mret tt)
        ≫= fun _ =>
      clobber ptr SIZEOF_MFREE ≫= fun _ =>
      mret (MkFree ptr (mf_size slot + num_bytes) slot_flags)
  | None =>
      clobber ptr SIZEOF_MFREE ≫= fun _ =>
      mret (MkFree ptr num_bytes (Z.land flags GFP_CALLOC))
  end.
Definition coalesce (ptr num_bytes flags : Z) : HM mfree :=
  below ← take_at (u32 (ptr - 1));
  match below with
  | Some slot => extend_above slot ptr num_bytes flags
  | None => extend_below ptr num_bytes flags
  end.
(** The pages of a range that can be given back, with what must be kept at both ends:
    the first page, the page behind the last, and the sizes of head and tail. *)
Definition trim_range (new_slot : mfree) : Z * Z * Z * Z :=
  let free_minpage := (mf_base new_slot + (PAGESIZE - 1)) `div` PAGESIZE in
  let free_endpage := MFREE_END new_slot `div` PAGESIZE in
  let hkeep_size := free_minpage * PAGESIZE - mf_base new_slot in
  let tkeep_size := MFREE_END new_slot - free_endpage * PAGESIZE in
  let '(hkeep_size, free_minpage) :=
    if negb (hkeep_size =? 0) && (hkeep_size <? HEAP_MINSIZE)
    then (hkeep_size + PAGESIZE, free_minpage + 1) else (hkeep_size, free_minpage) in
  let '(tkeep_size, free_endpage) :=
    if negb (tkeep_size =? 0) && (tkeep_size <? HEAP_MINSIZE)
    then (tkeep_size + PAGESIZE, free_endpage - 1) else (tkeep_size, free_endpage) in
  (free_minpage, free_endpage, hkeep_size, tkeep_size).
(** The hint stays near the memory that was released. *)
Definition reset_hint (free_minpage free_endpage : Z) : HM unit :=
  h ← self;
  let hint := h_hintpage h in
  set_heap (with_hint h
    (if has (h_hintmode h) VM_GETFREE_FBELOW
     then if free_endpage <=? hint then hint else free_endpage
     else if hint <=? free_minpage then hint else free_minpage)).
(** [if (flags & GFP_CALLOC) memset(p,0,SIZEOF_MFREE);] *)
Definition clear_header (p flags : Z) : HM unit :=
  if has flags GFP_CALLOC then memset p 0 SIZEOF_MFREE else mret tt.
(** The branch of [heap_free_raw] that gives pages back; [free] is the function itself,
    which it calls for the head and the tail of the range. *)
Definition free_pages (free : Z -> Z -> Z -> HM unit) (new_slot : mfree)
    (free_minpage free_endpage hkeep_size tkeep_size flags : Z) : HM unit :=
  let flags := Z.lor (Z.ldiff flags GFP_CALLOC) (mf_flags new_slot) in
  let hkeep := mf_base new_slot in
  let tkeep := free_endpage * PAGESIZE in
  (if hkeep_size =? 0 then mret tt else clear_header hkeep flags) ≫= fun _ =>
  (if tkeep_size =? 0 then mret tt else clear_header tkeep flags) ≫= fun _ =>
  (if hkeep_size =? 0 then mret tt else free hkeep hkeep_size flags) ≫= fun _ =>
  (if tkeep_size =? 0 then mret tt else free tkeep tkeep_size flags) ≫= fun _ =>
  core_page_free free_minpage (free_endpage - free_minpage) ≫= fun _ =>
  reset_hint free_minpage free_endpage.
Fixpoint heap_free_raw (fuel : nat) (ptr num_bytes flags : Z) : HM unit :=
  match fuel with
  | O => fun _ => SPanic
  | S fuel =>
      scheck (HEAP_MINSIZE <=? num_bytes) ≫= fun _ =>
      scheck (IS_ALIGNED ptr HEAP_ALIGNMENT) ≫= fun _ =>
      scheck (IS_ALIGNED num_bytes HEAP_ALIGNMENT) ≫= fun _ =>
      scheck (ptr <? u32 (ptr + num_bytes)) ≫= fun _ =>
      new_slot ← coalesce ptr num_bytes flags;
      h ← self;
      let '(free_minpage, free_endpage, hkeep_size, tkeep_size) := trim_range new_slot in
      if negb (has flags GFP_NOMAP) && (h_freethresh h <=? mf_size new_slot)
         && (free_minpage <? free_endpage)
      then free_pages (heap_free_raw fuel) new_slot
             free_minpage free_endpage hkeep_size tkeep_size flags
      else heap_insert_node_unlocked new_slot
  end.
(** The head and the tail have no neighbours and less than two pages, so that they are
    not divided again: two calls are enough. *)
Definition free_fuel : nat := 2.
Definition heap_free_untraced (ptr num_bytes flags : Z) : HM unit :=
  scheck (HEAP_MINSIZE <=? num_bytes) ≫= fun _ =>
  scheck (IS_ALIGNED ptr HEAP_ALIGNMENT) ≫= fun _ =>
  scheck (IS_ALIGNED num_bytes HEAP_ALIGNMENT) ≫= fun _ =>
  heap_free_raw free_fuel ptr num_bytes flags.

(** ** Allocating *)
(** The first range of a list that has at least [size] bytes. *)
Fixpoint find_chain (l : list mfree) (size : Z) : outcome (option mfree) :=
  match l with
  | [] => Ret None
  | chain :: l =>
      kassert (IS_ALIGNED (mf_size chain) HEAP_ALIGNMENT) ≫= fun _ =>
      if mf_size chain <? size then find_chain l size else Ret (Some chain)
  end.
(** [for (; iter != end; ++iter) ...]: the first list whose candidate is accepted. *)
Fixpoint search_buckets {A} (accept : mfree -> outcome (option A)) (ls : list (list mfree))
    (size : Z) : outcome (option (mfree * A)) :=
  match ls with
  | [] => Ret None
  | l :: ls =>
      find_chain l size ≫= fun chain =>
      match chain with
      | None => search_buckets accept ls size
      | Some chain =>
          accept chain ≫= fun a =>
          match a with
          | None => search_buckets accept ls size
          | Some a => Ret (Some (chain, a))
          end
      end
  end.
Definition search_heap {A} (accept : mfree -> outcome (option A)) (size : Z)
    : HM (option (mfree * A)) :=
  h ← self;
  let i := HEAP_BUCKET_OF size in
  scheck ((0 <=? i) && (i <? Z.of_nat (length (h_size h)))) ≫= fun _ =>
  slift (search_buckets accept (drop (Z.to_nat i) (h_size h)) size).

(** [num_bytes] rounded up; [None] when it is too large. *)
Definition round_size (num_bytes : Z) : option Z :=
  if 2 ^ 32 <=? num_bytes + (HEAP_ALIGNMENT - 1) then None
  else
    let size := Z.ldiff (num_bytes + (HEAP_ALIGNMENT - 1)) (HEAP_ALIGNMENT - 1) in
    Some (if size <? HEAP_MINSIZE then HEAP_MINSIZE else size).
Definition heap_free_overallocation (overallocation_base num_free_bytes flags : Z) : HM unit :=
  heap_free_raw free_fuel overallocation_base num_free_bytes flags.

(** The end of a range of which [size] bytes from [ptr] are used: the size of the
    block, which includes a remainder that cannot be a range. *)
Definition free_tail (ptr size unused_size flags : Z) : HM Z :=
  if unused_size <? HEAP_MINSIZE then mret (size + unused_size)
  else
    heap_free_overallocation (ptr + size) unused_size flags ≫= fun _ =>
    mret size.
(** Which part of [chain] is used: the block. *)
Definition split_chain (chain : mfree) (size flags : Z) : HM (Z * Z) :=
  let unused_size := mf_size chain - size in
  let free_flags := Z.lor (Z.ldiff flags GFP_CALLOC) (mf_flags chain) in
  if unused_size <? HEAP_MINSIZE then mret (mf_base chain, size + unused_size)
  else
    r ← rand;
    let random_offset :=
      match r with Some r => Z.ldiff (r `mod` unused_size) (HEAP_ALIGNMENT - 1) | None => 0 end in
    if HEAP_MINSIZE <=? random_offset then
      clear_header (mf_base chain) (mf_flags chain) ≫= fun _ =>
      heap_free_raw free_fuel (mf_base chain) random_offset free_flags ≫= fun _ =>
      let ptr := mf_base chain + random_offset in
      size ← free_tail ptr size (unused_size - random_offset) free_flags;
      mret (ptr, size)
    else
      scheck (unused_size <? mf_size chain) ≫= fun _ =>
      heap_free_overallocation (mf_base chain + size) unused_size free_flags ≫= fun _ =>
      mret (mf_base chain, size).
(** [if (flags&GFP_CALLOC) ...] on a new block. *)
Definition init_block (ptr size flags chain_flags : Z) : HM unit :=
  if has flags GFP_CALLOC then
    if has chain_flags GFP_CALLOC then memset ptr 0 SIZEOF_MFREE else memset ptr 0 size
  else mret tt.
Definition check_block (ptr size : Z) : HM unit :=
  scheck (IS_ALIGNED ptr HEAP_ALIGNMENT) ≫= fun _ =>
  scheck (IS_ALIGNED size HEAP_ALIGNMENT) ≫= fun _ =>
  scheck (HEAP_MINSIZE <=? size).
Definition heap_alloc_chain (chain : mfree) (size flags : Z) : HM (Z * Z) :=
  take_chain chain ≫= fun _ =>
  let dangle_size := mf_size chain - size in
  add_dangle dangle_size ≫= fun _ =>
  scheck (IS_ALIGNED dangle_size HEAP_ALIGNMENT) ≫= fun _ =>
  result ← split_chain chain size flags;
  add_dangle (- dangle_size) ≫= fun _ =>
  init_block (fst result) (snd result) flags (mf_flags chain) ≫= fun _ =>
  check_block (fst result) (snd result) ≫= fun _ =>
  mret result.
Definition map_bytes (page_bytes flags : Z) : HM (Z * Z) :=
  let page_bytes := Z.ldiff page_bytes (PAGESIZE - 1) in
  pageaddr ← core_page_alloc (page_bytes `div` PAGESIZE) flags;
  mret (pageaddr, page_bytes).
Definition heap_alloc_core (size flags : Z) : HM (Z * Z) :=
  let page_bytes := size + (PAGESIZE - 1) in
  if 2 ^ 32 <=? page_bytes then sthrow E_BADALLOC
  else
    h ← self;
    let over := if has flags GFP_NOOVER then page_bytes else page_bytes + h_overalloc h in
    mapped ←
      (if 2 ^ 32 <=? over then map_bytes page_bytes flags
       else scatch (map_bytes over flags)
         (fun e => if bool_decide (e = E_BADALLOC) then map_bytes page_bytes flags else sthrow e));
    let ptr := fst mapped * PAGESIZE in
    let unused_size := snd mapped - size in
    size ←
      (if unused_size <? HEAP_MINSIZE then mret (snd mapped)
       else
         scheck (IS_ALIGNED unused_size HEAP_ALIGNMENT) ≫= fun _ =>
         scheck (IS_ALIGNED (ptr + size) HEAP_ALIGNMENT) ≫= fun _ =>
         heap_free_raw free_fuel (ptr + size) unused_size flags ≫= fun _ =>
         mret size);
    merge_new (fst mapped) (snd mapped `div` PAGESIZE) ≫= fun _ =>
    check_block ptr size ≫= fun _ =>
    mret (ptr, size).
(** While other threads have taken ranges of which they will return enough, the code
    waits for them; alone it would never stop. *)
Definition heap_alloc_untraced (num_bytes flags : Z) : HM (Z * Z) :=
  match round_size num_bytes with
  | None => sthrow E_BADALLOC
  | Some size =>
      found ← search_heap (fun _ => Ret (Some tt)) size;
      match found with
      | Some (chain, _) => heap_alloc_chain chain size flags
      | None =>
          h ← self;
          scheck (negb (size <=? h_dangle h)) ≫= fun _ =>
          heap_alloc_core size flags
      end
  end.

(** ** Allocating at a given address *)
(** The node that a pointer into the tree leads to. *)
Definition slot_node (t : atree mfree) (p : list branch) : outcome mfree :=
  slot_get t p ≫= fun sub => match sub with ANode _ x _ => Ret x | ANil => Panic end.
Definition pop_slot (p : list branch) (addr_semi addr_level : Z) : HM unit :=
  h ← self;
  popped ← slift (ppop_at 32 (h_addr h) p addr_semi addr_level);
  ls ← slift (list_remove (fst popped) (h_size h));
  set_heap (with_lists h (snd popped) ls).
(** Mapping a page and giving it to the heap; a page behind a range is not merged. *)
Definition grow_page (page flags : Z) (merge : bool) : HM bool :=
  ok ← core_page_allocat page 1 flags;
  if (ok : bool) then
    heap_free_raw free_fuel (u32 (page * PAGESIZE)) PAGESIZE (Z.lor flags GFP_NOMAP) ≫= fun _ =>
    (if merge then merge_new page 1 else mret tt) ≫= fun _ =>
    mret true
  else mret false.
(** The end of [heap_allat_partial]. *)
Definition allat_init (ptr result flags slot_flags : Z) : HM Z :=
  (if has flags GFP_CALLOC && negb (has slot_flags GFP_CALLOC) then memset ptr 0 result
   else mret tt) ≫= fun _ =>
  scheck (HEAP_MINSIZE <=? result) ≫= fun _ =>
  mret result.
Definition allat_slot (slot : mfree) (ptr flags : Z) (pop : HM unit) : HM Z :=
  let slot_flags := Z.lor (Z.land flags GFP_HEAPMASK) (mf_flags slot) in
  if ptr =? mf_base slot then
    pop ≫= fun _ =>
    (if has slot_flags GFP_CALLOC && has flags GFP_CALLOC
     then memset (mf_base slot) 0 SIZEOF_MFREE else mret tt) ≫= fun _ =>
    allat_init ptr (mf_size slot) flags slot_flags
  else
    let free_offset := ptr - mf_base slot in
    pop ≫= fun _ =>
    add_dangle free_offset ≫= fun _ =>
    (if has slot_flags GFP_CALLOC
     then memset (mf_base slot) 0 (Z.min free_offset SIZEOF_MFREE) else mret tt) ≫= fun _ =>
    heap_free_raw free_fuel (mf_base slot) free_offset slot_flags ≫= fun _ =>
    add_dangle (- free_offset) ≫= fun _ =>
    allat_init ptr (mf_size slot - free_offset) flags slot_flags.
(** Each turn of the loop maps at most one page: that of [ptr], one below and one above
    the range [ptr] is in. *)
Fixpoint heap_allat_partial (fuel : nat) (ptr flags : Z) : HM Z :=
  match fuel with
  | O => fun _ => SPanic
  | S fuel =>
      scheck (IS_ALIGNED ptr HEAP_ALIGNMENT) ≫= fun _ =>
      h ← self;
      let again (ok : bool) := if ok then heap_allat_partial fuel ptr flags else mret 0 in
      pslot ← slift (plocate_at 32 (h_addr h) ptr (ATREE_SEMI0 32) (ATREE_LEVEL0 32));
      match pslot with
      | None => grow_page (ptr `div` PAGESIZE) flags true ≫= again
      | Some (p, addr_semi, addr_level) =>
          slot ← slift (slot_node (h_addr h) p);
          scheck (mf_base slot <=? ptr) ≫= fun _ =>
          let free_offset := ptr - mf_base slot in
          let heap_flags := Z.land flags GFP_HEAPMASK in
          scheck (IS_ALIGNED free_offset HEAP_ALIGNMENT) ≫= fun _ =>
          if negb (free_offset =? 0) && (free_offset <? HEAP_MINSIZE) then
            if negb (Z.land (mf_base slot) (PAGESIZE - 1) =? 0) then mret 0
            else
              let slot_page := u32 (mf_base slot * PAGESIZE) in
              if slot_page =? 0 then mret 0
              else grow_page (slot_page - 1) heap_flags true ≫= again
          else if negb (free_offset =? 0) && (mf_size slot - free_offset <? HEAP_MINSIZE) then
            if negb (Z.land (MFREE_END slot) (PAGESIZE - 1) =? 0) then mret 0
            else grow_page (MFREE_END slot `div` PAGESIZE) heap_flags false ≫= again
          else allat_slot slot ptr flags (pop_slot p addr_semi addr_level)
      end
  end.
Definition partial_fuel : nat := 6.
(** What has been allocated is freed again when the rest cannot be. *)
Definition allat_undo (ptr result flags : Z) : HM unit :=
  if result =? 0 then mret tt else heap_free_untraced ptr result flags.
(** [while (result < alloc_size) ...]; [None] when a part is not free. *)
Fixpoint allat_loop (fuel : nat) (ptr result alloc_size flags : Z) : HM (option Z) :=
  if result <? alloc_size then
    match fuel with
    | O => fun _ => SPanic
    | S fuel =>
        part ← scatch (heap_allat_partial partial_fuel (u32 (ptr + result)) flags)
                 (fun e => allat_undo ptr result flags ≫= fun _ => sthrow e);
        if part =? 0 then allat_undo ptr result flags ≫= fun _ => mret None
        else allat_loop fuel ptr (result + part) alloc_size flags
    end
  else mret (Some result).
(** Every part has at least [HEAP_MINSIZE] bytes. *)
Definition allat_fuel (alloc_size : Z) : nat := S (Z.to_nat (alloc_size `div` HEAP_MINSIZE)).
Definition heap_allat_untraced (ptr num_bytes flags : Z) : HM Z :=
  match round_size num_bytes with
  | None => sthrow E_BADALLOC
  | Some alloc_size =>
      result ← allat_loop (allat_fuel alloc_size) ptr 0 alloc_size flags;
      match result with
      | None => mret 0
      | Some result =>
          let unused_size := result - alloc_size in
          if HEAP_MINSIZE <=? unused_size then
            heap_free_untraced (u32 (ptr + alloc_size)) unused_size flags ≫= fun _ =>
            mret alloc_size
          else mret result
      end
  end.

(** ** Aligned blocks *)
(** [while ((alignment_base-(uintptr_t)chain) < HEAP_MINSIZE) ...] *)
Fixpoint advance_base (fuel : nat) (alignment_base base min_alignment : Z) : outcome Z :=
  if u32 (alignment_base - base) <? HEAP_MINSIZE then
    match fuel with
    | O => Panic
    | S fuel => advance_base fuel (u32 (alignment_base + min_alignment)) base min_alignment
    end
  else Ret alignment_base.
(** The address in [chain] that a block would have, if it fits. *)
Definition align_chain (min_alignment offset alloc_bytes : Z) (chain : mfree) : outcome (option Z) :=
  let alignment_base := u32 (mf_base chain - offset) in
  let alignment_base := u32 (alignment_base + (min_alignment - 1)) in
  let alignment_base := Z.ldiff alignment_base (min_alignment - 1) in
  let alignment_base := u32 (alignment_base + offset) in
  (if alignment_base =? mf_base chain then Ret alignment_base
   else advance_base (Z.to_nat HEAP_MINSIZE) alignment_base (mf_base chain) min_alignment)
    ≫= fun alignment_base =>
  Ret (if MFREE_END chain <? u32 (alignment_base + alloc_bytes) then None else Some alignment_base).
Definition align_in_chain (chain : mfree) (ptr min_alignment offset alloc_bytes flags : Z)
    : HM (Z * Z) :=
  take_chain chain ≫= fun _ =>
  let dangle_size := mf_size chain - alloc_bytes in
  add_dangle dangle_size ≫= fun _ =>
  let hkeep_size := u32 (ptr - mf_base chain) in
  let tkeep_size := u32 (MFREE_END chain - (ptr + alloc_bytes)) in
  r ← (if tkeep_size =? 0 then mret None else rand);
  let random_offset :=
    match r with Some r => Z.ldiff (r `mod` tkeep_size) (min_alignment - 1) | None => 0 end in
  let shift := match r with Some _ => HEAP_MINSIZE <=? hkeep_size + random_offset | None => false end in
  let d := if shift then random_offset else 0 in
  let hkeep_size := hkeep_size + d in
  let tkeep_size := tkeep_size - d in
  let ptr := ptr + d in
  (if hkeep_size =? 0 then mret tt
   else
     scheck (HEAP_MINSIZE <=? hkeep_size) ≫= fun _ =>
     clear_header (mf_base chain) (mf_flags chain) ≫= fun _ =>
     heap_free_raw free_fuel (mf_base chain) hkeep_size (mf_flags chain)) ≫= fun _ =>
  size ← free_tail ptr alloc_bytes tkeep_size
           (Z.lor (Z.ldiff flags GFP_CALLOC) (mf_flags chain));
  add_dangle (- dangle_size) ≫= fun _ =>
  init_block ptr size flags (mf_flags chain) ≫= fun _ =>
  scheck (IS_ALIGNED ptr HEAP_ALIGNMENT) ≫= fun _ =>
  scheck (IS_ALIGNED (ptr + offset) min_alignment) ≫= fun _ =>
  scheck (IS_ALIGNED size HEAP_ALIGNMENT) ≫= fun _ =>
  scheck (HEAP_MINSIZE <=? size) ≫= fun _ =>
  mret (ptr, size).
Definition HEAP_CEIL_ALIGN (x a : Z) : Z := Z.ldiff (u32 (x + (a - 1))) (a - 1).
(** The fallback: a larger block, of which both ends are freed. *)
Definition align_overalloc (min_alignment offset alloc_bytes flags : Z) : HM (Z * Z) :=
  let heap_alloc_bytes := alloc_bytes + min_alignment + HEAP_MINSIZE in
  if 2 ^ 32 <=? heap_alloc_bytes then sthrow E_BADALLOC
  else
    result_base ← heap_alloc_untraced heap_alloc_bytes flags;
    let '(base, base_size) := result_base in
    scheck (heap_alloc_bytes <=? base_size) ≫= fun _ =>
    let ptr := u32 (HEAP_CEIL_ALIGN (u32 (base + HEAP_MINSIZE + offset)) min_alignment - offset) in
    scheck (u32 (ptr + alloc_bytes) <=? u32 (base + base_size)) ≫= fun _ =>
    let nouse_size := u32 (ptr - base) in
    scheck (nouse_size + alloc_bytes <=? base_size) ≫= fun _ =>
    scheck (HEAP_MINSIZE <=? nouse_size) ≫= fun _ =>
    heap_free_untraced base nouse_size flags ≫= fun _ =>
    let size := base_size - nouse_size in
    scheck (HEAP_MINSIZE <=? size) ≫= fun _ =>
    scheck (alloc_bytes <=? size) ≫= fun _ =>
    let nouse_size := size - alloc_bytes in
    size ←
      (if HEAP_MINSIZE <=? nouse_size then
         heap_free_untraced (ptr + alloc_bytes) nouse_size flags ≫= fun _ =>
         mret (size - nouse_size)
       else mret size);
    scheck (alloc_bytes <=? size) ≫= fun _ =>
    scheck (IS_ALIGNED (ptr + offset) min_alignment) ≫= fun _ =>
    scheck (IS_ALIGNED size HEAP_ALIGNMENT) ≫= fun _ =>
    scheck (HEAP_MINSIZE <=? size) ≫= fun _ =>
    mret (ptr, size).
Definition heap_align_untraced (min_alignment offset num_bytes flags : Z) : HM (Z * Z) :=
  scheck (negb (min_alignment =? 0)) ≫= fun _ =>
  scheck (Z.land min_alignment (min_alignment - 1) =? 0) ≫= fun _ =>
  let offset := Z.land offset (min_alignment - 1) in
  if (min_alignment <=? HEAP_ALIGNMENT) && (offset =? 0) then heap_alloc_untraced num_bytes flags
  else
    match round_size num_bytes with
    | None => sthrow E_BADALLOC
    | Some alloc_bytes =>
        found ← search_heap (align_chain min_alignment offset alloc_bytes) alloc_bytes;
        match found with
        | Some (chain, alignment_base) =>
            align_in_chain chain alignment_base min_alignment offset alloc_bytes flags
        | None => align_overalloc min_alignment offset alloc_bytes flags
        end
    end.

(** ** Reallocation *)
(** Copying to a new block, which is freed when the old one cannot be read. *)
Definition move_block (old_ptr old_bytes alloc_flags free_flags : Z) (result : Z * Z)
    : HM (Z * Z) :=
  scatch (request ≫= fun _ => memcpy (fst result) old_ptr old_bytes)
    (fun e => heap_free_untraced (fst result) (snd result) (Z.ldiff alloc_flags GFP_CALLOC)
                ≫= fun _ => sthrow e) ≫= fun _ =>
  heap_free_untraced old_ptr old_bytes (Z.ldiff free_flags GFP_CALLOC) ≫= fun _ =>
  mret result.
Definition realloc_checks (old_ptr old_bytes : Z) : HM unit :=
  scheck (IS_ALIGNED old_bytes HEAP_ALIGNMENT) ≫= fun _ =>
  scheck ((old_bytes =? 0) || IS_ALIGNED old_ptr HEAP_ALIGNMENT) ≫= fun _ =>
  scheck ((old_bytes =? 0) || (HEAP_MINSIZE <=? old_bytes)).
(** The part that [heap_realloc_untraced] and [heap_realign_untraced] share; [alloc]
    makes a new block. *)
Definition resize_block (old_ptr old_bytes new_bytes alloc_flags free_flags : Z)
    (alloc : HM (Z * Z)) : HM (Z * Z) :=
  if new_bytes <=? old_bytes then
    let free_bytes := old_bytes - new_bytes in
    if HEAP_MINSIZE <=? free_bytes then
      heap_free_untraced (old_ptr + new_bytes) free_bytes free_flags ≫= fun _ =>
      mret (old_ptr, new_bytes)
    else mret (old_ptr, old_bytes)
  else
    missing_bytes ← heap_allat_untraced (u32 (old_ptr + old_bytes)) (new_bytes - old_bytes) alloc_flags;
    if negb (missing_bytes =? 0) then mret (old_ptr, old_bytes + missing_bytes)
    else
      result ← alloc;
      move_block old_ptr old_bytes alloc_flags free_flags result.
Definition heap_realloc_untraced (old_ptr old_bytes new_bytes alloc_flags free_flags : Z)
    : HM (Z * Z) :=
  realloc_checks old_ptr old_bytes ≫= fun _ =>
  if old_bytes =? 0 then heap_alloc_untraced new_bytes alloc_flags
  else
    match round_size new_bytes with
    | None => sthrow E_BADALLOC
    | Some new_bytes =>
        resize_block old_ptr old_bytes new_bytes alloc_flags free_flags
          (heap_alloc_untraced new_bytes alloc_flags)
    end.
(** [new_bytes] is raised to [HEAP_MINSIZE] only where the block shrinks. *)
Definition heap_realign_untraced
    (old_ptr old_bytes min_alignment offset new_bytes alloc_flags free_flags : Z) : HM (Z * Z) :=
  realloc_checks old_ptr old_bytes ≫= fun _ =>
  if old_bytes =? 0 then heap_align_untraced min_alignment offset new_bytes alloc_flags
  else if 2 ^ 32 <=? new_bytes + (HEAP_ALIGNMENT - 1) then sthrow E_BADALLOC
  else
    let new_bytes := Z.ldiff (new_bytes + (HEAP_ALIGNMENT - 1)) (HEAP_ALIGNMENT - 1) in
    let new_bytes :=
      if (new_bytes <=? old_bytes) && (new_bytes <? HEAP_MINSIZE) then HEAP_MINSIZE else new_bytes in
    resize_block old_ptr old_bytes new_bytes alloc_flags free_flags
      (heap_align_untraced min_alignment offset new_bytes alloc_flags).

(** ** Trimming *)
(** The pages of [chain], if head and tail can stay ranges of their own. *)
Definition trim_chain (chain : mfree) : outcome (option (Z * Z * Z * Z)) :=
  let free_min := (mf_base chain + (PAGESIZE - 1)) `div` PAGESIZE in
  let free_end := MFREE_END chain `div` PAGESIZE in
  let head_keep := free_min * PAGESIZE - mf_base chain in
  let tail_keep := MFREE_END chain - free_end * PAGESIZE in
  Ret (if free_end <=? free_min then None
       else if negb (head_keep =? 0) && (head_keep <? HEAP_MINSIZE) then None
       else if negb (tail_keep =? 0) && (tail_keep <? HEAP_MINSIZE) then None
       else Some (free_min, free_end, head_keep, tail_keep)).
Definition trim_one (chain : mfree) (free_min free_end head_keep tail_keep : Z) : HM unit :=
  take_chain chain ≫= fun _ =>
  clear_header (mf_base chain) (mf_flags chain) ≫= fun _ =>
  (if head_keep =? 0 then mret tt
   else heap_free_raw free_fuel (mf_base chain) head_keep (mf_flags chain)) ≫= fun _ =>
  (if tail_keep =? 0 then mret tt
   else heap_free_raw free_fuel (MFREE_END chain - tail_keep) tail_keep (mf_flags chain)) ≫= fun _ =>
  core_page_free free_min (free_end - free_min).
Fixpoint trim_loop (fuel : nat) (threshold result : Z) : HM Z :=
  match fuel with
  | O => fun _ => SPanic
  | S fuel =>
      found ← search_heap trim_chain threshold;
      match found with
      | None => mret result
      | Some (chain, (free_min, free_end, head_keep, tail_keep)) =>
          trim_one chain free_min free_end head_keep tail_keep ≫= fun _ =>
          trim_loop fuel threshold (u32 (result + (free_end - free_min) * PAGESIZE))
      end
  end.
(** Every turn gives back a page of free memory. *)
Definition trim_fuel (ls : list (list mfree)) : nat :=
  S (Z.to_nat (foldr (fun x n => mf_size x + n) 0 (concat ls) `div` PAGESIZE)).
Definition heap_trim (threshold : Z) : HM Z :=
  let threshold := HEAP_CEIL_ALIGN threshold PAGESIZE in
  let threshold := if threshold =? 0 then PAGESIZE else threshold in
  h ← self;
  trim_loop (trim_fuel (h_size h)) threshold 0.
End Ops.
