(* ===== verification/HeapInv.v ===== *)
(** The invariant of a heap, and the correctness of freeing.

    A byte is [used] when it is mapped and no free range of the heap holds it; to
    allocate is to make bytes used, to free is to make them unused.  [heap_ok] relates
    the two structures of the heap to each other, to the address space and to the
    contents of memory. *)
From S2P Require Import Prelude.
From stdpp Require Import list sorting.
From S2P Require Import ATree Heap.
#[local] Open Scope Z_scope.

(** * Arithmetic *)
Lemma is_aligned_mod x : IS_ALIGNED x HEAP_ALIGNMENT = true <-> x `mod` 8 = 0.
Proof.
  unfold IS_ALIGNED, HEAP_ALIGNMENT. lia.
Qed.
Lemma round_down x k : 0 <= k -> Z.ldiff x (2 ^ k - 1) = x - x `mod` 2 ^ k.
Proof.
  intros Hk. replace (2 ^ k - 1) with (Z.ones k) by (rewrite Z.ones_equiv; lia).
  rewrite Z.ldiff_ones_r by lia. rewrite Z.shiftl_mul_pow2, Z.shiftr_div_pow2 by lia.
  pose proof (Z.div_mod x (2 ^ k) ltac:(lia)). lia.
Qed.
Lemma round_down8 x : Z.ldiff x (HEAP_ALIGNMENT - 1) = x - x `mod` 8.
Proof. apply (round_down x 3). lia. Qed.
Lemma round_down_page x : Z.ldiff x (PAGESIZE - 1) = x - x `mod` 4096.
Proof. apply (round_down x 12). lia. Qed.
Lemma bucket_of size : 0 < size -> HEAP_BUCKET_OF size = Z.log2 size - 3.
Proof.
  intros Hs. unfold HEAP_BUCKET_OF, clz32, HEAP_BUCKET_OFFSET.
  destruct (Z.eqb_spec size 0); lia.
Qed.
Lemma bucket_range size : 24 <= size < 2 ^ 32 -> 0 <= HEAP_BUCKET_OF size < 29.
Proof.
  intros Hs. rewrite bucket_of by lia.
  pose proof (Z.log2_le_mono 24 size ltac:(lia)) as H1. change (Z.log2 24) with 4 in H1.
  pose proof (Z.log2_lt_pow2 size 32 ltac:(lia)). lia.
Qed.

(** Flags of a range are zero or [MFREE_FZERO]. *)
Lemma land_calloc f : Z.land f GFP_CALLOC = 0 \/ Z.land f GFP_CALLOC = GFP_CALLOC.
Proof.
  destruct (Z.testbit f 4) eqn:E; [right|left]; apply Z.bits_inj'; intros n Hn;
    rewrite Z.land_spec; change GFP_CALLOC with (2 ^ 4);
    rewrite ?Z.bits_0, Z.pow2_bits_eqb by lia;
    destruct (Z.eqb_spec 4 n) as [<-|]; rewrite ?E, ?andb_false_r, ?andb_true_r; done.
Qed.
Lemma has_calloc f : has f GFP_CALLOC = true <-> Z.land f GFP_CALLOC = GFP_CALLOC.
Proof.
  unfold has. destruct (land_calloc f) as [E|E]; rewrite E; cbn; split; done.
Qed.

(** * Sums of sizes *)
Fixpoint sizes (l : list mfree) : Z :=
  match l with [] => 0 | x :: l => mf_size x + sizes l end.
#[export] Instance sizes_proper : Proper ((≡ₚ) ==> eq) sizes.
Proof. induction 1; cbn; lia. Qed.

Definition inside (x : mfree) (a : Z) : Prop := mf_base x <= a < MFREE_END x.
Lemma covers_inside x a : covers x a = true <-> inside x a.
Proof. unfold covers, inside. cbn. lia. Qed.
Record node_ok (x : mfree) : Prop := {
  no_base : 0 <= mf_base x;
  no_align : mf_base x `mod` 8 = 0;
  no_asize : mf_size x `mod` 8 = 0;
  no_size : HEAP_MINSIZE <= mf_size x;
  no_end : MFREE_END x < 2 ^ 32;
  no_flags : mf_flags x = 0 \/ mf_flags x = GFP_CALLOC;
}.
Lemma node_ok_fits x : node_ok x -> node_fits 32 x.
Proof. intros []. unfold node_fits, MFREE_END, HEAP_MINSIZE in *. cbn. unfold MFREE_END. lia. Qed.

(** * The lists by size *)
Definition by_size (x y : mfree) : Prop := mf_size x <= mf_size y.
Record buckets_ok (ls : list (list mfree)) (ns : list mfree) : Prop := {
  bk_len : length ls = 29%nat;
  bk_elems : concat ls ≡ₚ ns;
  bk_bucket : forall i l, ls !! i = Some l ->
    Forall (fun x => HEAP_BUCKET_OF (mf_size x) = Z.of_nat i) l /\ StronglySorted by_size l;
}.
#[export] Instance by_size_trans : Transitive by_size.
Proof. intros x y z. unfold by_size. lia. Qed.

Lemma insert_by_size_perm x l : insert_by_size x l ≡ₚ x :: l.
Proof.
  induction l as [|y l IH]; cbn; [done|]. destruct (_ <? _); [|done]. rewrite IH. solve_Permutation.
Qed.
Lemma insert_by_size_sorted x l :
  StronglySorted by_size l -> StronglySorted by_size (insert_by_size x l).
Proof.
  induction 1 as [|y l Hl IH Hy]; cbn; [by repeat constructor|].
  destruct (Z.ltb_spec (mf_size y) (mf_size x)).
  - constructor; [done|]. rewrite insert_by_size_perm. constructor; [unfold by_size; lia|done].
  - constructor; [by constructor|]. constructor; [unfold by_size; lia|].
    eapply Forall_impl; [done|]. intros z. unfold by_size. lia.
Qed.
Lemma concat_insert {A} (ls : list (list A)) i l l' x :
  ls !! i = Some l -> l' ≡ₚ x :: l -> concat (<[i := l']> ls) ≡ₚ x :: concat ls.
Proof.
  intros Hi Hl. rewrite <- (take_drop_middle ls i l Hi) at 2.
  rewrite insert_take_drop by (by eapply lookup_lt_Some).
  rewrite !concat_app. cbn. rewrite Hl. solve_Permutation.
Qed.
Lemma buckets_insert ls ns x i l :
  buckets_ok ls ns -> HEAP_BUCKET_OF (mf_size x) = Z.of_nat i -> ls !! i = Some l ->
  buckets_ok (<[i := insert_by_size x l]> ls) (x :: ns).
Proof.
  intros [Hlen Hel Hb] Hx Hl. split.
  - by rewrite length_insert.
  - rewrite (concat_insert ls i l _ x Hl); [by rewrite Hel|apply insert_by_size_perm].
  - intros j k Hk. destruct (decide (i = j)) as [<-|].
    + rewrite list_lookup_insert_eq in Hk by (by eapply lookup_lt_Some). injection Hk as <-.
      destruct (Hb i l Hl) as [Hf Hs]. split; [|by apply insert_by_size_sorted].
      rewrite insert_by_size_perm. by constructor.
    + rewrite list_lookup_insert_ne in Hk by done. by apply Hb.
Qed.
Lemma filter_concat {A} (P : A -> Prop) `{!forall x, Decision (P x)} (ls : list (list A)) :
  concat (filter P <$> ls) = filter P (concat ls).
Proof. induction ls as [|l ls IH]; cbn; [done|]. by rewrite filter_app, IH. Qed.
Lemma Forall_filter {A} (P Q : A -> Prop) `{!forall x, Decision (Q x)} (l : list A) :
  Forall P l -> Forall P (filter Q l).
Proof.
  induction 1 as [|x l Hx _ IH]; [constructor|]. rewrite filter_cons. case_decide; [|done].
  by constructor.
Qed.
Lemma list_remove_ok ls ns x :
  buckets_ok ls (x :: ns) -> Forall (fun y => mf_base y <> mf_base x) ns ->
  exists ls', list_remove x ls = Ret ls' /\ buckets_ok ls' ns.
Proof.
  intros [Hlen Hel Hb] Hne. unfold list_remove.
  rewrite bind_kassert by (apply bool_decide_eq_true; rewrite Hel; by left).
  eexists. split; [done|]. split.
  - by rewrite length_fmap.
  - rewrite filter_concat, Hel, filter_cons_False by naive_solver.
    by rewrite filter_all.
  - intros i l Hi. rewrite list_lookup_fmap in Hi. destruct (ls !! i) as [k|] eqn:Ek; [|done].
    injection Hi as <-. destruct (Hb i k Ek) as [Hf Hs]. split; [by apply Forall_filter|].
    clear -Hs. induction Hs as [|y k _ IH Hy]; [constructor|].
    rewrite filter_cons. case_decide; [|done]. constructor; [done|by apply Forall_filter].
Qed.

(** * The invariant *)
Section Inv.
Context `{VM : KernelVM}.
Implicit Types s : hstate.

Definition nodes s : list mfree := aelems (h_addr (hs_heap s)).
Definition free s (a : Z) : Prop := exists x, x ∈ nodes s /\ inside x a.
#[export] Instance inside_dec x a : Decision (inside x a).
Proof. unfold inside. apply _. Defined.
#[export] Instance free_dec s a : Decision (free s a).
Proof.
  destruct (decide (Exists (fun x => inside x a) (nodes s))) as [H|H]; [left|right];
    unfold free; by rewrite <- Exists_exists.
Defined.
Definition mapped s (a : Z) : Prop := vm_mapped (hs_vm s) (a `div` PAGESIZE) = true.
Definition used s (a : Z) : Prop := mapped s a /\ ~ free s a.
(** A range that claims to be zero is, behind its header. *)
Definition zero_ok (m : Z -> option Z) (x : mfree) : Prop :=
  mf_flags x = GFP_CALLOC ->
  forall a, mf_base x + SIZEOF_MFREE <= a < MFREE_END x -> m a = Some 0.
Record heap_ok s : Prop := {
  hk_tree : atree_ok 32 (h_addr (hs_heap s));
  hk_nodes : Forall node_ok (nodes s);
  hk_size : buckets_ok (h_size (hs_heap s)) (nodes s);
  hk_mapped : forall a, free s a -> mapped s a;
  hk_zero : Forall (zero_ok (hs_mem s)) (nodes s);
  (** neighbours have been united *)
  hk_apart : forall x y, x ∈ nodes s -> y ∈ nodes s -> MFREE_END x <> mf_base y;
  hk_vm : vm_ok (hs_vm s);
  hk_over : 0 <= h_overalloc (hs_heap s);
}.
(** What an operation on the heap does not change. *)
Definition same_cfg s s' : Prop :=
  h_overalloc (hs_heap s') = h_overalloc (hs_heap s) /\
  h_freethresh (hs_heap s') = h_freethresh (hs_heap s) /\
  h_hintmode (hs_heap s') = h_hintmode (hs_heap s) /\
  h_dangle (hs_heap s') = h_dangle (hs_heap s).
#[export] Instance same_cfg_refl : Reflexive same_cfg.
Proof. done. Qed.
#[export] Instance same_cfg_trans : Transitive same_cfg.
Proof. intros s1 s2 s3 (? & ? & ? & ?) (? & ? & ? & ?). split_and!; congruence. Qed.
Definition total s : Z := sizes (nodes s).

Lemma free_node s x : heap_ok s -> x ∈ nodes s -> node_ok x.
Proof. intros Hok Hx. pose proof (hk_nodes _ Hok) as H. rewrite Forall_forall in H. by apply H. Qed.
Lemma node_nonempty x : node_ok x -> mf_base x < MFREE_END x.
Proof. intros []. unfold MFREE_END, HEAP_MINSIZE in *. lia. Qed.
Lemma separated_in (l : list mfree) x y a :
  separated l -> x ∈ l -> y ∈ l -> inside x a -> inside y a -> x = y.
Proof. intros Hs Hx Hy Ha Hb. apply (covers_unique l x y a); try done; by apply covers_inside. Qed.
Lemma disjoint_inside (x y : mfree) :
  node_ok x -> node_ok y -> disjoint x y <-> forall a, inside x a -> inside y a -> False.
Proof.
  intros Hx%node_nonempty Hy%node_nonempty. unfold disjoint, inside. cbn. split; [lia|].
  intros H. destruct (decide (MFREE_END x - 1 < mf_base y)) as [|Hn1]; [by left|right].
  destruct (decide (MFREE_END y - 1 < mf_base x)) as [|Hn2]; [done|]. exfalso.
  apply (H (Z.max (mf_base x) (mf_base y))); lia.
Qed.

(** [s'] is [s] without the range [x]. *)
Definition taken s (x : mfree) s' : Prop :=
  nodes s ≡ₚ x :: nodes s' /\ heap_ok s' /\
  exists t l, s' = with_heap s (with_lists (hs_heap s) t l).
Lemma taken_ok s x t l :
  heap_ok s -> atree_ok 32 t -> nodes s ≡ₚ x :: aelems t -> buckets_ok l (aelems t) ->
  taken s x (with_heap s (with_lists (hs_heap s) t l)).
Proof.
  intros Hok Ht Hp Hl. split; [done|]. split; [|by exists t, l].
  assert (Hsub : forall y, y ∈ aelems t -> y ∈ nodes s) by (intros y Hy; rewrite Hp; by right).
  destruct Hok as [_ Hn _ Hm Hz Ha Hv Ho]. split; try done; cbn.
  - unfold nodes at 1 in Hn. fold (nodes s) in Hn. rewrite Hp in Hn. by apply Forall_cons in Hn as [_ ?].
  - intros a (y & Hy & Hin). apply Hm. exists y. split; [by apply Hsub|done].
  - rewrite Hp in Hz. by apply Forall_cons in Hz as [_ ?].
  - intros y z Hy Hz'. apply Ha; by apply Hsub.
Qed.
Lemma taken_bases s x ns :
  heap_ok s -> nodes s ≡ₚ x :: ns -> Forall (fun y => mf_base y <> mf_base x) ns.
Proof.
  intros Hok Hp. pose proof (hk_nodes _ Hok) as Hn. rewrite Hp in Hn.
  apply Forall_cons in Hn as [Hx%node_nonempty Hn].
  destruct (hk_tree _ Hok) as [_ Hs]. fold (nodes s) in Hs. rewrite Hp in Hs. destruct Hs as [Hd _].
  rewrite Forall_forall in Hd, Hn |- *. intros y Hy. pose proof (node_nonempty _ (Hn y Hy)).
  specialize (Hd y Hy). unfold disjoint in Hd. cbn in Hd. lia.
Qed.
Lemma srun_take_at key s (Q : option mfree -> hstate -> Prop) R :
  heap_ok s -> 0 <= key < 2 ^ 32 ->
  (~ free s key -> Q None s) ->
  (forall x s', inside x key -> taken s x s' -> Q (Some x) s') ->
  srun (take_at key) s Q R.
Proof.
  intros Hok Hk Hnone Hsome. unfold take_at. apply srun_bind.
  change (srun self s ?Q' ?R') with (Q' (hs_heap s) s). cbv beta. apply srun_bind.
  destruct (plocate_ok 32 ltac:(lia) (h_addr (hs_heap s)) key (hk_tree _ Hok) Hk) as (o & Ho & Hp).
  apply srun_lift with (a := o); [done|]. destruct o as [[[p sm] v]|].
  - destruct (ppop_ok 32 ltac:(lia) _ _ _ _ _ (hk_tree _ Hok) Hp) as (x & t & Hpop & Hc & Ht & Hel).
    apply srun_bind, srun_lift with (a := (x, t)); [done|]. cbn [fst snd].
    assert (Hbk : buckets_ok (h_size (hs_heap s)) (x :: aelems t)).
    { destruct (hk_size _ Hok) as [? He ?]. split; try done. by rewrite He. }
    destruct (list_remove_ok _ _ x Hbk) as (l & Hl & Hbk').
    { by apply (taken_bases s). }
    apply srun_bind, srun_lift with (a := l); [done|]. apply srun_bind.
    change (srun (set_heap ?h) s ?Q' ?R') with (Q' tt (with_heap s h)). cbv beta.
    apply srun_ret, Hsome; [by apply covers_inside|]. by apply taken_ok.
  - apply srun_ret, Hnone. intros (x & Hx & Hin%covers_inside). by rewrite (Hp x Hx) in Hin.
Qed.

(** ** Taking and inserting ranges *)
Lemma taken_sub s x s' y : taken s x s' -> y ∈ nodes s' -> y ∈ nodes s.
Proof. intros (Hp & _) Hy. rewrite Hp. by right. Qed.
Lemma taken_in s x s' : taken s x s' -> x ∈ nodes s.
Proof. intros (Hp & _). rewrite Hp. by left. Qed.
Lemma taken_free s x s' a :
  heap_ok s -> taken s x s' -> (free s a <-> free s' a \/ inside x a) /\
    (inside x a -> ~ free s' a).
Proof.
  intros Hok (Hp & Hok' & _). split; [split|].
  - intros (y & Hy & Hin). rewrite Hp in Hy. apply elem_of_cons in Hy as [->|Hy]; [by right|].
    left. by exists y.
  - intros [(y & Hy & Hin)|Hin]; [exists y|exists x]; (split; [|done]); rewrite Hp; [by right|by left].
  - intros Hin (y & Hy & Hin'). destruct (hk_tree _ Hok) as [_ Hs]. fold (nodes s) in Hs.
    rewrite Hp in Hs. destruct Hs as [Hd _]. rewrite Forall_forall in Hd. specialize (Hd y Hy).
    unfold disjoint, inside in *. cbn in Hd. lia.
Qed.
Lemma taken_used s x s' a :
  heap_ok s -> taken s x s' -> used s' a <-> used s a \/ inside x a.
Proof.
  intros Hok Ht. destruct (taken_free s x s' a Hok Ht) as [Hf Hx]. pose proof (hk_mapped _ Hok a) as Hm.
  destruct Ht as (_ & _ & t & l & ->). unfold used, mapped in *. cbn. rewrite Hf. split.
  - intros [? ?]. destruct (decide (mf_base x <= a < MFREE_END x)) as [|Hn]; [by right|left].
    split; [done|]. intros [?|?]; auto.
  - intros [[? ?]|Hin]; [naive_solver|]. split; [|by apply Hx]. apply Hm. apply Hf. by right.
Qed.
Lemma taken_total s x s' : taken s x s' -> total s = mf_size x + total s'.
Proof. intros (Hp & _). unfold total. by rewrite Hp. Qed.

(** Ranges that [x] could be united with. *)
Definition apart_from s (x : mfree) : Prop :=
  forall y, y ∈ nodes s -> MFREE_END y <> mf_base x /\ MFREE_END x <> mf_base y.
Lemma fill_out m a n b p : ~ a <= p < a + n -> fill m a n b p = m p.
Proof. intros H. unfold fill. by replace ((a <=? p) && (p <? a + n)) with false by lia. Qed.
Lemma fill_in m a n b p : a <= p < a + n -> fill m a n b p = b.
Proof. intros H. unfold fill. by replace ((a <=? p) && (p <? a + n)) with true by lia. Qed.
Definition inserted s (x : mfree) s' : Prop :=
  heap_ok s' /\ nodes s' ≡ₚ x :: nodes s /\ hs_vm s' = hs_vm s /\
  hs_mem s' = fill (hs_mem s) (mf_base x) SIZEOF_MFREE None /\ same_cfg s s'.
Lemma inserted_ok s x t l :
  heap_ok s -> node_ok x -> (forall a, inside x a -> used s a) -> zero_ok (hs_mem s) x ->
  apart_from s x -> atree_ok 32 t -> aelems t ≡ₚ x :: nodes s -> buckets_ok l (x :: nodes s) ->
  inserted s x (with_mem (with_heap s (with_lists (hs_heap s) t l))
    (fill (hs_mem s) (mf_base x) SIZEOF_MFREE None)).
Proof.
  intros Hok Hx Hu Hz Hap Ht Hp Hl. unfold inserted, nodes. cbn. split_and!; try done.
  assert (Hel : forall y, y ∈ aelems t <-> y = x \/ y ∈ nodes s)
    by (intros y; rewrite Hp; apply elem_of_cons).
  pose proof (node_nonempty x Hx) as Hne. pose proof (no_size x Hx) as Hsz.
  destruct Hok as [_ Hn _ Hm Hzs Ha Hv Ho]. split; unfold nodes; cbn; try done.
  - rewrite Hp. by constructor.
  - destruct Hl as [? He ?]. split; try done. by rewrite Hp.
  - intros a (y & Hy & Hin). unfold nodes in Hy. cbn in Hy. apply Hel in Hy as [->|Hy].
    + by destruct (Hu a Hin).
    + apply Hm. by exists y.
  - rewrite Hp. constructor.
    + intros Hf a Hin. rewrite fill_out by lia. by apply Hz.
    + rewrite Forall_forall in Hzs, Hn |- *. intros y Hy Hf a Hin.
      rewrite fill_out; [exact (Hzs y Hy Hf a Hin)|]. intros Hclob. destruct (Hu a) as [_ Hfr].
      * unfold inside, MFREE_END, HEAP_MINSIZE, SIZEOF_MFREE in *. lia.
      * apply Hfr. exists y. split; [done|]. pose proof (Hn y Hy) as []. unfold inside.
        unfold SIZEOF_MFREE in *. lia.
  - intros y z Hy Hz'. apply Hel in Hy as [->|Hy], Hz' as [->|Hz']; [lia|by apply Hap..|by apply Ha].
Qed.
Lemma srun_insert s x (Q : unit -> hstate -> Prop) R :
  heap_ok s -> node_ok x -> (forall a, inside x a -> used s a) -> zero_ok (hs_mem s) x ->
  apart_from s x -> (forall s', inserted s x s' -> Q tt s') ->
  srun (heap_insert_node_unlocked x) s Q R.
Proof.
  intros Hok Hx Hu Hz Hap HQ. pose proof Hx as [Hb _ _ Hs He _]. unfold HEAP_MINSIZE in Hs.
  unfold heap_insert_node_unlocked. apply srun_bind, srun_check; [lia|]. apply srun_bind.
  change (srun self s ?Q' ?R') with (Q' (hs_heap s) s). cbv beta.
  destruct (insert_ok 32 ltac:(lia) (h_addr (hs_heap s)) x (hk_tree _ Hok) (node_ok_fits x Hx))
    as (t & Hins & Ht & Hp).
  { fold (nodes s). apply Forall_forall. intros y Hy.
    apply disjoint_inside; [done|by eapply free_node|]. intros a Hxa Hya.
    destruct (Hu a Hxa) as [_ Hf]. apply Hf. by exists y. }
  apply srun_bind, srun_lift with (a := t); [done|].
  pose proof (bucket_range (mf_size x)) as Hbr. unfold MFREE_END in He.
  destruct (lookup_lt_is_Some_2 (h_size (hs_heap s)) (Z.to_nat (HEAP_BUCKET_OF (mf_size x))))
    as [l Hl].
  { rewrite (bk_len _ _ (hk_size _ Hok)). lia. }
  cbv zeta. apply srun_bind, srun_lift with (a := l); [unfold access; by rewrite Hl|].
  apply srun_bind.
  change (srun (set_heap ?h) s ?Q' ?R') with (Q' tt (with_heap s h)). cbv beta.
  change (srun (clobber ?a ?n) ?s1 ?Q' ?R') with (Q' tt (with_mem s1 (fill (hs_mem s1) a n None))).
  cbv beta. apply HQ.
  refine (inserted_ok s x t _ Hok Hx Hu Hz Hap Ht Hp _).
  eapply buckets_insert; [apply Hok| |done]. lia.
Qed.
Lemma inserted_free s x s' a : inserted s x s' -> free s' a <-> free s a \/ inside x a.
Proof.
  intros (_ & Hp & _). unfold free. split.
  - intros (y & Hy & Hin). rewrite Hp in Hy. apply elem_of_cons in Hy as [->|Hy]; [by right|].
    left. by exists y.
  - intros [(y & Hy & Hin)|Hin]; [exists y|exists x]; (split; [|done]); rewrite Hp; [by right|by left].
Qed.
Lemma inserted_used s x s' a : inserted s x s' -> used s' a <-> used s a /\ ~ inside x a.
Proof.
  intros Hi. unfold used, mapped. rewrite (inserted_free _ _ _ _ Hi).
  destruct Hi as (_ & _ & -> & _). naive_solver.
Qed.

(** ** Memory *)
Lemma heap_ok_mem s m :
  heap_ok s -> (forall a, free s a -> m a = hs_mem s a) -> heap_ok (with_mem s m).
Proof.
  intros [H1 H2 H3 H4 H5 H6 H7 H8] Hm. split; try done.
  change (nodes (with_mem s m)) with (nodes s). cbn.
  rewrite Forall_forall in H2, H5 |- *. intros x Hx Hf a Ha. rewrite Hm; [by apply (H5 x Hx)|].
  exists x. split; [done|]. unfold inside, SIZEOF_MFREE in *. lia.
Qed.
Lemma used_mem s m a : used (with_mem s m) a <-> used s a.
Proof. done. Qed.
Lemma srun_memset a b n s (Q : unit -> hstate -> Prop) R :
  Q tt (with_mem s (fill (hs_mem s) a n (Some b))) -> srun (memset a b n) s Q R.
Proof. done. Qed.
Lemma srun_clobber a n s (Q : unit -> hstate -> Prop) R :
  Q tt (with_mem s (fill (hs_mem s) a n None)) -> srun (clobber a n) s Q R.
Proof. done. Qed.
(** Code that may set bytes [p ... +n] to zero. *)
Lemma srun_clear (b : bool) p n s (Q : unit -> hstate -> Prop) R :
  (forall m, (forall a, ~ p <= a < p + n -> m a = hs_mem s a) ->
     (b = true -> forall a, p <= a < p + n -> m a = Some 0) ->
     (b = false -> m = hs_mem s) -> Q tt (with_mem s m)) ->
  srun (if b then memset p 0 n else mret tt) s Q R.
Proof.
  intros HQ. destruct b.
  - apply srun_memset, HQ; [intros a Ha; by apply fill_out|intros _ a Ha; by apply fill_in|done].
  - apply srun_ret. destruct s. by apply HQ.
Qed.

(** ** Uniting a range with its neighbours *)
Record free_pre s (ptr n flags : Z) : Prop := {
  fp_ok : heap_ok s;
  fp_ptr : 0 <= ptr;
  fp_align : ptr `mod` 8 = 0;
  fp_asize : n `mod` 8 = 0;
  fp_min : HEAP_MINSIZE <= n;
  fp_end : ptr + n < 2 ^ 32;
  fp_used : forall a, ptr <= a < ptr + n -> used s a;
  fp_zero : has flags GFP_CALLOC = true -> forall a, ptr <= a < ptr + n -> hs_mem s a = Some 0;
}.
(** [x] is the range, with ranges next to it, which are no longer in the heap. *)
Record joined s (ptr n : Z) (x : mfree) s' : Prop := {
  jn_ok : heap_ok s';
  jn_node : node_ok x;
  jn_base : mf_base x <= ptr;
  jn_end : ptr + n <= MFREE_END x;
  jn_used : forall a, used s' a <-> used s a \/ inside x a;
  jn_free : forall a, inside x a -> ~ ptr <= a < ptr + n -> free s a;
  jn_zero : zero_ok (hs_mem s') x;
  jn_mem : forall a, ~ inside x a -> hs_mem s' a = hs_mem s a;
  jn_vm : hs_vm s' = hs_vm s;
  jn_cfg : same_cfg s s';
  jn_total : total s' + mf_size x = total s + n;
}.
(** The neighbours of a range of used bytes. *)
Lemma below_end s x p :
  heap_ok s -> 0 <= p < 2 ^ 32 -> x ∈ nodes s -> inside x (u32 (p - 1)) -> used s p ->
  MFREE_END x = p.
Proof.
  intros Hok Hp Hx Hin [_ Hf]. pose proof (free_node _ _ Hok Hx) as [? _ _ _ He _].
  assert (~ inside x p) by (intros ?; apply Hf; by exists x). unfold inside in *.
  destruct (decide (p = 0)) as [->|]; [change (u32 (0 - 1)) with (2 ^ 32 - 1) in Hin; lia|].
  rewrite u32_small in Hin by lia. lia.
Qed.
Lemma below_apart s x p :
  heap_ok s -> 0 <= p < 2 ^ 32 -> ~ free s (u32 (p - 1)) -> x ∈ nodes s -> MFREE_END x <> p.
Proof.
  intros Hok Hp Hf Hx He. apply Hf. exists x. split; [done|].
  pose proof (free_node _ _ Hok Hx) as Hn. pose proof (node_nonempty _ Hn). destruct Hn.
  unfold inside. rewrite u32_small by lia. lia.
Qed.
Lemma above_base s x p :
  heap_ok s -> x ∈ nodes s -> inside x p -> used s (p - 1) -> mf_base x = p.
Proof.
  intros Hok Hx Hin [_ Hf]. assert (~ inside x (p - 1)) by (intros ?; apply Hf; by exists x).
  unfold inside in *. lia.
Qed.
Lemma above_apart s x p : heap_ok s -> ~ free s p -> x ∈ nodes s -> p <> mf_base x.
Proof.
  intros Hok Hf Hx He. apply Hf. exists x. split; [done|].
  pose proof (node_nonempty _ (free_node _ _ Hok Hx)). unfold inside. lia.
Qed.
Lemma land_flags f g :
  f = 0 \/ f = GFP_CALLOC ->
  (Z.land f g = 0 \/ Z.land f g = GFP_CALLOC) /\
  (Z.land f g = GFP_CALLOC -> f = GFP_CALLOC /\ has g GFP_CALLOC = true).
Proof.
  intros [->| ->]; [rewrite Z.land_0_l; split; [by left|done]|]. rewrite Z.land_comm.
  destruct (land_calloc g) as [E|E]; rewrite E; [split; [by left|done]|].
  split; [by right|]. intros _. split; [done|]. by apply has_calloc.
Qed.
Lemma land_calloc_flags f g :
  f = 0 \/ f = GFP_CALLOC -> Z.land f (Z.land g GFP_CALLOC) = Z.land f g.
Proof.
  intros [->| ->]; [by rewrite !Z.land_0_l|].
  by rewrite (Z.land_comm g), Z.land_assoc, Z.land_diag.
Qed.
Lemma has_flags f : f = 0 \/ f = GFP_CALLOC -> has f GFP_CALLOC = true <-> f = GFP_CALLOC.
Proof. intros [->| ->]; cbn; split; done. Qed.
Lemma taken_zero s x s' :
  heap_ok s -> taken s x s' -> zero_ok (hs_mem s') x /\ hs_mem s' = hs_mem s /\
    hs_vm s' = hs_vm s /\ same_cfg s s'.
Proof.
  intros Hok Ht. pose proof (taken_in _ _ _ Ht) as Hx. destruct Ht as (_ & _ & t & l & ->).
  split_and!; try done. pose proof (hk_zero _ Hok) as H. rewrite Forall_forall in H. by apply H.
Qed.

Lemma joined_used s ptr n x s' a : joined s ptr n x s' -> inside x a -> used s' a.
Proof. intros Hj Ha. apply (jn_used _ _ _ _ _ Hj). by right. Qed.
(** The range alone, and with the range [y] below it. *)
Lemma join_alone s ptr n flags :
  free_pre s ptr n flags -> joined s ptr n (MkFree ptr n (Z.land flags GFP_CALLOC)) s.
Proof.
  intros [Hok Hp0 Hal Has Hmin Hend Hu Hz]. split; try done; cbn; unfold MFREE_END; cbn; try lia.
  - split; try done. cbn. by destruct (land_calloc flags); auto.
  - intros a. unfold inside, MFREE_END. cbn. split; [by left|]. intros [?|?]; [done|]. by apply Hu.
  - intros Hf a Ha. cbn in Hf, Ha. apply Hz; [by apply has_calloc|].
    unfold MFREE_END, SIZEOF_MFREE in Ha. cbn in Ha. lia.
Qed.
Lemma join_below s ptr n flags y s1 :
  free_pre s ptr n flags -> taken s y s1 -> MFREE_END y = ptr ->
  joined s ptr n (MkFree (mf_base y) (mf_size y + n) (Z.land (mf_flags y) flags)) s1.
Proof.
  intros [Hok Hp0 Hal Has Hmin Hend Hu Hz] Ht Hy.
  pose proof (free_node _ _ Hok (taken_in _ _ _ Ht)) as [Hb Hba Hbs Hbm Hbe Hbf].
  destruct (taken_zero _ _ _ Hok Ht) as (Hzy & Hm1 & Hv1 & Hc1). pose proof Ht as (_ & Hok1 & _).
  pose proof (taken_total _ _ _ Ht) as Htot. destruct (land_flags (mf_flags y) flags Hbf) as [Hf1 Hf1'].
  unfold MFREE_END, HEAP_MINSIZE in *. split; try done; cbn; unfold MFREE_END; cbn; try lia.
  - split; cbn; unfold MFREE_END, HEAP_MINSIZE; cbn; done || mlia.
  - intros a. rewrite (taken_used s y s1) by done. unfold inside, MFREE_END. cbn.
    split; [intros [?|?]; [by left|right; lia]|intros [?|?]; [by left|]].
    destruct (decide (a < ptr)); [right; lia|left; apply Hu; lia].
  - intros a Ha Hr. exists y. split; [by eapply taken_in|].
    unfold inside, MFREE_END in *. cbn in Ha. lia.
  - intros Hf a Ha. cbn in Hf, Ha. unfold MFREE_END in Ha. cbn in Ha. rewrite Hm1.
    destruct (Hf1' Hf) as [Hf2 Hf3]. destruct (decide (a < ptr)).
    + rewrite <- Hm1. apply Hzy; [done|]. unfold MFREE_END. lia.
    + apply Hz; [done|lia].
  - intros a _. by rewrite Hm1.
Qed.
(** A further range [z] above; [m] is memory with the header of [z] cleared. *)
Lemma join_above s ptr n x s1 z s2 flags m :
  heap_ok s -> joined s ptr n x s1 -> taken s1 z s2 -> mf_base z = MFREE_END x ->
  flags = 0 \/ flags = GFP_CALLOC ->
  (flags = GFP_CALLOC -> mf_flags x = GFP_CALLOC /\ mf_flags z = GFP_CALLOC) ->
  (forall a, ~ mf_base z <= a < mf_base z + SIZEOF_MFREE -> m a = hs_mem s2 a) ->
  (flags = GFP_CALLOC -> forall a, mf_base z <= a < mf_base z + SIZEOF_MFREE -> m a = Some 0) ->
  joined s ptr n (MkFree (mf_base x) (mf_size x + mf_size z) flags) (with_mem s2 m).
Proof.
  intros Hok [Hok1 Hx Hxb Hxe Hxu Hxf Hxz Hxm Hxv Hxc Hxt] Ht Hbz Hfl Hfl' Hmo Hmi.
  pose proof (free_node _ _ Hok1 (taken_in _ _ _ Ht)) as [Hb Hba Hbs Hbm Hbe Hbf].
  destruct (taken_zero _ _ _ Hok1 Ht) as (Hzz & Hm2 & Hv2 & Hc2). pose proof Ht as (_ & Hok2 & _).
  pose proof (taken_total _ _ _ Ht) as Htot. destruct Hx as [Hc Hca Hcs Hcm Hce Hcf].
  assert (Hzin : forall a, mf_base z <= a < mf_base z + SIZEOF_MFREE -> inside z a).
  { unfold inside, MFREE_END, HEAP_MINSIZE, SIZEOF_MFREE in *. lia. }
  unfold MFREE_END, HEAP_MINSIZE in *. split; try done; cbn; unfold MFREE_END; cbn; try lia.
  - apply heap_ok_mem; [done|]. intros a Ha. apply Hmo. intros Hin%Hzin.
    by apply (taken_free s1 z s2) in Hin.
  - split; cbn; unfold MFREE_END, HEAP_MINSIZE; cbn; done || mlia.
  - intros a. rewrite used_mem, (taken_used s1 z s2), Hxu by done. unfold inside, MFREE_END. cbn.
    split; [intros [[?|?]|?]; [by left|right; lia..]|intros [?|?]; [by left; left|]].
    destruct (decide (a < mf_base z)); [left; right; lia|right; lia].
  - intros a Ha Hr. unfold inside, MFREE_END in Ha. cbn in Ha.
    destruct (decide (a < mf_base z)); [apply Hxf; [unfold inside, MFREE_END; lia|done]|].
    destruct (hk_tree _ Hok1) as [_ _].
    assert (free s1 a) as Hfa by (exists z; split; [by eapply taken_in|unfold inside, MFREE_END; lia]).
    pose proof (hk_mapped _ Hok1 a Hfa) as Hma. unfold mapped in Hma. rewrite Hxv in Hma.
    destruct (decide (free s a)) as [?|Hn]; [done|]. exfalso.
    assert (used s1 a) as [_ ?]; [|done]. apply Hxu. left. by split.
  - intros Hf a Ha. cbn in Hf, Ha. unfold MFREE_END in Ha. cbn in Ha. destruct (Hfl' Hf) as [Hf1 Hf2].
    destruct (decide (mf_base z <= a < mf_base z + SIZEOF_MFREE)) as [Hh|Hh]; [by apply Hmi|].
    rewrite Hmo by done. destruct (decide (a < mf_base z)).
    + rewrite Hm2. apply Hxz; [done|]. unfold MFREE_END. lia.
    + apply Hzz; [done|]. unfold MFREE_END. lia.
  - intros a Ha. unfold inside, MFREE_END in Ha. cbn in Ha. rewrite Hmo, Hm2, Hxm; [done|..].
    + unfold inside, MFREE_END. lia.
    + intros Hin%Hzin. unfold inside, MFREE_END in Hin. lia.
  - congruence.
  - by etransitivity.
  - change (total (with_mem s2 m)) with (total s2). lia.
Qed.
(** Memory may be changed in the header of [x]. *)
Lemma joined_header s ptr n x s1 m :
  joined s ptr n x s1 ->
  (forall a, ~ mf_base x <= a < mf_base x + SIZEOF_MFREE -> m a = hs_mem s1 a) ->
  joined s ptr n x (with_mem s1 m).
Proof.
  intros Hj Hm. pose proof Hj as [Hok1 Hx Hxb Hxe Hxu Hxf Hxz Hxm Hxv Hxc Hxt].
  assert (Hin : forall a, mf_base x <= a < mf_base x + SIZEOF_MFREE -> inside x a).
  { destruct Hx. unfold inside, MFREE_END, HEAP_MINSIZE, SIZEOF_MFREE in *. lia. }
  split; try done.
  - apply heap_ok_mem; [done|]. intros a Ha. apply Hm. intros Hi%Hin.
    by apply (joined_used _ _ _ _ _ _ Hj) in Hi as [_ ?].
  - intros Hf a Ha. cbn. rewrite Hm by lia. by apply Hxz.
  - intros a Ha. cbn. rewrite Hm; [by apply Hxm|]. by intros Hi%Hin.
Qed.

Definition united s (ptr n : Z) (x : mfree) s' : Prop := joined s ptr n x s' /\ apart_from s' x.
Lemma joined_ends s ptr n flags x s1 :
  free_pre s ptr n flags -> joined s ptr n x s1 -> used s1 (MFREE_END x - 1).
Proof.
  intros Hp Hj. apply (joined_used _ _ _ _ _ _ Hj). pose proof (node_nonempty _ (jn_node _ _ _ _ _ Hj)).
  unfold inside. lia.
Qed.
Lemma extend_above_ok s ptr n flags y s1 R :
  free_pre s ptr n flags -> taken s y s1 -> MFREE_END y = ptr ->
  srun (extend_above y ptr n flags) s1 (united s ptr n) R.
Proof.
  intros Hpre Ht Hy. pose proof (fp_ok _ _ _ _ Hpre) as Hok. pose proof (fp_end _ _ _ _ Hpre) as Hend.
  pose proof (fp_ptr _ _ _ _ Hpre) as Hptr. pose proof (fp_min _ _ _ _ Hpre) as Hmin.
  pose proof (free_node _ _ Hok (taken_in _ _ _ Ht)) as [_ _ _ _ _ Hbf].
  pose proof (join_below _ _ _ _ _ _ Hpre Ht Hy) as Hj. pose proof (jn_ok _ _ _ _ _ Hj) as Hok1.
  unfold extend_above. cbv zeta. unfold set_size. cbn [mf_flags mf_size mf_base].
  rewrite land_calloc_flags by done. set (x := MkFree _ _ _) in *.
  assert (Hxe : MFREE_END x = ptr + n) by (unfold MFREE_END in *; cbn; lia).
  assert (Hlow : forall y', y' ∈ nodes s1 -> MFREE_END y' <> mf_base x).
  { intros y' Hy'. change (mf_base x) with (mf_base y). apply (hk_apart _ Hok); [by eapply taken_sub|by eapply taken_in]. }
  apply srun_bind. unfold HEAP_MINSIZE in Hmin. rewrite u32_small by lia.
  apply srun_take_at; [done|lia|..].
  - intros Hnf. apply srun_ret. split; [done|]. intros y' Hy'. split; [by apply Hlow|].
    rewrite Hxe. by apply (above_apart s1).
  - intros z s2 Hzin Ht2. pose proof (free_node _ _ Hok1 (taken_in _ _ _ Ht2)) as [_ _ _ _ _ Hcf].
    assert (Hbz : mf_base z = MFREE_END x).
    { eapply (above_base s1); [done|by eapply taken_in|by rewrite Hxe|]. by eapply joined_ends. }
    pose proof (no_flags _ (jn_node _ _ _ _ _ Hj)) as Hxf.
    destruct (land_flags _ (mf_flags z) Hxf) as [Hf2 Hf2'].
    rewrite land_calloc_flags by done. apply srun_bind, srun_clear. intros m Hmo Hmi Hme.
    apply srun_ret. split.
    + apply (join_above s ptr n x s1 z s2); try done.
      * intros Hf. destruct (Hf2' Hf) as [? Hz]. split; [done|]. by apply has_flags.
      * intros Hf. apply Hmi. by apply has_flags.
    + intros y' Hy'. assert (y' ∈ nodes s1) by by eapply taken_sub. split; [by apply Hlow|].
      replace (MFREE_END _) with (MFREE_END z) by (unfold MFREE_END in *; cbn in *; lia).
      apply (hk_apart _ Hok1); [by eapply taken_in|done].
Qed.
Lemma extend_below_ok s ptr n flags R :
  free_pre s ptr n flags -> ~ free s (u32 (ptr - 1)) ->
  srun (extend_below ptr n flags) s (united s ptr n) R.
Proof.
  intros Hpre Hnb. pose proof (fp_ok _ _ _ _ Hpre) as Hok. pose proof (fp_end _ _ _ _ Hpre) as Hend.
  pose proof (fp_ptr _ _ _ _ Hpre) as Hptr. pose proof (fp_min _ _ _ _ Hpre) as Hmin.
  pose proof (join_alone _ _ _ _ Hpre) as Hj. set (x := MkFree _ _ _) in Hj.
  assert (Hlow : forall y', y' ∈ nodes s -> MFREE_END y' <> ptr).
  { intros y' Hy'. eapply below_apart; try done. unfold HEAP_MINSIZE in *. lia. }
  unfold extend_below. apply srun_bind. unfold HEAP_MINSIZE in Hmin. rewrite u32_small by lia.
  apply srun_take_at; [done|lia|..].
  - intros Hnf. apply srun_bind, srun_clobber. apply srun_ret. split.
    + apply joined_header; [done|]. intros a Ha. by apply fill_out.
    + intros y' Hy'. split; [by apply Hlow|]. by apply (above_apart s).
  - intros z s2 Hzin Ht2. pose proof (free_node _ _ Hok (taken_in _ _ _ Ht2)) as [_ _ _ _ _ Hcf].
    assert (Hbz : mf_base z = MFREE_END x).
    { eapply (above_base s); [done|by eapply taken_in|done|]. by eapply joined_ends. }
    destruct (land_flags _ flags Hcf) as [Hf2 Hf2']. cbv zeta.
    apply srun_bind, srun_clear. intros m Hmo Hmi Hme. apply srun_bind, srun_clobber, srun_ret.
    rewrite (Z.add_comm (mf_size z)). split.
    + apply joined_header; [|intros a Ha; by apply fill_out].
      apply (join_above s ptr n x s z s2); try done.
      * intros Hf. destruct (Hf2' Hf) as [? Hz]. split; [|done]. by apply has_calloc.
      * intros Hf. apply Hmi. by apply has_flags.
    + intros y' Hy'. assert (y' ∈ nodes s) by by eapply taken_sub. split; [by apply Hlow|].
      replace (MFREE_END _) with (MFREE_END z) by (unfold MFREE_END in *; cbn in *; lia).
      apply (hk_apart _ Hok); [by eapply taken_in|done].
Qed.
Lemma coalesce_ok s ptr n flags R :
  free_pre s ptr n flags -> srun (coalesce ptr n flags) s (united s ptr n) R.
Proof.
  intros Hpre. pose proof Hpre as [Hok Hp0 _ _ Hmin Hend Hu _]. unfold HEAP_MINSIZE in Hmin.
  unfold coalesce. apply srun_bind. apply srun_take_at; [done|apply u32_range|..].
  - by apply extend_below_ok.
  - intros y s1 Hy Ht. apply extend_above_ok; [done|done|].
    eapply (below_end s); try done; [lia|by eapply taken_in|apply Hu; lia].
Qed.

(** ** Giving pages back *)
Definition no_pages (p n : Z) : Prop :=
  let '(free_minpage, free_endpage, _, _) := trim_range (MkFree p n 0) in
  free_endpage <= free_minpage.
(** The size of what is kept of a page, or of two. *)
Definition keep_size (n : Z) : Prop := 0 < n < PAGESIZE + HEAP_MINSIZE /\ n <> PAGESIZE.
Lemma no_pages_head p n k : keep_size n -> p + n = k * PAGESIZE -> no_pages p n.
Proof.
  unfold keep_size, no_pages, trim_range, MFREE_END, PAGESIZE, HEAP_MINSIZE. cbn [mf_base mf_size].
  intros [Hn Hne] Hk. replace ((p + n) `div` 4096) with k by mlia.
  replace (p + n - k * 4096 =? 0) with true by lia. cbn [negb andb].
  destruct (decide (n < 4096)).
  - replace ((p + (4096 - 1)) `div` 4096) with k by mlia. destruct (_ && _); lia.
  - replace ((p + (4096 - 1)) `div` 4096) with (k - 1) by mlia.
    replace (negb ((k - 1) * 4096 - p =? 0) && ((k - 1) * 4096 - p <? 24)) with true by lia. lia.
Qed.
Lemma no_pages_tail k n : keep_size n -> no_pages (k * PAGESIZE) n.
Proof.
  unfold keep_size, no_pages, trim_range, MFREE_END, PAGESIZE, HEAP_MINSIZE. cbn [mf_base mf_size].
  intros [Hn Hne]. replace ((k * 4096 + (4096 - 1)) `div` 4096) with k by mlia.
  replace (k * 4096 - k * 4096 =? 0) with true by lia. cbn [negb andb].
  destruct (decide (n < 4096)).
  - replace ((k * 4096 + n) `div` 4096) with k by mlia. destruct (_ && _); lia.
  - replace ((k * 4096 + n) `div` 4096) with (k + 1) by mlia.
    replace (negb (k * 4096 + n - (k + 1) * 4096 =? 0) && (k * 4096 + n - (k + 1) * 4096 <? 24))
      with true by lia. lia.
Qed.
Definition kept (n : Z) : Prop := n = 0 \/ HEAP_MINSIZE <= n /\ n `mod` 8 = 0 /\ keep_size n.
Lemma trim_range_ok x mn en hs ts :
  node_ok x -> trim_range x = (mn, en, hs, ts) -> mn < en ->
  0 <= mn /\ en < 2 ^ 20 /\ mn * PAGESIZE = mf_base x + hs /\ en * PAGESIZE + ts = MFREE_END x /\
  kept hs /\ kept ts.
Proof.
  intros [Hb Hba Hbs Hbm He _] Ht Hlt.
  unfold kept, keep_size, trim_range, MFREE_END, PAGESIZE, HEAP_MINSIZE in *. cbv zeta in Ht.
  set (m := (mf_base x + (4096 - 1)) `div` 4096) in *. set (e := (mf_base x + mf_size x) `div` 4096) in *.
  assert (0 <= m * 4096 - mf_base x < 4096) by (unfold m; mlia).
  assert (0 <= mf_base x + mf_size x - e * 4096 < 4096) by (unfold e; mlia).
  assert ((m * 4096 - mf_base x) `mod` 8 = 0) by mlia.
  assert ((mf_base x + mf_size x - e * 4096) `mod` 8 = 0) by mlia.
  destruct (negb (m * 4096 - mf_base x =? 0) && (m * 4096 - mf_base x <? 24)) eqn:E1,
    (negb (mf_base x + mf_size x - e * 4096 =? 0) && (mf_base x + mf_size x - e * 4096 <? 24)) eqn:E2;
    injection Ht as <- <- <- <-; clearbody m e; mlia.
Qed.

(** ** Freeing *)
(** The bytes [ptr ... +n] are no longer used, nothing else changed; with [keep] no
    page has been given back. *)
Record freed s (ptr n : Z) (keep : bool) s' : Prop := {
  fr_ok : heap_ok s';
  fr_used : forall a, used s' a <-> used s a /\ ~ ptr <= a < ptr + n;
  fr_mem : forall a, used s' a -> hs_mem s' a = hs_mem s a;
  fr_cfg : same_cfg s s';
  fr_mapped : forall a, mapped s' a -> mapped s a;
  fr_vm : keep = true -> hs_vm s' = hs_vm s;
  fr_total : total s' <= total s + n;
}.
Lemma united_insert s ptr n x s1 s2 :
  united s ptr n x s1 -> inserted s1 x s2 -> freed s ptr n true s2.
Proof.
  intros [Hj _] Hi. pose proof Hj as [Hok1 Hx Hxb Hxe Hxu Hxf Hxz Hxm Hxv Hxc Hxt].
  assert (Hin : forall a, ptr <= a < ptr + n -> inside x a) by (unfold inside; lia).
  assert (Hu2 : forall a, used s2 a <-> used s a /\ ~ inside x a).
  { intros a. rewrite (inserted_used s1 x s2 a Hi), Hxu. naive_solver. }
  pose proof Hi as (Hok2 & Hp & Hv & Hm & Hc). split; try done.
  - intros a. rewrite Hu2. split.
    + intros [? Hni]. split; [done|]. by intros ?%Hin.
    + intros [[Hma Hf] Hr]. split; [done|]. intros Hi'. apply Hf. by apply Hxf.
  - intros a [_ Hni]%Hu2. rewrite Hm, fill_out; [by apply Hxm|]. intros Hcl. apply Hni.
    destruct Hx. unfold inside, MFREE_END, HEAP_MINSIZE, SIZEOF_MFREE in *. lia.
  - by etransitivity.
  - intros a. unfold mapped. by rewrite Hv, Hxv.
  - intros _. congruence.
  - unfold total at 1. rewrite Hp. cbn. fold (total s1). lia.
Qed.
Lemma freed_free s ptr n s' a :
  heap_ok s -> (forall b, ptr <= b < ptr + n -> used s b) -> freed s ptr n true s' ->
  free s' a <-> free s a \/ ptr <= a < ptr + n.
Proof.
  intros Hok Hr [Hok' Hu _ _ _ Hv _]. pose proof (Hu a) as Ha. specialize (Hr a).
  pose proof (hk_mapped _ Hok a) as Hm. pose proof (hk_mapped _ Hok' a) as Hm'.
  unfold used, mapped in *. rewrite (Hv eq_refl) in *.
  destruct (decide (free s a)), (decide (free s' a)), (decide (ptr <= a < ptr + n)); naive_solver.
Qed.
(** A range of used bytes next to which nothing is free. *)
Lemma apart_ends s x :
  heap_ok s -> node_ok x -> (forall a, inside x a -> used s a) -> apart_from s x ->
  ~ free s (u32 (mf_base x - 1)) /\ ~ free s (MFREE_END x).
Proof.
  intros Hok Hx Hu Hap. pose proof (node_nonempty x Hx) as Hne. pose proof Hx as [Hb _ _ _ He _].
  split; intros (y & Hy & Hin); destruct (Hap y Hy) as [H1 H2].
  - apply H1. eapply below_end; try done; [lia|]. apply Hu. unfold inside. lia.
  - apply H2. symmetry. eapply above_base; try done. apply Hu. unfold inside. lia.
Qed.
Lemma united_apart s ptr n x s1 :
  free_pre s ptr n 0 -> united s ptr n x s1 -> ~ free s (u32 (ptr - 1)) -> ~ free s (ptr + n) ->
  mf_base x = ptr /\ mf_size x = n.
Proof.
  intros Hp [[Hok1 Hx Hxb Hxe Hxu Hxf _ _ _ _ _] _] Hlo Hhi. pose proof Hp as [_ Hp0 _ _ Hmin Hend _ _].
  unfold HEAP_MINSIZE in Hmin. destruct Hx as [Hb _ _ _ _ _].
  assert (mf_base x = ptr).
  { destruct (decide (mf_base x < ptr)); [|lia]. exfalso. apply Hlo. rewrite u32_small by lia.
    apply Hxf; [unfold inside; lia|lia]. }
  split; [done|]. destruct (decide (ptr + n < MFREE_END x)).
  - exfalso. apply Hhi. apply Hxf; [unfold inside; lia|lia].
  - unfold MFREE_END in *. lia.
Qed.
Lemma free_pre_flags s ptr n flags : free_pre s ptr n flags -> free_pre s ptr n 0.
Proof. by intros []. Qed.
(** The first part of [heap_free_raw]. *)
Lemma srun_free_enter s ptr n flags (f : mfree -> SM hstate unit) Q R :
  free_pre s ptr n flags ->
  (forall x s1, united s ptr n x s1 -> srun (f x) s1 Q R) ->
  srun (scheck (HEAP_MINSIZE <=? n) ≫= fun _ =>
        scheck (IS_ALIGNED ptr HEAP_ALIGNMENT) ≫= fun _ =>
        scheck (IS_ALIGNED n HEAP_ALIGNMENT) ≫= fun _ =>
        scheck (ptr <? u32 (ptr + n)) ≫= fun _ =>
        new_slot ← coalesce ptr n flags; f new_slot) s Q R.
Proof.
  intros Hp Hf. pose proof Hp as [_ Hp0 Hal Has Hmin Hend _ _].
  apply srun_bind, srun_check; [lia|]. apply srun_bind, srun_check; [by apply is_aligned_mod|].
  apply srun_bind, srun_check; [by apply is_aligned_mod|].
  apply srun_bind, srun_check; [unfold HEAP_MINSIZE in *; rewrite u32_small by lia; lia|].
  apply srun_bind. eapply srun_mono; [by apply (coalesce_ok s ptr n flags (fun _ _ => False))| |done].
  cbv beta. apply Hf.
Qed.
Lemma srun_united_insert s ptr n x s1 R :
  united s ptr n x s1 ->
  srun (heap_insert_node_unlocked x) s1 (fun _ s' => freed s ptr n true s') R.
Proof.
  intros Hun. pose proof Hun as [Hj Hap]. apply srun_insert.
  - apply Hj.
  - apply Hj.
  - intros a. by apply (joined_used _ _ _ _ _ _ Hj).
  - apply Hj.
  - done.
  - intros s'. by apply united_insert.
Qed.
Lemma free_raw_plain k s ptr n flags :
  free_pre s ptr n flags -> ~ free s (u32 (ptr - 1)) -> ~ free s (ptr + n) -> no_pages ptr n ->
  srun (heap_free_raw (S k) ptr n flags) s (fun _ s' => freed s ptr n true s') (fun _ _ => False).
Proof.
  intros Hp Hlo Hhi Hnp. cbn [heap_free_raw]. apply (srun_free_enter _ _ _ flags); [done|].
  intros x s1 Hun. apply srun_bind.
  change (srun self s1 ?Q' ?R') with (Q' (hs_heap s1) s1). cbv beta.
  destruct (united_apart _ _ _ _ _ (free_pre_flags _ _ _ _ Hp) Hun Hlo Hhi) as [Hb Hs].
  destruct (trim_range x) as [[[mn en] hs] ts] eqn:E.
  replace (mn <? en) with false.
  2: { unfold no_pages, trim_range, MFREE_END in Hnp, E. cbn [mf_base mf_size] in Hnp.
       rewrite Hb, Hs in E. rewrite E in Hnp. lia. }
  rewrite andb_false_r. by apply srun_united_insert.
Qed.

(** ** Giving back the pages of a range *)
Lemma calloc_flags flags f :
  f = 0 \/ f = GFP_CALLOC ->
  has (Z.lor (Z.ldiff flags GFP_CALLOC) f) GFP_CALLOC = true <-> f = GFP_CALLOC.
Proof.
  intros Hf. unfold has. rewrite Z.land_lor_distr_l.
  replace (Z.land (Z.ldiff flags GFP_CALLOC) GFP_CALLOC) with 0.
  2: { apply Z.bits_inj'. intros n Hn. rewrite Z.land_spec, Z.ldiff_spec, Z.bits_0.
       by destruct (Z.testbit GFP_CALLOC n); rewrite ?andb_false_r. }
  rewrite Z.lor_0_l. by apply has_flags.
Qed.
Lemma freed_refl s p : heap_ok s -> freed s p 0 true s.
Proof. intros Hok. split; try done; [|lia]. intros a. split; [|naive_solver]. intros ?. split; [done|lia]. Qed.
Lemma srun_on_vm {A} (m : SM vm_st A) s (Q : A -> hstate -> Prop) (R : error_code -> hstate -> Prop) :
  srun m (hs_vm s) (fun a v => Q a (with_vm s v)) (fun e v => R e (with_vm s v)) -> srun (on_vm m) s Q R.
Proof. unfold srun, on_vm. by destruct (m (hs_vm s)). Qed.
(** The pages from [mn] on are given back, and nothing else changes. *)
Record unmapped s (mn en : Z) s' : Prop := {
  um_freed : freed s (mn * PAGESIZE) ((en - mn) * PAGESIZE) false s';
  um_total : total s' = total s;
  um_nodes : forall a, free s' a <-> free s a;
  um_mapped : forall a, mn * PAGESIZE <= a < en * PAGESIZE -> ~ mapped s' a;
}.
Lemma core_page_free_ok s mn en R :
  heap_ok s -> 0 <= mn -> mn < en -> en < 2 ^ 20 ->
  (forall a, mn * PAGESIZE <= a < en * PAGESIZE -> used s a) ->
  srun (core_page_free mn (en - mn)) s (fun _ s' => unmapped s mn en s') R.
Proof.
  intros Hok H0 Hlt Hen Hus. unfold core_page_free. apply srun_bind, srun_check; [lia|].
  unfold core_unmap. apply srun_bind, srun_on_vm.
  eapply srun_mono; [apply (vm_unmap_spec (hs_vm s) mn (en - mn)); try lia; [apply Hok|]|..|done].
  { intros q Hq. destruct (Hus (q * PAGESIZE)) as [Hm _]; [unfold PAGESIZE; lia|].
    unfold mapped, PAGESIZE in Hm. by rewrite Z.div_mul in Hm by lia. }
  cbv beta. intros [] v' [Hvok Hvm].
  change (srun (clobber ?x ?y) ?st ?Q' ?R') with (Q' tt (with_mem st (fill (hs_mem st) x y None))).
  cbv beta. set (s' := with_mem _ _).
  assert (Hpg : forall a, (mn <= a `div` PAGESIZE < mn + (en - mn)) <->
    mn * PAGESIZE <= a < mn * PAGESIZE + (en - mn) * PAGESIZE) by (unfold PAGESIZE; intros; mlia).
  assert (Hmap : forall a, mapped s' a <-> mapped s a /\
    ~ mn * PAGESIZE <= a < mn * PAGESIZE + (en - mn) * PAGESIZE).
  { intros a. unfold mapped, s'. cbn. rewrite Hvm, andb_true_iff, <- Hpg. lia. }
  assert (Hfr : forall a, free s' a <-> free s a) by done.
  assert (Hrange : forall a, free s a -> ~ mn * PAGESIZE <= a < mn * PAGESIZE + (en - mn) * PAGESIZE).
  { intros a Hf Hr. destruct (Hus a) as [_ ?]; [unfold PAGESIZE in *; lia|done]. }
  split; [|done|done|intros a Ha [_ Hn]%Hmap; unfold PAGESIZE in *; lia]. split.
  - destruct Hok as [H1 H2 H3 H4 H5 H6 H7 H8]. split; try done.
    + intros a Hf. apply Hmap. split; [by apply H4|by apply Hrange].
    + change (nodes s') with (nodes s). cbn. rewrite Forall_forall in H5 |- *.
      intros x Hx Hf a Ha. rewrite fill_out; [by apply (H5 x)|]. apply Hrange. exists x.
      split; [done|]. unfold inside, SIZEOF_MFREE in *. lia.
  - intros a. unfold used. rewrite Hfr, Hmap. naive_solver.
  - intros a [[_ Hn]%Hmap _]. cbn. by rewrite fill_out.
  - done.
  - by intros a [? _]%Hmap.
  - done.
  - change (total s') with (total s). unfold PAGESIZE. lia.
Qed.
Lemma srun_clear_header p flags s (Q : unit -> hstate -> Prop) R :
  (forall m, (forall a, ~ p <= a < p + SIZEOF_MFREE -> m a = hs_mem s a) ->
     (has flags GFP_CALLOC = true -> forall a, p <= a < p + SIZEOF_MFREE -> m a = Some 0) ->
     Q tt (with_mem s m)) ->
  srun (clear_header p flags) s Q R.
Proof. intros HQ. unfold clear_header. apply srun_clear. intros m ? ? _. by apply HQ. Qed.
(** The headers of head and tail: both ends are zero, if the range is. *)
Lemma srun_clear_ends x hs tk ts flags s (f : unit -> SM hstate unit) Q R :
  node_ok x -> zero_ok (hs_mem s) x -> kept hs -> kept ts -> tk + ts = MFREE_END x ->
  mf_base x + hs <= tk ->
  (has flags GFP_CALLOC = true <-> mf_flags x = GFP_CALLOC) ->
  (forall m, (forall a, ~ inside x a -> m a = hs_mem s a) ->
     (has flags GFP_CALLOC = true -> forall a,
        mf_base x <= a < mf_base x + hs \/ tk <= a < tk + ts -> m a = Some 0) ->
     srun (f tt) (with_mem s m) Q R) ->
  srun ((if hs =? 0 then mret tt else clear_header (mf_base x) flags) ≫= fun _ =>
        (if ts =? 0 then mret tt else clear_header tk flags) ≫= f) s Q R.
Proof.
  intros Hx Hz Hh Ht Htk Hle Hfl HQ. pose proof (no_size x Hx) as Hs.
  assert (Hsk : forall p n st (Q' : unit -> hstate -> Prop), kept n ->
    (forall m, (forall a, ~ p <= a < p + n -> m a = hs_mem st a) ->
       (forall a, ~ p <= a < p + SIZEOF_MFREE -> m a = hs_mem st a) ->
       (has flags GFP_CALLOC = true -> n <> 0 -> forall a, p <= a < p + SIZEOF_MFREE -> m a = Some 0) ->
       Q' tt (with_mem st m)) ->
    srun (if n =? 0 then mret tt else clear_header p flags) st Q' R).
  { intros p n st Q' Hn HQ'. destruct (Z.eqb_spec n 0) as [->|Hne].
    - apply srun_ret. destruct st. by apply HQ'.
    - apply srun_clear_header. intros m Hm1 Hm2. apply HQ'; [|done|intros Hc _; by apply Hm2].
      intros a Ha. apply Hm1. destruct Hn as [?|(? & _ & _)]; [done|].
      unfold SIZEOF_MFREE, HEAP_MINSIZE in *. lia. }
  unfold MFREE_END, HEAP_MINSIZE in *. apply srun_bind, Hsk; [done|]. intros m1 Ho1 Hs1 Hi1.
  apply srun_bind, Hsk; [done|]. cbn. intros m2 Ho2 Hs2 Hi2.
  assert (0 <= hs /\ 0 <= ts) as [Hh0 Ht0].
  { unfold kept, HEAP_MINSIZE in *. lia. }
  refine (HQ m2 _ _).
  - intros a Ha. unfold inside, MFREE_END in Ha. rewrite Ho2, Ho1; [done|lia..].
  - intros Hc a Ha. specialize (Hz (proj1 Hfl Hc) a). unfold MFREE_END in Hz.
    destruct (decide (tk <= a < tk + SIZEOF_MFREE)) as [H1|H1].
    { destruct (decide (ts = 0)) as [->|Hne].
      - destruct Ha as [Ha|Ha]; [lia|lia].
      - by apply Hi2. }
    rewrite Hs2 by done. destruct (decide (mf_base x <= a < mf_base x + SIZEOF_MFREE)) as [H2|H2].
    { destruct (decide (hs = 0)) as [->|Hne]; [|by apply Hi1]. exfalso.
      unfold kept, SIZEOF_MFREE, HEAP_MINSIZE in *. lia. }
    rewrite Hs1 by done. apply Hz. lia.
Qed.
Lemma free_end_ok k s p n flags :
  heap_ok s -> kept n -> 0 <= p -> p `mod` 8 = 0 -> p + n < 2 ^ 32 ->
  (forall a, p <= a < p + n -> used s a) ->
  (has flags GFP_CALLOC = true -> forall a, p <= a < p + n -> hs_mem s a = Some 0) ->
  ~ free s (u32 (p - 1)) -> ~ free s (p + n) -> (n <> 0 -> no_pages p n) ->
  srun (if n =? 0 then mret tt else heap_free_raw (S k) p n flags) s
    (fun _ s' => freed s p n true s') (fun _ _ => False).
Proof.
  intros Hok Hn Hp Ha He Hu Hz Hlo Hhi Hnp. destruct (Z.eqb_spec n 0) as [->|Hne].
  - by apply srun_ret, freed_refl.
  - destruct Hn as [?|(? & ? & _)]; [done|]. apply free_raw_plain; try done. by apply Hnp.
Qed.
Lemma freed_hint s ptr n keep s1 h :
  freed s ptr n keep s1 -> freed s ptr n keep (with_heap s1 (with_hint (hs_heap s1) h)).
Proof. intros [[] ? ? ? ? ? ?]. split; try done. Qed.
(** What is left of the range [x] after head, tail and pages are freed. *)
Lemma trimmed_ok s ptr n x s1 m hs ts mn en s2 s3 s4 :
  united s ptr n x s1 -> (forall a, ~ inside x a -> m a = hs_mem s1 a) ->
  0 <= hs -> 0 <= ts -> mn < en ->
  mn * PAGESIZE = mf_base x + hs -> en * PAGESIZE + ts = MFREE_END x ->
  freed (with_mem s1 m) (mf_base x) hs true s2 -> freed s2 (en * PAGESIZE) ts true s3 ->
  freed s3 (mn * PAGESIZE) ((en - mn) * PAGESIZE) false s4 ->
  freed s ptr n false s4.
Proof.
  intros [Hj _] Hm Hh Ht Hlt Hmn Hen F2 F3 F4.
  pose proof Hj as [Hok1 Hx Hxb Hxe Hxu Hxf Hxz Hxm Hxv Hxc Hxt].
  assert (Hin : forall a, ptr <= a < ptr + n -> inside x a) by (unfold inside; lia).
  assert (Hu4 : forall a, used s4 a <-> used s a /\ ~ inside x a).
  { intros a. rewrite (fr_used _ _ _ _ _ F4), (fr_used _ _ _ _ _ F3), (fr_used _ _ _ _ _ F2), used_mem, Hxu.
    unfold inside, PAGESIZE, MFREE_END in *. split.
    - intros [[[[?|?] ?] ?] ?]; (split; [|lia]); [done|lia].
    - intros [? ?]. split_and!; [by left|lia..]. }
  split.
  - apply F4.
  - intros a. rewrite Hu4. split.
    + intros [? Hni]. split; [done|]. by intros ?%Hin.
    + intros [[Hma Hf] Hr]. split; [done|]. intros Hi'. apply Hf. by apply Hxf.
  - intros a Ha. pose proof (proj1 (Hu4 a) Ha) as [_ Hni]. rewrite (fr_mem _ _ _ _ _ F4 a Ha).
    apply (fr_used _ _ _ _ _ F4) in Ha as [Ha _]. rewrite (fr_mem _ _ _ _ _ F3 a Ha).
    apply (fr_used _ _ _ _ _ F3) in Ha as [Ha _]. rewrite (fr_mem _ _ _ _ _ F2 a Ha). cbn.
    rewrite Hm by done. by apply Hxm.
  - etransitivity; [exact Hxc|]. etransitivity; [|apply F4]. etransitivity; [|apply F3].
    exact (fr_cfg _ _ _ _ _ F2).
  - intros a Ha. apply (fr_mapped _ _ _ _ _ F4), (fr_mapped _ _ _ _ _ F3), (fr_mapped _ _ _ _ _ F2) in Ha.
    unfold mapped in *. cbn in Ha. by rewrite Hxv in Ha.
  - done.
  - pose proof (fr_total _ _ _ _ _ F2) as T2. pose proof (fr_total _ _ _ _ _ F3) as T3.
    change (total (with_mem s1 m)) with (total s1) in T2.
    pose proof (fr_total _ _ _ _ _ F4) as T4. unfold MFREE_END, PAGESIZE in *. lia.
Qed.
(** Whether the page of [a] can be taken out of the range from [lo] to [hi]: what is left on
    either side is nothing, or large enough for a range. *)
Definition whole_page (lo hi a : Z) : bool :=
  let p := a `div` PAGESIZE * PAGESIZE in
  ((p =? lo) || (lo + HEAP_MINSIZE <=? p)) &&
  ((p + PAGESIZE =? hi) || (p + PAGESIZE + HEAP_MINSIZE <=? hi)).
Lemma trim_range_whole x mn en hs ts a :
  node_ok x -> trim_range x = (mn, en, hs, ts) -> inside x a ->
  whole_page (mf_base x) (MFREE_END x) a = (mn <=? a `div` PAGESIZE) && (a `div` PAGESIZE <? en).
Proof.
  intros [Hb Hba Hbs Hbm He _] Ht Ha.
  unfold inside, whole_page, trim_range, MFREE_END, PAGESIZE, HEAP_MINSIZE in *. cbv zeta in Ht |- *.
  set (m := (mf_base x + (4096 - 1)) `div` 4096) in *. set (e := (mf_base x + mf_size x) `div` 4096) in *.
  assert (0 <= m * 4096 - mf_base x < 4096) by (unfold m; mlia).
  assert (0 <= mf_base x + mf_size x - e * 4096 < 4096) by (unfold e; mlia).
  set (q := a `div` 4096). assert (0 <= a - q * 4096 < 4096) by (unfold q; mlia). clearbody m e q.
  destruct (negb (m * 4096 - mf_base x =? 0) && (m * 4096 - mf_base x <? 24)) eqn:E1,
    (negb (mf_base x + mf_size x - e * 4096 =? 0) && (mf_base x + mf_size x - e * 4096 <? 24)) eqn:E2;
    injection Ht as <- <- <- <-; apply eq_true_iff_eq; lia.
Qed.
(** The range that the freed bytes form with their neighbours, and what becomes of it: if
    it has reached the threshold its pages are given back, and all the rest is free. *)
Record given_back s (ptr n flags lo hi : Z) s' : Prop := {
  gb_range : lo <= ptr /\ ptr + n <= hi;
  gb_free : forall a, lo <= a < hi -> ptr <= a < ptr + n \/ free s a;
  gb_ends : ~ free s (u32 (lo - 1)) /\ ~ free s hi;
  gb_pages : forall a, lo <= a < hi ->
    if negb (has flags GFP_NOMAP) && (h_freethresh (hs_heap s) <=? hi - lo) && whole_page lo hi a
    then ~ mapped s' a else free s' a;
}.
Lemma united_given s ptr n flags x s1 s' :
  heap_ok s -> united s ptr n x s1 ->
  (forall a, inside x a ->
    if negb (has flags GFP_NOMAP) && (h_freethresh (hs_heap s1) <=? mf_size x) &&
       whole_page (mf_base x) (MFREE_END x) a
    then ~ mapped s' a else free s' a) ->
  given_back s ptr n flags (mf_base x) (MFREE_END x) s'.
Proof.
  intros Hok [Hj Hap] Hpg. pose proof Hj as [Hok1 Hx Hxb Hxe Hxu Hxf _ _ Hxv (_ & Hth & _) _].
  destruct (apart_ends s1 x Hok1 Hx) as [Hlo Hhi]; [intros a; by eapply joined_used|done|].
  pose proof (node_nonempty x Hx) as Hne.
  assert (Hm : forall a, free s a -> ~ inside x a -> ~ free s1 a -> False).
  { intros a Hf Hi Hn. pose proof (hk_mapped _ Hok a Hf) as Hm.
    assert (used s1 a) as Hu; [|apply Hxu in Hu as [[_ ?]|?]; done]. split; [|done]. unfold mapped. by rewrite Hxv. }
  split.
  - done.
  - intros a Ha. destruct (decide (ptr <= a < ptr + n)); [by left|right; by apply Hxf].
  - split; intros Hf; (eapply Hm; [done| |done]); unfold inside; [|lia].
    destruct Hx as [Hb _ _ _ He _]. destruct (decide (mf_base x = 0)) as [E|]; [rewrite E; change (u32 (0 - 1)) with (2 ^ 32 - 1); lia|].
    rewrite u32_small by (unfold MFREE_END in *; lia). lia.
  - intros a Ha. specialize (Hpg a Ha). rewrite Hth in Hpg.
    by replace (MFREE_END x - mf_base x) with (mf_size x) by (unfold MFREE_END; lia).
Qed.
Lemma free_pages_ok k s ptr n flags x s1 mn en hs ts :
  united s ptr n x s1 -> trim_range x = (mn, en, hs, ts) -> mn < en ->
  srun (free_pages (heap_free_raw (S k)) x mn en hs ts flags) s1
    (fun _ s' => freed s ptr n false s' /\ forall a, inside x a ->
       if (mn <=? a `div` PAGESIZE) && (a `div` PAGESIZE <? en) then ~ mapped s' a else free s' a)
    (fun _ _ => False).
Proof.
  intros Hun E Hlt. pose proof Hun as [Hj Hap]. pose proof Hj as [Hok1 Hx _ _ _ _ Hxz _ _ _ _].
  destruct (trim_range_ok x mn en hs ts Hx E Hlt) as (Hmn & Hen & Hm & He & Hhs & Hts).
  assert (Hxu : forall a, inside x a -> used s1 a) by (intros a; by eapply joined_used).
  destruct (apart_ends s1 x Hok1 Hx Hxu Hap) as [Hlo Hhi]. pose proof Hx as [Hb Hba _ _ Hxe Hxf].
  assert (0 <= hs /\ 0 <= ts) as [Hh0 Ht0] by (unfold kept, HEAP_MINSIZE in *; lia).
  unfold free_pages. cbv zeta. set (fl := Z.lor _ _).
  apply (srun_clear_ends x hs (en * PAGESIZE) ts fl); try done.
  { unfold PAGESIZE in *. lia. } { by apply calloc_flags. }
  intros m Hmo Hmz. set (s1m := with_mem s1 m).
  assert (Hok1m : heap_ok s1m).
  { apply heap_ok_mem; [done|]. intros a Ha. apply Hmo. by intros [_ ?]%Hxu. }
  unfold inside, PAGESIZE in *. apply srun_bind.
  eapply srun_mono; [apply (free_end_ok k s1m (mf_base x) hs fl); try done|..|done].
  { lia. } { intros a Ha. apply Hxu. lia. } { intros Hc a Ha. apply Hmz; [done|lia]. }
  { apply (Hxu (mf_base x + hs)). lia. }
  { intros Hne. destruct Hhs as [?|(? & ? & ?)]; [done|]. apply (no_pages_head _ _ mn); [done|].
    unfold PAGESIZE. lia. }
  intros [] s2 F2.
  assert (Hf2 : forall a, free s2 a <-> free s1 a \/ mf_base x <= a < mf_base x + hs).
  { intros a. apply (freed_free s1m); try done. intros b Hb'. apply Hxu. lia. }
  assert (Hu2 : forall a, en * 4096 <= a < en * 4096 + ts -> used s2 a).
  { intros a Ha. apply (fr_used _ _ _ _ _ F2). split; [apply Hxu; lia|lia]. }
  apply srun_bind. eapply srun_mono; [apply (free_end_ok k s2 (en * 4096) ts fl); try done|..|done].
  { apply F2. } { lia. } { mlia. } { lia. }
  { intros Hc a Ha. rewrite (fr_mem _ _ _ _ _ F2); [|by apply Hu2]. apply Hmz; [done|lia]. }
  { rewrite Hf2. rewrite u32_small by lia. intros [Hf|?]; [|lia].
    destruct (Hxu (en * 4096 - 1)) as [_ ?]; [lia|done]. }
  { rewrite Hf2. rewrite He. intros [?|?]; [done|lia]. }
  { intros Hne. destruct Hts as [?|(? & ? & ?)]; [done|]. by apply no_pages_tail. }
  intros [] s3 F3. apply srun_bind.
  eapply srun_mono; [apply (core_page_free_ok s3 mn en (fun _ _ => False)); try done|..|done].
  { apply F3. }
  { intros a Ha. unfold PAGESIZE in Ha. apply (fr_used _ _ _ _ _ F3). split; [|lia]. apply (fr_used _ _ _ _ _ F2). split; [apply Hxu; lia|lia]. }
  intros [] s4 [F4 _ Hn4 Hm4]. cbn. split.
  { apply freed_hint. by apply (trimmed_ok s ptr n x s1 m hs ts mn en s2 s3). }
  intros a Ha. unfold PAGESIZE in *. destruct (_ && _) eqn:Ep; [apply Hm4; mlia|]. apply Hn4.
  apply (freed_free s2 (en * 4096) ts s3); [apply F2|done..|]. rewrite Hf2. unfold MFREE_END in *.
  destruct (decide (a < en * 4096)); [left; right; mlia|right; lia].
Qed.
Lemma free_raw_gives k s ptr n flags :
  free_pre s ptr n flags ->
  srun (heap_free_raw (S (S k)) ptr n flags) s
    (fun _ s' => freed s ptr n (has flags GFP_NOMAP) s' /\ exists lo hi, given_back s ptr n flags lo hi s')
    (fun _ _ => False).
Proof.
  intros Hp. remember (S k) as k'. cbn [heap_free_raw].
  apply (srun_free_enter _ _ _ flags); [done|]. intros x s1 Hun. apply srun_bind.
  change (srun self s1 ?Q' ?R') with (Q' (hs_heap s1) s1). cbv beta.
  destruct (trim_range x) as [[[mn en] hs] ts] eqn:E. pose proof (jn_node _ _ _ _ _ (proj1 Hun)) as Hx.
  pose proof (fun a => trim_range_whole x mn en hs ts a Hx E) as Hw.
  assert (Hins : (forall a, inside x a -> negb (has flags GFP_NOMAP) &&
      (h_freethresh (hs_heap s1) <=? mf_size x) && whole_page (mf_base x) (MFREE_END x) a = false) ->
    srun (heap_insert_node_unlocked x) s1 (fun _ s' => freed s ptr n (has flags GFP_NOMAP) s' /\
      exists lo hi, given_back s ptr n flags lo hi s') (fun _ _ => False)).
  { intros Hno. eapply srun_mono; [by apply (srun_united_insert s ptr n x s1 (fun _ _ => False))| |done].
    intros [] s2 F. split; [destruct F as [? ? ? ? ? Hv ?]; split; try done; intros _; by apply Hv|].
    exists (mf_base x), (MFREE_END x). eapply united_given; [apply Hp|done|]. intros a Ha. rewrite Hno by done.
    apply (freed_free s ptr n s2); [apply Hp..|done|].
    destruct (decide (ptr <= a < ptr + n)); [by right|left; by apply (jn_free _ _ _ _ _ (proj1 Hun))]. }
  destruct (negb (has flags GFP_NOMAP) && (h_freethresh (hs_heap s1) <=? mf_size x)) eqn:E1;
    cbn [andb]; [destruct (Z.ltb_spec mn en) as [Hlt|]|apply Hins; done].
  2: { apply Hins. intros a Ha. rewrite Hw by done. cbn. lia. }
  pose proof E1 as [Hnm%negb_true_iff _]%andb_true_iff. rewrite Hnm. subst k'.
  eapply srun_mono; [by apply (free_pages_ok k s ptr n flags x s1)| |done].
  intros [] s2 [F Hpg]. split; [done|]. exists (mf_base x), (MFREE_END x).
  eapply united_given; [apply Hp|done|]. intros a Ha. rewrite E1, Hw by done. by apply Hpg.
Qed.
Lemma free_raw_ok k s ptr n flags :
  free_pre s ptr n flags ->
  srun (heap_free_raw (S (S k)) ptr n flags) s
    (fun _ s' => freed s ptr n (has flags GFP_NOMAP) s') (fun _ _ => False).
Proof. intros Hp. eapply srun_mono; [by apply free_raw_gives|by intros [] s' [? _]|done]. Qed.
Lemma srun_free_untraced s ptr n flags (Q : unit -> hstate -> Prop) R :
  free_pre s ptr n flags -> srun (heap_free_raw free_fuel ptr n flags) s Q R ->
  srun (heap_free_untraced ptr n flags) s Q R.
Proof.
  intros [_ _ Hal Has Hmin _ _ _] HQ. unfold heap_free_untraced.
  apply srun_bind, srun_check; [lia|]. apply srun_bind, srun_check; [by apply is_aligned_mod|].
  by apply srun_bind, srun_check; [apply is_aligned_mod|].
Qed.
Lemma heap_release_ok s ptr n flags :
  free_pre s ptr n flags ->
  srun (heap_free_untraced ptr n flags) s
    (fun _ s' => freed s ptr n (has flags GFP_NOMAP) s') (fun _ _ => False).
Proof. intros Hp. apply srun_free_untraced; [done|]. by apply free_raw_ok. Qed.

(** * Theorems *)
(** C24: Freeing a range that is in use (aligned, of at least [HEAP_MINSIZE] bytes, and
    zero if [GFP_CALLOC] says so) makes exactly its bytes unused; the contents of all other
    memory in use and the configuration stay, and no page is added.  Together with the free
    ranges next to it, it forms a range; when that has [h_freethresh] bytes, and unless
    [GFP_NOMAP] is given, the pages it holds as a whole (so that what is left at either
    end is nothing or large enough for a range) are given back to the address space, and
    all its other bytes are free memory of the heap. *)
Theorem heap_free_spec s ptr n flags :
  free_pre s ptr n flags ->
  srun (heap_free_untraced ptr n flags) s
    (fun _ s' => freed s ptr n (has flags GFP_NOMAP) s' /\ exists lo hi, given_back s ptr n flags lo hi s')
    (fun _ _ => False).
Proof. intros Hp. apply srun_free_untraced; [done|]. by apply free_raw_gives. Qed.
End Inv.
