(* ===== verification/HeapAlloc.v ===== *)
(** The correctness of allocation.

    An operation first holds more memory than it needs (a free range, or new pages) and
    then frees what is not used; [held] describes the states in between. *)
From S2P Require Import Prelude.
From stdpp Require Import list sorting.
From S2P Require Import ATree Heap HeapInv.
#[local] Open Scope Z_scope.

Section Alloc.
Context `{VM : KernelVM}.
Implicit Types s : hstate.

(** * Holding memory *)
Definition cfg3 s s' : Prop :=
  h_overalloc (hs_heap s') = h_overalloc (hs_heap s) /\
  h_freethresh (hs_heap s') = h_freethresh (hs_heap s) /\
  h_hintmode (hs_heap s') = h_hintmode (hs_heap s).
Definition dangle s : Z := h_dangle (hs_heap s).
Lemma same_cfg_split s s' : same_cfg s s' <-> cfg3 s s' /\ dangle s' = dangle s.
Proof. unfold same_cfg, cfg3, dangle. naive_solver. Qed.
(** [s1] is [s], except that the bytes from [lo] to [hi] are used and that [h_dangle]
    is [d]. *)
Record held s (lo hi d : Z) s1 : Prop := {
  hd_ok : heap_ok s1;
  hd_used : forall a, used s1 a <-> used s a \/ lo <= a < hi;
  hd_new : forall a, lo <= a < hi -> ~ used s a;
  hd_mem : forall a, used s a -> hs_mem s1 a = hs_mem s a;
  hd_cfg : cfg3 s s1;
  hd_dangle : dangle s1 = d;
}.
Lemma held_taken s x s1 :
  heap_ok s -> taken s x s1 -> held s (mf_base x) (MFREE_END x) (dangle s) s1.
Proof.
  intros Hok Ht. destruct (taken_zero _ _ _ Hok Ht) as (_ & Hm & _ & [Hc Hd]%same_cfg_split).
  pose proof Ht as (_ & Hok1 & _). split; try done.
  - intros a. by apply taken_used.
  - intros a Ha [_ Hf]. apply Hf. exists x. split; [by eapply taken_in|done].
  - intros a _. by rewrite Hm.
Qed.
Lemma held_mem s lo hi d s1 m :
  held s lo hi d s1 -> (forall a, ~ lo <= a < hi -> m a = hs_mem s1 a) ->
  held s lo hi d (with_mem s1 m).
Proof.
  intros [Hok Hu Hn Hm Hc Hd] H. split; try done.
  - apply heap_ok_mem; [done|]. intros a Ha. apply H. intros Hr.
    destruct (proj2 (Hu a) (or_intror Hr)). done.
  - intros a Ha. cbn. rewrite H; [by apply Hm|]. intros Hr. by apply (Hn a).
Qed.
Definition set_dangle s (d : Z) : hstate := with_heap s (with_dangle (hs_heap s) d).
Lemma held_dangle s lo hi d s1 d' : held s lo hi d s1 -> held s lo hi d' (set_dangle s1 d').
Proof. intros [[] ? ? ? ? ?]. split; try done. Qed.
Lemma srun_add_dangle n s (Q : unit -> hstate -> Prop) R :
  Q tt (set_dangle s (u32 (dangle s + n))) -> srun (add_dangle n) s Q R.
Proof. done. Qed.
(** Freeing the head, and the tail, of what is held. *)
Lemma held_head s lo hi d s1 n keep s2 :
  held s lo hi d s1 -> 0 <= n -> lo + n <= hi -> freed s1 lo n keep s2 -> held s (lo + n) hi d s2.
Proof.
  intros [Hok Hu Hn Hm Hc Hd] H0 Hle [Hok2 Hu2 Hm2 [Hc2 Hd2]%same_cfg_split _ _ _]. split; try done.
  - intros a. rewrite Hu2, Hu. split.
    + intros [[?|?] ?]; [by left|right; lia].
    + intros [Ha|?]; [|split; [right; lia|lia]]. split; [by left|]. intros ?. apply (Hn a); [lia|done].
  - intros a Ha. apply Hn. lia.
  - intros a Ha. rewrite Hm2; [by apply Hm|]. apply Hu2. split; [apply Hu; by left|].
    intros ?. apply (Hn a); [lia|done].
  - unfold cfg3 in *. naive_solver congruence.
  - congruence.
Qed.
Lemma held_tail s lo hi d s1 p n keep s2 :
  held s lo hi d s1 -> lo <= p -> 0 <= n -> p + n = hi -> freed s1 p n keep s2 ->
  held s lo p d s2.
Proof.
  intros [Hok Hu Hn Hm Hc Hd] H0 Hn0 Hle [Hok2 Hu2 Hm2 [Hc2 Hd2]%same_cfg_split _ _ _]. split; try done.
  - intros a. rewrite Hu2, Hu. split.
    + intros [[?|?] ?]; [by left|right; lia].
    + intros [Ha|?]; [|split; [right; lia|lia]]. split; [by left|]. intros ?. apply (Hn a); [lia|done].
  - intros a Ha. apply Hn. lia.
  - intros a Ha. rewrite Hm2; [by apply Hm|]. apply Hu2. split; [apply Hu; by left|].
    intros ?. apply (Hn a); [lia|done].
  - unfold cfg3 in *. naive_solver congruence.
  - congruence.
Qed.
Lemma held_mapped s lo hi d s1 a : held s lo hi d s1 -> lo <= a < hi -> used s1 a.
Proof. intros Hh Ha. apply (hd_used _ _ _ _ _ Hh). by right. Qed.

(** What an allocation returns. *)
Record alloced s (n flags : Z) (r : Z * Z) s' : Prop := {
  al_held : held s (fst r) (fst r + snd r) (dangle s) s';
  al_min : HEAP_MINSIZE <= snd r;
  al_size : n <= snd r;
  al_ptr : 0 <= fst r;
  al_align : fst r `mod` 8 = 0;
  al_asize : snd r `mod` 8 = 0;
  al_end : fst r + snd r < 2 ^ 32;
  al_zero : has flags GFP_CALLOC = true ->
    forall a, fst r <= a < fst r + snd r -> hs_mem s' a = Some 0;
}.

(** * Searching *)
Lemma find_chain_ok l n :
  Forall node_ok l -> exists o, find_chain l n = Ret o /\
  match o with
  | Some x => x ∈ l /\ n <= mf_size x
  | None => Forall (fun x => mf_size x < n) l
  end.
Proof.
  induction 1 as [|x l Hx _ IH]; cbn; [by exists None|].
  rewrite bind_kassert by (apply is_aligned_mod, Hx). destruct (Z.ltb_spec (mf_size x) n).
  - destruct IH as (o & -> & Ho). exists o. split; [done|].
    destruct o; [split; [right|]; apply Ho|by constructor].
  - exists (Some x). split; [done|]. split; [left|lia].
Qed.
Lemma search_buckets_ok {A} (accept : mfree -> outcome (option A)) ls n :
  Forall node_ok (concat ls) ->
  (forall x, x ∈ concat ls -> n <= mf_size x -> exists o, accept x = Ret o) ->
  exists o, search_buckets accept ls n = Ret o /\
  match o with
  | Some (x, a) => x ∈ concat ls /\ n <= mf_size x /\ accept x = Ret (Some a)
  | None => (forall x, x ∈ concat ls -> accept x <> Ret None) ->
      Forall (fun x => mf_size x < n) (concat ls)
  end.
Proof.
  induction ls as [|l ls IH]; cbn; [by exists None|].
  intros [Hl Hls]%Forall_app Hacc. destruct IH as (o & Ho & Hres); [done| |].
  { intros x Hx. apply Hacc. apply elem_of_app. by right. }
  destruct (find_chain_ok l n Hl) as ([x|] & -> & Hf); cbn.
  - destruct Hf as [Hx Hn]. destruct (Hacc x) as [[a|] Ha]; [apply elem_of_app; by left|done|..];
      rewrite Ha; cbn.
    + exists (Some (x, a)). split_and!; [done| |done|done]. apply elem_of_app. by left.
    + rewrite Ho. exists o. split; [done|]. destruct o as [[y b]|].
      * destruct Hres as (? & ? & ?). split_and!; try done. apply elem_of_app. by right.
      * intros Hno. exfalso. apply (Hno x); [apply elem_of_app; by left|done].
  - rewrite Ho. exists o. split; [done|]. destruct o as [[y b]|].
    + destruct Hres as (? & ? & ?). split_and!; try done. apply elem_of_app. by right.
    + intros Hno. apply Forall_app. split; [done|]. apply Hres. intros z Hz. apply Hno.
      apply elem_of_app. by right.
Qed.
Lemma search_heap_ok {A} (accept : mfree -> outcome (option A)) n s
    (Q : option (mfree * A) -> hstate -> Prop) R :
  heap_ok s -> HEAP_MINSIZE <= n < 2 ^ 32 ->
  (forall x, x ∈ nodes s -> n <= mf_size x -> exists o, accept x = Ret o) ->
  (forall x a, x ∈ nodes s -> n <= mf_size x -> accept x = Ret (Some a) -> Q (Some (x, a)) s) ->
  (((forall x, x ∈ nodes s -> accept x <> Ret None) -> Forall (fun x => mf_size x < n) (nodes s)) ->
     Q None s) ->
  srun (search_heap accept n) s Q R.
Proof.
  intros Hok Hn Hacc Hsome Hnone. pose proof (hk_size _ Hok) as [Hlen Hel Hbk].
  unfold search_heap. apply srun_bind.
  change (srun self s ?Q' ?R') with (Q' (hs_heap s) s). cbv beta. cbv zeta.
  pose proof (bucket_range n Hn) as Hi. apply srun_bind, srun_check; [rewrite Hlen; lia|].
  set (ls := h_size (hs_heap s)) in *. set (i := Z.to_nat (HEAP_BUCKET_OF n)).
  assert (Hsub : forall x, x ∈ concat (drop i ls) -> x ∈ nodes s).
  { intros x Hx. rewrite <- Hel, <- (take_drop i ls), concat_app. apply elem_of_app. by right. }
  assert (Hnodes : Forall node_ok (concat (drop i ls))).
  { apply Forall_forall. intros x Hx. by eapply free_node, Hsub. }
  destruct (search_buckets_ok accept (drop i ls) n) as (o & Ho & Hres); [done|by auto|].
  apply srun_lift with (a := o); [done|]. destruct o as [[x a]|].
  - destruct Hres as (Hx & ? & ?). by apply Hsome; [apply Hsub|..].
  - apply Hnone. intros Hno. rewrite <- Hel, <- (take_drop i ls), concat_app.
    apply Forall_app. split; [|apply Hres; auto]. apply Forall_forall. intros x Hx.
    apply list_elem_of_In, in_concat in Hx as (l & Hl & Hx). apply list_elem_of_In in Hl, Hx.
    apply list_elem_of_lookup in Hl as [j Hj]. pose proof (lookup_lt_Some _ _ _ Hj) as Hjl.
    rewrite length_take in Hjl. rewrite lookup_take_lt in Hj by lia.
    destruct (Hbk j l Hj) as [Hf _]. rewrite Forall_forall in Hf. specialize (Hf x Hx).
    assert (node_ok x) as [_ _ _ Hsz _ _].
    { eapply free_node; [done|]. rewrite <- Hel. apply list_elem_of_In, in_concat. exists l.
      split; apply list_elem_of_In; [|done]. by eapply list_elem_of_lookup_2. }
    unfold HEAP_MINSIZE in *. rewrite bucket_of in Hf by lia.
    unfold i in Hjl. rewrite bucket_of in Hjl, Hi by lia.
    apply Z.log2_lt_cancel. lia.
Qed.
Lemma srun_take_chain x s (Q : unit -> hstate -> Prop) R :
  heap_ok s -> x ∈ nodes s -> (forall s', taken s x s' -> Q tt s') -> srun (take_chain x) s Q R.
Proof.
  intros Hok Hx HQ. unfold take_chain. apply srun_bind.
  change (srun self s ?Q' ?R') with (Q' (hs_heap s) s). cbv beta.
  pose proof (free_node _ _ Hok Hx) as Hn. pose proof (node_nonempty _ Hn) as Hne. destruct Hn.
  destruct (remove_ok 32 ltac:(lia) (h_addr (hs_heap s)) (mf_base x)) as (o & t & Hr & Ht & Ho);
    [apply Hok|lia|].
  apply srun_bind, srun_lift with (a := (o, t)); [done|]. cbn [fst snd].
  destruct o as [y|].
  2: { exfalso. destruct Ho as [_ Ho]. specialize (Ho x Hx).
       assert (covers x (mf_base x) = true) as E by (apply covers_inside; unfold inside; lia).
       by rewrite E in Ho. }
  destruct Ho as [Hc%covers_inside Hp].
  assert (y = x) as ->.
  { eapply (separated_in (nodes s)); [apply Hok| |done|done|unfold inside; lia].
    unfold nodes. rewrite Hp. by left. }
  apply srun_bind, srun_check; [by apply bool_decide_eq_true|].
  destruct (list_remove_ok (h_size (hs_heap s)) (aelems t) x) as (l & Hl & Hbk).
  { destruct (hk_size _ Hok) as [? He ?]. split; try done. by rewrite He. }
  { by apply (taken_bases s). }
  apply srun_bind, srun_lift with (a := l); [done|].
  change (srun (set_heap ?h) s ?Q' ?R') with (Q' tt (with_heap s h)). cbv beta.
  apply HQ. by apply taken_ok.
Qed.
Lemma round_size_ok n :
  0 <= n ->
  match round_size n with
  | Some z => n <= z /\ HEAP_MINSIZE <= z < 2 ^ 32 /\ z `mod` 8 = 0
  | None => 2 ^ 32 <= n + 7
  end.
Proof.
  intros Hn. unfold round_size. rewrite round_down8. unfold HEAP_ALIGNMENT, HEAP_MINSIZE.
  destruct (Z.leb_spec (2 ^ 32) (n + (8 - 1))); [lia|].
  destruct (Z.ltb_spec (n + (8 - 1) - (n + (8 - 1)) `mod` 8) 24); [split_and!; done || mlia|mlia].
Qed.

(** * Dividing what is held *)
Lemma held_env s lo hi d s1 o f :
  held s lo hi d s1 -> held s lo hi d (MkHs (hs_heap s1) (hs_vm s1) (hs_mem s1) o f).
Proof. by intros [[] ? ? ? ? ?]. Qed.
Lemma srun_rand s (Q : option Z -> hstate -> Prop) R :
  (forall r f, Q r (MkHs (hs_heap s) (hs_vm s) (hs_mem s) (hs_oracle s) f)) -> srun rand s Q R.
Proof. intros HQ. unfold srun, rand. destruct s as [? ? ? ? [f|]]; apply HQ. Qed.
Lemma free_held s lo hi d s1 p n flags :
  held s lo hi d s1 -> 0 <= lo -> hi < 2 ^ 32 -> lo <= p -> p + n <= hi -> HEAP_MINSIZE <= n ->
  p `mod` 8 = 0 -> n `mod` 8 = 0 ->
  (has flags GFP_CALLOC = true -> forall a, p <= a < p + n -> hs_mem s1 a = Some 0) ->
  srun (heap_free_raw free_fuel p n flags) s1
    (fun _ s' => freed s1 p n (has flags GFP_NOMAP) s') (fun _ _ => False).
Proof.
  intros Hh H0 Hhi Hlo Hle Hn Ha Hs Hz. apply free_raw_ok. split; try done; try lia; [apply Hh|].
  intros a Hr. eapply held_mapped; [done|]. lia.
Qed.
(** The block, and what is known of its contents. *)
Definition kept_mem s1 s2 (lo hi : Z) : Prop := forall a, lo <= a < hi -> hs_mem s2 a = hs_mem s1 a.
Lemma free_tail_ok s lo hi d s1 size unused flags :
  held s lo hi d s1 -> 0 <= lo -> hi < 2 ^ 32 -> lo + size + unused = hi -> 0 <= unused ->
  HEAP_MINSIZE <= size -> lo `mod` 8 = 0 -> size `mod` 8 = 0 -> unused `mod` 8 = 0 ->
  (has flags GFP_CALLOC = true -> forall a, lo + size <= a < hi -> hs_mem s1 a = Some 0) ->
  srun (free_tail lo size unused flags) s1
    (fun z s' => held s lo (lo + z) d s' /\ size <= z /\ z `mod` 8 = 0 /\ lo + z <= hi /\
       kept_mem s1 s' lo (lo + z))
    (fun _ _ => False).
Proof.
  intros Hh H0 Hhi Hsum Hu Hsz Ha Hs Hua Hz. unfold free_tail.
  destruct (Z.ltb_spec unused HEAP_MINSIZE).
  - apply srun_ret. replace (lo + (size + unused)) with hi by lia. split_and!; done || mlia.
  - apply srun_bind. eapply srun_mono; [apply (free_held s lo hi d s1); try done| |done].
    { unfold HEAP_MINSIZE in *. lia. } { lia. } { mlia. } { intros Hc a Hr. apply Hz; [done|lia]. }
    intros [] s2 F. apply srun_ret.
    assert (Hh2 : held s lo (lo + size) d s2).
    { eapply held_tail; [done| | | |done]; unfold HEAP_MINSIZE in *; lia. }
    split_and!; try done; [lia..|]. intros a Hr. apply (fr_mem _ _ _ _ _ F).
    by eapply held_mapped.
Qed.
(** The part [r] of a range [x] that is used as a block. *)
Record chosen s (x : mfree) (size d : Z) (r : Z * Z) s' : Prop := {
  ch_held : held s (fst r) (fst r + snd r) d s';
  ch_base : mf_base x <= fst r;
  ch_size : size <= snd r;
  ch_end : fst r + snd r <= MFREE_END x;
  ch_align : fst r `mod` 8 = 0;
  ch_asize : snd r `mod` 8 = 0;
  ch_zero : mf_flags x = GFP_CALLOC ->
    forall a, fst r + SIZEOF_MFREE <= a < fst r + snd r -> hs_mem s' a = Some 0;
}.
(** The head of a held range is freed, with its header cleared. *)
Lemma srun_free_head {A} s x d s1 n flags (f : unit -> SM hstate A) Q R :
  node_ok x -> held s (mf_base x) (MFREE_END x) d s1 -> zero_ok (hs_mem s1) x ->
  (has flags GFP_CALLOC = true <-> mf_flags x = GFP_CALLOC) ->
  HEAP_MINSIZE <= n -> n `mod` 8 = 0 -> mf_base x + n <= MFREE_END x ->
  (forall s', held s (mf_base x + n) (MFREE_END x) d s' ->
     kept_mem s1 s' (mf_base x + n) (MFREE_END x) -> srun (f tt) s' Q R) ->
  srun (clear_header (mf_base x) (mf_flags x) ≫= fun _ =>
        heap_free_raw free_fuel (mf_base x) n flags ≫= f) s1 Q R.
Proof.
  intros Hx Hh Hz Hfl Hn Ha Hle HQ. pose proof Hx as [Hb Hba Hbs Hbm He Hf]. unfold HEAP_MINSIZE in *.
  apply srun_bind, srun_clear_header. intros m Hm1 Hm2.
  assert (Hh1 : held s (mf_base x) (MFREE_END x) d (with_mem s1 m)).
  { apply held_mem; [done|]. intros a Hr. apply Hm1. unfold SIZEOF_MFREE. lia. }
  apply srun_bind.
  eapply srun_mono; [apply (free_held s _ _ d _ _ n flags Hh1); try done; try lia| |done].
  { intros Hc a Hr. apply Hfl in Hc. cbn.
    destruct (decide (mf_base x <= a < mf_base x + SIZEOF_MFREE)).
    - apply Hm2; [|done]. by apply has_flags.
    - rewrite Hm1 by done. apply Hz; [done|]. unfold SIZEOF_MFREE in *. lia. }
  intros [] s2 F. assert (Hh2 : held s (mf_base x + n) (MFREE_END x) d s2).
  { eapply held_head; [done|lia|done|done]. }
  apply HQ; [done|]. intros a Hr. rewrite (fr_mem _ _ _ _ _ F) by (by eapply held_mapped). cbn.
  apply Hm1. unfold SIZEOF_MFREE. lia.
Qed.
Lemma split_chain_ok s x d s1 size flags :
  node_ok x -> held s (mf_base x) (MFREE_END x) d s1 -> zero_ok (hs_mem s1) x ->
  HEAP_MINSIZE <= size <= mf_size x -> size `mod` 8 = 0 ->
  srun (split_chain x size flags) s1 (chosen s x size d) (fun _ _ => False).
Proof.
  intros Hx Hh Hz Hs Ha. pose proof Hx as [Hb Hba Hbs Hbm He Hf]. unfold split_chain. cbv zeta.
  set (fl := Z.lor _ _). assert (Hfl : has fl GFP_CALLOC = true <-> mf_flags x = GFP_CALLOC)
    by by apply calloc_flags.
  unfold HEAP_MINSIZE in *. destruct (Z.ltb_spec (mf_size x - size) 24).
  { apply srun_ret. replace (size + (mf_size x - size)) with (mf_size x) by lia.
    split; cbn; try done; lia. }
  apply srun_bind, srun_rand. intros r f. set (s1r := MkHs _ _ _ _ _).
  assert (Hhr : held s (mf_base x) (MFREE_END x) d s1r) by by apply held_env.
  set (off := match r with Some r => _ | None => 0 end).
  assert (Hoff : 0 <= off <= mf_size x - size /\ off `mod` 8 = 0).
  { unfold off. destruct r as [r|]; [|split; [lia|done]]. rewrite round_down8.
    pose proof (Z.mod_pos_bound r (mf_size x - size) ltac:(lia)). mlia. }
  clearbody off. unfold MFREE_END in *. destruct (Z.leb_spec 24 off) as [Ho|Ho].
  - apply (srun_free_head s x d s1r off fl); try done; try (unfold MFREE_END; lia).
    unfold MFREE_END. intros s2 Hh2 Hk2. apply srun_bind.
    eapply srun_mono; [apply (free_tail_ok s _ _ d s2 size _ fl Hh2)| |done];
      try (unfold HEAP_MINSIZE; mlia).
    { intros Hc a Hr. rewrite Hk2 by lia. apply Hz; [by apply Hfl|].
      unfold MFREE_END, SIZEOF_MFREE. lia. }
    intros z s3 (Hh3 & Hz1 & Hz2 & Hz3 & Hk3). apply srun_ret.
    split; cbn; unfold MFREE_END; try done; try lia; [mlia|]. intros Hc a Hr. rewrite Hk3, Hk2 by (unfold SIZEOF_MFREE in *; lia).
    apply Hz; [done|]. unfold MFREE_END, SIZEOF_MFREE in *. lia.
  - apply srun_bind, srun_check; [lia|]. unfold heap_free_overallocation. apply srun_bind.
    eapply srun_mono; [apply (free_held s _ _ d s1r _ _ fl Hhr)| |done]; try (unfold HEAP_MINSIZE; mlia).
    { intros Hc a Hr. apply Hz; [by apply Hfl|]. unfold MFREE_END, SIZEOF_MFREE. lia. }
    intros [] s2 F. apply srun_ret.
    assert (Hh2 : held s (mf_base x) (mf_base x + size) d s2) 
      by (refine (held_tail _ _ _ _ _ _ _ _ _ Hhr _ _ _ F); lia).
    split; cbn; unfold MFREE_END; try done; try lia. intros Hc a Hr.
    rewrite (fr_mem _ _ _ _ _ F) by (eapply held_mapped; [done|unfold SIZEOF_MFREE in *; lia]).
    apply Hz; [done|]. unfold MFREE_END. lia.
Qed.

(** * New pages *)
(** What another part of the kernel is asked changes nothing. *)
Definition asked s s' : Prop := hs_heap s' = hs_heap s /\ hs_vm s' = hs_vm s /\ hs_mem s' = hs_mem s.
(** Nothing has changed but for the hint where to look for pages. *)
Record same_state s s' : Prop := {
  sa_heap : exists p, hs_heap s' = with_hint (hs_heap s) p;
  sa_ok : vm_ok (hs_vm s) -> vm_ok (hs_vm s');
  sa_mapped : forall q, vm_mapped (hs_vm s') q = vm_mapped (hs_vm s) q;
  sa_mem : hs_mem s' = hs_mem s;
}.
Lemma with_hint_id h : with_hint h (h_hintpage h) = h.
Proof. by destruct h. Qed.
Lemma asked_same s s' : asked s s' -> same_state s s'.
Proof.
  intros (Hh & Hv & Hm). split; rewrite ?Hv; try done. exists (h_hintpage (hs_heap s)). by rewrite with_hint_id.
Qed.
#[export] Instance asked_refl : Reflexive asked.
Proof. done. Qed.
#[export] Instance asked_trans : Transitive asked.
Proof. intros s1 s2 s3 (? & ? & ?) (? & ? & ?). split_and!; congruence. Qed.
#[export] Instance same_state_refl : Reflexive same_state.
Proof. intros s. by apply asked_same. Qed.
#[export] Instance same_state_trans : Transitive same_state.
Proof.
  intros s1 s2 s3 [[p1 H1] O1 M1 N1] [[p2 H2] O2 M2 N2]. split; [|auto|intros q; by rewrite M2|congruence].
  exists p2. by rewrite H2, H1.
Qed.
Lemma same_state_nodes s s' : same_state s s' -> nodes s' = nodes s.
Proof. intros [[p H] _ _ _]. unfold nodes. by rewrite H. Qed.
Lemma same_state_free s s' a : same_state s s' -> free s' a <-> free s a.
Proof. intros Hs. unfold free. by rewrite (same_state_nodes _ _ Hs). Qed.
Lemma same_state_mapped s s' a : same_state s s' -> mapped s' a <-> mapped s a.
Proof. intros [_ _ M _]. unfold mapped. by rewrite M. Qed.
Lemma same_state_used s s' a : same_state s s' -> used s' a <-> used s a.
Proof. intros Hs. unfold used. by rewrite same_state_free, same_state_mapped by done. Qed.
Lemma same_state_dangle s s' : same_state s s' -> dangle s' = dangle s.
Proof. intros [[p H] _ _ _]. unfold dangle. by rewrite H. Qed.
Lemma same_state_cfg s s' : same_state s s' -> cfg3 s s'.
Proof. intros [[p H] _ _ _]. unfold cfg3. by rewrite H. Qed.
Lemma same_state_ok s s' : same_state s s' -> heap_ok s -> heap_ok s'.
Proof.
  intros Hs [H1 H2 H3 H4 H5 H6 H7 H8]. pose proof Hs as [[p Hh] Ho _ Hm].
  split; rewrite ?(same_state_nodes _ _ Hs), ?Hh, ?Hm; auto.
  intros a. rewrite same_state_free, same_state_mapped by done. apply H4.
Qed.
Lemma same_state_held s lo hi d s1 s2 : same_state s1 s2 -> held s lo hi d s1 -> held s lo hi d s2.
Proof.
  intros Hs [H1 H2 H3 H4 H5 H6]. pose proof Hs as [_ _ _ Hm]. split; try done.
  - by apply (same_state_ok s1).
  - intros a. by rewrite same_state_used by done.
  - intros a Ha. rewrite Hm. by apply H4.
  - pose proof (same_state_cfg _ _ Hs) as C. unfold cfg3 in *. naive_solver congruence.
  - by rewrite (same_state_dangle _ _ Hs).
Qed.
Lemma same_state_base s0 s lo hi d s1 : same_state s0 s -> held s lo hi d s1 -> held s0 lo hi d s1.
Proof.
  intros Hs [H1 H2 H3 H4 H5 H6]. pose proof Hs as [_ _ _ Hm]. split; try done.
  - intros a. by rewrite <- (same_state_used s0 s) by done.
  - intros a Ha. rewrite <- (same_state_used s0 s) by done. by apply H3.
  - intros a Ha. rewrite <- Hm. apply H4. by apply (same_state_used s0 s).
  - pose proof (same_state_cfg _ _ Hs) as C. unfold cfg3 in *. naive_solver congruence.
Qed.
Lemma srun_request s (Q : unit -> hstate -> Prop) (R : error_code -> hstate -> Prop) :
  (forall s', asked s s' -> Q tt s') -> (forall e s', asked s s' -> R e s') ->
  srun request s Q R.
Proof.
  intros HQ HR. unfold srun, request, ask, mbind, SM_bind. destruct (hs_oracle s 0); [by apply HR|by apply HQ].
Qed.
Lemma srun_acquire flags s (Q : unit -> hstate -> Prop) (R : error_code -> hstate -> Prop) :
  (forall s', asked s s' -> Q tt s') -> (forall e s', asked s s' -> R e s') ->
  srun (acquire flags) s Q R.
Proof.
  intros HQ HR. unfold acquire. apply srun_bind. change (srun ask s ?Q' ?R') with (Q' (hs_oracle s 0)
    (MkHs (hs_heap s) (hs_vm s) (hs_mem s) (fun n => hs_oracle s (S n)) (hs_rand s))). cbv beta. set (s1 := MkHs _ _ _ _ _).
  assert (H1 : asked s s1) by done. destruct (hs_oracle s 0); [|by apply srun_ret, HQ].
  destruct (has flags GFP_ATOMIC); [by apply srun_throw, HR|]. apply srun_request; intros; [apply HQ|apply HR]; done.
Qed.
(** The flags a mapping is made with: kernel memory is only asked for where the address
    space is the kernel's, and locked memory only while there are physical pages. *)
Definition allowed (flags : Z) : Prop :=
  (has flags GFP_KERNEL = true -> forall v, vm_ok v -> this_kernel v = true) /\
  (has flags GFP_LOCKED = true -> forall v n, vm_ok v -> page_malloc v n = true).
Lemma allowed_sub flags flags' :
  (forall b, b = GFP_KERNEL \/ b = GFP_LOCKED -> has flags' b = true -> has flags b = true) ->
  allowed flags -> allowed flags'.
Proof. intros H [H1 H2]. split; intros ?; [apply H1|apply H2]; auto. Qed.
Lemma srun_lock n flags s (Q : unit -> hstate -> Prop) R :
  allowed flags -> heap_ok s -> Q tt s -> srun (lock_pages n flags) s Q R.
Proof.
  intros [_ Hl] Hok HQ. unfold lock_pages. destruct (has flags GFP_LOCKED); [|by apply srun_ret].
  apply srun_bind. change (srun sget s ?Q' ?R') with (Q' s s). cbv beta. apply srun_check; [|done].
  apply Hl; [done|]. apply Hok.
Qed.
Definition mapped_new s (page n flags : Z) s' : Prop :=
  held s (page * PAGESIZE) ((page + n) * PAGESIZE) (dangle s) s' /\
  (has flags GFP_CALLOC = true ->
   forall a, page * PAGESIZE <= a < (page + n) * PAGESIZE -> hs_mem s' a = Some 0).
(** Pages at which nothing was mapped belong to nobody. *)
Lemma mapped_new_ok s page n flags v m :
  heap_ok s -> (forall q, page <= q < page + n -> vm_mapped (hs_vm s) q = false) ->
  vm_ok v -> (forall q, vm_mapped v q = vm_mapped (hs_vm s) q || ((page <=? q) && (q <? page + n))) ->
  (forall a, ~ page * PAGESIZE <= a < page * PAGESIZE + n * PAGESIZE -> m a = hs_mem s a) ->
  (has flags GFP_CALLOC = true -> forall a, page * PAGESIZE <= a < (page + n) * PAGESIZE -> m a = Some 0) ->
  mapped_new s page n flags (with_mem (with_vm s v) m).
Proof.
  intros Hok Hfree Hvok Hvm Hmo Hmz. set (s' := with_mem _ _).
  assert (Hpg : forall a, (page <= a `div` PAGESIZE < page + n) <->
    page * PAGESIZE <= a < (page + n) * PAGESIZE) by (unfold PAGESIZE; intros; mlia).
  assert (Hmap : forall a, mapped s' a <-> mapped s a \/ page * PAGESIZE <= a < (page + n) * PAGESIZE).
  { intros a. unfold mapped, s'. cbn. rewrite Hvm, orb_true_iff, <- Hpg. lia. }
  assert (Hno : forall a, page * PAGESIZE <= a < (page + n) * PAGESIZE -> ~ mapped s a).
  { intros a Ha Hm. unfold mapped in Hm. rewrite Hfree in Hm; [done|by apply Hpg]. }
  assert (Hfr : forall a, free s' a <-> free s a) by done.
  assert (Hout : forall a, mapped s a -> hs_mem s' a = hs_mem s a).
  { intros a Ha. apply Hmo. intros Hr. apply (Hno a); [unfold PAGESIZE in *; lia|done]. }
  split; [split|]; try done.
  - destruct Hok as [H1 H2 H3 H4 H5 H6 H7 H8]. split; try done.
    + intros a Ha%Hfr. apply Hmap. left. by apply H4.
    + change (nodes s') with (nodes s). rewrite Forall_forall in H5 |- *. intros x Hx Hf a Ha. rewrite Hout; [by apply (H5 x)|].
      apply H4. exists x. split; [done|]. unfold inside, SIZEOF_MFREE in *. lia.
  - intros a. unfold used. rewrite Hmap, Hfr. split; [naive_solver|].
    intros [[? ?]|Ha]; [by auto|]. split; [by right|]. intros Hf. apply (Hno a Ha). by apply Hok.
  - intros a Ha [Hm _]. by apply (Hno a).
  - intros a [Hm _]. by apply Hout.
Qed.
Lemma core_map_ok s page n flags :
  heap_ok s -> 0 <= page -> 0 < n -> page + n < 2 ^ 20 ->
  (forall q, page <= q < page + n -> vm_free (hs_vm s) q) ->
  srun (core_map page n flags) s (fun _ s' => mapped_new s page n flags s') (fun _ s' => same_state s s').
Proof.
  intros Hok Hp Hn Hle Hfree. unfold core_map. apply srun_bind, srun_on_vm.
  eapply srun_mono; [by apply (vm_map_spec (hs_vm s) page n); [apply Hok|..]|..]; cbv beta.
  - intros [] v [Hvok Hvm].
    assert (Hun : forall q, page <= q < page + n -> vm_mapped (hs_vm s) q = false).
    { intros q Hq. by apply (vm_free_spec (hs_vm s) q (hk_vm _ Hok)), Hfree. }
    destruct (has flags GFP_CALLOC) eqn:E; apply mapped_new_ok; try done; rewrite ?E; try done;
      intros; try (by apply fill_out). apply fill_in. unfold PAGESIZE in *. lia.
  - intros e v [Hvok Hvm]. split; cbn; try done. exists (h_hintpage (hs_heap s)). by rewrite with_hint_id.
Qed.
Lemma mapped_new_base s0 s page n flags s' :
  same_state s0 s -> mapped_new s page n flags s' -> mapped_new s0 page n flags s'.
Proof.
  intros Hs [Hh Hz]. split; [|done]. rewrite <- (same_state_dangle _ _ Hs).
  by eapply same_state_base.
Qed.
Lemma core_page_alloc_ok s n flags :
  heap_ok s -> allowed flags -> 0 < n ->
  srun (core_page_alloc n flags) s
    (fun page s' => 0 <= page /\ page + n < 2 ^ 20 /\ mapped_new s page n flags s')
    (fun _ s' => same_state s s').
Proof.
  intros Hok Hfl Hn. unfold core_page_alloc. apply srun_bind, srun_check; [lia|].
  destruct (has flags GFP_NOMAP); [by apply srun_throw|].
  apply srun_bind, srun_request; [|intros; by apply asked_same]. intros s1 H1.
  apply srun_bind, srun_lock; [done|by apply (same_state_ok s); [apply asked_same|]|].
  apply srun_bind, srun_acquire; [|intros; apply asked_same; by etransitivity]. intros s2 H2.
  assert (H02 : same_state s s2) by (apply asked_same; by etransitivity).
  pose proof (same_state_ok _ _ H02 Hok) as Hok2. apply srun_bind.
  change (srun sget s2 ?Q' ?R') with (Q' s2 s2). cbv beta zeta.
  apply srun_bind, srun_check.
  { destruct (has flags GFP_KERNEL) eqn:E; [|done]. apply (proj1 Hfl E). apply Hok2. }
  pose proof (vm_getfree_spec (hs_vm s2) (h_hintpage (hs_heap s2)) n (h_hintmode (hs_heap s2)) (hk_vm _ Hok2) Hn) as Hg.
  apply srun_bind. destruct (vm_getfree _ _ _ _) as [page|e|]; [|by apply H02|done].
  destruct Hg as (Hp & Hle & Hfree). eapply srun_lift; [done|]. apply srun_bind.
  change (srun (set_heap ?h) s2 ?Q' ?R') with (Q' tt (with_heap s2 h)). cbv beta. set (s3 := with_heap _ _).
  assert (H23 : same_state s2 s3) by (split; try done; by eexists).
  assert (H03 : same_state s s3) by (by etransitivity). apply srun_bind.
  eapply srun_mono; [apply (core_map_ok s3 page n flags); try done|..].
  - by apply (same_state_ok s).
  - intros [] s4 Hnew. apply srun_ret. split_and!; [done..|]. by apply (mapped_new_base s s3).
  - intros e s4 H4. by etransitivity.
Qed.
Lemma srun_merge s page n (Q : unit -> hstate -> Prop) R :
  heap_ok s -> (forall s', same_state s s' -> Q tt s') -> srun (merge_new page n) s Q R.
Proof.
  intros Hok HQ. unfold merge_new. apply srun_bind. change (srun ask s ?Q' ?R') with (Q' (hs_oracle s 0)
    (MkHs (hs_heap s) (hs_vm s) (hs_mem s) (fun n => hs_oracle s (S n)) (hs_rand s))). cbv beta. set (s1 := MkHs _ _ _ _ _).
  assert (H1 : same_state s s1) by (by apply asked_same). destruct (hs_oracle s 0); [by apply srun_ret, HQ|].
  assert (Hone : forall st p (Q' : unit -> hstate -> Prop) R', vm_ok (hs_vm st) -> (forall s', same_state st s' -> vm_ok (hs_vm s') -> Q' tt s') ->
    srun (on_vm (vm_merge_before p)) st Q' R').
  { intros st p Q' R' Hv HQ'. apply srun_on_vm. eapply srun_mono; [by apply vm_merge_spec|..|done]. cbv beta.
    intros [] v [Hv' Hm]. apply HQ'; [|done]. split; cbn; try done. exists (h_hintpage (hs_heap st)). by rewrite with_hint_id. }
  apply srun_bind, Hone; [apply Hok|]. intros s2 H2 Hv2. apply Hone; [done|]. intros s3 H3 _. apply HQ.
  etransitivity; [exact H1|by etransitivity].
Qed.

(** * Allocation *)
Lemma check_block_ok p z s (Q : unit -> hstate -> Prop) R :
  p `mod` 8 = 0 -> z `mod` 8 = 0 -> HEAP_MINSIZE <= z -> Q tt s -> srun (check_block p z) s Q R.
Proof.
  intros Hp Hz Hm HQ. unfold check_block. apply srun_bind, srun_check; [by apply is_aligned_mod|].
  apply srun_bind, srun_check; [by apply is_aligned_mod|]. apply srun_check; [lia|done].
Qed.
(** The contents of a new block. *)
Lemma init_block_ok s lo n d s1 flags f (Q : unit -> hstate -> Prop) R :
  held s lo (lo + n) d s1 -> HEAP_MINSIZE <= n -> f = 0 \/ f = GFP_CALLOC ->
  (f = GFP_CALLOC -> forall a, lo + SIZEOF_MFREE <= a < lo + n -> hs_mem s1 a = Some 0) ->
  (forall s', held s lo (lo + n) d s' ->
     (has flags GFP_CALLOC = true -> forall a, lo <= a < lo + n -> hs_mem s' a = Some 0) -> Q tt s') ->
  srun (init_block lo n flags f) s1 Q R.
Proof.
  intros Hh Hn Hf Hz HQ. unfold init_block. unfold HEAP_MINSIZE in Hn.
  destruct (has flags GFP_CALLOC); [|by apply srun_ret, HQ].
  destruct (has f GFP_CALLOC) eqn:E; apply srun_memset, HQ.
  - apply held_mem; [done|]. intros a Ha. apply fill_out. unfold SIZEOF_MFREE. lia.
  - intros _ a Ha. cbn. destruct (decide (a < lo + SIZEOF_MFREE)).
    + apply fill_in. lia.
    + rewrite fill_out by lia. apply Hz; [by apply has_flags|lia].
  - apply held_mem; [done|]. intros a Ha. by apply fill_out.
  - intros _ a Ha. by apply fill_in.
Qed.
Lemma u32_undo x d : 0 <= x < 2 ^ 32 -> u32 (u32 (x + d) + - d) = x.
Proof. unfold u32, wrap. intros. mlia. Qed.
Lemma alloc_chain_ok s x size flags :
  heap_ok s -> 0 <= dangle s < 2 ^ 32 -> x ∈ nodes s ->
  HEAP_MINSIZE <= size <= mf_size x -> size `mod` 8 = 0 ->
  srun (heap_alloc_chain x size flags) s
    (fun r s' => alloced s size flags r s' /\ forall a, fst r <= a < fst r + snd r -> free s a)
    (fun _ _ => False).
Proof.
  intros Hok Hd Hx Hs Ha. pose proof (free_node _ _ Hok Hx) as Hnx. pose proof Hnx as [Hb Hba Hbs _ He Hf].
  unfold heap_alloc_chain. apply srun_bind, srun_take_chain; [done|done|]. intros s1 Ht.
  pose proof (held_taken _ _ _ Hok Ht) as Hh. destruct (taken_zero _ _ _ Hok Ht) as (Hz & _).
  cbv zeta. set (dg := mf_size x - size). apply srun_bind, srun_add_dangle.
  apply (held_dangle _ _ _ _ _ (u32 (dangle s1 + dg))) in Hh. set (s2 := set_dangle s1 _) in *.
  apply srun_bind, srun_check; [apply is_aligned_mod; unfold dg; mlia|]. apply srun_bind.
  eapply srun_mono; [by apply (split_chain_ok s x _ s2 size flags Hnx Hh)| |done].
  intros [p z] s3 [Hh3 Hp Hz3 Hend Hpa Hza Hz0]. cbn [fst snd] in *.
  apply srun_bind, srun_add_dangle.
  replace (u32 (dangle s3 + - dg)) with (dangle s).
  2: { rewrite (hd_dangle _ _ _ _ _ Hh3). replace (dangle s1) with (dangle s).
       - symmetry. by apply u32_undo.
       - by destruct Ht as (_ & _ & t & l & ->). }
  apply (held_dangle _ _ _ _ _ (dangle s)) in Hh3. set (s4 := set_dangle s3 _) in *.
  unfold HEAP_MINSIZE in *.
  apply srun_bind. eapply init_block_ok; [done|unfold HEAP_MINSIZE; lia|done|done|].
  intros s5 Hh5 Hz5. apply srun_bind, check_block_ok; [done|done|unfold HEAP_MINSIZE; lia|].
  apply srun_ret. split.
  - split; cbn; unfold HEAP_MINSIZE; done || lia.
  - cbn. intros a Hr. exists x. split; [done|]. unfold inside. lia.
Qed.
Lemma map_bytes_ok s size page_bytes flags :
  heap_ok s -> allowed flags -> HEAP_MINSIZE <= size -> size <= Z.ldiff page_bytes (PAGESIZE - 1) ->
  srun (map_bytes page_bytes flags) s
    (fun r s' => exists n, snd r = n * PAGESIZE /\ size <= snd r /\ 0 <= fst r /\ fst r + n < 2 ^ 20 /\
       mapped_new s (fst r) n flags s')
    (fun _ s' => same_state s s').
Proof.
  intros Hok Hfl Hs Hle. unfold map_bytes. cbv zeta. unfold HEAP_MINSIZE in Hs.
  rewrite round_down_page in *. set (pb := page_bytes - page_bytes `mod` 4096) in *.
  assert (Hpb : pb = pb `div` PAGESIZE * PAGESIZE) by (unfold pb, PAGESIZE; mlia).
  apply srun_bind. eapply srun_mono; [apply (core_page_alloc_ok s (pb `div` PAGESIZE) flags Hok Hfl)| |done].
  - unfold PAGESIZE in *. mlia.
  - intros page s' (? & ? & ?). apply srun_ret. exists (pb `div` PAGESIZE). by split_and!.
Qed.
Lemma alloced_same s n flags r s1 s2 : alloced s n flags r s1 -> same_state s1 s2 -> alloced s n flags r s2.
Proof.
  intros [H1 H2 H3 H4 H5 H6 H7 H8] Hs. split; try done; [by eapply same_state_held|].
  intros Hc a Ha. rewrite (sa_mem _ _ Hs). by apply H8.
Qed.
Lemma alloc_core_ok s size flags :
  heap_ok s -> allowed flags -> HEAP_MINSIZE <= size < 2 ^ 32 -> size `mod` 8 = 0 ->
  srun (heap_alloc_core size flags) s (fun r s' => alloced s size flags r s')
    (fun _ s' => same_state s s').
Proof.
  intros Hok Hfl Hs Ha. unfold HEAP_MINSIZE in Hs. unfold heap_alloc_core. cbv zeta.
  destruct (_ <=? _) eqn:Eov; [by apply srun_throw|]. apply srun_bind.
  change (srun self s ?Q' ?R') with (Q' (hs_heap s) s). cbv beta.
  set (over := if has flags GFP_NOOVER then _ else _).
  assert (Hover : size + (PAGESIZE - 1) <= over).
  { pose proof (hk_over _ Hok). unfold over. destruct (has _ _); lia. }
  assert (Hb : forall st pb, same_state s st -> size + (PAGESIZE - 1) <= pb ->
    srun (map_bytes pb flags) st
      (fun r s' => exists n, snd r = n * PAGESIZE /\ size <= snd r /\ 0 <= fst r /\
         fst r + n < 2 ^ 20 /\ mapped_new s (fst r) n flags s') (fun _ s' => same_state s s')).
  { intros st pb Hst Hpb. eapply srun_mono; [apply (map_bytes_ok st size pb flags)|..].
    - by apply (same_state_ok s).
    - done.
    - unfold HEAP_MINSIZE. lia.
    - rewrite round_down_page. unfold PAGESIZE in *. mlia.
    - intros r s' (n & ? & ? & ? & ? & ?). exists n. split_and!; try done. by eapply mapped_new_base.
    - intros e s' ?. by etransitivity. }
  apply srun_bind. eapply srun_mono with (Q := fun r s' => exists n, snd r = n * PAGESIZE /\
      size <= snd r /\ 0 <= fst r /\ fst r + n < 2 ^ 20 /\ mapped_new s (fst r) n flags s')
    (R := fun _ s' => same_state s s'); [|intros [page pb] s1|done].
  - destruct (_ <=? over); [by apply Hb|]. apply srun_catch.
    eapply srun_mono; [by apply (Hb s over)|done|]. intros e s1 H1.
    case_bool_decide; [by apply Hb|by apply srun_throw].
  - intros (n & -> & Hle & Hp & Hpn & Hh & Hz). cbn [fst snd] in *. unfold PAGESIZE in *.
    assert (Hz' : has flags GFP_CALLOC = true -> forall a, page * 4096 + size <= a <
      page * 4096 + size + (n * 4096 - size) -> hs_mem s1 a = Some 0)
      by (intros Hc a Hr; apply Hz; [done|lia]).
    replace ((page + n) * 4096) with (page * 4096 + n * 4096) in * by lia.
    apply srun_bind. destruct (Z.ltb_spec (n * 4096 - size) HEAP_MINSIZE) as [Hlt|Hge].
    + apply srun_ret. apply srun_bind, srun_merge; [apply Hh|]. intros s1' Hs1.
      apply srun_bind, check_block_ok; [mlia|mlia|unfold HEAP_MINSIZE; lia|].
      apply srun_ret. apply (alloced_same _ _ _ _ s1); [|done]. split; cbn; unfold HEAP_MINSIZE; done || mlia.
    + apply srun_bind, srun_check; [apply is_aligned_mod; mlia|].
      apply srun_bind, srun_check; [apply is_aligned_mod; mlia|]. apply srun_bind.
      eapply srun_mono; [apply (free_held s _ _ _ s1 _ _ flags Hh); try done; try mlia| |done].
      intros [] s2 F. apply srun_ret. apply srun_bind, srun_merge; [apply F|]. intros s2' Hs2.
      apply srun_bind, check_block_ok; [mlia|done|unfold HEAP_MINSIZE; lia|].
      apply srun_ret. apply (alloced_same _ _ _ _ s2); [|done].
      assert (Hh2 : held s (page * 4096) (page * 4096 + size) (dangle s) s2).
      { unfold HEAP_MINSIZE in *. refine (held_tail _ _ _ _ _ _ _ _ _ Hh _ _ _ F); lia. }
      split; cbn; unfold HEAP_MINSIZE; try done; try mlia.
      intros Hc a Hr. rewrite (fr_mem _ _ _ _ _ F) by (by eapply held_mapped). apply Hz; [done|lia].
Qed.
Lemma heap_alloc_ok s n flags :
  heap_ok s -> dangle s = 0 -> allowed flags -> 0 <= n ->
  srun (heap_alloc_untraced n flags) s (fun r s' => alloced s n flags r s')
    (fun _ s' => same_state s s').
Proof.
  intros Hok Hd Hfl Hn. unfold heap_alloc_untraced. pose proof (round_size_ok n Hn) as Hr.
  destruct (round_size n) as [size|]; [|by apply srun_throw]. destruct Hr as (Hns & Hsz & Ha).
  assert (Hmore : forall r s', alloced s size flags r s' -> alloced s n flags r s').
  { intros r s' []. split; done || lia. }
  apply srun_bind. apply search_heap_ok; [done|done|by eexists|..].
  - intros x [] Hx Hle _. eapply srun_mono; [apply (alloc_chain_ok s x size flags); try done; lia| |done].
    intros r s' [? _]. by apply Hmore.
  - intros _. apply srun_bind.
    change (srun self s ?Q' ?R') with (Q' (hs_heap s) s). cbv beta.
    fold (dangle s). apply srun_bind, srun_check; [unfold HEAP_MINSIZE in *; lia|].
    eapply srun_mono; [by apply alloc_core_ok|intros r s'; by apply Hmore|done].
Qed.
(** A range that is large enough is used. *)
Lemma heap_alloc_cached s n flags size :
  heap_ok s -> dangle s = 0 -> 0 <= n -> round_size n = Some size ->
  Exists (fun x => size <= mf_size x) (nodes s) ->
  srun (heap_alloc_untraced n flags) s
    (fun r s' => alloced s n flags r s' /\ forall a, fst r <= a < fst r + snd r -> free s a)
    (fun _ _ => False).
Proof.
  intros Hok Hd Hn Hrs Hex. unfold heap_alloc_untraced. pose proof (round_size_ok n Hn) as Hr.
  rewrite Hrs in Hr |- *. destruct Hr as (Hns & Hsz & Ha).
  apply srun_bind. apply search_heap_ok; [done|done|by eexists|..].
  - intros x [] Hx Hle _. eapply srun_mono; [apply (alloc_chain_ok s x size flags); try done; lia| |done].
    intros r s' [[] ?]. split; [|done]. split; done || lia.
  - intros Hall. exfalso. rewrite Exists_exists in Hex. destruct Hex as (x & Hx & Hle).
    specialize (Hall ltac:(done)). rewrite Forall_forall in Hall. specialize (Hall x Hx). cbn in Hall. lia.
Qed.

(** * Theorems *)
(** C25: An allocation (with flags that are allowed: [GFP_KERNEL] only in the kernel's
    address space, [GFP_LOCKED] only while there are physical pages) returns an aligned block
    of at least the requested size, of memory that was not in use, with nothing else in use
    changed; with [GFP_CALLOC] the block is zero.  An allocation that fails leaves the ranges
    of the heap, its pages and memory as they were; only the hint for the next pages may
    have moved. *)
Theorem heap_alloc_spec s n flags :
  heap_ok s -> dangle s = 0 -> allowed flags -> 0 <= n ->
  srun (heap_alloc_untraced n flags) s (fun r s' => alloced s n flags r s')
    (fun _ s' => same_state s s').
Proof. apply heap_alloc_ok. Qed.
(** When some free range has the (rounded) size, an allocation succeeds and uses
    free memory of the heap, whatever the rest of the kernel does. *)
Theorem heap_alloc_reuses s n flags size :
  heap_ok s -> dangle s = 0 -> 0 <= n -> round_size n = Some size ->
  Exists (fun x => size <= mf_size x) (nodes s) ->
  srun (heap_alloc_untraced n flags) s
    (fun r s' => alloced s n flags r s' /\ forall a, fst r <= a < fst r + snd r -> free s a)
    (fun _ _ => False).
Proof. apply heap_alloc_cached. Qed.
End Alloc.
