(* ===== verification/HeapResize.v ===== *)
(** Allocation at an address, aligned blocks, reallocation and trimming. *)
From S2P Require Import Prelude.
From stdpp Require Import list sorting.
From S2P Require Import ATree Heap HeapInv HeapAlloc.
#[local] Open Scope Z_scope.

Section Resize.
Context `{VM : KernelVM}.
Implicit Types s : hstate.

(** * Allocation at an address *)
(** Operations that hold nothing change no used memory. *)
Definition quiet s s' : Prop := held s 0 0 (dangle s) s'.
Lemma held_empty s p q d s' : held s p p d s' -> held s q q d s'.
Proof.
  intros [? Hu ? ? ? ?]. split; try done; [|lia]. intros a. rewrite Hu. split; (intros [?|?]; [by left|lia]).
Qed.
Lemma held_refl s p : heap_ok s -> held s p p (dangle s) s.
Proof. intros Hok. split; try done; [|lia]. intros a. split; [by left|]. intros [?|?]; [done|lia]. Qed.
(** What is held next to memory that is held. *)
Lemma held_trans s lo mid hi d s1 d' s2 :
  held s lo mid d s1 -> lo <= mid <= hi -> held s1 mid hi d' s2 -> held s lo hi d' s2.
Proof.
  intros [? Hu1 Hn1 Hm1 Hc1 Hd1] Hle [? Hu2 Hn2 Hm2 Hc2 Hd2]. split; try done.
  - intros a. rewrite Hu2, Hu1. split; [intros [[?|?]|?]|intros [?|?]]; try (by left; left); try (right; lia).
    + by left.
    + destruct (decide (a < mid)); [left; right; lia|right; lia].
  - intros a Ha Hus. destruct (decide (a < mid)); [apply (Hn1 a); [lia|done]|].
    apply (Hn2 a); [lia|]. apply Hu1. by left.
  - intros a Ha. rewrite Hm2 by (apply Hu1; by left). by apply Hm1.
  - unfold cfg3 in *. destruct Hc1 as (? & ? & ?), Hc2 as (? & ? & ?). split_and!; congruence.
Qed.
Lemma freed_held s lo hi d s1 keep s2 :
  held s lo hi d s1 -> lo <= hi -> freed s1 lo (hi - lo) keep s2 -> held s hi hi d s2.
Proof.
  intros Hh Hle F. pose proof (held_head s lo hi d s1 (hi - lo) keep s2 Hh ltac:(lia) ltac:(lia) F) as H.
  by replace (lo + (hi - lo)) with hi in H by lia.
Qed.
Lemma srun_pop_slot s x p sm v (Q : unit -> hstate -> Prop) R :
  heap_ok s -> slot_node (h_addr (hs_heap s)) p = Ret x ->
  (exists key, points_to 32 (h_addr (hs_heap s)) 0 (ATREE_LEVEL0 32) key p sm v) ->
  (forall s', taken s x s' -> Q tt s') -> srun (pop_slot p sm v) s Q R.
Proof.
  intros Hok Hx [key Hpt] HQ. unfold pop_slot. apply srun_bind.
  change (srun self s ?Q' ?R') with (Q' (hs_heap s) s). cbv beta.
  destruct (ppop_ok 32 ltac:(lia) _ _ _ _ _ (hk_tree _ Hok) Hpt) as (y & t & Hpop & _ & Ht & Hel).
  assert (y = x) as ->.
  { unfold slot_node in Hx. unfold ppop_at in Hpop.
    destruct (slot_get (h_addr (hs_heap s)) p) as [sub| |]; try done. cbn in Hx, Hpop.
    destruct sub as [|l z r]; [done|]. injection Hx as ->. unfold pop_at in Hpop.
    apply bind_outcome_inv in Hpop as ([z' sub'] & Hpop & Hset).
    apply bind_outcome_inv in Hset as (t' & _ & [= <- <-]).
    apply bind_outcome_inv in Hpop as (? & _ & Hpop). apply bind_outcome_inv in Hpop as (? & _ & [= -> _]).
    done. }
  apply srun_bind, srun_lift with (a := (x, t)); [done|]. cbn [fst snd].
  destruct (list_remove_ok (h_size (hs_heap s)) (aelems t) x) as (l & Hl & Hbk).
  { destruct (hk_size _ Hok) as [? He ?]. split; try done. by rewrite He. }
  { by apply (taken_bases s). }
  apply srun_bind, srun_lift with (a := l); [done|].
  change (srun (set_heap ?h) s ?Q' ?R') with (Q' tt (with_heap s h)). cbv beta.
  apply HQ. by apply taken_ok.
Qed.
Lemma allat_flags flags f :
  f = 0 \/ f = GFP_CALLOC ->
  has (Z.lor (Z.land flags GFP_HEAPMASK) f) GFP_CALLOC = true <-> f = GFP_CALLOC.
Proof.
  intros Hf. unfold has. rewrite Z.land_lor_distr_l, <- Z.land_assoc.
  change (Z.land GFP_HEAPMASK GFP_CALLOC) with 0. rewrite Z.land_0_r, Z.lor_0_l. by apply has_flags.
Qed.
(** The block that extends the memory below [ptr]. *)
Record extended s (ptr flags r : Z) s' : Prop := {
  ex_held : held s ptr (ptr + r) (dangle s) s';
  ex_min : HEAP_MINSIZE <= r;
  ex_asize : r `mod` 8 = 0;
  ex_end : ptr + r < 2 ^ 32;
  ex_zero : has flags GFP_CALLOC = true ->
    forall a, ptr <= a < ptr + r -> hs_mem s' a = Some 0;
}.
Lemma allat_slot_ok s x flags pop R :
  heap_ok s -> x ∈ nodes s ->
  (forall Q : unit -> hstate -> Prop, (forall s', taken s x s' -> Q tt s') -> srun pop s Q R) ->
  srun (allat_slot x (mf_base x) flags pop) s (fun r s' => r = mf_size x /\ extended s (mf_base x) flags r s') R.
Proof.
  intros Hok Hx Hpop. pose proof (free_node _ _ Hok Hx) as [Hb Hba Hbs Hbm He Hf].
  unfold allat_slot. cbv zeta. rewrite Z.eqb_refl. set (fl := Z.lor _ _).
  assert (Hfl : has fl GFP_CALLOC = true <-> mf_flags x = GFP_CALLOC) by by apply allat_flags.
  apply srun_bind, Hpop. intros s1 Ht. pose proof (held_taken _ _ _ Hok Ht) as Hh.
  destruct (taken_zero _ _ _ Hok Ht) as (Hz & _). unfold MFREE_END, HEAP_MINSIZE in *.
  apply srun_bind, srun_clear. intros m Hm1 Hm2 _.
  assert (Hh1 : held s (mf_base x) (mf_base x + mf_size x) (dangle s) (with_mem s1 m)).
  { apply held_mem; [done|]. intros a Ha. apply Hm1. unfold SIZEOF_MFREE. lia. }
  unfold allat_init. apply srun_bind, srun_clear. intros m2 Hm3 Hm4 Hm5.
  apply srun_bind, srun_check; [unfold HEAP_MINSIZE; lia|]. apply srun_ret. split; [done|].
  split; [|unfold HEAP_MINSIZE; lia|done|lia|].
  - apply (held_mem _ _ _ _ (with_mem s1 m) m2 Hh1). intros a Ha. by apply Hm3.
  - intros Hc a Ha. cbn. rewrite Hc in *. destruct (has fl GFP_CALLOC) eqn:E; cbn in *.
    + rewrite Hm5 by done. destruct (decide (a < mf_base x + SIZEOF_MFREE)) as [Hlt|Hge].
      * apply Hm2; [done|lia].
      * rewrite Hm1 by lia. apply Hz; [by apply Hfl|]. unfold MFREE_END. lia.
    + by apply Hm4.
Qed.
(** Mapping the page at [ptr] and giving it to the heap. *)
Lemma core_page_allocat_ok s page flags :
  heap_ok s -> allowed flags -> 0 <= page < 2 ^ 20 ->
  srun (core_page_allocat page 1 flags) s
    (fun ok s' => if (ok : bool) then mapped_new s page 1 flags s' /\ ~ mapped s (page * PAGESIZE) /\ page < 2 ^ 20 - 1
       else same_state s s')
    (fun _ s' => same_state s s').
Proof.
  intros Hok Hfl Hp. unfold core_page_allocat. apply srun_bind, srun_check; [lia|].
  destruct (has flags GFP_NOMAP); [by apply srun_throw|].
  apply srun_bind, srun_acquire; [|intros; by apply asked_same]. intros s1 H1%asked_same.
  pose proof (same_state_ok _ _ H1 Hok) as Hok1. apply srun_bind.
  change (srun sget s1 ?Q' ?R') with (Q' s1 s1). cbv beta.
  destruct (vm_getanynode _ _ _) eqn:E; [by apply srun_ret|].
  pose proof (vm_getanynode_spec _ _ _ (hk_vm _ Hok1) E) as Hfree.
  apply srun_bind, srun_request; [|intros; etransitivity; [done|by apply asked_same]]. intros s2 H2.
  assert (H02 : same_state s s2) by (etransitivity; [done|by apply asked_same]).
  pose proof (same_state_ok _ _ H02 Hok) as Hok2. apply srun_bind, srun_lock; [done..|].
  rewrite <- (proj1 (proj2 H2)) in Hfree.
  destruct (vm_free_spec _ _ (hk_vm _ Hok2) (Hfree page ltac:(lia))) as [Hum Htop].
  apply srun_bind. eapply srun_mono; [apply (core_map_ok s2 page 1 flags); try done; try lia|..].
  - intros q Hq. apply Hfree. lia.
  - intros [] s3 Hnew. apply srun_ret. split_and!; [by apply (mapped_new_base s s2)| |lia].
    rewrite <- (same_state_mapped s s2) by done. unfold mapped, PAGESIZE. by rewrite Z.div_mul, Hum by lia.
  - intros e s3 H3. by etransitivity.
Qed.
Lemma grow_page_ok s page flags merge :
  heap_ok s -> allowed flags -> 0 <= page < 2 ^ 20 ->
  srun (grow_page page flags merge) s
    (fun ok s' => if (ok : bool)
       then quiet s s' /\ (forall a, page * PAGESIZE <= a < page * PAGESIZE + PAGESIZE -> free s' a)
         /\ ~ mapped s (page * PAGESIZE)
       else same_state s s')
    (fun _ s' => same_state s s').
Proof.
  intros Hok Hfl Hp. unfold grow_page. apply srun_bind.
  eapply srun_mono; [by apply core_page_allocat_ok|intros ok s4|done].
  destruct ok; [|by intros ?; apply srun_ret]. intros ([Hh Hz] & Hnm & Htop).
  unfold PAGESIZE in *. rewrite u32_small by lia. apply srun_bind.
  eapply srun_mono; [apply (free_held s _ _ _ s4 (page * 4096) 4096 (Z.lor flags GFP_NOMAP) Hh);
    unfold HEAP_MINSIZE; try lia; try mlia| |done].
  - intros Hc a Ha. apply Hz; [|lia]. unfold has in Hc |- *. rewrite Z.land_lor_distr_l in Hc.
    change (Z.land GFP_NOMAP GFP_CALLOC) with 0 in Hc. by rewrite Z.lor_0_r in Hc.
  - replace (has (Z.lor flags GFP_NOMAP) GFP_NOMAP) with true.
    2: { symmetry. unfold has. rewrite Z.land_lor_distr_l. change (Z.land GFP_NOMAP GFP_NOMAP) with GFP_NOMAP.
         apply negb_true_iff, Z.eqb_neq. intros E0%Z.lor_eq_0_iff. by destruct E0. }
    intros [] s5 F.
    assert (Hq5 : quiet s s5).
    { eapply (held_empty _ ((page + 1) * 4096)). eapply freed_held; [exact Hh|lia|].
      by replace ((page + 1) * 4096 - page * 4096) with 4096 by lia. }
    assert (Hf5 : forall a, page * 4096 <= a < page * 4096 + 4096 -> free s5 a).
    { intros a Ha. apply (freed_free s4 (page * 4096) 4096 s5); [apply Hh| |done|by right].
      intros b Hb. eapply held_mapped; [exact Hh|lia]. }
    assert (Hend : forall s6, same_state s5 s6 -> quiet s s6 /\
      (forall a, page * 4096 <= a < page * 4096 + 4096 -> free s6 a) /\ ~ mapped s (page * 4096)).
    { intros s6 H6. split_and!; [by apply (same_state_held _ _ _ _ s5)| |done].
      intros a Ha. apply (same_state_free s5); [done|by apply Hf5]. }
    apply srun_bind. destruct merge; [apply srun_merge; [apply F|intros s6 H6]|]; by apply srun_ret, Hend || apply srun_ret, srun_ret, Hend.
Qed.
(** Finding the range at [ptr], from which the block is taken. *)
Lemma partial_slot s fuel ptr flags R :
  heap_ok s -> 0 < ptr < 2 ^ 32 -> ptr `mod` 8 = 0 -> used s (ptr - 1) -> free s ptr ->
  srun (heap_allat_partial (S fuel) ptr flags) s (extended s ptr flags) R.
Proof.
  intros Hok Hp Ha Hu Hf. cbn [heap_allat_partial].
  apply srun_bind, srun_check; [by apply is_aligned_mod|]. apply srun_bind.
  change (srun self s ?Q' ?R') with (Q' (hs_heap s) s). cbv beta zeta.
  destruct (plocate_ok 32 ltac:(lia) (h_addr (hs_heap s)) ptr (hk_tree _ Hok) ltac:(lia)) as (o & Ho & Hpt).
  apply srun_bind, srun_lift with (a := o); [done|]. destruct o as [[[p sm] v]|].
  2: { exfalso. destruct Hf as (x & Hx & Hin%covers_inside). by rewrite (Hpt x Hx) in Hin. }
  pose proof Hpt as (b & l & x & r & rest & Hget & Hc%covers_inside & _ & _ & Hel & _).
  assert (Hsn : slot_node (h_addr (hs_heap s)) p = Ret x) by (unfold slot_node; by rewrite Hget).
  assert (Hx : x ∈ nodes s) by (unfold nodes; rewrite Hel; by left).
  assert (Hb : mf_base x = ptr) by by eapply above_base.
  apply srun_bind, srun_lift with (a := x); [done|]. rewrite Hb, Z.sub_diag.
  apply srun_bind, srun_check; [lia|]. apply srun_bind, srun_check; [done|]. cbn [negb andb Z.eqb].
  rewrite <- Hb at 1. eapply srun_mono; [apply (allat_slot_ok s x flags _ R Hok Hx)| |done].
  - intros Q HQ. apply (srun_pop_slot s x); try done. by eexists.
  - intros z s' [_ ?]. by rewrite Hb in *.
Qed.
Lemma same_quiet s s' : heap_ok s -> same_state s s' -> quiet s s'.
Proof. intros Hok Hs. eapply same_state_held; [done|]. by apply held_refl. Qed.
Lemma quiet_extended s s1 ptr flags r s2 :
  quiet s s1 -> 0 <= r -> extended s1 ptr flags r s2 -> extended s ptr flags r s2.
Proof.
  intros Hq Hr [Hh ? ? ? ?]. split; try done. pose proof (hd_dangle _ _ _ _ _ Hq) as <-.
  eapply held_trans; [by eapply (held_empty _ 0 ptr)| |done]. lia.
Qed.
(** The memory behind used memory: some of it, if it is free or can be mapped. *)
Lemma partial_ok s ptr flags :
  heap_ok s -> allowed flags -> 0 < ptr < 2 ^ 32 -> ptr `mod` 8 = 0 -> used s (ptr - 1) ->
  srun (heap_allat_partial partial_fuel ptr flags) s
    (fun r s' => r = 0 /\ quiet s s' \/ extended s ptr flags r s')
    (fun _ s' => quiet s s').
Proof.
  intros Hok Hfl Hp Ha Hu. destruct (decide (free s ptr)) as [Hf|Hf].
  { eapply srun_mono; [by apply (partial_slot s _ ptr flags (fun _ s' => quiet s s'))| |done]. by right. }
  change partial_fuel with 6%nat. remember 5%nat as k eqn:Ek. cbn [heap_allat_partial].
  apply srun_bind, srun_check; [by apply is_aligned_mod|]. apply srun_bind.
  change (srun self s ?Q' ?R') with (Q' (hs_heap s) s). cbv beta zeta.
  destruct (plocate_ok 32 ltac:(lia) (h_addr (hs_heap s)) ptr (hk_tree _ Hok) ltac:(lia)) as (o & Ho & Hpt).
  apply srun_bind, srun_lift with (a := o); [done|]. destruct o as [[[p sm] v]|].
  { exfalso. apply Hf. destruct Hpt as (b & l & x & r & rest & _ & Hc%covers_inside & _ & _ & Hel & _).
    exists x. split; [|done]. unfold nodes. rewrite Hel. by left. }
  apply srun_bind.
  eapply srun_mono; [apply (grow_page_ok s (ptr `div` PAGESIZE) flags true Hok Hfl)|..].
  { unfold PAGESIZE. mlia. }
  2: { intros e s' ?. by apply same_quiet. }
  intros [] s1 H1; [|apply srun_ret; left; split; [done|by apply same_quiet]].
  destruct H1 as (Hq & Hfr & Hnm).
  assert (Hpg : ptr `div` PAGESIZE * PAGESIZE = ptr).
  { destruct Hu as [Hm _]. destruct (decide (ptr `div` PAGESIZE * PAGESIZE = ptr)) as [|Hne]; [done|].
    exfalso. apply Hnm. unfold mapped, PAGESIZE in *. rewrite Z.div_mul by lia.
    replace (ptr `div` 4096) with ((ptr - 1) `div` 4096) by mlia. done. }
  rewrite Hpg in *. subst k.
  eapply srun_mono; [apply (partial_slot s1 4 ptr flags (fun _ s' => quiet s s')); try done| |done].
  - apply Hq.
  - apply (hd_used _ _ _ _ _ Hq). by left.
  - apply Hfr. unfold PAGESIZE. lia.
  - intros z s' He. right. eapply quiet_extended; [done| |done].
    pose proof (ex_min _ _ _ _ _ He). unfold HEAP_MINSIZE in *. lia.
Qed.
(** What [heap_allat_untraced] has allocated so far. *)
Record growing s (ptr flags r : Z) s' : Prop := {
  gr_held : held s ptr (ptr + r) (dangle s) s';
  gr_size : r = 0 \/ HEAP_MINSIZE <= r;
  gr_asize : r `mod` 8 = 0;
  gr_end : ptr + r < 2 ^ 32;
  gr_zero : has flags GFP_CALLOC = true ->
    forall a, ptr <= a < ptr + r -> hs_mem s' a = Some 0;
}.
Lemma growing_more s ptr flags r s1 r' s2 :
  growing s ptr flags r s1 -> extended s1 (ptr + r) flags r' s2 -> growing s ptr flags (r + r') s2.
Proof.
  intros [Hh Hs Ha He Hz] [Hh' Hm' Ha' He' Hz']. unfold HEAP_MINSIZE in *.
  rewrite (hd_dangle _ _ _ _ _ Hh) in Hh'.
  split; [|unfold HEAP_MINSIZE; lia|mlia|lia|].
  - rewrite Z.add_assoc. eapply held_trans; [done|lia|done].
  - intros Hc a Hr. destruct (decide (a < ptr + r)); [|apply Hz'; [done|lia]].
    rewrite (hd_mem _ _ _ _ _ Hh') by (eapply held_mapped; [done|lia]). apply Hz; [done|lia].
Qed.
Lemma growing_quiet s ptr flags r s1 s2 :
  growing s ptr flags r s1 -> quiet s1 s2 -> growing s ptr flags r s2.
Proof.
  intros [Hh Hs Ha He Hz] Hq. unfold quiet in Hq. rewrite (hd_dangle _ _ _ _ _ Hh) in Hq.
  apply (held_empty _ _ (ptr + r)) in Hq. split; try done.
  - eapply held_trans; [done| |done]. unfold HEAP_MINSIZE in *. lia.
  - intros Hc a Hr. rewrite (hd_mem _ _ _ _ _ Hq) by (by eapply held_mapped). by apply Hz.
Qed.
Lemma allat_undo_ok s ptr flags r s1 :
  growing s ptr flags r s1 -> 0 <= ptr -> ptr `mod` 8 = 0 ->
  srun (allat_undo ptr r flags) s1 (fun _ s' => quiet s s') (fun _ _ => False).
Proof.
  intros [Hh Hs Ha He Hz] H0 Hp. unfold allat_undo, HEAP_MINSIZE in *. destruct (Z.eqb_spec r 0) as [->|].
  - rewrite Z.add_0_r in Hh. apply srun_ret. by eapply held_empty.
  - eapply srun_mono; [apply heap_release_ok|intros [] s2 F|done].
    + split; try done; [apply Hh|unfold HEAP_MINSIZE; lia|]. intros a Hr. by eapply held_mapped.
    + eapply (held_empty _ (ptr + r)), freed_held; [done|lia|].
      by replace (ptr + r - ptr) with r by lia.
Qed.
Lemma allat_loop_ok fuel s ptr r size flags s1 :
  allowed flags -> growing s ptr flags r s1 -> 0 < ptr -> ptr `mod` 8 = 0 -> used s (ptr - 1) ->
  size - r <= HEAP_MINSIZE * Z.of_nat fuel ->
  srun (allat_loop fuel ptr r size flags) s1
    (fun o s' => match o with Some z => size <= z /\ growing s ptr flags z s' | None => quiet s s' end)
    (fun _ s' => quiet s s').
Proof.
  intros Hfl. revert r s1. induction fuel as [|fuel IH]; intros r s1 Hg H0 Ha Hu Hfuel; cbn [allat_loop];
    (destruct (Z.ltb_spec r size) as [Hlt|Hge]; [|by apply srun_ret]).
  { unfold HEAP_MINSIZE in Hfuel. lia. }
  pose proof Hg as [Hh Hs Hra He _]. unfold HEAP_MINSIZE in Hs.
  rewrite u32_small by lia. apply srun_bind, srun_catch.
  eapply srun_mono; [apply (partial_ok s1 (ptr + r) flags)|..].
  { apply Hh. } { done. } { lia. } { mlia. }
  { apply (hd_used _ _ _ _ _ Hh). destruct Hs as [->|?]; [left; by rewrite Z.add_0_r|right; lia]. }
  - intros z s2 Hz.
    assert (Hnone : z = 0 -> srun (allat_undo ptr r flags ≫= fun _ => mret None) s2
      (fun o s' => match o with Some z => size <= z /\ growing s ptr flags z s' | None => quiet s s' end)
      (fun _ s' => quiet s s')).
    { intros ->. destruct Hz as [[_ Hq]|Hx]; [|destruct Hx; done].
      apply srun_bind. eapply srun_mono; [apply (allat_undo_ok s ptr flags r s2)|by intros [] s3 ?|done].
      - by eapply growing_quiet.
      - lia.
      - done. }
    destruct (Z.eqb_spec z 0) as [Ez|Hne]; [by apply Hnone|].
    destruct Hz as [[? _]|Hx]; [done|]. apply IH; try done; [by eapply growing_more|].
    destruct Hx. unfold HEAP_MINSIZE in *. lia.
  - intros e s2 Hq. apply srun_bind.
    eapply srun_mono; [apply (allat_undo_ok s ptr flags r s2)|intros [] s3 ?; by apply srun_throw|done].
    + by eapply growing_quiet.
    + lia.
    + done.
Qed.
(** Memory directly behind used memory: all of it, or nothing. *)
Lemma heap_allat_ok s ptr n flags :
  heap_ok s -> allowed flags -> 0 < ptr < 2 ^ 32 -> ptr `mod` 8 = 0 -> used s (ptr - 1) -> 0 <= n ->
  srun (heap_allat_untraced ptr n flags) s
    (fun r s' => r = 0 /\ quiet s s' \/ extended s ptr flags r s' /\ n <= r)
    (fun _ s' => quiet s s').
Proof.
  intros Hok Hfl Hp Ha Hu Hn. unfold heap_allat_untraced. pose proof (round_size_ok n Hn) as Hr.
  destruct (round_size n) as [size|]; [|by apply srun_throw, held_refl]. destruct Hr as (Hns & Hsz & Has).
  apply srun_bind. unfold HEAP_MINSIZE in *.
  eapply srun_mono; [apply (allat_loop_ok _ s ptr 0 size flags s)|..|done]; try done; [|lia| |].
  { split; rewrite ?Z.add_0_r; try done; [by apply held_refl|by left|lia|]. intros; lia. }
  { unfold allat_fuel, HEAP_MINSIZE. mlia. }
  intros [r|] s1; [|intros Hq; apply srun_ret; by left].
  intros [Hle Hg]. pose proof Hg as [Hh Hrs Hra He Hz]. cbv zeta.
  destruct (Z.leb_spec 24 (r - size)) as [Hge|Hlt].
  - rewrite u32_small by lia. apply srun_bind.
    eapply srun_mono; [apply heap_release_ok|intros [] s2 F|done].
    { split; try (unfold HEAP_MINSIZE; mlia); [apply Hh| |].
      - intros a Hr. eapply held_mapped; [done|lia].
      - intros Hc a Hr. apply Hz; [done|lia]. }
    assert (Hh2 : held s ptr (ptr + size) (dangle s) s2).
    { eapply held_tail; [done| | | |done]; lia. }
    apply srun_ret. right. split; [|done]. split; try done; [unfold HEAP_MINSIZE; lia|lia|].
    intros Hc a Hr. rewrite (fr_mem _ _ _ _ _ F) by (by eapply held_mapped). apply Hz; [done|lia].
  - apply srun_ret. right. split; [|lia]. split; try done. unfold HEAP_MINSIZE. lia.
Qed.

(** * Reallocation *)
(** The block [p ... +old] has become [r]. *)
Record resized s (p old n flags : Z) (r : Z * Z) s' : Prop := {
  rs_ok : heap_ok s';
  rs_used : forall a, used s' a <->
    (used s a /\ ~ p <= a < p + old) \/ fst r <= a < fst r + snd r;
  rs_new : forall a, fst r <= a < fst r + snd r -> used s a -> p <= a < p + old;
  rs_min : HEAP_MINSIZE <= snd r;
  rs_size : n <= snd r;
  rs_ptr : 0 <= fst r;
  rs_align : fst r `mod` 8 = 0;
  rs_asize : snd r `mod` 8 = 0;
  rs_end : fst r + snd r < 2 ^ 32;
  rs_keep : forall i, 0 <= i < Z.min old (snd r) -> hs_mem s' (fst r + i) = hs_mem s (p + i);
  rs_zero : has flags GFP_CALLOC = true ->
    forall i, old <= i < snd r -> hs_mem s' (fst r + i) = Some 0;
  rs_mem : forall a, used s a -> ~ p <= a < p + old -> hs_mem s' a = hs_mem s a;
  rs_cfg : same_cfg s s';
}.
Record block s (p old : Z) : Prop := {
  bl_ptr : 0 <= p;
  bl_align : p `mod` 8 = 0;
  bl_asize : old `mod` 8 = 0;
  bl_min : HEAP_MINSIZE <= old;
  bl_end : p + old < 2 ^ 32;
  bl_used : forall a, p <= a < p + old -> used s a;
}.
Lemma held_same_cfg s lo hi s' : held s lo hi (dangle s) s' -> same_cfg s s'.
Proof. intros []. by apply same_cfg_split. Qed.
Lemma shrink_ok s p old n aflags fflags :
  heap_ok s -> block s p old -> HEAP_MINSIZE <= n <= old -> n `mod` 8 = 0 ->
  forall s', freed s (p + n) (old - n) (has fflags GFP_NOMAP) s' -> resized s p old n aflags (p, n) s'.
Proof.
  intros Hok [Hp Hpa Hoa Hom Hoe Hu] Hn Hna s' [Hok' Hu' Hm' Hc _ _ _].
  unfold HEAP_MINSIZE in *. split; cbn; unfold HEAP_MINSIZE; try done; try lia.
  - intros a. rewrite Hu'. split.
    + intros [Ha Hr]. destruct (decide (p <= a < p + n)); [by right|left]. split; [done|lia].
    + intros [[Ha Hr]|Hr]; [split; [done|lia]|]. split; [apply Hu|]; lia.
  - intros i Hi. apply Hm', Hu'. split; [apply Hu|]; lia.
  - intros a Ha Hr. apply Hm', Hu'. split; [done|lia].
Qed.
Lemma same_size_ok s p old n aflags :
  heap_ok s -> block s p old -> n <= old -> resized s p old n aflags (p, old) s.
Proof.
  intros Hok [Hp Hpa Hoa Hom Hoe Hu] Hn. unfold HEAP_MINSIZE in *. split; cbn; unfold HEAP_MINSIZE; try done; try lia.
  intros a. split.
  - intros Ha. destruct (decide (p <= a < p + old)); [by right|by left].
  - intros [[? _]|?]; [done|by apply Hu].
Qed.
Lemma grown_in_place_ok s p old n r aflags s' :
  block s p old -> extended s (p + old) aflags r s' -> n - old <= r ->
  resized s p old n aflags (p, old + r) s'.
Proof.
  intros [Hp Hpa Hoa Hom Hoe Hu] [Hh Hmin Ha He Hz] Hn. pose proof Hh as [Hok Hus Hnew Hmem _ _].
  unfold HEAP_MINSIZE in *. split; cbn; unfold HEAP_MINSIZE; try done; try lia; try mlia.
  - intros a. rewrite Hus. split.
    + intros [Hua|Hr]; [|right; lia]. destruct (decide (p <= a < p + old)); [right; lia|by left].
    + intros [[? _]|Hr]; [by left|]. destruct (decide (a < p + old)); [left; apply Hu|right]; lia.
  - intros a Hr Hua. destruct (decide (a < p + old)); [lia|]. exfalso. apply (Hnew a); [lia|done].
  - intros i Hi. apply Hmem, Hu. lia.
  - intros Hc i Hi. apply Hz; [done|lia].
  - intros a Hua _. by apply Hmem.
  - by eapply held_same_cfg.
Qed.
(** Clearing [GFP_CALLOC]. *)
Lemma ldiff_calloc flags : has (Z.ldiff flags GFP_CALLOC) GFP_CALLOC = false.
Proof.
  unfold has. replace (Z.land _ _) with 0; [done|]. symmetry. apply Z.bits_inj'. intros k _.
  rewrite Z.land_spec, Z.ldiff_spec, Z.bits_0. by destruct (Z.testbit flags k), (Z.testbit GFP_CALLOC k).
Qed.
Lemma alloced_free s n flags fl r s1 s2 :
  alloced s n flags r s1 -> same_state s1 s2 -> has fl GFP_CALLOC = false ->
  srun (heap_free_untraced (fst r) (snd r) fl) s2 (fun _ s' => quiet s s') (fun _ _ => False).
Proof.
  intros [Hh Hm Hn Hp Ha Has He Hz] Hs Hfl. apply (same_state_held _ _ _ _ _ _ Hs) in Hh.
  eapply srun_mono; [apply heap_release_ok|intros [] s3 F|done].
  - split; try done; [apply Hh| |by rewrite Hfl]. intros a Hr. by eapply held_mapped.
  - eapply (held_empty _ (fst r + snd r)), freed_held; [done|unfold HEAP_MINSIZE in *; lia|].
    by replace (fst r + snd r - fst r) with (snd r) by lia.
Qed.
Lemma move_block_ok s p old n aflags fflags r s1 :
  block s p old -> alloced s n aflags r s1 -> old <= snd r ->
  srun (move_block p old aflags fflags r) s1 (fun r' s' => r' = r /\ resized s p old n aflags r s')
    (fun _ s' => quiet s s').
Proof.
  intros [Hp Hpa Hoa Hom Hoe Hu] Hal Hle. pose proof Hal as [Hh Hrm Hrn Hrp Hra Hrs Hre Hrz].
  pose proof Hh as [_ Hus Hnew Hmem _ _]. unfold move_block. apply srun_bind, srun_catch, srun_bind, srun_request.
  2: { intros e s2 H2. apply srun_bind.
       eapply srun_mono; [by apply (alloced_free s n aflags _ r s1 s2); [|apply asked_same|apply ldiff_calloc]| |done].
       intros [] s3 ?. by apply srun_throw. }
  intros s2 H2. destruct r as [q z]. cbn [fst snd] in *.
  change (srun (memcpy q p old) s2 ?Q' ?R') with (Q' tt (with_mem s2 (fun x =>
    if (q <=? x) && (x <? q + old) then hs_mem s2 (p + (x - q)) else hs_mem s2 x))). cbv beta.
  set (m := fun x : Z => _).
  assert (Hm : hs_mem s2 = hs_mem s1) by apply H2.
  assert (Hh3 : held s q (q + z) (dangle s) (with_mem s2 m)).
  { apply held_mem; [by eapply same_state_held; [apply asked_same|]|]. intros a Ha. unfold m. by replace (_ && _) with false by lia. }
  set (s3 := with_mem s2 m) in *. apply srun_bind.
  assert (Hu3 : forall a, p <= a < p + old -> used s3 a).
  { intros a Ha. apply (hd_used _ _ _ _ _ Hh3). left. by apply Hu. }
  eapply srun_mono; [apply heap_release_ok|intros [] s4 F|done].
  { split; try done; [apply Hh3|]. by rewrite ldiff_calloc. }
  apply srun_ret. split; [done|]. pose proof F as [Hok4 Hu4 Hm4 Hc4 _ _ _].
  assert (Hdis : forall a, q <= a < q + z -> ~ p <= a < p + old).
  { intros a Ha Hr. apply (Hnew a); [done|]. by apply Hu. }
  assert (Hin : forall a, q <= a < q + z -> hs_mem s4 a = m a).
  { intros a Ha. rewrite Hm4; [done|]. apply Hu4. split; [by eapply held_mapped|by apply Hdis]. }
  unfold HEAP_MINSIZE in *. split; cbn; unfold HEAP_MINSIZE; try done.
  - intros a. rewrite Hu4, (hd_used _ _ _ _ _ Hh3). split; [naive_solver|].
    intros [[? ?]|?]; split; auto.
  - intros a Ha Hua. exfalso. by apply (Hnew a).
  - intros i Hi. rewrite Hin by lia. unfold m. replace (_ && _) with true by lia. rewrite Hm.
    replace (p + (q + i - q)) with (p + i) by lia. apply Hmem, Hu. lia.
  - intros Hc i Hi. rewrite Hin by lia. unfold m. replace (_ && _) with false by lia. rewrite Hm.
    apply Hrz; [done|lia].
  - intros a Hua Hr. rewrite Hm4; [|apply Hu4; split; [|done]; apply (hd_used _ _ _ _ _ Hh3); by left].
    by apply (hd_mem _ _ _ _ _ Hh3).
  - etransitivity; [by eapply held_same_cfg|done].
Qed.
(** [alloc] makes a block of [n] bytes, at an address that satisfies [P]. *)
Definition allocates (alloc : SM hstate (Z * Z)) (n flags : Z) (P : Z -> Prop) s : Prop :=
  srun alloc s (fun r s' => alloced s n flags r s' /\ P (fst r)) (fun _ s' => quiet s s').
Lemma quiet_alloced s s1 n flags r s2 : quiet s s1 -> alloced s1 n flags r s2 -> alloced s n flags r s2.
Proof.
  intros Hq [Hh ? ? ? ? ? ? ?]. split; try done. rewrite <- (hd_dangle _ _ _ _ _ Hq).
  eapply held_trans; [by eapply (held_empty _ 0 (fst r))| |done]. unfold HEAP_MINSIZE in *. lia.
Qed.
Lemma quiet_trans s s1 s2 : quiet s s1 -> quiet s1 s2 -> quiet s s2.
Proof.
  intros Hq Hq2. unfold quiet. rewrite <- (hd_dangle _ _ _ _ _ Hq). by eapply held_trans.
Qed.
Lemma resize_block_ok s p old n aflags fflags alloc (P : Z -> Prop) :
  heap_ok s -> allowed aflags -> block s p old -> HEAP_MINSIZE <= n < 2 ^ 32 -> n `mod` 8 = 0 ->
  (has fflags GFP_CALLOC = true -> forall a, p <= a < p + old -> hs_mem s a = Some 0) ->
  P p -> (old < n -> forall s1, quiet s s1 -> allocates alloc n aflags P s1) ->
  srun (resize_block p old n aflags fflags alloc) s
    (fun r s' => resized s p old n aflags r s' /\ P (fst r)) (fun _ s' => quiet s s').
Proof.
  intros Hok Hfl Hbl Hn Hna Hz HP Halloc. pose proof Hbl as [Hp Hpa Hoa Hom Hoe Hu]. unfold resize_block, HEAP_MINSIZE in *.
  destruct (Z.leb_spec n old) as [Hle|Hgt].
  - cbv zeta. destruct (Z.leb_spec 24 (old - n)); [|apply srun_ret; split; [by apply same_size_ok|done]].
    apply srun_bind. eapply srun_mono; [apply heap_release_ok|intros [] s1 F|done].
    { split; try (unfold HEAP_MINSIZE; mlia); [done| |].
      - intros a Ha. apply Hu. lia.
      - intros Hc a Ha. apply Hz; [done|lia]. }
    apply srun_ret. split; [|done]. eapply shrink_ok; try done. unfold HEAP_MINSIZE. lia.
  - rewrite u32_small by lia. apply srun_bind.
    eapply srun_mono; [apply (heap_allat_ok s (p + old) (n - old) aflags Hok Hfl)|..|done].
    { lia. } { mlia. } { apply Hu. lia. } { lia. }
    intros z s1 [[-> Hq]|[He Hz1]]; cbn [negb Z.eqb].
    + apply srun_bind. eapply srun_mono; [by apply Halloc|..].
      * intros r s2 [Hal HPr]. apply (quiet_alloced _ _ _ _ _ _ Hq) in Hal.
        eapply srun_mono; [apply (move_block_ok s p old n aflags fflags r s2); try done| |done].
        -- pose proof (al_size _ _ _ _ _ Hal). lia.
        -- by intros r' s3 [-> ?].
      * intros e s2 Hq2. by eapply quiet_trans.
    + assert (z <> 0) by (pose proof (ex_min _ _ _ _ _ He); unfold HEAP_MINSIZE in *; lia).
      destruct (Z.eqb_spec z 0); [done|]. apply srun_ret. split; [by eapply grown_in_place_ok|done].
Qed.
Lemma quiet_dangle s s1 : quiet s s1 -> dangle s1 = dangle s.
Proof. by intros []. Qed.
Lemma heap_alloc_allocates s n flags :
  heap_ok s -> dangle s = 0 -> allowed flags -> 0 <= n -> allocates (heap_alloc_untraced n flags) n flags (fun _ => True) s.
Proof.
  intros Hok Hd Hfl Hn. eapply srun_mono; [by apply heap_alloc_ok|done|]. intros e s'. by apply same_quiet.
Qed.
Lemma realloc_checks_ok p old s (Q : unit -> hstate -> Prop) R :
  old = 0 \/ block s p old -> Q tt s -> srun (realloc_checks p old) s Q R.
Proof.
  intros Hb HQ. unfold realloc_checks, HEAP_MINSIZE. destruct Hb as [->|[? ? ? Hm ? ?]].
  - by repeat (apply srun_bind, srun_check; [done|]).
  - unfold HEAP_MINSIZE in Hm. apply srun_bind, srun_check; [by apply is_aligned_mod|].
    apply srun_bind, srun_check; [apply orb_true_iff; right; by apply is_aligned_mod|].
    apply srun_check; [lia|done].
Qed.
Lemma alloced_resized s p n flags r s' : alloced s n flags r s' -> resized s p 0 n flags r s'.
Proof.
  intros [Hh ? ? ? ? ? ? Hz]. pose proof Hh as [? Hu Hn Hm _ _]. split; try done.
  - intros a. rewrite Hu. split; (intros [?|?]; [left|by right]); [split; [done|lia]|naive_solver].
  - intros a Ha Hua. exfalso. by apply (Hn a).
  - intros; lia.
  - intros Hc i Hi. apply Hz; [done|lia].
  - intros a Hua _. by apply Hm.
  - by eapply held_same_cfg.
Qed.
Lemma resized_less s p old n n' flags r s' :
  resized s p old n flags r s' -> n' <= n -> resized s p old n' flags r s'.
Proof. intros [] Hn. split; try done. lia. Qed.
Lemma heap_realloc_ok s p old n aflags fflags :
  heap_ok s -> dangle s = 0 -> allowed aflags -> old = 0 \/ block s p old -> 0 <= n ->
  (has fflags GFP_CALLOC = true -> forall a, p <= a < p + old -> hs_mem s a = Some 0) ->
  srun (heap_realloc_untraced p old n aflags fflags) s (resized s p old n aflags) (fun _ s' => quiet s s').
Proof.
  intros Hok Hd Hfl Hb Hn Hz. unfold heap_realloc_untraced. apply srun_bind, realloc_checks_ok; [done|].
  destruct (Z.eqb_spec old 0) as [->|Hne].
  { eapply srun_mono; [by apply heap_alloc_allocates|intros r s' [? _]; by apply alloced_resized|done]. }
  destruct Hb as [?|Hb]; [done|]. pose proof (round_size_ok n Hn) as Hr.
  destruct (round_size n) as [size|]; [|by apply srun_throw, held_refl]. destruct Hr as (Hns & Hsz & Ha).
  eapply srun_mono; [apply (resize_block_ok _ _ _ _ _ _ _ (fun _ => True)); try done|intros r s' [? _]; by eapply resized_less|done].
  intros _ s1 Hq. apply heap_alloc_allocates; [apply Hq|by rewrite (quiet_dangle _ _ Hq)|done|].
  unfold HEAP_MINSIZE in *. lia.
Qed.

(** * Aligned blocks *)
(** [offset] is a multiple of the pointer alignment, and twice of it one of [m]: only
    then do the two conditions that the code uses for an aligned block agree. *)
Record alignment (k m offset : Z) : Prop := {
  ag_log : 0 <= k < 32;
  ag_pow : m = 2 ^ k;
  ag_offset : 0 <= offset < m;
  ag_twice : (2 * offset) `mod` m = 0;
  ag_asize : offset `mod` 8 = 0;
}.
Lemma ldiff_u32 x y : Z.ldiff (u32 x) y = u32 (Z.ldiff x y).
Proof.
  unfold u32, wrap. rewrite <- !Z.land_ones by lia. apply Z.bits_inj'. intros i _.
  rewrite !Z.ldiff_spec, !Z.land_spec, Z.ldiff_spec.
  by destruct (Z.testbit x i), (Z.testbit (Z.ones 32) i), (Z.testbit y i).
Qed.
Lemma u32_add_l a b : u32 (u32 a + b) = u32 (a + b).
Proof. unfold u32, wrap. by rewrite Zplus_mod_idemp_l. Qed.
Lemma mod_weaken x k : 3 <= k -> x `mod` 2 ^ k = 0 -> x `mod` 8 = 0.
Proof.
  intros Hk Hx. apply Z.mod_divide in Hx; [|lia]. apply Z.mod_divide; [lia|].
  etransitivity; [|done]. exists (2 ^ (k - 3)). change 8 with (2 ^ 3). rewrite <- Z.pow_add_r by lia.
  f_equal. lia.
Qed.
(** The loop adds [m] until the gap is large enough for a range. *)
Lemma advance_base_ok fuel a base m :
  0 < m -> 0 <= base -> base <= a -> a < base + HEAP_MINSIZE + m -> base + HEAP_MINSIZE + m <= 2 ^ 32 ->
  HEAP_MINSIZE <= (a - base) + m * Z.of_nat fuel ->
  exists b, advance_base fuel a base m = Ret b /\ base + HEAP_MINSIZE <= b < base + HEAP_MINSIZE + m /\
    (b - a) `mod` m = 0.
Proof.
  unfold HEAP_MINSIZE. revert a. induction fuel as [|fuel IH]; intros a Hm Hb Hle Hlt Hw Hf;
    cbn [advance_base]; unfold HEAP_MINSIZE; rewrite u32_small by lia;
    (destruct (Z.ltb_spec (a - base) 24); [|exists a; rewrite Z.sub_diag, Z.mod_0_l by lia; split_and!; lia || done]).
  - lia.
  - rewrite u32_small by lia. destruct (IH (a + m)) as (b & -> & Hr & Hd); try lia.
    exists b. split; [done|]. split; [lia|]. replace (b - a) with ((b - (a + m)) + 1 * m) by lia.
    by rewrite Z.mod_add by lia.
Qed.
(** The candidate in a range: a place that is aligned, at the start or behind a range. *)
Lemma align_chain_ok k m offset n x :
  alignment k m offset -> node_ok x -> HEAP_MINSIZE <= n <= mf_size x ->
  MFREE_END x + m + HEAP_MINSIZE <= 2 ^ 32 ->
  exists o, align_chain m offset n x = Ret o /\
  match o with
  | Some p => (p = mf_base x \/ mf_base x + HEAP_MINSIZE <= p) /\ p + n <= MFREE_END x /\
      (p - offset) `mod` m = 0
  | None => True
  end.
Proof.
  intros [Hk Hm Ho H2 _] [Hb Hba Hbs Hbm He _] Hn Hw. unfold align_chain. cbv zeta.
  rewrite u32_add_l, ldiff_u32, u32_add_l. subst m. rewrite round_down by lia.
  set (m := 2 ^ k) in *. set (y := mf_base x - offset + (m - 1)).
  assert (Hm : 0 < m) by lia. pose proof (Z.mod_pos_bound y m Hm) as Hr.
  set (a := y - y `mod` m + offset).
  assert (Ha : mf_base x <= a < mf_base x + m) by (unfold a, y in *; lia).
  assert (Had : (a - offset) `mod` m = 0).
  { unfold a. replace (y - y `mod` m + offset - offset) with (y `div` m * m)
      by (pose proof (Z.div_mod y m ltac:(lia)); lia). apply Z.mod_mul. lia. }
  clearbody a. unfold HEAP_MINSIZE, MFREE_END in *. rewrite (u32_small a) by lia.
  assert (Hend : forall b, mf_base x <= b < mf_base x + 24 + m -> (b - offset) `mod` m = 0 ->
    b = mf_base x \/ mf_base x + 24 <= b ->
    match (if mf_base x + mf_size x <? u32 (b + n) then None else Some b) with
    | Some p => (p = mf_base x \/ mf_base x + 24 <= p) /\ p + n <= mf_base x + mf_size x /\
        (p - offset) `mod` m = 0
    | None => True
    end).
  { intros b Hb1 Hb2 Hb3. rewrite u32_small by lia. destruct (Z.ltb_spec (mf_base x + mf_size x) (b + n)); [done|].
    split_and!; done || lia. }
  destruct (Z.eqb_spec a (mf_base x)) as [->|Hne]; cbn.
  - eexists. split; [done|]. apply Hend; [lia|done|by left].
  - destruct (advance_base_ok (Z.to_nat HEAP_MINSIZE) a (mf_base x) m) as (b & Hadv & Hbr & Hbd);
      unfold HEAP_MINSIZE in *; try lia.
    rewrite Hadv. cbn. eexists. split; [done|]. apply Hend; [lia| |right; lia].
    replace (b - offset) with ((b - a) + (a - offset)) by lia.
    by rewrite Z.add_mod, Hbd, Had by lia.
Qed.
Lemma srun_seq_ret {A B} (m1 : SM hstate A) (m2 : SM hstate B) s (Q : B -> hstate -> Prop) R :
  srun (m1 ≫= fun _ => m2 ≫= mret) s Q R -> srun (m1 ≫= fun _ => m2) s Q R.
Proof. unfold srun, mbind, SM_bind. destruct (m1 s) as [? s1| |]; try done. by destruct (m2 s1). Qed.
Definition aligned s (n m offset flags : Z) (r : Z * Z) s' : Prop :=
  alloced s n flags r s' /\ (fst r + offset) `mod` m = 0.
Lemma alignment_sum k m offset p :
  alignment k m offset -> (p - offset) `mod` m = 0 -> (p + offset) `mod` m = 0.
Proof.
  intros [? -> ? H2 _] Hp. replace (p + offset) with (p - offset + 2 * offset) by lia.
  by rewrite Z.add_mod, Hp, H2 by lia.
Qed.
Lemma alignment_ptr k m offset p :
  alignment k m offset -> 3 <= k -> (p - offset) `mod` m = 0 -> p `mod` 8 = 0.
Proof. intros [? -> ? _ Ho] Hk Hp. apply (mod_weaken _ k) in Hp; [|done]. mlia. Qed.
(** The place of the block after the random shift [d]. *)
Lemma align_head_ok s x d0 s1 q (Q : unit -> hstate -> Prop) R :
  node_ok x -> held s (mf_base x) (MFREE_END x) d0 s1 -> zero_ok (hs_mem s1) x ->
  q = mf_base x \/ mf_base x + HEAP_MINSIZE <= q -> q <= MFREE_END x -> q `mod` 8 = 0 ->
  (forall s', held s q (MFREE_END x) d0 s' ->
     (mf_flags x = GFP_CALLOC -> forall a, q + SIZEOF_MFREE <= a < MFREE_END x -> hs_mem s' a = Some 0) ->
     Q tt s') ->
  srun (if q - mf_base x =? 0 then mret tt
        else scheck (HEAP_MINSIZE <=? q - mf_base x) ≫= fun _ =>
             clear_header (mf_base x) (mf_flags x) ≫= fun _ =>
             heap_free_raw free_fuel (mf_base x) (q - mf_base x) (mf_flags x)) s1 Q R.
Proof.
  intros Hx Hh Hz Hq Hle Ha HQ. pose proof Hx as [Hb Hba Hbs Hbm He Hf]. unfold HEAP_MINSIZE in *.
  destruct (Z.eqb_spec (q - mf_base x) 0) as [E|Hne].
  - replace q with (mf_base x) in * by lia. by apply srun_ret, HQ.
  - apply srun_bind, srun_check; [lia|]. apply srun_seq_ret.
    apply (srun_free_head s x d0 s1 _ (mf_flags x)); try done; try (unfold HEAP_MINSIZE; mlia).
    { by apply has_flags. }
    replace (mf_base x + (q - mf_base x)) with q by lia.
    intros s2 Hh2 Hk2. apply srun_ret, HQ; [done|]. intros Hc a Hr. unfold SIZEOF_MFREE in *.
    rewrite Hk2 by lia. apply Hz; [done|unfold SIZEOF_MFREE; lia].
Qed.
Lemma srun_rand_if b s (Q : option Z -> hstate -> Prop) R :
  (forall r f, (b = true -> r = None) ->
     Q r (MkHs (hs_heap s) (hs_vm s) (hs_mem s) (hs_oracle s) f)) ->
  srun (if b then mret None else rand) s Q R.
Proof.
  intros HQ. destruct b; [|by apply srun_rand; intros; apply HQ].
  apply srun_ret. destruct s. by apply HQ.
Qed.
Lemma align_in_chain_ok s x p k m offset n flags :
  heap_ok s -> 0 <= dangle s < 2 ^ 32 -> x ∈ nodes s -> alignment k m offset -> 3 <= k ->
  HEAP_MINSIZE <= n -> n `mod` 8 = 0 -> p = mf_base x \/ mf_base x + HEAP_MINSIZE <= p ->
  p + n <= MFREE_END x -> (p - offset) `mod` m = 0 ->
  srun (align_in_chain x p m offset n flags) s (aligned s n m offset flags) (fun _ _ => False).
Proof.
  intros Hok Hd Hx Hag Hk Hn Hna Hp Hend Hpo.
  pose proof (free_node _ _ Hok Hx) as Hnx. pose proof Hnx as [Hb Hba Hbs _ He Hf].
  unfold align_in_chain. apply srun_bind, srun_take_chain; [done|done|]. intros s1 Ht.
  pose proof (held_taken _ _ _ Hok Ht) as Hh. destruct (taken_zero _ _ _ Hok Ht) as (Hz & _).
  cbv zeta. set (dg := mf_size x - n). apply srun_bind, srun_add_dangle.
  assert (Hd1 : dangle s1 = dangle s) by by destruct Ht as (_ & _ & t & l & ->).
  rewrite Hd1. apply (held_dangle _ _ _ _ _ (u32 (dangle s + dg))) in Hh. set (s2 := set_dangle s1 _) in *.
  unfold HEAP_MINSIZE, MFREE_END in *. rewrite !u32_small by lia.
  set (tk := mf_base x + mf_size x - (p + n)). apply srun_bind, srun_rand_if. intros r f Hr.
  set (s2r := MkHs _ _ _ _ _).
  assert (Hhr : held s (mf_base x) (mf_base x + mf_size x) (u32 (dangle s + dg)) s2r) by by apply held_env.
  set (off := match r with Some r => _ | None => 0 end).
  set (sh := match r with Some _ => _ | None => false end). set (d := if sh then off else 0).
  assert (Hoff : 0 <= d <= tk /\ d `mod` m = 0 /\ (p + d = mf_base x \/ mf_base x + 24 <= p + d)).
  { unfold d, sh, off. destruct Hag as [? -> _ _ _]. destruct r as [r|]; [|split_and!; try done; lia].
    rewrite round_down by lia. destruct (Z.eqb_spec tk 0) as [?|]; [by specialize (Hr eq_refl)|].
    unfold HEAP_MINSIZE. destruct (Z.leb_spec 24 (p - mf_base x + (r `mod` tk - (r `mod` tk) `mod` 2 ^ k)));
      [|split_and!; try done; lia].
    pose proof (Z.mod_pos_bound r tk ltac:(lia)). pose proof (Z.mod_pos_bound (r `mod` tk) (2 ^ k) ltac:(lia)).
    pose proof (Z.mod_le (r `mod` tk) (2 ^ k) ltac:(lia) ltac:(lia)). split_and!; try lia.
    replace (r `mod` tk - (r `mod` tk) `mod` 2 ^ k) with ((r `mod` tk) `div` 2 ^ k * 2 ^ k)
      by (pose proof (Z.div_mod (r `mod` tk) (2 ^ k) ltac:(lia)); lia). apply Z.mod_mul. lia. }
  clearbody d. clear off sh. destruct Hoff as (Hd0 & Hdm & Hdp).
  assert (Hq : (p + d - offset) `mod` m = 0).
  { replace (p + d - offset) with (p - offset + d) by lia. destruct Hag as [? -> _ _ _].
    by rewrite Z.add_mod, Hpo, Hdm by lia. }
  assert (Hqa : (p + d) `mod` 8 = 0) by by eapply alignment_ptr.
  assert (Hqo : (p + d + offset) `mod` m = 0) by by eapply alignment_sum.
  replace (p - mf_base x + d) with (p + d - mf_base x) by lia. set (q := p + d) in *. unfold tk in *.
  apply srun_bind. apply (align_head_ok s x (u32 (dangle s + dg)) s2r q); unfold MFREE_END, HEAP_MINSIZE; try done; [lia|].
  intros s3 Hh3 Hz3. unfold MFREE_END in Hz3. apply srun_bind.
  set (un := mf_base x + mf_size x - (p + n) - d).
  assert (Hun : q + n + un = mf_base x + mf_size x) by (unfold q, un; lia).
  assert (Huna : un `mod` 8 = 0) by (clear - Hun Hqa Hna Hba Hbs; mlia).
  eapply srun_mono; [refine (free_tail_ok s q _ _ s3 n un _ Hh3 _ _ Hun _ _ Hqa Hna Huna _)| |done].
  { unfold q. lia. } { lia. } { unfold un. lia. } { unfold HEAP_MINSIZE. lia. }
  { intros Hc a Ha. apply Hz3; [by apply calloc_flags in Hc|unfold SIZEOF_MFREE; lia]. }
  intros z s4 (Hh4 & Hz41 & Hz42 & Hz43 & Hk4). apply srun_bind, srun_add_dangle.
  rewrite (hd_dangle _ _ _ _ _ Hh4), u32_undo by done.
  apply (held_dangle _ _ _ _ _ (dangle s)) in Hh4. set (s5 := set_dangle s4 _) in *.
  apply srun_bind. eapply init_block_ok; [done|unfold HEAP_MINSIZE; lia|done| |].
  { intros Hc a Ha. unfold s5. cbn. rewrite Hk4 by (unfold SIZEOF_MFREE in *; lia). apply Hz3; [done|lia]. }
  intros s6 Hh6 Hz6. apply srun_bind, srun_check; [by apply is_aligned_mod|].
  apply srun_bind, srun_check; [destruct Hag as [? -> _ _ _]; by apply Z.eqb_eq|].
  apply srun_bind, srun_check; [by apply is_aligned_mod|].
  apply srun_bind, srun_check; [unfold HEAP_MINSIZE; lia|]. apply srun_ret.
  split; [split|]; cbn; unfold HEAP_MINSIZE; done || lia.
Qed.
(** The first place behind a range at which a block is aligned. *)
Lemma ceil_align_ok k m offset base :
  alignment k m offset -> 3 <= k -> 0 <= base -> base + m + HEAP_MINSIZE <= 2 ^ 32 ->
  let p := u32 (HEAP_CEIL_ALIGN (u32 (base + HEAP_MINSIZE + offset)) m - offset) in
  base + HEAP_MINSIZE <= p < base + HEAP_MINSIZE + m /\ (p + offset) `mod` m = 0 /\ p `mod` 8 = 0.
Proof.
  intros [Hk Hm Ho _ Ho8] Hk3 Hb Hw. cbv zeta. unfold HEAP_CEIL_ALIGN, HEAP_MINSIZE in *.
  rewrite u32_add_l, ldiff_u32. rewrite <- Z.add_opp_r, u32_add_l. subst m. rewrite round_down by lia.
  set (m := 2 ^ k) in *. set (y := base + 24 + offset + (m - 1)). assert (Hm : 0 < m) by lia.
  pose proof (Z.mod_pos_bound y m Hm) as Hr. rewrite u32_small by (unfold y in *; lia).
  assert (Hp : (y - y `mod` m + - offset + offset) `mod` m = 0).
  { replace (y - y `mod` m + - offset + offset) with (y `div` m * m)
      by (pose proof (Z.div_mod y m ltac:(lia)); lia). apply Z.mod_mul. lia. }
  split; [unfold y in *; lia|]. split; [done|]. set (p := y - y `mod` m + - offset) in *. clearbody p.
  apply (mod_weaken _ k) in Hp; [|done]. clear - Hp Ho8. mlia.
Qed.
Lemma align_overalloc_ok s k m offset n flags :
  heap_ok s -> dangle s = 0 -> allowed flags -> alignment k m offset -> 3 <= k ->
  HEAP_MINSIZE <= n < 2 ^ 32 -> n `mod` 8 = 0 ->
  srun (align_overalloc m offset n flags) s (aligned s n m offset flags) (fun _ s' => same_state s s').
Proof.
  intros Hok Hd Hfl Hag Hk Hn Hna. unfold align_overalloc. cbv zeta. unfold HEAP_MINSIZE in *.
  destruct (Z.leb_spec (2 ^ 32) (n + m + 24)) as [|Hsum]; [by apply srun_throw|].
  pose proof Hag as [_ _ Ho _ _]. apply srun_bind.
  eapply srun_mono; [apply (heap_alloc_ok s (n + m + 24) flags Hok Hd Hfl)|intros [base bs] s1 Hal|done]; [lia|].
  destruct Hal as [Hh _ Hbs Hb Hba Hbsa Hbe Hz]. cbn [fst snd] in *.
  destruct (ceil_align_ok k m offset base Hag Hk Hb ltac:(unfold HEAP_MINSIZE; lia)) as (Hp & Hpo & Hpa).
  set (p := u32 (HEAP_CEIL_ALIGN _ m - offset)) in *. clearbody p. unfold HEAP_MINSIZE in Hp.
  apply srun_bind, srun_check; [lia|]. rewrite !u32_small by lia.
  apply srun_bind, srun_check; [lia|]. apply srun_bind, srun_check; [lia|].
  apply srun_bind, srun_check; [lia|]. apply srun_bind.
  assert (Hnu : (p - base) `mod` 8 = 0) by (clear - Hpa Hba; mlia).
  eapply srun_mono; [apply heap_release_ok|intros [] s2 F|done].
  { split; try done; unfold HEAP_MINSIZE; try lia; [apply Hh| |].
    - intros a Ha. eapply held_mapped; [done|lia].
    - intros Hc a Ha. apply Hz; [done|lia]. }
  assert (Hh2 : held s p (base + bs) (dangle s) s2).
  { apply (held_head s base (base + bs) (dangle s) s1 (p - base)) in F; [|done|lia..].
    by replace (base + (p - base)) with p in F by lia. }
  apply srun_bind, srun_check; [lia|]. apply srun_bind, srun_check; [lia|]. apply srun_bind.
  assert (Hz2 : has flags GFP_CALLOC = true -> forall a, p <= a < base + bs -> hs_mem s2 a = Some 0).
  { intros Hc a Ha. rewrite (fr_mem _ _ _ _ _ F) by (by eapply held_mapped). apply Hz; [done|lia]. }
  set (un := bs - (p - base) - n). assert (Hun : p + n + un = base + bs) by (unfold un; lia).
  assert (Huna : un `mod` 8 = 0) by (clear - Hun Hpa Hna Hba Hbsa; mlia).
  eapply (srun_mono _ _ (fun z s' => held s p (p + z) (dangle s) s' /\ n <= z /\ z `mod` 8 = 0 /\
    p + z <= base + bs /\ kept_mem s2 s' p (p + z)) _ (fun _ _ => False)); [|intros z s3|done].
  - destruct (Z.leb_spec 24 un) as [Hge|Hlt].
    + apply srun_bind. eapply srun_mono; [apply heap_release_ok|intros [] s3 F3|done].
      { split; try done; unfold HEAP_MINSIZE; try lia; [apply Hh2|clear - Hpa Hna; mlia| |].
        - intros a Ha. eapply held_mapped; [done|lia].
        - intros Hc a Ha. apply Hz2; [done|lia]. }
      assert (Hh3 : held s p (p + n) (dangle s) s3) by (eapply held_tail; [done| | | |done]; lia).
      apply srun_ret. replace (bs - (p - base) - un) with n by (unfold un; lia). split_and!; try done; [lia..|].
      intros a Ha. apply (fr_mem _ _ _ _ _ F3). by eapply held_mapped.
    + apply srun_ret. replace (p + (bs - (p - base))) with (base + bs) by lia.
      split_and!; try done; [unfold un in *; lia|clear - Hbsa Hnu; mlia].
  - intros (Hh3 & Hz1 & Hza & Hze & Hk3).
    apply srun_bind, srun_check; [lia|].
    apply srun_bind, srun_check; [destruct Hag as [? -> _ _ _]; by apply Z.eqb_eq|].
    apply srun_bind, srun_check; [by apply is_aligned_mod|]. apply srun_bind, srun_check; [unfold HEAP_MINSIZE; lia|].
    apply srun_ret. split; [split|]; cbn; unfold HEAP_MINSIZE; try done; try lia.
    intros Hc a Ha. rewrite Hk3 by done. apply Hz2; [done|lia].
Qed.
Definition below_top s (m : Z) : Prop := Forall (fun x => MFREE_END x + m + HEAP_MINSIZE <= 2 ^ 32) (nodes s).
Lemma pow_land k m : 0 <= k -> m = 2 ^ k -> (m =? 0) = false /\ Z.land m (m - 1) = 0.
Proof.
  intros Hk ->. split; [lia|]. replace (2 ^ k - 1) with (Z.ones k) by (rewrite Z.ones_equiv; lia).
  rewrite Z.land_ones by lia. apply Z.mod_same. lia.
Qed.
Lemma heap_align_ok s k m offset n flags :
  heap_ok s -> dangle s = 0 -> allowed flags -> 0 <= n -> alignment k m (Z.land offset (m - 1)) -> below_top s m ->
  srun (heap_align_untraced m offset n flags) s
    (aligned s n m (Z.land offset (m - 1)) flags) (fun _ s' => same_state s s').
Proof.
  intros Hok Hd Hfl Hn Hag Htop. pose proof Hag as [Hk Hm Ho _ Ho8].
  destruct (pow_land k m ltac:(lia) Hm) as [Hne Hpow]. unfold heap_align_untraced.
  apply srun_bind, srun_check; [by rewrite Hne|]. apply srun_bind, srun_check; [lia|]. cbv zeta.
  set (off := Z.land offset (m - 1)) in *. clearbody off. unfold HEAP_ALIGNMENT.
  destruct (Z.leb_spec m 8) as [Hle|Hgt]; cbn [andb].
  - replace off with 0 in * by (clear - Ho Ho8 Hle; mlia). cbn [Z.eqb].
    eapply srun_mono; [by apply heap_alloc_ok| |done]. intros r s' Hal. split; [done|].
    rewrite Z.add_0_r. pose proof (al_align _ _ _ _ _ Hal) as Ha. apply Z.mod_divide in Ha; [|lia].
    apply Z.mod_divide; [lia|]. etransitivity; [|done]. exists (2 ^ (3 - k)).
    assert (k <= 3) by (subst m; apply (Z.pow_le_mono_r_iff 2); lia).
    change 8 with (2 ^ 3). subst m. rewrite <- Z.pow_add_r by lia. f_equal. lia.
  - assert (Hk3 : 3 <= k) by (subst m; assert (2 ^ 3 < 2 ^ k) as ?%Z.pow_lt_mono_r_iff by lia; lia).
    pose proof (round_size_ok n Hn) as Hr.
    destruct (round_size n) as [size|]; [|by apply srun_throw]. destruct Hr as (Hns & Hsz & Ha).
    assert (Hmore : forall r s', aligned s size m off flags r s' -> aligned s n m off flags r s').
    { intros r s' [[] ?]. split; [|done]. split; done || lia. }
    unfold below_top in Htop. rewrite Forall_forall in Htop.
    assert (Hch : forall x, x ∈ nodes s -> size <= mf_size x -> exists o, align_chain m off size x = Ret o /\
      match o with
      | Some p => (p = mf_base x \/ mf_base x + HEAP_MINSIZE <= p) /\ p + size <= MFREE_END x /\
          (p - off) `mod` m = 0
      | None => True
      end).
    { intros x Hx Hle. apply (align_chain_ok k); try done; [by eapply free_node|lia|by apply Htop]. }
    apply srun_bind. apply search_heap_ok; [done|done| | |].
    + intros x Hx Hle. destruct (Hch x Hx Hle) as (o & ? & _). by exists o.
    + intros x p Hx Hle Hacc. destruct (Hch x Hx Hle) as (o & E & Ho'). rewrite Hacc in E.
      injection E as <-. destruct Ho' as (? & ? & ?).
      eapply srun_mono; [apply (align_in_chain_ok s x p k); try done; [lia|unfold HEAP_MINSIZE in *; lia]|
        apply Hmore|done].
    + intros _. eapply srun_mono; [by apply (align_overalloc_ok s k)|apply Hmore|done].
Qed.
(** The top of memory is in use (there are the page tables), so that no range is near it. *)
Definition top_used s (m : Z) : Prop := forall a, 2 ^ 32 - m - HEAP_MINSIZE <= a < 2 ^ 32 -> used s a.
Lemma top_used_below s m : heap_ok s -> top_used s m -> below_top s m.
Proof.
  intros Hok Ht. apply Forall_forall. intros x Hx. pose proof (free_node _ _ Hok Hx) as Hn.
  pose proof (node_nonempty _ Hn). destruct Hn.
  destruct (decide (MFREE_END x + m + HEAP_MINSIZE <= 2 ^ 32)) as [|Hgt]; [done|]. exfalso.
  destruct (Ht (MFREE_END x - 1)) as [_ Hf]; [lia|]. apply Hf. exists x. split; [done|]. unfold inside. lia.
Qed.
Lemma heap_align_allocates s k m offset n flags :
  heap_ok s -> dangle s = 0 -> allowed flags -> 0 <= n -> alignment k m (Z.land offset (m - 1)) -> top_used s m ->
  allocates (heap_align_untraced m offset n flags) n flags
    (fun p => (p + Z.land offset (m - 1)) `mod` m = 0) s.
Proof.
  intros Hok Hd Hfl Hn Hag Ht.
  eapply srun_mono; [by eapply heap_align_ok, top_used_below|done|]. intros e s'. by apply same_quiet.
Qed.
Lemma heap_realign_ok s p old k m offset n aflags fflags :
  heap_ok s -> dangle s = 0 -> allowed aflags -> old = 0 \/ block s p old -> 0 <= n ->
  alignment k m (Z.land offset (m - 1)) -> top_used s m ->
  (old <> 0 -> (p + Z.land offset (m - 1)) `mod` m = 0) ->
  (has fflags GFP_CALLOC = true -> forall a, p <= a < p + old -> hs_mem s a = Some 0) ->
  srun (heap_realign_untraced p old m offset n aflags fflags) s
    (fun r s' => resized s p old n aflags r s' /\ (fst r + Z.land offset (m - 1)) `mod` m = 0)
    (fun _ s' => quiet s s').
Proof.
  intros Hok Hd Hfl Hb Hn Hag Ht HP Hz. unfold heap_realign_untraced. apply srun_bind, realloc_checks_ok; [done|].
  destruct (Z.eqb_spec old 0) as [->|Hne].
  { eapply srun_mono; [by eapply heap_align_allocates| |done]. intros r s' [? ?].
    split; [by apply alloced_resized|done]. }
  destruct Hb as [?|Hb]; [done|]. pose proof (bl_min _ _ _ Hb) as Hmin.
  rewrite round_down8. unfold HEAP_ALIGNMENT, HEAP_MINSIZE in *. cbv zeta.
  destruct (Z.leb_spec (2 ^ 32) (n + (8 - 1))) as [|Hlt]; [by apply srun_throw, held_refl|].
  set (n1 := n + (8 - 1) - (n + (8 - 1)) `mod` 8).
  assert (Hn1 : n <= n1 < 2 ^ 32 /\ n1 `mod` 8 = 0) by (unfold n1; clear - Hn Hlt; mlia). clearbody n1.
  set (n2 := if _ && _ then 24 else n1).
  assert (Hn2 : n <= n2 /\ 24 <= n2 < 2 ^ 32 /\ n2 `mod` 8 = 0).
  { unfold n2. destruct (Z.leb_spec n1 old), (Z.ltb_spec n1 24); cbn [andb]; split_and!; try done; lia. }
  clearbody n2. destruct Hn2 as (Hle & Hr & Ha).
  eapply srun_mono; [apply (resize_block_ok s p old n2 aflags fflags _
    (fun p => (p + Z.land offset (m - 1)) `mod` m = 0)); try done; auto| |done].
  - intros _ s1 Hq. eapply heap_align_allocates; try done; [apply Hq|by rewrite (quiet_dangle _ _ Hq)|lia|].
    intros a Hr'. apply (hd_used _ _ _ _ _ Hq). left. by apply Ht.
  - intros r s' [? ?]. split; [by eapply resized_less|done].
Qed.

(** * Trimming *)
Definition trim_spec (x : mfree) (c : Z * Z * Z * Z) : Prop :=
  let '(mn, en, hs, ts) := c in
  0 <= mn < en /\ en < 2 ^ 20 /\ mn * PAGESIZE = mf_base x + hs /\ en * PAGESIZE + ts = MFREE_END x /\
  (hs = 0 \/ HEAP_MINSIZE <= hs /\ hs `mod` 8 = 0) /\ (ts = 0 \/ HEAP_MINSIZE <= ts /\ ts `mod` 8 = 0).
Lemma trim_chain_ok x :
  node_ok x -> exists o, trim_chain x = Ret o /\ match o with Some c => trim_spec x c | None => True end.
Proof.
  intros [Hb Hba Hbs Hbm He _]. unfold trim_chain. eexists. split; [done|].
  unfold trim_spec, MFREE_END, PAGESIZE, HEAP_MINSIZE in *. cbv zeta.
  set (m := (mf_base x + (4096 - 1)) `div` 4096). set (e := (mf_base x + mf_size x) `div` 4096).
  assert (0 <= m * 4096 - mf_base x < 4096) by (unfold m; mlia).
  assert (0 <= mf_base x + mf_size x - e * 4096 < 4096) by (unfold e; mlia).
  assert ((m * 4096 - mf_base x) `mod` 8 = 0) by mlia.
  assert ((mf_base x + mf_size x - e * 4096) `mod` 8 = 0) by mlia. clearbody m e.
  destruct (Z.leb_spec e m); [done|].
  destruct (negb (m * 4096 - mf_base x =? 0) && (m * 4096 - mf_base x <? 24)) eqn:E1; [done|].
  destruct (negb (mf_base x + mf_size x - e * 4096 =? 0) && (mf_base x + mf_size x - e * 4096 <? 24)) eqn:E2;
    [done|]. split_and!; lia.
Qed.
(** Used memory is as before, and [n] bytes of free memory have been given back. *)
Record trimmed s (n : Z) s' : Prop := {
  tm_quiet : quiet s s';
  tm_mapped : forall a, mapped s' a -> mapped s a;
  tm_total : total s' <= total s - n;
}.
(** Freeing one end of a range that is held. *)
Lemma trim_end_ok s lo hi d s1 p n flags :
  held s lo hi d s1 -> 0 <= lo -> hi < 2 ^ 32 -> lo <= p -> p + n <= hi -> p `mod` 8 = 0 ->
  n = 0 \/ HEAP_MINSIZE <= n /\ n `mod` 8 = 0 ->
  (has flags GFP_CALLOC = true -> forall a, p <= a < p + n -> hs_mem s1 a = Some 0) ->
  srun (if n =? 0 then mret tt else heap_free_raw free_fuel p n flags) s1
    (fun _ s' => freed s1 p n false s') (fun _ _ => False).
Proof.
  intros Hh H0 Hhi Hlo Hle Hp Hn Hz. unfold HEAP_MINSIZE in *. destruct (Z.eqb_spec n 0) as [->|].
  - apply srun_ret. pose proof (freed_refl s1 p (hd_ok _ _ _ _ _ Hh)) as []. by split.
  - eapply srun_mono; [by apply (free_held s lo hi d s1 p n flags); try done; unfold HEAP_MINSIZE; lia| |done].
    intros [] s2 []. by split.
Qed.
Lemma trim_one_ok s x mn en hs ts :
  heap_ok s -> x ∈ nodes s -> trim_spec x (mn, en, hs, ts) ->
  srun (trim_one x mn en hs ts) s (fun _ s' => trimmed s ((en - mn) * PAGESIZE) s') (fun _ _ => False).
Proof.
  intros Hok Hx (Hmn & Hen & Hm & He & Hhs & Hts). pose proof (free_node _ _ Hok Hx) as [Hb Hba Hbs Hbm Hxe Hf].
  unfold trim_one. apply srun_bind, srun_take_chain; [done|done|]. intros s1 Ht.
  pose proof (held_taken _ _ _ Hok Ht) as Hh. destruct (taken_zero _ _ _ Hok Ht) as (Hz & _ & Hv1 & _).
  pose proof (taken_total _ _ _ Ht) as Htot. unfold HEAP_MINSIZE, PAGESIZE, MFREE_END in *.
  apply srun_bind, srun_clear_header. intros m Hm1 Hm2. set (s1m := with_mem s1 m).
  assert (Hh1 : held s (mf_base x) (mf_base x + mf_size x) (dangle s) s1m).
  { apply held_mem; [done|]. intros a Hr. apply Hm1. unfold SIZEOF_MFREE. lia. }
  assert (Hz1 : has (mf_flags x) GFP_CALLOC = true -> forall a, mf_base x <= a < mf_base x + mf_size x ->
    m a = Some 0).
  { intros Hc a Hr. destruct (decide (a < mf_base x + SIZEOF_MFREE)).
    - apply Hm2; [done|lia].
    - rewrite Hm1 by lia. apply Hz; [by apply has_flags|unfold MFREE_END; lia]. }
  apply srun_bind.
  eapply srun_mono; [apply (trim_end_ok s _ _ _ s1m (mf_base x) hs (mf_flags x) Hh1); try done|intros [] s2 F2|done].
  { lia. } { intros Hc a Ha. apply Hz1; [done|lia]. }
  assert (Hh2 : held s (mf_base x + hs) (mf_base x + mf_size x) (dangle s) s2).
  { eapply held_head; [done| | |done]; lia. }
  replace (mf_base x + mf_size x - ts) with (en * 4096) by lia. apply srun_bind.
  eapply srun_mono; [apply (trim_end_ok s _ _ _ s2 (en * 4096) ts (mf_flags x) Hh2); try done|intros [] s3 F3|done].
  { lia. } { lia. } { lia. } { clear; mlia. }
  { intros Hc a Ha. rewrite (fr_mem _ _ _ _ _ F2) by (eapply held_mapped; [done|lia]). apply Hz1; [done|lia]. }
  assert (Hh3 : held s (mn * 4096) (en * 4096) (dangle s) s3).
  { rewrite Hm. refine (held_tail _ _ _ _ _ _ _ _ _ Hh2 _ _ _ F3); lia. }
  eapply srun_mono; [apply (core_page_free_ok s3 mn en (fun _ _ => False)); unfold PAGESIZE; try lia|..|done].
  { apply Hh3. } { intros a Ha. by apply (held_mapped _ _ _ _ _ a Hh3 Ha). }
  unfold PAGESIZE. intros [] s4 [F4 Ht4 _ _]. split.
  - eapply (held_empty _ (en * 4096)). eapply freed_held; [exact Hh3|lia|].
    replace (en * 4096 - mn * 4096) with ((en - mn) * 4096) by lia. exact F4.
  - intros a Ha. apply (fr_mapped _ _ _ _ _ F4), (fr_mapped _ _ _ _ _ F3), (fr_mapped _ _ _ _ _ F2) in Ha.
    unfold mapped in *. by rewrite <- Hv1.
  - pose proof (fr_total _ _ _ _ _ F2) as T2. pose proof (fr_total _ _ _ _ _ F3) as T3.
    change (total s1m) with (total s1) in T2. lia.
Qed.
Lemma trimmed_trans s a s1 b s2 : trimmed s a s1 -> trimmed s1 b s2 -> trimmed s (a + b) s2.
Proof. intros [? ? ?] [? ? ?]. split; [by eapply quiet_trans|auto|lia]. Qed.
Lemma sizes_nonneg l : Forall node_ok l -> 0 <= sizes l.
Proof. induction 1 as [|x l [] _ IH]; cbn; [lia|]. unfold HEAP_MINSIZE in *. lia. Qed.
(** Every turn gives back a page at least, so that the loop ends. *)
Lemma trim_loop_ok fuel s threshold r :
  heap_ok s -> HEAP_MINSIZE <= threshold < 2 ^ 32 -> 0 <= r < 2 ^ 32 -> total s < PAGESIZE * Z.of_nat fuel ->
  srun (trim_loop fuel threshold r) s
    (fun r' s' => exists n, 0 <= n /\ n `mod` PAGESIZE = 0 /\ trimmed s n s' /\ r' = u32 (r + n))
    (fun _ _ => False).
Proof.
  revert s r. induction fuel as [|fuel IH]; intros s r Hok Hth Hr Hfuel; cbn [trim_loop].
  { pose proof (sizes_nonneg _ (hk_nodes _ Hok)). unfold total in Hfuel. lia. }
  assert (Hch : forall x, x ∈ nodes s -> exists o, trim_chain x = Ret o /\
    match o with Some c => trim_spec x c | None => True end) by (intros x Hx; by eapply trim_chain_ok, free_node).
  apply srun_bind, search_heap_ok; [done|done| | |].
  - intros x Hx _. destruct (Hch x Hx) as (o & ? & _). by exists o.
  - intros x [[[mn en] hs] ts] Hx _ Hacc. destruct (Hch x Hx) as (o & E & Ho). rewrite Hacc in E.
    injection E as <-. apply srun_bind. eapply srun_mono; [by apply trim_one_ok| |done].
    intros [] s1 Ht. pose proof Ht as [Hq _ Htot]. assert (Hlt : mn < en) by apply Ho. unfold PAGESIZE in *.
    eapply srun_mono; [apply IH; [apply Hq|done|apply u32_range|lia]| |done].
    intros r' s2 (n & Hn & Hnm & Ht2 & ->). exists ((en - mn) * 4096 + n). split_and!; [lia|clear - Hnm; mlia| |].
    + by eapply trimmed_trans.
    + rewrite u32_add_l. f_equal. lia.
  - intros _. apply srun_ret. exists 0. split_and!; try done; [|by rewrite Z.add_0_r, u32_small].
    split; [by apply held_refl|done|lia].
Qed.
Lemma sizes_foldr l : foldr (fun x n => mf_size x + n) 0 l = sizes l.
Proof. induction l as [|x l IH]; cbn; [done|]. by rewrite IH. Qed.
Lemma heap_trim_ok s threshold :
  heap_ok s ->
  srun (heap_trim threshold) s
    (fun r s' => exists n, 0 <= n /\ n `mod` PAGESIZE = 0 /\ trimmed s n s' /\ r = u32 n)
    (fun _ _ => False).
Proof.
  intros Hok. unfold heap_trim. cbv zeta. apply srun_bind.
  change (srun self s ?Q' ?R') with (Q' (hs_heap s) s). cbv beta.
  set (th := if _ =? 0 then PAGESIZE else _).
  assert (Hth : HEAP_MINSIZE <= th < 2 ^ 32).
  { unfold th, HEAP_CEIL_ALIGN. rewrite round_down_page. set (y := u32 _).
    pose proof (u32_range (threshold + (PAGESIZE - 1))) as Hy. fold y in Hy. clearbody y.
    unfold HEAP_MINSIZE, PAGESIZE. destruct (Z.eqb_spec (y - y `mod` 4096) 0); [lia|]. clear - Hy n. mlia. }
  eapply srun_mono; [apply (trim_loop_ok _ s th 0 Hok Hth)| |done]; [lia| |].
  - unfold trim_fuel. rewrite sizes_foldr. rewrite (bk_elems _ _ (hk_size _ Hok)).
    pose proof (sizes_nonneg _ (hk_nodes _ Hok)) as H0. fold (total s) in *. unfold PAGESIZE. clear - H0. mlia.
  - intros r s' (n & ? & ? & ? & ->). by exists n.
Qed.

(** * Theorems *)
(** C15: Reallocation returns a block of at least the new size that has the contents of
    the old one, as far as both reach (with [GFP_CALLOC] the rest is zero); only the old
    block and the new one change.  When it fails, all memory in use is as it was.  The flags
    are allowed, as for an allocation. *)
Theorem heap_realloc_spec s p old n aflags fflags :
  heap_ok s -> dangle s = 0 -> allowed aflags -> old = 0 \/ block s p old -> 0 <= n ->
  (has fflags GFP_CALLOC = true -> forall a, p <= a < p + old -> hs_mem s a = Some 0) ->
  srun (heap_realloc_untraced p old n aflags fflags) s (resized s p old n aflags)
    (fun _ s' => quiet s s').
Proof. apply heap_realloc_ok. Qed.
(** Directly behind memory in use, [heap_allat_untraced] extends it by at least the
    requested size, in place; or it changes no memory in use and returns 0 or fails. *)
Theorem heap_allat_spec s ptr n flags :
  heap_ok s -> allowed flags -> 0 < ptr < 2 ^ 32 -> ptr `mod` 8 = 0 -> used s (ptr - 1) -> 0 <= n ->
  srun (heap_allat_untraced ptr n flags) s
    (fun r s' => r = 0 /\ quiet s s' \/ extended s ptr flags r s' /\ n <= r)
    (fun _ s' => quiet s s').
Proof. apply heap_allat_ok. Qed.
(** C31: An aligned allocation returns a block such that the address plus the offset is
    aligned, with all that an allocation promises; this stays so when the block is resized.
    The alignment is a power of two, the offset a multiple of 8 of which twice is a multiple
    of the alignment, the flags are allowed, the memory at the top of the address space
    (as much as the alignment, and [HEAP_MINSIZE]) is in use, and the block that is resized
    is freed without [GFP_CALLOC].  When an aligned allocation fails only the hint for the
    next pages may have moved; when a resizing fails, all memory in use is as it was. *)
Theorem heap_align_spec s k m offset n flags :
  heap_ok s -> dangle s = 0 -> allowed flags -> 0 <= n -> alignment k m (Z.land offset (m - 1)) -> top_used s m ->
  srun (heap_align_untraced m offset n flags) s
    (fun r s' => aligned s n m (Z.land offset (m - 1)) flags r s') (fun _ s' => same_state s s') /\
  forall p old aflags fflags, allowed aflags -> block s p old -> (p + Z.land offset (m - 1)) `mod` m = 0 ->
    has fflags GFP_CALLOC = false ->
    srun (heap_realign_untraced p old m offset n aflags fflags) s
      (fun r s' => resized s p old n aflags r s' /\ (fst r + Z.land offset (m - 1)) `mod` m = 0)
      (fun _ s' => quiet s s').
Proof.
  intros Hok Hd Hfl Hn Hag Ht. split; [by eapply heap_align_ok, top_used_below|].
  intros p old af ff Haf Hb Hp Hf. eapply heap_realign_ok; try done; [by right|by rewrite Hf].
Qed.
(** C32: Trimming ends, never fails, changes no memory in use, and returns (modulo the
    width) the size of the free memory that it has given back, a multiple of the page
    size. *)
Theorem heap_trim_spec s threshold :
  heap_ok s ->
  srun (heap_trim threshold) s
    (fun r s' => exists n, 0 <= n /\ n `mod` PAGESIZE = 0 /\ trimmed s n s' /\ r = u32 n)
    (fun _ _ => False).
Proof. apply heap_trim_ok. Qed.
End Resize.
