(* ===== verification/HeapProps.v ===== *)
(** Clients of the kernel heap.

    A client that runs any sequence of operations relies on this: its blocks stay valid
    and apart, and no operation panics.  Then an address space as a list of pages and
    concrete heaps in it, on which the theorems of the heap are evaluated. *)
From S2P Require Import Prelude.
From stdpp Require Import list sorting relations.
From S2P Require Import ATree Heap HeapInv HeapAlloc HeapResize.
#[local] Open Scope Z_scope.

Section Spec.
Context `{VM : KernelVM}.
Implicit Types s : hstate.

(** * Clients *)
(** [GFP_CALLOC] on memory that is freed says that it is zero. *)
Definition truthful s (b : Z * Z) (flags : Z) : Prop :=
  has flags GFP_CALLOC = true -> forall a, fst b <= a < fst b + snd b -> hs_mem s a = Some 0.
(** A client has blocks; it allocates, frees and resizes them and writes to them. *)
Inductive client_step : hstate * list (Z * Z) -> hstate * list (Z * Z) -> Prop :=
| cs_alloc s bs n flags r s' :
    0 <= n -> allowed flags -> heap_alloc_untraced n flags s = SRet r s' -> client_step (s, bs) (s', r :: bs)
| cs_alloc_fail s bs n flags e s' :
    0 <= n -> allowed flags -> heap_alloc_untraced n flags s = SThrow e s' -> client_step (s, bs) (s', bs)
| cs_align s bs k m offset n flags r s' :
    0 <= n -> allowed flags -> alignment k m (Z.land offset (m - 1)) -> top_used s m ->
    heap_align_untraced m offset n flags s = SRet r s' -> client_step (s, bs) (s', r :: bs)
| cs_align_fail s bs k m offset n flags e s' :
    0 <= n -> allowed flags -> alignment k m (Z.land offset (m - 1)) -> top_used s m ->
    heap_align_untraced m offset n flags s = SThrow e s' -> client_step (s, bs) (s', bs)
| cs_free s b bs flags s' :
    truthful s b flags -> heap_free_untraced (fst b) (snd b) flags s = SRet tt s' ->
    client_step (s, b :: bs) (s', bs)
| cs_realloc s b bs n aflags fflags r s' :
    0 <= n -> allowed aflags -> truthful s b fflags ->
    heap_realloc_untraced (fst b) (snd b) n aflags fflags s = SRet r s' ->
    client_step (s, b :: bs) (s', r :: bs)
| cs_realloc_fail s b bs n aflags fflags e s' :
    0 <= n -> allowed aflags -> truthful s b fflags ->
    heap_realloc_untraced (fst b) (snd b) n aflags fflags s = SThrow e s' ->
    client_step (s, b :: bs) (s', b :: bs)
| cs_trim s bs threshold r s' :
    heap_trim threshold s = SRet r s' -> client_step (s, bs) (s', bs)
| cs_write s b bs m :
    (forall a, ~ fst b <= a < fst b + snd b -> m a = hs_mem s a) ->
    client_step (s, b :: bs) (with_mem s m, b :: bs)
| cs_order s bs bs' : bs ≡ₚ bs' -> client_step (s, bs) (s, bs').

Definition apart (b c : Z * Z) : Prop := fst b + snd b <= fst c \/ fst c + snd c <= fst b.
Fixpoint all_apart (bs : list (Z * Z)) : Prop :=
  match bs with [] => True | b :: bs => Forall (apart b) bs /\ all_apart bs end.
Record client_ok s (bs : list (Z * Z)) : Prop := {
  co_heap : heap_ok s;
  co_dangle : dangle s = 0;
  co_blocks : Forall (fun b => block s (fst b) (snd b)) bs;
  co_apart : all_apart bs;
}.
#[local] Instance apart_sym : Symmetric apart.
Proof. unfold apart. intros ? ? ?. lia. Qed.
Lemma all_apart_perm bs bs' : bs ≡ₚ bs' -> all_apart bs -> all_apart bs'.
Proof.
  induction 1 as [|x l l' Hp IH|x y l|l l' l'' _ IH1 _ IH2]; cbn; try done; [| |by auto].
  - intros [Hx Hl]. split; [by rewrite <- Hp|auto].
  - intros [[Hyx Hy]%Forall_cons [Hx Hl]]. split_and!; try done. constructor; [by symmetry|done].
Qed.
(** Blocks of which all memory is used before and after. *)
Lemma blocks_mono s s' bs :
  Forall (fun b => block s (fst b) (snd b)) bs ->
  (forall b a, b ∈ bs -> fst b <= a < fst b + snd b -> used s a -> used s' a) ->
  Forall (fun b => block s' (fst b) (snd b)) bs.
Proof.
  rewrite !Forall_forall. intros H Hu b Hb. destruct (H b Hb) as [? ? ? ? ? Hub].
  split; try done. intros a Ha. eapply Hu; eauto.
Qed.
Lemma quiet_client s bs s' : client_ok s bs -> quiet s s' -> client_ok s' bs.
Proof.
  intros [Hok Hd Hb Ha] Hq. split; [apply Hq|by rewrite (quiet_dangle _ _ Hq)| |done].
  eapply blocks_mono; [done|]. intros b a _ _ Hu. apply (hd_used _ _ _ _ _ Hq). by left.
Qed.
(** A block is apart from another when the bytes of one are used and those of the
    other are not. *)
Lemma block_apart (P : Z -> Prop) b c :
  0 < snd b -> 0 < snd c -> (forall a, fst b <= a < fst b + snd b -> ~ P a) ->
  (forall a, fst c <= a < fst c + snd c -> P a) -> apart b c.
Proof.
  intros Hb Hc Hnb Hpc. unfold apart. destruct (decide (fst b + snd b <= fst c)) as [|H1]; [by left|].
  destruct (decide (fst c + snd c <= fst b)) as [|H2]; [by right|]. exfalso.
  apply (Hnb (Z.max (fst b) (fst c))); [lia|]. apply Hpc. lia.
Qed.
Lemma alloced_block s n flags r s' : alloced s n flags r s' -> block s' (fst r) (snd r).
Proof. intros [Hh ? ? ? ? ? ? ?]. split; try done. intros a Ha. by eapply held_mapped. Qed.
Lemma alloced_client s bs n flags r s' :
  client_ok s bs -> alloced s n flags r s' -> client_ok s' (r :: bs).
Proof.
  intros [Hok Hd Hb Hap] Hal. pose proof Hal as [Hh Hmin _ _ _ _ _ _]. pose proof Hh as [Hok' Hu Hn _ _ Hd'].
  split; [done|congruence| |].
  - constructor; [by eapply alloced_block|]. eapply blocks_mono; [done|]. intros b a _ _ ?. apply Hu. by left.
  - split; [|done]. rewrite Forall_forall in Hb |- *. intros c Hc. destruct (Hb c Hc) as [? ? ? Hcm ? Hcu].
    apply (block_apart (used s)); try done; unfold HEAP_MINSIZE in *; lia.
Qed.
Lemma freed_client s b bs keep s' :
  client_ok s (b :: bs) -> freed s (fst b) (snd b) keep s' -> client_ok s' bs.
Proof.
  intros [Hok Hd Hb [Hap1 Hap]] [Hok' Hu _ [_ Hd']%same_cfg_split _ _ _].
  apply Forall_cons in Hb as [Hb Hbs]. rewrite Forall_forall in Hap1. split; [done|congruence| |done].
  eapply blocks_mono; [done|]. intros c a Hc Ha Hua. apply Hu. split; [done|].
  pose proof (Hap1 c Hc). unfold apart in *. lia.
Qed.
Lemma resized_client s b bs n flags r s' :
  client_ok s (b :: bs) -> resized s (fst b) (snd b) n flags r s' -> client_ok s' (r :: bs).
Proof.
  intros [Hok Hd Hb [Hap1 Hap]] [Hok' Hu Hnew Hmin _ Hp Ha Has He _ _ _ [_ Hd']%same_cfg_split].
  apply Forall_cons in Hb as [Hb Hbs]. rewrite Forall_forall in Hap1. split; [done|congruence| |].
  - constructor; [split; try done; intros a Hr; apply Hu; by right|].
    eapply blocks_mono; [done|]. intros c a Hc Hr Hua. apply Hu. left. split; [done|].
    pose proof (Hap1 c Hc). unfold apart in *. lia.
  - split; [|done]. rewrite Forall_forall in Hbs |- *. intros c Hc. destruct (Hbs c Hc) as [? ? ? Hcm ? Hcu].
    apply (block_apart (fun a => used s a /\ ~ fst b <= a < fst b + snd b)); unfold HEAP_MINSIZE in *; try lia.
    + intros a Hr [Hua Hni]. by apply Hni, Hnew.
    + intros a Hr. split; [by apply Hcu|]. pose proof (Hap1 c Hc). unfold apart in *. lia.
Qed.
Lemma block_free s b flags :
  heap_ok s -> block s (fst b) (snd b) -> truthful s b flags -> free_pre s (fst b) (snd b) flags.
Proof. intros Hok [] Hf. by split. Qed.
Lemma client_step_ok s bs s' bs' : client_step (s, bs) (s', bs') -> client_ok s bs -> client_ok s' bs'.
Proof.
  intros Hst Hc. pose proof Hc as [Hok Hd Hb Hap].
  inversion Hst as [? ? n flags r ? Hn Hfl E|? ? n flags e ? Hn Hfl E|
    ? ? k m off n flags r ? Hn Hfl Hag Htop E|? ? k m off n flags r ? Hn Hfl Hag Htop E|
    ? b ? flags ? Hf E|? b ? n af ff r ? Hn Hfl Hf E|? b ? n af ff e ? Hn Hfl Hf E|? ? th r ? E|? b ? m Hm|? ? ? Hp]; subst.
  - pose proof (heap_alloc_ok s n flags Hok Hd Hfl Hn) as H. unfold srun in H. rewrite E in H. by eapply alloced_client.
  - pose proof (heap_alloc_ok s n flags Hok Hd Hfl Hn) as H. unfold srun in H. rewrite E in H.
    eapply quiet_client; [done|]. by apply same_quiet.
  - pose proof (heap_align_ok s k m off n flags Hok Hd Hfl Hn Hag (top_used_below _ _ Hok Htop)) as H.
    unfold srun in H. rewrite E in H. destruct H as [H _]. by eapply alloced_client.
  - pose proof (heap_align_ok s k m off n flags Hok Hd Hfl Hn Hag (top_used_below _ _ Hok Htop)) as H.
    unfold srun in H. rewrite E in H. eapply quiet_client; [done|]. by apply same_quiet.
  - apply Forall_cons in Hb as [Hb _]. pose proof (heap_release_ok s _ _ _ (block_free s b flags Hok Hb Hf)) as H.
    unfold srun in H. rewrite E in H. by eapply freed_client.
  - pose proof Hb as [Hb1 _]%Forall_cons.
    pose proof (heap_realloc_ok s (fst b) (snd b) n af ff Hok Hd Hfl (or_intror Hb1) Hn Hf) as H.
    unfold srun in H. rewrite E in H. by eapply resized_client.
  - pose proof Hb as [Hb1 _]%Forall_cons.
    pose proof (heap_realloc_ok s (fst b) (snd b) n af ff Hok Hd Hfl (or_intror Hb1) Hn Hf) as H.
    unfold srun in H. rewrite E in H. by eapply quiet_client.
  - pose proof (heap_trim_ok s th Hok) as H. unfold srun in H. rewrite E in H.
    destruct H as (k & _ & _ & [Hq _ _] & _). by eapply quiet_client.
  - pose proof Hb as [[_ _ _ _ _ Hu] _]%Forall_cons. split; try done.
    + apply heap_ok_mem; [done|]. intros a Ha. apply Hm. intros Hr. by destruct (Hu a Hr).
    + eapply blocks_mono; [done|]. intros c a _ _. by rewrite used_mem.
  - split; try done; [by rewrite <- Hp|by eapply all_apart_perm].
Qed.
Lemma client_steps_ok x y :
  rtc client_step x y -> client_ok (fst x) (snd x) -> client_ok (fst y) (snd y).
Proof.
  induction 1 as [|[s bs] [s1 bs1] z Hst _ IH]; [done|]. intros Hc. apply IH. by eapply client_step_ok.
Qed.
(** No operation on a valid heap and its blocks panics. *)
Definition client_safe s (bs : list (Z * Z)) : Prop :=
  (forall n flags, 0 <= n -> allowed flags -> heap_alloc_untraced n flags s <> SPanic) /\
  (forall k m offset n flags, 0 <= n -> allowed flags -> alignment k m (Z.land offset (m - 1)) -> top_used s m ->
     heap_align_untraced m offset n flags s <> SPanic) /\
  (forall threshold, exists r s', heap_trim threshold s = SRet r s') /\
  (forall b flags, b ∈ bs -> truthful s b flags ->
     exists s', heap_free_untraced (fst b) (snd b) flags s = SRet tt s') /\
  (forall b n aflags fflags, b ∈ bs -> 0 <= n -> allowed aflags -> truthful s b fflags ->
     heap_realloc_untraced (fst b) (snd b) n aflags fflags s <> SPanic).
Lemma client_ok_safe s bs : client_ok s bs -> client_safe s bs.
Proof.
  intros [Hok Hd Hb _]. rewrite Forall_forall in Hb. split_and!.
  - intros n flags Hn Hfl. by eapply srun_safe, heap_alloc_ok.
  - intros k m off n flags Hn Hfl Hag Ht. by eapply srun_safe, heap_align_ok, top_used_below.
  - intros th. by eapply srun_total, heap_trim_ok.
  - intros b flags Hin Hf.
    destruct (srun_total _ _ _ (heap_release_ok s _ _ _ (block_free s b flags Hok (Hb b Hin) Hf))) as ([] & s' & E).
    by exists s'.
  - intros b n af ff Hin Hn Hfl Hf. eapply srun_safe, heap_realloc_ok; try done. right. by apply Hb.
Qed.

(** * Theorems *)
(** C2: A client that starts with a valid heap and runs any sequence of allocations,
    aligned allocations, frees, resizes (which may all fail), trims and writes to its blocks
    has, at every point, a valid heap and blocks that are aligned, in use and apart from
    each other; no further operation on the heap or on one of the blocks panics, and
    freeing and trimming do not fail.  The client gives [GFP_KERNEL] only in the kernel's
    address space and [GFP_LOCKED] only while there are physical pages, says that freed
    memory is zero ([GFP_CALLOC]) only if it is, and asks for an alignment only with an
    offset that is a multiple of 8 of which twice is a multiple of the alignment, while the
    top of memory is in use. *)
Theorem heap_clients_safe s0 bs0 s bs :
  client_ok s0 bs0 -> rtc client_step (s0, bs0) (s, bs) -> client_ok s bs /\ client_safe s bs.
Proof.
  intros Hc Hst. assert (client_ok s bs) by apply (client_steps_ok _ _ Hst Hc).
  split; [done|by apply client_ok_safe].
Qed.
End Spec.

(** * An address space, and a heap in it *)
(** The mapped pages in a list, those that were given back but stayed mapped in another;
    the page of the hint is used if it is free.  [ps_fail] says which requests to map or
    unmap fail, [ps_phys] how many physical pages there are. *)
Record page_space : Type := MkPages {
  ps_mapped : list Z;
  ps_stale : list Z;
  ps_phys : Z;
  ps_kernel : bool;
  ps_fail : nat -> option error_code;
}.
Definition pages_of (p n : Z) : list Z := seqZ p n.
Definition pages_ok (v : page_space) : Prop := 2 ^ 20 - 1 ∈ ps_mapped v.
Definition page_in (v : page_space) (q : Z) : bool := bool_decide (q ∈ ps_mapped v).
Definition page_free (v : page_space) (q : Z) : Prop := q ∉ ps_mapped v ++ ps_stale v.
Definition pages_getfree (v : page_space) (hint n mode : Z) : outcome Z :=
  if (0 <=? hint) && (hint + n <? 2 ^ 20) &&
     forallb (fun q => bool_decide (q ∉ ps_mapped v ++ ps_stale v)) (pages_of hint n)
  then Ret hint else Throw E_BADALLOC.
Definition pages_any (v : page_space) (lo hi : Z) : bool :=
  existsb (fun q => (lo <=? q) && (q <=? hi)) (ps_mapped v ++ ps_stale v).
Definition pages_set (v : page_space) (mapped stale : list Z) : page_space :=
  MkPages mapped stale (ps_phys v) (ps_kernel v) (fun n => ps_fail v (S n)).
Definition pages_map (p n : Z) : SM page_space unit := fun v =>
  match ps_fail v 0%nat with
  | Some e => SThrow e (pages_set v (ps_mapped v) (ps_stale v))
  | None => SRet tt (pages_set v (pages_of p n ++ ps_mapped v) (ps_stale v))
  end.
Definition pages_unmap (p n : Z) : SM page_space unit := fun v =>
  SRet tt (pages_set v (filter (fun q => ~ (p <= q < p + n)) (ps_mapped v))
    (match ps_fail v 0%nat with Some _ => pages_of p n ++ ps_stale v | None => ps_stale v end)).
#[export, refine] Instance page_list : KernelVM := {|
  vm_st := page_space;
  vm_ok := pages_ok;
  vm_mapped := page_in;
  vm_free := page_free;
  this_kernel := ps_kernel;
  page_malloc v n := n <=? ps_phys v;
  vm_getfree := pages_getfree;
  vm_getanynode := pages_any;
  vm_map := pages_map;
  vm_unmap := pages_unmap;
  vm_merge_before _ := mret tt;
|}.
Proof.
  - intros v q Hv [Hm _]%not_elem_of_app. split; [by apply bool_decide_eq_false|]. by intros ->.
  - intros v hint n mode Hv Hn. unfold pages_getfree.
    destruct (_ && _) eqn:E; [|done]. apply andb_true_iff in E as [E Hf].
    split; [lia|]. split; [lia|]. intros q Hq. rewrite forallb_forall in Hf.
    specialize (Hf q). rewrite <- list_elem_of_In in Hf. eapply bool_decide_eq_true, Hf.
    unfold pages_of. apply elem_of_seqZ. lia.
  - intros v lo hi _ Hf q Hq Hin.
    assert (pages_any v lo hi = true) as E; [|congruence].
    apply existsb_exists. exists q. split; [by apply list_elem_of_In|lia].
  - intros v p n Hv _ _ _ _. unfold srun, pages_map. destruct (ps_fail v 0%nat); [done|].
    split; [apply elem_of_app; by right|]. intros q.
    apply Bool.eq_true_iff_eq. unfold page_in. cbn.
    rewrite orb_true_iff, !bool_decide_eq_true, elem_of_app. unfold pages_of. rewrite elem_of_seqZ.
    split; (intros [?|?]; [|]); [right; lia|by left|by right|left; lia].
  - intros v p n Hv H0 Hn Hle _. split; [apply list_elem_of_filter; split; [lia|done]|]. intros q.
    apply Bool.eq_true_iff_eq. unfold page_in. cbn.
    rewrite andb_true_iff, !bool_decide_eq_true, list_elem_of_filter. split.
    + intros [? ?]. split; [done|lia].
    + intros [? ?]. split; [lia|done].
  - done.
Defined.
Lemma allowed_plain flags : has flags GFP_KERNEL = false -> has flags GFP_LOCKED = false -> allowed flags.
Proof. intros H1 H2. by split; rewrite ?H1, ?H2. Qed.
(** The last page and pages 16-19 are mapped; the heap has no free memory yet. *)
Definition heap_new : hstate :=
  MkHs (MkHeap ANil (replicate 29 []) 4096 65536 256 0 0) (MkPages [2 ^ 20 - 1; 16; 17; 18; 19] [] 0 false (fun _ => None))
    (fun _ => Some 7) (fun _ => None) None.
Lemma heap_new_ok : heap_ok heap_new.
Proof.
  split; try done.
  - split; [done|done|]. intros i l Hl. apply list_elem_of_lookup_2 in Hl. cbn in Hl.
    assert (l = []) as -> by set_solver. split; constructor.
  - intros a (x & Hx & _). by apply elem_of_nil in Hx.
  - intros x y Hx. by apply elem_of_nil in Hx.
  - by left.
Qed.
Lemma heap_new_used a : 65536 <= a < 81920 \/ 2 ^ 32 - 4096 <= a < 2 ^ 32 -> used heap_new a.
Proof.
  intros Ha. split; [|intros (x & Hx & _); by apply elem_of_nil in Hx].
  apply bool_decide_eq_true. cbn. rewrite !elem_of_cons. unfold PAGESIZE. mlia.
Qed.
Lemma heap_new_block : block heap_new 65536 4096.
Proof. split; try done. intros a Ha. apply heap_new_used. lia. Qed.
Lemma heap_new_free : free_pre heap_new 65536 4096 0.
Proof. split; try done; [apply heap_new_ok|]. intros a Ha. apply heap_new_used. lia. Qed.
Lemma heap_new_client : client_ok heap_new [(65536, 4096)].
Proof.
  split; [apply heap_new_ok|done| |done]. constructor; [apply heap_new_block|constructor].
Qed.
(** After the block has been freed. *)
Definition heap_one : hstate :=
  match heap_free_untraced 65536 4096 0 heap_new with SRet _ s => s | _ => heap_new end.
Lemma heap_one_step : heap_free_untraced 65536 4096 0 heap_new = SRet tt heap_one.
Proof.
  unfold heap_one. pose proof (eq_refl : returnsb (heap_free_untraced 65536 4096 0) heap_new = true) as H.
  unfold returnsb in H. by destruct (heap_free_untraced 65536 4096 0 heap_new) as [[] ?| |].
Qed.
Lemma heap_one_ok : heap_ok heap_one.
Proof.
  pose proof (heap_release_ok _ _ _ _ heap_new_free) as H. unfold srun in H. rewrite heap_one_step in H. apply H.
Qed.
Lemma alignment_ex : alignment 6 64 (Z.land 0 (64 - 1)).
Proof. by split. Qed.
Lemma heap_new_top : top_used heap_new 64.
Proof. intros a Ha. unfold HEAP_MINSIZE in Ha. apply heap_new_used. lia. Qed.

Lemma heap_clients_witness : client_ok heap_one [] /\ client_safe heap_one [].
Proof.
  apply (heap_clients_safe heap_new [(65536, 4096)]); [apply heap_new_client|].
  apply rtc_once. refine (cs_free heap_new (65536, 4096) [] 0 heap_one _ heap_one_step). by intros ?.
Defined.
Lemma heap_free_witness :
  exists a s', heap_free_untraced 65536 4096 0 heap_new = SRet a s' /\
    (freed heap_new 65536 4096 false s' /\ exists lo hi, given_back heap_new 65536 4096 0 lo hi s').
Proof.
  eapply srun_returns; [by vm_compute|]. exact (heap_free_spec heap_new 65536 4096 0 heap_new_free).
Defined.
Lemma heap_alloc_witness :
  exists r s', heap_alloc_untraced 100 GFP_CALLOC heap_new = SRet r s' /\
    alloced heap_new 100 GFP_CALLOC r s'.
Proof.
  eapply srun_returns; [by vm_compute|].
  exact (heap_alloc_spec heap_new 100 GFP_CALLOC heap_new_ok eq_refl (allowed_plain 16 eq_refl eq_refl) ltac:(lia)).
Defined.
Lemma heap_reuse_witness :
  exists r s', heap_alloc_untraced 100 0 heap_one = SRet r s' /\
    (alloced heap_one 100 0 r s' /\ forall a, fst r <= a < fst r + snd r -> free heap_one a).
Proof.
  eapply srun_returns; [by vm_compute|].
  apply (heap_alloc_reuses heap_one 100 0 104 heap_one_ok); [by vm_compute|lia|done|].
  rewrite Exists_exists. exists (MkFree 65536 4096 0). split; [by left|]. cbn. lia.
Defined.
Lemma heap_realloc_witness :
  exists r s', heap_realloc_untraced 65536 4096 8192 0 0 heap_new = SRet r s' /\
    resized heap_new 65536 4096 8192 0 r s'.
Proof.
  eapply srun_returns; [by vm_compute|].
  apply (heap_realloc_spec heap_new 65536 4096 8192 0 0 heap_new_ok eq_refl); [by apply allowed_plain| |lia|done].
  right. apply heap_new_block.
Defined.
Lemma heap_allat_witness :
  exists r s', heap_allat_untraced 81920 4000 0 heap_new = SRet r s' /\
    (r = 0 /\ quiet heap_new s' \/ extended heap_new 81920 0 r s' /\ 4000 <= r).
Proof.
  eapply srun_returns; [by vm_compute|].
  apply (heap_allat_spec heap_new 81920 4000 0 heap_new_ok); [by apply allowed_plain|lia|done| |lia].
  apply heap_new_used. lia.
Defined.
Lemma heap_align_witness :
  exists r s', heap_align_untraced 64 0 100 0 heap_new = SRet r s' /\
    aligned heap_new 100 64 (Z.land 0 (64 - 1)) 0 r s'.
Proof.
  eapply srun_returns; [by vm_compute|].
  exact (proj1 (heap_align_spec heap_new 6 64 0 100 0 heap_new_ok eq_refl (allowed_plain 0 eq_refl eq_refl) ltac:(lia) alignment_ex heap_new_top)).
Defined.
Lemma heap_trim_witness :
  exists r s', heap_trim 0 heap_one = SRet r s' /\
    exists n, 0 <= n /\ n `mod` PAGESIZE = 0 /\ trimmed heap_one n s' /\ r = u32 n.
Proof.
  eapply srun_returns; [by vm_compute|]. exact (heap_trim_spec heap_one 0 heap_one_ok).
Defined.

(** ** Where the code departs from its documentation *)
(** In a free range the code looks for [ptr - offset] to be aligned and then asserts
    that [ptr + offset] is: the offset that [kmemalign] passes fails for an alignment of
    32, unless new pages are mapped. *)
Example align_offset_panics :
  match heap_align_untraced 32 8 100 0 heap_one with SPanic => true | _ => false end = true /\
  returnsb (heap_align_untraced 32 8 100 0) heap_new = true.
Proof. split; by vm_compute. Qed.
(** A page is not mapped when the one behind the range is taken. *)
Example allat_page_refused :
  vm_mapped (hs_vm heap_new) 15 = false /\
  match core_page_allocat 15 1 0 heap_new with SRet b _ => b = false | _ => False end.
Proof. split; by vm_compute. Qed.
(** A threshold near the largest size wraps to zero, and then stands for one page. *)
Example trim_threshold_wraps :
  match heap_trim (2 ^ 32 - 1) heap_one with SRet r _ => r = 4096 | _ => False end.
Proof. by vm_compute. Qed.
(** The physical pages of locked memory are marked as the region's before they are
    allocated: when they cannot be, the region is destroyed with pages it does not own. *)
Example locked_without_pages :
  match heap_alloc_untraced 100 GFP_LOCKED heap_new with SPanic => true | _ => false end = true.
Proof. by vm_compute. Qed.
(** Memory of the kernel is only mapped by a thread of the kernel. *)
Example kernel_memory_asserted :
  match heap_alloc_untraced 100 GFP_KERNEL heap_new with SPanic => true | _ => false end = true.
Proof. by vm_compute. Qed.
