(* ===== verification/Malloc.v ===== *)
(** Kernel memory: kernel/src/kernel/malloc.c.

    [kmalloc] and its relatives put a header in front of each block of one of the four
    kernel heaps, with the size of the block and the index of its heap, so that a
    pointer is enough to free it.  The heaps share one address space and its memory;
    each of them sees what the others manage as memory in use.  The descriptors of new
    mappings are taken from memory of their own, as with [vm_corealloc]; that all but one
    of the heaps get them by a nested [kmalloc] is not part of the model.  The model is
    that of a build without CONFIG_DEBUG_MALLOC. *)
From S2P Require Import Prelude.
From stdpp Require Import list relations.
From S2P Require Import ATree Heap HeapInv HeapAlloc HeapResize.
#[local] Open Scope Z_scope.

(** * Configuration *)
Definition GFP_HEAPCOUNT : Z := 4.
Definition GFP_NORMAL : Z := 0.
Definition GFP_NOMOVE : Z := 8192.
(** [struct mptr]: four bytes [mp_size], one byte [mp_heap], padding. *)
Definition SIZEOF_MPTR : Z := 8.
Definition mptr_get (ptr : Z) : Z := u32 (ptr - SIZEOF_MPTR).
Definition mptr_user (result : Z) : Z := u32 (result + SIZEOF_MPTR).
Definition DEFAULT_OVERALLOC : Z := PAGESIZE * 32.
Definition DEFAULT_FREETHRESH : Z := PAGESIZE * 64.
(** The heaps at start; where they are placed depends on the architecture. *)
Definition heap_init (over thresh hint mode : Z) : heap :=
  MkHeap ANil (replicate (Z.to_nat HEAP_BUCKET_COUNT) []) over thresh hint mode 0.
Definition kernel_heaps (place : Z -> Z * Z) : list heap :=
  [heap_init DEFAULT_OVERALLOC DEFAULT_FREETHRESH (fst (place 0)) (snd (place 0));
   heap_init (DEFAULT_OVERALLOC `div` 4) (DEFAULT_FREETHRESH `div` 4) (fst (place 1)) (snd (place 1));
   heap_init DEFAULT_OVERALLOC DEFAULT_FREETHRESH (fst (place 2)) (snd (place 2));
   heap_init (DEFAULT_OVERALLOC `div` 4) (DEFAULT_FREETHRESH `div` 4) (fst (place 3)) (snd (place 3))].

Section Ops.
Context `{VM : KernelVM}.

Record mstate : Type := MkMs {
  ms_heaps : list heap;
  ms_vm : vm_st;
  ms_mem : Z -> option Z;
  ms_oracle : nat -> option error_code;
  ms_rand : option (nat -> Z);
}.
Abbreviation MM := (SM mstate).
(** What one heap sees, and the state after it has run. *)
Definition view (k : mstate) (h : heap) : hstate :=
  MkHs h (ms_vm k) (ms_mem k) (ms_oracle k) (ms_rand k).
Definition back (k : mstate) (i : nat) (s : hstate) : mstate :=
  MkMs (<[i := hs_heap s]> (ms_heaps k)) (hs_vm s) (hs_mem s) (hs_oracle s) (hs_rand s).
Definition on_heap {A} (i : Z) (m : SM hstate A) : MM A := fun k =>
  match ms_heaps k !! Z.to_nat i with
  | None => SPanic
  | Some h =>
      match m (view k h) with
      | SRet a s => SRet a (back k (Z.to_nat i) s)
      | SThrow e s => SThrow e (back k (Z.to_nat i) s)
      | SPanic => SPanic
      end
  end.
Definition set_mem (k : mstate) (m : Z -> option Z) : mstate :=
  MkMs (ms_heaps k) (ms_vm k) m (ms_oracle k) (ms_rand k).
Definition load8 (a : Z) : MM Z := fun k =>
  match ms_mem k a with Some b => SRet b k | None => SPanic end.
Definition store8 (a b : Z) : MM unit := fun k => SRet tt (set_mem k (fill (ms_mem k) a 1 (Some b))).
(** [mp_size], in little-endian order. *)
Definition load32 (a : Z) : MM Z :=
  b0 ← load8 a; b1 ← load8 (a + 1); b2 ← load8 (a + 2); b3 ← load8 (a + 3);
  mret (b0 + 2 ^ 8 * b1 + 2 ^ 16 * b2 + 2 ^ 24 * b3).
Definition store32 (a x : Z) : MM unit :=
  store8 a (x `mod` 2 ^ 8) ≫= fun _ =>
  store8 (a + 1) (x `div` 2 ^ 8 `mod` 2 ^ 8) ≫= fun _ =>
  store8 (a + 2) (x `div` 2 ^ 16 `mod` 2 ^ 8) ≫= fun _ =>
  store8 (a + 3) (x `div` 2 ^ 24 `mod` 2 ^ 8).
Definition mp_size (result : Z) : MM Z := load32 result.
Definition mp_heap (result : Z) : MM Z := load8 (result + 4).
(** [result->mp_size = ...; result->mp_heap = ...; return mptr_user(result);] *)
Definition mptr_init (block : Z * Z) (heap : Z) : MM Z :=
  store32 (fst block) (snd block) ≫= fun _ =>
  store8 (fst block + 4) heap ≫= fun _ =>
  mret (mptr_user (fst block)).

(** * Operations *)
Definition kmalloc (n_bytes flags : Z) : MM Z :=
  let alloc_size := SIZEOF_MPTR + n_bytes in
  if 2 ^ 32 <=? alloc_size then sthrow E_BADALLOC
  else
    ptr ← on_heap (Z.land flags GFP_HEAPMASK) (heap_alloc_untraced alloc_size flags);
    scheck (alloc_size <=? snd ptr) ≫= fun _ =>
    mptr_init ptr (Z.land flags GFP_HEAPMASK).
Definition kmemalign_offset (min_alignment offset n_bytes flags : Z) : MM Z :=
  let alloc_size := SIZEOF_MPTR + n_bytes in
  if 2 ^ 32 <=? alloc_size then sthrow E_BADALLOC
  else
    hptr ← on_heap (Z.land flags GFP_HEAPMASK)
             (heap_align_untraced min_alignment (SIZEOF_MPTR + offset) alloc_size flags);
    mptr_init hptr (Z.land flags GFP_HEAPMASK).
Definition kmemalign (min_alignment n_bytes flags : Z) : MM Z :=
  kmemalign_offset min_alignment 0 n_bytes flags.
Definition get_realloc_size (n_bytes : Z) : option Z :=
  if 2 ^ 32 <=? n_bytes + (HEAP_ALIGNMENT - 1) then None
  else
    let result := Z.ldiff (n_bytes + (HEAP_ALIGNMENT - 1)) (HEAP_ALIGNMENT - 1) in
    if 2 ^ 32 <=? result + SIZEOF_MPTR then None else Some (result + SIZEOF_MPTR).
(** [krealloc], [krealign] and [krealign_offset] differ in [fresh], which allocates when
    there is no pointer yet, and in [alloc], which makes a new block. *)
Definition realloc_with (fresh : MM Z) (alloc : Z -> Z -> SM hstate (Z * Z)) (ptr n_bytes flags : Z)
    : MM Z :=
  if ptr =? 0 then if has flags GFP_NOMOVE then mret 0 else fresh
  else
    scheck (IS_ALIGNED ptr HEAP_ALIGNMENT) ≫= fun _ =>
    match get_realloc_size n_bytes with
    | None => sthrow E_BADALLOC
    | Some n_bytes =>
        let result := mptr_get ptr in
        heap ← mp_heap result;
        scheck (heap <? GFP_HEAPCOUNT) ≫= fun _ =>
        size ← mp_size result;
        if n_bytes <=? size then
          if n_bytes =? size then mret ptr
          else if HEAP_MINSIZE <=? size - n_bytes then
            on_heap heap (heap_free_untraced (u32 (result + n_bytes)) n_bytes GFP_NORMAL) ≫= fun _ =>
            store32 result n_bytes ≫= fun _ =>
            mret ptr
          else mret ptr
        else
          let flags := Z.lor (Z.ldiff flags GFP_HEAPMASK) heap in
          more_size ← on_heap heap
                        (heap_allat_untraced (u32 (result + size)) (n_bytes - size) flags);
          if negb (more_size =? 0) then
            old_size ← mp_size result;
            store32 result (u32 (old_size + more_size)) ≫= fun _ =>
            scheck (n_bytes <=? u32 (old_size + more_size)) ≫= fun _ =>
            mret ptr
          else if has flags GFP_NOMOVE then mret 0
          else
            hptr ← on_heap heap (alloc (u32 (SIZEOF_MPTR + n_bytes)) flags);
            size ← mp_size result;
            on_heap heap (request ≫= fun _ => memcpy (fst hptr) result size) ≫= fun _ =>
            size ← mp_size result;
            on_heap heap (heap_free_untraced result size GFP_NORMAL) ≫= fun _ =>
            mptr_init hptr (Z.land flags GFP_HEAPMASK)
    end.
Definition krealloc (ptr n_bytes flags : Z) : MM Z :=
  realloc_with (kmalloc n_bytes flags) heap_alloc_untraced ptr n_bytes flags.
Definition krealign (ptr min_alignment n_bytes flags : Z) : MM Z :=
  realloc_with (kmemalign min_alignment n_bytes flags)
    (heap_align_untraced min_alignment SIZEOF_MPTR) ptr n_bytes flags.
Definition krealign_offset (ptr min_alignment offset n_bytes flags : Z) : MM Z :=
  realloc_with (kmemalign_offset min_alignment offset n_bytes flags)
    (heap_align_untraced min_alignment (SIZEOF_MPTR + offset)) ptr n_bytes flags.
Definition kmalloc_usable_size (ptr : Z) : MM Z :=
  if ptr =? 0 then mret 0 else size ← mp_size (mptr_get ptr); mret (size - SIZEOF_MPTR).
(** [kfree] and [kffree] differ in the flags they pass on. *)
Definition free_with (extra ptr : Z) : MM unit :=
  if ptr =? 0 then mret tt
  else
    scheck (IS_ALIGNED ptr HEAP_ALIGNMENT) ≫= fun _ =>
    let result := mptr_get ptr in
    heap ← mp_heap result;
    scheck (heap <? GFP_HEAPCOUNT) ≫= fun _ =>
    size ← mp_size result;
    scheck (IS_ALIGNED size HEAP_ALIGNMENT) ≫= fun _ =>
    scheck (HEAP_MINSIZE <=? size) ≫= fun _ =>
    on_heap heap (heap_free_untraced result size (Z.lor heap extra)).
Definition kfree (ptr : Z) : MM unit := free_with 0 ptr.
Definition kffree (ptr flags : Z) : MM unit := free_with (Z.ldiff flags GFP_HEAPMASK) ptr.
End Ops.

Section Theory.
Context `{VM : KernelVM}.
Implicit Types (k : mstate) (s : hstate).

(** * The invariant *)
Record kernel_ok k : Prop := {
  ko_count : length (ms_heaps k) = 4%nat;
  ko_heap : forall i h, ms_heaps k !! i = Some h -> heap_ok (view k h) /\ h_dangle h = 0;
  ko_apart : forall i j h g a, ms_heaps k !! i = Some h -> ms_heaps k !! j = Some g -> i <> j ->
    free (view k h) a -> free (view k g) a -> False;
}.
(** Memory that no heap can hand out. *)
Definition kused k (a : Z) : Prop :=
  vm_mapped (ms_vm k) (a `div` PAGESIZE) = true /\
  forall i h, ms_heaps k !! i = Some h -> ~ free (view k h) a.
Lemma kused_view k i h a : kused k a -> ms_heaps k !! i = Some h -> used (view k h) a.
Proof. intros [Hm Hf] Hi. split; [done|by eapply Hf]. Qed.

(** * Running one heap *)
(** The heap [s] gives up the bytes [D], gets the bytes [N], and leaves all other memory
    in use alone. *)
Record effect s (D N : Z -> Prop) s' : Prop := {
  ef_ok : heap_ok s';
  ef_used : forall a, used s' a <-> (used s a /\ ~ D a) \/ N a;
  ef_new : forall a, N a -> used s a -> D a;
  ef_mem : forall a, used s a -> ~ D a -> hs_mem s' a = hs_mem s a;
  ef_dangle : dangle s' = dangle s;
}.
Definition bytes (lo n : Z) (a : Z) : Prop := lo <= a < lo + n.
Definition none (a : Z) : Prop := False.
Lemma held_effect s lo n s' : held s lo (lo + n) (dangle s) s' -> effect s none (bytes lo n) s'.
Proof.
  intros [Hok Hu Hn Hm _ Hd]. unfold none, bytes. split; try done; [|by auto].
  intros a. rewrite Hu. naive_solver.
Qed.
Lemma effect_ext s (D D' N N' : Z -> Prop) s' :
  (forall a, D a <-> D' a) -> (forall a, N a <-> N' a) -> effect s D N s' -> effect s D' N' s'.
Proof.
  intros HD HN [? Hu Hn Hm ?]. split; try done.
  - intros a. by rewrite Hu, HD, HN.
  - intros a. rewrite <- HD, <- HN. apply Hn.
  - intros a. rewrite <- HD. apply Hm.
Qed.
Lemma quiet_effect s s' : quiet s s' -> effect s none none s'.
Proof.
  intros [Hok Hu Hn Hm _ Hd]. unfold none. split; try done; [|by auto]. intros a. rewrite Hu. split.
  - intros [?|?]; [left|lia]. split; [done|by intros []].
  - intros [[? _]|[]]. by left.
Qed.
Lemma freed_effect s p n keep s' : freed s p n keep s' -> effect s (bytes p n) none s'.
Proof.
  intros [Hok Hu Hm Hc _ _ _]. unfold none. apply same_cfg_split in Hc as [_ Hd]. split; try done.
  - intros a. rewrite Hu. unfold bytes. naive_solver.
  - intros a Ha Hn. apply Hm, Hu. by split.
Qed.
(** What the operation on a heap does to the kernel. *)
Record kernel_effect k (D N : Z -> Prop) k' : Prop := {
  ke_ok : kernel_ok k';
  ke_used : forall a, kused k' a <-> (kused k a /\ ~ D a) \/ N a;
  ke_new : forall a, N a -> kused k a -> D a;
  ke_mem : forall a, kused k a -> ~ D a -> ms_mem k' a = ms_mem k a;
}.
Lemma heap_ok_env s v m o f :
  heap_ok s -> vm_ok v -> (forall a, free s a -> vm_mapped v (a `div` PAGESIZE) = true) ->
  (forall a, free s a -> m a = hs_mem s a) -> heap_ok (MkHs (hs_heap s) v m o f).
Proof.
  intros [H1 H2 H3 H4 H5 H6 H7 H8] Hv Hm Hz. split; try done.
  rewrite Forall_forall in H5 |- *. intros x Hx Hf a Ha. cbn. rewrite Hz; [by apply (H5 x)|].
  exists x. split; [done|]. unfold inside, SIZEOF_MFREE in *. lia.
Qed.
Lemma back_effect k i h s' (D N : Z -> Prop) :
  kernel_ok k -> ms_heaps k !! i = Some h -> effect (view k h) D N s' ->
  (forall a, D a -> kused k a) -> kernel_effect k D N (back k i s').
Proof.
  intros [Hlen Hok Hap] Hi [Hok' Hu' Hn' Hm' Hd'] HD. destruct (Hok i h Hi) as [Hoki Hdi].
  assert (Hother : forall j g a, ms_heaps k !! j = Some g -> i <> j -> free (view k g) a ->
    used (view k h) a /\ ~ D a /\ used s' a).
  { intros j g a Hj Hne Hf. assert (Hua : used (view k h) a).
    { split; [by apply (proj1 (Hok j g Hj))|]. intros Hf'. by apply (Hap i j h g a). }
    assert (~ D a) by (intros HDa; by apply (proj2 (HD a HDa) j g)).
    split_and!; try done. apply Hu'. by left. }
  assert (Hlook : forall j g, ms_heaps (back k i s') !! j = Some g ->
    (j = i /\ g = hs_heap s') \/ (i <> j /\ ms_heaps k !! j = Some g)).
  { intros j g Hj. cbn in Hj. destruct (decide (i = j)) as [<-|Hne].
    - rewrite list_lookup_insert_eq in Hj by (by eapply lookup_lt_Some). injection Hj as <-. by left.
    - rewrite list_lookup_insert_ne in Hj by done. by right. }
  assert (Hused' : forall a, kused (back k i s') a <->
    used s' a /\ forall j g, i <> j -> ms_heaps k !! j = Some g -> ~ free (view k g) a).
  { intros a. unfold kused. split.
    - intros [Hm Hf]. split; [split; [done|]|].
      + apply (Hf i (hs_heap s')). cbn. apply list_lookup_insert_eq. by eapply lookup_lt_Some.
      + intros j g Hne Hj. apply (Hf j g). cbn. by rewrite list_lookup_insert_ne.
    - intros [[Hm Hf] Hg]. split; [done|]. intros j g [[-> ->]|[Hne Hj]]%Hlook; [done|by apply (Hg j g)]. }
  assert (Hused : forall a, kused k a <->
    used (view k h) a /\ forall j g, i <> j -> ms_heaps k !! j = Some g -> ~ free (view k g) a).
  { intros a. unfold kused, used. split; [naive_solver|]. intros [[Hm Hf] Hg]. split; [done|].
    intros j g Hj. destruct (decide (i = j)) as [<-|Hne]; [|by apply (Hg j g)].
    rewrite Hi in Hj. by injection Hj as <-. }
  split; [split| | |].
  - cbn. by rewrite length_insert.
  - intros j g [[-> ->]|[Hne Hj]]%Hlook.
    + destruct s' as [h' v' m' o' f']. split; [done|]. unfold dangle in Hd'. cbn in *. congruence.
    + destruct (Hok j g Hj) as [Hokj Hdj]. split; [|done].
      apply (heap_ok_env (view k g) (hs_vm s') (hs_mem s')); [done|apply Hok'|..]; intros a Hf;
        destruct (Hother j g a Hj Hne Hf) as (? & ? & [? _]); [done|by apply Hm'].
  - intros j l g g' a [[-> ->]|[Hne Hj]]%Hlook [[-> ->]|[Hne' Hl]]%Hlook Hjl Hf Hf'; try done.
    + destruct (Hother l g' a Hl Hne' Hf') as (_ & _ & [_ ?]). done.
    + destruct (Hother j g a Hj Hne Hf) as (_ & _ & [_ ?]). done.
    + by apply (Hap j l g g' a).
  - intros a. rewrite Hused', Hu', Hused. split; [naive_solver|]. intros [[[? ?] ?]|HN]; [naive_solver|].
    split; [by right|]. intros j g Hne Hj Hf. destruct (Hother j g a Hj Hne Hf) as (? & ? & _). auto.
  - intros a HN [Hua _]%Hused. by apply Hn'.
  - intros a [Hua _]%Hused HnD. by apply Hm'.
Qed.
Lemma srun_on_heap {A} k i (m : SM hstate A) (Q : A -> mstate -> Prop) R h :
  ms_heaps k !! Z.to_nat i = Some h ->
  srun m (view k h) (fun a s => Q a (back k (Z.to_nat i) s)) (fun e s => R e (back k (Z.to_nat i) s)) ->
  srun (on_heap i m) k Q R.
Proof. unfold srun, on_heap. intros ->. by destruct (m (view k h)). Qed.
Lemma effect_refl k : kernel_ok k -> kernel_effect k none none k.
Proof. intros Hok. unfold none. split; try done. intros a. naive_solver. Qed.
Lemma effect_after k k1 D N k2 :
  kernel_effect k none none k1 -> kernel_effect k1 D N k2 -> kernel_effect k D N k2.
Proof.
  intros [_ Hu1 _ Hm1] [Hok2 Hu2 Hn2 Hm2]. unfold none in *.
  assert (Hu : forall a, kused k1 a <-> kused k a) by (intros a; rewrite Hu1; naive_solver).
  split; [done|..].
  - intros a. by rewrite Hu2, Hu.
  - intros a Ha Hua. apply Hn2; [done|]. by apply Hu.
  - intros a Hua HnD. rewrite Hm2; [|by apply Hu|done]. apply Hm1; [done|]. by intros [].
Qed.
(** New memory first, then old memory is given up. *)
Lemma effect_exchange k N k1 D k2 :
  kernel_effect k none N k1 -> kernel_effect k1 D none k2 -> (forall a, D a -> kused k a) ->
  kernel_effect k D N k2.
Proof.
  intros [_ Hu1 Hn1 Hm1] [Hok2 Hu2 _ Hm2] HD. unfold none in *.
  assert (HnN : forall a, N a -> ~ kused k a) by (intros a HN Hua; by apply (Hn1 a)).
  split; [done|..].
  - intros a. rewrite Hu2, Hu1. split; [naive_solver|].
    intros [[? ?]|HN]; [naive_solver|]. left. split; [by right|]. intros HDa. by apply (HnN a), HD.
  - intros a HN Hua. by destruct (HnN a).
  - intros a Hua HnD. rewrite Hm2; [apply Hm1; [done|by intros []]| |done].
    apply Hu1. left. split; [done|by intros []].
Qed.
(** What has been obtained is given up again. *)
Lemma effect_undo k N k1 k2 :
  kernel_effect k none N k1 -> kernel_effect k1 N none k2 -> kernel_effect k none none k2.
Proof.
  intros [_ Hu1 Hn1 Hm1] [Hok2 Hu2 _ Hm2]. unfold none in *.
  assert (HnN : forall a, N a -> ~ kused k a) by (intros a HN Hua; by apply (Hn1 a)).
  split; [done| |done|].
  - intros a. rewrite Hu2, Hu1. naive_solver.
  - intros a Hua _. rewrite Hm2; [by apply Hm1; [|intros []]|apply Hu1; left; split; [done|by intros []]|].
    intros HN. by apply (HnN a).
Qed.
(** Writing to memory in use. *)
Lemma write_ok k m :
  kernel_ok k -> (forall i h a, ms_heaps k !! i = Some h -> free (view k h) a -> m a = ms_mem k a) ->
  kernel_ok (set_mem k m).
Proof.
  intros [Hlen Hok Hap] Hm. split; [done| |done]. intros i h Hi. destruct (Hok i h Hi) as [Hh Hd].
  split; [|done]. apply (heap_ok_mem (view k h) m Hh). intros a Ha. by eapply Hm.
Qed.
Lemma bytes_dec lo n a : bytes lo n a \/ ~ bytes lo n a.
Proof. unfold bytes. lia. Qed.
Lemma write_effect k m lo n :
  kernel_ok k -> (forall a, bytes lo n a -> kused k a) -> (forall a, ~ bytes lo n a -> m a = ms_mem k a) ->
  kernel_effect k (bytes lo n) (bytes lo n) (set_mem k m).
Proof.
  intros Hok Hu Hm. split; [|intros a|done|intros a _; apply Hm].
  - apply write_ok; [done|]. intros i h a Hi Hf. apply Hm. intros Ha. by destruct (proj2 (Hu a Ha) i h).
  - change (kused (set_mem k m) a) with (kused k a). destruct (bytes_dec lo n a) as [Ha|Ha]; naive_solver.
Qed.
(** Changing memory that has been obtained. *)
Lemma effect_inside k (D N : Z -> Prop) lo n k1 k2 :
  kernel_effect k D N k1 -> kernel_effect k1 (bytes lo n) (bytes lo n) k2 ->
  (forall a, bytes lo n a -> N a) -> kernel_effect k D N k2.
Proof.
  intros [_ Hu1 Hn1 Hm1] [Hok2 Hu2 _ Hm2] HM.
  assert (Hnew : forall a, kused k a -> ~ D a -> ~ bytes lo n a) by (intros a Hua HnD HMa; auto).
  split; [done| |done|].
  - intros a. rewrite Hu2, Hu1. destruct (bytes_dec lo n a); naive_solver.
  - intros a Hua HnD. rewrite Hm2; [by apply Hm1| |by apply Hnew]. apply Hu1. by left.
Qed.

(** * Headers *)
Definition mem32 (m : Z -> option Z) (a x : Z) : Prop :=
  m a = Some (x `mod` 2 ^ 8) /\ m (a + 1) = Some (x `div` 2 ^ 8 `mod` 2 ^ 8) /\
  m (a + 2) = Some (x `div` 2 ^ 16 `mod` 2 ^ 8) /\ m (a + 3) = Some (x `div` 2 ^ 24 `mod` 2 ^ 8).
Lemma srun_load8 a b k (Q : Z -> mstate -> Prop) R :
  ms_mem k a = Some b -> Q b k -> srun (load8 a) k Q R.
Proof. unfold srun, load8. by intros ->. Qed.
Lemma srun_load32 a x k (Q : Z -> mstate -> Prop) R :
  mem32 (ms_mem k) a x -> 0 <= x < 2 ^ 32 -> Q x k -> srun (load32 a) k Q R.
Proof.
  intros (H0 & H1 & H2 & H3) Hx HQ. unfold load32.
  do 4 (apply srun_bind; eapply srun_load8; [eassumption|]). apply srun_ret.
  replace (_ + _ + _ + _) with x; [done|].
  change (2 ^ 8) with 256. change (2 ^ 16) with 65536. change (2 ^ 24) with 16777216.
  change (2 ^ 32) with 4294967296 in Hx. clear - Hx. mlia.
Qed.
Lemma srun_store32 a x k (Q : unit -> mstate -> Prop) R :
  (forall m, mem32 m a x -> (forall b, ~ a <= b < a + 4 -> m b = ms_mem k b) -> Q tt (set_mem k m)) ->
  srun (store32 a x) k Q R.
Proof.
  intros HQ. set (m1 := fill (ms_mem k) a 1 (Some (x `mod` 2 ^ 8))).
  set (m2 := fill m1 (a + 1) 1 (Some (x `div` 2 ^ 8 `mod` 2 ^ 8))).
  set (m3 := fill m2 (a + 2) 1 (Some (x `div` 2 ^ 16 `mod` 2 ^ 8))).
  set (m4 := fill m3 (a + 3) 1 (Some (x `div` 2 ^ 24 `mod` 2 ^ 8))).
  change (srun (store32 a x) k Q R) with (Q tt (set_mem k m4)). apply HQ.
  - unfold mem32, m4, m3, m2, m1. split_and!; unfold fill;
      repeat (match goal with |- context [if ?b then _ else _] => destruct b eqn:?; try lia end); done.
  - intros b Hb. unfold m4, m3, m2, m1. rewrite !fill_out by lia. done.
Qed.
(** A block with its header. *)
Record mblock k (base size heap : Z) : Prop := {
  mb_base : 0 <= base;
  mb_align : base `mod` 8 = 0;
  mb_asize : size `mod` 8 = 0;
  mb_min : HEAP_MINSIZE <= size;
  mb_end : base + size < 2 ^ 32;
  mb_used : forall a, bytes base size a -> kused k a;
  mb_size : mem32 (ms_mem k) base size;
  mb_heap : ms_mem k (base + 4) = Some heap;
  mb_index : 0 <= heap < 4;
}.
(** The pointer [p] is that of a new block of at least [n] bytes behind its header. *)
Record kmalloced k (n heap flags p size : Z) k' : Prop := {
  km_effect : kernel_effect k none (bytes (p - SIZEOF_MPTR) size) k';
  km_block : mblock k' (p - SIZEOF_MPTR) size heap;
  km_size : SIZEOF_MPTR + n <= size;
  km_zero : has flags GFP_CALLOC = true ->
    forall a, p <= a < p - SIZEOF_MPTR + size -> ms_mem k' a = Some 0;
}.
(** A place for a block with its header. *)
Record place_ok (base size : Z) : Prop := {
  pl_base : 0 <= base;
  pl_align : base `mod` 8 = 0;
  pl_asize : size `mod` 8 = 0;
  pl_min : HEAP_MINSIZE <= size;
  pl_end : base + size < 2 ^ 32;
}.
Lemma mblock_place k base size heap : mblock k base size heap -> place_ok base size.
Proof. by intros []. Qed.
Lemma alloced_place s n flags r s' : alloced s n flags r s' -> place_ok (fst r) (snd r).
Proof. by intros []. Qed.
Lemma header_in base size a : place_ok base size -> base <= a < base + 5 -> bytes base size a.
Proof. intros [_ _ _ Hmin _] Ha. unfold bytes, HEAP_MINSIZE in *. lia. Qed.
(** Writing the header of a block that has just been obtained. *)
Lemma mptr_init_ok k D r i k1 (Q : Z -> mstate -> Prop) R :
  kernel_effect k D (bytes (fst r) (snd r)) k1 -> place_ok (fst r) (snd r) -> 0 <= i < 4 ->
  (forall k', kernel_effect k D (bytes (fst r) (snd r)) k' -> mblock k' (fst r) (snd r) i ->
     (forall a, ~ fst r <= a < fst r + 5 -> ms_mem k' a = ms_mem k1 a) -> Q (fst r + SIZEOF_MPTR) k') ->
  srun (mptr_init r i) k1 Q R.
Proof.
  intros Hef Hpl Hi HQ. pose proof Hpl as [Hb Hba Hsa Hmin Hend]. unfold HEAP_MINSIZE in Hmin.
  unfold mptr_init. apply srun_bind, srun_store32. intros m Hm Hout. apply srun_bind.
  change (srun (store8 ?a ?b) ?s ?Q' ?R') with (Q' tt (set_mem s (fill (ms_mem s) a 1 (Some b)))).
  cbv beta. apply srun_ret. cbn [ms_mem set_mem ms_heaps ms_vm ms_oracle ms_rand].
  set (m' := fill m (fst r + 4) 1 (Some i)). unfold mptr_user, SIZEOF_MPTR. rewrite u32_small by lia.
  assert (Hm' : forall a, ~ fst r <= a < fst r + 5 -> m' a = ms_mem k1 a).
  { intros a Ha. unfold m'. rewrite fill_out by lia. apply Hout. lia. }
  assert (Hused : forall a, bytes (fst r) (snd r) a -> kused k1 a).
  { intros a Ha. apply (ke_used _ _ _ _ Hef). by right. }
  assert (He' : kernel_effect k D (bytes (fst r) (snd r)) (set_mem k1 m')).
  { eapply (effect_inside _ _ _ (fst r) 5); [done|apply write_effect|].
    - apply Hef.
    - intros a Ha. by apply Hused, header_in.
    - intros a Ha. by apply Hm'.
    - intros a Ha. by apply header_in. }
  apply HQ; [done| |done]. split; try done.
  - destruct Hm as (H0 & H1 & H2 & H3). unfold mem32, m'. cbn. rewrite !fill_out by lia. done.
  - cbn. unfold m'. apply fill_in. lia.
Qed.
(** A block elsewhere. *)
Lemma mblock_keep k base size heap (D N : Z -> Prop) k' :
  mblock k base size heap -> kernel_effect k D N k' -> (forall a, bytes base size a -> ~ D a) ->
  mblock k' base size heap.
Proof.
  intros Hb [_ Hu _ Hm] HD. pose proof (mblock_place _ _ _ _ Hb) as Hpl.
  destruct Hb as [Hb0 Hba Hsa Hmin He Hus Hsz Hh Hi].
  assert (Hk : forall a, base <= a < base + 5 -> ms_mem k' a = ms_mem k a).
  { intros a Ha. pose proof (header_in _ _ _ Hpl Ha) as Hin. apply Hm; [by apply Hus|by apply HD]. }
  split; try done.
  - intros a Ha. apply Hu. left. split; [by apply Hus|by apply HD].
  - unfold mem32 in *. rewrite !Hk by lia. done.
  - by rewrite Hk by lia.
Qed.
Lemma heap_index flags : 0 <= Z.land flags GFP_HEAPMASK < 4.
Proof. change GFP_HEAPMASK with (Z.ones 2). rewrite Z.land_ones by lia. apply Z.mod_pos_bound. lia. Qed.
Lemma heap_at k i : kernel_ok k -> 0 <= i < 4 -> exists h, ms_heaps k !! Z.to_nat i = Some h.
Proof. intros [Hl _ _] Hi. apply lookup_lt_is_Some. lia. Qed.
Lemma alloced_effect k i h n flags r s' :
  kernel_ok k -> ms_heaps k !! i = Some h -> alloced (view k h) n flags r s' ->
  kernel_effect k none (bytes (fst r) (snd r)) (back k i s').
Proof. intros Hok Hi Hal. eapply back_effect; [done..|by apply held_effect, Hal|done]. Qed.
Lemma quiet_back k i h s' :
  kernel_ok k -> ms_heaps k !! i = Some h -> quiet (view k h) s' -> kernel_effect k none none (back k i s').
Proof. intros Hok Hi Hq. eapply back_effect; [done..|by apply quiet_effect|done]. Qed.
(** ** Allocating *)
Record got k (n flags : Z) (P : Z -> Prop) (r : Z * Z) k1 : Prop := {
  gt_effect : kernel_effect k none (bytes (fst r) (snd r)) k1;
  gt_place : place_ok (fst r) (snd r);
  gt_size : n <= snd r;
  gt_at : P (fst r);
  gt_zero : has flags GFP_CALLOC = true -> forall a, bytes (fst r) (snd r) a -> ms_mem k1 a = Some 0;
}.
Lemma run_alloc k i h m n flags P (Q : Z * Z -> mstate -> Prop) R :
  kernel_ok k -> ms_heaps k !! Z.to_nat i = Some h -> allocates m n flags P (view k h) ->
  (forall r k1, got k n flags P r k1 -> Q r k1) ->
  (forall e k', kernel_effect k none none k' -> R e k') -> srun (on_heap i m) k Q R.
Proof.
  intros Hok Hi Hal HQ HR. eapply srun_on_heap; [done|]. eapply srun_mono; [exact Hal|..]; cbv beta.
  - intros r s' [Hr HP]. apply HQ. split; [by eapply alloced_effect|by eapply alloced_place|apply Hr|done|].
    intros Hc a Ha. by apply Hr.
  - intros e s' Hq. apply HR. by eapply quiet_back.
Qed.
Lemma init_got k n flags P i r k1 (Q : Z -> mstate -> Prop) R :
  got k (SIZEOF_MPTR + n) flags P r k1 -> 0 <= i < 4 ->
  (forall p size k', kmalloced k n i flags p size k' -> P (p - SIZEOF_MPTR) -> Q p k') ->
  srun (mptr_init r i) k1 Q R.
Proof.
  intros [He Hpl Hsz HP Hz] Hi HQ. eapply mptr_init_ok; [done..|]. intros k' He' Hb' Hm'.
  assert (E : fst r + SIZEOF_MPTR - SIZEOF_MPTR = fst r) by lia.
  apply (HQ _ (snd r)); [|by rewrite E]. split; rewrite ?E; try done.
  intros Hc a Ha. unfold SIZEOF_MPTR in Ha. rewrite Hm' by lia. apply Hz; [done|]. unfold bytes. lia.
Qed.
Definition ktop_used k (m : Z) : Prop :=
  forall a, 2 ^ 32 - m - HEAP_MINSIZE <= a < 2 ^ 32 -> kused k a.
Lemma ktop_view k m i h : ktop_used k m -> ms_heaps k !! i = Some h -> top_used (view k h) m.
Proof. intros Ht Hi a Ha. eapply kused_view; [by apply Ht|done]. Qed.
Lemma alloc_view k i h n flags :
  kernel_ok k -> ms_heaps k !! i = Some h -> allowed flags -> 0 <= n ->
  allocates (heap_alloc_untraced n flags) n flags (fun _ => True) (view k h).
Proof. intros Hok Hi Hfl Hn. destruct (ko_heap _ Hok i h Hi). by apply heap_alloc_allocates. Qed.
Lemma align_view k i h j m offset n flags :
  kernel_ok k -> ms_heaps k !! i = Some h -> allowed flags -> 0 <= n -> alignment j m (Z.land offset (m - 1)) ->
  ktop_used k m ->
  allocates (heap_align_untraced m offset n flags) n flags (fun p => (p + offset) `mod` m = 0) (view k h).
Proof.
  intros Hok Hi Hfl Hn Hag Ht. destruct (ko_heap _ Hok i h Hi) as [Hh Hd].
  eapply srun_mono; [by eapply heap_align_allocates, ktop_view| |done]. intros r s' [Hr Ha]. split; [done|].
  destruct Hag as [Hj -> _ _ _]. replace (2 ^ j - 1) with (Z.ones j) in Ha by (rewrite Z.ones_equiv; lia).
  rewrite Z.land_ones in Ha by lia. by rewrite Z.add_mod_idemp_r in Ha by lia.
Qed.
Lemma kmalloc_ok k n flags :
  kernel_ok k -> allowed flags -> 0 <= n ->
  srun (kmalloc n flags) k
    (fun p k' => exists size, kmalloced k n (Z.land flags GFP_HEAPMASK) flags p size k')
    (fun _ k' => kernel_effect k none none k').
Proof.
  intros Hok Hfl Hn. unfold kmalloc. case_match; [by apply srun_throw, effect_refl|].
  destruct (heap_at k _ Hok (heap_index flags)) as [h Hi]. apply srun_bind.
  eapply run_alloc; [done..|eapply alloc_view; try done; unfold SIZEOF_MPTR; lia| |done].
  intros r k1 Hg. apply srun_bind, srun_check; [pose proof (gt_size _ _ _ _ _ _ Hg); lia|].
  eapply init_got; [done|apply heap_index|]. intros p size k' Hk _. by exists size.
Qed.
Lemma kmemalign_offset_ok k j m offset n flags :
  kernel_ok k -> allowed flags -> 0 <= n -> alignment j m (Z.land (SIZEOF_MPTR + offset) (m - 1)) -> ktop_used k m ->
  srun (kmemalign_offset m offset n flags) k
    (fun p k' => (p + offset) `mod` m = 0 /\
       exists size, kmalloced k n (Z.land flags GFP_HEAPMASK) flags p size k')
    (fun _ k' => kernel_effect k none none k').
Proof.
  intros Hok Hfl Hn Hag Ht. unfold kmemalign_offset. case_match; [by apply srun_throw, effect_refl|].
  destruct (heap_at k _ Hok (heap_index flags)) as [h Hi]. apply srun_bind.
  eapply run_alloc; [done..|eapply align_view; try done; unfold SIZEOF_MPTR; lia| |done].
  intros r k1 Hg. eapply init_got; [done|apply heap_index|]. intros p size k' Hk Ha. split; [|by exists size].
  by replace (p + offset) with (p - SIZEOF_MPTR + (SIZEOF_MPTR + offset)) by lia.
Qed.
(** ** Freeing *)
Lemma mptr_get_base k base size heap : mblock k base size heap -> mptr_get (base + SIZEOF_MPTR) = base.
Proof.
  intros []. unfold mptr_get, HEAP_MINSIZE in *. rewrite u32_small; [|unfold SIZEOF_MPTR; lia]. lia.
Qed.
Lemma mblock_ptr k base size heap :
  mblock k base size heap ->
  (base + SIZEOF_MPTR =? 0) = false /\ IS_ALIGNED (base + SIZEOF_MPTR) HEAP_ALIGNMENT = true.
Proof. intros [? Ha _ _ _ _ _ _ _]. unfold SIZEOF_MPTR. split; [lia|]. apply is_aligned_mod. mlia. Qed.
Lemma srun_heap k base size heap (Q : Z -> mstate -> Prop) R :
  mblock k base size heap -> Q heap k -> srun (mp_heap base) k Q R.
Proof. intros Hb HQ. eapply srun_load8; [apply Hb|done]. Qed.
Lemma srun_size k base size heap (Q : Z -> mstate -> Prop) R :
  mblock k base size heap -> Q size k -> srun (mp_size base) k Q R.
Proof.
  intros [? ? ? ? ? ? ? ? ?] HQ. unfold HEAP_MINSIZE in *. eapply srun_load32; [done|lia|done].
Qed.
Lemma run_free k base size heap flags (Q : unit -> mstate -> Prop) R :
  kernel_ok k -> mblock k base size heap -> has flags GFP_CALLOC = false ->
  (forall k', kernel_effect k (bytes base size) none k' -> Q tt k') ->
  srun (on_heap heap (heap_free_untraced base size flags)) k Q R.
Proof.
  intros Hok Hb Hf HQ. pose proof Hb as [? ? ? ? ? Hu ? ? Hi]. destruct (heap_at k heap Hok Hi) as [h Hh].
  destruct (ko_heap _ Hok _ _ Hh) as [Hoh _]. eapply srun_on_heap; [done|].
  eapply srun_mono; [apply heap_release_ok|..]; cbv beta; [|intros [] s' Hfr|done].
  - split; try done; [|by rewrite Hf]. intros a Ha. eapply kused_view; [by apply Hu|done].
  - apply HQ. eapply back_effect; [done..|by eapply freed_effect|done].
Qed.
Lemma free_with_ok k base size heap extra :
  kernel_ok k -> mblock k base size heap -> has (Z.lor heap extra) GFP_CALLOC = false ->
  srun (free_with extra (base + SIZEOF_MPTR)) k
    (fun _ k' => kernel_effect k (bytes base size) none k') (fun _ _ => False).
Proof.
  intros Hok Hb Hf. destruct (mblock_ptr _ _ _ _ Hb) as [Hnz Hal]. unfold free_with. rewrite Hnz.
  apply srun_bind, srun_check; [done|]. cbv zeta. rewrite (mptr_get_base _ _ _ _ Hb).
  apply srun_bind. eapply srun_heap; [done|]. pose proof Hb as [_ _ Hsa Hmin _ _ _ _ Hi].
  apply srun_bind, srun_check; [unfold GFP_HEAPCOUNT; lia|]. apply srun_bind. eapply srun_size; [done|].
  apply srun_bind, srun_check; [by apply is_aligned_mod|]. apply srun_bind, srun_check; [lia|].
  by eapply run_free.
Qed.
Lemma has_lor x y b : has (Z.lor x y) b = has x b || has y b.
Proof.
  unfold has. rewrite Z.land_lor_distr_l, <- negb_andb. f_equal. apply eq_bool_prop_intro.
  rewrite andb_True, !Is_true_true, !Z.eqb_eq. apply Z.lor_eq_0_iff.
Qed.
Lemma heap_no_flag i b : 0 <= i < 4 -> Z.land 3 b = 0 -> has i b = false.
Proof.
  intros Hi Hb. unfold has. replace i with (Z.land i 3) by (change 3 with (Z.ones 2); rewrite Z.land_ones by lia; mlia).
  by rewrite <- Z.land_assoc, Hb, Z.land_0_r.
Qed.
Lemma kfree_ok k base size heap :
  kernel_ok k -> mblock k base size heap ->
  srun (kfree (base + SIZEOF_MPTR)) k
    (fun _ k' => kernel_effect k (bytes base size) none k') (fun _ _ => False).
Proof.
  intros Hok Hb. eapply free_with_ok; [done..|]. rewrite has_lor, orb_false_r.
  apply heap_no_flag; [apply Hb|done].
Qed.
Lemma has_ldiff x y b : Z.land y b = 0 -> has (Z.ldiff x y) b = has x b.
Proof.
  intros Hb. unfold has. do 2 f_equal. apply Z.bits_inj'. intros i _. apply (f_equal (fun z => Z.testbit z i)) in Hb.
  rewrite Z.land_spec, Z.bits_0 in Hb. rewrite !Z.land_spec, Z.ldiff_spec.
  by destruct (Z.testbit x i), (Z.testbit y i), (Z.testbit b i).
Qed.
Lemma kffree_ok k base size heap flags :
  kernel_ok k -> mblock k base size heap -> has flags GFP_CALLOC = false ->
  srun (kffree (base + SIZEOF_MPTR) flags) k
    (fun _ k' => kernel_effect k (bytes base size) none k') (fun _ _ => False).
Proof.
  intros Hok Hb Hf. eapply free_with_ok; [done..|]. rewrite has_lor, has_ldiff, Hf, orb_false_r by done.
  apply heap_no_flag; [apply Hb|done].
Qed.
(** ** Resizing *)
(** The block [base], [size] is now the block at [p], with what it held. *)
Record krealloced k (base size n heap flags p size' : Z) k' : Prop := {
  kr_effect : kernel_effect k (bytes base size) (bytes (p - SIZEOF_MPTR) size') k';
  kr_block : mblock k' (p - SIZEOF_MPTR) size' heap;
  kr_size : SIZEOF_MPTR + n <= size';
  kr_more : size <= size';
  kr_keep : forall j, SIZEOF_MPTR <= j < size -> ms_mem k' (p - SIZEOF_MPTR + j) = ms_mem k (base + j);
  kr_zero : has flags GFP_CALLOC = true ->
    forall j, size <= j < size' -> ms_mem k' (p - SIZEOF_MPTR + j) = Some 0;
}.
Lemma get_realloc_size_ok n :
  0 <= n -> match get_realloc_size n with
  | None => 2 ^ 32 - 16 < n
  | Some m => SIZEOF_MPTR + n <= m < SIZEOF_MPTR + n + 8 /\ m `mod` 8 = 0 /\ m < 2 ^ 32
  end.
Proof.
  intros Hn. unfold get_realloc_size. rewrite round_down8. unfold HEAP_ALIGNMENT, SIZEOF_MPTR.
  destruct (Z.leb_spec (2 ^ 32) (n + (8 - 1))); [lia|].
  destruct (Z.leb_spec (2 ^ 32) (n + (8 - 1) - (n + (8 - 1)) `mod` 8 + 8)); mlia.
Qed.
Lemma same_block k base size heap n :
  kernel_ok k -> mblock k base size heap -> SIZEOF_MPTR + n <= size ->
  forall flags, krealloced k base size n heap flags (base + SIZEOF_MPTR) size k.
Proof.
  intros Hok Hb Hn flags. assert (E : base + SIZEOF_MPTR - SIZEOF_MPTR = base) by lia.
  split; rewrite ?E; try done; [|intros; lia]. pose proof (write_effect k (ms_mem k) base size) as H.
  destruct k. apply H; try done. apply Hb.
Qed.
(** Growing into the memory behind the block. *)
Lemma grow_block_ok k base size heap n flags r h s' (Q : unit -> mstate -> Prop) R :
  kernel_ok k -> mblock k base size heap -> ms_heaps k !! Z.to_nat heap = Some h ->
  extended (view k h) (base + size) flags r s' -> SIZEOF_MPTR + n <= size + r ->
  (forall k', krealloced k base size n heap flags (base + SIZEOF_MPTR) (size + r) k' -> Q tt k') ->
  srun (store32 base (size + r)) (back k (Z.to_nat heap) s') Q R.
Proof.
  intros Hok Hb Hh [Hx Hmin Hra Hend Hz] Hn HQ. pose proof Hb as [Hb0 Hba Hsa Hbm Hbe Hu Hsz Hbh Hi].
  pose proof (held_effect _ _ _ _ Hx) as Hef%(back_effect _ _ _ _ _ _ Hok Hh); [|done].
  unfold HEAP_MINSIZE in *. assert (E : base + SIZEOF_MPTR - SIZEOF_MPTR = base) by lia.
  pose proof (mblock_keep _ _ _ _ _ _ _ Hb Hef ltac:(by intros ? _ [])) as [_ _ _ _ _ Hu1 _ Hbh1 _].
  set (k1 := back k (Z.to_nat heap) s') in *. apply srun_store32. intros m Hm Hout.
  destruct Hef as [Hok1 Hus1 Hn1 Hm1].
  assert (Hall : forall a, bytes base (size + r) a -> kused k1 a).
  { intros a Ha. destruct (bytes_dec base size a) as [Hin|Hin]; [by apply Hu1|].
    apply Hus1. right. unfold bytes in *. lia. }
  assert (Hw : kernel_effect k1 (bytes base (size + r)) (bytes base (size + r)) (set_mem k1 m)).
  { apply write_effect; [done..|]. intros a Ha. apply Hout. unfold bytes in Ha. lia. }
  apply HQ. split; rewrite ?E; try done; try lia.
  - destruct Hw as [Hok2 _ _ _]. split; [done| | |].
    + intros a. change (kused (set_mem k1 m) a) with (kused k1 a). rewrite Hus1. unfold none, bytes in *.
      destruct (bytes_dec base size a) as [Hin|Hin]; unfold bytes in Hin.
      * split; [intros _; right; lia|]. intros _. left. split; [by apply Hu|by intros []].
      * split; [intros [[? _]|?]; [by left|right; lia]|]. intros [[? _]|?]; [left; split; [done|by intros []]|right; lia].
    + intros a Ha Hua. destruct (bytes_dec base size a) as [Hin|Hin]; [done|]. exfalso. 
      apply (Hn1 a); [|done]. unfold bytes in *. lia.
    + intros a Hua Hin. cbn. rewrite Hout by (unfold bytes in Hin; lia). apply Hm1; [done|by intros []].
  - split; try done; unfold HEAP_MINSIZE; try lia; [mlia|].
    cbn. by rewrite Hout by lia.
  - intros j Hj. unfold SIZEOF_MPTR in Hj. cbn. rewrite Hout by lia. apply Hm1; [|by intros []].
    apply Hu. unfold bytes. lia.
  - intros Hc j Hj. cbn. rewrite Hout by lia. apply Hz; [done|lia].
Qed.
(** [memcpy] into a block that has just been obtained; it may fault. *)
Lemma copy_ok k heap h D r k1 src n (Q : unit -> mstate -> Prop) (R : error_code -> mstate -> Prop) :
  kernel_effect k D (bytes (fst r) (snd r)) k1 -> ms_heaps k1 !! Z.to_nat heap = Some h -> n <= snd r ->
  (forall k2, kernel_effect k D (bytes (fst r) (snd r)) k2 ->
     (forall j, 0 <= j < n -> ms_mem k2 (fst r + j) = ms_mem k1 (src + j)) ->
     (forall a, ~ bytes (fst r) n a -> ms_mem k2 a = ms_mem k1 a) -> Q tt k2) ->
  (forall e k2, kernel_effect k D (bytes (fst r) (snd r)) k2 -> R e k2) ->
  srun (on_heap heap (request ≫= fun _ => memcpy (fst r) src n)) k1 Q R.
Proof.
  intros He Hh Hn HQ HR. eapply srun_on_heap; [done|]. pose proof (ke_ok _ _ _ _ He) as Hok1.
  destruct (ko_heap _ Hok1 _ _ Hh) as [Hoh _].
  set (s1 := MkHs h (ms_vm k1) (ms_mem k1) (fun n => ms_oracle k1 (S n)) (ms_rand k1)).
  assert (He1 : kernel_effect k D (bytes (fst r) (snd r)) (back k1 (Z.to_nat heap) s1)).
  { eapply (effect_inside _ _ _ 0 0); [done| |unfold bytes; lia].
    eapply back_effect; [done..| |unfold bytes; lia].
    assert (Hq : quiet (view k1 h) s1) by (by apply same_quiet, asked_same).
    eapply effect_ext; [..|by apply quiet_effect]; unfold none, bytes; lia. }
  unfold srun, request, mbind, SM_bind, ask. cbn [hs_oracle view]. fold s1.
  destruct (ms_oracle k1 0%nat) as [e|]; cbn; [by apply HR|].
  set (m := fun x => if (fst r <=? x) && (x <? fst r + n) then ms_mem k1 (src + (x - fst r)) else ms_mem k1 x).
  change (back k1 (Z.to_nat heap) (with_mem _ _)) with (set_mem (back k1 (Z.to_nat heap) s1) m).
  assert (Hout : forall a, ~ bytes (fst r) n a -> m a = ms_mem k1 a).
  { intros a Ha. unfold m, bytes in *. by replace (_ && _) with false by lia. }
  apply HQ; [|intros j Hj; cbn; unfold m|exact Hout].
  - eapply effect_inside; [exact He1|apply (write_effect _ _ (fst r) n)|].
    + apply He1.
    + intros a Ha. apply (ke_used _ _ _ _ He1). right. unfold bytes in *. lia.
    + exact Hout.
    + intros a. unfold bytes. lia.
  - replace (_ && _) with true by lia. f_equal. lia.
Qed.
Lemma move_ok k base size heap n m flags P r k1 (Q : Z -> mstate -> Prop) (R : error_code -> mstate -> Prop) :
  mblock k base size heap -> got k m flags P r k1 -> SIZEOF_MPTR + n <= m -> size <= m ->
  (forall p size' k', krealloced k base size n heap flags p size' k' -> P (p - SIZEOF_MPTR) -> Q p k') ->
  (forall e k' lo len, kernel_effect k none (bytes lo len) k' -> R e k') ->
  srun (size ← mp_size base;
        on_heap heap (request ≫= fun _ => memcpy (fst r) base size) ≫= fun _ =>
        size ← mp_size base;
        on_heap heap (heap_free_untraced base size GFP_NORMAL) ≫= fun _ =>
        mptr_init r heap) k1 Q R.
Proof.
  intros Hb [He Hpl Hsz HP Hz] Hn Hm HQ HR.
  assert (Hkeep : forall k2, kernel_effect k none (bytes (fst r) (snd r)) k2 -> mblock k2 base size heap).
  { intros k2 He2. eapply mblock_keep; [done..|]. by intros ? _ []. }
  assert (Hdis : forall a, bytes base size a -> ~ bytes (fst r) (snd r) a).
  { intros a Ha Hr. apply (ke_new _ _ _ _ He a); [done|]. by apply Hb. }
  pose proof (Hkeep k1 He) as Hb1. pose proof Hb as [_ _ _ Hmin _ Hu _ _ Hi].
  destruct (heap_at k1 heap (ke_ok _ _ _ _ He) Hi) as [h1 Hh1].
  apply srun_bind. eapply srun_size; [done|]. apply srun_bind.
  eapply copy_ok; [done|done|lia| |]; [|intros e k2 He2; by eapply HR].
  intros k2 He2 Hcp Hout2. pose proof (Hkeep k2 He2) as Hb2.
  apply srun_bind. eapply srun_size; [done|]. apply srun_bind.
  eapply run_free; [apply He2|done|done|]. intros k3 He3.
  pose proof (effect_exchange _ _ _ _ _ He2 He3 Hu) as He03.
  eapply mptr_init_ok; [done..|]. intros k' He' Hb' Hm'.
  assert (E : fst r + SIZEOF_MPTR - SIZEOF_MPTR = fst r) by lia.
  assert (Hmem : forall j, SIZEOF_MPTR <= j < snd r -> ms_mem k' (fst r + j) = ms_mem k2 (fst r + j)).
  { intros j Hj. unfold SIZEOF_MPTR in Hj. rewrite Hm' by lia.
    assert (Hin : bytes (fst r) (snd r) (fst r + j)) by (unfold bytes; lia).
    apply He3; [apply (ke_used _ _ _ _ He2); by right|]. intros Hb3. by apply (Hdis _ Hb3). }
  unfold HEAP_MINSIZE in *. apply (HQ _ (snd r)); [|by rewrite E]. split; rewrite ?E; try done; try lia.
  - intros j Hj. rewrite Hmem by lia. unfold SIZEOF_MPTR in Hj. rewrite Hcp by lia.
    apply He; [|by intros []]. apply Hu. unfold bytes. lia.
  - intros Hc j Hj. rewrite Hmem by (unfold SIZEOF_MPTR; lia). rewrite Hout2 by (unfold bytes; lia).
    apply Hz; [done|]. unfold bytes. lia.
Qed.
(** A request that does not give back a part of the block. *)
Definition not_truncating (size n : Z) : Prop :=
  match get_realloc_size n with Some m => size - m < HEAP_MINSIZE | None => True end.
(** What resizing promises: the block with what it held, now at a place that [P] holds of
    if it has moved; or [NULL] and nothing has changed; or an error, after which what was
    in use is unchanged. *)
Definition resizes (m : SM mstate Z) k (base size n heap flags : Z) (P : Z -> Prop) : Prop :=
  srun m k
    (fun p k' => p = 0 /\ has flags GFP_NOMOVE = true /\ kernel_effect k none none k' \/
       (p = base + SIZEOF_MPTR \/ has flags GFP_NOMOVE = false /\ P p) /\
       exists size', krealloced k base size n heap flags p size' k')
    (fun _ k' => exists lo len, kernel_effect k none (bytes lo len) k').
Lemma quiet_leak k k' : kernel_effect k none none k' -> kernel_effect k none (bytes 0 0) k'.
Proof.
  intros [? Hu Hn Hm]. assert (E : forall a, none a <-> bytes 0 0 a) by (unfold none, bytes; lia).
  split; try done; intros a; rewrite <- E; auto.
Qed.
Lemma resize_flags flags heap b :
  0 <= heap < 4 -> Z.land 3 b = 0 -> has (Z.lor (Z.ldiff flags GFP_HEAPMASK) heap) b = has flags b.
Proof. intros Hh Hb. by rewrite has_lor, has_ldiff, (heap_no_flag heap), orb_false_r. Qed.
Lemma resize_heap flags heap :
  0 <= heap < 4 -> Z.land (Z.lor (Z.ldiff flags GFP_HEAPMASK) heap) GFP_HEAPMASK = heap.
Proof.
  intros Hh. rewrite Z.land_lor_distr_l, Z.land_ldiff, Z.lor_0_l.
  change GFP_HEAPMASK with (Z.ones 2). rewrite Z.land_ones by lia. mlia.
Qed.
(** A block stays in its heap, whatever heap the flags say. *)
Lemma resize_allowed flags heap : 0 <= heap < 4 -> allowed heap -> allowed (Z.lor (Z.ldiff flags GFP_HEAPMASK) heap).
Proof.
  intros Hh. apply allowed_sub. intros b Hb. rewrite has_lor. unfold has at 1. replace (Z.land _ b) with 0; [done|].
  symmetry. apply Z.bits_inj'. intros i _. rewrite Z.land_spec, Z.ldiff_spec, Z.bits_0.
  assert (E : Z.testbit b i = Z.testbit (Z.land b GFP_HEAPMASK) i) by (by destruct Hb as [->| ->]).
  rewrite E, Z.land_spec. by destruct (Z.testbit flags i), (Z.testbit b i), (Z.testbit GFP_HEAPMASK i).
Qed.
Lemma krealloced_after k k1 base size n heap flags p size' k' :
  kernel_effect k none none k1 -> krealloced k1 base size n heap flags p size' k' ->
  mblock k base size heap -> krealloced k base size n heap flags p size' k'.
Proof.
  intros He [? ? ? ? Hk ?] Hb. split; try done; [by eapply effect_after|]. intros j Hj. rewrite Hk by done.
  apply He; [|by intros []]. apply Hb. unfold bytes, SIZEOF_MPTR in *. lia.
Qed.
Lemma realloc_with_ok k base size heap n flags fresh alloc P :
  kernel_ok k -> mblock k base size heap -> allowed heap -> 0 <= n <= 2 ^ 32 - 24 -> not_truncating size n ->
  (forall k1 h m flags', allowed flags' -> kernel_effect k none none k1 -> ms_heaps k1 !! Z.to_nat heap = Some h -> 0 <= m ->
     allocates (alloc m flags') m flags' (fun p => P (p + SIZEOF_MPTR)) (view k1 h)) ->
  resizes (realloc_with fresh alloc (base + SIZEOF_MPTR) n flags) k base size n heap flags P.
Proof.
  intros Hok Hb Haw Hn Htr Hal. destruct (mblock_ptr _ _ _ _ Hb) as [Hnz Hpa]. unfold resizes, realloc_with.
  rewrite Hnz. apply srun_bind, srun_check; [done|]. pose proof (get_realloc_size_ok n ltac:(lia)) as Hg.
  unfold not_truncating in Htr. destruct (get_realloc_size n) as [m|]; [|lia]. destruct Hg as (Hm & Hma & Hml).
  cbv zeta. rewrite (mptr_get_base _ _ _ _ Hb). pose proof Hb as [Hb0 Hba Hsa Hmin He Hu _ _ Hi].
  apply srun_bind. eapply srun_heap; [done|]. apply srun_bind, srun_check; [unfold GFP_HEAPCOUNT; lia|].
  apply srun_bind. eapply srun_size; [done|]. unfold SIZEOF_MPTR in Hm.
  destruct (Z.leb_spec m size) as [Hle|Hgt].
  { replace (HEAP_MINSIZE <=? size - m) with false by lia.
    assert (Hsame : krealloced k base size n heap flags (base + SIZEOF_MPTR) size k).
    { apply same_block; [done..|]. unfold SIZEOF_MPTR. lia. }
    destruct (m =? size); apply srun_ret; right; (split; [by left|by exists size]). }
  destruct (heap_at k heap Hok Hi) as [h Hh]. destruct (ko_heap _ Hok _ _ Hh) as [Hoh Hd].
  set (fl := Z.lor (Z.ldiff flags GFP_HEAPMASK) heap).
  assert (Hfl : forall b, Z.land 3 b = 0 -> has fl b = has flags b) by (intros b; by apply resize_flags).
  assert (Hall : allowed fl) by (by apply resize_allowed).
  unfold HEAP_MINSIZE in *. rewrite (u32_small (base + size)) by lia. apply srun_bind. eapply srun_on_heap; [done|].
  eapply srun_mono; [apply heap_allat_ok|..]; cbv beta; try done; try lia; [mlia| | |].
  - eapply kused_view; [|done]. apply Hu. unfold bytes. lia.
  - intros r s' [[-> Hq]|[Hx Hr]].
    + pose proof (quiet_back _ _ _ _ Hok Hh Hq) as Hq'. set (k1 := back _ _ _) in *. cbn [Z.eqb negb].
      rewrite Hfl by done. destruct (has flags GFP_NOMOVE) eqn:Hnm; [apply srun_ret; by left|].
      assert (Hb1 : mblock k1 base size heap) by (eapply mblock_keep; [done..|by intros ? _ []]).
      pose proof (ke_ok _ _ _ _ Hq') as Hok1. destruct (heap_at k1 heap Hok1 Hi) as [h1 Hh1].
      rewrite u32_small by (unfold SIZEOF_MPTR; lia). apply srun_bind.
      eapply run_alloc; [done|done|apply Hal; try done; unfold SIZEOF_MPTR; lia| |].
      * intros r k2 Hgot. unfold fl at 1. rewrite resize_heap by done.
        eapply (move_ok _ _ _ _ n); [done|done|unfold SIZEOF_MPTR; lia..| |].
        -- intros p size' k' [? ? ? ? ? Hz] HP. right. split; [right; split; [done|]|].
           ++ by replace (p - SIZEOF_MPTR + SIZEOF_MPTR) with p in HP by lia.
           ++ exists size'. eapply krealloced_after; [done| |done]. split; try done. by rewrite <- Hfl.
        -- intros e k' lo len Hl. exists lo, len. by eapply effect_after.
      * intros e k' Hl. exists 0, 0. apply quiet_leak. by eapply effect_after.
    + pose proof Hx as [_ Hrm _ Hre _]. unfold HEAP_MINSIZE in Hrm.
      replace (r =? 0) with false by lia. cbn [negb]. apply srun_bind.
      eapply (srun_size _ base size heap).
      { eapply mblock_keep; [done|eapply back_effect; [done..|by apply held_effect, Hx|done]|by intros ? _ []]. }
      rewrite u32_small by lia. apply srun_bind. eapply (grow_block_ok _ _ _ _ n); [done..|unfold SIZEOF_MPTR; lia|].
      intros k' [? ? ? ? ? Hz]. apply srun_bind, srun_check; [lia|]. apply srun_ret. right. split; [by left|].
      exists (size + r). split; try done. by rewrite <- Hfl.
  - intros e s' Hq. exists 0, 0. by eapply quiet_leak, quiet_back.
Qed.
Lemma ktop_quiet k k1 m : kernel_effect k none none k1 -> ktop_used k m -> ktop_used k1 m.
Proof. intros He Ht a Ha. apply (ke_used _ _ _ _ He). left. split; [by apply Ht|by intros []]. Qed.
Lemma krealloc_ok k base size heap n flags :
  kernel_ok k -> mblock k base size heap -> allowed heap -> 0 <= n <= 2 ^ 32 - 24 -> not_truncating size n ->
  resizes (krealloc (base + SIZEOF_MPTR) n flags) k base size n heap flags (fun _ => True).
Proof.
  intros Hok Hb Haw Hn Ht. apply realloc_with_ok; [done..|]. intros k1 h m fl Hfl He Hh Hm.
  eapply alloc_view; [apply He|done..].
Qed.
Lemma krealign_offset_ok k base size heap j m offset n flags :
  kernel_ok k -> mblock k base size heap -> allowed heap -> 0 <= n <= 2 ^ 32 - 24 -> not_truncating size n ->
  alignment j m (Z.land (SIZEOF_MPTR + offset) (m - 1)) -> ktop_used k m ->
  resizes (krealign_offset (base + SIZEOF_MPTR) m offset n flags) k base size n heap flags
    (fun p => (p + offset) `mod` m = 0).
Proof.
  intros Hok Hb Haw Hn Ht Hag Htop. apply realloc_with_ok; [done..|]. intros k1 h n' fl Hfl He Hh Hm.
  eapply srun_mono; [by eapply align_view; [apply He|..|by eapply ktop_quiet]| |done].
  intros r s' [Hr Ha]. split; [done|]. by replace (fst r + SIZEOF_MPTR + offset) with (fst r + (SIZEOF_MPTR + offset)) by lia.
Qed.
Lemma usable_ok k base size heap :
  mblock k base size heap ->
  kmalloc_usable_size (base + SIZEOF_MPTR) k = SRet (size - SIZEOF_MPTR) k.
Proof.
  intros Hb. destruct (mblock_ptr _ _ _ _ Hb) as [Hnz _]. unfold kmalloc_usable_size. rewrite Hnz.
  rewrite (mptr_get_base _ _ _ _ Hb).
  assert (H : srun (mp_size base) k (fun x k' => x = size /\ k' = k) (fun _ _ => False)) by (by eapply srun_size).
  unfold srun in H. unfold mbind, SM_bind. destruct (mp_size base k); [|done..]. by destruct H as [-> ->].
Qed.

(** * Theorems *)
(** C26: From four valid heaps in one address space, [kmalloc] with allowed flags
    ([GFP_KERNEL] in the kernel's address space, [GFP_LOCKED] while there are physical
    pages) does not panic: it returns a pointer behind a header that records the heap of the
    flags and a size of at least the request and the header; the memory of the block was not
    in use before, is zero behind the header with [GFP_CALLOC], and nothing else in use
    changes; on an error nothing in use changes.  [kmemalign_offset] also aligns the pointer
    at the offset, if that and the header are a multiple of 8 of which twice is a multiple
    of the alignment (without an offset: an alignment of at most 16) and the top of memory
    is in use. *)
Theorem kmalloc_spec k j m offset n flags :
  kernel_ok k -> allowed flags -> 0 <= n ->
  srun (kmalloc n flags) k
    (fun p k' => exists size, kmalloced k n (Z.land flags GFP_HEAPMASK) flags p size k')
    (fun _ k' => kernel_effect k none none k') /\
  (alignment j m (Z.land (SIZEOF_MPTR + offset) (m - 1)) -> ktop_used k m ->
   srun (kmemalign_offset m offset n flags) k
     (fun p k' => (p + offset) `mod` m = 0 /\
        exists size, kmalloced k n (Z.land flags GFP_HEAPMASK) flags p size k')
     (fun _ k' => kernel_effect k none none k')).
Proof. intros Hok Hfl Hn. split; [by apply kmalloc_ok|]. intros. by eapply kmemalign_offset_ok. Qed.
(** Freeing a block by its pointer, with [kfree] or with [kffree] and flags without
    [GFP_CALLOC], always returns and gives up exactly the memory of the block; a [NULL]
    pointer is ignored; the usable size is what the header records less the header. *)
Theorem kfree_spec k base size heap flags :
  kernel_ok k -> mblock k base size heap -> has flags GFP_CALLOC = false ->
  srun (kfree (base + SIZEOF_MPTR)) k
    (fun _ k' => kernel_effect k (bytes base size) none k') (fun _ _ => False) /\
  srun (kffree (base + SIZEOF_MPTR) flags) k
    (fun _ k' => kernel_effect k (bytes base size) none k') (fun _ _ => False) /\
  kfree 0 k = SRet tt k /\ kffree 0 flags k = SRet tt k /\
  kmalloc_usable_size (base + SIZEOF_MPTR) k = SRet (size - SIZEOF_MPTR) k.
Proof.
  intros Hok Hb Hf. split_and!; [by eapply kfree_ok|by eapply kffree_ok|done|done|by eapply usable_ok].
Qed.
(** C16: [krealloc] and [krealign_offset] of a block, to a size of at most 2^32-24 that does
    not give back a part of it, keep what the block held and zero what is new with
    [GFP_CALLOC]; the block stays where it is or moves with the old memory given up; with
    [GFP_NOMOVE] it does not move and [NULL] means that nothing has changed; an error
    leaves all memory in use as it was, and may leave a new block behind.  The heap of the
    block is one that may be used (the one for kernel memory in the kernel's address space,
    those for locked memory while there are physical pages).  A block that
    [krealign_offset] moves is aligned at the offset; that is under the conditions of
    [kmemalign_offset]. *)
Theorem krealloc_spec k base size heap j m offset n flags :
  kernel_ok k -> mblock k base size heap -> allowed heap -> 0 <= n <= 2 ^ 32 - 24 -> not_truncating size n ->
  resizes (krealloc (base + SIZEOF_MPTR) n flags) k base size n heap flags (fun _ => True) /\
  (alignment j m (Z.land (SIZEOF_MPTR + offset) (m - 1)) -> ktop_used k m ->
   resizes (krealign_offset (base + SIZEOF_MPTR) m offset n flags) k base size n heap flags
     (fun p => (p + offset) `mod` m = 0)).
Proof. intros. split; [by apply krealloc_ok|]. intros. by eapply krealign_offset_ok. Qed.
(** Allocating a block and freeing its pointer changes no memory that was in use. *)
Theorem kmalloc_kfree_restores k n flags p k1 :
  kernel_ok k -> allowed flags -> 0 <= n -> kmalloc n flags k = SRet p k1 ->
  exists k2, kfree p k1 = SRet tt k2 /\ kernel_effect k none none k2.
Proof.
  intros Hok Hfl Hn E. pose proof (kmalloc_ok k n flags Hok Hfl Hn) as H. unfold srun in H. rewrite E in H.
  destruct H as (size & [He Hb _ _]). pose proof (kfree_ok k1 _ _ _ (ke_ok _ _ _ _ He) Hb) as Hf.
  replace (p - SIZEOF_MPTR + SIZEOF_MPTR) with p in Hf by lia. unfold srun in Hf.
  destruct (kfree p k1) as [[] k2| |]; [|done..]. exists k2. split; [done|]. by eapply effect_undo.
Qed.
End Theory.
