(* ===== verification/MallocProps.v ===== *)
(** Clients of kernel memory.

    A client of [kmalloc] has pointers; whatever sequence of operations it runs, the
    blocks behind them stay valid and apart from each other and nothing panics.  Then a
    concrete kernel with four heaps, on which the theorems are evaluated. *)
From S2P Require Import Prelude.
From stdpp Require Import list relations.
From S2P Require Import ATree Heap HeapInv HeapAlloc HeapResize HeapProps Malloc.
#[local] Open Scope Z_scope.

Section Clients.
Context `{VM : KernelVM}.
Implicit Types (k : mstate) (b : Z * Z).

(** The pointer to a block. *)
Definition user b : Z := fst b + SIZEOF_MPTR.
(** The heap that the header of a block names is one that may be used. *)
Definition heap_allowed k b : Prop := forall heap, ms_mem k (fst b + 4) = Some heap -> allowed heap.
(** The client may write behind the header, up to the usable size. *)
Inductive mclient : mstate * list (Z * Z) -> mstate * list (Z * Z) -> Prop :=
| mc_alloc k bs n flags p size k1 k' :
    0 <= n -> allowed flags -> kmalloc n flags k = SRet p k' -> kmalloc_usable_size p k' = SRet size k1 ->
    mclient (k, bs) (k', (p - SIZEOF_MPTR, size + SIZEOF_MPTR) :: bs)
| mc_alloc_fail k bs n flags e k' :
    0 <= n -> allowed flags -> kmalloc n flags k = SThrow e k' -> mclient (k, bs) (k', bs)
| mc_align k bs j m offset n flags p size k1 k' :
    0 <= n -> allowed flags -> alignment j m (Z.land (SIZEOF_MPTR + offset) (m - 1)) -> ktop_used k m ->
    kmemalign_offset m offset n flags k = SRet p k' -> kmalloc_usable_size p k' = SRet size k1 ->
    mclient (k, bs) (k', (p - SIZEOF_MPTR, size + SIZEOF_MPTR) :: bs)
| mc_align_fail k bs j m offset n flags e k' :
    0 <= n -> allowed flags -> alignment j m (Z.land (SIZEOF_MPTR + offset) (m - 1)) -> ktop_used k m ->
    kmemalign_offset m offset n flags k = SThrow e k' -> mclient (k, bs) (k', bs)
| mc_free k b bs k' : kfree (user b) k = SRet tt k' -> mclient (k, b :: bs) (k', bs)
| mc_ffree k b bs flags k' :
    has flags GFP_CALLOC = false -> kffree (user b) flags k = SRet tt k' -> mclient (k, b :: bs) (k', bs)
| mc_realloc k b bs n flags p size k1 k' :
    0 <= n <= 2 ^ 32 - 24 -> not_truncating (snd b) n -> heap_allowed k b -> krealloc (user b) n flags k = SRet p k' ->
    p <> 0 -> kmalloc_usable_size p k' = SRet size k1 ->
    mclient (k, b :: bs) (k', (p - SIZEOF_MPTR, size + SIZEOF_MPTR) :: bs)
| mc_realloc_null k b bs n flags k' :
    0 <= n <= 2 ^ 32 - 24 -> not_truncating (snd b) n -> heap_allowed k b -> krealloc (user b) n flags k = SRet 0 k' ->
    mclient (k, b :: bs) (k', b :: bs)
| mc_realloc_fail k b bs n flags e k' :
    0 <= n <= 2 ^ 32 - 24 -> not_truncating (snd b) n -> heap_allowed k b -> krealloc (user b) n flags k = SThrow e k' ->
    mclient (k, b :: bs) (k', b :: bs)
| mc_write k b bs m :
    (forall a, ~ user b <= a < fst b + snd b -> m a = ms_mem k a) ->
    mclient (k, b :: bs) (set_mem k m, b :: bs)
| mc_order k bs bs' : bs ≡ₚ bs' -> mclient (k, bs) (k, bs').

Definition has_block k b : Prop := exists heap, mblock k (fst b) (snd b) heap.
Record mclient_ok k (bs : list (Z * Z)) : Prop := {
  mo_kernel : kernel_ok k;
  mo_blocks : Forall (has_block k) bs;
  mo_apart : all_apart bs;
}.
(** Blocks outside of the memory that is given up. *)
Lemma rest_client k bs (D N : Z -> Prop) k' :
  mclient_ok k bs -> kernel_effect k D N k' ->
  (forall c a, c ∈ bs -> bytes (fst c) (snd c) a -> ~ D a) -> mclient_ok k' bs.
Proof.
  intros [Hok Hb Ha] He HD. split; [apply He| |done]. rewrite Forall_forall in Hb |- *. intros c Hc.
  destruct (Hb c Hc) as [heap Hm]. exists heap. eapply mblock_keep; [done..|]. intros a. by apply HD.
Qed.
Lemma new_client k b bs (D : Z -> Prop) k' :
  mclient_ok k bs -> kernel_effect k D (bytes (fst b) (snd b)) k' ->
  (forall c a, c ∈ bs -> bytes (fst c) (snd c) a -> ~ D a) -> has_block k' b -> mclient_ok k' (b :: bs).
Proof.
  intros Hc He HD Hnew. pose proof (rest_client _ _ _ _ _ Hc He HD) as [Hok' Hb' Ha].
  split; [done|by constructor|]. split; [|done]. destruct Hc as [_ Hb _]. rewrite Forall_forall in Hb |- *.
  intros c Hin. destruct (Hb c Hin) as [heap Hm]. destruct Hnew as [heap' Hm'].
  pose proof (mb_min _ _ _ _ Hm). pose proof (mb_min _ _ _ _ Hm'). unfold HEAP_MINSIZE in *.
  apply (block_apart (fun a => kused k a /\ ~ D a)); try lia.
  - intros a Hr [Hua HnD]. by apply HnD, (ke_new _ _ _ _ He).
  - intros a Hr. split; [by apply Hm|]. by apply (HD c).
Qed.
Lemma tail_client k b bs : mclient_ok k (b :: bs) -> mclient_ok k bs.
Proof. intros [Hok [_ Hb]%Forall_cons [_ Ha]]. by split. Qed.
Lemma apart_bytes k b bs c a :
  mclient_ok k (b :: bs) -> c ∈ bs -> bytes (fst c) (snd c) a -> ~ bytes (fst b) (snd b) a.
Proof.
  intros [_ _ [Ha _]] Hc Hr Hr'. rewrite Forall_forall in Ha. pose proof (Ha c Hc). unfold apart, bytes in *. lia.
Qed.
Lemma quiet_mclient k bs N k' : mclient_ok k bs -> kernel_effect k none N k' -> mclient_ok k' bs.
Proof. intros Hc He. eapply rest_client; [done..|]. by intros ? ? _ _ []. Qed.
Lemma free_mclient k b bs k' :
  mclient_ok k (b :: bs) -> kernel_effect k (bytes (fst b) (snd b)) none k' -> mclient_ok k' bs.
Proof.
  intros Hc He. eapply rest_client; [by eapply tail_client|done|]. intros c a Hin. by eapply apart_bytes.
Qed.
(** The client computes the block from the usable size. *)
Lemma usable_block k p size heap size' k1 :
  mblock k (p - SIZEOF_MPTR) size heap -> kmalloc_usable_size p k = SRet size' k1 ->
  size' + SIZEOF_MPTR = size.
Proof.
  intros Hb E. pose proof (usable_ok _ _ _ _ Hb) as H. replace (p - SIZEOF_MPTR + SIZEOF_MPTR) with p in H by lia.
  rewrite E in H. injection H as -> _. lia.
Qed.
Lemma alloc_mclient k bs n heap flags p size size' k1 k' :
  mclient_ok k bs -> kmalloced k n heap flags p size k' -> kmalloc_usable_size p k' = SRet size' k1 ->
  mclient_ok k' ((p - SIZEOF_MPTR, size' + SIZEOF_MPTR) :: bs).
Proof.
  intros Hc [He Hb _ _] E. rewrite (usable_block _ _ _ _ _ _ Hb E).
  eapply new_client; [done|exact He|by intros ? ? _ _ []|by exists heap].
Qed.
Lemma realloc_mclient k b bs n heap flags p size size' k1 k' :
  mclient_ok k (b :: bs) -> krealloced k (fst b) (snd b) n heap flags p size k' ->
  kmalloc_usable_size p k' = SRet size' k1 ->
  mclient_ok k' ((p - SIZEOF_MPTR, size' + SIZEOF_MPTR) :: bs).
Proof.
  intros Hc [He Hb _ _ _ _] E. rewrite (usable_block _ _ _ _ _ _ Hb E).
  eapply new_client; [by eapply tail_client|exact He| |by exists heap]. intros c a. by eapply apart_bytes.
Qed.
Lemma write_mclient k b bs m :
  mclient_ok k (b :: bs) -> (forall a, ~ user b <= a < fst b + snd b -> m a = ms_mem k a) ->
  mclient_ok (set_mem k m) (b :: bs).
Proof.
  intros Hc Hm. pose proof Hc as [Hok [[heap Hb] _]%Forall_cons _]. pose proof (mb_min _ _ _ _ Hb) as Hmin.
  unfold user, SIZEOF_MPTR in Hm. unfold HEAP_MINSIZE in Hmin.
  assert (He : kernel_effect k (bytes (fst b) (snd b)) (bytes (fst b) (snd b)) (set_mem k m)).
  { apply write_effect; [done|apply Hb|]. intros a Ha. apply Hm. unfold bytes in Ha. lia. }
  eapply new_client; [by eapply tail_client|exact He|intros c a; by eapply apart_bytes|].
  exists heap. destruct Hb as [? ? ? ? ? ? Hs Hh ?]. split; try done.
  - unfold mem32 in *. cbn. rewrite !Hm by lia. done.
  - cbn. by rewrite Hm by lia.
Qed.
Lemma mclient_step_ok k bs k' bs' : mclient (k, bs) (k', bs') -> mclient_ok k bs -> mclient_ok k' bs'.
Proof.
  intros Hst Hc. pose proof Hc as [Hok Hbs Hap].
  assert (Hhd : forall b l, bs = b :: l -> exists heap, mblock k (fst b) (snd b) heap).
  { intros b l ->. by apply Forall_cons in Hbs as [? _]. }
  inversion Hst as [? ? n flags p size k1 ? Hn Hfl E Eu|? ? n flags e ? Hn Hfl E|
    ? ? j m off n flags p size k1 ? Hn Hfl Hag Htop E Eu|? ? j m off n flags e ? Hn Hfl Hag Htop E|
    ? b l ? E|? b l flags ? Hf E|? b l n flags p size k1 ? Hn Ht Haw E Hp Eu|? b l n flags ? Hn Ht Haw E|
    ? b l n flags e ? Hn Ht Haw E|? b l m Hm|? ? ? Hperm]; subst; try destruct (Hhd _ _ eq_refl) as [heap Hb].
  - pose proof (kmalloc_ok k n flags Hok Hfl Hn) as H. unfold srun in H. rewrite E in H.
    destruct H as [size' H]. by eapply alloc_mclient.
  - pose proof (kmalloc_ok k n flags Hok Hfl Hn) as H. unfold srun in H. rewrite E in H. by eapply quiet_mclient.
  - pose proof (kmemalign_offset_ok k j m off n flags Hok Hfl Hn Hag Htop) as H. unfold srun in H. rewrite E in H.
    destruct H as [_ [size' H]]. by eapply alloc_mclient.
  - pose proof (kmemalign_offset_ok k j m off n flags Hok Hfl Hn Hag Htop) as H. unfold srun in H. rewrite E in H.
    by eapply quiet_mclient.
  - pose proof (kfree_ok k _ _ _ Hok Hb) as H. unfold srun, user in *. rewrite E in H. by eapply free_mclient.
  - pose proof (kffree_ok k _ _ _ flags Hok Hb Hf) as H. unfold srun, user in *. rewrite E in H. by eapply free_mclient.
  - pose proof (krealloc_ok k _ _ _ n flags Hok Hb (Haw _ (mb_heap _ _ _ _ Hb)) Hn Ht) as H. unfold resizes, srun, user in *. rewrite E in H.
    destruct H as [(? & _)|(_ & size' & H)]; [done|]. by eapply realloc_mclient.
  - pose proof (krealloc_ok k _ _ _ n flags Hok Hb (Haw _ (mb_heap _ _ _ _ Hb)) Hn Ht) as H. unfold resizes, srun, user in *. rewrite E in H.
    destruct H as [(_ & _ & He)|(_ & size' & H)]; [by eapply quiet_mclient|].
    apply kr_block, mb_base in H. unfold SIZEOF_MPTR in H. lia.
  - pose proof (krealloc_ok k _ _ _ n flags Hok Hb (Haw _ (mb_heap _ _ _ _ Hb)) Hn Ht) as H. unfold resizes, srun, user in *. rewrite E in H.
    destruct H as (lo & len & He). by eapply quiet_mclient.
  - by apply write_mclient.
  - split; try done; [by rewrite <- Hperm|by eapply all_apart_perm].
Qed.
Lemma mclient_steps_ok x y :
  rtc mclient x y -> mclient_ok (fst x) (snd x) -> mclient_ok (fst y) (snd y).
Proof.
  induction 1 as [|[k bs] [k1 bs1] z Hst _ IH]; [done|]. intros Hc. apply IH. by eapply mclient_step_ok.
Qed.
Definition mclient_safe k (bs : list (Z * Z)) : Prop :=
  (forall n flags, 0 <= n -> allowed flags -> kmalloc n flags k <> SPanic) /\
  (forall j m offset n flags, 0 <= n -> allowed flags -> alignment j m (Z.land (SIZEOF_MPTR + offset) (m - 1)) ->
     ktop_used k m -> kmemalign_offset m offset n flags k <> SPanic) /\
  (forall b, b ∈ bs -> (exists k', kfree (user b) k = SRet tt k') /\
     kmalloc_usable_size (user b) k = SRet (snd b - SIZEOF_MPTR) k) /\
  (forall b n flags, b ∈ bs -> 0 <= n <= 2 ^ 32 - 24 -> not_truncating (snd b) n -> heap_allowed k b ->
     krealloc (user b) n flags k <> SPanic).
Lemma mclient_ok_safe k bs : mclient_ok k bs -> mclient_safe k bs.
Proof.
  intros [Hok Hb _]. rewrite Forall_forall in Hb. split_and!.
  - intros n flags Hn Hfl. by eapply srun_safe, kmalloc_ok.
  - intros j m off n flags Hn Hfl Hag Ht. by eapply srun_safe, kmemalign_offset_ok.
  - intros b [heap Hm]%Hb. split; [|by eapply usable_ok].
    destruct (srun_total _ _ _ (kfree_ok k _ _ _ Hok Hm)) as ([] & k' & E). by exists k'.
  - intros b n flags [heap Hm]%Hb Hn Ht Haw. eapply srun_safe, krealloc_ok; try done. apply Haw, Hm.
Qed.
(** C14: A client that starts with valid heaps and runs any sequence of allocations, aligned
    allocations, frees (which say nothing about zero memory), resizes that do not truncate,
    and writes behind the headers of its blocks has, at every point, valid heaps and valid
    blocks that are apart from each other; then allocating and resizing do not panic, and
    each block can be freed and has its usable size.  Memory of the kernel is asked for
    (or resized) only in the kernel's address space and locked memory only while there are
    physical pages; an alignment has an offset that with the header is a multiple of 8 and
    twice a multiple of the alignment (without an offset at most 16), with the top of
    memory in use; and sizes are at most 2^32-24 when resizing. *)
Theorem kmalloc_clients_safe k0 bs0 k bs :
  mclient_ok k0 bs0 -> rtc mclient (k0, bs0) (k, bs) -> mclient_ok k bs /\ mclient_safe k bs.
Proof.
  intros Hc Hst. assert (mclient_ok k bs) by apply (mclient_steps_ok _ _ Hst Hc).
  split; [done|by apply mclient_ok_safe].
Qed.
End Clients.

(** * A kernel *)
(** The four heaps as they start, with two blocks of 4096 zero bytes of the first one. *)
Definition header_mem (a : Z) : option Z := Some (if (a =? 65537) || (a =? 69633) then 16 else 0).
Definition kernel_new : mstate :=
  MkMs (kernel_heaps (fun i => (4096 * (i + 1), 0))) (MkPages [2 ^ 20 - 1; 16; 17; 18; 19] [] 0 false (fun _ => None))
    header_mem (fun _ => None) None.
Lemma kernel_new_nodes i h a : ms_heaps kernel_new !! i = Some h -> ~ free (view kernel_new h) a.
Proof.
  intros Hi (x & Hx & _). do 4 (destruct i as [|i]; [injection Hi as <-; by apply elem_of_nil in Hx|]). done.
Qed.
Lemma heap_init_ok k over thresh hint mode :
  vm_ok (ms_vm k) -> 0 <= over -> heap_ok (view k (heap_init over thresh hint mode)).
Proof.
  intros Hv Ho. split; try done.
  - split; [done|done|]. intros i l Hl. apply list_elem_of_lookup_2 in Hl. cbn in Hl.
    assert (l = []) as -> by set_solver. split; constructor.
  - intros a (x & Hx & _). by apply elem_of_nil in Hx.
  - intros x y Hx. by apply elem_of_nil in Hx.
Qed.
Lemma kernel_new_ok : kernel_ok kernel_new.
Proof.
  assert (Hv : vm_ok (ms_vm kernel_new)) by (by left). split; [done| |].
  - intros i h Hi. do 4 (destruct i as [|i]; [injection Hi as <-; split; [by apply heap_init_ok|done]|]). done.
  - intros i j h g a Hi Hj _ Hf. by apply (kernel_new_nodes i h a) in Hi.
Qed.
Lemma kernel_new_used a : 65536 <= a < 81920 \/ 2 ^ 32 - 4096 <= a < 2 ^ 32 -> kused kernel_new a.
Proof.
  intros Ha. split; [|intros i h; apply kernel_new_nodes].
  apply bool_decide_eq_true. cbn. rewrite !elem_of_cons. unfold PAGESIZE. mlia.
Qed.
Lemma kernel_new_block : mblock kernel_new 65536 4096 0.
Proof. split; try done. intros a Ha. apply kernel_new_used. unfold bytes in Ha. lia. Qed.
Lemma kernel_new_second : mblock kernel_new 69632 4096 0.
Proof. split; try done. intros a Ha. apply kernel_new_used. unfold bytes in Ha. lia. Qed.
Lemma kernel_new_client : mclient_ok kernel_new [(65536, 4096); (69632, 4096)].
Proof.
  split; [apply kernel_new_ok| |].
  - repeat constructor; exists 0; [apply kernel_new_block|apply kernel_new_second].
  - cbn. split; [|done]. repeat constructor. unfold apart. cbn. lia.
Qed.
Lemma alignment_16 : alignment 4 16 (Z.land (SIZEOF_MPTR + 0) (16 - 1)).
Proof. by split. Qed.
Lemma kernel_new_top : ktop_used kernel_new 16.
Proof. intros a Ha. unfold HEAP_MINSIZE in Ha. apply kernel_new_used. lia. Qed.
(** After the first block has been freed. *)
Definition kernel_one : mstate :=
  match kfree 65544 kernel_new with SRet _ k => k | _ => kernel_new end.
Lemma kernel_one_step : kfree 65544 kernel_new = SRet tt kernel_one.
Proof.
  unfold kernel_one. pose proof (eq_refl : returnsb (kfree 65544) kernel_new = true) as H.
  unfold returnsb in H. by destruct (kfree 65544 kernel_new) as [[] ?| |].
Qed.

Lemma kmalloc_clients_witness : mclient_ok kernel_one [(69632, 4096)] /\ mclient_safe kernel_one [(69632, 4096)].
Proof.
  apply (kmalloc_clients_safe kernel_new [(65536, 4096); (69632, 4096)]); [apply kernel_new_client|].
  apply rtc_once. exact (mc_free kernel_new (65536, 4096) [(69632, 4096)] kernel_one kernel_one_step).
Defined.
Lemma kmalloc_witness :
  exists p k', kmalloc 100 GFP_CALLOC kernel_new = SRet p k' /\
    exists size, kmalloced kernel_new 100 (Z.land GFP_CALLOC GFP_HEAPMASK) GFP_CALLOC p size k'.
Proof.
  eapply srun_returns; [by vm_compute|].
  exact (proj1 (kmalloc_spec kernel_new 4 16 0 100 GFP_CALLOC kernel_new_ok
    (allowed_plain 16 eq_refl eq_refl) ltac:(lia))).
Defined.
Lemma kfree_witness :
  exists u k', kfree 65544 kernel_new = SRet u k' /\ kernel_effect kernel_new (bytes 65536 4096) none k'.
Proof.
  eapply srun_returns; [by vm_compute|].
  exact (proj1 (kfree_spec kernel_new 65536 4096 0 0 kernel_new_ok kernel_new_block eq_refl)).
Defined.
Lemma not_truncating_ex : not_truncating 4096 8000.
Proof. by vm_compute. Qed.
Lemma krealloc_ex : returnsb (krealloc (65536 + SIZEOF_MPTR) 8000 0) kernel_new = true.
Proof. by vm_compute. Qed.
Lemma krealloc_witness :
  resizes (krealloc (65536 + SIZEOF_MPTR) 8000 0) kernel_new 65536 4096 8000 0 0 (fun _ => True) /\
  returnsb (krealloc (65536 + SIZEOF_MPTR) 8000 0) kernel_new = true.
Proof.
  split; [|exact krealloc_ex].
  exact (proj1 (krealloc_spec kernel_new 65536 4096 0 4 16 0 8000 0 kernel_new_ok kernel_new_block
    (allowed_plain 0 eq_refl eq_refl) ltac:(lia) not_truncating_ex)).
Defined.
Lemma kmalloc_kfree_witness :
  exists p k1 k2, kmalloc 100 0 kernel_new = SRet p k1 /\ kfree p k1 = SRet tt k2 /\
    kernel_effect kernel_new none none k2.
Proof.
  pose proof (eq_refl : returnsb (kmalloc 100 0) kernel_new = true) as H. unfold returnsb in H.
  destruct (kmalloc 100 0 kernel_new) as [p k1| |] eqn:E; try discriminate.
  destruct (kmalloc_kfree_restores kernel_new 100 0 p k1 kernel_new_ok (allowed_plain 0 eq_refl eq_refl) ltac:(lia) E) as (k2 & ? & ?).
  by exists p, k1, k2.
Defined.

(** ** Where the code departs from its documentation *)
(** Whether an address is in a free range of the first heap. *)
Definition freeb (k : mstate) (a : Z) : bool :=
  match ms_heaps k !! 0%nat with Some h => bool_decide (free (view k h) a) | None => false end.
(** Making a block smaller frees as many bytes as remain in use: of a block of 4096 bytes
    that keeps 3008, the 3008 bytes behind them, which belong to the next block. *)
Example krealloc_frees_neighbour :
  match krealloc 65544 3000 0 kernel_new with
  | SRet p k' => (p =? 65544) && freeb k' 69632 && negb (freeb kernel_new 69632)
  | _ => false
  end = true.
Proof. by vm_compute. Qed.
(** Near the largest size, the size that is asked of the heap (with a second header)
    wraps to zero, although the overflow of the size itself is checked. *)
Example krealloc_size_wraps :
  get_realloc_size (2 ^ 32 - 16) = Some (2 ^ 32 - 8) /\ u32 (SIZEOF_MPTR + (2 ^ 32 - 8)) = 0 /\
  get_realloc_size (2 ^ 32 - 15) = None.
Proof. by vm_compute. Qed.
(** [kffree] passes [GFP_CALLOC] on for the header too, which is not zero: once the block
    has been united with a zero range below it, zero memory is handed out that is not. *)
Example kffree_calloc_header :
  match (kffree 65544 GFP_CALLOC ≫= fun _ => kffree 69640 GFP_CALLOC ≫= fun _ => kmalloc 6000 GFP_CALLOC)
          kernel_new with
  | SRet p k' => (p <=? 69633) && (69633 <? p + 6000) && bool_decide (ms_mem k' 69633 = Some 16)
  | _ => false
  end = true.
Proof. by vm_compute. Qed.
