(* ===== verification/Vm.v ===== *)
(** Address spaces: kernel/src/vm/vm.c.

    An address space keeps its nodes, each a range of pages that maps a part of a
    region, in an address tree and in a list ordered by address.  There are two address
    spaces, that of the kernel and that of the calling task; the address of a page
    decides between them.

    A region is known here by what the address space relies on: its size, type, flags,
    its reference counter, and the references on each of its pages (the contract of
    [vm_region_incref_range] and [vm_region_decref_range]; when the latter runs out of
    memory it drops the references of some pages only and marks the region as leaking).  The page tables are not
    part of the state; an access to them, an allocation, a notification and a lock may
    each throw, as an oracle decides.  The notifications that a mapping is gone
    (VM_NOTIFY_UNMAP, VM_NOTIFY_DECREF) and the synchronization of other processors are
    left out.  The model is that of a 32-bit build with
    CONFIG_NO_VM_MERGING_COMPLEX: nodes of different regions are never merged. *)
From S2P Require Import Prelude.
From stdpp Require Import list.
From S2P Require Import ATree.
#[local] Open Scope Z_scope.

(** * Configuration *)
Definition VM_PAGE_BITS : Z := 20.
Definition VM_VPAGE_MAX : Z := 1048575.
Definition KERNEL_BASE_PAGE : Z := 786432.
Definition VM_SEMI0 : Z := ATREE_SEMI0 VM_PAGE_BITS.
Definition VM_LEVEL0 : Z := ATREE_LEVEL0 VM_PAGE_BITS.
Definition VM_NODE_FNORMAL : Z := 0.
Definition VM_NODE_FIMMUTABLE : Z := 16384.
Definition VM_REGION_RESERVED : Z := 2.
Definition VM_REGION_LOGUARD : Z := 14.
Definition VM_REGION_HIGUARD : Z := 15.
Definition VM_REGION_FDONTMERGE : Z := 8192.
Definition VM_REGION_FLEAKINGPARTS : Z := 16384.
Definition VM_UNMAP_NORMAL : Z := 0.
Definition VM_UNMAP_TAG : Z := 1.
Definition VM_UNMAP_NOEXCEPT : Z := 2.
Definition VM_UNMAP_IMMUTABLE : Z := 4.
Definition VM_PROTECT_TAG : Z := 1.
Definition VM_EXTRACT_FULL : Z := 2.
Definition VM_GETFREE_FBELOW : Z := 1.
Definition VM_GETFREE_FSTRICT : Z := 2.
Definition VM_GETFREE_FFORCEGAP : Z := 4.
Definition VM_NOTIFY_SPLIT_FINCREF : Z := 0.
Definition flag (x bit : Z) : bool := negb (Z.land x bit =? 0).
Definition FLOOR_ALIGN (x align : Z) : Z := Z.ldiff x (align - 1).
Definition CEIL_ALIGN (x align : Z) : Z := Z.ldiff (u32 (x + (align - 1))) (align - 1).

(** * Data *)
(** [vn_notify] is 0 for [NULL]. *)
Record vm_node : Type := MkNode {
  a_vmin : Z;
  a_vmax : Z;
  vn_start : Z;
  vn_region : Z;
  vn_prot : Z;
  vn_flag : Z;
  vn_notify : Z;
  vn_closure : Z;
}.
#[export] Instance vm_node_eq_dec : EqDecision vm_node.
Proof. solve_decision. Defined.
#[export] Instance vm_node_tree : TreeNode vm_node := {| node_min := a_vmin; node_max := a_vmax |}.
Definition VM_NODE_BEGIN (x : vm_node) : Z := a_vmin x.
Definition VM_NODE_END (x : vm_node) : Z := a_vmax x + 1.
Definition VM_NODE_SIZE (x : vm_node) : Z := a_vmax x - a_vmin x + 1.
Definition with_range (x : vm_node) (lo hi : Z) : vm_node :=
  MkNode lo hi (vn_start x) (vn_region x) (vn_prot x) (vn_flag x) (vn_notify x) (vn_closure x).
Definition with_prot (x : vm_node) (prot : Z) : vm_node :=
  MkNode (a_vmin x) (a_vmax x) (vn_start x) (vn_region x) prot (vn_flag x) (vn_notify x) (vn_closure x).
Definition with_closure (x : vm_node) (closure : Z) : vm_node :=
  MkNode (a_vmin x) (a_vmax x) (vn_start x) (vn_region x) (vn_prot x) (vn_flag x) (vn_notify x) closure.
Record region : Type := MkRegion {
  vr_size : Z;
  vr_type : Z;
  vr_flags : Z;
  vr_refcnt : Z;
  vr_refs : Z -> Z;
}.
Record vspace : Type := MkSpace { vm_map : atree vm_node; vm_byaddr : list vm_node }.
(** [vs_this]: whether [THIS_VM] is [&vm_kernel]; [vs_reply]: what the notification
    functions answer. *)
Record vst : Type := MkVst {
  vs_kernel : vspace;
  vs_user : vspace;
  vs_this : bool;
  vs_region : Z -> region;
  vm_disable_merging : bool;
  vs_oracle : nat -> option error_code;
  vs_reply : nat -> Z;
}.
Definition VM := SM vst.
(** Which address space: [true] for [&vm_kernel]. *)
Definition effective (s : vst) (page : Z) : bool := (KERNEL_BASE_PAGE <=? page) || vs_this s.
Definition space (s : vst) (k : bool) : vspace := if k then vs_kernel s else vs_user s.
Definition with_space (s : vst) (k : bool) (v : vspace) : vst :=
  MkVst (if k then v else vs_kernel s) (if k then vs_user s else v) (vs_this s) (vs_region s)
    (vm_disable_merging s) (vs_oracle s) (vs_reply s).
Definition with_region (s : vst) (r : Z) (x : region) : vst :=
  MkVst (vs_kernel s) (vs_user s) (vs_this s) (fun i => if i =? r then x else vs_region s i)
    (vm_disable_merging s) (vs_oracle s) (vs_reply s).
Definition get_space (k : bool) : VM vspace := fun s => SRet (space s k) s.
Definition set_space (k : bool) (v : vspace) : VM unit := fun s => SRet tt (with_space s k v).
(** Something that may throw: an allocation, a lock, the page tables. *)
Definition request : VM unit := fun s =>
  let s' := MkVst (vs_kernel s) (vs_user s) (vs_this s) (vs_region s) (vm_disable_merging s)
              (fun n => vs_oracle s (S n)) (vs_reply s) in
  match vs_oracle s 0%nat with Some e => SThrow e s' | None => SRet tt s' end.
Definition reply : VM Z := fun s =>
  SRet (vs_reply s 0%nat) (MkVst (vs_kernel s) (vs_user s) (vs_this s) (vs_region s)
    (vm_disable_merging s) (vs_oracle s) (fun n => vs_reply s (S n))).
Definition kmalloc_node : VM unit := request.
Definition vm_acquire : VM unit := request.
Definition pagedir_map : VM unit := request.
Definition INVOKE_NOTIFY : VM Z := request ≫= fun _ => reply.

(** ** Regions *)
Definition upd_refs (f : Z -> Z) (start n d : Z) : Z -> Z := fun q =>
  if (start <=? q) && (q <? start + n) then f q + d else f q.
Definition add_refcnt (r d : Z) : VM unit := fun s =>
  let x := vs_region s r in
  SRet tt (with_region s r (MkRegion (vr_size x) (vr_type x) (vr_flags x) (vr_refcnt x + d) (vr_refs x))).
Definition add_refs (r start n d : Z) : VM unit := fun s =>
  let x := vs_region s r in
  SRet tt (with_region s r (MkRegion (vr_size x) (vr_type x) (vr_flags x) (vr_refcnt x)
    (upd_refs (vr_refs x) start n d))).
Definition vm_region_incref (r : Z) : VM unit := add_refcnt r 1.
Definition vm_region_decref (r : Z) : VM unit := add_refcnt r (-1).
Definition vm_region_incref_range (r start n : Z) : VM unit := request ≫= fun _ => add_refs r start n 1.
Definition set_leaking (r : Z) : VM unit := fun s =>
  let x := vs_region s r in
  SRet tt (with_region s r (MkRegion (vr_size x) (vr_type x) (Z.lor (vr_flags x) VM_REGION_FLEAKINGPARTS)
    (vr_refcnt x) (vr_refs x))).
Definition leaking (x : region) : bool := flag (vr_flags x) VM_REGION_FLEAKINGPARTS.
(** When a part cannot be split for want of memory (nothing else throws here, as
    interrupts are not served), only the references on the first pages are dropped, as many
    as [reply] says, and the others are leaked. *)
Definition vm_region_decref_range (r start n : Z) : VM unit :=
  scatch (request ≫= fun _ => add_refs r start n (-1))
    (fun _ =>
       m ← reply;
       add_refs r start (Z.max 0 (Z.min m n)) (-1) ≫= fun _ =>
       set_leaking r).

(** * Searching *)
Definition nonnil (t : atree vm_node) : bool := match t with ANil => false | _ => true end.
Definition in_range (lo hi : Z) (x : vm_node) : bool := (lo <=? a_vmax x) && (a_vmin x <=? hi).
Record node_info : Type := MkInfo { ni_min : option vm_node; ni_max : option vm_node }.
Definition note_node (info : node_info) (node : vm_node) : node_info :=
  MkInfo
    (match ni_min info with
     | None => Some node
     | Some x => if a_vmin node <? a_vmin x then Some node else Some x
     end)
    (match ni_max info with
     | None => Some node
     | Some x => if a_vmax node <? a_vmax x then Some node else Some x
     end).
Fixpoint vm_findnodes (info : node_info) (t : atree vm_node) (lo hi semi level : Z) : node_info :=
  match t with
  | ANil => info
  | ANode l node r =>
      let info := if in_range lo hi node then note_node info node else info in
      let walk_min := (lo <? semi) && nonnil l in
      let walk_max := (semi <=? hi) && nonnil r in
      let '(smin, lmin) := ATREE_WALKMIN VM_PAGE_BITS semi level in
      let '(smax, lmax) := ATREE_WALKMAX VM_PAGE_BITS semi level in
      if walk_min then
        let info := if walk_max then vm_findnodes info r lo hi smax lmax else info in
        vm_findnodes info l lo hi smin lmin
      else if walk_max then vm_findnodes info r lo hi smax lmax
      else info
  end.
Fixpoint impl_vm_findany (t : atree vm_node) (lo hi semi level : Z) : option vm_node :=
  match t with
  | ANil => None
  | ANode l node r =>
      if in_range lo hi node then Some node
      else
        let walk_min := (lo <? semi) && nonnil l in
        let walk_max := (semi <=? hi) && nonnil r in
        let '(smin, lmin) := ATREE_WALKMIN VM_PAGE_BITS semi level in
        let '(smax, lmax) := ATREE_WALKMAX VM_PAGE_BITS semi level in
        if walk_min then
          match if walk_max then impl_vm_findany r lo hi smax lmax else None with
          | Some result => Some result
          | None => impl_vm_findany l lo hi smin lmin
          end
        else if walk_max then impl_vm_findany r lo hi smax lmax
        else None
  end.
Definition vm_findany (v : vspace) (lo hi : Z) : option vm_node :=
  impl_vm_findany (vm_map v) lo hi VM_SEMI0 VM_LEVEL0.
Definition vm_getnode (page : Z) : VM (option vm_node) := fun s =>
  slift (locate VM_PAGE_BITS (vm_map (space s (effective s page))) page) s.
Definition vm_getanynode (s : vst) (lo hi : Z) : option vm_node :=
  vm_findany (space s (effective s lo)) lo hi.

(** * Inserting and removing nodes *)
(** [while ((insert_before = *pinsert) != NULL && ...)]: the list with the node, and the
    assertion on the node behind it. *)
Fixpoint insert_byaddr (node : vm_node) (l : list vm_node) : outcome (list vm_node) :=
  match l with
  | [] => Ret [node]
  | x :: l' =>
      if a_vmax x <? a_vmin node then insert_byaddr node l' ≫= fun l'' => Ret (x :: l'')
      else kassert (a_vmax node <? a_vmin x) ≫= fun _ => Ret (node :: l)
  end.
Definition is_none {A} (o : option A) : bool := match o with None => true | _ => false end.
Definition vm_insert_node (k : bool) (node : vm_node) : VM unit :=
  s ← sget;
  let v := space s k in
  let region := vs_region s (vn_region node) in
  scheck (a_vmin node <=? a_vmax node) ≫= fun _ =>
  scheck (a_vmax node <=? VM_VPAGE_MAX) ≫= fun _ =>
  scheck (is_none (vm_findany v (a_vmin node) (a_vmax node))) ≫= fun _ =>
  scheck (vn_start node <? vr_size region) ≫= fun _ =>
  scheck (vn_start node + VM_NODE_SIZE node <=? vr_size region) ≫= fun _ =>
  scheck (eqb (nonnil (vm_map v)) (bool_decide (vm_byaddr v <> []))) ≫= fun _ =>
  t ← slift (ATree.insert VM_PAGE_BITS (vm_map v) node);
  l ← slift (insert_byaddr node (vm_byaddr v));
  set_space k (MkSpace t l).
(** The assertions of [vm_map_node]; what it does to the page tables may throw. *)
Definition vm_map_node (node : vm_node) : VM unit :=
  s ← sget;
  let region := vs_region s (vn_region node) in
  scheck (vn_start node <? vn_start node + VM_NODE_SIZE node) ≫= fun _ =>
  scheck (vn_start node + VM_NODE_SIZE node <=? vr_size region) ≫= fun _ =>
  if vr_type region =? VM_REGION_RESERVED then mret tt else pagedir_map.
Definition vm_insert_and_activate_node (k : bool) (node : vm_node) : VM unit :=
  vm_map_node node ≫= fun _ => vm_insert_node k node.
(** The slot without the nodes of the range, and these in front of [result]. *)
Fixpoint impl_vm_pop_nodes (fuel : nat) (slot : atree vm_node) (result : list vm_node)
    (lo hi semi level mode tag : Z) : outcome (atree vm_node * list vm_node) :=
  match fuel with
  | O => Panic
  | S fuel =>
      match slot with
      | ANil => Ret (ANil, result)
      | ANode l node r =>
          if in_range lo hi node && negb (flag mode VM_UNMAP_TAG && negb (vn_closure node =? tag)) then
            kassert (flag mode VM_UNMAP_IMMUTABLE || negb (flag (vn_flag node) VM_NODE_FIMMUTABLE)) ≫= fun _ =>
            pop_at VM_PAGE_BITS slot semi level ≫= fun '(x, slot') =>
            impl_vm_pop_nodes fuel slot' (x :: result) lo hi semi level mode tag
          else
            let walk_min := (lo <? semi) && nonnil l in
            let walk_max := (semi <=? hi) && nonnil r in
            let '(smin, lmin) := ATREE_WALKMIN VM_PAGE_BITS semi level in
            let '(smax, lmax) := ATREE_WALKMAX VM_PAGE_BITS semi level in
            if walk_min then
              (if walk_max then impl_vm_pop_nodes fuel r result lo hi smax lmax mode tag
               else Ret (r, result)) ≫= fun '(r', result) =>
              impl_vm_pop_nodes fuel l result lo hi smin lmin mode tag ≫= fun '(l', result) =>
              Ret (ANode l' node r', result)
            else if walk_max then
              impl_vm_pop_nodes fuel r result lo hi smax lmax mode tag ≫= fun '(r', result) =>
              Ret (ANode l node r', result)
            else Ret (slot, result)
      end
  end.
(** [LIST_REMOVE(node,vn_byaddr)] for the nodes that have been removed from the tree. *)
Definition unlink (l removed : list vm_node) : list vm_node := filter (fun x => x ∉ removed) l.
(** Every call goes on with fewer nodes. *)
Definition vm_pop_nodes (k : bool) (lo hi mode tag : Z) : VM (list vm_node) :=
  v ← get_space k;
  r ← slift (impl_vm_pop_nodes (S (length (aelems (vm_map v)))) (vm_map v) [] lo hi VM_SEMI0 VM_LEVEL0 mode tag);
  set_space k (MkSpace (fst r) (unlink (vm_byaddr v) (snd r))) ≫= fun _ =>
  mret (snd r).

(** * Splitting and merging *)
Definition vm_plocate (k : bool) (page : Z) : VM (option (list branch * Z * Z)) := fun s =>
  slift (plocate_at VM_PAGE_BITS (vm_map (space s k)) page VM_SEMI0 VM_LEVEL0) s.
(** [*pnode] *)
Definition deref (k : bool) (p : list branch) : VM vm_node := fun s =>
  match slot_get (vm_map (space s k)) p with
  | Ret (ANode _ x _) => SRet x s
  | _ => SPanic
  end.
(** [vm_node_tree_pop_at(pnode,semi,level); LIST_REMOVE(node,vn_byaddr);] *)
Definition pop_node (k : bool) (p : list branch) (semi level : Z) : VM vm_node :=
  v ← get_space k;
  r ← slift (ppop_at VM_PAGE_BITS (vm_map v) p semi level);
  set_space k (MkSpace (snd r) (unlink (vm_byaddr v) [fst r])) ≫= fun _ =>
  mret (fst r).
Definition split_closure (node new_node : vm_node) : VM vm_node :=
  if vn_notify new_node =? 0 then mret new_node
  else
    closure ← INVOKE_NOTIFY;
    if closure =? VM_NOTIFY_SPLIT_FINCREF then
      closure ← INVOKE_NOTIFY; mret (with_closure new_node closure)
    else mret (with_closure new_node closure).
Definition vm_split_before (k : bool) (page_address : Z) : VM unit :=
  pnode ← vm_plocate k page_address;
  match pnode with
  | None => mret tt
  | Some (p, semi, level) =>
      node ← deref k p;
      if page_address =? VM_NODE_BEGIN node then mret tt
      else if flag (vn_flag node) VM_NODE_FIMMUTABLE then mret tt
      else
        scheck (page_address <? VM_NODE_END node) ≫= fun _ =>
        scheck (negb (page_address =? 0)) ≫= fun _ =>
        kmalloc_node ≫= fun _ =>
        pnode ← (if k then vm_plocate k page_address else mret pnode);
        match pnode with
        | None => scheck false
        | Some (p, semi, level) =>
            node' ← deref k p;
            scheck (bool_decide (node = node')) ≫= fun _ =>
            let split_offset := page_address - VM_NODE_BEGIN node in
            new_node ← split_closure node
              (MkNode page_address (a_vmax node) (vn_start node + split_offset) (vn_region node)
                 (vn_prot node) VM_NODE_FNORMAL (vn_notify node) (vn_closure node));
            pop_node k p semi level ≫= fun _ =>
            vm_region_incref (vn_region new_node) ≫= fun _ =>
            vm_insert_node k (with_range node (a_vmin node) (page_address - 1)) ≫= fun _ =>
            vm_insert_node k new_node
        end
  end.
(** The node in front of [next] in the list. *)
Fixpoint pred_of (next : vm_node) (l : list vm_node) : option vm_node :=
  match l with
  | x :: ((y :: _) as l') => if bool_decide (y = next) then Some x else pred_of next l'
  | _ => None
  end.
Definition replace_node (x y : vm_node) (l : list vm_node) : list vm_node :=
  map (fun z => if bool_decide (z = x) then y else z) l.
Definition can_merge (s : vst) (self next : vm_node) : bool :=
  (vn_prot self =? vn_prot next) && (vn_notify self =? vn_notify next) &&
  (vn_closure self =? vn_closure next) && (vn_region self =? vn_region next).
Definition vm_merge_before (k : bool) (page_address : Z) : VM unit :=
  s ← sget;
  if vm_disable_merging s then mret tt
  else
    pnext ← vm_plocate k page_address;
    match pnext with
    | None => mret tt
    | Some (p, semi, level) =>
        next ← deref k p;
        if negb (VM_NODE_BEGIN next =? page_address) then mret tt
        else
          match pred_of next (vm_byaddr (space s k)) with
          | None => mret tt
          | Some self =>
              if negb (VM_NODE_END self =? page_address) then mret tt
              else if negb (can_merge s self next) then mret tt
              else
                let region := vs_region s (vn_region self) in
                scheck (2 <=? vr_refcnt region) ≫= fun _ =>
                if negb (vn_start self + VM_NODE_SIZE self =? vn_start next) then mret tt
                else if flag (vr_flags region) VM_REGION_FDONTMERGE then mret tt
                else
                  (* the code passes [next_addr_level] for the center of the slot as well *)
                  r ← slift (ppop_at VM_PAGE_BITS (vm_map (space s k)) p level level);
                  scheck (bool_decide (fst r = next)) ≫= fun _ =>
                  r' ← slift (ATree.remove VM_PAGE_BITS (snd r) (page_address - 1));
                  scheck (bool_decide (fst r' = Some self)) ≫= fun _ =>
                  vm_region_decref (vn_region next) ≫= fun _ =>
                  let self' := with_range self (a_vmin self) (a_vmax next) in
                  t ← slift (ATree.insert VM_PAGE_BITS (snd r') self');
                  set_space k (MkSpace t (unlink (replace_node self self' (vm_byaddr (space s k))) [next]))
          end
    end.

(** * Protection *)
Fixpoint amap (f : vm_node -> vm_node) (t : atree vm_node) : atree vm_node :=
  match t with ANil => ANil | ANode l x r => ANode (amap f l) (f x) (amap f r) end.
(** [node->vn_prot = new_prot;], for the node that tree and list share. *)
Definition store_prot (k : bool) (node : vm_node) (prot : Z) : VM unit :=
  v ← get_space k;
  let f z := if bool_decide (z = node) then with_prot node prot else z in
  set_space k (MkSpace (amap f (vm_map v)) (map f (vm_byaddr v))).
Definition protect_node (k : bool) (node : vm_node) (lo hi mask fl mode tag : Z) : VM Z :=
  if in_range lo hi node && (negb (flag mode VM_PROTECT_TAG) || (vn_closure node =? tag)) then
    let new_prot := Z.lor (Z.land (vn_prot node) mask) fl in
    (if new_prot =? vn_prot node then mret tt
     else store_prot k node new_prot ≫= fun _ => vm_map_node (with_prot node new_prot)) ≫= fun _ =>
    mret (VM_NODE_SIZE node)
  else mret 0.
Fixpoint impl_vm_protect (k : bool) (t : atree vm_node) (lo hi semi level mask fl mode tag : Z) : VM Z :=
  match t with
  | ANil => mret 0
  | ANode l node r =>
      result ← protect_node k node lo hi mask fl mode tag;
      let walk_min := (lo <? semi) && nonnil l in
      let walk_max := (semi <=? hi) && nonnil r in
      let '(smin, lmin) := ATREE_WALKMIN VM_PAGE_BITS semi level in
      let '(smax, lmax) := ATREE_WALKMAX VM_PAGE_BITS semi level in
      if walk_min then
        more ← (if walk_max then impl_vm_protect k r lo hi smax lmax mask fl mode tag else mret 0);
        rest ← impl_vm_protect k l lo hi smin lmin mask fl mode tag;
        mret (u32 (result + more + rest))
      else if walk_max then
        rest ← impl_vm_protect k r lo hi smax lmax mask fl mode tag; mret (u32 (result + rest))
      else mret result
  end.
Definition range_checks (page num_pages : Z) : VM unit :=
  scheck (page <? u32 (page + num_pages)) ≫= fun _ =>
  scheck (u32 (page + num_pages) <=? VM_VPAGE_MAX + 1).
Definition vm_protect (page_index num_pages mask fl mode tag : Z) : VM Z :=
  if num_pages =? 0 then mret 0
  else
    range_checks page_index num_pages ≫= fun _ =>
    s ← sget;
    let k := effective s page_index in
    vm_acquire ≫= fun _ =>
    v ← get_space k;
    if nonnil (vm_map v) then
      vm_split_before k page_index ≫= fun _ =>
      vm_split_before k (page_index + num_pages) ≫= fun _ =>
      v ← get_space k;
      result ← impl_vm_protect k (vm_map v) page_index (page_index + num_pages - 1) VM_SEMI0 VM_LEVEL0
                 mask fl mode tag;
      vm_merge_before k (page_index + num_pages) ≫= fun _ =>
      vm_merge_before k page_index ≫= fun _ =>
      mret result
    else mret 0.

(** * Free ranges *)
Definition guard_gap (s : vst) (node : vm_node) (type gap : Z) : Z :=
  if vr_type (vs_region s (vn_region node)) =? type then gap else 0.
Definition check_free (s : vst) (candidate num_pages : Z) : outcome unit :=
  kassert (is_none (vm_getanynode s candidate (u32 (candidate + num_pages - 1)))).
(** [for (;;) ... iter = VM_NODE_PREV(iter);], with the nodes in front of [iter], the
    next one first. *)
Fixpoint getfree_below (s : vst) (iter : vm_node) (prevs : list vm_node) (num_pages align gap : Z)
    : outcome (option Z) :=
  let prev_end :=
    match prevs with
    | prev :: _ => u32 (VM_NODE_END prev + guard_gap s prev VM_REGION_HIGUARD gap)
    | [] => 0
    end in
  let candidate := u32 (VM_NODE_BEGIN iter - guard_gap s iter VM_REGION_HIGUARD gap) in
  if VM_NODE_BEGIN iter <? candidate then Ret None
  else
    let candidate := u32 (candidate - num_pages) in
    if VM_NODE_BEGIN iter <? candidate then Ret None
    else
      let candidate := FLOOR_ALIGN candidate align in
      if prev_end <=? candidate then
        check_free s candidate num_pages ≫= fun _ => Ret (Some candidate)
      else
        match prevs with
        | [] => Ret None
        | prev :: prevs => getfree_below s prev prevs num_pages align gap
        end.
Fixpoint getfree_above (s : vst) (k : bool) (iter : vm_node) (nexts : list vm_node)
    (num_pages align gap : Z) : outcome (option Z) :=
  let next_begin :=
    match nexts with
    | next :: _ => u32 (VM_NODE_BEGIN next - guard_gap s next VM_REGION_LOGUARD gap)
    | [] => 0
    end in
  let candidate :=
    CEIL_ALIGN (u32 (VM_NODE_END iter + guard_gap s iter VM_REGION_HIGUARD gap)) align in
  if (num_pages <=? u32 (next_begin - candidate)) &&
     (k || (u32 (candidate + num_pages) <=? KERNEL_BASE_PAGE)) then
    check_free s candidate num_pages ≫= fun _ => Ret (Some candidate)
  else
    match nexts with
    | [] => Ret None
    | next :: nexts => getfree_above s k next nexts num_pages align gap
    end.
(** The nodes before (the last one first) and after [node] in the list. *)
Fixpoint around (node : vm_node) (before l : list vm_node) : list vm_node * list vm_node :=
  match l with
  | [] => (before, [])
  | x :: l => if bool_decide (x = node) then (before, l) else around node (x :: before) l
  end.
(** The checks at the label [winner]. *)
Definition getfree_winner (s : vst) (k : bool) (candidate num_pages : Z) : outcome (option Z) :=
  let end_ := u32 (candidate + num_pages) in
  if end_ <? candidate then Ret None
  else if VM_VPAGE_MAX + 1 <? end_ then Ret None
  else if (if k then candidate <? KERNEL_BASE_PAGE else KERNEL_BASE_PAGE <=? end_) then Ret None
  else check_free s candidate num_pages ≫= fun _ => Ret (Some candidate).
Definition impl_vm_getfree (s : vst) (k : bool) (hint num_pages align gap : Z) (below : bool)
    : outcome (option Z) :=
  let page_max := u32 (hint + num_pages - 1) in
  if (page_max <? hint) || (VM_VPAGE_MAX <? page_max) then Ret None
  else
    let v := space s k in
    let info := vm_findnodes (MkInfo None None) (vm_map v) hint page_max VM_SEMI0 VM_LEVEL0 in
    match ni_min info, ni_max info with
    | None, None => Ret (Some hint)
    | Some mn, Some mx =>
        kassert (a_vmin mn <=? page_max) ≫= fun _ =>
        kassert (hint <=? a_vmax mx) ≫= fun _ =>
        (if below then let '(prevs, _) := around mn [] (vm_byaddr v) in getfree_below s mn prevs num_pages align gap
         else let '(_, nexts) := around mx [] (vm_byaddr v) in getfree_above s k mx nexts num_pages align gap)
          ≫= fun o =>
        match o with
        | None => Ret None
        | Some candidate => getfree_winner s k candidate num_pages
        end
    | _, _ => Panic
    end.
(** From [retry] on; [gap] is dismissed once. *)
Definition getfree_search (s : vst) (k : bool) (hint num_pages align gap mode : Z) : outcome (option Z) :=
  let below := flag mode VM_GETFREE_FBELOW in
  impl_vm_getfree s k hint num_pages align gap below ≫= fun o =>
  match o with
  | Some result => Ret (Some result)
  | None =>
      if flag mode VM_GETFREE_FSTRICT then Ret None
      else impl_vm_getfree s k hint num_pages align gap (negb below)
  end.
(** [effective_vm] of the hint. *)
Definition getfree_vm (s : vst) (hint mode : Z) : bool :=
  if (hint <? KERNEL_BASE_PAGE) || ((hint =? KERNEL_BASE_PAGE) && flag mode VM_GETFREE_FBELOW)
  then vs_this s else true.
(** An empty address space, or an empty range. *)
Definition getfree_empty (k : bool) (hint num_pages mode : Z) : option Z :=
  let end_ := u32 (hint + num_pages) in
  if (end_ <? hint) || (VM_VPAGE_MAX + 1 <? end_) then
    if flag mode VM_GETFREE_FSTRICT && negb (flag mode VM_GETFREE_FBELOW) then None
    else
      let hint := VM_VPAGE_MAX + 1 - num_pages in
      if (if k then hint <? KERNEL_BASE_PAGE else KERNEL_BASE_PAGE <=? hint + num_pages) then None
      else Some hint
  else Some hint.
Definition getfree_at (s : vst) (hint num_pages align gap mode : Z) : outcome Z :=
  let k := getfree_vm s hint mode in
  (if VM_VPAGE_MAX + 1 <? num_pages then Ret None
   else if (num_pages =? 0) || negb (nonnil (vm_map (space s k))) then
     Ret (getfree_empty k hint num_pages mode)
   else
     getfree_search s k hint num_pages align gap mode ≫= fun o =>
     match o with
     | Some result => Ret (Some result)
     | None =>
         if negb (flag mode VM_GETFREE_FFORCEGAP) && negb (gap =? 0) then
           getfree_search s k hint num_pages align 0 mode
         else Ret None
     end) ≫= fun o =>
  match o with
  | None => Throw E_BADALLOC
  | Some result => check_free s result num_pages ≫= fun _ => Ret result
  end.
Definition vm_getfree (s : vst) (hint num_pages align gap mode : Z) : outcome Z :=
  if flag mode VM_GETFREE_FBELOW then
    if hint <? num_pages then
      if hint =? 0 then getfree_at s (u32 (VM_VPAGE_MAX + 1 - num_pages)) num_pages align gap mode
      else if flag mode VM_GETFREE_FSTRICT then Throw E_BADALLOC
      else getfree_at s 0 num_pages align gap (Z.land mode VM_GETFREE_FBELOW)
    else getfree_at s (hint - num_pages) num_pages align gap mode
  else getfree_at s hint num_pages align gap mode.

(** * Unmapping *)
(** [for (; iter; iter = iter->vn_byaddr.le_next) step(iter);] within a [TRY]: how many
    nodes have been processed, and the error that ended the loop. *)
Fixpoint each (step : vm_node -> VM unit) (nodes : list vm_node) : VM (nat * option error_code) :=
  match nodes with
  | [] => mret (0%nat, None)
  | iter :: nodes =>
      r ← scatch (step iter ≫= fun _ => mret None) (fun e => mret (Some e));
      match r with
      | Some e => mret (0%nat, Some e)
      | None => r ← each step nodes; mret (S (fst r), snd r)
      end
  end.
(** [result += VM_NODE_SIZE(iter)] *)
Definition sum_sizes (nodes : list vm_node) : Z := foldl (fun n x => u32 (n + VM_NODE_SIZE x)) 0 nodes.
Fixpoint insert_nodes (k : bool) (nodes : list vm_node) : VM unit :=
  match nodes with
  | [] => mret tt
  | node :: nodes => vm_insert_node k node ≫= fun _ => insert_nodes k nodes
  end.
Fixpoint drop_nodes (nodes : list vm_node) : VM unit :=
  match nodes with
  | [] => mret tt
  | node :: nodes =>
      vm_region_decref_range (vn_region node) (vn_start node) (VM_NODE_SIZE node) ≫= fun _ =>
      vm_region_decref (vn_region node) ≫= fun _ =>
      drop_nodes nodes
  end.
(** [TRY { vm_split_before(...) } CATCH (E_BADALLOC)]: false if the operation ends here. *)
Definition split_range (k : bool) (page num_pages mode : Z) : VM bool :=
  scatch (vm_split_before k page ≫= fun _ =>
          vm_split_before k (page + num_pages) ≫= fun _ => mret true)
    (fun e => if bool_decide (e = E_BADALLOC) && flag mode VM_UNMAP_NOEXCEPT then mret false else sthrow e).
(** The popped nodes go back when the page tables throw; the pages that have been
    unmapped are mapped again, and an error of that is ignored. *)
Definition unmap_nodes (k : bool) (nodes : list vm_node) (mode : Z) : VM (Z * list vm_node) :=
  r ← each (fun _ => pagedir_map) nodes;
  match snd r with
  | None => mret (sum_sizes nodes, nodes)
  | Some e =>
      each vm_map_node (take (fst r) nodes) ≫= fun _ =>
      insert_nodes k nodes ≫= fun _ =>
      if flag mode VM_UNMAP_NOEXCEPT then mret (0, []) else sthrow e
  end.
Definition vm_unmap (page num_pages mode tag : Z) : VM Z :=
  if num_pages =? 0 then mret 0
  else
    range_checks page num_pages ≫= fun _ =>
    s ← sget;
    let k := effective s page in
    vm_acquire ≫= fun _ =>
    go ← split_range k page num_pages mode;
    if (go : bool) then
      nodes ← vm_pop_nodes k page (page + num_pages - 1) mode tag;
      r ← unmap_nodes k nodes mode;
      drop_nodes (snd r) ≫= fun _ =>
      mret (fst r)
    else mret 0.

(** * Mapping *)
Definition notify_incref (node : vm_node) : VM vm_node :=
  if vn_notify node =? 0 then mret node
  else closure ← INVOKE_NOTIFY; mret (with_closure node closure).
(** [TRY m EXCEPT { h; error_rethrow(); }] *)
Definition on_error {A} (m : VM A) (h : VM unit) : VM A := scatch m (fun e => h ≫= fun _ => sthrow e).
(** Replacing what the range of the node maps; the nodes that are gone. *)
Definition replace_range (k : bool) (node : vm_node) : VM (list vm_node) :=
  vm_split_before k (a_vmin node) ≫= fun _ =>
  vm_split_before k (a_vmax node + 1) ≫= fun _ =>
  nodes ← vm_pop_nodes k (a_vmin node) (a_vmax node) VM_UNMAP_NORMAL 0;
  on_error
    (vm_insert_and_activate_node k node ≫= fun _ =>
     vm_merge_before k (a_vmin node) ≫= fun _ =>
     vm_merge_before k (a_vmax node + 1))
    (insert_nodes k nodes) ≫= fun _ =>
  mret nodes.
Definition inside_of (node x : vm_node) : bool := (a_vmin node <=? a_vmin x) && (a_vmax x <=? a_vmax node).
Definition vm_mapat (page_index num_pages region_start region prot notify closure : Z) : VM unit :=
  if num_pages =? 0 then mret tt
  else
    s ← sget;
    let k := effective s page_index in
    range_checks page_index num_pages ≫= fun _ =>
    scheck (region_start <=? u32 (region_start + num_pages)) ≫= fun _ =>
    scheck (u32 (region_start + num_pages) <=? vr_size (vs_region s region)) ≫= fun _ =>
    kmalloc_node ≫= fun _ =>
    node ← notify_incref (MkNode page_index (page_index + num_pages - 1) region_start region prot
                            VM_NODE_FNORMAL notify closure);
    vm_region_incref region ≫= fun _ =>
    on_error
      (vm_region_incref_range region region_start num_pages ≫= fun _ =>
       on_error
         (vm_acquire ≫= fun _ =>
          nodes ← replace_range k node;
          scheck (forallb (inside_of node) nodes) ≫= fun _ =>
          drop_nodes nodes)
         (vm_region_decref_range region region_start num_pages))
      (vm_region_decref region).
Definition vm_map_at_free (hint num_pages align gap mode region_start region prot notify closure : Z)
    : VM Z :=
  s ← sget;
  let k := getfree_vm s hint mode in
  scheck (negb (num_pages =? 0)) ≫= fun _ =>
  scheck (region_start <=? u32 (region_start + num_pages)) ≫= fun _ =>
  scheck (u32 (region_start + num_pages) <=? vr_size (vs_region s region)) ≫= fun _ =>
  kmalloc_node ≫= fun _ =>
  vm_acquire ≫= fun _ =>
  s ← sget;
  result ← slift (vm_getfree s hint num_pages align gap mode);
  node ← notify_incref (MkNode result (result + num_pages - 1) region_start region prot
                          VM_NODE_FNORMAL notify closure);
  vm_region_incref region ≫= fun _ =>
  on_error
    (vm_region_incref_range region region_start num_pages ≫= fun _ =>
     on_error
       (vm_insert_and_activate_node k node ≫= fun _ =>
        vm_merge_before k (a_vmin node) ≫= fun _ =>
        vm_merge_before k (a_vmax node + 1))
       (vm_region_decref_range region region_start num_pages))
    (vm_region_decref region) ≫= fun _ =>
  mret (u32 (result * 4096)).

(** * Moving mappings *)
Definition shift_node (d : Z) (x : vm_node) : vm_node := with_range x (u32 (a_vmin x + d)) (u32 (a_vmax x + d)).
Definition vm_maps_chprot (maps : list vm_node) (prot_mask prot_flag : Z) : list vm_node :=
  if (prot_mask =? 65535) && (prot_flag =? 0) then maps
  else map (fun x => with_prot x (Z.lor (Z.land (vn_prot x) prot_mask) prot_flag)) maps.
Definition vm_maps_delete (maps : list vm_node) : VM unit := drop_nodes maps.
(** [VM_EXTRACT_FULL]: whether the nodes, in the order of the list, are all of the range. *)
Fixpoint all_adjacent (iter : vm_node) (l : list vm_node) (last : Z) : bool :=
  match l with
  | [] => a_vmax iter =? last
  | next :: l => (a_vmax iter =? a_vmin next - 1) && all_adjacent next l last
  end.
Definition notify_v (node : vm_node) : VM unit :=
  if vn_notify node =? 0 then mret tt else INVOKE_NOTIFY ≫= fun _ => mret tt.
(** The nodes after the handler has restored addresses up to the one it failed at: the
    first [n] nodes had been made relative, [r] says how far the handler came. *)
Definition restored (nodes : list vm_node) (page_index : Z) (n : nat) (r : nat * option error_code)
    : list vm_node :=
  match snd r with
  | None => nodes
  | Some _ =>
      take (S (fst r)) nodes ++ map (shift_node (- page_index)) (drop (S (fst r)) (take n nodes)) ++ drop n nodes
  end.
Definition extract_nodes (k : bool) (nodes : list vm_node) (page_index : Z) : VM (list vm_node) :=
  r ← each (fun iter => notify_v iter ≫= fun _ => pagedir_map) nodes;
  match snd r with
  | None => mret (map (shift_node (- page_index)) nodes)
  | Some e =>
      r' ← each (fun temp => notify_v temp ≫= fun _ => vm_map_node temp) (take (fst r) nodes);
      insert_nodes k (restored nodes page_index (fst r) r') ≫= fun _ =>
      sthrow e
  end.
Definition vm_extract (page_index num_pages mode tag : Z) : VM (list vm_node) :=
  if num_pages =? 0 then mret []
  else
    range_checks page_index num_pages ≫= fun _ =>
    s ← sget;
    let k := effective s page_index in
    vm_acquire ≫= fun _ =>
    vm_split_before k page_index ≫= fun _ =>
    vm_split_before k (page_index + num_pages) ≫= fun _ =>
    nodes ← vm_pop_nodes k page_index (page_index + num_pages - 1) mode tag;
    if flag mode VM_EXTRACT_FULL then
      match nodes with
      | [] => scheck false ≫= fun _ => mret []
      | iter :: l =>
          if (a_vmin iter =? page_index) && all_adjacent iter l (page_index + num_pages - 1)
          then extract_nodes k nodes page_index
          else insert_nodes k nodes ≫= fun _ => mret []
      end
    else extract_nodes k nodes page_index.
(** [assert(next->vn_node.a_vmin > (iter->vn_node.a_vmax-page_index));] for each node that
    has a successor. *)
Fixpoint check_order (l : list vm_node) : outcome unit :=
  match l with
  | iter :: ((next :: _) as l') => kassert (a_vmax iter <? a_vmin next) ≫= fun _ => check_order l'
  | _ => Ret tt
  end.
Definition vm_restore (page_index : Z) (maps : list vm_node) : VM Z :=
  match last maps with
  | None => mret 0
  | Some iter =>
      slift (check_order maps) ≫= fun _ =>
      let num_pages := u32 (a_vmax iter + 1) in
      let nodes := map (shift_node page_index) maps in
      s ← sget;
      let k := effective s page_index in
      vm_acquire ≫= fun _ =>
      vm_unmap page_index num_pages VM_UNMAP_NORMAL 0 ≫= fun _ =>
      r ← each notify_v nodes;
      match snd r with
      | Some e =>
          r' ← each notify_v (take (fst r) nodes);
          sthrow (match snd r' with Some e' => e' | None => e end)
      | None => insert_nodes k nodes ≫= fun _ => mret num_pages
      end
  end.
Definition vm_remap (old_page_index num_pages new_page_index prot_mask prot_flag mode tag : Z) : VM Z :=
  maps ← vm_extract old_page_index num_pages mode tag;
  on_error (vm_restore new_page_index (vm_maps_chprot maps prot_mask prot_flag))
    (vm_maps_delete maps).
