(* ===== verification/VmInv.v ===== *)
(** The nodes of an address space: the invariant, searching, inserting, removing.

    The tree and the list of an address space hold the same nodes, which are disjoint
    and ordered in the list; each node lies within its region.  What an address space
    maps is a partial map from pages to pages of regions ([page_at]). *)
From S2P Require Import Prelude.
From stdpp Require Import list sorting sets.
From S2P Require Import ATree Vm.
#[local] Open Scope Z_scope.

Lemma bits_pos : 1 <= VM_PAGE_BITS.
Proof. done. Qed.
Abbreviation page_tree := (atree_ok VM_PAGE_BITS).

(** * Lists of nodes *)
Definition before (x y : vm_node) : Prop := a_vmax x < a_vmin y.
Definition ordered (l : list vm_node) : Prop := StronglySorted before l.
Definition fits (x : vm_node) : Prop := 0 <= a_vmin x <= a_vmax x /\ a_vmax x <= VM_VPAGE_MAX.
Lemma fits_node x : fits x <-> node_fits VM_PAGE_BITS x.
Proof. unfold fits, node_fits, VM_VPAGE_MAX, VM_PAGE_BITS. cbn. lia. Qed.
Lemma ordered_separated l : ordered l -> separated l.
Proof.
  induction 1 as [|x l _ IH Hx]; [done|]. split; [|done].
  eapply Forall_impl; [done|]. intros y Hy. left. exact Hy.
Qed.
Lemma separated_perm (l l' : list vm_node) : l ≡ₚ l' -> separated l -> separated l'.
Proof.
  induction 1 as [|x l l' Hp IH|x y l|l l' l'' _ IH1 _ IH2]; cbn; try done; [| |by auto].
  - intros [Hx Hl]. split; [by rewrite <- Hp|auto].
  - intros [[Hyx Hy]%Forall_cons [Hx Hl]]. split_and!; try done. constructor; [|done].
    unfold disjoint in *. lia.
Qed.
Lemma insert_byaddr_ok node l :
  ordered l -> Forall fits l -> fits node -> Forall (disjoint node) l ->
  exists l', insert_byaddr node l = Ret l' /\ l' ≡ₚ node :: l /\ ordered l'.
Proof.
  intros Ho Hf Hn. induction Ho as [|x l Ho IH Hx]; intros Hd; cbn.
  { exists [node]. split_and!; [done..|]. constructor; constructor. }
  apply Forall_cons in Hf as [Hfx Hf]. apply Forall_cons in Hd as [Hdx Hd].
  unfold disjoint, fits in *. cbn in Hdx. destruct (Z.ltb_spec (a_vmax x) (a_vmin node)) as [Hlt|Hge].
  - destruct (IH Hf Hd) as (l' & -> & Hp & Ho'). exists (x :: l'). split_and!; [done| |].
    + rewrite Hp. apply Permutation_swap.
    + constructor; [done|]. rewrite Hp. by constructor.
  - rewrite bind_kassert by lia. exists (node :: x :: l). split_and!; [done..|].
    constructor; [by constructor|]. constructor; [unfold before; lia|].
    rewrite Forall_forall in Hx, Hf |- *. intros y Hy. specialize (Hx y Hy). unfold before in *. lia.
Qed.
(** Removing nodes from a list. *)
Lemma ordered_unlink l removed : ordered l -> ordered (unlink l removed).
Proof.
  intros Ho. unfold unlink. induction Ho as [|x l Ho IH Hx]; [constructor|].
  rewrite filter_cons. destruct (decide _); [|done]. constructor; [done|].
  rewrite Forall_forall in Hx |- *. intros y [_ Hy]%list_elem_of_filter. by apply Hx.
Qed.
Lemma separated_NoDup (l : list vm_node) : separated l -> Forall fits l -> NoDup l.
Proof.
  induction l as [|x l IH]; cbn; [constructor|]. intros [Hx Hl] [Hfx Hf]%Forall_cons.
  constructor; [|auto]. intros Hin. rewrite Forall_forall in Hx. specialize (Hx x Hin).
  unfold disjoint, fits in *. cbn in Hx. lia.
Qed.
Lemma filter_none {A} (P : A -> Prop) `{forall x, Decision (P x)} l :
  Forall (fun x => ~ P x) l -> filter P l = [].
Proof. induction 1 as [|x l Hx _ IH]; [done|]. by rewrite filter_cons, decide_False. Qed.
Lemma unlink_perm l removed rest :
  NoDup l -> l ≡ₚ removed ++ rest -> unlink l removed ≡ₚ rest.
Proof.
  intros Hnd Hp. unfold unlink. rewrite Hp. rewrite Hp in Hnd. apply NoDup_app in Hnd as (_ & Hd & _).
  rewrite filter_app, filter_none, filter_all; [done|apply Forall_forall..]; naive_solver.
Qed.

(** * Searching *)
(** The nodes of a branch lie on one side of the center of the slot. *)
Lemma branch_sides l x r base semi level :
  slot_at VM_PAGE_BITS base semi level -> tree_wf (ANode l x r) base level ->
  (forall y, y ∈ aelems l -> a_vmax y < semi) /\ (forall y, y ∈ aelems r -> semi <= a_vmin y) /\
  (0 <= level \/ l = ANil /\ r = ANil).
Proof.
  intros Hat Hwf. pose proof Hat as (Hl & _ & _ & Hs & _).
  destruct (decide (level = -1)) as [->|Hne].
  { apply tree_wf_key in Hwf as [-> ->]. split_and!; [intros y Hy; by apply elem_of_nil in Hy..|]. by right. }
  destruct Hwf as (_ & Hwl & Hwr). rewrite Hs by lia. split_and!; [| |lia].
  - intros y Hy. apply tree_wf_elems in Hwl; [|lia]. rewrite list.Forall_forall in Hwl.
    specialize (Hwl y Hy) as [_ Hm]. cbn in Hm. by replace (level - 1 + 1) with level in Hm by lia.
  - intros y Hy. apply tree_wf_elems in Hwr; [|lia]. rewrite list.Forall_forall in Hwr.
    specialize (Hwr y Hy) as [Hm _]. cbn in Hm. lia.
Qed.
Lemma walk_slots base semi level :
  slot_at VM_PAGE_BITS base semi level -> 0 <= level ->
  exists smin smax, ATREE_WALKMIN VM_PAGE_BITS semi level = (smin, level - 1) /\
    ATREE_WALKMAX VM_PAGE_BITS semi level = (smax, level - 1) /\
    slot_at VM_PAGE_BITS base smin (level - 1) /\ slot_at VM_PAGE_BITS (base + 2 ^ level) smax (level - 1).
Proof.
  intros Hat Hl. destruct (slot_walkmin _ bits_pos _ _ _ Hat Hl) as (smin & H1 & H2).
  destruct (slot_walkmax _ bits_pos _ _ _ Hat Hl) as (smax & H3 & H4). by exists smin, smax.
Qed.
Definition found (lo hi : Z) (l : list vm_node) (o : option vm_node) : Prop :=
  match o with
  | Some x => x ∈ l /\ in_range lo hi x = true
  | None => forall x, x ∈ l -> in_range lo hi x = false
  end.
Lemma found_some lo hi (l l' : list vm_node) y :
  found lo hi l (Some y) -> l ⊆ l' -> found lo hi l' (Some y).
Proof. intros [Hy Hr] Hl. split; [by apply Hl|done]. Qed.
Lemma left_sub (x : vm_node) (l r : list vm_node) : l ⊆ x :: l ++ r.
Proof. intros z Hz. apply elem_of_cons. right. apply elem_of_app. by left. Qed.
Lemma right_sub (x : vm_node) (l r : list vm_node) : r ⊆ x :: l ++ r.
Proof. intros z Hz. apply elem_of_cons. right. apply elem_of_app. by right. Qed.
(** A branch that is not entered has no node of the range. *)
Lemma skip_branches l r lo hi semi :
  (forall y, y ∈ aelems l -> a_vmax y < semi) -> (forall y, y ∈ aelems r -> semi <= a_vmin y) ->
  ((lo <? semi) && nonnil l = false -> forall y, y ∈ aelems l -> in_range lo hi y = false) /\
  ((semi <=? hi) && nonnil r = false -> forall y, y ∈ aelems r -> in_range lo hi y = false).
Proof.
  intros Hsl Hsr. split; intros Hw y Hy; unfold in_range.
  - specialize (Hsl y Hy). destruct l; [by apply elem_of_nil in Hy|]. cbn in Hw. lia.
  - specialize (Hsr y Hy). destruct r; [by apply elem_of_nil in Hy|]. cbn in Hw. lia.
Qed.
Lemma findany_spec t lo hi base semi level :
  slot_at VM_PAGE_BITS base semi level -> tree_wf t base level ->
  found lo hi (aelems t) (impl_vm_findany t lo hi semi level).
Proof.
  revert base semi level. induction t as [|l IHl x r IHr]; intros base semi level Hat Hwf.
  { intros y Hy. by apply elem_of_nil in Hy. }
  destruct (branch_sides _ _ _ _ _ _ Hat Hwf) as (Hsl & Hsr & Hlv). cbn [impl_vm_findany aelems].
  destruct (in_range lo hi x) eqn:Hx; [split; [by left|done]|].
  destruct Hlv as [Hlv|[-> ->]].
  2: { rewrite !andb_false_r. do 2 case_match. intros y [->|Hy]%elem_of_cons; [done|by apply elem_of_nil in Hy]. }
  destruct (walk_slots _ _ _ Hat Hlv) as (smin & smax & -> & -> & Hmin & Hmax).
  destruct Hwf as (_ & Hwl & Hwr). specialize (IHl _ _ _ Hmin Hwl). specialize (IHr _ _ _ Hmax Hwr).
  destruct (skip_branches l r lo hi semi Hsl Hsr) as [Hnl Hnr].
  assert (Hno : (forall y, y ∈ aelems l -> in_range lo hi y = false) ->
    (forall y, y ∈ aelems r -> in_range lo hi y = false) -> found lo hi (x :: aelems l ++ aelems r) None).
  { intros H1 H2 y. rewrite elem_of_cons, elem_of_app. naive_solver. }
  destruct ((lo <? semi) && nonnil l), ((semi <=? hi) && nonnil r);
    try (destruct (impl_vm_findany r lo hi smax (level - 1)) as [y|]; [eapply found_some, right_sub; exact IHr|]);
    try (destruct (impl_vm_findany l lo hi smin (level - 1)) as [y|]; [eapply found_some, left_sub; exact IHl|]);
    auto.
Qed.
(** What [vm_findnodes] has noted of the nodes [l]: the first node of the range, twice. *)
Definition noted (lo hi : Z) (l : list vm_node) (info : node_info) : Prop :=
  match ni_min info, ni_max info with
  | None, None => forall x, x ∈ l -> in_range lo hi x = false
  | Some mn, Some mx =>
      mn ∈ l /\ in_range lo hi mn = true /\ mx ∈ l /\ in_range lo hi mx = true /\
      forall x, x ∈ l -> in_range lo hi x = true -> a_vmin mn <= a_vmin x /\ a_vmax mx <= a_vmax x
  | _, _ => False
  end.
Lemma noted_one lo hi l info x :
  noted lo hi l info -> noted lo hi (x :: l) (if in_range lo hi x then note_node info x else info).
Proof.
  unfold noted, note_node. intros Hn. destruct info as [[mn|] [mx|]]; cbn in *; try done.
  - destruct Hn as (H1 & H2 & H3 & H4 & H5). destruct (in_range lo hi x) eqn:Hx; cbn.
    + assert (Hle : forall y, y ∈ x :: l -> in_range lo hi y = true ->
        y = x \/ a_vmin mn <= a_vmin y /\ a_vmax mx <= a_vmax y).
      { intros y [->|Hy]%elem_of_cons Hry; [by left|right; auto]. }
      destruct (Z.ltb_spec (a_vmin x) (a_vmin mn)), (Z.ltb_spec (a_vmax x) (a_vmax mx)); cbn;
        (split_and!; try done; try (by left); try (by right));
        intros y Hy Hry; destruct (Hle y Hy Hry) as [->|?]; lia.
    + split_and!; try done; try (by right). intros y [->|Hy]%elem_of_cons Hry; [congruence|auto].
  - destruct (in_range lo hi x) eqn:Hx; cbn.
    + split_and!; try done; try (by left). intros y [->|Hy]%elem_of_cons Hry; [done|].
      by rewrite Hn in Hry.
    + intros y [->|Hy]%elem_of_cons; auto.
Qed.
Lemma noted_more lo hi l l' info :
  noted lo hi l info -> (forall y, y ∈ l' -> in_range lo hi y = false) -> noted lo hi (l' ++ l) info.
Proof.
  intros Hn Hl. induction l' as [|x l' IH]; [done|]. cbn.
  pose proof (noted_one lo hi (l' ++ l) info x (IH ltac:(intros; apply Hl; by right))) as H.
  rewrite Hl in H; [done|by left].
Qed.
Lemma noted_perm lo hi l l' info : l ≡ₚ l' -> noted lo hi l info -> noted lo hi l' info.
Proof.
  unfold noted. intros Hp Hn. destruct info as [[mn|] [mx|]]; cbn in *; try done.
  - rewrite <- Hp. destruct Hn as (? & ? & ? & ? & H). split_and!; try done. intros x. rewrite <- Hp. apply H.
  - intros x. rewrite <- Hp. apply Hn.
Qed.
Lemma findnodes_spec t lo hi base semi level info seen :
  slot_at VM_PAGE_BITS base semi level -> tree_wf t base level -> noted lo hi seen info ->
  noted lo hi (aelems t ++ seen) (vm_findnodes info t lo hi semi level).
Proof.
  revert base semi level info seen. induction t as [|l IHl x r IHr]; intros base semi level info seen Hat Hwf Hn.
  { done. }
  destruct (branch_sides _ _ _ _ _ _ Hat Hwf) as (Hsl & Hsr & Hlv). cbn [vm_findnodes aelems].
  apply (noted_one _ _ _ _ x) in Hn. set (info1 := if in_range lo hi x then _ else _) in *.
  destruct Hlv as [Hlv|[-> ->]]; [|rewrite !andb_false_r; by do 2 case_match].
  destruct (walk_slots _ _ _ Hat Hlv) as (smin & smax & -> & -> & Hmin & Hmax).
  destruct Hwf as (_ & Hwl & Hwr). destruct (skip_branches l r lo hi semi Hsl Hsr) as [Hnl Hnr].
  assert (Hright : noted lo hi (aelems r ++ x :: seen)
    (if (semi <=? hi) && nonnil r then vm_findnodes info1 r lo hi smax (level - 1) else info1)).
  { destruct ((semi <=? hi) && nonnil r); [by eapply IHr|]. apply noted_more; auto. }
  assert (Hall : forall i, noted lo hi (aelems l ++ aelems r ++ x :: seen) i ->
    noted lo hi ((x :: aelems l ++ aelems r) ++ seen) i).
  { intros i. apply noted_perm. by rewrite (app_assoc (aelems l)), <- Permutation_middle. }
  apply Hall. destruct ((lo <? semi) && nonnil l).
  - by eapply IHl.
  - destruct ((semi <=? hi) && nonnil r); apply noted_more; auto.
Qed.

(** * The invariant *)
Definition node_ok (rs : Z -> region) (x : vm_node) : Prop :=
  fits x /\ 0 <= vn_start x /\ vn_start x + VM_NODE_SIZE x <= vr_size (rs (vn_region x)).
Record space_ok (rs : Z -> region) (v : vspace) : Prop := {
  so_tree : page_tree (vm_map v);
  so_list : vm_byaddr v ≡ₚ aelems (vm_map v);
  so_order : ordered (vm_byaddr v);
  so_nodes : Forall (node_ok rs) (vm_byaddr v);
}.
Lemma nodes_fit rs l : Forall (node_ok rs) l -> Forall fits l.
Proof. intros H. eapply Forall_impl; [done|]. by intros x []. Qed.
Lemma space_separated rs v : space_ok rs v -> separated (vm_byaddr v).
Proof. intros []. by apply ordered_separated. Qed.
Lemma space_NoDup rs v : space_ok rs v -> NoDup (vm_byaddr v).
Proof. intros Hok. apply separated_NoDup; [by eapply space_separated|]. eapply nodes_fit, Hok. Qed.
Lemma space_findany rs v lo hi : space_ok rs v -> found lo hi (vm_byaddr v) (vm_findany v lo hi).
Proof.
  intros [[Hwf _] Hl _ _]. pose proof (findany_spec (vm_map v) lo hi 0 VM_SEMI0 VM_LEVEL0 (slot_at_root _ bits_pos) Hwf) as H.
  unfold vm_findany. destruct (impl_vm_findany _ _ _ _ _) as [x|]; cbn in *; setoid_rewrite Hl; done.
Qed.
Lemma disjoint_range x y : in_range (a_vmin x) (a_vmax x) y = false <-> disjoint x y.
Proof. unfold in_range, disjoint. cbn. lia. Qed.
(** ** Inserting *)
Lemma space_insert rs v node :
  space_ok rs v -> node_ok rs node -> Forall (disjoint node) (vm_byaddr v) ->
  exists t l, ATree.insert VM_PAGE_BITS (vm_map v) node = Ret t /\ insert_byaddr node (vm_byaddr v) = Ret l /\
    space_ok rs (MkSpace t l) /\ l ≡ₚ node :: vm_byaddr v.
Proof.
  intros [Ht Hl Ho Hn] Hnode Hd. pose proof (proj1 Hnode) as Hf.
  destruct (insert_ok _ bits_pos (vm_map v) node Ht) as (t & Et & Ht' & Hp).
  { by apply fits_node. } { by rewrite <- Hl. }
  destruct (insert_byaddr_ok node (vm_byaddr v) Ho (nodes_fit _ _ Hn) Hf Hd) as (l & El & Hpl & Ho').
  exists t, l. split_and!; try done. split; cbn; try done.
  - by rewrite Hpl, Hp, Hl.
  - rewrite Hpl. by constructor.
Qed.
Lemma nonnil_elems t : nonnil t = bool_decide (aelems t <> []).
Proof. by destruct t. Qed.
Lemma srun_get_space k s (Q : vspace -> vst -> Prop) R : Q (space s k) s -> srun (get_space k) s Q R.
Proof. done. Qed.
Lemma srun_set_space k v s (Q : unit -> vst -> Prop) R : Q tt (with_space s k v) -> srun (set_space k v) s Q R.
Proof. done. Qed.
Lemma srun_get {S} (s : S) (Q : S -> S -> Prop) R : Q s s -> srun sget s Q R.
Proof. done. Qed.
Lemma insert_node_ok k node s (Q : unit -> vst -> Prop) R :
  space_ok (vs_region s) (space s k) -> node_ok (vs_region s) node ->
  Forall (disjoint node) (vm_byaddr (space s k)) ->
  (forall v, space_ok (vs_region s) v -> vm_byaddr v ≡ₚ node :: vm_byaddr (space s k) -> Q tt (with_space s k v)) ->
  srun (vm_insert_node k node) s Q R.
Proof.
  intros Hok Hn Hd HQ. unfold vm_insert_node. apply srun_bind, srun_get. cbv zeta.
  pose proof Hn as ((Hf1 & Hf2) & Hs1 & Hs2). unfold VM_NODE_SIZE in *.
  apply srun_bind, srun_check; [lia|]. apply srun_bind, srun_check; [lia|].
  apply srun_bind, srun_check.
  { pose proof (space_findany _ _ (a_vmin node) (a_vmax node) Hok) as H.
    destruct (vm_findany _ _ _) as [x|]; [|done]. destruct H as [Hx Hr]. rewrite Forall_forall in Hd.
    specialize (Hd x Hx). apply disjoint_range in Hd. congruence. }
  apply srun_bind, srun_check; [unfold VM_NODE_SIZE; lia|]. apply srun_bind, srun_check; [unfold VM_NODE_SIZE; lia|].
  apply srun_bind, srun_check.
  { rewrite nonnil_elems, eqb_true_iff. apply bool_decide_ext. pose proof (so_list _ _ Hok) as Hl.
    split; intros Hne He; apply Hne; rewrite He in Hl; by apply Permutation_nil_r in Hl || by apply Permutation_nil_l in Hl. }
  destruct (space_insert _ _ _ Hok Hn Hd) as (t & l & Et & El & Hok' & Hp).
  apply srun_bind. eapply srun_lift; [done|]. apply srun_bind. eapply srun_lift; [done|].
  apply srun_set_space. by apply HQ.
Qed.
(** ** Removing *)
Definition selected (lo hi mode tag : Z) (x : vm_node) : bool :=
  in_range lo hi x && negb (flag mode VM_UNMAP_TAG && negb (vn_closure x =? tag)).
Definition may_pop (mode : Z) (x : vm_node) : Prop :=
  flag mode VM_UNMAP_IMMUTABLE = true \/ flag (vn_flag x) VM_NODE_FIMMUTABLE = false.
Definition popped (lo hi mode tag base level : Z) (t : atree vm_node) (res : list vm_node)
    (o : outcome (atree vm_node * list vm_node)) : Prop :=
  exists t' ps, o = Ret (t', ps ++ res) /\ tree_wf t' base level /\ aelems t ≡ₚ ps ++ aelems t' /\
    Forall (fun x => selected lo hi mode tag x = true) ps /\
    Forall (fun x => selected lo hi mode tag x = false) (aelems t').
Lemma unselected lo hi mode tag l :
  (forall y, y ∈ l -> in_range lo hi y = false) -> Forall (fun x => selected lo hi mode tag x = false) l.
Proof. intros H. apply Forall_forall. intros x Hx. unfold selected. by rewrite H. Qed.
Lemma pop_nodes_spec fuel t res lo hi base semi level mode tag :
  slot_at VM_PAGE_BITS base semi level -> tree_wf t base level -> separated (aelems t) ->
  (length (aelems t) < fuel)%nat ->
  Forall (fun x => selected lo hi mode tag x = true -> may_pop mode x) (aelems t) ->
  popped lo hi mode tag base level t res (impl_vm_pop_nodes fuel t res lo hi semi level mode tag).
Proof.
  revert t res base semi level. induction fuel as [|fuel IH]; intros t res base semi level Hat Hwf Hsep Hlen Hmp; [lia|].
  destruct t as [|l x r]; cbn [impl_vm_pop_nodes].
  { exists ANil, []. split_and!; done. }
  fold (selected lo hi mode tag x). cbn in Hlen. rewrite length_app in Hlen.
  destruct (selected lo hi mode tag x) eqn:Hx.
  { cbn in Hmp. apply Forall_cons in Hmp as [Hmx Hmp]. rewrite bind_kassert.
    2: { destruct (Hmx Hx) as [->| ->]; [done|]. by rewrite orb_true_r. }
    destruct (pop_at_spec _ bits_pos l x r base semi level Hat Hwf Hsep) as (t2 & -> & Hwf2 & Hp2).
    cbn. destruct Hsep as [_ Hsep2].
    destruct (IH t2 (x :: res) base semi level Hat Hwf2) as (t' & ps & -> & Hwf' & Hp' & Hs' & Hn').
    { eapply separated_perm; [by symmetry|]. done. } { rewrite Hp2, length_app. lia. } { by rewrite Hp2. }
    exists t', (ps ++ [x]). split_and!; try done.
    - by rewrite <- app_assoc.
    - cbn. rewrite <- Hp2, Hp'. rewrite <- app_assoc. cbn. by rewrite Permutation_middle.
    - apply Forall_app. split; [done|by constructor]. }
  destruct (branch_sides _ _ _ _ _ _ Hat Hwf) as (Hsl & Hsr & Hlv). 
  destruct Hlv as [Hlv|[-> ->]].
  2: { rewrite !andb_false_r. do 2 case_match. exists (ANode ANil x ANil), []. split_and!; try done. by constructor. }
  destruct (walk_slots _ _ _ Hat Hlv) as (smin & smax & -> & -> & Hmin & Hmax).
  destruct Hwf as (Hxs & Hwl & Hwr). destruct (skip_branches l r lo hi semi Hsl Hsr) as [Hnl Hnr].
  destruct Hsep as [_ (Hsepl & Hsepr & _)%separated_app]. apply Forall_cons in Hmp as [_ [Hml Hmr]%Forall_app].
  assert (HR : popped lo hi mode tag (base + 2 ^ level) (level - 1) r res
    (if (semi <=? hi) && nonnil r then impl_vm_pop_nodes fuel r res lo hi smax (level - 1) mode tag else Ret (r, res))).
  { destruct ((semi <=? hi) && nonnil r); [apply IH; try done; lia|].
    exists r, []. split_and!; try done. apply unselected. auto. }
  destruct HR as (r' & psr & Er & Hwr' & Hpr & Hsr' & Hnr'). destruct ((lo <? semi) && nonnil l) eqn:Hwm.
  - rewrite Er. cbn. destruct (IH l (psr ++ res) base smin (level - 1)) as (l' & psl & -> & Hwl' & Hpl & Hsl' & Hnl');
      try done; [lia|]. cbn. exists (ANode l' x r'), (psl ++ psr). split_and!; try done.
    + by rewrite app_assoc.
    + cbn. rewrite Hpl, Hpr. rewrite <- !Permutation_middle. constructor.
      rewrite <- !app_assoc. apply Permutation_app_head. by rewrite Permutation_app_swap_app.
    + apply Forall_app. by split.
    + constructor; [done|]. apply Forall_app. by split.
  - destruct ((semi <=? hi) && nonnil r); [rewrite Er|injection Er as <- Epsr]; cbn.
    + exists (ANode l x r'), psr. split_and!; try done.
      * cbn. rewrite Hpr. rewrite <- !Permutation_middle. constructor. by rewrite Permutation_app_swap_app.
      * constructor; [done|]. apply Forall_app. split; [apply unselected; auto|done].
    + exists (ANode l x r), []. split_and!; try done. constructor; [done|]. apply Forall_app.
      split; apply unselected; auto.
Qed.
Lemma pop_ok k lo hi mode tag s (Q : list vm_node -> vst -> Prop) R :
  space_ok (vs_region s) (space s k) ->
  Forall (fun x => selected lo hi mode tag x = true -> may_pop mode x) (vm_byaddr (space s k)) ->
  (forall v ps, space_ok (vs_region s) v -> vm_byaddr (space s k) ≡ₚ ps ++ vm_byaddr v ->
     Forall (fun x => selected lo hi mode tag x = true) ps ->
     Forall (fun x => selected lo hi mode tag x = false) (vm_byaddr v) -> Q ps (with_space s k v)) ->
  srun (vm_pop_nodes k lo hi mode tag) s Q R.
Proof.
  intros Hok Hmp HQ. pose proof Hok as [[Hwf Hsep] Hl Ho Hn]. unfold vm_pop_nodes.
  apply srun_bind, srun_get_space. set (t := vm_map (space s k)) in *.
  destruct (pop_nodes_spec (S (length (aelems t))) t [] lo hi 0 VM_SEMI0 VM_LEVEL0 mode tag)
    as (t' & ps & E & Hwf' & Hp & Hs & Hns); try done.
  { apply slot_at_root, bits_pos. } { lia. } { by rewrite <- Hl. }
  rewrite app_nil_r in E. apply srun_bind. eapply srun_lift; [exact E|]. apply srun_bind, srun_set_space, srun_ret.
  cbn [fst snd]. assert (Hu : unlink (vm_byaddr (space s k)) ps ≡ₚ aelems t').
  { apply unlink_perm; [by eapply space_NoDup|]. by rewrite Hl. }
  apply HQ; cbn; [|by rewrite Hu, Hl|done|by rewrite Hu].
  split; cbn; [|done|by apply ordered_unlink|].
  - split; [done|]. rewrite Hp in Hsep. by apply separated_app in Hsep as (_ & ? & _).
  - rewrite Hu. rewrite Hl, Hp in Hn. by apply Forall_app in Hn as [_ ?].
Qed.

(** * What is mapped *)
Definition content (x : vm_node) (q : Z) : Z * Z * Z := (vn_region x, vn_start x + (q - a_vmin x), vn_prot x).
Fixpoint page_at (l : list vm_node) (q : Z) : option (Z * Z * Z) :=
  match l with
  | [] => None
  | x :: l => if covers x q then Some (content x q) else page_at l q
  end.
Lemma page_at_none l q : page_at l q = None <-> forall x, x ∈ l -> covers x q = false.
Proof.
  induction l as [|x l IH]; cbn.
  - split; [|done]. intros _ x Hx. by apply elem_of_nil in Hx.
  - destruct (covers x q) eqn:Hc; [split; [done|]; intros H; rewrite H in Hc; [done|by left]|].
    rewrite IH. setoid_rewrite elem_of_cons. naive_solver.
Qed.
Lemma page_at_in l q x : separated l -> x ∈ l -> covers x q = true -> page_at l q = Some (content x q).
Proof.
  intros Hs Hx Hc. induction l as [|y l IH]; [by apply elem_of_nil in Hx|]. cbn.
  destruct Hs as [Hy Hs]. apply elem_of_cons in Hx as [->|Hx]; [by rewrite Hc|].
  destruct (covers y q) eqn:Hcy; [|by apply IH]. exfalso. rewrite Forall_forall in Hy. specialize (Hy x Hx).
  unfold disjoint, covers in *. cbn in *. lia.
Qed.
Lemma page_at_some l q c : page_at l q = Some c -> exists x, x ∈ l /\ covers x q = true /\ c = content x q.
Proof.
  induction l as [|y l IH]; [done|]. cbn. destruct (covers y q) eqn:Hc.
  - intros [= <-]. exists y. split_and!; [by left|done..].
  - intros (x & Hx & ?)%IH. exists x. split; [by right|done].
Qed.
(** Two lists of nodes that map the same. *)
Lemma page_at_ext l l' :
  separated l -> separated l' ->
  (forall x q, x ∈ l -> covers x q = true -> exists y, y ∈ l' /\ covers y q = true /\ content y q = content x q) ->
  (forall y q, y ∈ l' -> covers y q = true -> exists x, x ∈ l /\ covers x q = true) ->
  forall q, page_at l' q = page_at l q.
Proof.
  intros Hs Hs' H1 H2 q. destruct (page_at l q) as [c|] eqn:E.
  - destruct (page_at_some _ _ _ E) as (x & Hx & Hc & ->). destruct (H1 x q Hx Hc) as (y & Hy & Hcy & <-).
    by apply page_at_in.
  - apply page_at_none. intros y Hy. destruct (covers y q) eqn:Hc; [|done].
    destruct (H2 y q Hy Hc) as (x & Hx & Hcx). rewrite page_at_none in E. specialize (E x Hx). congruence.
Qed.
Lemma page_at_perm l l' q : l ≡ₚ l' -> separated l -> page_at l' q = page_at l q.
Proof.
  intros Hp Hs. apply page_at_ext; [done|by eapply separated_perm|..].
  - intros x q' Hx Hc. exists x. by rewrite <- Hp.
  - intros y q' Hy Hc. exists y. by rewrite Hp.
Qed.
Lemma page_at_app l l' q : page_at (l ++ l') q = match page_at l q with Some c => Some c | None => page_at l' q end.
Proof. induction l as [|x l IH]; [done|]. cbn. by destruct (covers x q). Qed.
(** ** References *)
(** How many of the nodes map the page [q] of the region [r], and how many map [r]. *)
Definition use (x : vm_node) (r q : Z) : Z :=
  if (vn_region x =? r) && (vn_start x <=? q) && (q <? vn_start x + VM_NODE_SIZE x) then 1 else 0.
Definition uses (l : list vm_node) (r q : Z) : Z := foldr (fun x n => use x r q + n) 0 l.
Definition maps_of (l : list vm_node) (r : Z) : Z := foldr (fun x n => (if vn_region x =? r then 1 else 0) + n) 0 l.
Lemma uses_cons x l r q : uses (x :: l) r q = use x r q + uses l r q.
Proof. done. Qed.
Lemma maps_cons x l r : maps_of (x :: l) r = (if vn_region x =? r then 1 else 0) + maps_of l r.
Proof. done. Qed.
Lemma uses_app l l' r q : uses (l ++ l') r q = uses l r q + uses l' r q.
Proof. induction l as [|x l IH]; cbn; [done|]. fold (uses (l ++ l') r q) (uses l r q). lia. Qed.
Lemma maps_app l l' r : maps_of (l ++ l') r = maps_of l r + maps_of l' r.
Proof. induction l as [|x l IH]; cbn; [done|]. fold (maps_of (l ++ l') r) (maps_of l r). lia. Qed.
Lemma uses_perm l l' r q : l ≡ₚ l' -> uses l r q = uses l' r q.
Proof. induction 1; cbn in *; unfold uses in *; cbn in *; lia. Qed.
Lemma maps_perm l l' r : l ≡ₚ l' -> maps_of l r = maps_of l' r.
Proof. induction 1; cbn in *; unfold maps_of in *; cbn in *; lia. Qed.
(** What an operation on the address space [k] keeps: the other address space, the
    regions apart from their counters, and on each page of a region the references that
    are not those of a node, unless the region leaks references, which become more; [X] are nodes out of the address space that still hold
    theirs. *)
Definition same_flags (x' x : region) : Prop :=
  Z.ldiff (vr_flags x') VM_REGION_FLEAKINGPARTS = Z.ldiff (vr_flags x) VM_REGION_FLEAKINGPARTS /\
  (leaking x' = false -> leaking x = false).
Lemma same_flags_trans x1 x2 x3 : same_flags x2 x1 -> same_flags x3 x2 -> same_flags x3 x1.
Proof. intros [? ?] [? ?]. split; [congruence|auto]. Qed.
Record vstep (k : bool) (s : vst) (X : list vm_node) (s' : vst) (X' : list vm_node) : Prop := {
  vt_other : space s' (negb k) = space s (negb k);
  vt_this : vs_this s' = vs_this s;
  vt_merging : vm_disable_merging s' = vm_disable_merging s;
  vt_region : forall r, vr_size (vs_region s' r) = vr_size (vs_region s r) /\
    vr_type (vs_region s' r) = vr_type (vs_region s r) /\ same_flags (vs_region s' r) (vs_region s r);
  vt_refs : forall r q,
    vr_refs (vs_region s r) q - uses (vm_byaddr (space s k)) r q - uses X r q <=
    vr_refs (vs_region s' r) q - uses (vm_byaddr (space s' k)) r q - uses X' r q;
  vt_exact : forall r q, leaking (vs_region s' r) = false ->
    vr_refs (vs_region s' r) q - uses (vm_byaddr (space s' k)) r q - uses X' r q =
    vr_refs (vs_region s r) q - uses (vm_byaddr (space s k)) r q - uses X r q;
  vt_refcnt : forall r,
    vr_refcnt (vs_region s' r) - maps_of (vm_byaddr (space s' k)) r - maps_of X' r =
    vr_refcnt (vs_region s r) - maps_of (vm_byaddr (space s k)) r - maps_of X r;
}.
Lemma vstep_refl k s X : vstep k s X s X.
Proof. by split. Qed.
(** An operation that leaks nothing. *)
Lemma vstep_exact k s X s' X' :
  space s' (negb k) = space s (negb k) -> vs_this s' = vs_this s -> vm_disable_merging s' = vm_disable_merging s ->
  (forall r, vr_size (vs_region s' r) = vr_size (vs_region s r) /\
     vr_type (vs_region s' r) = vr_type (vs_region s r) /\ vr_flags (vs_region s' r) = vr_flags (vs_region s r)) ->
  (forall r q, vr_refs (vs_region s' r) q - uses (vm_byaddr (space s' k)) r q - uses X' r q =
     vr_refs (vs_region s r) q - uses (vm_byaddr (space s k)) r q - uses X r q) ->
  (forall r, vr_refcnt (vs_region s' r) - maps_of (vm_byaddr (space s' k)) r - maps_of X' r =
     vr_refcnt (vs_region s r) - maps_of (vm_byaddr (space s k)) r - maps_of X r) -> vstep k s X s' X'.
Proof.
  intros H1 H2 H3 H4 H5 H6. split; try done.
  - intros r. destruct (H4 r) as (? & ? & Hf). split_and!; try done. unfold same_flags, leaking. by rewrite Hf.
  - intros r q. specialize (H5 r q). lia.
Qed.
Lemma vstep_trans k s X s1 X1 s2 X2 : vstep k s X s1 X1 -> vstep k s1 X1 s2 X2 -> vstep k s X s2 X2.
Proof.
  intros [H1 H2 H3 H4 H5 H5' H6] [G1 G2 G3 G4 G5 G5' G6]. split; try congruence.
  - intros r. destruct (H4 r) as (? & ? & ?), (G4 r) as (? & ? & ?). split_and!; [congruence..|by eapply same_flags_trans].
  - intros r q. specialize (H5 r q). specialize (G5 r q). lia.
  - intros r q Hl. rewrite (G5' r q Hl). apply H5'. by apply (G4 r).
Qed.
Lemma space_with s k v : space (with_space s k v) k = v.
Proof. by destruct k. Qed.
Lemma space_with_other s k v : space (with_space s k v) (negb k) = space s (negb k).
Proof. by destruct k. Qed.
(** Nodes are moved between the address space and [X]. *)
Lemma vstep_nodes k s X v X' :
  vm_byaddr v ++ X' ≡ₚ vm_byaddr (space s k) ++ X -> vstep k s X (with_space s k v) X'.
Proof.
  intros Hp. split; try done.
  - apply space_with_other.
  - intros r q. rewrite space_with. pose proof (uses_perm _ _ r q Hp) as H. rewrite !uses_app in H. cbn. lia.
  - intros r q _. rewrite space_with. pose proof (uses_perm _ _ r q Hp) as H. rewrite !uses_app in H. cbn. lia.
  - intros r. rewrite space_with. pose proof (maps_perm _ _ r Hp) as H. rewrite !maps_app in H. cbn. lia.
Qed.
Lemma space_ok_regions rs rs' v :
  (forall r, vr_size (rs' r) = vr_size (rs r)) -> space_ok rs v -> space_ok rs' v.
Proof.
  intros Hr [? ? ? Hn]. split; try done. eapply Forall_impl; [exact Hn|].
  intros x (? & ? & ?). unfold node_ok. by rewrite Hr.
Qed.
