(* ===== verification/VmOps.v ===== *)
(** Operations on address spaces: splitting, unmapping, mapping and protecting.

    Each operation keeps the invariant of the address space and the balance of the
    references, on every path; on success it changes what its range maps and nothing
    else, and when it throws before it has begun to change nodes, nothing. *)
From S2P Require Import Prelude.
From stdpp Require Import list sorting sets.
From S2P Require Import ATree Vm VmInv.
#[local] Open Scope Z_scope.

(** * The environment *)
(** Only the oracles have changed. *)
Record env (s s' : vst) : Prop := {
  ev_space : forall k, space s' k = space s k;
  ev_region : vs_region s' = vs_region s;
  ev_this : vs_this s' = vs_this s;
  ev_merging : vm_disable_merging s' = vm_disable_merging s;
}.
#[export] Instance env_refl : Reflexive env.
Proof. by split. Qed.
#[export] Instance env_trans : Transitive env.
Proof. intros s1 s2 s3 [] []. split; [|congruence..]. intros k. by rewrite <- ev_space0. Qed.
Lemma env_step k s s' X : env s s' -> vstep k s X s' X.
Proof. intros [He Hr ? ?]. split; try done; rewrite ?Hr, ?He; done. Qed.
Lemma request_run s (Q : unit -> vst -> Prop) (R : error_code -> vst -> Prop) :
  (forall s', env s s' -> Q tt s') -> (forall e s', env s s' -> R e s') -> srun request s Q R.
Proof.
  intros HQ HR. unfold srun, request. destruct (vs_oracle s 0%nat); [apply HR|apply HQ]; split; try done; by intros [].
Qed.
Lemma srun_notify s (Q : Z -> vst -> Prop) (R : error_code -> vst -> Prop) :
  (forall c s', env s s' -> Q c s') -> (forall e s', env s s' -> R e s') -> srun INVOKE_NOTIFY s Q R.
Proof.
  intros HQ HR. unfold INVOKE_NOTIFY. apply srun_bind. apply request_run; [|done]. intros s1 He.
  unfold srun, reply. apply HQ. etransitivity; [done|]. by split.
Qed.
(** The invariant and what is mapped, for an address space and regions. *)
Definition sok (s : vst) (k : bool) : Prop := space_ok (vs_region s) (space s k).
Definition nodes (s : vst) (k : bool) : list vm_node := vm_byaddr (space s k).
Definition pages (s : vst) (k : bool) (q : Z) : option (Z * Z * Z) := page_at (nodes s k) q.
Lemma env_sok s s' k : env s s' -> sok s k -> sok s' k.
Proof. intros [He Hr _ _]. unfold sok. by rewrite He, Hr. Qed.
Lemma env_nodes s s' k : env s s' -> nodes s' k = nodes s k.
Proof. intros [He _ _ _]. unfold nodes. by rewrite He. Qed.
Lemma vstep_sizes k s X s' X' r : vstep k s X s' X' -> vr_size (vs_region s' r) = vr_size (vs_region s r).
Proof. intros []. apply vt_region. Qed.
Lemma sok_separated s k : sok s k -> separated (nodes s k).
Proof. apply space_separated. Qed.
Lemma sok_fits s k x : sok s k -> x ∈ nodes s k -> fits x.
Proof. intros [_ _ _ Hn] Hx. rewrite Forall_forall in Hn. by destruct (Hn x Hx). Qed.

(** * Splitting *)
(** [x'] maps a part of what [x] maps. *)
Record part_of (x' x : vm_node) : Prop := {
  pa_min : a_vmin x <= a_vmin x';
  pa_max : a_vmax x' <= a_vmax x;
  pa_region : vn_region x' = vn_region x;
  pa_start : vn_start x' = vn_start x + (a_vmin x' - a_vmin x);
  pa_prot : vn_prot x' = vn_prot x;
  pa_notify : vn_notify x' = vn_notify x;
  pa_closure : vn_notify x = 0 -> vn_closure x' = vn_closure x;
  pa_flag : vn_flag x' = vn_flag x \/ vn_flag x' = VM_NODE_FNORMAL;
}.
#[export] Instance part_of_refl : Reflexive part_of.
Proof. intros x. split; try done; [lia|by left]. Qed.
#[export] Instance part_of_trans : Transitive part_of.
Proof.
  intros x y z [? ? ? ? ? ? Hc Hf] [? ? ? ? ? Hny ? Hf']. split; try congruence; try lia.
Qed.
Definition parts_of (l' l : list vm_node) : Prop := forall x', x' ∈ l' -> exists x, x ∈ l /\ part_of x' x.
Lemma node_parts_refl l : parts_of l l.
Proof. intros x Hx. by exists x. Qed.
Lemma parts_trans l1 l2 l3 : parts_of l1 l2 -> parts_of l2 l3 -> parts_of l1 l3.
Proof.
  intros H12 H23 x Hx. destruct (H12 x Hx) as (y & Hy & ?), (H23 y Hy) as (z & Hz & ?).
  exists z. split; [done|by etransitivity].
Qed.
Lemma part_covers x' x q : part_of x' x -> covers x' q = true -> covers x q = true.
Proof. intros [? ? _ _ _ _ _ _]. unfold covers. cbn. lia. Qed.
Lemma part_content x' x q : part_of x' x -> content x' q = content x q.
Proof. intros [_ _ Hr Hs Hp _ _ _]. unfold content. rewrite Hr, Hs, Hp. do 2 f_equal. lia. Qed.
Definition immutable (x : vm_node) : bool := flag (vn_flag x) VM_NODE_FIMMUTABLE.
Lemma part_mutable x' x : part_of x' x -> immutable x = false -> immutable x' = false.
Proof. intros [_ _ _ _ _ _ _ [Hf|Hf]] Hi; unfold immutable in *; by rewrite Hf. Qed.
(** No node extends over the border before [page], unless it may not be split. *)
Definition cut (l : list vm_node) (page : Z) : Prop :=
  forall x, x ∈ l -> covers x page = true -> a_vmin x = page \/ immutable x = true.
Lemma cut_parts l l' page :
  cut l page -> parts_of l' l -> (forall x, x ∈ l -> covers x page = true -> immutable x = false) -> cut l' page.
Proof.
  intros Hc Hp Hi x' Hx' Hcov. destruct (Hp x' Hx') as (x & Hx & Hpa).
  pose proof (part_covers _ _ _ Hpa Hcov) as Hcx.
  destruct (Hc x Hx Hcx) as [Hm|Hm]; [|by rewrite Hi in Hm].
  left. destruct Hpa as [? _ _ _ _ _ _ _]. unfold covers in Hcov. cbn in Hcov. lia.
Qed.
(** What splitting does to the nodes. *)
Record split_to (k : bool) (s s' : vst) : Prop := {
  sp_ok : sok s' k;
  sp_step : vstep k s [] s' [];
  sp_pages : forall q, pages s' k q = pages s k q;
  sp_parts : parts_of (nodes s' k) (nodes s k);
}.
Lemma split_to_refl k s s' : sok s k -> env s s' -> split_to k s s'.
Proof.
  intros Hok He. split; [by eapply env_sok|by apply env_step|..]; unfold pages; rewrite (env_nodes _ _ _ He); [done|].
  apply node_parts_refl.
Qed.
Lemma split_to_trans k s s1 s2 : split_to k s s1 -> split_to k s1 s2 -> split_to k s s2.
Proof.
  intros [? ? H1 P1] [? ? H2 P2]. split; [done|by eapply vstep_trans| |by eapply parts_trans].
  intros q. by rewrite H2.
Qed.
(** The two halves of a node. *)
Lemma split_use x lo hi page r q :
  a_vmin x < page <= a_vmax x -> a_vmin lo = a_vmin x -> a_vmax lo = page - 1 -> vn_start lo = vn_start x ->
  vn_region lo = vn_region x -> a_vmin hi = page -> a_vmax hi = a_vmax x ->
  vn_start hi = vn_start x + (page - a_vmin x) -> vn_region hi = vn_region x ->
  use lo r q + use hi r q = use x r q.
Proof.
  intros Hp H1 H2 H3 H4 H5 H6 H7 H8. unfold use, VM_NODE_SIZE. rewrite H1, H2, H3, H4, H5, H6, H7, H8.
  destruct (vn_region x =? r); cbn; [|done]. repeat (case_match; try lia).
Qed.
Lemma split_closure_ok node new s (Q : vm_node -> vst -> Prop) (R : error_code -> vst -> Prop) :
  (forall c s', env s s' -> (vn_notify new = 0 -> c = vn_closure new) -> Q (with_closure new c) s') ->
  (forall e s', env s s' -> R e s') -> srun (split_closure node new) s Q R.
Proof.
  intros HQ HR. unfold split_closure. destruct (Z.eqb_spec (vn_notify new) 0) as [H0|H0].
  { apply srun_ret. replace new with (with_closure new (vn_closure new)) at 1 by (by destruct new). by apply HQ. }
  apply srun_bind, srun_notify; [|done]. intros c s1 He1. case_match.
  - apply srun_bind, srun_notify; [|intros e s2 He2; apply HR; by etransitivity]. intros c' s2 He2. apply srun_ret, HQ; [|done].
    by etransitivity.
  - apply srun_ret. by apply HQ.
Qed.
Lemma srun_refcnt r d s (Q : unit -> vst -> Prop) R :
  (forall s', (forall k, space s' k = space s k) -> vs_this s' = vs_this s -> vm_disable_merging s' = vm_disable_merging s ->
     (forall i, vr_size (vs_region s' i) = vr_size (vs_region s i) /\
        vr_type (vs_region s' i) = vr_type (vs_region s i) /\ vr_flags (vs_region s' i) = vr_flags (vs_region s i) /\
        (forall q, vr_refs (vs_region s' i) q = vr_refs (vs_region s i) q) /\
        vr_refcnt (vs_region s' i) = vr_refcnt (vs_region s i) + if r =? i then d else 0) -> Q tt s') ->
  srun (add_refcnt r d) s Q R.
Proof.
  intros HQ. unfold srun, add_refcnt. apply HQ; try done. intros i. cbn.
  destruct (Z.eqb_spec i r) as [->|]; cbn; [rewrite Z.eqb_refl; by split_and!|].
  replace (r =? i) with false by lia. split_and!; try done. lia.
Qed.
(** The slot of the node that covers a page. *)
Definition slot_of (s : vst) (k : bool) (page : Z) (p : list branch) (semi level : Z) (x : vm_node) : Prop :=
  points_to VM_PAGE_BITS (vm_map (space s k)) 0 VM_LEVEL0 page p semi level /\
  (exists l r, slot_get (vm_map (space s k)) p = Ret (ANode l x r)) /\
  x ∈ nodes s k /\ covers x page = true.
Lemma plocate_run s k page (Q : option (list branch * Z * Z) -> vst -> Prop) R :
  sok s k -> 0 <= page <= VM_VPAGE_MAX ->
  ((forall x, x ∈ nodes s k -> covers x page = false) -> Q None s) ->
  (forall p semi level x, slot_of s k page p semi level x -> Q (Some (p, semi, level)) s) ->
  srun (vm_plocate k page) s Q R.
Proof.
  intros Hok Hp HN HS. pose proof Hok as [Ht Hl _ _]. unfold vm_plocate.
  destruct (plocate_ok _ bits_pos (vm_map (space s k)) page Ht) as (o & E & Ho).
  { unfold VM_VPAGE_MAX, VM_PAGE_BITS in *. lia. }
  unfold srun. unfold VM_SEMI0, VM_LEVEL0. rewrite E. cbn. unfold nodes in *. destruct o as [[[p semi] level]|].
  - pose proof Ho as (b & l & x & r & rest & Hg & Hc & _ & _ & Hpm & _). apply (HS p semi level x).
    split_and!; [done|by exists l, r| |done]. unfold nodes. rewrite Hl, Hpm. by left.
  - apply HN. intros x. rewrite Hl. apply Ho.
Qed.
Lemma deref_run s k page p semi level x (Q : vm_node -> vst -> Prop) R :
  slot_of s k page p semi level x -> Q x s -> srun (deref k p) s Q R.
Proof. intros (_ & (l & r & E) & _) HQ. unfold srun, deref. by rewrite E. Qed.
Lemma slot_env s s' k page p semi level x :
  env s s' -> slot_of s k page p semi level x -> slot_of s' k page p semi level x.
Proof. intros [He _ _ _]. unfold slot_of, nodes. by rewrite He. Qed.
Lemma slot_fun s k page p semi level x p' semi' level' x' :
  sok s k -> slot_of s k page p semi level x -> slot_of s k page p' semi' level' x' -> x' = x.
Proof.
  intros Hok (_ & _ & Hx & Hc) (_ & _ & Hx' & Hc').
  by apply (covers_unique (nodes s k) x' x page (sok_separated _ _ Hok)).
Qed.
Lemma pop_node_run s k page p semi level x (Q : vm_node -> vst -> Prop) R :
  sok s k -> slot_of s k page p semi level x ->
  (forall v, space_ok (vs_region s) v -> nodes s k ≡ₚ x :: vm_byaddr v -> Q x (with_space s k v)) ->
  srun (pop_node k p semi level) s Q R.
Proof.
  intros Hok (Hpt & _ & Hx & Hc) HQ. pose proof Hok as [Ht Hl Ho Hn]. unfold pop_node.
  destruct (ppop_ok _ bits_pos _ _ _ _ _ Ht Hpt) as (y & t' & E & Hcy & Ht' & Hp).
  assert (y = x) as ->.
  { apply (covers_unique (nodes s k) y x page (sok_separated _ _ Hok)); try done. unfold nodes. rewrite Hl, Hp. by left. }
  apply srun_bind, srun_get_space, srun_bind. eapply srun_lift; [done|]. cbn [fst snd].
  apply srun_bind, srun_set_space, srun_ret.
  assert (Hu : unlink (nodes s k) [x] ≡ₚ aelems t').
  { apply unlink_perm; [by eapply space_NoDup|]. unfold nodes. by rewrite Hl. }
  apply HQ; cbn; [split; cbn; [done|done|by apply ordered_unlink|]|unfold nodes in *; by rewrite Hu, Hl].
  rewrite Hu. rewrite Hl, Hp in Hn. by apply Forall_cons in Hn as [_ ?].
Qed.
(** A node in the address space again, or for the first time. *)
Lemma insert_run s0 s k node X (Q : unit -> vst -> Prop) R :
  sok s k -> vstep k s0 [] s (node :: X) -> node_ok (vs_region s) node -> Forall (disjoint node) (nodes s k) ->
  (forall s', sok s' k -> vstep k s0 [] s' X -> vs_region s' = vs_region s -> vm_disable_merging s' = vm_disable_merging s ->
     nodes s' k ≡ₚ node :: nodes s k -> Q tt s') ->
  srun (vm_insert_node k node) s Q R.
Proof.
  intros Hok Hst Hn Hd HQ. apply insert_node_ok; [done..|]. intros v Hv Hp. apply HQ.
  - unfold sok. by rewrite space_with.
  - eapply vstep_trans; [exact Hst|]. apply vstep_nodes. rewrite Hp. cbn. apply Permutation_middle.
  - done.
  - done.
  - unfold nodes. by rewrite space_with.
Qed.
Lemma split_halves_ok s0 s k x page new :
  sok s k -> vstep k s0 [] s [with_range x (a_vmin x) (page - 1); new] -> node_ok (vs_region s) x ->
  Forall (disjoint x) (nodes s k) -> a_vmin x < page <= a_vmax x -> part_of new x -> a_vmin new = page ->
  a_vmax new = a_vmax x ->
  srun (vm_insert_node k (with_range x (a_vmin x) (page - 1)) ≫= fun _ => vm_insert_node k new) s
    (fun _ s' => sok s' k /\ vstep k s0 [] s' [] /\
       nodes s' k ≡ₚ new :: with_range x (a_vmin x) (page - 1) :: nodes s k) (fun _ _ => False).
Proof.
  intros Hok Hst Hn Hd Hp Hpa Hnm Hnx. destruct Hn as (Hf & Hs0 & Hs1). destruct Hpa as [_ _ Hr Hst' _ _ _ _].
  unfold fits, VM_NODE_SIZE in *. apply srun_bind. eapply insert_run; [done|done|..].
  - split_and!; unfold fits, VM_NODE_SIZE; cbn; lia.
  - eapply Forall_impl; [exact Hd|]. intros y. unfold disjoint. cbn. lia.
  - intros s1 Hok1 Hst1 Hr1 _ Hp1. eapply insert_run; [done|done|..].
    + rewrite Hr1. split_and!; unfold fits, VM_NODE_SIZE; rewrite ?Hr; cbn; lia.
    + rewrite Hp1. constructor; [unfold disjoint; cbn; lia|]. eapply Forall_impl; [exact Hd|].
      intros y. unfold disjoint. cbn. lia.
    + intros s2 Hok2 Hst2 _ _ Hp2. split_and!; [done..|]. by rewrite Hp2, Hp1.
Qed.
(** Splitting a node and counting the new one as a user of its region. *)
Lemma split_incref s0 s x page new r k :
  vstep k s0 [] s [x] -> a_vmin x < page <= a_vmax x -> part_of new x -> a_vmin new = page -> a_vmax new = a_vmax x ->
  r = vn_region new -> sok s k ->
  srun (vm_region_incref r) s
    (fun _ s' => sok s' k /\ vstep k s0 [] s' [with_range x (a_vmin x) (page - 1); new] /\ nodes s' k = nodes s k /\
       (forall i, vr_size (vs_region s' i) = vr_size (vs_region s i))) (fun _ _ => False).
Proof.
  intros Hst Hp [_ _ Hr Hs _ _ _ _] Hnm Hnx -> Hok. apply srun_refcnt. intros s' Hsp Hth Hmg Hreg.
  unfold sok, nodes. rewrite Hsp. split_and!; [|eapply vstep_trans; [exact Hst|]|done|intros i; apply Hreg].
  - eapply space_ok_regions; [|exact Hok]. intros i. apply Hreg.
  - apply vstep_exact; [apply Hsp|done..| |intros i q|intros i]; [intros i; by destruct (Hreg i) as (? & ? & ? & _)| |]; rewrite Hsp.
    + destruct (Hreg i) as (_ & _ & _ & -> & _). cbn. 
      pose proof (split_use x (with_range x (a_vmin x) (page - 1)) new page i q Hp) as H.
      rewrite <- H; try done; cbn; [lia|congruence]. 
    + destruct (Hreg i) as (_ & _ & _ & _ & ->). cbn. rewrite Hr. destruct (vn_region x =? i); lia.
Qed.
Lemma halves_pages l x page new rest l' :
  separated l -> separated l' -> l ≡ₚ x :: rest -> l' ≡ₚ new :: with_range x (a_vmin x) (page - 1) :: rest ->
  a_vmin x < page <= a_vmax x -> part_of new x -> a_vmin new = page -> a_vmax new = a_vmax x ->
  parts_of l' l /\ forall q, page_at l' q = page_at l q.
Proof.
  intros Hs Hs' Hl Hl' Hp Hpa Hnm Hnx.
  assert (Hlow : part_of (with_range x (a_vmin x) (page - 1)) x) by (split; cbn; try done; try lia; by left).
  assert (Hparts : parts_of l' l).
  { intros y. rewrite Hl'. setoid_rewrite Hl. intros [->|[->|Hy]%elem_of_cons]%elem_of_cons;
      [exists x; split; [by left|done]..|exists y; split; [by right|done]]. }
  split; [done|]. apply page_at_ext; [done..| |].
  - intros y q. rewrite Hl. setoid_rewrite Hl'. intros [->|Hy]%elem_of_cons Hc.
    + destruct (decide (q < page)).
      * exists (with_range x (a_vmin x) (page - 1)). split_and!; [right; by left| |by apply part_content].
        unfold covers in *. cbn in *. lia.
      * exists new. split_and!; [by left| |by apply part_content]. unfold covers in *. cbn in *. lia.
    + exists y. split_and!; [right; by right|done..].
  - intros y q Hy Hc. destruct (Hparts y Hy) as (z & Hz & Hzp). exists z. split; [done|by eapply part_covers].
Qed.
Lemma vm_split_ok k page s :
  sok s k -> 0 <= page <= VM_VPAGE_MAX ->
  srun (vm_split_before k page) s (fun _ s' => split_to k s s' /\ cut (nodes s' k) page) (fun _ s' => split_to k s s').
Proof.
  intros Hok Hpg. unfold vm_split_before. apply srun_bind, plocate_run; [done..| |].
  { intros Hno. apply srun_ret. split; [by apply split_to_refl|]. intros x Hx Hc. by rewrite Hno in Hc. }
  intros p semi level x Hsl. pose proof Hsl as (_ & _ & Hx & Hc). apply srun_bind. eapply deref_run; [done|].
  assert (Honly : forall y, y ∈ nodes s k -> covers y page = true -> y = x).
  { intros y Hy Hcy. by apply (covers_unique (nodes s k) y x page (sok_separated _ _ Hok)). }
  unfold covers in Hc. cbn in Hc. unfold VM_NODE_BEGIN, VM_NODE_END.
  destruct (Z.eqb_spec page (a_vmin x)) as [Hb|Hb].
  { apply srun_ret. split; [by apply split_to_refl|]. intros y Hy Hcy. left. by rewrite (Honly y Hy Hcy). }
  destruct (flag (vn_flag x) VM_NODE_FIMMUTABLE) eqn:Him.
  { apply srun_ret. split; [by apply split_to_refl|]. intros y Hy Hcy. right. by rewrite (Honly y Hy Hcy). }
  pose proof (sok_fits _ _ _ Hok Hx) as Hfx. unfold fits in Hfx.
  apply srun_bind, srun_check; [lia|]. apply srun_bind, srun_check; [lia|].
  apply srun_bind, request_run; [|intros e s1 He1; by apply split_to_refl]. intros s1 He1.
  pose proof (env_sok _ _ _ He1 Hok) as Hok1. pose proof (slot_env _ _ _ _ _ _ _ _ He1 Hsl) as Hsl1.
  assert (Hgo : forall p semi level x', slot_of s1 k page p semi level x' -> srun
    (node' ← deref k p; scheck (bool_decide (x = node')) ≫= fun _ =>
     new_node ← split_closure x (MkNode page (a_vmax x) (vn_start x + (page - a_vmin x)) (vn_region x)
                 (vn_prot x) VM_NODE_FNORMAL (vn_notify x) (vn_closure x));
     pop_node k p semi level ≫= fun _ => vm_region_incref (vn_region new_node) ≫= fun _ =>
     vm_insert_node k (with_range x (a_vmin x) (page - 1)) ≫= fun _ => vm_insert_node k new_node) s1
    (fun _ s' => split_to k s s' /\ cut (nodes s' k) page) (fun _ s' => split_to k s s')).
  2: { destruct k; [|by apply srun_bind, srun_ret, (Hgo p semi level x)]. apply srun_bind, plocate_run; [done..| |].
       - intros Hno. destruct Hsl1 as (_ & _ & Hx1 & Hc1). rewrite Hno in Hc1; done.
       - intros p' semi' level' x'. apply Hgo. }
  clear p semi level Hsl Hsl1. intros p semi level x' Hsl. 
  assert (x' = x) as ->.
  { destruct Hsl as (_ & _ & Hx' & Hc'). rewrite (env_nodes _ _ _ He1) in Hx'. by apply Honly. }
  apply srun_bind. eapply deref_run; [done|]. apply srun_bind, srun_check; [by apply bool_decide_eq_true|].
  apply srun_bind, split_closure_ok; [|intros e s2 He2; apply split_to_refl; [done|by etransitivity]].
  intros c s2 He2 Hcl. set (new := with_closure _ c). pose proof (env_sok _ _ _ He2 Hok1) as Hok2.
  assert (Hnew : part_of new x) by (split; cbn; try done; try lia).
  apply srun_bind. eapply pop_node_run; [done|by eapply slot_env|]. intros v Hv Hpv.
  assert (He : env s s2) by (by etransitivity). rewrite (env_nodes _ _ _ He) in Hpv.
  pose proof (sok_separated _ _ Hok) as Hsep. pose proof Hsep as Hsep'. apply (separated_perm _ _ Hpv) in Hsep' as [Hdx _].
  apply srun_bind. eapply srun_mono; [eapply (split_incref s _ x page new)|..|done]; try done.
  - eapply vstep_trans; [by eapply env_step|]. apply vstep_nodes. change (vm_byaddr (space s2 k)) with (nodes s2 k).
    rewrite (env_nodes _ _ _ He), Hpv, app_nil_r. by rewrite Permutation_app_comm.
  - lia.
  - unfold sok. rewrite space_with. done.
  - intros [] s3 (Hok3 & Hst3 & Hn3 & Hsz3).
    eapply srun_mono; [eapply (split_halves_ok s s3 k x page new)|..|done]; try done; try lia.
    + destruct Hok as [_ _ _ Hn]. rewrite Forall_forall in Hn. destruct (Hn x Hx) as (? & ? & ?).
      split_and!; try done. rewrite Hsz3. cbn. by rewrite (ev_region _ _ He).
    + rewrite Hn3. unfold nodes. rewrite space_with. done.
    + intros [] s4 (Hok4 & Hst4 & Hn4). rewrite Hn3 in Hn4. unfold nodes in Hn4 at 2. rewrite space_with in Hn4.
      destruct (halves_pages (nodes s k) x page new (vm_byaddr v) (nodes s4 k)) as [Hparts Hpages]; try done; try lia.
      { by apply sok_separated. }
      split; [by split|]. intros y Hy Hcy. left. rewrite Hn4 in Hy. unfold covers in Hcy. cbn in Hcy.
      apply elem_of_cons in Hy as [->|[->|Hy]%elem_of_cons]; [done|cbn in Hcy; lia|].
      rewrite Forall_forall in Hdx. specialize (Hdx y Hy). unfold disjoint in Hdx. cbn in Hdx. lia.
Qed.

(** * Loops over nodes *)
Definition env_only (m : VM unit) (s0 : vst) : Prop :=
  forall s, env s0 s -> srun m s (fun _ s' => env s s') (fun _ s' => env s s').
Lemma each_ok step l s0 s :
  env s0 s -> Forall (fun x => env_only (step x) s0) l ->
  srun (each step l) s (fun r s' => env s s' /\ (snd r = None -> fst r = length l) /\ (fst r <= length l)%nat)
    (fun _ _ => False).
Proof.
  revert s. induction l as [|x l IH]; intros s He Hl; cbn [each].
  { by apply srun_ret. }
  apply Forall_cons in Hl as [Hx Hl]. apply srun_bind, srun_catch, srun_bind.
  eapply srun_mono; [by apply Hx|..]; cbv beta.
  - intros [] s1 He1. apply srun_ret, srun_bind.
    eapply srun_mono; [apply IH; [by etransitivity|done]|..|done]; cbv beta.
    intros [n o] s2 (He2 & Hn & Hle). apply srun_ret. cbn in *. split_and!; [by etransitivity| |lia].
    intros Ho. by rewrite Hn.
  - intros e s1 He1. apply srun_ret, srun_ret. split_and!; [done..|]. cbn. lia.
Qed.
Lemma env_request s0 : env_only request s0.
Proof. intros s He. by apply request_run. Qed.
Lemma env_map_node s0 x : node_ok (vs_region s0) x -> env_only (vm_map_node x) s0.
Proof.
  intros (Hf & Hs0 & Hs1) s He. unfold vm_map_node. apply srun_bind, srun_get. cbv zeta.
  unfold fits, VM_NODE_SIZE in *. rewrite (ev_region _ _ He).
  apply srun_bind, srun_check; [lia|]. apply srun_bind, srun_check; [lia|].
  case_match; [by apply srun_ret|by apply request_run].
Qed.
Lemma env_notify s0 x : env_only (notify_v x) s0.
Proof.
  intros s He. unfold notify_v. case_match; [by apply srun_ret|]. apply srun_bind, srun_notify; [|done].
  intros c s' He'. by apply srun_ret.
Qed.
Lemma insert_nodes_ok k X s0 s :
  sok s k -> vstep k s0 [] s X -> Forall (node_ok (vs_region s)) X -> separated (X ++ nodes s k) ->
  srun (insert_nodes k X) s
    (fun _ s' => sok s' k /\ vstep k s0 [] s' [] /\ nodes s' k ≡ₚ X ++ nodes s k) (fun _ _ => False).
Proof.
  revert s. induction X as [|x X IH]; intros s Hok Hst Hn Hs; cbn [insert_nodes].
  { by apply srun_ret. }
  apply Forall_cons in Hn as [Hx Hn]. cbn in Hs. destruct Hs as [Hd Hs]. apply Forall_app in Hd as [HdX Hd].
  apply srun_bind. eapply insert_run; [done..|]. intros s1 Hok1 Hst1 Hr1 _ Hp1.
  eapply srun_mono; [apply IH|..|done]; try done.
  - by rewrite Hr1.
  - apply (separated_perm (x :: X ++ nodes s k)); [by rewrite Hp1, Permutation_middle|].
    split; [by apply Forall_app|done].
  - intros [] s2 (? & ? & Hp2). split_and!; [done..|]. rewrite Hp2, Hp1. cbn. by rewrite Permutation_middle.
Qed.
Lemma srun_refs r start n d s (Q : unit -> vst -> Prop) R :
  (forall s', (forall k, space s' k = space s k) -> vs_this s' = vs_this s -> vm_disable_merging s' = vm_disable_merging s ->
     (forall i, vr_size (vs_region s' i) = vr_size (vs_region s i) /\
        vr_type (vs_region s' i) = vr_type (vs_region s i) /\ vr_flags (vs_region s' i) = vr_flags (vs_region s i) /\
        vr_refcnt (vs_region s' i) = vr_refcnt (vs_region s i) /\
        forall q, vr_refs (vs_region s' i) q = vr_refs (vs_region s i) q +
          if (r =? i) && (start <=? q) && (q <? start + n) then d else 0) -> Q tt s') ->
  srun (add_refs r start n d) s Q R.
Proof.
  intros HQ. unfold srun, add_refs. apply HQ; try done. intros i. cbn.
  destruct (Z.eqb_spec i r) as [->|]; cbn.
  - rewrite Z.eqb_refl. split_and!; try done. intros q. unfold upd_refs. cbn. case_match; lia.
  - replace (r =? i) with false by lia. split_and!; try done. intros q. cbn. lia.
Qed.
Lemma leaking_set f : flag (Z.lor f VM_REGION_FLEAKINGPARTS) VM_REGION_FLEAKINGPARTS = true.
Proof.
  unfold flag. rewrite Z.land_lor_distr_l, Z.land_diag. apply negb_true_iff, Z.eqb_neq. intros E%Z.lor_eq_0_iff. by destruct E.
Qed.
Lemma leaking_other f : Z.ldiff (Z.lor f VM_REGION_FLEAKINGPARTS) VM_REGION_FLEAKINGPARTS = Z.ldiff f VM_REGION_FLEAKINGPARTS.
Proof. rewrite !Z.ldiff_land, Z.land_lor_distr_l, Z.land_lnot_diag. apply Z.lor_0_r. Qed.
(** Giving up references on pages: all of them, unless the region now leaks some. *)
Lemma srun_decref_range r start n s (Q : unit -> vst -> Prop) R :
  (forall s', (forall k, space s' k = space s k) -> vs_this s' = vs_this s -> vm_disable_merging s' = vm_disable_merging s ->
     (forall i, vr_size (vs_region s' i) = vr_size (vs_region s i) /\
        vr_type (vs_region s' i) = vr_type (vs_region s i) /\ same_flags (vs_region s' i) (vs_region s i) /\
        vr_refcnt (vs_region s' i) = vr_refcnt (vs_region s i) /\
        forall q, let d := if (r =? i) && (start <=? q) && (q <? start + n) then 1 else 0 in
          vr_refs (vs_region s i) q - d <= vr_refs (vs_region s' i) q /\
          (leaking (vs_region s' i) = false -> vr_refs (vs_region s' i) q = vr_refs (vs_region s i) q - d)) -> Q tt s') ->
  srun (vm_region_decref_range r start n) s Q R.
Proof.
  intros HQ. unfold vm_region_decref_range. apply srun_catch_bind. apply request_run.
  - intros s1 [Hsp1 Hr1 Ht1 Hm1]. apply srun_catch, srun_refs. intros s2 Hsp2 Ht2 Hm2 Hr2. rewrite Hr1 in Hr2.
    apply HQ; [intros j; congruence|congruence..|]. intros i. destruct (Hr2 i) as (? & ? & ? & ? & Hq).
    split_and!; try done; [split; [congruence|by unfold leaking; congruence]|]. intros q. cbv zeta. rewrite Hq. case_match; lia.
  - intros e s1 [Hsp1 Hr1 Ht1 Hm1]. apply srun_bind. unfold srun at 1. cbn. apply srun_bind, srun_refs. intros s2 Hsp2 Ht2 Hm2 Hr2.
    unfold srun, set_leaking. cbn in Hr2, Hsp2, Ht2, Hm2. rewrite Hr1 in Hr2.
    apply HQ; [intros j; transitivity (space s2 j); [by destruct j|rewrite Hsp2, <- Hsp1; by destruct j]|cbn; congruence..|]. intros i. destruct (Hr2 i) as (? & ? & Hfl & ? & Hq). cbn.
    assert (Hd : forall q, let d := if (r =? i) && (start <=? q) && (q <? start + n) then 1 else 0 in
      vr_refs (vs_region s i) q - d <= vr_refs (vs_region s2 i) q).
    { intros q. cbv zeta. rewrite Hq. destruct (Z.leb_spec start q), (Z.ltb_spec q (start + n)),
        (Z.ltb_spec q (start + Z.max 0 (Z.min (vs_reply s1 0%nat) n))), (r =? i); cbn [andb]; lia. }
    destruct (Z.eqb_spec i r) as [->|Hir]; cbn.
    + split_and!; try done.
      * split; cbn; [by rewrite leaking_other, Hfl|unfold leaking; cbn; by rewrite leaking_set].
      * intros q. split; [apply Hd|]. unfold leaking. cbn. by rewrite leaking_set.
    + split_and!; try done; [split; [congruence|by unfold leaking; congruence]|]. intros q. split; [apply Hd|]. intros _.
      rewrite Hq. replace (r =? i) with false by lia. cbn. lia.
Qed.
(** The references of a node are given up, or obtained. *)
Lemma drop_node_ok k x X s0 s (Q : unit -> vst -> Prop) R :
  vstep k s0 [] s (x :: X) -> sok s k ->
  (forall s', vstep k s0 [] s' X -> sok s' k -> nodes s' k = nodes s k -> Q tt s') ->
  srun (vm_region_decref_range (vn_region x) (vn_start x) (VM_NODE_SIZE x) ≫= fun _ =>
        vm_region_decref (vn_region x)) s Q R.
Proof.
  intros [H1 H2 H3 H4 H5 H5' H6] Hok HQ. apply srun_bind, srun_decref_range. intros s1 Hsp1 Ht1 Hm1 Hr1.
  apply srun_refcnt. intros s2 Hsp2 Ht2 Hm2 Hr2.
  assert (Hsp : forall k, space s2 k = space s k) by (intros j; by rewrite Hsp2).
  apply HQ; [split|..].
  - by rewrite Hsp.
  - congruence.
  - congruence.
  - intros i. destruct (Hr1 i) as (? & ? & Hf1 & _), (Hr2 i) as (? & ? & Hf2 & _), (H4 i) as (? & ? & Hf).
    split_and!; [congruence..|]. eapply same_flags_trans; [done|]. unfold same_flags, leaking in *. by rewrite Hf2.
  - intros i q. rewrite Hsp. specialize (H5 i q). destruct (Hr1 i) as (_ & _ & _ & _ & Hq1), (Hr2 i) as (_ & _ & _ & Hq2 & _).
    destruct (Hq1 q) as [Hle _]. rewrite Hq2. rewrite uses_cons in H5. unfold use in H5. cbv zeta in Hle. case_match; lia.
  - intros i q Hl. rewrite Hsp. destruct (Hr1 i) as (_ & _ & [_ Hf1] & _ & Hq1), (Hr2 i) as (_ & _ & Hf2 & Hq2 & _).
    assert (Hl1 : leaking (vs_region s1 i) = false) by (unfold leaking in *; by rewrite <- Hf2). specialize (H5' i q (Hf1 Hl1)).
    destruct (Hq1 q) as [_ Hex]. rewrite Hq2, (Hex Hl1). rewrite uses_cons in H5'. unfold use in H5'. case_match; lia.
  - intros i. rewrite Hsp. specialize (H6 i). destruct (Hr1 i) as (_ & _ & _ & Hc1 & _), (Hr2 i) as (_ & _ & _ & _ & Hc2).
    rewrite Hc2, Hc1. rewrite maps_cons in H6. case_match; lia.
  - unfold sok. rewrite Hsp. eapply space_ok_regions; [|exact Hok]. intros i.
    destruct (Hr1 i) as (? & _), (Hr2 i) as (? & _). congruence.
  - unfold nodes. by rewrite Hsp.
Qed.
Lemma drop_nodes_ok k X s0 s :
  vstep k s0 [] s X -> sok s k ->
  srun (drop_nodes X) s (fun _ s' => vstep k s0 [] s' [] /\ sok s' k /\ nodes s' k = nodes s k) (fun _ _ => False).
Proof.
  revert s. induction X as [|x X IH]; intros s Hst Hok; cbn [drop_nodes]; [by apply srun_ret|].
  assert (Hassoc : forall (m1 m2 m3 : VM unit) Q R, srun ((m1 ≫= fun _ => m2) ≫= fun _ => m3) s Q R ->
    srun (m1 ≫= fun _ => m2 ≫= fun _ => m3) s Q R).
  { intros m1 m2 m3 Q R. unfold srun, mbind, SM_bind. by destruct (m1 s). }
  apply Hassoc, srun_bind. eapply drop_node_ok; [done..|]. intros s1 Hst1 Hok1 Hn1.
  eapply srun_mono; [by apply IH|..|done]. intros [] s2 (? & ? & Hn2). split_and!; [done..|]. congruence.
Qed.

(** * Unmapping *)
(** ** Counting pages *)
Definition mapped_pages (l : list vm_node) (lo n : Z) : Z :=
  Z.of_nat (length (filter (fun q => page_at l q <> None) (seqZ lo n))).
Definition within (lo n : Z) (x : vm_node) : Prop := lo <= a_vmin x /\ a_vmax x < lo + n.
Definition sizes (l : list vm_node) : Z := foldr (fun x n => VM_NODE_SIZE x + n) 0 l.
Lemma sum_sizes_ok l : Forall fits l -> sizes l < 2 ^ 32 -> sum_sizes l = sizes l.
Proof.
  unfold sum_sizes. intros Hf Hs. enough (forall acc, 0 <= acc -> acc + sizes l < 2 ^ 32 ->
    foldl (fun n x => u32 (n + VM_NODE_SIZE x)) acc l = acc + sizes l) as H by (rewrite H; lia).
  clear Hs. induction Hf as [|x l Hx Hf IH]; intros acc Ha Hs; cbn in *; [lia|].
  fold (sizes l) in *. assert (0 <= sizes l).
  { clear - Hf. induction Hf as [|x l Hx _ IH]; cbn; [lia|]. fold (sizes l). unfold fits, VM_NODE_SIZE in *. lia. }
  unfold fits, VM_NODE_SIZE in *. rewrite u32_small by lia. rewrite IH by lia. lia.
Qed.
Lemma filter_split {A} (P Q T : A -> Prop) `{!forall x, Decision (P x)} `{!forall x, Decision (Q x)}
    `{!forall x, Decision (T x)} l :
  (forall x, T x <-> P x \/ Q x) -> (forall x, P x -> Q x -> False) ->
  length (filter T l) = (length (filter P l) + length (filter Q l))%nat.
Proof.
  intros HT HPQ. induction l as [|x l IH]; [done|]. rewrite !filter_cons.
  destruct (decide (T x)) as [Ht|Ht], (decide (P x)), (decide (Q x)); cbn; rewrite ?IH; try lia;
    exfalso; rewrite HT in Ht; naive_solver.
Qed.
Lemma filter_ext_in {A} (P Q : A -> Prop) `{!forall x, Decision (P x)} `{!forall x, Decision (Q x)} (l : list A) :
  (forall x, x ∈ l -> P x <-> Q x) -> filter P l = filter Q l.
Proof.
  induction l as [|x l IH]; intros HPQ; [done|]. rewrite !filter_cons, IH by (intros; apply HPQ; by right).
  pose proof (HPQ x ltac:(by left)). repeat case_decide; tauto.
Qed.
Lemma filter_interval (a b lo n : Z) :
  lo <= a <= b + 1 -> b < lo + n ->
  Z.of_nat (length (filter (fun q => a <= q <= b) (seqZ lo n))) = b - a + 1.
Proof.
  intros Ha Hb.
  assert (E : seqZ lo n = seqZ lo (a - lo) ++ seqZ a (b - a + 1) ++ seqZ (b + 1) (lo + n - (b + 1))).
  { replace n with ((a - lo) + ((b - a + 1) + (lo + n - (b + 1)))) at 1 by lia.
    rewrite seqZ_app by lia. f_equal. replace (lo + (a - lo)) with a by lia. rewrite seqZ_app by lia.
    f_equal. f_equal. lia. }
  rewrite E, !filter_app, (filter_none _ (seqZ lo _)), (filter_all _ (seqZ a _)), (filter_none _ (seqZ (b + 1) _)).
  - cbn. rewrite length_app, length_seqZ. cbn. lia.
  - apply Forall_forall. intros q Hq%elem_of_seqZ. lia.
  - apply Forall_forall. intros q Hq%elem_of_seqZ. lia.
  - apply Forall_forall. intros q Hq%elem_of_seqZ. lia.
Qed.
Lemma count_pages l lo n :
  separated l -> Forall fits l -> Forall (within lo n) l -> mapped_pages l lo n = sizes l.
Proof.
  unfold mapped_pages. induction l as [|x l IH]; intros Hs Hf Hw.
  { rewrite filter_none; [done|]. apply Forall_forall. naive_solver. }
  destruct Hs as [Hd Hs]. apply Forall_cons in Hf as [Hfx Hf], Hw as [Hwx Hw].
  pose proof (filter_split (fun q => a_vmin x <= q <= a_vmax x) (fun q => page_at l q <> None)
    (fun q => page_at (x :: l) q <> None) (seqZ lo n)) as Hsplit. rewrite Hsplit.
  - rewrite Nat2Z.inj_add, IH by done. unfold fits, within in *. rewrite filter_interval by lia. cbn. fold (sizes l).
    unfold VM_NODE_SIZE. lia.
  - intros q. cbn. unfold covers. cbn. case_match eqn:E; [split; [left; lia|done]|].
    split; [by right|]. intros [?|?]; [lia|done].
  - intros q Hq Hn. destruct (page_at l q) as [c|] eqn:E; [|done]. apply page_at_some in E as (y & Hy & Hc & _).
    rewrite Forall_forall in Hd. specialize (Hd y Hy). unfold disjoint, covers in *. cbn in *. lia.
Qed.
Lemma sizes_bound l lo n : separated l -> Forall fits l -> Forall (within lo n) l -> 0 <= n -> sizes l <= n.
Proof.
  intros Hs Hf Hw Hn. rewrite <- (count_pages l lo n) by done. unfold mapped_pages.
  pose proof (length_filter (fun q => page_at l q <> None) (seqZ lo n)) as H. rewrite length_seqZ in H. lia.
Qed.
(** The nodes of a range taken out of a list. *)
Lemma taken_pages l ps l' lo n :
  separated l -> l ≡ₚ ps ++ l' -> Forall (within lo n) ps ->
  Forall (fun x => in_range lo (lo + n - 1) x = false) l' ->
  (forall q, page_at l' q = if (lo <=? q) && (q <? lo + n) then None else page_at l q) /\
  mapped_pages l lo n = mapped_pages ps lo n.
Proof.
  intros Hs Hp Hw Hn. rewrite Forall_forall in Hw, Hn.
  assert (Hl : forall q, page_at l q = match page_at ps q with Some c => Some c | None => page_at l' q end).
  { intros q. rewrite <- page_at_app. apply page_at_perm; [by symmetry|]. by eapply separated_perm. }
  assert (Hin : forall q, lo <= q < lo + n -> page_at l' q = None).
  { intros q Hq. apply page_at_none. intros x Hx. specialize (Hn x Hx). unfold in_range, covers in *. cbn. lia. }
  assert (Hout : forall q, ~ lo <= q < lo + n -> page_at ps q = None).
  { intros q Hq. apply page_at_none. intros x Hx. specialize (Hw x Hx). unfold within, covers in *. cbn. lia. }
  split.
  - intros q. destruct ((lo <=? q) && (q <? lo + n)) eqn:E; [apply Hin; lia|].
    rewrite Hl, Hout; [done|lia].
  - unfold mapped_pages. do 2 f_equal. apply filter_ext_in. intros q Hq%elem_of_seqZ.
    rewrite Hl, Hin by lia. by destruct (page_at ps q).
Qed.
(** ** Splitting at both ends of a range *)
Definition mutable_in (l : list vm_node) (lo n : Z) : Prop :=
  forall x, x ∈ l -> in_range lo (lo + n - 1) x = true -> immutable x = false.
Lemma mutable_parts l l' lo n : mutable_in l lo n -> parts_of l' l -> mutable_in l' lo n.
Proof.
  intros Hm Hp x' Hx' Hr. destruct (Hp x' Hx') as (x & Hx & Hpa). eapply part_mutable; [done|]. apply Hm; [done|].
  destruct Hpa. unfold in_range in *. lia.
Qed.
(** The nodes of the range lie within it. *)
Record range_cut (k : bool) (s : vst) (lo n : Z) (s' : vst) : Prop := {
  rc_split : split_to k s s';
  rc_within : forall x, x ∈ nodes s' k -> in_range lo (lo + n - 1) x = true -> within lo n x;
  rc_mutable : mutable_in (nodes s' k) lo n;
}.
Lemma split_both_ok {A} k lo n s (m : VM A) (Q : A -> vst -> Prop) (R : error_code -> vst -> Prop) :
  sok s k -> 0 <= lo -> 0 < n -> lo + n <= VM_VPAGE_MAX -> mutable_in (nodes s k) lo n ->
  (forall s', range_cut k s lo n s' -> srun m s' Q R) -> (forall e s', split_to k s s' -> R e s') ->
  srun (vm_split_before k lo ≫= fun _ => vm_split_before k (lo + n) ≫= fun _ => m) s Q R.
Proof.
  intros Hok Hlo Hn Hhi Hmut HQ HR. apply srun_bind.
  eapply srun_mono; [apply vm_split_ok; [done|lia]| |done]. intros [] s1 [Hs1 Hc1]. apply srun_bind.
  eapply srun_mono; [apply vm_split_ok; [apply Hs1|lia]| |]; cbv beta.
  - intros [] s2 [Hs2 Hc2]. apply HQ. pose proof (split_to_trans _ _ _ _ Hs1 Hs2) as Hs.
    pose proof (mutable_parts _ _ _ _ Hmut (sp_parts _ _ _ Hs)) as Hmut2.
    pose proof (mutable_parts _ _ _ _ Hmut (sp_parts _ _ _ Hs1)) as Hmut1.
    apply (cut_parts _ (nodes s2 k)) in Hc1; [|apply Hs2|].
    2: { intros x Hx Hc. apply Hmut1; [done|]. unfold covers, in_range in *. cbn in Hc. lia. }
    split; [done| |done]. intros x Hx Hr. pose proof (Hmut2 x Hx Hr) as Him.
    assert (Hf : fits x) by (eapply sok_fits; [apply Hs2|done]).
    assert (Hlow : covers x lo = true -> a_vmin x = lo) by (intros H; destruct (Hc1 x Hx H); [done|congruence]).
    assert (Hup : covers x (lo + n) = true -> a_vmin x = lo + n) by (intros H; destruct (Hc2 x Hx H); [done|congruence]).
    unfold within, covers, in_range, fits in *. cbn in *.
    destruct (Z.leb_spec (a_vmin x) lo), (Z.leb_spec lo (a_vmax x)), (Z.leb_spec (a_vmin x) (lo + n)),
      (Z.leb_spec (lo + n) (a_vmax x)); cbn in *; try lia;
      try (specialize (Hlow eq_refl)); try (specialize (Hup eq_refl)); lia.
  - intros e s2 Hs2. apply HR. by eapply split_to_trans.
Qed.
Lemma no_tag mode lo hi tag x : flag mode VM_UNMAP_TAG = false -> selected lo hi mode tag x = in_range lo hi x.
Proof. intros Hm. unfold selected. rewrite Hm. cbn. by rewrite andb_true_r. Qed.
(** Taking the nodes of the range out. *)
Lemma pop_range_ok k lo n mode tag s0 s (Q : list vm_node -> vst -> Prop) R :
  range_cut k s0 lo n s -> flag mode VM_UNMAP_TAG = false ->
  (forall s' ps, sok s' k -> vstep k s0 [] s' ps -> vs_region s' = vs_region s ->
     nodes s k ≡ₚ ps ++ nodes s' k -> Forall (within lo n) ps ->
     (forall q, pages s' k q = if (lo <=? q) && (q <? lo + n) then None else pages s0 k q) ->
     mapped_pages ps lo n = mapped_pages (nodes s0 k) lo n -> Q ps s') ->
  srun (vm_pop_nodes k lo (lo + n - 1) mode tag) s Q R.
Proof.
  intros [Hs Hw Hmut] Hm HQ. pose proof Hs as [Hok Hst Hpg _]. apply pop_ok; [done|..].
  { apply Forall_forall. intros x Hx. rewrite no_tag by done. intros Hr. right. by apply Hmut. }
  intros v ps Hv Hp Hsel Hns. 
  assert (Hnodes : nodes (with_space s k v) k = vm_byaddr v) by (unfold nodes; by rewrite space_with).
  assert (Hwp : Forall (within lo n) ps).
  { rewrite Forall_forall in Hsel |- *. intros x Hx. specialize (Hsel x Hx). rewrite no_tag in Hsel by done.
    apply Hw; [|done]. unfold nodes. rewrite Hp. apply elem_of_app. by left. }
  destruct (taken_pages (nodes s k) ps (vm_byaddr v) lo n) as [Hpages Hcount].
  { by apply sok_separated. } { done. } { done. }
  { eapply Forall_impl; [exact Hns|]. intros x Hx. cbv beta in Hx. by rewrite no_tag in Hx. }
  apply HQ; try done.
  - unfold sok. by rewrite space_with.
  - eapply vstep_trans; [exact Hst|]. apply vstep_nodes. by rewrite Hp, app_nil_r, Permutation_app_comm.
  - unfold nodes. by rewrite space_with.
  - intros q. unfold pages in *. rewrite Hnodes, Hpages. case_match; [done|]. apply Hpg.
  - rewrite <- Hcount. unfold mapped_pages. do 2 f_equal. apply filter_ext_in. intros q _. unfold pages in Hpg.
    by rewrite Hpg.
Qed.
(** Nothing that matters has changed. *)
Record kept (k : bool) (s s' : vst) : Prop := {
  kp_ok : sok s' k;
  kp_step : vstep k s [] s' [];
  kp_pages : forall q, pages s' k q = pages s k q;
}.
Record unmapped (k : bool) (s : vst) (lo n : Z) (s' : vst) : Prop := {
  um_ok : sok s' k;
  um_step : vstep k s [] s' [];
  um_pages : forall q, pages s' k q = if (lo <=? q) && (q <? lo + n) then None else pages s k q;
  um_parts : parts_of (nodes s' k) (nodes s k);
}.
Lemma split_kept k s s' : split_to k s s' -> kept k s s'.
Proof. by intros []. Qed.
Lemma env_kept k s s' : sok s k -> env s s' -> kept k s s'.
Proof. intros. by apply split_kept, split_to_refl. Qed.
Lemma kept_trans k s s1 s2 : kept k s s1 -> kept k s1 s2 -> kept k s s2.
Proof. intros [? ? H1] [? ? H2]. split; [done|by eapply vstep_trans|]. intros q. by rewrite H2. Qed.
(** The nodes that were taken out are back. *)
Lemma back_split k s0 s1 ps s2 s3 :
  split_to k s0 s1 -> nodes s1 k ≡ₚ ps ++ nodes s2 k -> sok s3 k -> vstep k s0 [] s3 [] ->
  nodes s3 k ≡ₚ ps ++ nodes s2 k -> split_to k s0 s3.
Proof.
  intros Hs Hp Hok Hst Hp3. split; [done..| |].
  - intros q. rewrite <- (sp_pages _ _ _ Hs). unfold pages. apply page_at_perm; [by rewrite Hp3|]. apply sok_separated, Hs.
  - intros x. rewrite Hp3, <- Hp. apply (sp_parts _ _ _ Hs).
Qed.
Lemma unmap_nodes_ok k ps mode s0 s :
  sok s k -> vstep k s0 [] s ps -> Forall (node_ok (vs_region s)) ps -> separated (ps ++ nodes s k) ->
  let back s' := sok s' k /\ vstep k s0 [] s' [] /\ nodes s' k ≡ₚ ps ++ nodes s k in
  srun (unmap_nodes k ps mode) s
    (fun r s' => r = (sum_sizes ps, ps) /\ env s s' \/ flag mode VM_UNMAP_NOEXCEPT = true /\ r = (0, []) /\ back s')
    (fun _ s' => flag mode VM_UNMAP_NOEXCEPT = false /\ back s').
Proof.
  intros Hok Hst Hn Hs back. unfold unmap_nodes. apply srun_bind.
  eapply srun_mono; [apply (each_ok _ ps s s); [done|]|..|done]; cbv beta.
  { apply Forall_forall. intros x _. apply env_request. }
  intros [i o] s1 (He1 & _). cbn [fst snd]. destruct o as [e|]; [|apply srun_ret; by left].
  apply srun_bind. eapply srun_mono; [apply (each_ok _ (take i ps) s s1); [done|]|..|done]; cbv beta.
  { apply Forall_take. eapply Forall_impl; [exact Hn|]. intros x. apply env_map_node. }
  intros r s2 (He2 & _). assert (He : env s s2) by (by etransitivity). apply srun_bind.
  eapply srun_mono; [apply (insert_nodes_ok k ps s0 s2)|..|done]; cbv beta.
  - by eapply env_sok.
  - eapply vstep_trans; [exact Hst|by apply env_step].
  - by rewrite (ev_region _ _ He).
  - by rewrite (env_nodes _ _ _ He).
  - intros [] s3 (? & ? & Hp). rewrite (env_nodes _ _ _ He) in Hp. case_match.
    + apply srun_ret. right. by split_and!.
    + apply srun_throw. by split_and!.
Qed.
Lemma range_checks_ok page n s (Q : unit -> vst -> Prop) R :
  0 <= page -> 0 < n -> page + n <= VM_VPAGE_MAX -> Q tt s -> srun (range_checks page n) s Q R.
Proof.
  intros Hp Hn He HQ. unfold range_checks. unfold VM_VPAGE_MAX in *. rewrite u32_small by lia.
  apply srun_bind, srun_check; [lia|]. apply srun_check; [lia|done].
Qed.
Lemma range_cut_nodes k s0 lo n s s' ps :
  range_cut k s0 lo n s -> nodes s k ≡ₚ ps ++ nodes s' k -> vs_region s' = vs_region s ->
  Forall (node_ok (vs_region s')) ps /\ separated (ps ++ nodes s' k) /\ separated ps.
Proof.
  intros [[Hok _ _ _] _ _] Hp Hr. assert (Hs : separated (ps ++ nodes s' k)).
  { eapply separated_perm; [exact Hp|]. by apply sok_separated. }
  split_and!; [|done|by apply separated_app in Hs as (? & _)]. rewrite Hr. destruct Hok as [_ _ _ Hn].
  unfold nodes in Hp. rewrite Hp in Hn. by apply Forall_app in Hn as [? _].
Qed.
Lemma unmap_ok page n mode tag s :
  let k := effective s page in
  sok s k -> 0 <= page -> 0 < n -> page + n <= VM_VPAGE_MAX -> mutable_in (nodes s k) page n ->
  flag mode VM_UNMAP_TAG = false ->
  srun (vm_unmap page n mode tag) s
    (fun r s' => unmapped k s page n s' /\ r = mapped_pages (nodes s k) page n \/
       flag mode VM_UNMAP_NOEXCEPT = true /\ r = 0 /\ split_to k s s')
    (fun e s' => kept k s s').
Proof.
  intros k Hok Hp Hn He Hmut Hm. unfold vm_unmap. replace (n =? 0) with false by lia.
  apply srun_bind, range_checks_ok; [done..|]. apply srun_bind, srun_get. cbv zeta. fold k.
  apply srun_bind, request_run; [|intros e s1 He1; by apply env_kept]. intros s1 He1.
  pose proof (env_sok _ _ _ He1 Hok) as Hok1. pose proof (env_kept _ _ _ Hok He1) as Hk1.
  pose proof (split_to_refl _ _ _ Hok He1) as Hsp1.
  apply srun_bind. unfold split_range. apply srun_catch.
  eapply split_both_ok; [done..|by rewrite (env_nodes _ _ _ He1)| |]; cbv beta.
  2: { intros e s2 Hs2. pose proof (split_to_trans _ _ _ _ Hsp1 Hs2) as Hsp2.
       destruct (bool_decide (e = E_BADALLOC) && flag mode VM_UNMAP_NOEXCEPT) eqn:Hne; [|by apply split_kept].
       apply andb_prop in Hne as [_ Hne]. apply srun_ret, srun_ret. right. by split_and!. }
  intros s2 Hrc. apply srun_ret. cbv beta iota. apply srun_bind.
  eapply pop_range_ok; [done..|]. intros s3 ps Hok3 Hst3 Hr3 Hp3 Hw3 Hpg3 Hc3.
  destruct (range_cut_nodes _ _ _ _ _ _ _ Hrc Hp3 Hr3) as (Hn3 & Hsep3 & Hsps).
  apply srun_bind. eapply srun_mono; [by apply (unmap_nodes_ok k ps mode s1 s3)|..]; cbv beta.
  - intros r s4 [[-> He4]|(Hne & -> & Hok4 & Hst4 & Hp4)]; cbn [fst snd].
    + apply srun_bind. eapply srun_mono; [apply (drop_nodes_ok k ps s1 s4)|..|done]; cbv beta.
      * eapply vstep_trans; [exact Hst3|by apply env_step].
      * by eapply env_sok.
      * intros [] s5 (Hst5 & Hok5 & Hn5). apply srun_ret. left. split.
        -- split; [done|eapply vstep_trans; [apply Hk1|done]|..].
           ++ intros q. rewrite <- (kp_pages _ _ _ Hk1), <- Hpg3. unfold pages. by rewrite Hn5, (env_nodes _ _ _ He4).
           ++ rewrite Hn5, (env_nodes _ _ _ He4), <- (env_nodes _ _ _ He1). intros x Hx.
              apply (sp_parts _ _ _ (rc_split _ _ _ _ _ Hrc)). rewrite Hp3. apply elem_of_app. by right.
        -- rewrite (env_nodes _ _ _ He1) in Hc3. rewrite <- Hc3. pose proof (nodes_fit _ _ Hn3) as Hf3.
           rewrite count_pages by done. apply sum_sizes_ok; [done|].
           pose proof (sizes_bound ps page n Hsps Hf3 Hw3 ltac:(lia)). unfold VM_VPAGE_MAX in He. lia.
    + apply srun_bind. cbn [drop_nodes]. apply srun_ret, srun_ret. right. split_and!; [done..|].
      eapply split_to_trans; [exact Hsp1|]. by eapply back_split; [apply Hrc|..].
  - intros e s4 (_ & Hok4 & Hst4 & Hp4). eapply kept_trans; [exact Hk1|]. by eapply split_kept, back_split; [apply Hrc|..].
Qed.

(** * Mapping *)
Lemma vstep_frame k s X s' X' Y : vstep k s X s' X' -> vstep k s (X ++ Y) s' (X' ++ Y).
Proof.
  intros [? ? ? ? Hq He Hc]. split; try done.
  - intros r q. specialize (Hq r q). rewrite !uses_app. lia.
  - intros r q Hl. specialize (He r q Hl). rewrite !uses_app. lia.
  - intros r. specialize (Hc r). rewrite !maps_app. lia.
Qed.
Lemma vstep_held k s0 X s s' : vstep k s0 [] s X -> vstep k s [] s' [] -> vstep k s0 [] s' X.
Proof. intros H1 H2%(vstep_frame _ _ _ _ _ X). by eapply vstep_trans. Qed.
Lemma srun_on_error {A} (m : VM A) h s (Q : A -> vst -> Prop) (R : error_code -> vst -> Prop) :
  srun m s Q (fun e s' => srun h s' (fun _ s'' => R e s'') (fun _ _ => False)) -> srun (on_error m h) s Q R.
Proof.
  intros H. unfold on_error. apply srun_catch. eapply srun_mono; [exact H|done|]. cbv beta. intros e s' Hh.
  apply srun_bind. by eapply srun_mono; [exact Hh|..].
Qed.
Lemma merge_off k page s (Q : unit -> vst -> Prop) R :
  vm_disable_merging s = true -> Q tt s -> srun (vm_merge_before k page) s Q R.
Proof. intros Hm HQ. unfold vm_merge_before. apply srun_bind, srun_get. by rewrite Hm. Qed.
Lemma insert_activate_ok s0 s k node X :
  sok s k -> vstep k s0 [] s (node :: X) -> node_ok (vs_region s) node -> Forall (disjoint node) (nodes s k) ->
  srun (vm_insert_and_activate_node k node) s
    (fun _ s' => sok s' k /\ vstep k s0 [] s' X /\ vm_disable_merging s' = vm_disable_merging s /\
       nodes s' k ≡ₚ node :: nodes s k) (fun _ s' => env s s').
Proof.
  intros Hok Hst Hn Hd. unfold vm_insert_and_activate_node. apply srun_bind.
  eapply srun_mono; [by apply (env_map_node s)| |done]. intros [] s1 He. eapply insert_run.
  - by eapply env_sok.
  - eapply vstep_trans; [exact Hst|by apply env_step].
  - by rewrite (ev_region _ _ He).
  - by rewrite (env_nodes _ _ _ He).
  - intros s2 Hok2 Hst2 _ Hm2 Hp2. split_and!; [done..| |by rewrite Hp2, (env_nodes _ _ _ He)].
    by rewrite Hm2, (ev_merging _ _ He).
Qed.
(** What the address space maps after the node has been put over its range. *)
Definition overlay (node : vm_node) (pg : Z -> option (Z * Z * Z)) (q : Z) : option (Z * Z * Z) :=
  if covers node q then Some (content node q) else pg q.
Lemma inserted_pages s s' k node :
  sok s' k -> nodes s' k ≡ₚ node :: nodes s k -> forall q, pages s' k q = overlay node (pages s k) q.
Proof.
  intros Hok Hp q. unfold pages, overlay.
  rewrite (page_at_perm (node :: nodes s k) (nodes s' k) q); [done|by symmetry|].
  eapply separated_perm; [exact Hp|]. by apply sok_separated.
Qed.
Lemma replace_range_ok s0 s k node :
  sok s k -> vstep k s0 [] s [node] -> node_ok (vs_region s) node -> a_vmax node < VM_VPAGE_MAX ->
  mutable_in (nodes s k) (a_vmin node) (VM_NODE_SIZE node) -> vm_disable_merging s = true ->
  srun (replace_range k node) s
    (fun ps s' => sok s' k /\ vstep k s0 [] s' ps /\ (forall q, pages s' k q = overlay node (pages s k) q) /\
       Forall (within (a_vmin node) (VM_NODE_SIZE node)) ps)
    (fun _ s' => sok s' k /\ vstep k s0 [] s' [node] /\ forall q, pages s' k q = pages s k q).
Proof.
  intros Hok Hst Hn Hmax Hmut Hoff. pose proof Hn as (Hf & _ & _). unfold fits in Hf. unfold replace_range.
  set (lo := a_vmin node) in *. set (n := VM_NODE_SIZE node) in *.
  replace (a_vmax node + 1) with (lo + n) by (unfold lo, n, VM_NODE_SIZE; lia).
  eapply split_both_ok; [done|lia|unfold n, VM_NODE_SIZE; lia|unfold lo, n, VM_NODE_SIZE; lia|done|..]; cbv beta.
  2: { intros e s1 [? Hst1 Hpg _]. split_and!; [done|by eapply vstep_held|done]. }
  intros s1 Hrc. apply srun_bind. replace (a_vmax node) with (lo + n - 1) by (unfold lo, n, VM_NODE_SIZE; lia).
  eapply pop_range_ok; [done..|]. intros s2 ps Hok2 Hst2 Hr2 Hp2 Hw2 Hpg2 _.
  destruct (range_cut_nodes _ _ _ _ _ _ _ Hrc Hp2 Hr2) as (Hn2 & Hsep2 & _).
  pose proof (rc_split _ _ _ _ _ Hrc) as Hs1. pose proof (sp_step _ _ _ Hs1) as Hst1.
  assert (Hst02 : vstep k s0 [] s2 (ps ++ [node])).
  { eapply vstep_trans; [exact Hst|]. pose proof (vstep_frame _ _ _ _ _ [node] Hst2) as H. done. }
  assert (Hno : node_ok (vs_region s2) node).
  { destruct Hn as (? & ? & ?). split_and!; try done. rewrite (vstep_sizes _ _ _ _ _ _ Hst2). done. }
  apply srun_bind, srun_on_error, srun_bind.
  eapply srun_mono; [eapply (insert_activate_ok s0 s2 k node ps)|..]; cbv beta; try done.
  - eapply vstep_trans; [exact Hst02|].
    assert (E : with_space s2 k (space s2 k) = s2) by (by destruct s2, k).
    rewrite <- E at 2. apply vstep_nodes. by rewrite (Permutation_app_comm ps).
  - apply Forall_forall. intros x Hx. assert (Hc : forall q, covers x q = true -> ~ lo <= q < lo + n).
    { intros q Hc Hq. specialize (Hpg2 q). replace ((lo <=? q) && (q <? lo + n)) with true in Hpg2 by lia.
      unfold pages in Hpg2. rewrite page_at_none in Hpg2. rewrite Hpg2 in Hc; done. }
    pose proof (sok_fits _ _ _ Hok2 Hx) as Hfx. unfold fits in Hfx. apply disjoint_range. fold lo. unfold in_range.
    pose proof (Hc (Z.max lo (a_vmin x))) as H. unfold covers in H. cbn in H. unfold n, VM_NODE_SIZE in *. lia.
  - intros [] s3 (Hok3 & Hst3 & Hm3 & Hp3).
    assert (Hoff3 : vm_disable_merging s3 = true) by (by rewrite Hm3, (vt_merging _ _ _ _ _ Hst2)).
    apply srun_bind, merge_off, merge_off; [done..|]. apply srun_ret. split_and!; [done..| |done].
    intros q. rewrite (inserted_pages s2 s3 k node Hok3 Hp3). unfold overlay. case_match eqn:Hc; [done|].
    rewrite Hpg2. case_match eqn:Hr; [|done]. exfalso. unfold covers in Hc. cbn in Hc. unfold lo, n, VM_NODE_SIZE in Hr. lia.
  - intros e s3 He3. eapply srun_mono; [eapply (insert_nodes_ok k ps s s3)|..|done]; cbv beta.
    + by eapply env_sok.
    + eapply vstep_trans; [exact Hst2|by apply env_step].
    + by rewrite (ev_region _ _ He3).
    + by rewrite (env_nodes _ _ _ He3).
    + intros [] s4 (Hok4 & Hst4 & Hp4). rewrite (env_nodes _ _ _ He3) in Hp4. split_and!; [done|by eapply vstep_held|].
      intros q. apply (sp_pages k s s4). by eapply back_split; [apply Hrc|..].
Qed.
Lemma reg_kept k s s' :
  sok s k -> (forall j, space s' j = space s j) -> vs_this s' = vs_this s -> vm_disable_merging s' = vm_disable_merging s ->
  (forall i, vr_size (vs_region s' i) = vr_size (vs_region s i) /\ vr_type (vs_region s' i) = vr_type (vs_region s i) /\
     vr_flags (vs_region s' i) = vr_flags (vs_region s i) /\ (forall q, vr_refs (vs_region s' i) q = vr_refs (vs_region s i) q) /\
     vr_refcnt (vs_region s' i) = vr_refcnt (vs_region s i)) -> kept k s s'.
Proof.
  intros Hok Hsp Ht Hm Hr. split; [..|intros q; unfold pages, nodes; by rewrite Hsp].
  - unfold sok. rewrite Hsp. eapply space_ok_regions; [|exact Hok]. intros i. apply Hr.
  - apply vstep_exact; try done; [intros i; by destruct (Hr i) as (? & ? & ? & _)|intros i q|intros i]; rewrite Hsp;
      destruct (Hr i) as (_ & _ & _ & Hq & Hc); [by rewrite Hq|by rewrite Hc].
Qed.
(** Code that runs with references for the node, which are given back when it throws. *)
Lemma with_refs_ok {A} k node s (m : VM A) (Q : A -> vst -> Prop) (R : error_code -> vst -> Prop) :
  sok s k ->
  (forall s', sok s' k -> vstep k s [] s' [node] -> nodes s' k = nodes s k ->
     srun m s' Q (fun _ s'' => sok s'' k /\ vstep k s [] s'' [node] /\ forall q, pages s'' k q = pages s k q)) ->
  (forall e s', kept k s s' -> R e s') ->
  srun (vm_region_incref (vn_region node) ≫= fun _ =>
        on_error
          (vm_region_incref_range (vn_region node) (vn_start node) (VM_NODE_SIZE node) ≫= fun _ =>
           on_error m (vm_region_decref_range (vn_region node) (vn_start node) (VM_NODE_SIZE node)))
          (vm_region_decref (vn_region node))) s Q R.
Proof.
  intros Hok Hm HR. apply srun_bind, srun_refcnt. intros s1 Hsp1 Ht1 Hm1 Hr1.
  apply srun_on_error, srun_bind. unfold vm_region_incref_range. apply srun_bind, request_run.
  2: { intros e s2 He2. apply srun_refcnt. intros s3 Hsp3 Ht3 Hm3 Hr3. apply HR. destruct He2 as [Hsp2 Hr2 Ht2 Hm2].
       apply reg_kept; [done|intros j; congruence|congruence|congruence|]. intros i. rewrite Hr2 in Hr3.
       destruct (Hr1 i) as (? & ? & ? & Hq1 & Hc1), (Hr3 i) as (? & ? & ? & Hq3 & Hc3).
       split_and!; try congruence. rewrite Hc3, Hc1. case_match; lia. }
  intros s2 [Hsp2 Hr2 Ht2 Hm2]. apply srun_refs. intros s3 Hsp3 Ht3 Hm3 Hr3.
  assert (Hsp : forall j, space s3 j = space s j) by (intros j; congruence).
  rewrite Hr2 in Hr3. assert (Hsz : forall i, vr_size (vs_region s3 i) = vr_size (vs_region s i)).
  { intros i. destruct (Hr1 i) as (? & _), (Hr3 i) as (? & _). congruence. }
  apply srun_on_error. eapply srun_mono; [apply Hm|done|]; cbv beta.
  - unfold sok. rewrite Hsp. by eapply space_ok_regions.
  - apply vstep_exact; [apply Hsp|congruence|congruence|..].
    + intros i. destruct (Hr1 i) as (? & ? & ? & _), (Hr3 i) as (? & ? & ? & _). split_and!; congruence.
    + intros i q. rewrite Hsp. destruct (Hr1 i) as (_ & _ & _ & Hq1 & _), (Hr3 i) as (_ & _ & _ & _ & Hq3).
      rewrite Hq3, Hq1. rewrite uses_cons. unfold use. cbn. case_match; lia.
    + intros i. rewrite Hsp. destruct (Hr1 i) as (_ & _ & _ & _ & Hc1), (Hr3 i) as (_ & _ & _ & Hc3 & _).
      rewrite Hc3, Hc1, maps_cons. cbn. lia.
  - unfold nodes. by rewrite Hsp.
  - intros e s4 (Hok4 & Hst4 & Hpg4). apply srun_unbind. eapply (drop_node_ok k node [] s s4); [done..|].
    intros s5 Hst5 Hok5 Hn5. apply HR. split; [done..|]. intros q. rewrite <- Hpg4. unfold pages. by rewrite Hn5.
Qed.
Lemma notify_incref_ok node s (Q : vm_node -> vst -> Prop) (R : error_code -> vst -> Prop) :
  (forall c s', env s s' -> Q (with_closure node c) s') -> (forall e s', env s s' -> R e s') ->
  srun (notify_incref node) s Q R.
Proof.
  intros HQ HR. unfold notify_incref. case_match.
  - apply srun_ret. replace node with (with_closure node (vn_closure node)) at 1 by (by destruct node). by apply HQ.
  - apply srun_bind, srun_notify; [|done]. intros c s1 He. apply srun_ret. by apply HQ.
Qed.
(** The range of the node maps the node, everything else is as it was. *)
Record mapped_to (k : bool) (s : vst) (page n r start prot : Z) (s' : vst) : Prop := {
  mt_ok : sok s' k;
  mt_step : vstep k s [] s' [];
  mt_pages : forall q, pages s' k q =
    if (page <=? q) && (q <? page + n) then Some (r, start + (q - page), prot) else pages s k q;
}.
Lemma overlay_mapped k s s' node n :
  VM_NODE_SIZE node = n -> sok s' k -> vstep k s [] s' [] -> (forall q, pages s' k q = overlay node (pages s k) q) ->
  mapped_to k s (a_vmin node) n (vn_region node) (vn_start node) (vn_prot node) s'.
Proof.
  intros <- Hok Hst Hpg. split; [done..|]. intros q. rewrite Hpg. unfold overlay, covers, content, VM_NODE_SIZE. cbn.
  do 2 case_match; done || lia.
Qed.
Lemma mapat_ok page n start r prot notify closure s :
  let k := effective s page in
  sok s k -> 0 <= page -> 0 < n -> page + n <= VM_VPAGE_MAX -> mutable_in (nodes s k) page n ->
  0 <= start -> start + n <= vr_size (vs_region s r) -> vr_size (vs_region s r) < 2 ^ 32 -> vm_disable_merging s = true ->
  srun (vm_mapat page n start r prot notify closure) s
    (fun _ s' => mapped_to k s page n r start prot s') (fun _ s' => kept k s s').
Proof.
  intros k Hok Hp Hn He Hmut Hs Hsz Hszm Hoff. unfold vm_mapat. replace (n =? 0) with false by lia.
  apply srun_bind, srun_get. cbv zeta. fold k. apply srun_bind, range_checks_ok; [done..|].
  rewrite (u32_small (start + n)) by lia. apply srun_bind, srun_check; [lia|]. apply srun_bind, srun_check; [lia|].
  apply srun_bind, request_run; [|intros e s1 He1; by apply env_kept]. intros s1 He1.
  apply srun_bind, notify_incref_ok; [|intros e s2 He2; apply env_kept; [done|by etransitivity]].
  intros c s2 He2. assert (He12 : env s s2) by (by etransitivity). pose proof (env_sok _ _ _ He12 Hok) as Hok2.
  pose proof (env_kept _ _ _ Hok He12) as Hk2. set (node := with_closure _ c).
  assert (Esz : VM_NODE_SIZE node = n) by (unfold VM_NODE_SIZE; cbn; lia). rewrite <- Esz.
  change r with (vn_region node) at 1 2 3 4. change start with (vn_start node) at 1 2.
  apply (with_refs_ok k); [done|..]; cbv beta; [|intros e s3 Hk3; by eapply kept_trans].
  intros s3 Hok3 Hst3 Hn3. apply srun_bind, request_run.
  2: { intros e s4 He4. split_and!; [by eapply env_sok|eapply vstep_trans; [exact Hst3|by apply env_step]|].
       intros q. unfold pages. by rewrite (env_nodes _ _ _ He4), Hn3. }
  intros s4 He4. assert (Hpg4 : forall q, pages s4 k q = pages s2 k q).
  { intros q. unfold pages. by rewrite (env_nodes _ _ _ He4), Hn3. }
  apply srun_bind. eapply srun_mono; [apply (replace_range_ok s2 s4 k node)|..]; cbv beta.
  - by eapply env_sok.
  - eapply vstep_trans; [exact Hst3|by apply env_step].
  - split_and!; [unfold fits; cbn; lia..|cbn; lia|]. rewrite Esz, (ev_region _ _ He4). cbn.
    rewrite (vstep_sizes _ _ _ _ _ _ Hst3), (ev_region _ _ He12). lia.
  - cbn. lia.
  - rewrite Esz, (env_nodes _ _ _ He4), Hn3, (env_nodes _ _ _ He12). exact Hmut.
  - rewrite (ev_merging _ _ He4), (vt_merging _ _ _ _ _ Hst3), (ev_merging _ _ He12). exact Hoff.
  - intros ps s5 (Hok5 & Hst5 & Hpg5 & Hw5). apply srun_bind, srun_check.
    { apply forallb_forall. intros x Hx%list_elem_of_In. rewrite Forall_forall in Hw5. specialize (Hw5 x Hx).
      unfold within, inside_of, VM_NODE_SIZE in *. lia. }
    eapply srun_mono; [apply (drop_nodes_ok k ps s2 s5); done|..|done]; cbv beta.
    intros [] s6 (Hst6 & Hok6 & Hn6). apply (overlay_mapped k s s6 node (VM_NODE_SIZE node)); [done..| |].
    + eapply vstep_trans; [apply Hk2|done].
    + intros q. transitivity (pages s5 k q); [unfold pages; by rewrite Hn6|]. rewrite Hpg5. unfold overlay.
      case_match; [done|]. rewrite Hpg4. apply Hk2.
  - intros e s5 (? & ? & Hpg5). split_and!; [done..|]. intros q. by rewrite Hpg5, Hpg4.
Qed.

(** * Looking up *)
(** C34: Looking a page or a range up in the tree agrees with a search through the list of
    all nodes. *)
Theorem vm_lookup_equiv s lo hi :
  let k := effective s lo in
  sok s k -> 0 <= lo <= VM_VPAGE_MAX ->
  vm_getnode lo s = SRet (List.find (fun x => covers x lo) (nodes s k)) s /\
  is_none (vm_getanynode s lo hi) = forallb (fun x => negb (in_range lo hi x)) (nodes s k).
Proof.
  intros k Hok Hlo. pose proof Hok as [Ht Hl _ _]. split.
  - unfold vm_getnode, slift. fold k. destruct (locate_ok _ bits_pos _ lo Ht) as (o & -> & Ho).
    { unfold VM_VPAGE_MAX, VM_PAGE_BITS in *. lia. }
    f_equal. destruct (List.find _ _) as [y|] eqn:E.
    + apply find_some in E as [Hy%list_elem_of_In Hc]. destruct o as [x|].
      * destruct Ho as [Hx Hcx]. rewrite <- Hl in Hx. f_equal. by apply (covers_unique (nodes s k) x y lo (sok_separated _ _ Hok)).
      * unfold nodes in Hy. rewrite Hl in Hy. by rewrite Ho in Hc.
    + destruct o as [x|]; [|done]. destruct Ho as [Hx Hcx]. rewrite <- Hl in Hx. apply list_elem_of_In in Hx.
      by rewrite (find_none _ _ E x Hx) in Hcx.
  - unfold vm_getanynode. fold k. pose proof (space_findany _ _ lo hi Hok) as H. symmetry.
    destruct (vm_findany _ _ _) as [x|]; cbn.
    + destruct H as [Hx Hr]. apply not_true_iff_false. rewrite forallb_forall. intros Hall.
      specialize (Hall x (proj1 (list_elem_of_In _ _) Hx)). by rewrite Hr in Hall.
    + apply forallb_forall. intros x Hx%list_elem_of_In. by rewrite H.
Qed.
