(* ===== verification/VmProt.v ===== *)
(** Changing the protection of mappings, and finding free ranges. *)
From S2P Require Import Prelude.
From stdpp Require Import list sorting sets.
From S2P Require Import ATree Vm VmInv VmOps.
#[local] Open Scope Z_scope.

(** * Protection *)
(** Changing nodes in place, in a way that keeps their ranges and regions. *)
Definition same_place (f : vm_node -> vm_node) : Prop := forall x,
  a_vmin (f x) = a_vmin x /\ a_vmax (f x) = a_vmax x /\ vn_region (f x) = vn_region x /\
  vn_start (f x) = vn_start x.
Lemma aelems_amap f t : aelems (amap f t) = map f (aelems t).
Proof. induction t as [|l IHl x r IHr]; cbn; [done|]. by rewrite IHl, IHr, map_app. Qed.
Section Amap.
Context (f : vm_node -> vm_node) (Hf : same_place f).
Lemma amap_wf t base level : tree_wf t base level -> tree_wf (amap f t) base level.
Proof.
  revert base level. induction t as [|l IHl x r IHr]; intros base level; [done|]. cbn.
  intros (Hx & Hl & Hr). split_and!; [|by apply IHl|by apply IHr].
  destruct (Hf x) as (H1 & H2 & _). unfold in_slot in *. cbn in *. by rewrite H1, H2.
Qed.
Lemma map_separated l : separated l -> separated (map f l).
Proof.
  induction l as [|x l IH]; cbn; [done|]. intros [Hx Hl]. split; [|auto].
  apply Forall_map. eapply Forall_impl; [exact Hx|]. intros y. cbn. destruct (Hf x) as (H1 & H2 & _), (Hf y) as (H3 & H4 & _).
  unfold disjoint. cbn. by rewrite H1, H2, H3, H4.
Qed.
Lemma map_ordered l : ordered l -> ordered (map f l).
Proof.
  induction 1 as [|x l Ho IH Hx]; cbn; constructor; [done|]. apply Forall_map. eapply Forall_impl; [exact Hx|].
  intros y. cbn. destruct (Hf x) as (H1 & H2 & _), (Hf y) as (H3 & H4 & _). unfold before. by rewrite H2, H3.
Qed.
Lemma map_nodes_ok rs l : Forall (node_ok rs) l -> Forall (node_ok rs) (map f l).
Proof.
  intros H. apply Forall_map. eapply Forall_impl; [exact H|]. intros x. cbn. destruct (Hf x) as (H1 & H2 & H3 & H4).
  unfold node_ok, fits, VM_NODE_SIZE. by rewrite H1, H2, H3, H4.
Qed.
Lemma map_uses l r q : uses (map f l) r q = uses l r q.
Proof.
  induction l as [|x l IH]; [done|]. cbn [map]. rewrite !uses_cons, IH. destruct (Hf x) as (H1 & H2 & H3 & H4).
  unfold use, VM_NODE_SIZE. by rewrite H1, H2, H3, H4.
Qed.
Lemma map_maps l r : maps_of (map f l) r = maps_of l r.
Proof.
  induction l as [|x l IH]; [done|]. cbn [map]. rewrite !maps_cons, IH. destruct (Hf x) as (_ & _ & H3 & _).
  by rewrite H3.
Qed.
Lemma map_space_ok rs v : space_ok rs v -> space_ok rs (MkSpace (amap f (vm_map v)) (map f (vm_byaddr v))).
Proof.
  intros [[Hwf Hs] Hl Ho Hn]. split; cbn.
  - split; [by apply amap_wf|]. rewrite aelems_amap. by apply map_separated.
  - rewrite aelems_amap. by apply Permutation_map.
  - by apply map_ordered.
  - by apply map_nodes_ok.
Qed.
End Amap.
Lemma amap_ext f g t : (forall x, x ∈ aelems t -> f x = g x) -> amap f t = amap g t.
Proof.
  induction t as [|l IHl x r IHr]; cbn; [done|]. intros H. rewrite H by (by left).
  rewrite IHl, IHr; [done|..]; intros y Hy; apply H; right; apply elem_of_app; auto.
Qed.
Lemma amap_amap f g t : amap f (amap g t) = amap (fun x => f (g x)) t.
Proof. induction t as [|l IHl x r IHr]; cbn; [done|]. by rewrite IHl, IHr. Qed.

Lemma amap_id t : amap (fun x => x) t = t.
Proof. induction t as [|l IHl x r IHr]; cbn; congruence. Qed.

Section Protect.
Context (k : bool) (lo hi mask fl mode tag : Z).
Definition newp (x : vm_node) : Z := Z.lor (Z.land (vn_prot x) mask) fl.
Definition psel (x : vm_node) : bool :=
  in_range lo hi x && (negb (flag mode VM_PROTECT_TAG) || (vn_closure x =? tag)).
(** The nodes of [S] have got their new protection. *)
Definition prot_of (S : list vm_node) (x : vm_node) : vm_node :=
  if bool_decide (x ∈ S) then with_prot x (newp x) else x.
Lemma prot_place S : same_place (prot_of S).
Proof. intros x. unfold prot_of. by case_match. Qed.
Record reprot (s0 : vst) (S : list vm_node) (s : vst) : Prop := {
  rp_space : space s k = MkSpace (amap (prot_of S) (vm_map (space s0 k))) (map (prot_of S) (nodes s0 k));
  rp_other : space s (negb k) = space s0 (negb k);
  rp_region : vs_region s = vs_region s0;
  rp_this : vs_this s = vs_this s0;
  rp_merging : vm_disable_merging s = vm_disable_merging s0;
}.
Lemma reprot_sok s0 S s : sok s0 k -> reprot s0 S s -> sok s k.
Proof. intros Hok [Hsp _ Hr _ _]. unfold sok. rewrite Hsp, Hr. by apply map_space_ok; [apply prot_place|]. Qed.
Lemma reprot_step s0 S s : reprot s0 S s -> vstep k s0 [] s [].
Proof.
  intros [Hsp Ho Hr Ht Hm]. apply vstep_exact; try done; rewrite ?Hr; try done; rewrite Hsp; cbn [vm_byaddr].
  - intros r q. rewrite map_uses by apply prot_place. done.
  - intros r. rewrite map_maps by apply prot_place. done.
Qed.
Lemma reprot_env s0 S s s' : env s s' -> reprot s0 S s -> reprot s0 S s'.
Proof. intros [He Hr Ht Hm] [? ? ? ? ?]. split; rewrite ?He, ?Hr, ?Ht, ?Hm; done. Qed.
Lemma reprot_add s0 S s x :
  sok s0 k -> reprot s0 S s -> x ∈ nodes s0 k -> x ∉ S ->
  srun (if newp x =? vn_prot x then mret tt
        else store_prot k x (newp x) ≫= fun _ => vm_map_node (with_prot x (newp x))) s
    (fun _ s' => reprot s0 (x :: S) s') (fun _ s' => reprot s0 (x :: S) s').
Proof.
  intros Hok Hrp Hx HS. pose proof Hok as [[_ Hsep] Hl _ Hn]. rewrite Forall_forall in Hn.
  assert (Hnew : prot_of (x :: S) x = with_prot x (newp x)) by (unfold prot_of; rewrite bool_decide_true; [done|by left]).
  assert (Hold : prot_of S x = x) by (unfold prot_of; by rewrite bool_decide_false).
  assert (Hother : forall y, y <> x -> prot_of (x :: S) y = prot_of S y).
  { intros y Hne. unfold prot_of. erewrite bool_decide_ext; [done|]. rewrite elem_of_cons. naive_solver. }
  destruct (Z.eqb_spec (newp x) (vn_prot x)) as [E|E].
  { assert (Hsame : forall y, prot_of S y = prot_of (x :: S) y).
    { intros y. destruct (decide (y = x)) as [->|Hne]; [|by rewrite Hother]. rewrite Hnew, Hold, E. by destruct x. }
    apply srun_ret. destruct Hrp as [Hsp ? ? ? ?]. split; try done. rewrite Hsp. f_equal.
    - apply amap_ext. intros y _. apply Hsame.
    - apply map_ext. intros y. apply Hsame. }
  assert (Hext : forall y, y ∈ nodes s0 k ->
    (if bool_decide (prot_of S y = x) then with_prot x (newp x) else prot_of S y) = prot_of (x :: S) y).
  { intros y Hy. destruct (decide (y = x)) as [->|Hne]; [by rewrite Hold, Hnew, bool_decide_true|].
    rewrite Hother by done. rewrite bool_decide_false; [done|].
    intros Heq. destruct (prot_place S y) as (H1 & H2 & _). rewrite Heq in H1, H2. apply Hne.
    apply (covers_unique (nodes s0 k) y x (a_vmin x)); try done; [by apply sok_separated|..];
      pose proof (sok_fits _ _ _ Hok Hx); unfold covers, fits in *; cbn; lia. }
  apply srun_bind. unfold store_prot. apply srun_bind, srun_get_space, srun_set_space.
  set (s1 := with_space s k _). assert (Hrp1 : reprot s0 (x :: S) s1).
  { destruct Hrp as [Hsp Ho Hr Ht Hm]. split; try done; [|unfold s1; by rewrite space_with_other].
    unfold s1. rewrite space_with, Hsp. cbn [vm_map vm_byaddr]. f_equal.
    - rewrite amap_amap. apply amap_ext. intros y Hy. apply Hext. unfold nodes. by rewrite Hl.
    - rewrite map_map. apply map_ext_in. intros y Hy%list_elem_of_In. by apply Hext. }
  eapply srun_mono; [apply (env_map_node s1 (with_prot x (newp x)))|..]; cbv beta; try done.
  - rewrite (rp_region _ _ _ Hrp1). by destruct (Hn x Hx) as (? & ? & ?).
  - intros _ s2 He. by eapply reprot_env.
  - intros _ s2 He. by eapply reprot_env.
Qed.
Lemma protect_node_ok s0 S s x :
  sok s0 k -> reprot s0 S s -> x ∈ nodes s0 k -> x ∉ S ->
  srun (protect_node k x lo hi mask fl mode tag) s
    (fun r s' => reprot s0 (if psel x then x :: S else S) s' /\ r = if psel x then VM_NODE_SIZE x else 0)
    (fun _ s' => psel x = true /\ reprot s0 (x :: S) s').
Proof.
  intros Hok Hrp Hx HS. unfold protect_node. fold (psel x). fold (newp x).
  destruct (psel x); [|by apply srun_ret]. apply srun_bind.
  eapply srun_mono; [by apply reprot_add|..]; cbv beta; [|done]. intros [] s' Hrp'. by apply srun_ret.
Qed.
(** Walking a part of the tree: [L] are the nodes that have got their new protection. *)
Definition fresh (s0 : vst) (S l : list vm_node) : Prop := forall x, x ∈ l -> x ∈ nodes s0 k /\ x ∉ S.
Definition walked (s0 : vst) (c : Z) (S l : list vm_node) (r : Z) (s' : vst) : Prop :=
  exists L, L ≡ₚ filter (fun x => psel x = true) l /\ reprot s0 (L ++ S) s' /\ u32 r = u32 (c + sizes L).
Definition walk_failed (s0 : vst) (S l : list vm_node) (s' : vst) : Prop :=
  exists L, L ⊆ filter (fun x => psel x = true) l /\ reprot s0 (L ++ S) s'.
Lemma walked_none s0 c S l r s :
  reprot s0 S s -> (forall y, y ∈ l -> in_range lo hi y = false) -> u32 r = u32 c -> walked s0 c S l r s.
Proof.
  intros Hrp Hl Hr. exists []. split_and!; try done; [|rewrite Hr; f_equal; cbn; lia].
  rewrite filter_none; [done|]. apply Forall_forall. intros x Hx. unfold psel. by rewrite Hl.
Qed.
Lemma sizes_app l l' : sizes (l ++ l') = sizes l + sizes l'.
Proof. induction l as [|x l IH]; [done|]. cbn. fold (sizes (l ++ l')) (sizes l). lia. Qed.
Lemma sizes_perm l l' : l ≡ₚ l' -> sizes l = sizes l'.
Proof. induction 1; unfold sizes in *; cbn; lia. Qed.
Lemma fresh_walked s0 S L l l' :
  fresh s0 S l -> NoDup (l ++ l') -> L ⊆ filter (fun x => psel x = true) l' -> fresh s0 (L ++ S) l.
Proof.
  intros Hf Hnd HL x Hx. destruct (Hf x Hx) as [Hin HS]. split; [done|]. intros [H|H]%elem_of_app; [|done].
  apply HL, list_elem_of_filter in H as [_ H]. apply NoDup_app in Hnd as (_ & Hd & _). by apply (Hd x).
Qed.
Lemma u32_add_cong a b c : u32 a = u32 b -> u32 (a + c) = u32 (b + c).
Proof. unfold u32, wrap. intros H. by rewrite <- Zplus_mod_idemp_l, H, Zplus_mod_idemp_l. Qed.
Lemma u32_idem a : u32 (u32 a) = u32 a.
Proof. apply u32_small, u32_range. Qed.
(** Two parts, one after the other. *)
Lemma walk_seq s0 c d S l l' (m : VM Z) (f : Z -> VM Z) s :
  NoDup (l' ++ l) -> fresh s0 S l' ->
  srun m s (walked s0 c S l) (fun _ => walk_failed s0 S l) ->
  (forall r L s1, reprot s0 (L ++ S) s1 -> fresh s0 (L ++ S) l' ->
     srun (f r) s1 (walked s0 (d + r) (L ++ S) l') (fun _ => walk_failed s0 (L ++ S) l')) ->
  srun (m ≫= f) s (walked s0 (d + c) S (l ++ l')) (fun _ => walk_failed s0 S (l ++ l')).
Proof.
  intros Hnd Hfr Hm Hf. apply srun_bind. eapply srun_mono; [exact Hm|..]; cbv beta.
  - intros r s1 (L & HL & Hrp & Hr). eapply srun_mono; [apply (Hf r L s1 Hrp)|..]; cbv beta.
    + eapply fresh_walked; [done..|]. by rewrite HL.
    + intros r' s' (L' & HL' & Hrp' & Hr'). exists (L' ++ L). rewrite filter_app, <- app_assoc. split_and!; [|done|].
      * rewrite HL, HL'. apply Permutation_app_comm.
      * rewrite sizes_app, Hr'. replace (d + r + sizes L') with (r + (d + sizes L')) by lia.
        rewrite (u32_add_cong _ _ _ Hr). f_equal. lia.
    + intros _ s' (L' & HL' & Hrp'). exists (L' ++ L). rewrite filter_app, <- app_assoc. split; [|done].
      intros x [Hx|Hx]%elem_of_app; apply elem_of_app; [right; by apply HL'|left; by rewrite <- HL].
  - intros _ s1 (L & HL & Hrp). exists L. split; [|done]. rewrite filter_app. intros x Hx. apply elem_of_app. left. by apply HL.
Qed.
Lemma walked_offset s0 c S l r s' : walked s0 0 S l r s' -> walked s0 c S l (u32 (c + r)) s'.
Proof.
  intros (L & HL & Hrp & Hr). exists L. split_and!; [done..|]. rewrite u32_idem, Z.add_comm.
  rewrite (u32_add_cong _ _ c Hr). f_equal. lia.
Qed.
Lemma protect_walk s0 t base semi level S s :
  sok s0 k -> slot_at VM_PAGE_BITS base semi level -> tree_wf t base level -> NoDup (aelems t) ->
  fresh s0 S (aelems t) -> reprot s0 S s ->
  srun (impl_vm_protect k t lo hi semi level mask fl mode tag) s
    (walked s0 0 S (aelems t)) (fun _ => walk_failed s0 S (aelems t)).
Proof.
  intros Hok. revert base semi level S s.
  induction t as [|l IHl x r IHr]; intros base semi level S s Hat Hwf Hnd Hfr Hrp.
  { apply srun_ret. apply walked_none; [done| |done]. intros y Hy. by apply elem_of_nil in Hy. }
  destruct (branch_sides _ _ _ _ _ _ Hat Hwf) as (Hsl & Hsr & Hlv). cbn [impl_vm_protect aelems] in *.
  assert (Hx : srun (protect_node k x lo hi mask fl mode tag) s (walked s0 0 S [x]) (fun _ => walk_failed s0 S [x])).
  { destruct (Hfr x ltac:(by left)) as [Hin HS]. eapply srun_mono; [by apply protect_node_ok|..]; cbv beta.
    - intros r' s' [Hrp' ->]. exists (if psel x then [x] else []). rewrite filter_cons, filter_nil.
      destruct (psel x); split_and!; try done. cbn. f_equal. lia.
    - intros _ s' [Hsel Hrp']. exists [x]. rewrite filter_cons, filter_nil, Hsel. done. }
  assert (Hperm : x :: aelems l ++ aelems r ≡ₚ [x] ++ aelems r ++ aelems l) by (cbn; by rewrite (Permutation_app_comm (aelems l))).
  rewrite Hperm in Hnd. assert (Hfr' : fresh s0 S (aelems r ++ aelems l)).
  { intros y Hy. apply Hfr. rewrite Hperm. by right. }
  eapply srun_mono; [apply (walk_seq s0 0 0 S [x] (aelems r ++ aelems l)); [by rewrite Permutation_app_comm|done|exact Hx|]|..];
    cbv beta.
  2: { intros r' s' (L & HL & ?). exists L. split; [|done]. rewrite HL. by apply filter_Permutation. }
  2: { intros _ s' (L & HL & ?). exists L. split; [|done]. intros y Hy%HL.
       rewrite list_elem_of_filter in Hy |- *. by rewrite Hperm. }
  clear Hx Hfr Hfr' s Hrp. intros c L s1 Hrp1 Hfr. rewrite Z.add_0_l. apply NoDup_app in Hnd as (_ & _ & Hnd).
  destruct Hlv as [Hlv|[-> ->]].
  2: { rewrite !andb_false_r. do 2 case_match. apply srun_ret, walked_none; [done| |done].
       intros y Hy. by apply elem_of_nil in Hy. }
  destruct (walk_slots _ _ _ Hat Hlv) as (smin & smax & -> & -> & Hmin & Hmax).
  destruct Hwf as (_ & Hwl & Hwr). destruct (skip_branches l r lo hi semi Hsl Hsr) as [Hnl Hnr].
  assert (Hr : srun (if (semi <=? hi) && nonnil r then impl_vm_protect k r lo hi smax (level - 1) mask fl mode tag else mret 0) s1
    (walked s0 0 (L ++ S) (aelems r)) (fun _ => walk_failed s0 (L ++ S) (aelems r))).
  { case_match; [|by apply srun_ret, walked_none; auto]. eapply IHr; [exact Hmax|done|..|done].
    - by apply NoDup_app in Hnd as (? & _).
    - intros y Hy. apply Hfr, elem_of_app. by left. }
  assert (Hnl' : (lo <? semi) && nonnil l = false -> forall c' S' s', reprot s0 S' s' -> walked s0 c' S' (aelems l) c' s').
  { intros Hw c' S' s' Hrp. apply walked_none; auto. }
  assert (Hl : forall c' L' s', reprot s0 (L' ++ L ++ S) s' -> fresh s0 (L' ++ L ++ S) (aelems l) ->
    srun (rest ← impl_vm_protect k l lo hi smin (level - 1) mask fl mode tag; mret (u32 (c' + rest))) s'
      (walked s0 c' (L' ++ L ++ S) (aelems l)) (fun _ => walk_failed s0 (L' ++ L ++ S) (aelems l))).
  { intros c' L' s' Hrp' Hfr'. apply srun_bind. eapply srun_mono; [eapply IHl; [exact Hmin|done| |exact Hfr'|done]|..|done]; cbv beta.
    - by apply NoDup_app in Hnd as (_ & _ & ?).
    - intros r' s2 Hw. by apply srun_ret, walked_offset. }
  assert (Hfl : fresh s0 (L ++ S) (aelems l)) by (intros y Hy; apply Hfr, elem_of_app; by right).
  cbv beta iota zeta. destruct ((lo <? semi) && nonnil l).
  - replace (walked s0 c) with (walked s0 (c + 0)) by (by rewrite Z.add_0_r). eapply walk_seq; [by rewrite Permutation_app_comm|done|exact Hr|]. cbv beta. intros more L' s2 Hrp2 Hfr2. auto.
  - assert (Hskip : srun ((if (semi <=? hi) && nonnil r then impl_vm_protect k r lo hi smax (level - 1) mask fl mode tag else mret 0) ≫=
      fun r' => mret (c + r')) s1 (walked s0 (c + 0) (L ++ S) (aelems r ++ aelems l)) (fun _ => walk_failed s0 (L ++ S) (aelems r ++ aelems l))).
    { eapply walk_seq; [by rewrite Permutation_app_comm|done|exact Hr|]. intros r' L' s2 Hrp2 _. apply srun_ret. auto. }
    rewrite Z.add_0_r in Hskip. destruct ((semi <=? hi) && nonnil r).
    + apply srun_bind. apply srun_unbind in Hskip. eapply srun_mono; [exact Hskip|..|done]; cbv beta.
      intros r' s2 (L2 & ? & ? & Hu). apply srun_ret. exists L2. by rewrite u32_idem.
    + apply srun_unbind in Hskip. destruct Hskip as (L2 & ? & ? & Hu). apply srun_ret. exists L2. by rewrite Z.add_0_r in Hu.
Qed.
Lemma protect_range s t semi level r s' :
  Forall fits (aelems t) -> impl_vm_protect k t lo hi semi level mask fl mode tag s = SRet r s' -> 0 <= r < 2 ^ 32.
Proof.
  destruct t as [|l x rt]; [by intros _ [= <- _]|]. cbn [impl_vm_protect aelems]. intros [Hx _]%Forall_cons.
  unfold mbind, SM_bind at 1. destruct (protect_node k x lo hi mask fl mode tag s) as [r0 s1|e s1|] eqn:E; [|done..].
  assert (Hr0 : 0 <= r0 < 2 ^ 32).
  { revert E. unfold protect_node. destruct (in_range lo hi x && _); [|by intros [= <- _]].
    unfold mbind, SM_bind at 1. destruct (if _ =? _ then _ else _) as [? ?|? ?|] ; [|done..]. intros [= <- _].
    unfold fits, VM_NODE_SIZE, VM_VPAGE_MAX in *. lia. }
  do 2 case_match. pose proof u32_range. repeat (case_match; try done); unfold mbind, SM_bind;
    repeat (case_match; try done); unfold mret, SM_ret; intros [= <- _]; auto.
Qed.
(** ** What the pages become *)
Definition reprotected (c : Z * Z * Z) : Z * Z * Z := (fst (fst c), snd (fst c), Z.lor (Z.land (snd c) mask) fl).
Lemma reprot_page s0 S s q x :
  sok s0 k -> reprot s0 S s -> x ∈ nodes s0 k -> covers x q = true ->
  pages s k q = Some (if bool_decide (x ∈ S) then reprotected (content x q) else content x q).
Proof.
  intros Hok Hrp Hx Hc. pose proof (sok_separated _ _ (reprot_sok _ _ _ Hok Hrp)) as Hs.
  unfold pages, nodes in *. rewrite (rp_space _ _ _ Hrp) in *. cbn [vm_byaddr] in *.
  rewrite (page_at_in _ q (prot_of S x)); [|done|by apply list_elem_of_fmap_2|]; unfold prot_of; by case_match.
Qed.
Lemma reprot_hole s0 S s q : reprot s0 S s -> pages s0 k q = None -> pages s k q = None.
Proof.
  intros Hrp. unfold pages, nodes. rewrite (rp_space _ _ _ Hrp). cbn [vm_byaddr]. rewrite !page_at_none. intros H x.
  intros (y & -> & Hy)%list_elem_of_fmap. destruct (prot_place S y) as (H1 & H2 & _).
  unfold covers in *. cbn in *. rewrite H1, H2. by apply H.
Qed.
End Protect.
(** The pages of the range have their new protection, everything else is as it was. *)
Record protected (k : bool) (s : vst) (page n mask fl : Z) (s' : vst) : Prop := {
  pr_ok : sok s' k;
  pr_step : vstep k s [] s' [];
  pr_pages : forall q, pages s' k q =
    if (page <=? q) && (q <? page + n) then reprotected mask fl <$> pages s k q else pages s k q;
}.
(** Some of the pages of the range have. *)
Record partly_protected (k : bool) (s : vst) (page n mask fl : Z) (s' : vst) : Prop := {
  pp_ok : sok s' k;
  pp_step : vstep k s [] s' [];
  pp_pages : forall q, pages s' k q = pages s k q \/
    page <= q < page + n /\ pages s' k q = reprotected mask fl <$> pages s k q;
}.
Lemma kept_partly k s page n mask fl s' : kept k s s' -> partly_protected k s page n mask fl s'.
Proof. intros [? ? Hp]. split; try done. intros q. by left. Qed.
Lemma count_kept s s' k lo n : (forall q, pages s' k q = pages s k q) ->
  mapped_pages (nodes s k) lo n = mapped_pages (nodes s' k) lo n.
Proof.
  intros H. unfold mapped_pages. do 2 f_equal. apply filter_ext_in. intros q _. unfold pages in H. by rewrite H.
Qed.
(** The sizes of the nodes of a range count its pages. *)
Lemma in_range_count s k lo n :
  sok s k -> 0 <= n < 2 ^ 32 -> (forall x, x ∈ nodes s k -> in_range lo (lo + n - 1) x = true -> within lo n x) ->
  u32 (sizes (filter (fun x => in_range lo (lo + n - 1) x = true) (nodes s k))) = mapped_pages (nodes s k) lo n.
Proof.
  intros Hok Hn Hw. pose proof (sok_separated _ _ Hok) as Hsep. set (ps := filter _ _).
  pose proof (filter_app_complement (fun x => in_range lo (lo + n - 1) x = true) (nodes s k)) as Hp.
  fold ps in Hp. symmetry in Hp. assert (Hwp : Forall (within lo n) ps).
  { apply Forall_forall. intros x [Hr Hx]%list_elem_of_filter. by apply Hw. }
  assert (Hfp : Forall fits ps).
  { apply Forall_forall. intros x [_ Hx]%list_elem_of_filter. by eapply sok_fits. }
  pose proof (separated_perm _ _ Hp Hsep) as Hsp. apply separated_app in Hsp as (Hsp & _).
  destruct (taken_pages _ ps _ lo n Hsep Hp Hwp) as [_ ->].
  { apply Forall_forall. intros x [Hx _]%list_elem_of_filter. by destruct (in_range lo (lo + n - 1) x). }
  pose proof (sizes_bound ps lo n Hsp Hfp Hwp) as Hb. pose proof (count_pages ps lo n Hsp Hfp Hwp) as Hc.
  rewrite Hc. apply u32_small. rewrite <- Hc in *. unfold mapped_pages in *. lia.
Qed.
Lemma srun_eqn {S A} (m : SM S A) s (Q : A -> S -> Prop) (R : error_code -> S -> Prop) :
  srun m s (fun a s' => m s = SRet a s' -> Q a s') R -> srun m s Q R.
Proof. unfold srun. destruct (m s); auto. Qed.
Lemma protect_range_ok k lo n mask fl mode tag s0 s :
  range_cut k s0 lo n s -> 0 < n -> n < 2 ^ 32 -> flag mode VM_PROTECT_TAG = false ->
  srun (impl_vm_protect k (vm_map (space s k)) lo (lo + n - 1) VM_SEMI0 VM_LEVEL0 mask fl mode tag) s
    (fun r s' => protected k s0 lo n mask fl s' /\ r = mapped_pages (nodes s0 k) lo n /\
       vm_disable_merging s' = vm_disable_merging s)
    (fun _ s' => partly_protected k s0 lo n mask fl s').
Proof.
  intros [[Hok Hst Hpg _] Hw Hmut] Hn0 Hn Hm. pose proof Hok as [[Hwf Hsep] Hl _ Hnodes].
  assert (Hsel : forall x, psel lo (lo + n - 1) mode tag x = in_range lo (lo + n - 1) x).
  { intros x. unfold psel. rewrite Hm. apply andb_true_r. }
  apply srun_eqn. eapply srun_mono; [eapply (protect_walk k lo (lo + n - 1) mask fl mode tag s); [done|apply slot_at_root, bits_pos|done|..]|..]; cbv beta.
  - rewrite <- Hl. by eapply space_NoDup.
  - intros x Hx. rewrite <- Hl in Hx. split; [done|]. intros Hx'. by apply elem_of_nil in Hx'.
  - split; try done. destruct (space s k) as [t l] eqn:E. unfold nodes. rewrite E. cbn. f_equal.
    + rewrite <- (amap_id t) at 1. by apply amap_ext.
    + by rewrite <- (map_id l) at 1.
  - intros r s' (L & HL & Hrp & Hr) Heq. rewrite app_nil_r in Hrp.
    rewrite (u32_small r) in Hr by (eapply protect_range; [|exact Heq]; rewrite <- Hl; by eapply nodes_fit). assert (HLn : forall x, x ∈ nodes s k ->
      x ∈ L <-> in_range lo (lo + n - 1) x = true).
    { intros x Hx. rewrite HL, list_elem_of_filter, Hsel. unfold nodes in Hx. rewrite <- Hl. tauto. }
    split_and!; [|rewrite Hr|apply Hrp].
    + split; [by eapply reprot_sok|eapply vstep_trans; [exact Hst|by eapply reprot_step]|].
      intros q. rewrite <- Hpg. destruct (pages s k q) as [c|] eqn:Hq.
      2: { rewrite (reprot_hole _ _ _ _ _ _ _ Hrp Hq). by case_match. }
      apply page_at_some in Hq as (x & Hx & Hc & ->). rewrite (reprot_page _ _ _ _ _ _ _ _ Hok Hrp Hx Hc).
      specialize (HLn x Hx). specialize (Hw x Hx). unfold within, in_range, covers in *. cbn in *.
      case_bool_decide as HxL; [apply HLn in HxL|rewrite HLn in HxL]; case_match eqn:Hr'; try done; lia.
    + rewrite (count_kept s0 s k lo n) by done. rewrite Z.add_0_l, (sizes_perm _ _ HL), <- (sizes_perm _ _ (filter_Permutation _ _ _ Hl)).
      rewrite (filter_ext_in _ (fun x => in_range lo (lo + n - 1) x = true)) by (intros x _; by rewrite Hsel).
      apply in_range_count; [done|lia|done].
  - intros _ s' (L & HL & Hrp). rewrite app_nil_r in Hrp. 
    split; [by eapply reprot_sok|eapply vstep_trans; [exact Hst|by eapply reprot_step]|].
    intros q. rewrite <- Hpg. destruct (pages s k q) as [c|] eqn:Hq; [|left; by eapply reprot_hole].
    apply page_at_some in Hq as (x & Hx & Hc & ->). rewrite (reprot_page _ _ _ _ _ _ _ _ Hok Hrp Hx Hc).
    case_bool_decide as HxL; [right|by left]. split; [|done].
    apply HL, list_elem_of_filter in HxL as [HxL _]. rewrite Hsel in HxL. specialize (Hw x Hx HxL).
    unfold within, covers in *. cbn in *. lia.
Qed.
Lemma protect_ok page n mask fl mode tag s :
  let k := effective s page in
  sok s k -> 0 <= page -> 0 < n -> page + n <= VM_VPAGE_MAX -> mutable_in (nodes s k) page n ->
  flag mode VM_PROTECT_TAG = false -> vm_disable_merging s = true ->
  srun (vm_protect page n mask fl mode tag) s
    (fun r s' => protected k s page n mask fl s' /\ r = mapped_pages (nodes s k) page n)
    (fun _ s' => partly_protected k s page n mask fl s').
Proof.
  intros k Hok Hp Hn He Hmut Hm Hoff. unfold vm_protect. replace (n =? 0) with false by lia.
  apply srun_bind, range_checks_ok; [done..|]. apply srun_bind, srun_get. cbv zeta. fold k.
  apply srun_bind, request_run; [|intros e s1 He1; by apply kept_partly, env_kept]. intros s1 He1.
  pose proof (env_sok _ _ _ He1 Hok) as Hok1. pose proof (env_kept _ _ _ Hok He1) as Hk1.
  apply srun_bind, srun_get_space. destruct (nonnil (vm_map (space s1 k))) eqn:Hnil.
  2: { apply srun_ret. destruct Hok as [_ Hl _ _]. rewrite (ev_space _ _ He1) in Hnil.
       assert (Hnone : nodes s k = []).
       { destruct (nodes s k) as [|x l] eqn:E; [done|]. unfold nodes in E. rewrite E in Hl.
         destruct (vm_map (space s k)); [by apply Permutation_nil_r in Hl|done]. }
       split; [|rewrite Hnone; unfold mapped_pages; rewrite filter_none; [done|]; apply Forall_forall; naive_solver]. split; [apply Hk1..|]; intros q. rewrite (kp_pages _ _ _ Hk1).
       unfold pages. rewrite Hnone. by case_match. }
  eapply split_both_ok; [done..|by rewrite (env_nodes _ _ _ He1)| |]; cbv beta.
  2: { intros e s2 Hs2. by eapply kept_partly, kept_trans, split_kept. }
  intros s2 Hrc. apply srun_bind, srun_get_space, srun_bind.
  eapply srun_mono; [apply (protect_range_ok k page n mask fl mode tag s1 s2); try done|..]; cbv beta.
  - unfold VM_VPAGE_MAX in He. lia.
  - intros r s3 ([Hok3 Hst3 Hpg3] & Hr & Hm3). apply srun_bind.
    assert (Hoff3 : vm_disable_merging s3 = true).
    { rewrite Hm3, (vt_merging _ _ _ _ _ (sp_step _ _ _ (rc_split _ _ _ _ _ Hrc))). by rewrite (ev_merging _ _ He1). }
    apply merge_off; [done|]. apply srun_bind, merge_off; [done|]. apply srun_ret. split.
    + split; [done|eapply vstep_trans; [apply Hk1|done]|]. intros q. by rewrite Hpg3, (kp_pages _ _ _ Hk1).
    + by rewrite Hr, (count_kept s s1) by apply Hk1.
  - intros _ s3 [Hok3 Hst3 Hpg3]. split; [done|eapply vstep_trans; [apply Hk1|done]|].
    intros q. by rewrite <- (kp_pages _ _ _ Hk1).
Qed.
