(* ===== verification/VmFree.v ===== *)
(** Finding free ranges: [vm_getfree] with pages as the alignment and without gaps.

    The search goes along the list of the nodes.  The theorems relate its result to the
    set of all free ranges: what it returns is free, it is the one next to the hint on the
    side that is searched, and it fails only if there is none. *)
From S2P Require Import Prelude.
From stdpp Require Import list sorting sets.
From S2P Require Import ATree Vm VmInv VmOps.
#[local] Open Scope Z_scope.

(** * Free ranges *)
Definition free_run (l : list vm_node) (p n : Z) : Prop := forall x, x ∈ l -> in_range p (p + n - 1) x = false.
#[export] Instance free_run_dec l p n : Decision (free_run l p n).
Proof.
  refine (cast_if (decide (Forall (fun x => in_range p (p + n - 1) x = false) l))); unfold free_run;
    by rewrite <- Forall_forall.
Defined.
(** A range is free if none of its pages is mapped. *)
Lemma free_run_pages s k p n :
  sok s k -> 0 < n -> free_run (nodes s k) p n <-> forall q, p <= q < p + n -> pages s k q = None.
Proof.
  intros Hok Hn. split.
  - intros Hf q Hq. apply page_at_none. intros x Hx. specialize (Hf x Hx). unfold in_range, covers in *. cbn. lia.
  - intros Hq x Hx. pose proof (sok_fits _ _ _ Hok Hx) as Hfx. unfold fits in Hfx.
    destruct (in_range p (p + n - 1) x) eqn:Hr; [|done]. unfold in_range in Hr.
    specialize (Hq (Z.max p (a_vmin x)) ltac:(lia)). apply page_at_none with (x := x) in Hq; [|done].
    unfold covers in Hq. cbn in Hq. lia.
Qed.
(** The ranges the search may return. *)
Definition allowed (k : bool) (p n : Z) : Prop :=
  if k then KERNEL_BASE_PAGE <= p /\ p + n <= VM_VPAGE_MAX + 1 else 0 <= p /\ p + n < KERNEL_BASE_PAGE.

(** * The search *)
Section Search.
Context (s : vst) (k : bool) (n : Z) (Hok : sok s k) (Hn : 0 < n <= VM_VPAGE_MAX + 1).
(** The address space that is searched is the one that the pages belong to. *)
Context (Hthis : vs_this s = k) (Huser : k = false -> forall x, x ∈ nodes s k -> a_vmax x < KERNEL_BASE_PAGE).
Lemma effective_k c : k = true \/ c < KERNEL_BASE_PAGE -> effective s c = k.
Proof. unfold effective. rewrite Hthis. intros [->|H]; [apply orb_true_r|]. by replace (KERNEL_BASE_PAGE <=? c) with false by lia. Qed.
Lemma check_free_ok c :
  0 <= c <= VM_VPAGE_MAX + 1 -> (k = true \/ c < KERNEL_BASE_PAGE) -> free_run (nodes s k) c n -> check_free s c n = Ret tt.
Proof.
  intros Hc Hk Hf. unfold check_free, vm_getanynode. rewrite effective_k by done.
  unfold VM_VPAGE_MAX in *. rewrite u32_small by lia. pose proof (space_findany _ _ c (c + n - 1) Hok) as H.
  destruct (vm_findany _ _ _) as [x|]; [|done]. destruct H as [Hx Hr]. by rewrite Hf in Hr.
Qed.
Lemma floor1 x : FLOOR_ALIGN x 1 = x.
Proof. unfold FLOOR_ALIGN. apply Z.ldiff_0_r. Qed.
Lemma ceil1 x : 0 <= x < 2 ^ 32 -> CEIL_ALIGN x 1 = x.
Proof. intros Hx. unfold CEIL_ALIGN. rewrite Z.ldiff_0_r, u32_small; lia. Qed.
Lemma no_gap x t : guard_gap s x t 0 = 0.
Proof. unfold guard_gap. by case_match. Qed.
Lemma ordered_mid l1 x l2 : ordered (l1 ++ x :: l2) ->
  (forall y, y ∈ l1 -> a_vmax y < a_vmin x) /\ (forall y, y ∈ l2 -> a_vmax x < a_vmin y).
Proof.
  unfold ordered. intros H. apply StronglySorted_app in H as (Hl & _ & Hr). apply StronglySorted_cons in Hr as [Hx _].
  rewrite Forall_forall in Hx. split; [|done]. intros y Hy. apply Hl; [done|by left].
Qed.
Lemma gap_free l1 x l2 c :
  nodes s k = l1 ++ x :: l2 -> c + n <= a_vmin x -> (forall y, y ∈ l1 -> a_vmax y < c) -> free_run (nodes s k) c n.
Proof.
  intros E Hc Hl1 y Hy. pose proof Hok as [_ _ Ho _]. change (ordered (nodes s k)) in Ho.
  assert (Hf : fits x) by (eapply sok_fits; [done|]; rewrite E; apply elem_of_app; right; by left).
  rewrite E in Hy, Ho. destruct (ordered_mid _ _ _ Ho) as [_ H2]. unfold in_range, fits in *.
  apply elem_of_app in Hy as [Hy|[->|Hy]%elem_of_cons]; [specialize (Hl1 y Hy)| |specialize (H2 y Hy)]; lia.
Qed.
(** The highest free range below [iter]. *)
Lemma below_ok iter prevs rest :
  nodes s k = reverse prevs ++ iter :: rest ->
  exists o, getfree_below s iter prevs n 1 0 = Ret o /\
    match o with
    | Some c => 0 <= c /\ c + n <= a_vmin iter /\ free_run (nodes s k) c n /\
        forall q, 0 <= q -> q + n <= a_vmin iter -> free_run (nodes s k) q n -> q <= c
    | None => forall q, 0 <= q -> q + n <= a_vmin iter -> ~ free_run (nodes s k) q n
    end.
Proof.
  revert iter rest. induction prevs as [|prev prevs IH]; intros iter rest E.
  all: assert (Hin : iter ∈ nodes s k) by (rewrite E; apply elem_of_app; right; by left).
  all: pose proof (sok_fits _ _ _ Hok Hin) as Hf; unfold fits in Hf; unfold VM_VPAGE_MAX in *.
  all: assert (Hk : k = true \/ a_vmin iter < KERNEL_BASE_PAGE) by (destruct k; [by left|right; specialize (Huser eq_refl iter Hin); lia]).
  all: cbn [getfree_below]; rewrite !no_gap; unfold VM_NODE_BEGIN, VM_NODE_END; rewrite (u32_small (a_vmin iter - 0)) by lia;
    rewrite Z.sub_0_r, Z.ltb_irrefl; destruct (decide (n <= a_vmin iter)) as [Hle|Hlt].
  2, 4: replace (a_vmin iter <? u32 (a_vmin iter - n)) with true by (unfold u32, wrap; mlia); exists None; split; [done|lia].
  all: rewrite (u32_small (a_vmin iter - n)) by lia; replace (a_vmin iter <? a_vmin iter - n) with false by lia; rewrite floor1.
  - replace (0 <=? a_vmin iter - n) with true by lia. assert (Hfree : free_run (nodes s k) (a_vmin iter - n) n).
    { eapply (gap_free [] iter rest); [done|lia|]. intros y Hy. by apply elem_of_nil in Hy. }
    rewrite check_free_ok; [|unfold VM_VPAGE_MAX; lia|destruct Hk; [by left|right; lia]|done].
    exists (Some (a_vmin iter - n)). split_and!; try done; lia.
  - rewrite reverse_cons, <- app_assoc in E. pose proof Hok as [_ _ Ho _]. change (ordered (nodes s k)) in Ho. rewrite E in Ho.
    destruct (ordered_mid _ _ _ Ho) as [H1 H2]. specialize (H2 iter ltac:(by left)).
    assert (Hp : prev ∈ nodes s k) by (rewrite E; apply elem_of_app; right; by left).
    pose proof (sok_fits _ _ _ Hok Hp) as Hfp. unfold fits, VM_VPAGE_MAX in Hfp. rewrite (u32_small (a_vmax prev + 1 + 0)) by lia.
    destruct (Z.leb_spec (a_vmax prev + 1 + 0) (a_vmin iter - n)) as [Hfit|Hno].
    + assert (Hfree : free_run (nodes s k) (a_vmin iter - n) n).
      { eapply (gap_free (reverse prevs ++ [prev]) iter rest); [by rewrite <- app_assoc|lia|].
        intros y [Hy| ->%list_elem_of_singleton]%elem_of_app; [specialize (H1 y Hy)|]; lia. }
      rewrite check_free_ok; [|unfold VM_VPAGE_MAX; lia|destruct Hk; [by left|right; lia]|done].
      exists (Some (a_vmin iter - n)). split_and!; try done; lia.
    + destruct (IH prev (iter :: rest) E) as (o & -> & Ho'). exists o. split; [done|].
      assert (Hq : forall q, q + n <= a_vmin iter -> free_run (nodes s k) q n -> q + n <= a_vmin prev).
      { intros q Hq Hfr. specialize (Hfr prev Hp). unfold in_range in Hfr. lia. }
      destruct o as [c|]; [|intros q Hq0 Hq' Hfr; exact (Ho' q Hq0 (Hq q Hq' Hfr) Hfr)].
      destruct Ho' as (? & ? & ? & Hmax). split_and!; try done; [lia|]. intros q Hq0 Hq' Hfr. apply Hmax; auto.
Qed.
Lemma gap_free_above l1 x l2 c :
  nodes s k = l1 ++ x :: l2 -> a_vmax x < c -> (forall y, y ∈ l2 -> c + n <= a_vmin y) -> free_run (nodes s k) c n.
Proof.
  intros E Hc Hl2 y Hy. pose proof Hok as [_ _ Ho _]. change (ordered (nodes s k)) in Ho.
  assert (Hf : fits x) by (eapply sok_fits; [done|]; rewrite E; apply elem_of_app; right; by left).
  rewrite E in Hy, Ho. destruct (ordered_mid _ _ _ Ho) as [H1 _]. unfold in_range, fits in *.
  apply elem_of_app in Hy as [Hy|[->|Hy]%elem_of_cons]; [specialize (H1 y Hy)| |specialize (Hl2 y Hy)]; lia.
Qed.
(** The lowest free range above [iter]. *)
Lemma above_ok iter nexts l1 :
  nodes s k = l1 ++ iter :: nexts ->
  exists o, getfree_above s k iter nexts n 1 0 = Ret o /\
    match o with
    | Some c => a_vmax iter < c <= VM_VPAGE_MAX + 1 /\ (k = true \/ c + n <= KERNEL_BASE_PAGE) /\ free_run (nodes s k) c n /\
        forall q, a_vmax iter < q -> free_run (nodes s k) q n -> k = true \/ q + n <= KERNEL_BASE_PAGE -> c <= q
    | None => forall q, a_vmax iter < q -> free_run (nodes s k) q n -> ~ (k = true \/ q + n <= KERNEL_BASE_PAGE)
    end.
Proof.
  revert iter l1. induction nexts as [|next nexts IH]; intros iter l1 E.
  all: assert (Hin : iter ∈ nodes s k) by (rewrite E; apply elem_of_app; right; by left).
  all: pose proof (sok_fits _ _ _ Hok Hin) as Hf; unfold fits in Hf; unfold VM_VPAGE_MAX in *.
  all: cbn [getfree_above]; rewrite !no_gap; unfold VM_NODE_BEGIN, VM_NODE_END; rewrite (u32_small (a_vmax iter + 1 + 0)) by lia;
    rewrite ceil1, Z.add_0_r by lia; rewrite (u32_small (a_vmax iter + 1 + n)) by lia.
  all: assert (Hk : k || (a_vmax iter + 1 + n <=? KERNEL_BASE_PAGE) = true <-> k = true \/ a_vmax iter + 1 + n <= KERNEL_BASE_PAGE)
         by (destruct k; cbn; [tauto|rewrite Z.leb_le; naive_solver]).
  - replace (n <=? u32 (0 - (a_vmax iter + 1))) with true by (unfold u32, wrap; mlia). cbn [andb].
    destruct (k || _) eqn:Hkb.
    + pose proof (proj1 Hk eq_refl) as Hk'. assert (Hfree : free_run (nodes s k) (a_vmax iter + 1) n).
      { eapply (gap_free_above l1 iter []); [done|lia|]. intros y Hy. by apply elem_of_nil in Hy. }
      rewrite check_free_ok; [|unfold VM_VPAGE_MAX; lia|destruct Hk'; [by left|right; lia]|done].
      exists (Some (a_vmax iter + 1)). split_and!; try done; lia.
    + exists None. split; [done|]. intros q Hq _ Hkq. enough (false = true) by done. apply Hk. destruct Hkq; [by left|right; lia].
  - pose proof Hok as [_ _ Ho _]. change (ordered (nodes s k)) in Ho. rewrite E in Ho.
    destruct (ordered_mid _ _ _ Ho) as [_ H2]. pose proof (H2 next ltac:(by left)) as Hlt.
    assert (Hp : next ∈ nodes s k) by (rewrite E; apply elem_of_app; right; right; by left).
    pose proof (sok_fits _ _ _ Hok Hp) as Hfp. unfold fits, VM_VPAGE_MAX in Hfp. rewrite (u32_small (a_vmin next - 0)) by lia.
    rewrite (u32_small (_ - _)) by lia.
    destruct ((n <=? _) && _) eqn:Hb.
    + apply andb_prop in Hb as [Hfit Hkb]. pose proof (proj1 Hk Hkb) as Hk'.
      assert (Hfree : free_run (nodes s k) (a_vmax iter + 1) n).
      { eapply (gap_free_above l1 iter (next :: nexts)); [done|lia|]. replace (l1 ++ iter :: next :: nexts) with ((l1 ++ [iter]) ++ next :: nexts) in Ho by (by rewrite <- app_assoc).
        destruct (ordered_mid _ _ _ Ho) as [_ H3]. intros y [->|Hy]%elem_of_cons; [|specialize (H3 y Hy)]; lia. }
      rewrite check_free_ok; [|unfold VM_VPAGE_MAX; lia|destruct Hk'; [by left|right; lia]|done].
      exists (Some (a_vmax iter + 1)). split_and!; try done; lia.
    + destruct (IH next (l1 ++ [iter])) as (o & -> & Ho'); [by rewrite <- app_assoc|]. exists o. split; [done|].
      assert (Hq : forall q, a_vmax iter < q -> free_run (nodes s k) q n -> k = true \/ q + n <= KERNEL_BASE_PAGE -> a_vmax next < q).
      { intros q Hq Hfr Hkq. specialize (Hfr next Hp). unfold in_range in Hfr. destruct (decide (a_vmax next < q)); [done|exfalso].
        apply not_true_iff_false in Hb. apply Hb. apply andb_true_intro. split; [lia|]. apply Hk. destruct Hkq; [by left|right; lia]. }
      destruct o as [c|]; [|intros q Hq0 Hfr Hkq; exact (Ho' q (Hq q Hq0 Hfr Hkq) Hfr Hkq)].
      destruct Ho' as (? & ? & ? & Hmin). split_and!; try done; try lia. intros q Hq0 Hfr Hkq. apply Hmin; auto.
Qed.
Lemma around_split node before l :
  node ∈ l -> let '(prevs, nexts) := around node before l in reverse before ++ l = reverse prevs ++ node :: nexts.
Proof.
  revert before. induction l as [|x l IH]; intros before Hx; [by apply elem_of_nil in Hx|]. cbn.
  case_bool_decide as He; [by subst|]. apply elem_of_cons in Hx as [->|Hx]; [done|]. specialize (IH (x :: before) Hx).
  destruct (around node (x :: before) l). rewrite <- IH, reverse_cons, <- app_assoc. done.
Qed.
(** A result of the search in one direction: no free range lies between it and the hint. *)
Definition nearest (hint : Z) (below : bool) (o : option Z) : Prop :=
  match o with
  | Some p => free_run (nodes s k) p n /\ 0 <= p /\ p + n <= VM_VPAGE_MAX + 1 /\
      (p = hint \/ ~ free_run (nodes s k) hint n /\ allowed k p n /\ (if below then p < hint else hint < p) /\
         (forall q, allowed k q n -> free_run (nodes s k) q n ->
            if below then q <= p \/ hint < q else KERNEL_BASE_PAGE <= hint \/ k = false -> p <= q \/ q < hint))
  | None => ~ free_run (nodes s k) hint n /\
      (forall q, allowed k q n -> free_run (nodes s k) q n ->
         if below then hint < q else KERNEL_BASE_PAGE <= hint \/ k = false -> q < hint)
  end.
Lemma winner_ok c :
  0 <= c <= VM_VPAGE_MAX + 1 -> free_run (nodes s k) c n -> (k = true \/ c < KERNEL_BASE_PAGE) ->
  getfree_winner s k c n = Ret (Some c) /\ allowed k c n /\ c + n <= VM_VPAGE_MAX + 1 \/
  getfree_winner s k c n = Ret None /\ ~ allowed k c n.
Proof.
  intros Hc Hf Hk. unfold getfree_winner, allowed. unfold VM_VPAGE_MAX in *. rewrite u32_small by lia.
  replace (c + n <? c) with false by lia. pose proof (check_free_ok c ltac:(unfold VM_VPAGE_MAX; lia) Hk Hf) as ->.
  unfold KERNEL_BASE_PAGE in *.
  destruct (Z.ltb_spec (1048575 + 1) (c + n)); [right; split; [done|destruct k; lia]|].
  destruct k; case_match; try (right; split; [done|lia]); left; split_and!; try done; lia.
Qed.
Definition winner_of (m : outcome (option Z)) : outcome (option Z) :=
  m ≫= fun o => match o with None => Ret None | Some candidate => getfree_winner s k candidate n end.
Lemma search_below_ok mn hint :
  mn ∈ nodes s k -> in_range hint (hint + n - 1) mn = true -> 0 <= hint -> hint + n <= VM_VPAGE_MAX + 1 ->
  exists o, winner_of (let '(prevs, _) := around mn [] (nodes s k) in getfree_below s mn prevs n 1 0) = Ret o /\
    nearest hint true o.
Proof.
  intros Hmn Hrn Hh He. pose proof (sok_fits _ _ _ Hok Hmn) as Hfn. unfold fits, VM_VPAGE_MAX in *.
  assert (Hused : ~ free_run (nodes s k) hint n) by (intros H; by rewrite (H mn Hmn) in Hrn).
  unfold in_range in Hrn. pose proof (around_split mn [] _ Hmn) as E.
  destruct (around mn [] (nodes s k)) as [prevs nexts]. cbn in E.
  destruct (below_ok mn prevs nexts E) as (o & -> & Ho). unfold winner_of, mbind, outcome_bind.
  assert (Hq : forall q, allowed k q n -> free_run (nodes s k) q n -> 0 <= q /\ (q + n <= a_vmin mn \/ hint < q)).
  { intros q Ha Hfr. specialize (Hfr mn Hmn). unfold in_range, allowed, KERNEL_BASE_PAGE in *. destruct k; lia. }
  destruct o as [c|].
  - destruct Ho as (Hc0 & Hcn & Hfr & Hmax). assert (Hk : k = true \/ c < KERNEL_BASE_PAGE).
    { destruct k; [by left|right]. specialize (Huser eq_refl mn Hmn). lia. }
    destruct (winner_ok c ltac:(unfold VM_VPAGE_MAX; lia) Hfr Hk) as [(-> & Ha & Hb)|(-> & Hna)]; eexists; (split; [done|]).
    + split_and!; try done. right. split_and!; try done; [lia|]. intros q Haq Hfq. destruct (Hq q Haq Hfq) as [? [?|?]]; auto.
    + split; [done|]. intros q Haq Hfq. destruct (Hq q Haq Hfq) as [Hq0 [Hqn|?]]; [|done]. exfalso.
      specialize (Hmax q Hq0 Hqn Hfq). unfold allowed, VM_VPAGE_MAX, KERNEL_BASE_PAGE in *.
      destruct k; [lia|]. specialize (Huser eq_refl mn Hmn). lia.
  - exists None. split; [done|]. split; [done|]. intros q Haq Hfq. destruct (Hq q Haq Hfq) as [Hq0 [Hqn|?]]; [|done].
    by destruct (Ho q Hq0 Hqn).
Qed.
Lemma search_above_ok mx hint :
  mx ∈ nodes s k -> in_range hint (hint + n - 1) mx = true -> 0 <= hint -> hint + n <= VM_VPAGE_MAX + 1 ->
  exists o, winner_of (let '(_, nexts) := around mx [] (nodes s k) in getfree_above s k mx nexts n 1 0) = Ret o /\
    nearest hint false o.
Proof.
  intros Hmx Hrx Hh He. pose proof (sok_fits _ _ _ Hok Hmx) as Hfx. unfold fits, VM_VPAGE_MAX in *.
  assert (Hused : ~ free_run (nodes s k) hint n) by (intros H; by rewrite (H mx Hmx) in Hrx).
  unfold in_range in Hrx. pose proof (around_split mx [] _ Hmx) as E.
  destruct (around mx [] (nodes s k)) as [prevs nexts]. cbn in E.
  destruct (above_ok mx nexts (reverse prevs) E) as (o & -> & Ho). unfold winner_of, mbind, outcome_bind.
  assert (Hq : forall q, allowed k q n -> free_run (nodes s k) q n ->
    (k = true \/ q + n <= KERNEL_BASE_PAGE) /\ (a_vmax mx < q \/ q < hint)).
  { intros q Ha Hfr. specialize (Hfr mx Hmx). unfold in_range, allowed in *. destruct k; split; try lia; by left. }
  destruct o as [c|].
  - destruct Ho as (Hc0 & Hk & Hfr & Hmin).
    destruct (winner_ok c) as [(-> & Ha & Hb)|(-> & Hna)]; [lia|done|destruct Hk; [by left|right; lia]|..];
      eexists; (split; [done|]).
    + split_and!; try done; [lia|]. right. split_and!; try done; [lia|]. intros q Haq Hfq _. destruct (Hq q Haq Hfq) as [? [?|?]]; auto.
    + split; [done|]. intros q Haq Hfq Hhk. destruct (Hq q Haq Hfq) as [Hkq [Hqn|?]]; [|done]. exfalso.
      specialize (Hmin q Hqn Hfq Hkq). unfold allowed, VM_VPAGE_MAX, KERNEL_BASE_PAGE in *. destruct Hk, Hkq, Hhk, k; done || lia.
  - exists None. split; [done|]. split; [done|]. intros q Haq Hfq _. destruct (Hq q Haq Hfq) as [Hkq [Hqn|?]]; [|done].
    by destruct (Ho q Hqn Hfq).
Qed.
Lemma impl_getfree_ok hint below :
  0 <= hint -> hint + n <= VM_VPAGE_MAX + 1 ->
  exists o, impl_vm_getfree s k hint n 1 0 below = Ret o /\ nearest hint below o.
Proof.
  intros Hh He. unfold impl_vm_getfree. unfold VM_VPAGE_MAX in *. rewrite u32_small by lia.
  replace (hint + n - 1 <? hint) with false by lia. replace (1048575 <? hint + n - 1) with false by lia. cbn [orb].
  pose proof Hok as [[Hwf _] Hl _ _].
  pose proof (findnodes_spec (vm_map (space s k)) hint (hint + n - 1) 0 VM_SEMI0 VM_LEVEL0 (MkInfo None None) []
    (slot_at_root _ bits_pos) Hwf ltac:(intros x Hx; by apply elem_of_nil in Hx)) as Hnote.
  rewrite app_nil_r in Hnote. apply (noted_perm _ _ _ (nodes s k)) in Hnote; [|by rewrite <- Hl].
  destruct (vm_findnodes _ _ _ _ _ _) as [[mn|] [mx|]]; cbn [ni_min ni_max noted] in *; try done.
  2: { exists (Some hint). split; [done|]. unfold nearest, VM_VPAGE_MAX. split_and!; try done; by left. }
  destruct Hnote as (Hmn & Hrn & Hmx & Hrx & _).
  destruct (search_below_ok mn hint Hmn Hrn) as (o1 & E1 & H1); [unfold VM_VPAGE_MAX; lia..|].
  destruct (search_above_ok mx hint Hmx Hrx) as (o2 & E2 & H2); [unfold VM_VPAGE_MAX; lia..|].
  unfold in_range in Hrn, Hrx. replace (a_vmin mn <=? hint + n - 1) with true by lia.
  replace (hint <=? a_vmax mx) with true by lia. destruct below; [exists o1|exists o2]; done.
Qed.
(** What the whole search finds. *)
Record getfree_result (hint : Z) (mode p : Z) : Prop := {
  gf_free : free_run (nodes s k) p n;
  gf_range : 0 <= p /\ p + n <= VM_VPAGE_MAX + 1;
  gf_hint : free_run (nodes s k) hint n -> p = hint;
  gf_allowed : p = hint \/ allowed k p n;
  gf_strict : flag mode VM_GETFREE_FSTRICT = true -> if flag mode VM_GETFREE_FBELOW then p <= hint else hint <= p;
  gf_near : forall q, allowed k q n -> free_run (nodes s k) q n ->
    if flag mode VM_GETFREE_FBELOW then q <= hint -> q <= p <= hint
    else KERNEL_BASE_PAGE <= hint \/ k = false -> hint <= q -> hint <= p <= q;
}.
Record getfree_fails (hint : Z) (mode : Z) : Prop := {
  gn_hint : ~ free_run (nodes s k) hint n;
  gn_near : forall q, allowed k q n -> free_run (nodes s k) q n -> KERNEL_BASE_PAGE <= hint \/ k = false ->
    flag mode VM_GETFREE_FSTRICT = true /\ if flag mode VM_GETFREE_FBELOW then hint < q else q < hint;
}.
Lemma nearest_result hint mode p :
  nearest hint (flag mode VM_GETFREE_FBELOW) (Some p) -> getfree_result hint mode p.
Proof.
  intros (Hf & Hp0 & Hp1 & [->|(Hu & Ha & Hs & Hq)]).
  - split; try done; [by left|case_match; lia|]. intros q _ _. case_match; lia.
  - split; try done; [by right|intros _; case_match; lia|]. intros q Haq Hfq. specialize (Hq q Haq Hfq). 
    case_match; [|intros Hhk; specialize (Hq Hhk)]; lia.
Qed.
Lemma nearest_opposite hint mode p :
  nearest hint (flag mode VM_GETFREE_FBELOW) None -> flag mode VM_GETFREE_FSTRICT = false ->
  nearest hint (negb (flag mode VM_GETFREE_FBELOW)) (Some p) -> getfree_result hint mode p.
Proof.
  intros [Hu Hq] Hst (Hf & Hp0 & Hp1 & [->|(_ & Ha & Hs & _)]); [done|]. split; try done; [by right|by rewrite Hst|].
  intros q Haq Hfq. specialize (Hq q Haq Hfq). destruct (flag mode VM_GETFREE_FBELOW); [lia|]. intros Hhk. specialize (Hq Hhk). lia.
Qed.
Lemma search_ok hint mode :
  0 <= hint -> hint + n <= VM_VPAGE_MAX + 1 ->
  exists o, getfree_search s k hint n 1 0 mode = Ret o /\
    match o with Some p => getfree_result hint mode p | None => getfree_fails hint mode end.
Proof.
  intros Hh He. unfold getfree_search. set (below := flag mode VM_GETFREE_FBELOW).
  destruct (impl_getfree_ok hint below Hh He) as ([p|] & -> & Hnear); cbn.
  { exists (Some p). split; [done|]. by apply nearest_result. }
  destruct (flag mode VM_GETFREE_FSTRICT) eqn:Hst.
  { exists None. split; [done|]. destruct Hnear as [Hn1 Hq]. split; [done|]. intros q Haq Hfq Hhk. specialize (Hq q Haq Hfq).
    fold below. split; [done|]. destruct below; auto. }
  destruct (impl_getfree_ok hint (negb below) Hh He) as ([p|] & -> & Hopp); eexists; (split; [done|]).
  - by apply nearest_opposite.
  - destruct Hnear as [Hn1 Hq1], Hopp as [_ Hq2]. split; [done|]. intros q Haq Hfq Hhk. exfalso.
    specialize (Hq1 q Haq Hfq). specialize (Hq2 q Haq Hfq).
    destruct below; cbn in *; [specialize (Hq2 Hhk)|specialize (Hq1 Hhk)]; lia.
Qed.
End Search.

(** * vm_getfree *)
(** The first range that is looked at: searching downwards the hint is the end of it, and
    zero means the end of the address space. *)
Definition first_range (hint n mode : Z) : Z :=
  if flag mode VM_GETFREE_FBELOW then (if hint =? 0 then VM_VPAGE_MAX + 1 else hint) - n else hint.
Lemma empty_nodes s k : sok s k -> nonnil (Vm.vm_map (space s k)) = false -> nodes s k = [].
Proof.
  intros [_ Hl _ _] Hnil. unfold nodes. destruct (Vm.vm_map (space s k)); [|done]. by apply Permutation_nil_r in Hl.
Qed.
Lemma getfree_ok s hint n mode :
  let k := vs_this s in let h := first_range hint n mode in
  sok s k -> 0 < n -> 0 <= hint -> 0 <= h -> h + n <= VM_VPAGE_MAX + 1 ->
  (k = false -> h < KERNEL_BASE_PAGE /\ forall x, x ∈ nodes s k -> a_vmax x < KERNEL_BASE_PAGE) ->
  match vm_getfree s hint n 1 0 mode with
  | Ret p => getfree_result s k n h mode p
  | Throw e => e = E_BADALLOC /\ getfree_fails s k n h mode
  | Panic => False
  end.
Proof.
  intros k h Hok Hn Hh0 Hh He Huser.
  assert (E : vm_getfree s hint n 1 0 mode = getfree_at s h n 1 0 mode).
  { unfold vm_getfree, h, first_range in *. unfold VM_VPAGE_MAX in *. destruct (flag mode VM_GETFREE_FBELOW); [|done].
    destruct (Z.eqb_spec hint 0) as [->|]; [|by replace (hint <? n) with false by lia].
    replace (0 <? n) with true by lia. by rewrite u32_small by lia. }
  rewrite E. clear E. unfold getfree_at.
  assert (Hvm : getfree_vm s h mode = k).
  { unfold getfree_vm. destruct k eqn:Ek; unfold k in Ek; rewrite Ek; [by case_match|]. destruct (Huser eq_refl).
    by replace (h <? KERNEL_BASE_PAGE) with true by lia. }
  rewrite Hvm. replace (VM_VPAGE_MAX + 1 <? n) with false by lia. replace (n =? 0) with false by lia. cbn [orb].
  assert (Hfinal : forall p, getfree_result s k n h mode p -> check_free s p n = Ret tt).
  { intros p Hp. pose proof (gf_range _ _ _ _ _ _ Hp). apply (check_free_ok s k); [done|lia|done|intros Hk; by destruct (Huser Hk)|lia| |apply Hp].
    destruct k; [by left|right]. destruct (Huser eq_refl), (gf_allowed _ _ _ _ _ _ Hp) as [->|[? ?]]; lia. }
  destruct (nonnil (Vm.vm_map (space s k))) eqn:Hnil; cbn [negb].
  - destruct (search_ok s k n Hok ltac:(lia) eq_refl ltac:(intros Hk; by destruct (Huser Hk)) h mode Hh He) as ([p|] & -> & Ho); cbn.
    + by rewrite (Hfinal p Ho).
    + rewrite andb_false_r. by split.
  - unfold getfree_empty. unfold VM_VPAGE_MAX in *. rewrite u32_small by lia.
    replace (h + n <? h) with false by lia. replace (1048575 + 1 <? h + n) with false by lia. cbn.
    assert (Hres : getfree_result s k n h mode h).
    { apply nearest_result; try done; [by intros Hk; destruct (Huser Hk)|]. unfold nearest, VM_VPAGE_MAX. split_and!; try done; [|by left].
      rewrite (empty_nodes _ _ Hok Hnil). intros x Hx. by apply elem_of_nil in Hx. }
    by rewrite (Hfinal h Hres).
Qed.


(** * vm_map *)
Lemma srun_assoc {S A B C} (m : SM S A) (f : A -> SM S B) (g : B -> SM S C) s (Q : C -> S -> Prop) R :
  srun ((m ≫= f) ≫= g) s Q R -> srun (m ≫= fun a => f a ≫= g) s Q R.
Proof. unfold srun, mbind, SM_bind. by destruct (m s). Qed.
Lemma getfree_result_env s s' k n h mode p : env s s' -> getfree_result s' k n h mode p -> getfree_result s k n h mode p.
Proof. intros He [H1 H2 H3 H4 H5 H6]. rewrite (env_nodes _ _ _ He) in *. by split. Qed.
Lemma map_ok s hint n mode start r prot notify closure :
  let k := vs_this s in let h := first_range hint n mode in
  sok s k -> 0 < n -> 0 <= hint -> 0 <= h -> h + n <= VM_VPAGE_MAX + 1 ->
  (k = false -> h < KERNEL_BASE_PAGE /\ getfree_vm s hint mode = false /\
     forall x, x ∈ nodes s k -> a_vmax x < KERNEL_BASE_PAGE) ->
  0 <= start -> start + n <= vr_size (vs_region s r) -> vr_size (vs_region s r) < 2 ^ 32 -> vm_disable_merging s = true ->
  srun (vm_map_at_free hint n 1 0 mode start r prot notify closure) s
    (fun a s' => exists p, a = p * 4096 /\ getfree_result s k n h mode p /\ mapped_to k s p n r start prot s')
    (fun _ s' => kept k s s').
Proof.
  intros k h Hok Hn Hh0 Hh He Huser Hs Hsz Hszm Hoff. unfold vm_map_at_free. apply srun_bind, srun_get. cbv zeta.
  assert (Hvm : getfree_vm s hint mode = k).
  { destruct k eqn:Ek; [|by destruct (Huser eq_refl) as (? & ? & ?)]. unfold getfree_vm. unfold k in Ek. rewrite Ek. by case_match. }
  rewrite Hvm, (u32_small (start + n)) by lia. do 3 (apply srun_bind, srun_check; [lia|]).
  apply srun_bind, request_run; [|intros e s1 He1; by apply env_kept]. intros s1 He1.
  apply srun_bind, request_run; [|intros e s2 He2; apply env_kept; [done|by etransitivity]]. intros s2 He2.
  assert (He12 : env s s2) by (by etransitivity). clear He1 He2 s1.
  pose proof (env_sok _ _ _ He12 Hok) as Hok2. pose proof (ev_this _ _ He12) as Ht2.
  apply srun_bind, srun_get, srun_bind. pose proof (getfree_ok s2 hint n mode) as Hgf. cbv zeta in Hgf. fold h in Hgf.
  rewrite Ht2 in Hgf. fold k in Hgf. specialize (Hgf Hok2 Hn Hh0 Hh He).
  assert (Hu2 : k = false -> h < KERNEL_BASE_PAGE /\ forall x, x ∈ nodes s2 k -> a_vmax x < KERNEL_BASE_PAGE).
  { intros Hk. destruct (Huser Hk) as (? & ? & ?). by rewrite (env_nodes _ _ _ He12). }
  specialize (Hgf Hu2). destruct (vm_getfree s2 hint n 1 0 mode) as [p|e|] eqn:Eg; [|by apply env_kept|done].
  eapply srun_lift; [done|]. pose proof (gf_range _ _ _ _ _ _ Hgf) as [Hp0 Hp1].
  apply srun_bind, notify_incref_ok; [|intros e s3 He3; apply env_kept; [done|by etransitivity]]. intros c s3 He3.
  assert (He13 : env s s3) by (by etransitivity). pose proof (env_sok _ _ _ He13 Hok) as Hok3.
  pose proof (env_kept _ _ _ Hok He13) as Hk3. set (node := with_closure _ c).
  assert (Esz : VM_NODE_SIZE node = n) by (unfold VM_NODE_SIZE; cbn; lia). rewrite <- Esz.
  change r with (vn_region node) at 1 2 3 4. change start with (vn_start node) at 1 2.
  apply srun_assoc, srun_bind. apply (with_refs_ok k); [done|..]; cbv beta; [|intros e s4 Hk4; by eapply kept_trans].
  intros s4 Hok4 Hst4 Hn4. apply srun_bind. 
  eapply srun_mono; [apply (insert_activate_ok s3 s4 k node [])|..]; cbv beta; try done.
  - split_and!; [unfold fits; cbn; unfold VM_VPAGE_MAX in *; lia..|cbn; lia|]. rewrite Esz. cbn.
    rewrite (vstep_sizes _ _ _ _ _ _ Hst4), (ev_region _ _ He13). lia.
  - rewrite Hn4, (env_nodes _ _ _ He3). apply Forall_forall. intros x Hx. apply disjoint_range. apply (gf_free _ _ _ _ _ _ Hgf), Hx.
  - intros [] s5 (Hok5 & Hst5 & Hm5 & Hp5). assert (Hoff5 : vm_disable_merging s5 = true).
    { by rewrite Hm5, (vt_merging _ _ _ _ _ Hst4), (ev_merging _ _ He13). }
    apply srun_bind, merge_off, merge_off; [done..|]. apply srun_ret. exists p.
    split_and!; [apply u32_small; unfold VM_VPAGE_MAX in *; lia|rewrite Esz; by apply (getfree_result_env s s2)|].
    apply (overlay_mapped k s s5 node (VM_NODE_SIZE node)); [done..| |].
    + eapply vstep_trans; [apply Hk3|done].
    + intros q. rewrite (inserted_pages s4 s5 k node Hok5 Hp5). unfold overlay, pages.
      by rewrite Hn4, (env_nodes _ _ _ He13).
  - intros e s5 He5. split_and!; [by eapply env_sok|eapply vstep_trans; [exact Hst4|by apply env_step]|].
    intros q. unfold pages. by rewrite (env_nodes _ _ _ He5), Hn4.
Qed.
