(* ===== verification/VmProps.v ===== *)
(** What the address spaces promise, and that they keep it over every history.

    The abstract view of the address spaces is a map from pages to what they show: the
    page of a region and a protection.  [vop] are the operations other parts of the kernel
    call; [spec] says what each may do to that map, [valid] what the caller has to ensure.
    The theorems are for a kernel that has been booted with [nomerge]. *)
From S2P Require Import Prelude.
From stdpp Require Import list sorting sets relations.
From S2P Require Import ATree Vm VmInv VmOps VmProt VmFree.
#[local] Open Scope Z_scope.

(** * Operations *)
Inductive vop : Type :=
| OMap (hint n mode start r prot notify closure : Z)
| OMapAt (page n start r prot notify closure : Z)
| OUnmap (page n mode tag : Z)
| OProtect (page n mask fl mode tag : Z).
Definition exec (op : vop) : VM Z :=
  match op with
  | OMap hint n mode start r prot notify closure => vm_map_at_free hint n 1 0 mode start r prot notify closure
  | OMapAt page n start r prot notify closure => vm_mapat page n start r prot notify closure ≫= fun _ => mret 0
  | OUnmap page n mode tag => vm_unmap page n mode tag
  | OProtect page n mask fl mode tag => vm_protect page n mask fl mode tag
  end.
(** The address space an operation is about. *)
Definition target (s : vst) (op : vop) : bool :=
  match op with
  | OMap _ _ _ _ _ _ _ _ => vs_this s
  | OMapAt page _ _ _ _ _ _ | OUnmap page _ _ _ | OProtect page _ _ _ _ _ => effective s page
  end.
(** A range of one address space, below the last page, whose nodes may be changed. *)
Definition valid_range (s : vst) (page n : Z) : Prop :=
  let k := effective s page in
  0 <= page /\ 0 < n /\ page + n <= (if k then VM_VPAGE_MAX else KERNEL_BASE_PAGE) /\ mutable_in (nodes s k) page n.
Definition valid_part (s : vst) (start n r : Z) : Prop :=
  0 <= start /\ start + n <= vr_size (vs_region s r) /\ vr_size (vs_region s r) < 2 ^ 32.
Definition valid (s : vst) (op : vop) : Prop :=
  match op with
  | OMap hint n mode start r _ _ _ =>
      let h := first_range hint n mode in
      0 <= hint /\ 0 < n /\ 0 <= h /\ h + n <= VM_VPAGE_MAX + 1 /\ valid_part s start n r /\
      (vs_this s = false -> h + n <= KERNEL_BASE_PAGE /\ getfree_vm s hint mode = false)
  | OMapAt page n start r _ _ _ => valid_range s page n /\ valid_part s start n r
  | OUnmap page n mode _ => valid_range s page n /\ flag mode VM_UNMAP_TAG = false
  | OProtect page n _ _ mode _ => valid_range s page n /\ flag mode VM_PROTECT_TAG = false
  end.

(** * The abstract address spaces *)
Definition page_map : Type := Z -> option (Z * Z * Z).
Definition update (lo n : Z) (f : Z -> option (Z * Z * Z)) (m : page_map) : page_map := fun q =>
  if (lo <=? q) && (q <? lo + n) then f q else m q.
Definition count (m : page_map) (lo n : Z) : Z :=
  Z.of_nat (length (filter (fun q => m q <> None) (seqZ lo n))).
(** [spec op m (Some r) m']: the operation returns [r] and changes the pages from [m] to
    [m']; with [None] it throws. *)
Inductive spec : vop -> page_map -> option Z -> page_map -> Prop :=
| spec_map hint n mode start r prot notify closure m m' p :
    (forall q, p <= q < p + n -> m q = None) ->
    (forall q, m' q = update p n (fun q => Some (r, start + (q - p), prot)) m q) ->
    spec (OMap hint n mode start r prot notify closure) m (Some (p * 4096)) m'
| spec_mapat page n start r prot notify closure m m' :
    (forall q, m' q = update page n (fun q => Some (r, start + (q - page), prot)) m q) ->
    spec (OMapAt page n start r prot notify closure) m (Some 0) m'
| spec_unmap page n mode tag m m' :
    (forall q, m' q = update page n (fun _ => None) m q) ->
    spec (OUnmap page n mode tag) m (Some (count m page n)) m'
| spec_unmap_noexcept page n mode tag m m' :
    flag mode VM_UNMAP_NOEXCEPT = true -> (forall q, m' q = m q) ->
    spec (OUnmap page n mode tag) m (Some 0) m'
| spec_protect page n mask fl mode tag m m' :
    (forall q, m' q = update page n (fun q => reprotected mask fl <$> m q) m q) ->
    spec (OProtect page n mask fl mode tag) m (Some (count m page n)) m'
| spec_throw op m m' : (forall q, m' q = m q) -> spec op m None m'
| spec_protect_throw page n mask fl mode tag m m' :
    (forall q, m' q = m q \/ page <= q < page + n /\ m' q = reprotected mask fl <$> m q) ->
    spec (OProtect page n mask fl mode tag) m None m'.

(** * The invariant *)
Definition below_kernel (s : vst) : Prop := forall q, KERNEL_BASE_PAGE <= q -> pages s false q = None.
Record vm_inv (s : vst) : Prop := {
  vi_kernel : sok s true;
  vi_user : sok s false;
  vi_split : below_kernel s;
  vi_merging : vm_disable_merging s = true;
}.
Lemma inv_sok s k : vm_inv s -> sok s k.
Proof. intros [? ? _ _]. by destruct k. Qed.
Lemma below_kernel_nodes s x : sok s false -> below_kernel s -> x ∈ nodes s false -> a_vmax x < KERNEL_BASE_PAGE.
Proof.
  intros Hok Hb Hx. pose proof (sok_fits _ _ _ Hok Hx) as Hf. unfold fits in Hf.
  destruct (decide (a_vmax x < KERNEL_BASE_PAGE)) as [|Hge]; [done|exfalso]. specialize (Hb (a_vmax x) ltac:(lia)).
  apply page_at_none with (x := x) in Hb; [|done]. unfold covers in Hb. cbn in Hb. lia.
Qed.
(** The references that are not those of a node; no operation changes them, unless the
    region now leaks references on its pages, which are then more. *)
Definition outer_refs (s : vst) (r q : Z) : Z :=
  vr_refs (vs_region s r) q - uses (nodes s true) r q - uses (nodes s false) r q.
Definition outer_refcnt (s : vst) (r : Z) : Z :=
  vr_refcnt (vs_region s r) - maps_of (nodes s true) r - maps_of (nodes s false) r.
Record balanced (s s' : vst) : Prop := {
  ba_refs : forall r q, outer_refs s r q <= outer_refs s' r q;
  ba_leak : forall r, leaking (vs_region s' r) = false ->
    leaking (vs_region s r) = false /\ forall q, outer_refs s' r q = outer_refs s r q;
  ba_refcnt : forall r, outer_refcnt s' r = outer_refcnt s r;
  ba_this : vs_this s' = vs_this s;
}.
#[export] Instance balanced_refl : Reflexive balanced.
Proof. by split. Qed.
#[export] Instance balanced_trans : Transitive balanced.
Proof.
  intros s1 s2 s3 [H1 L1 H2 ?] [H3 L3 H4 ?]. split; [|..|congruence].
  - intros r q. specialize (H1 r q). specialize (H3 r q). lia.
  - intros r Hl. destruct (L3 r Hl) as [Hl2 E3], (L1 r Hl2) as [? E1]. split; [done|]. intros q. by rewrite E3.
  - intros r. by rewrite H4.
Qed.
Lemma step_balanced k s s' : vstep k s [] s' [] -> balanced s s'.
Proof.
  intros [Ho Ht _ Hrg Hr He Hc]. split; [| | |done].
  2: { intros r Hl. split; [by apply (Hrg r)|]. intros q. specialize (He r q Hl).
       unfold outer_refs, nodes. cbn in He. destruct k; cbn [negb] in Ho; rewrite Ho; lia. }
  - intros r q. specialize (Hr r q). unfold outer_refs, nodes. cbn in Hr. destruct k; cbn [negb] in Ho; rewrite Ho; lia.
  - intros r. specialize (Hc r). unfold outer_refcnt, nodes. cbn in Hc. destruct k; cbn [negb] in Ho; rewrite Ho; lia.
Qed.
(** The other address space is left alone. *)
Lemma step_inv k s s' :
  vm_inv s -> sok s' k -> vstep k s [] s' [] ->
  (k = false -> forall q, KERNEL_BASE_PAGE <= q -> pages s false q = None -> pages s' false q = None) ->
  vm_inv s' /\ balanced s s'.
Proof.
  intros Hinv Hok Hst Hpg. split; [|by eapply step_balanced]. pose proof Hinv as [_ _ Hb Hm].
  assert (Hoth : sok s' (negb k)).
  { unfold sok. rewrite (vt_other _ _ _ _ _ Hst). eapply space_ok_regions; [intros r; by eapply vstep_sizes|by apply inv_sok]. }
  split; [by destruct k|by destruct k| |by rewrite (vt_merging _ _ _ _ _ Hst)].
  intros q Hq. specialize (Hb q Hq). destruct k; [|by apply Hpg].
  pose proof (vt_other _ _ _ _ _ Hst) as Ho. cbn in Ho. unfold pages, nodes, space in *. by rewrite Ho.
Qed.
(** * Each operation implements its specification *)
Definition simulates (op : vop) (s : vst) : Prop :=
  let k := target s op in
  srun (exec op) s
    (fun r s' => vm_inv s' /\ balanced s s' /\ spec op (pages s k) (Some r) (pages s' k))
    (fun _ s' => vm_inv s' /\ balanced s s' /\ spec op (pages s k) None (pages s' k)).
Lemma kept_inv s s' k : vm_inv s -> kept k s s' -> vm_inv s' /\ balanced s s'.
Proof. intros Hinv [Hok Hst Hpg]. eapply step_inv; [done..|]. intros -> q _. by rewrite Hpg. Qed.
Lemma range_inv s s' k lo n f :
  vm_inv s -> sok s' k -> vstep k s [] s' [] -> (k = false -> lo + n <= KERNEL_BASE_PAGE) ->
  (forall q, pages s' k q = update lo n f (pages s k) q) -> vm_inv s' /\ balanced s s'.
Proof.
  intros Hinv Hok Hst Hr Hpg. eapply step_inv; [done..|]. intros -> q Hq Hn. specialize (Hr eq_refl).
  rewrite Hpg. unfold update. by replace (q <? lo + n) with false by lia; rewrite andb_false_r.
Qed.
Lemma simulates_map s hint n mode start r prot notify closure :
  vm_inv s -> valid s (OMap hint n mode start r prot notify closure) ->
  simulates (OMap hint n mode start r prot notify closure) s.
Proof.
  intros Hinv (Hh0 & Hn & Hh & He & (Hs & Hsz & Hszm) & Hu). unfold simulates. cbn [target exec].
  set (k := vs_this s) in *. pose proof (inv_sok s k Hinv) as Hok.
  eapply srun_mono; [apply (map_ok s hint n mode); try done; [|apply Hinv]|..]; cbv beta zeta; fold k.
  - intros Hk. destruct (Hu Hk). split_and!; [lia|done|]. intros x Hx. rewrite Hk in Hx.
    apply (below_kernel_nodes s); try done; apply Hinv.
  - intros a s' (p & -> & Hgf & [Hok' Hst' Hpg']).
    assert (Hp : k = false -> p + n <= KERNEL_BASE_PAGE).
    { intros Hk. destruct (Hu Hk). destruct (gf_allowed _ _ _ _ _ _ Hgf) as [->|Ha]; [done|]. rewrite Hk in Ha. unfold allowed in Ha. lia. }
    destruct (range_inv s s' k p n _ Hinv Hok' Hst' Hp Hpg') as [? ?]. split_and!; [done..|].
    apply spec_map; [|done]. apply free_run_pages; [done..|]. apply Hgf.
  - intros e s' Hk'. destruct (kept_inv s s' k Hinv Hk'). split_and!; [done..|]. apply spec_throw, Hk'.
Qed.
Lemma valid_range_user s page n : valid_range s page n -> effective s page = false -> page + n <= KERNEL_BASE_PAGE.
Proof. intros (_ & _ & He & _) Hk. by rewrite Hk in He. Qed.
Lemma valid_range_max s page n : valid_range s page n -> page + n <= VM_VPAGE_MAX.
Proof. intros (_ & _ & He & _). unfold KERNEL_BASE_PAGE, VM_VPAGE_MAX in *. case_match; lia. Qed.
Lemma simulates_mapat s page n start r prot notify closure :
  vm_inv s -> valid s (OMapAt page n start r prot notify closure) ->
  simulates (OMapAt page n start r prot notify closure) s.
Proof.
  intros Hinv [Hv (Hs & Hsz & Hszm)]. pose proof Hv as (Hp & Hn & _ & Hmut). unfold simulates. cbn [target exec].
  set (k := effective s page) in *. pose proof (inv_sok s k Hinv) as Hok. apply srun_bind.
  eapply srun_mono; [apply (mapat_ok page n start r prot notify closure s); try done; [by eapply valid_range_max|apply Hinv]|..];
    cbv beta zeta; fold k.
  - intros _ s' [Hok' Hst' Hpg']. apply srun_ret.
    destruct (range_inv s s' k page n _ Hinv Hok' Hst' (valid_range_user _ _ _ Hv) Hpg') as [? ?].
    split_and!; [done..|]. by apply spec_mapat.
  - intros e s' Hk'. destruct (kept_inv s s' k Hinv Hk'). split_and!; [done..|]. apply spec_throw, Hk'.
Qed.
Lemma simulates_unmap s page n mode tag :
  vm_inv s -> valid s (OUnmap page n mode tag) -> simulates (OUnmap page n mode tag) s.
Proof.
  intros Hinv [Hv Hm]. pose proof Hv as (Hp & Hn & _ & Hmut). unfold simulates. cbn [target exec].
  set (k := effective s page) in *. pose proof (inv_sok s k Hinv) as Hok.
  eapply srun_mono; [apply (unmap_ok page n mode tag s); try done; by eapply valid_range_max|..]; cbv beta zeta; fold k.
  - intros a s' [[[Hok' Hst' Hpg' _] ->]|(Hne & -> & Hk')].
    + destruct (range_inv s s' k page n _ Hinv Hok' Hst' (valid_range_user _ _ _ Hv) Hpg') as [? ?].
      split_and!; [done..|]. by apply spec_unmap.
    + destruct (kept_inv s s' k Hinv (split_kept _ _ _ Hk')). split_and!; [done..|]. apply spec_unmap_noexcept; [done|apply Hk'].
  - intros e s' Hk'. destruct (kept_inv s s' k Hinv Hk'). split_and!; [done..|]. apply spec_throw, Hk'.
Qed.
Lemma simulates_protect s page n mask fl mode tag :
  vm_inv s -> valid s (OProtect page n mask fl mode tag) -> simulates (OProtect page n mask fl mode tag) s.
Proof.
  intros Hinv [Hv Hm]. pose proof Hv as (Hp & Hn & _ & Hmut). unfold simulates. cbn [target exec].
  set (k := effective s page) in *. pose proof (inv_sok s k Hinv) as Hok.
  eapply srun_mono; [apply (protect_ok page n mask fl mode tag s); try done; [by eapply valid_range_max|apply Hinv]|..];
    cbv beta zeta; fold k.
  - intros a s' [[Hok' Hst' Hpg'] ->].
    destruct (range_inv s s' k page n (fun q => reprotected mask fl <$> pages s k q) Hinv Hok' Hst' (valid_range_user _ _ _ Hv) Hpg') as [? ?].
    split_and!; [done..|]. by apply spec_protect.
  - intros e s' [Hok' Hst' Hpg']. destruct (step_inv k s s' Hinv Hok' Hst') as [? ?].
    { intros Hk q Hq Hnone. rewrite <- Hk in *. destruct (Hpg' q) as [->|[? ->]]; [done|by rewrite Hnone]. }
    split_and!; [done..|]. by apply spec_protect_throw.
Qed.
Lemma simulates_all s op : vm_inv s -> valid s op -> simulates op s.
Proof.
  intros Hinv. destruct op; [by apply simulates_map|by apply simulates_mapat|by apply simulates_unmap|by apply simulates_protect].
Qed.

(** * Histories *)
(** Other code runs operations one after the other, whether they return or throw. *)
Inductive ran (s : vst) : vst -> Prop :=
| ran_ret op r s' : valid s op -> exec op s = SRet r s' -> ran s s'
| ran_throw op e s' : valid s op -> exec op s = SThrow e s' -> ran s s'.
Lemma ran_inv s s' : vm_inv s -> ran s s' -> vm_inv s' /\ balanced s s'.
Proof.
  intros Hinv Hran. destruct Hran as [op r s' Hv E|op e s' Hv E]; pose proof (simulates_all s op Hinv Hv) as H;
    unfold simulates, srun in H; rewrite E in H; tauto.
Qed.
Lemma count_all (m : page_map) lo n : 0 <= n -> (forall q, lo <= q < lo + n -> m q <> None) -> count m lo n = n.
Proof.
  intros Hn Hm. unfold count. rewrite filter_all; [rewrite length_seqZ; lia|]. apply Forall_forall.
  intros q Hq%elem_of_seqZ. by apply Hm.
Qed.
(** Unmapping what has been mapped over free pages brings every page back to what it
    was, and counts the pages. *)
Theorem vm_mapat_unmap_roundtrip s s1 s2 page n start r prot notify closure tag res :
  let k := effective s page in
  vm_inv s -> valid s (OMapAt page n start r prot notify closure) -> (forall q, page <= q < page + n -> pages s k q = None) ->
  vm_mapat page n start r prot notify closure s = SRet tt s1 -> mutable_in (nodes s1 k) page n ->
  vm_unmap page n VM_UNMAP_NORMAL tag s1 = SRet res s2 ->
  res = n /\ balanced s s2 /\ (forall q, pages s2 k q = pages s k q).
Proof.
  intros k Hinv Hv Hfree E1 Hmut E2. pose proof (simulates_all s _ Hinv Hv) as H1. unfold simulates in H1.
  cbn [target exec] in H1. fold k in H1. unfold srun, mbind, SM_bind in H1. rewrite E1 in H1.
  destruct H1 as (Hinv1 & Hb1 & Hspec1). inversion Hspec1 as [|? ? ? ? ? ? ? ? ? Hm1| | | | |]; subst.
  assert (Hk1 : effective s1 page = k).
  { unfold k, effective. by rewrite (ba_this _ _ Hb1). }
  destruct Hv as [(Hp & Hn & He & _) _].
  assert (Hv2 : valid s1 (OUnmap page n VM_UNMAP_NORMAL tag)).
  { split; [|done]. unfold valid_range. rewrite Hk1. by split_and!. }
  pose proof (simulates_all s1 _ Hinv1 Hv2) as H2. unfold simulates in H2. cbn [target exec] in H2. rewrite Hk1 in H2.
  unfold srun in H2. rewrite E2 in H2. destruct H2 as (_ & Hb2 & Hspec2).
  inversion Hspec2 as [| |? ? ? ? ? ? Hm2|? ? ? ? ? ? Hne| | |]; subst; [|done].
  split_and!; [|by etransitivity|].
  - apply count_all; [lia|]. intros q Hq. rewrite Hm1. unfold update. by replace ((page <=? q) && (q <? page + n)) with true by lia.
  - intros q. rewrite Hm2. unfold update. destruct ((page <=? q) && (q <? page + n)) eqn:Hr; [symmetry; apply Hfree; lia|].
    rewrite Hm1. unfold update. by rewrite Hr.
Qed.

(** * An example: two mappings of a user task *)
Definition ex_low : vm_node := MkNode 16 31 0 1 3 0 0 0.
Definition ex_high : vm_node := MkNode 48 63 8 1 1 0 0 0.
Definition vm_ex : vst :=
  MkVst (MkSpace ANil []) (MkSpace (ANode (ANode ANil ex_high ANil) ex_low ANil) [ex_low; ex_high]) false
    (fun r => MkRegion 64 0 0 2 (fun q => uses [ex_low; ex_high] r q)) true (fun _ => None) (fun _ => 0).
Lemma vm_ex_user : sok vm_ex false.
Proof.
  split; cbn.
  - split; cbn; unfold in_slot, disjoint; cbn; split_and!; try lia; try done. constructor; [cbn; lia|done].
  - done.
  - repeat constructor.
  - repeat constructor; unfold fits, VM_NODE_SIZE; cbn; unfold VM_VPAGE_MAX; lia.
Qed.
Lemma vm_ex_inv : vm_inv vm_ex.
Proof.
  split; [|exact vm_ex_user| |done].
  - split; cbn; [by split|done|constructor|constructor].
  - intros q Hq. unfold pages. cbn. unfold covers. cbn. unfold KERNEL_BASE_PAGE in Hq. repeat (case_match; try done; try lia).
Qed.
Lemma vm_ex_mutable page n : mutable_in (nodes vm_ex false) page n.
Proof. intros x [->|[->|Hx]%elem_of_cons]%elem_of_cons _; [done..|by apply elem_of_nil in Hx]. Qed.
Lemma vm_ex_valid : valid vm_ex (OUnmap 20 40 0 0).
Proof. split; [|done]. unfold valid_range. cbn. unfold KERNEL_BASE_PAGE. split_and!; try lia. apply vm_ex_mutable. Qed.
Definition vm_ex_unmapped : vst := match exec (OUnmap 20 40 0 0) vm_ex with SRet _ s => s | _ => vm_ex end.
Lemma vm_ex_runs : exec (OUnmap 20 40 0 0) vm_ex = SRet 24 vm_ex_unmapped.
Proof. vm_compute. reflexivity. Qed.
Lemma vm_lookup_witness :
  vm_getnode 50 vm_ex = SRet (List.find (fun x => covers x 50) (nodes vm_ex false)) vm_ex /\
  is_none (vm_getanynode vm_ex 50 70) = forallb (fun x => negb (in_range 50 70 x)) (nodes vm_ex false).
Proof. apply (vm_lookup_equiv vm_ex 50 70 vm_ex_user). unfold VM_VPAGE_MAX. lia. Defined.
Definition vm_ex_mapped : vst := match vm_mapat 100 4 0 1 3 0 0 vm_ex with SRet _ s => s | _ => vm_ex end.
Definition vm_ex_again : vst := match vm_unmap 100 4 VM_UNMAP_NORMAL 0 vm_ex_mapped with SRet _ s => s | _ => vm_ex end.
Lemma vm_ex_maps : vm_mapat 100 4 0 1 3 0 0 vm_ex = SRet tt vm_ex_mapped.
Proof. vm_compute. reflexivity. Qed.
Lemma vm_ex_unmaps : vm_unmap 100 4 VM_UNMAP_NORMAL 0 vm_ex_mapped = SRet 4 vm_ex_again.
Proof. vm_compute. reflexivity. Qed.
Lemma vm_ex_mapped_nodes : nodes vm_ex_mapped false = [ex_low; ex_high; MkNode 100 103 0 1 3 0 0 0].
Proof. vm_compute. reflexivity. Qed.
Lemma vm_ex_map_valid : valid vm_ex (OMapAt 100 4 0 1 3 0 0).
Proof.
  split; [|unfold valid_part; cbn; lia]. unfold valid_range. cbn. unfold KERNEL_BASE_PAGE. split_and!; try lia. apply vm_ex_mutable.
Qed.
Lemma vm_mapat_unmap_witness :
  vm_mapat 100 4 0 1 3 0 0 vm_ex = SRet tt vm_ex_mapped /\
  (4 = 4 /\ balanced vm_ex vm_ex_again /\ forall q, pages vm_ex_again false q = pages vm_ex false q).
Proof.
  split; [exact vm_ex_maps|].
  apply (vm_mapat_unmap_roundtrip vm_ex vm_ex_mapped vm_ex_again 100 4 0 1 3 0 0 0 4 vm_ex_inv vm_ex_map_valid).
  - intros q Hq. unfold pages. cbn. unfold covers. cbn. repeat (case_match; try done; try lia).
  - exact vm_ex_maps.
  - change (effective vm_ex 100) with false. rewrite vm_ex_mapped_nodes.
    intros x [->|[->|[->|Hx]%elem_of_cons]%elem_of_cons]%elem_of_cons _; [done..|by apply elem_of_nil in Hx].
  - exact vm_ex_unmaps.
Defined.

(** * Where the code falls short *)
(** [vm_merge_before] passes the level of the slot for its center too when it takes the
    second node out of the tree: mapping the pages between two mappings of the same region
    fails an assertion of the tree. *)
Definition vm_ex_empty (merging : bool) : vst :=
  MkVst (MkSpace ANil []) (MkSpace ANil []) false
    (fun r => MkRegion 64 0 0 0 (fun q => 0)) (negb merging) (fun _ => None) (fun _ => 0).
Definition map_three : VM unit :=
  vm_mapat 16 4 0 1 3 0 0 ≫= fun _ => vm_mapat 24 4 8 1 3 0 0 ≫= fun _ => vm_mapat 20 4 4 1 3 0 0.
Example vm_merge_slot_center : map_three (vm_ex_empty true) = SPanic.
Proof. vm_compute. reflexivity. Qed.
Example vm_nomerge_maps_three :
  match map_three (vm_ex_empty false) with SRet _ s => forallb (fun q => bool_decide (is_Some (pages s false q))) (seqZ 16 12) | _ => false end = true.
Proof. vm_compute. reflexivity. Qed.
(** An address space with the given nodes, in the given tree. *)
Definition vm_of (kernel user : vspace) : vst :=
  MkVst kernel user false (fun r => MkRegion 64 0 0 2 (fun q => 0)) true (fun _ => None) (fun _ => 0).
Definition one_node (x : vm_node) : vspace := MkSpace (ANode ANil x ANil) [x].
(** With an alignment the candidate may lie behind the next node; the unsigned difference
    between them is then huge, the range is taken for free, and the assertion fails. *)
Example vm_getfree_alignment_wraps :
  let low := MkNode 0 0 0 1 3 0 0 0 in let high := MkNode 1 5 1 1 3 0 0 0 in
  vm_getfree (vm_of (MkSpace ANil []) (MkSpace (ANode (ANode ANil high ANil) low ANil) [low; high])) 0 1 2 0 0 = Panic.
Proof. vm_compute. reflexivity. Qed.
(** A hint that is free is returned whatever the alignment. *)
Example vm_getfree_hint_unaligned : vm_getfree vm_ex 33 1 16 0 0 = Ret 33.
Proof. vm_compute. reflexivity. Qed.
(** The assertion on a candidate for the kernel comes before the candidate is known to lie
    in the kernel, and asks the address space of the task. *)
Example vm_getfree_kernel_below :
  vm_getfree (vm_of (one_node (MkNode KERNEL_BASE_PAGE (KERNEL_BASE_PAGE + 15) 0 1 3 0 0 0))
                (one_node (MkNode (KERNEL_BASE_PAGE - 1) (KERNEL_BASE_PAGE - 1) 0 1 3 0 0 0)))
    (KERNEL_BASE_PAGE + 8) 1 1 0 VM_GETFREE_FBELOW = Panic.
Proof. vm_compute. reflexivity. Qed.
(** A hint close to the end of the user part is returned although its range reaches into
    the kernel. *)
Example vm_getfree_into_kernel : vm_getfree vm_ex (KERNEL_BASE_PAGE - 1) 2 1 0 0 = Ret (KERNEL_BASE_PAGE - 1).
Proof. vm_compute. reflexivity. Qed.
(** [vm_map] decides on the address space by the hint, [vm_getfree] after a hint of zero has
    become the end of all addresses: the page of the kernel is mapped for the task. *)
Example vm_map_zero_hint_below :
  match vm_map_at_free 0 1 1 0 VM_GETFREE_FBELOW 0 1 3 0 0 vm_ex with
  | SRet a s => Some (a, map a_vmin (nodes s false))
  | _ => None
  end = Some (VM_VPAGE_MAX * 4096, [16; 48; VM_VPAGE_MAX]).
Proof. vm_compute. reflexivity. Qed.
(** The nodes that [vm_pop_nodes] returns have no particular order, [vm_restore] asserts that
    they are ordered by address: moving two mappings at once fails. *)
Example vm_remap_unordered : vm_remap 16 48 128 65535 0 0 0 vm_ex = SPanic.
Proof. vm_compute. reflexivity. Qed.
(** [VM_EXTRACT_FULL] looks at the first node even if there is none. *)
Example vm_extract_full_nothing : vm_extract 32 16 VM_EXTRACT_FULL 0 vm_ex = SPanic.
Proof. vm_compute. reflexivity. Qed.
