(* ===== verification/VmCalm.v ===== *)
(** Address spaces when nothing else fails.

    Allocations, locks, notification functions and the page tables may throw, as the oracle
    of the state decides.  If they do not, the operations on address spaces return. *)
From S2P Require Import Prelude.
From stdpp Require Import list sorting sets relations.
From S2P Require Import ATree Vm VmInv VmOps VmProt VmFree VmProps.
#[local] Open Scope Z_scope.

(** * Code that does not throw *)
Definition calm (s : vst) : Prop := forall i, vs_oracle s i = None.
Notation quiet := (quietly calm).
Lemma quiet_request : quiet request.
Proof. intros s Hs. unfold request. rewrite (Hs 0%nat). intros i. apply Hs. Qed.
Lemma quiet_reply : quiet reply.
Proof. by intros s Hs. Qed.
Lemma quiet_get_space k : quiet (get_space k).
Proof. by intros s Hs. Qed.
Lemma quiet_set_space k v : quiet (set_space k v).
Proof. by intros s Hs. Qed.
Lemma quiet_add_refs r start n d : quiet (add_refs r start n d).
Proof. by intros s Hs. Qed.
Lemma quiet_add_refcnt r d : quiet (add_refcnt r d).
Proof. by intros s Hs. Qed.
#[export] Hint Resolve quiet_request
  quiet_reply quiet_get_space quiet_set_space quiet_add_refs quiet_add_refcnt : quiet.

(** ** The tree *)
Lemma reinsertall_no_throw (ins : atree vm_node -> vm_node -> outcome (atree vm_node)) t n :
  (forall t x, no_throw (ins t x)) -> no_throw (priv_reinsertall ins t n).
Proof. intros Hi. revert t. induction n as [|l IHl x r IHr]; intros t; cbn; [done|]. quiet_run. Qed.
#[export] Hint Resolve reinsertall_no_throw : quiet.
Lemma insert_at_no_throw w fuel (t : atree vm_node) x semi level : no_throw (insert_at w fuel t x semi level).
Proof.
  revert t x semi level. induction fuel as [|fuel IH]; intros t x semi level; cbn [insert_at]; [done|].
  unfold insert_checks. quiet_run.
Qed.
#[export] Hint Resolve insert_at_no_throw : quiet.
Lemma pop_at_no_throw w (t : atree vm_node) semi level : no_throw (pop_at w t semi level).
Proof. unfold pop_at. quiet_run. Qed.
Lemma slot_get_no_throw (t : atree vm_node) p : no_throw (slot_get t p).
Proof. revert t. induction p as [|[] p IH]; intros []; cbn; quiet_run. Qed.
Lemma slot_set_no_throw (t : atree vm_node) p u : no_throw (slot_set t p u).
Proof. revert t. induction p as [|[] p IH]; intros []; cbn; quiet_run. Qed.
#[export] Hint Resolve pop_at_no_throw slot_get_no_throw slot_set_no_throw : quiet.
Lemma ppop_at_no_throw w (t : atree vm_node) p semi level : no_throw (ppop_at w t p semi level).
Proof. unfold ppop_at. quiet_run. Qed.
Lemma plocate_at_no_throw w (t : atree vm_node) key semi level : no_throw (plocate_at w t key semi level).
Proof. revert semi level. induction t as [|l IHl x r IHr]; intros semi level; cbn; [done|]. unfold locate_checks. quiet_run. Qed.
Lemma insert_byaddr_no_throw x l : no_throw (insert_byaddr x l).
Proof. induction l as [|y l IH]; cbn; quiet_run. Qed.
Lemma pop_nodes_no_throw fuel t res lo hi semi level mode tag :
  no_throw (impl_vm_pop_nodes fuel t res lo hi semi level mode tag).
Proof.
  revert t res semi level. induction fuel as [|fuel IH]; intros t res semi level; cbn [impl_vm_pop_nodes]; [done|].
  quiet_run.
Qed.
#[export] Hint Resolve ppop_at_no_throw plocate_at_no_throw insert_byaddr_no_throw pop_nodes_no_throw : quiet.

(** ** The operations *)
Lemma quiet_insert_node k x : quiet (vm_insert_node k x).
Proof. unfold vm_insert_node. quiet_run. Qed.
Lemma quiet_map_node x : quiet (vm_map_node x).
Proof. unfold vm_map_node, pagedir_map. quiet_run. Qed.
#[export] Hint Resolve quiet_insert_node quiet_map_node : quiet.
Lemma quiet_activate k x : quiet (vm_insert_and_activate_node k x).
Proof. unfold vm_insert_and_activate_node. quiet_run. Qed.
Lemma quiet_pop_nodes k lo hi mode tag : quiet (vm_pop_nodes k lo hi mode tag).
Proof. unfold vm_pop_nodes. quiet_run. Qed.
Lemma quiet_plocate k page : quiet (vm_plocate k page).
Proof. intros s Hs. unfold vm_plocate. apply (quietly_lift calm _ (plocate_at_no_throw _ _ _ _ _) s Hs). Qed.
Lemma quiet_deref k p : quiet (deref k p).
Proof. intros s Hs. unfold deref. by destruct (slot_get _ _) as [[]| |]. Qed.
Lemma quiet_pop_node k p semi level : quiet (pop_node k p semi level).
Proof. unfold pop_node. quiet_run. Qed.
Lemma quiet_notify : quiet INVOKE_NOTIFY.
Proof. unfold INVOKE_NOTIFY. quiet_run. Qed.
#[export] Hint Resolve quiet_activate quiet_pop_nodes quiet_plocate quiet_deref quiet_pop_node quiet_notify : quiet.
Lemma quiet_split k page : quiet (vm_split_before k page).
Proof. unfold vm_split_before, split_closure, kmalloc_node, vm_region_incref. quiet_run. Qed.
Lemma quiet_merge k page : quiet (vm_merge_before k page).
Proof. unfold vm_merge_before, vm_region_decref, ATree.remove, remove_at, ATree.insert. quiet_run. Qed.
#[export] Hint Resolve quiet_split quiet_merge : quiet.
Lemma quiet_each step l : (forall x, quiet (step x)) -> quiet (each step l).
Proof. intros Hs. induction l as [|x l IH]; cbn [each]; quiet_run. Qed.
Lemma quiet_insert_nodes k l : quiet (insert_nodes k l).
Proof. induction l as [|x l IH]; cbn [insert_nodes]; quiet_run. Qed.
Lemma quiet_drop_nodes l : quiet (drop_nodes l).
Proof. induction l as [|x l IH]; cbn [drop_nodes]; unfold vm_region_decref_range, vm_region_decref; quiet_run. Qed.
#[export] Hint Resolve quiet_insert_nodes quiet_drop_nodes : quiet.
Lemma quiet_range page n : quiet (range_checks page n).
Proof. unfold range_checks. quiet_run. Qed.
Lemma quiet_protect_node k x lo hi mask fl mode tag : quiet (protect_node k x lo hi mask fl mode tag).
Proof. unfold protect_node, store_prot. quiet_run. Qed.
#[export] Hint Resolve quiet_range quiet_protect_node : quiet.
Lemma quiet_impl_protect k t lo hi semi level mask fl mode tag : quiet (impl_vm_protect k t lo hi semi level mask fl mode tag).
Proof. revert semi level. induction t as [|l IHl x r IHr]; intros semi level; cbn [impl_vm_protect]; quiet_run. Qed.
#[export] Hint Resolve quiet_impl_protect : quiet.
Lemma quiet_protect page n mask fl mode tag : quiet (vm_protect page n mask fl mode tag).
Proof. unfold vm_protect, vm_acquire. quiet_run. Qed.
Lemma quiet_incref_range r start n : quiet (vm_region_incref_range r start n).
Proof. unfold vm_region_incref_range. quiet_run. Qed.
Lemma quiet_notify_incref x : quiet (notify_incref x).
Proof. unfold notify_incref. quiet_run. Qed.
Lemma quiet_replace k x : quiet (replace_range k x).
Proof. unfold replace_range, on_error. quiet_run. Qed.
#[export] Hint Resolve quiet_incref_range quiet_notify_incref quiet_replace : quiet.
Lemma quiet_mapat page n start r prot notify closure : quiet (vm_mapat page n start r prot notify closure).
Proof.
  unfold vm_mapat, on_error, kmalloc_node, vm_acquire, vm_region_incref. quiet_run.
Qed.

(** * Unmapping *)
(** Without errors the modes that say what to do about them do not matter. *)
Lemma calm_bind {A B} (m m' : VM A) (f g : A -> VM B) s :
  calm s -> quiet m' -> m s = m' s -> (forall a s', calm s' -> f a s' = g a s') -> (m ≫= f) s = (m' ≫= g) s.
Proof.
  intros Hs Hm E Hf. unfold mbind, SM_bind. rewrite E. specialize (Hm s Hs). destruct (m' s) as [a s'|e s'|]; [|done..].
  by apply Hf.
Qed.
Lemma catch_calm {A} (m : VM A) h h' s : quiet m -> calm s -> scatch m h s = scatch m h' s.
Proof. intros Hm Hs. specialize (Hm s Hs). unfold scatch. by destruct (m s). Qed.
Lemma each_calm step l s : (forall x, quiet (step x)) -> calm s ->
  match each step l s with SRet r s' => snd r = None /\ calm s' | SThrow _ _ => False | SPanic => True end.
Proof.
  intros Hq. revert s. induction l as [|x l IH]; intros s Hs; cbn [each]; [done|].
  unfold mbind, SM_bind, scatch. specialize (Hq x s Hs). destruct (step x s) as [[] s1|e s1|]; cbn; [|done..].
  specialize (IH s1 Hq). by destruct (each step l s1) as [r s2|e s2|].
Qed.
Section Modes.
Context (m1 m2 : Z) (Htag : flag m1 VM_UNMAP_TAG = flag m2 VM_UNMAP_TAG)
  (Himm : flag m1 VM_UNMAP_IMMUTABLE = flag m2 VM_UNMAP_IMMUTABLE).
Lemma outcome_bind_ext {A B} (o o' : outcome A) (f g : A -> outcome B) :
  o = o' -> (forall a, f a = g a) -> o ≫= f = o' ≫= g.
Proof. intros -> H. destruct o'; [apply H|done..]. Qed.
Lemma pop_nodes_modes fuel t res lo hi semi level tag :
  impl_vm_pop_nodes fuel t res lo hi semi level m1 tag = impl_vm_pop_nodes fuel t res lo hi semi level m2 tag.
Proof.
  revert t res semi level. induction fuel as [|fuel IH]; intros t res semi level; [done|]. cbn [impl_vm_pop_nodes].
  destruct t as [|l x r]; [done|]. rewrite Htag, Himm. destruct (in_range lo hi x && _).
  - do 2 (apply outcome_bind_ext; [done|]; intros ?). case_match. apply IH.
  - do 2 case_match. destruct ((lo <? semi) && nonnil l).
    + apply outcome_bind_ext; [destruct ((semi <=? hi) && nonnil r); [apply IH|done]|]. intros []. apply outcome_bind_ext; [apply IH|done].
    + destruct ((semi <=? hi) && nonnil r); [|done]. apply outcome_bind_ext; [apply IH|done].
Qed.
Lemma unmap_nodes_modes k ps s : calm s -> unmap_nodes k ps m1 s = unmap_nodes k ps m2 s.
Proof.
  intros Hs. unfold unmap_nodes. unfold mbind, SM_bind. pose proof (each_calm (fun _ => pagedir_map) ps s (fun _ => quiet_request) Hs) as H.
  destruct (each _ ps s) as [r s'|e s'|]; [|done..]. by destruct H as [-> _].
Qed.
Lemma quiet_unmap_nodes k ps mode : quiet (unmap_nodes k ps mode).
Proof.
  intros s Hs. unfold unmap_nodes. unfold mbind, SM_bind. pose proof (each_calm (fun _ => pagedir_map) ps s (fun _ => quiet_request) Hs) as H.
  destruct (each _ ps s) as [r s'|e s'|]; [|done..]. by destruct H as [-> ?].
Qed.
Lemma unmap_modes page n tag s : calm s -> vm_unmap page n m1 tag s = vm_unmap page n m2 tag s.
Proof.
  intros Hs. unfold vm_unmap, vm_acquire. destruct (n =? 0); [done|].
  apply calm_bind; [done|apply quiet_range|done|]. intros _ s1 Hs1. apply calm_bind; [done|apply quietly_get|done|].
  intros s1' s2 Hs2. apply calm_bind; [done|apply quiet_request|done|]. intros _ s3 Hs3.
  apply calm_bind; [done|unfold split_range; quiet_run| |].
  { apply catch_calm; [quiet_run|done]. }
  intros [] s4 Hs4; [|done]. apply calm_bind; [done|apply quiet_pop_nodes| |].
  { unfold vm_pop_nodes. apply calm_bind; [done|apply quiet_get_space|done|]. intros v s5 _. by rewrite pop_nodes_modes. }
  intros ps s5 Hs5. apply calm_bind; [done|apply quiet_unmap_nodes|by apply unmap_nodes_modes|done].
Qed.
End Modes.
Lemma quiet_unmap page n mode tag : quiet (vm_unmap page n mode tag).
Proof. unfold vm_unmap, vm_acquire, split_range. pose proof quiet_unmap_nodes. quiet_run. Qed.

(** * Mapping at a free place *)
Section Env.
Context (s s' : vst) (He : env s s') (n align gap : Z).
Lemma effective_env page : effective s' page = effective s page.
Proof. unfold effective. by rewrite (ev_this _ _ He). Qed.
Lemma check_free_env c : check_free s' c n = check_free s c n.
Proof. unfold check_free, vm_getanynode. by rewrite effective_env, (ev_space _ _ He). Qed.
Lemma guard_gap_env x t : guard_gap s' x t gap = guard_gap s x t gap.
Proof. unfold guard_gap. by rewrite (ev_region _ _ He). Qed.
End Env.
Lemma below_env s s' n align gap iter prevs :
  env s s' -> getfree_below s' iter prevs n align gap = getfree_below s iter prevs n align gap.
Proof.
  intros He. revert iter. induction prevs as [|prev prevs IH]; intros iter; cbn [getfree_below];
    rewrite !(guard_gap_env s s' He), !(check_free_env s s' He); [done|]. by rewrite IH.
Qed.
Lemma above_env s s' k n align gap iter nexts :
  env s s' -> getfree_above s' k iter nexts n align gap = getfree_above s k iter nexts n align gap.
Proof.
  intros He. revert iter. induction nexts as [|next nexts IH]; intros iter; cbn [getfree_above];
    rewrite !(guard_gap_env s s' He), !(check_free_env s s' He); [done|]. by rewrite IH.
Qed.
Lemma impl_getfree_env s s' k hint n align gap below :
  env s s' -> impl_vm_getfree s' k hint n align gap below = impl_vm_getfree s k hint n align gap below.
Proof.
  intros He. unfold impl_vm_getfree. rewrite (ev_space _ _ He). case_match; [done|]. destruct (vm_findnodes _ _ _ _ _ _) as [[mn|] [mx|]]; try done.
  cbn [ni_min ni_max]. do 2 (apply outcome_bind_ext; [done|]; intros _). apply outcome_bind_ext.
  - destruct below; case_match; [by apply below_env|by apply above_env].
  - intros [c|]; [|done]. unfold getfree_winner. by rewrite (check_free_env s s' He).
Qed.
Lemma getfree_env s s' hint n align gap mode :
  env s s' -> vm_getfree s' hint n align gap mode = vm_getfree s hint n align gap mode.
Proof.
  intros He. assert (Hat : forall h m, getfree_at s' h n align gap m = getfree_at s h n align gap m).
  { intros h m. unfold getfree_at. assert (Hvm : getfree_vm s' h m = getfree_vm s h m) by (unfold getfree_vm; by rewrite (ev_this _ _ He)).
    rewrite Hvm, (ev_space _ _ He). assert (Hs : forall k g, getfree_search s' k h n align g m = getfree_search s k h n align g m).
    { intros k g. unfold getfree_search. apply outcome_bind_ext; [by apply impl_getfree_env|]. intros [|]; [done|].
      case_match; [done|by apply impl_getfree_env]. }
    apply outcome_bind_ext; [|intros [p|]; [by rewrite (check_free_env s s' He)|done]].
    destruct (_ <? n); [done|]. destruct (_ || _); [done|]. apply outcome_bind_ext; [apply Hs|]. intros [|]; [done|]. case_match; [apply Hs|done]. }
  unfold vm_getfree. by rewrite !Hat.
Qed.
Lemma request_calm s : calm s -> exists s', request s = SRet tt s' /\ calm s' /\ env s s'.
Proof.
  intros Hs. unfold request. rewrite (Hs 0%nat). eexists. split_and!; [done|intros i; apply Hs|]. by split; [intros []|..].
Qed.
(** A run that may fail an assertion, but does not throw. *)
Definition qrun {A} (m : VM A) (s : vst) (Q : A -> vst -> Prop) : Prop :=
  match m s with SRet a s' => Q a s' | SThrow _ _ => False | SPanic => True end.
Lemma qrun_bind {A B} (m : VM A) (f : A -> VM B) s Q :
  qrun m s (fun a s' => qrun (f a) s' Q) -> qrun (m ≫= f) s Q.
Proof. unfold qrun, mbind, SM_bind. by destruct (m s). Qed.
Lemma qrun_quiet {A} (m : VM A) s (Q : A -> vst -> Prop) :
  quiet m -> calm s -> (forall a s', calm s' -> Q a s') -> qrun m s Q.
Proof. intros Hm Hs HQ. specialize (Hm s Hs). unfold qrun. destruct (m s); auto. Qed.
Lemma qrun_check b s (Q : unit -> vst -> Prop) : Q tt s -> qrun (scheck b) s Q.
Proof. unfold qrun, scheck. by destruct b. Qed.
Lemma map_calm s hint n align gap mode start r prot notify closure p :
  calm s -> vm_getfree s hint n align gap mode = Ret p ->
  qrun (vm_map_at_free hint n align gap mode start r prot notify closure) s (fun a s' => calm s' /\ a = u32 (p * 4096)).
Proof.
  intros Hs Hp. unfold vm_map_at_free. apply qrun_bind. unfold qrun at 1, sget. cbv zeta.
  do 3 apply qrun_bind, qrun_check. apply qrun_bind. destruct (request_calm s Hs) as (s1 & E1 & Hs1 & He1).
  unfold qrun at 1, kmalloc_node. rewrite E1. apply qrun_bind. destruct (request_calm s1 Hs1) as (s2 & E2 & Hs2 & He2).
  unfold qrun at 1, vm_acquire. rewrite E2. apply qrun_bind. unfold qrun at 1, sget. apply qrun_bind.
  rewrite (getfree_env s1 s2), (getfree_env s s1), Hp by done. unfold qrun at 1, slift.
  apply qrun_bind, qrun_quiet; [apply quiet_notify_incref|done|]. intros node s3 Hs3.
  apply qrun_bind, qrun_quiet; [apply quiet_add_refcnt|done|]. intros _ s4 Hs4.
  apply qrun_bind, qrun_quiet; [unfold on_error; quiet_run|done|]. by intros _ s5 Hs5.
Qed.
Lemma map_calm_fails s hint n align gap mode start r prot notify closure e :
  calm s -> vm_getfree s hint n align gap mode = Throw e ->
  match vm_map_at_free hint n align gap mode start r prot notify closure s with
  | SRet _ _ => False
  | SThrow e' _ => e' = e
  | SPanic => True
  end.
Proof.
  intros Hs Hp. unfold vm_map_at_free. unfold mbind, SM_bind, sget, scheck, kmalloc_node, vm_acquire.
  destruct (request_calm s Hs) as (s1 & E1 & Hs1 & He1). destruct (request_calm s1 Hs1) as (s2 & E2 & Hs2 & He2).
  destruct (negb (n =? 0)); [|done]. destruct (start <=? _); [|done]. destruct (_ <=? vr_size _); [|done]. rewrite E1, E2. by rewrite (getfree_env s1 s2), (getfree_env s s1), Hp by done.
Qed.
Lemma unmap_calm s page n mode tag :
  vm_inv s -> calm s -> valid s (OUnmap page n mode tag) ->
  let k := effective s page in
  exists s', vm_unmap page n mode tag s = SRet (mapped_pages (nodes s k) page n) s' /\ calm s' /\ unmapped k s page n s'.
Proof.
  intros Hinv Hs [Hv Hm] k. pose proof Hv as (Hp & Hn & _ & Hmut).
  set (mode' := if flag mode VM_UNMAP_IMMUTABLE then VM_UNMAP_IMMUTABLE else VM_UNMAP_NORMAL).
  rewrite (unmap_modes mode mode'); [|unfold mode'; by case_match|unfold mode'; by destruct (flag mode VM_UNMAP_IMMUTABLE)|done].
  pose proof (unmap_ok page n mode' tag s) as H. cbv zeta in H. fold k in H.
  specialize (H (inv_sok s k Hinv) Hp Hn (valid_range_max _ _ _ Hv) Hmut ltac:(unfold mode'; by case_match)).
  pose proof (quiet_unmap page n mode' tag s Hs) as Hq. unfold srun in H.
  destruct (vm_unmap page n mode' tag s) as [res s'|e s'|]; [|done..].
  destruct H as [[Hu ->]|(Hne & _)]; [by exists s'|]. exfalso. revert Hne. unfold mode'. by case_match.
Qed.
Lemma vm_ex_calm : calm vm_ex.
Proof. by intros i. Qed.
