(* ===== verification/VmHeap.v ===== *)
(** The kernel heap on the address space of the kernel.

    [Heap.KernelVM] is what the heap relies on; here the address space of vm.c, booted with
    [nomerge], is shown to be one.  Memory for nodes, regions and page tables may run out at
    any time ([lean]).  The theorems of the heap then hold for it, so that what the heap
    hands out is mapped by the nodes of the address space. *)
From S2P Require Import Prelude.
From stdpp Require Import list sorting sets relations.
From S2P Require Import ATree Heap HeapInv HeapAlloc HeapProps.
From S2P Require Import Vm VmInv VmOps VmProt VmFree VmProps VmCalm.
#[local] Open Scope Z_scope.

(** * The operations of the heap *)
(** A number no node has for its region. *)
Definition fresh_region (s : vst) : Z :=
  1 + foldr (fun x m => Z.max (vn_region x) m) 0 (nodes s true ++ nodes s false).
(** [PROT_READ|PROT_WRITE|PROT_NOUSER] *)
Definition heap_prot : Z := 70.
Definition new_region (s : vst) (n : Z) : vst :=
  with_region s (fresh_region s) (MkRegion n 0 0 1 (fun q => if (0 <=? q) && (q <? n) then 1 else 0)).
(** The mapping that [core_page_alloc] and [core_page_allocat] make: a region of its own, and
    a node for all of it. *)
Definition corepair (s : vst) (p n : Z) : vm_node := MkNode p (p + n - 1) 0 (fresh_region s) heap_prot 0 0 0.
Definition core_map_pages (p n : Z) : VM unit := fun s =>
  vm_insert_and_activate_node true (corepair s p n) (new_region s n).
(** The address space, and the pages that the heap has given back: a page that could not be
    unmapped stays mapped, but is nobody's. *)
Record kvm : Type := MkKvm { kv_space : vst; kv_given : Z -> bool }.
Definition in_pages (p n q : Z) : bool := (p <=? q) && (q <? p + n).
Definition page_mapped (s : vst) (q : Z) : bool := bool_decide (is_Some (pages s true q)).
Definition kernel_mapped (v : kvm) (q : Z) : bool := page_mapped (kv_space v) q && negb (kv_given v q).
Definition kernel_free (v : kvm) (q : Z) : Prop := pages (kv_space v) true q = None.
(** Running an operation of the address space, with [given] afterwards if it returns. *)
Definition on_space {A} (m : VM A) (given : (Z -> bool) -> Z -> bool) : SM kvm unit := fun v =>
  match m (kv_space v) with
  | SRet _ s => SRet tt (MkKvm s (given (kv_given v)))
  | SThrow e s => SThrow e (MkKvm s (kv_given v))
  | SPanic => SPanic
  end.
Definition kernel_map (p n : Z) : SM kvm unit :=
  on_space (core_map_pages p n) (fun given q => given q && negb (in_pages p n q)).
(** [core_page_free] sets [TASK_STATE_FDONTSERVE], so that waiting for the lock of the
    address space cannot be interrupted. *)
Definition granted (s : vst) : vst :=
  MkVst (vs_kernel s) (vs_user s) (vs_this s) (vs_region s) (vm_disable_merging s)
    (fun i => match i with O => None | S i => vs_oracle s i end) (vs_reply s).
Definition kernel_unmap (p n : Z) : SM kvm unit :=
  on_space (fun s => Vm.vm_unmap p n VM_UNMAP_NOEXCEPT 0 (granted s)) (fun given q => given q || in_pages p n q).
Definition kernel_merge (p : Z) : SM kvm unit := on_space (Vm.vm_merge_before true p) (fun given => given).
Definition kernel_getfree (v : kvm) (hint n mode : Z) : outcome Z := Vm.vm_getfree (kv_space v) (u32 hint) n 1 0 mode.
Definition kernel_getanynode (v : kvm) (lo hi : Z) : bool := negb (is_none (Vm.vm_getanynode (kv_space v) lo hi)).
(** Whatever fails does so for want of memory. *)
Definition lean (s : vst) : Prop := forall i e, vs_oracle s i = Some e -> e = E_BADALLOC.
Record kspace_ok (s : vst) : Prop := {
  ks_inv : vm_inv s;
  ks_this : vs_this s = true;
  ks_lean : lean s;
  ks_mutable : forall x, x ∈ nodes s true -> immutable x = false;
  ks_top : page_mapped s (2 ^ 20 - 1) = true;
}.
Definition kernel_vm_ok (v : kvm) : Prop := kspace_ok (kv_space v).

(** * Want of memory *)
Definition thrifty {A} (m : VM A) : Prop := forall s, lean s ->
  match m s with SRet _ s' => lean s' | SThrow e s' => e = E_BADALLOC /\ lean s' | SPanic => True end.
Notation quiet := (quietly lean).
Lemma quiet_thrifty {A} (m : VM A) : quiet m -> thrifty m.
Proof. intros Hm s Hs. specialize (Hm s Hs). by destruct (m s). Qed.
Lemma thrifty_bind {A B} (m : VM A) (f : A -> VM B) : thrifty m -> (forall a, thrifty (f a)) -> thrifty (m ≫= f).
Proof.
  intros Hm Hf s Hs. specialize (Hm s Hs). unfold mbind, SM_bind. destruct (m s) as [a s'|e s'|]; [|done..]. by apply Hf.
Qed.
Lemma thrifty_catch {A} (m : VM A) h : thrifty m -> quiet (h E_BADALLOC) -> quiet (scatch m h).
Proof.
  intros Hm Hh s Hs. specialize (Hm s Hs). unfold scatch. destruct (m s) as [a s'|e s'|]; [done| |done].
  destruct Hm as [-> Hs']. by apply Hh.
Qed.
Lemma thrifty_request : thrifty Vm.request.
Proof.
  intros s Hs. unfold Vm.request. assert (lean (MkVst (vs_kernel s) (vs_user s) (vs_this s) (vs_region s)
    (vm_disable_merging s) (fun n => vs_oracle s (S n)) (vs_reply s))) by (intros i; apply Hs).
  destruct (vs_oracle s 0%nat) eqn:E; [|done]. split; [by eapply Hs|done].
Qed.
Lemma lean_reply : quiet reply.
Proof. by intros s Hs. Qed.
Lemma lean_get_space k : quiet (get_space k).
Proof. by intros s Hs. Qed.
Lemma lean_set_space k v : quiet (set_space k v).
Proof. by intros s Hs. Qed.
Lemma lean_add_refs i start n d : quiet (add_refs i start n d).
Proof. by intros s Hs. Qed.
Lemma lean_add_refcnt i d : quiet (add_refcnt i d).
Proof. by intros s Hs. Qed.
Lemma lean_set_leaking i : quiet (set_leaking i).
Proof. by intros s Hs. Qed.
Lemma lean_plocate k page : quiet (vm_plocate k page).
Proof. intros s Hs. unfold vm_plocate. apply (quietly_lift lean _ (plocate_at_no_throw _ _ _ _ _) s Hs). Qed.
Lemma lean_deref k p : quiet (deref k p).
Proof. intros s Hs. unfold deref. by destruct (slot_get _ _) as [[]| |]. Qed.
#[local] Hint Resolve lean_reply lean_get_space lean_set_space lean_add_refs lean_add_refcnt lean_set_leaking
  lean_plocate lean_deref : quiet.
Lemma lean_insert_node k x : quiet (vm_insert_node k x).
Proof. unfold vm_insert_node. quiet_run. Qed.
Lemma lean_pop_node k p semi level : quiet (pop_node k p semi level).
Proof. unfold pop_node. quiet_run. Qed.
Lemma lean_pop_nodes k lo hi mode tag : quiet (vm_pop_nodes k lo hi mode tag).
Proof. unfold vm_pop_nodes. quiet_run. Qed.
#[local] Hint Resolve lean_insert_node lean_pop_node lean_pop_nodes : quiet.
Lemma lean_insert_nodes k l : quiet (insert_nodes k l).
Proof. induction l as [|x l IH]; cbn [insert_nodes]; quiet_run. Qed.
Lemma lean_decref_range i start n : quiet (vm_region_decref_range i start n).
Proof.
  unfold vm_region_decref_range. apply thrifty_catch; [|quiet_run].
  apply thrifty_bind; [apply thrifty_request|]. intros _. by apply quiet_thrifty, lean_add_refs.
Qed.
#[local] Hint Resolve lean_insert_nodes lean_decref_range : quiet.
Lemma lean_drop_nodes l : quiet (drop_nodes l).
Proof. induction l as [|x l IH]; cbn [drop_nodes]; unfold vm_region_decref; quiet_run. Qed.
Ltac thrifty_step :=
  match goal with
  | |- forall _, _ => intro
  | |- thrifty Vm.request => apply thrifty_request
  | |- thrifty (_ ≫= _) => apply thrifty_bind
  | |- thrifty _ => apply quiet_thrifty; solve [eauto with quiet]
  | |- thrifty (match ?x with _ => _ end) => destruct x
  end.
Ltac thrifty_run := cbv zeta; repeat (thrifty_step; cbv beta zeta).
Lemma thrifty_map_node x : thrifty (vm_map_node x).
Proof. unfold vm_map_node, pagedir_map. thrifty_run. Qed.
Lemma thrifty_activate k x : thrifty (vm_insert_and_activate_node k x).
Proof. pose proof thrifty_map_node. unfold vm_insert_and_activate_node. apply thrifty_bind; [done|]. thrifty_run. Qed.
Lemma thrifty_split k page : thrifty (vm_split_before k page).
Proof.
  unfold vm_split_before, split_closure, kmalloc_node, INVOKE_NOTIFY, vm_region_incref, vm_region_incref_range. thrifty_run.
Qed.
Lemma lean_each step l : (forall x, thrifty (step x)) -> quiet (each step l).
Proof.
  intros Hs. induction l as [|x l IH]; cbn [each]; [quiet_run|]. apply quietly_bind.
  - apply thrifty_catch; [apply thrifty_bind; [apply Hs|]; thrifty_run|quiet_run].
  - intros []; quiet_run.
Qed.
Lemma lean_unmap_nodes k l : quiet (unmap_nodes k l VM_UNMAP_NOEXCEPT).
Proof.
  unfold unmap_nodes. apply quietly_bind; [apply lean_each; intros; apply thrifty_request|]. intros [i [e|]]; cbn [fst snd]; [|quiet_run].
  apply quietly_bind; [apply lean_each; apply thrifty_map_node|]. quiet_run.
Qed.
(** With [VM_UNMAP_NOEXCEPT] and the lock, [vm_unmap] does not throw. *)
Lemma lean_unmap p n s :
  lean s -> match Vm.vm_unmap p n VM_UNMAP_NOEXCEPT 0 (granted s) with
            | SRet _ s' => lean s' | SThrow _ _ => False | SPanic => True end.
Proof.
  intros Hs. unfold Vm.vm_unmap. destruct (n =? 0); [cbn; intros [|i] e; [done|apply Hs]|].
  unfold range_checks, mbind, SM_bind, scheck. do 2 (destruct (_ <? _) || destruct (_ <=? _); [|done]).
  unfold sget, vm_acquire, Vm.request at 1. cbn [granted vs_oracle].
  set (k := effective _ _). set (s1 := MkVst _ _ _ _ _ _ _). assert (Hs1 : lean s1) by (intros i e; apply Hs).
  assert (Hsr : quiet (split_range k p n VM_UNMAP_NOEXCEPT)).
  { apply thrifty_catch; [|quiet_run]. do 2 (apply thrifty_bind; [apply thrifty_split|intros _]). thrifty_run. }
  specialize (Hsr s1 Hs1). destruct (split_range k p n VM_UNMAP_NOEXCEPT s1) as [[] s2|e s2|]; [|done..].
  assert (Hrest : quiet (nodes ← vm_pop_nodes k p (p + n - 1) VM_UNMAP_NOEXCEPT 0;
    r ← unmap_nodes k nodes VM_UNMAP_NOEXCEPT; drop_nodes (snd r) ≫= fun _ => mret (fst r))).
  { pose proof lean_unmap_nodes. pose proof lean_drop_nodes. quiet_run. }
  exact (Hrest s2 Hsr).
Qed.

(** * The laws *)
Lemma kernel_effective s page : vs_this s = true -> effective s page = true.
Proof. intros H. unfold effective. rewrite H. apply orb_true_r. Qed.
Lemma page_mapped_none s q : page_mapped s q = false <-> pages s true q = None.
Proof. unfold page_mapped. rewrite bool_decide_eq_false, <- eq_None_not_Some. done. Qed.
Lemma region_bound (l : list vm_node) x : x ∈ l -> vn_region x <= foldr (fun x m => Z.max (vn_region x) m) 0 l.
Proof.
  induction l as [|y l IH]; intros Hx; [by apply elem_of_nil in Hx|]. cbn [foldr].
  apply elem_of_cons in Hx as [->|Hx]; [lia|]. specialize (IH Hx). lia.
Qed.
Lemma fresh_unused s k x : x ∈ nodes s k -> vn_region x <> fresh_region s.
Proof.
  intros Hx. unfold fresh_region. pose proof (region_bound (nodes s true ++ nodes s false) x) as H.
  specialize (H ltac:(apply elem_of_app; destruct k; auto)). lia.
Qed.
(** A region nobody uses may become any region. *)
Lemma fresh_sok s k x : sok s k -> sok (with_region s (fresh_region s) x) k.
Proof.
  intros [Ht Hl Ho Hn]. unfold sok. assert (E : space (with_region s (fresh_region s) x) k = space s k) by (by destruct k).
  rewrite E. split; try done. rewrite Forall_forall in Hn |- *. intros y Hy. destruct (Hn y Hy) as (? & ? & ?).
  split_and!; try done. cbn. replace (vn_region y =? fresh_region s) with false; [done|].
  symmetry. apply Z.eqb_neq. by apply (fresh_unused s k).
Qed.
Lemma fresh_inv s x : vm_inv s -> vm_inv (with_region s (fresh_region s) x).
Proof. intros [Hk Hu Hb Hm]. split; [by apply fresh_sok..|exact Hb|done]. Qed.
Definition unborn (s : vst) (n : Z) : vst := with_region s (fresh_region s) (MkRegion n 0 0 0 (fun _ => 0)).
(** The new region comes with the references of its node. *)
Lemma new_region_step s p n : 0 < n -> vstep true (unborn s n) [] (new_region s n) [corepair s p n].
Proof.
  intros Hn. apply vstep_exact; try done.
  - intros r. cbn. by case_match.
  - intros r q. rewrite uses_cons. unfold use, VM_NODE_SIZE. cbn. rewrite (Z.eqb_sym (fresh_region s) r).
    destruct (r =? fresh_region s); cbn; [|lia]. replace (p + n - 1 - p + 1) with n by lia. rewrite Z.add_0_l. destruct (Z.leb_spec 0 q), (Z.ltb_spec q n); cbn [andb]; lia.
  - intros r. rewrite maps_cons. cbn. rewrite (Z.eqb_sym (fresh_region s) r). destruct (r =? fresh_region s); cbn; lia.
Qed.
Lemma corepair_free s p n :
  sok s true -> 0 < n -> (forall q, p <= q < p + n -> pages s true q = None) ->
  Forall (disjoint (corepair s p n)) (nodes s true).
Proof.
  intros Hok Hn Hfree. assert (H : free_run (nodes s true) p n).
  { by apply free_run_pages. }
  apply Forall_forall. intros x Hx. apply disjoint_range. by apply H.
Qed.
Lemma corepair_run s p n :
  kspace_ok s -> 0 <= p -> 0 < n -> p + n < 2 ^ 20 -> (forall q, p <= q < p + n -> pages s true q = None) ->
  srun (core_map_pages p n) s
    (fun _ s' => kspace_ok s' /\ forall q, page_mapped s' q = page_mapped s q || in_pages p n q)
    (fun _ s' => kspace_ok s' /\ forall q, page_mapped s' q = page_mapped s q).
Proof.
  intros [Hinv Hthis Hlean Hmut Htop] Hp Hn He Hfree. assert (Hok : sok s true) by apply Hinv.
  pose proof (insert_activate_ok (unborn s n) (new_region s n) true (corepair s p n) []
    (fresh_sok s true _ Hok) (new_region_step s p n Hn)
    ltac:(split_and!; unfold fits, VM_NODE_SIZE, VM_VPAGE_MAX; cbn; rewrite ?Z.eqb_refl; cbn; lia)
    (corepair_free s p n Hok Hn Hfree)) as H.
  pose proof (thrifty_activate true (corepair s p n) (new_region s n) Hlean) as Hq.
  unfold srun in H |- *. unfold core_map_pages.
  destruct (vm_insert_and_activate_node true (corepair s p n) (new_region s n)) as [[] s'|e s'|]; [| |done].
  - destruct H as (Hok' & Hst & _ & Hpm).
    assert (Hmap : forall q, page_mapped s' q = page_mapped s q || in_pages p n q).
    { intros q. unfold page_mapped, in_pages. rewrite (inserted_pages s s' true _ Hok' Hpm). unfold overlay, covers.
      cbn [node_min node_max vm_node_tree]. apply Bool.eq_true_iff_eq. rewrite orb_true_iff, !bool_decide_eq_true.
      cbn [corepair a_vmin a_vmax]. case_match; [|split; [by left|intros [?|?]; [done|lia]]]. split; [right; lia|by intros _]. }
    split; [|done]. destruct (step_inv true (unborn s n) s') as [Hinv' _]; [by apply fresh_inv|done..|].
    split; [done|by rewrite (vt_this _ _ _ _ _ Hst)|done| |by rewrite Hmap, Htop].
    intros x. rewrite Hpm. intros [->|Hx]%elem_of_cons; [done|by apply Hmut].
  - destruct Hq as [_ Hlean']. assert (Hnd : nodes s' true = nodes s true) by (by rewrite (env_nodes _ _ true H)).
    assert (Hinv' : vm_inv s').
    { eapply (step_inv true (new_region s n)); [by apply fresh_inv| |by apply env_step|done].
      eapply env_sok; [done|]. by apply fresh_sok. }
    split; [|intros q; unfold page_mapped, pages; by rewrite Hnd].
    split; [done|by rewrite (ev_this _ _ H)|done|by rewrite Hnd|unfold page_mapped, pages; by rewrite Hnd].
Qed.
Lemma kernel_map_ok v p n :
  kernel_vm_ok v -> 0 <= p -> 0 < n -> p + n < 2 ^ 20 -> (forall q, p <= q < p + n -> kernel_free v q) ->
  srun (kernel_map p n) v
    (fun _ v' => kernel_vm_ok v' /\ forall q, kernel_mapped v' q = kernel_mapped v q || ((p <=? q) && (q <? p + n)))
    (fun _ v' => kernel_vm_ok v' /\ forall q, kernel_mapped v' q = kernel_mapped v q).
Proof.
  intros Hok Hp Hn He Hfree. pose proof (corepair_run _ p n Hok Hp Hn He Hfree) as H.
  unfold srun in H |- *. unfold kernel_map, on_space. destruct (core_map_pages p n (kv_space v)) as [[] s'|e s'|]; [| |done];
    destruct H as [Hok' Hm]; (split; [done|]); intros q; unfold kernel_mapped; cbn; rewrite Hm; [|done].
  fold (in_pages p n q). destruct (in_pages p n q) eqn:E; rewrite ?orb_false_r, ?orb_true_r; cbn; [|by rewrite andb_true_r].
  by rewrite andb_false_r.
Qed.
Lemma unmap_run s p n :
  kspace_ok s -> 0 <= p -> 0 < n -> p + n < 2 ^ 20 ->
  srun (Vm.vm_unmap p n VM_UNMAP_NOEXCEPT 0) (granted s)
    (fun _ s' => kspace_ok s' /\ (forall q, in_pages p n q = false -> page_mapped s' q = page_mapped s q))
    (fun _ _ => False).
Proof.
  intros [Hinv Hthis Hlean Hmut Htop] Hp Hn He. set (g := granted s). assert (Heg : env s g) by (by split; [intros []|..]).
  assert (Hk : effective g p = true) by (apply kernel_effective; done).
  assert (Hinvg : vm_inv g).
  { eapply (step_inv true s); [done|eapply env_sok; [done|apply Hinv]|by apply env_step|done]. }
  pose proof (unmap_ok p n VM_UNMAP_NOEXCEPT 0 g) as H. cbv zeta in H. rewrite Hk in H.
  specialize (H (inv_sok g true Hinvg) Hp Hn ltac:(unfold VM_VPAGE_MAX; lia) ltac:(intros x Hx _; by apply Hmut) eq_refl).
  pose proof (lean_unmap p n s Hlean) as Hq. fold g in Hq. unfold srun in H |- *.
  destruct (Vm.vm_unmap p n VM_UNMAP_NOEXCEPT 0 g) as [res s'|e s'|]; [|done..].
  assert (Hpg : forall q, in_pages p n q = false -> page_mapped s' q = page_mapped s q).
  { intros q Hq'. unfold in_pages in Hq'. unfold page_mapped. destruct H as [[[_ _ Hpg _] _]|(_ & _ & [_ _ Hpg _])]; rewrite Hpg; [by rewrite Hq'|done]. }
  assert (Hboth : sok s' true /\ vstep true g [] s' [] /\ parts_of (nodes s' true) (nodes g true)).
  { destruct H as [[[? ? _ ?] _]|(_ & _ & [? ? _ ?])]; by split_and!. }
  destruct Hboth as (Hok' & Hst' & Hparts). split; [|done].
  destruct (step_inv true g s' Hinvg Hok' Hst') as [Hinv' _]; [done|].
  split; [done|by rewrite (vt_this _ _ _ _ _ Hst')|done| |].
  - intros x Hx. destruct (Hparts x Hx) as (y & Hy & Hpa). eapply part_mutable; [done|by apply Hmut].
  - rewrite Hpg; [done|]. unfold in_pages. lia.
Qed.
Lemma kernel_unmap_ok v p n :
  kernel_vm_ok v -> 0 <= p -> 0 < n -> p + n < 2 ^ 20 ->
  srun (kernel_unmap p n) v
    (fun _ v' => kernel_vm_ok v' /\
       forall q, kernel_mapped v' q = kernel_mapped v q && negb ((p <=? q) && (q <? p + n)))
    (fun _ _ => False).
Proof.
  intros Hok Hp Hn He. pose proof (unmap_run _ p n Hok Hp Hn He) as H. unfold srun in H |- *. unfold kernel_unmap, on_space.
  destruct (Vm.vm_unmap p n VM_UNMAP_NOEXCEPT 0 (granted (kv_space v))) as [res s'|e s'|]; [|done..].
  destruct H as [Hok' Hm]. split; [done|]. intros q. unfold kernel_mapped. cbn. fold (in_pages p n q).
  destruct (in_pages p n q) eqn:E; [by rewrite orb_true_r, !andb_false_r|]. by rewrite Hm, orb_false_r, andb_true_r.
Qed.
Lemma kernel_merge_ok v p :
  kernel_vm_ok v -> srun (kernel_merge p) v
    (fun _ v' => kernel_vm_ok v' /\ forall q, kernel_mapped v' q = kernel_mapped v q) (fun _ _ => False).
Proof.
  intros Hok. pose proof (merge_off true p (kv_space v) (fun _ s => s = kv_space v) (fun _ _ => False)
    (vi_merging _ (ks_inv _ Hok)) eq_refl) as H.
  unfold srun in H |- *. unfold kernel_merge, on_space. destruct (Vm.vm_merge_before true p (kv_space v)); [|done..].
  by subst.
Qed.
(** Whatever the hint, a range that is returned lies within the address space and is free. *)
Lemma winner_range s k c n p :
  0 <= c < 2 ^ 32 -> 0 < n <= VM_VPAGE_MAX + 1 -> getfree_winner s k c n = Ret (Some p) -> 0 <= p /\ p + n <= VM_VPAGE_MAX + 1.
Proof.
  intros Hc Hn. unfold getfree_winner. unfold VM_VPAGE_MAX in *. destruct (Z.ltb_spec (u32 (c + n)) c); [done|].
  destruct (Z.ltb_spec (1048575 + 1) (u32 (c + n))); [done|]. destruct (if k then _ else _); [done|].
  destruct (check_free s c n); [|done..]. intros [= <-]. unfold u32, wrap in *. mlia.
Qed.
Lemma below_range s n iter prevs c : getfree_below s iter prevs n 1 0 = Ret (Some c) -> 0 <= c < 2 ^ 32.
Proof.
  revert iter. induction prevs as [|prev prevs IH]; intros iter; cbn [getfree_below]; rewrite floor1;
    do 2 (destruct (VM_NODE_BEGIN iter <? _); [done|]); (destruct (_ <=? u32 _); [|done || apply IH]);
    (destruct (check_free _ _ _); [|done..]); intros [= <-]; apply u32_range.
Qed.
Lemma above_range s k n iter nexts c : getfree_above s k iter nexts n 1 0 = Ret (Some c) -> 0 <= c < 2 ^ 32.
Proof.
  assert (Hc : forall x, 0 <= CEIL_ALIGN x 1 < 2 ^ 32) by (intros x; unfold CEIL_ALIGN; rewrite Z.ldiff_0_r; apply u32_range).
  revert iter. induction nexts as [|next nexts IH]; intros iter; cbn [getfree_above];
    (destruct (_ && _); [|done || apply IH]); (destruct (check_free _ _ _); [|done..]); intros [= <-]; apply Hc.
Qed.
Lemma impl_range s k hint n below p :
  0 <= hint < 2 ^ 32 -> 0 < n <= VM_VPAGE_MAX + 1 -> impl_vm_getfree s k hint n 1 0 below = Ret (Some p) ->
  0 <= p /\ p + n <= VM_VPAGE_MAX + 1.
Proof.
  intros Hh Hn. unfold impl_vm_getfree. destruct (_ || _) eqn:Hb; [done|].
  destruct (vm_findnodes _ _ _ _ _ _) as [[mn|] [mx|]]; cbn [ni_min ni_max]; try done.
  2: { intros [= <-]. unfold VM_VPAGE_MAX, u32, wrap in *. mlia. }
  unfold mbind, outcome_bind. do 2 (destruct (kassert _) as [[]| |]; [|done..]). destruct below.
  - destruct (around _ _ _). destruct (getfree_below _ _ _ _ _ _) as [[c|]| |] eqn:E; [|done..].
    apply winner_range; [by eapply below_range|done].
  - destruct (around _ _ _). destruct (getfree_above _ _ _ _ _ _ _) as [[c|]| |] eqn:E; [|done..].
    apply winner_range; [by eapply above_range|done].
Qed.
(** The kernel's address space is not empty. *)
Lemma kernel_nonempty s : kspace_ok s -> nonnil (Vm.vm_map (space s true)) = true.
Proof.
  intros [Hinv _ _ _ Htop]. destruct (nonnil _) eqn:E; [done|].
  pose proof (empty_nodes s true (vi_kernel _ Hinv) E) as Hnil. unfold page_mapped, pages in Htop. by rewrite Hnil in Htop.
Qed.
Lemma getfree_sound s hint n mode p :
  kspace_ok s -> 0 < n -> 0 <= hint < 2 ^ 32 -> Vm.vm_getfree s hint n 1 0 mode = Ret p ->
  0 <= p /\ p + n <= VM_VPAGE_MAX + 1 /\ free_run (nodes s true) p n.
Proof.
  intros Hks Hn Hh. pose proof Hks as [Hinv Hthis _ _ _]. assert (Hok : sok s true) by apply Hinv.
  assert (Hat : forall h m, 0 <= h < 2 ^ 32 -> getfree_at s h n 1 0 m = Ret p ->
    0 <= p /\ p + n <= VM_VPAGE_MAX + 1 /\ free_run (nodes s true) p n).
  { intros h m Hh'. unfold getfree_at. destruct (Z.ltb_spec (VM_VPAGE_MAX + 1) n); [done|]. replace (n =? 0) with false by lia.
    assert (Hvm : getfree_vm s h m = true) by (unfold getfree_vm; rewrite Hthis; by case_match). rewrite Hvm.
    rewrite (kernel_nonempty _ Hks). cbn [orb negb]. unfold getfree_search.
    assert (Hfin : forall q, 0 <= q /\ q + n <= VM_VPAGE_MAX + 1 -> (check_free s q n ≫= fun _ => Ret q) = Ret p ->
      0 <= p /\ p + n <= VM_VPAGE_MAX + 1 /\ free_run (nodes s true) p n).
    { intros q [Hq0 Hq1]. unfold check_free, Vm.vm_getanynode. rewrite (kernel_effective s q Hthis).
      unfold VM_VPAGE_MAX in Hq1. rewrite u32_small by lia.
      pose proof (space_findany _ _ q (q + n - 1) Hok) as Hf. destruct (vm_findany _ _ _); [done|]. intros [= <-].
      by split_and!. }
    destruct (impl_vm_getfree s true h n 1 0 (flag m VM_GETFREE_FBELOW)) as [[q|]| |] eqn:E1; [|cbn|done..].
    { apply Hfin. by eapply impl_range. }
    destruct (flag m VM_GETFREE_FSTRICT); cbn; [by rewrite andb_false_r|].
    destruct (impl_vm_getfree s true h n 1 0 (negb (flag m VM_GETFREE_FBELOW))) as [[q|]| |] eqn:E2; cbn; [|by rewrite andb_false_r|done..].
    apply Hfin. by eapply impl_range. }
  unfold Vm.vm_getfree. unfold VM_VPAGE_MAX in *. destruct (flag mode VM_GETFREE_FBELOW); [|by apply Hat].
  destruct (Z.ltb_spec hint n); [|apply Hat; lia]. destruct (hint =? 0); [apply Hat, u32_range|].
  destruct (flag mode VM_GETFREE_FSTRICT); [done|]. apply Hat. lia.
Qed.
(** With the kernel's address space and without alignment and gap no assertion fails,
    whatever the hint. *)
Lemma getfree_at_safe s h n mode : kspace_ok s -> 0 < n -> 0 <= h < 2 ^ 32 -> getfree_at s h n 1 0 mode <> Panic.
Proof.
  intros Hks Hn Hh. pose proof Hks as [Hinv Hthis _ _ _]. assert (Hok : sok s true) by apply Hinv. unfold getfree_at.
  assert (Hvm : getfree_vm s h mode = true) by (unfold getfree_vm; rewrite Hthis; by case_match). rewrite Hvm.
  destruct (Z.ltb_spec (VM_VPAGE_MAX + 1) n) as [|Hmax]; [done|]. replace (n =? 0) with false by lia. rewrite (kernel_nonempty _ Hks). cbn [orb negb].
  destruct (decide (h + n <= VM_VPAGE_MAX + 1)) as [Hfit|Hbig].
  - destruct (search_ok s true n Hok ltac:(lia) Hthis ltac:(done) h mode ltac:(lia) Hfit) as ([p|] & -> & Ho); cbn; [|by rewrite andb_false_r].
    pose proof (gf_range _ _ _ _ _ _ Ho). rewrite (check_free_ok s true); try done; [lia|by left|apply Ho].
  - unfold getfree_search, impl_vm_getfree. unfold VM_VPAGE_MAX in *.
    assert (E : (u32 (h + n - 1) <? h) || (1048575 <? u32 (h + n - 1)) = true).
    { destruct (Z.ltb_spec (u32 (h + n - 1)) h); [done|]. cbn. apply Z.ltb_lt. unfold u32, wrap in *. mlia. }
    rewrite !E. cbn. rewrite andb_false_r. by destruct (flag mode VM_GETFREE_FSTRICT).
Qed.
Lemma getfree_safe s hint n mode : kspace_ok s -> 0 < n -> 0 <= hint < 2 ^ 32 -> Vm.vm_getfree s hint n 1 0 mode <> Panic.
Proof.
  intros Hks Hn Hh. unfold Vm.vm_getfree. destruct (flag mode VM_GETFREE_FBELOW); [|by apply getfree_at_safe].
  destruct (Z.ltb_spec hint n); [|apply getfree_at_safe; done || lia].
  destruct (hint =? 0); [apply getfree_at_safe; [done..|apply u32_range]|].
  destruct (flag mode VM_GETFREE_FSTRICT); [done|]. apply getfree_at_safe; done || lia.
Qed.

(** * The interface of the heap *)
Section Kernel.
(** Whether there are physical pages. *)
Context (phys : vst -> Z -> bool).
#[refine] Instance kernel_vm : KernelVM := {|
  vm_st := kvm;
  vm_ok := kernel_vm_ok;
  vm_mapped := kernel_mapped;
  vm_free := kernel_free;
  this_kernel v := vs_this (kv_space v);
  page_malloc v := phys (kv_space v);
  Heap.vm_getfree := kernel_getfree;
  Heap.vm_getanynode := kernel_getanynode;
  Heap.vm_map := kernel_map;
  Heap.vm_unmap := kernel_unmap;
  Heap.vm_merge_before := kernel_merge;
|}.
Proof.
  - intros v q Hv Hq. apply page_mapped_none in Hq. unfold kernel_mapped. rewrite Hq. split; [done|]. intros ->.
    by rewrite (ks_top _ Hv) in Hq.
  - intros v hint n mode Hv Hn. unfold kernel_getfree. pose proof (getfree_safe _ (u32 hint) n mode Hv Hn (u32_range hint)) as Hsafe.
    destruct (Vm.vm_getfree _ _ _ _ _ _) as [p| |] eqn:E; [|done..].
    destruct (getfree_sound _ (u32 hint) n mode p Hv Hn (u32_range hint) E) as (Hp & He & Hf).
    unfold VM_VPAGE_MAX in He. rewrite free_run_pages in Hf by (done || apply Hv).
    destruct (decide (p + n = 2 ^ 20)) as [Heq|Hne].
    { pose proof (ks_top _ Hv) as Ht. rewrite <- not_false_iff_true, page_mapped_none in Ht. destruct Ht. apply Hf. lia. }
    split_and!; [lia..|]. intros q Hq. by apply Hf.
  - intros v lo hi Hv. unfold kernel_getanynode, Vm.vm_getanynode. rewrite (kernel_effective _ lo (ks_this _ Hv)).
    pose proof (space_findany _ _ lo hi (vi_kernel _ (ks_inv _ Hv))) as Hf. destruct (vm_findany _ _ _) as [x|]; [done|]. intros _ q Hq.
    apply page_at_none. intros x Hx. specialize (Hf x Hx). unfold in_range, covers in *. cbn. lia.
  - exact kernel_map_ok.
  - intros v p n Hv Hp Hn He _. by apply kernel_unmap_ok.
  - exact kernel_merge_ok.
Defined.
(** C18: The heap works on the address space of the kernel as vm.c keeps it, when merging is
    disabled, [THIS_VM] is the kernel's and none of its nodes is immutable.  Requests may
    fail for want of memory at any time, so that pages cannot be mapped, or cannot be
    unmapped and stay mapped.  Over every history of clients of the heap the invariant of
    the address space holds, and each byte of a block a client holds lies on a page that a
    node of the kernel maps. *)
Theorem heap_on_kernel_vm s bs s' bs' :
  client_ok (VM := kernel_vm) s bs -> rtc (client_step (VM := kernel_vm)) (s, bs) (s', bs') ->
  vm_inv (kv_space (hs_vm s')) /\
  forall b a, b ∈ bs' -> fst b <= a < fst b + snd b -> is_Some (pages (kv_space (hs_vm s')) true (a / PAGESIZE)).
Proof.
  intros Hok Hrtc. pose proof (client_steps_ok _ _ Hrtc Hok) as [Hh _ Hb _]. cbn [fst snd] in *.
  split; [apply (hk_vm _ Hh)|]. intros b a Hin Ha. rewrite Forall_forall in Hb.
  destruct (Hb b Hin) as [_ _ _ _ _ Hu]. destruct (Hu a Ha) as [Hm _]. apply andb_prop in Hm as [Hm _].
  by apply bool_decide_eq_true in Hm.
Qed.
End Kernel.

(** * An example: the first allocation *)
Definition ex_top : vm_node := MkNode (2 ^ 20 - 1) (2 ^ 20 - 1) 0 0 heap_prot 0 0 0.
Definition kernel_ex : vst :=
  MkVst (one_node ex_top) (MkSpace ANil []) true (fun _ => MkRegion 1 0 0 1 (fun _ => 1)) true (fun _ => None) (fun _ => 0).
Lemma kernel_ex_ok : kspace_ok kernel_ex.
Proof.
  split; [split|done|done| |done].
  - split; cbn; [split; cbn; unfold in_slot; cbn; split_and!; try done; lia|done|repeat constructor|].
    constructor; [|constructor]. unfold node_ok, fits, VM_NODE_SIZE, VM_VPAGE_MAX. cbn. lia.
  - split; cbn; [by split|done|constructor|constructor].
  - intros q _. done.
  - done.
  - intros x Hx%list_elem_of_singleton. by subst.
Qed.
Definition no_phys (s : vst) (n : Z) : bool := false.
#[local] Instance kernel_ex_vm : KernelVM := kernel_vm no_phys.
Definition heap_ex : hstate :=
  MkHs (MkHeap ANil (replicate 29 []) 4096 65536 KERNEL_BASE_PAGE 0 0) (MkKvm kernel_ex (fun _ => false))
    (fun _ => Some 7) (fun _ => None) None.
Lemma heap_ex_ok : client_ok heap_ex [].
Proof.
  split; [|done|constructor|done]. split; try done.
  - split; [done|done|]. intros i l Hl. apply list_elem_of_lookup_2 in Hl. cbn in Hl.
    assert (l = []) as -> by set_solver. split; constructor.
  - intros a (x & Hx & _). by apply elem_of_nil in Hx.
  - intros x y Hx. by apply elem_of_nil in Hx.
  - exact kernel_ex_ok.
Qed.
Definition heap_ex_one : hstate :=
  match heap_alloc_untraced 64 0 heap_ex with SRet _ s => s | _ => heap_ex end.
Lemma heap_ex_step : heap_alloc_untraced 64 0 heap_ex = SRet (3221225472, 64) heap_ex_one.
Proof.
  unfold heap_ex_one. pose proof (eq_refl : match heap_alloc_untraced 64 0 heap_ex with
    SRet r _ => r | _ => (0, 0) end = (3221225472, 64)) as H.
  destruct (heap_alloc_untraced 64 0 heap_ex); [by subst|done..].
Qed.
Lemma heap_on_kernel_vm_witness :
  vm_inv (kv_space (hs_vm heap_ex_one)) /\
  forall b a, b ∈ [(3221225472, 64)] -> fst b <= a < fst b + snd b ->
    is_Some (pages (kv_space (hs_vm heap_ex_one)) true (a / PAGESIZE)).
Proof.
  apply (heap_on_kernel_vm no_phys heap_ex [] heap_ex_one [(3221225472, 64)] heap_ex_ok). apply rtc_once.
  apply (cs_alloc heap_ex [] 64 0); [lia|by split|exact heap_ex_step].
Defined.
