(* ===== verification/Ringbuffer.v ===== *)
(** Ring buffers behind pipes and ttys: [src/kernel/src/fs/ringbuffer.c], and the
    scatter/gather copies they use, [src/kernel/src/fs/iov.c].

    Pointers into the buffer are offsets from [r_base]; a NULL base with size 0
    is the empty data list.  An operation is executed under its lock, so the
    compare-exchange of the read pointer succeeds at once. *)
From S2P Require Import Prelude.
Open Scope nat_scope.

(** * Scatter/gather vectors

    An [iovec] array is the list of its user buffers; [iov_len] is the length of
    a buffer and distinct entries are distinct memory. *)

(** The copy loop: fill the buffers in order with [src]. *)
Fixpoint iov_fill (dst : list (list Z)) (src : list Z) : outcome (list (list Z)) :=
  match src with
  | [] => Ret dst
  | _ =>
      match dst with
      | [] => Panic
      | buf :: dst =>
          dst ← iov_fill dst (drop (length buf) src);
          Ret ((take (length buf) src ++ drop (length src) buf) :: dst)
      end
  end.

(** The loop that skips leading entries; it stays at entry 0 and ends when the
    remaining offset lies within this entry. *)
Fixpoint iov_skip (fuel len iov_offset : nat) : outcome nat :=
  if iov_offset <=? len then Ret iov_offset else
  match fuel with
  | O => Panic
  | S fuel => iov_skip fuel len (iov_offset - len)
  end.

Definition iov_write (dst : list (list Z)) (iov_offset : nat) (src : list Z)
    : outcome (list (list Z)) :=
  if iov_offset =? 0 then iov_fill dst src else
  match dst with
  | [] => Panic
  | buf :: dst =>
      iov_offset ← iov_skip iov_offset (length buf) iov_offset;
      let len := Nat.min (length buf - iov_offset) (length src) in
      dst ← iov_fill dst (drop len src);
      Ret ((take len src ++ drop len buf) :: dst)
  end.

(** The copy loop of [iov_read]: gather [num_bytes] from the buffers in order. *)
Fixpoint iov_gather (src : list (list Z)) (num_bytes : nat) : outcome (list Z) :=
  if num_bytes =? 0 then Ret [] else
  match src with
  | [] => Panic
  | buf :: src =>
      let len := Nat.min (length buf) num_bytes in
      rest ← iov_gather src (num_bytes - len);
      Ret (take len buf ++ rest)
  end.

Definition iov_read (src : list (list Z)) (iov_offset num_bytes : nat) : outcome (list Z) :=
  if iov_offset =? 0 then iov_gather src num_bytes else
  match src with
  | [] => Panic
  | buf :: src =>
      iov_offset ← iov_skip iov_offset (length buf) iov_offset;
      let len := Nat.min (length buf - iov_offset) num_bytes in
      rest ← iov_gather src (num_bytes - len);
      Ret (take len buf ++ rest)
  end.

(** * Ring buffers *)
Record ringbuffer : Type := MkRing {
  r_rptr : nat;
  r_wptr : nat;
  r_data : list Z;
  r_limt : Z
}.
Definition r_size (self : ringbuffer) : nat := length (r_data self).

Definition RBUFFER_INIT_ALLOC : nat := 512.
Definition RBUFFER_LIMT_FSTATIC : Z := 1.
Definition RBUFFER_LIMT_FCLOSED : Z := 2.
Definition RBUFFER_LIMT_FMASK : Z := Z.lnot 3.
Definition RBUF_STATE_CHANNEL_NOTFULL : Z := 1.
Definition RBUF_STATE_CHANNEL_EMPTY : Z := 2.
Definition RBUF_STATE_CHANNEL_FULL : Z := 4.

Definition ringbuffer_init (limt : Z) : ringbuffer :=
  MkRing 0 0 [] (Z.land limt RBUFFER_LIMT_FMASK).

Definition set_rptr (self : ringbuffer) (p : nat) : ringbuffer :=
  MkRing p (r_wptr self) (r_data self) (r_limt self).
Definition set_wptr (self : ringbuffer) (p : nat) : ringbuffer :=
  MkRing (r_rptr self) p (r_data self) (r_limt self).
(** [memcpy(self->r_base + p, bytes, ...)] *)
Definition set_bytes (self : ringbuffer) (p : nat) (bytes : list Z) : ringbuffer :=
  MkRing (r_rptr self) (r_wptr self)
    (take p (r_data self) ++ bytes ++ drop (p + length bytes) (r_data self)) (r_limt self).

(** Signals sent through [r_stat]. *)
Inductive rb_signal : Type :=
| SigBroadcast
| SigBroadcastChannel (mask : Z)
| SigSendChannel (mask : Z) (count : nat).

Definition is_closed (self : ringbuffer) : bool :=
  negb (Z.land (r_limt self) RBUFFER_LIMT_FCLOSED =? 0)%Z.

Definition ringbuffer_close (self : ringbuffer) : ringbuffer * bool * list rb_signal :=
  let old_limit := r_limt self in
  let self := MkRing (r_rptr self) (r_wptr self) (r_data self)
                (Z.lor (r_limt self) RBUFFER_LIMT_FCLOSED) in
  if negb (Z.land old_limit RBUFFER_LIMT_FCLOSED =? 0)%Z
  then (self, false, []) else (self, true, [SigBroadcast]).

Definition ringbuffer_maxread (self : ringbuffer) : nat :=
  if r_rptr self <? r_wptr self then r_wptr self - r_rptr self
  else r_size self - (r_rptr self - r_wptr self).

Definition ringbuffer_maxwrite (self : ringbuffer) : nat :=
  if r_wptr self <? r_rptr self then r_rptr self - r_wptr self
  else r_size self - (r_wptr self - r_rptr self).

(** [__builtin_sub_overflow(p,n,&q) || q < lo ? lo : q]. *)
Definition sub_clamp (lo p n : nat) : nat :=
  if p <? n then lo else if p - n <? lo then lo else p - n.

Definition ringbuffer_unread (self : ringbuffer) (num_bytes : nat)
    : outcome (ringbuffer * nat * list rb_signal) :=
  if r_wptr self =? 0 then Ret (self, 0, []) else
  let old_pointer := r_rptr self in
  let bufend := r_size self in
  if (old_pointer =? bufend) && (r_wptr self =? 0) then Ret (self, 0, []) else
  let new_pointer := sub_clamp 0 old_pointer num_bytes in
  let result := old_pointer - new_pointer in
  kassert (result <=? num_bytes);;
  let '(new_pointer, result) :=
    if (new_pointer =? 0) && negb (result =? num_bytes) then
      let max_skip := num_bytes - result in
      let new_pointer := sub_clamp (r_wptr self) bufend max_skip in
      (new_pointer, result + (bufend - new_pointer))
    else (new_pointer, result) in
  let signals :=
    if result =? 0 then [] else
    if old_pointer =? bufend then [SigBroadcast] else
    if new_pointer =? r_wptr self then [SigBroadcastChannel RBUF_STATE_CHANNEL_FULL] else [] in
  Ret (set_rptr self new_pointer, result, signals).

Definition ringbuffer_unwrite (self : ringbuffer) (num_bytes : nat)
    : outcome (ringbuffer * nat * list rb_signal) :=
  let bufend := r_size self in
  r ← (if r_rptr self <=? r_wptr self then
         let result := Nat.min (r_wptr self - r_rptr self) num_bytes in
         Ret (r_wptr self - result, result)
       else
         let new_pointer := sub_clamp 0 (r_wptr self) num_bytes in
         let result := new_pointer - 0 in
         kassert (result <=? num_bytes);;
         if (new_pointer =? 0) && negb (result =? num_bytes) then
           let max_skip := num_bytes - result in
           let new_pointer := sub_clamp (r_rptr self) bufend max_skip in
           Ret (new_pointer, result + (bufend - new_pointer))
         else Ret (new_pointer, result));
  let '(new_pointer, result) := r in
  let was_full := r_rptr self =? r_wptr self in
  let is_empty := r_rptr self =? new_pointer in
  let self := if is_empty then set_wptr (set_rptr self bufend) 0 else set_wptr self new_pointer in
  let signals :=
    if result =? 0 then [] else
    (if was_full then [SigSendChannel RBUF_STATE_CHANNEL_NOTFULL 1] else []) ++
    (if is_empty then [SigBroadcastChannel RBUF_STATE_CHANNEL_EMPTY] else []) in
  Ret (self, result, signals).

(** The pointer arithmetic shared by [ringbuffer_discard],
    [ringbuffer_readv_atomic] and [ringbuffer_peekv_atomic]: the pieces
    [(offset, length)] of the buffer that are consumed ([None]: the branch is
    not taken), and the pointer behind them. *)
Definition piece_len (p : option (nat * nat)) : nat :=
  match p with Some (_, n) => n | None => 0 end.

Definition read_pieces (self : ringbuffer) (num_bytes : nat)
    : option (nat * nat) * option (nat * nat) * nat :=
  let bufend := r_size self in
  let new_pointer :=
    if (r_rptr self =? bufend) && negb (r_wptr self =? 0) then 0 else r_rptr self in
  let '(piece1, new_pointer) :=
    if (new_pointer <? bufend) && (r_wptr self <=? new_pointer) then
      let result := Nat.min (bufend - new_pointer) num_bytes in
      (Some (new_pointer, result),
       if (new_pointer + result =? bufend) && negb (r_wptr self =? 0) then 0
       else new_pointer + result)
    else (None, new_pointer) in
  let '(piece2, new_pointer) :=
    if new_pointer <? r_wptr self then
      let max_read := Nat.min (r_wptr self - new_pointer) (num_bytes - piece_len piece1) in
      (Some (new_pointer, max_read), new_pointer + max_read)
    else (None, new_pointer) in
  (piece1, piece2, new_pointer).

(** Installing the pointer behind the consumed data, and the wake-ups. *)
Definition read_commit (self : ringbuffer) (new_pointer result : nat)
    : ringbuffer * list rb_signal :=
  let was_full := r_rptr self =? r_wptr self in
  let is_empty := new_pointer =? r_wptr self in
  let self' := if is_empty then set_wptr (set_rptr self (r_size self)) 0
               else set_rptr self new_pointer in
  (self',
   if result =? 0 then [] else
   (if was_full then [SigSendChannel RBUF_STATE_CHANNEL_NOTFULL 1] else []) ++
   (if is_empty then [SigBroadcastChannel RBUF_STATE_CHANNEL_EMPTY] else [])).

Definition ringbuffer_discard (self : ringbuffer) (num_bytes : nat)
    : ringbuffer * nat * list rb_signal :=
  let '(p1, p2, new_pointer) := read_pieces self num_bytes in
  let result := piece_len p1 + piece_len p2 in
  let '(self, signals) := read_commit self new_pointer result in
  (self, result, signals).

Definition piece (self : ringbuffer) (p : option (nat * nat)) : list Z :=
  match p with Some (off, n) => take n (drop off (r_data self)) | None => [] end.
Definition write_piece (self : ringbuffer) (iov : list (list Z)) (iov_offset : nat)
    (p : option (nat * nat)) : outcome (list (list Z)) :=
  match p with
  | Some _ => iov_write iov iov_offset (piece self p)
  | None => Ret iov
  end.

Definition ringbuffer_peekv_atomic (self : ringbuffer) (iov : list (list Z))
    (iov_offset num_bytes : nat) : outcome (list (list Z) * nat) :=
  let '(p1, p2, _) := read_pieces self num_bytes in
  iov ← write_piece self iov iov_offset p1;
  iov ← write_piece self iov (iov_offset + piece_len p1) p2;
  Ret (iov, piece_len p1 + piece_len p2).

Definition ringbuffer_readv_atomic (self : ringbuffer) (iov : list (list Z))
    (iov_offset num_bytes : nat) : outcome (ringbuffer * list (list Z) * nat * list rb_signal) :=
  let '(p1, p2, new_pointer) := read_pieces self num_bytes in
  iov ← write_piece self iov iov_offset p1;
  iov ← write_piece self iov (iov_offset + piece_len p1) p2;
  let result := piece_len p1 + piece_len p2 in
  let '(self, signals) := read_commit self new_pointer result in
  Ret (self, iov, result, signals).

Definition ringbuffer_read_atomic (self : ringbuffer) (buf : list Z) (num_bytes : nat)
    : outcome (ringbuffer * list Z * nat * list rb_signal) :=
  r ← ringbuffer_readv_atomic self [buf] 0 num_bytes;
  let '(self, iov, result, signals) := r in
  Ret (self, default [] (head iov), result, signals).

Definition ringbuffer_peek_atomic (self : ringbuffer) (buf : list Z) (num_bytes : nat)
    : outcome (list Z * nat) :=
  r ← ringbuffer_peekv_atomic self [buf] 0 num_bytes;
  Ret (default [] (head r.1), r.2).

(** * Growing and writing *)

(** What the ring buffer relies on of the kernel heap: [heap_alloc_untraced]
    returns a block at least as large as requested or throws [E_BADALLOC]
    ([None]); [heap_allat_untraced] extends the block in place by at least
    the requested amount, or returns 0 ([[]]).  The lists are the contents the
    new memory happens to have. *)
Class RingHeap : Type := {
  ring_alloc : nat -> option (list Z);
  ring_allat : nat -> list Z;
  ring_alloc_size : forall n blk, ring_alloc n = Some blk -> n <= length blk;
  ring_allat_size : forall n, ring_allat n = [] \/ n <= length (ring_allat n)
}.

(** [while (new < target) new *= 2;] *)
Fixpoint grow_size (fuel new target : nat) : nat :=
  if new <? target then
    match fuel with O => new | S fuel => grow_size fuel (new * 2) target end
  else new.

(** The size requested for the new buffer, [None] when the limit is reached. *)
Definition increase_size (self : ringbuffer) (num_bytes : nat) : option nat :=
  let new_siz := if r_size self * 2 =? 0 then RBUFFER_INIT_ALLOC else r_size self * 2 in
  let new_siz := grow_size (r_size self + num_bytes) new_siz (r_size self + num_bytes) in
  let limit := Z.land (r_limt self) RBUFFER_LIMT_FMASK in
  let new_siz := if (limit <? Z.of_nat new_siz)%Z then Z.to_nat limit else new_siz in
  if new_siz <=? r_size self then None else Some new_siz.

Section WithHeap.
Context `{RingHeap}.

(** The code from label [increase_buffer] on: [None] when the function returns 0,
    otherwise the buffer with which it starts over. *)
Definition increase_buffer (self : ringbuffer) (num_bytes : nat) : outcome (option ringbuffer) :=
  if negb (Z.land (r_limt self) RBUFFER_LIMT_FSTATIC =? 0)%Z then Ret None else
  match increase_size self num_bytes with
  | None => Ret None
  | Some new_siz =>
      let ext := if negb (r_size self =? 0) && (r_rptr self =? 0)
                 then ring_allat (new_siz - r_size self) else [] in
      if negb (length ext =? 0) then
        kassert (negb (r_rptr self =? r_size self));;
        Ret (Some (MkRing (r_rptr self) (r_size self) (r_data self ++ ext) (r_limt self)))
      else
        match ring_alloc new_siz with
        | None => Throw E_BADALLOC
        | Some blk =>
            if (length blk <=? r_size self) || negb (r_wptr self =? r_rptr self)
            then Ret (Some self) else
            let old_size_hi := r_size self - r_rptr self in
            let old_size_lo := r_wptr self in
            let old_size := old_size_hi + old_size_lo in
            kassert (old_size <? length blk);;
            let self' :=
              MkRing (if old_size =? 0 then length blk else 0) old_size
                (drop (r_rptr self) (r_data self) ++ take (r_wptr self) (r_data self)
                   ++ drop old_size blk) (r_limt self) in
            kassert (r_rptr self' <=? r_size self');;
            kassert (r_wptr self' <? r_size self');;
            kassert (negb (r_rptr self' =? r_wptr self'));;
            Ret (Some self')
        end
  end.

Fixpoint writev_loop (fuel : nat) (self : ringbuffer) (iov : list (list Z))
    (iov_offset num_bytes : nat) : outcome (ringbuffer * nat * list rb_signal) :=
  let bufend := r_size self in
  kassert ((r_wptr self <? bufend) || (r_size self =? 0));;
  if r_wptr self <? r_rptr self then
    let was_empty := (r_wptr self =? 0) && (r_rptr self =? bufend) in
    let result := Nat.min (r_rptr self - r_wptr self) num_bytes in
    bytes ← iov_read iov iov_offset result;
    let self := set_bytes self (r_wptr self) bytes in
    let self := set_wptr self (r_wptr self + result) in
    let is_full := r_wptr self =? r_rptr self in
    self ← (if r_wptr self =? bufend then
              kassert (r_rptr self =? bufend);; kassert is_full;;
              Ret (set_wptr (set_rptr self 0) 0)
            else Ret self);
    Ret (self, result,
         if result =? 0 then [] else
         if was_empty then [SigBroadcast] else
         if is_full then [SigBroadcastChannel RBUF_STATE_CHANNEL_FULL] else [])
  else if r_wptr self =? r_rptr self then
    match fuel with
    | O => Panic
    | S fuel =>
        r ← increase_buffer self num_bytes;
        match r with
        | None => Ret (self, 0, [])
        | Some self => writev_loop fuel self iov iov_offset num_bytes
        end
    end
  else
    let result := Nat.min (bufend - r_wptr self) num_bytes in
    bytes ← iov_read iov iov_offset result;
    let self := set_bytes self (r_wptr self) bytes in
    let self := set_wptr self (r_wptr self + result) in
    r ← (if r_wptr self =? bufend then
           let self := set_wptr self 0 in
           if negb (r_rptr self =? 0) then
             let max_write := Nat.min (r_rptr self - r_wptr self) (num_bytes - result) in
             bytes ← iov_read iov (iov_offset + result) max_write;
             let self := set_bytes self (r_wptr self) bytes in
             let self := set_wptr self (r_wptr self + max_write) in
             kassert (negb (r_wptr self =? bufend));;
             Ret (self, result + max_write, r_wptr self =? r_rptr self)
           else Ret (self, result, false)
         else Ret (self, result, false));
    let '(self, result, is_full) := r in
    Ret (self, result,
         if result =? 0 then [] else
         if is_full : bool then [SigBroadcastChannel RBUF_STATE_CHANNEL_FULL] else []).

(** The buffer is enlarged at most once per call. *)
Definition ringbuffer_writev_atomic (self : ringbuffer) (iov : list (list Z))
    (iov_offset num_bytes : nat) : outcome (ringbuffer * nat * list rb_signal) :=
  if (num_bytes =? 0) || is_closed self then Ret (self, 0, []) else
  writev_loop 1 self iov iov_offset num_bytes.

Definition ringbuffer_write_atomic (self : ringbuffer) (buf : list Z) (num_bytes : nat)
    : outcome (ringbuffer * nat * list rb_signal) :=
  ringbuffer_writev_atomic self [buf] 0 num_bytes.
End WithHeap.

Definition POLLIN : Z := 1.
Definition POLLOUT : Z := 4.
Definition POLLHUP : Z := 16.
Definition ringbuffer_poll (self : ringbuffer) (mode : Z) : Z :=
  let result := if is_closed self then POLLHUP else 0%Z in
  let result :=
    if negb (Z.land mode POLLIN =? 0)%Z
       && (negb (r_rptr self =? r_size self) || negb (r_wptr self =? 0))
    then Z.lor result POLLIN else result in
  if negb (Z.land mode POLLOUT =? 0)%Z && negb (r_rptr self =? r_wptr self)
  then Z.lor result POLLOUT else result.

(** * The queue a ring buffer stands for *)

Definition contents (self : ringbuffer) : list Z :=
  if r_rptr self <? r_wptr self
  then take (r_wptr self - r_rptr self) (drop (r_rptr self) (r_data self))
  else drop (r_rptr self) (r_data self) ++ take (r_wptr self) (r_data self).

(** Pointer positions the code accepts. *)
Definition ring_wf (self : ringbuffer) : Prop :=
  r_rptr self <= r_size self /\ (r_wptr self < r_size self \/ r_size self = 0 /\ r_wptr self = 0).

Definition is_full (self : ringbuffer) : Prop := r_rptr self = r_wptr self /\ r_size self <> 0.

Lemma length_contents self :
  ring_wf self ->
  length (contents self) =
    if r_rptr self <? r_wptr self then r_wptr self - r_rptr self
    else r_size self - r_rptr self + r_wptr self.
Proof.
  intros [Hr Hw]. unfold contents, r_size in *.
  destruct (Nat.ltb_spec (r_rptr self) (r_wptr self)).
  - rewrite length_take, length_drop. lia.
  - rewrite length_app, length_take, length_drop. lia.
Qed.

Lemma length_contents_le self : ring_wf self -> length (contents self) <= r_size self.
Proof.
  intros Hwf. rewrite length_contents by done. destruct Hwf as [Hr Hw].
  destruct (Nat.ltb_spec (r_rptr self) (r_wptr self)); lia.
Qed.

(** The five situations a reader can find. *)
Inductive read_case (self : ringbuffer) (n : nat)
  : option (nat * nat) -> option (nat * nat) -> nat -> Prop :=
| rc_empty :
    r_rptr self = r_size self -> r_wptr self = 0 -> read_case self n None None (r_size self)
| rc_wrapped :
    r_rptr self = r_size self -> 0 < r_wptr self ->
    read_case self n None (Some (0, Nat.min (r_wptr self) n)) (Nat.min (r_wptr self) n)
| rc_high :
    r_rptr self < r_size self -> r_wptr self <= r_rptr self ->
    (n < r_size self - r_rptr self \/ r_wptr self = 0) ->
    read_case self n (Some (r_rptr self, Nat.min (r_size self - r_rptr self) n)) None
      (r_rptr self + Nat.min (r_size self - r_rptr self) n)
| rc_split :
    r_rptr self < r_size self -> r_wptr self <= r_rptr self -> 0 < r_wptr self ->
    r_size self - r_rptr self <= n ->
    read_case self n (Some (r_rptr self, r_size self - r_rptr self))
      (Some (0, Nat.min (r_wptr self) (n - (r_size self - r_rptr self))))
      (Nat.min (r_wptr self) (n - (r_size self - r_rptr self)))
| rc_low :
    r_rptr self < r_wptr self ->
    read_case self n None (Some (r_rptr self, Nat.min (r_wptr self - r_rptr self) n))
      (r_rptr self + Nat.min (r_wptr self - r_rptr self) n).

(** Replace every test on naturals that [lia] decides by its value. *)
Ltac nat_bools :=
  repeat (match goal with
  | |- context [?a =? ?b] =>
      first [ replace (a =? b) with true by (symmetry; apply Nat.eqb_eq; lia)
            | replace (a =? b) with false by (symmetry; apply Nat.eqb_neq; lia) ]
  | |- context [?a <? ?b] =>
      first [ replace (a <? b) with true by (symmetry; apply Nat.ltb_lt; lia)
            | replace (a <? b) with false by (symmetry; apply Nat.ltb_ge; lia) ]
  | |- context [?a <=? ?b] =>
      first [ replace (a <=? b) with true by (symmetry; apply Nat.leb_le; lia)
            | replace (a <=? b) with false by (symmetry; apply Nat.leb_gt; lia) ]
  end; cbn [andb orb negb piece_len]).

Lemma read_pieces_case self n :
  ring_wf self -> let '(p1, p2, np) := read_pieces self n in read_case self n p1 p2 np.
Proof.
  intros [Hr Hw]. unfold read_pieces. cbn zeta.
  destruct (decide (r_rptr self = r_size self)) as [E|E];
    [destruct (decide (r_wptr self = 0)) as [W|W]|].
  - nat_bools. rewrite E. by constructor.
  - nat_bools. cbn [piece_len]. rewrite !Nat.sub_0_r. apply rc_wrapped; lia.
  - destruct (decide (r_rptr self < r_wptr self)).
    + nat_bools. cbn [piece_len]. rewrite Nat.sub_0_r. by constructor.
    + destruct (decide (r_size self - r_rptr self <= n)); nat_bools;
        [destruct (decide (r_wptr self = 0)) as [W|W]|]; nat_bools.
      * apply rc_high; lia.
      * cbn [piece_len]. rewrite (Nat.min_l (r_size self - r_rptr self)) by lia.
        rewrite Nat.sub_0_r. apply rc_split; lia.
      * apply rc_high; lia.
Qed.

Lemma take_min {A} (l : list A) n : take (Nat.min (length l) n) l = take n l.
Proof.
  destruct (decide (n <= length l)); [by rewrite Nat.min_r by lia|].
  rewrite Nat.min_l, !take_ge by lia. done.
Qed.
Lemma drop_min {A} (l : list A) n : drop (Nat.min (length l) n) l = drop n l.
Proof.
  destruct (decide (n <= length l)); [by rewrite Nat.min_r by lia|].
  rewrite Nat.min_l, !drop_ge by lia. done.
Qed.

(** The pieces are the first bytes of the queue. *)
Lemma read_pieces_data self n :
  ring_wf self -> let '(p1, p2, np) := read_pieces self n in
  piece self p1 ++ piece self p2 = take n (contents self)
  /\ piece_len p1 + piece_len p2 = Nat.min n (length (contents self)).
Proof.
  intros Hwf. rewrite length_contents by done. pose proof (read_pieces_case self n Hwf) as Hc.
  destruct (read_pieces self n) as [[p1 p2] np]. destruct Hwf as [Hr Hw].
  unfold contents. destruct Hc; unfold r_size in *; cbn [piece piece_len]; nat_bools.
  - rewrite H, H0, drop_all. split; [by destruct n|lia].
  - rewrite H, drop_all, drop_0. cbn [app]. split; [|lia].
    rewrite take_take. f_equal. lia.
  - split; [|lia]. rewrite app_nil_r. rewrite <- length_drop, take_min.
    destruct H1 as [H1| ->]; [|by rewrite take_0, app_nil_r].
    rewrite take_app_le by (rewrite length_drop; lia). done.
  - split; [|lia]. rewrite drop_0, take_app, length_drop, take_take.
    rewrite !(take_ge (drop _ _)) by (rewrite length_drop; lia). f_equal. f_equal. lia.
  - split; [|lia]. rewrite take_take. cbn [app]. f_equal. lia.
Qed.

Ltac rcbn := cbn [r_rptr r_wptr r_data r_limt set_rptr set_wptr set_bytes fst snd].
Ltac ring_wf_tac := unfold ring_wf, r_size in *; rcbn; lia.

(** Consuming them leaves the rest of the queue, unless nothing is read from a
    full buffer. *)
Lemma read_commit_contents self n :
  ring_wf self -> ~ (is_full self /\ n = 0) ->
  let '(p1, p2, np) := read_pieces self n in
  let self' := (read_commit self np (piece_len p1 + piece_len p2)).1 in
  ring_wf self' /\ contents self' = drop n (contents self) /\ r_data self' = r_data self
  /\ r_limt self' = r_limt self.
Proof.
  intros Hwf Hnf. pose proof (read_pieces_case self n Hwf) as Hc.
  destruct (read_pieces self n) as [[p1 p2] np]. destruct Hwf as [Hr Hw]. cbn zeta.
  unfold read_commit, is_full in *. cbn [fst]. destruct Hc as [E W|E W|E W D|E W Hlo D|E].
  - destruct (Nat.eqb_spec (r_size self) (r_wptr self)).
    + split_and!; try done; try (ring_wf_tac). unfold contents, r_size in *. rcbn. nat_bools.
      rewrite E, W, take_0, !app_nil_r, drop_all. by rewrite drop_nil.
    + split_and!; try done; try (ring_wf_tac). unfold contents, r_size in *. rcbn. nat_bools.
      rewrite E, W, drop_all, take_0. cbn [app]. by rewrite ?drop_nil.
  - unfold contents, r_size in *. nat_bools. rewrite E, drop_all. cbn [app].
    destruct (decide (r_wptr self <= n)).
    + nat_bools. split_and!; try done; try (ring_wf_tac). rcbn. nat_bools.
      rewrite drop_all, take_0, drop_ge by (rewrite length_take; lia). done.
    + nat_bools. split_and!; try done; try (ring_wf_tac). rcbn. nat_bools.
      rewrite Nat.min_r by lia. by rewrite skipn_firstn_comm.
  - unfold contents, r_size in *. nat_bools.
    destruct (decide (r_wptr self = 0)) as [W0|W0].
    + assert (n <> 0 \/ r_rptr self <> 0) by lia. nat_bools.
      split_and!; try done; try (ring_wf_tac). rcbn. nat_bools.
      rewrite W0, !take_0, !app_nil_r. rewrite <- drop_drop.
      rewrite <- (length_drop _ (r_rptr self)), drop_min. done.
    + assert (n <> 0 \/ r_rptr self <> r_wptr self) by lia. nat_bools.
      split_and!; try done; try (ring_wf_tac). rcbn. nat_bools.
      rewrite Nat.min_r, drop_app_le, drop_drop by (rewrite ?length_drop; lia). done.
  - unfold contents, r_size in *. nat_bools.
    rewrite drop_app_ge, length_drop by (rewrite length_drop; lia).
    destruct (decide (r_wptr self <= n - (length (r_data self) - r_rptr self))).
    + nat_bools. split_and!; try done; try (ring_wf_tac). rcbn. nat_bools.
      rewrite drop_all, take_0, drop_ge by (rewrite length_take; lia). done.
    + nat_bools. split_and!; try done; try (ring_wf_tac). rcbn. nat_bools.
      rewrite Nat.min_r by lia. by rewrite skipn_firstn_comm.
  - unfold contents, r_size in *. nat_bools.
    destruct (decide (r_wptr self - r_rptr self <= n)).
    + nat_bools. split_and!; try done; try (ring_wf_tac). rcbn. nat_bools.
      rewrite drop_all, take_0, drop_ge by (rewrite length_take; lia). done.
    + nat_bools. split_and!; try done; try (ring_wf_tac). rcbn. nat_bools.
      rewrite Nat.min_r, skipn_firstn_comm, drop_drop by lia. f_equal. lia.
Qed.

(** * Writing *)
Lemma iov_read_single buf n : n <= length buf -> iov_read [buf] 0 n = Ret (take n buf).
Proof.
  intros Hn. unfold iov_read. cbn [Nat.eqb iov_gather].
  destruct (Nat.eqb_spec n 0) as [->|Hn0]; [done|].
  rewrite Nat.min_r by lia. rewrite Nat.sub_diag. cbn [iov_gather Nat.eqb]. rewrite bind_ret.
  by rewrite app_nil_r.
Qed.

Section SetBytes.
Context (self : ringbuffer) (p : nat) (bytes : list Z).
Hypothesis Hfit : p + length bytes <= r_size self.

Lemma set_bytes_length : length (r_data (set_bytes self p bytes)) = length (r_data self).
Proof. unfold r_size in *. rcbn. rewrite !length_app, length_take, length_drop. lia. Qed.
Lemma set_bytes_take :
  take (p + length bytes) (r_data (set_bytes self p bytes)) = take p (r_data self) ++ bytes.
Proof.
  unfold r_size in *. rcbn. rewrite app_assoc. apply take_app_length'.
  rewrite length_app, length_take. lia.
Qed.
Lemma set_bytes_drop q :
  p + length bytes <= q -> drop q (r_data (set_bytes self p bytes)) = drop q (r_data self).
Proof.
  intros Hq. unfold r_size in *. rcbn. rewrite app_assoc, drop_app_ge.
  - rewrite length_app, length_take, drop_drop. f_equal. lia.
  - rewrite length_app, length_take. lia.
Qed.
End SetBytes.

(** Appending [bytes] at the write pointer without passing the end. *)
Section Append.
Context (rp wp : nat) (data bytes : list Z) (lim : Z).
Let self := MkRing rp wp data lim.
Let data' := r_data (set_bytes self wp bytes).
Hypothesis Hbytes : 0 < length bytes.
Hypothesis Hin : wp + length bytes <= length data.

Lemma append_length : length data' = length data.
Proof. by apply (set_bytes_length self wp bytes). Qed.
Lemma append_take : take (wp + length bytes) data' = take wp data ++ bytes.
Proof. by apply (set_bytes_take self wp bytes). Qed.
Lemma append_all : wp + length bytes = length data -> data' = take wp data ++ bytes.
Proof. intros E. rewrite <- append_take. symmetry. apply take_ge. rewrite append_length. lia. Qed.

(** The data wraps around: there is room up to the read pointer. *)
Lemma append_below_reader :
  wp < rp <= length data -> wp + length bytes <= rp ->
  let self' := if wp + length bytes =? length data then MkRing 0 0 data' lim
               else MkRing rp (wp + length bytes) data' lim in
  ring_wf self' /\ contents self' = contents self ++ bytes.
Proof.
  intros Hrp Hfit self'. pose proof append_length as HL.
  unfold self', contents, ring_wf, r_size, self.
  destruct (Nat.eqb_spec (wp + length bytes) (length data)) as [E|E]; rcbn; nat_bools.
  - split; [lia|]. rewrite take_0, app_nil_r, drop_0, (append_all E).
    by rewrite drop_ge by lia.
  - split; [lia|]. rewrite append_take, app_assoc. f_equal. f_equal.
    apply (set_bytes_drop self wp bytes); [done|lia].
Qed.

(** The data is contiguous: there is room up to the end of the buffer. *)
Lemma append_above_reader :
  rp < wp ->
  let self' := MkRing rp (if wp + length bytes =? length data then 0 else wp + length bytes)
                 data' lim in
  ring_wf self' /\ contents self' = contents self ++ bytes.
Proof.
  intros Hrp self'. pose proof append_length as HL.
  assert (Hpre : take (wp + length bytes - rp) (drop rp data')
                 = take (wp - rp) (drop rp data) ++ bytes).
  { rewrite <- skipn_firstn_comm, append_take, drop_app_le by (rewrite length_take; lia).
    by rewrite skipn_firstn_comm. }
  unfold self', contents, ring_wf, r_size, self.
  destruct (Nat.eqb_spec (wp + length bytes) (length data)) as [E|E]; rcbn; nat_bools.
  - split; [lia|]. rewrite <- Hpre, take_0, app_nil_r. symmetry. apply take_ge.
    rewrite length_drop. lia.
  - split; [lia|done].
Qed.
End Append.

(** * Growing *)
Lemma increase_size_gt self n m : increase_size self n = Some m -> r_size self < m.
Proof.
  unfold increase_size. cbn zeta. intros E.
  match type of E with (if ?a <=? ?b then _ else _) = _ => destruct (Nat.leb_spec a b) end;
    simplify_eq; lia.
Qed.

(** The buffer copied into a larger block. *)
Lemma regrow_ok rp data blk lim :
  rp <= length data -> length data < length blk ->
  let old_size := length data in
  let self' := MkRing (if old_size =? 0 then length blk else 0) old_size
                 (drop rp data ++ take rp data ++ drop old_size blk) lim in
  r_size self' = length blk /\ ring_wf self'
  /\ contents self' = drop rp data ++ take rp data.
Proof.
  intros Hrp Hlen old_size self'.
  assert (HL : r_size self' = length blk).
  { unfold self', r_size, old_size. rcbn. rewrite !length_app, !length_drop, length_take. lia. }
  split; [done|]. unfold ring_wf. rewrite HL. unfold contents, self', old_size. rcbn.
  destruct (Nat.eqb_spec (length data) 0) as [E|E]; nat_bools.
  - split; [lia|]. apply nil_length_inv in E. subst data.
    rewrite drop_nil, take_nil, drop_0. cbn [app length]. rewrite drop_all, take_0. done.
  - split; [lia|]. rewrite drop_0, Nat.sub_0_r, app_assoc. apply take_app_length'.
    rewrite length_app, length_drop, length_take. lia.
Qed.

(** The buffer extended in place. *)
Lemma extend_ok data ext lim :
  data <> [] -> ext <> [] ->
  let self' := MkRing 0 (length data) (data ++ ext) lim in
  ring_wf self' /\ contents self' = data.
Proof.
  intros Hd He self'. unfold self', ring_wf, contents, r_size. rcbn. rewrite length_app.
  destruct data as [|x data]; [done|]. destruct ext as [|y ext]; [done|]. cbn [length].
  nat_bools. split; [lia|]. rewrite drop_0. apply take_app_length'. cbn [length]. lia.
Qed.

Section Growing.
Context `{RingHeap}.

(** Enlarging a buffer without free space keeps its queue and makes space behind
    the write pointer. *)
Lemma increase_buffer_ok self n :
  ring_wf self -> r_rptr self = r_wptr self ->
  match increase_buffer self n with
  | Ret None => negb (Z.land (r_limt self) RBUFFER_LIMT_FSTATIC =? 0)%Z = true
                \/ increase_size self n = None
  | Ret (Some self') =>
      ring_wf self' /\ contents self' = contents self /\ r_rptr self' <> r_wptr self'
      /\ (r_rptr self' = 0 \/ r_rptr self' = r_size self' /\ r_wptr self' = 0)
  | Throw e => e = E_BADALLOC
  | Panic => False
  end.
Proof.
  intros [Hr Hw] Hfull. unfold increase_buffer.
  destruct (negb (Z.land (r_limt self) RBUFFER_LIMT_FSTATIC =? 0)%Z); [by left|].
  destruct (increase_size self n) as [m|] eqn:Hsz; [|by right].
  apply increase_size_gt in Hsz.
  set (ext := if negb (r_size self =? 0) && (r_rptr self =? 0)
              then ring_allat (m - r_size self) else []).
  assert (Hc : contents self = drop (r_rptr self) (r_data self) ++ take (r_rptr self) (r_data self)).
  { unfold contents. rewrite <- Hfull. by rewrite Nat.ltb_irrefl. }
  destruct (Nat.eqb_spec (length ext) 0) as [E|E]; cbn [negb].
  - destruct (ring_alloc m) as [blk|] eqn:Ha; [|done]. apply ring_alloc_size in Ha.
    replace (length blk <=? r_size self) with false by (symmetry; apply Nat.leb_gt; lia).
    rewrite <- Hfull, Nat.eqb_refl. cbn [negb orb].
    replace (r_size self - r_rptr self + r_rptr self) with (r_size self) by lia.
    destruct (regrow_ok (r_rptr self) (r_data self) blk (r_limt self)) as (HL & Hwf & HC);
      [done|unfold r_size in *; lia|].
    fold (r_size self) in HL, Hwf, HC. rewrite bind_kassert by (apply Nat.ltb_lt; lia).
    rewrite HL. rcbn.
    destruct (Nat.eqb_spec (r_size self) 0) as [Z|Z].
    + rewrite !bind_kassert by (rewrite ?Z; nat_bools; done). rewrite Hc. rcbn. auto with lia.
    + rewrite !bind_kassert by (nat_bools; done). rewrite Hc. rcbn. auto with lia.
  - assert (Hz : r_size self <> 0 /\ r_rptr self = 0).
    { unfold ext in E. destruct (Nat.eqb_spec (r_size self) 0), (Nat.eqb_spec (r_rptr self) 0);
        cbn in E; done || lia. }
    destruct Hz as [Hz1 Hz2]. rewrite bind_kassert by (nat_bools; done).
    destruct (extend_ok (r_data self) ext (r_limt self)) as [Hwf HC].
    { intros E'. apply Hz1. unfold r_size. by rewrite E'. }
    { intros E'. by rewrite E' in E. }
    rewrite Hz2 in *. fold (r_size self) in Hwf, HC. rewrite Hc, HC, take_0, drop_0, app_nil_r.
    rcbn. auto with lia.
Qed.
End Growing.

Lemma iov_read_nothing buf off : off <= length buf -> iov_read [buf] off 0 = Ret [].
Proof.
  intros Ho. unfold iov_read. destruct (Nat.eqb_spec off 0); [done|].
  assert (E : iov_skip off (length buf) off = Ret off)
    by (destruct off; cbn [iov_skip]; nat_bools; done).
  rewrite E, bind_ret, Nat.min_0_r. done.
Qed.

Section Writing.
Context `{RingHeap}.

Definition write_room (self : ringbuffer) : nat :=
  if r_wptr self <? r_rptr self then r_rptr self - r_wptr self else r_size self - r_wptr self.

(** A write that finds space and does not have to wrap around. *)
Lemma writev_loop_space fuel self buf num :
  ring_wf self -> r_rptr self <> r_wptr self -> 0 < num <= length buf ->
  (r_wptr self < r_rptr self \/ r_wptr self + num <= r_size self \/ r_rptr self = 0) ->
  exists self' sigs,
    writev_loop fuel self [buf] 0 num = Ret (self', Nat.min (write_room self) num, sigs)
    /\ 0 < Nat.min (write_room self) num /\ ring_wf self'
    /\ contents self' = contents self ++ take (Nat.min (write_room self) num) buf.
Proof.
  intros [Hr Hw] Hne Hn Hnw. unfold write_room.
  destruct self as [rp wp data lim]. unfold r_size in *. rcbn. cbn [r_rptr r_wptr r_data] in *.
  assert (E1 : forall f, writev_loop f (MkRing rp wp data lim) [buf] 0 num
    = writev_loop fuel (MkRing rp wp data lim) [buf] 0 num).
  { intros f. destruct f, fuel; cbn [writev_loop]; rcbn; unfold r_size; rcbn;
      destruct (Nat.ltb_spec wp rp); try done; nat_bools; done. }
  rewrite <- (E1 0). cbn [writev_loop]. rcbn. unfold r_size. rcbn.
  rewrite bind_kassert by (nat_bools; done).
  destruct (Nat.ltb_spec wp rp) as [Hlt|Hge].
  - set (r := Nat.min (rp - wp) num). assert (0 < r) by lia.
    rewrite iov_read_single by lia. rewrite bind_ret.
    assert (Hlen : length (take r buf) = r) by (rewrite length_take; lia).
    pose proof (append_below_reader rp wp data (take r buf) lim) as Ha.
    rewrite Hlen in Ha. specialize (Ha ltac:(lia) ltac:(lia) ltac:(lia) ltac:(lia)).
    cbn zeta in Ha. rcbn. cbn [r_data set_bytes] in Ha.
    destruct (Nat.eqb_spec (wp + r) (length data)) as [Ee|Ee].
    + replace (rp =? length data) with true by (symmetry; apply Nat.eqb_eq; lia).
      replace (wp + r =? rp) with true by (symmetry; apply Nat.eqb_eq; lia).
      cbn [kassert]. rewrite !bind_ret. rcbn. destruct Ha as [Ha1 Ha2]. eexists _, _. split_and!; done.
    + rewrite bind_ret. destruct Ha as [Ha1 Ha2]. eexists _, _. split_and!; done.
  - nat_bools. set (r := Nat.min (length data - wp) num). assert (0 < r) by lia.
    rewrite iov_read_single by lia. rewrite bind_ret.
    assert (Hlen : length (take r buf) = r) by (rewrite length_take; lia).
    pose proof (append_above_reader rp wp data (take r buf) lim) as Ha.
    rewrite Hlen in Ha. specialize (Ha ltac:(lia) ltac:(lia) ltac:(lia)).
    cbn zeta in Ha. rcbn. cbn [r_data set_bytes] in Ha.
    destruct (Nat.eqb_spec (wp + r) (length data)) as [Ee|Ee]; [|
      rewrite bind_ret; destruct Ha as [Ha1 Ha2]; eexists _, _; split_and!; done].
    destruct (Nat.eqb_spec rp 0) as [Er|Er]; cbn [negb].
    + rewrite bind_ret. destruct Ha as [Ha1 Ha2]. eexists _, _. split_and!; done.
    + replace (num - r) with 0 by lia. rewrite Nat.min_0_r, iov_read_nothing by lia.
      rewrite bind_ret. rewrite bind_kassert by (nat_bools; done). rewrite bind_ret.
      destruct Ha as [Ha1 Ha2]. rewrite (Nat.add_0_r r). eexists _, _.
      split_and!; [done|done|exact Ha1|exact Ha2].
Qed.
End Writing.

(** * Blocking operations

    While a thread is connected to [r_stat] or sleeps in [task_wait], other
    threads change the buffer: [env] lists their effects, one entry between the
    first and the second attempt and one per sleep; [None] stands for
    an interrupt or RPC that makes [task_wait] throw.  The result [None]
    means that the thread is still asleep when [env] is used up. *)
Definition env_step := option (ringbuffer -> ringbuffer).

Section Blocking.
Context {R : Type}.
(** One attempt: new buffer, result and number of bytes transferred. *)
Context (attempt : ringbuffer -> outcome (ringbuffer * R * nat)).
Context (num_bytes : nat) (nonblock : bool).

Fixpoint block_loop (env : list env_step) (self : ringbuffer)
    : outcome (option (ringbuffer * R * nat)) :=
  r ← attempt self;
  let '(self, x, result) := r in
  if negb (result =? 0) || (num_bytes =? 0) || is_closed self || nonblock
  then Ret (Some (self, x, result)) else
  match env with
  | Some other1 :: env =>
      r ← attempt (other1 self);
      let '(self, x, result) := r in
      if negb (result =? 0) || is_closed self then Ret (Some (self, x, result)) else
      match env with
      | Some other2 :: env => block_loop env (other2 self)
      | None :: _ => Throw E_INTERRUPT
      | [] => Ret None
      end
  | None :: _ => Throw E_INTERRUPT
  | [] => Ret None
  end.
End Blocking.

Definition ringbuffer_readv (env : list env_step) (self : ringbuffer) (iov : list (list Z))
    (iov_offset num_bytes : nat) (nonblock : bool) :=
  block_loop (fun self =>
    r ← ringbuffer_readv_atomic self iov iov_offset num_bytes;
    let '(self, iov, result, _) := r in Ret (self, iov, result)) num_bytes nonblock env self.

Definition ringbuffer_peekv (env : list env_step) (self : ringbuffer) (iov : list (list Z))
    (iov_offset num_bytes : nat) (nonblock : bool) :=
  block_loop (fun self =>
    r ← ringbuffer_peekv_atomic self iov iov_offset num_bytes;
    Ret (self, r.1, r.2)) num_bytes nonblock env self.

Definition ringbuffer_writev `{RingHeap} (env : list env_step) (self : ringbuffer)
    (iov : list (list Z)) (iov_offset num_bytes : nat) (nonblock : bool) :=
  block_loop (fun self =>
    r ← ringbuffer_writev_atomic self iov iov_offset num_bytes;
    let '(self, result, _) := r in Ret (self, tt, result)) num_bytes nonblock env self.

Definition ringbuffer_read (env : list env_step) (self : ringbuffer) (buf : list Z)
    (num_bytes : nat) (nonblock : bool) :=
  ringbuffer_readv env self [buf] 0 num_bytes nonblock.
Definition ringbuffer_peek (env : list env_step) (self : ringbuffer) (buf : list Z)
    (num_bytes : nat) (nonblock : bool) :=
  ringbuffer_peekv env self [buf] 0 num_bytes nonblock.
Definition ringbuffer_write `{RingHeap} (env : list env_step) (self : ringbuffer) (buf : list Z)
    (num_bytes : nat) (nonblock : bool) :=
  ringbuffer_writev env self [buf] 0 num_bytes nonblock.

(** [ringbuffer_readall] without other threads: [do temp = ringbuffer_peek(...)
    while (temp && result < num_bytes)], filling [buf] from [result] on. *)
Fixpoint ringbuffer_readall (fuel : nat) (self : ringbuffer) (buf : list Z)
    (result num_bytes : nat) (nonblock : bool) : outcome (option (ringbuffer * list Z * nat)) :=
  match fuel with
  | O => Panic
  | S fuel =>
      r ← ringbuffer_peek [] self (drop result buf) (num_bytes - result) nonblock;
      match r with
      | None => Ret None
      | Some (self, iov, temp) =>
          let buf := take result buf ++ default [] (head iov) in
          if negb (temp =? 0) && (result + temp <? num_bytes)
          then ringbuffer_readall fuel self buf (result + temp) num_bytes nonblock
          else Ret (Some (self, buf, result + temp))
      end
  end.

(** [ringbuffer_writeall] without other threads. *)
Fixpoint ringbuffer_writeall `{RingHeap} (fuel : nat) (self : ringbuffer) (buf : list Z)
    (result num_bytes : nat) (nonblock : bool) : outcome (option (ringbuffer * nat)) :=
  match fuel with
  | O => Panic
  | S fuel =>
      r ← ringbuffer_write [] self (drop result buf) (num_bytes - result) nonblock;
      match r with
      | None => Ret None
      | Some (self, _, part) =>
          if negb (part =? 0) && (result + part <? num_bytes)
          then ringbuffer_writeall fuel self buf (result + part) num_bytes nonblock
          else Ret (Some (self, result + part))
      end
  end.

(** * Properties *)

Lemma iov_write_single buf src :
  length src <= length buf -> iov_write [buf] 0 src = Ret [src ++ drop (length src) buf].
Proof.
  intros Hl. unfold iov_write. cbn [Nat.eqb].
  destruct src as [|x src]; cbn [iov_fill]; [by rewrite drop_0|].
  rewrite (drop_ge (x :: src)) by lia. cbn [iov_fill]. by rewrite bind_ret, take_ge by lia.
Qed.

(** The bytes of a read come from one piece of the buffer. *)
Definition contiguous (self : ringbuffer) (num : nat) : Prop :=
  r_rptr self < r_wptr self \/ r_wptr self = 0 \/ r_rptr self = r_size self
  \/ num <= r_size self - r_rptr self.

Lemma iov_write_empty buf off : off <= length buf -> iov_write [buf] off [] = Ret [buf].
Proof.
  intros Ho. unfold iov_write. destruct (Nat.eqb_spec off 0); [done|].
  assert (E : iov_skip off (length buf) off = Ret off)
    by (destruct off; cbn [iov_skip]; nat_bools; done).
  rewrite E, bind_ret, Nat.min_0_r. done.
Qed.

Lemma read_pieces_write self buf num :
  ring_wf self -> num <= length buf -> contiguous self num ->
  let '(p1, p2, np) := read_pieces self num in
  (iov ← write_piece self [buf] 0 p1; write_piece self iov (0 + piece_len p1) p2)
  = Ret [take num (contents self) ++ drop (Nat.min num (length (contents self))) buf].
Proof.
  intros Hwf Hl Hc. pose proof (read_pieces_data self num Hwf) as Hd.
  pose proof (read_pieces_case self num Hwf) as Hcase.
  destruct (read_pieces self num) as [[p1 p2] np]. destruct Hd as [Hd1 Hd2].
  rewrite <- Hd1, <- Hd2. destruct Hwf as [Hr Hw]. unfold r_size in *.
  destruct Hcase as [E W|E W|E W D|E W Hlo D|E]; cbn [write_piece piece piece_len].
  - by rewrite bind_ret, drop_0.
  - rewrite bind_ret. rewrite iov_write_single; rewrite !length_take, length_drop.
    + do 2 f_equal. cbn [app]. do 2 f_equal. unfold r_size in *. lia.
    + lia.
  - rewrite iov_write_single; rewrite !length_take, length_drop.
    + rewrite bind_ret, app_nil_r, Nat.add_0_r. do 4 f_equal. unfold r_size in *. lia.
    + lia.
  - unfold contiguous, r_size in *. assert (num = length (r_data self) - r_rptr self) by lia.
    rewrite iov_write_single; rewrite !length_take, length_drop; [|lia].
    replace (num - _) with 0 by lia. rewrite Nat.min_0_r, take_0, bind_ret, Nat.add_0_r, app_nil_r.
    rewrite iov_write_empty; [do 4 f_equal; lia|].
    rewrite length_app, length_take, !length_drop. lia.
  - rewrite bind_ret. rewrite iov_write_single; rewrite !length_take, length_drop.
    + do 2 f_equal. cbn [app]. do 2 f_equal. unfold r_size in *. lia.
    + lia.
Qed.

Lemma ringbuffer_read_ok self buf num :
  ring_wf self -> num <= length buf -> contiguous self num -> ~ (is_full self /\ num = 0) ->
  exists self' sigs,
    ringbuffer_read_atomic self buf num
    = Ret (self', take num (contents self) ++ drop (Nat.min num (length (contents self))) buf,
           Nat.min num (length (contents self)), sigs)
    /\ ring_wf self' /\ contents self' = drop num (contents self).
Proof.
  intros Hwf Hl Hc Hnf. unfold ringbuffer_read_atomic, ringbuffer_readv_atomic.
  pose proof (read_pieces_write self buf num Hwf Hl Hc) as Hw.
  pose proof (read_pieces_data self num Hwf) as Hd.
  pose proof (read_commit_contents self num Hwf Hnf) as Hcm.
  destruct (read_pieces self num) as [[p1 p2] np]. destruct Hd as [_ Hd]. rewrite Hd in *.
  destruct (write_piece self [buf] 0 p1) as [iov| |]; try done.
  cbn [mbind outcome_bind] in Hw |- *. rewrite Hw. cbn [mbind outcome_bind]. destruct (read_commit self np _) as [self' sigs]. cbn in Hcm |- *.
  destruct Hcm as (H1 & H2 & _). by exists self', sigs.
Qed.

(** [ringbuffer_read_atomic] into one user buffer, for data that lies in one
    piece: it returns the first [num_bytes] bytes of the queue (fewer when there are fewer),
    removes exactly them, and touches nothing behind them in the user buffer. *)
Theorem ringbuffer_read_spec self buf num :
  ring_wf self -> num <= length buf -> contiguous self num -> ~ (is_full self /\ num = 0) ->
  exists self' sigs,
    ringbuffer_read_atomic self buf num
    = Ret (self', take num (contents self) ++ drop (Nat.min num (length (contents self))) buf,
           Nat.min num (length (contents self)), sigs)
    /\ ring_wf self' /\ contents self' = drop num (contents self).
Proof. apply ringbuffer_read_ok. Qed.

Lemma ringbuffer_write_ok `{RingHeap} self buf num :
  ring_wf self -> num <= length buf ->
  (r_wptr self <= r_rptr self \/ r_wptr self + num <= r_size self) ->
  match ringbuffer_write_atomic self buf num with
  | Ret (self', r, _) =>
      ring_wf self' /\ r <= num /\ contents self' = contents self ++ take r buf
      /\ (r = 0 -> num = 0 \/ is_closed self = true
          \/ r_rptr self = r_wptr self
             /\ (negb (Z.land (r_limt self) RBUFFER_LIMT_FSTATIC =? 0)%Z = true
                 \/ increase_size self num = None))
  | Throw e => e = E_BADALLOC /\ r_rptr self = r_wptr self
  | Panic => False
  end.
Proof.
  intros Hwf Hl Hnw. unfold ringbuffer_write_atomic, ringbuffer_writev_atomic.
  destruct (Nat.eqb_spec num 0) as [->|Hn].
  { cbn. rewrite app_nil_r. auto. }
  destruct (is_closed self) eqn:Hcl; cbn [orb].
  { cbn. rewrite app_nil_r. auto with lia. }
  destruct (decide (r_rptr self = r_wptr self)) as [Hfull|Hspace].
  2: { destruct (writev_loop_space 1 self buf num) as (self' & sigs & -> & H1 & H2 & H3);
         try done; try lia. split_and!; try done; lia. }
  cbn [writev_loop]. rewrite bind_kassert.
  2: { destruct Hwf as [_ [Hw|[Hw _]]]; apply orb_true_iff;
         [left; by apply Nat.ltb_lt|right; by apply Nat.eqb_eq]. }
  rewrite <- Hfull, Nat.ltb_irrefl, Nat.eqb_refl.
  pose proof (increase_buffer_ok self num Hwf Hfull) as Hi.
  destruct (increase_buffer self num) as [[self'|]| |]; cbn [mbind outcome_bind]; try done.
  - destruct Hi as (Hwf' & HC & Hne & Hpos).
    destruct (writev_loop_space 0 self' buf num) as (self2 & sigs & Hrun & H1 & H2 & H3);
      try done; try lia.
    cbn [writev_loop] in Hrun. rewrite Hrun, <- HC. split_and!; try done; lia.
  - cbn. rewrite app_nil_r. split_and!; auto with lia.
Qed.

(** [ringbuffer_write_atomic] from one user buffer that does not have to wrap
    around appends a prefix of the data to the queue, enlarging the buffer when
    it is full; it writes nothing only for an empty request, a closed buffer, or a full one
    that may not grow; the only exception is [E_BADALLOC] of the enlargement; no assertion fails. *)
Theorem ringbuffer_write_spec `{RingHeap} self buf num :
  ring_wf self -> num <= length buf ->
  (r_wptr self <= r_rptr self \/ r_wptr self + num <= r_size self) ->
  match ringbuffer_write_atomic self buf num with
  | Ret (self', r, _) =>
      ring_wf self' /\ r <= num /\ contents self' = contents self ++ take r buf
      /\ (r = 0 -> num = 0 \/ is_closed self = true
          \/ r_rptr self = r_wptr self
             /\ (negb (Z.land (r_limt self) RBUFFER_LIMT_FSTATIC =? 0)%Z = true
                 \/ increase_size self num = None))
  | Throw e => e = E_BADALLOC /\ r_rptr self = r_wptr self
  | Panic => False
  end.
Proof. apply ringbuffer_write_ok. Qed.

(** [ringbuffer_discard] drops the first bytes of the queue, as many as there
    are up to [num_bytes]. *)
Theorem ringbuffer_discard_spec self num :
  ring_wf self -> ~ (is_full self /\ num = 0) ->
  let '(self', r, _) := ringbuffer_discard self num in
  r = Nat.min num (length (contents self)) /\ ring_wf self'
  /\ contents self' = drop num (contents self).
Proof.
  intros Hwf Hnf. unfold ringbuffer_discard.
  pose proof (read_pieces_data self num Hwf) as Hd.
  pose proof (read_commit_contents self num Hwf Hnf) as Hcm.
  destruct (read_pieces self num) as [[p1 p2] np]. cbn zeta in Hcm.
  destruct (read_commit self np _) as [self' sigs]. cbn in Hcm.
  destruct Hd as [_ Hd]. destruct Hcm as (H1 & H2 & _). done.
Qed.

(** [ringbuffer_maxread] is the length of the queue; [ringbuffer_maxwrite] is
    the remaining capacity whenever the buffer is not full; [POLLIN] is reported exactly
    for a non-empty queue of an allocated buffer. *)
Theorem ringbuffer_level_spec self :
  ring_wf self -> 
  ringbuffer_maxread self = length (contents self)
  /\ (~ is_full self -> ringbuffer_maxwrite self = r_size self - length (contents self))
  /\ (r_size self <> 0 ->
      Z.testbit (ringbuffer_poll self POLLIN) 0 = negb (length (contents self) =? 0)).
Proof.
  intros Hwf. rewrite length_contents by done. destruct Hwf as [Hr Hw].
  unfold ringbuffer_maxread, ringbuffer_maxwrite, ringbuffer_poll, is_full. split_and!.
  - destruct (Nat.ltb_spec (r_rptr self) (r_wptr self)); lia.
  - intros Hnf. destruct (Nat.ltb_spec (r_rptr self) (r_wptr self)), (Nat.ltb_spec (r_wptr self) (r_rptr self)); lia.
  - intros Hs. cbn [Z.land POLLIN POLLOUT Pos.land Z.eqb negb andb].
    destruct (Nat.eqb_spec (r_rptr self) (r_size self)), (Nat.eqb_spec (r_wptr self) 0),
      (Nat.ltb_spec (r_rptr self) (r_wptr self)); try lia; cbn [andb orb negb]; nat_bools;
      destruct (is_closed self); reflexivity.
Qed.

(** While the data does not wrap around, [ringbuffer_unread] puts the bytes in
    front of the read pointer back in front of the queue, as many as fit. *)
Theorem ringbuffer_unread_spec self num :
  ring_wf self -> r_rptr self < r_wptr self ->
  exists self' r sigs old, ringbuffer_unread self num = Ret (self', r, sigs)
    /\ r = Nat.min num (r_size self - length (contents self)) /\ length old = r
    /\ ring_wf self' /\ contents self' = old ++ contents self.
Proof.
  intros Hwf Hlt. rewrite length_contents by done. destruct Hwf as [Hr Hw].
  unfold ringbuffer_unread. destruct self as [rp wp data lim]. unfold r_size in *. rcbn.
  cbn [r_rptr r_wptr r_data] in *.
  replace (wp =? 0) with false by (symmetry; apply Nat.eqb_neq; lia). rewrite andb_false_r.
  assert (Hsub : sub_clamp 0 rp num = rp - num) by (unfold sub_clamp; nat_bools; destruct (rp <? num) eqn:E; [apply Nat.ltb_lt in E|]; lia).
  rewrite Hsub. rewrite bind_kassert by (apply Nat.leb_le; lia).
  destruct (decide (num <= rp)) as [Hle|Hgt].
  - assert (Hc : (rp - num =? 0) && negb (rp - (rp - num) =? num) = false)
      by (replace (rp - (rp - num)) with num by lia; rewrite Nat.eqb_refl; apply andb_false_r).
    rewrite Hc. exists (MkRing (rp - num) wp data lim), num.
    eexists _, (take num (drop (rp - num) data)).
    replace (rp - (rp - num)) with num by lia. split; [done|]. split; [nat_bools; lia|].
    split; [rewrite length_take, length_drop; lia|].
    unfold ring_wf, contents, r_size. rcbn. nat_bools. split; [lia|].
    replace (wp - (rp - num)) with (num + (wp - rp)) by lia.
    rewrite <- take_take_drop. f_equal. rewrite drop_drop. f_equal. f_equal. lia.
  - assert (Hc : (rp - num =? 0) && negb (rp - (rp - num) =? num) = true).
    { replace (rp - num) with 0 by lia. rewrite Nat.sub_0_r. cbn. apply negb_true_iff, Nat.eqb_neq. lia. }
    rewrite Hc. replace (rp - num) with 0 by lia. rewrite Nat.sub_0_r.
    set (np := sub_clamp wp (length data) (num - rp)).
    assert (Hnp : np = Nat.max wp (length data - (num - rp))).
    { unfold np, sub_clamp. destruct (Nat.ltb_spec (length data) (num - rp)); [lia|].
      destruct (Nat.ltb_spec (length data - (num - rp)) wp); lia. }
    clearbody np. exists (MkRing np wp data lim), (rp + (length data - np)).
    eexists _, (drop np data ++ take rp data). split; [done|]. split; [nat_bools; lia|].
    split; [rewrite length_app, length_take, length_drop; lia|].
    unfold ring_wf, contents, r_size. rcbn. nat_bools. split; [lia|].
    rewrite <- app_assoc. f_equal. rewrite (take_take_drop data rp (wp - rp)). f_equal. lia.
Qed.

(** * Histories

    [ring_history self written read]: [self] is reached from a fresh buffer by
    reads and writes that need not wrap around (single bytes never do) and by
    closing; [written] and [read] collect the bytes accepted and delivered. *)
Section History.
Context `{RingHeap}.

Inductive ring_history : ringbuffer -> list Z -> list Z -> Prop :=
| rh_init limt : ring_history (ringbuffer_init limt) [] []
| rh_write self written read buf num self' n sigs :
    ring_history self written read -> num <= length buf ->
    (r_wptr self <= r_rptr self \/ r_wptr self + num <= r_size self) ->
    ringbuffer_write_atomic self buf num = Ret (self', n, sigs) ->
    ring_history self' (written ++ take n buf) read
| rh_read self written read buf num self' buf' n sigs :
    ring_history self written read -> 0 < num <= length buf -> contiguous self num ->
    ringbuffer_read_atomic self buf num = Ret (self', buf', n, sigs) ->
    ring_history self' written (read ++ take n buf')
| rh_close self written read :
    ring_history self written read ->
    ring_history (ringbuffer_close self).1.1 written read.

(** C22: In a history of writes, of reads of at least one byte and of closing the
    buffer, none of which has to wrap around the end of the vector, every byte is
    delivered once, in the order of the writes: what was written is what was read
    followed by the queue.  (A read of zero bytes drops a full buffer,
    [read_zero_empties_full_buffer]; what wraps around is copied wrongly,
    [wrapped_write_mixes_bytes].) *)
Theorem ring_fifo self written read :
  ring_history self written read -> ring_wf self /\ written = read ++ contents self.
Proof.
  induction 1 as [limt|self written read buf num self' n sigs Hh [Hwf IH] Hl Hnw Hrun
                 |self written read buf num self' buf' n sigs Hh [Hwf IH] Hl Hc Hrun
                 |self written read Hh [Hwf IH]].
  - split; [unfold ring_wf; cbn; lia|done].
  - pose proof (ringbuffer_write_ok self buf num Hwf Hl Hnw) as Hw. rewrite Hrun in Hw.
    destruct Hw as (Hwf' & _ & -> & _). split; [done|]. by rewrite IH, app_assoc.
  - destruct (ringbuffer_read_ok self buf num) as (self2 & sigs2 & Hr & Hwf' & HC);
      try done; [lia|unfold is_full; lia|].
    rewrite Hr in Hrun. simplify_eq. split; [done|]. rewrite HC, <- app_assoc. f_equal.
    rewrite take_app_le by (rewrite length_take; lia). rewrite take_take.
    replace (Nat.min (Nat.min num (length (contents self))) num) with (Nat.min (length (contents self)) num)
      by lia.
    rewrite take_min. symmetry. apply take_drop.
  - unfold ringbuffer_close. destr_if; cbn; (split; [ring_wf_tac|done]).
Qed.
End History.

(** Returning without any transfer needs a reason. *)
Lemma block_loop_zero {R} (attempt : ringbuffer -> outcome (ringbuffer * R * nat)) num nonblock env :
  forall self self' x,
  block_loop attempt num nonblock env self = Ret (Some (self', x, 0)) ->
  num = 0 \/ is_closed self' = true \/ nonblock = true.
Proof.
  assert (Hlen : forall k env, length env <= k -> forall self self' x,
    block_loop attempt num nonblock env self = Ret (Some (self', x, 0)) ->
    num = 0 \/ is_closed self' = true \/ nonblock = true).
  2: { eauto. }
  induction k as [|k IH]; intros [|e1 env1] Hk self self' x Hrun; cbn in Hk; try lia.
  all: cbn [block_loop] in Hrun; destruct (attempt self) as [[[s1 x1] r1]| |];
    cbn [mbind outcome_bind] in Hrun; try done.
  all: destruct (r1 =? 0) eqn:E1, (Nat.eqb_spec num 0) as [Hnum|Hnum],
    (is_closed s1) eqn:Hcl; try destruct nonblock; cbn [negb orb] in Hrun; simplify_eq; auto; try done.
  destruct e1 as [o1|]; [|done]. destruct (attempt (o1 s1)) as [[[s2 x2] r2]| |];
    cbn [mbind outcome_bind] in Hrun; try done.
  destruct (r2 =? 0) eqn:E2, (is_closed s2) eqn:Hcl2; cbn [negb orb] in Hrun;
    simplify_eq; auto; try done.
  destruct env1 as [|[o2|] env2]; try done. apply IH in Hrun; [auto|cbn in Hk; lia].
Qed.

(** A blocking read that returns without data was asked for nothing, was
    non-blocking, or the buffer is closed. *)
Theorem ringbuffer_read_blocks env self buf num nonblock self' iov :
  ringbuffer_read env self buf num nonblock = Ret (Some (self', iov, 0)) ->
  num = 0 \/ is_closed self' = true \/ nonblock = true.
Proof. apply block_loop_zero. Qed.

(** * Witnesses and concrete runs *)

(** A heap that rounds requests up to 16 bytes and never extends in place. *)
Definition round16 (n : nat) : nat := (n + 15) / 16 * 16.
Lemma round16_ge n : n <= round16 n.
Proof.
  unfold round16. pose proof (Nat.div_mod_eq (n + 15) 16).
  pose proof (Nat.mod_upper_bound (n + 15) 16 ltac:(lia)). lia.
Qed.
#[export] Instance round_heap : RingHeap.
Proof.
  refine {| ring_alloc n := Some (replicate (round16 n) 0%Z); ring_allat _ := [] |}.
  - intros n blk E. assert (blk = replicate (round16 n) 0%Z) as -> by congruence.
    rewrite length_replicate. apply round16_ge.
  - auto.
Defined.

Definition ring_ex : ringbuffer := MkRing 1 3 [7; 8; 9; 0]%Z 64.
Lemma ring_ex_wf : ring_wf ring_ex.
Proof. unfold ring_wf; cbn; lia. Qed.

Lemma ringbuffer_read_witness :
  exists self' sigs, ringbuffer_read_atomic ring_ex [0; 0; 0]%Z 3 = Ret (self', [8; 9; 0]%Z, 2, sigs)
    /\ contents self' = [].
Proof.
  destruct (ringbuffer_read_spec ring_ex [0; 0; 0]%Z 3 ring_ex_wf) as (s & sigs & Hrun & _ & Hc);
    [cbn; lia|left; cbn; lia|intros [_ ?]; lia|]. exists s, sigs. split; [exact Hrun|exact Hc].
Defined.

Lemma ringbuffer_write_witness :
  ringbuffer_write_atomic ring_ex [5]%Z 1 = Ret (MkRing 1 0 [7; 8; 9; 5]%Z 64, 1, [])
  /\ contents (MkRing 1 0 [7; 8; 9; 5]%Z 64) = contents ring_ex ++ take 1 [5]%Z.
Proof.
  pose proof (ringbuffer_write_spec ring_ex [5]%Z 1 ring_ex_wf ltac:(cbn; lia) ltac:(cbn; lia)) as Hw.
  split; [reflexivity|]. cbn in Hw. apply Hw.
Defined.

Lemma ringbuffer_discard_witness :
  contents (ringbuffer_discard ring_ex 1).1.1 = [9]%Z.
Proof.
  pose proof (ringbuffer_discard_spec ring_ex 1 ring_ex_wf ltac:(intros [_ ?]; lia)) as Hd.
  destruct (ringbuffer_discard ring_ex 1) as [[s r] sg]. cbn. destruct Hd as (_ & _ & ->). reflexivity.
Defined.

Lemma ringbuffer_level_witness : ringbuffer_maxread ring_ex = 2 /\ ringbuffer_maxwrite ring_ex = 2.
Proof.
  destruct (ringbuffer_level_spec ring_ex ring_ex_wf) as (-> & Hw & _). split; [reflexivity|].
  rewrite Hw; [reflexivity|]. intros [E _]. cbn in E. lia.
Defined.

Lemma ringbuffer_unread_witness :
  exists self' r sigs old, ringbuffer_unread ring_ex 1 = Ret (self', r, sigs)
    /\ contents self' = old ++ contents ring_ex /\ r = 1.
Proof.
  destruct (ringbuffer_unread_spec ring_ex 1 ring_ex_wf ltac:(cbn; lia))
    as (s & r & sg & old & Hrun & Hr & _ & _ & Hc).
  exists s, r, sg, old. split; [exact Hrun|]. split; [exact Hc|]. rewrite Hr. reflexivity.
Defined.

(** The buffer after writing three bytes into a new one. *)
Definition ring_w3 : ringbuffer :=
  match ringbuffer_write_atomic (ringbuffer_init 64) [1; 2; 3]%Z 3 with
  | Ret (s, _, _) => s
  | _ => ringbuffer_init 0
  end.
Definition ring_w3_r1 : ringbuffer :=
  match ringbuffer_read_atomic ring_w3 [0]%Z 1 with
  | Ret (s, _, _, _) => s
  | _ => ringbuffer_init 0
  end.

Lemma ring_fifo_witness :
  ring_history ring_w3_r1 [1; 2; 3]%Z [1]%Z /\ [1; 2; 3]%Z = [1]%Z ++ contents ring_w3_r1.
Proof.
  assert (Hw : ring_history ring_w3 [1; 2; 3]%Z []).
  { eapply (rh_write (ringbuffer_init 64) [] [] [1; 2; 3]%Z 3 ring_w3 3);
      [apply rh_init|cbn; lia|cbn; lia|vm_compute; reflexivity]. }
  assert (Hh : ring_history ring_w3_r1 [1; 2; 3]%Z [1]%Z).
  { eapply (rh_read ring_w3 [1; 2; 3]%Z [] [0]%Z 1 ring_w3_r1 [1]%Z 1);
      [exact Hw|cbn; lia|vm_compute; lia|vm_compute; reflexivity]. }
  split; [exact Hh|]. exact (proj2 (ring_fifo _ _ _ Hh)).
Defined.

Lemma ringbuffer_read_blocks_witness :
  ringbuffer_read [] ring_ex [] 0 false = Ret (Some (ring_ex, [[]], 0)) /\
  (0 = 0 \/ is_closed ring_ex = true \/ false = true).
Proof.
  assert (E : ringbuffer_read [] ring_ex [] 0 false = Ret (Some (ring_ex, [[]], 0))) by reflexivity.
  split; [exact E|]. exact (ringbuffer_read_blocks _ _ _ _ _ _ _ E).
Defined.

(** Reading no bytes from a full buffer empties it. *)
Example read_zero_empties_full_buffer :
  let full := MkRing 0 0 [1; 2; 3; 4]%Z 4 in
  contents full = [1; 2; 3; 4]%Z
  /\ exists self', ringbuffer_read_atomic full [] 0 = Ret (self', [], 0, []) /\ contents self' = [].
Proof. split; [reflexivity|]. eexists. split; reflexivity. Qed.

(** [iov_write] and [iov_read] restart at the beginning of the entry that the
    offset falls into: a read or write that wraps around mixes up its bytes. *)
Example wrapped_read_mixes_bytes :
  let self := MkRing 2 1 [10; 20; 30; 40]%Z 4 in
  contents self = [30; 40; 10]%Z
  /\ exists self' sigs, ringbuffer_read_atomic self [0; 0; 0]%Z 3 = Ret (self', [10; 40; 0]%Z, 3, sigs).
Proof. split; [reflexivity|]. eexists _, _. reflexivity. Qed.
Example wrapped_write_mixes_bytes :
  let self := MkRing 2 3 [0; 0; 30; 0]%Z 4 in
  exists self' sigs, ringbuffer_write_atomic self [1; 2; 3]%Z 3 = Ret (self', 3, sigs)
    /\ contents self = [30]%Z /\ contents self' = [30; 1; 1; 2]%Z.
Proof. eexists _, _. split_and!; reflexivity. Qed.

(** [ringbuffer_unread] moves the read pointer past the write pointer. *)
Example unread_passes_writer :
  let self := MkRing 6 4 [0; 1; 2; 3; 4; 5; 6; 7]%Z 8 in
  contents self = [6; 7; 0; 1; 2; 3]%Z
  /\ exists self' sigs, ringbuffer_unread self 3 = Ret (self', 3, sigs) /\ contents self' = [3]%Z.
Proof. split; [reflexivity|]. eexists _, _. split; reflexivity. Qed.

(** [ringbuffer_unwrite] of a full buffer returns 0 and loses all data; on data
    that wraps around its assertion can fail. *)
Example unwrite_full_loses_data :
  let full := MkRing 2 2 [1; 2; 3; 4]%Z 4 in
  exists self', ringbuffer_unwrite full 1 = Ret (self', 0, [])
    /\ contents full = [3; 4; 1; 2]%Z /\ contents self' = [].
Proof. eexists. split_and!; reflexivity. Qed.
Example unwrite_wrapped_panics :
  ringbuffer_unwrite (MkRing 6 5 [0; 1; 2; 3; 4; 5; 6; 7]%Z 8) 1 = Panic.
Proof. reflexivity. Qed.

(** [ringbuffer_maxwrite] of a full buffer is its size. *)
Example maxwrite_full : ringbuffer_maxwrite (MkRing 2 2 [1; 2; 3; 4]%Z 4) = 4.
Proof. reflexivity. Qed.

(** [ringbuffer_readall] peeks: it repeats the data and consumes nothing. *)
Example readall_repeats_data :
  let self := MkRing 0 2 [1; 2; 0]%Z 4 in
  ringbuffer_readall 5 self [0; 0; 0; 0]%Z 0 4 false = Ret (Some (self, [1; 2; 1; 2]%Z, 4)).
Proof. reflexivity. Qed.
