(* ===== verification/Canonbuffer.v ===== *)
(** The line buffer of terminals: [src/kernel/src/fs/canonbuffer.c].

    Characters are collected in a heap block; a finished line is captured together
    with its block, processed, and the block is given back.  The kernel heap is a
    store of blocks ([kheap]), so that ownership is visible: what the operations
    allocate, free and hand over.  One operation runs at a time. *)
From stdpp Require Import gmap.
From S2P Require Import Prelude.
#[local] Open Scope nat_scope.

(** * The heap *)
(** Allocated blocks by address; the length of a block is its size. *)
Abbreviation kheap := (gmap nat (list Z)).
Definition HEAP_ALIGN : nat := 16.
Definition is_aligned (n : nat) : bool := n mod HEAP_ALIGN =? 0.

(** What [heap_alloc_untraced] promises: a block outside of all others, at least
    as large as requested, not empty, of aligned size; [None] is [E_BADALLOC]. *)
Class CanonHeap : Type := {
  heap_alloc : kheap -> nat -> option (nat * list Z);
  heap_alloc_spec h n p blk : heap_alloc h n = Some (p, blk) ->
    h !! p = None /\ n <= length blk /\ 0 < length blk /\ is_aligned (length blk) = true;
}.
(** [heap_free_untraced] of a block that is not allocated, or with a wrong size,
    is a fatal error. *)
Definition heap_free (h : kheap) (p n : nat) : outcome kheap :=
  blk ← access (h !! p);
  kassert (length blk =? n);;
  Ret (delete p h).

(** * Canon buffers *)
Definition MAX_CANON : nat := 255.
Record canonbuffer : Type := MkCanonbuffer {
  cb_written : nat;
  cb_bufsize : nat;
  cb_buffer : nat;
  cb_bufmax : nat;
}.
Record canon : Type := MkCanon {
  c_base : nat;
  c_size : nat;
  c_alloc : nat;
}.
Definition canonbuffer_init : canonbuffer := MkCanonbuffer 0 0 0 MAX_CANON.

Definition canonbuffer_fini (h : kheap) (self : canonbuffer) : outcome kheap :=
  kassert (is_aligned (cb_bufsize self));;
  if cb_bufsize self =? 0 then Ret h else heap_free h (cb_buffer self) (cb_bufsize self).

(** [memcpy] of the first [n] bytes of block [src] into block [dst]. *)
Definition block_copy (h : kheap) (dst src n : nat) : outcome kheap :=
  if n =? 0 then Ret h else
  s ← access (h !! src);
  d ← access (h !! dst);
  kassert ((n <=? length s) && (n <=? length d));;
  Ret (<[dst := take n s ++ drop n d]> h).

Section Operations.
Context `{Heap : CanonHeap}.

(** The allocation of [canonbuffer_putc], with its second attempt. *)
Definition putc_alloc (h : kheap) (new_size written_size : nat) : outcome (kheap * nat * nat) :=
  match heap_alloc h new_size with
  | Some (p, blk) => Ret (<[p := blk]> h, p, length blk)
  | None =>
      match heap_alloc h (written_size + 1) with
      | Some (p, blk) => Ret (<[p := blk]> h, p, length blk)
      | None => Throw E_BADALLOC
      end
  end.

Fixpoint putc_again (fuel : nat) (h : kheap) (self : canonbuffer) (ch : Z)
  : outcome (kheap * canonbuffer * bool) :=
  match fuel with
  | O => Panic
  | S fuel =>
      let written_size := cb_written self in
      kassert (is_aligned (cb_bufsize self));;
      kassert (written_size <=? cb_bufsize self);;
      if written_size =? cb_bufsize self then
        let new_size := written_size * 2 in
        let new_size := if new_size =? 0 then 32 else new_size in
        let max_size := cb_bufmax self in
        let new_size := if max_size <=? new_size then max_size else new_size in
        if new_size <=? written_size then Ret (h, self, false)
        else
          '(h, p, siz) ← putc_alloc h new_size written_size;
          if siz <=? cb_bufsize self then
            h ← heap_free h p siz;
            putc_again fuel h self ch
          else
            h ← block_copy h p (cb_buffer self) (cb_written self);
            kassert (is_aligned siz);;
            h ← (if cb_bufsize self =? 0 then Ret h
                 else heap_free h (cb_buffer self) (cb_bufsize self));
            putc_again fuel h (MkCanonbuffer (cb_written self) siz p (cb_bufmax self)) ch
      else
        data ← access (h !! cb_buffer self);
        kassert (written_size <? length data);;
        Ret (<[cb_buffer self := <[written_size := ch]> data]> h,
             MkCanonbuffer (written_size + 1) (cb_bufsize self) (cb_buffer self) (cb_bufmax self), true)
  end.
(** The buffer grows at most once, then there is room. *)
Definition canonbuffer_putc := putc_again 2.

Definition canonbuffer_unputc (h : kheap) (self : canonbuffer) : outcome (canonbuffer * option Z) :=
  let old_size := cb_written self in
  if old_size =? 0 then Ret (self, None)
  else
    data ← access (h !! cb_buffer self);
    ch ← access (data !! (old_size - 1));
    Ret (MkCanonbuffer (old_size - 1) (cb_bufsize self) (cb_buffer self) (cb_bufmax self), Some ch).

Definition canonbuffer_capture (self : canonbuffer) : canonbuffer * canon :=
  (MkCanonbuffer 0 0 (cb_buffer self) (cb_bufmax self),
   MkCanon (cb_buffer self) (cb_written self) (cb_bufsize self)).

Definition canonbuffer_release (h : kheap) (self : canonbuffer) (can : canon)
  : outcome (kheap * canonbuffer) :=
  if c_alloc can =? 0 then Ret (h, self)
  else if (cb_written self =? 0) && (cb_bufsize self <? c_alloc can) then
    kassert (is_aligned (c_alloc can));;
    h ← (if cb_bufsize self =? 0 then Ret h else heap_free h (cb_buffer self) (cb_bufsize self));
    Ret (h, MkCanonbuffer (cb_written self) (c_alloc can) (c_base can) (cb_bufmax self))
  else
    h ← heap_free h (c_base can) (c_alloc can);
    Ret (h, self).

Definition canonbuffer_clone (h : kheap) (self : canonbuffer) : outcome (kheap * canon) :=
  match heap_alloc h (cb_written self) with
  | None => Throw E_BADALLOC
  | Some (p, blk) =>
      let h := <[p := blk]> h in
      h ← block_copy h p (cb_buffer self) (cb_written self);
      Ret (h, MkCanon p (cb_written self) (length blk))
  end.

(** * Ownership *)
(** A block [p] of the heap of size [n > 0] that starts with [text]. *)
Definition block_holds (h : kheap) (p n : nat) (text : list Z) : Prop :=
  length text <= n /\ (n = 0 \/ is_aligned n = true /\
    exists data, h !! p = Some data /\ length data = n /\ take (length text) data = text).

Definition buf_owns (self : canonbuffer) : list nat :=
  if cb_bufsize self =? 0 then [] else [cb_buffer self].
Definition canon_owns (c : canon) : list nat := if c_alloc c =? 0 then [] else [c_base c].

Definition outs_own (outs : list (canon * list Z)) : list nat := concat (map (fun o => canon_owns o.1) outs).

(** [outs]: the captured lines that were not released yet, with their text. *)
Record canon_ok (h : kheap) (self : canonbuffer) (outs : list (canon * list Z)) (text : list Z) : Prop := {
  co_len : cb_written self = length text;
  co_buf : block_holds h (cb_buffer self) (cb_bufsize self) text;
  co_outs : forall c t, (c, t) ∈ outs -> c_size c = length t /\ block_holds h (c_base c) (c_alloc c) t;
  co_nodup : NoDup (buf_owns self ++ outs_own outs);
  co_dom : forall p, is_Some (h !! p) <-> p ∈ buf_owns self ++ outs_own outs;
}.

Lemma outs_own_elem outs c t : (c, t) ∈ outs -> c_alloc c <> 0 -> c_base c ∈ outs_own outs.
Proof.
  intros Hin Ha. unfold outs_own. apply list_elem_of_In, in_concat. exists (canon_owns c). split.
  - apply in_map_iff. exists (c, t). split; [done|]. by apply list_elem_of_In.
  - unfold canon_owns. destruct (Nat.eqb_spec (c_alloc c) 0); [done|]. by left.
Qed.
Lemma buf_owns_some self : cb_bufsize self <> 0 -> buf_owns self = [cb_buffer self].
Proof. intros. unfold buf_owns. by destruct (Nat.eqb_spec (cb_bufsize self) 0). Qed.

(** A block is not affected by what happens to another one. *)
Lemma block_holds_insert h p n t q d : block_holds h p n t -> p <> q \/ n = 0 -> block_holds (<[q := d]> h) p n t.
Proof.
  intros [Hl [Hn|(Ha & data & Hd & Hlen & Ht)]] Hne; (split; [done|]); [by left|].
  destruct Hne as [Hne|]; [|by left]. right. split; [done|]. exists data. by rewrite lookup_insert_ne.
Qed.
Lemma block_holds_delete h p n t q : block_holds h p n t -> p <> q \/ n = 0 -> block_holds (delete q h) p n t.
Proof.
  intros [Hl [Hn|(Ha & data & Hd & Hlen & Ht)]] Hne; (split; [done|]); [by left|].
  destruct Hne as [Hne|]; [|by left]. right. split; [done|]. exists data. by rewrite lookup_delete_ne.
Qed.
Lemma outs_own_ne outs p c t :
  (c, t) ∈ outs -> p ∉ outs_own outs -> c_base c <> p \/ c_alloc c = 0.
Proof.
  intros Hin Hp. destruct (decide (c_alloc c = 0)) as [|Ha]; [by right|left]. intros <-.
  by apply Hp, (outs_own_elem outs c t).
Qed.
Lemma canon_ok_buf_outs h self outs text c t :
  canon_ok h self outs text -> cb_bufsize self <> 0 -> (c, t) ∈ outs -> c_base c <> cb_buffer self \/ c_alloc c = 0.
Proof.
  intros Hok Hb Hin. apply (outs_own_ne outs _ _ t); [done|].
  pose proof (co_nodup _ _ _ _ Hok) as Hnd. rewrite (buf_owns_some self Hb) in Hnd.
  by apply list.NoDup_cons in Hnd as [? _].
Qed.
Lemma canon_ok_fresh h self outs text p :
  canon_ok h self outs text -> h !! p = None -> p ∉ buf_owns self ++ outs_own outs.
Proof. intros Hok Hp Hin. apply (co_dom _ _ _ _ Hok) in Hin. rewrite Hp in Hin. by destruct Hin. Qed.
Lemma canon_ok_data h self outs text :
  canon_ok h self outs text -> cb_bufsize self <> 0 ->
  exists data, h !! cb_buffer self = Some data /\ length data = cb_bufsize self
    /\ take (length text) data = text /\ length text <= cb_bufsize self /\ is_aligned (cb_bufsize self) = true.
Proof.
  intros Hok Hb. destruct (co_buf _ _ _ _ Hok) as [Hl [?|(Ha & data & Hd & Hlen & Ht)]]; [done|]. eauto 10.
Qed.

(** ** Adding a character *)
Lemma putc_store h self outs text data ch :
  canon_ok h self outs text -> cb_written self < cb_bufsize self -> h !! cb_buffer self = Some data ->
  length data = cb_bufsize self /\
  canon_ok (<[cb_buffer self := <[cb_written self := ch]> data]> h)
    (MkCanonbuffer (cb_written self + 1) (cb_bufsize self) (cb_buffer self) (cb_bufmax self)) outs (text ++ [ch]).
Proof.
  intros Hok Hlt Hd. destruct (canon_ok_data _ _ _ _ Hok ltac:(lia)) as (data' & Hd' & Hlen & Ht & Hle & Ha).
  simplify_eq. split; [done|]. pose proof (co_len _ _ _ _ Hok) as Hw. split; cbn.
  - rewrite length_app. cbn. lia.
  - split; [rewrite length_app; cbn; lia|]. right. split; [done|]. eexists. rewrite lookup_insert_eq.
    split; [done|]. rewrite length_insert. split; [done|]. rewrite Hw, length_app. cbn [length].
    rewrite Nat.add_1_r. erewrite take_S_r by (rewrite list_lookup_insert_eq; [done|lia]).
    by rewrite take_insert_ge, Ht by lia.
  - intros c t Hin. destruct (co_outs _ _ _ _ Hok c t Hin) as [Hc Hb]. split; [done|].
    apply block_holds_insert; [done|]. by eapply canon_ok_buf_outs; [done|lia|].
  - exact (co_nodup _ _ _ _ Hok).
  - intros p. rewrite lookup_insert_is_Some'. rewrite (co_dom _ _ _ _ Hok p). unfold buf_owns. cbn.
    split; [|tauto]. intros [E|E]; [|done]. subst p.
    destruct (Nat.eqb_spec (cb_bufsize self) 0); [lia|]. set_solver.
Qed.

(** Replacing the block of the buffer by a new one that starts with the text. *)
Lemma new_block_ok h self outs text p data :
  canon_ok h self outs text -> h !! p = None -> is_aligned (length data) = true -> 0 < length data ->
  length text <= length data -> take (length text) data = text ->
  let h1 := <[p := data]> h in
  exists h2, (if cb_bufsize self =? 0 then Ret h1 else heap_free h1 (cb_buffer self) (cb_bufsize self)) = Ret h2
  /\ canon_ok h2 (MkCanonbuffer (cb_written self) (length data) p (cb_bufmax self)) outs text.
Proof.
  intros Hok Hp Ha Hpos Hle Ht h1. pose proof (canon_ok_fresh _ _ _ _ _ Hok Hp) as Hfresh.
  assert (Hbuf : forall h2, h2 !! p = Some data -> block_holds h2 p (length data) text).
  { intros h2 E. split; [done|]. right. split; [done|]. by exists data. }
  assert (Hown : buf_owns (MkCanonbuffer (cb_written self) (length data) p (cb_bufmax self)) = [p]).
  { apply buf_owns_some. cbn. lia. }
  assert (Hpo : forall c t, (c, t) ∈ outs -> c_base c <> p \/ c_alloc c = 0).
  { intros c t Hin. destruct (decide (c_alloc c = 0)) as [|Hca]; [by right|left]. intros <-.
    apply Hfresh, elem_of_app. right. by apply (outs_own_elem outs c t). }
  assert (Hnd : NoDup (outs_own outs)) by (pose proof (co_nodup _ _ _ _ Hok) as Hn; by apply list.NoDup_app in Hn as (_ & _ & ?)).
  assert (Hpn : p ∉ outs_own outs) by set_solver.
  destruct (Nat.eqb_spec (cb_bufsize self) 0) as [E0|E0].
  - exists h1. split; [done|]. assert (Hempty : buf_owns self = []) by (unfold buf_owns; by rewrite E0).
    split; rewrite ?Hown; cbn; [apply Hok|by apply Hbuf; unfold h1; rewrite lookup_insert_eq| |by constructor|].
    + intros c t Hin. destruct (co_outs _ _ _ _ Hok c t Hin) as [Hc Hb]. split; [done|].
      apply block_holds_insert; eauto.
    + intros q. unfold h1. rewrite lookup_insert_is_Some', (co_dom _ _ _ _ Hok q), Hempty. cbn.
      fold (outs_own outs). set_solver.
  - destruct (canon_ok_data _ _ _ _ Hok E0) as (old & Hold & Holen & _).
    assert (Hne : cb_buffer self <> p) by congruence.
    exists (delete (cb_buffer self) h1). split.
    { unfold heap_free, h1. rewrite lookup_insert_ne by done. rewrite Hold. cbn [access mbind outcome_bind].
      by rewrite Holen, Nat.eqb_refl. }
    pose proof (co_nodup _ _ _ _ Hok) as Hn. rewrite (buf_owns_some _ E0) in Hn. cbn in Hn.
    apply list.NoDup_cons in Hn as [Hni _].
    split; rewrite ?Hown; cbn; [apply Hok| | |by constructor|].
    + apply Hbuf. unfold h1. rewrite lookup_delete_ne by done. by rewrite lookup_insert_eq.
    + intros c t Hin. destruct (co_outs _ _ _ _ Hok c t Hin) as [Hc Hb]. split; [done|].
      apply block_holds_delete; [apply block_holds_insert; eauto|]. by eapply canon_ok_buf_outs.
    + intros q. rewrite lookup_delete_is_Some. unfold h1. rewrite lookup_insert_is_Some', (co_dom _ _ _ _ Hok q).
      rewrite (buf_owns_some _ E0). cbn. fold (outs_own outs) in *. set_solver.
Qed.

Lemma putc_alloc_ok h new_size written_size :
  written_size < new_size ->
  match putc_alloc h new_size written_size with
  | Ret (h', p, siz) => exists blk, h' = <[p := blk]> h /\ h !! p = None /\ siz = length blk
      /\ written_size < length blk /\ is_aligned (length blk) = true
  | Throw e => e = E_BADALLOC /\ heap_alloc h (written_size + 1) = None
  | Panic => False
  end.
Proof.
  intros Hlt. unfold putc_alloc.
  destruct (heap_alloc h new_size) as [[p blk]|] eqn:E1.
  { destruct (heap_alloc_spec _ _ _ _ E1) as (? & ? & ? & ?). exists blk. split_and!; [done..|lia|done]. }
  destruct (heap_alloc h (written_size + 1)) as [[p blk]|] eqn:E2; [|done].
  destruct (heap_alloc_spec _ _ _ _ E2) as (? & ? & ? & ?). exists blk. split_and!; [done..|lia|done].
Qed.

(** Copying the text of the buffer to a fresh block. *)
Lemma block_copy_ok h self outs text p blk :
  canon_ok h self outs text -> h !! p = None -> length text <= length blk ->
  exists data, block_copy (<[p := blk]> h) p (cb_buffer self) (cb_written self) = Ret (<[p := data]> h)
    /\ length data = length blk /\ take (length text) data = text.
Proof.
  intros Hok Hp Hle. unfold block_copy. rewrite (co_len _ _ _ _ Hok).
  destruct (Nat.eqb_spec (length text) 0) as [E0|E0].
  { exists blk. apply nil_length_inv in E0. by subst text. }
  assert (Hb : cb_bufsize self <> 0) by (destruct (co_buf _ _ _ _ Hok); lia).
  destruct (canon_ok_data _ _ _ _ Hok Hb) as (old & Hold & Holen & Ht & Hlo & _).
  rewrite (lookup_insert_ne h p (cb_buffer self)) by congruence. rewrite Hold, lookup_insert_eq. cbn [access].
  rewrite !bind_ret, bind_kassert by lia. exists (take (length text) old ++ drop (length text) blk).
  rewrite insert_insert_eq. split; [done|]. rewrite Ht. split.
  - rewrite length_app, length_drop. lia.
  - rewrite take_app_le by lia. by rewrite firstn_all.
Qed.

(** With room in the block the character is stored. *)
Lemma putc_room fuel h self outs text ch :
  canon_ok h self outs text -> cb_written self < cb_bufsize self ->
  exists h' self', putc_again (S fuel) h self ch = Ret (h', self', true)
    /\ canon_ok h' self' outs (text ++ [ch]) /\ cb_bufmax self' = cb_bufmax self.
Proof.
  intros Hok Hlt. destruct (canon_ok_data _ _ _ _ Hok ltac:(lia)) as (data & Hd & Hlen & _ & _ & Ha).
  destruct (putc_store _ _ _ _ _ ch Hok Hlt Hd) as [_ Hok']. cbn [putc_again].
  rewrite !bind_kassert by kside. replace (_ =? _) with false by lia. rewrite Hd. cbn [access].
  rewrite bind_ret, bind_kassert by lia. eauto.
Qed.

Definition putc_result (h : kheap) (self : canonbuffer) (outs : list (canon * list Z)) (text : list Z) (ch : Z)
    (r : outcome (kheap * canonbuffer * bool)) : Prop :=
  match r with
  | Ret (h', self', true) => canon_ok h' self' outs (text ++ [ch]) /\ cb_bufmax self' = cb_bufmax self
  | Ret (h', self', false) => h' = h /\ self' = self /\ cb_bufmax self <= length text
  | Throw e => e = E_BADALLOC /\ heap_alloc h (length text + 1) = None
  | Panic => False
  end.
Lemma putc_ok h self outs text ch :
  canon_ok h self outs text -> putc_result h self outs text ch (canonbuffer_putc h self ch).
Proof.
  intros Hok. pose proof (co_len _ _ _ _ Hok) as Hw. pose proof (co_buf _ _ _ _ Hok) as [Hle Hb].
  destruct (decide (cb_written self = cb_bufsize self)) as [E|E].
  2:{ destruct (putc_room 1 _ _ _ _ ch Hok ltac:(lia)) as (h' & self' & Eq & ? & ?).
      unfold canonbuffer_putc. by rewrite Eq. }
  assert (Ha : is_aligned (cb_bufsize self) = true) by (destruct Hb as [->|[? _]]; done).
  unfold canonbuffer_putc. remember 1 as fuel eqn:Ef. cbn [putc_again].
  rewrite !bind_kassert by kside. replace (cb_written self =? cb_bufsize self) with true by lia.
  set (new_size := if cb_bufmax self <=? _ then _ else _).
  destruct (Nat.leb_spec new_size (cb_written self)) as [Hfull|Hroom].
  { cbn. split_and!; [done..|]. subst new_size. repeat destr_if; lia. }
  pose proof (putc_alloc_ok h _ _ Hroom) as Hal.
  destruct (putc_alloc h new_size (cb_written self)) as [[[h1 p] siz]|e|]; [|by cbn; rewrite <- Hw|done].
  destruct Hal as (blk & -> & Hp & -> & Hlt & Hal). rewrite bind_ret.
  replace (length blk <=? cb_bufsize self) with false by lia.
  destruct (block_copy_ok _ _ _ _ _ blk Hok Hp ltac:(lia)) as (data & -> & Hlen & Ht). rewrite bind_ret.
  rewrite bind_kassert by done.
  destruct (new_block_ok _ _ _ _ _ data Hok Hp ltac:(congruence) ltac:(lia) ltac:(lia) Ht) as (h2 & -> & Hok2).
  rewrite bind_ret, <- Hlen. destruct (putc_room 0 _ _ _ _ ch Hok2 ltac:(cbn; lia)) as (h' & self' & Eq & ? & ?).
  subst fuel. by rewrite Eq.
Qed.

(** ** Removing a character *)
Lemma block_holds_prefix h p n t t' : block_holds h p n (t ++ t') -> block_holds h p n t.
Proof.
  intros [Hl Hb]. rewrite length_app in Hl. split; [lia|].
  destruct Hb as [Hb|(Ha & data & Hd & Hlen & Ht)]; [by left|]. right. split; [done|]. exists data.
  split_and!; [done..|]. apply (f_equal (take (length t))) in Ht.
  rewrite take_take, length_app, Nat.min_l in Ht by lia. rewrite take_app_le, firstn_all in Ht by lia. done.
Qed.
Lemma unputc_empty h self outs : canon_ok h self outs [] -> canonbuffer_unputc h self = Ret (self, None).
Proof. intros Hok. unfold canonbuffer_unputc. by rewrite (co_len _ _ _ _ Hok). Qed.
Lemma unputc_ok h self outs text ch :
  canon_ok h self outs (text ++ [ch]) ->
  exists self', canonbuffer_unputc h self = Ret (self', Some ch) /\ canon_ok h self' outs text
    /\ cb_bufmax self' = cb_bufmax self.
Proof.
  intros Hok. pose proof (co_len _ _ _ _ Hok) as Hw. rewrite length_app in Hw. cbn in Hw.
  assert (Hb : cb_bufsize self <> 0) by (destruct (co_buf _ _ _ _ Hok) as [Hl _]; rewrite length_app in Hl; cbn in Hl; lia).
  destruct (canon_ok_data _ _ _ _ Hok Hb) as (data & Hd & Hlen & Ht & Hle & _).
  assert (Hch : data !! (cb_written self - 1) = Some ch).
  { rewrite <- (lookup_take_lt data (length (text ++ [ch]))) by (rewrite length_app; cbn; lia).
    rewrite Ht. apply list_lookup_middle. lia. }
  unfold canonbuffer_unputc. replace (cb_written self =? 0) with false by lia.
  rewrite (bind_access _ _ _ Hd), (bind_access _ _ _ Hch). eexists. split; [done|]. split; [|done].
  split; cbn; [lia| |apply Hok..]. eapply block_holds_prefix, Hok.
Qed.

(** ** Captured lines *)
Lemma outs_own_perm outs outs' : outs ≡ₚ outs' -> outs_own outs ≡ₚ outs_own outs'.
Proof.
  unfold outs_own. induction 1 as [|o l l' _ IH|o o' l|l l' l'' _ IH1 _ IH2]; cbn; [done|by rewrite IH| |by rewrite IH1].
  rewrite !(assoc_L (++)). by rewrite (Permutation_app_comm (canon_owns o'.1)).
Qed.
Lemma canon_ok_perm h self outs outs' text :
  outs ≡ₚ outs' -> canon_ok h self outs text -> canon_ok h self outs' text.
Proof.
  intros Hp Hok. pose proof (outs_own_perm _ _ Hp) as Ho. split; [apply Hok|apply Hok| | |].
  - intros c t Hin. apply (co_outs _ _ _ _ Hok). by rewrite Hp.
  - rewrite <- Ho. apply Hok.
  - intros p. rewrite <- Ho. apply Hok.
Qed.
Lemma capture_ok h self outs text :
  canon_ok h self outs text ->
  let '(self', c) := canonbuffer_capture self in canon_ok h self' ((c, text) :: outs) [].
Proof.
  intros Hok. cbn. assert (Ho : outs_own ((MkCanon (cb_buffer self) (cb_written self) (cb_bufsize self), text) :: outs)
    = buf_owns self ++ outs_own outs) by done.
  split; cbn -[outs_own]; rewrite ?Ho; [done| | |apply Hok|apply Hok].
  - split; [done|by left].
  - intros c t [E|Hin]%elem_of_cons; [|by apply (co_outs _ _ _ _ Hok)]. simplify_eq. split; apply Hok.
Qed.

(** Freeing the block of the buffer or of a line, given the other owners. *)
Lemma heap_free_ok h p n t ps :
  block_holds h p n t -> n <> 0 -> NoDup (p :: ps) -> (forall q, is_Some (h !! q) <-> q ∈ p :: ps) ->
  heap_free h p n = Ret (delete p h) /\ NoDup ps /\ (forall q, is_Some (delete p h !! q) <-> q ∈ ps).
Proof.
  intros [_ [?|(_ & data & Hd & Hlen & _)]] Hn Hnd Hdom; [done|].
  apply list.NoDup_cons in Hnd as [Hni Hnd]. split; [|split; [done|]].
  - unfold heap_free. rewrite (bind_access _ _ _ Hd). by rewrite bind_kassert by lia.
  - intros q. rewrite lookup_delete_is_Some, Hdom. set_solver.
Qed.
Definition release_result (self : canonbuffer) (outs : list (canon * list Z)) (text : list Z) (c : canon)
    (r : outcome (kheap * canonbuffer)) : Prop :=
  exists h' self', r = Ret (h', self') /\ canon_ok h' self' outs text
    /\ cb_bufmax self' = cb_bufmax self
    /\ (text = [] -> cb_bufsize self' = cb_bufsize self `max` c_alloc c).
(** The line's block is freed. *)
Lemma release_free h self outs text c t :
  cb_written self = length text -> block_holds h (cb_buffer self) (cb_bufsize self) text ->
  (forall c' t', (c', t') ∈ outs -> c_size c' = length t' /\ block_holds h (c_base c') (c_alloc c') t') ->
  block_holds h (c_base c) (c_alloc c) t -> c_alloc c <> 0 ->
  NoDup (buf_owns self ++ [c_base c] ++ outs_own outs) ->
  (forall p, is_Some (h !! p) <-> p ∈ buf_owns self ++ [c_base c] ++ outs_own outs) ->
  (cb_written self =? 0) && (cb_bufsize self <? c_alloc c) = false ->
  release_result self outs text c (h ← heap_free h (c_base c) (c_alloc c); Ret (h, self)).
Proof.
  intros Hlen Hbuf Houts Hc E0 Hnd Hdom Ein.
  assert (Hp : buf_owns self ++ [c_base c] ++ outs_own outs ≡ₚ c_base c :: buf_owns self ++ outs_own outs)
    by (symmetry; apply Permutation_middle).
  rewrite Hp in Hnd. destruct (heap_free_ok h _ _ t _ Hc E0 Hnd) as (-> & Hnd' & Hdom').
  { intros q. by rewrite Hdom, Hp. }
  apply list.NoDup_cons in Hnd as [Hni _]. apply not_elem_of_app in Hni as [Hni1 Hni2].
  exists (delete (c_base c) h), self. split_and!; [done| |done|intros ->; cbn in Hlen; lia].
  split; [done| | |done|done].
  - apply block_holds_delete; [done|]. unfold buf_owns in Hni1.
    destruct (Nat.eqb_spec (cb_bufsize self) 0); [by right|left]. set_solver.
  - intros c' t' Hin. destruct (Houts c' t' Hin) as [? Hb]. split; [done|].
    apply block_holds_delete; [done|]. by eapply outs_own_ne.
Qed.
(** The line's block becomes the block of the empty buffer. *)
Lemma release_install h self outs c t :
  cb_written self = 0 -> block_holds h (cb_buffer self) (cb_bufsize self) [] ->
  (forall c' t', (c', t') ∈ outs -> c_size c' = length t' /\ block_holds h (c_base c') (c_alloc c') t') ->
  block_holds h (c_base c) (c_alloc c) t -> c_alloc c <> 0 ->
  NoDup (buf_owns self ++ [c_base c] ++ outs_own outs) ->
  (forall p, is_Some (h !! p) <-> p ∈ buf_owns self ++ [c_base c] ++ outs_own outs) ->
  cb_bufsize self < c_alloc c ->
  release_result self outs [] c
    (h ← (if cb_bufsize self =? 0 then Ret h else heap_free h (cb_buffer self) (cb_bufsize self));
     Ret (h, MkCanonbuffer (cb_written self) (c_alloc c) (c_base c) (cb_bufmax self))).
Proof.
  intros Hlen Hbuf Houts Hc E0 Hnd Hdom Hlt.
  set (self' := MkCanonbuffer _ _ _ _).
  assert (Hown : buf_owns self' = [c_base c]) by (by apply buf_owns_some).
  apply (block_holds_prefix _ _ _ []) in Hc.
  destruct (Nat.eqb_spec (cb_bufsize self) 0) as [Eb|Eb].
  - replace (buf_owns self) with (@nil nat) in Hnd, Hdom by (unfold buf_owns; by rewrite Eb).
    exists h, self'. split_and!; [done| |done|cbn; lia]. split; rewrite ?Hown; done.
  - rewrite (buf_owns_some self Eb) in Hnd, Hdom.
    destruct (heap_free_ok h _ _ [] _ Hbuf Eb Hnd Hdom) as (-> & Hnd' & Hdom').
    apply list.NoDup_cons in Hnd as [Hni _]. apply not_elem_of_app in Hni as [Hni1 Hni2].
    exists (delete (cb_buffer self) h), self'. split_and!; [done| |done|cbn; lia].
    split; rewrite ?Hown; [done| | |done|done].
    + apply block_holds_delete; [done|]. left. cbn. set_solver.
    + intros c' t' Hin. destruct (Houts c' t' Hin) as [? Hb]. split; [done|].
      apply block_holds_delete; [done|]. by eapply outs_own_ne.
Qed.
Lemma release_ok h self outs text c t :
  canon_ok h self ((c, t) :: outs) text ->
  release_result self outs text c (canonbuffer_release h self c).
Proof.
  intros [Hlen Hbuf Houts Hnd Hdom]. unfold canonbuffer_release.
  destruct (Houts c t) as [Hcs Hc]; [by left|].
  assert (Houts' : forall c' t', (c', t') ∈ outs -> c_size c' = length t' /\ block_holds h (c_base c') (c_alloc c') t')
    by (intros c' t' Hin; apply Houts; by right).
  change (outs_own ((c, t) :: outs)) with (canon_owns c ++ outs_own outs) in Hnd, Hdom.
  destruct (Nat.eqb_spec (c_alloc c) 0) as [E0|E0].
  { replace (canon_owns c) with (@nil nat) in Hnd, Hdom by (unfold canon_owns; by rewrite E0).
    exists h, self. split_and!; [done|by split|done|lia]. }
  replace (canon_owns c) with [c_base c] in Hnd, Hdom by (unfold canon_owns; by destruct (Nat.eqb_spec (c_alloc c) 0)).
  destruct ((cb_written self =? 0) && (cb_bufsize self <? c_alloc c)) eqn:Ein.
  - apply andb_true_iff in Ein as [Ew%Nat.eqb_eq Es%Nat.ltb_lt].
    assert (text = []) as -> by (apply nil_length_inv; lia).
    assert (Hal : is_aligned (c_alloc c) = true) by (destruct Hc as [_ [?|[? _]]]; done).
    rewrite bind_kassert by done. by apply release_install with (t := t).
  - by apply release_free with (t := t).
Qed.

(** ** Cloning *)
Lemma canon_clone_ok h self outs text :
  canon_ok h self outs text ->
  match canonbuffer_clone h self with
  | Ret (h', c) => canon_ok h' self ((c, text) :: outs) text
  | Throw e => e = E_BADALLOC /\ heap_alloc h (length text) = None
  | Panic => False
  end.
Proof.
  intros Hok. unfold canonbuffer_clone. rewrite (co_len _ _ _ _ Hok).
  destruct (heap_alloc h (length text)) as [[p blk]|] eqn:E; [|done].
  destruct (heap_alloc_spec _ _ _ _ E) as (Hp & Hle & Hpos & Ha).
  destruct (block_copy_ok _ _ _ _ _ blk Hok Hp Hle) as (data & Hcopy & Hlen & Ht).
  rewrite (co_len _ _ _ _ Hok) in Hcopy. rewrite Hcopy, bind_ret.
  pose proof (canon_ok_fresh _ _ _ _ _ Hok Hp) as Hfresh.
  assert (Ho : outs_own ((MkCanon p (length text) (length blk), text) :: outs) = p :: outs_own outs).
  { unfold outs_own, canon_owns. cbn. by destruct (Nat.eqb_spec (length blk) 0); [lia|]. }
  assert (Hperm : buf_owns self ++ p :: outs_own outs ≡ₚ p :: buf_owns self ++ outs_own outs)
    by (symmetry; apply Permutation_middle).
  split; rewrite ?Ho; [apply Hok| | | |].
  - apply block_holds_insert; [apply Hok|]. destruct (decide (cb_bufsize self = 0)) as [|Hb]; [by right|left].
    rewrite (buf_owns_some _ Hb) in Hfresh. set_solver.
  - intros c t [Eq|Hin]%elem_of_cons.
    + simplify_eq. cbn. split; [done|]. split; [done|]. right. split; [done|]. exists data.
      by rewrite lookup_insert_eq.
    + destruct (co_outs _ _ _ _ Hok c t Hin) as [? Hb]. split; [done|]. apply block_holds_insert; [done|].
      eapply outs_own_ne; [done|]. set_solver.
  - rewrite Hperm. constructor; [done|]. apply Hok.
  - intros q. rewrite lookup_insert_is_Some', (co_dom _ _ _ _ Hok q). set_solver.
Qed.

Lemma fini_ok h self text : canon_ok h self [] text -> canonbuffer_fini h self = Ret ∅.
Proof.
  intros [Hlen Hbuf _ Hnd Hdom].
  rewrite app_nil_r in Hnd, Hdom. unfold canonbuffer_fini.
  rewrite bind_kassert by (destruct Hbuf as [_ [->|[? _]]]; done).
  destruct (Nat.eqb_spec (cb_bufsize self) 0) as [E|E].
  - unfold buf_owns in Hdom. rewrite E in Hdom. f_equal. apply map_empty. intros p.
    apply eq_None_not_Some. rewrite Hdom. set_solver.
  - rewrite (buf_owns_some _ E) in Hnd, Hdom.
    destruct (heap_free_ok h _ _ text [] Hbuf E Hnd Hdom) as (-> & _ & Hd). f_equal. apply map_empty. intros p.
    apply eq_None_not_Some. rewrite Hd. set_solver.
Qed.

(** * Histories of a buffer

    The buffer, the heap and the lines its users hold; a user that releases a
    line reads it first, as the comment above [canonbuffer_capture] shows. *)
Inductive canon_op : Type := OpPut (ch : Z) | OpUnput | OpCapture | OpClone | OpRelease (i : nat).
Inductive canon_res : Type :=
| ResPut (added : bool) | ResUnput (ch : option Z) | ResDone | ResLine (line : list Z) | ResNoMem | ResNone.
Record canon_state : Type := MkCanonState {
  cs_heap : kheap;
  cs_buf : canonbuffer;
  cs_lines : list canon;
}.
Definition canon_init : canon_state := MkCanonState ∅ canonbuffer_init [].

Definition canon_bytes (h : kheap) (c : canon) : outcome (list Z) :=
  if c_size c =? 0 then Ret [] else
  data ← access (h !! c_base c);
  kassert (c_size c <=? length data);;
  Ret (take (c_size c) data).

Definition canon_do (st : canon_state) (op : canon_op) : outcome (canon_state * canon_res) :=
  let '(MkCanonState h self lines) := st in
  match op with
  | OpPut ch =>
      match canonbuffer_putc h self ch with
      | Ret (h, self, added) => Ret (MkCanonState h self lines, ResPut added)
      | Throw _ => Ret (st, ResNoMem)
      | Panic => Panic
      end
  | OpUnput =>
      '(self, ch) ← canonbuffer_unputc h self;
      Ret (MkCanonState h self lines, ResUnput ch)
  | OpCapture =>
      let '(self, c) := canonbuffer_capture self in
      Ret (MkCanonState h self (c :: lines), ResDone)
  | OpClone =>
      match canonbuffer_clone h self with
      | Ret (h, c) => Ret (MkCanonState h self (c :: lines), ResDone)
      | Throw _ => Ret (st, ResNoMem)
      | Panic => Panic
      end
  | OpRelease i =>
      match lines !! i with
      | None => Ret (st, ResNone)
      | Some c =>
          text ← canon_bytes h c;
          '(h, self) ← canonbuffer_release h self c;
          Ret (MkCanonState h self (delete i lines), ResLine text)
      end
  end.
Fixpoint canon_run (st : canon_state) (ops : list canon_op) : outcome (canon_state * list canon_res) :=
  match ops with
  | [] => Ret (st, [])
  | op :: ops =>
      '(st, r) ← canon_do st op;
      '(st, rs) ← canon_run st ops;
      Ret (st, r :: rs)
  end.

(** ** The abstract line buffer: the text being typed and the lines handed out *)
Definition line_state : Type := list Z * list (list Z).
(** The state after [op] gave [res]; [None]: not a result [op] may have. *)
Definition line_step (bufmax : nat) (s : line_state) (op : canon_op) (res : canon_res) : option line_state :=
  let '(text, lines) := s in
  match op, res with
  | OpPut ch, ResPut true => Some (text ++ [ch], lines)
  | OpPut _, ResPut false => if bufmax <=? length text then Some s else None
  | OpPut _, ResNoMem | OpClone, ResNoMem => Some s
  | OpUnput, ResUnput ch => if decide (ch = list.last text) then Some (removelast text, lines) else None
  | OpCapture, ResDone => Some ([], text :: lines)
  | OpClone, ResDone => Some (text, text :: lines)
  | OpRelease i, ResLine t => if decide (lines !! i = Some t) then Some (text, delete i lines) else None
  | OpRelease i, ResNone => if decide (lines !! i = None) then Some s else None
  | _, _ => None
  end.
Fixpoint line_run (bufmax : nat) (s : line_state) (ops : list canon_op) (rs : list canon_res) : option line_state :=
  match ops, rs with
  | [], [] => Some s
  | op :: ops, r :: rs => s ← line_step bufmax s op r; line_run bufmax s ops rs
  | _, _ => None
  end.

Definition canon_sim (bufmax : nat) (st : canon_state) (s : line_state) : Prop :=
  exists outs, canon_ok (cs_heap st) (cs_buf st) outs s.1
    /\ cs_lines st = outs.*1 /\ s.2 = outs.*2 /\ cb_bufmax (cs_buf st) = bufmax.

Lemma canon_init_sim : canon_sim MAX_CANON canon_init ([], []).
Proof.
  exists []. split_and!; [|done..]. split; cbn; [done| | |constructor|].
  - split; [done|by left].
  - intros c t Hin. set_solver.
  - intros p. rewrite lookup_empty. split; [by intros [? ?]|set_solver].
Qed.
Lemma canon_bytes_ok h self outs text c t :
  canon_ok h self outs text -> (c, t) ∈ outs -> canon_bytes h c = Ret t.
Proof.
  intros Hok Hin. destruct (co_outs _ _ _ _ Hok c t Hin) as [Hs [Hl Hb]]. unfold canon_bytes. rewrite Hs.
  destruct (Nat.eqb_spec (length t) 0) as [E|E]; [by rewrite (nil_length_inv t)|].
  destruct Hb as [?|(_ & data & Hd & Hlen & Ht)]; [lia|].
  rewrite (bind_access _ _ _ Hd). rewrite bind_kassert by lia. by rewrite Ht.
Qed.

(** One operation, simulated. *)
Lemma canon_do_sim bufmax st s op :
  canon_sim bufmax st s ->
  exists st' r s', canon_do st op = Ret (st', r) /\ line_step bufmax s op r = Some s' /\ canon_sim bufmax st' s'.
Proof.
  destruct st as [h self lines], s as [text tlines]. intros (outs & Hok & Hl & Ht & Hm).
  cbn in Hok, Hl, Ht, Hm. subst lines tlines. destruct op as [ch| | | |i]; cbn [canon_do].
  - pose proof (putc_ok _ _ _ _ ch Hok) as Hput.
    destruct (canonbuffer_putc h self ch) as [[[h' self'] []]|e|]; cbn in Hput; [| | |done].
    + destruct Hput as [Hok' Hm']. do 3 eexists. split; [done|]. split; [done|]. exists outs. split_and!; [done..|cbn; congruence].
    + destruct Hput as (-> & -> & Hfull). do 3 eexists. split; [done|]. cbn. destr_if; [|lia].
      split; [done|]. by exists outs.
    + do 3 eexists. split; [done|]. split; [done|]. by exists outs.
  - destruct text as [|ch text _] using rev_ind.
    + rewrite (unputc_empty _ _ _ Hok), bind_ret. do 3 eexists. split; [done|]. split; [done|]. by exists outs.
    + destruct (unputc_ok _ _ _ _ _ Hok) as (self' & -> & Hok' & Hm'). rewrite bind_ret.
      do 3 eexists. split; [done|]. cbn [line_step]. rewrite last_snoc, decide_True by done.
      split; [done|]. exists outs. cbn. rewrite removelast_last. split_and!; [done..|congruence].
  - pose proof (capture_ok _ _ _ _ Hok) as Hok'. cbn in Hok'. do 3 eexists. split; [done|]. split; [done|].
    by eexists (_ :: outs).
  - pose proof (canon_clone_ok _ _ _ _ Hok) as Hok'. destruct (canonbuffer_clone h self) as [[h' c]|e|]; [| |done].
    + do 3 eexists. split; [done|]. split; [done|]. by eexists (_ :: outs).
    + do 3 eexists. split; [done|]. split; [done|]. by exists outs.
  - rewrite list_lookup_fmap. destruct (outs !! i) as [[c t]|] eqn:Ei; cbn.
    + rewrite (canon_bytes_ok _ _ _ _ _ _ Hok (list_elem_of_lookup_2 _ _ _ Ei)), bind_ret.
      apply (canon_ok_perm _ _ _ _ _ (delete_Permutation _ _ _ Ei)) in Hok.
      destruct (release_ok _ _ _ _ _ _ Hok) as (h' & self' & -> & Hok' & Hm' & _). rewrite bind_ret.
      do 3 eexists. split; [done|]. cbn [line_step]. rewrite decide_True by (by rewrite list_lookup_fmap, Ei).
      split; [done|]. exists (delete i outs). cbn. rewrite !list_fmap_delete. split_and!; [done..|congruence].
    + do 3 eexists. split; [done|]. cbn [line_step]. rewrite decide_True by (by rewrite list_lookup_fmap, Ei).
      split; [done|]. by exists outs.
Qed.
Lemma canon_run_sim bufmax ops st s :
  canon_sim bufmax st s ->
  exists st' rs s', canon_run st ops = Ret (st', rs) /\ line_run bufmax s ops rs = Some s' /\ canon_sim bufmax st' s'.
Proof.
  revert st s. induction ops as [|op ops IH]; intros st s Hsim.
  { by exists st, [], s. }
  destruct (canon_do_sim _ _ _ op Hsim) as (st1 & r & s1 & Hdo & Hstep & Hsim1).
  destruct (IH _ _ Hsim1) as (st2 & rs & s2 & Hrun & Hlrun & Hsim2).
  exists st2, (r :: rs), s2. cbn [canon_run]. rewrite Hdo, bind_ret, Hrun, bind_ret.
  split; [done|]. split; [|done]. cbn. by rewrite Hstep.
Qed.

(** * Properties *)

(** C21: Every sequence of operations on a new canon buffer runs without a failed
    assertion, a bad memory access or a bad [heap_free], and its results are those
    of the abstract line buffer: characters are refused only when the text has
    reached [cb_bufmax], backspace returns the last character, and a line reads
    back as it was typed however late it is released.  Once all lines are released
    [canonbuffer_fini] leaves no block allocated. *)
Theorem canon_history_refines (ops : list canon_op) :
  exists st rs s, canon_run canon_init ops = Ret (st, rs) /\ line_run MAX_CANON ([], []) ops rs = Some s
    /\ length (cs_lines st) = length s.2
    /\ (s.2 = [] -> canonbuffer_fini (cs_heap st) (cs_buf st) = Ret ∅).
Proof.
  destruct (canon_run_sim _ ops _ _ canon_init_sim) as (st & rs & s & Hrun & Hline & outs & Hok & Hl & Ht & _).
  exists st, rs, s. split_and!; [done..|by rewrite Hl, Ht, !length_fmap|]. rewrite Ht. intros E%fmap_nil_inv.
  rewrite E in Hok. by eapply fini_ok.
Qed.

(** [canonbuffer_putc] on any well-formed buffer: the character is appended
    (growing the block when it is full), or the buffer is unchanged and holds at
    least [cb_bufmax] characters, or the allocation of a single further byte failed
    and nothing changed; it never fails otherwise. *)
Theorem canonbuffer_putc_spec h self outs text ch :
  canon_ok h self outs text -> putc_result h self outs text ch (canonbuffer_putc h self ch).
Proof. apply putc_ok. Qed.

(** Releasing a line gives its block back exactly once, keeps the text typed
    meanwhile and the other lines, and, when nothing was typed, leaves the buffer
    with the larger of the two blocks. *)
Theorem canonbuffer_release_spec h self outs text c t :
  canon_ok h self ((c, t) :: outs) text ->
  release_result self outs text c (canonbuffer_release h self c).
Proof. apply release_ok. Qed.
End Operations.

(** * Examples on a concrete heap *)
(** Addresses in turn, sizes rounded up to the alignment, at most one page. *)
Definition demo_alloc (h : kheap) (n : nat) : option (nat * list Z) :=
  let size := (n `max` 1 + 15) / 16 * 16 in
  if 4096 <? size then None else Some (fresh (dom h), replicate size 0%Z).
#[local] Program Instance demo_heap : CanonHeap := {| heap_alloc := demo_alloc |}.
Next Obligation.
  unfold demo_alloc. intros h n p blk E. destruct (Nat.ltb_spec 4096 ((n `max` 1 + 15) / 16 * 16)); simplify_eq.
  rewrite length_replicate. split_and!.
  - apply not_elem_of_dom, is_fresh.
  - pose proof (Nat.div_mod_eq (n `max` 1 + 15) 16). pose proof (Nat.mod_upper_bound (n `max` 1 + 15) 16). lia.
  - pose proof (Nat.div_mod_eq (n `max` 1 + 15) 16). pose proof (Nat.mod_upper_bound (n `max` 1 + 15) 16). lia.
  - unfold is_aligned, HEAP_ALIGN. by rewrite Nat.Div0.mod_mul.
Qed.

(** The results of a run. *)
Definition demo_results (ops : list canon_op) : option (list canon_res) :=
  match canon_run canon_init ops with Ret (_, rs) => Some rs | _ => None end.
(** "hx", backspace, "i" captured; the next line is begun before the first is released. *)
Example canon_demo : demo_results
  [OpPut 104%Z; OpPut 120%Z; OpUnput; OpPut 105%Z; OpCapture; OpPut 33%Z; OpRelease 0; OpCapture; OpRelease 0; OpUnput]
  = Some [ResPut true; ResPut true; ResUnput (Some 120%Z); ResPut true; ResDone; ResPut true;
          ResLine [104; 105]%Z; ResDone; ResLine [33]%Z; ResUnput None].
Proof. vm_compute. reflexivity. Qed.
(** A line longer than [cb_bufmax] is accepted up to the end of the block. *)
Example canon_demo_limit :
  (fun rs => (length rs, last rs ResNone, rs !! 255)) <$> demo_results (replicate 257 (OpPut 7%Z))
  = Some (257, ResPut false, Some (ResPut true)).
Proof. vm_compute. reflexivity. Qed.

(** A buffer with the text "!" and one line "hi" handed out. *)
Definition demo_h : kheap := {[ 1 := [104; 105]%Z ++ replicate 30 0%Z; 2 := 33%Z :: replicate 15 0%Z ]}.
Definition demo_buf : canonbuffer := MkCanonbuffer 1 16 2 255.
Definition demo_line : canon := MkCanon 1 2 32.
Lemma canon_demo_ok : canon_ok demo_h demo_buf [(demo_line, [104; 105]%Z)] [33]%Z.
Proof.
  split; [done| | | |].
  - split; [cbn; lia|]. right. split; [done|]. eexists. by split; [vm_compute|].
  - intros c t Hin%list_elem_of_singleton. simplify_eq. split; [done|]. split; [cbn; lia|]. right.
    split; [done|]. eexists. by split; [vm_compute|].
  - by apply (bool_decide_unpack _).
  - intros p. cbn. unfold demo_h, outs_own. cbn. rewrite lookup_insert_is_Some', lookup_singleton_is_Some. set_solver.
Qed.
Lemma canonbuffer_putc_witness :
  putc_result demo_h demo_buf [(demo_line, [104; 105]%Z)] [33]%Z 63%Z (canonbuffer_putc demo_h demo_buf 63%Z).
Proof. apply canonbuffer_putc_spec. exact canon_demo_ok. Defined.
Lemma canonbuffer_release_witness :
  release_result demo_buf [] [33]%Z demo_line (canonbuffer_release demo_h demo_buf demo_line).
Proof. apply (canonbuffer_release_spec _ _ _ _ _ [104; 105]%Z). exact canon_demo_ok. Defined.
