(* ===== verification/PacketBuffer.v ===== *)
(** Packet buffers behind sockets: [src/kernel/src/net/packetbuffer.c] and its header,
    for 32-bit pointers.

    A buffer is a power of two of bytes that are used circularly; [pb_addr] is where the
    first unread packet starts, [pb_count] the bytes of all unread packets.  A packet is
    a header of 8 bytes, the payload, and ancillary data at the next aligned address.
    [s_heap] has the answers of [kmalloc], with what the new memory holds, [s_fini] the
    ancillary data given to [pb_ancillary_fini], [s_sig] the signals, and [s_env] what
    other tasks do to the buffer while the task waits; when nothing is left the wait is
    interrupted.  [junk] is what the padding of a header on the stack holds, [fault] the
    exception of an access to user memory, if it is bad. *)
From S2P Require Import Prelude Ringbuffer.
Open Scope Z_scope.

Definition PACKET_BUFFER_ALIGNMENT : Z := 4.
Definition HEADER_SIZE : Z := 8.
Definition PBUFFER_LIMT_FMASK : Z := Z.lnot 3.
Definition PBUFFER_LIMT_FCLOSED : Z := 2.
Definition CEIL4 (x : Z) : Z := Z.land (x + (PACKET_BUFFER_ALIGNMENT - 1)) (Z.lnot (PACKET_BUFFER_ALIGNMENT - 1)).

Record packet_header : Type := MkHeader { p_total : Z; p_payload : Z; p_ancillary : Z; p_pad : Z }.
Record packetbuffer : Type := MkPb {
  pb_addr : Z;
  pb_count : Z;
  pb_base : list Z;
  pb_mask : Z;
  pb_limt : Z;
  pb_ancillary_fini : bool
}.
Inductive kmem : Type := KBlock (content : nat -> Z) | KRefused (e : error_code).
Inductive psignal : Type := SigStat | SigRead | SigStatChannel (channel : Z).
Definition PBUF_STATE_CHANNEL_EMPTY : Z := 2.
Record pst : Type := MkPst {
  s_pb : packetbuffer;
  s_heap : nat -> kmem;
  s_fini : list (list Z);
  s_sig : list psignal;
  s_env : list (packetbuffer -> packetbuffer)
}.
Notation PM := (SM pst).

Definition packetbuffer_init (limt : Z) (fini : bool) : packetbuffer :=
  MkPb 0 0 [] 0 (Z.land limt PBUFFER_LIMT_FMASK) fini.

Definition set_base (b : list Z) (p : packetbuffer) : packetbuffer :=
  MkPb (pb_addr p) (pb_count p) b (pb_mask p) (pb_limt p) (pb_ancillary_fini p).
Definition set_packets (addr count : Z) (p : packetbuffer) : packetbuffer :=
  MkPb addr count (pb_base p) (pb_mask p) (pb_limt p) (pb_ancillary_fini p).
Definition set_buffer (b : list Z) (mask : Z) (p : packetbuffer) : packetbuffer :=
  MkPb (pb_addr p) (pb_count p) b mask (pb_limt p) (pb_ancillary_fini p).
Definition set_limt (l : Z) (p : packetbuffer) : packetbuffer :=
  MkPb (pb_addr p) (pb_count p) (pb_base p) (pb_mask p) l (pb_ancillary_fini p).
Definition with_pb (p : packetbuffer) (s : pst) : pst := MkPst p (s_heap s) (s_fini s) (s_sig s) (s_env s).

Definition pb : PM packetbuffer := s ← sget; mret (s_pb s).
Definition on_pb (f : packetbuffer -> packetbuffer) : PM unit := s ← sget; sput (with_pb (f (s_pb s)) s).
Definition signal (x : psignal) : PM unit :=
  s ← sget; sput (MkPst (s_pb s) (s_heap s) (s_fini s) (s_sig s ++ [x]) (s_env s)).
Definition finalize (data : list Z) : PM unit :=
  s ← sget; sput (MkPst (s_pb s) (s_heap s) (s_fini s ++ [data]) (s_sig s) (s_env s)).
Definition kmalloc_bytes (n : Z) : PM (list Z) :=
  s ← sget;
  sput (MkPst (s_pb s) (fun i => s_heap s (S i)) (s_fini s) (s_sig s) (s_env s)) ≫= fun _ =>
  match s_heap s 0%nat with
  | KRefused e => sthrow e
  | KBlock content => mret (content <$> seq 0 (Z.to_nat n))
  end.
Definition task_wait : PM unit :=
  s ← sget;
  match s_env s with
  | [] => sthrow E_INTERRUPT
  | step :: env => sput (MkPst (step (s_pb s)) (s_heap s) (s_fini s) (s_sig s) env)
  end.

(** Accesses to a block of memory. *)
Definition read_bytes (base : list Z) (off n : Z) : outcome (list Z) :=
  kassert ((0 <=? off) && (0 <=? n) && (off + n <=? Z.of_nat (length base)));;
  Ret (take (Z.to_nat n) (drop (Z.to_nat off) base)).
Definition write_bytes (base : list Z) (off : Z) (bytes : list Z) : outcome (list Z) :=
  kassert ((0 <=? off) && (off + Z.of_nat (length bytes) <=? Z.of_nat (length base)));;
  Ret (take (Z.to_nat off) base ++ bytes ++ drop (Z.to_nat off + length bytes) base).
Definition store (off : Z) (bytes : list Z) : PM unit :=
  p ← pb; b ← slift (write_bytes (pb_base p) off bytes); on_pb (set_base b).
Definition load (off n : Z) : PM (list Z) := p ← pb; slift (read_bytes (pb_base p) off n).

Definition le16 (x : Z) : list Z := [x mod 256; x / 256 mod 256].
Definition header_bytes (h : packet_header) : list Z :=
  le16 (p_total h) ++ le16 (p_payload h) ++ le16 (p_ancillary h) ++ le16 (p_pad h).
Definition get16 (l : list Z) (i : nat) : Z := nth i l 0 + 256 * nth (S i) l 0.
(** [GETL(addr+0)] and [GETL(addr+4)] *)
Definition load_header (addr : Z) : PM packet_header :=
  p ← pb;
  w0 ← load (Z.land (addr + 0) (pb_mask p)) 4;
  w1 ← load (Z.land (addr + 4) (pb_mask p)) 4;
  mret (MkHeader (get16 w0 0) (get16 w0 2) (get16 w1 0) (get16 w1 2)).
Definition store_header (addr : Z) (h : packet_header) : PM unit :=
  p ← pb;
  store (Z.land (addr + 0) (pb_mask p)) (take 4 (header_bytes h)) ≫= fun _ =>
  store (Z.land (addr + 4) (pb_mask p)) (drop 4 (header_bytes h)).

Definition is_closed_pb (p : packetbuffer) : bool := negb (Z.land (pb_limt p) PBUFFER_LIMT_FCLOSED =? 0).
Definition packetbuffer_close : PM bool :=
  p ← pb;
  let result := negb (pb_limt p =? 0) in
  on_pb (set_limt (Z.lor (pb_limt p) PBUFFER_LIMT_FCLOSED)) ≫= fun _ =>
  (if result then signal SigStat ≫= fun _ => signal SigRead else mret tt) ≫= fun _ =>
  mret result.
Definition packetbuffer_isempty (p : packetbuffer) : bool := (pb_count p =? 0) || is_closed_pb p.
Definition packetbuffer_isnonempty (p : packetbuffer) : bool := negb (pb_count p =? 0) || is_closed_pb p.
Definition packetbuffer_isfull (p : packetbuffer) : bool :=
  (pb_mask p =? 0) || (pb_mask p + 1 <=? pb_count p) || is_closed_pb p.

(** Ancillary data that wraps around, as [PACKET_DATA_GETB] reads it. *)
Definition packet_data (addr size : Z) : PM (list Z) :=
  p ← pb;
  slift (mapM (fun i => access (pb_base p !! Z.to_nat (Z.land (addr + Z.of_nat i) (pb_mask p)))) (seq 0 (Z.to_nat size))).
Definition ancillary_addr (addr payload mask : Z) : Z :=
  Z.land (CEIL4 (addr + payload + CEIL4 HEADER_SIZE)) mask.

Fixpoint fini_loop (fuel : nat) (addr count : Z) : PM unit :=
  if count =? 0 then mret tt else
  match fuel with
  | O => fun _ => SPanic
  | S fuel =>
      p ← pb;
      h ← load_header addr;
      scheck (negb (p_total h =? 0)) ≫= fun _ =>
      scheck (p_total h <=? count) ≫= fun _ =>
      (if negb (p_ancillary h =? 0) then
         data ← packet_data (ancillary_addr addr (p_payload h) (pb_mask p)) (p_ancillary h);
         finalize data
       else mret tt) ≫= fun _ =>
      fini_loop fuel (Z.land (u16 (addr + p_total h)) (pb_mask p)) (u16 (count - p_total h))
  end.
Definition packetbuffer_fini : PM unit :=
  p ← pb;
  if pb_ancillary_fini p then fini_loop (Z.to_nat (pb_count p)) (pb_addr p) (pb_count p) else mret tt.

(** ** Writing *)
Definition limit (p : packetbuffer) : Z := Z.land (pb_limt p) PBUFFER_LIMT_FMASK.
(** The additions that are checked to stay within 16 bits. *)
Definition header_total (num_bytes ancsize : Z) : option Z :=
  if 2 ^ 16 <=? num_bytes + ancsize then None else
  if 2 ^ 16 <=? num_bytes + ancsize + (HEADER_SIZE + PACKET_BUFFER_ALIGNMENT - 1) then None else
  Some (Z.land (num_bytes + ancsize + (HEADER_SIZE + PACKET_BUFFER_ALIGNMENT - 1)) (Z.lnot (PACKET_BUFFER_ALIGNMENT - 1))).

(** [memcpy] of bytes that may cross the end of the buffer; the address behind them. *)
Definition put_split (packet_address : Z) (bytes : list Z) : PM Z :=
  p ← pb;
  let size := Z.of_nat (length bytes) in
  let high_size := u16 (pb_mask p + 1 - packet_address) in
  if high_size <? size then
    store packet_address (take (Z.to_nat high_size) bytes) ≫= fun _ =>
    store 0 (drop (Z.to_nat high_size) bytes) ≫= fun _ =>
    mret (u16 (size - high_size))
  else
    store packet_address bytes ≫= fun _ =>
    mret (Z.land (u16 (packet_address + size)) (pb_mask p)).

Section Write.
Context (junk : Z) (fault : option error_code).

Definition user_read (iov : list (list Z)) (iov_offset num_bytes : Z) : PM (list Z) :=
  match fault with
  | Some e => if num_bytes =? 0 then mret [] else sthrow e
  | None => slift (iov_read iov (Z.to_nat iov_offset) (Z.to_nat num_bytes))
  end.
Definition put_payload (packet_address : Z) (iov : list (list Z)) (iov_offset num_bytes : Z) : PM Z :=
  p ← pb;
  let high_size := u16 (pb_mask p + 1 - packet_address) in
  if num_bytes <=? high_size then
    bytes ← user_read iov iov_offset num_bytes;
    store packet_address bytes ≫= fun _ =>
    mret (Z.land (u16 (packet_address + num_bytes)) (pb_mask p))
  else
    bytes ← user_read iov iov_offset high_size;
    store packet_address bytes ≫= fun _ =>
    let packet_address := u16 (num_bytes - high_size) in
    bytes ← user_read iov (iov_offset + high_size) packet_address;
    store 0 bytes ≫= fun _ =>
    mret packet_address.
(** The packet is written behind the unread ones. *)
Definition put_packet (h : packet_header) (iov : list (list Z)) (iov_offset num_bytes : Z) (anc : list Z) : PM unit :=
  p ← pb;
  let was_empty := pb_count p =? 0 in
  let packet_address := Z.land (u16 (pb_addr p + pb_count p)) (pb_mask p) in
  packet_address ← put_split packet_address (header_bytes h);
  packet_address ← put_payload packet_address iov iov_offset num_bytes;
  (match anc with
   | [] => mret tt
   | _ => put_split (Z.land (u16 (packet_address + (PACKET_BUFFER_ALIGNMENT - 1))) (Z.lnot (PACKET_BUFFER_ALIGNMENT - 1))) anc
            ≫= fun _ => mret tt
   end) ≫= fun _ =>
  on_pb (fun p => set_packets (pb_addr p) (u16 (pb_count p + p_total h)) p) ≫= fun _ =>
  if was_empty then signal SigStat else mret tt.

Fixpoint larger_mask (fuel : nat) (new_mask count total limit : Z) : option Z :=
  if u32 (new_mask + 1 - count) <=? total then
    match fuel with
    | O => None
    | S fuel =>
        let doubled := u32 (Z.lor (Z.shiftl new_mask 1) 1) in
        if limit <=? u32 (new_mask + 1) then Some doubled else larger_mask fuel doubled count total limit
    end
  else Some new_mask.
(** The unread packets at their place in a larger buffer. *)
Definition move_packets (p : packetbuffer) (new_mask : Z) (new_buffer : list Z) : outcome (list Z) :=
  if pb_count p =? 0 then Ret new_buffer else
  old ← read_bytes (pb_base p) 0 (pb_mask p + 1);
  new_buffer ← write_bytes new_buffer 0 old;
  if pb_addr p =? 0 then Ret new_buffer else
  let additional_memory := new_mask - pb_mask p in
  let wrap_count := pb_addr p in
  if additional_memory <? wrap_count then
    let wrap_offset := wrap_count - additional_memory in
    bytes ← read_bytes (pb_base p) wrap_offset additional_memory;
    new_buffer ← write_bytes new_buffer (pb_mask p + 1) bytes;
    bytes ← read_bytes (pb_base p) additional_memory wrap_offset;
    write_bytes new_buffer 0 bytes
  else
    bytes ← read_bytes (pb_base p) 0 wrap_count;
    write_bytes new_buffer (pb_mask p + 1) bytes.
Definition grow_buffer (total : Z) : PM unit :=
  p ← pb;
  scheck (Z.land (pb_mask p + 1) (pb_mask p) =? 0) ≫= fun _ =>
  match larger_mask 33 (pb_mask p) (pb_count p) total (limit p) with
  | None => fun _ => SPanic
  | Some new_mask =>
      scheck (pb_mask p <? new_mask) ≫= fun _ =>
      new_buffer ← kmalloc_bytes (u32 (new_mask + 1));
      new_buffer ← slift (move_packets p new_mask new_buffer);
      on_pb (set_buffer new_buffer new_mask)
  end.

Inductive wresult : Type := WDone | WWait | WTooLarge.
(** From [again] on, until the packet is written or the task has to wait. *)
Fixpoint write_loop (fuel : nat) (h : packet_header) (iov : list (list Z)) (iov_offset num_bytes : Z) (anc : list Z)
    : PM wresult :=
  p ← pb;
  if limit p <? p_total h then mret WTooLarge else
  let size_avail := pb_mask p + 1 - pb_count p in
  if p_total h <=? size_avail then put_packet h iov iov_offset num_bytes anc ≫= fun _ => mret WDone else
  if limit p <? pb_mask p + 1 then mret WWait else
  match fuel with
  | O => fun _ => SPanic
  | S fuel => grow_buffer (p_total h) ≫= fun _ => write_loop fuel h iov iov_offset num_bytes anc
  end.
Fixpoint write_wait (fuel : nat) (h : packet_header) (iov : list (list Z)) (iov_offset num_bytes : Z) (anc : list Z)
    (nonblock : bool) : PM bool :=
  r ← write_loop 33 h iov iov_offset num_bytes anc;
  match r with
  | WDone => mret true
  | WTooLarge => mret false
  | WWait =>
      if nonblock then sthrow E_WOULDBLOCK else
      match fuel with
      | O => fun _ => SPanic
      | S fuel => task_wait ≫= fun _ => write_wait fuel h iov iov_offset num_bytes anc nonblock
      end
  end.

(** The loops that write the parts of a packet; [false]: a part was not written. *)
Fixpoint write_parts (fuel : nat) (write : Z -> Z -> PM Z) (max_payload written_size num_bytes : Z) : PM (Z * bool) :=
  if written_size <? num_bytes then
    match fuel with
    | O => fun _ => SPanic
    | S fuel =>
        part_size ← write written_size (Z.min max_payload (num_bytes - written_size));
        if part_size =? 0 then mret (written_size, false)
        else write_parts fuel write max_payload (written_size + part_size) num_bytes
    end
  else mret (written_size, true).
Fixpoint packetbuffer_writea_vio (fuel : nat) (iov : list (list Z)) (iov_offset num_bytes : Z) (anc : list Z)
    (nonblock split : bool) : PM Z :=
  match fuel with
  | O => fun _ => SPanic
  | S fuel =>
      let ancsize := Z.of_nat (length anc) in
      s ← sget;
      match header_total num_bytes ancsize with
      | None => mret false
      | Some total =>
          write_wait (length (s_env s) + 1) (MkHeader total (u16 num_bytes) (u16 ancsize) junk)
            iov iov_offset num_bytes anc nonblock
      end ≫= fun written : bool =>
      if written then mret num_bytes else
      p ← pb;
      let max_payload := u32 (limit p - CEIL4 HEADER_SIZE) in
      let write (off n : Z) := packetbuffer_writea_vio fuel iov (iov_offset + off) n [] nonblock split in
      if negb split then sthrow E_NET_ERROR else
      if ancsize =? 0 then
        if nonblock then sthrow E_WOULDBLOCK else
        write_parts (Z.to_nat num_bytes) write max_payload 0 num_bytes ≫= fun r : Z * bool =>
        (if snd r then scheck (fst r =? num_bytes) else mret tt) ≫= fun _ => mret (fst r)
      else if (ancsize <? u32 (ancsize + CEIL4 HEADER_SIZE + PACKET_BUFFER_ALIGNMENT)) &&
              (u32 (ancsize + CEIL4 HEADER_SIZE + PACKET_BUFFER_ALIGNMENT) <=? limit p) then
        if nonblock then sthrow E_WOULDBLOCK else
        scheck (PACKET_BUFFER_ALIGNMENT <=? num_bytes) ≫= fun _ =>
        let num_bytes := num_bytes - PACKET_BUFFER_ALIGNMENT in
        write_parts (Z.to_nat num_bytes) write max_payload 0 num_bytes ≫= fun r : Z * bool =>
        if negb (snd r) then mret (fst r) else
        scheck (fst r =? num_bytes) ≫= fun _ =>
        packetbuffer_writea_vio fuel iov (iov_offset + fst r) PACKET_BUFFER_ALIGNMENT anc nonblock split ≫= fun last =>
        mret (fst r + last)
      else sthrow E_NET_ERROR
  end.
(** [buf] is one buffer of [num_bytes] bytes. *)
Definition packetbuffer_writea (fuel : nat) (buf anc : list Z) (nonblock split : bool) : PM Z :=
  packetbuffer_writea_vio fuel [buf] 0 (Z.of_nat (length buf)) anc nonblock split.
Definition packetbuffer_writev_stream (fuel : nat) (iov : list (list Z)) (num_bytes : Z) (nonblock : bool) : PM Z :=
  n ← packetbuffer_writea_vio fuel iov 0 num_bytes [] nonblock true;
  mret (if n =? 0 then 0 else num_bytes).
End Write.

(** ** Reading *)
Definition PACKET_IO_FRDNEVER : Z := 2.
Definition PACKET_IO_FRDIFFIT : Z := 4.
Definition PACKET_IO_FRDTRUNC : Z := 8.
Definition IO_NOIOVCHECK : Z := 32768.
Definition IO_NONBLOCK : Z := 2048.
Definition flagged (mode flag : Z) : bool := negb (Z.land mode flag =? 0).

(** [*pbufsize], [*pancsize] and the bytes stored to [anc_buffer]. *)
Record rresult : Type := MkRead {
  rd_result : bool;
  rd_iov : list (list Z);
  rd_bufsize : Z;
  rd_ancsize : Z;
  rd_anc : list Z
}.

Section Read.
Context (fault : option error_code).

Definition user_write (iov : list (list Z)) (iov_offset : Z) (bytes : list Z) : PM (list (list Z)) :=
  match fault with
  | Some e => match bytes with [] => mret iov | _ => sthrow e end
  | None => slift (iov_write iov (Z.to_nat iov_offset) bytes)
  end.
Definition get_payload (payload_addr written_size : Z) (iov : list (list Z)) : PM (list (list Z)) :=
  p ← pb;
  let high_size := pb_mask p + 1 - payload_addr in
  if written_size <=? high_size then
    bytes ← load payload_addr written_size; user_write iov 0 bytes
  else
    bytes ← load payload_addr high_size;
    iov ← user_write iov 0 bytes;
    bytes ← load 0 (written_size - high_size);
    user_write iov high_size bytes.
Definition get_ancillary (addr size : Z) : PM (list Z) :=
  p ← pb;
  let high_size := Z.min (pb_mask p + 1 - addr) size in
  high ← load addr high_size;
  if high_size <? size then low ← load 0 (size - high_size); mret (high ++ low) else mret high.

(** One turn with a packet in the buffer: the result and the state to exchange, if any. *)
Definition read_packet (iov : list (list Z)) (num_bytes : Z) (anc : option Z) (packet_mode : Z)
    : PM (rresult * (Z * Z) * bool) :=
  p ← pb;
  scheck (Z.land (pb_addr p) (PACKET_BUFFER_ALIGNMENT - 1) =? 0) ≫= fun _ =>
  scheck (CEIL4 HEADER_SIZE <=? pb_count p) ≫= fun _ =>
  h ← load_header (pb_addr p);
  scheck (p_total h <=? pb_count p) ≫= fun _ =>
  scheck (Z.land (p_total h) (PACKET_BUFFER_ALIGNMENT - 1) =? 0) ≫= fun _ =>
  scheck (CEIL4 (p_payload h) + CEIL4 (p_ancillary h) + HEADER_SIZE <=? p_total h) ≫= fun _ =>
  let payload_addr := u16 (Z.land (pb_addr p + HEADER_SIZE) (pb_mask p)) in
  let written_size := Z.min (p_payload h) num_bytes in
  iov ← get_payload payload_addr written_size iov;
  let same := (pb_addr p, pb_count p) in
  if negb (flagged packet_mode PACKET_IO_FRDNEVER) && flagged packet_mode PACKET_IO_FRDIFFIT &&
     (written_size <? p_payload h) && flagged packet_mode PACKET_IO_FRDTRUNC then
    if negb (written_size =? 0) then
      let h' := MkHeader (p_total h) (u16 (p_payload h - written_size)) (p_ancillary h) (p_pad h) in
      let next := (u16 (pb_addr p + written_size), u16 (pb_count p - written_size)) in
      store_header (pb_addr p) h' ≫= fun _ =>
      on_pb (set_packets (fst next) (snd next)) ≫= fun _ =>
      mret (MkRead true iov written_size 0 [], next, false)
    else mret (MkRead true iov (p_payload h) 0 [], same, false)
  else
  let result := negb (flagged packet_mode PACKET_IO_FRDNEVER) &&
                negb (flagged packet_mode PACKET_IO_FRDIFFIT && (written_size <? p_payload h)) in
  let next := if result
              then (Z.land (u16 (pb_addr p + p_total h)) (pb_mask p), u16 (pb_count p - p_total h)) else same in
  if result && negb (p_ancillary h =? 0) then
    let addr := ancillary_addr (pb_addr p) (p_payload h) (pb_mask p) in
    match anc with
    | Some ancavail =>
        if ancavail <? p_ancillary h then mret (MkRead false iov (p_payload h) (p_ancillary h) [], next, false) else
        data ← get_ancillary addr (p_ancillary h);
        mret (MkRead true iov (p_payload h) (p_ancillary h) data, next, true)
    | None =>
        (if pb_ancillary_fini p then
           store (Z.land (pb_addr p + 4) (pb_mask p)) (le16 0) ≫= fun _ =>
           data ← packet_data addr (p_ancillary h); finalize data
         else mret tt) ≫= fun _ =>
        mret (MkRead true iov (p_payload h) 0 [], next, true)
    end
  else mret (MkRead result iov (p_payload h) 0 [], next, true).

Fixpoint read_wait (fuel : nat) (iov : list (list Z)) (num_bytes : Z) (anc : option Z) (nonblock : bool)
    (packet_mode : Z) : PM rresult :=
  p ← pb;
  if pb_count p =? 0 then
    if is_closed_pb p then mret (MkRead false iov 0 0 []) else
    if nonblock then sthrow E_WOULDBLOCK else
    match fuel with
    | O => fun _ => SPanic
    | S fuel => task_wait ≫= fun _ => read_wait fuel iov num_bytes anc nonblock packet_mode
    end
  else
    rn ← read_packet iov num_bytes anc packet_mode;
    let '(r, next, exchange) := rn in
    (if exchange : bool then on_pb (set_packets (fst next) (snd next)) else mret tt) ≫= fun _ =>
    signal SigRead ≫= fun _ =>
    (if snd next =? 0 then signal (SigStatChannel PBUF_STATE_CHANNEL_EMPTY) else mret tt) ≫= fun _ =>
    mret r.
Definition packetbuffer_readva (iov : list (list Z)) (num_bytes : Z) (anc : option Z) (nonblock : bool)
    (packet_mode : Z) : PM rresult :=
  s ← sget; read_wait (length (s_env s) + 1) iov num_bytes anc nonblock packet_mode.
(** [IO_NOIOVCHECK] is passed with the flags of the packet buffer. *)
Definition packetbuffer_reada (buf : list Z) (anc : option Z) (nonblock : bool) (packet_mode : Z) : PM rresult :=
  packetbuffer_readva [buf] (Z.of_nat (length buf)) anc nonblock (Z.lor packet_mode IO_NOIOVCHECK).
Fixpoint readv_stream_loop (fuel : nat) (iov : list (list Z)) (num_bytes : Z) (nonblock : bool) (packet_mode : Z)
    : PM (prod Z (list (list Z))) :=
  mbind (M := PM) (A := rresult) (B := prod Z (list (list Z))) (fun r =>
  if negb (rd_result r) then mret (0, rd_iov r) else
  if rd_bufsize r =? 0 then
    match fuel with
    | O => fun _ => SPanic
    | S fuel => readv_stream_loop fuel (rd_iov r) num_bytes nonblock packet_mode
    end
  else mret (num_bytes, rd_iov r)) (packetbuffer_readva iov num_bytes None nonblock packet_mode).
Definition packetbuffer_readv_stream (fuel : nat) (iov : list (list Z)) (num_bytes : Z) (nonblock : bool) (packet_mode : Z)
    : PM (Z * list (list Z)) :=
  scheck ((packet_mode =? PACKET_IO_FRDNEVER) || (packet_mode =? Z.lor PACKET_IO_FRDIFFIT PACKET_IO_FRDTRUNC)) ≫= fun _ =>
  readv_stream_loop fuel iov num_bytes nonblock packet_mode.
(** The first assertion is about [mode]. *)
Definition packetbuffer_read_stream (fuel : nat) (buf : list Z) (mode packet_mode : Z) : PM (prod Z (list (list Z))) :=
  scheck ((mode =? PACKET_IO_FRDNEVER) || (mode =? Z.lor PACKET_IO_FRDIFFIT PACKET_IO_FRDTRUNC)) ≫= fun _ =>
  packetbuffer_readv_stream fuel [buf] (Z.of_nat (length buf)) (flagged mode IO_NONBLOCK) (Z.lor packet_mode IO_NOIOVCHECK).
End Read.
