(* ===== verification/PacketCopy.v ===== *)
(** Copies into packet buffers and the packets they make.

    [byte_at] and [cyc] read a buffer circularly; [patched] is the effect of a copy into
    it.  [holds p q]: the unread bytes of [p] encode the packets [q]; [put_packet_ok]: a
    packet is stored behind them. *)
From S2P Require Import Prelude Ringbuffer PacketBuffer.
Open Scope Z_scope.

(** ** Circular buffers *)
Definition bsize (base : list Z) : Z := Z.of_nat (length base).
Definition byte_at (base : list Z) (x : Z) : Z := nth (Z.to_nat (x mod bsize base)) base 0.
Definition cyc (base : list Z) (a : Z) (n : nat) : list Z := (fun i => byte_at base (a + Z.of_nat i)) <$> seq 0 n.
Definition patched (base base' : list Z) (a : Z) (bs : list Z) : Prop :=
  length base' = length base /\
  forall x, byte_at base' x =
    if decide ((x - a) mod bsize base < bsize bs) then nth (Z.to_nat ((x - a) mod bsize base)) bs 0 else byte_at base x.

Lemma cyc_length base a n : length (cyc base a n) = n.
Proof. unfold cyc. by rewrite length_fmap, length_seq. Qed.
Lemma cyc_lookup base a n i : (i < n)%nat -> cyc base a n !! i = Some (byte_at base (a + Z.of_nat i)).
Proof. intros Hi. unfold cyc. rewrite list_lookup_fmap, lookup_seq_lt by done. done. Qed.
Lemma cyc_eq base a n (l : list Z) :
  length l = n -> (forall i, (i < n)%nat -> byte_at base (a + Z.of_nat i) = nth i l 0) -> cyc base a n = l.
Proof.
  intros Hl Hi. apply list_eq_same_length with (n := n); [done|by rewrite cyc_length|].
  intros i x y Hlt Hx Hy. rewrite cyc_lookup in Hx by done. injection Hx as <-. rewrite Hi by done.
  by apply nth_lookup_Some.
Qed.
Lemma cyc_ext base base' a a' n :
  (forall i, (i < n)%nat -> byte_at base (a + Z.of_nat i) = byte_at base' (a' + Z.of_nat i)) -> cyc base a n = cyc base' a' n.
Proof. intros H. apply list_fmap_ext. intros i x [-> ?]%lookup_seq. by apply H. Qed.
Lemma cyc_app base a m n : cyc base a (m + n) = cyc base a m ++ cyc base (a + Z.of_nat m) n.
Proof.
  apply list_eq. intros i. destruct (decide (i < m + n)%nat) as [Hi|Hi].
  - rewrite cyc_lookup by done. destruct (decide (i < m)%nat) as [Hm|Hm].
    + rewrite lookup_app_l by (by rewrite cyc_length). by rewrite cyc_lookup.
    + rewrite lookup_app_r by (rewrite cyc_length; lia). rewrite cyc_length, cyc_lookup by lia. do 2 f_equal. lia.
  - rewrite !lookup_ge_None_2; [done|rewrite length_app, !cyc_length; lia|rewrite cyc_length; lia].
Qed.
Lemma byte_at_shift base x k : byte_at base (x + k * bsize base) = byte_at base x.
Proof. unfold byte_at. by rewrite Z_mod_plus_full. Qed.
Lemma cyc_shift base a k n : cyc base (a + k * bsize base) n = cyc base a n.
Proof. apply cyc_ext. intros i _. rewrite <- (byte_at_shift base (a + _) k). f_equal. lia. Qed.
Lemma cyc_mod base a n : 0 < bsize base -> cyc base (a mod bsize base) n = cyc base a n.
Proof.
  intros H. rewrite <- (cyc_shift base (a mod bsize base) (a / bsize base)). f_equal.
  pose proof (Z.div_mod a (bsize base)). lia.
Qed.
Lemma byte_at_small base x : 0 <= x < bsize base -> byte_at base x = nth (Z.to_nat x) base 0.
Proof. intros H. unfold byte_at. by rewrite Z.mod_small. Qed.
Lemma cyc_linear base a n : 0 <= a -> a + Z.of_nat n <= bsize base ->
  cyc base a n = take n (drop (Z.to_nat a) base).
Proof.
  unfold bsize. intros Ha Hn. apply cyc_eq; [rewrite length_take, length_drop; lia|]. intros i Hi.
  rewrite byte_at_small by (unfold bsize; lia). rewrite !nth_lookup, lookup_take_lt, lookup_drop by done. do 2 f_equal. lia.
Qed.

(** Remainders of nearby numbers. *)
Lemma mod_step r n d : 0 < n -> 0 <= d <= n ->
  (r - d) mod n = if decide (d <= r mod n) then r mod n - d else r mod n - d + n.
Proof.
  intros Hn Hd. pose proof (Z.mod_pos_bound r n Hn). pose proof (Z.div_mod r n).
  destruct (decide _).
  - symmetry. apply Z.mod_unique with (q := r / n); lia.
  - symmetry. apply Z.mod_unique with (q := r / n - 1); lia.
Qed.
Lemma patched_shift base base' a bs k : patched base base' (a + k * bsize base) bs <-> patched base base' a bs.
Proof.
  unfold patched. split; intros [? Hb]; (split; [done|]); intros x; rewrite Hb.
  - replace (x - (a + k * bsize base)) with (x - a + (- k) * bsize base) by lia. by rewrite Z_mod_plus_full.
  - replace (x - (a + k * bsize base)) with (x - a + (- k) * bsize base) by lia. by rewrite Z_mod_plus_full.
Qed.
Lemma patched_same base a n : 0 < bsize base -> patched base base a (cyc base a n).
Proof.
  intros Hp. split; [done|]. intros x. destruct (decide _) as [Hlt|]; [|done].
  assert (Ec : bsize (cyc base a n) = Z.of_nat n) by (unfold bsize; by rewrite cyc_length). rewrite Ec in Hlt.
  pose proof (Z.mod_pos_bound (x - a) (bsize base) Hp).
  assert (E : cyc base a n !! Z.to_nat ((x - a) mod bsize base) = Some (byte_at base x)).
  { rewrite cyc_lookup by lia. f_equal. rewrite Z2Nat.id by lia. unfold byte_at. do 2 f_equal.
    rewrite Zplus_mod_idemp_r. f_equal. lia. }
  symmetry. by apply nth_lookup_Some.
Qed.
Lemma bsize_app bs bs' : bsize (bs ++ bs') = bsize bs + bsize bs'.
Proof. unfold bsize. rewrite length_app. lia. Qed.
Lemma patched_app base b1 b2 a bs1 bs2 :
  0 < bsize base -> bsize bs1 + bsize bs2 <= bsize base ->
  patched base b1 a bs1 -> patched b1 b2 (a + bsize bs1) bs2 -> patched base b2 a (bs1 ++ bs2).
Proof.
  intros Hp Hle [Hl1 H1] [Hl2 H2]. assert (Hs : bsize b1 = bsize base) by (unfold bsize; by rewrite Hl1).
  rewrite Hs in H2. split; [by rewrite Hl2|]. intros x. rewrite H2, H1, bsize_app.
  assert (0 <= bsize bs1) by (unfold bsize; lia). assert (0 <= bsize bs2) by (unfold bsize; lia).
  pose proof (Z.mod_pos_bound (x - a) (bsize base) Hp). rewrite Z.sub_add_distr, mod_step by lia.
  set (r := (x - a) mod bsize base) in *. rewrite !nth_lookup. destruct (decide (bsize bs1 <= r)).
  - destruct (decide (r - bsize bs1 < bsize bs2)).
    + rewrite decide_True by lia. rewrite lookup_app_r by (unfold bsize in *; lia). do 2 f_equal. unfold bsize in *. lia.
    + rewrite !decide_False by lia. done.
  - rewrite decide_False by lia. rewrite !decide_True by lia. by rewrite lookup_app_l by (unfold bsize in *; lia).
Qed.
(** What is read where bytes were copied to, and elsewhere. *)
Lemma patched_cyc base base' a bs : 0 < bsize base -> bsize bs <= bsize base -> patched base base' a bs ->
  cyc base' a (length bs) = bs.
Proof.
  intros Hp Hle [Hl H]. apply cyc_eq; [done|]. intros i Hi. rewrite H.
  replace (a + Z.of_nat i - a) with (Z.of_nat i) by lia. unfold bsize in *. rewrite Z.mod_small by lia.
  rewrite decide_True by lia. by rewrite Nat2Z.id.
Qed.
Lemma patched_other base base' a bs b n :
  0 < bsize base -> a + bsize bs <= b -> b + Z.of_nat n <= a + bsize base -> patched base base' a bs ->
  cyc base' b n = cyc base b n.
Proof.
  intros Hp Hb Hn [Hl H]. apply cyc_ext. intros i Hi. rewrite H. rewrite Z.mod_small by (unfold bsize in *; lia).
  by rewrite decide_False by lia.
Qed.
Lemma write_patched base off bs : 0 < bsize base -> 0 <= off -> off + bsize bs <= bsize base ->
  exists base', write_bytes base off bs = Ret base' /\ patched base base' off bs.
Proof.
  intros Hp Ho Hle. unfold write_bytes, bsize in *. rewrite bind_kassert by lia. eexists. split; [reflexivity|].
  assert (Hlen : length (take (Z.to_nat off) base ++ bs ++ drop (Z.to_nat off + length bs) base) = length base).
  { rewrite !length_app, length_take, length_drop. lia. }
  split; [done|]. intros x. unfold byte_at, bsize. rewrite Hlen.
  rewrite mod_step by lia. set (j := x mod Z.of_nat (length base)).
  pose proof (Z.mod_pos_bound x (Z.of_nat (length base)) ltac:(lia)). fold j in H. rewrite !nth_lookup.
  assert (Ht : length (take (Z.to_nat off) base) = Z.to_nat off) by (rewrite length_take; lia).
  destruct (decide (off <= j)).
  - rewrite lookup_app_r by lia. rewrite Ht. destruct (decide (j - off < Z.of_nat (length bs))).
    + rewrite lookup_app_l by lia. do 2 f_equal. lia.
    + rewrite lookup_app_r by lia. rewrite lookup_drop. do 2 f_equal. lia.
  - rewrite decide_False by lia. rewrite lookup_app_l, lookup_take_lt by lia. done.
Qed.
Lemma read_cyc base off n : 0 <= off -> 0 <= n -> off + n <= bsize base ->
  read_bytes base off n = Ret (cyc base off (Z.to_nat n)).
Proof. intros ???. unfold read_bytes, bsize in *. rewrite bind_kassert by lia. rewrite cyc_linear; [done|lia|unfold bsize; lia]. Qed.

(** ** Copies into the buffer *)
Record ring_ok (p : packetbuffer) : Prop := {
  ro_pow : exists k, 3 <= k <= 15 /\ bsize (pb_base p) = 2 ^ k;
  ro_mask : pb_mask p = bsize (pb_base p) - 1;
  ro_addr : 0 <= pb_addr p < bsize (pb_base p) /\ pb_addr p mod 4 = 0;
  ro_count : 0 <= pb_count p <= bsize (pb_base p) /\ pb_count p mod 4 = 0
}.
Lemma ring_bounds p : ring_ok p -> 8 <= bsize (pb_base p) <= 32768 /\ bsize (pb_base p) mod 4 = 0.
Proof.
  intros [(k&Hk&->) _ _ _]. pose proof (Z.pow_le_mono_r 2 3 k). pose proof (Z.pow_le_mono_r 2 k 15).
  split; [lia|]. replace k with (k - 2 + 2) by lia. rewrite Z.pow_add_r by lia. apply Z.mod_mul. done.
Qed.
Lemma ring_land p x : ring_ok p -> Z.land x (pb_mask p) = x mod bsize (pb_base p).
Proof. intros [(k&Hk&E) Em _ _]. rewrite Em, E. apply land_low. lia. Qed.
Lemma u16_small z : 0 <= z < 65536 -> u16 z = z.
Proof. apply (wrap_small 16). Qed.

Definition with_base (b : list Z) (s : pst) : pst := with_pb (set_base b (s_pb s)) s.
Definition base_of (s : pst) : list Z := pb_base (s_pb s).
Definition stored (s : pst) (a : Z) (bs : list Z) (s' : pst) : Prop :=
  exists b, s' = with_base b s /\ patched (base_of s) b a bs.
Lemma set_base_id s : set_base (base_of s) (s_pb s) = s_pb s.
Proof. by destruct s as [[] ? ? ? ?]. Qed.
Lemma with_base_id s : with_base (base_of s) s = s.
Proof. by destruct s as [[] ? ? ? ?]. Qed.
Lemma stored_length s a bs s' : stored s a bs s' -> bsize (base_of s') = bsize (base_of s).
Proof. intros (b&->&Hl&_). unfold bsize. by rewrite <- Hl. Qed.
Lemma stored_ring s a bs s' : stored s a bs s' -> ring_ok (s_pb s) -> ring_ok (s_pb s').
Proof.
  intros Hst [Hp Hm Ha Hc]. pose proof (stored_length _ _ _ _ Hst) as E. unfold base_of in E.
  destruct Hst as (b&->&_). cbn in *. split; cbn; by rewrite ?E.
Qed.
Lemma stored_app s s1 s2 a bs1 bs2 :
  0 < bsize (base_of s) -> bsize bs1 + bsize bs2 <= bsize (base_of s) ->
  stored s a bs1 s1 -> stored s1 (a + bsize bs1) bs2 s2 -> stored s a (bs1 ++ bs2) s2.
Proof.
  intros Hp Hle (b1&->&H1) (b2&->&H2). exists b2. split; [done|]. by eapply patched_app.
Qed.
Lemma stored_shift s a k bs s' : stored s (a + k * bsize (base_of s)) bs s' <-> stored s a bs s'.
Proof. unfold stored. by setoid_rewrite patched_shift. Qed.
Lemma stored_mod s a bs s' : 0 < bsize (base_of s) -> stored s (a mod bsize (base_of s)) bs s' <-> stored s a bs s'.
Proof.
  intros Hp. rewrite <- (stored_shift s (a mod _) (a / bsize (base_of s))).
  replace (a mod bsize (base_of s) + a / bsize (base_of s) * bsize (base_of s)) with a; [done|].
  pose proof (Z.div_mod a (bsize (base_of s))). lia.
Qed.
Lemma stored_refl s a n : 0 < bsize (base_of s) -> stored s a (cyc (base_of s) a n) s.
Proof. intros Hp. exists (base_of s). split; [by rewrite with_base_id|by apply patched_same]. Qed.

Section Copies.
Context (R : error_code -> pst -> Prop).
Lemma run_pb {A} s (f : packetbuffer -> PM A) Q : srun (f (s_pb s)) s Q R -> srun (pb ≫= f) s Q R.
Proof. intros H. exact H. Qed.
Lemma run_seq {A B} (m : PM A) (f : A -> PM B) s P Q :
  srun m s P R -> (forall a s', P a s' -> srun (f a) s' Q R) -> srun (m ≫= f) s Q R.
Proof. intros H Hf. apply srun_bind. by eapply srun_mono; [exact H|exact Hf|]. Qed.
Lemma store_ok s off bs : 0 < bsize (base_of s) -> 0 <= off -> off + bsize bs <= bsize (base_of s) ->
  srun (store off bs) s (fun _ => stored s off bs) R.
Proof.
  intros Hp Ho Hle. destruct (write_patched (base_of s) off bs Hp Ho Hle) as (b&E&Hb). unfold store. apply run_pb.
  apply srun_bind. apply (srun_lift _ _ _ _ b E). by exists b.
Qed.
Lemma load_ok s off n Q : 0 <= off -> 0 <= n -> off + n <= bsize (base_of s) ->
  Q (cyc (base_of s) off (Z.to_nat n)) s -> srun (load off n) s Q R.
Proof. intros ??? HQ. unfold load. apply run_pb. eapply srun_lift; [by apply read_cyc|done]. Qed.

(** [at_end s a r]: the address [r] stands for [a]. *)
Definition stands (s : pst) (a r : Z) : Prop := r mod bsize (base_of s) = a mod bsize (base_of s) /\ 0 <= r <= bsize (base_of s).
Lemma put_split_ok s a x bs :
  ring_ok (s_pb s) -> stands s x a -> bsize bs <= bsize (base_of s) ->
  srun (put_split a bs) s (fun r s' => stored s x bs s' /\ stands s (x + bsize bs) r) R.
Proof.
  intros Hr [Hx Ha] Hle. pose proof (ring_bounds _ Hr) as [Hb _]. fold (base_of s) in Hb. unfold put_split. apply run_pb.
  rewrite (ro_mask _ Hr). fold (base_of s). replace (bsize (base_of s) - 1 + 1 - a) with (bsize (base_of s) - a) by lia.
  cbv zeta. rewrite u16_small by lia. set (N := bsize (base_of s)) in *. change (Z.of_nat (length bs)) with (bsize bs).
  assert (Hfin : forall s', stored s a bs s' -> stored s x bs s').
  { intros s'. rewrite <- (stored_mod s a), <- (stored_mod s x) by (fold N; lia). fold N. by rewrite Hx. }
  destruct (Z.ltb_spec (N - a) (bsize bs)) as [Hlt|Hge].
  - assert (Ht : bsize (take (Z.to_nat (N - a)) bs) = N - a) by (unfold bsize in *; rewrite length_take; lia).
    assert (Hd : bsize (drop (Z.to_nat (N - a)) bs) = bsize bs - (N - a)) by (unfold bsize in *; rewrite length_drop; lia).
    eapply run_seq; [apply store_ok; [lia|lia|rewrite Ht; lia]|]. intros [] s1 H1.
    pose proof (stored_length _ _ _ _ H1) as E1. eapply run_seq; [apply store_ok; rewrite ?E1; [lia|lia|rewrite Hd; lia]|].
    intros [] s2 H2. apply srun_ret. split.
    + apply Hfin. rewrite <- (take_drop (Z.to_nat (N - a)) bs). eapply stored_app; [lia|rewrite Ht, Hd; lia|exact H1|].
      rewrite Ht. replace (a + (N - a)) with (0 + 1 * bsize (base_of s1)) by (rewrite E1; lia). by apply stored_shift.
    + assert (0 <= bsize bs) by (unfold bsize; lia). rewrite u16_small by lia. split; [|fold N; lia]. fold N.
      rewrite (Zplus_mod x), <- Hx, <- Zplus_mod. replace (a + bsize bs) with (bsize bs - (N - a) + 1 * N) by lia.
      by rewrite Z_mod_plus_full.
  - eapply run_seq; [apply store_ok; lia|]. intros [] s1 H1. apply srun_ret. split; [by apply Hfin|].
    assert (0 <= bsize bs) by (unfold bsize; lia).
    replace (N - 1) with (pb_mask (s_pb s)) by apply (ro_mask _ Hr). rewrite u16_small, (ring_land _ _ Hr) by lia. fold (base_of s).
    fold N. pose proof (Z.mod_pos_bound (a + bsize bs) N ltac:(lia)). split; [|fold N; lia]. fold N. rewrite Zmod_mod.
    by rewrite (Zplus_mod x), <- Hx, <- Zplus_mod.
Qed.

(** Bytes of a user buffer that are copied in two pieces when they cross the end of the
    packet buffer, [k] bytes ahead: the second copy starts at the first byte again. *)
Lemma iov_read_at buf off n : (off + n <= length buf)%nat -> iov_read [buf] off n = Ret (take n buf).
Proof.
  intros Hn. destruct (Nat.eqb_spec off 0) as [->|Ho]; [apply iov_read_single; lia|]. unfold iov_read.
  destruct (Nat.eqb_spec off 0); [done|].
  assert (E : iov_skip off (length buf) off = Ret off)
    by (destruct off; cbn [iov_skip]; rewrite (proj2 (Nat.leb_le _ _)) by lia; done).
  rewrite E, bind_ret. cbn zeta. rewrite Nat.min_r, Nat.sub_diag by lia. cbn. by rewrite app_nil_r.
Qed.
Lemma iov_write_at buf off src : (off + length src <= length buf)%nat -> iov_write [buf] off src = Ret [src ++ drop (length src) buf].
Proof.
  intros Hn. destruct (Nat.eqb_spec off 0) as [->|Ho]; [apply iov_write_single; lia|]. unfold iov_write.
  destruct (Nat.eqb_spec off 0); [done|].
  assert (E : iov_skip off (length buf) off = Ret off)
    by (destruct off; cbn [iov_skip]; rewrite (proj2 (Nat.leb_le _ _)) by lia; done).
  rewrite E, bind_ret. cbn zeta. rewrite Nat.min_r, drop_all by lia. cbn. by rewrite take_ge by lia.
Qed.
Definition copied (k : Z) (buf : list Z) : list Z :=
  if decide (bsize buf <= k) then buf else take (Z.to_nat k) buf ++ take (Z.to_nat (bsize buf - k)) buf.
Lemma copied_length k buf : 0 <= k -> bsize (copied k buf) = bsize buf.
Proof. intros Hk. unfold copied, bsize in *. destruct (decide _); [done|]. rewrite length_app, !length_take. lia. Qed.
Lemma user_read_ok fault s buf off n Q :
  0 <= off -> 0 <= n -> off + n <= bsize buf ->
  Q (take (Z.to_nat n) buf) s -> (forall e, fault = Some e -> R e s) ->
  srun (user_read fault [buf] off n) s Q R.
Proof.
  unfold bsize. intros ??? HQ HR. unfold user_read. destruct fault as [e|].
  - destruct (Z.eqb_spec n 0) as [->|]; [by apply srun_ret|]. apply srun_throw. by apply HR.
  - eapply srun_lift; [apply iov_read_at; lia|done].
Qed.
Lemma put_payload_ok fault s a x buf :
  ring_ok (s_pb s) -> stands s x a -> bsize buf <= bsize (base_of s) ->
  (forall e s' bs, fault = Some e -> bsize bs <= bsize buf -> stored s x bs s' -> R e s') ->
  srun (put_payload fault a [buf] 0 (bsize buf)) s
    (fun r s' => stored s x (copied (bsize (base_of s) - a) buf) s' /\ stands s (x + bsize buf) r) R.
Proof.
  intros Hr Hst Hle HR. pose proof (ring_bounds _ Hr) as [Hb _]. fold (base_of s) in Hb. destruct Hst as [Hx Ha].
  assert (Hb0 : 0 <= bsize buf) by (unfold bsize; lia).
  unfold put_payload. apply run_pb. rewrite (ro_mask _ Hr). fold (base_of s). set (N := bsize (base_of s)) in *.
  replace (N - 1 + 1 - a) with (N - a) by lia. cbv zeta. rewrite u16_small by lia.
  assert (Hfin : forall bs s', stored s a bs s' -> stored s x bs s').
  { intros bs s'. rewrite <- (stored_mod s a), <- (stored_mod s x) by (fold N; lia). fold N. by rewrite Hx. }
  assert (Hnone : forall e, fault = Some e -> R e s).
  { intros e He. apply (HR e s []); [done|unfold bsize in *; cbn in *; lia|]. apply (stored_refl s x 0). fold N. lia. }
  unfold copied. destruct (Z.leb_spec (bsize buf) (N - a)) as [Hfit|Hcross].
  - rewrite decide_True by lia. eapply run_seq; [apply (user_read_ok _ _ _ _ _ (fun b s' => b = buf /\ s' = s)); [lia..| |done]|].
    { split; [|done]. apply take_ge. unfold bsize. lia. }
    intros b s' [-> ->]. eapply run_seq; [apply store_ok; fold N; lia|]. intros [] s1 H1. apply srun_ret.
    split; [by apply Hfin|]. replace (N - 1) with (pb_mask (s_pb s)) by apply (ro_mask _ Hr).
    rewrite u16_small, (ring_land _ _ Hr) by lia. fold (base_of s). fold N.
    pose proof (Z.mod_pos_bound (a + bsize buf) N ltac:(lia)). split; [|fold N; lia]. fold N. rewrite Zmod_mod.
    by rewrite (Zplus_mod x), <- Hx, <- Zplus_mod.
  - rewrite decide_False by lia. set (t1 := take (Z.to_nat (N - a)) buf). set (t2 := take (Z.to_nat (bsize buf - (N - a))) buf).
    assert (L1 : bsize t1 = N - a) by (unfold t1, bsize in *; rewrite length_take; lia).
    assert (L2 : bsize t2 = bsize buf - (N - a)) by (unfold t2, bsize in *; rewrite length_take; lia).
    rewrite u16_small by lia.
    eapply run_seq; [apply (user_read_ok _ _ _ _ _ (fun b s' => b = t1 /\ s' = s)); [lia..|done|done]|].
    intros b s' [-> ->]. eapply run_seq; [apply store_ok; fold N; lia|]. intros [] s1 H1.
    pose proof (stored_length _ _ _ _ H1) as E1. fold N in E1.
    eapply run_seq; [apply (user_read_ok _ _ _ _ _ (fun b s' => b = t2 /\ s' = s1)); [lia..|done|]|].
    { intros e He. eapply HR; [done| |by apply Hfin]. lia. }
    intros b s' [-> ->]. eapply run_seq; [apply store_ok; rewrite ?E1; lia|]. intros [] s2 H2. apply srun_ret. split.
    + apply Hfin. eapply stored_app; [fold N; lia|fold N; lia|exact H1|].
      rewrite L1. replace (a + (N - a)) with (0 + 1 * bsize (base_of s1)) by lia. by apply stored_shift.
    + split; [|fold N; lia]. fold N. rewrite (Zplus_mod x), <- Hx, <- Zplus_mod.
      replace (a + bsize buf) with (bsize buf - (N - a) + 1 * N) by lia. by rewrite Z_mod_plus_full.
Qed.
End Copies.

(** ** Packets in the buffer *)
Definition packet : Type := list Z * list Z.
Definition block_of (block : list Z) (pk : packet) : Prop := exists pad gap tail,
  block = header_bytes (MkHeader (bsize block) (bsize pk.1) (bsize pk.2) pad) ++ pk.1 ++ gap ++ pk.2 ++ tail
  /\ bsize block mod 4 = 0 /\ bsize block < 65536
  /\ (pk.2 <> [] -> bsize gap = CEIL4 (bsize pk.1) - bsize pk.1)
  /\ CEIL4 (bsize pk.1) + CEIL4 (bsize pk.2) + 8 <= bsize block.
Inductive encodes : list Z -> list packet -> Prop :=
| encodes_nil : encodes [] []
| encodes_cons block rest pk q : block_of block pk -> encodes rest q -> encodes (block ++ rest) (pk :: q).
Definition unread (p : packetbuffer) : list Z := cyc (pb_base p) (pb_addr p) (Z.to_nat (pb_count p)).
Definition no_buffer (p : packetbuffer) : Prop := pb_base p = [] /\ pb_mask p = 0 /\ pb_addr p = 0 /\ pb_count p = 0.
Definition holds (p : packetbuffer) (q : list packet) : Prop :=
  (no_buffer p /\ q = []) \/ (ring_ok p /\ encodes (unread p) q).
Lemma ring_not_null p : ring_ok p -> ~ no_buffer p.
Proof. intros Hr (Hb&_). pose proof (ring_bounds _ Hr) as [HN _]. rewrite Hb in HN. unfold bsize in HN. cbn in HN. lia. Qed.

Lemma ceil4_spec x : CEIL4 x = x + (- x) mod 4.
Proof.
  unfold CEIL4, PACKET_BUFFER_ALIGNMENT. change (4 - 1) with (2 ^ 2 - 1).
  change (Z.lnot (2 ^ 2 - 1)) with (Z.lnot (Z.ones 2)). rewrite <- Z.ldiff_land, Z.ldiff_ones_r by lia.
  rewrite Z.shiftl_mul_pow2, Z.shiftr_div_pow2 by lia. pose proof (Z.div_mod (x + (2 ^ 2 - 1)) (2 ^ 2)).
  pose proof (Z.mod_pos_bound (x + (2 ^ 2 - 1)) (2 ^ 2)). pose proof (Z.div_mod (- x) 4). pose proof (Z.mod_pos_bound (- x) 4).
  change (2 ^ 2) with 4 in *. lia.
Qed.
Lemma ceil4_bounds x : x <= CEIL4 x < x + 4 /\ CEIL4 x mod 4 = 0.
Proof. rewrite ceil4_spec. pose proof (Z.mod_pos_bound (- x) 4). split; [lia|]. rewrite Zplus_mod_idemp_r, Z.add_opp_diag_r. done. Qed.
Lemma ceil4_unique x y : y mod 4 = 0 -> x <= y < x + 4 -> CEIL4 x = y.
Proof.
  intros Hy Hb. pose proof (ceil4_bounds x) as [Hc Hm]. apply Z.mod_divide in Hy, Hm; [|done..].
  destruct Hy as [i ->], Hm as [j Ej]. rewrite Ej in *. lia.
Qed.

Lemma encodes_app l1 q1 l2 q2 : encodes l1 q1 -> encodes l2 q2 -> encodes (l1 ++ l2) (q1 ++ q2).
Proof. induction 1; intros H2; [done|]. rewrite <- app_assoc. cbn. constructor; auto. Qed.
Lemma encodes_one block pk : block_of block pk -> encodes block [pk].
Proof. intros H. rewrite <- (app_nil_r block). by repeat constructor. Qed.
Lemma header_length h : bsize (header_bytes h) = 8.
Proof. done. Qed.
Lemma get16_le16 x l : 0 <= x < 65536 -> get16 (le16 x ++ l) 0 = x.
Proof.
  intros Hx. unfold get16, le16. cbn. pose proof (Z.div_mod x 256). rewrite (Z.mod_small (x / 256)); [lia|].
  split; [apply Z.div_pos; lia|apply Z.div_lt_upper_bound; lia].
Qed.
(** What follows a packet that was just written, and what was there before. *)
Lemma stored_behind s bs s' :
  ring_ok (s_pb s) -> stored s (pb_addr (s_pb s) + pb_count (s_pb s)) bs s' ->
  pb_count (s_pb s) + bsize bs <= bsize (base_of s) ->
  cyc (base_of s') (pb_addr (s_pb s)) (Z.to_nat (pb_count (s_pb s) + bsize bs)) = unread (s_pb s) ++ bs.
Proof.
  intros Hr (b&->&Hb) Hle. pose proof (ring_bounds _ Hr) as [HN _]. destruct Hr as [_ _ [Ha _] [Hc _]].
  fold (base_of s) in HN, Ha, Hc. assert (0 <= bsize bs) by (unfold bsize; lia).
  rewrite Z2Nat.inj_add by lia. rewrite cyc_app. change (base_of (with_base b s)) with b. unfold unread. fold (base_of s). f_equal.
  - apply patched_other with (a := pb_addr (s_pb s) + pb_count (s_pb s) + (-1) * bsize (base_of s)) (bs := bs);
      [lia..|by apply patched_shift].
  - rewrite Z2Nat.id by lia. unfold bsize at 1. rewrite Nat2Z.id. eapply patched_cyc; [| |exact Hb]; lia.
Qed.
Lemma stored_before s bs s' q :
  holds (s_pb s) q -> ring_ok (s_pb s) -> stored s (pb_addr (s_pb s) + pb_count (s_pb s)) bs s' ->
  pb_count (s_pb s) + bsize bs <= bsize (base_of s) -> holds (s_pb s') q.
Proof.
  intros [[Hno _]|[_ He]] Hr Hst Hle; [by destruct (ring_not_null _ Hr Hno)|].
  right. split; [by eapply stored_ring|]. pose proof (stored_behind _ _ _ Hr Hst Hle) as E.
  destruct (ro_count _ Hr) as [Hc _]. assert (0 <= bsize bs) by (unfold bsize; lia).
  rewrite Z2Nat.inj_add, cyc_app in E by lia.
  apply (f_equal (take (Z.to_nat (pb_count (s_pb s))))) in E.
  rewrite !take_app_length' in E by (unfold unread; by rewrite cyc_length).
  destruct Hst as (b&->&_). unfold unread in *. cbn in *. unfold base_of in E. cbn in E. by rewrite E.
Qed.

(** ** Writing a packet *)
Record kept (s s' : pst) : Prop := {
  k_addr : pb_addr (s_pb s') = pb_addr (s_pb s);
  k_limt : pb_limt (s_pb s') = pb_limt (s_pb s);
  k_anc : pb_ancillary_fini (s_pb s') = pb_ancillary_fini (s_pb s);
  k_fini : s_fini s' = s_fini s;
  k_env : s_env s' = s_env s;
  k_heap : exists n, forall i, s_heap s' i = s_heap s (n + i)%nat
}.
Lemma kept_same s : kept s s.
Proof. split; try done. by exists 0%nat. Qed.
Lemma kept_step s1 s2 s3 : kept s1 s2 -> kept s2 s3 -> kept s1 s3.
Proof.
  intros [? ? ? ? ? [n Hn]] [? ? ? ? ? [m Hm]]. split; try congruence.
  exists (n + m)%nat. intros i. rewrite Hm, Hn. f_equal. lia.
Qed.
Lemma stored_kept s a bs s' : stored s a bs s' -> kept s s'.
Proof. intros (b&->&_). split; try done. by exists 0%nat. Qed.
Lemma stored_same s a bs s' :
  stored s a bs s' -> pb_addr (s_pb s') = pb_addr (s_pb s) /\ pb_count (s_pb s') = pb_count (s_pb s).
Proof. by intros (b&->&_). Qed.
Lemma stands_stored s a bs s' x r : stored s a bs s' -> stands s x r -> stands s' x r.
Proof. unfold stands. intros H. by rewrite (stored_length _ _ _ _ H). Qed.
Lemma stored_extend s a bs s' n :
  0 < bsize (base_of s) -> bsize bs + Z.of_nat n <= bsize (base_of s) -> stored s a bs s' ->
  stored s a (bs ++ cyc (base_of s') (a + bsize bs) n) s'.
Proof.
  intros Hp Hle H. pose proof (stored_length _ _ _ _ H) as E. eapply stored_app; [done| |exact H|apply stored_refl; by rewrite E].
  unfold bsize at 2. rewrite cyc_length. lia.
Qed.
Lemma cyc_bsize base a n : 0 <= n -> bsize (cyc base a (Z.to_nat n)) = n.
Proof. intros Hn. unfold bsize. rewrite cyc_length. lia. Qed.
Lemma copied_place s x r buf : 0 < bsize (base_of s) -> bsize buf <= bsize (base_of s) -> stands s x r ->
  copied (bsize (base_of s) - r) buf = copied (bsize (base_of s) - x mod bsize (base_of s)) buf.
Proof.
  intros Hp Hle [Hx Hr]. rewrite <- Hx. destruct (decide (r = bsize (base_of s))) as [->|].
  - rewrite Z_mod_same_full, Z.sub_diag, Z.sub_0_r. unfold copied. rewrite (decide_True (P := bsize buf <= bsize _)) by done.
    destruct (decide _); [done|]. cbn. rewrite Z.sub_0_r. apply take_ge. unfold bsize. lia.
  - rewrite Z.mod_small by lia. done.
Qed.
Lemma floor4_stands s x r : ring_ok (s_pb s) -> stands s x r ->
  stands s (CEIL4 x) (Z.land (u16 (r + (PACKET_BUFFER_ALIGNMENT - 1))) (Z.lnot (PACKET_BUFFER_ALIGNMENT - 1))).
Proof.
  intros Hr [Hx Hb]. pose proof (ring_bounds _ Hr) as [HN HN4]. fold (base_of s) in HN, HN4.
  set (N := bsize (base_of s)) in *. rewrite u16_small by (unfold PACKET_BUFFER_ALIGNMENT; lia). fold (CEIL4 r).
  pose proof (ceil4_bounds r) as [Hc Hm]. split; fold N.
  - rewrite !ceil4_spec. assert (Hd : (x - r) mod N = 0) by (by rewrite Zminus_mod, Hx, Z.sub_diag).
    apply Z.mod_divide in Hd as [i Ei]; [|lia]. apply Z.mod_divide in HN4 as [j Ej]; [|lia].
    replace x with (r + i * N) by lia. replace (- (r + i * N)) with (- r + (- i * j) * 4) by lia.
    rewrite Z_mod_plus_full. replace (r + i * N + (- r) mod 4) with (r + (- r) mod 4 + i * N) by lia. by rewrite Z_mod_plus_full.
  - split; [lia|]. apply Z.mod_divide in HN4 as [j Ej]; [|lia]. apply Z.mod_divide in Hm as [i Ei]; [|lia]. lia.
Qed.

Lemma header_total_spec num anc total : 0 <= num -> 0 <= anc -> header_total num anc = Some total ->
  total = CEIL4 (num + anc) + 8 /\ num + anc + 11 < 65536 /\ total < 65536 /\ total mod 4 = 0.
Proof.
  unfold header_total, HEADER_SIZE. intros Hn Ha. destruct (Z.leb_spec (2 ^ 16) (num + anc)); [done|].
  destruct (Z.leb_spec (2 ^ 16) (num + anc + (8 + PACKET_BUFFER_ALIGNMENT - 1))) as [|Hlt]; [done|]. intros [= <-]. change (2 ^ 16) with 65536 in *.
  replace (num + anc + (8 + PACKET_BUFFER_ALIGNMENT - 1)) with (num + anc + 8 + (PACKET_BUFFER_ALIGNMENT - 1)) in * by (unfold PACKET_BUFFER_ALIGNMENT; lia).
  fold (CEIL4 (num + anc + 8)). pose proof (ceil4_bounds (num + anc)) as [Hc Hm].
  assert (E : CEIL4 (num + anc + 8) = CEIL4 (num + anc) + 8).
  { apply ceil4_unique; [|lia]. rewrite Zplus_mod, Hm. done. }
  rewrite E. unfold PACKET_BUFFER_ALIGNMENT in *. split_and!; [done|lia|lia|]. rewrite Zplus_mod, Hm. done.
Qed.
(** The payload of the last packet of [p], which has [total] bytes and was read from [buf]. *)
Definition written (p : packetbuffer) (total : Z) (buf : list Z) : list Z :=
  copied (bsize (pb_base p) - (pb_addr p + (pb_count p - total) + 8) mod bsize (pb_base p)) buf.
(** The padding of the payload and of the ancillary data add up to that of the packet. *)
Definition padded (buf anc : list Z) : Prop := CEIL4 (bsize buf) + CEIL4 (bsize anc) <= CEIL4 (bsize buf + bsize anc).

Lemma packet_sizes buf anc total : header_total (bsize buf) (bsize anc) = Some total -> padded buf anc ->
  0 <= bsize buf /\ 0 <= bsize anc /\ 8 <= total /\ 8 + CEIL4 (bsize buf) + CEIL4 (bsize anc) <= total
  /\ total < 65536 /\ total mod 4 = 0 /\ bsize buf + bsize anc + 11 < 65536.
Proof.
  intros Ht Hpad.
  assert (Hn : 0 <= bsize buf) by (unfold bsize; lia). assert (Ha : 0 <= bsize anc) by (unfold bsize; lia).
  destruct (header_total_spec _ _ _ Hn Ha Ht) as (Etot&?&?&?). unfold padded in Hpad.
  pose proof (ceil4_bounds (bsize buf)). pose proof (ceil4_bounds (bsize anc)). pose proof (ceil4_bounds (bsize buf + bsize anc)).
  split_and!; try done; lia.
Qed.

Section PutPacket.
Context (s : pst) (q : list packet) (buf anc : list Z) (total junk : Z).
Context (Hq : holds (s_pb s) q) (Hr : ring_ok (s_pb s)).
Context (Ht : header_total (bsize buf) (bsize anc) = Some total) (Hpad : padded buf anc).
Context (Hroom : pb_count (s_pb s) + total <= bsize (base_of s)).
Let h : packet_header := MkHeader total (u16 (bsize buf)) (u16 (bsize anc)) junk.
Let x0 : Z := pb_addr (s_pb s) + pb_count (s_pb s).

Lemma packet_block w gap tail block :
  block = header_bytes h ++ w ++ gap ++ anc ++ tail -> bsize w = bsize buf -> bsize block = total ->
  (anc <> [] -> bsize gap = CEIL4 (bsize buf) - bsize buf) -> block_of block (w, anc).
Proof.
  intros E Hw Hb Hg. destruct (packet_sizes _ _ _ Ht Hpad) as (?&?&?&?&?&?&?). exists junk, gap, tail. cbn [fst snd]. rewrite Hb, Hw.
  split_and!; [|done|done|done|lia]. rewrite E. unfold h. by rewrite !u16_small by lia.
Qed.
Lemma packet_done R block w s' :
  stored s x0 block s' -> block_of block (w, anc) -> bsize block = total ->
  w = copied (bsize (base_of s) - (x0 + 8) mod bsize (base_of s)) buf ->
  srun (on_pb (fun p => set_packets (pb_addr p) (u16 (pb_count p + p_total h)) p) ≫= fun _ =>
        if pb_count (s_pb s) =? 0 then signal SigStat else mret tt) s'
    (fun _ s'' => kept s s'' /\ pb_count (s_pb s'') = pb_count (s_pb s) + total
       /\ holds (s_pb s'') (q ++ [(written (s_pb s'') total buf, anc)])) R.
Proof.
  intros Hst Hbl Hsz Hw. destruct (packet_sizes _ _ _ Ht Hpad) as (?&?&?&?&?&?&?). pose proof (ring_bounds _ Hr) as [HN _]. fold (base_of s) in HN.
  pose proof (stored_behind _ _ _ Hr Hst ltac:(lia)) as Eb. rewrite Hsz in Eb.
  pose proof (stored_ring _ _ _ _ Hst Hr) as Hr'. pose proof (stored_length _ _ _ _ Hst) as El.
  destruct (ro_count _ Hr) as [Hc Hc4]. fold (base_of s) in Hc.
  set (f := fun p : packetbuffer => set_packets (pb_addr p) (u16 (pb_count p + p_total h)) p).
  assert (Hgoal : forall sg, let s2 := MkPst (f (s_pb s')) (s_heap s') (s_fini s') sg (s_env s') in
    kept s s2 /\ pb_count (s_pb s2) = pb_count (s_pb s) + total /\ holds (s_pb s2) (q ++ [(written (s_pb s2) total buf, anc)])).
  { intros sg s2. assert (Ek : kept s s2) by (destruct (stored_kept _ _ _ _ Hst); by split).
    destruct (stored_same _ _ _ _ Hst) as [Ea Ec].
    assert (E2 : s_pb s2 = set_packets (pb_addr (s_pb s)) (pb_count (s_pb s) + total) (s_pb s')).
    { unfold s2, f, h. cbn. rewrite Ea, Ec, u16_small by lia. done. }
    rewrite E2. split_and!; [done|done|]. right. split.
    - destruct Hr' as [A B C D]. split; cbn; rewrite ?Ea, ?Ec in *; try done.
      fold (base_of s') in *. rewrite El. split; [lia|]. by rewrite Zplus_mod, Hc4, (proj1 (proj2 (proj2 (proj2 (proj2 (proj2 (packet_sizes _ _ _ Ht Hpad))))))).
    - unfold unread. cbn. fold (base_of s'). rewrite Eb. apply encodes_app.
      + destruct Hq as [[Hno _]|[_ He]]; [by destruct (ring_not_null _ Hr Hno)|done].
      + apply encodes_one. replace (written _ _ _) with w; [done|]. rewrite Hw. unfold written. cbn. fold (base_of s').
        rewrite El. unfold x0. do 3 f_equal. lia. }
  apply srun_bind. unfold srun at 1, on_pb, mbind, SM_bind, sget, sput. destruct (_ =? 0); apply Hgoal.
Qed.
(** The ancillary data, or the bytes that were there. *)
Lemma put_ancillary_ok R hw s' r :
  stored s x0 hw s' -> bsize hw = 8 + bsize buf -> stands s (x0 + bsize hw) r ->
  srun (match anc with
        | [] => mret tt
        | _ => put_split (Z.land (u16 (r + (PACKET_BUFFER_ALIGNMENT - 1))) (Z.lnot (PACKET_BUFFER_ALIGNMENT - 1))) anc
                 ≫= fun _ => mret tt
        end) s'
    (fun _ s'' => exists gap tail, stored s x0 (hw ++ gap ++ anc ++ tail) s'' /\ bsize (hw ++ gap ++ anc ++ tail) = total
       /\ (anc <> [] -> bsize gap = CEIL4 (bsize buf) - bsize buf)) R.
Proof.
  intros Hst Hhw Hr1. destruct (packet_sizes _ _ _ Ht Hpad) as (?&?&?&?&?&?&?). pose proof (ring_bounds _ Hr) as [HN HN4]. fold (base_of s) in HN, HN4.
  destruct (ro_addr _ Hr) as [_ Ha4], (ro_count _ Hr) as [Hc Hc4].
  pose proof (ceil4_bounds (bsize buf)) as [Hcb Hcm]. pose proof (ceil4_bounds (bsize anc)) as [Hca _].
  assert (Hlast : forall bs s'', stored s x0 bs s'' -> bsize bs <= total ->
    exists tail, stored s x0 (bs ++ tail) s'' /\ bsize (bs ++ tail) = total).
  { intros bs s'' Hs Hle. exists (cyc (base_of s'') (x0 + bsize bs) (Z.to_nat (total - bsize bs))).
    split; [apply stored_extend; [lia|lia|done]|]. rewrite bsize_app, cyc_bsize by lia. lia. }
  destruct anc as [|b anc'] eqn:Eanc.
  - apply srun_ret. destruct (Hlast hw s' Hst) as (tail&Ht1&Ht2); [lia|]. exists [], tail. by split_and!.
  - rewrite <- Eanc in *. set (gap := cyc (base_of s') (x0 + bsize hw) (Z.to_nat (CEIL4 (bsize buf) - bsize buf))).
    assert (Hg : bsize gap = CEIL4 (bsize buf) - bsize buf) by (apply cyc_bsize; lia).
    assert (Hst2 : stored s x0 (hw ++ gap) s') by (apply stored_extend; [lia|lia|done]).
    assert (Ec : CEIL4 (x0 + bsize hw) = x0 + bsize (hw ++ gap)).
    { rewrite bsize_app, Hg, Hhw. apply ceil4_unique; [|lia]. unfold x0.
      replace (_ + (8 + bsize buf + _)) with (pb_addr (s_pb s) + pb_count (s_pb s) + CEIL4 (bsize buf) + 2 * 4) by lia.
      rewrite Z_mod_plus_full, Zplus_mod, Hcm, (Zplus_mod (pb_addr _)), Ha4, Hc4. done. }
    pose proof (floor4_stands _ _ _ Hr Hr1) as Hfl. rewrite Ec in Hfl.
    pose proof (stored_length _ _ _ _ Hst) as El.
    eapply run_seq; [apply (put_split_ok _ _ _ (x0 + bsize (hw ++ gap)));
      [by eapply stored_ring|by eapply stands_stored|rewrite El; lia]|].
    intros r2 s2 [Hs2 _]. apply srun_ret.
    assert (Hs3 : stored s x0 ((hw ++ gap) ++ anc) s2).
    { eapply stored_app; [lia| |exact Hst2|exact Hs2]. rewrite bsize_app. lia. }
    destruct (Hlast _ _ Hs3) as (tail&Ht1&Ht2); [rewrite !bsize_app; lia|]. exists gap, tail.
    by rewrite !app_assoc in *.
Qed.
Lemma put_packet_ok fault (R : error_code -> pst -> Prop) :
  (forall e s', fault = Some e -> kept s s' -> holds (s_pb s') q -> R e s') ->
  srun (put_packet fault h [buf] 0 (bsize buf) anc) s
    (fun _ s' => kept s s' /\ pb_count (s_pb s') = pb_count (s_pb s) + total
       /\ holds (s_pb s') (q ++ [(written (s_pb s') total buf, anc)])) R.
Proof.
  intros HR. destruct (packet_sizes _ _ _ Ht Hpad) as (P1&P2&P3&P4&P5&P6&P7). pose proof (ring_bounds _ Hr) as [HN _]. fold (base_of s) in HN.
  pose proof (ceil4_bounds (bsize buf)) as [Hcb _]. pose proof (ceil4_bounds (bsize anc)) as [Hca _].
  destruct (ro_addr _ Hr) as [Ha _], (ro_count _ Hr) as [Hc _]. fold (base_of s) in Ha, Hc.
  unfold put_packet. apply run_pb. cbv zeta. rewrite u16_small, (ring_land _ _ Hr) by lia. fold x0. fold (base_of s).
  pose proof (Z.mod_pos_bound x0 (bsize (base_of s)) ltac:(lia)) as Hm.
  eapply run_seq; [apply (put_split_ok _ _ _ x0 (header_bytes h)); [done| |rewrite header_length; lia]|].
  { split; [by rewrite Zmod_mod|lia]. }
  intros r1 s1 [H1 Hr1]. rewrite header_length in Hr1. pose proof (stored_length _ _ _ _ H1) as E1.
  eapply run_seq; [apply (put_payload_ok _ _ _ _ (x0 + 8));
    [by eapply stored_ring|by eapply stands_stored|rewrite E1; lia|]|].
  { intros e s' bs He Hb Hs. apply HR; [done| |].
    - eapply kept_step; by eapply stored_kept.
    - eapply (stored_before s (header_bytes h ++ bs) s' q Hq Hr).
      + eapply stored_app; [lia| |exact H1|by rewrite header_length]. rewrite header_length. lia.
      + rewrite bsize_app, header_length. fold (base_of s). lia. }
  intros r2 s2 [H2 Hr2]. rewrite E1, (copied_place s (x0 + 8)) in H2 by (try done; lia).
  set (w := copied _ buf) in H2.
  assert (Hw : bsize w = bsize buf).
  { apply copied_length. pose proof (Z.mod_pos_bound (x0 + 8) (bsize (base_of s)) ltac:(lia)). lia. }
  assert (Hs : stored s x0 (header_bytes h ++ w) s2).
  { eapply stored_app; [lia| |exact H1|by rewrite header_length]. rewrite header_length. lia. }
  eapply run_seq; [apply (put_ancillary_ok _ (header_bytes h ++ w)); [done|by rewrite bsize_app, header_length, Hw|]|].
  { rewrite bsize_app, header_length, Hw. destruct Hr2 as [? ?]. rewrite E1 in *. split; [|done].
    by replace (x0 + (8 + bsize buf)) with (x0 + 8 + bsize buf) by lia. }
  intros [] s3 (gap&tail&Hst&Hsz&Hg). rewrite <- app_assoc in Hst, Hsz.
  eapply packet_done; [exact Hst|by eapply packet_block|done|done].
Qed.
End PutPacket.
