(* ===== verification/PacketProps.v ===== *)
(** Packet buffers as queues of packets: what is written comes out in order, through
    wrap-around and growth of the buffer, and failures leave the queue alone.

    [good p q]: the buffer [p] may be used and holds the packets [q]; [tame]: what other
    tasks may do while a task waits; [advanced]: whether the task waited. *)
From S2P Require Import Prelude Ringbuffer PacketBuffer PacketCopy.
Open Scope Z_scope.

(** ** Growing the buffer *)
Definition sized (p : packetbuffer) (j : Z) : Prop :=
  (no_buffer p /\ j = 0) \/ (ring_ok p /\ bsize (pb_base p) = 2 ^ j /\ 3 <= j <= 15).
Lemma holds_sized p q : holds p q -> exists j, sized p j /\ 0 <= j <= 15.
Proof.
  intros [[Hn ->]|[Hr _]]; [exists 0; split; [by left|lia]|]. destruct (ro_pow _ Hr) as (k&Hk&E). exists k. split; [by right|lia].
Qed.
Lemma sized_mask p j : sized p j -> pb_mask p = 2 ^ j - 1 /\ 0 <= pb_count p <= 2 ^ j.
Proof.
  intros [[(Hb&->&_&->) ->]|(Hr&E&Hj)]; [done|]. rewrite (ro_mask _ Hr), E. split; [done|].
  destruct (ro_count _ Hr) as [Hc _]. lia.
Qed.

Lemma double_mask j : 0 <= j <= 30 -> u32 (Z.lor (Z.shiftl (2 ^ j - 1) 1) 1) = 2 ^ (j + 1) - 1.
Proof.
  intros Hj. rewrite Z.shiftl_mul_pow2 by lia. change (2 ^ 1) with 2. rewrite <- Z.add_nocarry_lor.
  - rewrite Z.pow_add_r by lia. change (2 ^ 1) with 2. pose proof (Z.pow_le_mono_r 2 j 30). pose proof (Z.pow_pos_nonneg 2 j).
    unfold u32. rewrite wrap_small by lia. lia.
  - change 1 with (2 ^ 1 - 1) at 2. rewrite land_low by lia. apply Z.mod_mul. done.
Qed.
Lemma larger_mask_ok count total lim : 0 <= count -> 8 <= total <= lim -> lim <= 8192 -> forall fuel j,
  0 <= j -> count <= 2 ^ j -> 2 ^ j < 2 * lim -> 14 - j <= Z.of_nat fuel ->
  exists k, larger_mask fuel (2 ^ j - 1) count total lim = Some (2 ^ k - 1) /\ j <= k <= 15 /\ 3 <= k
    /\ (2 ^ j - count <= total -> j < k).
Proof.
  intros Hc Ht Hl. induction fuel as [|fuel IH]; intros j Hj Hcj Hlj Hf;
    assert (Hj14 : j < 14) by (apply (Z.pow_lt_mono_r_iff 2); [lia|lia|change (2 ^ 14) with 16384; lia]); [lia|].
  assert (Hs : forall i, 8 <= 2 ^ i -> 0 <= i -> 3 <= i)
    by (intros i Hi ?; apply (Z.pow_le_mono_r_iff 2); [lia|lia|exact Hi]).
  pose proof (Z.pow_le_mono_r 2 j 14 ltac:(lia) ltac:(lia)) as Hp. change (2 ^ 14) with 16384 in Hp.
  cbn [larger_mask]. rewrite (Z.sub_add 1). replace (2 ^ j - 1 + 1 - count) with (2 ^ j - count) by lia.
  rewrite u32_small by lia. rewrite double_mask by lia. rewrite (u32_small (2 ^ j)) by lia.
  assert (E2 : 2 ^ (j + 1) = 2 * 2 ^ j) by (rewrite Z.pow_add_r by lia; lia).
  destruct (Z.leb_spec (2 ^ j - count) total) as [Hle|Hgt].
  - destruct (Z.leb_spec lim (2 ^ j)) as [Hlim|Hlim].
    + exists (j + 1). split_and!; [done|lia|lia|apply Hs; lia|lia].
    + destruct (IH (j + 1)) as (k&E&Hk&Hk3&_); [lia..|]. exists k. split_and!; [done|lia|lia|done|lia].
  - exists j. split_and!; [done|lia|lia|apply Hs; lia|lia].
Qed.

Lemma cyc_sub base base' n a m :
  cyc base 0 n = cyc base' 0 n -> (a + m <= n)%nat -> cyc base (Z.of_nat a) m = cyc base' (Z.of_nat a) m.
Proof.
  intros E Hle. apply cyc_ext. intros i Hi. apply (f_equal (lookup (a + i)%nat)) in E.
  rewrite !cyc_lookup in E by lia. injection E as E. rewrite !Z.add_0_l, !Nat2Z.inj_add in E. done.
Qed.
Lemma move_packets_ok p N' new :
  ring_ok p -> 2 * bsize (pb_base p) <= N' -> bsize new = N' ->
  exists nb, move_packets p (N' - 1) new = Ret nb /\ bsize nb = N'
    /\ cyc nb (pb_addr p) (Z.to_nat (pb_count p)) = unread p.
Proof.
  intros Hr HN Hnew. pose proof (ring_bounds _ Hr) as [Hb _]. destruct (ro_addr _ Hr) as [Ha _], (ro_count _ Hr) as [Hc _].
  unfold move_packets, unread. rewrite (ro_mask _ Hr). set (N := bsize (pb_base p)) in *. rewrite Z.sub_add.
  destruct (Z.eqb_spec (pb_count p) 0) as [E0|Hc0]; [exists new; rewrite E0; by split_and!|].
  rewrite (read_cyc (pb_base p) 0 N) by (fold N; lia). rewrite bind_ret.
  assert (Lo : bsize (cyc (pb_base p) 0 (Z.to_nat N)) = N) by (apply cyc_bsize; lia).
  destruct (write_patched new 0 (cyc (pb_base p) 0 (Z.to_nat N))) as (b1&->&H1); [lia..|]. rewrite bind_ret.
  assert (L1 : bsize b1 = N') by (destruct H1 as [E _]; unfold bsize in *; lia).
  destruct (Z.eqb_spec (pb_addr p) 0) as [Ea|Ha0].
  { exists b1. split_and!; [done|done|]. rewrite Ea. apply (cyc_sub _ _ (Z.to_nat N) 0); [|lia].
    pose proof (patched_cyc new b1 0 (cyc (pb_base p) 0 (Z.to_nat N)) ltac:(lia) ltac:(lia) H1) as E. by rewrite cyc_length in E. }
  destruct (Z.ltb_spec (N' - 1 - (N - 1)) (pb_addr p)) as [|_]; [lia|].
  rewrite (read_cyc (pb_base p) 0 (pb_addr p)) by (fold N; lia). rewrite bind_ret.
  assert (La : bsize (cyc (pb_base p) 0 (Z.to_nat (pb_addr p))) = pb_addr p) by (apply cyc_bsize; lia).
  destruct (write_patched b1 N (cyc (pb_base p) 0 (Z.to_nat (pb_addr p)))) as (b2&->&H2); [lia..|]. exists b2.
  split_and!; [done|destruct H2 as [E _]; unfold bsize in *; lia|].
  assert (Hp : patched new b2 0 (cyc (pb_base p) 0 (Z.to_nat N + Z.to_nat (pb_addr p)))).
  { rewrite cyc_app. eapply patched_app; [lia| |exact H1|].
    - rewrite Z2Nat.id, !cyc_bsize by lia. lia.
    - rewrite Lo. replace (cyc _ (0 + Z.of_nat (Z.to_nat N)) _) with (cyc (pb_base p) 0 (Z.to_nat (pb_addr p))); [done|].
      rewrite Z2Nat.id by lia. replace (0 + N) with (0 + 1 * N) by lia. symmetry. apply cyc_shift. }
  assert (E : cyc b2 0 (Z.to_nat N + Z.to_nat (pb_addr p)) = cyc (pb_base p) 0 (Z.to_nat N + Z.to_nat (pb_addr p))).
  { apply patched_cyc in Hp; [by rewrite cyc_length in Hp|lia|]. unfold bsize at 1. rewrite cyc_length. lia. }
  pose proof (cyc_sub _ _ _ (Z.to_nat (pb_addr p)) (Z.to_nat (pb_count p)) E ltac:(lia)) as E'.
  by rewrite Z2Nat.id in E' by lia.
Qed.

(** A buffer that may be used: its limit keeps the 16-bit addresses from overflowing. *)
Definition good (p : packetbuffer) (q : list packet) : Prop := holds p q /\ limit p <= 8192.
Lemma pow_mask_land j : 0 <= j -> Z.land (2 ^ j) (2 ^ j - 1) = 0.
Proof. intros Hj. rewrite land_low by done. apply Z_mod_same_full. Qed.
Lemma sized_move p q j k new :
  holds p q -> sized p j -> j < k -> 3 <= k <= 15 -> bsize new = 2 ^ k ->
  exists nb, move_packets p (2 ^ k - 1) new = Ret nb
    /\ holds (set_buffer nb (2 ^ k - 1) p) q /\ sized (set_buffer nb (2 ^ k - 1) p) k.
Proof.
  intros Hq Hs Hjk Hk Hn. destruct Hs as [[Hno ->]|(Hr&E&Hj)].
  - assert (Eq : q = []).
    { destruct Hq as [[_ ?]|[Hr _]]; [done|]. by destruct (ring_not_null _ Hr Hno). }
    subst q. destruct Hno as (_&_&Ea&Ec). pose proof (Z.pow_pos_nonneg 2 k ltac:(lia) ltac:(lia)).
    exists new. unfold move_packets. rewrite Ec, Z.eqb_refl.
    assert (Hr : ring_ok (set_buffer new (2 ^ k - 1) p)).
    { split; cbn; rewrite ?Ea, ?Ec, ?Hn; [by exists k|done|split; [lia|done]..]. }
    split_and!; [done| |right; split_and!; [done|done|lia|lia]]. right. split; [done|]. unfold unread. cbn. rewrite Ec. constructor.
  - assert (HN : 2 * bsize (pb_base p) <= 2 ^ k).
    { rewrite E. replace (2 * 2 ^ j) with (2 ^ (j + 1)) by (rewrite Z.pow_add_r by lia; lia). apply Z.pow_le_mono_r; lia. }
    destruct (move_packets_ok p (2 ^ k) new Hr HN Hn) as (nb&Em&Hnb&Hu). exists nb.
    destruct (ro_addr _ Hr) as [Ha Ha4], (ro_count _ Hr) as [Hc Hc4].
    assert (Hr' : ring_ok (set_buffer nb (2 ^ k - 1) p)).
    { split; cbn; rewrite ?Hnb; [by exists k|done|split; [lia|done]..]. }
    split_and!; [done| |right; split_and!; [done|done|lia|lia]]. right. split; [done|]. unfold unread at 1. cbn. rewrite Hu.
    destruct Hq as [[Hno _]|[_ He]]; [by destruct (ring_not_null _ Hr Hno)|done].
Qed.
Lemma grow_buffer_ok s q j total (R : error_code -> pst -> Prop) :
  holds (s_pb s) q -> sized (s_pb s) j -> 8 <= total <= limit (s_pb s) -> limit (s_pb s) <= 8192 ->
  0 <= j <= 15 -> 2 ^ j <= limit (s_pb s) -> 2 ^ j - pb_count (s_pb s) < total ->
  (forall e s', s_heap s 0%nat = KRefused e -> kept s s' -> s_pb s' = s_pb s -> R e s') ->
  srun (grow_buffer total) s
    (fun _ s' => kept s s' /\ pb_count (s_pb s') = pb_count (s_pb s) /\ holds (s_pb s') q
       /\ exists k, j < k <= 15 /\ sized (s_pb s') k) R.
Proof.
  intros Hq Hs Ht Hl Hj Hjl Hroom HR. destruct (sized_mask _ _ Hs) as [Em Hc]. unfold grow_buffer. apply run_pb.
  rewrite Em, Z.sub_add. apply srun_bind, srun_check; [apply Z.eqb_eq, pow_mask_land; lia|].
  destruct (larger_mask_ok (pb_count (s_pb s)) total (limit (s_pb s)) ltac:(lia) Ht Hl 33 j) as (k&->&Hk&Hk3&Hlt); [lia..|].
  specialize (Hlt ltac:(lia)). pose proof (Z.pow_lt_mono_r 2 j k ltac:(lia) ltac:(lia) ltac:(lia)).
  pose proof (Z.pow_le_mono_r 2 k 15 ltac:(lia) ltac:(lia)) as Hk15. change (2 ^ 15) with 32768 in Hk15.
  pose proof (Z.pow_pos_nonneg 2 j ltac:(lia) ltac:(lia)).
  apply srun_bind, srun_check; [apply Z.ltb_lt; lia|]. rewrite Z.sub_add, u32_small by lia.
  apply srun_bind. unfold kmalloc_bytes, mbind, SM_bind, sget, sput. unfold srun at 1. destruct (s_heap s 0%nat) as [content|e] eqn:Eh.
  - cbn. destruct (sized_move (s_pb s) q j k (content <$> seq 0 (Z.to_nat (2 ^ k))) Hq Hs Hlt ltac:(lia)) as (nb&E&Hh&Hz).
    { unfold bsize. rewrite length_fmap, length_seq. lia. }
    unfold slift, srun. rewrite E. cbn. split_and!; [split; try done; by exists 1%nat|done|done|]. exists k. split; [lia|done].
  - cbn. apply HR; [done| |done]. split; try done. by exists 1%nat.
Qed.

(** ** Writing *)
(** Other tasks keep the buffer usable. *)
Definition tame (f : packetbuffer -> packetbuffer) : Prop := forall p q, good p q -> exists q', good (f p) q'.
(** The queue is [q] as long as the task did not wait. *)
Definition advanced (s s' : pst) (q q' : list packet) : Prop :=
  (kept s s' /\ q' = q) \/ (length (s_env s') < length (s_env s))%nat.
Lemma advanced_kept s s' q : kept s s' -> advanced s s' q q.
Proof. intros Hk. by left. Qed.
Lemma advanced_wait s s1 s' f q q1 q' : s_env s = f :: s_env s1 -> advanced s1 s' q1 q' -> advanced s s' q q'.
Proof. intros E [[Hk _]|Hlt]; right; rewrite E, ?(k_env _ _ Hk); cbn; lia. Qed.
Lemma kept_limit s s' : kept s s' -> limit (s_pb s') = limit (s_pb s).
Proof. intros Hk. unfold limit. by rewrite (k_limt _ _ Hk). Qed.
Lemma kept_good s s' q q' : kept s s' -> good (s_pb s) q -> holds (s_pb s') q' -> good (s_pb s') q'.
Proof. intros Hk [_ Hl] Hh. split; [done|]. by rewrite (kept_limit _ _ Hk). Qed.

Lemma holds_empty p q : holds p q -> pb_count p <> 0 -> q <> [].
Proof.
  intros [[(_&_&_&?) _]|[Hr He]] Hc ->; [done|]. destruct (ro_count _ Hr) as [? _]. inversion He as [E|].
  apply (f_equal length) in E. unfold unread in E. rewrite cyc_length in E. cbn in E. lia.
Qed.

(** Why a packet is not written. *)
Inductive write_error (s : pst) (fault : option error_code) (buf anc : list Z) (nonblock : bool) (p : packetbuffer)
    (q : list packet) : error_code -> Prop :=
| we_large : (forall total, header_total (bsize buf) (bsize anc) = Some total -> limit p < total) ->
    write_error s fault buf anc nonblock p q E_NET_ERROR
| we_fault e : fault = Some e -> write_error s fault buf anc nonblock p q e
| we_memory e i : s_heap s i = KRefused e -> write_error s fault buf anc nonblock p q e
| we_block : nonblock = true -> q <> [] -> write_error s fault buf anc nonblock p q E_WOULDBLOCK
| we_interrupt : nonblock = false -> q <> [] -> write_error s fault buf anc nonblock p q E_INTERRUPT.
Lemma write_error_later s s1 fault buf anc nonblock p q e :
  (exists n, forall i, s_heap s1 i = s_heap s (n + i)%nat) ->
  write_error s1 fault buf anc nonblock p q e -> write_error s fault buf anc nonblock p q e.
Proof. intros [n Hn] []; [by constructor..| |by constructor|by constructor]. rewrite Hn in *. by eapply we_memory. Qed.

Section Enqueue.
Context (junk : Z) (fault : option error_code) (buf anc : list Z) (total : Z) (nonblock : bool).
Context (Ht : header_total (bsize buf) (bsize anc) = Some total) (Hpad : padded buf anc).
Let h : packet_header := MkHeader total (u16 (bsize buf)) (u16 (bsize anc)) junk.
Definition enqueued (s : pst) (q : list packet) : Prop := good (s_pb s) (q ++ [(written (s_pb s) total buf, anc)]).

Lemma write_loop_ok s0 q : good (s_pb s0) q -> forall fuel s j,
  kept s0 s -> pb_count (s_pb s) = pb_count (s_pb s0) -> holds (s_pb s) q -> sized (s_pb s) j -> 0 <= j <= 15 -> 15 - j <= Z.of_nat fuel ->
  srun (write_loop fault fuel h [buf] 0 (bsize buf) anc) s
    (fun r s' => kept s0 s' /\ match r with
                             | WDone => enqueued s' q /\ pb_count (s_pb s') = pb_count (s_pb s0) + total
                             | WWait => good (s_pb s') q /\ q <> []
                             | WTooLarge => good (s_pb s') q /\ limit (s_pb s0) < total
                             end)
    (fun e s' => kept s0 s' /\ good (s_pb s') q /\ write_error s0 fault buf anc nonblock (s_pb s') q e).
Proof.
  intros Hg. pose proof (proj2 Hg) as Hl. induction fuel as [|fuel IH]; intros s j Hk Ecnt Hq Hs Hj Hf;
    destruct (sized_mask _ _ Hs) as [Em Hc]; pose proof (kept_limit _ _ Hk) as El;
    pose proof (kept_good _ _ _ _ Hk Hg Hq) as Hg1; destruct (packet_sizes buf anc total Ht Hpad) as (P1&P2&P3&P4&P5&P6&P7);
    cbn [write_loop]; apply run_pb; change (p_total h) with total.
  all: destruct (Z.ltb_spec (limit (s_pb s)) total) as [|Hlim]; [apply srun_ret; split_and!; [done|done|lia]|].
  all: rewrite Em, Z.sub_add; destruct (Z.leb_spec total (2 ^ j - pb_count (s_pb s))) as [Hfit|Hfull].
  1,3: destruct Hs as [[(_&_&_&E0) ->]|(Hr&E&Hj3)]; [rewrite E0 in Hfit; change (2 ^ 0) with 1 in Hfit; lia|];
    apply srun_bind; eapply srun_mono; [apply (put_packet_ok s q buf anc total junk Hq Hr Ht Hpad)| |intros e s' H; exact H].
  1,4: unfold base_of; lia.
  1,3: intros e s' He Hk' Hh; split_and!; [by eapply kept_step|by eapply (kept_good s)|by apply we_fault].
  1,2: intros [] s' (Hk'&Hcnt&Hh); apply srun_ret; split_and!; [by eapply kept_step|by eapply (kept_good s)|lia].
  all: destruct (Z.ltb_spec (limit (s_pb s)) (2 ^ j)); [apply srun_ret; split_and!; [done|done|eapply holds_empty; [done|lia]]|].
  - assert (j = 15) as -> by lia. change (2 ^ 15) with 32768 in *. lia.
  - eapply run_seq; [apply (grow_buffer_ok s q j total); try done; try lia|].
    + intros e s' Eh Hk' E. split_and!; [by eapply kept_step|by rewrite E|].
      eapply write_error_later; [apply (k_heap _ _ Hk)|by eapply we_memory].
    + intros [] s' (Hk'&Hcnt&Hh&k&Hk2&Hz). apply (IH s' k); [by eapply kept_step|congruence|done|done|lia|lia].
Qed.
Lemma write_wait_ok : forall fuel s q,
  good (s_pb s) q -> Forall tame (s_env s) -> (length (s_env s) < fuel)%nat ->
  srun (write_wait fault fuel h [buf] 0 (bsize buf) anc nonblock) s
    (fun r s' => exists q', advanced s s' q q' /\ if r : bool then
        enqueued s' q' /\ (s_env s' = s_env s -> pb_count (s_pb s') = pb_count (s_pb s) + total) else good (s_pb s') q' /\ limit (s_pb s') < total)
    (fun e s' => exists q', advanced s s' q q' /\ good (s_pb s') q' /\ write_error s fault buf anc nonblock (s_pb s') q' e).
Proof.
  induction fuel as [|fuel IH]; intros s q Hg Ha Hf; [lia|]. destruct (holds_sized _ _ (proj1 Hg)) as (j&Hs&Hj). cbn [write_wait].
  apply srun_bind. eapply srun_mono; [apply (write_loop_ok s q Hg 33 s j); [apply kept_same|done|apply Hg|done|done|lia]| |].
  2: { intros e s' (Hk&Hq&He). exists q. split; [by apply advanced_kept|done]. }
  intros [] s' [Hk Hq]; pose proof (advanced_kept _ _ q Hk) as Hadv.
  - apply srun_ret. exists q. by destruct Hq.
  - destruct Hq as [Hq Hne]. destruct nonblock eqn:En; [apply srun_throw; exists q; split_and!; [done|done|by apply we_block]|].
    pose proof (k_env _ _ Hk) as Ee. apply srun_bind. unfold task_wait, mbind, SM_bind, sget. unfold srun at 1.
    destruct (s_env s') as [|f env] eqn:E'; [exists q; split_and!; [done|done|by apply we_interrupt]|].
    cbn. rewrite <- Ee in Ha, Hf. pose proof (Forall_inv Ha) as Hf1. apply Forall_inv_tail in Ha. destruct (Hf1 _ _ Hq) as (q1&Hq1).
    eapply srun_mono; [apply (IH _ q1); [exact Hq1|exact Ha|cbn in *; lia]| |].
    + intros r s2 (q2&Hadv2&H2). assert (Hlen : (length (s_env s2) <= length env)%nat)
        by (destruct Hadv2 as [[Hk2 _]|]; [by rewrite (k_env _ _ Hk2)|cbn in *; lia]).
      exists q2. split; [eapply advanced_wait; [|exact Hadv2]; cbn; by rewrite <- Ee|]. destruct r; [|done]. split; [apply H2|].
      intros E. rewrite E, <- Ee in Hlen. cbn in Hlen. lia.
    + intros e s2 (q2&Hadv2&H2&He2). exists q2. split_and!; [|done|eapply write_error_later; [|exact He2]; exact (k_heap _ _ Hk)].
      eapply advanced_wait; [|exact Hadv2]. cbn. by rewrite <- Ee.
  - apply srun_ret. exists q. rewrite (kept_limit _ _ Hk). by destruct Hq.
Qed.
End Enqueue.
Lemma writea_ok junk fault fuel s q buf anc nonblock :
  good (s_pb s) q -> Forall tame (s_env s) -> padded buf anc ->
  srun (packetbuffer_writea junk fault (S fuel) buf anc nonblock false) s
    (fun r s' => r = bsize buf /\ exists q' total, advanced s s' q q' /\ header_total (bsize buf) (bsize anc) = Some total
       /\ good (s_pb s') (q' ++ [(written (s_pb s') total buf, anc)])
       /\ (s_env s' = s_env s -> pb_count (s_pb s') = pb_count (s_pb s) + total))
    (fun e s' => exists q', advanced s s' q q' /\ good (s_pb s') q' /\ write_error s fault buf anc nonblock (s_pb s') q' e).
Proof.
  intros Hg He Hp. unfold packetbuffer_writea. cbn [packetbuffer_writea_vio].
  change (Z.of_nat (length buf)) with (bsize buf). change (Z.of_nat (length anc)) with (bsize anc).
  apply srun_bind. unfold srun at 1, sget. destruct (header_total _ _) as [total|] eqn:Ht.
  - eapply run_seq; [apply (write_wait_ok junk fault buf anc total nonblock Ht Hp _ s q Hg He); lia|].
    intros [] s' (q'&Ha&Hq').
    + apply srun_ret. split; [done|]. exists q', total. by destruct Hq'.
    + destruct Hq' as [Hq' Hlim]. apply run_pb. apply srun_throw. exists q'. split_and!; [done|done|].
      apply we_large. rewrite Ht. by intros ? [= <-].
  - apply srun_bind, srun_ret. apply run_pb. apply srun_throw. exists q.
    split_and!; [apply advanced_kept, kept_same|done|]. apply we_large. by rewrite Ht.
Qed.

(** ** Reading *)
Record front (p : packetbuffer) (pk : packet) (q : list packet) (total pad : Z) : Prop := {
  f_total : 8 + CEIL4 (bsize pk.1) + CEIL4 (bsize pk.2) <= total <= pb_count p /\ total < 65536 /\ total mod 4 = 0;
  f_header : cyc (pb_base p) (pb_addr p) 8 = header_bytes (MkHeader total (bsize pk.1) (bsize pk.2) pad);
  f_payload : cyc (pb_base p) (pb_addr p + 8) (length pk.1) = pk.1;
  f_anc : cyc (pb_base p) (pb_addr p + 8 + CEIL4 (bsize pk.1)) (length pk.2) = pk.2;
  f_rest : encodes (cyc (pb_base p) (pb_addr p + total) (Z.to_nat (pb_count p - total))) q
}.
Lemma cyc_mid base a n l1 l2 l3 : cyc base a n = l1 ++ l2 ++ l3 -> cyc base (a + bsize l1) (length l2) = l2.
Proof.
  intros E. assert (En : n = (length l1 + (length l2 + length l3))%nat) by (by rewrite <- (cyc_length base a n), E, !length_app).
  rewrite En, !cyc_app in E. apply app_inj_1 in E as [_ E]; [|by rewrite cyc_length].
  apply app_inj_1 in E as [E _]; [done|by rewrite cyc_length].
Qed.
Lemma encodes_front p pk q : 0 <= pb_count p -> encodes (unread p) (pk :: q) -> exists total pad, front p pk q total pad.
Proof.
  intros Hc He. inversion He as [|block rest pk' q' Hb Hrest E]; subst. destruct Hb as (pad&gap&tail&Eb&Hm&Hlt&Hg&Hle).
  assert (En : pb_count p = bsize block + bsize rest).
  { apply (f_equal length) in E. rewrite length_app in E. unfold unread in E. rewrite cyc_length in E. unfold bsize. lia. }
  assert (Hr0 : 0 <= bsize rest) by (unfold bsize; lia). exists (bsize block), pad.
  set (hb := header_bytes _) in Eb. assert (Hh : bsize hb = 8) by done.
  assert (E' : unread p = hb ++ pk.1 ++ gap ++ pk.2 ++ tail ++ rest) by (rewrite <- E; transitivity ((hb ++ pk.1 ++ gap ++ pk.2 ++ tail) ++ rest);
    [by f_equal|by rewrite <- !app_assoc]).
  split.
  - split_and!; [lia|lia|done|done].
  - apply (cyc_mid _ _ _ []) in E'. by rewrite Z.add_0_r in E'.
  - apply cyc_mid in E'. by rewrite Hh in E'.
  - destruct (decide (pk.2 = [])) as [->|Hne]; [done|]. specialize (Hg Hne).
    rewrite (app_assoc hb), (app_assoc (hb ++ pk.1)) in E'. apply cyc_mid in E'. rewrite !bsize_app, Hh, Hg in E'.
    by replace (pb_addr p + 8 + CEIL4 (bsize pk.1)) with (pb_addr p + (8 + bsize pk.1 + (CEIL4 (bsize pk.1) - bsize pk.1))) by lia.
  - rewrite <- (app_nil_r rest) in E. symmetry in E. apply cyc_mid in E.
    replace (Z.to_nat (pb_count p - bsize block)) with (length rest) by (unfold bsize in *; lia). by rewrite E.
Qed.

(** A buffer [buf] of the user that received [bs] in two pieces, [k] bytes first: the
    second piece is stored at the first byte again. *)
Definition delivered (k : Z) (bs buf : list Z) : list Z :=
  if decide (bsize bs <= k) then bs ++ drop (length bs) buf
  else drop (Z.to_nat k) bs ++ drop (length bs - Z.to_nat k) (take (Z.to_nat k) bs ++ drop (Z.to_nat k) buf).
Lemma ring_mod p x : ring_ok p -> 0 <= x mod bsize (pb_base p) < bsize (pb_base p).
Proof. intros Hr. pose proof (ring_bounds _ Hr). apply Z.mod_pos_bound. lia. Qed.
(** Aligned words do not cross the end of the buffer. *)
Lemma ring_word p x : ring_ok p -> x mod 4 = 0 -> x mod bsize (pb_base p) + 4 <= bsize (pb_base p).
Proof.
  intros Hr Hx. pose proof (ring_bounds _ Hr) as [HN HN4]. pose proof (ring_mod _ x Hr) as Hm.
  set (N := bsize (pb_base p)) in *. pose proof (Z.div_mod x N ltac:(lia)) as E.
  apply Z.mod_divide in Hx as [i Ei]; [|done]. apply Z.mod_divide in HN4 as [j Ej]; [|done].
  rewrite Ei, Ej in E at 1. set (y := x mod N) in *. set (d := x / N) in *.
  assert (y = (i - j * d) * 4) by lia. lia.
Qed.
Lemma bytes16 x : 0 <= x < 65536 -> x mod 256 + 256 * (x / 256 mod 256) = x.
Proof.
  intros Hx. pose proof (Z.div_mod x 256). rewrite (Z.mod_small (x / 256)); [lia|].
  split; [apply Z.div_pos; lia|apply Z.div_lt_upper_bound; lia].
Qed.

Lemma front_sizes p pk q total pad : ring_ok p -> front p pk q total pad ->
  0 <= bsize pk.1 /\ 0 <= bsize pk.2 /\ bsize pk.1 + bsize pk.2 + 8 <= total /\ total <= bsize (pb_base p)
  /\ CEIL4 (bsize pk.1) + 8 <= bsize (pb_base p).
Proof.
  intros Hr Hf. pose proof (ceil4_bounds (bsize pk.1)). pose proof (ceil4_bounds (bsize pk.2)).
  destruct (f_total _ _ _ _ _ Hf) as (?&?&?). destruct (ro_count _ Hr) as [? _].
  assert (0 <= bsize pk.1) by (unfold bsize; lia). assert (0 <= bsize pk.2) by (unfold bsize; lia). split_and!; lia.
Qed.
(** [s] has the bytes of [p]. *)
Lemma load_header_at s p pk q total pad R Q :
  ring_ok p -> front p pk q total pad -> pb_base (s_pb s) = pb_base p -> pb_mask (s_pb s) = pb_mask p ->
  Q (MkHeader total (bsize pk.1) (bsize pk.2) (pad mod 256 + 256 * (pad / 256 mod 256))) s -> srun (load_header (pb_addr p)) s Q R.
Proof.
  intros Hr Hf Eb Em HQ. destruct (ro_addr _ Hr) as [Ha Ha4]. destruct (f_total _ _ _ _ _ Hf) as (?&?&_).
  destruct (front_sizes _ _ _ _ _ Hr Hf) as (?&?&?&?&?). pose proof (ring_mod _ (pb_addr p + 4) Hr) as Hm4.
  unfold load_header. apply run_pb. rewrite Em, !(ring_land _ _ Hr), Z.add_0_r. set (N := bsize (pb_base p)) in *.
  rewrite (Z.mod_small (pb_addr p)) by lia.
  assert (Hw0 : pb_addr p mod N + 4 <= N) by (apply (ring_word _ _ Hr Ha4)). rewrite Z.mod_small in Hw0 by lia.
  assert (Hw4 : (pb_addr p + 4) mod N + 4 <= N).
  { apply (ring_word _ (pb_addr p + 4) Hr). rewrite Zplus_mod, Ha4. done. }
  apply srun_bind. apply load_ok; unfold base_of; rewrite ?Eb; [lia|lia|exact Hw0|].
  apply srun_bind. apply load_ok; unfold base_of; rewrite ?Eb; [lia|lia|exact Hw4|]. apply srun_ret.
  unfold N. rewrite (cyc_mod (pb_base p) (pb_addr p + 4)) by (fold N; lia).
  pose proof (f_header _ _ _ _ _ Hf) as E. change 8%nat with (4 + 4)%nat in E. rewrite cyc_app in E.
  apply (app_inj_1 _ (take 4 (header_bytes _)) _ (drop 4 (header_bytes _))) in E as [E1 E2]; [|done].
  change (Z.to_nat 4) with 4%nat. rewrite E1. change (Z.of_nat 4) with 4 in E2. rewrite E2. unfold get16, header_bytes, le16. cbn.
  by rewrite !bytes16 by lia.
Qed.

Section Dequeue.
Context (s : pst) (pk : packet) (q : list packet) (total pad : Z) (R : error_code -> pst -> Prop).
Context (Hr : ring_ok (s_pb s)) (Hf : front (s_pb s) pk q total pad).
Let N : Z := bsize (pb_base (s_pb s)).
Let addr : Z := pb_addr (s_pb s).
Let count : Z := pb_count (s_pb s).

Lemma load_header_ok Q :
  Q (MkHeader total (bsize pk.1) (bsize pk.2) (pad mod 256 + 256 * (pad / 256 mod 256))) s -> srun (load_header addr) s Q R.
Proof. by apply (load_header_at s (s_pb s) pk q total pad). Qed.
Lemma get_payload_ok fault buf n :
  0 <= n <= bsize pk.1 -> n <= bsize buf ->
  (forall e, fault = Some e -> R e s) ->
  srun (get_payload fault ((addr + 8) mod N) n [buf]) s
    (fun iov s' => s' = s /\ iov = [delivered (N - (addr + 8) mod N) (take (Z.to_nat n) pk.1) buf]) R.
Proof.
  intros Hn Hnb HR. destruct (front_sizes _ _ _ _ _ Hr Hf) as (P1&P2&P3&P4&P5). pose proof (ring_mod _ (addr + 8) Hr) as Hm. fold N in Hm, P4, P5.
  unfold get_payload. apply run_pb. rewrite (ro_mask _ Hr). fold N. rewrite Z.sub_add. set (a := (addr + 8) mod N) in *.
  assert (Hp : forall m, (m <= length pk.1)%nat -> cyc (base_of s) a m = take m pk.1).
  { intros m Hm2. unfold a, base_of. fold N. rewrite (cyc_mod (pb_base (s_pb s))) by (fold N; lia).
    rewrite <- (f_payload _ _ _ _ _ Hf) at 1. replace (length pk.1) with (m + (length pk.1 - m))%nat at 1 by lia.
    rewrite cyc_app. fold addr. by rewrite take_app_length' by (by rewrite cyc_length). }
  assert (HU : forall iov off bs iov' Q, iov_write iov (Z.to_nat off) bs = Ret iov' -> (bs = [] -> iov' = iov) -> Q iov' s ->
    srun (user_write fault iov off bs) s Q R).
  { intros iov off bs iov' Q E Ee HQ. unfold user_write. destruct fault as [e|]; [|by eapply srun_lift].
    destruct bs; [apply srun_ret; by rewrite <- Ee|]. apply srun_throw. by apply HR. }
  unfold delivered. set (t := take (Z.to_nat n) pk.1).
  assert (Lt : length t = Z.to_nat n) by (unfold t, bsize in *; rewrite length_take; lia).
  assert (Bt : bsize t = n) by (unfold bsize; lia).
  destruct (Z.leb_spec n (N - a)).
  - rewrite decide_True by lia. apply srun_bind, load_ok; [lia|lia|unfold base_of; fold N; lia|]. rewrite Hp by (unfold bsize in *; lia).
    fold t. eapply HU; [apply iov_write_single; unfold bsize in *; lia| |done]. intros ->. done.
  - rewrite decide_False by lia. apply srun_bind, load_ok; [lia|lia|unfold base_of; fold N; lia|]. rewrite Hp by (unfold bsize in *; lia).
    replace (take (Z.to_nat (N - a)) pk.1) with (take (Z.to_nat (N - a)) t) by (unfold t; rewrite take_take; f_equal; lia).
    set (t1 := take _ t). assert (L1 : length t1 = Z.to_nat (N - a)) by (unfold t1; rewrite length_take; lia).
    apply srun_bind. eapply HU; [apply iov_write_single; unfold bsize in *; lia|by intros ->|]. rewrite L1.
    apply srun_bind, load_ok; [lia|lia|unfold base_of; fold N; lia|].
    assert (E2 : cyc (base_of s) 0 (Z.to_nat (n - (N - a))) = drop (Z.to_nat (N - a)) t).
    { pose proof (Hp (Z.to_nat n) ltac:(unfold bsize in *; lia)) as E. fold t in E.
      replace (Z.to_nat n) with (Z.to_nat (N - a) + Z.to_nat (n - (N - a)))%nat in E by lia. rewrite cyc_app in E.
      rewrite <- E, drop_app_length' by (by rewrite cyc_length).
      rewrite <- (cyc_shift _ 0 1). f_equal. unfold base_of. fold N. lia. }
    rewrite E2. set (t2 := drop _ t). assert (L2 : length t2 = (length t - Z.to_nat (N - a))%nat) by (unfold t2; apply length_drop).
    eapply HU; [apply iov_write_at; rewrite length_app, length_drop; unfold bsize in *; lia|by intros ->|].
    by rewrite L2.
Qed.
End Dequeue.

(** Ancillary data, copied or byte by byte. *)
Lemma get_ancillary_ok s a n (Q : list Z -> pst -> Prop) R :
  ring_ok (s_pb s) -> 0 <= a < bsize (base_of s) -> 0 <= n <= bsize (base_of s) ->
  Q (cyc (base_of s) a (Z.to_nat n)) s -> srun (get_ancillary a n) s Q R.
Proof.
  intros Hr Ha Hn HQ. unfold get_ancillary. apply run_pb. rewrite (ro_mask _ Hr). fold (base_of s). set (N := bsize (base_of s)) in *.
  rewrite Z.sub_add. cbv zeta. apply srun_bind, load_ok; [lia|lia|fold N; lia|]. destruct (Z.ltb_spec (Z.min (N - a) n) n).
  - rewrite Z.min_l by lia. apply srun_bind, load_ok; [lia|lia|fold N; lia|]. apply srun_ret.
    replace (Z.to_nat n) with (Z.to_nat (N - a) + Z.to_nat (n - (N - a)))%nat in HQ by lia. rewrite cyc_app in HQ.
    replace (a + Z.of_nat (Z.to_nat (N - a))) with (0 + 1 * N) in HQ by lia. unfold N in HQ at 2. by rewrite cyc_shift in HQ.
  - apply srun_ret. by rewrite Z.min_r by lia.
Qed.
Lemma mapM_access (l : list nat) (f : nat -> option Z) (g : nat -> Z) :
  (forall i, f i = Some (g i)) -> mapM (fun i => access (f i)) l = Ret (g <$> l).
Proof.
  induction l as [|i l IH]; intros H; [done|]. cbn. rewrite (H i). cbn. by rewrite IH.
Qed.
Lemma packet_data_ok s p a n (Q : list Z -> pst -> Prop) R :
  ring_ok p -> pb_base (s_pb s) = pb_base p -> pb_mask (s_pb s) = pb_mask p ->
  Q (cyc (base_of s) a (Z.to_nat n)) s -> srun (packet_data a n) s Q R.
Proof.
  intros Hr Eb Em HQ. unfold packet_data. apply run_pb. eapply srun_lift; [|exact HQ]. apply mapM_access. intros i.
  rewrite Em, (ring_land _ _ Hr), <- Eb. pose proof (ring_mod _ (a + Z.of_nat i) Hr) as Hm. rewrite <- Eb in Hm. unfold byte_at, base_of.
  rewrite nth_lookup. destruct (pb_base (s_pb s) !! _) eqn:E; [done|]. apply lookup_ge_None_1 in E. unfold bsize in *. lia.
Qed.
Lemma ancillary_addr_ok p n : ring_ok p -> ancillary_addr (pb_addr p) n (pb_mask p) = (pb_addr p + 8 + CEIL4 n) mod bsize (pb_base p).
Proof.
  intros Hr. unfold ancillary_addr. rewrite (ring_land _ _ Hr). f_equal. change (CEIL4 HEADER_SIZE) with 8.
  destruct (ro_addr _ Hr) as [_ Ha]. pose proof (ceil4_bounds n) as [Hc Hm]. apply ceil4_unique; [|lia].
  replace (pb_addr p + 8 + CEIL4 n) with (pb_addr p + CEIL4 n + 2 * 4) by lia. rewrite Z_mod_plus_full, Zplus_mod, Ha, Hm. done.
Qed.
(** The packets behind the first one, after it was removed and part of its header changed. *)
Lemma removed p base' pk q total pad :
  ring_ok p -> front p pk q total pad -> length base' = length (pb_base p) ->
  cyc base' (pb_addr p + total) (Z.to_nat (pb_count p - total)) = cyc (pb_base p) (pb_addr p + total) (Z.to_nat (pb_count p - total)) ->
  holds (set_packets (Z.land (u16 (pb_addr p + total)) (pb_mask p)) (u16 (pb_count p - total)) (set_base base' p)) q.
Proof.
  intros Hr Hf Hl Eb. destruct (f_total _ _ _ _ _ Hf) as (Ht&Ht6&Ht4). pose proof (ring_bounds _ Hr) as [HN HN4].
  pose proof (ceil4_bounds (bsize pk.1)) as [? _]. pose proof (ceil4_bounds (bsize pk.2)) as [? _].
  assert (0 <= bsize pk.1) by (unfold bsize; lia). assert (0 <= bsize pk.2) by (unfold bsize; lia).
  destruct (ro_addr _ Hr) as [Ha Ha4], (ro_count _ Hr) as [Hc Hc4]. rewrite !u16_small by lia. rewrite (ring_land _ _ Hr).
  assert (El : bsize base' = bsize (pb_base p)) by (unfold bsize; by rewrite Hl). right. split.
  - pose proof (ro_pow _ Hr) as A. pose proof (ro_mask _ Hr) as B. split; cbn; rewrite El; [done|done| |].
    + split; [apply Z.mod_pos_bound; lia|]. rewrite <- (Znumtheory.Zmod_div_mod 4); [|lia|lia|].
      * by rewrite Zplus_mod, Ha4, Ht4.
      * by apply Z.mod_divide in HN4.
    + split; [lia|]. by rewrite Zminus_mod, Hc4, Ht4.
  - unfold unread. cbn. rewrite <- El at 1. rewrite cyc_mod by lia. rewrite Eb. apply Hf.
Qed.

Definition received (p : packetbuffer) (pk : packet) (buf : list Z) : list Z :=
  delivered (bsize (pb_base p) - (pb_addr p + 8) mod bsize (pb_base p)) (take (length buf) pk.1) buf.
Definition peeked (mode : Z) (buf : list Z) (pk : packet) : bool :=
  flagged mode PACKET_IO_FRDNEVER || (flagged mode PACKET_IO_FRDIFFIT && (bsize buf <? bsize pk.1)).
Definition taken (mode : Z) (buf : list Z) (anc : option Z) (pk : packet) : bool :=
  negb (peeked mode buf pk) && match anc with Some avail => bsize pk.2 <=? avail | None => true end.
Definition anc_read (anc : option Z) (pk : packet) : list Z := if anc then pk.2 else [].
Definition anc_finalized (p : packetbuffer) (anc : option Z) (pk : packet) : list (list Z) :=
  if pb_ancillary_fini p && negb (bool_decide (pk.2 = [])) && bool_decide (anc = None) then [pk.2] else [].
Definition read_post (p : packetbuffer) (fini : list (list Z)) (pk : packet) (q : list packet) (buf : list Z)
    (anc : option Z) (mode : Z) (r : rresult) (s' : pst) : Prop :=
  rd_iov r = [received p pk buf] /\ rd_bufsize r = bsize pk.1 /\ rd_result r = taken mode buf anc pk /\
  if taken mode buf anc pk then
    good (s_pb s') q /\ rd_anc r = anc_read anc pk /\ rd_ancsize r = bsize (anc_read anc pk)
    /\ s_fini s' = fini ++ anc_finalized p anc pk
  else
    s_pb s' = p /\ s_fini s' = fini /\ rd_anc r = [] /\ rd_ancsize r = if peeked mode buf pk then 0 else bsize pk.2.
Definition exchanged (next : Z * Z) (exchange : bool) (s : pst) : pst :=
  if exchange then with_pb (set_packets (fst next) (snd next) (s_pb s)) s else s.

Section ReadPacket.
Context (fault : option error_code) (s : pst) (pk : packet) (q : list packet) (total pad : Z).
Context (buf : list Z) (anc : option Z) (mode : Z) (R : error_code -> pst -> Prop).
Context (Hr : ring_ok (s_pb s)) (Hl : limit (s_pb s) <= 8192) (Hf : front (s_pb s) pk q total pad).
Context (Hm : flagged mode PACKET_IO_FRDTRUNC = false) (Hav : forall avail, anc = Some avail -> 0 <= avail).
Context (HR : forall e, fault = Some e -> R e s).
Let Post (x : rresult * (Z * Z) * bool) (s' : pst) : Prop :=
  s_env s' = s_env s /\ read_post (s_pb s) (s_fini s) pk q buf anc mode (fst (fst x)) (exchanged (snd (fst x)) (snd x) s').
Let next : Z * Z := (Z.land (u16 (pb_addr (s_pb s) + total)) (pb_mask (s_pb s)), u16 (pb_count (s_pb s) - total)).

Lemma removed_good base' : length base' = length (base_of s) ->
  cyc base' (pb_addr (s_pb s) + total) (Z.to_nat (pb_count (s_pb s) - total))
    = cyc (base_of s) (pb_addr (s_pb s) + total) (Z.to_nat (pb_count (s_pb s) - total)) ->
  good (set_packets (fst next) (snd next) (set_base base' (s_pb s))) q.
Proof. intros Hb E. split; [|done]. by eapply removed. Qed.
Lemma removed_same : good (set_packets (fst next) (snd next) (s_pb s)) q.
Proof. pose proof (removed_good (base_of s) eq_refl eq_refl) as H. by rewrite set_base_id in H. Qed.
Lemma anc_bytes base' : length base' = length (base_of s) ->
  cyc base' (pb_addr (s_pb s) + 8 + CEIL4 (bsize pk.1)) (length pk.2)
    = cyc (base_of s) (pb_addr (s_pb s) + 8 + CEIL4 (bsize pk.1)) (length pk.2) ->
  cyc base' (ancillary_addr (pb_addr (s_pb s)) (bsize pk.1) (pb_mask (s_pb s))) (Z.to_nat (bsize pk.2)) = pk.2.
Proof.
  intros Hb E. rewrite (ancillary_addr_ok _ _ Hr). unfold bsize at 3. rewrite Nat2Z.id.
  assert (El : bsize (pb_base (s_pb s)) = bsize base') by (unfold bsize, base_of in *; by rewrite Hb).
  pose proof (ring_bounds _ Hr) as [? _]. rewrite El, cyc_mod by lia. rewrite E. apply Hf.
Qed.
(** The packet goes away, and its ancillary data with it. *)
Lemma drop_ancillary_ok r : rd_iov r = [received (s_pb s) pk buf] -> rd_bufsize r = bsize pk.1 ->
  rd_result r = true -> rd_ancsize r = 0 -> rd_anc r = [] -> anc = None -> peeked mode buf pk = false -> pk.2 <> [] ->
  srun ((if pb_ancillary_fini (s_pb s) then
           store (Z.land (pb_addr (s_pb s) + 4) (pb_mask (s_pb s))) (le16 0) ≫= fun _ =>
           data ← packet_data (ancillary_addr (pb_addr (s_pb s)) (bsize pk.1) (pb_mask (s_pb s))) (bsize pk.2); finalize data
         else mret tt) ≫= fun _ => mret (r, next, true)) s Post R.
Proof.
  intros E1 E2 E3 E4 E5 Ea Hpk Hne. unfold Post, read_post, taken, anc_finalized, anc_read. rewrite Hpk, Ea.
  rewrite (bool_decide_false _ Hne), bool_decide_eq_true_2 by done. cbn [negb andb fst snd exchanged].
  destruct (pb_ancillary_fini (s_pb s)); cbn [negb andb].
  - pose proof (ring_bounds _ Hr) as [HN _]. destruct (front_sizes _ _ _ _ _ Hr Hf) as (?&?&?&?&?).
    destruct (f_total _ _ _ _ _ Hf) as (Ht&_&_). destruct (ro_addr _ Hr) as [Ha Ha4], (ro_count _ Hr) as [Hc _].
    pose proof (ceil4_bounds (bsize pk.1)) as [? _]. pose proof (ceil4_bounds (bsize pk.2)) as [? _].
    rewrite (ring_land _ _ Hr). fold (base_of s) in *. pose proof (ring_mod _ (pb_addr (s_pb s) + 4) Hr) as Hm4.
    pose proof (ring_word _ (pb_addr (s_pb s) + 4) Hr ltac:(by rewrite Zplus_mod, Ha4)) as Hw. fold (base_of s) in Hm4, Hw.
    apply srun_bind. eapply run_seq; [apply store_ok; [lia|lia|change (bsize (le16 0)) with 2; lia]|].
    intros [] s1 Hst. pose proof (stored_ring _ _ _ _ Hst Hr) as Hr1. apply (stored_mod s (pb_addr (s_pb s) + 4)) in Hst; [|lia]. destruct Hst as (b&->&Hb).
    assert (Hoth : forall a n, pb_addr (s_pb s) + 6 <= a -> a + Z.of_nat n <= pb_addr (s_pb s) + 4 + bsize (base_of s) ->
      cyc b a n = cyc (base_of s) a n).
    { intros a n ??. eapply patched_other; [lia| | |exact Hb]; [change (bsize (le16 0)) with 2; lia|lia]. }
    apply srun_bind. apply (packet_data_ok _ _ _ _ _ _ Hr1); [done|done|]. change (base_of (with_base b s)) with b.
    rewrite anc_bytes; [|apply Hb|apply Hoth; unfold bsize in *; lia]. cbn.
    rewrite E1, E2, E3, E4, E5. split_and!; try done. apply removed_good; [apply Hb|apply Hoth; lia].
  - apply srun_bind, srun_ret, srun_ret. cbn. rewrite E1, E2, E3, E4, E5, app_nil_r. split_and!; try done. apply removed_same.
Qed.
Lemma read_packet_ok : srun (read_packet fault [buf] (bsize buf) anc mode) s Post R.
Proof.
  pose proof (ring_bounds _ Hr) as [HN _]. destruct (front_sizes _ _ _ _ _ Hr Hf) as (P1&P2&P3&P4&P5).
  destruct (f_total _ _ _ _ _ Hf) as (Ht&Ht6&Ht4). destruct (ro_addr _ Hr) as [Ha Ha4], (ro_count _ Hr) as [Hc _].
  pose proof (ring_mod _ (pb_addr (s_pb s) + 8) Hr) as Hm8. assert (Hb : 0 <= bsize buf) by (unfold bsize; lia).
  assert (H4 : forall x, Z.land x (PACKET_BUFFER_ALIGNMENT - 1) = x mod 4) by (intros x; apply (land_low 2); lia).
  pose proof (ceil4_bounds (bsize pk.1)) as [? _]. pose proof (ceil4_bounds (bsize pk.2)) as [? _].
  unfold read_packet. apply run_pb. rewrite !H4.
  apply srun_bind, srun_check; [by rewrite Ha4|]. apply srun_bind, srun_check; [change (CEIL4 HEADER_SIZE) with 8; lia|].
  apply srun_bind, (load_header_ok s pk q total pad R Hr Hf). cbn [p_total p_payload p_ancillary p_pad]. rewrite !H4.
  apply srun_bind, srun_check; [lia|]. apply srun_bind, srun_check; [by rewrite Ht4|].
  apply srun_bind, srun_check; [unfold HEADER_SIZE; lia|].
  cbv zeta. unfold HEADER_SIZE. rewrite (ring_land _ (_ + 8) Hr), (u16_small (_ mod _)) by lia.
  eapply run_seq; [apply (get_payload_ok s pk q total pad R Hr Hf); [lia|lia|exact HR]|].
  intros iov s' [-> ->]. rewrite Hm, andb_false_r.
  assert (Etk : take (Z.to_nat (Z.min (bsize pk.1) (bsize buf))) pk.1 = take (length buf) pk.1).
  { unfold bsize. destruct (decide (length buf <= length pk.1)%nat); [f_equal; lia|]. rewrite !take_ge by lia. done. }
  rewrite Etk. fold (received (s_pb s) pk buf).
  replace (Z.min (bsize pk.1) (bsize buf) <? bsize pk.1) with (bsize buf <? bsize pk.1)
    by (destruct (Z.ltb_spec (bsize buf) (bsize pk.1)), (Z.ltb_spec (Z.min (bsize pk.1) (bsize buf)) (bsize pk.1)); lia).
  replace (negb _ && negb _) with (negb (peeked mode buf pk)) by (unfold peeked; by rewrite negb_orb).
  destruct (peeked mode buf pk) eqn:Ep; cbn [negb].
  - cbn [andb]. apply srun_ret. unfold Post, read_post, taken. rewrite Ep. cbn. split_and!; try done. by destruct (s_pb s).
  - fold next. assert (Hnil : bsize pk.2 = 0 <-> pk.2 = []).
    { unfold bsize. destruct pk.2; [done|]. split; [cbn; lia|done]. }
    destruct (Z.eqb_spec (bsize pk.2) 0) as [E0|E0]; cbn [negb andb].
    + apply srun_ret. pose proof (proj1 Hnil E0) as En. unfold Post, read_post, taken, anc_finalized, anc_read. rewrite Ep, E0, En.
      assert (Eav : match anc with Some avail => 0 <=? avail | None => true end = true)
        by (destruct anc as [avail|]; [specialize (Hav avail eq_refl); lia|done]).
      rewrite Eav, bool_decide_eq_true_2, andb_false_r, app_nil_r by done. cbn.
      split_and!; try done; [apply removed_same|by destruct anc..].
    + assert (Hne : pk.2 <> []) by (by intros ?%Hnil). pose proof drop_ancillary_ok as Hdrop. destruct anc as [avail|].
      * destruct (Z.ltb_spec avail (bsize pk.2)) as [Hlt|Hge].
        -- apply srun_ret. unfold Post, read_post, taken. rewrite Ep, (proj2 (Z.leb_gt _ _) Hlt). cbn. by split_and!.
        -- assert (Hbd : 0 <= ancillary_addr (pb_addr (s_pb s)) (bsize pk.1) (pb_mask (s_pb s)) < bsize (base_of s)).
           { rewrite (ancillary_addr_ok _ _ Hr). by apply ring_mod. }
           apply srun_bind, get_ancillary_ok; [done|done|unfold base_of in *; lia|]. rewrite anc_bytes by done. apply srun_ret.
           unfold Post, read_post, taken, anc_finalized, anc_read. rewrite Ep, (proj2 (Z.leb_le _ _) Hge).
           rewrite (bool_decide_eq_false_2 (Some avail = None)), andb_false_r, app_nil_r by done. cbn.
           split_and!; try done. apply removed_same.
      * by apply Hdrop.
Qed.
End ReadPacket.

(** Why nothing is read. *)
Inductive read_error (fault : option error_code) (nonblock : bool) (q : list packet) : error_code -> Prop :=
| re_fault e : fault = Some e -> read_error fault nonblock q e
| re_block : nonblock = true -> q = [] -> read_error fault nonblock q E_WOULDBLOCK
| re_interrupt : nonblock = false -> q = [] -> read_error fault nonblock q E_INTERRUPT.
Lemma holds_nonempty p q : holds p q -> pb_count p = 0 -> q = [].
Proof.
  intros [[_ ?]|[Hr He]] Hc; [done|]. unfold unread in He. rewrite Hc in He. inversion He as [|block rest pk q' Hb _ E]; [done|].
  destruct Hb as (?&?&?&_&_&_&_&Hle). destruct block; [|done]. pose proof (ceil4_bounds (bsize pk.1)). pose proof (ceil4_bounds (bsize pk.2)).
  unfold bsize in *. cbn in Hle. lia.
Qed.
Lemma flagged_iov mode f : Z.land IO_NOIOVCHECK f = 0 -> flagged (Z.lor mode IO_NOIOVCHECK) f = flagged mode f.
Proof. intros E. unfold flagged. by rewrite Z.land_lor_distr_l, E, Z.lor_0_r. Qed.

Section Dequeueing.
Context (fault : option error_code) (buf : list Z) (anc : option Z) (nonblock : bool) (mode : Z).
Context (Hm : flagged mode PACKET_IO_FRDTRUNC = false) (Hav : forall avail, anc = Some avail -> 0 <= avail).
(** [s1]: the state when the packet is read or the end is reached. *)
Definition dequeued (s : pst) (q : list packet) (r : rresult) (s' : pst) : Prop := exists s1 q',
  advanced s s1 q q' /\ good (s_pb s1) q' /\ s_fini s1 = s_fini s /\ s_env s' = s_env s1 /\
  match q' with
  | [] => is_closed_pb (s_pb s1) = true /\ r = MkRead false [buf] 0 0 [] /\ s' = s1
  | pk :: rest => read_post (s_pb s1) (s_fini s) pk rest buf anc mode r s'
  end.

Lemma read_wait_ok : forall fuel s q,
  good (s_pb s) q -> Forall tame (s_env s) -> (length (s_env s) < fuel)%nat ->
  srun (read_wait fault fuel [buf] (bsize buf) anc nonblock mode) s (dequeued s q)
    (fun e s' => exists q', advanced s s' q q' /\ good (s_pb s') q' /\ read_error fault nonblock q' e).
Proof.
  induction fuel as [|fuel IH]; intros s q Hg Ha Hf; [lia|]. cbn [read_wait]. apply run_pb.
  pose proof (advanced_kept s s q (kept_same s)) as Hadv. destruct Hg as [Hq Hl].
  destruct (Z.eqb_spec (pb_count (s_pb s)) 0) as [Ec|Ec].
  - pose proof (holds_nonempty _ _ Hq Ec) as ->. destruct (is_closed_pb _) eqn:Ecl; [apply srun_ret; by exists s, []|].
    destruct nonblock eqn:En; [apply srun_throw; exists []; split_and!; [done|done|by apply re_block]|].
    apply srun_bind. unfold task_wait, mbind, SM_bind, sget. unfold srun at 1.
    destruct (s_env s) as [|f env] eqn:E'; [exists []; split_and!; [done|done|by apply re_interrupt]|].
    cbn. pose proof (Forall_inv Ha) as Hf1. apply Forall_inv_tail in Ha. destruct (Hf1 (s_pb s) [] ltac:(done)) as (q1&Hq1).
    eapply srun_mono; [apply (IH _ q1); [exact Hq1|exact Ha|cbn in *; lia]| |].
    + intros r s2 (s1&q2&Hadv2&H2). exists s1, q2. split; [|done]. eapply advanced_wait; [|exact Hadv2]. done.
    + intros e s2 (q2&Hadv2&H2). exists q2. split; [|done]. eapply advanced_wait; [|exact Hadv2]. done.
  - pose proof (holds_empty _ _ Hq Ec) as Hne. destruct q as [|pk rest]; [done|].
    destruct Hq as [[(_&_&_&?) _]|[Hr He]]; [done|].
    destruct (encodes_front (s_pb s) pk rest) as (total&pad&Hfr); [destruct (ro_count _ Hr); lia|done|].
    eapply run_seq; [apply (read_packet_ok fault s pk rest total pad buf anc mode _ Hr Hl Hfr Hm Hav)|].
    { intros e E. exists (pk :: rest). split_and!; [done|by split; [right|]|by apply re_fault]. }
    intros [[r next] exch] s1 [Eenv Hpost]. cbn [fst snd] in Hpost.
    assert (Hfin : forall sg, let s2 := exchanged next exch s1 in
      dequeued s (pk :: rest) r (MkPst (s_pb s2) (s_heap s2) (s_fini s2) sg (s_env s2))).
    { intros sg s2. exists s, (pk :: rest). split_and!; [done|by split; [right|]|done|by destruct exch|exact Hpost]. }
    apply srun_bind. destruct exch; cbn; destruct (snd next =? 0); apply Hfin.
Qed.
Lemma readva_ok s q :
  good (s_pb s) q -> Forall tame (s_env s) ->
  srun (packetbuffer_readva fault [buf] (bsize buf) anc nonblock mode) s (dequeued s q)
    (fun e s' => exists q', advanced s s' q q' /\ good (s_pb s') q' /\ read_error fault nonblock q' e).
Proof. intros Hg He. unfold packetbuffer_readva. apply srun_bind. apply read_wait_ok; [done|done|lia]. Qed.
End Dequeueing.

(** ** Finalization *)
Definition ancillary (q : list packet) : list (list Z) := filter (fun l => l <> []) (snd <$> q).
Lemma fini_loop_ok R : forall q a c fuel s,
  ring_ok (set_packets a c (s_pb s)) -> encodes (unread (set_packets a c (s_pb s))) q -> c <= Z.of_nat fuel ->
  srun (fini_loop fuel a c) s (fun _ s' => s_pb s' = s_pb s /\ s_fini s' = s_fini s ++ ancillary q) R.
Proof.
  induction q as [|pk q IH]; intros a c fuel s Hr He Hf; set (p := set_packets a c (s_pb s)) in *.
  - assert (Hc : c = 0).
    { destruct (decide (c = 0)) as [|Hc]; [done|]. by destruct (holds_empty p [] (or_intror (conj Hr He)) Hc). }
    rewrite Hc. destruct fuel; cbn [fini_loop]; (rewrite Z.eqb_refl; apply srun_ret; by rewrite app_nil_r).
  - destruct (ro_count _ Hr) as [Hc0 _]. destruct (encodes_front p pk q) as (total&pad&Hfr); [apply Hc0|done|].
    destruct (front_sizes _ _ _ _ _ Hr Hfr) as (?&?&?&?&?). destruct (f_total _ _ _ _ _ Hfr) as (Ht&Ht6&_). pose proof (ring_bounds _ Hr).
    change (pb_count p) with c in *. destruct fuel as [|fuel]; [lia|]. cbn [fini_loop].
    destruct (Z.eqb_spec c 0); [lia|]. apply run_pb. apply srun_bind.
    apply (load_header_at s p pk q total pad); [done|done|done|done|]. cbn [p_total p_payload p_ancillary].
    apply srun_bind, srun_check; [destruct (Z.eqb_spec total 0); [lia|done]|]. apply srun_bind, srun_check; [lia|].
    assert (Hnext : forall s1, s_pb s1 = s_pb s ->
      srun (fini_loop fuel (Z.land (u16 (a + total)) (pb_mask (s_pb s))) (u16 (c - total))) s1
        (fun _ s' => s_pb s' = s_pb s1 /\ s_fini s' = s_fini s1 ++ ancillary q) R).
    { intros s1 E1. pose proof (removed p (pb_base p) pk q total pad Hr Hfr eq_refl eq_refl) as Hh.
      destruct Hh as [[Hno _]|[Hr1 He1]].
      { destruct Hno as (Hb&_). change (pb_base p = []) in Hb. unfold bsize in *. rewrite Hb in *. cbn in *. lia. }
      apply IH; rewrite ?E1; [exact Hr1|exact He1|]. rewrite u16_small by lia. lia. }
    unfold ancillary. cbn [fmap list_fmap]. destruct (Z.eqb_spec (bsize pk.2) 0) as [E0|E0]; cbn [negb].
    + apply srun_bind, srun_ret. assert (En : pk.2 = []) by (unfold bsize in E0; destruct pk.2; [done|cbn in E0; lia]).
      rewrite filter_cons_False by (rewrite En; naive_solver). by apply Hnext.
    + rewrite filter_cons_True by (intros En; rewrite En in E0; done). apply srun_bind. apply srun_bind.
      apply (packet_data_ok _ _ _ _ _ _ Hr); [done|done|].
      change (ancillary_addr a (bsize pk.1) (pb_mask (s_pb s))) with (ancillary_addr (pb_addr p) (bsize pk.1) (pb_mask p)).
      rewrite (ancillary_addr_ok p _ Hr). change (base_of s) with (pb_base p). rewrite cyc_mod by lia.
      unfold bsize at 2. rewrite Nat2Z.id, (f_anc _ _ _ _ _ Hfr). unfold srun at 1. cbn -[srun fini_loop].
      eapply srun_mono; [by apply Hnext| |done]. intros [] s' [E1 E2]. cbn in E1, E2. split; [done|]. by rewrite E2, <- app_assoc.
Qed.
Lemma packetbuffer_fini_ok s q : good (s_pb s) q -> pb_ancillary_fini (s_pb s) = true ->
  srun packetbuffer_fini s (fun _ s' => s_pb s' = s_pb s /\ s_fini s' = s_fini s ++ ancillary q) (fun _ _ => False).
Proof.
  intros [Hq _] Hfi. unfold packetbuffer_fini. apply run_pb. rewrite Hfi. destruct Hq as [[(_&_&_&Ec) ->]|[Hr He]].
  - rewrite Ec. apply srun_ret. by rewrite app_nil_r.
  - destruct (ro_count _ Hr) as [Hc _].
    assert (Ep : set_packets (pb_addr (s_pb s)) (pb_count (s_pb s)) (s_pb s) = s_pb s) by (by destruct (s_pb s)).
    apply fini_loop_ok; rewrite ?Ep; [done|done|lia].
Qed.

(** Payloads that do not cross the end of the buffer. *)
Definition payload_place (p : packetbuffer) (total : Z) : Z := (pb_addr p + (pb_count p - total) + 8) mod bsize (pb_base p).
Lemma written_exact p total buf : payload_place p total + bsize buf <= bsize (pb_base p) -> written p total buf = buf.
Proof. unfold payload_place, written, copied. intros H. by rewrite decide_True by lia. Qed.
Lemma received_exact p pk buf :
  (pb_addr p + 8) mod bsize (pb_base p) + bsize pk.1 <= bsize (pb_base p) ->
  received p pk buf = take (length buf) pk.1 ++ drop (length pk.1) buf.
Proof.
  unfold received, delivered. intros H. rewrite decide_True by (unfold bsize in *; rewrite length_take; lia).
  f_equal. rewrite length_take. destruct (decide (length buf <= length pk.1)%nat); [rewrite !drop_ge by lia; done|]. f_equal. lia.
Qed.
Lemma reada_ok fault s q buf anc nonblock mode :
  good (s_pb s) q -> Forall tame (s_env s) -> flagged mode PACKET_IO_FRDTRUNC = false ->
  (forall avail, anc = Some avail -> 0 <= avail) ->
  srun (packetbuffer_reada fault buf anc nonblock mode) s (dequeued buf anc mode s q)
    (fun e s' => exists q', advanced s s' q q' /\ good (s_pb s') q' /\ read_error fault nonblock q' e).
Proof.
  intros Hg He Hm Hav. unfold packetbuffer_reada. change (Z.of_nat (length buf)) with (bsize buf).
  eapply srun_mono; [apply readva_ok; [by rewrite flagged_iov|done|done|done]| |done].
  intros r s' (s1&q'&Ha&Hq&Hfi&Henv&Hp). exists s1, q'. split_and!; try done. destruct q' as [|pk rest]; [done|].
  unfold read_post, taken, peeked in *. by rewrite !flagged_iov in Hp.
Qed.

(** ** Properties *)

Definition st_ex (p : packetbuffer) : pst := MkPst p (fun _ => KBlock (fun _ => 0)) [] [] [].
Lemma good_init limt fini : Z.land limt PBUFFER_LIMT_FMASK <= 8192 -> good (packetbuffer_init limt fini) [].
Proof. intros Hl. split; [by left|]. unfold limit. cbn. by rewrite <- Z.land_assoc, Z.land_diag. Qed.

(** A packet of 3 bytes with 4 of ancillary data, across the end of 16 bytes. *)
Definition pk_ex : packet := ([7; 8; 9], [1; 1; 1; 1]).
Definition pb_ex : packetbuffer := MkPb 12 16 [4; 0; 0; 0; 7; 8; 9; 0; 1; 1; 1; 1; 16; 0; 3; 0] 15 64 true.
Lemma good_ex : good pb_ex [pk_ex].
Proof.
  split; [|vm_compute; discriminate]. right. split.
  - split; [by exists 4|done|done|done].
  - change (unread pb_ex) with ([16; 0; 3; 0; 4; 0; 0; 0; 7; 8; 9; 0; 1; 1; 1; 1] ++ []). constructor; [|constructor].
    exists 0, [0], []. by split_and!.
Qed.

(** Finalizing a buffer returns, and the finalizer is given the ancillary data of
    every unread packet that has any, once and in order. *)
Theorem packet_fini_releases s q :
  good (s_pb s) q -> pb_ancillary_fini (s_pb s) = true ->
  exists s', packetbuffer_fini s = SRet tt s' /\ s_pb s' = s_pb s /\ s_fini s' = s_fini s ++ ancillary q.
Proof.
  intros Hg Hfi. pose proof (packetbuffer_fini_ok s q Hg Hfi) as H. unfold srun in H.
  destruct (packetbuffer_fini s) as [[] s'| |]; [|done..]. by exists s'.
Qed.
Lemma packet_fini_releases_witness : exists s',
  packetbuffer_fini (st_ex pb_ex) = SRet tt s' /\ s_pb s' = pb_ex /\ s_fini s' = [] ++ ancillary [pk_ex].
Proof. apply (packet_fini_releases (st_ex pb_ex) [pk_ex]); [apply good_ex|reflexivity]. Defined.

Lemma read_front_exact p pk q buf : good p (pk :: q) -> pb_addr p = 0 ->
  received p pk buf = take (length buf) pk.1 ++ drop (length pk.1) buf.
Proof.
  intros [[[_ ?]|[Hr He]] _] Ha; [done|]. destruct (ro_count _ Hr) as [Hc _]. destruct (encodes_front p pk q) as (total&pad&Hfr); [lia|done|].
  destruct (front_sizes _ _ _ _ _ Hr Hfr) as (?&?&?&?&?). apply received_exact. rewrite Ha.
  pose proof (ring_bounds _ Hr). destruct (decide (bsize (pb_base p) = 8)) as [E|]; [rewrite E in *; change ((0 + 8) mod 8) with 0; lia|].
  rewrite Z.mod_small by lia. lia.
Qed.
(** C23: In a new buffer with a limit of at most 8192 bytes, when memory is granted, a packet
    within the limit whose payload and ancillary data need no more padding apart than
    together is written at once, and comes back with the bytes of its payload and its
    ancillary data as they were written, given room for both; then the buffer is empty.
    (Other packets may fail an assertion when they are read, [unpadded_packet_panics].) *)
Theorem packet_roundtrip junk s limt fini buf anc total dst avail nonblock :
  s_pb s = packetbuffer_init limt fini -> s_env s = [] -> (forall i, exists c, s_heap s i = KBlock c) ->
  header_total (bsize buf) (bsize anc) = Some total -> padded buf anc -> total <= limit (s_pb s) <= 8192 ->
  bsize buf <= bsize dst -> bsize anc <= avail ->
  exists s1 s2, packetbuffer_writea junk None 1 buf anc nonblock false s = SRet (bsize buf) s1
    /\ packetbuffer_reada None dst (Some avail) nonblock 0 s1
       = SRet (MkRead true [buf ++ drop (length buf) dst] (bsize buf) (bsize anc) anc) s2
    /\ good (s_pb s2) [].
Proof.
  intros Hs Henv Hheap Ht Hp Hlim Hdst Hav.
  assert (Hg : good (s_pb s) []) by (split; [rewrite Hs; by left|lia]).
  assert (Hadv : forall s s' (q q' : list packet), s_env s = [] -> advanced s s' q q' -> kept s s' /\ q' = q).
  { intros s0 s' q q' E [?|Hlt]; [done|]. rewrite E in Hlt. cbn in Hlt. lia. }
  pose proof (writea_ok junk None 0 s [] buf anc nonblock Hg ltac:(rewrite Henv; constructor) Hp) as Hw. unfold srun in Hw.
  destruct (packetbuffer_writea _ _ _ _ _ _ _ s) as [r s1|e s1|]; [| |done].
  2: { destruct Hw as (q'&Ha&_&Hwe). destruct (Hadv _ _ _ _ Henv Ha) as [Hk ->].
       destruct Hwe as [Hl|?|e i Hm|? Hne|? Hne]; [|done| |done|done].
       - specialize (Hl total Ht). rewrite (kept_limit _ _ Hk) in Hl. lia.
       - destruct (Hheap i) as [c Hc]. by rewrite Hc in Hm. }
  destruct Hw as (->&q'&total'&Ha&Ht'&Hq&Hcnt). destruct (Hadv _ _ _ _ Henv Ha) as [Hk ->].
  rewrite Ht in Ht'. injection Ht' as <-. specialize (Hcnt (k_env _ _ Hk)). exists s1. cbn [app] in Hq.
  pose proof (k_addr _ _ Hk) as Ea. rewrite Hs in Ea, Hcnt. cbn in Ea, Hcnt.
  assert (Hwr : written (s_pb s1) total buf = buf).
  { apply written_exact. unfold payload_place. rewrite Ea, Hcnt, Z.sub_diag. destruct (packet_sizes _ _ _ Ht Hp) as (?&?&?&?&?&?&?).
    destruct Hq as [[[_ ?]|[Hr _]] _]; [done|]. destruct (ro_count _ Hr) as [Hc _]. pose proof (ceil4_bounds (bsize buf)). pose proof (ceil4_bounds (bsize anc)).
    pose proof (ring_bounds _ Hr). destruct (decide (bsize (pb_base (s_pb s1)) = 8)) as [E|]; [rewrite E in *; change ((0 + 0 + 8) mod 8) with 0; lia|].
    rewrite Z.mod_small by lia. lia. }
  rewrite Hwr in Hq. assert (Henv1 : s_env s1 = []) by (by rewrite (k_env _ _ Hk)).
  pose proof (reada_ok None s1 [(buf, anc)] dst (Some avail) nonblock 0 Hq ltac:(rewrite Henv1; constructor) eq_refl) as Hrd.
  specialize (Hrd ltac:(intros ? [= <-]; unfold bsize in *; lia)). unfold srun in Hrd.
  destruct (packetbuffer_reada _ _ _ _ _ s1) as [r s2|e s2|]; [| |done].
  2: { destruct Hrd as (q'&Ha2&_&Hre). destruct (Hadv _ _ _ _ Henv1 Ha2) as [_ ->]. by destruct Hre. }
  destruct Hrd as (s1'&q'&Ha2&Hq2&_&_&Hpost). destruct (Hadv _ _ _ _ Henv1 Ha2) as [Hk2 ->]. exists s2.
  assert (Etk : taken 0 dst (Some avail) (buf, anc) = true) by (unfold taken, peeked; cbn; by apply Z.leb_le).
  unfold read_post in Hpost. rewrite Etk in Hpost. destruct Hpost as (E1&E2&E3&Hgood&E4&E5&_).
  rewrite (read_front_exact _ _ _ _ Hq2) in E1 by (by rewrite (k_addr _ _ Hk2)). cbn in E1, E2, E4, E5.
  rewrite take_ge in E1 by (unfold bsize in *; lia). destruct r. cbn in *. subst. done.
Qed.
Lemma packet_roundtrip_witness : exists s1 s2,
  packetbuffer_writea 0 None 1 [7; 8; 9; 5] [1; 1] true false (st_ex (packetbuffer_init 64 true)) = SRet 4 s1
  /\ packetbuffer_reada None [0; 0; 0; 0; 6] (Some 2) true 0 s1 = SRet (MkRead true [[7; 8; 9; 5; 6]] 4 2 [1; 1]) s2
  /\ good (s_pb s2) [].
Proof.
  apply (packet_roundtrip 0 (st_ex (packetbuffer_init 64 true)) 64 true [7; 8; 9; 5] [1; 1] 16 [0; 0; 0; 0; 6] 2 true);
    try reflexivity; try (vm_compute; split; discriminate); try (vm_compute; discriminate).
  intros i. exists (fun _ => 0). reflexivity.
Defined.

(** ** Behaviours the properties leave out *)

(** The padding in front of ancillary data is not part of the packet's size: 3 bytes and
    1 byte make a packet that the reader's assertion refuses. *)
Example unpadded_packet_panics :
  ~ padded [1; 2; 3] [1]
  /\ (packetbuffer_writea 0 None 1 [1; 2; 3] [1] true false ≫= fun _ => packetbuffer_reada None [0; 0; 0; 0] (Some 4) true 0)
       (st_ex (packetbuffer_init 64 false)) = SPanic.
Proof. split; [intros H; vm_compute in H; by apply H|vm_compute; reflexivity]. Qed.
(** A truncating read moves the buffer by the bytes it read, but leaves the header where
    it was: the next read panics. *)
Example truncated_packet_panics :
  (packetbuffer_writea 0 None 1 [1; 2; 3; 4; 5] [] true false ≫= fun _ =>
   packetbuffer_reada None [0; 0; 0] None true (Z.lor PACKET_IO_FRDIFFIT PACKET_IO_FRDTRUNC) ≫= fun _ =>
   packetbuffer_reada None [0; 0; 0] None true (Z.lor PACKET_IO_FRDIFFIT PACKET_IO_FRDTRUNC))
    (st_ex (packetbuffer_init 64 false)) = SPanic.
Proof. vm_compute. reflexivity. Qed.
(** A payload across the end of the buffer is stored with its first bytes twice, and read
    over the bytes read before. *)
Example crossing_payload_corrupted : exists s,
  (packetbuffer_writea 0 None 1 (repeat 0 12) [] true false ≫= fun _ =>
   packetbuffer_reada None (repeat 0 12) None true 0 ≫= fun _ =>
   packetbuffer_writea 0 None 1 [1; 2; 3; 4; 5; 6; 7; 8] [] true false ≫= fun _ =>
   packetbuffer_reada None (repeat 0 8) None true 0)
    (st_ex (packetbuffer_init 32 false)) = SRet (MkRead true [[1; 2; 3; 4; 0; 0; 0; 0]] 8 0 []) s.
Proof. eexists. vm_compute. reflexivity. Qed.
(** Closing is not noticed a second time, and a closed buffer is still written to. *)
Example closed_buffer_written : exists s,
  (c1 ← packetbuffer_close; c2 ← packetbuffer_close;
   n ← packetbuffer_writea 0 None 1 [1; 2; 3] [] true false; mret (c1, c2, n))
    (st_ex (packetbuffer_init 64 false)) = SRet (true, true, 3) s /\ pb_count (s_pb s) = 12.
Proof. eexists. vm_compute. split; reflexivity. Qed.
(** Every part of a split packet starts with the first bytes of the user's buffer. *)
Example split_parts_repeat : exists s,
  (packetbuffer_writea 0 None 2 (Z.of_nat <$> seq 0 28) [] false true ≫= fun _ =>
   packetbuffer_reada None (repeat 99 24) None true 0 ≫= fun _ =>
   packetbuffer_reada None (repeat 99 4) None true 0)
    (st_ex (packetbuffer_init 32 false)) = SRet (MkRead true [[0; 1; 2; 3]] 4 0 []) s.
Proof. eexists. vm_compute. reflexivity. Qed.
(** Reading as a stream reports the size of the caller's buffer. *)
Example stream_read_overreports : exists s,
  (packetbuffer_writea 0 None 1 [1; 2; 3] [] true false ≫= fun _ =>
   packetbuffer_readv_stream None 1 [[0; 0; 0; 0; 0]] 5 true (Z.lor PACKET_IO_FRDIFFIT PACKET_IO_FRDTRUNC))
    (st_ex (packetbuffer_init 64 false)) = SRet (5, [[1; 2; 3; 0; 0]]) s.
Proof. eexists. vm_compute. reflexivity. Qed.
(** Reading one buffer as a stream always fails an assertion. *)
Example read_stream_panics : forall fault fuel buf mode packet_mode s,
  packetbuffer_read_stream fault fuel buf mode packet_mode s = SPanic.
Proof.
  intros fault fuel buf mode packet_mode s. unfold packetbuffer_read_stream, packetbuffer_readv_stream, mbind, SM_bind, scheck.
  destruct (_ || _); [|done].
  assert (Hb : Z.testbit (Z.lor packet_mode IO_NOIOVCHECK) 15 = true) by (rewrite Z.lor_spec; apply orb_true_r).
  destruct (Z.eqb_spec (Z.lor packet_mode IO_NOIOVCHECK) PACKET_IO_FRDNEVER) as [E|_]; [by rewrite E in Hb|].
  destruct (Z.eqb_spec (Z.lor packet_mode IO_NOIOVCHECK) (Z.lor PACKET_IO_FRDIFFIT PACKET_IO_FRDTRUNC)) as [E|_]; [by rewrite E in Hb|done].
Qed.
