(* ===== verification/ReadLocks.v ===== *)
(** The per-task table of read locks of [src/kernel/src/sched/rwlock.c].

    Every task remembers the R/W-locks it holds for reading, with the recursion
    of each, in an open-addressing hash table.  A slot is free ([NULL]), a dummy
    (a deleted entry) or in use; the probe sequence is
    [i := 5*i + perturb + 1; perturb := perturb >> 5], as in CPython's dict.
    The probe loops have no bound in the source: that they end is a theorem here
    ([probe_cover]), and so is that the table implements a map from locks to
    recursion counters ([readlock_of]). *)
From stdpp Require Import gmap.
From S2P Require Import Prelude.

(** * Data *)
Definition READLOCK_DUMMYLOCK : Z := 4294967295.
Definition CONFIG_TASK_STATIC_READLOCKS : Z := 2.
Definition HEAP_ALIGNMENT : Z := 16.
Definition RWLOCK_HASH (x : Z) : Z := x `div` HEAP_ALIGNMENT.

Record read_lock : Type := MkRL {
  rl_recursion : Z;
  rl_rwlock : Z;
}.
Definition NULL_LOCK : read_lock := MkRL 0 0.

(** [rls_static]: [rls_vec == rls_sbuf], the vector is not owned heap memory. *)
Record read_locks : Type := MkRLS {
  rls_use : Z;
  rls_cnt : Z;
  rls_msk : Z;
  rls_vec : list read_lock;
  rls_static : bool;
}.

Definition set_vec (locks : read_locks) (s : nat) (d : read_lock) : read_locks :=
  MkRLS (rls_use locks) (rls_cnt locks) (rls_msk locks) (<[s := d]> (rls_vec locks)) (rls_static locks).

Definition readlocks_init : read_locks :=
  MkRLS 0 0 (CONFIG_TASK_STATIC_READLOCKS - 1) [NULL_LOCK; NULL_LOCK] true.

(** The result says whether a heap vector is freed. *)
Definition readlocks_fini (locks : read_locks) : outcome bool :=
  kassert (rls_use locks =? 0);;
  Ret (negb (rls_static locks)).

(** * Operations *)
Definition probe_next (i perturb : Z) : Z * Z :=
  (u32 (Z.shiftl i 2 + i + perturb + 1), Z.shiftr perturb 5).

Definition slot_of (i msk : Z) : nat := Z.to_nat (Z.land i msk).

Definition lock_asserts (locks : read_locks) : outcome unit :=
  kassert (rls_use locks <=? rls_cnt locks);;
  kassert (rls_cnt locks <=? rls_msk locks).

(** Seven steps use up a 32-bit [perturb], [msk + 1] more visit every slot. *)
Definition probe_fuel (msk : Z) : nat := Z.to_nat (msk + 8).

Fixpoint find_loop (fuel : nat) (vec : list read_lock) (msk lock i perturb : Z)
  : outcome (option nat) :=
  match fuel with
  | O => Panic
  | S fuel =>
      lockdesc ← access (vec !! slot_of i msk);
      if rl_rwlock lockdesc =? lock then Ret (Some (slot_of i msk))
      else if rl_rwlock lockdesc =? 0 then Ret None
      else let '(i, perturb) := probe_next i perturb in find_loop fuel vec msk lock i perturb
  end.

Definition rwlock_find_readlock (locks : read_locks) (lock : Z) : outcome (option nat) :=
  lock_asserts locks;;
  let i := Z.land (RWLOCK_HASH lock) (rls_msk locks) in
  find_loop (probe_fuel (rls_msk locks)) (rls_vec locks) (rls_msk locks) lock i i.

(** Where the search loop of [rwlock_get_readlock] ends: at an existing
    descriptor, or at a free slot, with the first dummy passed on the way. *)
Inductive probe_end : Type :=
| Existing (s : nat)
| EndOfChain (dummy : option nat) (s : nat).

Fixpoint get_loop (fuel : nat) (vec : list read_lock) (msk lock j perturb : Z)
    (result : option nat) : outcome probe_end :=
  match fuel with
  | O => Panic
  | S fuel =>
      lockdesc ← access (vec !! slot_of j msk);
      if rl_rwlock lockdesc =? lock then Ret (Existing (slot_of j msk))
      else if rl_rwlock lockdesc =? 0 then Ret (EndOfChain result (slot_of j msk))
      else
        let result :=
          if rl_rwlock lockdesc =? READLOCK_DUMMYLOCK
          then match result with None => Some (slot_of j msk) | Some r => Some r end
          else result in
        let '(j, perturb) := probe_next j perturb in
        get_loop fuel vec msk lock j perturb result
  end.

(** Move one descriptor into the first free slot of its chain. *)
Fixpoint rehash_entry (fuel : nat) (new_vector : list read_lock) (new_mask : Z)
    (desc : read_lock) (j perturb : Z) : outcome (list read_lock) :=
  match fuel with
  | O => Panic
  | S fuel =>
      lockdesc ← access (new_vector !! slot_of j new_mask);
      if negb (rl_rwlock lockdesc =? 0) then
        let '(j, perturb) := probe_next j perturb in
        rehash_entry fuel new_vector new_mask desc j perturb
      else Ret (<[slot_of j new_mask := desc]> new_vector)
  end.

Fixpoint rehash (old_vector new_vector : list read_lock) (new_mask : Z)
  : outcome (list read_lock) :=
  match old_vector with
  | [] => Ret new_vector
  | d :: old_vector =>
      let heldlock := rl_rwlock d in
      if (heldlock =? 0) || (heldlock =? READLOCK_DUMMYLOCK)
      then rehash old_vector new_vector new_mask
      else
        let j := Z.land (RWLOCK_HASH heldlock) new_mask in
        new_vector ← rehash_entry (probe_fuel new_mask) new_vector new_mask d j j;
        rehash old_vector new_vector new_mask
  end.

(** [result->rl_recursion = 0; result->rl_rwlock = lock; ++rls_use]. *)
Definition new_desc (locks : read_locks) (s : nat) (lock : Z) : outcome read_locks :=
  d ← access (rls_vec locks !! s);
  kassert ((rl_rwlock d =? 0) || (rl_rwlock d =? READLOCK_DUMMYLOCK));;
  Ret (MkRLS (u32 (rls_use locks + 1)) (rls_cnt locks) (rls_msk locks)
         (<[s := MkRL 0 lock]> (rls_vec locks)) (rls_static locks)).

Definition inc_cnt (locks : read_locks) : read_locks :=
  MkRLS (rls_use locks) (u32 (rls_cnt locks + 1)) (rls_msk locks) (rls_vec locks) (rls_static locks).

(** [kmalloc_ok]: whether the allocation of a larger vector succeeds.  [fuel]
    counts the passes over [again:]. *)
Fixpoint get_readlock_again (fuel : nat) (kmalloc_ok : bool) (locks : read_locks) (lock : Z)
  : outcome (read_locks * nat) :=
  match fuel with
  | O => Panic
  | S fuel =>
      lock_asserts locks;;
      let j := Z.land (RWLOCK_HASH lock) (rls_msk locks) in
      e ← get_loop (probe_fuel (rls_msk locks)) (rls_vec locks) (rls_msk locks) lock j j None;
      match e with
      | Existing s => Ret (locks, s)
      | EndOfChain (Some result) _ =>
          locks ← new_desc locks result lock;
          Ret (locks, result)
      | EndOfChain None s =>
          if rls_cnt locks =? rls_msk locks then
            let new_mask := Z.lor (u32 (Z.shiftl (rls_msk locks) 1)) 1 in
            if kmalloc_ok then
              new_vector ← rehash (take (Z.to_nat (rls_msk locks + 1)) (rls_vec locks))
                             (replicate (Z.to_nat (new_mask + 1)) NULL_LOCK) new_mask;
              get_readlock_again fuel kmalloc_ok
                (MkRLS (rls_use locks) (rls_use locks) new_mask new_vector false) lock
            else Throw E_BADALLOC
          else
            locks ← new_desc (inc_cnt locks) s lock;
            Ret (locks, s)
      end
  end.
Definition rwlock_get_readlock := get_readlock_again 2.

Definition rwlock_get_readlock_nothrow (locks : read_locks) (lock : Z)
  : outcome (read_locks * option nat) :=
  lock_asserts locks;;
  let j := Z.land (RWLOCK_HASH lock) (rls_msk locks) in
  e ← get_loop (probe_fuel (rls_msk locks)) (rls_vec locks) (rls_msk locks) lock j j None;
  match e with
  | Existing s => Ret (locks, Some s)
  | EndOfChain (Some result) _ =>
      locks ← new_desc locks result lock;
      Ret (locks, Some result)
  | EndOfChain None s =>
      if rls_cnt locks =? rls_msk locks then Ret (locks, None)
      else
        locks ← new_desc (inc_cnt locks) s lock;
        Ret (locks, Some s)
  end.

Definition rwlock_delete_readlock (locks : read_locks) (rlock : nat) : outcome read_locks :=
  kassert (negb (rls_use locks =? 0));;
  kassert (negb (rls_cnt locks =? 0));;
  kassert (Z.of_nat rlock <=? rls_msk locks);;
  d ← access (rls_vec locks !! rlock);
  Ret (MkRLS (rls_use locks - 1) (rls_cnt locks) (rls_msk locks)
         (<[rlock := MkRL (rl_recursion d) READLOCK_DUMMYLOCK]> (rls_vec locks)) (rls_static locks)).

(** Access to a descriptor through its pointer. *)
Definition desc_recursion (locks : read_locks) (s : nat) : outcome Z :=
  d ← access (rls_vec locks !! s); Ret (rl_recursion d).
Definition desc_set_recursion (locks : read_locks) (s : nat) (n : Z) : outcome read_locks :=
  d ← access (rls_vec locks !! s); Ret (set_vec locks s (MkRL n (rl_rwlock d))).

(** * The probe sequence visits every slot

    Once [perturb] is used up the sequence is the linear congruential generator
    [i := 5*i + 1], which has full period modulo every power of two. *)
Fixpoint lcg (n : nat) (x : Z) : Z :=
  match n with O => x | S n => lcg n (5 * x + 1) end.

Lemma lcg_add a b x : lcg (a + b) x = lcg b (lcg a x).
Proof. revert x; induction a as [|a IH]; intros x; cbn; [done|]. by rewrite IH. Qed.

(** [2^k] steps are the affine map [a*x + b] with [a = 1 (mod 4)] and [b] an odd
    multiple of [2^k]. *)
Lemma lcg_double k : exists a b, (forall x, lcg (2 ^ k) x = (4 * 2 ^ Z.of_nat k * a + 1) * x
  + 2 ^ Z.of_nat k * (2 * b + 1)).
Proof.
  induction k as [|k (a & b & IH)].
  - exists 1, 0. intros x. cbn. lia.
  - set (p := 2 ^ Z.of_nat k) in *.
    exists (a + 2 * p * a * a), (b + 2 * p * a * b + p * a).
    intros x. replace (2 ^ S k)%nat with (2 ^ k + 2 ^ k)%nat by (cbn; lia).
    rewrite lcg_add, !IH. replace (2 ^ Z.of_nat (S k)) with (2 * p)
      by (unfold p; rewrite Nat2Z.inj_succ, Z.pow_succ_r by lia; ring). ring.
Qed.

Lemma lcg_half k x : (lcg (2 ^ k) x - (x + 2 ^ Z.of_nat k)) `mod` 2 ^ Z.of_nat (S k) = 0.
Proof.
  destruct (lcg_double k) as (a & b & ->).
  rewrite Nat2Z.inj_succ, Z.pow_succ_r by lia. set (p := 2 ^ Z.of_nat k).
  assert (0 < p) by (unfold p; apply Z.pow_pos_nonneg; lia).
  replace ((4 * p * a + 1) * x + p * (2 * b + 1) - (x + p))
    with ((2 * a * x + b) * (2 * p)) by ring.
  apply Z.mod_mul. lia.
Qed.

Lemma lcg_cover k x y :
  exists n, (n < 2 ^ k)%nat /\ (lcg n x - y) `mod` 2 ^ Z.of_nat k = 0.
Proof.
  induction k as [|k (n & Hn & Hy)].
  - exists 0%nat. cbn. split; [lia|]. apply Z.mod_1_r.
  - pose proof (lcg_half k (lcg n x)) as Hh. rewrite <- lcg_add in Hh.
    rewrite Nat2Z.inj_succ, Z.pow_succ_r in * by lia. set (p := 2 ^ Z.of_nat k) in *.
    assert (0 < p) by (unfold p; apply Z.pow_pos_nonneg; lia).
    apply Z.mod_divide in Hy as [q Hq]; [|lia]. apply Z.mod_divide in Hh as [r Hr]; [|lia].
    pose proof (Z.div_mod q 2 ltac:(lia)) as Hdm. pose proof (Z.mod_pos_bound q 2 ltac:(lia)).
    assert (q `mod` 2 = 0 \/ q `mod` 2 = 1) as [E|E] by lia.
    + exists n. split; [cbn; lia|]. apply Z.mod_divide; [lia|]. exists (q `div` 2). nia.
    + exists (n + 2 ^ k)%nat. split; [cbn; lia|]. apply Z.mod_divide; [lia|].
      exists (r + q `div` 2 + 1). nia.
Qed.

Fixpoint probe_at (n : nat) (i perturb : Z) : Z * Z :=
  match n with
  | O => (i, perturb)
  | S n => let '(i, perturb) := probe_next i perturb in probe_at n i perturb
  end.
(** The slot inspected in step [n] of a search for [lock]. *)
Definition slot_at (msk lock : Z) (n : nat) : nat :=
  let h := Z.land (RWLOCK_HASH lock) msk in slot_of (probe_at n h h).1 msk.

Lemma probe_at_add a b i p : probe_at (a + b) i p = probe_at b (probe_at a i p).1 (probe_at a i p).2.
Proof. revert i p; induction a as [|a IH]; intros i p; cbn; [done|]. apply IH. Qed.
Lemma probe_at_S n i p : probe_at (S n) i p = probe_next (probe_at n i p).1 (probe_at n i p).2.
Proof. replace (S n) with (n + 1)%nat by lia. rewrite probe_at_add. done. Qed.

Lemma land_mask k i : Z.land i (2 ^ Z.of_nat k - 1) = i `mod` 2 ^ Z.of_nat k.
Proof. apply land_low. lia. Qed.
Lemma slot_of_mod k i : slot_of i (2 ^ Z.of_nat k - 1) = Z.to_nat (i `mod` 2 ^ Z.of_nat k).
Proof. unfold slot_of. by rewrite land_mask. Qed.
Lemma slot_of_lt k i : (slot_of i (2 ^ Z.of_nat k - 1) < 2 ^ k)%nat.
Proof.
  rewrite slot_of_mod. pose proof (Z.mod_pos_bound i (2 ^ Z.of_nat k) ltac:(lia)).
  apply Nat2Z.inj_lt. rewrite Z2Nat.id, Nat2Z.inj_pow by lia. cbn. lia.
Qed.

Lemma probe_perturb n i p :
  (probe_at n i p).2 = Z.shiftr p (5 * Z.of_nat n).
Proof.
  revert i p; induction n as [|n IH]; intros i p.
  - cbn. by rewrite Z.shiftr_0_r.
  - cbn [probe_at]. unfold probe_next. rewrite IH, Z.shiftr_shiftr by lia. f_equal. lia.
Qed.
Lemma probe_lcg k n i :
  (Z.of_nat k <= 32)%Z -> ((probe_at n i 0).1 - lcg n i) `mod` 2 ^ Z.of_nat k = 0.
Proof.
  intros Hk. revert i. induction n as [|n IH]; intros i; cbn [probe_at lcg].
  - cbn. rewrite Z.sub_diag. apply Z.mod_0_l. lia.
  - unfold probe_next. rewrite Z.shiftr_0_l, Z.shiftl_mul_pow2 by lia.
    set (j := u32 _). specialize (IH j).
    assert (Hl : forall a b, (a - b) `mod` 2 ^ Z.of_nat k = 0 ->
      (lcg n a - lcg n b) `mod` 2 ^ Z.of_nat k = 0).
    { clear. induction n as [|n IH]; intros a b Hab; cbn; [done|]. apply IH.
      apply Z.mod_divide in Hab as [q Hq]; [|lia]. apply Z.mod_divide; [lia|].
      exists (5 * q). lia. }
    assert (Hj : (j - (5 * i + 1)) `mod` 2 ^ Z.of_nat k = 0).
    { unfold j, u32, wrap. set (v := i * 2 ^ 2 + i + 0 + 1).
      replace (5 * i + 1) with v by (unfold v; lia).
      apply Z.mod_divide; [lia|]. exists (- (v `div` 2 ^ 32) * 2 ^ (32 - Z.of_nat k)).
      pose proof (Z.div_mod v (2 ^ 32) ltac:(lia)).
      replace (- (v `div` 2 ^ 32) * 2 ^ (32 - Z.of_nat k) * 2 ^ Z.of_nat k)
        with (- (v `div` 2 ^ 32) * (2 ^ (32 - Z.of_nat k) * 2 ^ Z.of_nat k)) by ring.
      rewrite <- Z.pow_add_r by lia. replace (32 - Z.of_nat k + Z.of_nat k) with 32 by lia. lia. }
    apply Hl in Hj. apply Z.mod_divide in Hj as [q Hq]; [|lia].
    apply Z.mod_divide in IH as [r Hr]; [|lia]. apply Z.mod_divide; [lia|]. exists (q + r). lia.
Qed.

(** Every slot is inspected within [probe_fuel] steps. *)
Lemma probe_cover k lock s :
  Z.of_nat k <= 32 -> (s < 2 ^ k)%nat ->
  exists n, (n < probe_fuel (2 ^ Z.of_nat k - 1))%nat /\ slot_at (2 ^ Z.of_nat k - 1) lock n = s.
Proof.
  intros Hk Hs. unfold slot_at. set (h := Z.land _ _).
  assert (Hh : 0 <= h < 2 ^ 32).
  { unfold h. rewrite land_mask.
    pose proof (Z.mod_pos_bound (RWLOCK_HASH lock) (2 ^ Z.of_nat k) ltac:(lia)).
    pose proof (Z.pow_le_mono_r 2 (Z.of_nat k) 32 ltac:(lia) Hk). lia. }
  set (i7 := (probe_at 7 h h).1). destruct (lcg_cover k i7 (Z.of_nat s)) as (n & Hn & Hy).
  exists (7 + n)%nat. split.
  - unfold probe_fuel. apply Nat2Z.inj_lt. apply Nat2Z.inj_lt in Hn.
    rewrite Nat2Z.inj_pow in Hn. cbn in Hn. lia.
  - rewrite probe_at_add. fold i7. rewrite probe_perturb.
    replace (Z.shiftr h (5 * Z.of_nat 7)) with 0
      by (symmetry; rewrite Z.shiftr_div_pow2 by lia; apply Z.div_small; lia).
    pose proof (probe_lcg k n i7 Hk) as Hp. rewrite slot_of_mod.
    apply Z.mod_divide in Hp as [q Hq]; [|lia]. apply Z.mod_divide in Hy as [r Hr]; [|lia].
    replace (probe_at n i7 0).1 with (Z.of_nat s + (q + r) * 2 ^ Z.of_nat k) by lia.
    rewrite Z.mod_add by lia. rewrite Z.mod_small; [lia|].
    apply Nat2Z.inj_lt in Hs. rewrite Nat2Z.inj_pow in Hs. cbn in Hs. lia.
Qed.

(** * Well-formed tables *)
Definition real_lock (l : Z) : Prop := 0 < l < READLOCK_DUMMYLOCK.
Definition is_real (d : read_lock) : bool :=
  negb ((rl_rwlock d =? 0) || (rl_rwlock d =? READLOCK_DUMMYLOCK)).
Definition is_used (d : read_lock) : bool := negb (rl_rwlock d =? 0).

Definition lock_at (vec : list read_lock) (s : nat) : Z :=
  match vec !! s with Some d => rl_rwlock d | None => 0 end.

(** The search for the lock in slot [s] reaches it before a free slot. *)
Definition reached (msk : Z) (vec : list read_lock) (s : nat) (lock : Z) : Prop :=
  exists n, slot_at msk lock n = s /\ forall m, (m < n)%nat -> lock_at vec (slot_at msk lock m) <> 0.

Record vec_wf (k : nat) (vec : list read_lock) : Prop := {
  vw_len : length vec = (2 ^ k)%nat;
  vw_ptr : forall s d, vec !! s = Some d -> 0 <= rl_rwlock d <= READLOCK_DUMMYLOCK;
  vw_uniq : forall s1 s2 l, real_lock l -> lock_at vec s1 = l -> lock_at vec s2 = l -> s1 = s2;
  vw_reach : forall s l, real_lock l -> lock_at vec s = l -> reached (2 ^ Z.of_nat k - 1) vec s l;
}.

Definition count_b {A} (f : A -> bool) (l : list A) : Z := Z.of_nat (length (List.filter f l)).

Record readlocks_wf (locks : read_locks) : Prop := {
  rw_k : exists k, (1 <= k <= 28)%nat /\ rls_msk locks = 2 ^ Z.of_nat k - 1
           /\ vec_wf k (rls_vec locks);
  rw_use : rls_use locks = count_b is_real (rls_vec locks);
  rw_cnt : rls_cnt locks = count_b is_used (rls_vec locks);
  rw_free : rls_cnt locks <= rls_msk locks;
}.

(** The recursion recorded for [lock]. *)
Fixpoint vec_lookup (vec : list read_lock) (lock : Z) : option Z :=
  match vec with
  | [] => None
  | d :: vec => if rl_rwlock d =? lock then Some (rl_recursion d) else vec_lookup vec lock
  end.
Definition readlock_of (locks : read_locks) (lock : Z) : option Z := vec_lookup (rls_vec locks) lock.

(** ** Counting and lookups *)
Lemma count_b_insert {A} (f : A -> bool) (l : list A) s old new :
  l !! s = Some old ->
  count_b f (<[s := new]> l) = count_b f l - (if f old then 1 else 0) + (if f new then 1 else 0).
Proof.
  unfold count_b. revert s; induction l as [|x l IH]; intros [|s] E; cbn in E; simplify_eq.
  - cbn [insert list_insert List.filter]. destruct (f old), (f new); cbn [length]; lia.
  - change (<[S s := new]> (x :: l)) with (x :: <[s := new]> l). specialize (IH s E).
    cbn [List.filter].
    destruct (f x), (f old), (f new); cbn [length]; lia.
Qed.
Lemma count_b_len {A} (f : A -> bool) (l : list A) : 0 <= count_b f l <= Z.of_nat (length l).
Proof.
  unfold count_b. induction l as [|x l IH]; cbn; [done|]. destruct (f x); cbn [length]; lia.
Qed.
Lemma count_b_mono {A} (f g : A -> bool) (l : list A) :
  (forall x, f x = true -> g x = true) -> count_b f l <= count_b g l.
Proof.
  intros Hfg. unfold count_b. induction l as [|x l IH]; cbn; [done|].
  destruct (f x) eqn:Ef; [rewrite (Hfg x Ef)|destruct (g x)]; cbn [length]; lia.
Qed.
Lemma count_b_witness {A} (f : A -> bool) (l : list A) :
  count_b f l < Z.of_nat (length l) -> exists s d, l !! s = Some d /\ f d = false.
Proof.
  unfold count_b. induction l as [|x l IH]; cbn [length List.filter]; [lia|]. intros Hlt.
  destruct (f x) eqn:Ef; [|by exists 0%nat, x]. cbn [length] in Hlt.
  destruct IH as (s & d & Hs & Hf); [lia|]. by exists (S s), d.
Qed.

Lemma lock_at_some vec s d : vec !! s = Some d -> lock_at vec s = rl_rwlock d.
Proof. unfold lock_at. by intros ->. Qed.
Lemma lock_at_inv vec s l : lock_at vec s = l -> l <> 0 -> exists d, vec !! s = Some d /\ rl_rwlock d = l.
Proof. unfold lock_at. destruct (vec !! s); [eauto|congruence]. Qed.
Lemma lock_at_insert vec s d s' :
  (s < length vec)%nat -> lock_at (<[s := d]> vec) s' = if decide (s' = s) then rl_rwlock d else lock_at vec s'.
Proof.
  intros Hs. unfold lock_at. destruct (decide (s' = s)) as [->|Hne].
  - by rewrite list_lookup_insert_eq.
  - by rewrite list_lookup_insert_ne.
Qed.

Lemma vec_lookup_none vec l : vec_lookup vec l = None <-> forall s d, vec !! s = Some d -> rl_rwlock d <> l.
Proof.
  induction vec as [|x vec IH]; cbn.
  - split; [intros _ s d E; by rewrite lookup_nil in E|done].
  - destruct (Z.eqb_spec (rl_rwlock x) l) as [E|E].
    + split; [done|]. intros Hall. by destruct (Hall 0%nat x).
    + rewrite IH. split; intros Hall.
      * intros [|s] d Hd; cbn in Hd; simplify_eq; [done|]. by apply (Hall s).
      * intros s d Hd. by apply (Hall (S s)).
Qed.
Lemma vec_lookup_some vec l r : vec_lookup vec l = Some r ->
  exists s, vec !! s = Some (MkRL r l).
Proof.
  induction vec as [|x vec IH]; cbn; [done|].
  destruct (Z.eqb_spec (rl_rwlock x) l) as [E|E].
  - intros [= <-]. exists 0%nat. cbn. destruct x; cbn in *; congruence.
  - intros Hl. destruct (IH Hl) as [s Hs]. by exists (S s).
Qed.
Lemma vec_lookup_at k vec s r l :
  vec_wf k vec -> real_lock l -> vec !! s = Some (MkRL r l) -> vec_lookup vec l = Some r.
Proof.
  intros Hwf Hl Hs. destruct (vec_lookup vec l) as [r'|] eqn:E.
  - apply vec_lookup_some in E as [s' Hs'].
    assert (s = s') as ->.
    { apply (vw_uniq _ _ Hwf s s' l Hl);
        [by rewrite (lock_at_some _ _ _ Hs)|by rewrite (lock_at_some _ _ _ Hs')]. }
    by simplify_eq.
  - rewrite vec_lookup_none in E. by apply E in Hs.
Qed.
Lemma vec_lookup_absent vec l :
  real_lock l -> (forall s, lock_at vec s <> l) <-> vec_lookup vec l = None.
Proof.
  intros [Hl _]. rewrite vec_lookup_none. split.
  - intros Hall s d Hd <-. by apply (Hall s), lock_at_some.
  - intros Hall s Hs. apply lock_at_inv in Hs as (d & Hd & E); [|lia]. by apply (Hall s d).
Qed.

(** Replacing slot [s] by a descriptor that is not free. *)
Lemma vec_update_wf k vec s old d :
  vec_wf k vec -> vec !! s = Some old -> 0 < rl_rwlock d <= READLOCK_DUMMYLOCK ->
  (real_lock (rl_rwlock d) -> rl_rwlock d = rl_rwlock old \/
     (forall s', lock_at vec s' <> rl_rwlock d) /\ reached (2 ^ Z.of_nat k - 1) vec s (rl_rwlock d)) ->
  vec_wf k (<[s := d]> vec).
Proof.
  intros Hwf Hs Hd Hreal. pose proof (lookup_lt_Some _ _ _ Hs) as Hlt.
  pose proof (lock_at_some _ _ _ Hs) as Hat.
  assert (Hmono : forall s' l, reached (2 ^ Z.of_nat k - 1) vec s' l ->
    reached (2 ^ Z.of_nat k - 1) (<[s := d]> vec) s' l).
  { intros s' l (n & Hn & Hm). exists n. split; [done|]. intros m Hmn. rewrite lock_at_insert by done.
    destruct (decide _); [lia|auto]. }
  split.
  - rewrite length_insert. apply Hwf.
  - intros s' d' E. apply list_lookup_insert_Some in E as [(<- & <- & _)|(_ & E)]; [lia|].
    by apply (vw_ptr _ _ Hwf s').
  - intros s1 s2 l Hl. rewrite !lock_at_insert by done.
    destruct (decide (s1 = s)) as [->|], (decide (s2 = s)) as [->|]; try done; intros E1 E2; subst l.
    + destruct (Hreal Hl) as [E|[Hn _]]; [|by destruct (Hn s2)].
      apply (vw_uniq _ _ Hwf s s2 (rl_rwlock d)); congruence.
    + destruct (Hreal) as [E|[Hn _]]; [congruence| |by destruct (Hn s1)].
      apply (vw_uniq _ _ Hwf s1 s (rl_rwlock d)); congruence.
    + by apply (vw_uniq _ _ Hwf s1 s2 (lock_at vec s1)).
  - intros s' l Hl. rewrite lock_at_insert by done. destruct (decide (s' = s)) as [->|].
    + intros <-. apply Hmono. destruct (Hreal Hl) as [E|[_ Hr]]; [|done].
      apply (vw_reach _ _ Hwf); [done|congruence].
    + intros E. apply Hmono. by apply (vw_reach _ _ Hwf).
Qed.

Lemma vec_lookup_update k vec s old d l :
  vec_wf k vec -> vec_wf k (<[s := d]> vec) -> vec !! s = Some old -> real_lock l ->
  vec_lookup (<[s := d]> vec) l =
    if decide (l = rl_rwlock d) then Some (rl_recursion d)
    else if decide (l = rl_rwlock old) then None else vec_lookup vec l.
Proof.
  intros Hwf Hwf' Hs Hl. pose proof (lookup_lt_Some _ _ _ Hs) as Hlt.
  destruct (decide (l = rl_rwlock d)) as [E|Hd].
  { apply (vec_lookup_at k _ s); [done|done|]. rewrite list_lookup_insert_eq by done.
    destruct d; cbn in *; congruence. }
  destruct (decide (l = rl_rwlock old)) as [E|Ho].
  { apply vec_lookup_none. intros s' d' E'. apply list_lookup_insert_Some in E' as [(_ & <- & _)|[Hne E']];
      [congruence|]. intros E2. apply Hne. apply (vw_uniq _ _ Hwf s s' l Hl).
    - rewrite (lock_at_some _ _ _ Hs). congruence.
    - by rewrite (lock_at_some _ _ _ E'). }
  destruct (vec_lookup vec l) as [r|] eqn:E.
  - apply vec_lookup_some in E as [s' Hs']. apply (vec_lookup_at k _ s'); [done|done|].
    rewrite list_lookup_insert_ne; [done|]. intros <-. by simplify_eq.
  - rewrite vec_lookup_none in E. apply vec_lookup_none. intros s' d' E'.
    apply list_lookup_insert_Some in E' as [(_ & <- & _)|[Hne E']]; [congruence|]. by apply (E s').
Qed.

(** * The search loops *)
Definition chain_end (vec : list read_lock) (lock : Z) (s : nat) : Prop :=
  lock_at vec s = lock \/ lock_at vec s = 0.
#[export] Instance chain_end_dec vec lock s : Decision (chain_end vec lock s).
Proof. unfold chain_end. solve_decision. Defined.

Section Search.
Context (k : nat) (vec : list read_lock) (lock : Z).
Context (Hk : (k <= 28)%nat) (Hlen : length vec = (2 ^ k)%nat) (Hlock : real_lock lock).
#[local] Abbreviation msk := (2 ^ Z.of_nat k - 1).
#[local] Abbreviation h := (Z.land (RWLOCK_HASH lock) msk).

(** The loops stop in step [N]. *)
Definition stops (n N : nat) : Prop :=
  (n <= N)%nat /\ chain_end vec lock (slot_at msk lock N)
  /\ forall m, (n <= m < N)%nat -> ~ chain_end vec lock (slot_at msk lock m).

Lemma slot_at_in n : exists d, vec !! slot_at msk lock n = Some d /\ lock_at vec (slot_at msk lock n) = rl_rwlock d.
Proof.
  destruct (lookup_lt_is_Some_2 vec (slot_at msk lock n)) as [d Hd].
  { rewrite Hlen. apply slot_of_lt. }
  exists d. split; [done|]. by apply lock_at_some.
Qed.

Lemma find_loop_stops N fuel n :
  stops n N -> (N < n + fuel)%nat ->
  find_loop fuel vec msk lock (probe_at n h h).1 (probe_at n h h).2
  = Ret (if lock_at vec (slot_at msk lock N) =? lock then Some (slot_at msk lock N) else None).
Proof.
  revert n; induction fuel as [|fuel IH]; intros n (HnN & HN & Hm) Hf; [lia|].
  cbn [find_loop]. destruct (slot_at_in n) as (d & Hd & Hat). rewrite (bind_access _ d) by exact Hd.
  rewrite <- Hat. destruct (decide (n = N)) as [->|Hne].
  - destruct (Z.eqb_spec (lock_at vec (slot_at msk lock N)) lock) as [E|E]; [done|].
    destruct HN as [HN|HN]; [done|]. by rewrite HN.
  - assert (Hn : ~ chain_end vec lock (slot_at msk lock n)) by (apply Hm; lia).
    unfold chain_end in Hn. destruct (Z.eqb_spec (lock_at vec (slot_at msk lock n)) lock); [tauto|].
    destruct (Z.eqb_spec (lock_at vec (slot_at msk lock n)) 0); [tauto|].
    rewrite <- IH with (n := S n); [|split; [lia|]; split; [done|]; intros; apply Hm; lia|lia].
    rewrite probe_at_S. by destruct (probe_next _ _).
Qed.

Lemma get_loop_stops N fuel n result :
  stops n N -> (N < n + fuel)%nat ->
  if lock_at vec (slot_at msk lock N) =? lock then
    get_loop fuel vec msk lock (probe_at n h h).1 (probe_at n h h).2 result
    = Ret (Existing (slot_at msk lock N))
  else exists r,
    get_loop fuel vec msk lock (probe_at n h h).1 (probe_at n h h).2 result
    = Ret (EndOfChain r (slot_at msk lock N))
    /\ (r = result \/ exists m, (n <= m < N)%nat /\ r = Some (slot_at msk lock m)
                        /\ lock_at vec (slot_at msk lock m) = READLOCK_DUMMYLOCK).
Proof.
  revert n result; induction fuel as [|fuel IH]; intros n result (HnN & HN & Hm) Hf; [lia|].
  cbn [get_loop]. destruct (slot_at_in n) as (d & Hd & Hat). rewrite !(bind_access _ d) by exact Hd.
  rewrite <- Hat. destruct (decide (n = N)) as [->|Hne].
  - destruct (Z.eqb_spec (lock_at vec (slot_at msk lock N)) lock) as [E|E]; [done|].
    destruct HN as [HN|HN]; [done|]. rewrite HN. eauto.
  - assert (Hn : ~ chain_end vec lock (slot_at msk lock n)) by (apply Hm; lia).
    unfold chain_end in Hn. destruct (Z.eqb_spec (lock_at vec (slot_at msk lock n)) lock); [tauto|].
    destruct (Z.eqb_spec (lock_at vec (slot_at msk lock n)) 0); [tauto|].
    set (r1 := if _ =? READLOCK_DUMMYLOCK then _ else _).
    assert (Hs : stops (S n) N) by (split; [lia|]; split; [done|]; intros; apply Hm; lia).
    specialize (IH (S n) r1 Hs ltac:(lia)). rewrite probe_at_S in IH.
    fold (slot_at msk lock n). destruct (probe_next _ _) as [j p]. cbn [fst snd] in IH.
    destruct (_ =? lock); [done|]. destruct IH as (r & -> & Hr). exists r. split; [done|].
    destruct Hr as [->|(m & Hm' & -> & Hdum)]; [|right; exists m; split; [lia|done]].
    unfold r1. destruct (Z.eqb_spec (lock_at vec (slot_at msk lock n)) READLOCK_DUMMYLOCK); [|by left].
    destruct result; [by left|]. right. exists n. split; [lia|done].
Qed.

(** A table with a free slot: the search ends, at the lock if it is there. *)
Lemma search_stops :
  count_b is_used vec <= msk -> (forall s, lock_at vec s = lock -> reached msk vec s lock) ->
  exists N, stops 0 N /\ (N < probe_fuel msk)%nat
    /\ (lock_at vec (slot_at msk lock N) <> lock -> lock_at vec (slot_at msk lock N) = 0
        /\ forall s, lock_at vec s <> lock).
Proof.
  intros Hcnt Hreach. destruct (count_b_witness is_used vec) as (s0 & d0 & Hs0 & Hf).
  { rewrite Hlen, Nat2Z.inj_pow. cbn. lia. }
  destruct (probe_cover k lock s0) as (n0 & Hn0 & Hslot); [lia| |].
  { rewrite <- Hlen. by apply lookup_lt_Some in Hs0. }
  assert (Hce : chain_end vec lock (slot_at msk lock n0)).
  { right. rewrite Hslot, (lock_at_some _ _ _ Hs0). unfold is_used in Hf. lia. }
  assert (Hmin : exists N, (N <= n0)%nat /\ stops 0 N).
  { clear -Hce. induction n0 as [n0 IH] using lt_wf_ind.
    destruct (decide (Exists (fun m => chain_end vec lock (slot_at msk lock m)) (seq 0 n0))) as [HE|HE].
    - apply List.Exists_exists in HE as (m & Hin & Hc). apply in_seq in Hin.
      destruct (IH m ltac:(lia) Hc) as (N & HN & HS). exists N. split; [lia|done].
    - exists n0. split; [lia|]. split; [lia|]. split; [done|]. intros m Hm Hc. apply HE.
      apply List.Exists_exists. exists m. split; [apply in_seq; lia|done]. }
  destruct Hmin as (N & HN & HS). exists N. split; [done|]. split; [lia|].
  intros Hne. destruct HS as (_ & [E|E] & Hbefore); [done|]. split; [done|]. intros s Hs.
  destruct (Hreach s Hs) as (n & Hn & Hm).
  destruct (lt_eq_lt_dec n N) as [[Hlt| ->]|Hlt].
  - apply (Hbefore n); [lia|]. left. by rewrite Hn.
  - congruence.
  - by apply (Hm N).
Qed.

(** Moving a descriptor of [lock] into a table that does not have it. *)
Lemma rehash_entry_stops N fuel n d :
  (forall s, lock_at vec s <> lock) -> stops n N -> (N < n + fuel)%nat ->
  rehash_entry fuel vec msk d (probe_at n h h).1 (probe_at n h h).2
  = Ret (<[slot_at msk lock N := d]> vec).
Proof.
  intros Habs. revert n; induction fuel as [|fuel IH]; intros n (HnN & HN & Hm) Hf; [lia|].
  cbn [rehash_entry]. destruct (slot_at_in n) as (d' & Hd & Hat). rewrite (bind_access _ d') by exact Hd.
  rewrite <- Hat. destruct (decide (n = N)) as [->|Hne].
  - destruct HN as [HN|HN]; [by apply Habs in HN|]. by rewrite HN.
  - assert (Hn : ~ chain_end vec lock (slot_at msk lock n)) by (apply Hm; lia).
    unfold chain_end in Hn. destruct (Z.eqb_spec (lock_at vec (slot_at msk lock n)) 0); [tauto|].
    cbn [negb]. rewrite <- IH with (n := S n); [|split; [lia|]; split; [done|]; intros; apply Hm; lia|lia].
    rewrite probe_at_S. by destruct (probe_next _ _).
Qed.

(** What the search of the two [get] operations returns. *)
Lemma get_search :
  vec_wf k vec -> count_b is_used vec <= msk ->
  (exists s r, get_loop (probe_fuel msk) vec msk lock h h None = Ret (Existing s)
     /\ find_loop (probe_fuel msk) vec msk lock h h = Ret (Some s)
     /\ vec !! s = Some (MkRL r lock))
  \/ (exists s dummy, get_loop (probe_fuel msk) vec msk lock h h None = Ret (EndOfChain dummy s)
     /\ find_loop (probe_fuel msk) vec msk lock h h = Ret None
     /\ (forall s', lock_at vec s' <> lock)
     /\ lock_at vec s = 0 /\ reached msk vec s lock /\ (s < 2 ^ k)%nat
     /\ forall s', dummy = Some s' ->
          lock_at vec s' = READLOCK_DUMMYLOCK /\ reached msk vec s' lock).
Proof.
  intros Hwf Hcnt. destruct (search_stops Hcnt) as (N & HS & HN & Habs).
  { intros s. by apply (vw_reach _ _ Hwf). }
  pose proof (get_loop_stops N (probe_fuel msk) 0 None HS ltac:(lia)) as Hget.
  pose proof (find_loop_stops N (probe_fuel msk) 0 HS ltac:(lia)) as Hfind.
  cbn [probe_at fst snd] in Hget, Hfind.
  destruct (Z.eqb_spec (lock_at vec (slot_at msk lock N)) lock) as [E|E].
  - left. destruct (lock_at_inv _ _ _ E) as (d & Hd & Hdl); [unfold real_lock in Hlock; lia|].
    exists (slot_at msk lock N), (rl_recursion d). split; [done|]. split; [done|].
    rewrite Hd. destruct d; cbn in *; congruence.
  - right. destruct Hget as (r & Hget & Hr). destruct (Habs E) as [E0 Hno].
    assert (Hpre : forall m, (m < N)%nat -> lock_at vec (slot_at msk lock m) <> 0).
    { intros m Hm E1. destruct HS as (_ & _ & Hb). apply (Hb m); [lia|]. by right. }
    exists (slot_at msk lock N), r. split; [done|]. split; [done|]. split; [done|]. split; [done|].
    split; [by exists N|]. split; [apply slot_of_lt|]. intros s' ->.
    destruct Hr as [?|(m & Hm & [= ->] & Hdum)]; [done|]. split; [done|].
    exists m. split; [done|]. intros m' Hm'. apply Hpre. lia.
Qed.
End Search.

(** ** Growing the table *)
Lemma rehash_entry_ok k vec d :
  (k <= 28)%nat -> vec_wf k vec -> real_lock (rl_rwlock d) ->
  (forall s, lock_at vec s <> rl_rwlock d) -> count_b is_used vec < 2 ^ Z.of_nat k ->
  let msk := 2 ^ Z.of_nat k - 1 in let h := Z.land (RWLOCK_HASH (rl_rwlock d)) msk in
  exists s old, rehash_entry (probe_fuel msk) vec msk d h h = Ret (<[s := d]> vec)
    /\ vec !! s = Some old /\ rl_rwlock old = 0 /\ vec_wf k (<[s := d]> vec).
Proof.
  intros Hk Hwf Hd Habs Hcnt msk h.
  destruct (search_stops k vec (rl_rwlock d) Hk (vw_len _ _ Hwf)) as (N & HS & HN & H0);
    [lia|by intros s ?%Habs|].
  destruct (H0 (Habs _)) as [E0 _].
  destruct (slot_at_in k vec (rl_rwlock d) (vw_len _ _ Hwf) N) as (old & Hold & Hat).
  exists (slot_at msk (rl_rwlock d) N), old.
  split; [apply (rehash_entry_stops k vec (rl_rwlock d) Hk (vw_len _ _ Hwf) N (probe_fuel msk) 0); done|].
  split; [done|]. split; [congruence|].
  apply (vec_update_wf k vec _ old); [done|done|unfold real_lock in Hd; lia|].
  intros _. right. split; [done|]. exists N. split; [done|]. intros m Hm E.
  destruct HS as (_ & _ & Hb). apply (Hb m); [lia|]. by right.
Qed.

Definition distinct_locks (old : list read_lock) : Prop :=
  forall s1 s2 l, real_lock l -> lock_at old s1 = l -> lock_at old s2 = l -> s1 = s2.

Lemma is_real_spec d : 0 <= rl_rwlock d <= READLOCK_DUMMYLOCK -> is_real d = true <-> real_lock (rl_rwlock d).
Proof. unfold is_real, real_lock, READLOCK_DUMMYLOCK. lia. Qed.
Lemma is_real_used d : is_real d = true -> is_used d = true.
Proof. unfold is_real, is_used. lia. Qed.

Lemma rehash_ok k old : (k <= 28)%nat -> forall new,
  vec_wf k new -> count_b is_real new = count_b is_used new ->
  (forall s d, old !! s = Some d -> 0 <= rl_rwlock d <= READLOCK_DUMMYLOCK) ->
  distinct_locks old ->
  (forall s l, real_lock l -> lock_at old s = l -> vec_lookup new l = None) ->
  count_b is_used new + count_b is_real old < 2 ^ Z.of_nat k ->
  exists new', rehash old new (2 ^ Z.of_nat k - 1) = Ret new' /\ vec_wf k new'
    /\ count_b is_used new' = count_b is_used new + count_b is_real old
    /\ count_b is_real new' = count_b is_used new'
    /\ forall l, real_lock l ->
         vec_lookup new' l = match vec_lookup old l with Some r => Some r | None => vec_lookup new l end.
Proof.
  intros Hk. induction old as [|d old IH]; intros new Hwf Hru Hptr Hdist Hnew Hcnt.
  { exists new. cbn. split; [done|]. split; [done|]. unfold count_b at 3. cbn. split; [lia|]. done. }
  assert (Htl : distinct_locks old).
  { intros s1 s2 l Hl H1 H2. specialize (Hdist (S s1) (S s2) l Hl H1 H2). congruence. }
  pose proof (Hptr 0%nat d eq_refl) as Hpd.
  assert (Hcd : count_b is_real (d :: old) = (if is_real d then 1 else 0) + count_b is_real old).
  { unfold count_b. cbn [List.filter]. destruct (is_real d); cbn [length]; lia. }
  cbn [rehash]. destruct (is_real d) eqn:Hr.
  - pose proof Hr as Hrl. rewrite is_real_spec in Hrl by done.
    unfold is_real in Hr. rewrite Bool.negb_true_iff in Hr. rewrite Hr.
    destruct (rehash_entry_ok k new d Hk Hwf Hrl) as (s & o & -> & Ho & Ho0 & Hwf').
    { apply vec_lookup_absent; [done|]. by apply (Hnew 0%nat). }
    { pose proof (count_b_len is_real old). lia. }
    rewrite bind_ret.
    assert (Hc : forall f, f o = false -> f d = true ->
      count_b f (<[s := d]> new) = count_b f new + 1).
    { intros f F1 F2. rewrite (count_b_insert f new s o d Ho), F1, F2. lia. }
    assert (Hno : is_used o = false /\ is_real o = false /\ is_used d = true /\ is_real d = true).
    { unfold is_used, is_real. unfold real_lock, READLOCK_DUMMYLOCK in *. rewrite Ho0. lia. }
    destruct Hno as (Ho1 & Ho2 & Hd1 & Hd2).
    assert (Hlk : forall l, real_lock l -> vec_lookup (<[s := d]> new) l =
      if decide (l = rl_rwlock d) then Some (rl_recursion d) else vec_lookup new l).
    { intros l Hl. rewrite (vec_lookup_update k new s o d l) by done. destruct (decide (l = rl_rwlock d)); [done|].
      destruct (decide _) as [E|]; [unfold real_lock in Hl; lia|done]. }
    destruct (IH (<[s := d]> new)) as (new' & Hrun & Hw & Hc1 & Hc2 & Hl'); try done.
    { rewrite !Hc by done. lia. }
    { intros s' d' E. by apply (Hptr (S s')). }
    { intros s' l Hl E. rewrite Hlk by done. destruct (decide (l = rl_rwlock d)) as [->|].
      - specialize (Hdist 0%nat (S s') _ Hl eq_refl E). done.
      - by apply (Hnew (S s')). }
    { rewrite Hc by done. lia. }
    exists new'. split; [done|]. split; [done|]. rewrite Hc in Hc1 by done. split; [lia|]. split; [done|].
    intros l Hl. rewrite Hl' by done. cbn [vec_lookup]. rewrite Hlk by done.
    destruct (Z.eqb_spec (rl_rwlock d) l) as [E|E]; destruct (decide (l = rl_rwlock d)); try congruence.
    assert (vec_lookup old l = None) as ->; [|done]. apply vec_lookup_absent; [done|]. intros s' Hs'.
    specialize (Hdist 0%nat (S s') l Hl E Hs'). done.
  - unfold is_real in Hr. rewrite Bool.negb_false_iff in Hr. rewrite Hr.
    destruct (IH new) as (new' & Hrun & Hw & Hc1 & Hc2 & Hl'); try done.
    { intros s' d' E. by apply (Hptr (S s')). }
    { intros s' l. apply (Hnew (S s')). }
    { lia. }
    exists new'. split; [done|]. split; [done|]. split; [lia|]. split; [done|].
    intros l Hl. rewrite Hl' by done. cbn [vec_lookup]. destruct (Z.eqb_spec (rl_rwlock d) l); [|done].
    unfold real_lock in Hl. lia.
Qed.

(** * The operations on well-formed tables *)
Definition desc_at (locks : read_locks) (s : nat) (lock r : Z) : Prop :=
  rls_vec locks !! s = Some (MkRL r lock).

(** [locks'] is [locks] with [lock] mapped to [v]. *)
Definition updates (locks locks' : read_locks) (lock : Z) (v : option Z) : Prop :=
  forall l, real_lock l -> readlock_of locks' l = if decide (l = lock) then v else readlock_of locks l.

Lemma pow28 k : (k <= 28)%nat -> 2 ^ Z.of_nat k <= 268435456.
Proof. intros. pose proof (Z.pow_le_mono_r 2 (Z.of_nat k) 28 ltac:(lia) ltac:(lia)). cbn in *. lia. Qed.
#[export] Hint Resolve pow28 : kos.

Lemma lock_asserts_ok locks : readlocks_wf locks -> lock_asserts locks = Ret tt.
Proof.
  intros [_ Huse Hcnt Hfree]. unfold lock_asserts.
  pose proof (count_b_mono _ _ (rls_vec locks) is_real_used). by repeat kstep; destruct (_ <=? _) eqn:E; [|lia].
Qed.

Lemma desc_lookup locks s lock r :
  readlocks_wf locks -> real_lock lock -> desc_at locks s lock r -> readlock_of locks lock = Some r.
Proof. intros [(k & _ & _ & Hwf) _ _ _] Hl Hd. by apply (vec_lookup_at k _ s). Qed.

Lemma find_ok locks lock :
  readlocks_wf locks -> real_lock lock ->
  match readlock_of locks lock with
  | Some r => exists s, rwlock_find_readlock locks lock = Ret (Some s) /\ desc_at locks s lock r
  | None => rwlock_find_readlock locks lock = Ret None
  end.
Proof.
  intros Hwf Hl. unfold rwlock_find_readlock. rewrite lock_asserts_ok, bind_ret by done.
  pose proof Hwf as [(k & Hk & Hm & Hv) Huse Hcnt Hfree]. rewrite Hm in *.
  destruct (get_search k (rls_vec locks) lock) as [(s & r & _ & Hf & Hs)|(s & d & _ & Hf & Habs & _)];
    [lia|apply Hv|done|done|lia|rewrite Hf..].
  - erewrite desc_lookup by done. by exists s.
  - apply vec_lookup_absent in Habs; [|done]. unfold readlock_of. by rewrite Habs.
Qed.

(** Putting a new descriptor into a dummy or free slot. *)
Lemma new_desc_ok k locks s old lock :
  readlocks_wf locks -> (1 <= k <= 28)%nat -> rls_msk locks = 2 ^ Z.of_nat k - 1 ->
  vec_wf k (rls_vec locks) -> real_lock lock -> readlock_of locks lock = None ->
  rls_vec locks !! s = Some old -> reached (rls_msk locks) (rls_vec locks) s lock ->
  is_real old = false -> (rl_rwlock old = 0 -> rls_cnt locks <> rls_msk locks) ->
  let locks1 := if rl_rwlock old =? 0 then inc_cnt locks else locks in
  exists locks', new_desc locks1 s lock = Ret locks' /\ readlocks_wf locks'
    /\ desc_at locks' s lock 0 /\ updates locks locks' lock (Some 0).
Proof.
  intros Hwf Hk Hm Hv Hl Hno Hs Hreach Hold Hroom locks1.
  pose proof Hwf as [_ Huse Hcnt Hfree]. pose proof (pow28 k ltac:(lia)) as Hp.
  assert (Hvec1 : rls_vec locks1 = rls_vec locks) by (unfold locks1; by destruct (_ =? 0)).
  assert (Hv' : vec_wf k (<[s := MkRL 0 lock]> (rls_vec locks))).
  { apply (vec_update_wf k _ s old); [done|done|cbn; unfold real_lock in Hl; lia|].
    intros _. right. cbn. split; [by apply vec_lookup_absent|]. by rewrite <- Hm. }
  pose proof (count_b_mono _ _ (rls_vec locks) is_real_used) as Hle.
  pose proof (count_b_len is_real (rls_vec locks)) as Hlb.
  assert (Hlock : is_real (MkRL 0 lock) = true /\ is_used (MkRL 0 lock) = true).
  { unfold is_real, is_used, real_lock, READLOCK_DUMMYLOCK in *. cbn. lia. }
  destruct Hlock as [Hreal Hused].
  unfold new_desc. rewrite Hvec1. kstep. rewrite bind_kassert by (unfold is_real in Hold; lia).
  eexists. split; [done|]. split; [|split].
  - assert (Hu : u32 (rls_use locks + 1) = rls_use locks + 1) by (apply u32_small; lia).
    assert (rls_use locks1 = rls_use locks /\ rls_msk locks1 = rls_msk locks) as [E1 E2]
      by (unfold locks1; by destruct (_ =? 0)).
    split; cbn [rls_use rls_cnt rls_msk rls_vec]; rewrite ?E1, ?E2.
    + eauto.
    + rewrite (count_b_insert is_real _ s old _ Hs), Hold, Hreal. lia.
    + rewrite (count_b_insert is_used _ s old _ Hs), Hused. unfold locks1.
      replace (is_used old) with (negb (rl_rwlock old =? 0)) by done.
      destruct (Z.eqb_spec (rl_rwlock old) 0); cbn -[Z.pow u32]; [rewrite u32_small by lia|]; lia.
    + unfold locks1. destruct (Z.eqb_spec (rl_rwlock old) 0); cbn -[Z.pow u32]; [|lia].
      rewrite u32_small; lia.
  - unfold desc_at. cbn [rls_vec]. apply list_lookup_insert_eq. by apply lookup_lt_Some in Hs.
  - intros l Hrl. unfold readlock_of in *. cbn [rls_vec]. rewrite (vec_lookup_update k _ s old) by done.
    cbn [rl_rwlock rl_recursion]. destruct (decide (l = lock)); [done|].
    destruct (decide _) as [E|]; [|done]. unfold is_real, real_lock in *. lia.
Qed.

Lemma lor_even_1 b : Z.lor (2 * b) 1 = 2 * b + 1.
Proof. rewrite (Z.mul_comm 2 b). apply (lor_add 1); lia. Qed.
Lemma new_mask_eq k : (k < 28)%nat ->
  Z.lor (u32 (Z.shiftl (2 ^ Z.of_nat k - 1) 1)) 1 = 2 ^ Z.of_nat (S k) - 1.
Proof.
  intros Hk. pose proof (pow28 k ltac:(lia)). assert (0 < 2 ^ Z.of_nat k) by lia.
  rewrite Z.shiftl_mul_pow2 by lia. rewrite u32_small by lia.
  rewrite Nat2Z.inj_succ, Z.pow_succ_r by lia.
  replace ((2 ^ Z.of_nat k - 1) * 2 ^ 1) with (2 * (2 ^ Z.of_nat k - 1)) by lia.
  rewrite lor_even_1. lia.
Qed.

Lemma lock_at_replicate n s : lock_at (replicate n NULL_LOCK) s = 0.
Proof.
  unfold lock_at. destruct (_ !! s) eqn:E; [|done]. by apply lookup_replicate in E as [-> _].
Qed.
Lemma empty_vec_wf k : vec_wf k (replicate (2 ^ k) NULL_LOCK).
Proof.
  split.
  - apply length_replicate.
  - intros s d E. by apply lookup_replicate in E as [-> _].
  - intros s1 s2 l [Hl _]. rewrite lock_at_replicate. lia.
  - intros s l [Hl _]. rewrite lock_at_replicate. lia.
Qed.
Lemma count_b_none {A} (f : A -> bool) n x : f x = false -> count_b f (replicate n x) = 0.
Proof. intros Hf. unfold count_b. induction n as [|n IH]; cbn; [done|]. by rewrite Hf. Qed.

(** Re-hashing keeps the map and makes room. *)
Lemma grow_ok locks :
  readlocks_wf locks -> rls_msk locks < 268435455 ->
  let new_mask := Z.lor (u32 (Z.shiftl (rls_msk locks) 1)) 1 in
  exists new, rehash (take (Z.to_nat (rls_msk locks + 1)) (rls_vec locks))
                (replicate (Z.to_nat (new_mask + 1)) NULL_LOCK) new_mask = Ret new
    /\ let locks' := MkRLS (rls_use locks) (rls_use locks) new_mask new false in
       readlocks_wf locks' /\ rls_use locks' < rls_msk locks'
       /\ forall l, real_lock l -> readlock_of locks' l = readlock_of locks l.
Proof.
  intros [(k & Hk & Hm & Hv) Huse Hcnt Hfree] Hroom.
  assert (Hk' : (k < 28)%nat).
  { destruct (decide (k = 28%nat)) as [->|]; [|lia]. cbn in Hm. lia. }
  pose proof (count_b_mono _ _ (rls_vec locks) is_real_used) as Hle.
  rewrite Hm, new_mask_eq by done. cbv zeta.
  replace (Z.to_nat (2 ^ Z.of_nat k - 1 + 1)) with (2 ^ k)%nat
    by (replace (2 ^ Z.of_nat k - 1 + 1) with (Z.of_nat (2 ^ k)) by (rewrite Nat2Z.inj_pow; cbn; lia); lia).
  replace (Z.to_nat (2 ^ Z.of_nat (S k) - 1 + 1)) with (2 ^ S k)%nat
    by (replace (2 ^ Z.of_nat (S k) - 1 + 1) with (Z.of_nat (2 ^ S k)) by (rewrite Nat2Z.inj_pow; cbn; lia); lia).
  rewrite take_ge by (rewrite (vw_len _ _ Hv); lia).
  assert (Hpow : 2 ^ Z.of_nat (S k) = 2 * 2 ^ Z.of_nat k)
    by (rewrite Nat2Z.inj_succ, Z.pow_succ_r by lia; done).
  destruct (rehash_ok (S k) (rls_vec locks) ltac:(lia) (replicate (2 ^ S k) NULL_LOCK))
    as (new & Hrun & Hw & Hc1 & Hc2 & Hlk).
  - apply empty_vec_wf.
  - by rewrite !count_b_none.
  - apply (vw_ptr _ _ Hv).
  - exact (vw_uniq _ _ Hv).
  - intros s l Hl _. apply vec_lookup_absent; [done|]. intros s'. rewrite lock_at_replicate.
    unfold real_lock in Hl. lia.
  - rewrite count_b_none by done. lia.
  - exists new. split; [done|]. rewrite count_b_none in Hc1 by done. split; [split|split]; cbn.
    + exists (S k). split; [lia|done].
    + lia.
    + lia.
    + lia.
    + lia.
    + intros l Hl. unfold readlock_of. cbn. rewrite Hlk by done.
      destruct (vec_lookup _ l); [done|]. apply vec_lookup_absent; [done|]. intros s'.
      rewrite lock_at_replicate. unfold real_lock in Hl. lia.
Qed.

Definition get_post (locks : read_locks) (lock : Z) (res : outcome (read_locks * nat)) : Prop :=
  let r := default 0 (readlock_of locks lock) in
  exists locks' s, res = Ret (locks', s) /\ readlocks_wf locks'
    /\ desc_at locks' s lock r /\ updates locks locks' lock (Some r).

(** One pass: the descriptor, or a full table without the lock. *)
Lemma get_pass fuel ok locks lock :
  readlocks_wf locks -> real_lock lock ->
  (get_post locks lock (get_readlock_again (S fuel) ok locks lock)
   /\ exists locks' s, rwlock_get_readlock_nothrow locks lock = Ret (locks', Some s)
        /\ get_readlock_again (S fuel) ok locks lock = Ret (locks', s))
  \/ (readlock_of locks lock = None /\ rls_cnt locks = rls_msk locks
      /\ rwlock_get_readlock_nothrow locks lock = Ret (locks, None)
      /\ get_readlock_again (S fuel) ok locks lock =
         let new_mask := Z.lor (u32 (Z.shiftl (rls_msk locks) 1)) 1 in
         if ok then
           new_vector ← rehash (take (Z.to_nat (rls_msk locks + 1)) (rls_vec locks))
                          (replicate (Z.to_nat (new_mask + 1)) NULL_LOCK) new_mask;
           get_readlock_again fuel ok
             (MkRLS (rls_use locks) (rls_use locks) new_mask new_vector false) lock
         else Throw E_BADALLOC).
Proof.
  intros Hwf Hl. cbn [get_readlock_again]. unfold rwlock_get_readlock_nothrow, get_post.
  rewrite lock_asserts_ok, !bind_ret by done.
  pose proof Hwf as [(k & Hk & Hm & Hv) Huse Hcnt Hfree].
  destruct (get_search k (rls_vec locks) lock)
    as [(s & r & Hg & _ & Hs)|(s & dummy & Hg & _ & Habs & H0 & Hr & Hlt & Hdum)];
    [lia|apply Hv|done|done|lia|rewrite <- Hm in Hg; rewrite Hg, !bind_ret..].
  - left. assert (Hrl : readlock_of locks lock = Some r) by by apply (desc_lookup locks s).
    rewrite Hrl. cbn [default]. split; [|eauto].
    exists locks, s. split; [done|]. split; [done|]. split; [done|].
    intros l Hl'. destruct (decide (l = lock)) as [->|]; done.
  - rewrite <- Hm in *. assert (Hno : readlock_of locks lock = None) by by apply vec_lookup_absent.
    rewrite Hno. cbn [default]. destruct dummy as [s'|].
    + left. destruct (Hdum s' eq_refl) as [Hd Hr']. apply lock_at_inv in Hd as (old & Ho & Hod); [|done].
      destruct (new_desc_ok k locks s' old lock) as (locks' & Hrun & Hwf' & Hda & Hup); try done.
      { unfold is_real. by rewrite Hod. } { by rewrite Hod. }
      rewrite Hod in Hrun. cbn in Hrun. rewrite Hrun. cbn [mbind outcome_bind].
      split; [|eauto]. exists locks', s'. done.
    + destruct (lookup_lt_is_Some_2 (rls_vec locks) s) as [old Ho]; [by rewrite (vw_len _ _ Hv)|].
      pose proof (lock_at_some _ _ _ Ho) as Hod. rewrite H0 in Hod.
      destruct (Z.eqb_spec (rls_cnt locks) (rls_msk locks)) as [E|E]; [right; done|left].
      destruct (new_desc_ok k locks s old lock) as (locks' & Hrun & Hwf' & Hda & Hup); try done.
      { unfold is_real. by rewrite <- Hod. }
      rewrite <- Hod in Hrun. cbn -[inc_cnt] in Hrun. rewrite Hrun. cbn [mbind outcome_bind].
      split; [|eauto]. exists locks', s. done.
Qed.

Lemma get_ok ok locks lock :
  readlocks_wf locks -> real_lock lock -> (ok = true -> rls_msk locks < 268435455) ->
  get_post locks lock (rwlock_get_readlock ok locks lock)
  \/ (rwlock_get_readlock ok locks lock = Throw E_BADALLOC /\ ok = false
      /\ readlock_of locks lock = None).
Proof.
  intros Hwf Hl Hroom. unfold rwlock_get_readlock.
  destruct (get_pass 1 ok locks lock Hwf Hl) as [[Hp _]|(Hno & Hfull & _ & ->)]; [by left|].
  cbv zeta. destruct ok; [|by right]. left.
  destruct (grow_ok locks Hwf (Hroom eq_refl)) as (new & -> & Hwf' & Hlt & Hsame). rewrite bind_ret.
  set (locks1 := MkRLS _ _ _ _ _) in *.
  destruct (get_pass 0 true locks1 lock Hwf' Hl) as [[Hp _]|(_ & Hfull' & _)].
  - destruct Hp as (locks' & s & Hrun & Hw & Hd & Hup). exists locks', s.
    rewrite Hsame in Hd, Hup by done. split; [done|]. split; [done|]. split; [done|].
    intros l Hrl. rewrite Hup by done. by rewrite Hsame.
  - cbn in Hfull', Hlt. lia.
Qed.

Lemma get_nothrow_ok locks lock :
  readlocks_wf locks -> real_lock lock ->
  (exists locks' s, rwlock_get_readlock_nothrow locks lock = Ret (locks', Some s)
     /\ get_post locks lock (Ret (locks', s)))
  \/ (rwlock_get_readlock_nothrow locks lock = Ret (locks, None) /\ readlock_of locks lock = None).
Proof.
  intros Hwf Hl. destruct (get_pass 0 false locks lock Hwf Hl)
    as [[Hp (locks' & s & Hn & Hg)]|(Hno & _ & Hn & _)]; [left|right; done].
  exists locks', s. by rewrite <- Hg.
Qed.

Lemma delete_ok locks s lock r :
  readlocks_wf locks -> real_lock lock -> desc_at locks s lock r ->
  exists locks', rwlock_delete_readlock locks s = Ret locks' /\ readlocks_wf locks'
    /\ updates locks locks' lock None.
Proof.
  intros Hwf Hl Hs. pose proof Hwf as [(k & Hk & Hm & Hv) Huse Hcnt Hfree].
  pose proof (count_b_mono _ _ (rls_vec locks) is_real_used) as Hle.
  pose proof (lookup_lt_Some _ _ _ Hs) as Hlt. rewrite (vw_len _ _ Hv) in Hlt.
  apply Nat2Z.inj_lt in Hlt. rewrite Nat2Z.inj_pow in Hlt. cbn in Hlt.
  assert (Hreal : is_real (MkRL r lock) = true).
  { unfold is_real, real_lock, READLOCK_DUMMYLOCK in *. cbn. lia. }
  assert (Hpos : 0 < count_b is_real (rls_vec locks)).
  { pose proof (count_b_insert is_real _ s _ NULL_LOCK Hs) as E. rewrite Hreal in E. cbn in E.
    pose proof (count_b_len is_real (<[s:=NULL_LOCK]> (rls_vec locks))). lia. }
  unfold rwlock_delete_readlock. do 3 rewrite bind_kassert by lia. rewrite (bind_access _ _ _ Hs).
  cbn [rl_recursion]. set (d := MkRL r READLOCK_DUMMYLOCK).
  assert (Hv' : vec_wf k (<[s := d]> (rls_vec locks))).
  { apply (vec_update_wf k _ s _ d Hv Hs); cbn; unfold real_lock, READLOCK_DUMMYLOCK; lia. }
  eexists. split; [done|]. split; [split; cbn|].
  - eauto.
  - rewrite (count_b_insert is_real _ s _ d Hs), Hreal. cbn. lia.
  - rewrite (count_b_insert is_used _ s _ d Hs), (is_real_used _ Hreal). cbn. lia.
  - done.
  - intros l Hl'. unfold readlock_of. cbn [rls_vec]. rewrite (vec_lookup_update k _ s _ d l Hv Hv' Hs Hl').
    cbn. unfold real_lock in Hl'. destruct (decide (l = READLOCK_DUMMYLOCK)); [lia|]. done.
Qed.

Lemma set_recursion_ok locks s lock r n :
  readlocks_wf locks -> real_lock lock -> desc_at locks s lock r ->
  desc_recursion locks s = Ret r /\
  exists locks', desc_set_recursion locks s n = Ret locks' /\ readlocks_wf locks'
    /\ desc_at locks' s lock n /\ updates locks locks' lock (Some n).
Proof.
  intros Hwf Hl Hs. pose proof Hwf as [(k & Hk & Hm & Hv) Huse Hcnt Hfree].
  unfold desc_recursion, desc_set_recursion. rewrite !(bind_access _ _ _ Hs). cbn [rl_recursion rl_rwlock].
  split; [done|]. set (d := MkRL n lock).
  assert (Hv' : vec_wf k (<[s := d]> (rls_vec locks))).
  { apply (vec_update_wf k _ s _ d Hv Hs); cbn; [unfold real_lock in Hl; lia|by left]. }
  assert (Hr : is_real (MkRL r lock) = is_real d /\ is_used (MkRL r lock) = is_used d) by done.
  destruct Hr as [Hr Hu]. eexists. split; [done|]. split; [split; cbn|split].
  - eauto.
  - rewrite (count_b_insert is_real _ s _ d Hs), Hr. lia.
  - rewrite (count_b_insert is_used _ s _ d Hs), Hu. lia.
  - done.
  - unfold desc_at. cbn. apply list_lookup_insert_eq. by apply lookup_lt_Some in Hs.
  - intros l Hl'. unfold readlock_of. cbn [rls_vec set_vec].
    rewrite (vec_lookup_update k _ s _ d l Hv Hv' Hs Hl'). cbn. destruct (decide (l = lock)); done.
Qed.

Lemma init_ok : readlocks_wf readlocks_init.
Proof.
  split; [|done..]. exists 1%nat. split; [lia|]. split; [done|]. apply (empty_vec_wf 1).
Qed.

Lemma init_lookup l : real_lock l -> readlock_of readlocks_init l = None.
Proof. intros [Hl _]. unfold readlock_of. cbn -[Z.eqb]. by replace (0 =? l) with false by lia. Qed.

(** * Refinement: the table is a finite map *)
Inductive rl_op : Type :=
| OpFind (lock : Z)
| OpGet (kmalloc_ok : bool) (lock : Z)
| OpGetNothrow (lock : Z)
| OpSet (lock n : Z)
| OpDelete (lock : Z).
Definition op_lock (op : rl_op) : Z :=
  match op with OpFind l | OpGet _ l | OpGetNothrow l | OpSet l _ | OpDelete l => l end.

(** Running an operation; the result is the recursion of the descriptor. *)
Definition with_desc (locks : read_locks) (o : option nat) : outcome (read_locks * option Z) :=
  match o with
  | None => Ret (locks, None)
  | Some s => r ← desc_recursion locks s; Ret (locks, Some r)
  end.
Definition run_op (op : rl_op) (locks : read_locks) : outcome (read_locks * option Z) :=
  match op with
  | OpFind l => o ← rwlock_find_readlock locks l; with_desc locks o
  | OpGet ok l => '(locks, s) ← rwlock_get_readlock ok locks l; with_desc locks (Some s)
  | OpGetNothrow l => '(locks, o) ← rwlock_get_readlock_nothrow locks l; with_desc locks o
  | OpSet l n =>
      o ← rwlock_find_readlock locks l;
      match o with
      | None => Ret (locks, None)
      | Some s => locks ← desc_set_recursion locks s n; with_desc locks (Some s)
      end
  | OpDelete l =>
      o ← rwlock_find_readlock locks l;
      match o with
      | None => Ret (locks, None)
      | Some s => locks ← rwlock_delete_readlock locks s; Ret (locks, None)
      end
  end.

(** The specification: possible results on a map from locks to recursion. *)
Inductive spec_op : rl_op -> gmap Z Z -> gmap Z Z -> option Z -> Prop :=
| SpecFind l m : spec_op (OpFind l) m m (m !! l)
| SpecGet ok l m : let r := default 0 (m !! l) in spec_op (OpGet ok l) m (<[l := r]> m) (Some r)
| SpecGetNothrow l m :
    let r := default 0 (m !! l) in spec_op (OpGetNothrow l) m (<[l := r]> m) (Some r)
| SpecGetNothrowFull l m : m !! l = None -> spec_op (OpGetNothrow l) m m None
| SpecSetMissing l n m : m !! l = None -> spec_op (OpSet l n) m m None
| SpecSet l n m r : m !! l = Some r -> spec_op (OpSet l n) m (<[l := n]> m) (Some n)
| SpecDelete l m : spec_op (OpDelete l) m (delete l m) None.

Definition table_rel (locks : read_locks) (m : gmap Z Z) : Prop :=
  readlocks_wf locks /\ forall l, real_lock l -> readlock_of locks l = m !! l.

Lemma updates_rel locks locks' lock r m :
  table_rel locks m -> readlocks_wf locks' -> updates locks locks' lock (Some r) ->
  table_rel locks' (<[lock := r]> m).
Proof.
  intros [_ Hm] Hwf Hu. split; [done|]. intros l Hl. rewrite Hu by done.
  destruct (decide (l = lock)) as [->|]; [by rewrite lookup_insert_eq|].
  rewrite lookup_insert_ne by done. by apply Hm.
Qed.
Lemma get_post_rel locks lock m locks' s :
  table_rel locks m -> real_lock lock -> get_post locks lock (Ret (locks', s)) ->
  let r := default 0 (m !! lock) in
  table_rel locks' (<[lock := r]> m) /\ with_desc locks' (Some s) = Ret (locks', Some r).
Proof.
  intros Hrel Hl (l2 & s2 & [= <- <-] & Hwf & Hd & Hu). pose proof Hrel as [_ Hm].
  rewrite Hm in Hd, Hu by done. split; [by apply (updates_rel locks)|].
  unfold with_desc. by destruct (set_recursion_ok _ _ _ _ 0 Hwf Hl Hd) as [-> _].
Qed.

(** C13: The hash table refines a finite map: every operation returns (the
    unbounded probe loops end), computes what the map operation computes and
    keeps the relation; only a failed allocation throws, with nothing changed. *)
Theorem readlocks_refines_map op locks m :
  table_rel locks m -> real_lock (op_lock op) -> rls_msk locks < 268435455 ->
  (exists locks' r m', run_op op locks = Ret (locks', r) /\ spec_op op m m' r /\ table_rel locks' m')
  \/ (exists l, op = OpGet false l /\ m !! l = None /\ run_op op locks = Throw E_BADALLOC).
Proof.
  intros Hrel Hl Hroom. pose proof Hrel as [Hwf Hm].
  pose proof (find_ok locks _ Hwf Hl) as Hfind. rewrite Hm in Hfind by done.
  destruct op as [l|ok l|l|l n|l]; cbn [op_lock run_op] in *.
  - left. destruct (m !! l) as [r|] eqn:E.
    + destruct Hfind as (s & -> & Hd). rewrite bind_ret. unfold with_desc.
      destruct (set_recursion_ok _ _ _ _ 0 Hwf Hl Hd) as [-> _].
      exists locks, (Some r), m. split; [done|]. rewrite <- E. split; [constructor|done].
    + rewrite Hfind. exists locks, None, m. split; [done|]. rewrite <- E. split; [constructor|done].
  - destruct (get_ok ok locks l Hwf Hl (fun _ => Hroom)) as [Hp|(-> & -> & Hno)].
    + left. pose proof Hp as (locks' & s & Hrun & _). rewrite Hrun in *. rewrite bind_ret.
      destruct (get_post_rel _ _ m _ _ Hrel Hl Hp) as [Hrel' ->].
      eexists _, _, _. split; [done|]. split; [constructor|done].
    + right. exists l. split; [done|]. split; [by rewrite <- Hm|done].
  - left. destruct (get_nothrow_ok locks l Hwf Hl) as [(locks' & s & -> & Hp)|[-> Hno]]; rewrite bind_ret.
    + destruct (get_post_rel _ _ m _ _ Hrel Hl Hp) as [Hrel' ->].
      eexists _, _, _. split; [done|]. split; [constructor|done].
    + exists locks, None, m. split; [done|]. split; [|done]. constructor. by rewrite <- Hm.
  - left. destruct (m !! l) as [r|] eqn:E.
    + destruct Hfind as (s & -> & Hd). rewrite bind_ret.
      destruct (set_recursion_ok _ _ _ _ n Hwf Hl Hd) as [_ (locks' & -> & Hwf' & Hd' & Hu)].
      rewrite bind_ret. unfold with_desc. destruct (set_recursion_ok _ _ _ _ 0 Hwf' Hl Hd') as [-> _].
      eexists _, _, _. split; [done|]. split; [by econstructor|]. by apply (updates_rel locks).
    + rewrite Hfind. exists locks, None, m. split; [done|]. split; [by constructor|done].
  - left. destruct (m !! l) as [r|] eqn:E.
    + destruct Hfind as (s & -> & Hd). rewrite bind_ret.
      destruct (delete_ok _ _ _ _ Hwf Hl Hd) as (locks' & -> & Hwf' & Hu).
      eexists _, _, _. split; [done|]. split; [constructor|]. split; [done|]. intros l' Hl'.
      rewrite Hu by done. destruct (decide (l' = l)) as [->|]; [by rewrite lookup_delete_eq|].
      rewrite lookup_delete_ne by done. by apply Hm.
    + rewrite Hfind. exists locks, None, (delete l m). split; [done|]. split; [constructor|].
      by rewrite delete_id.
Qed.

(** The probe sequence of a table of [2^k] slots inspects every slot, for
    every lock, within [2^k + 7] steps (no slot is unreachable by hashing). *)
Theorem probe_visits_every_slot k lock s :
  (k <= 32)%nat -> (s < 2 ^ k)%nat ->
  exists n, (n < 2 ^ k + 7)%nat /\
    let msk := 2 ^ Z.of_nat k - 1 in let h := Z.land (RWLOCK_HASH lock) msk in
    slot_of (probe_at n h h).1 msk = s.
Proof.
  intros Hk Hs. destruct (probe_cover k lock s ltac:(lia) Hs) as (n & Hn & E).
  exists n. split; [|exact E]. unfold probe_fuel in Hn.
  apply Nat2Z.inj_lt. rewrite Nat2Z.inj_add, Nat2Z.inj_pow. cbn. lia.
Qed.

(** * Interface to the R/W-lock *)
Class ReadTable (T : Type) : Type := {
  rt_new : T;
  rt_find : T -> Z -> outcome (option nat);
  rt_get : bool -> T -> Z -> outcome (T * nat);
  rt_get_nothrow : T -> Z -> outcome (T * option nat);
  rt_delete : T -> nat -> outcome T;
  rt_recursion : T -> nat -> outcome Z;
  rt_set_recursion : T -> nat -> Z -> outcome T;
  (** What the table promises: a map [rt_lookup], descriptors [rt_desc], and
      [rt_room]: a larger vector can be addressed. *)
  rt_wf : T -> Prop;
  rt_room : T -> Prop;
  rt_lookup : T -> Z -> option Z;
  rt_desc : T -> nat -> Z -> Z -> Prop;
  rt_new_wf : rt_wf rt_new;
  rt_new_lookup l : real_lock l -> rt_lookup rt_new l = None;
  rt_find_spec t l : rt_wf t -> real_lock l ->
    match rt_lookup t l with
    | Some r => exists s, rt_find t l = Ret (Some s) /\ rt_desc t s l r
    | None => rt_find t l = Ret None
    end;
  rt_get_spec ok t l : rt_wf t -> real_lock l -> (ok = true -> rt_room t) ->
    let r := default 0 (rt_lookup t l) in
    (exists t' s, rt_get ok t l = Ret (t', s) /\ rt_wf t' /\ rt_desc t' s l r
       /\ rt_lookup t' l = Some r)
    \/ (rt_get ok t l = Throw E_BADALLOC /\ rt_lookup t l = None /\ ok = false);
  rt_get_nothrow_spec t l : rt_wf t -> real_lock l ->
    let r := default 0 (rt_lookup t l) in
    (exists t' s, rt_get_nothrow t l = Ret (t', Some s) /\ rt_wf t' /\ rt_desc t' s l r
       /\ rt_lookup t' l = Some r)
    \/ (rt_get_nothrow t l = Ret (t, None) /\ rt_lookup t l = None);
  rt_delete_spec t s l r : rt_wf t -> real_lock l -> rt_desc t s l r ->
    exists t', rt_delete t s = Ret t' /\ rt_wf t' /\ rt_lookup t' l = None;
  rt_recursion_spec t s l r : rt_wf t -> real_lock l -> rt_desc t s l r -> rt_recursion t s = Ret r;
  rt_set_spec t s l r n : rt_wf t -> real_lock l -> rt_desc t s l r ->
    exists t', rt_set_recursion t s n = Ret t' /\ rt_wf t' /\ rt_desc t' s l n
      /\ rt_lookup t' l = Some n;
}.

#[export] Instance readlocks_table : ReadTable read_locks.
Proof.
  refine {| rt_new := readlocks_init; rt_find := rwlock_find_readlock; rt_get := rwlock_get_readlock;
            rt_get_nothrow := rwlock_get_readlock_nothrow; rt_delete := rwlock_delete_readlock;
            rt_recursion := desc_recursion; rt_set_recursion := desc_set_recursion;
            rt_wf := readlocks_wf; rt_room t := rls_msk t < 268435455;
            rt_lookup := readlock_of; rt_desc := desc_at |}.
  - exact init_ok.
  - exact init_lookup.
  - exact find_ok.
  - intros ok t l Hwf Hl Hroom. destruct (get_ok ok t l Hwf Hl Hroom) as [(t' & s & E & Hw & Hd & Hu)|(E & Hok & Hn)].
    + left. exists t', s. split_and!; try done. rewrite Hu by done. by rewrite decide_True.
    + by right.
  - intros t l Hwf Hl. destruct (get_nothrow_ok t l Hwf Hl) as [(t' & s & E & t2 & s2 & [= <- <-] & Hw & Hd & Hu)|E];
      [left|by right]. exists t', s. split_and!; try done. rewrite Hu by done. by rewrite decide_True.
  - intros t s l r Hwf Hl Hd. destruct (delete_ok t s l r Hwf Hl Hd) as (t' & E & Hw & Hu).
    exists t'. split_and!; try done. rewrite Hu by done. by rewrite decide_True.
  - intros t s l r Hwf Hl Hd. by apply (set_recursion_ok t s l r 0).
  - intros t s l r n Hwf Hl Hd. destruct (set_recursion_ok t s l r n Hwf Hl Hd) as (_ & t' & E & Hw & Hd' & Hu).
    exists t'. split_and!; try done. rewrite Hu by done. by rewrite decide_True.
Defined.

(** * Witnesses *)
(** Two locks with the same hash (a collision), then a third one (re-hash). *)
Lemma readlocks_refines_witness :
  table_rel readlocks_init ∅ /\
  (exists locks' r m', run_op (OpGet true 4096) readlocks_init = Ret (locks', r)
     /\ spec_op (OpGet true 4096) ∅ m' r /\ table_rel locks' m').
Proof.
  assert (Hrel : table_rel readlocks_init ∅).
  { split; [exact init_ok|]. intros l Hl. rewrite lookup_empty.
    exact (init_lookup l Hl). }
  split; [exact Hrel|].
  destruct (readlocks_refines_map (OpGet true 4096) readlocks_init ∅ Hrel) as [Hok|(l & E & _)];
    [split; reflexivity|reflexivity|exact Hok|discriminate].
Defined.

Lemma probe_visits_witness : exists n, (n < 15)%nat /\ slot_of (probe_at n 1 1).1 7 = 6%nat.
Proof. apply (probe_visits_every_slot 3 16 6); [lia|cbn; lia]. Defined.

(** The table as it grows: a collision, a deletion that leaves a dummy, and the
    re-hash that drops the dummy. *)
Example readlocks_run :
  let run op st := '(locks, _) ← st; run_op op locks in
  let t := run (OpGet true 4128) (run (OpDelete 4096) (run (OpGet true 4096) (Ret (readlocks_init, None)))) in
  let t2 := run (OpGet true 8192) t in
  match t, t2 with
  | Ret (a, _), Ret (b, _) => (rls_cnt a, rls_msk a, rls_cnt b, rls_msk b, readlock_of b 4128)
  | _, _ => (0, 0, 0, 0, None)
  end = (1, 1, 2, 3, Some 0).
Proof. vm_compute. reflexivity. Qed.
