(* ===== verification/Rwlock.v ===== *)
(** The recursive, upgradeable R/W-lock of [src/kernel/src/sched/rwlock.c].

    The lock word [rw_state] is shared by all threads and changed by
    compare-exchange; the table of read locks is private to a thread (interface
    [ReadTable], implemented by ReadLocks.v).  Every operation of the source is a
    program over the atomic accesses it makes ([act]); [step] interleaves the
    programs of any number of threads at that granularity.  A small program logic
    ([wp]) with an invariant over the lock word and the state of every thread
    shows mutual exclusion and that no assertion of the source fails. *)
From S2P Require Import Prelude ReadLocks.

(** * The lock word *)
Definition RWLOCK_MODE_FREADING : Z := 0.
Definition RWLOCK_MODE_FUPGRADING : Z := 1.
Definition RWLOCK_MODE_FWRITING : Z := 2.

Definition RWLOCK_STATE (mode ind : Z) : Z := Z.lor (Z.shiftl ind 16) mode.
Definition RWLOCK_MODE (state : Z) : Z := Z.land state 255.
Definition RWLOCK_IND (state : Z) : Z := Z.shiftr state 16.
Definition RWLOCK_INCIND (state : Z) : Z := u32 (state + Z.shiftl 1 16).
Definition RWLOCK_DECIND (state : Z) : Z := u32 (state - Z.shiftl 1 16).

(** [rw_xowner] is a thread or [NULL]; the signals carry no state. *)
Record rwlock : Type := MkRw {
  rw_state : Z;
  rw_xowner : option nat;
}.
Definition rwlock_init : rwlock := MkRw (RWLOCK_STATE RWLOCK_MODE_FREADING 0) None.

(** Stores to the parts of the word: [rw_mode] is its low byte, [rw_xind] its
    high 16 bits. *)
Definition set_mode (state m : Z) : Z := Z.lor (Z.shiftl (Z.shiftr state 8) 8) m.
Definition add_xind (state d : Z) : Z :=
  Z.lor (Z.shiftl (u16 (RWLOCK_IND state + d)) 16) (Z.land state 65535).

(** * Programs *)
Inductive rw_signal : Set := BroadcastChmode | SendUnshare.
Inductive wait_result : Set := Signaled | TimedOut | Interrupted.

(** The atomic actions of a thread. *)
Inductive act : Set -> Type :=
| ReadState : act Z
| CmpXch (old new : Z) : act bool
| CmpXchWeak (old new : Z) : act bool
| WriteState (state : Z) : act unit
| WriteMode (mode : Z) : act unit
| AddInd (d : Z) : act unit
| ReadOwner : act (option nat)
| WriteOwner (o : option nat) : act unit
| Find : act (option nat)
| Get : act (option nat)
| GetNothrow : act (option nat)
| Delete (s : nat) : act unit
| Recursion (s : nat) : act Z
| SetRecursion (s : nat) (n : Z) : act unit
| TryYield : act bool
| WaitFor : act wait_result
| KillReaders : act unit
| RetryPending : act bool
| Signal (sg : rw_signal) : act unit.

(** [PFuel]: the loop bound of the model was reached, the thread still spins. *)
Inductive prog (A : Type) : Type :=
| PRet (a : A)
| PThrow (e : error_code)
| PPanic
| PFuel
| PAct {B : Set} (x : act B) (k : B -> prog A).
Arguments PRet {A} a.
Arguments PThrow {A} e.
Arguments PPanic {A}.
Arguments PFuel {A}.
Arguments PAct {A B} x k.

Fixpoint prog_bind {A B} (f : A -> prog B) (p : prog A) : prog B :=
  match p with
  | PRet a => f a
  | PThrow e => PThrow e
  | PPanic => PPanic
  | PFuel => PFuel
  | PAct x k => PAct x (fun b => prog_bind f (k b))
  end.
#[export] Instance prog_mbind : MBind prog := @prog_bind.
Definition pbind {A B} (p : prog A) (f : A -> prog B) : prog B := prog_bind f p.
Notation "x ⇐ p ; q" := (pbind p (fun x => q))
  (at level 20, p at level 100, q at level 200, right associativity) : stdpp_scope.
(** [TRY { p } EXCEPT { h }]. *)
Fixpoint ptry {A} (p : prog A) (h : error_code -> prog A) : prog A :=
  match p with
  | PThrow e => h e
  | PAct x k => PAct x (fun b => ptry (k b) h)
  | p => p
  end.
Definition do_ {B : Set} (x : act B) : prog B := PAct x PRet.
Definition passert (b : bool) : prog unit := if b then PRet tt else PPanic.
Definition is_me (t : nat) (o : option nat) : bool := bool_decide (o = Some t).
Definition is_null (o : option nat) : bool := match o with None => true | Some _ => false end.

Section Operations.
(** [t]: the calling thread ([THIS_TASK]). *)
Context (t : nat).

Definition rwlock_reading : prog bool :=
  st ⇐ do_ ReadState;
  if RWLOCK_IND st =? 0 then PRet false
  else
    st ⇐ do_ ReadState;
    if RWLOCK_MODE st =? RWLOCK_MODE_FWRITING then o ⇐ do_ ReadOwner; PRet (is_me t o)
    else
      lock ⇐ do_ Find;
      match lock with
      | None => PRet false
      | Some desc => r ⇐ do_ (Recursion desc); passert (negb (r =? 0));; PRet true
      end.

(** The loop that counts a new reader. *)
Fixpoint tryread_count (fuel : nat) (desc : nat) : prog bool :=
  match fuel with
  | O => PFuel
  | S fuel =>
      control_word ⇐ do_ ReadState;
      if negb (RWLOCK_MODE control_word =? RWLOCK_MODE_FREADING)
      then do_ (Delete desc);; PRet false
      else
        ok ⇐ do_ (CmpXchWeak control_word (RWLOCK_INCIND control_word));
        if ok then do_ (SetRecursion desc 1);; PRet true else tryread_count fuel desc
  end.

(** A further read lock of a thread that has one. *)
Definition read_recursive (desc : nat) (r : Z) : prog bool :=
  st ⇐ do_ ReadState; passert (negb (RWLOCK_MODE st =? RWLOCK_MODE_FWRITING));;
  st ⇐ do_ ReadState; passert (negb (RWLOCK_IND st =? 0));;
  do_ (SetRecursion desc (u32 (r + 1)));; PRet true.

(** Read-after-write, or a check that a foreign writer excludes our reads. *)
Definition write_mode_entry (other : prog bool) : prog bool :=
  o ⇐ do_ ReadOwner;
  if is_me t o then do_ (AddInd 1);; PRet true
  else
    d ⇐ do_ Find; passert (is_null d);; other.

Definition os_rwlock_tryread (fuel : nat) : prog bool :=
  st ⇐ do_ ReadState;
  if RWLOCK_MODE st =? RWLOCK_MODE_FWRITING then write_mode_entry (PRet false)
  else
    desc ⇐ do_ Get;
    match desc with
    | None => PThrow E_BADALLOC
    | Some desc =>
        r ⇐ do_ (Recursion desc);
        if negb (r =? 0) then read_recursive desc r else tryread_count fuel desc
    end.

Definition os_rwlock_tryread_nothrow (fuel : nat) : prog bool :=
  st ⇐ do_ ReadState;
  if RWLOCK_MODE st =? RWLOCK_MODE_FWRITING then write_mode_entry (PRet false)
  else
    desc ⇐ do_ GetNothrow;
    match desc with
    | None => PRet false
    | Some desc =>
        r ⇐ do_ (Recursion desc);
        if negb (r =? 0) then read_recursive desc r else tryread_count fuel desc
    end.

(** The inner loop of [timedread], after connecting to [rw_chmode]: [true] when
    the lock was taken, [false] when the thread has to wait. *)
Fixpoint timedread_recheck (fuel : nat) : prog bool :=
  match fuel with
  | O => PFuel
  | S fuel =>
      control_word ⇐ do_ ReadState;
      if RWLOCK_MODE control_word =? RWLOCK_MODE_FREADING then
        ok ⇐ do_ (CmpXchWeak control_word (RWLOCK_INCIND control_word));
        if ok then PRet true else timedread_recheck fuel
      else PRet false
  end.
Fixpoint timedread_acquire (fuel : nat) (desc : nat) : prog bool :=
  match fuel with
  | O => PFuel
  | S fuel' =>
      r ⇐ do_ (Recursion desc); passert (r =? 0);;
      control_word ⇐ do_ ReadState;
      if negb (RWLOCK_MODE control_word =? RWLOCK_MODE_FREADING) then
        got ⇐ timedread_recheck fuel;
        if got then do_ (SetRecursion desc 1);; PRet true
        else
          w ⇐ do_ WaitFor;
          match w with
          | Signaled => timedread_acquire fuel' desc
          | TimedOut => do_ (Delete desc);; PRet false
          | Interrupted => PThrow E_INTERRUPT
          end
      else
        ok ⇐ do_ (CmpXchWeak control_word (RWLOCK_INCIND control_word));
        if ok then do_ (SetRecursion desc 1);; PRet true else timedread_acquire fuel' desc
  end.
Definition os_rwlock_timedread (fuel : nat) : prog bool :=
  st ⇐ do_ ReadState;
  if RWLOCK_MODE st =? RWLOCK_MODE_FWRITING then
    write_mode_entry (
      desc ⇐ do_ Get;
      match desc with
      | None => PThrow E_BADALLOC
      | Some desc => timedread_acquire fuel desc
      end)
  else
    desc ⇐ do_ Get;
    match desc with
    | None => PThrow E_BADALLOC
    | Some desc =>
        r ⇐ do_ (Recursion desc);
        if negb (r =? 0) then read_recursive desc r else timedread_acquire fuel desc
    end.

Definition got_lock : prog bool := do_ (WriteOwner (Some t));; PRet true.

Fixpoint os_rwlock_trywrite (fuel : nat) : prog bool :=
  match fuel with
  | O => PFuel
  | S fuel =>
      control_word ⇐ do_ ReadState;
      if RWLOCK_MODE control_word =? RWLOCK_MODE_FWRITING then write_mode_entry (PRet false)
      else if RWLOCK_MODE control_word =? RWLOCK_MODE_FUPGRADING then PRet false
      else if RWLOCK_IND control_word =? 0 then
        d ⇐ do_ Find; passert (is_null d);;
        ok ⇐ do_ (CmpXch control_word (RWLOCK_STATE RWLOCK_MODE_FWRITING 1));
        if ok then got_lock else os_rwlock_trywrite fuel
      else
        passert (1 <=? RWLOCK_IND control_word);;
        d ⇐ do_ Find;
        if negb (is_null d) && (RWLOCK_IND control_word =? 1) then
          ok ⇐ do_ (CmpXch control_word (RWLOCK_STATE RWLOCK_MODE_FWRITING 1));
          if ok then got_lock else os_rwlock_trywrite fuel
        else PRet false
  end.

(** [TASK_POLL_BEFORE_CONNECT]: [true] when the polled condition [c] held. *)
Fixpoint task_poll (n : nat) (c : prog bool) : prog bool :=
  match n with
  | O => PRet false
  | S n =>
      y ⇐ do_ TryYield;
      if y then b ⇐ c; if b then PRet true else task_poll n c else PRet false
  end.
Definition CONFIG_YIELD_BEFORE_CONNECT : nat := 4.

(** [wait_for_endwrite]: [false] on a timeout, otherwise look again. *)
Definition wait_for_endwrite (again : prog bool) : prog bool :=
  let is_reading := st ⇐ do_ ReadState; PRet (RWLOCK_MODE st =? RWLOCK_MODE_FREADING) in
  p ⇐ task_poll CONFIG_YIELD_BEFORE_CONNECT is_reading;
  if p then again
  else
    r ⇐ is_reading;
    if r then again
    else
      w ⇐ do_ WaitFor;
      match w with
      | Signaled => again
      | TimedOut => PRet false
      | Interrupted => PThrow E_INTERRUPT
      end.

(** Leave upgrade-mode again. *)
Fixpoint upgrade_rollback (fuel : nat) (caller_has_lock : bool) : prog unit :=
  match fuel with
  | O => PFuel
  | S fuel =>
      control_word ⇐ do_ ReadState;
      passert (RWLOCK_MODE control_word =? RWLOCK_MODE_FUPGRADING);;
      ok ⇐ do_ (CmpXchWeak control_word (RWLOCK_STATE RWLOCK_MODE_FREADING
                  (RWLOCK_IND control_word + (if caller_has_lock then 1 else 0))));
      if ok then PRet tt else upgrade_rollback fuel caller_has_lock
  end.
Definition try_unshared : prog bool :=
  do_ (CmpXch (RWLOCK_STATE RWLOCK_MODE_FUPGRADING 0) (RWLOCK_STATE RWLOCK_MODE_FWRITING 1)).

(** The body of the [TRY] block: [true] when the last reader is gone. *)
Fixpoint wait_for_unshare (fuel : nat) (caller_has_lock : bool) : prog bool :=
  match fuel with
  | O => PFuel
  | S fuel' =>
      p ⇐ task_poll CONFIG_YIELD_BEFORE_CONNECT try_unshared;
      if p then PRet true
      else
        ok ⇐ try_unshared;
        if ok then PRet true
        else
          w ⇐ do_ WaitFor;
          match w with
          | Signaled => wait_for_unshare fuel' caller_has_lock
          | TimedOut => upgrade_rollback fuel caller_has_lock;; PRet false
          | Interrupted => PThrow E_INTERRUPT
          end
  end.
Fixpoint wait_for_unshare_aggressive (fuel : nat) : prog bool :=
  match fuel with
  | O => PFuel
  | S fuel =>
      p ⇐ task_poll CONFIG_YIELD_BEFORE_CONNECT try_unshared;
      if p then PRet true
      else
        do_ KillReaders;;
        p ⇐ task_poll CONFIG_YIELD_BEFORE_CONNECT try_unshared;
        if p then PRet true
        else
          ok ⇐ try_unshared;
          if ok then PRet true
          else
            do_ KillReaders;;
            ok ⇐ try_unshared;
            if ok then PRet true
            else
              w ⇐ do_ WaitFor;
              match w with
              | Interrupted => PThrow E_INTERRUPT
              | _ => wait_for_unshare_aggressive fuel
              end
  end.

(** The two write operations differ in how they wait for the readers. *)
Fixpoint timedwrite_with (unshare : bool -> prog bool) (rollback : bool -> prog unit) (fuel : nat)
  : prog bool :=
  match fuel with
  | O => PFuel
  | S fuel =>
      control_word ⇐ do_ ReadState;
      if RWLOCK_MODE control_word =? RWLOCK_MODE_FWRITING then
        write_mode_entry (wait_for_endwrite (timedwrite_with unshare rollback fuel))
      else if RWLOCK_MODE control_word =? RWLOCK_MODE_FUPGRADING then
        d ⇐ do_ Find;
        if negb (is_null d) then PThrow E_RETRY_RWLOCK
        else wait_for_endwrite (timedwrite_with unshare rollback fuel)
      else if RWLOCK_IND control_word =? 0 then
        d ⇐ do_ Find; passert (is_null d);;
        ok ⇐ do_ (CmpXch control_word (RWLOCK_STATE RWLOCK_MODE_FWRITING 1));
        if ok then got_lock else timedwrite_with unshare rollback fuel
      else
        passert (1 <=? RWLOCK_IND control_word);;
        d ⇐ do_ Find;
        let caller_has_lock := negb (is_null d) in
        if caller_has_lock && (RWLOCK_IND control_word =? 1) then
          ok ⇐ do_ (CmpXch control_word (RWLOCK_STATE RWLOCK_MODE_FWRITING 1));
          if ok then got_lock else timedwrite_with unshare rollback fuel
        else
          ok ⇐ do_ (CmpXch control_word (RWLOCK_STATE RWLOCK_MODE_FUPGRADING
                 (RWLOCK_IND control_word - (if caller_has_lock then 1 else 0))));
          if ok then
            got ⇐ ptry (unshare caller_has_lock)
                       (fun e => rollback caller_has_lock;; PThrow e);
            if got then got_lock else PRet false
          else timedwrite_with unshare rollback fuel
  end.
Definition os_rwlock_timedwrite (fuel : nat) : prog bool :=
  timedwrite_with (wait_for_unshare fuel) (upgrade_rollback fuel) fuel.
Definition os_rwlock_timedwrite_aggressive (fuel : nat) : prog bool :=
  timedwrite_with (fun _ => wait_for_unshare_aggressive fuel) (upgrade_rollback fuel) fuel.

(** What [kill_reader] does in the thread that serves the RPC. *)
Definition kill_reader : prog bool :=
  d ⇐ do_ Find;
  if is_null d then PRet false else PThrow E_RETRY_RWLOCK.

Fixpoint os_rwlock_tryupgrade (fuel : nat) : prog bool :=
  match fuel with
  | O => PFuel
  | S fuel =>
      control_word ⇐ do_ ReadState;
      if RWLOCK_MODE control_word =? RWLOCK_MODE_FWRITING then
        o ⇐ do_ ReadOwner; passert (is_me t o);;
        st ⇐ do_ ReadState; passert (2 <=? RWLOCK_IND st);;
        PRet true
      else if RWLOCK_MODE control_word =? RWLOCK_MODE_FUPGRADING then PRet false
      else
        d ⇐ do_ Find; passert (negb (is_null d));;
        passert (1 <=? RWLOCK_IND control_word);;
        if RWLOCK_IND control_word =? 1 then
          ok ⇐ do_ (CmpXch control_word (RWLOCK_STATE RWLOCK_MODE_FWRITING 1));
          if ok then got_lock else os_rwlock_tryupgrade fuel
        else PRet false
  end.

Fixpoint timedupgrade_again (fuel0 fuel : nat) : prog bool :=
  match fuel with
  | O => PFuel
  | S fuel =>
      control_word ⇐ do_ ReadState;
      if RWLOCK_MODE control_word =? RWLOCK_MODE_FWRITING then
        o ⇐ do_ ReadOwner; passert (is_me t o);;
        st ⇐ do_ ReadState; passert (2 <=? RWLOCK_IND st);;
        PRet true
      else if RWLOCK_MODE control_word =? RWLOCK_MODE_FUPGRADING then
        d ⇐ do_ Find; passert (negb (is_null d));;
        PThrow E_RETRY_RWLOCK
      else
        d ⇐ do_ Find; passert (negb (is_null d));;
        passert (1 <=? RWLOCK_IND control_word);;
        if RWLOCK_IND control_word =? 1 then
          ok ⇐ do_ (CmpXch control_word (RWLOCK_STATE RWLOCK_MODE_FWRITING 1));
          if ok then got_lock else timedupgrade_again fuel0 fuel
        else
          ok ⇐ do_ (CmpXch control_word (RWLOCK_STATE RWLOCK_MODE_FUPGRADING
                 (RWLOCK_IND control_word - 1)));
          if ok then
            got ⇐ ptry (wait_for_unshare fuel0 true)
                       (fun e => upgrade_rollback fuel0 true;; PThrow e);
            if got then got_lock else PRet false
          else timedupgrade_again fuel0 fuel
  end.
Definition os_rwlock_timedupgrade (fuel : nat) : prog bool := timedupgrade_again fuel fuel.

Definition assert_owner : prog Z :=
  st ⇐ do_ ReadState; passert (RWLOCK_MODE st =? RWLOCK_MODE_FWRITING);;
  o ⇐ do_ ReadOwner; passert (is_me t o);;
  st ⇐ do_ ReadState; passert (1 <=? RWLOCK_IND st);;
  st ⇐ do_ ReadState; PRet (RWLOCK_IND st).

Definition os_rwlock_downgrade : prog bool :=
  xind ⇐ assert_owner;
  if xind =? 1 then
    desc ⇐ do_ Get;
    match desc with
    | None => PThrow E_BADALLOC
    | Some desc =>
        r ⇐ do_ (Recursion desc);
        do_ (SetRecursion desc (u32 (r + 1)));;
        do_ (WriteMode RWLOCK_MODE_FREADING);;
        do_ (Signal BroadcastChmode);; PRet true
    end
  else PRet true.

(** Drop the last write lock: back to older read locks, or to an unused lock. *)
Definition last_endwrite (check : prog unit) : prog bool :=
  do_ (WriteOwner None);;
  desc ⇐ do_ Find;
  match desc with
  | Some desc =>
      r ⇐ do_ (Recursion desc); passert (negb (r =? 0));;
      check;;
      do_ (WriteMode RWLOCK_MODE_FREADING);;
      do_ (Signal BroadcastChmode);; PRet false
  | None =>
      do_ (WriteState (RWLOCK_STATE RWLOCK_MODE_FREADING 0));;
      do_ (Signal BroadcastChmode);; PRet false
  end.

Definition os_rwlock_endwrite : prog bool :=
  xind ⇐ assert_owner;
  if xind =? 1 then
    last_endwrite (st ⇐ do_ ReadState; passert (RWLOCK_IND st =? 1))
  else do_ (AddInd (-1));; PRet false.

(** The loop that takes a reader out of the count; it returns the old word. *)
Fixpoint end_count (fuel : nat) : prog Z :=
  match fuel with
  | O => PFuel
  | S fuel =>
      control_word ⇐ do_ ReadState;
      passert (negb (RWLOCK_MODE control_word =? RWLOCK_MODE_FWRITING));;
      passert (negb (RWLOCK_IND control_word =? 0));;
      ok ⇐ do_ (CmpXchWeak control_word (RWLOCK_DECIND control_word));
      if ok then PRet control_word else end_count fuel
  end.
Definition os_rwlock_end (fuel : nat) : prog bool :=
  st ⇐ do_ ReadState;
  if RWLOCK_MODE st =? RWLOCK_MODE_FWRITING then
    o ⇐ do_ ReadOwner; passert (is_me t o);;
    st ⇐ do_ ReadState; passert (1 <=? RWLOCK_IND st);;
    st ⇐ do_ ReadState;
    if RWLOCK_IND st =? 1 then last_endwrite (PRet tt)
    else do_ (AddInd (-1));; PRet false
  else
    desc ⇐ do_ Find; passert (negb (is_null desc));;
    st ⇐ do_ ReadState; passert (1 <=? RWLOCK_IND st);;
    let desc := default 0%nat desc in
    r ⇐ do_ (Recursion desc); passert (negb (r =? 0));;
    if r =? 1 then
      do_ (Delete desc);;
      control_word ⇐ end_count fuel;
      (if RWLOCK_IND control_word =? 1 then do_ (Signal SendUnshare) else PRet tt);;
      retry ⇐ do_ RetryPending;
      PRet retry
    else do_ (SetRecursion desc (r - 1));; PRet false.

Definition POLLIN : Z := 1.
Definition POLLOUT : Z := 4.
Definition rwlock_poll (mode : Z) : prog Z :=
  state ⇐ do_ ReadState;
  if RWLOCK_MODE state =? RWLOCK_MODE_FREADING then
    (if RWLOCK_IND state =? 0 then PRet (Z.land (Z.lor POLLIN POLLOUT) mode)
     else if RWLOCK_IND state =? 1 then
       d ⇐ do_ Get;
       match d with
       | None => PThrow E_BADALLOC
       | Some _ => PRet (Z.land (Z.lor POLLIN POLLOUT) mode)
       end
     else PRet (Z.land POLLIN mode))
  else
    o ⇐ do_ ReadOwner;
    PRet (Z.land (if is_me t o then Z.lor POLLIN POLLOUT else 0) mode).
End Operations.

(** * Interleaving semantics *)
(** What an action cannot decide by itself: spurious failures, memory, the
    scheduler, the timer and pending exceptions. *)
Record choice : Set := MkChoice { ch_ok : bool; ch_wait : wait_result }.

Section Semantics.
Context {T : Type} `{ReadTable T} (self : Z).

(** Table operations run on the calling thread's table. *)
Definition on_table {A B : Type} (l : rwlock) (tb : T) (m : outcome A) (f : A -> T * B)
  : outcome (rwlock * T * B) :=
  a ← m; Ret (l, (f a).1, (f a).2).

Definition exec (ch : choice) {B : Set} (x : act B) : rwlock -> T -> outcome (rwlock * T * B) :=
  match x in act B return rwlock -> T -> outcome (rwlock * T * B) with
  | ReadState => fun l tb => Ret (l, tb, rw_state l)
  | CmpXch old new => fun l tb =>
      if rw_state l =? old then Ret (MkRw new (rw_xowner l), tb, true) else Ret (l, tb, false)
  | CmpXchWeak old new => fun l tb =>
      if (rw_state l =? old) && ch_ok ch
      then Ret (MkRw new (rw_xowner l), tb, true) else Ret (l, tb, false)
  | WriteState state => fun l tb => Ret (MkRw state (rw_xowner l), tb, tt)
  | WriteMode mode => fun l tb => Ret (MkRw (set_mode (rw_state l) mode) (rw_xowner l), tb, tt)
  | AddInd d => fun l tb => Ret (MkRw (add_xind (rw_state l) d) (rw_xowner l), tb, tt)
  | ReadOwner => fun l tb => Ret (l, tb, rw_xowner l)
  | WriteOwner o => fun l tb => Ret (MkRw (rw_state l) o, tb, tt)
  | Find => fun l tb => on_table l tb (rt_find tb self) (fun o => (tb, o))
  | Get => fun l tb =>
      match rt_get (ch_ok ch) tb self with
      | Ret (tb', s) => Ret (l, tb', Some s)
      | Throw _ => Ret (l, tb, None)
      | Panic => Panic
      end
  | GetNothrow => fun l tb => on_table l tb (rt_get_nothrow tb self) (fun p => p)
  | Delete s => fun l tb => on_table l tb (rt_delete tb s) (fun tb => (tb, tt))
  | Recursion s => fun l tb => on_table l tb (rt_recursion tb s) (fun r => (tb, r))
  | SetRecursion s n => fun l tb => on_table l tb (rt_set_recursion tb s n) (fun tb => (tb, tt))
  | TryYield => fun l tb => Ret (l, tb, ch_ok ch)
  | WaitFor => fun l tb => Ret (l, tb, ch_wait ch)
  | KillReaders => fun l tb => Ret (l, tb, tt)
  | RetryPending => fun l tb => Ret (l, tb, ch_ok ch)
  | Signal sg => fun l tb => Ret (l, tb, tt)
  end.

(** A larger table is only allocated where its size does not overflow. *)
Definition legal (ch : choice) {B : Set} (x : act B) (tb : T) : Prop :=
  match x with Get => ch_ok ch = true -> rt_room tb | _ => True end.

(** The operations a thread may call. *)
Inductive rw_op : Set :=
| OReading | OPoll (mode : Z) | ODowngrade | OTryread | OTryreadNothrow | OTimedread
| OTrywrite | OTimedwrite | OTimedwriteAggressive
| OTryupgrade | OTimedupgrade | OEndwrite | OEnd.
Definition op_body (t fuel : nat) (op : rw_op) : prog bool :=
  match op with
  | OReading => rwlock_reading t
  | OPoll mode => events ⇐ rwlock_poll t mode; PRet (negb (events =? 0))
  | ODowngrade => os_rwlock_downgrade t
  | OTryread => os_rwlock_tryread t fuel
  | OTryreadNothrow => os_rwlock_tryread_nothrow t fuel
  | OTimedread => os_rwlock_timedread t fuel
  | OTrywrite => os_rwlock_trywrite t fuel
  | OTimedwrite => os_rwlock_timedwrite t fuel
  | OTimedwriteAggressive => os_rwlock_timedwrite_aggressive t fuel
  | OTryupgrade => os_rwlock_tryupgrade t fuel
  | OTimedupgrade => os_rwlock_timedupgrade t fuel
  | OEndwrite => os_rwlock_endwrite t
  | OEnd => os_rwlock_end t fuel
  end.

(** What a thread holds: [h_r] read locks, and [h_w] locks taken since (and
    including) its first write lock. *)
Record hold : Set := MkHold { h_r : Z; h_w : Z }.
(** The calling rules of the API, and the limits of the counters.  Beyond the API,
    [poll] is called only by a thread that holds the lock, and [downgrade] only with
    write locks left over, where it does nothing: the examples at the end show what
    they break otherwise. *)
Definition allowed (op : rw_op) (h : hold) : Prop :=
  match op with
  | OReading => True
  | OPoll _ => 1 <= h_w h \/ 1 <= h_r h
  | ODowngrade => 2 <= h_w h
  | OTryupgrade | OTimedupgrade => 2 <= h_w h \/ h_w h = 0 /\ 1 <= h_r h
  | OEndwrite => 1 <= h_w h
  | OEnd => 1 <= h_w h \/ 1 <= h_r h
  | _ => h_r h + 1 < 2 ^ 32 /\ h_w h + 1 < 2 ^ 16
  end.
Definition after (op : rw_op) (b : bool) (h : hold) : hold :=
  match op with
  | OReading | OPoll _ | ODowngrade => h
  | OTryread | OTryreadNothrow | OTimedread =>
      if b then if 0 <? h_w h then MkHold (h_r h) (h_w h + 1) else MkHold (h_r h + 1) (h_w h) else h
  | OTrywrite | OTimedwrite | OTimedwriteAggressive =>
      if b then MkHold (h_r h) (h_w h + 1) else h
  | OTryupgrade | OTimedupgrade =>
      if b then if 0 <? h_w h then h else MkHold (h_r h) 1 else h
  | OEndwrite => MkHold (h_r h) (h_w h - 1)
  | OEnd => if 0 <? h_w h then MkHold (h_r h) (h_w h - 1) else MkHold (h_r h - 1) (h_w h)
  end.

(** A thread is between calls, inside of one, or was interrupted while it waited in
    [timedread].  Such a thread is not followed any further (it does not use the lock
    again): its descriptor is left with recursion 0, see the examples at the end. *)
Inductive status : Type :=
| Idle (h : hold)
| Busy (op : rw_op) (h : hold) (p : prog bool)
| Gone.
Record thread : Type := MkThread { th_table : T; th_status : status }.
Record system : Type := MkSystem { sys_lock : rwlock; sys_threads : list thread }.

Definition system_init (n : nat) : system :=
  MkSystem rwlock_init (replicate n (MkThread rt_new (Idle (MkHold 0 0)))).

Definition on_throw (op : rw_op) (e : error_code) (h : hold) : status :=
  match op, e with
  | OTimedread, E_INTERRUPT => Gone
  | _, _ => Idle h
  end.

Inductive step : system -> system -> Prop :=
| StepStart l ths t tb h op fuel :
    ths !! t = Some (MkThread tb (Idle h)) -> allowed op h ->
    step (MkSystem l ths) (MkSystem l (<[t := MkThread tb (Busy op h (op_body t fuel op))]> ths))
| StepAct l ths t tb op h (B : Set) (x : act B) k ch l' tb' b :
    ths !! t = Some (MkThread tb (Busy op h (PAct x k))) ->
    legal ch x tb ->
    exec ch x l tb = Ret (l', tb', b) ->
    step (MkSystem l ths) (MkSystem l' (<[t := MkThread tb' (Busy op h (k b))]> ths))
| StepPanic l ths t tb op h (B : Set) (x : act B) k ch :
    ths !! t = Some (MkThread tb (Busy op h (PAct x k))) ->
    legal ch x tb ->
    (forall r, exec ch x l tb <> Ret r) ->
    step (MkSystem l ths) (MkSystem l (<[t := MkThread tb (Busy op h PPanic)]> ths))
| StepReturn l ths t tb op h b :
    ths !! t = Some (MkThread tb (Busy op h (PRet b))) ->
    step (MkSystem l ths) (MkSystem l (<[t := MkThread tb (Idle (after op b h))]> ths))
| StepThrow l ths t tb op h e :
    ths !! t = Some (MkThread tb (Busy op h (PThrow e))) ->
    step (MkSystem l ths) (MkSystem l (<[t := MkThread tb (on_throw op e h)]> ths)).

Inductive reachable (n : nat) : system -> Prop :=
| ReachInit : reachable n (system_init n)
| ReachStep c c' : reachable n c -> step c c' -> reachable n c'.

(** * The invariant *)
(** What a thread contributes to the lock word. *)
Inductive ghost : Set :=
| GNone
| GReader
| GUpgrader (had : bool)
| GTaking
| GWriter (n : Z)
| GEnding.
Definition is_reader (g : ghost) : bool := match g with GReader => true | _ => false end.
Definition is_upgrader (g : ghost) : bool := match g with GUpgrader _ => true | _ => false end.
Definition is_excl (g : ghost) : bool :=
  match g with GTaking | GWriter _ | GEnding => true | _ => false end.

(** The exclusive thread [t] against the recursion and the owner. *)
Definition excl_ok (t : nat) (g : ghost) (n : Z) (o : option nat) : Prop :=
  match g with
  | GTaking | GEnding => n = 1 /\ o = None
  | GWriter k => n = k /\ 1 <= k /\ o = Some t
  | _ => True
  end.

Record inv (l : rwlock) (gs : list ghost) (m n : Z) : Prop := {
  i_state : rw_state l = RWLOCK_STATE m n;
  i_range : 0 <= n < 65536;
  i_threads : Z.of_nat (length gs) < 65536;
  i_mode :
    m = 0 /\ count_b is_upgrader gs = 0 /\ count_b is_excl gs = 0 /\ n = count_b is_reader gs
      /\ rw_xowner l = None
    \/ m = 1 /\ count_b is_upgrader gs = 1 /\ count_b is_excl gs = 0 /\ n = count_b is_reader gs
      /\ rw_xowner l = None
    \/ m = 2 /\ count_b is_upgrader gs = 0 /\ count_b is_excl gs = 1 /\ count_b is_reader gs = 0;
  i_excl : forall t g, gs !! t = Some g -> is_excl g = true -> excl_ok t g n (rw_xowner l);
}.
End Semantics.
#[export] Instance rw_op_eq_dec : EqDecision rw_op.
Proof. solve_decision. Defined.

(** ** Packing and unpacking the word *)
Section Word.
Context (m n : Z) (Hm : 0 <= m < 256) (Hn : 0 <= n < 65536).

Lemma rwlock_state_eq : RWLOCK_STATE m n = n * 65536 + m.
Proof.
  unfold RWLOCK_STATE. rewrite Z.shiftl_mul_pow2 by lia. rewrite lor_add by lia. lia.
Qed.
Lemma rwlock_mode_state : RWLOCK_MODE (RWLOCK_STATE m n) = m.
Proof.
  unfold RWLOCK_MODE. change 255 with (Z.ones 8). rewrite Z.land_ones, rwlock_state_eq by lia.
  replace (n * 65536 + m) with (m + (n * 256) * 2 ^ 8) by lia. rewrite Z.mod_add by lia.
  apply Z.mod_small. lia.
Qed.
Lemma rwlock_ind_state : RWLOCK_IND (RWLOCK_STATE m n) = n.
Proof.
  unfold RWLOCK_IND. rewrite Z.shiftr_div_pow2, rwlock_state_eq by lia.
  replace (n * 65536 + m) with (m + n * 2 ^ 16) by lia. rewrite Z.div_add by lia.
  rewrite Z.div_small; lia.
Qed.
Lemma rwlock_inc_state : n + 1 < 65536 -> RWLOCK_INCIND (RWLOCK_STATE m n) = n * 65536 + m + 65536.
Proof. intros. unfold RWLOCK_INCIND. rewrite rwlock_state_eq. apply u32_small. cbn. lia. Qed.
Lemma rwlock_dec_state : 1 <= n -> RWLOCK_DECIND (RWLOCK_STATE m n) = n * 65536 + m - 65536.
Proof. intros. unfold RWLOCK_DECIND. rewrite rwlock_state_eq. apply u32_small. cbn. lia. Qed.
Lemma set_mode_state m' : 0 <= m' < 256 -> set_mode (RWLOCK_STATE m n) m' = n * 65536 + m'.
Proof.
  intros Hm'. unfold set_mode. rewrite rwlock_state_eq, Z.shiftr_div_pow2 by lia.
  replace (n * 65536 + m) with (m + (n * 256) * 2 ^ 8) by lia. rewrite Z.div_add by lia.
  rewrite Z.div_small by lia. rewrite Z.shiftl_mul_pow2 by lia.
  rewrite lor_add by lia. lia.
Qed.
End Word.
Lemma add_xind_state m n d :
  0 <= m < 256 -> 0 <= n < 65536 -> 0 <= n + d < 65536 ->
  add_xind (RWLOCK_STATE m n) d = RWLOCK_STATE m (n + d).
Proof.
  intros Hm Hn Hd. unfold add_xind. rewrite rwlock_ind_state by done.
  unfold u16. rewrite wrap_small by (cbn; lia). unfold RWLOCK_STATE at 2. f_equal.
  change 65535 with (Z.ones 16). rewrite Z.land_ones, rwlock_state_eq by lia.
  replace (n * 65536 + m) with (m + n * 2 ^ 16) by lia. rewrite Z.mod_add by lia.
  apply Z.mod_small. lia.
Qed.

(** * The program logic *)
Section Logic.
Context {T : Type} `{ReadTable T} (self : Z) (Hself : real_lock self).
#[local] Abbreviation inv_ex l gs := (exists m n, inv l gs m n).

(** Thread [t] with table [tb] and contribution [g] can run [p] in any
    environment that keeps the invariant: no assertion fails, the invariant is
    kept, a return satisfies [Q] and an exception [X]. *)
Fixpoint wp {A} (t : nat) (p : prog A) (tb : T) (g : ghost)
    (Q : A -> T -> ghost -> Prop) (X : error_code -> T -> ghost -> Prop) : Prop :=
  match p with
  | PRet a => Q a tb g
  | PThrow e => X e tb g
  | PPanic => False
  | PFuel => True
  | PAct x k => forall ch l gs, inv_ex l gs -> gs !! t = Some g -> legal ch x tb ->
      exists l' tb' b g', exec self ch x l tb = Ret (l', tb', b)
        /\ inv_ex l' (<[t := g']> gs) /\ wp t (k b) tb' g' Q X
  end.

Lemma wp_mono {A} t (p : prog A) tb g (Q Q' : A -> T -> ghost -> Prop) (X X' : error_code -> T -> ghost -> Prop) :
  wp t p tb g Q X -> (forall a tb g, Q a tb g -> Q' a tb g) -> (forall e tb g, X e tb g -> X' e tb g) ->
  wp t p tb g Q' X'.
Proof.
  intros Hwp HQ HX. revert tb g Hwp. induction p as [a|e| | |B x k IH]; intros tb g Hwp; cbn in *; auto.
  intros ch l gs Hi Hg Hl. destruct (Hwp ch l gs Hi Hg Hl) as (l' & tb' & b & g' & He & Hi' & Hk).
  exists l', tb', b, g'. auto.
Qed.
Lemma wp_bind {A B} t (p : prog A) (f : A -> prog B) tb g Q X :
  wp t p tb g (fun a tb g => wp t (f a) tb g Q X) X -> wp t (pbind p f) tb g Q X.
Proof.
  unfold pbind. revert tb g. induction p as [a|e| | |C x k IH]; intros tb g Hwp; cbn in *; auto.
  intros ch l gs Hi Hg Hl. destruct (Hwp ch l gs Hi Hg Hl) as (l' & tb' & b & g' & He & Hi' & Hk).
  exists l', tb', b, g'. auto.
Qed.
Lemma wp_seq {A B} t (p : prog A) (q : prog B) tb g Q X :
  wp t p tb g (fun _ tb g => wp t q tb g Q X) X -> wp t (p;; q) tb g Q X.
Proof. apply (wp_bind t p (fun _ => q)). Qed.
Lemma wp_try {A} t (p : prog A) h tb g Q X :
  wp t p tb g Q (fun e tb g => wp t (h e) tb g Q X) -> wp t (ptry p h) tb g Q X.
Proof.
  revert tb g. induction p as [a|e| | |C x k IH]; intros tb g Hwp; cbn in *; auto.
  intros ch l gs Hi Hg Hl. destruct (Hwp ch l gs Hi Hg Hl) as (l' & tb' & b & g' & He & Hi' & Hk).
  exists l', tb', b, g'. auto.
Qed.
Lemma wp_passert {A} t (b : bool) (q : prog A) tb g Q X :
  b = true -> wp t q tb g Q X -> wp t (passert b;; q) tb g Q X.
Proof. by intros ->. Qed.

(** ** Rules for the actions that keep the lock *)
Lemma wp_pure {A} {B : Set} t (x : act B) (k : B -> prog A) tb g Q X (P : T -> B -> Prop) :
  (forall ch l gs m n, inv l gs m n -> gs !! t = Some g -> legal ch x tb ->
     exists tb' b, exec self ch x l tb = Ret (l, tb', b) /\ P tb' b) ->
  (forall tb' b, P tb' b -> wp t (k b) tb' g Q X) ->
  wp t (pbind (do_ x) k) tb g Q X.
Proof.
  intros Hx Hk. cbn. intros ch l gs (m & n & Hi) Hg Hl.
  destruct (Hx ch l gs m n Hi Hg Hl) as (tb' & b & He & HP).
  exists l, tb', b, g. split; [done|]. rewrite list_insert_id by done. eauto.
Qed.

(** What the word shows to a thread with contribution [g]. *)
Definition view (g : ghost) (m n : Z) : Prop :=
  0 <= m < 3 /\ 0 <= n < 65536 /\
  match g with
  | GNone => True
  | GReader => m <> 2 /\ 1 <= n
  | GUpgrader _ => m = 1
  | GTaking | GEnding => m = 2 /\ n = 1
  | GWriter k => m = 2 /\ n = k /\ 1 <= k
  end.

Lemma count_pos {A} (f : A -> bool) (l : list A) t x : l !! t = Some x -> f x = true -> 1 <= count_b f l.
Proof.
  unfold count_b. revert t; induction l as [|y l IH]; intros [|t] E Hf; cbn in E; simplify_eq.
  - cbn. rewrite Hf. cbn [length]. lia.
  - cbn. specialize (IH t E Hf). destruct (f y); cbn [length]; lia.
Qed.
Lemma inv_view l gs m n t g : inv l gs m n -> gs !! t = Some g -> view g m n.
Proof.
  intros [Hs Hr _ Hm Hx] Hg. split; [lia|]. split; [done|].
  destruct g as [| |had| |k|]; [done|..].
  - pose proof (count_pos is_reader gs t _ Hg eq_refl). lia.
  - pose proof (count_pos is_upgrader gs t _ Hg eq_refl). lia.
  - pose proof (count_pos is_excl gs t _ Hg eq_refl). destruct (Hx t _ Hg eq_refl). lia.
  - pose proof (count_pos is_excl gs t _ Hg eq_refl). destruct (Hx t _ Hg eq_refl) as (? & ? & ?). lia.
  - pose proof (count_pos is_excl gs t _ Hg eq_refl). destruct (Hx t _ Hg eq_refl). lia.
Qed.
(** Nobody else is exclusive while [t] is. *)
Lemma count_two {A} (f : A -> bool) (l : list A) t t' x x' :
  l !! t = Some x -> l !! t' = Some x' -> t <> t' -> f x = true -> f x' = true -> 2 <= count_b f l.
Proof.
  unfold count_b. revert t t'; induction l as [|y l IH]; intros [|t] [|t'] E E' Hne Hf Hf'; cbn in E, E';
    simplify_eq; cbn [List.filter].
  - rewrite Hf. cbn [length]. pose proof (count_pos f l t' x' E' Hf'). unfold count_b in *. lia.
  - rewrite Hf'. cbn [length]. pose proof (count_pos f l t x E Hf). unfold count_b in *. lia.
  - specialize (IH t t' E E' ltac:(lia) Hf Hf'). destruct (f y); cbn [length]; lia.
Qed.
Lemma count_exists {A} (f : A -> bool) (l : list A) : 1 <= count_b f l -> exists t x, l !! t = Some x /\ f x = true.
Proof.
  unfold count_b. induction l as [|y l IH]; cbn [List.filter length]; [cbn; lia|]. destruct (f y) eqn:E.
  - intros _. by exists 0%nat, y.
  - intros Hc. destruct (IH Hc) as (t & x & Ht & Hx). by exists (S t), x.
Qed.
Lemma inv_owner l gs m n t g : inv l gs m n -> gs !! t = Some g ->
  is_me t (rw_xowner l) = match g with GWriter _ => true | _ => false end.
Proof.
  intros [Hs Hr _ Hm Hx] Hg. unfold is_me. destruct (is_excl g) eqn:Eg.
  - pose proof (Hx t g Hg Eg) as Ho. destruct g; try done; cbn in Ho.
    + apply bool_decide_eq_false. by destruct Ho as [_ ->].
    + apply bool_decide_eq_true. by destruct Ho as (_ & _ & ->).
    + apply bool_decide_eq_false. by destruct Ho as [_ ->].
  - replace (match g with GWriter _ => true | _ => false end) with false by (by destruct g).
    apply bool_decide_eq_false. intros Ho.
    destruct Hm as [(_ & _ & _ & _ & E)|[(_ & _ & _ & _ & E)|(_ & _ & Hone & _)]]; [congruence..|].
    destruct (count_exists is_excl gs) as (t' & g' & Hg' & Hxg); [lia|].
    pose proof (Hx t' g' Hg' Hxg) as Ho'. rewrite Ho in Ho'.
    destruct g'; cbn in Ho'; try done; [by destruct Ho'| |by destruct Ho'].
    destruct Ho' as (_ & _ & [= ->]). by simplify_eq.
Qed.

Lemma others_not_excl l gs m n t g t' g' :
  inv l gs m n -> gs !! t = Some g -> m <> 2 \/ is_excl g = true ->
  gs !! t' = Some g' -> t' <> t -> is_excl g' = false.
Proof.
  intros Hi Hg Hor Hg' Hne. destruct (is_excl g') eqn:E; [|done]. exfalso.
  pose proof (count_pos is_excl gs t' g' Hg' E). destruct Hi as [_ _ _ Hm _]. destruct Hor as [Hor|Hor].
  - lia.
  - pose proof (count_two is_excl gs t t' g g' Hg Hg' ltac:(done) Hor E). lia.
Qed.

Definition b2z (b : bool) : Z := if b then 1 else 0.
(** The invariant after thread [t] changed its contribution from [g] to [g']. *)
Lemma inv_step l gs m n t g l' g' m' n' :
  inv l gs m n -> gs !! t = Some g -> m <> 2 \/ is_excl g = true ->
  rw_state l' = RWLOCK_STATE m' n' -> 0 <= n' < 65536 ->
  (let u := count_b is_upgrader gs - b2z (is_upgrader g) + b2z (is_upgrader g') in
   let x := count_b is_excl gs - b2z (is_excl g) + b2z (is_excl g') in
   let r := count_b is_reader gs - b2z (is_reader g) + b2z (is_reader g') in
   m' = 0 /\ u = 0 /\ x = 0 /\ n' = r /\ rw_xowner l' = None
   \/ m' = 1 /\ u = 1 /\ x = 0 /\ n' = r /\ rw_xowner l' = None
   \/ m' = 2 /\ u = 0 /\ x = 1 /\ r = 0) ->
  excl_ok t g' n' (rw_xowner l') ->
  inv l' (<[t := g']> gs) m' n'.
Proof.
  intros Hi Hg Hor Hst Hn Hm Hx. split.
  - done.
  - done.
  - rewrite length_insert. apply Hi.
  - rewrite !(count_b_insert _ gs t g g' Hg). exact Hm.
  - intros t' g0 E Hex. apply list_lookup_insert_Some in E as [(<- & <- & _)|[Hne E]]; [done|].
    by rewrite (others_not_excl l gs m n t g t' g0 Hi Hg Hor E ltac:(congruence)) in Hex.
Qed.

(** The transitions of the lock word, with what they mean for the thread. *)
Inductive cas_ok : ghost -> Z -> Z -> ghost -> Prop :=
| CasRead n : 0 <= n < 65536 ->
    cas_ok GNone (RWLOCK_STATE 0 n) (RWLOCK_INCIND (RWLOCK_STATE 0 n)) GReader
| CasWrite : cas_ok GNone (RWLOCK_STATE 0 0) (RWLOCK_STATE 2 1) GTaking
| CasWriteAfterRead : cas_ok GReader (RWLOCK_STATE 0 1) (RWLOCK_STATE 2 1) GTaking
| CasUpgrade (had : bool) n : 0 <= n < 65536 ->
    cas_ok (if had then GReader else GNone) (RWLOCK_STATE 0 n)
      (RWLOCK_STATE 1 (n - (if had then 1 else 0))) (GUpgrader had)
| CasUnshared (had : bool) : cas_ok (GUpgrader had) (RWLOCK_STATE 1 0) (RWLOCK_STATE 2 1) GTaking
| CasRollback (had : bool) n : 0 <= n < 65536 ->
    cas_ok (GUpgrader had) (RWLOCK_STATE 1 n) (RWLOCK_STATE 0 (n + (if had then 1 else 0)))
      (if had then GReader else GNone)
| CasEnd m n : 0 <= m < 2 -> 0 <= n < 65536 ->
    cas_ok GReader (RWLOCK_STATE m n) (RWLOCK_DECIND (RWLOCK_STATE m n)) GNone.

Lemma state_inj m n m' n' :
  0 <= m < 256 -> 0 <= n < 65536 -> 0 <= m' < 256 -> 0 <= n' < 65536 ->
  RWLOCK_STATE m n = RWLOCK_STATE m' n' -> m = m' /\ n = n'.
Proof. intros. rewrite !rwlock_state_eq in * by done. lia. Qed.

(** A reader that is not counted yet leaves room in the counter. *)
Lemma reader_room l gs m n t : inv l gs m n -> gs !! t = Some GNone \/ (exists h, gs !! t = Some (GUpgrader h)) ->
  count_b is_reader gs + 1 < 65536.
Proof.
  intros [_ _ Hth _ _] Hg.
  assert (Hc : exists g, gs !! t = Some g /\ is_reader g = false)
    by (destruct Hg as [E|[h E]]; eauto).
  destruct Hc as (g & E & Hf). pose proof (count_b_insert is_reader gs t g GReader E) as Hc.
  rewrite Hf in Hc. cbn in Hc. pose proof (count_b_len is_reader (<[t:=GReader]> gs)) as Hl.
  rewrite length_insert in Hl. lia.
Qed.

Lemma inv_no_owner l gs m n : inv l gs m n -> m <> 2 -> rw_xowner l = None.
Proof. intros [_ _ _ Hm _] Hne. destruct Hm as [Hm|[Hm|Hm]]; [apply Hm|apply Hm|lia]. Qed.

(** The side conditions of [inv_step] for a concrete transition. *)
Ltac conj_tac := cbn in *; split_and!; first [done | lia | congruence].
Ltac inv_tac :=
  first [ done | lia | congruence | conj_tac
        | left; conj_tac | right; left; conj_tac | right; right; conj_tac ].

Lemma cas_inv l gs m n t g old new g' :
  inv l gs m n -> gs !! t = Some g -> rw_state l = old -> cas_ok g old new g' ->
  inv_ex (MkRw new (rw_xowner l)) (<[t := g']> gs).
Proof.
  intros Hi Hg Hst Hcas.
  pose proof (inv_view _ _ _ _ _ _ Hi Hg) as (Hvm & Hvn & Hview).
  pose proof (i_mode _ _ _ _ Hi) as Hmode. pose proof (count_b_len is_reader gs) as Hlen.
  pose proof (inv_no_owner _ _ _ _ Hi) as Hown.
  pose proof (i_state _ _ _ _ Hi) as Hs. rewrite Hst in Hs. pose proof (reader_room _ _ _ _ t Hi) as Hroom.
  destruct Hcas as [n0 Hn0| | |had n0 Hn0|had|had n0 Hn0|m0 n0 Hm0 Hn0];
    apply state_inj in Hs as [<- <-]; try lia; specialize (Hown ltac:(lia)).
  - exists 0, (n0 + 1). specialize (Hroom ltac:(by left)).
    apply (inv_step l gs 0 n0 t GNone); try inv_tac.
    cbn [rw_state]. rewrite rwlock_inc_state, rwlock_state_eq by lia. lia.
  - exists 2, 1. apply (inv_step l gs 0 0 t GNone); inv_tac.
  - exists 2, 1. apply (inv_step l gs 0 1 t GReader); inv_tac.
  - exists 1, (n0 - (if had then 1 else 0)).
    destruct had; [apply (inv_step l gs 0 n0 t GReader)|apply (inv_step l gs 0 n0 t GNone)]; inv_tac.
  - exists 2, 1. apply (inv_step l gs 1 0 t (GUpgrader had)); inv_tac.
  - exists 0, (n0 + (if had then 1 else 0)). specialize (Hroom ltac:(right; eauto)).
    apply (inv_step l gs 1 n0 t (GUpgrader had)); destruct had; inv_tac.
  - exists m0, (n0 - 1).
    assert (Hst' : RWLOCK_DECIND (RWLOCK_STATE m0 n0) = RWLOCK_STATE m0 (n0 - 1))
      by (rewrite rwlock_dec_state, rwlock_state_eq by lia; lia).
    apply (inv_step l gs m0 n0 t GReader); try inv_tac.
    assert (m0 = 0 \/ m0 = 1) as [-> | ->] by lia; inv_tac.
Qed.

(** ** Rules for the accesses to the lock *)
Section Rules.
Context {A : Type} (t : nat) (tb : T) (Q : A -> T -> ghost -> Prop) (X : error_code -> T -> ghost -> Prop).

Lemma wp_read_state g (k : Z -> prog A) :
  (forall m n, view g m n -> wp t (k (RWLOCK_STATE m n)) tb g Q X) ->
  wp t (pbind (do_ ReadState) k) tb g Q X.
Proof.
  intros Hk. apply wp_pure with (P := fun tb' st => tb' = tb /\ exists m n, view g m n /\ st = RWLOCK_STATE m n).
  - intros ch l gs m n Hi Hg _. exists tb, (rw_state l). split; [done|]. split; [done|].
    exists m, n. split; [by apply (inv_view l gs m n t)|apply Hi].
  - intros tb' st (-> & m & n & Hv & ->). auto.
Qed.
Lemma wp_read_owner g (k : option nat -> prog A) :
  (forall o, is_me t o = (match g with GWriter _ => true | _ => false end) -> wp t (k o) tb g Q X) ->
  wp t (pbind (do_ ReadOwner) k) tb g Q X.
Proof.
  intros Hk. apply wp_pure with (P := fun tb' o => tb' = tb /\
    is_me t o = match g with GWriter _ => true | _ => false end).
  - intros ch l gs m n Hi Hg _. exists tb, (rw_xowner l). split; [done|]. split; [done|].
    by apply (inv_owner l gs m n).
  - intros tb' o [-> Ho]. auto.
Qed.
Lemma wp_cas (weak : bool) g old new g' (k : bool -> prog A) :
  cas_ok g old new g' -> wp t (k true) tb g' Q X -> wp t (k false) tb g Q X ->
  wp t (pbind (do_ (if weak then CmpXchWeak old new else CmpXch old new)) k) tb g Q X.
Proof.
  intros Hc H1 H0.
  assert (Hgen : forall l gs, inv_ex l gs -> gs !! t = Some g -> (rw_state l =? old) = true ->
    exists l' tb' b g', Ret (MkRw new (rw_xowner l), tb, true) = Ret (l', tb', b)
      /\ inv_ex l' (<[t := g']> gs) /\ wp t (k b) tb' g' Q X).
  { intros l gs (m & n & Hi) Hg Heq. apply Z.eqb_eq in Heq.
    eexists _, _, _, g'. split; [done|]. split; [by apply (cas_inv l gs m n t g old)|done]. }
  assert (Hfail : forall l gs, inv_ex l gs -> gs !! t = Some g ->
    exists l' tb' b g', Ret (l, tb, false) = Ret (l', tb', b)
      /\ inv_ex l' (<[t := g']> gs) /\ wp t (k b) tb' g' Q X).
  { intros l gs Hi Hg. exists l, tb, false, g. split; [done|]. by rewrite list_insert_id by done. }
  destruct weak; cbn; intros ch l gs Hi Hg _; destruct (rw_state l =? old) eqn:E; cbn [andb]; eauto.
  destruct (ch_ok ch); eauto.
Qed.
Lemma wp_cas_weak g old new g' (k : bool -> prog A) :
  cas_ok g old new g' -> wp t (k true) tb g' Q X -> wp t (k false) tb g Q X ->
  wp t (pbind (do_ (CmpXchWeak old new)) k) tb g Q X.
Proof. apply (wp_cas true). Qed.
Lemma wp_cas_strong g old new g' (k : bool -> prog A) :
  cas_ok g old new g' -> wp t (k true) tb g' Q X -> wp t (k false) tb g Q X ->
  wp t (pbind (do_ (CmpXch old new)) k) tb g Q X.
Proof. apply (wp_cas false). Qed.

(** A store of the exclusive thread. *)
Lemma wp_store (x : act unit) g g' m' n' o' (k : unit -> prog A) :
  is_excl g = true ->
  (forall ch l gs n, inv l gs 2 n -> gs !! t = Some g -> excl_ok t g n (rw_xowner l) ->
     exists l', exec self ch x l tb = Ret (l', tb, tt)
     /\ rw_state l' = RWLOCK_STATE m' n' /\ rw_xowner l' = o') ->
  0 <= n' < 65536 ->
  m' = 2 /\ is_excl g' = true \/ m' = 0 /\ is_excl g' = false /\ is_upgrader g' = false
    /\ n' = b2z (is_reader g') /\ o' = None ->
  excl_ok t g' n' o' ->
  wp t (k tt) tb g' Q X ->
  wp t (pbind (do_ x) k) tb g Q X.
Proof.
  intros Hex Hx Hn Hm Ho Hk. cbn. intros ch l gs (m & n & Hi) Hg _.
  pose proof (count_pos is_excl gs t g Hg Hex) as Hpos. pose proof (i_mode _ _ _ _ Hi) as Hmode.
  assert (m = 2) as -> by lia. assert (Hr : is_reader g = false /\ is_upgrader g = false) by (by destruct g).
  destruct Hr as [Hr Hu].
  destruct (Hx ch l gs n Hi Hg (i_excl _ _ _ _ Hi t g Hg Hex)) as (l' & He & Hs & Ho').
  exists l', tb, tt, g'. split; [done|]. split; [|done]. exists m', n'.
  apply (inv_step l gs 2 n t g); try done; [by right| |by rewrite Ho'].
  rewrite Hex, Hr, Hu, Ho'. cbn [b2z].
  destruct Hm as [[-> Hx']|(-> & Hx' & Hu' & -> & ->)]; rewrite Hx'.
  - right; right. assert (is_reader g' = false /\ is_upgrader g' = false) as [-> ->] by (by destruct g').
    cbn [b2z]. lia.
  - left. rewrite Hu'. cbn [b2z]. split_and!; try done; lia.
Qed.
Lemma wp_take_owner (k : unit -> prog A) :
  wp t (k tt) tb (GWriter 1) Q X -> wp t (pbind (do_ (WriteOwner (Some t))) k) tb GTaking Q X.
Proof.
  apply (wp_store _ GTaking (GWriter 1) 2 1 (Some t)); [done| |lia|by left|done].
  intros ch l gs n Hi _ [-> _]. eexists. split; [done|]. split; [apply Hi|done].
Qed.
Lemma wp_clear_owner (k : unit -> prog A) :
  wp t (k tt) tb GEnding Q X -> wp t (pbind (do_ (WriteOwner None)) k) tb (GWriter 1) Q X.
Proof.
  apply (wp_store _ (GWriter 1) GEnding 2 1 None); [done| |lia|by left|done].
  intros ch l gs n Hi _ [-> _]. eexists. split; [done|]. split; [apply Hi|done].
Qed.
Lemma wp_add_ind i d (k : unit -> prog A) :
  1 <= i < 65536 -> 1 <= i + d < 65536 ->
  wp t (k tt) tb (GWriter (i + d)) Q X -> wp t (pbind (do_ (AddInd d)) k) tb (GWriter i) Q X.
Proof.
  intros Hi Hd. apply (wp_store _ (GWriter i) (GWriter (i + d)) 2 (i + d) (Some t));
    [done| |lia|by left|cbn; split_and!; [done|lia|done]].
  intros ch l gs n Hinv _ (-> & _ & Ho). eexists. split; [done|]. cbn. split; [|done].
  rewrite (i_state _ _ _ _ Hinv). apply add_xind_state; lia.
Qed.
Lemma wp_end_to_read (k : unit -> prog A) :
  wp t (k tt) tb GReader Q X ->
  wp t (pbind (do_ (WriteMode RWLOCK_MODE_FREADING)) k) tb GEnding Q X.
Proof.
  apply (wp_store _ GEnding GReader 0 1 None); [done| |lia|by right|done].
  intros ch l gs n Hinv _ (-> & Ho). eexists. split; [done|]. cbn. split; [|done].
  unfold RWLOCK_MODE_FREADING. rewrite (i_state _ _ _ _ Hinv), set_mode_state, rwlock_state_eq by lia. done.
Qed.
Lemma wp_end_to_none (k : unit -> prog A) :
  wp t (k tt) tb GNone Q X ->
  wp t (pbind (do_ (WriteState (RWLOCK_STATE RWLOCK_MODE_FREADING 0))) k) tb GEnding Q X.
Proof.
  apply (wp_store _ GEnding GNone 0 0 None); [done| |lia|by right|done].
  intros ch l gs n Hinv _ (-> & Ho). eexists. split; [done|]. done.
Qed.

(** ** Rules for the thread's table *)
Lemma wp_find g (k : option nat -> prog A) :
  rt_wf tb ->
  (forall r s, rt_lookup tb self = Some r -> rt_desc tb s self r -> wp t (k (Some s)) tb g Q X) ->
  (rt_lookup tb self = None -> wp t (k None) tb g Q X) ->
  wp t (pbind (do_ Find) k) tb g Q X.
Proof.
  intros Hwf H1 H0. pose proof (rt_find_spec tb self Hwf Hself) as Hf.
  apply wp_pure with (P := fun tb' o => tb' = tb /\ rt_find tb self = Ret o).
  - intros ch l gs m n _ _ _. cbn. unfold on_table. destruct (rt_lookup tb self).
    + destruct Hf as (s & Hf & _). rewrite Hf. eexists _, _. done.
    + rewrite Hf. eexists _, _. done.
  - intros tb' o [-> Ho]. destruct (rt_lookup tb self) as [r|].
    + destruct Hf as (s & Hf & Hd). rewrite Hf in Ho. simplify_eq. eauto.
    + rewrite Hf in Ho. simplify_eq. eauto.
Qed.
Lemma wp_get g (k : option nat -> prog A) :
  rt_wf tb -> let r := default 0 (rt_lookup tb self) in
  (forall tb' s, rt_wf tb' -> rt_desc tb' s self r -> rt_lookup tb' self = Some r ->
     wp t (k (Some s)) tb' g Q X) ->
  (rt_lookup tb self = None -> wp t (k None) tb g Q X) ->
  wp t (pbind (do_ Get) k) tb g Q X.
Proof.
  intros Hwf r H1 H0.
  apply wp_pure with (P := fun tb' o => match o with
    | Some s => rt_wf tb' /\ rt_desc tb' s self r /\ rt_lookup tb' self = Some r
    | None => tb' = tb /\ rt_lookup tb self = None end).
  - intros ch l gs m n _ _ Hleg. cbn in Hleg. cbn.
    destruct (rt_get_spec (ch_ok ch) tb self Hwf Hself Hleg) as [(tb' & s & -> & Hs)|(-> & Hn & _)];
      eexists _, _; (split; [done|]); done.
  - intros tb' [s|]; [intros (? & ? & ?); eauto|intros [-> ?]; eauto].
Qed.
Lemma wp_get_nothrow g (k : option nat -> prog A) :
  rt_wf tb -> let r := default 0 (rt_lookup tb self) in
  (forall tb' s, rt_wf tb' -> rt_desc tb' s self r -> rt_lookup tb' self = Some r ->
     wp t (k (Some s)) tb' g Q X) ->
  (rt_lookup tb self = None -> wp t (k None) tb g Q X) ->
  wp t (pbind (do_ GetNothrow) k) tb g Q X.
Proof.
  intros Hwf r H1 H0.
  apply wp_pure with (P := fun tb' o => match o with
    | Some s => rt_wf tb' /\ rt_desc tb' s self r /\ rt_lookup tb' self = Some r
    | None => tb' = tb /\ rt_lookup tb self = None end).
  - intros ch l gs m n _ _ _. cbn. unfold on_table.
    destruct (rt_get_nothrow_spec tb self Hwf Hself) as [(tb' & s & -> & Hs)|[-> Hn]];
      eexists _, _; (split; [done|]); done.
  - intros tb' [s|]; [intros (? & ? & ?); eauto|intros [-> ?]; eauto].
Qed.
Lemma wp_delete g s r (k : unit -> prog A) :
  rt_wf tb -> rt_desc tb s self r ->
  (forall tb', rt_wf tb' -> rt_lookup tb' self = None -> wp t (k tt) tb' g Q X) ->
  wp t (pbind (do_ (Delete s)) k) tb g Q X.
Proof.
  intros Hwf Hd Hk. destruct (rt_delete_spec tb s self r Hwf Hself Hd) as (tb1 & He & Hw & Hl).
  apply wp_pure with (P := fun tb' _ => tb' = tb1).
  - intros ch l gs m n _ _ _. cbn. unfold on_table. rewrite He. eexists _, _. done.
  - intros tb' [] ->. auto.
Qed.
Lemma wp_recursion g s r (k : Z -> prog A) :
  rt_wf tb -> rt_desc tb s self r -> wp t (k r) tb g Q X ->
  wp t (pbind (do_ (Recursion s)) k) tb g Q X.
Proof.
  intros Hwf Hd Hk. apply wp_pure with (P := fun tb' r' => tb' = tb /\ r' = r).
  - intros ch l gs m n _ _ _. cbn. unfold on_table. rewrite (rt_recursion_spec tb s self r) by done.
    eexists _, _. done.
  - by intros tb' r' [-> ->].
Qed.
Lemma wp_set_recursion g s r n (k : unit -> prog A) :
  rt_wf tb -> rt_desc tb s self r ->
  (forall tb', rt_wf tb' -> rt_lookup tb' self = Some n -> wp t (k tt) tb' g Q X) ->
  wp t (pbind (do_ (SetRecursion s n)) k) tb g Q X.
Proof.
  intros Hwf Hd Hk. destruct (rt_set_spec tb s self r n Hwf Hself Hd) as (tb1 & He & Hw & _ & Hl).
  apply wp_pure with (P := fun tb' _ => tb' = tb1).
  - intros ch l gs m n' _ _ _. cbn. unfold on_table. rewrite He. eexists _, _. done.
  - intros tb' [] ->. auto.
Qed.

(** ** Actions whose result the environment chooses *)
Definition environment {B : Set} (x : act B) : Prop :=
  forall ch l, exists b, exec self ch x l tb = Ret (l, tb, b).
Lemma wp_env {B : Set} g (x : act B) (k : B -> prog A) :
  environment x -> (forall b, wp t (k b) tb g Q X) -> wp t (pbind (do_ x) k) tb g Q X.
Proof.
  intros Hx Hk. apply wp_pure with (P := fun tb' _ => tb' = tb).
  - intros ch l gs m n _ _ _. destruct (Hx ch l) as [b E]. eauto.
  - by intros tb' b ->.
Qed.
End Rules.

(** * The operations *)
Ltac wp_head :=
  lazymatch goal with
  | |- wp ?t (mbind ?f ?p) ?tb ?g ?Q ?X => change (wp t (pbind p f) tb g Q X)
  | _ => idtac
  end.
(** One access, with what it shows. *)
Ltac wp_view m n Hm Hn Hv :=
  wp_head; apply wp_read_state; intros m n (Hm & Hn & Hv);
  rewrite ?(rwlock_mode_state m n), ?(rwlock_ind_state m n) by lia.
Ltac wp_assert := apply wp_passert; [try lia|].
Ltac modes := unfold RWLOCK_MODE_FWRITING, RWLOCK_MODE_FUPGRADING, RWLOCK_MODE_FREADING in *.

(** What the table records for a thread that holds [h]. *)
Definition table_ok (r : Z) (tb : T) : Prop :=
  rt_wf tb /\ 0 <= r < 2 ^ 32 /\ rt_lookup tb self = if r =? 0 then None else Some r.
(** Between two calls. *)
Inductive boundary (h : hold) (tb : T) : ghost -> Prop :=
| BWriter : table_ok (h_r h) tb -> 1 <= h_w h < 65536 -> boundary h tb (GWriter (h_w h))
| BReader : table_ok (h_r h) tb -> h_w h = 0 -> 1 <= h_r h -> boundary h tb GReader
| BNone : table_ok (h_r h) tb -> h_w h = 0 -> h_r h = 0 -> boundary h tb GNone.

Lemma table_ok_intro r tb : rt_wf tb -> 1 <= r < 2 ^ 32 -> rt_lookup tb self = Some r -> table_ok r tb.
Proof. unfold table_ok. intros Hwf Hr ->. split; [done|]. split; [lia|]. by replace (r =? 0) with false by lia. Qed.
Lemma table_ok_none tb : rt_wf tb -> rt_lookup tb self = None -> table_ok 0 tb.
Proof. unfold table_ok. intros Hwf ->. split; [done|]. split; [lia|]. done. Qed.
Lemma table_ok_some r tb : table_ok r tb -> 1 <= r -> rt_lookup tb self = Some r.
Proof. intros (_ & _ & ->) Hr. by replace (r =? 0) with false by lia. Qed.

Section Ops.
Context (t : nat) (X : error_code -> T -> ghost -> Prop).

Lemma wp_write_mode_entry Q other tb g :
  rt_wf tb ->
  (forall i, g = GWriter i -> 1 <= i /\ i + 1 < 65536 /\ Q true tb (GWriter (i + 1))) ->
  ((forall i, g <> GWriter i) -> rt_lookup tb self = None /\ wp t other tb g Q X) ->
  wp t (write_mode_entry t other) tb g Q X.
Proof.
  intros Hwf Hw Ho. unfold write_mode_entry. apply wp_read_owner. intros o ->.
  destruct g as [| | | |i|].
  all: try (destruct (Ho ltac:(intros; discriminate)) as [Hn Hot]; apply wp_find;
    [done|congruence|intros _; cbn [is_null]; by wp_assert]).
  destruct (Hw i eq_refl) as (Hi & Hi' & HQ). wp_head. by apply wp_add_ind; [lia|lia|].
Qed.

(** A new reader, with a fresh descriptor. *)
Lemma wp_tryread_count Q fuel desc tb :
  rt_wf tb -> rt_desc tb desc self 0 ->
  (forall tb', table_ok 1 tb' -> Q true tb' GReader) ->
  (forall tb', table_ok 0 tb' -> Q false tb' GNone) ->
  wp t (tryread_count fuel desc) tb GNone Q X.
Proof.
  intros Hwf Hd H1 H0. induction fuel as [|fuel IH]; [done|]. cbn [tryread_count].
  wp_view m n Hm Hn Hv. modes. destruct (Z.eqb_spec m 0) as [->|Hne]; cbn [negb].
  - eapply wp_cas_weak; [by apply CasRead| |exact IH].
    wp_head. apply (wp_set_recursion t tb Q X GReader desc 0); [done|done|].
    intros tb' Hw Hl. apply H1. by apply table_ok_intro; [|lia|].
  - wp_head. apply (wp_delete t tb Q X GNone desc 0); [done|done|]. intros tb' Hw Hl.
    apply H0. by apply table_ok_none.
Qed.

Lemma wp_read_recursive Q desc r tb :
  rt_wf tb -> rt_desc tb desc self r -> 1 <= r -> r + 1 < 2 ^ 32 ->
  (forall tb', table_ok (r + 1) tb' -> Q true tb' GReader) ->
  wp t (read_recursive desc r) tb GReader Q X.
Proof.
  intros Hwf Hd Hr Hr' HQ. unfold read_recursive. modes.
  wp_view m n Hm Hn Hv. wp_assert. wp_view m' n' Hm' Hn' Hv'. wp_assert.
  wp_head. rewrite u32_small by lia. apply (wp_set_recursion t tb Q X GReader desc r); [done|done|].
  intros tb' Hw Hl. apply HQ. by apply table_ok_intro; [|lia|].
Qed.

Lemma wp_timedread_recheck Q fuel tb :
  Q true tb GReader -> Q false tb GNone -> wp t (timedread_recheck fuel) tb GNone Q X.
Proof.
  intros H1 H0. induction fuel as [|fuel IH]; [done|]. cbn [timedread_recheck].
  wp_view m n Hm Hn Hv. modes. destruct (Z.eqb_spec m 0) as [->|Hne]; [|done].
  eapply wp_cas_weak; [by apply CasRead|done|exact IH].
Qed.
Lemma env_wait tb : environment tb WaitFor.
Proof. intros ch l. by eexists. Qed.
Lemma env_yield tb : environment tb TryYield.
Proof. intros ch l. by eexists. Qed.
Lemma env_retry tb : environment tb RetryPending.
Proof. intros ch l. by eexists. Qed.
Lemma env_kill tb : environment tb KillReaders.
Proof. intros ch l. by eexists. Qed.
Lemma env_signal tb sg : environment tb (Signal sg).
Proof. intros ch l. by eexists. Qed.

Lemma wp_timedread_acquire Q fuel desc tb :
  rt_wf tb -> rt_desc tb desc self 0 ->
  (forall tb', table_ok 1 tb' -> Q true tb' GReader) ->
  (forall tb', table_ok 0 tb' -> Q false tb' GNone) ->
  X E_INTERRUPT tb GNone ->
  wp t (timedread_acquire fuel desc) tb GNone Q X.
Proof.
  intros Hwf Hd H1 H0 HX.
  assert (Hset : wp t (do_ (SetRecursion desc 1);; PRet true) tb GReader Q X).
  { wp_head. apply (wp_set_recursion t tb Q X GReader desc 0); [done|done|].
    intros tb' Hw Hl. apply H1. by apply table_ok_intro; [|lia|]. }
  induction fuel as [|fuel IH]; [done|]. cbn [timedread_acquire].
  apply (wp_recursion t tb Q X GNone desc 0); [done|done|]. wp_assert.
  wp_view m n Hm Hn Hv. modes. destruct (Z.eqb_spec m 0) as [->|Hne]; cbn [negb].
  - eapply wp_cas_weak; [by apply CasRead|done|exact IH].
  - apply wp_bind, wp_timedread_recheck; [done|].
    apply wp_env; [apply env_wait|]. intros [| |]; [exact IH| |done].
    wp_head. apply (wp_delete t tb Q X GNone desc 0); [done|done|]. intros tb' Hw Hl.
    apply H0. by apply table_ok_none.
Qed.

Lemma wp_task_poll n c tb g g1 Q :
  (forall Q' : bool -> T -> ghost -> Prop, Q' true tb g1 -> Q' false tb g -> wp t c tb g Q' X) ->
  Q true tb g1 -> Q false tb g -> wp t (task_poll n c) tb g Q X.
Proof.
  intros Hc H1 H0. induction n as [|n IH]; [done|]. cbn [task_poll].
  apply wp_env; [apply env_yield|]. intros [|]; [|done]. apply wp_bind, Hc; done.
Qed.

Lemma wp_wait_for_endwrite again tb g Q :
  wp t again tb g Q X -> Q false tb g -> X E_INTERRUPT tb g ->
  wp t (wait_for_endwrite again) tb g Q X.
Proof.
  intros Hag HQ HX. unfold wait_for_endwrite.
  assert (Hread : forall Q' : bool -> T -> ghost -> Prop, Q' true tb g -> Q' false tb g ->
    wp t (st ⇐ do_ ReadState; PRet (RWLOCK_MODE st =? RWLOCK_MODE_FREADING)) tb g Q' X).
  { intros Q' H1 H0. wp_view m n Hm Hn Hv. cbn [wp]. by destruct (_ =? _). }
  apply wp_bind, (wp_task_poll _ _ tb g g); [exact Hread|exact Hag|].
  apply wp_bind, Hread; [exact Hag|]. apply wp_env; [apply env_wait|]. by intros [| |].
Qed.

(** The contribution of a thread that left upgrade-mode again. *)
Definition back (had : bool) : ghost := if had then GReader else GNone.

Lemma wp_rollback fuel had tb (Q : unit -> T -> ghost -> Prop) :
  Q tt tb (back had) -> wp t (upgrade_rollback fuel had) tb (GUpgrader had) Q X.
Proof.
  intros HQ. induction fuel as [|fuel IH]; [done|]. cbn [upgrade_rollback].
  wp_view m n Hm Hn Hv. modes. wp_assert. subst m.
  eapply wp_cas_weak; [by apply CasRollback|done|exact IH].
Qed.
Lemma wp_try_unshared had tb (Q : bool -> T -> ghost -> Prop) :
  Q true tb GTaking -> Q false tb (GUpgrader had) -> wp t try_unshared tb (GUpgrader had) Q X.
Proof.
  intros H1 H0. apply (wp_cas_strong t tb Q X (GUpgrader had) _ _ GTaking PRet); [apply CasUnshared|done..].
Qed.

Definition unshare_spec (had : bool) (p : prog bool) (tb : T) : Prop :=
  forall (Q : bool -> T -> ghost -> Prop) (X : error_code -> T -> ghost -> Prop),
    Q true tb GTaking -> Q false tb (back had) -> X E_INTERRUPT tb (GUpgrader had) ->
    wp t p tb (GUpgrader had) Q X.
End Ops.

Lemma wait_for_unshare_ok t fuel had tb : unshare_spec t had (wait_for_unshare fuel had) tb.
Proof.
  intros Q X H1 H0 HX. induction fuel as [|fuel IH]; [done|]. cbn [wait_for_unshare].
  apply wp_bind, (wp_task_poll _ _ _ _ _ _ GTaking); [intros; by apply wp_try_unshared|done|].
  apply wp_bind, wp_try_unshared; [done|]. apply wp_env; [apply env_wait|].
  intros [| |]; [exact IH| |done]. apply (wp_seq t (upgrade_rollback (S fuel) had)), wp_rollback. done.
Qed.
Lemma wait_for_unshare_aggressive_ok t fuel had tb :
  unshare_spec t had (wait_for_unshare_aggressive fuel) tb.
Proof.
  intros Q X H1 H0 HX. induction fuel as [|fuel IH]; [done|]. cbn [wait_for_unshare_aggressive].
  apply wp_bind, (wp_task_poll _ _ _ _ _ _ GTaking); [intros; by apply wp_try_unshared|done|].
  wp_head. apply wp_env; [apply env_kill|]. intros [].
  apply wp_bind, (wp_task_poll _ _ _ _ _ _ GTaking); [intros; by apply wp_try_unshared|done|].
  apply wp_bind, wp_try_unshared; [done|].
  wp_head. apply wp_env; [apply env_kill|]. intros []. apply wp_bind, wp_try_unshared; [done|].
  apply wp_env; [apply env_wait|]. by intros [| |].
Qed.

Section Ops2.
Context (t : nat) (X : error_code -> T -> ghost -> Prop).

Lemma wp_got_lock tb (Q : bool -> T -> ghost -> Prop) :
  Q true tb (GWriter 1) -> wp t (got_lock t) tb GTaking Q X.
Proof. intros HQ. unfold got_lock. wp_head. by apply wp_take_owner. Qed.

(** Waiting for the readers, inside of [TRY]. *)
Lemma wp_upgrade_block unshare fuel had tb (Q : bool -> T -> ghost -> Prop) :
  unshare_spec t had unshare tb ->
  Q true tb (GWriter 1) -> Q false tb (back had) -> X E_INTERRUPT tb (back had) ->
  wp t (got ⇐ ptry unshare (fun e => upgrade_rollback fuel had;; PThrow e);
        if got then got_lock t else PRet false) tb (GUpgrader had) Q X.
Proof.
  intros Hun H1 H0 HX. apply wp_bind, wp_try, Hun; [by apply wp_got_lock|done|].
  apply (wp_seq t (upgrade_rollback fuel had)), wp_rollback. done.
Qed.

(** The direct transitions to write-mode, shared by all write operations. *)
Lemma boundary_write h tb g :
  boundary h tb g -> h_w h = 0 -> boundary (MkHold (h_r h) (h_w h + 1)) tb (GWriter 1).
Proof.
  intros Hb Hw. replace 1 with (h_w (MkHold (h_r h) (h_w h + 1))) at 2 by (cbn; lia).
  destruct Hb; apply BWriter; cbn; try done; lia.
Qed.
Lemma boundary_write_again h tb :
  table_ok (h_r h) tb -> 1 <= h_w h -> h_w h + 1 < 65536 ->
  boundary (MkHold (h_r h) (h_w h + 1)) tb (GWriter (h_w h + 1)).
Proof. intros Ht Hw Hw'. apply (BWriter (MkHold (h_r h) (h_w h + 1))); cbn; [done|lia]. Qed.
Lemma boundary_table h tb g : boundary h tb g -> table_ok (h_r h) tb.
Proof. by intros []. Qed.
(** A thread in front of a word that is not in write-mode. *)
Lemma boundary_not_writer h tb g m n :
  boundary h tb g -> view g m n -> m <> 2 ->
  h_w h = 0 /\ g = back (negb (h_r h =? 0)) /\ 0 <= h_r h
  /\ rt_lookup tb self = (if h_r h =? 0 then None else Some (h_r h)).
Proof.
  intros Hb (_ & _ & Hv) Hm. destruct Hb as [[Hwf [Hr Hl]] Hw|[Hwf [Hr Hl]] Hw Hr1|[Hwf [Hr Hl]] Hw Hr0].
  - lia.
  - split; [done|]. split; [|split; [lia|done]]. by replace (h_r h =? 0) with false by lia.
  - split; [done|]. split; [|split; [lia|done]]. by rewrite Hr0.
Qed.
(** In front of a foreign writer, or as the writer. *)
Lemma boundary_write_mode h tb g n :
  boundary h tb g -> view g 2 n -> (forall i, g <> GWriter i) ->
  rt_lookup tb self = None /\ g = GNone /\ h_w h = 0 /\ h_r h = 0.
Proof.
  intros Hb (_ & _ & Hv) Hno. destruct Hb as [Ht Hw|Ht Hw Hr1|[Hwf [Hr Hl]] Hw Hr0].
  - by destruct (Hno (h_w h)).
  - lia.
  - by rewrite Hl, Hr0.
Qed.
Lemma boundary_writer h tb i : boundary h tb (GWriter i) -> i = h_w h /\ 1 <= h_w h /\ table_ok (h_r h) tb.
Proof. intros Hb. inversion Hb; subst; done || (split; [done|]; split; [lia|done]). Qed.

Lemma wp_trywrite fuel h tb g :
  boundary h tb g -> h_w h + 1 < 65536 ->
  wp t (os_rwlock_trywrite t fuel) tb g (fun b tb g => boundary (after OTrywrite b h) tb g) X.
Proof.
  intros Hb Hw. induction fuel as [|fuel IH]; [done|]. cbn [os_rwlock_trywrite].
  pose proof (boundary_table _ _ _ Hb) as (Hwf & _).
  wp_view m n Hm Hn Hv. modes. assert (Hview : view g m n) by done.
  destruct (Z.eqb_spec m 2) as [->|Hm2].
  { apply wp_write_mode_entry; [done| |].
    - intros i ->. apply boundary_writer in Hb as (-> & Hi & Ht). split; [done|]. split; [done|].
      by apply boundary_write_again.
    - intros Hno. destruct (boundary_write_mode h tb g n) as (Hl & _); try done. }
  destruct (Z.eqb_spec m 1) as [->|Hm1]; [done|]. assert (m = 0) as -> by lia.
  destruct (boundary_not_writer h tb g 0 n) as (Hw0 & Hg & Hr & Hl); try done.
  destruct (Z.eqb_spec n 0) as [->|Hn0].
  - assert (g = GNone) as ->. { rewrite Hg in Hv |- *. destruct (h_r h =? 0); cbn in *; [done|lia]. }
    assert ((h_r h =? 0) = true) as Hr0 by (by destruct (h_r h =? 0)). rewrite Hr0 in Hl.
    apply wp_find; [done|congruence|]. intros _. cbn [is_null]. wp_assert.
    eapply wp_cas_strong; [apply CasWrite|apply wp_got_lock; by eapply boundary_write|exact IH].
  - wp_assert. apply wp_find; [done|intros r s Hlk Hd|by intros _].
    cbn [is_null negb andb]. destruct (Z.eqb_spec n 1) as [->|Hn1]; [|done].
    assert (g = GReader) as ->. { rewrite Hg. rewrite Hl in Hlk. by destruct (h_r h =? 0). }
    eapply wp_cas_strong; [apply CasWriteAfterRead|apply wp_got_lock; by eapply boundary_write|exact IH].
Qed.

(** The direct attempt in read-mode; [rest] is what a contended lock gets. *)
Lemma wp_timedwrite unshare fuel0 fuel h tb g :
  (forall had, unshare_spec t had (unshare had) tb) ->
  boundary h tb g -> h_w h + 1 < 65536 ->
  (forall e, X e tb g) ->
  wp t (timedwrite_with t unshare (upgrade_rollback fuel0) fuel) tb g
     (fun b tb g => boundary (after OTimedwrite b h) tb g) X.
Proof.
  intros Hun Hb Hw HX. induction fuel as [|fuel IH]; [done|]. cbn [timedwrite_with].
  pose proof (boundary_table _ _ _ Hb) as (Hwf & _).
  wp_view m n Hm Hn Hv. modes. assert (Hview : view g m n) by done.
  destruct (Z.eqb_spec m 2) as [->|Hm2].
  { apply wp_write_mode_entry; [done| |].
    - intros i ->. apply boundary_writer in Hb as (-> & Hi & Ht). split; [done|]. split; [done|].
      by apply boundary_write_again.
    - intros Hno. destruct (boundary_write_mode h tb g n) as (Hl & -> & _); try done.
      split; [done|]. by apply wp_wait_for_endwrite. }
  destruct (boundary_not_writer h tb g m n) as (Hw0 & Hg & Hr & Hl); try done.
  destruct (Z.eqb_spec m 1) as [->|Hm1].
  { apply wp_find; [done|intros r s _ _; exact (HX _)|]. intros _. cbn [is_null negb]. by apply wp_wait_for_endwrite. }
  assert (m = 0) as -> by lia.
  destruct (Z.eqb_spec n 0) as [->|Hn0].
  { assert (g = GNone) as ->. { rewrite Hg in Hv |- *. destruct (h_r h =? 0); cbn in *; [done|lia]. }
    assert ((h_r h =? 0) = true) as Hr0 by (by destruct (h_r h =? 0)). rewrite Hr0 in Hl.
    apply wp_find; [done|congruence|]. intros _. cbn [is_null]. wp_assert.
    eapply wp_cas_strong; [apply CasWrite|apply wp_got_lock; by eapply boundary_write|exact IH]. }
  wp_assert.
  assert (Hup : forall had, g = back had -> wp t
    (ok ⇐ do_ (CmpXch (RWLOCK_STATE 0 n) (RWLOCK_STATE 1 (n - (if had then 1 else 0))));
     if ok then
       got ⇐ ptry (unshare had) (fun e => upgrade_rollback fuel0 had;; PThrow e);
       if got then got_lock t else PRet false
     else timedwrite_with t unshare (upgrade_rollback fuel0) fuel) tb g
    (fun b tb g => boundary (after OTimedwrite b h) tb g) X).
  { intros had Eg. rewrite Eg. eapply wp_cas_strong; [by apply (CasUpgrade had)| |by rewrite <- Eg].
    apply wp_upgrade_block; [apply Hun|by eapply boundary_write|by rewrite <- Eg|by rewrite <- Eg]. }
  apply wp_find; [done|intros r s Hlk Hd|intros Hlk]; rewrite Hl in Hlk; cbn [is_null negb andb];
    destruct (h_r h =? 0); try discriminate; [|by apply (Hup false)].
  destruct (Z.eqb_spec n 1) as [->|Hn1]; [|by apply (Hup true)]. cbn in Hg. subst g.
  eapply wp_cas_strong; [apply CasWriteAfterRead|apply wp_got_lock; by eapply boundary_write|exact IH].
Qed.

(** What the upgrade operations check in write-mode. *)
Lemma wp_upgrade_writer h tb g n Q :
  boundary h tb g -> 2 <= h_w h \/ h_w h = 0 /\ 1 <= h_r h -> view g 2 n ->
  Q true tb g -> h_w h = 0 \/
  wp t (o ⇐ do_ ReadOwner; passert (is_me t o);;
        st ⇐ do_ ReadState; passert (2 <=? RWLOCK_IND st);; PRet true) tb g Q X.
Proof.
  intros Hb Hal Hv HQ. destruct Hb as [Ht Hw|Ht Hw Hr|Ht Hw Hr]; [right|by left..].
  apply wp_read_owner. intros o ->. wp_assert. destruct Hv as (_ & _ & Hv).
  wp_view m n' Hm Hn' Hv'. wp_assert. done.
Qed.
Lemma boundary_upgraded h tb : table_ok (h_r h) tb -> h_w h = 0 ->
  boundary (after OTryupgrade true h) tb (GWriter 1).
Proof.
  intros Ht Hw. cbn. rewrite Hw. cbn [Z.ltb Z.compare]. apply (BWriter (MkHold (h_r h) 1)); cbn; [done|lia].
Qed.
Lemma boundary_upgrade_noop h tb g : boundary h tb g -> 2 <= h_w h ->
  boundary (after OTryupgrade true h) tb g.
Proof. intros Hb Hw. cbn. by replace (0 <? h_w h) with true by lia. Qed.
Lemma boundary_reader h tb g : boundary h tb g -> h_w h = 0 -> 1 <= h_r h ->
  g = GReader /\ rt_lookup tb self = Some (h_r h) /\ table_ok (h_r h) tb.
Proof.
  intros [Ht Hw|Ht Hw Hr|Ht Hw Hr] Hw' Hr'; [lia| |lia]. split; [done|]. split; [|done].
  by apply table_ok_some.
Qed.

Lemma wp_upgrade_write_mode h tb g n (p : prog bool) :
  boundary h tb g -> allowed OTryupgrade h -> view g 2 n ->
  p = (o ⇐ do_ ReadOwner; passert (is_me t o);;
       st ⇐ do_ ReadState; passert (2 <=? RWLOCK_IND st);; PRet true) ->
  wp t p tb g (fun b tb g => boundary (after OTryupgrade b h) tb g) X.
Proof.
  intros Hb Hal Hview ->. cbn in Hal. assert (Hw : 2 <= h_w h).
  { destruct Hal as [|[Hw0 Hr0]]; [done|]. destruct (boundary_reader _ _ _ Hb Hw0 Hr0) as [-> _].
    destruct Hview as (_ & _ & ?). lia. }
  destruct (wp_upgrade_writer h tb g n (fun b tb g => boundary (after OTryupgrade b h) tb g) Hb Hal Hview);
    [by apply boundary_upgrade_noop|lia|done].
Qed.
Lemma upgrade_reader h tb g m n : boundary h tb g -> allowed OTryupgrade h -> view g m n -> m <> 2 ->
  g = GReader /\ h_w h = 0 /\ rt_lookup tb self = Some (h_r h) /\ table_ok (h_r h) tb.
Proof.
  intros Hb Hal Hview Hne. destruct (boundary_not_writer h tb g m n Hb Hview Hne) as (Hw0 & _).
  cbn in Hal. destruct (boundary_reader h tb g Hb Hw0 ltac:(lia)) as (? & ? & ?). done.
Qed.

Lemma wp_tryupgrade fuel h tb g :
  boundary h tb g -> allowed OTryupgrade h ->
  wp t (os_rwlock_tryupgrade t fuel) tb g (fun b tb g => boundary (after OTryupgrade b h) tb g) X.
Proof.
  intros Hb Hal. induction fuel as [|fuel IH]; [done|]. cbn [os_rwlock_tryupgrade].
  wp_view m n Hm Hn Hv. modes. assert (Hview : view g m n) by done.
  destruct (Z.eqb_spec m 2) as [->|Hm2]; [by eapply (wp_upgrade_write_mode h tb g n)|].
  destruct (Z.eqb_spec m 1) as [->|Hm1]; [done|]. assert (m = 0) as -> by lia.
  destruct (upgrade_reader h tb g 0 n Hb Hal Hview) as (-> & Hw & Hl & Ht); [lia|].
  apply wp_find; [apply Ht|intros r s Hlk Hd|congruence]. cbn [is_null negb]. wp_assert.
  cbn in Hv. wp_assert. destruct (Z.eqb_spec n 1) as [->|Hn1]; [|done].
  eapply wp_cas_strong; [apply CasWriteAfterRead|apply wp_got_lock; by apply boundary_upgraded|exact IH].
Qed.

Lemma wp_timedupgrade fuel0 fuel h tb g :
  boundary h tb g -> allowed OTryupgrade h -> (forall e, X e tb g) ->
  wp t (timedupgrade_again t fuel0 fuel) tb g (fun b tb g => boundary (after OTryupgrade b h) tb g) X.
Proof.
  intros Hb Hal HX. induction fuel as [|fuel IH]; [done|]. cbn [timedupgrade_again].
  wp_view m n Hm Hn Hv. modes. assert (Hview : view g m n) by done.
  destruct (Z.eqb_spec m 2) as [->|Hm2]; [by eapply (wp_upgrade_write_mode h tb g n)|].
  destruct (upgrade_reader h tb g m n Hb Hal Hview) as (-> & Hw & Hl & Ht); [lia|].
  destruct (Z.eqb_spec m 1) as [->|Hm1].
  { apply wp_find; [apply Ht|intros r s Hlk Hd|congruence]. cbn [is_null negb]. wp_assert. exact (HX _). }
  assert (m = 0) as -> by lia.
  apply wp_find; [apply Ht|intros r s Hlk Hd|congruence]. cbn [is_null negb]. wp_assert.
  cbn in Hv. wp_assert. destruct (Z.eqb_spec n 1) as [->|Hn1].
  - eapply wp_cas_strong; [apply CasWriteAfterRead|apply wp_got_lock; by apply boundary_upgraded|exact IH].
  - eapply wp_cas_strong; [by apply (CasUpgrade true)| |exact IH].
    apply wp_upgrade_block; [apply wait_for_unshare_ok|by apply boundary_upgraded|done|done].
Qed.

(** The three read operations. *)
Definition read_post (h : hold) (b : bool) (tb : T) (g : ghost) : Prop := boundary (after OTryread b h) tb g.
Lemma read_post_reader h tb : h_w h = 0 -> table_ok (h_r h + 1) tb -> 0 <= h_r h -> read_post h true tb GReader.
Proof.
  intros Hw Ht Hr. unfold read_post. cbn. rewrite Hw. cbn [Z.ltb Z.compare].
  apply (BReader (MkHold (h_r h + 1) 0)); cbn; [done|done|lia].
Qed.
Lemma read_post_failed h tb : h_w h = 0 -> h_r h = 0 -> table_ok 0 tb -> read_post h false tb GNone.
Proof. intros Hw Hr Ht. unfold read_post. cbn [after]. apply BNone; [by rewrite Hr|done|done]. Qed.
Lemma read_post_writer h tb i : boundary h tb (GWriter i) -> h_w h + 1 < 65536 ->
  1 <= i /\ i + 1 < 65536 /\ read_post h true tb (GWriter (i + 1)).
Proof.
  intros Hb Hw. apply boundary_writer in Hb as (-> & Hi & Ht). split; [done|]. split; [done|].
  unfold read_post. cbn. replace (0 <? h_w h) with true by lia. by apply boundary_write_again.
Qed.

(** With a descriptor: a recursive lock, or [new] for the first one. *)
Lemma wp_with_desc (new : nat -> prog bool) h tb tb' s g m n :
  boundary h tb g -> view g m n -> m <> 2 -> h_r h + 1 < 2 ^ 32 ->
  rt_wf tb' -> rt_desc tb' s self (default 0 (rt_lookup tb self)) ->
  (forall s, rt_desc tb' s self 0 -> h_w h = 0 -> h_r h = 0 -> wp t (new s) tb' GNone (read_post h) X) ->
  wp t (r ⇐ do_ (Recursion s); if negb (r =? 0) then read_recursive s r else new s) tb' g (read_post h) X.
Proof.
  intros Hb Hview Hne Hr1 Hwf' Hd Hnew.
  destruct (boundary_not_writer h tb g m n Hb Hview Hne) as (Hw & Hg & Hr & Hl). rewrite Hl in Hd.
  apply (wp_recursion t tb' _ X g s (h_r h)); [done|by destruct (Z.eqb_spec (h_r h) 0) as [->|]|].
  destruct (Z.eqb_spec (h_r h) 0) as [E|E]; cbn [negb default] in *; subst g.
  - auto.
  - apply wp_read_recursive; [done|done|lia|lia|]. intros tb2 Ht. by apply read_post_reader; [|apply Ht|].
Qed.

Lemma wp_tryread fuel h tb g :
  boundary h tb g -> h_r h + 1 < 2 ^ 32 -> h_w h + 1 < 65536 -> (forall e, X e tb g) ->
  wp t (os_rwlock_tryread t fuel) tb g (read_post h) X
  /\ wp t (os_rwlock_tryread_nothrow t fuel) tb g (read_post h) X.
Proof.
  intros Hb Hr Hw HX. pose proof (boundary_table _ _ _ Hb) as (Hwf & _).
  assert (Hentry : forall n, view g 2 n -> wp t (write_mode_entry t (PRet false)) tb g (read_post h) X).
  { intros n Hview. apply wp_write_mode_entry; [done|intros i ->; by apply read_post_writer|].
    intros Hno. by destruct (boundary_write_mode h tb g n) as (Hl & -> & _). }
  assert (Hcount : forall tb' s, rt_wf tb' -> rt_desc tb' s self 0 -> h_w h = 0 -> h_r h = 0 ->
    wp t (tryread_count fuel s) tb' GNone (read_post h) X).
  { intros tb' s Hwf' Hd Hw0 Hr0. apply wp_tryread_count; [done|done| |]; intros tb2 Ht.
    - apply read_post_reader; [done| |lia]. by rewrite Hr0.
    - by apply read_post_failed. }
  split.
  - unfold os_rwlock_tryread. wp_view m n Hm Hn Hv. modes. assert (Hview : view g m n) by done.
    destruct (Z.eqb_spec m 2) as [->|Hm2]; [by eapply Hentry|].
    apply wp_get; [done|intros tb' s Hwf' Hd _|intros _; exact (HX _)].
    eapply (wp_with_desc (tryread_count fuel)); eauto.
  - unfold os_rwlock_tryread_nothrow. wp_view m n Hm Hn Hv. modes. assert (Hview : view g m n) by done.
    destruct (Z.eqb_spec m 2) as [->|Hm2]; [by eapply Hentry|].
    apply wp_get_nothrow; [done|intros tb' s Hwf' Hd _|intros _; exact Hb].
    eapply (wp_with_desc (tryread_count fuel)); eauto.
Qed.

Lemma wp_timedread fuel h tb g :
  boundary h tb g -> h_r h + 1 < 2 ^ 32 -> h_w h + 1 < 65536 ->
  X E_BADALLOC tb g -> (forall tb', X E_INTERRUPT tb' GNone) ->
  wp t (os_rwlock_timedread t fuel) tb g (read_post h) X.
Proof.
  intros Hb Hr Hw HX HX'. pose proof (boundary_table _ _ _ Hb) as (Hwf & _).
  assert (Hacq : forall tb' s, rt_wf tb' -> rt_desc tb' s self 0 -> h_w h = 0 -> h_r h = 0 ->
    wp t (timedread_acquire fuel s) tb' GNone (read_post h) X).
  { intros tb' s Hwf' Hd Hw0 Hr0. apply wp_timedread_acquire; [done|done| | |done]; intros tb2 Ht.
    - apply read_post_reader; [done| |lia]. by rewrite Hr0.
    - by apply read_post_failed. }
  unfold os_rwlock_timedread. wp_view m n Hm Hn Hv. modes. assert (Hview : view g m n) by done.
  destruct (Z.eqb_spec m 2) as [->|Hm2].
  - apply wp_write_mode_entry; [done|intros i ->; by apply read_post_writer|].
    intros Hno. destruct (boundary_write_mode h tb g n) as (Hl & -> & Hw0 & Hr0); try done.
    split; [done|]. apply wp_get; [done| |done]. rewrite Hl. cbn [default]. intros tb' s Hwf' Hd _. eauto.
  - apply wp_get; [done|intros tb' s Hwf' Hd _|done].
    eapply (wp_with_desc (timedread_acquire fuel)); eauto.
Qed.

Lemma wp_reading h tb g :
  boundary h tb g ->
  wp t (rwlock_reading t) tb g
    (fun b tb g => boundary h tb g /\ b = (0 <? h_r h) || (0 <? h_w h)) X.
Proof.
  intros Hb. pose proof (boundary_table _ _ _ Hb) as (Hwf & Hr & Hl). unfold rwlock_reading.
  wp_view m n Hm Hn Hv. destruct (Z.eqb_spec n 0) as [->|Hn0].
  { split; [done|]. destruct Hb; cbn in Hv; lia. }
  wp_view m' n' Hm' Hn' Hv'. modes. destruct (Z.eqb_spec m' 2) as [->|Hm2].
  - apply wp_read_owner. intros o Ho. cbn [wp]. split; [done|]. rewrite Ho.
    destruct Hb; cbn in Hv'; lia.
  - apply wp_find; [done|intros r s Hlk Hd|intros Hlk]; rewrite Hl in Hlk;
      destruct (Z.eqb_spec (h_r h) 0) as [E|E]; simplify_eq.
    + apply (wp_recursion t tb _ X g s (h_r h)); [done|done|]. wp_assert. split; [done|]. lia.
    + split; [done|]. destruct Hb; cbn in Hv'; lia.
Qed.

Lemma wp_poll mode h tb g :
  boundary h tb g -> 1 <= h_w h \/ 1 <= h_r h ->
  wp t (events ⇐ rwlock_poll t mode; PRet (negb (events =? 0))) tb g (fun _ tb g => boundary h tb g) X.
Proof.
  intros Hb Hor. pose proof (boundary_table _ _ _ Hb) as (Hwf & Hr & Hl). apply wp_bind. unfold rwlock_poll.
  wp_view m n Hm Hn Hv. modes. destruct (Z.eqb_spec m 0) as [->|Hm0].
  - destruct (Z.eqb_spec n 0); [exact Hb|]. destruct (Z.eqb_spec n 1) as [->|]; [|exact Hb].
    destruct Hb as [? ?|Ht Hw Hr1|? ? ?]; [cbn in Hv; lia| |lia]. pose proof (table_ok_some _ _ Ht Hr1) as Hs.
    apply wp_get; [done|rewrite Hs; intros tb' s Hwf' _ Hs'|congruence].
    apply BReader; [apply table_ok_intro; [done|cbn in *; lia|done]|done|done].
  - apply wp_read_owner. intros o _. exact Hb.
Qed.

(** Giving locks back. *)
Lemma wp_assert_owner w tb (Q : Z -> T -> ghost -> Prop) :
  1 <= w < 65536 -> Q w tb (GWriter w) -> wp t (assert_owner t) tb (GWriter w) Q X.
Proof.
  intros Hw HQ. unfold assert_owner. modes. wp_view m n Hm Hn Hv. wp_assert.
  apply wp_read_owner. intros o ->. wp_assert. wp_view m1 n1 Hm1 Hn1 Hv1. wp_assert.
  wp_view m2 n2 Hm2 Hn2 Hv2. cbn [wp]. by replace n2 with w by lia.
Qed.

Lemma wp_downgrade h tb g :
  boundary h tb g -> 2 <= h_w h -> wp t (os_rwlock_downgrade t) tb g (fun _ tb g => boundary h tb g) X.
Proof.
  intros Hb Hw. destruct Hb as [Ht Hw'|Ht Hw' Hr|Ht Hw' Hr]; [|lia..]. unfold os_rwlock_downgrade.
  apply wp_bind, wp_assert_owner; [done|]. replace (h_w h =? 1) with false by lia. by apply BWriter.
Qed.
Lemma wp_last_endwrite check r tb :
  table_ok r tb -> (forall Q' : unit -> T -> ghost -> Prop, Q' tt tb GEnding -> wp t check tb GEnding Q' X) ->
  wp t (last_endwrite check) tb (GWriter 1) (fun b tb g => boundary (MkHold r 0) tb g) X.
Proof.
  intros Ht Hcheck. pose proof Ht as (Hwf & Hr & Hl). unfold last_endwrite. wp_head.
  apply wp_clear_owner. apply wp_find; [done|intros r' s Hlk Hd|intros Hlk];
    rewrite Hl in Hlk; destruct (Z.eqb_spec r 0) as [E|E]; simplify_eq.
  - apply (wp_recursion t tb _ X GEnding s r'); [done|done|]. wp_assert.
    apply wp_seq, Hcheck. wp_head. apply wp_end_to_read. wp_head.
    apply wp_env; [apply env_signal|]. intros []. apply (BReader (MkHold r' 0)); cbn; [done|done|lia].
  - wp_head. apply wp_end_to_none. wp_head. apply wp_env; [apply env_signal|]. intros [].
    by apply (BNone (MkHold 0 0)).
Qed.

Lemma wp_endwrite h tb g :
  boundary h tb g -> 1 <= h_w h ->
  wp t (os_rwlock_endwrite t) tb g (fun b tb g => boundary (after OEndwrite b h) tb g) X.
Proof.
  intros Hb Hw. destruct Hb as [Ht Hw'|Ht Hw' Hr|Ht Hw' Hr]; [|lia..]. unfold os_rwlock_endwrite.
  apply wp_bind, wp_assert_owner; [done|]. cbn [after]. destruct (Z.eqb_spec (h_w h) 1) as [E|E].
  - rewrite E. change (1 - 1) with 0. apply wp_last_endwrite; [done|]. intros Q' HQ.
    wp_view m n Hm Hn Hv. unfold passert. by replace (n =? 1) with true by lia.
  - wp_head. apply wp_add_ind; [lia|lia|]. apply (BWriter (MkHold (h_r h) (h_w h - 1))); cbn; [done|lia].
Qed.

Lemma wp_end_count fuel tb (Q : Z -> T -> ghost -> Prop) :
  (forall st, Q st tb GNone) -> wp t (end_count fuel) tb GReader Q X.
Proof.
  intros HQ. induction fuel as [|fuel IH]; [done|]. cbn [end_count].
  wp_view m n Hm Hn Hv. modes. cbn in Hv. wp_assert. wp_assert.
  eapply wp_cas_weak; [apply CasEnd; lia|apply HQ|exact IH].
Qed.

Lemma wp_end fuel h tb g :
  boundary h tb g -> 1 <= h_w h \/ 1 <= h_r h ->
  wp t (os_rwlock_end t fuel) tb g (fun b tb g => boundary (after OEnd b h) tb g) X.
Proof.
  intros Hb Hor. unfold os_rwlock_end. wp_view m n Hm Hn Hv. modes. cbn [after].
  destruct Hb as [Ht Hw|Ht Hw Hr|Ht Hw Hr]; [| |lia]; cbn in Hv.
  - destruct (Z.eqb_spec m 2); [|lia]. replace (0 <? h_w h) with true by lia.
    apply wp_read_owner. intros o ->. wp_assert. wp_view m1 n1 Hm1 Hn1 Hv1. cbn in Hv1. wp_assert.
    wp_view m2 n2 Hm2 Hn2 Hv2. cbn in Hv2. destruct (Z.eqb_spec n2 1) as [E|E].
    + replace (h_w h) with 1 by lia. change (1 - 1) with 0. by apply wp_last_endwrite.
    + wp_head. apply wp_add_ind; [lia|lia|]. apply (BWriter (MkHold (h_r h) (h_w h - 1))); cbn; [done|lia].
  - destruct (Z.eqb_spec m 2); [lia|]. rewrite Hw. cbn [Z.ltb Z.compare].
    pose proof Ht as (Hwf & Hr' & _). pose proof (table_ok_some _ _ Ht Hr) as Hl.
    apply wp_find; [done|intros r s Hlk Hd|congruence]. assert (r = h_r h) as -> by congruence.
    cbn [is_null negb default]. wp_assert. wp_view m1 n1 Hm1 Hn1 Hv1. cbn in Hv1. wp_assert.
    apply (wp_recursion t tb _ X GReader s (h_r h)); [done|done|]. wp_assert.
    destruct (Z.eqb_spec (h_r h) 1) as [E|E].
    + wp_head. apply (wp_delete t tb _ X GReader s (h_r h)); [done|done|]. intros tb' Hwf2 Hl2.
      apply wp_bind, wp_end_count. intros st. apply (wp_seq t (if RWLOCK_IND st =? 1 then _ else _)).
      assert (Hret : wp t (retry ⇐ do_ RetryPending; PRet retry) tb' GNone
        (fun b tb g => boundary (MkHold (h_r h - 1) 0) tb g) X).
      { apply wp_env; [apply env_retry|]. intros b. apply (BNone (MkHold (h_r h - 1) 0)); cbn; [|done|lia].
        rewrite E. by apply table_ok_none. }
      destruct (RWLOCK_IND st =? 1); [|exact Hret].
      apply (wp_env t tb' _ X GNone (Signal SendUnshare) PRet); [apply env_signal|]. intros []. exact Hret.
    + wp_head. apply (wp_set_recursion t tb _ X GReader s (h_r h)); [done|done|]. intros tb' Hwf2 Hl2.
      apply (BReader (MkHold (h_r h - 1) 0)); cbn; [|done|lia]. by apply table_ok_intro; [|lia|].
Qed.
End Ops2.

(** Every operation, from any admissible call. *)
Definition op_throws (op : rw_op) (h : hold) (e : error_code) (tb : T) (g : ghost) : Prop :=
  match on_throw op e h with Idle h => boundary h tb g | _ => g = GNone end.

(** [rwlock_reading] tells whether the thread holds the lock. *)
Definition ret_ok (op : rw_op) (b : bool) (h : hold) : Prop :=
  op = OReading -> b = (0 <? h_r h) || (0 <? h_w h).
Definition op_returns (op : rw_op) (h : hold) (b : bool) (tb : T) (g : ghost) : Prop :=
  boundary (after op b h) tb g /\ ret_ok op b h.

Lemma wp_op t fuel op h tb g :
  boundary h tb g -> allowed op h ->
  wp t (op_body t fuel op) tb g (op_returns op h) (op_throws op h).
Proof.
  intros Hb Hal. destruct (decide (op = OReading)) as [->|Hop].
  { eapply wp_mono; [by apply wp_reading| |done]. intros b' tb' g' [Hb' ->]. by split. }
  apply wp_mono with (Q := fun b tb g => boundary (after op b h) tb g) (X := op_throws op h);
    [|intros b' tb' g' Hb'; split; [done|congruence]|by intros].
  destruct op; cbn [op_body allowed] in *.
  - done.
  - cbn [after]. by apply wp_poll.
  - cbn [after]. by apply wp_downgrade.
  - apply wp_tryread; try done; lia.
  - apply wp_tryread; try done; lia.
  - apply wp_timedread; try done; lia.
  - apply wp_trywrite; [done|lia].
  - apply wp_timedwrite; [intros; apply wait_for_unshare_ok|done|lia|done].
  - apply wp_timedwrite; [intros; apply wait_for_unshare_aggressive_ok|done|lia|done].
  - by apply wp_tryupgrade.
  - by apply wp_timedupgrade.
  - by apply wp_endwrite.
  - by apply wp_end.
Qed.

(** * Adequacy: the invariant of every reachable system *)
Definition status_ok (t : nat) (th : thread) (g : ghost) : Prop :=
  match th_status th with
  | Idle h => boundary h (th_table th) g
  | Busy op h p => wp t p (th_table th) g (op_returns op h) (op_throws op h)
  | Gone => g = GNone
  end.
Definition system_ok (c : system) : Prop :=
  exists gs, length gs = length (sys_threads c) /\ inv_ex (sys_lock c) gs
    /\ forall t th g, sys_threads c !! t = Some th -> gs !! t = Some g -> status_ok t th g.

Lemma system_ok_update l' ths gs t th g g' th' :
  length gs = length ths -> inv_ex l' (<[t := g']> gs) ->
  (forall t th g, ths !! t = Some th -> gs !! t = Some g -> status_ok t th g) ->
  ths !! t = Some th -> gs !! t = Some g -> status_ok t th' g' ->
  system_ok (MkSystem l' (<[t := th']> ths)).
Proof.
  intros Hlen Hi Hall Ht Hg Hok. exists (<[t := g']> gs). cbn. split; [by rewrite !length_insert|].
  split; [done|]. intros t0 th0 g0 E1 E2.
  apply list_lookup_insert_Some in E1 as [(<- & <- & _)|[Hne E1]];
    apply list_lookup_insert_Some in E2 as [(E & <- & _)|[Hne' E2]]; try done; eauto.
Qed.

Lemma system_step c c' : system_ok c -> step self c c' -> system_ok c'.
Proof.
  intros (gs & Hlen & Hi & Hall) Hstep.
  assert (Hlook : forall t th, sys_threads c !! t = Some th -> exists g, gs !! t = Some g /\ status_ok t th g).
  { intros t th E. destruct (lookup_lt_is_Some_2 gs t) as [g Hg]; [rewrite Hlen; by apply lookup_lt_Some in E|].
    eauto. }
  destruct Hstep as [l ths t tb h op fuel E Hal|l ths t tb op h B x k ch l' tb' b E Hleg He
                    |l ths t tb op h B x k ch E Hleg He|l ths t tb op h b E|l ths t tb op h e E];
    cbn in *; destruct (Hlook _ _ E) as (g & Hg & Hok); cbn in Hok.
  - eapply system_ok_update with (g' := g); eauto; [by rewrite list_insert_id|]. by apply wp_op.
  - destruct (Hok ch l gs Hi Hg Hleg) as (l2 & tb2 & b2 & g' & He2 & Hi' & Hk).
    rewrite He in He2. apply (f_equal (fun o => match o with Ret r => r | _ => (l, tb, b) end)) in He2.
    cbn in He2. injection He2 as -> -> ->. eapply system_ok_update with (g' := g'); eauto.
  - destruct (Hok ch l gs Hi Hg Hleg) as (l2 & tb2 & b2 & g' & He2 & _). by apply He in He2.
  - eapply system_ok_update with (g' := g); eauto; [by rewrite list_insert_id|]. apply Hok.
  - eapply system_ok_update with (g' := g); eauto; [by rewrite list_insert_id|].
    unfold op_throws in Hok. unfold status_ok. cbn. unfold on_throw in *. by destruct op, e.
Qed.

Lemma system_init_ok n : Z.of_nat n < 65536 -> system_ok (system_init n).
Proof.
  intros Hn. exists (replicate n GNone). cbn. split; [by rewrite !length_replicate|]. split.
  - exists 0, 0. split; [done|lia|by rewrite length_replicate| |].
    + left. by rewrite !count_b_none.
    + intros t g E. by apply lookup_replicate in E as [-> _].
  - intros t th g E1 E2. apply lookup_replicate in E1 as [-> _]. apply lookup_replicate in E2 as [-> _].
    apply (BNone (MkHold 0 0)); [|done|done]. apply table_ok_none; [apply rt_new_wf|by apply rt_new_lookup].
Qed.
Lemma reachable_ok n c : Z.of_nat n < 65536 -> reachable self n c -> system_ok c.
Proof. intros Hn. induction 1 as [|c c' _ IH Hs]; [by apply system_init_ok|by eapply system_step]. Qed.

(** * Correctness of the lock *)

(** C1: Mutual exclusion.  In every interleaving of the operations of up to 65535
    threads that obey the calling rules ([allowed]), while one thread holds the lock
    for writing, no other thread holds it.  The rules are those of the API (only a
    holder gives back or upgrades, counters below their limits), and further:
    [poll] is called only by a thread that holds the lock, [downgrade] only where it
    does nothing (while more than one write lock is held), and a thread interrupted
    while it waits in [timedread] does not use the lock again.  Without these three,
    exclusion does break ([poll_allocates_descriptor], [downgrade_stale_owner],
    [timedread_interrupted_breaks_exclusion]). *)
Theorem rwlock_mutual_exclusion n c t t' tb tb' h h' :
  Z.of_nat n < 65536 -> reachable self n c ->
  sys_threads c !! t = Some (MkThread tb (Idle h)) ->
  sys_threads c !! t' = Some (MkThread tb' (Idle h')) ->
  t <> t' -> 1 <= h_w h -> h' = MkHold 0 0.
Proof.
  intros Hn Hr Ht Ht' Hne Hw. destruct (reachable_ok n c Hn Hr) as (gs & Hlen & (m & k & Hi) & Hall).
  destruct (lookup_lt_is_Some_2 gs t) as [g Hg]; [rewrite Hlen; by apply lookup_lt_Some in Ht|].
  destruct (lookup_lt_is_Some_2 gs t') as [g' Hg']; [rewrite Hlen; by apply lookup_lt_Some in Ht'|].
  pose proof (Hall _ _ _ Ht Hg) as Hb. pose proof (Hall _ _ _ Ht' Hg') as Hb'. cbn in Hb, Hb'.
  destruct Hb as [_ _|_ ? _|_ ? _]; [|lia..].
  pose proof (inv_view _ _ _ _ _ _ Hi Hg) as (_ & _ & Hv). pose proof (inv_view _ _ _ _ _ _ Hi Hg') as (_ & _ & Hv').
  pose proof (others_not_excl _ _ _ _ _ _ t' g' Hi Hg ltac:(by right) Hg' ltac:(done)) as Hex.
  destruct Hb' as [_ _|_ _ _|_ Hw' Hr']; [done|cbn in *; lia|].
  destruct h' as [r' w']. cbn in *. by subst.
Qed.

(** C30: No assertion of the source about the lock word, its owner or the table of
    read locks fails, in any interleaving of the operations of up to 65535 threads
    that obey the calling rules ([allowed]): a holder is needed to give back and to
    upgrade, and also to [poll]; [downgrade] is called only while more than one write
    lock is held; the counters stay below their limits; and a thread interrupted while
    it waits in [timedread] does not use the lock again, since its stale descriptor
    makes the assertion on recursion fail.  The assertions of
    [task_isconnected] are about the scheduler and not modelled. *)
Theorem rwlock_no_panic n c t tb op h :
  Z.of_nat n < 65536 -> reachable self n c ->
  sys_threads c !! t <> Some (MkThread tb (Busy op h PPanic)).
Proof.
  intros Hn Hr Ht. destruct (reachable_ok n c Hn Hr) as (gs & Hlen & _ & Hall).
  destruct (lookup_lt_is_Some_2 gs t) as [g Hg]; [rewrite Hlen; by apply lookup_lt_Some in Ht|].
  exact (Hall _ _ _ Ht Hg).
Qed.

(** When [rwlock_reading] returns, its result says whether the calling
    thread holds the lock (for reading or for writing). *)
Theorem rwlock_reading_spec n c t tb h b :
  Z.of_nat n < 65536 -> reachable self n c ->
  sys_threads c !! t = Some (MkThread tb (Busy OReading h (PRet b))) ->
  b = true <-> 1 <= h_r h \/ 1 <= h_w h.
Proof.
  intros Hn Hr Ht. destruct (reachable_ok n c Hn Hr) as (gs & Hlen & _ & Hall).
  destruct (lookup_lt_is_Some_2 gs t) as [g Hg]; [rewrite Hlen; by apply lookup_lt_Some in Ht|].
  destruct (Hall _ _ _ Ht Hg) as [_ Hb]. rewrite (Hb eq_refl). lia.
Qed.

(** * Runs without interference *)
(** One thread runs [p] to its end, with [ch] for every free choice. *)
Fixpoint solo {A} (ch : choice) (p : prog A) (l : rwlock) (tb : T) : outcome (rwlock * T * (A + error_code)) :=
  match p with
  | PRet a => Ret (l, tb, inl a)
  | PThrow e => Ret (l, tb, inr e)
  | PPanic | PFuel => Panic
  | PAct x k => '(l, tb, b) ← exec self ch x l tb; solo ch (k b) l tb
  end.

(** Such a run is one of the interleavings. *)
Lemma solo_returns n ch p : ch_ok ch = false -> forall l ths t tb op h l' tb' b,
  reachable self n (MkSystem l ths) -> ths !! t = Some (MkThread tb (Busy op h p)) ->
  solo ch p l tb = Ret (l', tb', inl b) ->
  reachable self n (MkSystem l' (<[t := MkThread tb' (Busy op h (PRet b))]> ths)).
Proof.
  intros Hch. induction p as [a|e| | |B x k IH]; intros l ths t tb op h l' tb' b Hr Ht Hs; cbn in Hs; try done.
  - simplify_eq. by rewrite list_insert_id.
  - destruct (exec self ch x l tb) as [[[l1 tb1] b1]| |] eqn:Ee; try done. cbn in Hs.
    rewrite <- (list_insert_insert_eq ths t (MkThread tb' (Busy op h (PRet b)))
                 (MkThread tb1 (Busy op h (k b1)))).
    eapply IH; [|apply list_lookup_insert_eq; by apply lookup_lt_Some in Ht|exact Hs].
    eapply ReachStep; [exact Hr|]. eapply StepAct; [done| |done].
    unfold legal. destruct x; try done. congruence.
Qed.
Lemma solo_reachable n ch p l ths t tb op h l' tb' b :
  ch_ok ch = false -> reachable self n (MkSystem l ths) -> ths !! t = Some (MkThread tb (Busy op h p)) ->
  solo ch p l tb = Ret (l', tb', inl b) ->
  reachable self n (MkSystem l' (<[t := MkThread tb' (Idle (after op b h))]> ths)).
Proof.
  intros Hch Hr Ht Hs. pose proof (solo_returns n ch p Hch l ths t tb op h l' tb' b Hr Ht Hs) as Hret.
  rewrite <- (list_insert_insert_eq ths t (MkThread tb' (Idle (after op b h)))
               (MkThread tb' (Busy op h (PRet b)))).
  eapply ReachStep; [exact Hret|]. apply StepReturn, list_lookup_insert_eq. by apply lookup_lt_Some in Ht.
Qed.

Lemma solo_do {A} {B : Set} ch (x : act B) (k : B -> prog A) l tb l' tb' b :
  exec self ch x l tb = Ret (l', tb', b) ->
  solo ch (pbind (do_ x) k) l tb = solo ch (k b) l' tb'.
Proof. intros He. cbn. by rewrite He. Qed.
(** The access at the head of the program; its result is computed by [tac]. *)
Ltac solo_with tac :=
  lazymatch goal with
  | |- context [solo ?ch (mbind ?f ?p) ?l ?tb] =>
      change (solo ch (mbind f p) l tb) with (solo ch (pbind p f) l tb)
  | _ => idtac
  end;
  erewrite solo_do by (cbn [exec]; unfold on_table; cbn [rw_state rw_xowner ch_ok]; tac; reflexivity);
  cbn [fst snd default from_option id]; cbv beta iota zeta.
Ltac solo_word :=
  rewrite ?rwlock_mode_state, ?rwlock_ind_state by lia; modes;
  cbn [Z.eqb Pos.eqb Z.leb Z.compare Pos.compare Pos.compare_cont negb andb is_null].
Lemma solo_passert {A} ch (b : bool) (q : prog A) l tb :
  b = true -> solo ch (passert b;; q) l tb = solo ch q l tb.
Proof. by intros ->. Qed.

Lemma solo_bind {A B} ch (p : prog A) (f : A -> prog B) l tb l' tb' a :
  solo ch p l tb = Ret (l', tb', inl a) -> solo ch (pbind p f) l tb = solo ch (f a) l' tb'.
Proof.
  unfold pbind. revert l tb. induction p as [a'|e| | |C x k IH]; intros l tb Hs; cbn in *; simplify_eq; [done|].
  destruct (exec self ch x l tb) as [[[l1 tb1] b]| |]; try done. cbn in *. by apply IH.
Qed.
Lemma is_me_self t : is_me t (Some t) = true.
Proof. by apply bool_decide_eq_true. Qed.
Lemma solo_assert_owner ch t w tb : 1 <= w < 65536 ->
  solo ch (assert_owner t) (MkRw (RWLOCK_STATE 2 w) (Some t)) tb
  = Ret (MkRw (RWLOCK_STATE 2 w) (Some t), tb, inl w).
Proof.
  intros Hw. unfold assert_owner. solo_with idtac. solo_word. rewrite solo_passert by done.
  solo_with idtac. rewrite is_me_self, solo_passert by done.
  solo_with idtac. solo_word. rewrite solo_passert by lia. solo_with idtac. by solo_word.
Qed.

(** An unused lock is granted for writing without waiting, and giving it
    back restores the unused lock. *)
Theorem rwlock_write_uncontended t fuel ch o tb :
  table_ok 0 tb ->
  solo ch (os_rwlock_trywrite t (S fuel)) (MkRw (RWLOCK_STATE 0 0) o) tb
    = Ret (MkRw (RWLOCK_STATE 2 1) (Some t), tb, inl true)
  /\ solo ch (os_rwlock_endwrite t) (MkRw (RWLOCK_STATE 2 1) (Some t)) tb
    = Ret (MkRw (RWLOCK_STATE 0 0) None, tb, inl false).
Proof.
  intros (Hwf & _ & Hl). cbn in Hl. pose proof (rt_find_spec tb self Hwf Hself) as Hf. rewrite Hl in Hf.
  split.
  - cbn [os_rwlock_trywrite]. solo_with idtac. solo_word.
    solo_with ltac:(rewrite Hf; cbn [mbind outcome_bind]). rewrite solo_passert by done.
    solo_with ltac:(rewrite Z.eqb_refl). unfold got_lock. by solo_with idtac.
  - unfold os_rwlock_endwrite. erewrite solo_bind by (by apply solo_assert_owner). solo_word.
    unfold last_endwrite. solo_with idtac. solo_with ltac:(rewrite Hf; cbn [mbind outcome_bind]).
    solo_with idtac. by solo_with idtac.
Qed.

(** A lock in read-mode admits a further reader, which [end] takes out
    again: the word is as before and the thread's entry is gone. *)
Theorem rwlock_read_uncontended t fuel n o tb :
  table_ok 0 tb -> rt_room tb -> 0 <= n -> n + 1 < 65536 ->
  let ch := MkChoice true Signaled in
  exists tb1 tb2 b,
    solo ch (os_rwlock_tryread t (S fuel)) (MkRw (RWLOCK_STATE 0 n) o) tb
      = Ret (MkRw (RWLOCK_STATE 0 (n + 1)) o, tb1, inl true)
    /\ table_ok 1 tb1
    /\ solo ch (os_rwlock_end t (S fuel)) (MkRw (RWLOCK_STATE 0 (n + 1)) o) tb1
      = Ret (MkRw (RWLOCK_STATE 0 n) o, tb2, inl b)
    /\ table_ok 0 tb2.
Proof.
  intros (Hwf & _ & Hl) Hroom Hn0 Hn ch. subst ch. cbn in Hl.
  assert (Hinc : RWLOCK_INCIND (RWLOCK_STATE 0 n) = RWLOCK_STATE 0 (n + 1))
    by (rewrite rwlock_inc_state, rwlock_state_eq by lia; lia).
  assert (Hdec : RWLOCK_DECIND (RWLOCK_STATE 0 (n + 1)) = RWLOCK_STATE 0 n)
    by (rewrite rwlock_dec_state, rwlock_state_eq by lia; lia).
  destruct (rt_get_spec true tb self Hwf Hself (fun _ => Hroom))
    as [(tb0 & s & Hget & Hwf0 & Hd & _)|(_ & _ & ?)]; [|done].
  rewrite Hl in Hd. cbn [default] in Hd.
  pose proof (rt_recursion_spec tb0 s self 0 Hwf0 Hself Hd) as Hrec.
  destruct (rt_set_spec tb0 s self 0 1 Hwf0 Hself Hd) as (tb1 & Hset & Hwf1 & Hd1 & Hl1).
  pose proof (rt_find_spec tb1 self Hwf1 Hself) as Hf. rewrite Hl1 in Hf. destruct Hf as (s1 & Hf & Hds).
  pose proof (rt_recursion_spec tb1 s1 self 1 Hwf1 Hself Hds) as Hrec1.
  destruct (rt_delete_spec tb1 s1 self 1 Hwf1 Hself Hds) as (tb2 & Hdel & Hwf2 & Hl2).
  exists tb1, tb2, true. split_and!; [| by apply table_ok_intro; [|lia|] | | by apply table_ok_none].
  - unfold os_rwlock_tryread. solo_with idtac. solo_word. solo_with ltac:(rewrite Hget).
    solo_with ltac:(rewrite Hrec; cbn [mbind outcome_bind]). cbn [Z.eqb negb tryread_count].
    solo_with idtac. solo_word. solo_with ltac:(rewrite Z.eqb_refl; cbn [andb]).
    rewrite Hinc. by solo_with ltac:(rewrite Hset; cbn [mbind outcome_bind]).
  - unfold os_rwlock_end. solo_with idtac. solo_word.
    solo_with ltac:(rewrite Hf; cbn [mbind outcome_bind]). rewrite solo_passert by done.
    solo_with idtac. solo_word. rewrite solo_passert by lia. cbn [default id].
    solo_with ltac:(rewrite Hrec1; cbn [mbind outcome_bind]). rewrite solo_passert by done.
    cbn [Z.eqb Pos.eqb]. solo_with ltac:(rewrite Hdel; cbn [mbind outcome_bind]).
    erewrite solo_bind; cycle 1.
    + cbn [end_count]. solo_with idtac. solo_word. rewrite solo_passert by done.
      rewrite solo_passert by lia. solo_with ltac:(rewrite Z.eqb_refl; cbn [andb]). rewrite Hdec. done.
    + cbv beta. solo_word. destruct (n + 1 =? 1).
      * solo_with idtac. by solo_with idtac.
      * cbn [mbind prog_mbind prog_bind]. by solo_with idtac.
Qed.
End Logic.

(** * Witnesses and concrete runs, on the hash table of ReadLocks.v *)
Definition lock_ex : Z := 4096.
Lemma lock_ex_real : real_lock lock_ex.
Proof. split; reflexivity. Qed.
Definition quiet : choice := MkChoice false TimedOut.

Definition idle_ex : thread (T := read_locks) := MkThread readlocks_init (Idle (MkHold 0 0)).

(** Two threads; thread 0 has taken the lock for writing. *)
Definition sys_writer : system (T := read_locks) :=
  MkSystem (MkRw (RWLOCK_STATE 2 1) (Some 0%nat))
    [MkThread readlocks_init (Idle (MkHold 0 1)); MkThread readlocks_init (Idle (MkHold 0 0))].
Lemma sys_writer_reachable : reachable lock_ex 2 sys_writer.
Proof.
  assert (Hr : reachable (T := read_locks) lock_ex 2 (MkSystem rwlock_init
    [MkThread readlocks_init (Busy OTrywrite (MkHold 0 0) (os_rwlock_trywrite 0 1));
     MkThread readlocks_init (Idle (MkHold 0 0))])).
  { refine (ReachStep _ _ _ _ (ReachInit _ _) _).
    exact (StepStart lock_ex rwlock_init (replicate 2 idle_ex) 0 readlocks_init (MkHold 0 0) OTrywrite 1
             eq_refl (conj eq_refl eq_refl)). }
  exact (solo_reachable lock_ex 2 quiet _ _ _ 0 _ _ _ _ _ true eq_refl Hr eq_refl eq_refl).
Qed.

Lemma rwlock_mutual_exclusion_witness :
  reachable lock_ex 2 sys_writer /\ MkHold 0 0 = MkHold 0 0.
Proof.
  split; [exact sys_writer_reachable|].
  apply (rwlock_mutual_exclusion lock_ex lock_ex_real 2 sys_writer 0 1 readlocks_init readlocks_init (MkHold 0 1));
    [lia|exact sys_writer_reachable|reflexivity|reflexivity|lia|cbn; lia].
Defined.
Lemma rwlock_no_panic_witness :
  sys_threads sys_writer !! 0%nat <> Some (MkThread readlocks_init (Busy OEnd (MkHold 0 1) PPanic)).
Proof. apply (rwlock_no_panic lock_ex lock_ex_real 2); [lia|exact sys_writer_reachable]. Defined.

(** Thread 0 asks whether it holds the lock. *)
Definition sys_reading (b : bool) : system (T := read_locks) :=
  MkSystem (MkRw (RWLOCK_STATE 2 1) (Some 0%nat))
    [MkThread readlocks_init (Busy OReading (MkHold 0 1) (PRet b)); MkThread readlocks_init (Idle (MkHold 0 0))].
Lemma sys_reading_reachable : reachable lock_ex 2 (sys_reading true).
Proof.
  pose proof (ReachStep _ _ _ _ sys_writer_reachable
    (StepStart lock_ex _ (sys_threads sys_writer) 0 readlocks_init (MkHold 0 1) OReading 0 eq_refl I)) as Hr.
  exact (solo_returns lock_ex 2 quiet _ eq_refl _ _ 0 _ _ _ _ _ true Hr eq_refl eq_refl).
Qed.
Lemma rwlock_reading_witness : true = true <-> 1 <= 0 \/ 1 <= 1.
Proof.
  apply (rwlock_reading_spec lock_ex lock_ex_real 2 (sys_reading true) 0 readlocks_init (MkHold 0 1));
    [lia|exact sys_reading_reachable|reflexivity].
Defined.

Lemma table_ok_init : table_ok lock_ex 0 readlocks_init.
Proof. apply table_ok_none; [exact init_ok|apply init_lookup, lock_ex_real]. Qed.
Lemma rwlock_write_uncontended_witness :
  solo lock_ex quiet (os_rwlock_trywrite 0 1) rwlock_init readlocks_init
    = Ret (MkRw (RWLOCK_STATE 2 1) (Some 0%nat), readlocks_init, inl true).
Proof. apply (rwlock_write_uncontended lock_ex lock_ex_real 0 0 quiet None readlocks_init table_ok_init). Defined.
Lemma rwlock_read_uncontended_witness :
  exists tb1, solo lock_ex (MkChoice true Signaled) (os_rwlock_tryread 0 1) rwlock_init readlocks_init
    = Ret (MkRw (RWLOCK_STATE 0 1) None, tb1, inl true).
Proof.
  destruct (rwlock_read_uncontended lock_ex lock_ex_real 0 0 0 None readlocks_init table_ok_init)
    as (tb1 & _ & _ & E & _); [reflexivity|lia|lia|]. exists tb1. exact E.
Defined.

(** ** Why [downgrade], [poll] and an interrupted [timedread] are restricted *)
Definition run_all {A} (ch : choice) (p : prog A) (st : outcome (rwlock * read_locks * (A + error_code)))
  : outcome (rwlock * read_locks * (A + error_code)) :=
  '(l, tb, _) ← st; solo lock_ex ch p l tb.
Definition go : choice := MkChoice true Signaled.

(** [downgrade] leaves [rw_xowner] set.  After thread 0 wrote, downgraded and
    released the lock, thread 1 switches the word to write-mode; before it stores
    its own [rw_xowner], thread 0 gets a read lock. *)
Example downgrade_stale_owner :
  (let released := run_all go (os_rwlock_end 0 1) (run_all go (os_rwlock_downgrade 0)
     (solo lock_ex go (os_rwlock_trywrite 0 1) rwlock_init readlocks_init)) in
   '(l, tb, _) ← released;
   '(l', _, switched) ← exec lock_ex go (CmpXch (RWLOCK_STATE 0 0) (RWLOCK_STATE 2 1)) l readlocks_init;
   '(l2, _, granted) ← solo lock_ex go (os_rwlock_tryread 0 1) l' tb;
   Ret (l, switched, l2, granted))
  = Ret (MkRw (RWLOCK_STATE 0 0) (Some 0%nat), true, MkRw (RWLOCK_STATE 2 2) (Some 0%nat), inl true).
Proof. vm_compute. reflexivity. Qed.

(** A [timedread] that is interrupted while waiting leaves its descriptor with
    recursion 0 behind; the same thread then gets a write lock while thread 1 is
    reading. *)
Example timedread_interrupted_breaks_exclusion :
  ('(_, tb, res) ← solo lock_ex (MkChoice true Interrupted) (os_rwlock_timedread 0 2)
     (MkRw (RWLOCK_STATE 2 1) (Some 1%nat)) readlocks_init;
   '(l', _, granted) ← solo lock_ex go (os_rwlock_trywrite 0 1) (MkRw (RWLOCK_STATE 0 1) None) tb;
   Ret (res, readlock_of tb lock_ex, l', granted))
  = Ret (inr E_INTERRUPT, Some 0, MkRw (RWLOCK_STATE 2 1) (Some 0%nat), inl true).
Proof. vm_compute. reflexivity. Qed.

(** [poll] allocates a descriptor where it means to look for one: a thread
    without a lock is told that it can write, and then does. *)
Example poll_allocates_descriptor :
  ('(_, tb, events) ← solo lock_ex go (rwlock_poll 0 (Z.lor POLLIN POLLOUT))
     (MkRw (RWLOCK_STATE 0 1) None) readlocks_init;
   '(l', _, granted) ← solo lock_ex go (os_rwlock_trywrite 0 1) (MkRw (RWLOCK_STATE 0 1) None) tb;
   Ret (events, readlock_of tb lock_ex, l', granted))
  = Ret (inl (Z.lor POLLIN POLLOUT), Some 0, MkRw (RWLOCK_STATE 2 1) (Some 0%nat), inl true).
Proof. vm_compute. reflexivity. Qed.
