(* ===== verification/Handle.v ===== *)
(** The handle manager (file descriptor table): [src/kernel/src/fs/handle.c], with
    the drive table of [src/kernel/src/fs/path.c] that symbolic handles reach.

    Code that changes state and may throw is written in a state monad [K] whose
    exceptions keep the state they leave behind, so that what a failed call has
    done is visible.  Objects are addresses with a reference count; taking a
    reference to, or dropping one from, a dead object is a [KPanic].  One operation
    runs at a time: the locks of the manager are never contended.  A [FINALLY]
    block runs after the end of its [TRY] block and on exceptions, not when the
    block is left by [return] (include/except.h). *)
From stdpp Require Import gmap.
From S2P Require Import Prelude.

(** * Handles *)
Definition HANDLE_TYPE_FNONE : Z := 0.
Definition HANDLE_TYPE_FFILE : Z := 3.
Definition HANDLE_TYPE_FPATH : Z := 6.
Definition HANDLE_TYPE_FTHREAD : Z := 10.
Definition HANDLE_TYPE_FPIPE : Z := 13.
Definition HANDLE_TYPE_FCOUNT : Z := 20.

Definition IO_HANDLE_FCLOEXEC : Z := 4.
Definition IO_HANDLE_FCLOFORK : Z := 8.
Definition IO_HANDLE_FMASK : Z := 12.

Definition HANDLE_SYMBOLIC_CWD : Z := -100.
Definition HANDLE_SYMBOLIC_ROOT : Z := -101.
Definition HANDLE_SYMBOLIC_THIS_TASK : Z := -180.
Definition HANDLE_SYMBOLIC_DRIVE_CWD_A : Z := -350.
Definition HANDLE_SYMBOLIC_DRIVE_ROOT_A : Z := -300.
Definition VFS_DRIVECOUNT : Z := 26.

Record handle : Type := MkHandle {
  h_type : Z;
  h_flag : Z;
  h_ptr : nat;
}.
(** The handle of zeroed memory. *)
Definition no_handle : handle := MkHandle 0 0 0.
Definition is_none (h : handle) : bool := h_type h =? HANDLE_TYPE_FNONE.

Record handle_manager : Type := MkHm {
  hm_refcnt : Z;
  hm_limit : Z;
  hm_alloc : Z;
  hm_count : Z;
  hm_vector : list handle;
}.
Definition CONFIG_HANDLE_MANAGER_DEFAULT_LIMIT : Z := 4096.

(** * State, exceptions and the monad *)
(** The manager and file system information of the calling thread, the drives of
    its VFS, the reference counts of all objects, and [p_buffer.r_limt] of pipes. *)
Record kst : Type := MkKst {
  k_man : handle_manager;
  fs_cwd : nat;
  fs_root : nat;
  fs_dcwd : list (option nat);
  d_drives : list (option nat);
  k_refs : gmap nat Z;
  k_limt : gmap nat Z;
}.
Definition set_man (s : kst) (m : handle_manager) : kst :=
  MkKst m (fs_cwd s) (fs_root s) (fs_dcwd s) (d_drives s) (k_refs s) (k_limt s).
Definition set_refs (s : kst) (r : gmap nat Z) : kst :=
  MkKst (k_man s) (fs_cwd s) (fs_root s) (fs_dcwd s) (d_drives s) r (k_limt s).
Definition set_vector (m : handle_manager) (v : list handle) : handle_manager :=
  MkHm (hm_refcnt m) (hm_limit m) (hm_alloc m) (hm_count m) v.
Definition set_count (m : handle_manager) (n : Z) : handle_manager :=
  MkHm (hm_refcnt m) (hm_limit m) (hm_alloc m) n (hm_vector m).

Inductive h_reason : Set := FUNDEFINED | FWRONGTYPE.
(** The last argument of [throw_invalid_handle]. *)
Inductive h_detail : Set := FANY | ILLHND_FUNSET | ILLHND_FNOSYM | ILLHND_FRMSYM | ILLHND_FROSYM | ILLHND_FBOUND.
Inductive hexn : Type :=
| HE_INVALID_HANDLE (fd : Z) (reason : h_reason) (istype rqtype : Z) (detail : h_detail)
| HE_BADALLOC
| HE_BADALLOC_HANDLE (amount : Z)
| HE_FS_CROSSDEVICE_LINK
| HE_FS_PATH_NOT_FOUND
| HE_PROCESS_EXITED
| HE_NO_DATA
| HE_INVALID_ARGUMENT.

Inductive kres (A : Type) : Type :=
| KRet (a : A) (s : kst)
| KThrow (e : hexn) (s : kst)
| KPanic.
Arguments KRet {A} a s.
Arguments KThrow {A} e s.
Arguments KPanic {A}.
Definition K (A : Type) : Type := kst -> kres A.
#[export] Instance K_ret : MRet K := fun A a s => KRet a s.
#[export] Instance K_bind : MBind K := fun A B f m s =>
  match m s with
  | KRet a s => f a s
  | KThrow e s => KThrow e s
  | KPanic => KPanic
  end.
Definition kget : K kst := fun s => KRet s s.
Definition kput (s : kst) : K unit := fun _ => KRet tt s.
Definition kman : K handle_manager := fun s => KRet (k_man s) s.
Definition kset_man (m : handle_manager) : K unit := fun s => KRet tt (set_man s m).
Definition kthrow {A} (e : hexn) : K A := fun s => KThrow e s.
Definition kcheck (b : bool) : K unit := fun s => if b then KRet tt s else KPanic.
Definition klift {A} (m : outcome A) : K A := fun s =>
  match m with Ret a => KRet a s | Throw _ => KPanic | Panic => KPanic end.
(** [TRY m FINALLY f]. *)
Definition kfinally {A} (m : K A) (f : K unit) : K A := fun s =>
  match m s with
  | KRet a s => (f;; mret a) s
  | KThrow e s => (f;; kthrow e) s
  | KPanic => KPanic
  end.

(** ** Reference counts *)
Definition refcount (s : kst) (o : nat) : Z := default 0 (k_refs s !! o).
Definition obj_incref (o : nat) : K unit := fun s =>
  if 0 <? refcount s o then KRet tt (set_refs s (<[o := refcount s o + 1]> (k_refs s))) else KPanic.
Definition obj_decref (o : nat) : K unit := fun s =>
  if 0 <? refcount s o then KRet tt (set_refs s (<[o := refcount s o - 1]> (k_refs s))) else KPanic.
(** The operators of [HANDLE_TYPE_FNONE] do nothing. *)
Definition handle_incref (h : handle) : K unit :=
  kcheck (h_type h <? HANDLE_TYPE_FCOUNT);;
  if is_none h then mret tt else obj_incref (h_ptr h).
Definition handle_decref (h : handle) : K unit :=
  kcheck (h_type h <? HANDLE_TYPE_FCOUNT);;
  if is_none h then mret tt else obj_decref (h_ptr h).

(** * The rest of the kernel, as seen by handles *)
(** Whether memory for a vector of [n] handles, or a manager, can be allocated;
    how many handles more than requested fit into the block of a vector; and the
    (constant) fields of objects that symbolic descriptors follow. *)
Class KernelEnv : Type := {
  vec_alloc_ok : Z -> bool;
  man_alloc_ok : bool;
  vec_usable_extra : Z -> nat;
  f_path : nat -> nat;
  (** The chain of [p_parent] pointers. *)
  p_ancestors : nat -> list nat;
  this_weakref : nat;
}.

Section Manager.
Context `{Env : KernelEnv}.

Definition validate_handle_manager (man : handle_manager) : K unit :=
  kcheck (forallb (fun h => h_type h <? HANDLE_TYPE_FCOUNT) (take (Z.to_nat (hm_alloc man)) (hm_vector man))).

(** [krealloc] of the vector with [GFP_CALLOC]. *)
Definition vec_realloc (vector : list handle) (new_alloc : Z) : list handle :=
  take (Z.to_nat new_alloc) vector ++ replicate (Z.to_nat new_alloc - length vector) no_handle.

(** Two attempts to reallocate the vector to [new_alloc], then [min_alloc] entries. *)
Definition vec_grow (man : handle_manager) (new_alloc min_alloc : Z) : K handle_manager :=
  if vec_alloc_ok new_alloc then
    mret (MkHm (hm_refcnt man) (hm_limit man) new_alloc (hm_count man) (vec_realloc (hm_vector man) new_alloc))
  else if vec_alloc_ok min_alloc then
    mret (MkHm (hm_refcnt man) (hm_limit man) min_alloc (hm_count man) (vec_realloc (hm_vector man) min_alloc))
  else kthrow HE_BADALLOC.

(** [for (; result < bound; ++result) if (vector[result].h_type == HANDLE_TYPE_FNONE) break;]
    with [n] iterations left. *)
Fixpoint find_free (n : nat) (vector : list handle) (result : nat) : outcome nat :=
  match n with
  | O => Ret result
  | S n =>
      h ← access (vector !! result);
      if is_none h then Ret result else find_free n vector (S result)
  end.

(** The common end of [handle_put] and [handle_putat]. *)
Definition put_at (man : handle_manager) (hnd : handle) (result : nat) : K Z :=
  old ← klift (access (hm_vector man !! result));
  kcheck (is_none old);;
  kset_man (set_vector man (<[result := hnd]> (hm_vector man)));;
  handle_incref hnd;;
  m ← kman;
  kset_man (set_count m (u32 (hm_count m + 1)));;
  m ← kman;
  validate_handle_manager m;;
  mret (Z.of_nat result).

Definition handle_put (hnd : handle) : K Z :=
  man ← kman;
  kcheck (negb (is_none hnd));;
  validate_handle_manager man;;
  man ← (if hm_count man =? hm_alloc man then
           let new_alloc := u32 (hm_alloc man * 2) in
           let new_alloc := if new_alloc =? 0 then 16 else new_alloc in
           if hm_limit man <? new_alloc then
             if hm_limit man <=? hm_alloc man then kthrow (HE_BADALLOC_HANDLE (hm_limit man))
             else vec_grow man (hm_limit man) (u32 (hm_alloc man + 1))
           else vec_grow man new_alloc (u32 (hm_alloc man + 1))
         else mret man);
  kset_man man;;
  result ← klift (find_free (Z.to_nat (hm_count man)) (hm_vector man) 0);
  put_at man hnd result.

(** [while (new_alloc <= hint) new_alloc *= 2;] *)
Fixpoint alloc_for (fuel : nat) (new_alloc hint : Z) : outcome Z :=
  match fuel with
  | O => Panic
  | S fuel => if new_alloc <=? hint then alloc_for fuel (u32 (new_alloc * 2)) hint else Ret new_alloc
  end.
(** 32 doublings of a non-zero number leave the 32-bit range. *)
Definition ALLOC_FUEL : nat := 33.

Definition handle_putat (hnd : handle) (hint : Z) : K Z :=
  man ← kman;
  kcheck (negb (is_none hnd));;
  validate_handle_manager man;;
  man ← (if hm_alloc man <=? hint then
           let new_alloc := u32 (hm_alloc man * 2) in
           let new_alloc := if new_alloc =? 0 then 16 else new_alloc in
           if hm_limit man <=? hint then kthrow (HE_BADALLOC_HANDLE new_alloc)
           else
             new_alloc ← klift (alloc_for ALLOC_FUEL new_alloc hint);
             let new_alloc := if hm_limit man <? new_alloc then hm_limit man else new_alloc in
             kcheck (hint <? new_alloc);;
             vec_grow man new_alloc (u32 (hint + 1))
         else mret man);
  kset_man man;;
  result ← klift (find_free (Z.to_nat (hm_alloc man - hint)) (hm_vector man) (Z.to_nat hint));
  put_at man hnd result.

(** ** Symbolic handles *)
Definition drive_cwd_index (fd : Z) : option nat :=
  if (HANDLE_SYMBOLIC_DRIVE_CWD_A <=? fd) && (fd <? HANDLE_SYMBOLIC_DRIVE_CWD_A + VFS_DRIVECOUNT)
  then Some (Z.to_nat (fd - HANDLE_SYMBOLIC_DRIVE_CWD_A)) else None.
Definition drive_root_index (fd : Z) : option nat :=
  if (HANDLE_SYMBOLIC_DRIVE_ROOT_A <=? fd) && (fd <? HANDLE_SYMBOLIC_DRIVE_ROOT_A + VFS_DRIVECOUNT)
  then Some (Z.to_nat (fd - HANDLE_SYMBOLIC_DRIVE_ROOT_A)) else None.

Definition set_cwd (s : kst) (p : nat) : kst :=
  MkKst (k_man s) p (fs_root s) (fs_dcwd s) (d_drives s) (k_refs s) (k_limt s).
Definition set_root (s : kst) (p : nat) : kst :=
  MkKst (k_man s) (fs_cwd s) p (fs_dcwd s) (d_drives s) (k_refs s) (k_limt s).
Definition set_dcwd (s : kst) (l : list (option nat)) : kst :=
  MkKst (k_man s) (fs_cwd s) (fs_root s) l (d_drives s) (k_refs s) (k_limt s).
Definition set_drives (s : kst) (l : list (option nat)) : kst :=
  MkKst (k_man s) (fs_cwd s) (fs_root s) (fs_dcwd s) l (k_refs s) (k_limt s).

Definition fs_getcwd : K nat := s ← kget; obj_incref (fs_cwd s);; mret (fs_cwd s).
Definition fs_getroot : K nat := s ← kget; obj_incref (fs_root s);; mret (fs_root s).

Definition vfs_drive (drive_number : nat) : K nat :=
  s ← kget;
  kcheck (Z.of_nat drive_number <? VFS_DRIVECOUNT);;
  result ← klift (access (d_drives s !! drive_number));
  match result with
  | None => kthrow HE_FS_PATH_NOT_FOUND
  | Some p => obj_incref p;; mret p
  end.
(** The flag [PATH_FISDRIVE] of the paths is not kept; clearing it in a [NULL]
    path, and dropping a reference of it, is an invalid access. *)
Definition vfs_bind_drive (drive_number : nat) (location : nat) : K unit :=
  kcheck (Z.of_nat drive_number <? VFS_DRIVECOUNT);;
  obj_incref location;;
  s ← kget;
  old_path ← klift (access (d_drives s !! drive_number));
  kput (set_drives s (<[drive_number := Some location]> (d_drives s)));;
  old ← klift (access old_path);
  obj_decref old.
Definition vfs_unbind_drive (drive_number : nat) : K bool :=
  kcheck (Z.of_nat drive_number <? VFS_DRIVECOUNT);;
  s ← kget;
  old_path ← klift (access (d_drives s !! drive_number));
  kput (set_drives s (<[drive_number := None]> (d_drives s)));;
  match old_path with
  | None => mret false
  | Some old => obj_decref old;; mret true
  end.

Definition throw_unset {A} (fd : Z) : K A :=
  kthrow (HE_INVALID_HANDLE fd FUNDEFINED HANDLE_TYPE_FNONE HANDLE_TYPE_FNONE ILLHND_FUNSET).
Definition throw_unbound {A} (fd : Z) : K A :=
  kthrow (HE_INVALID_HANDLE fd FUNDEFINED HANDLE_TYPE_FNONE HANDLE_TYPE_FPATH ILLHND_FRMSYM).

Definition get_symbolic_handle (fd : Z) : K handle :=
  if fd =? HANDLE_SYMBOLIC_CWD then p ← fs_getcwd; mret (MkHandle HANDLE_TYPE_FPATH 0 p)
  else if fd =? HANDLE_SYMBOLIC_ROOT then p ← fs_getroot; mret (MkHandle HANDLE_TYPE_FPATH 0 p)
  else if fd =? HANDLE_SYMBOLIC_THIS_TASK then
    obj_incref this_weakref;; mret (MkHandle HANDLE_TYPE_FTHREAD 0 this_weakref)
  else
    match drive_cwd_index fd with
    | Some i =>
        s ← kget;
        p ← klift (access (fs_dcwd s !! i));
        match p with
        | None => throw_unbound fd
        | Some p => obj_incref p;; mret (MkHandle HANDLE_TYPE_FPATH 0 p)
        end
    | None =>
        match drive_root_index fd with
        | Some i => fun s =>
            match vfs_drive i s with
            | KRet p s => KRet (MkHandle HANDLE_TYPE_FPATH 0 p) s
            | KThrow HE_FS_PATH_NOT_FOUND s => throw_unbound fd s
            | KThrow e s => KThrow e s
            | KPanic => KPanic
            end
        | None =>
            kthrow (HE_INVALID_HANDLE fd FUNDEFINED HANDLE_TYPE_FNONE HANDLE_TYPE_FNONE ILLHND_FNOSYM)
        end
    end.

Definition close_symbolic_handle (fd : Z) : K bool :=
  match drive_cwd_index fd with
  | Some i =>
      s ← kget;
      old_cwd ← klift (access (fs_dcwd s !! i));
      kput (set_dcwd s (<[i := None]> (fs_dcwd s)));;
      match old_cwd with
      | None => mret false
      | Some p => obj_decref p;; mret true
      end
  | None =>
      match drive_root_index fd with
      | Some i => vfs_unbind_drive i
      | None => mret false
      end
  end.

(** What the [switch] of [handle_putinto] leaves behind: [Returned], or [old_path]
    for the [FINALLY] block ([None]: it was not initialized, or is [NULL]). *)
Inductive swap_end : Type := Returned | OldPath (old : option nat).
Definition putinto_switch (dfd : Z) (new_path : nat) : K swap_end :=
  s ← kget;
  if dfd =? HANDLE_SYMBOLIC_CWD then kput (set_cwd s new_path);; mret Returned
  else if dfd =? HANDLE_SYMBOLIC_ROOT then kput (set_root s new_path);; mret Returned
  else
    match drive_cwd_index dfd with
    | Some i => fun s =>
        match vfs_drive i s with
        | KRet drive_root s =>
            if bool_decide (drive_root ∈ new_path :: p_ancestors new_path) then
              (obj_decref drive_root;;
               s ← kget;
               old ← klift (access (fs_dcwd s !! i));
               kput (set_dcwd s (<[i := Some new_path]> (fs_dcwd s)));;
               mret (OldPath old)) s
            else
              (obj_decref drive_root;; obj_decref new_path;; kthrow HE_FS_CROSSDEVICE_LINK) s
        | KThrow _ _ => KPanic
        | KPanic => KPanic
        end
    | None =>
        match drive_root_index dfd with
        | Some i => vfs_bind_drive i new_path;; mret (OldPath (Some new_path))
        | None => mret (OldPath None)
        end
    end.
Definition putinto_symbolic (dfd : Z) (hnd : handle) : K unit :=
  new_path ← (if h_type hnd =? HANDLE_TYPE_FPATH then mret (h_ptr hnd)
              else if h_type hnd =? HANDLE_TYPE_FFILE then mret (f_path (h_ptr hnd))
              else kthrow (HE_INVALID_HANDLE dfd FWRONGTYPE (h_type hnd) HANDLE_TYPE_FPATH FANY));
  obj_incref new_path;;
  r ← putinto_switch dfd new_path;
  match r with
  | Returned => mret tt
  | OldPath old =>
      old ← klift (access old);
      obj_decref old;;
      if dfd =? HANDLE_SYMBOLIC_THIS_TASK
      then kthrow (HE_INVALID_HANDLE dfd FUNDEFINED HANDLE_TYPE_FNONE HANDLE_TYPE_FTHREAD ILLHND_FROSYM)
      else kthrow (HE_INVALID_HANDLE dfd FUNDEFINED HANDLE_TYPE_FNONE HANDLE_TYPE_FPATH ILLHND_FNOSYM)
  end.

(** ** Descriptors *)
Definition handle_putinto (dfd : Z) (hnd : handle) : K unit :=
  man ← kman;
  kcheck (negb (is_none hnd));;
  if dfd <? 0 then putinto_symbolic dfd hnd
  else
    validate_handle_manager man;;
    man ← (if hm_alloc man <=? dfd then
             let new_alloc := u32 (hm_alloc man * 2) in
             let new_alloc := if new_alloc =? 0 then 16 else new_alloc in
             new_alloc ← klift (alloc_for ALLOC_FUEL new_alloc dfd);
             if hm_limit man <? new_alloc then
               if hm_limit man <=? dfd + 1 then
                 kthrow (HE_INVALID_HANDLE dfd FUNDEFINED HANDLE_TYPE_FNONE HANDLE_TYPE_FNONE ILLHND_FBOUND)
               else
                 kcheck (hm_alloc man <? dfd + 1);;
                 vec_grow man (dfd + 1) (dfd + 1)
             else
               kcheck (hm_alloc man <? new_alloc);;
               vec_grow man new_alloc (dfd + 1)
           else mret man);
    old_hnd ← klift (access (hm_vector man !! Z.to_nat dfd));
    kset_man (set_vector man (<[Z.to_nat dfd := hnd]> (hm_vector man)));;
    handle_incref hnd;;
    m ← kman;
    (if is_none old_hnd then kset_man (set_count m (u32 (hm_count m + 1))) else mret tt);;
    m ← kman;
    validate_handle_manager m;;
    handle_decref old_hnd.

Definition handle_get (fd : Z) : K handle :=
  if fd <? 0 then get_symbolic_handle fd
  else
    man ← kman;
    if hm_alloc man <=? fd then throw_unset fd
    else
      result ← klift (access (hm_vector man !! Z.to_nat fd));
      handle_incref result;;
      if is_none result then throw_unset fd
      else
        kcheck (h_type result <? HANDLE_TYPE_FCOUNT);;
        mret result.

Definition handle_close (fd : Z) : K bool :=
  if fd <? 0 then close_symbolic_handle fd
  else
    man ← kman;
    validate_handle_manager man;;
    if hm_alloc man <=? fd then mret false
    else
      hnd ← klift (access (hm_vector man !! Z.to_nat fd));
      kset_man (set_vector man
        (<[Z.to_nat fd := MkHandle HANDLE_TYPE_FNONE (h_flag hnd) (h_ptr hnd)]> (hm_vector man)));;
      m ← kman;
      validate_handle_manager m;;
      handle_decref hnd;;
      mret (negb (is_none hnd)).

(** [hnd.h_flag &= ~IO_HANDLE_FMASK; hnd.h_flag |= flags;] *)
Definition dup_flags (hnd : handle) (flags : Z) : handle :=
  MkHandle (h_type hnd) (Z.lor (Z.ldiff (h_flag hnd) IO_HANDLE_FMASK) flags) (h_ptr hnd).
Definition handle_dup (fd flags : Z) : K Z :=
  hnd ← handle_get fd;
  let hnd := dup_flags hnd flags in
  kfinally (handle_put hnd) (handle_decref hnd).
Definition handle_dupat (fd hint flags : Z) : K Z :=
  hnd ← handle_get fd;
  let hnd := dup_flags hnd flags in
  kfinally (handle_putat hnd hint) (handle_decref hnd).
Definition handle_dupinto (fd dfd flags : Z) : K unit :=
  hnd ← handle_get fd;
  let hnd := dup_flags hnd flags in
  kfinally (handle_putinto dfd hnd) (handle_decref hnd).

(** ** Managers *)
Definition handle_manager_alloc : K handle_manager :=
  if man_alloc_ok then mret (MkHm 1 CONFIG_HANDLE_MANAGER_DEFAULT_LIMIT 0 0 []) else kthrow HE_BADALLOC.

(** The loop over the entries of the new vector; [count] is [result->hm_count]. *)
Fixpoint clone_entries (vector : list handle) (count : Z) : K (list handle * Z) :=
  match vector with
  | [] => mret ([], count)
  | h :: vector =>
      if is_none h then
        '(v, c) ← clone_entries vector count; mret (h :: v, c)
      else if negb (Z.land (h_flag h) IO_HANDLE_FCLOFORK =? 0) then
        kcheck (negb (count =? 0));;
        '(v, c) ← clone_entries vector (count - 1);
        mret (MkHandle HANDLE_TYPE_FNONE (h_flag h) (h_ptr h) :: v, c)
      else
        handle_incref h;;
        '(v, c) ← clone_entries vector count; mret (h :: v, c)
  end.
Definition handle_manager_clone : K handle_manager :=
  orig ← kman;
  if negb man_alloc_ok then kthrow HE_BADALLOC
  else
    validate_handle_manager orig;;
    if hm_count orig =? 0 then mret (MkHm 1 (hm_limit orig) 0 0 [])
    else if negb (vec_alloc_ok (hm_alloc orig)) then kthrow HE_BADALLOC
    else
      kcheck (hm_count orig <=? hm_alloc orig);;
      '(vector, count) ← clone_entries (take (Z.to_nat (hm_alloc orig)) (hm_vector orig)) (hm_count orig);
      validate_handle_manager orig;;
      let extra := vec_usable_extra (hm_alloc orig) in
      let result := MkHm 1 (hm_limit orig) (hm_alloc orig + Z.of_nat extra) count
                      (vector ++ replicate extra no_handle) in
      validate_handle_manager result;;
      mret result.

(** One pass of [handle_manager_close_exec] from index [i] on, [n] entries left. *)
Fixpoint close_exec_pass (n i : nat) (did_change : bool) : K bool :=
  match n with
  | O => mret did_change
  | S n =>
      man ← kman;
      hnd ← klift (access (hm_vector man !! i));
      if is_none hnd || (Z.land (h_flag hnd) IO_HANDLE_FCLOEXEC =? 0)
      then close_exec_pass n (S i) did_change
      else
        kset_man (set_vector man
          (<[i := MkHandle HANDLE_TYPE_FNONE (h_flag hnd) (h_ptr hnd)]> (hm_vector man)));;
        handle_decref hnd;;
        close_exec_pass n (S i) true
  end.
Fixpoint close_exec_loop (fuel : nat) : K unit :=
  match fuel with
  | O => kcheck false
  | S fuel =>
      man ← kman;
      did_change ← close_exec_pass (Z.to_nat (hm_alloc man)) 0 false;
      m ← kman;
      validate_handle_manager m;;
      if (did_change : bool) then close_exec_loop fuel else mret tt
  end.
(** Nothing is left to close after the first pass. *)
Definition handle_manager_close_exec : K unit := close_exec_loop 2.

Fixpoint decref_all (vec : list handle) : K unit :=
  match vec with
  | [] => mret tt
  | h :: vec =>
      kcheck (h_type h <? HANDLE_TYPE_FCOUNT);;
      (if negb (is_none h) then handle_decref h else mret tt);;
      decref_all vec
  end.
(** The memory of the manager and its vector is freed. *)
Definition handle_manager_destroy : K unit :=
  man ← kman;
  decref_all (take (Z.to_nat (hm_alloc man)) (hm_vector man));;
  kset_man (MkHm 0 (hm_limit man) 0 0 []).
Definition handle_manager_incref : K unit :=
  man ← kman;
  kset_man (MkHm (hm_refcnt man + 1) (hm_limit man) (hm_alloc man) (hm_count man) (hm_vector man)).
Definition handle_manager_decref : K unit :=
  man ← kman;
  kset_man (MkHm (hm_refcnt man - 1) (hm_limit man) (hm_alloc man) (hm_count man) (hm_vector man));;
  if hm_refcnt man - 1 =? 0 then handle_manager_destroy else mret tt.

Definition CLONE_FILES : Z := 1024.
(** The manager of the new thread: shared ([None]: that of the calling thread) or a clone. *)
Definition task_clone_handle_manager (flags : Z) : K (option handle_manager) :=
  if negb (Z.land flags CLONE_FILES =? 0) then handle_manager_incref;; mret None
  else m ← handle_manager_clone; mret (Some m).
End Manager.

(** * Reasoning about [K] *)
(** [m] started in [s] ends normally with [Q], or throws with [E]; it does not panic. *)
Definition kwp {A} (m : K A) (s : kst) (Q : A -> kst -> Prop) (E : hexn -> kst -> Prop) : Prop :=
  match m s with
  | KRet a s' => Q a s'
  | KThrow e s' => E e s'
  | KPanic => False
  end.

Lemma kwp_mono {A} (m : K A) s (Q Q' : A -> kst -> Prop) (E E' : hexn -> kst -> Prop) :
  kwp m s Q E -> (forall a s', Q a s' -> Q' a s') -> (forall e s', E e s' -> E' e s') -> kwp m s Q' E'.
Proof. unfold kwp. destruct (m s); auto. Qed.
Lemma kwp_ret {A} (a : A) s Q E : Q a s -> kwp (mret a) s Q E.
Proof. done. Qed.
Lemma kwp_bind {A B} (m : K A) (f : A -> K B) s Q E :
  kwp m s (fun a s' => kwp (f a) s' Q E) E -> kwp (m ≫= f) s Q E.
Proof. unfold kwp, mbind, K_bind. by destruct (m s). Qed.
Lemma kwp_get s Q E : Q s s -> kwp kget s Q E.
Proof. done. Qed.
Lemma kwp_put s s' Q E : Q tt s' -> kwp (kput s') s Q E.
Proof. done. Qed.
Lemma kwp_man s Q E : Q (k_man s) s -> kwp kman s Q E.
Proof. done. Qed.
Lemma kwp_set_man m s Q E : Q tt (set_man s m) -> kwp (kset_man m) s Q E.
Proof. done. Qed.
Lemma kwp_throw {A} e s (Q : A -> kst -> Prop) E : E e s -> kwp (kthrow e) s Q E.
Proof. done. Qed.
Lemma kwp_check b s Q E : b = true -> Q tt s -> kwp (kcheck b) s Q E.
Proof. unfold kwp, kcheck. by intros ->. Qed.
Lemma kwp_lift {A} (m : outcome A) a s Q E : m = Ret a -> Q a s -> kwp (klift m) s Q E.
Proof. unfold kwp, klift. by intros ->. Qed.
Lemma kwp_access {A} (m : option A) a s Q E : m = Some a -> Q a s -> kwp (klift (access m)) s Q E.
Proof. unfold kwp, klift. by intros ->. Qed.
Lemma kwp_finally {A} (m : K A) f s Q E :
  kwp m s (fun a s' => kwp f s' (fun _ => Q a) E) (fun e s' => kwp f s' (fun _ => E e) E) ->
  kwp (kfinally m f) s Q E.
Proof.
  unfold kwp, kfinally, mbind, K_bind. destruct (m s) as [a s'|e s'|]; [| |done]; by destruct (f s').
Qed.
#[local] Hint Resolve kwp_ret kwp_get kwp_put kwp_man kwp_set_man kwp_throw : kos.

(** ** Counting references *)
Definition one (o : nat) (x : option nat) : Z := if decide (x = Some o) then 1 else 0.
Fixpoint cnt (o : nat) (l : list (option nat)) : Z :=
  match l with [] => 0 | x :: l => one o x + cnt o l end.
Lemma one_nonneg o x : 0 <= one o x.
Proof. unfold one. case_decide; lia. Qed.
Lemma cnt_nonneg o l : 0 <= cnt o l.
Proof. induction l as [|x l IH]; cbn; [lia|]. pose proof (one_nonneg o x). lia. Qed.
Lemma cnt_app o l l' : cnt o (l ++ l') = cnt o l + cnt o l'.
Proof. induction l as [|x l IH]; cbn; [lia|]. rewrite IH. lia. Qed.
Lemma cnt_insert o l : forall i x y, l !! i = Some x -> cnt o (<[i := y]> l) = cnt o l - one o x + one o y.
Proof.
  induction l as [|z l IH]; intros [|i] x y Hi; cbn in *; simplify_eq; [lia|]. rewrite (IH _ _ _ Hi). lia.
Qed.
Lemma cnt_lookup o l i : l !! i = Some (Some o) -> 1 <= cnt o l.
Proof.
  revert i. induction l as [|z l IH]; intros [|i] Hi; cbn in *; simplify_eq.
  - unfold one at 1. rewrite decide_True by done. pose proof (cnt_nonneg o l). lia.
  - pose proof (one_nonneg o z). specialize (IH _ Hi). lia.
Qed.
Lemma cnt_none o n : cnt o (replicate n None) = 0.
Proof. induction n as [|n IH]; cbn; [done|]. by rewrite IH. Qed.

(** The references that the table and the file system information own. *)
Definition owner (h : handle) : option nat := if is_none h then None else Some (h_ptr h).
Definition fs_owners (s : kst) : list (option nat) := Some (fs_cwd s) :: Some (fs_root s) :: fs_dcwd s ++ d_drives s.
Definition held (s : kst) (o : nat) : Z := cnt o (owner <$> hm_vector (k_man s)) + cnt o (fs_owners s).
(** References that others own. *)
Definition balance (s : kst) (o : nat) : Z := refcount s o - held s o.

Definition used (v : list handle) : Z := Z.of_nat (length (filter (fun h => is_none h = false) v)).
(** The descriptor table as a partial function. *)
Definition live (h : handle) : option handle := if is_none h then None else Some h.
Definition slot (s : kst) (i : nat) : option handle := hm_vector (k_man s) !! i ≫= live.

Record kst_ok (s : kst) : Prop := {
  ok_alloc : hm_alloc (k_man s) = Z.of_nat (length (hm_vector (k_man s)));
  ok_types : Forall (fun h => h_type h < HANDLE_TYPE_FCOUNT) (hm_vector (k_man s));
  ok_limit : 0 <= hm_limit (k_man s) < 2 ^ 31;
  ok_size : hm_alloc (k_man s) < 2 ^ 31;
  ok_count : used (hm_vector (k_man s)) <= hm_count (k_man s) <= hm_alloc (k_man s);
  ok_refs : forall o, 0 <= balance s o;
  ok_dcwd : length (fs_dcwd s) = Z.to_nat VFS_DRIVECOUNT;
  ok_drives : length (d_drives s) = Z.to_nat VFS_DRIVECOUNT;
}.

Lemma refs_insert (r : gmap nat Z) o n o' : default 0 (<[o := n]> r !! o') = if decide (o' = o) then n else default 0 (r !! o').
Proof. case_decide; subst; [by rewrite lookup_insert_eq|by rewrite lookup_insert_ne]. Qed.
Lemma refcount_set s o n o' : refcount (set_refs s (<[o := n]> (k_refs s))) o' = if decide (o' = o) then n else refcount s o'.
Proof. apply refs_insert. Qed.
Lemma refcount_pos s o : 0 < refcount s o -> k_refs s !! o = Some (refcount s o).
Proof. unfold refcount. by destruct (k_refs s !! o); cbn; [|lia]. Qed.
Lemma held_live s o : kst_ok s -> 0 < held s o -> 0 < refcount s o.
Proof. intros Hok Hh. pose proof (ok_refs _ Hok o) as Hb. unfold balance in Hb. lia. Qed.
Lemma slot_held s i h : slot s i = Some h -> 0 < held s (h_ptr h).
Proof.
  unfold slot, live. destruct (hm_vector (k_man s) !! i) as [h'|] eqn:E; cbn; [|done].
  destruct (is_none h') eqn:En; [done|]. intros [= ->]. unfold held.
  assert (1 <= cnt (h_ptr h) (owner <$> hm_vector (k_man s))).
  { apply (cnt_lookup _ _ i). rewrite list_lookup_fmap, E. cbn. unfold owner. by rewrite En. }
  pose proof (cnt_nonneg (h_ptr h) (fs_owners s)). lia.
Qed.

Lemma kwp_incref o s Q E :
  0 < refcount s o -> Q tt (set_refs s (<[o := refcount s o + 1]> (k_refs s))) -> kwp (obj_incref o) s Q E.
Proof. intros H HQ. unfold kwp, obj_incref. by replace (0 <? refcount s o) with true by lia. Qed.
Lemma kwp_decref o s Q E :
  0 < refcount s o -> Q tt (set_refs s (<[o := refcount s o - 1]> (k_refs s))) -> kwp (obj_decref o) s Q E.
Proof. intros H HQ. unfold kwp, obj_decref. by replace (0 <? refcount s o) with true by lia. Qed.
(** Taking and dropping a reference leaves the state as it was. *)
Lemma incref_decref s o :
  0 < refcount s o ->
  let s1 := set_refs s (<[o := refcount s o + 1]> (k_refs s)) in
  set_refs s1 (<[o := refcount s1 o - 1]> (k_refs s1)) = s.
Proof.
  intros H s1. pose proof (refcount_pos s o H) as Hp. unfold s1 at 2.
  rewrite refcount_set, decide_True by done. subst s1. destruct s. cbn in *. unfold set_refs. cbn. f_equal.
  rewrite insert_insert_eq. apply insert_id. rewrite Hp. f_equal. lia.
Qed.

(** ** Vectors *)
Lemma used_cons h v : used (h :: v) = (if is_none h then 0 else 1) + used v.
Proof. unfold used. rewrite filter_cons. destruct (is_none h); case_decide; cbn [length]; try done; lia. Qed.
Lemma used_app v v' : used (v ++ v') = used v + used v'.
Proof. unfold used. rewrite list.filter_app, length_app. lia. Qed.
Lemma used_none n : used (replicate n no_handle) = 0.
Proof. induction n as [|n IH]; cbn [replicate]; [done|]. by rewrite used_cons, IH. Qed.
Lemma used_nonneg v : 0 <= used v.
Proof. unfold used. lia. Qed.
Lemma used_insert v : forall i x y, v !! i = Some x ->
  used (<[i := y]> v) = used v - (if is_none x then 0 else 1) + (if is_none y then 0 else 1).
Proof.
  induction v as [|z v IH]; intros [|i] x y Hi; cbn in *; simplify_eq; rewrite !used_cons; [lia|].
  rewrite (IH _ _ _ Hi). lia.
Qed.
(** A prefix of open handles counts in full. *)
Lemma used_prefix n : forall v, (n <= length v)%nat ->
  (forall j h, (j < n)%nat -> v !! j = Some h -> is_none h = false) -> Z.of_nat n <= used v.
Proof.
  induction n as [|n IH]; intros v Hn Hj; [apply used_nonneg|]. destruct v as [|h v]; cbn in Hn; [lia|].
  rewrite used_cons. rewrite (Hj 0%nat h ltac:(lia) eq_refl).
  specialize (IH v ltac:(lia) (fun j h Hlt Hl => Hj (S j) h ltac:(lia) Hl)). lia.
Qed.

Lemma find_free_ok n : forall v r, (r + n <= length v)%nat ->
  exists i, find_free n v r = Ret i /\ (r <= i <= r + n)%nat
    /\ (forall j h, (r <= j < i)%nat -> v !! j = Some h -> is_none h = false)
    /\ ((i < r + n)%nat -> exists h, v !! i = Some h /\ is_none h = true).
Proof.
  induction n as [|n IH]; intros v r Hr; cbn [find_free].
  { exists r. split_and!; [done|lia|lia| |lia]. intros j h Hj. lia. }
  destruct (lookup_lt_is_Some_2 v r ltac:(lia)) as [h Hh]. rewrite Hh. cbn [access]. rewrite bind_ret.
  destruct (is_none h) eqn:En.
  { exists r. split_and!; [done|lia|lia| |eauto]. intros j h' Hj. lia. }
  destruct (IH v (S r) ltac:(lia)) as (i & Hi & Hle & Hpre & Hend).
  exists i. split_and!; [done|lia|lia| |intros; apply Hend; lia].
  intros j h' Hj Hl. destruct (decide (j = r)) as [->|]; [congruence|]. apply (Hpre j); [lia|done].
Qed.
(** The search of [handle_put] finds the lowest free entry. *)
Lemma find_free_lowest v count :
  used v <= count -> count < Z.of_nat (length v) ->
  exists i h, find_free (Z.to_nat count) v 0 = Ret i /\ v !! i = Some h /\ is_none h = true
    /\ (forall j h', (j < i)%nat -> v !! j = Some h' -> is_none h' = false).
Proof.
  intros Hu Hc. pose proof (used_nonneg v).
  destruct (find_free_ok (Z.to_nat count) v 0 ltac:(lia)) as (i & Hi & Hle & Hpre & Hend).
  assert (Hpre' : forall j h', (j < i)%nat -> v !! j = Some h' -> is_none h' = false)
    by (intros j h' Hj; apply Hpre; lia).
  destruct (decide (i < Z.to_nat count)%nat) as [Hlt|Hge].
  { destruct (Hend ltac:(lia)) as (h & Hh & En). by exists i, h. }
  destruct (lookup_lt_is_Some_2 v i ltac:(lia)) as [h Hh]. exists i, h. split_and!; try done.
  destruct (is_none h) eqn:En; [done|]. exfalso.
  assert (Z.of_nat (S i) <= used v); [|lia]. apply used_prefix; [lia|].
  intros j h' Hj Hl. destruct (decide (j = i)) as [->|]; [congruence|]. by apply (Hpre' j h'); [lia|].
Qed.

(** ** Growing the vector *)
Definition grown (m : handle_manager) (n : Z) : handle_manager :=
  MkHm (hm_refcnt m) (hm_limit m) n (hm_count m) (vec_realloc (hm_vector m) n).
Lemma vec_realloc_grow v n :
  Z.of_nat (length v) <= n -> vec_realloc v n = v ++ replicate (Z.to_nat n - length v) no_handle.
Proof. intros. unfold vec_realloc. by rewrite take_ge by lia. Qed.
Lemma slot_grown v n i : (v ++ replicate n no_handle) !! i ≫= live = v !! i ≫= live.
Proof.
  destruct (decide (i < length v)%nat); [by rewrite lookup_app_l|].
  rewrite lookup_app_r, (lookup_ge_None_2 v) by lia.
  destruct (decide (i - length v < n)%nat); [by rewrite lookup_replicate_2 by lia|].
  by rewrite lookup_ge_None_2 by (rewrite length_replicate; lia).
Qed.
Lemma held_set_man s m o :
  held (set_man s m) o = held s o + cnt o (owner <$> hm_vector m) - cnt o (owner <$> hm_vector (k_man s)).
Proof. unfold held, fs_owners. cbn. lia. Qed.
Lemma grown_ok s n :
  kst_ok s -> hm_alloc (k_man s) <= n < 2 ^ 31 ->
  let s' := set_man s (grown (k_man s) n) in
  kst_ok s' /\ (forall i, slot s' i = slot s i) /\ (forall o, balance s' o = balance s o).
Proof.
  intros Hok Hn s'. pose proof (ok_alloc _ Hok) as Ha.
  assert (Hv : hm_vector (k_man s') = hm_vector (k_man s) ++ replicate (Z.to_nat n - length (hm_vector (k_man s))) no_handle).
  { cbn. apply vec_realloc_grow. lia. }
  assert (Hb : forall o, balance s' o = balance s o).
  { intros o. unfold balance. rewrite (held_set_man s (grown (k_man s) n)).
    change (hm_vector (grown (k_man s) n)) with (hm_vector (k_man s')). rewrite Hv, fmap_app, cnt_app, fmap_replicate.
    change (owner no_handle) with (@None nat). rewrite cnt_none. unfold refcount. cbn. lia. }
  split; [|split; [|done]].
  - split; rewrite ?Hv; try apply Hok.
    + cbn. rewrite length_app, length_replicate. lia.
    + apply Forall_app. split; [apply Hok|]. apply Forall_replicate. done.
    + cbn. lia.
    + rewrite used_app, used_none. pose proof (ok_count _ Hok). cbn. lia.
    + intros o. rewrite Hb. apply Hok.
  - intros i. unfold slot. rewrite Hv. apply slot_grown.
Qed.

(** ** Changing one descriptor *)
(** [s'] is [s] with descriptor [i] set to [h], in order again; the references that
    others own are the same. *)
Record upd (s s' : kst) (i : nat) (h : option handle) : Prop := {
  u_ok : kst_ok s';
  u_slot : forall j, slot s' j = if decide (j = i) then h else slot s j;
  u_balance : forall o, balance s' o = balance s o;
  u_fs : fs_owners s' = fs_owners s;
  u_limit : hm_limit (k_man s') = hm_limit (k_man s);
}.
(** A handle that may be stored: of a valid type and alive. *)
Definition storable (s : kst) (h : handle) : Prop :=
  is_none h = false /\ h_type h < HANDLE_TYPE_FCOUNT /\ 0 < refcount s (h_ptr h).

Lemma validate_ok `{KernelEnv} m s Q E :
  Forall (fun h => h_type h < HANDLE_TYPE_FCOUNT) (hm_vector m) -> Q tt s -> kwp (validate_handle_manager m) s Q E.
Proof.
  intros Hf HQ. apply kwp_check; [|done]. apply forallb_forall. intros h Hin.
  apply Z.ltb_lt. rewrite Forall_forall in Hf. apply Hf. apply list_elem_of_In in Hin.
  apply elem_of_take in Hin as (i & Hi & _). by apply list_elem_of_In, (list_elem_of_lookup_2 _ i).
Qed.
Lemma kwp_handle_incref h s Q E :
  storable s h -> Q tt (set_refs s (<[h_ptr h := refcount s (h_ptr h) + 1]> (k_refs s))) -> kwp (handle_incref h) s Q E.
Proof.
  intros (Hn & Ht & Hr) HQ. apply kwp_bind, kwp_check; [lia|]. rewrite Hn. by apply kwp_incref.
Qed.
Lemma kwp_handle_decref h s Q E :
  storable s h -> Q tt (set_refs s (<[h_ptr h := refcount s (h_ptr h) - 1]> (k_refs s))) -> kwp (handle_decref h) s Q E.
Proof.
  intros (Hn & Ht & Hr) HQ. apply kwp_bind, kwp_check; [lia|]. rewrite Hn. by apply kwp_decref.
Qed.

(** Replacing entry [i] of the vector, with the reference counts adjusted by [d]. *)
Lemma replace_ok s i old new count refs :
  kst_ok s -> hm_vector (k_man s) !! i = Some old -> h_type new < HANDLE_TYPE_FCOUNT ->
  used (<[i := new]> (hm_vector (k_man s))) <= count <= hm_alloc (k_man s) ->
  (forall o, default 0 (refs !! o) = refcount s o - one o (owner old) + one o (owner new)) ->
  let m := MkHm (hm_refcnt (k_man s)) (hm_limit (k_man s)) (hm_alloc (k_man s)) count (<[i := new]> (hm_vector (k_man s))) in
  upd s (set_refs (set_man s m) refs) i (live new).
Proof.
  intros Hok Hi Ht Hc Hr m. set (s' := set_refs _ _).
  assert (Hb : forall o, balance s' o = balance s o).
  { intros o. unfold balance, refcount at 1, held at 1. cbn. rewrite list_fmap_insert, (cnt_insert _ _ _ (owner old)).
    - rewrite Hr. unfold held, fs_owners. cbn. lia.
    - by rewrite list_lookup_fmap, Hi. }
  split; [|..|done|done]; try done.
  - split; cbn; try apply Hok.
    + rewrite length_insert. apply Hok.
    + apply Forall_insert; [apply Hok|done].
    + done.
    + intros o. rewrite Hb. apply Hok.
  - intros j. unfold slot. cbn. case_decide as Ej.
    + subst j. rewrite list_lookup_insert_eq; [done|]. by eapply lookup_lt_Some.
    + by rewrite list_lookup_insert_ne.
Qed.
(** Close a goal about the reference counts after some updates. *)
Ltac refs_lia := unfold refcount in *; cbn in *; rewrite ?refs_insert in *; repeat case_decide; simplify_eq;
  repeat match goal with H : h_ptr _ = h_ptr _ |- _ => rewrite H in *; clear H end; try done; first [lia | congruence].
Lemma upd_trans s s1 s' i h :
  (forall j, slot s1 j = slot s j) -> (forall o, balance s1 o = balance s o) -> fs_owners s1 = fs_owners s ->
  hm_limit (k_man s1) = hm_limit (k_man s) -> upd s1 s' i h -> upd s s' i h.
Proof.
  intros Hs Hb Hf Hl [Hok Hslot Hbal Hfs Hlim]. split; [done|..|congruence|congruence].
  - intros j. rewrite Hslot. by case_decide.
  - intros o. by rewrite Hbal.
Qed.

Section ManagerSpecs.
Context `{Env : KernelEnv}.

Lemma put_at_ok s hnd i old E :
  kst_ok s -> storable s hnd -> hm_vector (k_man s) !! i = Some old -> is_none old = true ->
  hm_count (k_man s) < hm_alloc (k_man s) ->
  kwp (put_at (k_man s) hnd i) s (fun r s' => r = Z.of_nat i /\ upd s s' i (Some hnd)) E.
Proof.
  intros Hok Hst Hi Hold Hlt. pose proof Hst as (Hn & Ht & Hr).
  assert (Hc : 0 <= hm_count (k_man s)) by (pose proof (ok_count _ Hok); pose proof (used_nonneg (hm_vector (k_man s))); lia).
  unfold put_at. apply kwp_bind, (kwp_access _ old); [done|]. apply kwp_bind, kwp_check; [done|].
  apply kwp_bind, kwp_set_man, kwp_bind, kwp_handle_incref; [done|].
  apply kwp_bind, kwp_man, kwp_bind, kwp_set_man, kwp_bind, kwp_man.
  assert (Hu : upd s (set_refs (set_man s (MkHm (hm_refcnt (k_man s)) (hm_limit (k_man s)) (hm_alloc (k_man s))
     (u32 (hm_count (k_man s) + 1)) (<[i := hnd]> (hm_vector (k_man s)))))
     (<[h_ptr hnd := refcount s (h_ptr hnd) + 1]> (k_refs s))) i (Some hnd)).
  { replace (Some hnd) with (live hnd) by (unfold live; by rewrite Hn).
    apply replace_ok with (old := old); try done.
    - pose proof (ok_count _ Hok). pose proof (ok_size _ Hok). rewrite (used_insert _ _ _ _ Hi), Hold, Hn.
      rewrite u32_small; lia.
    - intros o. unfold owner, one. rewrite Hold, Hn. refs_lia. }
  apply kwp_bind, validate_ok; [exact (ok_types _ (u_ok _ _ _ _ Hu))|]. by apply kwp_ret.
Qed.

(** The vector after a successful attempt to grow it. *)
Lemma vec_grow_ok m n n' s Q E :
  (vec_alloc_ok n = true -> Q (grown m n) s) -> (vec_alloc_ok n' = true -> Q (grown m n') s) ->
  (vec_alloc_ok n = false -> vec_alloc_ok n' = false -> E HE_BADALLOC s) -> kwp (vec_grow m n n') s Q E.
Proof.
  intros H1 H2 H3. unfold vec_grow. destruct (vec_alloc_ok n); [by apply kwp_ret, H1|].
  destruct (vec_alloc_ok n'); [by apply kwp_ret, H2|]. by apply kwp_throw, H3.
Qed.

Definition put_post (s : kst) (hnd : handle) (fd : Z) (s' : kst) : Prop :=
  exists i, fd = Z.of_nat i /\ slot s i = None /\ (forall j, (j < i)%nat -> slot s j <> None)
    /\ upd s s' i (Some hnd).
(** Nothing has changed; the table is full, or memory could not be allocated. *)
Definition put_exn (s : kst) (e : hexn) (s' : kst) : Prop :=
  s' = s /\ (e = HE_BADALLOC_HANDLE (hm_limit (k_man s)) /\ hm_limit (k_man s) <= hm_count (k_man s)
             \/ e = HE_BADALLOC /\ vec_alloc_ok (hm_alloc (k_man s) + 1) = false).

Lemma slot_none s i h : hm_vector (k_man s) !! i = Some h -> (slot s i = None <-> is_none h = true).
Proof. intros Hh. unfold slot, live. rewrite Hh. cbn. by destruct (is_none h). Qed.

(** [handle_put] once there is room. *)
Lemma put_room s hnd E :
  kst_ok s -> storable s hnd -> hm_count (k_man s) < hm_alloc (k_man s) ->
  kwp (result ← klift (find_free (Z.to_nat (hm_count (k_man s))) (hm_vector (k_man s)) 0); put_at (k_man s) hnd result)
    s (put_post s hnd) E.
Proof.
  intros Hok Hst Hlt. pose proof (ok_alloc _ Hok) as Ha.
  destruct (find_free_lowest (hm_vector (k_man s)) (hm_count (k_man s))) as (i & old & Hf & Hi & Hn & Hlow);
    [apply Hok|lia|].
  apply kwp_bind. apply (kwp_lift _ i); [done|].
  eapply kwp_mono; [by apply (put_at_ok s hnd i old)| |intros e s' He; exact He].
  intros fd s' [-> Hu]. exists i. split_and!; try done.
  - by apply (slot_none s i old).
  - intros j Hj. assert (Hjl : (j < length (hm_vector (k_man s)))%nat) by (apply lookup_lt_Some in Hi; lia).
    destruct (lookup_lt_is_Some_2 _ _ Hjl) as [h' Hh']. rewrite (slot_none _ _ _ Hh'), (Hlow j h'); done.
Qed.

Lemma put_ok s hnd : kst_ok s -> storable s hnd -> kwp (handle_put hnd) s (put_post s hnd) (put_exn s).
Proof.
  intros Hok Hst. pose proof (ok_count _ Hok) as Hc. pose proof (ok_alloc _ Hok) as Ha.
  pose proof (ok_limit _ Hok) as Hl. pose proof (ok_size _ Hok) as Hs.
  unfold handle_put. apply kwp_bind, kwp_man, kwp_bind, kwp_check; [by rewrite (proj1 Hst)|].
  apply kwp_bind, validate_ok; [apply Hok|]. apply kwp_bind.
  destruct (Z.eqb_spec (hm_count (k_man s)) (hm_alloc (k_man s))) as [Efull|Efree].
  2:{ apply kwp_ret, kwp_bind, kwp_set_man. replace (set_man s (k_man s)) with s by (by destruct s).
      apply put_room; [done..|lia]. }
  assert (Hgrow : forall n, hm_alloc (k_man s) < n -> n < 2 ^ 31 ->
    kwp (kset_man (grown (k_man s) n);;
         result ← klift (find_free (Z.to_nat (hm_count (grown (k_man s) n))) (hm_vector (grown (k_man s) n)) 0);
         put_at (grown (k_man s) n) hnd result) s (put_post s hnd) (put_exn s)).
  { intros n Hn1 Hn2. apply kwp_bind, kwp_set_man.
    destruct (grown_ok s n Hok ltac:(lia)) as (Hok' & Hslot & Hbal).
    eapply kwp_mono; [apply (put_room (set_man s (grown (k_man s) n)) hnd); [done|done|cbn; lia]| |intros e s' He; exact He].
    intros fd s' (i & -> & Hnone & Hlow & Hu). exists i. split_and!; [done| | |].
    - by rewrite <- Hslot.
    - intros j Hj. rewrite <- Hslot. by apply Hlow.
    - by eapply upd_trans. }
  rewrite (u32_small (hm_alloc (k_man s) + 1)), (u32_small (hm_alloc (k_man s) * 2)) by lia.
  set (new_alloc := if hm_alloc (k_man s) * 2 =? 0 then 16 else hm_alloc (k_man s) * 2).
  assert (Hnew : hm_alloc (k_man s) < new_alloc) by (subst new_alloc; destr_if; lia).
  destruct (Z.ltb_spec (hm_limit (k_man s)) new_alloc).
  - destruct (Z.leb_spec (hm_limit (k_man s)) (hm_alloc (k_man s))).
    { apply kwp_throw. split; [done|]. left. split; [done|lia]. }
    apply vec_grow_ok; intros; [apply Hgrow; lia..|]. split; [done|]. by right.
  - apply vec_grow_ok; intros; [apply Hgrow; lia..|]. split; [done|]. by right.
Qed.

(** ** Looking up and closing *)
Definition with_ref (s : kst) (o : nat) : kst := set_refs s (<[o := refcount s o + 1]> (k_refs s)).
Lemma with_ref_balance s o o' : balance (with_ref s o) o' = balance s o' + one o' (Some o).
Proof.
  unfold balance, with_ref. rewrite refcount_set. unfold held, fs_owners, one. cbn.
  destruct (decide (o' = o)) as [->|]; [rewrite decide_True by done|rewrite decide_False by congruence]; lia.
Qed.
Lemma with_ref_ok s o : kst_ok s -> kst_ok (with_ref s o).
Proof.
  intros Hok. split; try apply Hok. intros o'. rewrite with_ref_balance.
  pose proof (ok_refs _ Hok o'). pose proof (one_nonneg o' (Some o)). lia.
Qed.
(** Dropping a reference that others own. *)
Lemma drop_ref_ok s o :
  kst_ok s -> 0 < balance s o ->
  let s' := set_refs s (<[o := refcount s o - 1]> (k_refs s)) in
  0 < refcount s o /\ kst_ok s' /\ (forall o', balance s' o' = balance s o' - one o' (Some o)).
Proof.
  intros Hok Hb s'. assert (Hr : 0 < refcount s o).
  { unfold balance, held in Hb. pose proof (cnt_nonneg o (owner <$> hm_vector (k_man s))).
    pose proof (cnt_nonneg o (fs_owners s)). lia. }
  assert (Hbal : forall o', balance s' o' = balance s o' - one o' (Some o)).
  { intros o'. unfold balance, s'. rewrite refcount_set. unfold held, fs_owners, one. cbn.
    destruct (decide (o' = o)) as [->|]; [rewrite decide_True by done|rewrite decide_False by congruence]; lia. }
  split; [done|]. split; [|done]. split; try apply Hok. intros o'. rewrite Hbal. pose proof (ok_refs _ Hok o').
  unfold one. case_decide; [simplify_eq; lia|lia].
Qed.

Lemma slot_storable s i h : kst_ok s -> slot s i = Some h -> storable s h.
Proof.
  intros Hok Hs. pose proof (held_live _ _ Hok (slot_held _ _ _ Hs)) as Hr. unfold slot, live in Hs.
  destruct (hm_vector (k_man s) !! i) as [h'|] eqn:E; cbn in Hs; [|done].
  destruct (is_none h') eqn:En; [done|]. simplify_eq. split; [done|]. split; [|done].
  pose proof (ok_types _ Hok) as Ht. rewrite Forall_lookup in Ht. by eapply Ht.
Qed.
Lemma slot_beyond s fd : kst_ok s -> 0 <= fd -> hm_alloc (k_man s) <= fd -> slot s (Z.to_nat fd) = None.
Proof.
  intros Hok Hfd Hle. rewrite (ok_alloc _ Hok) in Hle. unfold slot. by rewrite lookup_ge_None_2 by lia.
Qed.
Lemma vector_lookup s fd : kst_ok s -> 0 <= fd < hm_alloc (k_man s) -> is_Some (hm_vector (k_man s) !! Z.to_nat fd).
Proof. intros Hok Hfd. rewrite (ok_alloc _ Hok) in Hfd. apply lookup_lt_is_Some_2. lia. Qed.

Definition unset_exn (fd : Z) : hexn :=
  HE_INVALID_HANDLE fd FUNDEFINED HANDLE_TYPE_FNONE HANDLE_TYPE_FNONE ILLHND_FUNSET.
Lemma handle_get_ok s fd :
  kst_ok s -> 0 <= fd ->
  kwp (handle_get fd) s (fun h s' => slot s (Z.to_nat fd) = Some h /\ s' = with_ref s (h_ptr h))
    (fun e s' => s' = s /\ slot s (Z.to_nat fd) = None /\ e = unset_exn fd).
Proof.
  intros Hok Hfd. unfold handle_get. replace (fd <? 0) with false by lia. apply kwp_bind, kwp_man.
  destruct (Z.leb_spec (hm_alloc (k_man s)) fd).
  { apply kwp_throw. split_and!; [done|by apply slot_beyond|done]. }
  destruct (vector_lookup s fd Hok ltac:(lia)) as [h Hh]. apply kwp_bind, (kwp_access _ h); [done|].
  apply kwp_bind. pose proof (slot_none s _ h Hh) as Hsn. destruct (is_none h) eqn:En.
  - pose proof (ok_types _ Hok) as Ht. rewrite Forall_lookup in Ht. specialize (Ht _ _ Hh). cbn in Ht.
    apply kwp_bind, kwp_check; [lia|]. rewrite En. apply kwp_ret, kwp_throw. split_and!; [done|by apply Hsn|done].
  - assert (Hs : slot s (Z.to_nat fd) = Some h) by (unfold slot, live; rewrite Hh; cbn; by rewrite En).
    pose proof (slot_storable _ _ _ Hok Hs) as Hst. apply kwp_handle_incref; [done|].
    apply kwp_bind, kwp_check; [destruct Hst as (_ & ? & _); lia|]. by apply kwp_ret.
Qed.

Lemma upd_refl s i : kst_ok s -> slot s i = None -> upd s s i None.
Proof. intros Hok Hs. split; [done| |done|done|done]. intros j. case_decide; congruence. Qed.
Lemma close_entry s i h :
  kst_ok s -> hm_vector (k_man s) !! i = Some h -> is_none h = false ->
  let s1 := set_man s (set_vector (k_man s)
    (<[i := MkHandle HANDLE_TYPE_FNONE (h_flag h) (h_ptr h)]> (hm_vector (k_man s)))) in
  upd s (set_refs s1 (<[h_ptr h := refcount s1 (h_ptr h) - 1]> (k_refs s1))) i None.
Proof.
  intros Hok Hi En s1. apply (replace_ok s i h (MkHandle HANDLE_TYPE_FNONE (h_flag h) (h_ptr h)) (hm_count (k_man s)));
    [done|done|done| |].
  - rewrite (used_insert _ _ _ _ Hi), En. cbn. pose proof (ok_count _ Hok). lia.
  - intros o. unfold owner, one. rewrite En. cbn. subst s1. refs_lia.
Qed.
Lemma close_none s i h :
  kst_ok s -> hm_vector (k_man s) !! i = Some h -> is_none h = true ->
  upd s (set_man s (set_vector (k_man s)
    (<[i := MkHandle HANDLE_TYPE_FNONE (h_flag h) (h_ptr h)]> (hm_vector (k_man s))))) i None.
Proof.
  intros Hok Hi En.
  assert (E : MkHandle HANDLE_TYPE_FNONE (h_flag h) (h_ptr h) = h).
  { apply Z.eqb_eq in En. destruct h. cbn in *. by subst. }
  rewrite E, list_insert_id by done. unfold set_vector, set_man. destruct s as [[] ? ? ? ? ? ?]. cbn in *.
  apply upd_refl; [done|]. by apply (slot_none _ _ h).
Qed.
Lemma close_ok s fd :
  kst_ok s -> 0 <= fd ->
  kwp (handle_close fd) s
    (fun b s' => b = bool_decide (slot s (Z.to_nat fd) <> None) /\ upd s s' (Z.to_nat fd) None) (fun _ _ => False).
Proof.
  intros Hok Hfd. unfold handle_close. replace (fd <? 0) with false by lia. apply kwp_bind, kwp_man.
  apply kwp_bind, validate_ok; [apply Hok|].
  destruct (Z.leb_spec (hm_alloc (k_man s)) fd).
  { pose proof (slot_beyond s fd Hok Hfd ltac:(done)) as E. apply kwp_ret. rewrite bool_decide_false by naive_solver.
    split; [done|]. by apply upd_refl. }
  destruct (vector_lookup s fd Hok ltac:(lia)) as [h Hh]. apply kwp_bind, (kwp_access _ h); [done|].
  apply kwp_bind, kwp_set_man, kwp_bind, kwp_man. pose proof (slot_none s _ h Hh) as Hsn.
  destruct (is_none h) eqn:En.
  - pose proof (close_none s _ h Hok Hh En) as Hu.
    apply kwp_bind, validate_ok; [exact (ok_types _ (u_ok _ _ _ _ Hu))|].
    assert (Ht : h_type h = 0) by (by apply Z.eqb_eq).
    apply kwp_bind, kwp_bind, kwp_check; [by rewrite Ht|]. rewrite En. apply kwp_ret, kwp_ret.
    rewrite bool_decide_false by naive_solver. done.
  - pose proof (close_entry s _ h Hok Hh En) as Hu. cbv zeta in Hu.
    apply kwp_bind, validate_ok; [exact (ok_types _ (u_ok _ _ _ _ Hu))|].
    assert (Hs : slot s (Z.to_nat fd) = Some h) by (unfold slot, live; rewrite Hh; cbn; by rewrite En).
    apply kwp_bind, kwp_handle_decref; [exact (slot_storable _ _ _ Hok Hs)|]. apply kwp_ret.
    rewrite Hs, bool_decide_true by done. done.
Qed.

(** ** Storing at a given place *)
Lemma alloc_for_ok hint : 0 <= hint < 2 ^ 31 -> forall fuel a, 0 < a < 2 ^ 32 ->
  hint < a * 2 ^ Z.of_nat fuel ->
  exists r, alloc_for (S fuel) a hint = Ret r /\ hint < r /\ a <= r < 2 ^ 32.
Proof.
  intros Hh. induction fuel as [|fuel IH]; intros a Ha Hf; cbn [alloc_for].
  - rewrite Z.mul_1_r in Hf. replace (a <=? hint) with false by lia. exists a. split_and!; [done|lia|lia|lia].
  - destruct (Z.leb_spec a hint).
    + rewrite u32_small by lia.
      destruct (IH (a * 2)) as (r & Hr & Hlt & Hle); [lia|rewrite Nat2Z.inj_succ, Z.pow_succ_r in Hf by lia; lia|].
      exists r. split_and!; [done|lia|lia|lia].
    + exists a. split_and!; [done|lia|lia|lia].
Qed.
(** The size that the doubling loop starts from. *)
Definition first_alloc (a : Z) : Z := if u32 (a * 2) =? 0 then 16 else u32 (a * 2).
Lemma first_alloc_ok a hint :
  0 <= a < 2 ^ 31 -> 0 <= hint < 2 ^ 31 ->
  exists r, alloc_for ALLOC_FUEL (first_alloc a) hint = Ret r /\ hint < r /\ a < r < 2 ^ 32.
Proof.
  intros Ha Hh. unfold first_alloc. rewrite u32_small by lia.
  assert (Hb : exists b, (if a * 2 =? 0 then 16 else a * 2) = b /\ 0 < b < 2 ^ 32 /\ a < b)
    by (eexists; split; [done|]; destr_if; lia).
  destruct Hb as (b & -> & Hb & Hab).
  destruct (alloc_for_ok hint Hh 32 b Hb) as (r & Hr & Hlt & Hle); [change (Z.of_nat 32) with 32; lia|].
  exists r. split_and!; [done|lia|lia|lia].
Qed.

Lemma storable_mono s s' h : storable s h -> refcount s (h_ptr h) <= refcount s' (h_ptr h) -> storable s' h.
Proof. intros (? & ? & ?) ?. split_and!; [done..|lia]. Qed.

(** The store of [handle_putinto] into an existing entry. *)
Lemma putinto_store s hnd i old E :
  kst_ok s -> storable s hnd -> hm_vector (k_man s) !! i = Some old ->
  (is_none old = true -> hm_count (k_man s) < hm_alloc (k_man s)) ->
  kwp (kset_man (set_vector (k_man s) (<[i := hnd]> (hm_vector (k_man s))));;
       handle_incref hnd;;
       m ← kman;
       (if is_none old then kset_man (set_count m (u32 (hm_count m + 1))) else mret tt);;
       m ← kman;
       validate_handle_manager m;;
       handle_decref old) s (fun _ s' => upd s s' i (Some hnd)) E.
Proof.
  intros Hok Hst Hi Hfree. pose proof Hst as (Hn & Ht & Hr).
  pose proof (ok_count _ Hok) as Hc. pose proof (ok_size _ Hok) as Hs. pose proof (used_nonneg (hm_vector (k_man s))) as Hu0.
  apply kwp_bind, kwp_set_man, kwp_bind, kwp_handle_incref; [done|]. apply kwp_bind, kwp_man, kwp_bind.
  replace (Some hnd) with (live hnd) by (unfold live; by rewrite Hn).
  assert (Hty : Forall (fun h => h_type h < HANDLE_TYPE_FCOUNT) (<[i := hnd]> (hm_vector (k_man s))))
    by (apply Forall_insert; [apply Hok|done]).
  destruct (is_none old) eqn:Eo.
  - apply kwp_set_man, kwp_bind, kwp_man, kwp_bind, validate_ok; [done|].
    assert (h_type old = 0) as Hot by (by apply Z.eqb_eq).
    apply kwp_bind, kwp_check; [by rewrite Hot|]. rewrite Eo. apply kwp_ret.
    apply (replace_ok s i old hnd (u32 (hm_count (k_man s) + 1))); [done..| |].
    + rewrite (used_insert _ _ _ _ Hi), Eo, Hn. specialize (Hfree eq_refl). rewrite u32_small; lia.
    + intros o. unfold owner, one. rewrite Eo, Hn. refs_lia.
  - apply kwp_ret, kwp_bind, kwp_man, kwp_bind, validate_ok; [done|].
    assert (Hso : slot s i = Some old) by (unfold slot, live; rewrite Hi; cbn; by rewrite Eo).
    pose proof (slot_storable _ _ _ Hok Hso) as Hsto.
    apply kwp_handle_decref.
    { eapply storable_mono; [exact Hsto|]. refs_lia. }
    apply (replace_ok s i old hnd (hm_count (k_man s))); [done..| |].
    + rewrite (used_insert _ _ _ _ Hi), Eo, Hn. lia.
    + intros o. unfold owner, one. rewrite Eo, Hn. refs_lia.
Qed.

(** The entry count has room for another handle. *)
Definition has_room (s : kst) (fd : Z) : Prop :=
  slot s (Z.to_nat fd) = None -> hm_alloc (k_man s) <= fd \/ hm_count (k_man s) < hm_alloc (k_man s).
Definition putinto_exn (s : kst) (dfd : Z) (e : hexn) (s' : kst) : Prop :=
  s' = s /\ (e = HE_INVALID_HANDLE dfd FUNDEFINED HANDLE_TYPE_FNONE HANDLE_TYPE_FNONE ILLHND_FBOUND
                /\ hm_limit (k_man s) <= dfd + 1
             \/ e = HE_BADALLOC /\ vec_alloc_ok (dfd + 1) = false).
Lemma putinto_ok s hnd dfd :
  kst_ok s -> storable s hnd -> 0 <= dfd < 2 ^ 31 -> has_room s dfd ->
  kwp (handle_putinto dfd hnd) s (fun _ s' => upd s s' (Z.to_nat dfd) (Some hnd)) (putinto_exn s dfd).
Proof.
  intros Hok Hst Hd Hroom. unfold handle_putinto. apply kwp_bind, kwp_man, kwp_bind, kwp_check; [by rewrite (proj1 Hst)|].
  replace (dfd <? 0) with false by lia. apply kwp_bind, validate_ok; [apply Hok|]. apply kwp_bind.
  pose proof (ok_count _ Hok) as Hc. pose proof (ok_alloc _ Hok) as Ha. pose proof (ok_limit _ Hok) as Hl.
  pose proof (ok_size _ Hok) as Hs.
  destruct (Z.leb_spec (hm_alloc (k_man s)) dfd) as [Hout|Hin].
  2:{ apply kwp_ret. destruct (vector_lookup s dfd Hok ltac:(lia)) as [old Hold].
      apply kwp_bind, (kwp_access _ old); [done|]. apply putinto_store; [done..|].
      intros En. destruct Hroom as [|]; [by apply (slot_none s _ old)|lia|lia]. }
  assert (Hgrow : forall n, dfd < n < 2 ^ 31 ->
    kwp (old_hnd ← klift (access (hm_vector (grown (k_man s) n) !! Z.to_nat dfd));
         kset_man (set_vector (grown (k_man s) n) (<[Z.to_nat dfd := hnd]> (hm_vector (grown (k_man s) n))));;
         handle_incref hnd;;
         m ← kman;
         (if is_none old_hnd then kset_man (set_count m (u32 (hm_count m + 1))) else mret tt);;
         m ← kman;
         validate_handle_manager m;;
         handle_decref old_hnd) s (fun _ s' => upd s s' (Z.to_nat dfd) (Some hnd)) (putinto_exn s dfd)).
  { intros n Hn. destruct (grown_ok s n Hok ltac:(lia)) as (Hok' & Hslot & Hbal).
    destruct (vector_lookup _ dfd Hok') as [old Hold]; [cbn; lia|].
    apply kwp_bind, (kwp_access _ old); [done|].
    eapply kwp_mono; [apply (putinto_store (set_man s (grown (k_man s) n)) hnd (Z.to_nat dfd) old); [done..|cbn; lia]| |].
    - intros u s' Hu. by eapply upd_trans.
    - intros e s' He. exact He. }
  destruct (first_alloc_ok (hm_alloc (k_man s)) dfd) as (r & Hr & Hlt & Hra); [lia|lia|].
  apply kwp_bind, (kwp_lift _ r); [done|].
  destruct (Z.ltb_spec (hm_limit (k_man s)) r).
  - destruct (Z.leb_spec (hm_limit (k_man s)) (dfd + 1)).
    { apply kwp_throw. split; [done|]. by left. }
    apply kwp_bind, kwp_check; [lia|]. apply vec_grow_ok; intros; [apply Hgrow; lia..|]. split; [done|]. by right.
  - apply kwp_bind, kwp_check; [lia|]. apply vec_grow_ok; intros; [apply Hgrow; lia..|]. split; [done|]. by right.
Qed.

(** [handle_putat]: the lowest free entry from [hint] on. *)
Definition putat_post (s : kst) (hnd : handle) (hint fd : Z) (s' : kst) : Prop :=
  exists i, fd = Z.of_nat i /\ hint <= fd /\ slot s i = None
    /\ (forall j, hint <= Z.of_nat j < fd -> slot s j <> None) /\ upd s s' i (Some hnd).
Definition putat_exn (s : kst) (hint : Z) (e : hexn) (s' : kst) : Prop :=
  s' = s /\ ((exists n, e = HE_BADALLOC_HANDLE n) /\ hm_limit (k_man s) <= hint
             \/ e = HE_BADALLOC /\ vec_alloc_ok (hint + 1) = false).
(** There is an entry to take: behind the vector, or free in it. *)
Definition can_putat (s : kst) (hint : Z) : Prop :=
  hm_alloc (k_man s) <= hint
  \/ hm_count (k_man s) < hm_alloc (k_man s) /\ exists i, hint <= i < hm_alloc (k_man s) /\ slot s (Z.to_nat i) = None.

Lemma putat_room s hnd hint k E :
  kst_ok s -> storable s hnd -> 0 <= hint -> hm_count (k_man s) < hm_alloc (k_man s) ->
  hint <= k < hm_alloc (k_man s) -> slot s (Z.to_nat k) = None ->
  kwp (result ← klift (find_free (Z.to_nat (hm_alloc (k_man s) - hint)) (hm_vector (k_man s)) (Z.to_nat hint));
       put_at (k_man s) hnd result) s (putat_post s hnd hint) E.
Proof.
  intros Hok Hst Hh Hlt Hk Hslot. pose proof (ok_alloc _ Hok) as Ha.
  destruct (find_free_ok (Z.to_nat (hm_alloc (k_man s) - hint)) (hm_vector (k_man s)) (Z.to_nat hint))
    as (i & Hf & Hi & Hpre & Hend); [lia|].
  destruct (vector_lookup s k Hok ltac:(lia)) as [hk Hhk]. apply (slot_none s _ hk Hhk) in Hslot.
  assert (Hik : (i <= Z.to_nat k)%nat).
  { destruct (decide (i <= Z.to_nat k)%nat) as [|Hn]; [done|]. specialize (Hpre (Z.to_nat k) hk ltac:(lia) Hhk). congruence. }
  destruct (Hend ltac:(lia)) as (old & Hold & En).
  apply kwp_bind, (kwp_lift _ i); [done|].
  eapply kwp_mono; [by apply (put_at_ok s hnd i old)| |intros e s' He; exact He].
  intros fd s' [-> Hu]. exists i. split_and!; [done|lia|by apply (slot_none s i old)| |done].
  intros j Hj. destruct (lookup_lt_is_Some_2 (hm_vector (k_man s)) j) as [h' Hh'];
    [apply lookup_lt_Some in Hold; lia|]. rewrite (slot_none _ _ _ Hh'), (Hpre j h'); [done|lia|done].
Qed.
Lemma putat_ok s hnd hint :
  kst_ok s -> storable s hnd -> 0 <= hint -> can_putat s hint ->
  kwp (handle_putat hnd hint) s (putat_post s hnd hint) (putat_exn s hint).
Proof.
  intros Hok Hst Hh Hcan. unfold handle_putat. apply kwp_bind, kwp_man, kwp_bind, kwp_check; [by rewrite (proj1 Hst)|].
  apply kwp_bind, validate_ok; [apply Hok|]. apply kwp_bind.
  pose proof (ok_count _ Hok) as Hc. pose proof (ok_alloc _ Hok) as Ha. pose proof (ok_limit _ Hok) as Hl.
  pose proof (ok_size _ Hok) as Hs.
  destruct (Z.leb_spec (hm_alloc (k_man s)) hint) as [Hout|Hin].
  2:{ destruct Hcan as [|(Hlt & i & Hi & Hslot)]; [lia|]. apply kwp_ret, kwp_bind, kwp_set_man.
      replace (set_man s (k_man s)) with s by (by destruct s). by apply (putat_room s hnd hint i). }
  destruct (Z.leb_spec (hm_limit (k_man s)) hint).
  { apply kwp_throw. split; [done|]. left. eauto. }
  assert (Hgrow : forall n, hint < n < 2 ^ 31 ->
    kwp (kset_man (grown (k_man s) n);;
         result ← klift (find_free (Z.to_nat (hm_alloc (grown (k_man s) n) - hint)) (hm_vector (grown (k_man s) n)) (Z.to_nat hint));
         put_at (grown (k_man s) n) hnd result) s (putat_post s hnd hint) (putat_exn s hint)).
  { intros n Hn. destruct (grown_ok s n Hok ltac:(lia)) as (Hok' & Hslot & Hbal). apply kwp_bind, kwp_set_man.
    eapply kwp_mono; [apply (putat_room (set_man s (grown (k_man s) n)) hnd hint hint);
      [done|done|done|cbn; lia|cbn; lia|rewrite Hslot; by apply slot_beyond]| |intros e s' He; exact He].
    intros fd s' (i & -> & Hle & Hnone & Hlow & Hu). exists i. split_and!; [done|done| | |by eapply upd_trans].
    - by rewrite <- Hslot.
    - intros j Hj. rewrite <- Hslot. by apply Hlow. }
  destruct (first_alloc_ok (hm_alloc (k_man s)) hint) as (r & Hr & Hlt & Hra); [lia|lia|].
  apply kwp_bind, (kwp_lift _ r); [done|]. apply kwp_bind, kwp_check; [destr_if; lia|].
  rewrite (u32_small (hint + 1)) by lia.
  apply vec_grow_ok; intros; [apply Hgrow; destr_if; lia|apply Hgrow; lia|]. split; [done|]. by right.
Qed.

(** ** Duplicating *)
Lemma dup_flags_storable s h f : storable s h -> storable s (dup_flags h f).
Proof. done. Qed.
(** A handle is fetched, [m] stores it in a further place, and the reference of
    [handle_get] is dropped, also when [m] throws. *)
Lemma dup_frame {A} s fd flags (m : handle -> K A) (post : A -> option nat) (P : A -> Prop) (R : hexn -> Prop) h :
  kst_ok s -> 0 <= fd -> slot s (Z.to_nat fd) = Some h ->
  (forall s1, s1 = with_ref s (h_ptr h) -> kst_ok s1 -> storable s1 (dup_flags h flags) ->
     kwp (m (dup_flags h flags)) s1
       (fun a s2 => P a /\ exists i, post a = Some i /\ upd s1 s2 i (Some (dup_flags h flags)))
       (fun e s2 => s2 = s1 /\ R e)) ->
  kwp (hnd ← handle_get fd; kfinally (m (dup_flags hnd flags)) (handle_decref (dup_flags hnd flags))) s
    (fun a s' => P a /\ exists i, post a = Some i /\ upd s s' i (Some (dup_flags h flags)))
    (fun e s' => s' = s /\ R e).
Proof.
  intros Hok Hfd Hslot Hm. pose proof (slot_storable _ _ _ Hok Hslot) as Hst. apply kwp_bind.
  eapply kwp_mono; [by apply (handle_get_ok s fd)| |intros e s' (_ & E & _); congruence].
  intros h' s1 [E ->]. replace h' with h by congruence. clear h' E. apply kwp_finally.
  assert (Hst1 : storable (with_ref s (h_ptr h)) h).
  { destruct Hst as (? & ? & ?). split_and!; [done..|]. unfold with_ref. rewrite refcount_set, decide_True by done. lia. }
  eapply kwp_mono; [apply (Hm _ eq_refl); [by apply with_ref_ok|done]|..].
  - intros a s2 (HP & i & Hi & Hu).
    assert (Hb : 0 < balance s2 (h_ptr h)).
    { rewrite (u_balance _ _ _ _ Hu), with_ref_balance. unfold one. rewrite decide_True by done.
      pose proof (ok_refs _ Hok (h_ptr h)). lia. }
    destruct (drop_ref_ok s2 (h_ptr h) (u_ok _ _ _ _ Hu) Hb) as (Hr & Hok3 & Hbal3).
    apply kwp_handle_decref; [destruct Hst as (? & ? & ?); by split_and!|].
    split; [done|]. exists i. split; [done|]. destruct Hu as [Hok2 Hslot2 Hbal2 Hfs2 Hlim2].
    split; [exact Hok3|exact Hslot2| |done|done]. intros o. cbn [dup_flags h_ptr]. rewrite Hbal3, Hbal2, with_ref_balance. lia.
  - intros e s2 [-> HR]. apply kwp_handle_decref; [done|].
    split; [|done]. apply incref_decref. apply Hst.
Qed.

Lemma dup_invalid {A} s fd (m : handle -> K A) Q (R : hexn -> kst -> Prop) :
  kst_ok s -> 0 <= fd -> slot s (Z.to_nat fd) = None -> R (unset_exn fd) s ->
  kwp (hnd ← handle_get fd; m hnd) s Q R.
Proof.
  intros Hok Hfd Hslot HR. apply kwp_bind. eapply kwp_mono; [by apply (handle_get_ok s fd)| |].
  - intros h s' [E _]. congruence.
  - intros e s' (-> & _ & ->). done.
Qed.

Definition dup_post (s : kst) (h : handle) (flags fd : Z) (s' : kst) : Prop := put_post s (dup_flags h flags) fd s'.
Lemma put_post_ref s o h fd s' : put_post (with_ref s o) h fd s' ->
  (exists i, fd = Z.of_nat i /\ slot s i = None /\ (forall j, (j < i)%nat -> slot s j <> None))
  /\ upd (with_ref s o) s' (Z.to_nat fd) (Some h).
Proof. intros (i & -> & Hn & Hlow & Hu). split; [by exists i|]. by rewrite Nat2Z.id. Qed.
Lemma dup_ok s fd flags :
  kst_ok s -> 0 <= fd ->
  kwp (handle_dup fd flags) s
    (fun fd' s' => exists h, slot s (Z.to_nat fd) = Some h /\ dup_post s h flags fd' s')
    (fun e s' => s' = s /\ (slot s (Z.to_nat fd) = None /\ e = unset_exn fd
                            \/ slot s (Z.to_nat fd) <> None /\ put_exn s e s)).
Proof.
  intros Hok Hfd. unfold handle_dup. destruct (slot s (Z.to_nat fd)) as [h|] eqn:Hslot.
  2:{ apply dup_invalid; [done..|]. split; [done|]. by left. }
  eapply kwp_mono; [apply (dup_frame s fd flags handle_put (fun a => Some (Z.to_nat a))
    (fun fd' => exists i, fd' = Z.of_nat i /\ slot s i = None /\ (forall j, (j < i)%nat -> slot s j <> None))
    (fun e => put_exn s e s) h); [done..|]|..].
  - intros s1 -> Hok1 Hst1. eapply kwp_mono; [by apply put_ok|..].
    + intros a s2 Hp. apply put_post_ref in Hp as [HP Hu]. split; [done|]. eauto.
    + intros e s2 [-> He]. split; [done|]. by split.
  - intros fd' s' ((i & -> & Hn & Hlow) & i' & [= <-] & Hu). rewrite Nat2Z.id in Hu. exists h. split; [done|].
    exists i. by split_and!.
  - intros e s' [-> He]. split; [done|]. right. by split.
Qed.

Lemma dupinto_ok s fd dfd flags :
  kst_ok s -> 0 <= fd -> 0 <= dfd < 2 ^ 31 -> has_room s dfd ->
  kwp (handle_dupinto fd dfd flags) s
    (fun _ s' => exists h, slot s (Z.to_nat fd) = Some h /\ upd s s' (Z.to_nat dfd) (Some (dup_flags h flags)))
    (fun e s' => s' = s /\ (slot s (Z.to_nat fd) = None /\ e = unset_exn fd
                            \/ slot s (Z.to_nat fd) <> None /\ putinto_exn s dfd e s)).
Proof.
  intros Hok Hfd Hd Hroom. unfold handle_dupinto. destruct (slot s (Z.to_nat fd)) as [h|] eqn:Hslot.
  2:{ apply dup_invalid; [done..|]. split; [done|]. by left. }
  eapply kwp_mono; [apply (dup_frame s fd flags (handle_putinto dfd) (fun _ => Some (Z.to_nat dfd))
    (fun _ => True) (fun e => putinto_exn s dfd e s) h); [done..|]|..].
  - intros s1 -> Hok1 Hst1. eapply kwp_mono; [by apply putinto_ok|..].
    + intros u s2 Hu. split; [done|]. eauto.
    + intros e s2 [-> He]. split; [done|]. by split.
  - intros u s' (_ & i' & [= <-] & Hu). eauto.
  - intros e s' [-> He]. split; [done|]. right. by split.
Qed.

(** ** Close-on-exec *)
Definition cloexec (h : handle) : bool := negb (Z.land (h_flag h) IO_HANDLE_FCLOEXEC =? 0).
Definition exec_keep (x : option handle) : option handle := h ← x; if cloexec h then None else Some h.
(** Some descriptors were closed. *)
Record closed_some (s s' : kst) : Prop := {
  cl_ok : kst_ok s';
  cl_balance : forall o, balance s' o = balance s o;
  cl_fs : fs_owners s' = fs_owners s;
  cl_len : length (hm_vector (k_man s')) = length (hm_vector (k_man s));
}.
Lemma exec_pass_ok E n : forall i d s,
  kst_ok s -> (i + n = length (hm_vector (k_man s)))%nat ->
  kwp (close_exec_pass n i d) s
    (fun d' s' => closed_some s s'
       /\ (forall j, slot s' j = if decide (i <= j)%nat then exec_keep (slot s j) else slot s j)
       /\ ((forall j, exec_keep (slot s j) = slot s j) -> d' = d)) E.
Proof.
  induction n as [|n IH]; intros i d s Hok Hlen; cbn [close_exec_pass].
  { apply kwp_ret. split; [by split|]. split; [|done]. intros j. case_decide; [|done].
    unfold slot. by rewrite lookup_ge_None_2 by lia. }
  apply kwp_bind, kwp_man. destruct (lookup_lt_is_Some_2 (hm_vector (k_man s)) i ltac:(lia)) as [h Hh].
  apply kwp_bind, (kwp_access _ h); [done|].
  assert (Hs : slot s i = live h) by (unfold slot; by rewrite Hh).
  destruct (is_none h || (Z.land (h_flag h) IO_HANDLE_FCLOEXEC =? 0)) eqn:Ek.
  - assert (Hk : exec_keep (slot s i) = slot s i).
    { rewrite Hs. unfold live, exec_keep, cloexec. destruct (is_none h); [done|]. cbn in *. by rewrite Ek. }
    eapply kwp_mono; [apply (IH (S i) d s Hok); lia| |intros e s' He; exact He].
    intros d' s' (Hcl & Hslot & Hd). split; [done|]. split; [|done]. intros j. rewrite Hslot.
    destruct (decide (j = i)) as [->|]; repeat case_decide; try done; lia.
  - apply orb_false_iff in Ek as [En Ef].
    pose proof (close_entry s i h Hok Hh En) as Hu. cbv zeta in Hu.
    assert (Hsl : slot s i = Some h) by (rewrite Hs; unfold live; by rewrite En).
    apply kwp_bind, kwp_set_man, kwp_bind, kwp_handle_decref; [exact (slot_storable _ _ _ Hok Hsl)|].
    set (s1 := set_refs _ _) in *.
    assert (Hl1 : length (hm_vector (k_man s1)) = length (hm_vector (k_man s))) by (cbn; apply length_insert).
    eapply kwp_mono; [apply (IH (S i) true s1 (u_ok _ _ _ _ Hu)); lia| |intros e s' He; exact He].
    intros d' s' ([Hok' Hb' Hf' Hlen'] & Hslot & _). split; [|split].
    + split; [done| |by rewrite Hf', (u_fs _ _ _ _ Hu)|congruence]. intros o. by rewrite Hb', (u_balance _ _ _ _ Hu).
    + intros j. rewrite Hslot, (u_slot _ _ _ _ Hu). destruct (decide (j = i)) as [->|].
      * rewrite decide_False, decide_True, Hsl by lia. cbn. unfold cloexec. by rewrite Ef.
      * repeat case_decide; try done; lia.
    + intros Hk. specialize (Hk i). rewrite Hsl in Hk. cbn in Hk. unfold cloexec in Hk. by rewrite Ef in Hk.
Qed.
Lemma exec_keep_idem x : exec_keep (exec_keep x) = exec_keep x.
Proof. destruct x as [h|]; cbn; [|done]. destruct (cloexec h) eqn:E; cbn; [done|]. by rewrite E. Qed.
Lemma close_exec_ok s E :
  kst_ok s ->
  kwp handle_manager_close_exec s
    (fun _ s' => kst_ok s' /\ (forall o, balance s' o = balance s o) /\ fs_owners s' = fs_owners s
                 /\ (forall i, slot s' i = exec_keep (slot s i))) E.
Proof.
  intros Hok. unfold handle_manager_close_exec. remember 1%nat as one_more eqn:E1. cbn [close_exec_loop].
  assert (Hn : forall s, kst_ok s -> (0 + Z.to_nat (hm_alloc (k_man s)) = length (hm_vector (k_man s)))%nat)
    by (intros s0 H0; rewrite (ok_alloc _ H0); lia).
  apply kwp_bind, kwp_man, kwp_bind.
  eapply kwp_mono; [apply exec_pass_ok; [done|by apply Hn]| |intros e s' He; exact He].
  intros d1 s1 ([Hok1 Hb1 Hf1 _] & Hs1 & Hd1). apply kwp_bind, kwp_man, kwp_bind, validate_ok; [apply Hok1|].
  destruct d1; [|by apply kwp_ret]. subst one_more. cbn [close_exec_loop].
  apply kwp_bind, kwp_man, kwp_bind.
  eapply kwp_mono; [apply exec_pass_ok; [done|by apply Hn]| |intros e s' He; exact He].
  intros d2 s2 ([Hok2 Hb2 Hf2 _] & Hs2 & Hd2). apply kwp_bind, kwp_man, kwp_bind, validate_ok; [apply Hok2|].
  rewrite Hd2 by (intros j; rewrite Hs1; apply exec_keep_idem). apply kwp_ret. split_and!; [done| |congruence|].
  - intros o. by rewrite Hb2.
  - intros i. rewrite Hs2, Hs1. apply exec_keep_idem.
Qed.

(** ** Managers *)
Definition clofork (h : handle) : bool := negb (Z.land (h_flag h) IO_HANDLE_FCLOFORK =? 0).
Definition fork_keep (x : option handle) : option handle := h ← x; if clofork h then None else Some h.
Definition fork_entry (h : handle) : handle :=
  if negb (is_none h) && clofork h then MkHandle HANDLE_TYPE_FNONE (h_flag h) (h_ptr h) else h.
Lemma clone_entries_ok E v : forall c s,
  used v <= c -> (forall h, h ∈ v -> is_none h = false -> storable s h) ->
  kwp (clone_entries v c) s
    (fun r s' => r.1 = fork_entry <$> v /\ r.2 - used r.1 = c - used v /\ r.2 <= c
       /\ (exists refs, s' = set_refs s refs) /\ forall o, refcount s' o = refcount s o + cnt o (owner <$> r.1)) E.
Proof.
  induction v as [|h v IH]; intros c s Hc Hst; cbn [clone_entries].
  { apply kwp_ret. split_and!; [done|cbn; lia|cbn; lia|exists (k_refs s); by destruct s|cbn; lia]. }
  rewrite used_cons in Hc.
  assert (Hst' : forall s', (forall o, refcount s o <= refcount s' o) -> forall h, h ∈ v -> is_none h = false -> storable s' h).
  { intros s' Hle h' Hin Hn. eapply storable_mono; [by apply Hst; [right|]|apply Hle]. }
  destruct (is_none h) eqn:En.
  - apply kwp_bind. eapply kwp_mono; [apply (IH c s); [lia|by apply Hst']| |intros e s' He; exact He].
    intros [v' c'] s' (Ev & Hu & Hle & Hr & Hcnt). cbn in Ev. subst v'. apply kwp_ret. cbn [fst snd fmap list_fmap].
    assert (Hfe : fork_entry h = h) by (unfold fork_entry; by rewrite En).
    rewrite Hfe, !used_cons, En. cbn [fst snd] in *. split_and!; [done|lia|lia|done|]. intros o. rewrite Hcnt. cbn [cnt].
    assert (owner h = None) as -> by (unfold owner; by rewrite En). change (one o None) with 0. lia.
  - destruct (negb (Z.land (h_flag h) IO_HANDLE_FCLOFORK =? 0)) eqn:Ef.
    + apply kwp_bind, kwp_check; [pose proof (used_nonneg v); lia|].
      apply kwp_bind. eapply kwp_mono; [apply (IH (c - 1) s); [lia|by apply Hst']| |intros e s' He; exact He].
      intros [v' c'] s' (Ev & Hu & Hle & Hr & Hcnt). cbn in Ev. subst v'. apply kwp_ret. cbn [fst snd fmap list_fmap].
      assert (Hfe : fork_entry h = MkHandle HANDLE_TYPE_FNONE (h_flag h) (h_ptr h)).
      { unfold fork_entry, clofork. by rewrite En, Ef. }
      rewrite Hfe, !used_cons, En. cbn [is_none h_type fst snd] in *.
      change (is_none (MkHandle HANDLE_TYPE_FNONE (h_flag h) (h_ptr h))) with true. cbn [fmap list_fmap].
      split_and!; [done|lia|lia|done|]. intros o. rewrite Hcnt. cbn [cnt].
      change (one o (owner (MkHandle HANDLE_TYPE_FNONE (h_flag h) (h_ptr h)))) with 0. lia.
    + assert (Hsh : storable s h) by (apply Hst; [left|]; done).
      apply kwp_bind, kwp_handle_incref; [done|]. fold (with_ref s (h_ptr h)).
      apply kwp_bind. eapply kwp_mono; [apply (IH c (with_ref s (h_ptr h)))| |intros e s' He; exact He].
      * lia.
      * apply Hst'. intros o. unfold with_ref. rewrite refcount_set. case_decide; subst; lia.
      * intros [v' c'] s' (Ev & Hu & Hle & [refs ->] & Hcnt). cbn in Ev. subst v'. apply kwp_ret. cbn [fst snd fmap list_fmap].
        assert (Hfe : fork_entry h = h) by (unfold fork_entry, clofork; by rewrite En, Ef).
        rewrite Hfe, !used_cons, En. cbn [fst snd] in *. split_and!; [done|lia|lia|by exists refs|].
        intros o. rewrite Hcnt. unfold with_ref. rewrite refcount_set. cbn [cnt]. assert (owner h = Some (h_ptr h)) as -> by (unfold owner; by rewrite En). unfold one.
        destruct (decide (o = h_ptr h)) as [->|]; [rewrite decide_True by done|rewrite decide_False by congruence]; lia.
Qed.

Lemma live_fork h : live (fork_entry h) = fork_keep (live h).
Proof. unfold live, fork_entry, fork_keep. destruct (is_none h) eqn:En; cbn; [by rewrite En|]. destruct (clofork h); cbn; [done|by rewrite En]. Qed.
Lemma all_none s i : kst_ok s -> hm_count (k_man s) = 0 -> slot s i = None.
Proof.
  intros Hok Hc. unfold slot, live. destruct (hm_vector (k_man s) !! i) as [h|] eqn:Eh; [|done]. cbn.
  destruct (is_none h) eqn:En; [done|]. exfalso.
  pose proof (used_insert _ _ _ no_handle Eh) as Hu. rewrite En in Hu. cbn in Hu.
  pose proof (used_nonneg (<[i := no_handle]> (hm_vector (k_man s)))). pose proof (ok_count _ Hok). lia.
Qed.
Definition clone_post (s : kst) (m : handle_manager) (s' : kst) : Prop :=
  k_man s' = k_man s /\ fs_owners s' = fs_owners s /\ kst_ok (set_man s' m) /\ hm_refcnt m = 1
  /\ (forall i, slot (set_man s' m) i = fork_keep (slot s i))
  /\ (forall o, balance s' o = balance s o + cnt o (owner <$> hm_vector m)).
Lemma clone_ok s :
  kst_ok s -> hm_alloc (k_man s) + Z.of_nat (vec_usable_extra (hm_alloc (k_man s))) < 2 ^ 31 ->
  kwp handle_manager_clone s (clone_post s) (fun e s' => s' = s /\ e = HE_BADALLOC).
Proof.
  intros Hok Hx. pose proof (ok_alloc _ Hok) as Ha. pose proof (ok_count _ Hok) as Hc.
  unfold handle_manager_clone. apply kwp_bind, kwp_man. destruct man_alloc_ok; cbn [negb]; [|by apply kwp_throw].
  apply kwp_bind, validate_ok; [apply Hok|]. destruct (Z.eqb_spec (hm_count (k_man s)) 0) as [E0|E0].
  { apply kwp_ret. split; [done|]. split; [done|]. split; [|split; [done|]].
    - split; cbn; try apply Hok; try done. intros o. pose proof (ok_refs _ Hok o) as Hr.
      pose proof (cnt_nonneg o (owner <$> hm_vector (k_man s))).
      unfold balance, held, fs_owners, refcount in *. cbn in *. lia.
    - split; [|cbn; lia]. intros i. rewrite (all_none s i Hok E0). done. }
  destruct (vec_alloc_ok (hm_alloc (k_man s))); cbn [negb]; [|by apply kwp_throw].
  apply kwp_bind, kwp_check; [lia|]. rewrite take_ge by lia. apply kwp_bind.
  eapply kwp_mono; [apply (clone_entries_ok (fun e s' => s' = s /\ e = HE_BADALLOC)); [lia|]| |intros e s' He; exact He].
  { intros h Hin Hn. apply list_elem_of_lookup in Hin as [i Hi]. apply (slot_storable s i); [done|].
    unfold slot, live. rewrite Hi. cbn. by rewrite Hn. }
  intros [v c] s' (Ev & Hu & Hle & [refs ->] & Hcnt). cbn in Ev, Hu, Hle, Hcnt. subst v.
  apply kwp_bind, validate_ok; [apply Hok|].
  set (extra := vec_usable_extra (hm_alloc (k_man s))) in *. set (m := MkHm 1 _ _ _ _).
  assert (Hty : Forall (fun h => h_type h < HANDLE_TYPE_FCOUNT) (hm_vector m)).
  { cbn. apply Forall_app. split; [|by apply Forall_replicate]. apply Forall_fmap.
    eapply Forall_impl; [|apply Hok]. intros h Hh. cbn. unfold fork_entry. by destr_if. }
  apply kwp_bind, validate_ok; [done|]. apply kwp_ret.
  assert (Hcv : forall o, cnt o (owner <$> hm_vector m) = cnt o (owner <$> (fork_entry <$> hm_vector (k_man s)))).
  { intros o. cbn. rewrite fmap_app, cnt_app, fmap_replicate. change (owner no_handle) with (@None nat). rewrite cnt_none. lia. }
  split; [done|]. split; [done|]. split; [|split; [done|split]].
  - split; cbn; try apply Hok; try done.
    + rewrite length_app, length_replicate, length_fmap. lia.
    + rewrite used_app, used_none. lia.
    + intros o. unfold balance. change (refcount (set_man (set_refs s refs) m) o) with (refcount (set_refs s refs) o).
      rewrite Hcnt. unfold held. cbn [k_man set_man]. rewrite Hcv. pose proof (ok_refs _ Hok o) as Hr. unfold balance, held in Hr.
      change (fs_owners (set_man (set_refs s refs) m)) with (fs_owners s).
      pose proof (cnt_nonneg o (owner <$> hm_vector (k_man s))). lia.
  - intros i. unfold slot. cbn. rewrite slot_grown, list_lookup_fmap. destruct (hm_vector (k_man s) !! i); [|done].
    cbn. apply live_fork.
  - intros o. unfold balance. rewrite Hcnt, Hcv. unfold held, fs_owners. cbn. lia.
Qed.

Lemma decref_all_ok E v : forall s,
  Forall (fun h => h_type h < HANDLE_TYPE_FCOUNT) v -> (forall o, cnt o (owner <$> v) <= refcount s o) ->
  kwp (decref_all v) s
    (fun _ s' => (exists refs, s' = set_refs s refs) /\ forall o, refcount s' o = refcount s o - cnt o (owner <$> v)) E.
Proof.
  induction v as [|h v IH]; intros s Ht Hr; cbn [decref_all].
  { apply kwp_ret. split; [exists (k_refs s); by destruct s|cbn; lia]. }
  apply list.Forall_cons in Ht as [Hh Ht]. apply kwp_bind, kwp_check; [lia|].
  destruct (is_none h) eqn:En; cbn [negb].
  - apply kwp_bind, kwp_ret. assert (Ho : owner h = None) by (unfold owner; by rewrite En).
    eapply kwp_mono; [apply IH; [done|]| |intros e s' He; exact He].
    + intros o. specialize (Hr o). cbn [fmap list_fmap cnt] in Hr. rewrite Ho in Hr. exact Hr.
    + intros u s' [Hs Hc]. split; [done|]. intros o. cbn [fmap list_fmap cnt]. rewrite Ho. apply Hc.
  - assert (Ho : owner h = Some (h_ptr h)) by (unfold owner; by rewrite En).
    assert (Hpos : 0 < refcount s (h_ptr h)).
    { specialize (Hr (h_ptr h)). cbn [fmap list_fmap cnt] in Hr. rewrite Ho in Hr. unfold one in Hr.
      rewrite decide_True in Hr by done. pose proof (cnt_nonneg (h_ptr h) (owner <$> v)). lia. }
    apply kwp_bind, kwp_handle_decref; [by split_and!|].
    eapply kwp_mono; [apply IH; [done|]| |intros e s' He; exact He].
    + intros o. specialize (Hr o). cbn [fmap list_fmap cnt] in Hr. rewrite Ho in Hr. rewrite refcount_set.
      unfold one in Hr. repeat case_decide; simplify_eq; try lia; congruence.
    + intros u s' [[refs ->] Hc]. split; [by exists refs|]. intros o. cbn [fmap list_fmap cnt]. rewrite Ho, Hc, refcount_set.
      unfold one. repeat case_decide; simplify_eq; try lia; congruence.
Qed.
Lemma destroy_ok s E :
  kst_ok s ->
  kwp handle_manager_destroy s
    (fun _ s' => (forall i, slot s' i = None) /\ fs_owners s' = fs_owners s /\ forall o, balance s' o = balance s o) E.
Proof.
  intros Hok. unfold handle_manager_destroy. apply kwp_bind, kwp_man.
  rewrite take_ge by (rewrite (ok_alloc _ Hok); lia). apply kwp_bind.
  eapply kwp_mono; [apply decref_all_ok; [apply Hok|]| |intros e s' He; exact He].
  - intros o. pose proof (ok_refs _ Hok o) as Hr. unfold balance, held in Hr. pose proof (cnt_nonneg o (fs_owners s)). lia.
  - intros u s' [[refs ->] Hc]. apply kwp_set_man. split_and!; [done|done|]. intros o. unfold balance.
    change (refcount (set_man (set_refs s refs) _) o) with (refcount (set_refs s refs) o). rewrite Hc.
    unfold held, fs_owners. cbn. lia.
Qed.
End ManagerSpecs.

(** * The descriptor table of a process *)
#[export] Instance handle_eq_dec : EqDecision handle.
Proof. solve_decision. Defined.
#[export] Instance h_reason_eq_dec : EqDecision h_reason.
Proof. solve_decision. Defined.
#[export] Instance h_detail_eq_dec : EqDecision h_detail.
Proof. solve_decision. Defined.
#[export] Instance hexn_eq_dec : EqDecision hexn.
Proof. solve_decision. Defined.

(** System calls on descriptors: store an opened object, [dup], [close], the
    closing part of [exec], and a use of a descriptor. *)
Inductive fd_op : Type := FPut (h : handle) | FDup (fd flags : Z) | FClose (fd : Z) | FExec | FUse (fd : Z).
Inductive fd_res : Type := RFd (fd : Z) | RBool (b : bool) | RHandle (h : handle) | RUnit | RErr (e : hexn).

Section History.
Context `{Env : KernelEnv}.

Definition kcatch (m : K fd_res) : K fd_res := fun s =>
  match m s with KThrow e s' => KRet (RErr e) s' | r => r end.
Definition fd_do (op : fd_op) : K fd_res :=
  kcatch
    match op with
    | FPut h => fd ← handle_put h; mret (RFd fd)
    | FDup fd flags => fd ← handle_dup fd flags; mret (RFd fd)
    | FClose fd => b ← handle_close fd; mret (RBool b)
    | FExec => handle_manager_close_exec;; mret RUnit
    | FUse fd => h ← handle_get fd; handle_decref h;; mret (RHandle h)
    end.
Fixpoint fd_run (ops : list fd_op) : K (list fd_res) :=
  match ops with
  | [] => mret []
  | op :: ops => r ← fd_do op; rs ← fd_run ops; mret (r :: rs)
  end.

(** ** The abstract table: a finite map from descriptors to handles *)
Definition lowest_free (t : gmap nat handle) (fd : Z) : bool :=
  (0 <=? fd) && bool_decide (t !! Z.to_nat fd = None)
  && forallb (fun j => bool_decide (t !! j <> None)) (seq 0 (Z.to_nat fd)).
Definition no_memory (e : hexn) : bool :=
  match e with HE_BADALLOC | HE_BADALLOC_HANDLE _ => true | _ => false end.
(** The table after [op] gave [res]; [None]: not a result that [op] may have. *)
Definition fd_step (t : gmap nat handle) (op : fd_op) (res : fd_res) : option (gmap nat handle) :=
  match op, res with
  | FPut h, RFd fd => if lowest_free t fd then Some (<[Z.to_nat fd := h]> t) else None
  | FPut h, RErr e => if no_memory e then Some t else None
  | FDup fd flags, RFd fd' =>
      h ← t !! Z.to_nat fd;
      if lowest_free t fd' then Some (<[Z.to_nat fd' := dup_flags h flags]> t) else None
  | FDup fd flags, RErr e =>
      match t !! Z.to_nat fd with
      | None => if bool_decide (e = unset_exn fd) then Some t else None
      | Some _ => if no_memory e then Some t else None
      end
  | FClose fd, RBool b =>
      if bool_decide (b = bool_decide (t !! Z.to_nat fd <> None)) then Some (delete (Z.to_nat fd) t) else None
  | FExec, RUnit => Some (omap (fun h => exec_keep (Some h)) t)
  | FUse fd, RHandle h => if bool_decide (t !! Z.to_nat fd = Some h) then Some t else None
  | FUse fd, RErr e =>
      if bool_decide (t !! Z.to_nat fd = None /\ e = unset_exn fd) then Some t else None
  | _, _ => None
  end.
Fixpoint fd_steps (t : gmap nat handle) (ops : list fd_op) (rs : list fd_res) : option (gmap nat handle) :=
  match ops, rs with
  | [], [] => Some t
  | op :: ops, r :: rs => t ← fd_step t op r; fd_steps t ops rs
  | _, _ => None
  end.

(** What a caller has to guarantee: descriptors are not symbolic, and a stored
    handle is one that the caller owns a reference to. *)
Definition op_ok (s : kst) (op : fd_op) : Prop :=
  match op with
  | FPut h => is_none h = false /\ h_type h < HANDLE_TYPE_FCOUNT /\ 0 < balance s (h_ptr h)
  | FDup fd _ | FClose fd | FUse fd => 0 <= fd
  | FExec => True
  end.
(** [s] represents [t], and others own the references they owned in [s0]. *)
Record table_sim (s0 s : kst) (t : gmap nat handle) : Prop := {
  ts_ok : kst_ok s;
  ts_slot : forall i, slot s i = t !! i;
  ts_balance : forall o, balance s o = balance s0 o;
}.

Lemma kcatch_ok (m : K fd_res) s (Q : fd_res -> kst -> Prop) :
  kwp m s Q (fun e => Q (RErr e)) -> exists r s', kcatch m s = KRet r s' /\ Q r s'.
Proof. unfold kwp, kcatch. destruct (m s) as [a s'|e s'|]; intros H; [eauto..|done]. Qed.
Lemma upd_sim s0 s s' t i h :
  table_sim s0 s t -> upd s s' i (Some h) -> table_sim s0 s' (<[i := h]> t).
Proof.
  intros [Hok Hs Hb] [Hok' Hslot Hbal _ _]. split; [done| |intros o; by rewrite Hbal].
  intros j. rewrite Hslot. case_decide as E; [subst; by rewrite lookup_insert_eq|]. by rewrite lookup_insert_ne.
Qed.
Lemma lowest_sim s0 s t i :
  table_sim s0 s t -> slot s i = None -> (forall j, (j < i)%nat -> slot s j <> None) -> lowest_free t (Z.of_nat i) = true.
Proof.
  intros Hsim Hn Hlow. unfold lowest_free. rewrite Nat2Z.id. apply andb_true_iff. split; [apply andb_true_iff; split; [lia|]|].
  - rewrite bool_decide_true; [done|]. by rewrite <- (ts_slot _ _ _ Hsim).
  - apply forallb_forall. intros j [_ Hj]%in_seq. rewrite bool_decide_true; [done|].
    rewrite <- (ts_slot _ _ _ Hsim). apply Hlow. lia.
Qed.
Lemma fd_do_sim s0 s t op :
  table_sim s0 s t -> op_ok s0 op ->
  exists r s' t', fd_do op s = KRet r s' /\ fd_step t op r = Some t' /\ table_sim s0 s' t'.
Proof.
  intros Hsim Hop. pose proof (ts_ok _ _ _ Hsim) as Hok.
  cut (exists r s', fd_do op s = KRet r s' /\ exists t', fd_step t op r = Some t' /\ table_sim s0 s' t'); [naive_solver|].
  apply kcatch_ok. destruct op as [h|fd flags|fd| |fd]; cbn in Hop; apply kwp_bind.
  - destruct Hop as (Hn & Ht & Hb). assert (Hst : storable s h).
    { split_and!; [done..|]. rewrite <- (ts_balance _ _ _ Hsim) in Hb. apply (drop_ref_ok s (h_ptr h)); done. }
    eapply kwp_mono; [by apply put_ok|..].
    + intros fd s' (i & -> & Hnone & Hlow & Hu). apply kwp_ret. cbn. rewrite (lowest_sim s0 s), Nat2Z.id by done.
      eexists. split; [done|]. by eapply upd_sim.
    + intros e s' [-> [[-> _]|[-> _]]]; by exists t.
  - eapply kwp_mono; [by apply dup_ok|..].
    + intros fd' s' (h & Hh & i & -> & Hnone & Hlow & Hu). apply kwp_ret. rewrite (ts_slot _ _ _ Hsim) in Hh. cbn. rewrite Hh.
      cbn. rewrite (lowest_sim s0 s), Nat2Z.id by done. eexists. split; [done|]. by eapply upd_sim.
    + intros e s' [-> [[Hh ->]|[Hh [_ He]]]]; rewrite (ts_slot _ _ _ Hsim) in Hh; cbn.
      * rewrite Hh, bool_decide_true by done. by exists t.
      * destruct (t !! Z.to_nat fd); [|done]. destruct He as [[-> _]|[-> _]]; by exists t.
  - eapply kwp_mono; [by apply close_ok|..|done].
    intros b s' [-> Hu]. apply kwp_ret. cbn. rewrite (ts_slot _ _ _ Hsim), bool_decide_true by done.
    eexists. split; [done|]. destruct Hu as [Hok' Hslot Hbal _ _]. split; [done| |].
    + intros j. rewrite Hslot. case_decide as E; [subst; by rewrite lookup_delete_eq|].
      rewrite lookup_delete_ne by done. apply (ts_slot _ _ _ Hsim).
    + intros o. rewrite Hbal. apply (ts_balance _ _ _ Hsim).
  - eapply kwp_mono; [by apply (close_exec_ok s (fun _ _ => False))|..|done].
    intros u s' (Hok' & Hbal & _ & Hslot). apply kwp_ret. cbn. eexists. split; [done|]. split; [done| |].
    + intros j. rewrite Hslot, lookup_omap, (ts_slot _ _ _ Hsim). by destruct (t !! j).
    + intros o. rewrite Hbal. apply (ts_balance _ _ _ Hsim).
  - eapply kwp_mono; [by apply handle_get_ok|..].
    + intros h s' [Hh ->]. pose proof (slot_storable _ _ _ Hok Hh) as Hst.
      apply kwp_bind, kwp_handle_decref.
      { eapply storable_mono; [done|]. unfold with_ref. rewrite refcount_set, decide_True by done. lia. }
      apply kwp_ret. pose proof (incref_decref s (h_ptr h) (proj2 (proj2 Hst))) as E. fold (with_ref s (h_ptr h)) in E.
      cbv zeta in E. rewrite E. rewrite (ts_slot _ _ _ Hsim) in Hh. cbn. rewrite bool_decide_true by done. by exists t.
    + intros e s' (-> & Hh & ->). rewrite (ts_slot _ _ _ Hsim) in Hh. cbn. rewrite bool_decide_true by done. by exists t.
Qed.
Lemma fd_run_sim s0 ops : forall s t,
  table_sim s0 s t -> Forall (op_ok s0) ops ->
  exists rs s' t', fd_run ops s = KRet rs s' /\ fd_steps t ops rs = Some t' /\ table_sim s0 s' t'.
Proof.
  induction ops as [|op ops IH]; intros s t Hsim Hops.
  { by exists [], s, t. }
  apply list.Forall_cons in Hops as [Hop Hops].
  destruct (fd_do_sim _ _ _ _ Hsim Hop) as (r & s1 & t1 & Hdo & Hstep & Hsim1).
  destruct (IH _ _ Hsim1 Hops) as (rs & s2 & t2 & Hrun & Hsteps & Hsim2).
  exists (r :: rs), s2, t2. cbn [fd_run]. unfold mbind, K_bind. rewrite Hdo, Hrun. split; [done|].
  split; [|done]. cbn. by rewrite Hstep.
Qed.
End History.

(** * Properties *)
Section Properties.
Context `{Env : KernelEnv}.

(** C20: Every sequence of [handle_put], [handle_dup], [handle_close],
    [handle_manager_close_exec] and uses of descriptors runs without a failed
    assertion or bad access, and behaves like a finite map from descriptors to
    handles: new descriptors are the lowest free ones (as POSIX asks), a closed or
    unused descriptor is [E_INVALID_HANDLE], a failed call changes nothing.  The
    references that others own are never taken away or forgotten. *)
Theorem handle_table_refines s t ops :
  kst_ok s -> (forall i, slot s i = t !! i) -> Forall (op_ok s) ops ->
  exists rs s' t', fd_run ops s = KRet rs s' /\ fd_steps t ops rs = Some t' /\ table_sim s s' t'.
Proof. intros Hok Hs Hops. apply fd_run_sim; [by split|done]. Qed.

(** [handle_putat] stores the handle in the lowest free descriptor from [hint]
    on, provided there is one. *)
Theorem handle_putat_spec s hnd hint :
  kst_ok s -> storable s hnd -> 0 <= hint -> can_putat s hint ->
  kwp (handle_putat hnd hint) s (putat_post s hnd hint) (putat_exn s hint).
Proof. apply putat_ok. Qed.

(** [handle_dupinto] ([dup2]) makes [dfd] a copy of [fd] with the given flags,
    closing what was there, with all references accounted for; on an exception
    the state is the one before the call. *)
Theorem handle_dupinto_spec s fd dfd flags :
  kst_ok s -> 0 <= fd -> 0 <= dfd < 2 ^ 31 -> has_room s dfd ->
  kwp (handle_dupinto fd dfd flags) s
    (fun _ s' => exists h, slot s (Z.to_nat fd) = Some h /\ upd s s' (Z.to_nat dfd) (Some (dup_flags h flags)))
    (fun e s' => s' = s /\ (slot s (Z.to_nat fd) = None /\ e = unset_exn fd
                            \/ slot s (Z.to_nat fd) <> None /\ putinto_exn s dfd e s)).
Proof. apply dupinto_ok. Qed.

(** C37: [handle_manager_clone] ([fork]), called with a valid table whose vector stays
    below 2^31 entries, fails no assertion and returns a valid manager with the same
    descriptors except those marked close-on-fork, holding a reference of its own for
    each and none besides; the calling process keeps its table.  It throws only
    [E_BADALLOC], with nothing changed. *)
Theorem handle_manager_clone_spec s :
  kst_ok s -> hm_alloc (k_man s) + Z.of_nat (vec_usable_extra (hm_alloc (k_man s))) < 2 ^ 31 ->
  kwp handle_manager_clone s (clone_post s) (fun e s' => s' = s /\ e = HE_BADALLOC).
Proof. apply clone_ok. Qed.

(** Destroying a manager drops exactly the references its descriptors hold. *)
Theorem handle_manager_destroy_spec s :
  kst_ok s ->
  kwp handle_manager_destroy s
    (fun _ s' => (forall i, slot s' i = None) /\ fs_owners s' = fs_owners s /\ forall o, balance s' o = balance s o)
    (fun _ _ => False).
Proof. apply destroy_ok. Qed.
End Properties.

(** * Examples *)
#[local] Instance demo_env : KernelEnv := {|
  vec_alloc_ok n := n <=? 64;
  man_alloc_ok := true;
  vec_usable_extra _ := 0%nat;
  f_path o := (o + 100)%nat;
  p_ancestors o := if (o =? 1)%nat then [] else [1%nat];
  this_weakref := 9%nat;
|}.
(** A process without descriptors in the root directory 1; the caller owns one
    reference each of the objects 5 (a file) and 6 (a pipe). *)
Definition demo (limit : Z) : kst :=
  MkKst (MkHm 1 limit 0 0 []) 1 1 (replicate 26 None) (replicate 26 None) {[ 1%nat := 2; 5%nat := 1; 6%nat := 1 ]} ∅.
Definition file5 : handle := MkHandle HANDLE_TYPE_FFILE 2 5.
Definition pipe6 : handle := MkHandle HANDLE_TYPE_FPIPE (2 + IO_HANDLE_FCLOEXEC) 6.
Definition results {A} (r : kres A) : option A := match r with KRet a _ => Some a | _ => None end.

Lemma demo_balance limit o : balance (demo limit) o = if decide (o = 5%nat \/ o = 6%nat) then 1 else 0.
Proof.
  unfold balance, held, fs_owners, refcount. cbn [demo k_man hm_vector fmap list_fmap cnt fs_cwd fs_root fs_dcwd d_drives k_refs].
  rewrite cnt_app, cnt_none. unfold one. rewrite !lookup_insert, lookup_singleton.
  repeat case_decide; simplify_eq; cbn; try lia; naive_solver.
Qed.
Lemma demo_ok limit : 0 <= limit < 2 ^ 31 -> kst_ok (demo limit).
Proof.
  intros Hl. split; try done. intros o. rewrite demo_balance. case_decide; lia.
Qed.
(** The same process after both were stored, as descriptors 0 and 1. *)
Definition demo2 : kst :=
  MkKst (MkHm 1 4096 16 2 (file5 :: pipe6 :: replicate 14 no_handle)) 1 1 (replicate 26 None) (replicate 26 None)
    {[ 1%nat := 2; 5%nat := 2; 6%nat := 2 ]} {[ 6%nat := 4096 ]}.
Lemma demo2_ok : kst_ok demo2.
Proof.
  split; try done.
  - repeat constructor; cbn; lia.
  - intros o. unfold balance, held.
    change (owner <$> hm_vector (k_man demo2)) with (Some 5%nat :: Some 6%nat :: replicate 14 None).
    change (fs_owners demo2) with (Some 1%nat :: Some 1%nat :: replicate 26 None ++ replicate 26 None).
    cbn [cnt]. rewrite cnt_app, !cnt_none. unfold one, refcount. cbn [demo2 k_refs].
    rewrite !lookup_insert, lookup_singleton. repeat case_decide; simplify_eq; cbn; lia.
Qed.

Definition demo_ops : list fd_op :=
  [FPut file5; FPut pipe6; FDup 0 0; FClose 0; FDup 1 0; FUse 0; FExec; FUse 1; FClose 7].
Lemma handle_table_witness :
  exists rs s' t', fd_run demo_ops (demo 4096) = KRet rs s' /\ fd_steps ∅ demo_ops rs = Some t' /\ table_sim (demo 4096) s' t'.
Proof.
  apply handle_table_refines.
  - apply demo_ok. lia.
  - intros i. by rewrite lookup_empty.
  - repeat constructor; cbn; rewrite ?demo_balance; try done; lia.
Defined.
Example demo_results : results (fd_run demo_ops (demo 4096)) =
  Some [RFd 0; RFd 1; RFd 2; RBool true; RFd 0; RHandle (dup_flags pipe6 0); RUnit; RErr (unset_exn 1); RBool false].
Proof. vm_compute. reflexivity. Qed.

Lemma demo_storable limit : storable (demo limit) file5.
Proof. done. Qed.
Lemma handle_putat_witness :
  kwp (handle_putat file5 40) (demo 4096) (putat_post (demo 4096) file5 40) (putat_exn (demo 4096) 40).
Proof. apply handle_putat_spec; [apply demo_ok; lia|apply demo_storable|lia|left; cbn; lia]. Defined.
Lemma handle_dupinto_witness :
  kwp (handle_dupinto 0 1 0) demo2
    (fun _ s' => exists h, slot demo2 0 = Some h /\ upd demo2 s' 1 (Some (dup_flags h 0)))
    (fun e s' => s' = demo2 /\ (slot demo2 0 = None /\ e = unset_exn 0
                                \/ slot demo2 0 <> None /\ putinto_exn demo2 1 e demo2)).
Proof. apply (handle_dupinto_spec demo2 0 1 0); [apply demo2_ok|lia|lia|done]. Defined.
Lemma handle_manager_clone_witness :
  kwp handle_manager_clone demo2 (clone_post demo2) (fun e s' => s' = demo2 /\ e = HE_BADALLOC).
Proof. apply handle_manager_clone_spec; [apply demo2_ok|cbn; lia]. Defined.
Lemma handle_manager_destroy_witness :
  kwp handle_manager_destroy demo2
    (fun _ s' => (forall i, slot s' i = None) /\ fs_owners s' = fs_owners demo2
                 /\ forall o, balance s' o = balance demo2 o) (fun _ _ => False).
Proof. apply handle_manager_destroy_spec. apply demo2_ok. Defined.

(** ** Where the code goes wrong *)
Definition err {A} (r : kres A) : option hexn := match r with KThrow e _ => Some e | _ => None end.
Definition panics {A} (r : kres A) : bool := match r with KPanic => true | _ => false end.

(** [handle_close] does not decrement [hm_count]: after as many open/close pairs as
    the limit allows handles, no handle can be opened although none is open. *)
Example close_keeps_count :
  results (fd_run (concat (replicate 16 [FPut file5; FClose 0]) ++ [FUse 0; FPut file5]) (demo 16)) ≫= (fun rs => Some (drop 32 rs))
  = Some [RErr (unset_exn 0); RErr (HE_BADALLOC_HANDLE 16)].
Proof. vm_compute. reflexivity. Qed.

(** A full table of 16 descriptors. *)
Definition full : K unit := fd_run (replicate 16 (FPut file5));; mret tt.
(** The count then exceeds the vector: after a close and a [dup2] into the closed
    descriptor, [handle_put] reads behind the vector and a [fork] fails its assertion. *)
Example dup2_after_close_overruns :
  panics ((full;; handle_close 3;; handle_dupinto 0 3 0;; handle_put file5) (demo 4096)) = true
  /\ panics ((full;; handle_close 3;; handle_dupinto 0 3 0;; handle_manager_clone) (demo 4096)) = true.
Proof. split; vm_compute; reflexivity. Qed.
(** [handle_putat] reads behind the vector when no descriptor from [hint] on is free. *)
Example putat_full_panics : panics ((full;; handle_dupat 0 3 0) (demo 4096)) = true.
Proof. vm_compute. reflexivity. Qed.
(** [handle_putinto] rejects the last descriptor below the limit, [handle_putat] does not. *)
Example putinto_last_descriptor :
  err (handle_putinto 19 file5 (demo 20)) = Some (HE_INVALID_HANDLE 19 FUNDEFINED 0 0 ILLHND_FBOUND)
  /\ results (handle_putat file5 19 (demo 20)) = Some 19.
Proof. split; vm_compute; reflexivity. Qed.

(** A process with working directory 2, a working directory 2 of drive A and the
    root 1 bound to drive A; descriptor 0 is the path 3. *)
Definition demo3 : kst :=
  MkKst (MkHm 1 4096 16 1 (MkHandle HANDLE_TYPE_FPATH 0 3 :: replicate 15 no_handle)) 2 1
    (Some 2%nat :: replicate 25 None) (Some 1%nat :: replicate 25 None) {[ 1%nat := 2; 2%nat := 2; 3%nat := 1 ]} ∅.
(** [handle_putinto] returns from its [TRY] block when it sets the working directory,
    so that the reference to the old one is lost. *)
Example fchdir_leaks_old_path :
  match handle_dupinto 0 HANDLE_SYMBOLIC_CWD 0 demo3 with
  | KRet _ s => fs_cwd s = 3%nat /\ balance demo3 2 = 0 /\ balance s 2 = 1
  | _ => False
  end.
Proof. vm_compute. repeat split. Qed.
(** After setting the working directory of a drive it throws [E_INVALID_HANDLE];
    when none was set before, it drops a reference of a null pointer. *)
Example drive_cwd_set_and_thrown :
  match handle_dupinto 0 HANDLE_SYMBOLIC_DRIVE_CWD_A 0 demo3 with
  | KThrow e s => e = HE_INVALID_HANDLE (-350) FUNDEFINED 0 HANDLE_TYPE_FPATH ILLHND_FNOSYM /\ fs_dcwd s !! 0%nat = Some (Some 3%nat)
  | _ => False
  end
  /\ panics ((close_symbolic_handle HANDLE_SYMBOLIC_DRIVE_CWD_A;; handle_dupinto 0 HANDLE_SYMBOLIC_DRIVE_CWD_A 0) demo3) = true.
Proof. split; vm_compute; [repeat split|reflexivity]. Qed.
(** Binding a drive that is not bound dereferences its null path. *)
Example bind_unbound_drive_panics : panics (vfs_bind_drive 1 3 demo3) = true.
Proof. vm_compute. reflexivity. Qed.
(** For every other symbolic descriptor the [FINALLY] block drops a reference of the
    uninitialized [old_path], before the exception that is meant is thrown. *)
Example putinto_other_symbolic_panics :
  panics (handle_dupinto 0 HANDLE_SYMBOLIC_THIS_TASK 0 demo3) = true /\ panics (handle_dupinto 0 (-5) 0 demo3) = true.
Proof. split; vm_compute; reflexivity. Qed.
