(* ===== verification/HandleGet.v ===== *)
(** Typed access to descriptors, [handle_get_*], and [handle_fcntl] of
    [src/kernel/src/fs/handle.c], on the table of [Handle].

    An object may be handed out as another one it leads to: a file as its inode, a
    thread as its address space.  Every function returns with one reference to its
    result; the references of the handle it went through are dropped. *)
From stdpp Require Import gmap.
From S2P Require Import Prelude Ringbuffer Handle.
#[local] Open Scope Z_scope.

Definition HANDLE_TYPE_FDEVICE : Z := 1.
Definition HANDLE_TYPE_FINODE : Z := 2.
Definition HANDLE_TYPE_FSUPERBLOCK : Z := 4.
Definition HANDLE_TYPE_FMODULE : Z := 8.
Definition HANDLE_TYPE_FAPPLICATION : Z := 9.
Definition HANDLE_TYPE_FVM : Z := 11.
Definition HANDLE_TYPE_FPIPEREADER : Z := 14.
Definition HANDLE_TYPE_FPIPEWRITER : Z := 15.
Definition HANDLE_TYPE_FDEVICE_STREAM : Z := 19.

(** The fields of objects that conversions follow, and the calling thread. *)
Class ObjEnv : Type := {
  ds_device : nat -> nat;
  s_device : nat -> nat;
  is_blockdev : nat -> bool;
  (** [block_device_getsuper]: the superblock of a block device, or what it throws. *)
  dev_super : nat -> hexn + nat;
  i_super : nat -> nat;
  f_node : nat -> nat;
  p_node : nat -> nat;
  tw_task : nat -> option nat;
  t_vm : nat -> nat;
  (** The first application of an address space that is still referenced. *)
  vm_app : nat -> option nat;
  a_module : nat -> nat;
  pr_pipe : nat -> nat;
  this_task : nat;
  this_vm : nat;
}.

Section Get.
Context `{Env : KernelEnv, Obj : ObjEnv}.

Definition throw_wrongtype {A} (fd : Z) (hnd : handle) (rqtype : Z) : K A :=
  kthrow (HE_INVALID_HANDLE fd FWRONGTYPE (h_type hnd) rqtype FANY).
(** [handle_decref(hnd); throw_invalid_handle(...);] *)
Definition reject {A} (fd : Z) (hnd : handle) (rqtype : Z) : K A :=
  handle_decref hnd;; throw_wrongtype fd hnd rqtype.
(** Take a reference to [result], drop the one to the object that led to it. *)
Definition exchange (result old : nat) : K nat := obj_incref result;; obj_decref old;; mret result.
Definition is_type (hnd : handle) (type : Z) : bool := h_type hnd =? type.

Definition handle_get_device (fd : Z) : K nat :=
  hnd ← handle_get fd;
  if is_type hnd HANDLE_TYPE_FDEVICE then mret (h_ptr hnd)
  else if is_type hnd HANDLE_TYPE_FDEVICE_STREAM then exchange (ds_device (h_ptr hnd)) (h_ptr hnd)
  else if is_type hnd HANDLE_TYPE_FSUPERBLOCK then exchange (s_device (h_ptr hnd)) (h_ptr hnd)
  else reject fd hnd HANDLE_TYPE_FDEVICE.

Definition block_device_getsuper (dev : nat) : K nat :=
  match dev_super dev with
  | inr sb => obj_incref sb;; mret sb
  | inl e => kthrow e
  end.
(** The two cases of a block device that both superblock functions end with. *)
Definition super_of_device (fd : Z) (hnd : handle) : K nat :=
  if is_type hnd HANDLE_TYPE_FDEVICE && is_blockdev (h_ptr hnd) then
    kfinally (block_device_getsuper (h_ptr hnd)) (obj_decref (h_ptr hnd))
  else if is_type hnd HANDLE_TYPE_FDEVICE_STREAM && is_blockdev (ds_device (h_ptr hnd)) then
    kfinally (block_device_getsuper (ds_device (h_ptr hnd))) (obj_decref (h_ptr hnd))
  else reject fd hnd HANDLE_TYPE_FSUPERBLOCK.
Definition handle_get_superblock (fd : Z) : K nat :=
  hnd ← handle_get fd;
  if is_type hnd HANDLE_TYPE_FSUPERBLOCK then mret (h_ptr hnd) else super_of_device fd hnd.
Definition handle_get_superblock_relaxed (fd : Z) : K nat :=
  hnd ← handle_get fd;
  if is_type hnd HANDLE_TYPE_FSUPERBLOCK then mret (h_ptr hnd)
  else if is_type hnd HANDLE_TYPE_FINODE then exchange (i_super (h_ptr hnd)) (h_ptr hnd)
  else if is_type hnd HANDLE_TYPE_FFILE then exchange (i_super (f_node (h_ptr hnd))) (h_ptr hnd)
  else if is_type hnd HANDLE_TYPE_FPATH then exchange (i_super (p_node (h_ptr hnd))) (h_ptr hnd)
  else super_of_device fd hnd.

Definition handle_get_inode (fd : Z) : K nat :=
  hnd ← handle_get fd;
  if is_type hnd HANDLE_TYPE_FINODE then mret (h_ptr hnd)
  else if is_type hnd HANDLE_TYPE_FFILE then exchange (f_node (h_ptr hnd)) (h_ptr hnd)
  else if is_type hnd HANDLE_TYPE_FPATH then exchange (p_node (h_ptr hnd)) (h_ptr hnd)
  else reject fd hnd HANDLE_TYPE_FINODE.
Definition handle_get_path (fd : Z) : K nat :=
  hnd ← handle_get fd;
  if is_type hnd HANDLE_TYPE_FPATH then mret (h_ptr hnd)
  else if is_type hnd HANDLE_TYPE_FFILE then exchange (f_path (h_ptr hnd)) (h_ptr hnd)
  else reject fd hnd HANDLE_TYPE_FPATH.

(** [ATOMIC_INCIFNONZERO] of the task behind a weak reference. *)
Definition task_weakref_lock (w : nat) : K (option nat) :=
  s ← kget;
  match tw_task w with
  | Some t => if 0 <? refcount s t then obj_incref t;; mret (Some t) else mret None
  | None => mret None
  end.
Definition task_getvm (thread : nat) : K nat := obj_incref (t_vm thread);; mret (t_vm thread).
Definition vm_apps_primary (v : nat) : K (option nat) :=
  match vm_app v with
  | Some app => obj_incref app;; mret (Some app)
  | None => mret None
  end.
Definition vm_getmodule (v : nat) : K nat :=
  app ← vm_apps_primary v;
  match app with
  | None => kthrow HE_NO_DATA
  | Some app => exchange (a_module app) app
  end.
(** [TRY m FINALLY f], where [Some] is a [return] out of the [TRY] block. *)
Definition try_return {A} (m : K (option A)) (f : K unit) : K (option A) := fun s =>
  match m s with
  | KRet (Some a) s => KRet (Some a) s
  | KRet None s => (f;; mret None) s
  | KThrow e s => (f;; kthrow e) s
  | KPanic => KPanic
  end.
(** The task of a thread handle; the reference of the handle is dropped. *)
Definition lock_thread (w : nat) : K nat :=
  thread ← task_weakref_lock w;
  obj_decref w;;
  match thread with Some t => mret t | None => kthrow HE_PROCESS_EXITED end.

Definition handle_get_task (fd : Z) : K nat :=
  if fd =? HANDLE_SYMBOLIC_THIS_TASK then obj_incref this_task;; mret this_task
  else
    hnd ← handle_get fd;
    if is_type hnd HANDLE_TYPE_FTHREAD then lock_thread (h_ptr hnd)
    else reject fd hnd HANDLE_TYPE_FTHREAD.

Definition handle_get_vm (fd : Z) : K nat :=
  if fd =? HANDLE_SYMBOLIC_THIS_TASK then obj_incref this_vm;; mret this_vm
  else
    hnd ← handle_get fd;
    if is_type hnd HANDLE_TYPE_FVM then mret (h_ptr hnd)
    else
      r ← try_return
            (if is_type hnd HANDLE_TYPE_FTHREAD then
               thread ← lock_thread (h_ptr hnd);
               result ← task_getvm thread;
               obj_decref thread;;
               mret (Some result)
             else mret None) (handle_decref hnd);
      match r with Some result => mret result | None => throw_wrongtype fd hnd HANDLE_TYPE_FVM end.

(** The result is [NULL] when the address space has no application. *)
Definition handle_get_application (fd : Z) : K (option nat) :=
  if fd =? HANDLE_SYMBOLIC_THIS_TASK then vm_apps_primary this_vm
  else
    hnd ← handle_get fd;
    if is_type hnd HANDLE_TYPE_FAPPLICATION then mret (Some (h_ptr hnd))
    else
      r ← try_return
            (if is_type hnd HANDLE_TYPE_FVM then
               result ← vm_apps_primary (h_ptr hnd);
               obj_decref (h_ptr hnd);;
               mret (Some result)
             else if is_type hnd HANDLE_TYPE_FTHREAD then
               thread ← lock_thread (h_ptr hnd);
               thread_vm ← task_getvm thread;
               obj_decref thread;;
               result ← kfinally (vm_apps_primary thread_vm) (obj_decref thread_vm);
               mret (Some result)
             else mret None) (handle_decref hnd);
      match r with Some result => mret result | None => throw_wrongtype fd hnd HANDLE_TYPE_FAPPLICATION end.

Definition handle_get_module (fd : Z) : K nat :=
  if fd =? HANDLE_SYMBOLIC_THIS_TASK then vm_getmodule this_vm
  else
    hnd ← handle_get fd;
    if is_type hnd HANDLE_TYPE_FMODULE then mret (h_ptr hnd)
    else if is_type hnd HANDLE_TYPE_FAPPLICATION then exchange (a_module (h_ptr hnd)) (h_ptr hnd)
    else
      r ← try_return
            (if is_type hnd HANDLE_TYPE_FVM then
               result ← vm_getmodule (h_ptr hnd);
               obj_decref (h_ptr hnd);;
               mret (Some result)
             else if is_type hnd HANDLE_TYPE_FTHREAD then
               thread ← lock_thread (h_ptr hnd);
               thread_vm ← task_getvm thread;
               result ← kfinally (vm_getmodule thread_vm) (obj_decref thread_vm);
               obj_decref thread;;
               mret (Some result)
             else mret None) (handle_decref hnd);
      match r with Some result => mret result | None => throw_wrongtype fd hnd HANDLE_TYPE_FMODULE end.

Definition handle_get_pipe (fd : Z) : K nat :=
  hnd ← handle_get fd;
  if is_type hnd HANDLE_TYPE_FPIPE then mret (h_ptr hnd)
  else if is_type hnd HANDLE_TYPE_FPIPEREADER || is_type hnd HANDLE_TYPE_FPIPEWRITER
  then exchange (pr_pipe (h_ptr hnd)) (h_ptr hnd)
  else reject fd hnd HANDLE_TYPE_FPIPE.
Definition handle_get_typed (fd type : Z) : K nat :=
  result ← handle_get fd;
  if negb (is_type result type) then reject fd result type else mret (h_ptr result).

(** * fcntl *)
Definition IO_SETFL_MASK : Z := 31744. (* APPEND, NONBLOCK, SYNC, ASYNC, DIRECT *)
Definition IO_SETFD_MASK : Z := IO_HANDLE_FMASK.
Definition IO_HANDLE_FFROM_O (x : Z) : Z := u16 (Z.shiftr (Z.land x 1572864) 15).
Definition IO_HANDLE_FTO_O (x : Z) : Z := Z.shiftl (Z.land x 12) 15.
Definition IO_FROM_O (x : Z) : Z := Z.lor (Z.land x 65523) (IO_HANDLE_FFROM_O x).
Definition IO_TO_O (x : Z) : Z := Z.lor (Z.land x 65523) (IO_HANDLE_FTO_O x).
(** [O_CREAT|O_EXCL|O_NOCTTY|O_TRUNC|O_RDONLY|O_WRONLY|O_RDWR] *)
Definition O_IGNORED : Z := 963.
Definition O_CLOEXEC : Z := 524288.
Definition FD_CLOEXEC : Z := 1.

Inductive fcntl_cmd : Set :=
| FCNTL_KOS_TYPE | F_DUPFD | F_DUPFD_CLOEXEC | F_SETFD | F_GETFD | F_GETFL | F_SETFL | F_SETFL_XCH
| F_SETPIPE_SZ | F_GETPIPE_SZ | F_OTHER.

(** The entry that [F_SETFD], [F_GETFD], [F_SETFL] and [F_SETFL_XCH] work on. *)
Definition fcntl_entry (fd : Z) : K handle :=
  man ← kman;
  if hm_alloc man <=? u32 fd then throw_unset fd
  else
    h ← klift (access (hm_vector man !! Z.to_nat (u32 fd)));
    if is_none h then throw_unset fd else mret h.
Definition set_flag (fd flag : Z) : K unit :=
  man ← kman;
  h ← klift (access (hm_vector man !! Z.to_nat (u32 fd)));
  kset_man (set_vector man (<[Z.to_nat (u32 fd) := MkHandle (h_type h) flag (h_ptr h)]> (hm_vector man))).

Definition CEIL_ALIGN (x align : Z) : Z := Z.ldiff (u32 (x + (align - 1))) (align - 1).

(** [uninit]: the value of [result] when the code does not set it. *)
Definition handle_fcntl (uninit : Z) (fd : Z) (cmd : fcntl_cmd) (arg : Z) : K Z :=
  match cmd with
  | FCNTL_KOS_TYPE => hnd ← handle_get fd; handle_decref hnd;; mret (h_type hnd)
  | F_DUPFD => handle_dupat fd (u32 arg) 0
  | F_DUPFD_CLOEXEC => handle_dupat fd (u32 arg) 0
  | F_SETFD =>
      let arg := IO_HANDLE_FFROM_O arg in
      if negb (Z.ldiff arg IO_SETFD_MASK =? 0) then kthrow HE_INVALID_ARGUMENT
      else fcntl_entry fd;; set_flag fd (u16 arg);; mret uninit
  | F_GETFD => h ← fcntl_entry fd; mret (IO_HANDLE_FTO_O (h_flag h))
  | F_GETFL =>
      hnd ← handle_get fd; handle_decref hnd;; mret (Z.land (h_flag hnd) IO_SETFL_MASK)
  | F_SETFL | F_SETFL_XCH =>
      let new_mode := u16 (IO_FROM_O (Z.ldiff arg O_IGNORED)) in
      if negb (Z.ldiff new_mode IO_SETFL_MASK =? 0) then kthrow HE_INVALID_ARGUMENT
      else
        h ← fcntl_entry fd;
        let result := IO_TO_O (Z.land (h_flag h) IO_SETFL_MASK) in
        set_flag fd (Z.lor (Z.ldiff (h_flag h) IO_SETFL_MASK) new_mode);;
        mret (match cmd with F_SETFL_XCH => result | _ => 0 end)
  | F_SETPIPE_SZ =>
      p ← handle_get_pipe fd;
      s ← kget;
      let old_limit := default 0 (k_limt s !! p) in
      let new_limit := Z.lor (Z.ldiff old_limit RBUFFER_LIMT_FMASK) (CEIL_ALIGN arg (Z.lnot RBUFFER_LIMT_FMASK + 1)) in
      kput (MkKst (k_man s) (fs_cwd s) (fs_root s) (fs_dcwd s) (d_drives s) (k_refs s) (<[p := new_limit]> (k_limt s)));;
      obj_decref p;;
      mret 0
  | F_GETPIPE_SZ =>
      p ← handle_get_pipe fd;
      s ← kget;
      obj_decref p;;
      mret (Z.land (default 0 (k_limt s !! p)) RBUFFER_LIMT_FMASK)
  | F_OTHER => kthrow HE_INVALID_ARGUMENT
  end.

(** * Conversions *)
(** One more reference to [r], nothing else. *)
Definition got (s s' : kst) (r : nat) : Prop :=
  k_man s' = k_man s /\ fs_owners s' = fs_owners s /\ k_limt s' = k_limt s
  /\ forall o, refcount s' o = refcount s o + one o (Some r).
(** What a conversion promises: the object that [target] names for the handle of
    [fd], with a reference; else an exception that leaves the state as it was. *)
Definition conv_post (s : kst) (fd : Z) (target : handle -> option nat) (r : nat) (s' : kst) : Prop :=
  exists h, slot s (Z.to_nat fd) = Some h /\ target h = Some r /\ got s s' r.
Definition conv_exn (s : kst) (fd rqtype : Z) (target : handle -> option nat) (e : hexn) (s' : kst) : Prop :=
  s' = s /\ (slot s (Z.to_nat fd) = None /\ e = unset_exn fd
             \/ exists h, slot s (Z.to_nat fd) = Some h /\ target h = None
                  /\ e = HE_INVALID_HANDLE fd FWRONGTYPE (h_type h) rqtype FANY).
(** Objects that a live handle leads to are alive, as it owns a reference. *)
Definition target_alive (s : kst) (fd : Z) (target : handle -> option nat) : Prop :=
  forall h r, slot s (Z.to_nat fd) = Some h -> target h = Some r -> 0 < refcount s r.
Definition converts (f : Z -> K nat) (rqtype : Z) (target : handle -> option nat) : Prop :=
  forall s fd, kst_ok s -> 0 <= fd -> target_alive s fd target ->
    kwp (f fd) s (conv_post s fd target) (conv_exn s fd rqtype target).

(** Compare reference counts after some updates. *)
Ltac ref_cases := unfold with_ref; rewrite ?refcount_set; unfold one; repeat case_decide; simplify_eq; first [lia | congruence].
Lemma got_ref s o : got s (with_ref s o) o.
Proof.
  split_and!; [done..|]. intros o'. ref_cases.
Qed.
Lemma exchange_ok s o r E :
  0 < refcount s o -> 0 < refcount s r ->
  kwp (exchange r o) (with_ref s o) (fun r' s' => r' = r /\ got s s' r) E.
Proof.
  intros Ho Hr. unfold exchange, with_ref. apply kwp_bind, kwp_incref.
  { ref_cases. }
  apply kwp_bind, kwp_decref.
  { ref_cases. }
  apply kwp_ret. split; [done|]. split_and!; [done..|]. intros o'. ref_cases.
Qed.
Lemma reject_ok s fd h rq Q E :
  storable s h -> E (HE_INVALID_HANDLE fd FWRONGTYPE (h_type h) rq FANY) s ->
  kwp (reject (A := nat) fd h rq) (with_ref s (h_ptr h)) Q E.
Proof.
  intros Hst HE. unfold reject. apply kwp_bind, kwp_handle_decref.
  { eapply storable_mono; [done|]. ref_cases. }
  pose proof (incref_decref s (h_ptr h) (proj2 (proj2 Hst))) as E0. fold (with_ref s (h_ptr h)) in E0. cbv zeta in E0.
  rewrite E0. by apply kwp_throw.
Qed.
(** A conversion is decided by what it does with the handle. *)
Lemma converts_by (f : Z -> K nat) (body : Z -> handle -> K nat) rq target :
  (forall fd, f fd = (hnd ← handle_get fd; body fd hnd)) ->
  (forall s fd h, storable s h -> (forall r, target h = Some r -> 0 < refcount s r) ->
     kwp (body fd h) (with_ref s (h_ptr h))
       (fun r s' => target h = Some r /\ got s s' r)
       (fun e s' => s' = s /\ target h = None /\ e = HE_INVALID_HANDLE fd FWRONGTYPE (h_type h) rq FANY)) ->
  converts f rq target.
Proof.
  intros Hf Hbody s fd Hok Hfd Halive. rewrite Hf. destruct (slot s (Z.to_nat fd)) as [h|] eqn:Hslot.
  2:{ apply dup_invalid; [done..|]. split; [done|]. by left. }
  apply kwp_bind. eapply kwp_mono; [by apply handle_get_ok| |intros e s' (_ & E & _); congruence].
  intros h' s' [E ->]. replace h' with h by congruence.
  eapply kwp_mono; [apply Hbody|..].
  - by eapply slot_storable.
  - intros r Hr. exact (Halive h r Hslot Hr).
  - intros r s' [Ht Hg]. by exists h.
  - intros e s' (-> & Ht & ->). split; [done|]. right. by exists h.
Qed.

(** Run the body of a conversion on each type it tests for. *)
Ltac conv_cases :=
  repeat match goal with
    | |- context [if is_type ?h ?t then _ else _] => destruct (is_type h t) eqn:?
    | |- context [if is_type ?h ?t || ?b then _ else _] => destruct (is_type h t || b) eqn:?
    end.
Ltac conv_leaf H_st :=
  first [ apply kwp_ret; split; [done|apply got_ref]
        | eapply kwp_mono; [apply (exchange_ok _ _ _ (fun _ _ => False)); [apply H_st|by eauto]|by intros ? ? [-> ?]|done]
        | apply reject_ok; done ].

Definition inode_of (h : handle) : option nat :=
  if is_type h HANDLE_TYPE_FINODE then Some (h_ptr h)
  else if is_type h HANDLE_TYPE_FFILE then Some (f_node (h_ptr h))
  else if is_type h HANDLE_TYPE_FPATH then Some (p_node (h_ptr h)) else None.
Definition path_of (h : handle) : option nat :=
  if is_type h HANDLE_TYPE_FPATH then Some (h_ptr h)
  else if is_type h HANDLE_TYPE_FFILE then Some (f_path (h_ptr h)) else None.
Definition device_of (h : handle) : option nat :=
  if is_type h HANDLE_TYPE_FDEVICE then Some (h_ptr h)
  else if is_type h HANDLE_TYPE_FDEVICE_STREAM then Some (ds_device (h_ptr h))
  else if is_type h HANDLE_TYPE_FSUPERBLOCK then Some (s_device (h_ptr h)) else None.
Definition pipe_of (h : handle) : option nat :=
  if is_type h HANDLE_TYPE_FPIPE then Some (h_ptr h)
  else if is_type h HANDLE_TYPE_FPIPEREADER || is_type h HANDLE_TYPE_FPIPEWRITER then Some (pr_pipe (h_ptr h)) else None.
Definition typed_of (type : Z) (h : handle) : option nat := if is_type h type then Some (h_ptr h) else None.

Lemma inode_converts : converts handle_get_inode HANDLE_TYPE_FINODE inode_of.
Proof.
  eapply converts_by; [intros fd; unfold handle_get_inode; reflexivity|]. intros s fd h H_st Hr. unfold inode_of in *. conv_cases; conv_leaf H_st.
Qed.
Lemma path_converts : converts handle_get_path HANDLE_TYPE_FPATH path_of.
Proof.
  eapply converts_by; [intros fd; unfold handle_get_path; reflexivity|]. intros s fd h H_st Hr. unfold path_of in *. conv_cases; conv_leaf H_st.
Qed.
Lemma device_converts : converts handle_get_device HANDLE_TYPE_FDEVICE device_of.
Proof.
  eapply converts_by; [intros fd; unfold handle_get_device; reflexivity|]. intros s fd h H_st Hr. unfold device_of in *. conv_cases; conv_leaf H_st.
Qed.
Lemma pipe_converts : converts handle_get_pipe HANDLE_TYPE_FPIPE pipe_of.
Proof.
  eapply converts_by; [intros fd; unfold handle_get_pipe; reflexivity|]. intros s fd h H_st Hr. unfold pipe_of in *. conv_cases; conv_leaf H_st.
Qed.
Lemma typed_converts type : converts (fun fd => handle_get_typed fd type) type (typed_of type).
Proof.
  eapply converts_by; [intros fd; unfold handle_get_typed; reflexivity|]. intros s fd h H_st Hr. unfold typed_of in *.
  destruct (is_type h type); cbn [negb]; conv_leaf H_st.
Qed.

(** ** Superblocks *)
Lemma getsuper_ok s d o sb E :
  dev_super d = inr sb -> 0 < refcount s o -> 0 < refcount s sb ->
  kwp (kfinally (block_device_getsuper d) (obj_decref o)) (with_ref s o) (fun r s' => r = sb /\ got s s' sb) E.
Proof.
  intros Hd Ho Hsb. apply kwp_finally. unfold block_device_getsuper. rewrite Hd.
  apply kwp_bind, kwp_incref; [ref_cases|]. apply kwp_ret, kwp_decref.
  { ref_cases. }
  split; [done|]. split_and!; [done..|]. intros o'. ref_cases.
Qed.
Definition opened_super (d : nat) : option nat := match dev_super d with inr sb => Some sb | inl _ => None end.
Definition dev_super_of (h : handle) : option nat :=
  if is_type h HANDLE_TYPE_FDEVICE && is_blockdev (h_ptr h) then opened_super (h_ptr h)
  else if is_type h HANDLE_TYPE_FDEVICE_STREAM && is_blockdev (ds_device (h_ptr h)) then opened_super (ds_device (h_ptr h))
  else None.
Definition super_of (h : handle) : option nat :=
  if is_type h HANDLE_TYPE_FSUPERBLOCK then Some (h_ptr h) else dev_super_of h.
Definition super_of_relaxed (h : handle) : option nat :=
  if is_type h HANDLE_TYPE_FSUPERBLOCK then Some (h_ptr h)
  else if is_type h HANDLE_TYPE_FINODE then Some (i_super (h_ptr h))
  else if is_type h HANDLE_TYPE_FFILE then Some (i_super (f_node (h_ptr h)))
  else if is_type h HANDLE_TYPE_FPATH then Some (i_super (p_node (h_ptr h)))
  else dev_super_of h.
(** The superblocks of block devices can be opened. *)
Definition devices_mounted : Prop := forall d, is_blockdev d = true -> opened_super d <> None.
Lemma super_of_device_ok s fd h :
  devices_mounted -> storable s h -> (forall r, dev_super_of h = Some r -> 0 < refcount s r) ->
  kwp (super_of_device fd h) (with_ref s (h_ptr h)) (fun r s' => dev_super_of h = Some r /\ got s s' r)
    (fun e s' => s' = s /\ dev_super_of h = None /\ e = HE_INVALID_HANDLE fd FWRONGTYPE (h_type h) HANDLE_TYPE_FSUPERBLOCK FANY).
Proof.
  intros Hdev Hst Hr. unfold devices_mounted, super_of_device, dev_super_of, opened_super in *.
  destruct (is_type h HANDLE_TYPE_FDEVICE && is_blockdev (h_ptr h)) eqn:E1;
    [|destruct (is_type h HANDLE_TYPE_FDEVICE_STREAM && is_blockdev (ds_device (h_ptr h))) eqn:E2; [|by apply reject_ok]].
  - apply andb_true_iff in E1 as [_ E1]. specialize (Hdev _ E1).
    destruct (dev_super (h_ptr h)) as [e|sb] eqn:Es; [done|].
    eapply kwp_mono; [apply (getsuper_ok s _ _ sb (fun _ _ => False) Es); [apply Hst|by apply Hr]|by intros ? ? [-> ?]|done].
  - apply andb_true_iff in E2 as [_ E2]. specialize (Hdev _ E2).
    destruct (dev_super (ds_device (h_ptr h))) as [e|sb] eqn:Es; [done|].
    eapply kwp_mono; [apply (getsuper_ok s _ _ sb (fun _ _ => False) Es); [apply Hst|by apply Hr]|by intros ? ? [-> ?]|done].
Qed.
Lemma superblock_converts : devices_mounted -> converts handle_get_superblock HANDLE_TYPE_FSUPERBLOCK super_of.
Proof.
  intros Hdev. eapply converts_by; [intros fd; unfold handle_get_superblock; reflexivity|].
  intros s fd h H_st Hr. unfold super_of in *. conv_cases; [conv_leaf H_st|]. by apply super_of_device_ok.
Qed.
Lemma superblock_relaxed_converts :
  devices_mounted -> converts handle_get_superblock_relaxed HANDLE_TYPE_FSUPERBLOCK super_of_relaxed.
Proof.
  intros Hdev. eapply converts_by; [intros fd; unfold handle_get_superblock_relaxed; reflexivity|].
  intros s fd h H_st Hr. unfold super_of_relaxed in *. conv_cases; [conv_leaf H_st..|]. by apply super_of_device_ok.
Qed.

(** ** Threads *)
(** The thread behind a thread handle, its address space and what they own, exist. *)
Definition thread_alive (s : kst) (w : nat) : Prop :=
  exists t, tw_task w = Some t /\ 0 < refcount s t /\ 0 < refcount s (t_vm t).
Definition vm_of (h : handle) : option nat :=
  if is_type h HANDLE_TYPE_FVM then Some (h_ptr h)
  else if is_type h HANDLE_TYPE_FTHREAD then t_vm <$> tw_task (h_ptr h) else None.

Lemma lock_thread_ok s w t E :
  0 < refcount s w -> tw_task w = Some t -> 0 < refcount s t ->
  kwp (lock_thread w) (with_ref s w) (fun t' s' => t' = t /\ got s s' t) E.
Proof.
  intros Hw Ht Hrt. unfold lock_thread, task_weakref_lock. rewrite Ht.
  assert (Hrt' : 0 < refcount (with_ref s w) t) by ref_cases.
  apply kwp_bind, kwp_bind, kwp_get. replace (0 <? _) with true by lia.
  apply kwp_bind, kwp_incref; [done|]. apply kwp_ret, kwp_bind, kwp_decref.
  { ref_cases. }
  apply kwp_ret. split; [done|]. split_and!; [done..|]. intros o. ref_cases.
Qed.
(** Trading a reference that was just taken for another one. *)
Lemma got_trade {A} s s1 t r (f : nat -> A) E :
  got s s1 t -> 0 <= refcount s t -> 0 < refcount s r ->
  kwp (result ← (obj_incref r;; mret r); obj_decref t;; mret (f result)) s1 (fun a s' => a = f r /\ got s s' r) E.
Proof.
  intros (Hm & Hf & Hl & Hg) Ht Hr.
  assert (Hg1 : forall o, refcount s1 o = refcount s o + (if decide (o = t) then 1 else 0)).
  { intros o. rewrite Hg. unfold one. repeat case_decide; simplify_eq; try lia; congruence. }
  apply kwp_bind, kwp_bind, kwp_incref; [rewrite Hg1; case_decide; lia|].
  apply kwp_ret, kwp_bind, kwp_decref; [rewrite refcount_set, Hg1; repeat case_decide; simplify_eq; try lia; rewrite Hg1; case_decide; lia|].
  apply kwp_ret. split; [done|]. split_and!; [done..|]. intros o. rewrite !refcount_set. unfold one.
  repeat case_decide; simplify_eq; rewrite ?Hg1; repeat case_decide; simplify_eq; try lia; congruence.
Qed.
Lemma try_return_some {A} (m : K (option A)) f s (P : A -> kst -> Prop) Q E :
  kwp m s (fun a s' => exists r, a = Some r /\ P r s') (fun _ _ => False) ->
  (forall r s', P r s' -> Q (Some r) s') -> kwp (try_return m f) s Q E.
Proof. unfold kwp, try_return. destruct (m s) as [a s'|e s'|]; [|done|done]. intros (r & -> & HP) HQ. by apply HQ. Qed.

Lemma vm_get_ok s fd :
  kst_ok s -> 0 <= fd ->
  (forall h, slot s (Z.to_nat fd) = Some h -> h_type h = HANDLE_TYPE_FTHREAD -> thread_alive s (h_ptr h)) ->
  kwp (handle_get_vm fd) s (conv_post s fd vm_of) (conv_exn s fd HANDLE_TYPE_FVM vm_of).
Proof.
  intros Hok Hfd Hthr. unfold handle_get_vm. replace (fd =? HANDLE_SYMBOLIC_THIS_TASK) with false by (unfold HANDLE_SYMBOLIC_THIS_TASK; lia).
  destruct (slot s (Z.to_nat fd)) as [h|] eqn:Hslot.
  2:{ apply dup_invalid; [done..|]. split; [done|]. by left. }
  pose proof (slot_storable _ _ _ Hok Hslot) as Hst.
  apply kwp_bind. eapply kwp_mono; [by apply handle_get_ok| |intros e s' (_ & E & _); congruence].
  intros h' s' [E ->]. replace h' with h by congruence. clear E h'. unfold conv_post, conv_exn, vm_of.
  destruct (is_type h HANDLE_TYPE_FVM) eqn:Evm.
  { apply kwp_ret. exists h. rewrite Evm. split_and!; [done..|apply got_ref]. }
  destruct (is_type h HANDLE_TYPE_FTHREAD) eqn:Eth.
  - destruct (Hthr h eq_refl) as (t & Ht & Hrt & Hrv); [by apply Z.eqb_eq|].
    apply kwp_bind. apply (try_return_some _ _ _ (fun r s' => r = t_vm t /\ got s s' (t_vm t))).
    + apply kwp_bind. eapply kwp_mono; [apply (lock_thread_ok s (h_ptr h) t (fun _ _ => False)); [apply Hst|done|done]| |done].
      intros t' s1 [-> Hg]. eapply kwp_mono; [apply (got_trade s s1 t (t_vm t) Some (fun _ _ => False)); [done|lia|done]| |done].
      intros a s' [-> Hg']. eauto.
    + intros r s' [-> Hg]. apply kwp_ret. exists h. rewrite Evm, Eth, Ht. done.
  - apply kwp_bind. unfold kwp at 1, try_return. cbn. pose proof (incref_decref s (h_ptr h) (proj2 (proj2 Hst))) as E0.
    fold (with_ref s (h_ptr h)) in E0. cbv zeta in E0.
    assert (Hd : handle_decref h (with_ref s (h_ptr h)) = KRet tt s).
    { unfold handle_decref, kcheck, mbind, K_bind. destruct Hst as (Hn & Hty & Hr). replace (h_type h <? HANDLE_TYPE_FCOUNT) with true by lia.
      rewrite Hn. unfold obj_decref. rewrite E0.
      replace (0 <? refcount (with_ref s (h_ptr h)) (h_ptr h)) with true; [done|].
      unfold with_ref. rewrite refcount_set, decide_True by done. lia. }
    unfold mbind, K_bind. rewrite Hd. apply kwp_throw. split; [done|]. right. exists h. by rewrite Evm, Eth.
Qed.

(** ** Flags *)
Lemma fcntl_entry_ok s fd :
  kst_ok s -> 0 <= fd < 2 ^ 31 ->
  kwp (fcntl_entry fd) s (fun h s' => s' = s /\ slot s (Z.to_nat fd) = Some h)
    (fun e s' => s' = s /\ slot s (Z.to_nat fd) = None /\ e = unset_exn fd).
Proof.
  intros Hok Hfd. unfold fcntl_entry. rewrite u32_small by lia. apply kwp_bind, kwp_man.
  destruct (Z.leb_spec (hm_alloc (k_man s)) fd).
  { apply kwp_throw. split_and!; [done|by apply slot_beyond; [|lia|]|done]. }
  destruct (vector_lookup s fd Hok ltac:(lia)) as [h Hh]. apply kwp_bind, (kwp_access _ h); [done|].
  pose proof (slot_none s _ h Hh) as Hsn. destruct (is_none h) eqn:En.
  - apply kwp_throw. split_and!; [done|by apply Hsn|done].
  - apply kwp_ret. split; [done|]. unfold slot, live. rewrite Hh. cbn. by rewrite En.
Qed.
Lemma set_flag_ok s fd h flag E :
  kst_ok s -> 0 <= fd < 2 ^ 31 -> slot s (Z.to_nat fd) = Some h ->
  kwp (set_flag fd flag) s (fun _ s' => upd s s' (Z.to_nat fd) (Some (MkHandle (h_type h) flag (h_ptr h)))) E.
Proof.
  intros Hok Hfd Hslot. unfold set_flag. rewrite u32_small by lia. apply kwp_bind, kwp_man.
  pose proof (slot_storable _ _ _ Hok Hslot) as (Hn & Ht & _).
  unfold slot, live in Hslot. destruct (hm_vector (k_man s) !! Z.to_nat fd) as [h'|] eqn:Hh; cbn in Hslot; [|done].
  destruct (is_none h') eqn:En; [done|]. simplify_eq. apply kwp_bind, (kwp_access _ h); [done|]. apply kwp_set_man.
  set (h' := MkHandle (h_type h) flag (h_ptr h)).
  replace (Some h') with (live h') by (unfold live, is_none; cbn; unfold is_none in En; by rewrite En).
  apply (replace_ok s (Z.to_nat fd) h h' (hm_count (k_man s)) (k_refs s)); [done..| |].
  - rewrite (used_insert _ _ _ _ Hh). change (is_none h') with (is_none h). pose proof (ok_count _ Hok). lia.
  - intros o. change (owner h') with (owner h). unfold refcount. lia.
Qed.
Lemma mask_replace f n m : Z.ldiff n m = 0 -> Z.land (Z.lor (Z.ldiff f m) n) m = n.
Proof.
  intros Hn. apply Z.bits_inj'. intros i Hi. apply (f_equal (fun z => Z.testbit z i)) in Hn.
  rewrite Z.ldiff_spec, Z.bits_0 in Hn. rewrite Z.land_spec, Z.lor_spec, Z.ldiff_spec.
  destruct (Z.testbit f i), (Z.testbit n i), (Z.testbit m i); done.
Qed.
Definition setfl_mode (arg : Z) : Z := u16 (IO_FROM_O (Z.ldiff arg O_IGNORED)).
Definition setfl_handle (h : handle) (arg : Z) : handle :=
  MkHandle (h_type h) (Z.lor (Z.ldiff (h_flag h) IO_SETFL_MASK) (setfl_mode arg)) (h_ptr h).

(** * Properties *)

(** [handle_get_inode], [handle_get_path], [handle_get_device],
    [handle_get_pipe], [handle_get_typed] and (with superblocks for all block
    devices) [handle_get_superblock] and [handle_get_superblock_relaxed] return the object that the descriptor's
    handle stands for under the documented conversions, with exactly one new
    reference; a descriptor of another type or an unused one throws and leaves the
    state as it was. *)
Theorem handle_get_conversions :
  devices_mounted ->
  converts handle_get_inode HANDLE_TYPE_FINODE inode_of
  /\ converts handle_get_path HANDLE_TYPE_FPATH path_of
  /\ converts handle_get_device HANDLE_TYPE_FDEVICE device_of
  /\ converts handle_get_pipe HANDLE_TYPE_FPIPE pipe_of
  /\ converts handle_get_superblock HANDLE_TYPE_FSUPERBLOCK super_of
  /\ converts handle_get_superblock_relaxed HANDLE_TYPE_FSUPERBLOCK super_of_relaxed
  /\ forall type, converts (fun fd => handle_get_typed fd type) type (typed_of type).
Proof.
  intros Hdev. split_and!; [apply inode_converts|apply path_converts|apply device_converts|apply pipe_converts
    |by apply superblock_converts|by apply superblock_relaxed_converts|apply typed_converts].
Qed.

(** [handle_get_vm] of a thread that has not exited, or of an address space,
    returns that address space with one new reference. *)
Theorem handle_get_vm_spec s fd :
  kst_ok s -> 0 <= fd ->
  (forall h, slot s (Z.to_nat fd) = Some h -> h_type h = HANDLE_TYPE_FTHREAD -> thread_alive s (h_ptr h)) ->
  kwp (handle_get_vm fd) s (conv_post s fd vm_of) (conv_exn s fd HANDLE_TYPE_FVM vm_of).
Proof. apply vm_get_ok. Qed.

(** [F_SETFL] with flags that may be changed replaces exactly these flags of
    the descriptor, keeping its access mode, object and references, and [F_GETFL]
    then returns them. *)
Theorem fcntl_setfl_getfl uninit s fd h arg :
  kst_ok s -> 0 <= fd < 2 ^ 31 -> slot s (Z.to_nat fd) = Some h ->
  Z.ldiff (setfl_mode arg) IO_SETFL_MASK = 0 ->
  exists s', handle_fcntl uninit fd F_SETFL arg s = KRet 0 s'
    /\ upd s s' (Z.to_nat fd) (Some (setfl_handle h arg))
    /\ handle_fcntl uninit fd F_GETFL 0 s' = KRet (setfl_mode arg) s'.
Proof.
  intros Hok Hfd Hslot Hmode.
  assert (Hset : kwp (handle_fcntl uninit fd F_SETFL arg) s
    (fun r s' => r = 0 /\ upd s s' (Z.to_nat fd) (Some (setfl_handle h arg))) (fun _ _ => False)).
  { cbn [handle_fcntl]. fold (setfl_mode arg). rewrite Hmode. cbn [Z.eqb negb]. apply kwp_bind.
    eapply kwp_mono; [by apply fcntl_entry_ok| |intros e s' (_ & E & _); congruence].
    intros h' s' [-> Hh]. replace h' with h by congruence. apply kwp_bind.
    eapply kwp_mono; [apply (set_flag_ok s fd h _ (fun _ _ => False)); done| |done].
    intros u s' Hu. apply kwp_ret. by split. }
  unfold kwp in Hset. destruct (handle_fcntl uninit fd F_SETFL arg s) as [r s'|e s'|] eqn:Eset; [|done|done].
  destruct Hset as [-> Hu]. exists s'. split; [done|]. split; [done|].
  assert (Hs' : slot s' (Z.to_nat fd) = Some (setfl_handle h arg)) by (rewrite (u_slot _ _ _ _ Hu); by rewrite decide_True).
  pose proof (slot_storable _ _ _ (u_ok _ _ _ _ Hu) Hs') as Hst.
  assert (Hget : kwp (handle_fcntl uninit fd F_GETFL 0) s' (fun r s2 => r = setfl_mode arg /\ s2 = s') (fun _ _ => False)).
  { cbn [handle_fcntl]. apply kwp_bind.
    eapply kwp_mono; [apply (handle_get_ok s' fd (u_ok _ _ _ _ Hu)); lia| |intros e s2 (_ & E & _); congruence].
    intros h2 s2 [E ->]. replace h2 with (setfl_handle h arg) by congruence. apply kwp_bind, kwp_handle_decref.
    { eapply storable_mono; [done|]. ref_cases. }
    apply kwp_ret. split; [by apply mask_replace|]. apply (incref_decref s'). apply Hst. }
  unfold kwp in Hget. destruct (handle_fcntl uninit fd F_GETFL 0 s'); [|done|done]. by destruct Hget as [-> ->].
Qed.
End Get.

(** * Examples *)
#[local] Instance demo_kenv : KernelEnv := {|
  vec_alloc_ok _ := true;
  man_alloc_ok := true;
  vec_usable_extra _ := 0%nat;
  f_path o := (o + 100)%nat;
  p_ancestors _ := [];
  this_weakref := 9%nat;
|}.
(** Thread reference 9 is for task 10 with address space 11; 19 is for a thread that
    has exited.  The address space has no application. *)
#[local] Instance demo_obj : ObjEnv := {|
  ds_device o := (o + 10)%nat;
  s_device o := (o + 20)%nat;
  is_blockdev o := (o =? 30)%nat;
  dev_super o := inr 31%nat;
  i_super o := (o + 40)%nat;
  f_node o := (o + 200)%nat;
  p_node o := (o + 300)%nat;
  tw_task w := if (w =? 9)%nat then Some 10%nat else None;
  t_vm _ := 11%nat;
  vm_app _ := None;
  a_module o := (o + 50)%nat;
  pr_pipe o := (o + 60)%nat;
  this_task := 10%nat;
  this_vm := 11%nat;
|}.
Definition tab (l : list handle) : list handle := l ++ replicate (16 - length l) no_handle.
Definition rdwr : Z := 2.
(** Descriptors: 0 a file, 1 a thread, 2 a thread that has exited. *)
Definition demo4 : kst :=
  MkKst (MkHm 1 4096 16 3 (tab [MkHandle HANDLE_TYPE_FFILE rdwr 5; MkHandle HANDLE_TYPE_FTHREAD 0 9; MkHandle HANDLE_TYPE_FTHREAD 0 19]))
    1 1 (replicate 26 None) (replicate 26 None)
    {[ 1%nat := 2; 5%nat := 1; 9%nat := 1; 10%nat := 1; 11%nat := 1; 19%nat := 1; 205%nat := 1 ]} ∅.
Lemma demo4_ok : kst_ok demo4.
Proof.
  split; try done.
  - repeat constructor; cbn; lia.
  - intros o. unfold balance, held.
    change (owner <$> hm_vector (k_man demo4)) with (Some 5%nat :: Some 9%nat :: Some 19%nat :: replicate 13 None).
    change (fs_owners demo4) with (Some 1%nat :: Some 1%nat :: replicate 26 None ++ replicate 26 None).
    cbn [cnt]. rewrite cnt_app, !cnt_none. unfold one, refcount. cbn [demo4 k_refs].
    rewrite !lookup_insert, lookup_singleton. repeat case_decide; simplify_eq; cbn; lia.
Qed.
Lemma handle_get_conversions_witness :
  kwp (handle_get_inode 0) demo4 (conv_post demo4 0 inode_of) (conv_exn demo4 0 HANDLE_TYPE_FINODE inode_of).
Proof.
  assert (Hdev : devices_mounted) by done.
  refine (proj1 (handle_get_conversions Hdev) demo4 0 demo4_ok _ _); [lia|].
  intros h r Hs Hr. injection Hs as <-. injection Hr as <-. reflexivity.
Defined.
Lemma handle_get_vm_witness :
  kwp (handle_get_vm 1) demo4 (conv_post demo4 1 vm_of) (conv_exn demo4 1 HANDLE_TYPE_FVM vm_of).
Proof.
  apply (handle_get_vm_spec demo4 1 demo4_ok); [lia|].
  intros h Hs _. injection Hs as <-. exists 10%nat. by split_and!.
Defined.
(** [O_NONBLOCK] is set on the file. *)
Lemma fcntl_setfl_witness :
  exists s', handle_fcntl 7 0 F_SETFL 2048 demo4 = KRet 0 s'
    /\ upd demo4 s' 0 (Some (MkHandle HANDLE_TYPE_FFILE (2048 + rdwr) 5))
    /\ handle_fcntl 7 0 F_GETFL 0 s' = KRet 2048 s'.
Proof. exact (fcntl_setfl_getfl 7 demo4 0 (MkHandle HANDLE_TYPE_FFILE rdwr 5) 2048 demo4_ok ltac:(lia) eq_refl eq_refl). Defined.

(** ** Where the code goes wrong *)
(** For a thread that has exited, the reference of the handle is dropped before the
    exception and once more by the [FINALLY] block: the descriptor's own reference
    is gone (so do [handle_get_application] and [handle_get_module]). *)
Example get_vm_exited_double_decref :
  match handle_get_vm 2 demo4 with
  | KThrow e s => e = HE_PROCESS_EXITED /\ balance demo4 19 = 0 /\ balance s 19 = -1
  | _ => False
  end.
Proof. vm_compute. repeat split. Qed.
(** Without an application [handle_get_application] returns a null pointer instead of
    throwing [E_NO_DATA]. *)
Example get_application_null :
  match handle_get_application 1 demo4 with KRet r _ => r = None | _ => False end.
Proof. vm_compute. reflexivity. Qed.
(** [F_SETFD] reads the argument as [O_*] instead of [FD_*] flags: setting
    [FD_CLOEXEC] clears all flags of the handle, the access mode included; and the
    conversion of [O_CLOEXEC] is off by two bits, so that it is rejected. *)
Example setfd_cloexec_clears_flags :
  match handle_fcntl 7 0 F_SETFD FD_CLOEXEC demo4 with
  | KRet _ s => slot s 0 = Some (MkHandle HANDLE_TYPE_FFILE 0 5)
  | _ => False
  end
  /\ IO_HANDLE_FFROM_O O_CLOEXEC = 16
  /\ match handle_fcntl 7 0 F_SETFD O_CLOEXEC demo4 with KThrow e _ => e = HE_INVALID_ARGUMENT | _ => False end.
Proof. split_and!; vm_compute; reflexivity. Qed.
(** [F_DUPFD_CLOEXEC] does not set the flag it is named after. *)
Example dupfd_cloexec_ignored :
  match handle_fcntl 7 0 F_DUPFD_CLOEXEC 5 demo4 with
  | KRet fd s => fd = 5 /\ slot s 5 = Some (MkHandle HANDLE_TYPE_FFILE rdwr 5)
  | _ => False
  end.
Proof. vm_compute. repeat split. Qed.
