(* ===== verification/Unicode.v ===== *)
(** UTF-8, UTF-16 and UTF-32 conversions: [src/libs/libc/unicode.c].

    A source string is the list of units that [src] still points to, a buffer a
    list of the buffer's length, the shift state ([mbstate_t]) a 32-bit word.  The
    conversions return the number of units needed ([cv_result]; [None] stands for
    [UNICODE_ERROR]), the buffer, the shift state and the unread source.  The
    reference encodings are [utf8_enc] and [utf16_enc]. *)
From S2P Require Import Prelude.

(** * Mode flags and results *)
Definition UNICODE_F_NOZEROTERM : Z := 1.
Definition UNICODE_F_ALWAYSZEROTERM : Z := 2.
Definition UNICODE_F_STOPONNUL : Z := 4.
Definition UNICODE_F_DOSINGLE : Z := 8.
Definition UNICODE_F_UPDATESRC : Z := 32.
Definition UNICODE_F_SETERRNO : Z := 64.
Definition UNICODE_F_NOFAIL : Z := 128.
Definition UNICODE_F_BUFERROR : Z := 256.
Definition UNICODE_F_EXCEPT : Z := 32768.
Definition UNICODE_REPLACEMENT : Z := 63.
Definition UNI_SURROGATE_HIGH_BEGIN : Z := 55296.
Definition UNI_SURROGATE_LOW_BEGIN : Z := 56320.
Definition UNI_SURROGATE_LOW_END : Z := 57343.

Definition has (mode flag : Z) : bool := negb (Z.land mode flag =? 0).

Inductive uni_errno : Set := EILSEQ | ERANGE.
Record conv : Type := MkConv {
  cv_result : option nat;
  cv_errno : option uni_errno;
  cv_buf : list Z;
  cv_state : Z;
  cv_src : list Z;
}.

(** ** The shift state: three bytes of data and a count. *)
Definition mb_count (st : Z) : Z := Z.land (Z.shiftr st 24) 255.
Definition mb_word24 (st : Z) : Z := Z.land st 16777215.
Definition mb_word16 (st : Z) : Z := Z.land st 65535.
(** [state->__word = word; state->__state.__count = count;] *)
Definition mb_set (word count : Z) : Z := Z.lor (Z.land word 16777215) (Z.shiftl count 24).
(** [state->__word16 = w; state->__state.__count = count;] *)
Definition mb_set16 (st w count : Z) : Z :=
  Z.lor (Z.lor (Z.land st 16711680) (u16 w)) (Z.shiftl count 24).
Definition mb_chars (st : Z) : list Z :=
  [Z.land st 255; Z.land (Z.shiftr st 8) 255; Z.land (Z.shiftr st 16) 255].

(** ** The common ends of the conversions *)
(** Label [handle_error] without [UNICODE_F_NOFAIL]. *)
Definition conv_error (mode : Z) (buf : list Z) (state : Z) (src : list Z) : outcome conv :=
  if has mode UNICODE_F_SETERRNO then
    if has mode UNICODE_F_EXCEPT then Throw E_UNICODE_ERROR
    else Ret (MkConv None (Some EILSEQ) buf state src)
  else Ret (MkConv None None buf state src).

(** Label [done]. *)
Definition conv_done (mode orig_state : Z) (buf : list Z) (result : nat) (state : Z) (src : list Z)
  : outcome conv :=
  if has mode UNICODE_F_UPDATESRC then Ret (MkConv (Some result) None buf state src)
  else if (length buf <? result)%nat then
    if has mode UNICODE_F_BUFERROR then
      if has mode UNICODE_F_EXCEPT then Throw E_BUFFER_TOO_SMALL
      else Ret (MkConv None (Some ERANGE) buf orig_state src)
    else Ret (MkConv (Some result) None buf orig_state src)
  else Ret (MkConv (Some result) None buf state src).

(** After the main loop: the terminating NUL.  A store [if (i < buflen) buf[i] = v]
    is a list update, which does nothing out of range. *)
Definition conv_end (mode orig_state : Z) (buf : list Z) (result : nat) (state : Z) (src : list Z)
  : outcome conv :=
  if has mode UNICODE_F_NOZEROTERM then conv_done mode orig_state buf result state src
  else conv_done mode orig_state (<[result := 0]> buf) (S result) state src.

(** * Decoding UTF-8 *)
(** The table [utf8_sequence_len], by the ranges its comments give. *)
Definition utf8_sequence_len (ch : Z) : nat :=
  if ch <? 128 then 1
  else if ch <? 192 then 0
  else if ch <? 224 then 2
  else if ch <? 240 then 3
  else if ch <? 248 then 4 else 0.
Definition utf8_offset (missing : nat) : Z :=
  match missing with O => 0 | 1%nat => 192 | 2%nat => 224 | _ => 240 end.

(** [ch <<= 6; ch |= temp & 0x3f;] *)
Definition shift_in (ch temp : Z) : Z := Z.lor (u32 (Z.shiftl ch 6)) (Z.land temp 63).
Definition is_follow_up (temp : Z) : bool := Z.land temp 192 =? 128.

(** How the loop over the missing characters ends. *)
Inductive tail_end : Type :=
| TailChar (ch : Z) (src : list Z)
| TailNeed (ch : Z) (missing : nat) (src : list Z)
| TailError (src : list Z).

(** [stop]: the buffer is full and the caller wants the source updated. *)
Fixpoint read_tail (stop : bool) (missing : nat) (ch : Z) (src : list Z) : tail_end :=
  match missing with
  | O => TailChar ch src
  | S missing' =>
      match src with
      | [] => TailNeed ch missing src
      | temp :: src' =>
          if (missing <=? 1)%nat && stop then TailNeed ch missing src
          else if negb (is_follow_up temp) then TailError src'
          else read_tail stop missing' (shift_in ch temp) src'
      end
  end.
(** The loop that completes a character of the shift state; it leaves an invalid
    character in the source. *)
Fixpoint resume_tail (stop : bool) (missing : nat) (ch : Z) (src : list Z) : tail_end :=
  match missing with
  | O => TailChar ch src
  | S missing' =>
      match src with
      | [] => TailNeed ch missing src
      | temp :: src' =>
          if (missing <=? 1)%nat && stop then TailNeed ch missing src
          else if negb (is_follow_up temp) then TailError src
          else resume_tail stop missing' (shift_in ch temp) src'
      end
  end.

(** [put_char]: the buffer, the result and the state after one character, and
    whether the code jumps to [done_update_src]. *)
Definition put_fn : Type := Z -> list Z -> nat -> Z -> Z -> list Z * nat * Z * bool.

Definition put_char32 : put_fn := fun mode buf result state ch =>
  (<[result := ch]> buf, S result, state, false).

Definition put_char16 : put_fn := fun mode buf result state ch =>
  if ch <=? 65535 then (<[result := ch]> buf, S result, state, false)
  else
    let ch := ch - 65536 in
    let high := Z.lor UNI_SURROGATE_HIGH_BEGIN (Z.shiftr ch 10) in
    let low := Z.lor UNI_SURROGATE_LOW_BEGIN (Z.land ch 1023) in
    let buf := <[result := u16 high]> buf in
    let result := S result in
    if (result <? length buf)%nat then (<[result := u16 low]> buf, S result, state, false)
    else if has mode UNICODE_F_UPDATESRC then (buf, result, mb_set16 state low 128, true)
    else (buf, S result, state, false).

Section Utf8Decode.
Context (put : put_fn) (mode orig_state : Z).

Fixpoint utf8_loop (fuel : nat) (src buf : list Z) (result : nat) (state : Z) : outcome conv :=
  match fuel with
  | O => Panic
  | S fuel =>
      match src with
      | [] => conv_end mode orig_state buf result state []
      | ch :: src1 =>
          let put_char ch src :=
            let '(buf, result, state, full) := put mode buf result state ch in
            if full then Ret (MkConv (Some result) None buf state src)
            else if has mode UNICODE_F_DOSINGLE then conv_end mode orig_state buf result state src
            else utf8_loop fuel src buf result state in
          let handle_error src :=
            if has mode UNICODE_F_NOFAIL then put_char UNICODE_REPLACEMENT src
            else conv_error mode buf state src in
          let seqlen := utf8_sequence_len ch in
          if (seqlen =? 0)%nat then handle_error src1
          else if (ch =? 0) && has mode UNICODE_F_STOPONNUL
          then conv_end mode orig_state buf result state src
          else
            let stop := (length buf <=? result)%nat && has mode UNICODE_F_UPDATESRC in
            match read_tail stop (seqlen - 1) (u32 (ch - utf8_offset (seqlen - 1))) src1 with
            | TailChar ch src => put_char ch src
            | TailError src => handle_error src
            | TailNeed ch missing src =>
                let state := mb_set ch (Z.of_nat (seqlen - missing)) in
                if has mode UNICODE_F_ALWAYSZEROTERM
                then conv_done mode orig_state (<[result := 0]> buf) (S result) state src
                else conv_done mode orig_state buf result state src
            end
      end
  end.

(** Completing the character in the shift state, then the main loop. *)
Definition utf8_resume (src buf : list Z) : outcome conv :=
  let missing := 4 - mb_count orig_state in
  kassert ((1 <=? missing) && (missing <=? 3));;
  let put_char ch src :=
    let '(buf, result, state, full) := put mode buf 0%nat 0 ch in
    if full then Ret (MkConv (Some result) None buf state src)
    else if has mode UNICODE_F_DOSINGLE then conv_end mode orig_state buf result state src
    else utf8_loop (S (length src)) src buf result state in
  match resume_tail ((length buf =? 0)%nat && has mode UNICODE_F_UPDATESRC)
          (Z.to_nat missing) (mb_word24 orig_state) src with
  | TailChar ch src => put_char ch src
  | TailError src =>
      if has mode UNICODE_F_NOFAIL then put_char UNICODE_REPLACEMENT src
      else conv_error mode buf 0 src
  | TailNeed ch missing src =>
      let state := mb_set ch (4 - Z.of_nat missing) in
      if has mode UNICODE_F_ALWAYSZEROTERM
      then conv_done mode orig_state (<[0%nat := 0]> buf) 1 state src
      else conv_done mode orig_state buf 0 state src
  end.
End Utf8Decode.

Definition libc_utf8to32 (src buf : list Z) (state mode : Z) : outcome conv :=
  if negb (Z.land (mb_count state) 127 =? 0)
  then utf8_resume put_char32 mode state src buf
  else utf8_loop put_char32 mode state (S (length src)) src buf 0 state.

Definition libc_utf8to16 (src buf : list Z) (state mode : Z) : outcome conv :=
  if negb (mb_count state =? 0) then
    if negb (Z.land (mb_count state) 128 =? 0) then
      (** The shift state contains an unwritten surrogate. *)
      if (length buf =? 0)%nat && has mode UNICODE_F_UPDATESRC
      then Ret (MkConv (Some 0%nat) None buf state src)
      else utf8_loop put_char16 mode state (S (length src)) src (<[0%nat := mb_word16 state]> buf) 1 0
    else utf8_resume put_char16 mode state src buf
  else utf8_loop put_char16 mode state (S (length src)) src buf 0 state.

(** * Encoding UTF-8 *)
(** The bytes [temp] of a character that is not ASCII; [None]: [goto handle_error]. *)
Definition enc_temp (ch : Z) : option (list Z) :=
  if ch <? 2048 then
    Some [u8 (Z.lor 192 (Z.shiftr ch 6)); u8 (Z.lor 128 (Z.land ch 63))]
  else if ch <? 65536 then
    Some [u8 (Z.lor 224 (Z.shiftr ch 12)); u8 (Z.lor 128 (Z.land (Z.shiftr ch 6) 63));
          u8 (Z.lor 128 (Z.land ch 63))]
  else if ch <=? 1114111 then
    Some [u8 (Z.lor 224 (Z.shiftr ch 18)); u8 (Z.lor 128 (Z.land (Z.shiftr ch 12) 63));
          u8 (Z.lor 128 (Z.land (Z.shiftr ch 6) 63)); u8 (Z.lor 128 (Z.land ch 63))]
  else None.

(** [temp] is stored as one 32-bit word in the state, whose last byte is then
    [missing] (bytes of [temp] that were not written are taken as 0). *)
Definition mb_save (temp : list Z) (missing : nat) : Z :=
  mb_set (Z.lor (default 0 (temp !! 0%nat))
            (Z.lor (Z.shiftl (default 0 (temp !! 1%nat)) 8) (Z.shiftl (default 0 (temp !! 2%nat)) 16)))
    (Z.of_nat missing).

(** The loop that stores [temp]: [inl] after its end, [inr] when it jumps to
    [done_update_src] ([true]: the last unit of the source is put back). *)
Fixpoint put_temp (fuel : nat) (mode : Z) (temp : list Z) (i : nat) (buf : list Z) (result : nat)
  : list Z * nat + list Z * nat * option Z :=
  match fuel with
  | O => inl (buf, result)
  | S fuel =>
      match temp !! i with
      | None => inl (buf, result)
      | Some t =>
          if negb (result <? length buf)%nat && has mode UNICODE_F_UPDATESRC then
            let missing := (length temp - i)%nat in
            let result := if has mode UNICODE_F_ALWAYSZEROTERM then S result else result in
            if (missing =? 4)%nat then inr (buf, result, None)
            else inr (buf, result, Some (mb_save temp missing))
          else put_temp fuel mode temp (S i) (<[result := t]> buf) (S result)
      end
  end.

(** Label [put_char7]. *)
Definition put_char7 (mode ch : Z) (buf : list Z) (result : nat)
  : list Z * nat + list Z * nat * Z :=
  if negb (result <? length buf)%nat && has mode UNICODE_F_UPDATESRC then
    inr (buf, if has mode UNICODE_F_ALWAYSZEROTERM then S result else result, mb_set ch 1)
  else inl (<[result := u8 ch]> buf, S result).

Section Utf8Encode.
Context (mode orig_state : Z).

Fixpoint utf32_loop (fuel : nat) (src buf : list Z) (result : nat) (state : Z) : outcome conv :=
  match fuel with
  | O => Panic
  | S fuel =>
      match src with
      | [] => conv_end mode orig_state buf result state []
      | ch :: src1 =>
          let done_ch '(buf, result) :=
            if has mode UNICODE_F_DOSINGLE then conv_end mode orig_state buf result state src1
            else utf32_loop fuel src1 buf result state in
          let char7 ch :=
            match put_char7 mode ch buf result with
            | inl r => done_ch r
            | inr (buf, result, state) => Ret (MkConv (Some result) None buf state src1)
            end in
          let handle_error :=
            if has mode UNICODE_F_NOFAIL then char7 UNICODE_REPLACEMENT
            else conv_error mode buf state src1 in
          if (ch =? 0) && has mode UNICODE_F_STOPONNUL then conv_end mode orig_state buf result state src
          else if (UNI_SURROGATE_HIGH_BEGIN <=? ch) && (ch <=? UNI_SURROGATE_LOW_END) then handle_error
          else if ch <? 128 then char7 ch
          else
            match enc_temp ch with
            | None => handle_error
            | Some temp =>
                match put_temp (S (length temp)) mode temp 0 buf result with
                | inl r => done_ch r
                | inr (buf, result, Some state) => Ret (MkConv (Some result) None buf state src1)
                | inr (buf, result, None) => Ret (MkConv (Some result) None buf state src)
                end
            end
      end
  end.

(** The character [ch] of the UTF-16 source; [last] is the unit read last and
    [next] the rest of the main loop. *)
Definition utf16_put (next : list Z -> nat -> outcome conv) (ch last : Z) (src1 buf : list Z) (result : nat)
    (state : Z) : outcome conv :=
  let done_ch '(buf, result) :=
    if has mode UNICODE_F_DOSINGLE then conv_end mode orig_state buf result state src1
    else next buf result in
  let char7 ch :=
    match put_char7 mode ch buf result with
    | inl r => done_ch r
    | inr (buf, result, state) => Ret (MkConv (Some result) None buf state src1)
    end in
  if ch <? 128 then char7 ch
  else
    match enc_temp ch with
    | None =>
        if has mode UNICODE_F_NOFAIL then char7 UNICODE_REPLACEMENT
        else conv_error mode buf state src1
    | Some temp =>
        match put_temp (S (length temp)) mode temp 0 buf result with
        | inl r => done_ch r
        | inr (buf, result, Some state) => Ret (MkConv (Some result) None buf state src1)
        | inr (buf, result, None) =>
            let state := if 65535 <? ch then mb_set16 state (Z.shiftr ch 10) 128 else state in
            Ret (MkConv (Some result) None buf state (last :: src1))
        end
    end.

(** Label [do_high_surrogate]. *)
Definition utf16_high (next : list Z -> list Z -> nat -> outcome conv) (ch : Z) (src buf : list Z)
    (result : nat) (state : Z) : outcome conv :=
  match src with
  | [] =>
      conv_done mode orig_state buf result
        (if has mode UNICODE_F_UPDATESRC then mb_set16 state ch 128 else state) []
  | high :: src2 =>
      if (high <? UNI_SURROGATE_HIGH_BEGIN) || (UNI_SURROGATE_LOW_END <? high) then
        if has mode UNICODE_F_NOFAIL then
          utf16_put (next src2) UNICODE_REPLACEMENT high src2 buf result state
        else conv_error mode buf state src2
      else
        utf16_put (next src2) (Z.lor (u32 (Z.shiftl ch 10)) (high - UNI_SURROGATE_HIGH_BEGIN))
          high src2 buf result state
  end.

Fixpoint utf16_loop (fuel : nat) (src buf : list Z) (result : nat) (state : Z) : outcome conv :=
  match fuel with
  | O => Panic
  | S fuel =>
      match src with
      | [] => conv_end mode orig_state buf result state []
      | ch :: src1 =>
          if (ch =? 0) && has mode UNICODE_F_STOPONNUL then conv_end mode orig_state buf result state src
          else if (UNI_SURROGATE_LOW_BEGIN <=? ch) && (ch <=? UNI_SURROGATE_LOW_END) then
            utf16_high (fun src buf result => utf16_loop fuel src buf result state)
              (ch - UNI_SURROGATE_LOW_BEGIN) src1 buf result state
          else
            utf16_put (fun buf result => utf16_loop fuel src1 buf result state) ch ch src1 buf result state
      end
  end.
End Utf8Encode.

(** The characters kept in the shift state are copied first; reading behind the
    three characters of the state is an invalid access. *)
Definition copy_chars (state : Z) (buf : list Z) : outcome (list Z) :=
  let n := Nat.min (Z.to_nat (mb_count state)) (length buf) in
  kassert (n <=? length (mb_chars state))%nat;;
  Ret (take n (mb_chars state) ++ drop n buf).

Definition libc_utf32to8 (src buf : list Z) (state mode : Z) : outcome conv :=
  if negb (Z.land (mb_count state) 127 =? 0)
  then
    buf ← copy_chars state buf;
    utf32_loop mode state (S (length src)) src buf (Z.to_nat (mb_count state)) 0
  else utf32_loop mode state (S (length src)) src buf 0 state.

Definition libc_utf16to8 (src buf : list Z) (state mode : Z) : outcome conv :=
  let loop src buf result := utf16_loop mode state (S (length src)) src buf result 0 in
  if negb (mb_count state =? 0) then
    if negb (Z.land (mb_count state) 128 =? 0) then
      utf16_high mode state (fun src buf result => loop src buf result) (mb_word16 state) src buf 0 0
    else
      buf ← copy_chars state buf;
      loop src buf (Z.to_nat (mb_count state))
  else utf16_loop mode state (S (length src)) src buf 0 state.

(** * Conversions into allocated memory

    [malloc]/[realloc] are two oracles: whether the first block and the larger
    block can be had. *)
Section Allocating.
Context (convert : list Z -> list Z -> Z -> Z -> outcome conv) (malloc_ok realloc_ok : bool).

(** [None] is the [NULL] of a failed conversion or allocation; the memory that
    [malloc] and [realloc] add has unspecified contents, [junk]. *)
Fixpoint convert_again (fuel : nat) (src : list Z) (junk : Z) (buf : list Z) : outcome (option (list Z)) :=
  match fuel with
  | O => Panic
  | S fuel =>
      let buflen := length buf in
      r ← convert src buf 0 0;
      match cv_result r with
      | None => Ret None
      | Some reqlen =>
          if (reqlen =? buflen)%nat then Ret (Some (cv_buf r))
          else if negb realloc_ok then Ret None
          else
            let new_result := take reqlen (cv_buf r) ++ replicate (reqlen - buflen) junk in
            if (buflen <? reqlen)%nat then convert_again fuel src junk new_result
            else Ret (Some new_result)
      end
  end.
Definition convert_alloc (src : list Z) (junk : Z) (buflen : nat) : outcome (option (list Z)) :=
  if malloc_ok then convert_again 2 src junk (replicate buflen junk) else Ret None.
End Allocating.

Definition libc_utf8to16ms (malloc_ok realloc_ok : bool) (junk : Z) (utf8 : list Z) :=
  convert_alloc libc_utf8to16 malloc_ok realloc_ok utf8 junk (length utf8 + length utf8 / 3 + 1).
Definition libc_utf8to32ms (malloc_ok realloc_ok : bool) (junk : Z) (utf8 : list Z) :=
  convert_alloc libc_utf8to32 malloc_ok realloc_ok utf8 junk (length utf8 + length utf8 / 3 + 1).
Definition libc_utf16to8ms (malloc_ok realloc_ok : bool) (junk : Z) (utf16 : list Z) :=
  convert_alloc libc_utf16to8 malloc_ok realloc_ok utf16 junk (length utf16 + 1).
Definition libc_utf32to8ms (malloc_ok realloc_ok : bool) (junk : Z) (utf32 : list Z) :=
  convert_alloc libc_utf32to8 malloc_ok realloc_ok utf32 junk (length utf32 + 1).

(** * The reference encodings *)
Definition utf8_enc (c : Z) : list Z :=
  if c <? 128 then [c]
  else if c <? 2048 then [192 + c `div` 64; 128 + c `mod` 64]
  else if c <? 65536 then
    [224 + c `div` 4096; 128 + (c `div` 64) `mod` 64; 128 + c `mod` 64]
  else
    [240 + c `div` 262144; 128 + (c `div` 4096) `mod` 64; 128 + (c `div` 64) `mod` 64; 128 + c `mod` 64].
Definition utf16_enc (c : Z) : list Z :=
  if c <? 65536 then [c]
  else [55296 + (c - 65536) `div` 1024; 56320 + (c - 65536) `mod` 1024].

Definition code_point (c : Z) : Prop := 0 <= c <= 1114111.
(** A character of the basic multilingual plane that is no surrogate. *)
Definition bmp_char (c : Z) : Prop := 0 <= c < 65536 /\ ~ (55296 <= c <= 57343).

(** Storing units from index [i] on, as far as the buffer goes. *)
Fixpoint store (buf : list Z) (i : nat) (us : list Z) : list Z :=
  match us with
  | [] => buf
  | u :: us => store (<[i := u]> buf) (S i) us
  end.

Lemma length_store us : forall buf i, length (store buf i us) = length buf.
Proof. induction us as [|u us IH]; intros buf i; cbn; [done|]. by rewrite IH, length_insert. Qed.
Lemma store_app us vs : forall buf i, store buf i (us ++ vs) = store (store buf i us) (i + length us) vs.
Proof.
  induction us as [|u us IH]; intros buf i; cbn; [by rewrite Nat.add_0_r|].
  rewrite IH. f_equal. lia.
Qed.
Lemma store_cons_tail us : forall b buf i, store (b :: buf) (S i) us = b :: store buf i us.
Proof. induction us as [|u us IH]; intros b buf i; cbn; [done|]. apply IH. Qed.
Lemma store_nil us : forall i, store [] i us = [].
Proof. induction us as [|u us IH]; intros i; cbn; [done|apply IH]. Qed.
Lemma store_from_start us : forall buf, store buf 0 us = take (length buf) us ++ drop (length us) buf.
Proof.
  induction us as [|u us IH]; intros [|b buf]; cbn [store length].
  - done.
  - done.
  - apply store_nil.
  - change (<[0%nat := u]> (b :: buf)) with (u :: buf). rewrite store_cons_tail, IH. done.
Qed.

(** ** Decoding one character *)
Lemma follow_up_true y : 0 <= y < 64 -> is_follow_up (128 + y) = true.
Proof. apply (forall_below (fun y => is_follow_up (128 + y)) 64). vm_compute. reflexivity. Qed.
Lemma shift_in_eq x y : 0 <= x < 67108864 -> 0 <= y < 64 -> shift_in x (128 + y) = x * 64 + y.
Proof.
  intros Hx Hy. unfold shift_in. rewrite Z.shiftl_mul_pow2 by lia. rewrite u32_small by lia.
  change 63 with (2 ^ 6 - 1). rewrite land_low by lia.
  replace ((128 + y) `mod` 2 ^ 6) with y by (change (2 ^ 6) with 64; mlia).
  rewrite lor_add by lia. lia.
Qed.
Lemma read_tail_step m x y src : 0 <= x < 67108864 -> 0 <= y < 64 ->
  read_tail false (S m) x (128 + y :: src) = read_tail false m (x * 64 + y) src.
Proof.
  intros Hx Hy. cbn [read_tail]. rewrite andb_false_r, follow_up_true by done. cbn [negb].
  by rewrite shift_in_eq.
Qed.

(** The lead byte announces the length; its tail decodes to the character. *)
Lemma utf8_decode_char c rest : code_point c ->
  exists lead tail, utf8_enc c = lead :: tail
    /\ utf8_sequence_len lead = S (length tail)
    /\ 0 <= lead < 256
    /\ read_tail false (length tail) (u32 (lead - utf8_offset (length tail))) (tail ++ rest)
       = TailChar c rest.
Proof.
  intros [Hc0 Hc]. unfold utf8_enc, utf8_sequence_len.
  repeat destr_if; eexists _, _; (split; [reflexivity|]); cbn [length utf8_offset app];
    (split; [repeat destr_if; done || mlia|]); (split; [mlia|]); rewrite u32_small by mlia.
  - cbn. do 2 f_equal. lia.
  - rewrite read_tail_step by mlia. cbn. f_equal. mlia.
  - rewrite !read_tail_step by mlia. cbn. f_equal. mlia.
  - rewrite !read_tail_step by mlia. cbn. f_equal. mlia.
Qed.

(** * Conversions without the streaming flags *)
Definition plain (mode : Z) : Prop :=
  has mode UNICODE_F_UPDATESRC = false /\ has mode UNICODE_F_DOSINGLE = false
  /\ has mode UNICODE_F_STOPONNUL = false.
(** The output of a conversion: the units and the terminating NUL. *)
Definition terminated (mode : Z) (us : list Z) : list Z :=
  if has mode UNICODE_F_NOZEROTERM then us else us ++ [0].
(** The output [out] in a buffer: its length, and as much of it as fits. *)
Definition converted (buf out src : list Z) : conv :=
  MkConv (Some (length out)) None (take (length buf) out ++ drop (length out) buf) 0 src.

Lemma conv_end_plain mode us buf :
  has mode UNICODE_F_UPDATESRC = false -> has mode UNICODE_F_BUFERROR = false ->
  conv_end mode 0 (store buf 0 us) (length us) 0 [] = Ret (converted buf (terminated mode us) []).
Proof.
  intros Hu Hb. unfold conv_end, conv_done, terminated, converted. rewrite Hu, Hb.
  destruct (has mode UNICODE_F_NOZEROTERM).
  - rewrite store_from_start. by destruct (_ <? _)%nat.
  - assert (E : <[length us := 0]> (store buf 0 us) = store buf 0 (us ++ [0])) by by rewrite store_app.
    assert (El : length (us ++ [0]) = S (length us)) by (rewrite length_app; cbn; lia).
    rewrite E, store_from_start, El. match goal with |- context [if ?b then _ else _] => by destruct b end.
Qed.

(** [put] stores the encoding [enc] of a character. *)
Definition puts (put : put_fn) (enc : Z -> list Z) : Prop :=
  forall mode buf result state c, has mode UNICODE_F_UPDATESRC = false -> code_point c ->
    put mode buf result state c
    = (store buf result (enc c), (result + length (enc c))%nat, state, false).

Lemma put32_puts : puts put_char32 (fun c => [c]).
Proof. intros mode buf result state c _ _. unfold put_char32. cbn. by rewrite Nat.add_1_r. Qed.
Lemma put16_puts : puts put_char16 utf16_enc.
Proof.
  intros mode buf result state c Hm [Hc0 Hc]. unfold put_char16, utf16_enc. rewrite Hm.
  destruct (Z.leb_spec c 65535), (Z.ltb_spec c 65536); try lia.
  - cbn. by rewrite Nat.add_1_r.
  - unfold UNI_SURROGATE_HIGH_BEGIN, UNI_SURROGATE_LOW_BEGIN.
    rewrite Z.shiftr_div_pow2 by lia. change 1023 with (2 ^ 10 - 1). rewrite land_low by lia.
    change (2 ^ 10) with 1024. set (q := (c - 65536) `div` 1024). set (r := (c - 65536) `mod` 1024).
    assert (0 <= q < 1024) by (unfold q; mlia). assert (0 <= r < 1024) by (unfold r; mlia).
    assert (Hq : u16 (Z.lor 55296 q) = 55296 + q).
    { change 55296 with (54 * 2 ^ 10). rewrite lor_add by lia. apply wrap_small. lia. }
    assert (Hr : u16 (Z.lor 56320 r) = 56320 + r).
    { change 56320 with (55 * 2 ^ 10). rewrite lor_add by lia. apply wrap_small. lia. }
    rewrite Hq, Hr. cbn [store length]. rewrite (Nat.add_comm result). cbn [Nat.add].
    destruct (_ <? _)%nat eqn:E; [done|].
    f_equal. f_equal. f_equal. symmetry. apply list_insert_ge. apply Nat.ltb_ge in E. lia.
Qed.

Lemma utf8_loop_prefix put enc mode orig cs rest : puts put enc -> plain mode -> Forall code_point cs ->
  forall fuel buf result state, (length cs <= fuel)%nat ->
  utf8_loop put mode orig fuel (concat (utf8_enc <$> cs) ++ rest) buf result state
  = utf8_loop put mode orig (fuel - length cs) rest (store buf result (concat (enc <$> cs)))
      (result + length (concat (enc <$> cs))) state.
Proof.
  intros Hput (Hu & Hd & Hs) Hcs. induction Hcs as [|c cs Hc Hcs IH]; intros fuel buf result state Hf.
  - cbn. by rewrite Nat.sub_0_r, Nat.add_0_r.
  - cbn [fmap list_fmap concat length] in *. rewrite <- app_assoc.
    destruct (utf8_decode_char c (concat (utf8_enc <$> cs) ++ rest) Hc)
      as (lead & tail & Henc & Hlen & Hlead & Htail).
    rewrite Henc. destruct fuel as [|fuel]; [lia|]. cbn [app utf8_loop].
    rewrite Hlen, Hs, Hu, !andb_false_r. cbn [Nat.eqb]. rewrite Nat.sub_1_r. cbn [Nat.pred].
    rewrite Htail, (Hput mode buf result state c Hu Hc), Hd. rewrite IH by lia.
    rewrite store_app, length_app. cbn [Nat.sub]. f_equal. lia.
Qed.
Lemma utf8_enc_len cs : (length cs <= length (concat (utf8_enc <$> cs)))%nat.
Proof.
  induction cs as [|c cs IH]; [done|]. rewrite fmap_cons. cbn [concat length]. rewrite length_app.
  assert (1 <= length (utf8_enc c))%nat by (unfold utf8_enc; repeat destr_if; cbn; lia). lia.
Qed.
Lemma utf8_loop_plain put enc mode cs fuel buf : puts put enc -> plain mode -> Forall code_point cs ->
  (length (concat (utf8_enc <$> cs)) < fuel)%nat ->
  utf8_loop put mode 0 fuel (concat (utf8_enc <$> cs)) buf 0 0
  = conv_end mode 0 (store buf 0 (concat (enc <$> cs))) (length (concat (enc <$> cs))) 0 [].
Proof.
  intros Hput Hp Hcs Hf. pose proof (utf8_enc_len cs).
  rewrite <- (app_nil_r (concat (utf8_enc <$> cs))), (utf8_loop_prefix put enc) by (done || lia).
  replace (fuel - length cs)%nat with (S (fuel - length cs - 1)) by lia. done.
Qed.

Lemma utf8to32_ok mode cs buf :
  plain mode -> has mode UNICODE_F_BUFERROR = false -> Forall code_point cs ->
  libc_utf8to32 (concat (utf8_enc <$> cs)) buf 0 mode = Ret (converted buf (terminated mode cs) []).
Proof.
  intros Hp Hb Hcs. unfold libc_utf8to32. change (negb (Z.land (mb_count 0) 127 =? 0)) with false. cbv iota.
  rewrite (utf8_loop_plain _ _ _ _ _ _ put32_puts) by (done || lia).
  assert (E : forall cs : list Z, concat ((fun c => [c]) <$> cs) = cs)
    by (clear; induction cs as [|c cs IH]; cbn; [done|by rewrite IH]).
  rewrite E. apply conv_end_plain; [apply Hp|done].
Qed.
Lemma utf8to16_ok mode cs buf :
  plain mode -> has mode UNICODE_F_BUFERROR = false -> Forall code_point cs ->
  libc_utf8to16 (concat (utf8_enc <$> cs)) buf 0 mode
  = Ret (converted buf (terminated mode (concat (utf16_enc <$> cs))) []).
Proof.
  intros Hp Hb Hcs. unfold libc_utf8to16. change (negb (mb_count 0 =? 0)) with false. cbv iota zeta.
  rewrite (utf8_loop_plain _ _ _ _ _ _ put16_puts) by (done || lia).
  apply conv_end_plain; [apply Hp|done].
Qed.

(** ** Encoding *)
Lemma byte_lor a k b : 0 <= k -> 0 <= b < 2 ^ k -> 0 <= a * 2 ^ k + b < 256 ->
  u8 (Z.lor (a * 2 ^ k) b) = a * 2 ^ k + b.
Proof. intros Hk Hb Hab. rewrite lor_add by lia. apply wrap_small. lia. Qed.
Lemma follow_up_eq x : 0 <= x -> u8 (Z.lor 128 (Z.land x 63)) = 128 + x `mod` 64.
Proof.
  intros Hx. change 63 with (2 ^ 6 - 1). rewrite land_low by lia. change (2 ^ 6) with 64.
  apply (byte_lor 2 6); mlia.
Qed.
Lemma enc_temp_bmp c : bmp_char c -> 128 <= c -> enc_temp c = Some (utf8_enc c).
Proof.
  intros [Hc _] H128. unfold enc_temp, utf8_enc. replace (c <? 128) with false by lia.
  destruct (Z.ltb_spec c 2048); [|destruct (Z.ltb_spec c 65536); [|lia]].
  - rewrite follow_up_eq by lia. rewrite Z.shiftr_div_pow2 by lia. change (2 ^ 6) with 64.
    do 2 f_equal. apply (byte_lor 6 5); mlia.
  - rewrite !follow_up_eq by (rewrite ?Z.shiftr_div_pow2 by lia; mlia).
    rewrite !Z.shiftr_div_pow2 by lia. change (2 ^ 6) with 64. change (2 ^ 12) with 4096.
    do 2 f_equal. apply (byte_lor 14 4); mlia.
Qed.

Lemma put_temp_plain mode temp : has mode UNICODE_F_UPDATESRC = false ->
  forall fuel i buf result, (length temp - i < fuel)%nat ->
  put_temp fuel mode temp i buf result
  = inl (store buf result (drop i temp), (result + length (drop i temp))%nat).
Proof.
  intros Hm. induction fuel as [|fuel IH]; intros i buf result Hf; [lia|]. cbn [put_temp].
  destruct (temp !! i) as [t|] eqn:E.
  - rewrite Hm, andb_false_r. apply lookup_lt_Some in E as Hlt. rewrite IH by lia.
    rewrite (drop_S temp t i E). cbn [store length]. do 2 f_equal. lia.
  - apply lookup_ge_None in E. rewrite drop_ge by done. cbn. by rewrite Nat.add_0_r.
Qed.
Lemma put_char7_plain mode ch buf result : has mode UNICODE_F_UPDATESRC = false -> 0 <= ch < 256 ->
  put_char7 mode ch buf result = inl (store buf result [ch], S result).
Proof.
  intros Hm Hch. unfold put_char7. rewrite Hm, andb_false_r. cbn [store]. do 3 f_equal.
  by apply (wrap_small 8).
Qed.
Lemma utf8_enc_ascii c : c < 128 -> utf8_enc c = [c].
Proof. intros. unfold utf8_enc. by replace (c <? 128) with true by lia. Qed.

Lemma utf32_loop_plain mode cs : plain mode -> Forall bmp_char cs ->
  forall fuel buf result state, (length cs < fuel)%nat ->
  utf32_loop mode 0 fuel cs buf result state
  = conv_end mode 0 (store buf result (concat (utf8_enc <$> cs)))
      (result + length (concat (utf8_enc <$> cs)))%nat state [].
Proof.
  intros (Hu & Hd & Hs) Hcs. induction Hcs as [|c cs Hc Hcs IH]; intros fuel buf result state Hf;
    (destruct fuel as [|fuel]; [cbn in Hf; lia|]); cbn [utf32_loop fmap list_fmap concat].
  - cbn. by rewrite Nat.add_0_r.
  - rewrite Hs, andb_false_r. pose proof Hc as [Hc1 Hc2]. unfold UNI_SURROGATE_HIGH_BEGIN, UNI_SURROGATE_LOW_END.
    replace ((55296 <=? c) && (c <=? 57343)) with false by lia.
    cbn [length] in Hf. rewrite store_app, length_app, Nat.add_assoc.
    destruct (Z.ltb_spec c 128).
    + rewrite put_char7_plain, Hd, IH, utf8_enc_ascii by (done || lia). cbn [length].
      by rewrite Nat.add_1_r.
    + rewrite enc_temp_bmp, put_temp_plain by (done || lia). cbn [drop]. rewrite Hd. by rewrite IH by lia.
Qed.
Lemma utf16_loop_plain mode cs : plain mode -> Forall bmp_char cs ->
  forall fuel buf result state, (length cs < fuel)%nat ->
  utf16_loop mode 0 fuel cs buf result state
  = conv_end mode 0 (store buf result (concat (utf8_enc <$> cs)))
      (result + length (concat (utf8_enc <$> cs)))%nat state [].
Proof.
  intros (Hu & Hd & Hs) Hcs. induction Hcs as [|c cs Hc Hcs IH]; intros fuel buf result state Hf;
    (destruct fuel as [|fuel]; [cbn in Hf; lia|]); cbn [utf16_loop fmap list_fmap concat].
  - cbn. by rewrite Nat.add_0_r.
  - rewrite Hs, andb_false_r. pose proof Hc as [Hc1 Hc2]. unfold UNI_SURROGATE_LOW_BEGIN, UNI_SURROGATE_LOW_END.
    replace ((56320 <=? c) && (c <=? 57343)) with false by lia.
    cbn [length] in Hf. rewrite store_app, length_app, Nat.add_assoc. unfold utf16_put.
    destruct (Z.ltb_spec c 128).
    + rewrite put_char7_plain, Hd, IH, utf8_enc_ascii by (done || lia). cbn [length].
      by rewrite Nat.add_1_r.
    + rewrite enc_temp_bmp, put_temp_plain by (done || lia). cbn [drop]. rewrite Hd. by rewrite IH by lia.
Qed.

Lemma utf32to8_ok mode cs buf :
  plain mode -> has mode UNICODE_F_BUFERROR = false -> Forall bmp_char cs ->
  libc_utf32to8 cs buf 0 mode = Ret (converted buf (terminated mode (concat (utf8_enc <$> cs))) []).
Proof.
  intros Hp Hb Hcs. unfold libc_utf32to8. change (negb (Z.land (mb_count 0) 127 =? 0)) with false. cbv iota.
  rewrite utf32_loop_plain by (done || lia). apply conv_end_plain; [apply Hp|done].
Qed.
Lemma utf16to8_ok mode cs buf :
  plain mode -> has mode UNICODE_F_BUFERROR = false -> Forall bmp_char cs ->
  libc_utf16to8 cs buf 0 mode = Ret (converted buf (terminated mode (concat (utf8_enc <$> cs))) []).
Proof.
  intros Hp Hb Hcs. unfold libc_utf16to8. change (negb (mb_count 0 =? 0)) with false. cbv iota zeta.
  rewrite utf16_loop_plain by (done || lia). apply conv_end_plain; [apply Hp|done].
Qed.

(** ** Allocated results *)
Lemma convert_alloc_ok convert out src junk buflen :
  (forall buf, convert src buf 0 0 = Ret (converted buf out [])) ->
  convert_alloc convert true true src junk buflen = Ret (Some out).
Proof.
  intros Hc. unfold convert_alloc. cbn [convert_again]. rewrite Hc, bind_ret.
  cbn [cv_result converted cv_buf]. rewrite length_replicate.
  assert (Hfull : forall buf, length buf = length out ->
    take (length buf) out ++ drop (length out) buf = out)
    by (intros buf E; rewrite (take_ge out), (drop_ge buf), app_nil_r by lia; done).
  destruct (Nat.eqb_spec (length out) buflen) as [<-|Hne].
  { by rewrite <- (length_replicate (length out) junk) at 1; rewrite Hfull by apply length_replicate. }
  cbn [negb]. set (new_result := take _ _ ++ _).
  destruct (Nat.ltb_spec buflen (length out)).
  - assert (Hn : length new_result = length out).
    { unfold new_result. rewrite length_app, length_take, length_app, length_take, length_drop, !length_replicate. lia. }
    rewrite Hc, bind_ret. cbn [cv_result converted cv_buf]. replace (_ =? _)%nat with true by lia.
    by rewrite Hfull.
  - unfold new_result. replace (length out - buflen)%nat with 0%nat by lia. cbn [replicate]. rewrite app_nil_r.
    rewrite (take_ge out) by lia. by rewrite take_app_le, take_ge by lia.
Qed.

(** ** The conversions always return *)
Lemma read_tail_length stop missing : forall ch src,
  match read_tail stop missing ch src with
  | TailChar _ src' | TailNeed _ _ src' | TailError src' => (length src' <= length src)%nat
  end.
Proof.
  induction missing as [|m IH]; intros ch src; cbn [read_tail]; [lia|]. destruct src as [|t src]; [done|].
  destruct (_ && stop); [lia|]. destruct (negb _); [cbn; lia|]. specialize (IH (shift_in ch t) src).
  destruct (read_tail _ _ _ _); cbn; lia.
Qed.
Lemma conv_done_total mode orig buf result state src : conv_done mode orig buf result state src <> Panic.
Proof. unfold conv_done. by repeat destr_if. Qed.
Lemma conv_end_total mode orig buf result state src : conv_end mode orig buf result state src <> Panic.
Proof. unfold conv_end. destr_if; apply conv_done_total. Qed.
Lemma conv_error_total mode buf state src : conv_error mode buf state src <> Panic.
Proof. unfold conv_error. by repeat destr_if. Qed.
#[local] Hint Resolve conv_done_total conv_end_total conv_error_total : kos.

Lemma utf8_loop_total put mode orig : forall fuel src buf result state,
  (length src < fuel)%nat -> utf8_loop put mode orig fuel src buf result state <> Panic.
Proof.
  induction fuel as [|fuel IH]; intros src buf result state Hf; [lia|]. cbn [utf8_loop].
  destruct src as [|c src]; [eauto with kos|]. cbn [length] in Hf.
  assert (Hput : forall ch src', (length src' <= length src)%nat ->
    (let '(buf, result, state, full) := put mode buf result state ch in
     if full then Ret (MkConv (Some result) None buf state src')
     else if has mode UNICODE_F_DOSINGLE then conv_end mode orig buf result state src'
     else utf8_loop put mode orig fuel src' buf result state) <> Panic).
  { intros ch src' Hl. destruct (put mode buf result state ch) as [[[b r] st] full].
    destruct full; [done|]. destr_if; [eauto with kos|]. apply IH. lia. }
  destruct (_ =? 0)%nat.
  { destr_if; [by apply Hput|eauto with kos]. }
  destruct (_ && _); [eauto with kos|].
  match goal with |- context [read_tail ?s ?m ?x src] =>
    pose proof (read_tail_length s m x src) as Hl; destruct (read_tail s m x src) as [ch s'|ch m' s'|s'] end.
  - by apply Hput.
  - destr_if; eauto with kos.
  - destr_if; [by apply Hput|eauto with kos].
Qed.
Lemma utf32_loop_total mode orig : forall fuel src buf result state,
  (length src < fuel)%nat -> utf32_loop mode orig fuel src buf result state <> Panic.
Proof.
  induction fuel as [|fuel IH]; intros src buf result state Hf; [lia|]. cbn [utf32_loop].
  destruct src as [|c src]; [eauto with kos|]. cbn [length] in Hf.
  assert (Hdone : forall b r, (if has mode UNICODE_F_DOSINGLE then conv_end mode orig b r state src
     else utf32_loop mode orig fuel src b r state) <> Panic).
  { intros b r. destr_if; [eauto with kos|]. apply IH. lia. }
  assert (H7 : forall ch, match put_char7 mode ch buf result with
    | inl r => let '(buf, result) := r in if has mode UNICODE_F_DOSINGLE then conv_end mode orig buf result state src
       else utf32_loop mode orig fuel src buf result state
    | inr (buf, result, state) => Ret (MkConv (Some result) None buf state src) end <> Panic).
  { intros ch. destruct (put_char7 mode ch buf result) as [[b r]|[[b r] st]]; [apply Hdone|done]. }
  destruct (_ && _); [eauto with kos|]. destruct (_ && _); [destr_if; [apply H7|eauto with kos]|].
  destruct (c <? 128); [apply H7|]. destruct (enc_temp c) as [temp|]; [|destr_if; [apply H7|eauto with kos]].
  destruct (put_temp _ mode temp 0 buf result) as [[b r]|[[b r] [st|]]]; [apply Hdone|done|done].
Qed.
Lemma utf16_put_total mode orig next ch last src buf result state :
  (forall b r, next b r <> Panic) -> utf16_put mode orig next ch last src buf result state <> Panic.
Proof.
  intros Hn. unfold utf16_put.
  assert (Hdone : forall b r, (if has mode UNICODE_F_DOSINGLE then conv_end mode orig b r state src
     else next b r) <> Panic) by (intros b r; destr_if; eauto with kos).
  assert (H7 : forall ch, match put_char7 mode ch buf result with
    | inl r => let '(buf, result) := r in if has mode UNICODE_F_DOSINGLE then conv_end mode orig buf result state src
       else next buf result
    | inr (buf, result, state) => Ret (MkConv (Some result) None buf state src) end <> Panic).
  { intros c. destruct (put_char7 mode c buf result) as [[b r]|[[b r] st]]; [apply Hdone|done]. }
  destruct (ch <? 128); [apply H7|]. destruct (enc_temp ch) as [temp|]; [|destr_if; [apply H7|eauto with kos]].
  destruct (put_temp _ mode temp 0 buf result) as [[b r]|[[b r] [st|]]]; [apply Hdone|done|done].
Qed.
Lemma utf16_high_total mode orig next ch src buf result state :
  (forall s b r, (length s < length src)%nat -> next s b r <> Panic) ->
  utf16_high mode orig next ch src buf result state <> Panic.
Proof.
  intros Hn. destruct src as [|high src]; cbn [utf16_high]; [eauto with kos|].
  assert (Hnext : forall b r, next src b r <> Panic) by (intros; apply Hn; cbn; lia).
  destruct (_ || _); [destr_if; [|eauto with kos]|]; by apply utf16_put_total.
Qed.
Lemma utf16_loop_total mode orig : forall fuel src buf result state,
  (length src < fuel)%nat -> utf16_loop mode orig fuel src buf result state <> Panic.
Proof.
  induction fuel as [|fuel IH]; intros src buf result state Hf; [lia|]. cbn [utf16_loop].
  destruct src as [|c src]; [eauto with kos|]. cbn [length] in Hf.
  destruct (_ && _); [eauto with kos|]. destruct (_ && _).
  - apply utf16_high_total. intros. apply IH. lia.
  - apply utf16_put_total. intros. apply IH. lia.
Qed.

(** * Correctness *)

(** C29: [libc_utf8to32] decodes well-formed UTF-8: the result is the number of
    characters (and the NUL) whatever the size of the buffer, and the buffer
    holds as much of the text as fits. *)
Theorem utf8to32_spec mode cs buf :
  plain mode -> has mode UNICODE_F_BUFERROR = false -> Forall code_point cs ->
  libc_utf8to32 (concat (utf8_enc <$> cs)) buf 0 mode = Ret (converted buf (terminated mode cs) []).
Proof. apply utf8to32_ok. Qed.

(** [libc_utf8to16] turns well-formed UTF-8 into UTF-16, characters beyond
    the basic plane into surrogate pairs. *)
Theorem utf8to16_spec mode cs buf :
  plain mode -> has mode UNICODE_F_BUFERROR = false -> Forall code_point cs ->
  libc_utf8to16 (concat (utf8_enc <$> cs)) buf 0 mode
  = Ret (converted buf (terminated mode (concat (utf16_enc <$> cs))) []).
Proof. apply utf8to16_ok. Qed.

(** [libc_utf32to8] encodes the characters of the basic plane as UTF-8. *)
Theorem utf32to8_spec mode cs buf :
  plain mode -> has mode UNICODE_F_BUFERROR = false -> Forall bmp_char cs ->
  libc_utf32to8 cs buf 0 mode = Ret (converted buf (terminated mode (concat (utf8_enc <$> cs))) []).
Proof. apply utf32to8_ok. Qed.

(** [libc_utf16to8] encodes the characters of the basic plane as UTF-8. *)
Theorem utf16to8_spec mode cs buf :
  plain mode -> has mode UNICODE_F_BUFERROR = false -> Forall bmp_char cs ->
  libc_utf16to8 cs buf 0 mode = Ret (converted buf (terminated mode (concat (utf8_enc <$> cs))) []).
Proof. apply utf16to8_ok. Qed.

(** C40: Text of the basic plane survives UTF-32 to UTF-8 and back. *)
Theorem utf32_utf8_roundtrip mode cs buf8 buf32 :
  plain mode -> has mode UNICODE_F_BUFERROR = false -> has mode UNICODE_F_NOZEROTERM = true ->
  Forall bmp_char cs -> (length (concat (utf8_enc <$> cs)) <= length buf8)%nat ->
  exists r, libc_utf32to8 cs buf8 0 mode = Ret r
    /\ exists n, cv_result r = Some n
    /\ libc_utf8to32 (take n (cv_buf r)) buf32 0 mode = Ret (converted buf32 cs []).
Proof.
  intros Hp Hb Hz Hcs Hlen. eexists. split; [by apply utf32to8_ok|].
  unfold terminated, converted. rewrite Hz. cbn [cv_result cv_buf]. eexists. split; [done|].
  rewrite (take_ge _ (length buf8)) by lia. rewrite take_app_le, take_ge by lia.
  rewrite utf8to32_ok; [by unfold terminated; rewrite Hz|done|done|].
  eapply Forall_impl; [|exact Hcs]. intros c [? _]. unfold code_point. lia.
Qed.

(** The allocating conversion returns the complete, NUL-terminated UTF-16
    text, also when its first estimate of the size was too small. *)
Theorem utf8to16ms_spec cs junk :
  Forall code_point cs ->
  libc_utf8to16ms true true junk (concat (utf8_enc <$> cs))
  = Ret (Some (concat (utf16_enc <$> cs) ++ [0])).
Proof. intros Hcs. apply convert_alloc_ok. intros buf. by apply utf8to16_ok. Qed.

(** Likewise for UTF-32 to UTF-8, where the first estimate (one byte per
    character) is too small for all but ASCII text. *)
Theorem utf32to8ms_spec cs junk :
  Forall bmp_char cs ->
  libc_utf32to8ms true true junk cs = Ret (Some (concat (utf8_enc <$> cs) ++ [0])).
Proof. intros Hcs. apply convert_alloc_ok. intros buf. by apply utf32to8_ok. Qed.

(** Without a pending shift state the conversions return for every source,
    valid or not, every buffer and every mode. *)
Theorem unicode_conversions_total src buf state mode :
  mb_count state = 0 ->
  libc_utf8to32 src buf state mode <> Panic /\ libc_utf8to16 src buf state mode <> Panic
  /\ libc_utf32to8 src buf state mode <> Panic /\ libc_utf16to8 src buf state mode <> Panic.
Proof.
  intros Hc. unfold libc_utf8to32, libc_utf8to16, libc_utf32to8, libc_utf16to8. rewrite Hc.
  change (negb (Z.land 0 127 =? 0)) with false. change (negb (0 =? 0)) with false. cbv iota zeta.
  split_and!; [apply utf8_loop_total|apply utf8_loop_total|apply utf32_loop_total|apply utf16_loop_total]; lia.
Qed.

(** After well-formed text a byte that cannot start a sequence ends the
    conversion with an error, or is replaced when errors are suppressed. *)
Theorem utf8to32_malformed mode cs b rest buf :
  plain mode -> Forall code_point cs -> utf8_sequence_len b = 0%nat ->
  let src := concat (utf8_enc <$> cs) ++ b :: rest in
  if has mode UNICODE_F_NOFAIL then
    libc_utf8to32 src buf 0 mode
    = utf8_loop put_char32 mode 0 (length src - length cs) rest
        (store buf 0 (cs ++ [UNICODE_REPLACEMENT])) (S (length cs)) 0
  else libc_utf8to32 src buf 0 mode = conv_error mode (store buf 0 cs) 0 rest.
Proof.
  intros Hp Hcs Hb src. unfold libc_utf8to32. change (negb (Z.land (mb_count 0) 127 =? 0)) with false. cbv iota.
  pose proof (utf8_enc_len cs) as Hl.
  assert (Hsrc : (length cs < S (length src))%nat) by (unfold src; rewrite length_app; cbn; lia).
  assert (E : concat ((fun c => [c]) <$> cs) = cs)
    by (clear; induction cs as [|c cs IH]; cbn; [done|by rewrite IH]).
  pose proof (utf8_loop_prefix put_char32 (fun c => [c]) mode 0 cs (b :: rest) put32_puts Hp Hcs
    (S (length src)) buf 0 0 ltac:(lia)) as Hloop. fold src in Hloop.
  rewrite Hloop, E. replace (S (length src) - length cs)%nat with (S (length src - length cs)) by lia.
  destruct Hp as (Hu & Hd & Hs). cbn [utf8_loop]. rewrite Hb. cbn [Nat.eqb]. rewrite Hd.
  destruct (has mode UNICODE_F_NOFAIL); [|done]. unfold put_char32. by rewrite store_app.
Qed.

(** * Witnesses *)
Definition text_ex : list Z := [72; 228; 8364; 128512].
Definition bmp_ex : list Z := [72; 228; 8364].
Lemma plain_0 : plain 0.
Proof. done. Qed.
Lemma plain_1 : plain 1.
Proof. done. Qed.
Lemma text_ex_ok : Forall code_point text_ex.
Proof. repeat constructor; unfold code_point; lia. Qed.
Lemma bmp_ex_ok : Forall bmp_char bmp_ex.
Proof. repeat constructor; cbn; lia. Qed.

Lemma utf8to32_witness :
  libc_utf8to32 [72; 195; 164; 226; 130; 172; 240; 159; 152; 128] (replicate 6 9) 0 0
  = Ret (MkConv (Some 5%nat) None [72; 228; 8364; 128512; 0; 9] 0 []).
Proof. exact (utf8to32_spec 0 text_ex (replicate 6 9) plain_0 eq_refl text_ex_ok). Defined.
Lemma utf8to16_witness :
  libc_utf8to16 [72; 195; 164; 226; 130; 172; 240; 159; 152; 128] (replicate 3 9) 0 0
  = Ret (MkConv (Some 6%nat) None [72; 228; 8364] 0 []).
Proof. exact (utf8to16_spec 0 text_ex (replicate 3 9) plain_0 eq_refl text_ex_ok). Defined.
Lemma utf32to8_witness :
  libc_utf32to8 bmp_ex (replicate 7 9) 0 1
  = Ret (MkConv (Some 6%nat) None [72; 195; 164; 226; 130; 172; 9] 0 []).
Proof. exact (utf32to8_spec 1 bmp_ex (replicate 7 9) plain_1 eq_refl bmp_ex_ok). Defined.
Lemma utf16to8_witness :
  libc_utf16to8 bmp_ex (replicate 7 9) 0 1
  = Ret (MkConv (Some 6%nat) None [72; 195; 164; 226; 130; 172; 9] 0 []).
Proof. exact (utf16to8_spec 1 bmp_ex (replicate 7 9) plain_1 eq_refl bmp_ex_ok). Defined.
Lemma utf32_utf8_witness :
  exists r, libc_utf32to8 bmp_ex (replicate 7 9) 0 1 = Ret r
    /\ exists n, cv_result r = Some n
    /\ libc_utf8to32 (take n (cv_buf r)) (replicate 3 9) 0 1 = Ret (converted (replicate 3 9) bmp_ex []).
Proof.
  apply (utf32_utf8_roundtrip 1 bmp_ex (replicate 7 9) (replicate 3 9) plain_1 eq_refl eq_refl bmp_ex_ok).
  cbn. lia.
Defined.
Lemma utf8to16ms_witness :
  libc_utf8to16ms true true 9 [240; 159; 152; 128] = Ret (Some [55357; 56832; 0]).
Proof. exact (utf8to16ms_spec [128512] 9 ltac:(repeat constructor; unfold code_point; lia)). Defined.
Lemma utf32to8ms_witness :
  libc_utf32to8ms true true 9 bmp_ex = Ret (Some [72; 195; 164; 226; 130; 172; 0]).
Proof. exact (utf32to8ms_spec bmp_ex 9 bmp_ex_ok). Defined.
Lemma unicode_total_witness :
  libc_utf8to32 [255; 128; 240] [] 0 32 <> Panic.
Proof. apply (unicode_conversions_total [255; 128; 240] [] 0 32 eq_refl). Defined.
Lemma utf8to32_malformed_witness :
  libc_utf8to32 [72; 128; 73] [9; 9] 0 64 = Ret (MkConv None (Some EILSEQ) [72; 9] 0 [73]).
Proof.
  exact (utf8to32_malformed 64 [72] 128 [73] [9; 9] ltac:(done)
    ltac:(repeat constructor; unfold code_point; lia) eq_refl).
Defined.

(** ** Where the code departs from UTF-8 and UTF-16 *)

(** Characters beyond the basic plane get the lead byte of a three-byte
    sequence; the decoder reads the result as other characters. *)
Example utf32to8_supplementary_lead :
  libc_utf32to8 [128512] (replicate 4 0) 0 1 = Ret (MkConv (Some 4%nat) None [224; 159; 152; 128] 0 [])
  /\ utf8_enc 128512 = [240; 159; 152; 128]
  /\ (r ← libc_utf8to32 [224; 159; 152; 128] (replicate 4 0) 0 1; Ret (cv_result r)) = Ret None.
Proof. split_and!; reflexivity. Qed.

(** [libc_utf16to8] expects the low surrogate first: the pair that
    [libc_utf8to16] writes is not understood. *)
Example utf16to8_surrogate_order :
  utf16_enc 128512 = [55357; 56832]
  /\ (r ← libc_utf16to8 [55357; 56832] (replicate 8 0) 0 1; Ret (cv_result r, take 3 (cv_buf r)))
     = Ret (Some 3%nat, [237; 160; 189]).
Proof. split; reflexivity. Qed.

(** A sequence of two bytes that is split between two calls: the first call
    saves a count of 1 which the second reads as three missing bytes. *)
Example utf8to32_split_sequence :
  (r ← libc_utf8to32 [195] (replicate 2 9) 0 33;
   r2 ← libc_utf8to32 [164; 72] (replicate 2 9) (cv_state r) 33;
   Ret (cv_result r, cv_result r2))
  = Ret (Some 0%nat, None).
Proof. reflexivity. Qed.

(** A character that does not fit any more is saved from its first byte on:
    the next call repeats bytes that were already delivered. *)
Example utf32to8_split_buffer :
  (r ← libc_utf32to8 [8364] [9] 0 33;
   r2 ← libc_utf32to8 [] [9; 9] (cv_state r) 33;
   Ret (cv_buf r, cv_buf r2))
  = Ret ([226], [226; 130]).
Proof. reflexivity. Qed.
