(* ===== verification/Rect.v ===== *)
(** Rectangle sets of the window server: [src/apps/wms/rect.c] and [rect.h].

    A [struct rects] is the area of the screen that belongs to a window or has to
    be redrawn.  It is a chain of strips, vertical slices sorted by X that do not
    overlap, each with a vector of blocks sorted by Y and separated by gaps.

    The chain is a list; the cursor [piter] of the loops is the index of the
    strip [*piter] in it, 0 being [&self->r_strips].  [malloc_usable_size] of a
    strip, in blocks, is its field [rs_usable].  The memory allocator is a stream
    of answers: the n-th request is granted with so many blocks more than asked
    for, or refused with an exception.  [rects_assert(self)] is [check_rects]; where
    the code repeats it on a chain it has not changed since, it is written once.
    The code between [#else] and [#endif] is
    disabled in the source and not modelled. *)
From S2P Require Import Prelude.
Open Scope Z_scope.

Record rect : Type := MkRect { r_xmin : Z; r_ymin : Z; r_xsiz : Z; r_ysiz : Z }.
Record rect_block : Type := MkBlock { rb_ymin : Z; rb_ysiz : Z }.
Record rect_strip : Type := MkStrip {
  rs_xmin : Z;
  rs_xsiz : Z;
  rs_usable : nat;
  rs_blkv : list rect_block
}.
Definition rs_blkc (self : rect_strip) : nat := length (rs_blkv self).

#[export] Instance rect_block_eq_dec : EqDecision rect_block.
Proof. solve_decision. Defined.

(** ** Single rectangles *)

(** An empty intersection leaves every field but [r_xsiz] as the stack had it. *)
Definition rect_intersect (stack a b : rect) : rect :=
  let a_xend := u32 (r_xmin a + r_xsiz a) in
  let a_yend := u32 (r_ymin a + r_ysiz a) in
  let b_xend := u32 (r_xmin b + r_xsiz b) in
  let b_yend := u32 (r_ymin b + r_ysiz b) in
  if (a_xend <=? r_xmin b) || (a_yend <=? r_ymin b)
     || (b_xend <=? r_xmin a) || (b_yend <=? r_ymin a)
  then MkRect (r_xmin stack) (r_ymin stack) 0 (r_ysiz stack)
  else
    let xmin := Z.max (r_xmin a) (r_xmin b) in
    let ymin := Z.max (r_ymin a) (r_ymin b) in
    MkRect xmin ymin (u32 (Z.min a_xend b_xend - xmin)) (u32 (Z.min a_yend b_yend - ymin)).

(** ** Memory *)

Inductive mem_answer : Type :=
| Granted (slack : nat)
| Refused (e : error_code).

(** ** Assertions on the whole chain *)

(** [(int)x >= 0] *)
Definition int_nonneg (x : Z) : bool := x <? 2 ^ 31.

Fixpoint blocks_assert (blkv : list rect_block) : bool :=
  match blkv with
  | [] => false
  | b :: rest =>
      int_nonneg (rb_ymin b) && int_nonneg (rb_ysiz b) && negb (rb_ysiz b =? 0) &&
      match rest with
      | [] => true
      | b' :: _ => (u32 (rb_ymin b + rb_ysiz b) <? rb_ymin b') && blocks_assert rest
      end
  end.

(** [rs_blkc != 0] is the [false] of [blocks_assert] on an empty vector. *)
Fixpoint rects_assert (strips : list rect_strip) : bool :=
  match strips with
  | [] => true
  | iter :: rest =>
      int_nonneg (rs_xmin iter) && int_nonneg (rs_xsiz iter) && negb (rs_xsiz iter =? 0) &&
      match rest with
      | [] => true
      | next :: _ => u32 (rs_xmin iter + rs_xsiz iter) <=? rs_xmin next
      end && blocks_assert (rs_blkv iter) && rects_assert rest
  end.

(** ** Blocks of one strip

    A function that works on [struct rect_strip *self] runs on the strip and the
    allocator; what it wrote before an exception stays written. *)
Record sstate : Type := MkSs { ss_self : rect_strip; ss_mem : nat -> mem_answer }.
Notation BM := (SM sstate).

Definition xrealloc (blocks : nat) : BM unit := fun s =>
  let self := ss_self s in
  let mem := fun n => ss_mem s (S n) in
  match ss_mem s 0%nat with
  | Granted slack =>
      SRet tt (MkSs (MkStrip (rs_xmin self) (rs_xsiz self) (blocks + slack) (rs_blkv self)) mem)
  | Refused e => SThrow e (MkSs self mem)
  end.

Definition blkv : BM (list rect_block) := s ← sget; mret (rs_blkv (ss_self s)).
Definition usable : BM nat := s ← sget; mret (rs_usable (ss_self s)).
Definition set_blkv (v : list rect_block) : BM unit :=
  s ← sget;
  let self := ss_self s in
  sput (MkSs (MkStrip (rs_xmin self) (rs_xsiz self) (rs_usable self) v) (ss_mem s)).
(** [self->rs_blkv[i]] *)
Definition blk (i : nat) : BM rect_block := v ← blkv; slift (access (v !! i)).
Definition set_blk (i : nat) (b : rect_block) : BM unit := v ← blkv; set_blkv (<[i := b]> v).

(** [i == rs_blkc-1 || f(rs_blkv[i+1])] and [i == 0 || f(rs_blkv[i-1])] *)
Definition succ_ok (v : list rect_block) (i : nat) (f : rect_block -> bool) : bool :=
  match v !! S i with Some b => f b | None => true end.
Definition pred_ok (v : list rect_block) (i : nat) (f : rect_block -> bool) : bool :=
  match i with
  | O => true
  | S j => match v !! j with Some b => f b | None => false end
  end.

Definition block_end (b : rect_block) : Z := u32 (rb_ymin b + rb_ysiz b).

(** Make room for one more block. *)
Definition grow_blocks : BM unit :=
  v ← blkv;
  n ← usable;
  scheck (length v <=? n)%nat ≫= fun _ =>
  if (n =? length v)%nat then xrealloc (n + 1) else mret tt.

Definition rects_split_insert_block_at (index : nat) (ymin ysiz : Z) : BM unit :=
  v ← blkv;
  scheck (index <=? length v)%nat ≫= fun _ =>
  scheck (match v !! index with Some b => u32 (ymin + ysiz) <? rb_ymin b | None => true end) ≫= fun _ =>
  scheck (pred_ok v index (fun b => block_end b <? ymin)) ≫= fun _ =>
  grow_blocks ≫= fun _ =>
  set_blkv (take index v ++ MkBlock ymin ysiz :: drop index v).

(** After the loop: append a block for what is left. *)
Definition append_block (i : nat) (ymin ysiz : Z) : BM unit :=
  v ← blkv;
  scheck (i =? length v)%nat ≫= fun _ =>
  grow_blocks ≫= fun _ =>
  set_blkv (v ++ [MkBlock ymin ysiz]).

(** What an iteration does next: [goto done], [++i] or [goto continue_at_i]. *)
Inductive jump : Type := Done | Next (ymin ysiz : Z) | Again (ymin ysiz : Z).

(** [ymin] is the end of block [i]: extend the block upwards. *)
Definition extend_upwards (i : nat) (bend ymin ysiz : Z) : BM jump :=
  b ← blk i;
  v ← blkv;
  match v !! S i with
  | None => set_blk i (MkBlock (rb_ymin b) (u32 (rb_ysiz b + ysiz))) ≫= fun _ => mret Done
  | Some next =>
      scheck (bend <? rb_ymin next) ≫= fun _ =>
      let insert_height := u32 (rb_ymin next - bend) in
      let insert_height := if ysiz <? insert_height then ysiz else insert_height in
      let b := MkBlock (rb_ymin b) (u32 (rb_ysiz b + insert_height)) in
      set_blk i b ≫= fun _ =>
      let bend := u32 (bend + insert_height) in
      let ymin := u32 (ymin + insert_height) in
      let ysiz := u32 (ysiz - insert_height) in
      scheck (bend =? block_end b) ≫= fun _ =>
      scheck (bend <=? rb_ymin next) ≫= fun _ =>
      if bend =? rb_ymin next then
        set_blkv (take i v ++ MkBlock (rb_ymin b) (u32 (rb_ysiz b + rb_ysiz next)) :: drop (i + 2) v) ≫= fun _ =>
        mret (if ysiz =? 0 then Done else Again ymin ysiz)
      else mret (if ysiz =? 0 then Done else Next ymin ysiz)
  end.

(** [ymin] lies in block [i], or at its end. *)
Definition extend_block (i : nat) (bend ymin ysiz : Z) : BM jump :=
  b ← blk i;
  scheck (rb_ymin b <=? ymin) ≫= fun _ =>
  let insert_height := u32 (bend - ymin) in
  if ysiz <=? insert_height then mret Done else
  let ymin := u32 (ymin + insert_height) in
  let ysiz := u32 (ysiz - insert_height) in
  scheck (ymin =? bend) ≫= fun _ =>
  extend_upwards i bend ymin ysiz.

(** One iteration of the loop of [rects_split_insert_block]. *)
Definition insert_step (i : nat) (ymin ysiz : Z) : BM jump :=
  v ← blkv;
  b ← blk i;
  let bend := block_end b in
  scheck (succ_ok v i (fun b' => bend <? rb_ymin b')) ≫= fun _ =>
  scheck (pred_ok v i (fun b' => block_end b' <? rb_ymin b)) ≫= fun _ =>
  scheck (pred_ok v i (fun b' => block_end b' <? ymin)) ≫= fun _ =>
  if bend <? ymin then mret (Next ymin ysiz) else
  if ymin <? rb_ymin b then
    if rb_ymin b <=? u32 (ymin + ysiz) then
      let insert_height := u32 (rb_ymin b - ymin) in
      set_blk i (MkBlock (u32 (rb_ymin b - insert_height)) (u32 (rb_ysiz b + insert_height))) ≫= fun _ =>
      extend_block i bend ymin ysiz
    else
      rects_split_insert_block_at i ymin ysiz ≫= fun _ => mret Done
  else extend_block i bend ymin ysiz.

(** The loop of both block functions; [after] is what follows it.  Each iteration
    advances [i] or removes a block: [fuel] counts the blocks from [i] on. *)
Fixpoint scan_blocks (step : nat -> Z -> Z -> BM jump) (after : nat -> Z -> Z -> BM unit)
    (fuel i : nat) (ymin ysiz : Z) : BM unit :=
  match fuel with
  | O => fun _ => SPanic
  | S fuel =>
      v ← blkv;
      if (i <? length v)%nat then
        j ← step i ymin ysiz;
        match j with
        | Done => mret tt
        | Next ymin ysiz => scan_blocks step after fuel (S i) ymin ysiz
        | Again ymin ysiz => scan_blocks step after fuel i ymin ysiz
        end
      else after i ymin ysiz
  end.

Definition rects_split_insert_block (ymin ysiz : Z) : BM unit :=
  scheck (negb (ysiz =? 0)) ≫= fun _ =>
  v ← blkv;
  scan_blocks insert_step append_block (S (length v)) 0 ymin ysiz.

(** The removed range starts with block [i]: trim or remove the block. *)
Definition trim_block (i : nat) (ymin ysiz : Z) : BM jump :=
  b ← blk i;
  scheck (rb_ymin b =? ymin) ≫= fun _ =>
  let remove_height := rb_ysiz b in
  if remove_height <=? ysiz then
    v ← blkv;
    set_blkv (take i v ++ drop (i + 1) v) ≫= fun _ =>
    let ysiz := u32 (ysiz - remove_height) in
    mret (if ysiz =? 0 then Done else Again (u32 (ymin + remove_height)) ysiz)
  else
    set_blk i (MkBlock (u32 (rb_ymin b + ysiz)) (u32 (rb_ysiz b - ysiz))) ≫= fun _ => mret Done.

(** One iteration of the loop of [rects_split_remove_block]. *)
Definition remove_step (i : nat) (ymin ysiz : Z) : BM jump :=
  v ← blkv;
  b ← blk i;
  let bend := block_end b in
  scheck (succ_ok v i (fun b' => bend <? rb_ymin b')) ≫= fun _ =>
  if bend <=? ymin then mret (Next ymin ysiz) else
  if ymin <? rb_ymin b then
    let remove_height := u32 (rb_ymin b - ymin) in
    if ysiz <=? remove_height then mret Done
    else trim_block i (u32 (ymin + remove_height)) (u32 (ysiz - remove_height))
  else if rb_ymin b <? ymin then
    let remove_height := u32 (bend - ymin) in
    if remove_height <=? ysiz then
      set_blk i (MkBlock (rb_ymin b) (u32 (rb_ysiz b - remove_height))) ≫= fun _ =>
      let ysiz := u32 (ysiz - remove_height) in
      mret (if ysiz =? 0 then Done else Next (u32 (ymin + remove_height)) ysiz)
    else
      scheck (u32 (ymin + ysiz) <? bend) ≫= fun _ =>
      scheck (succ_ok v i (fun b' => bend <? rb_ymin b')) ≫= fun _ =>
      set_blk i (MkBlock (rb_ymin b) (u32 (ymin - rb_ymin b))) ≫= fun _ =>
      rects_split_insert_block_at (i + 1) (u32 (ymin + ysiz)) (u32 (bend - u32 (ymin + ysiz))) ≫= fun _ =>
      mret Done
  else trim_block i ymin ysiz.

Definition rects_split_remove_block (ymin ysiz : Z) : BM unit :=
  scheck (negb (ysiz =? 0)) ≫= fun _ =>
  v ← blkv;
  scan_blocks remove_step (fun _ _ _ => mret tt) (S (length v)) 0 ymin ysiz.

(** ** The chain of strips *)
Record rects : Type := MkRects { r_strips : list rect_strip; r_mem : nat -> mem_answer }.
Notation RM := (SM rects).

(** [Xmalloc] or [Xmemdup] of a strip with [blocks] blocks: the blocks it holds. *)
Definition strip_alloc (blocks : nat) : RM nat := fun s =>
  let s' := MkRects (r_strips s) (fun n => r_mem s (S n)) in
  match r_mem s 0%nat with
  | Granted slack => SRet (blocks + slack)%nat s'
  | Refused e => SThrow e s'
  end.

Definition strips : RM (list rect_strip) := s ← sget; mret (r_strips s).
Definition set_strips (l : list rect_strip) : RM unit := s ← sget; sput (MkRects l (r_mem s)).
Definition strip (n : nat) : RM rect_strip := l ← strips; slift (access (l !! n)).
Definition check_rects : RM unit := l ← strips; scheck (rects_assert l).

(** Call a function on the strip [*piter]. *)
Definition on_strip (n : nat) (f : BM unit) : RM unit := fun s =>
  match r_strips s !! n with
  | None => SPanic
  | Some self =>
      let back s' := MkRects (<[n := ss_self s']> (r_strips s)) (ss_mem s') in
      match f (MkSs self (r_mem s)) with
      | SRet _ s' => SRet tt (back s')
      | SThrow e s' => SThrow e (back s')
      | SPanic => SPanic
      end
  end.

Definition rects_split_strip (n : nat) (offset_from_base : Z) : RM unit :=
  self ← strip n;
  scheck (offset_from_base <? rs_xsiz self) ≫= fun _ =>
  usable ← strip_alloc (rs_blkc self);
  let copy := MkStrip (u32 (rs_xmin self + offset_from_base)) (u32 (rs_xsiz self - offset_from_base))
                usable (rs_blkv self) in
  let self := MkStrip (rs_xmin self) offset_from_base (rs_usable self) (rs_blkv self) in
  l ← strips;
  set_strips (take n l ++ self :: copy :: drop (S n) l).

Definition rects_split_merge_next (n : nat) : RM bool :=
  self ← strip n;
  l ← strips;
  match l !! S n with
  | None => mret false
  | Some next =>
      if negb (rs_xmin next =? u32 (rs_xmin self + rs_xsiz self)) then mret false else
      if negb (rs_blkc next =? rs_blkc self)%nat then mret false else
      if negb (bool_decide (rs_blkv next = rs_blkv self)) then mret false else
      let self := MkStrip (rs_xmin self) (u32 (rs_xsiz self + rs_xsiz next))
                    (rs_usable self) (rs_blkv self) in
      set_strips (take n l ++ self :: drop (S (S n)) l) ≫= fun _ => mret true
  end.

(** [piter != &self->r_strips && rects_split_merge_next(container of piter)] *)
Definition merge_pred (n : nat) : RM bool :=
  match n with O => mret false | S m => rects_split_merge_next m end.

(** A new strip with one block at [*piter]. *)
Definition new_strip (n : nat) (r : rect) (width : Z) : RM unit :=
  usable ← strip_alloc 1;
  l ← strips;
  set_strips (take n l ++ MkStrip (r_xmin r) width usable [MkBlock (r_ymin r) (r_ysiz r)] :: drop n l).

(** [r.r_xsiz -= width; if (!r.r_xsiz) goto done; r.r_xmin += width;]: [None] is
    [goto done]. *)
Definition consume (r : rect) (width : Z) : option rect :=
  let xsiz := u32 (r_xsiz r - width) in
  if xsiz =? 0 then None
  else Some (MkRect (u32 (r_xmin r + width)) (r_ymin r) xsiz (r_ysiz r)).

(** The loop of both operations.  [body] is what an iteration does with a strip
    that ends after [r.r_xmin]: [None] is [goto done], otherwise it gives the
    next cursor and the rest of the rectangle; [goto again] is cursor 0.  [after]
    is what follows the loop. *)
Fixpoint strip_loop (body : nat -> rect -> Z -> RM (option (nat * rect)))
    (after : nat -> rect -> RM unit) (fuel n : nat) (r : rect) : RM unit :=
  match fuel with
  | O => fun _ => SPanic
  | S fuel =>
      l ← strips;
      match l !! n with
      | None => after n r
      | Some iter =>
          let strip_end := u32 (rs_xmin iter + rs_xsiz iter) in
          check_rects ≫= fun _ =>
          if strip_end <=? r_xmin r then strip_loop body after fuel (S n) r else
          j ← body n r strip_end;
          match j with
          | None => mret tt
          | Some (n, r) => strip_loop body after fuel n r
          end
      end
  end.

(** Enough iterations for a chain of [len] strips: an iteration that does not
    skip a strip finishes with one of those strips and adds at most three. *)
Definition loop_fuel (len : nat) : nat := S (len * (4 * len + 1)).

(** [r] starts before the strip: a new strip before it. *)
Definition insert_before (n : nat) (r : rect) : RM (option (nat * rect)) :=
  iter ← strip n;
  let insert_width := u32 (rs_xmin iter - r_xmin r) in
  let insert_width := if r_xsiz r <? insert_width then r_xsiz r else insert_width in
  scheck (negb (insert_width =? 0)) ≫= fun _ =>
  new_strip n r insert_width ≫= fun _ =>
  check_rects ≫= fun _ =>
  match consume r insert_width with
  | None =>
      rects_split_merge_next n ≫= fun _ =>
      merge_pred n ≫= fun _ =>
      check_rects ≫= fun _ => mret None
  | Some r =>
      merged ← merge_pred n;
      check_rects ≫= fun _ =>
      mret (Some (if merged : bool then n else S n, r))
  end.

(** [r] starts inside the strip: split it there. *)
Definition split_inside (n : nat) (r : rect) : RM (option (nat * rect)) :=
  iter ← strip n;
  rects_split_strip n (u32 (r_xmin r - rs_xmin iter)) ≫= fun _ =>
  check_rects ≫= fun _ => mret (Some (S n, r)).

(** The strip starts with [r]: split off what lies behind [r] and give the width. *)
Definition fit_strip (n : nat) (r : rect) : RM Z :=
  iter ← strip n;
  let width := if r_xsiz r <? rs_xsiz iter then r_xsiz r else rs_xsiz iter in
  (if width <? rs_xsiz iter then rects_split_strip n width ≫= fun _ => check_rects else mret tt) ≫= fun _ =>
  mret width.

(** Merge the strip [*piter] with its neighbours: the next cursor. *)
Definition merge_strips (n : nat) : RM nat :=
  merged ← merge_pred n;
  if merged : bool then
    check_rects ≫= fun _ =>
    again ← rects_split_merge_next (pred n);
    check_rects ≫= fun _ => mret (if again : bool then O else n)
  else
    merged ← rects_split_merge_next n;
    check_rects ≫= fun _ => mret (if merged : bool then n else S n).

Definition insert_overlap (n : nat) (r : rect) (strip_end : Z) : RM (option (nat * rect)) :=
  iter ← strip n;
  scheck (r_xmin r =? rs_xmin iter) ≫= fun _ =>
  scheck (u32 (rs_xmin iter + rs_xsiz iter) =? strip_end) ≫= fun _ =>
  insert_width ← fit_strip n r;
  iter ← strip n;
  scheck (r_xmin r =? rs_xmin iter) ≫= fun _ =>
  scheck (insert_width =? rs_xsiz iter) ≫= fun _ =>
  check_rects ≫= fun _ =>
  on_strip n (rects_split_insert_block (r_ymin r) (r_ysiz r)) ≫= fun _ =>
  check_rects ≫= fun _ =>
  n ← merge_strips n;
  mret ((fun r => (n, r)) <$> consume r insert_width).

Definition insert_body (n : nat) (r : rect) (strip_end : Z) : RM (option (nat * rect)) :=
  iter ← strip n;
  j ← (if r_xmin r <? rs_xmin iter then insert_before n r
       else if rs_xmin iter <? r_xmin r then split_inside n r
       else mret (Some (n, r)));
  match j with
  | None => mret None
  | Some (n, r) => insert_overlap n r strip_end
  end.

(** After the loop: append a strip. *)
Definition insert_after (n : nat) (r : rect) : RM unit :=
  check_rects ≫= fun _ =>
  new_strip n r (r_xsiz r) ≫= fun _ =>
  scheck (int_nonneg (r_xmin r)) ≫= fun _ =>
  scheck (int_nonneg (r_ymin r)) ≫= fun _ =>
  check_rects ≫= fun _ =>
  merge_pred n ≫= fun _ =>
  check_rects.

Definition rects_insert (r : rect) : RM unit :=
  check_rects ≫= fun _ =>
  (if (r_xsiz r =? 0) || (r_ysiz r =? 0) then mret tt
   else
     scheck (int_nonneg (r_xmin r)) ≫= fun _ =>
     scheck (int_nonneg (r_ymin r)) ≫= fun _ =>
     l ← strips;
     strip_loop insert_body insert_after (loop_fuel (length l)) 0 r) ≫= fun _ =>
  check_rects.

(** [r] starts before the strip: skip the gap. *)
Definition skip_gap (n : nat) (r : rect) : RM (option (nat * rect)) :=
  iter ← strip n;
  let remove_width := u32 (rs_xmin iter - r_xmin r) in
  let remove_width := if r_xsiz r <? remove_width then r_xsiz r else remove_width in
  match consume r remove_width with
  | None => mret None
  | Some r => check_rects ≫= fun _ => mret (Some (n, r))
  end.

Definition remove_overlap (n : nat) (r : rect) : RM (option (nat * rect)) :=
  iter ← strip n;
  scheck (r_xmin r =? rs_xmin iter) ≫= fun _ =>
  remove_width ← fit_strip n r;
  check_rects ≫= fun _ =>
  on_strip n (rects_split_remove_block (r_ymin r) (r_ysiz r)) ≫= fun _ =>
  iter ← strip n;
  n ← (if (rs_blkc iter =? 0)%nat then
         l ← strips;
         set_strips (take n l ++ drop (S n) l) ≫= fun _ =>
         check_rects ≫= fun _ => mret n
       else
         check_rects ≫= fun _ => merge_strips n);
  mret ((fun r => (n, r)) <$> consume r remove_width).

Definition remove_body (n : nat) (r : rect) (strip_end : Z) : RM (option (nat * rect)) :=
  iter ← strip n;
  j ← (if r_xmin r <? rs_xmin iter then skip_gap n r
       else if rs_xmin iter <? r_xmin r then split_inside n r
       else mret (Some (n, r)));
  match j with
  | None => mret None
  | Some (n, r) => remove_overlap n r
  end.

Definition rects_remove (r : rect) : RM unit :=
  check_rects ≫= fun _ =>
  (if (r_xsiz r =? 0) || (r_ysiz r =? 0) then mret tt
   else
     l ← strips;
     strip_loop remove_body (fun _ _ => mret tt) (loop_fuel (length l)) 0 r) ≫= fun _ =>
  check_rects.

(** Free the strips in order; the chain is dead afterwards. *)
Definition rects_fini : RM (list rect_strip) := check_rects ≫= fun _ => strips.

Definition shift_block (y_offset : Z) (b : rect_block) : rect_block :=
  MkBlock (u32 (rb_ymin b + y_offset)) (rb_ysiz b).
Definition move_strip (x_offset y_offset : Z) (usable : nat) (s : rect_strip) : rect_strip :=
  MkStrip (u32 (rs_xmin s + x_offset)) (rs_xsiz s) usable
    (if y_offset =? 0 then rs_blkv s else shift_block y_offset <$> rs_blkv s).

(** The loop of [rects_duplicate_and_move]: [copied] is what [dst] holds before
    [*pdst].  A copy still links to the successor of its original, so an exception
    leaves [dst] with the copies made and, behind the last of them, the strips of
    [src] itself; before the first copy it leaves [dst] alone. *)
Fixpoint duplicate_loop (copied : list rect_strip) (src : list rect_strip)
    (x_offset y_offset : Z) : RM unit :=
  match src with
  | [] => set_strips copied
  | iter :: src' =>
      usable ← strip_alloc (rs_blkc iter);
      let copied := copied ++ [move_strip x_offset y_offset usable iter] in
      set_strips (copied ++ src') ≫= fun _ =>
      duplicate_loop copied src' x_offset y_offset
  end.
Definition rects_duplicate_and_move (src : list rect_strip) (x_offset y_offset : Z) : RM unit :=
  duplicate_loop [] src x_offset y_offset.

Definition rects_move (x_offset y_offset : Z) : RM unit :=
  check_rects ≫= fun _ =>
  l ← strips;
  set_strips ((fun s => move_strip x_offset y_offset (rs_usable s) s) <$> l) ≫= fun _ =>
  check_rects.

(** The rectangles that [RECTS_FOREACH] visits, in order. *)
Definition RECTS_FOREACH (l : list rect_strip) : list rect :=
  s ← l; b ← rs_blkv s; [MkRect (rs_xmin s) (rb_ymin b) (rs_xsiz s) (rb_ysiz b)].
