(* ===== verification/RectBlocks.v ===== *)
(** Blocks of a strip: [rects_split_insert_block] adds a range of Y coordinates to
    the blocks and [rects_split_remove_block] takes one away; their assertions hold
    and their loops end.

    The meaning of the blocks is the set of the coordinates they cover, which stay
    below [2^31] as the [(int)] casts of the assertions ask for.  Both functions are
    one loop: what it computes ([op]) and how unfinished work relates to the start
    ([keep]) are parameters of its invariant. *)
From S2P Require Import Prelude Rect.
Open Scope Z_scope.

(** ** Blocks *)
Definition COORD_MAX : Z := 2147483647.

Definition in_block (b : rect_block) (y : Z) : Prop := rb_ymin b <= y < rb_ymin b + rb_ysiz b.
Definition bcov (v : list rect_block) (y : Z) : Prop := Exists (fun b => in_block b y) v.

(** Blocks from [lo] on, sorted, with a gap between two of them. *)
Fixpoint blocks_ok (lo : Z) (v : list rect_block) : Prop :=
  match v with
  | [] => True
  | b :: v =>
      lo <= rb_ymin b /\ 0 < rb_ysiz b /\ rb_ymin b + rb_ysiz b <= COORD_MAX /\
      blocks_ok (rb_ymin b + rb_ysiz b + 1) v
  end.
(** The first place for a block after [v]. *)
Fixpoint bnext (lo : Z) (v : list rect_block) : Z :=
  match v with [] => lo | b :: v => bnext (rb_ymin b + rb_ysiz b + 1) v end.

Lemma bcov_nil y : bcov [] y <-> False.
Proof. apply Exists_nil. Qed.
Lemma bcov_cons b v y : bcov (b :: v) y <-> in_block b y \/ bcov v y.
Proof. apply Exists_cons. Qed.
Lemma bcov_app v w y : bcov (v ++ w) y <-> bcov v y \/ bcov w y.
Proof. apply Exists_app. Qed.
Lemma blocks_ok_app lo v w : blocks_ok lo (v ++ w) <-> blocks_ok lo v /\ blocks_ok (bnext lo v) w.
Proof. revert lo; induction v as [|b v IH]; intros lo; cbn; [tauto|]. rewrite IH. tauto. Qed.
Lemma blocks_ok_mono lo lo' v : lo' <= lo -> blocks_ok lo v -> blocks_ok lo' v.
Proof. destruct v; cbn; [done|]. intuition lia. Qed.
Lemma bnext_app lo v w : bnext lo (v ++ w) = bnext (bnext lo v) w.
Proof. revert lo; induction v; intros lo; cbn; auto. Qed.
Lemma bnext_ge lo v : blocks_ok lo v -> lo <= bnext lo v.
Proof.
  revert lo; induction v as [|b v IH]; intros lo; cbn; [lia|].
  intros (?&?&?&H). specialize (IH _ H). lia.
Qed.
Lemma bcov_range lo v y : blocks_ok lo v -> bcov v y -> lo <= y < bnext lo v - 1.
Proof.
  revert lo; induction v as [|b v IH]; intros lo; [by rewrite bcov_nil|].
  rewrite bcov_cons; cbn. intros (?&?&?&H) [[??]|Hy].
  - apply bnext_ge in H. lia.
  - specialize (IH _ H Hy). lia.
Qed.
Lemma bcov_below lo v y : blocks_ok lo v -> y < lo -> ~ bcov v y.
Proof. intros H ? Hy. apply (bcov_range lo) in Hy; [lia|done]. Qed.
Lemma bcov_above lo v y : blocks_ok lo v -> bnext lo v - 1 <= y -> ~ bcov v y.
Proof. intros H ? Hy. apply (bcov_range lo) in Hy; [lia|done]. Qed.
Lemma blocks_cover lo v : blocks_ok lo v -> v <> [] -> exists y, bcov v y.
Proof.
  destruct v as [|b v]; [done|]. intros (?&?&_) _. exists (rb_ymin b). apply bcov_cons. left.
  unfold in_block. lia.
Qed.
Lemma bcov_nonempty v y : bcov v y -> v <> [].
Proof. intros H ->. by apply bcov_nil in H. Qed.
Lemma blocks_ok_assert lo v : 0 <= lo -> blocks_ok lo v -> v <> [] -> blocks_assert v = true.
Proof.
  revert lo; induction v as [|b v IH]; intros lo ? H Hv; [done|].
  destruct H as (?&?&?&H). unfold COORD_MAX in *. cbn. unfold int_nonneg.
  destruct v as [|c v]; [lia|].
  rewrite (IH (rb_ymin b + rb_ysiz b + 1)) by (done || lia).
  destruct H as (?&?&?&?). rewrite u32_small by lia. lia.
Qed.

(** A strip whose blocks fit it. *)
Definition strip_wf (self : rect_strip) : Prop :=
  blocks_ok 0 (rs_blkv self) /\ (rs_blkc self <= rs_usable self)%nat.
Definition same_x (a b : rect_strip) : Prop := rs_xmin a = rs_xmin b /\ rs_xsiz a = rs_xsiz b.

(** Insertion and removal of a set of points. *)
Definition join (c i : Prop) : Prop := c \/ i.
Definition minus (c i : Prop) : Prop := c /\ ~ i.
Definition grows (c c' : Prop) : Prop := c -> c'.
Definition shrinks (c c' : Prop) : Prop := c' -> c.
Definition yrange (ymin ysiz y : Z) : Prop := ymin <= y < ymin + ysiz.

Section BlockLoop.
(** [op]: what is computed; [keep]: how unfinished work relates to the start. *)
Context (op keep : Prop -> Prop -> Prop) (gap : Z).

(** Before block [i]: [k] blocks are left, those before lie below [ymin], and the
    rest of the work on [v] gives what the whole work on [v0] was to give. *)
Definition block_inv (self0 : rect_strip) (y0 s0 : Z) (k i : nat) (ymin ysiz : Z) (s : sstate) : Prop :=
  same_x (ss_self s) self0 /\ strip_wf (ss_self s) /\
  0 <= ymin /\ 0 < ysiz /\ ymin + ysiz <= COORD_MAX /\
  (forall y, op (bcov (rs_blkv (ss_self s)) y) (yrange ymin ysiz y)
             <-> op (bcov (rs_blkv self0) y) (yrange y0 s0 y)) /\
  (forall y, keep (bcov (rs_blkv self0) y) (bcov (rs_blkv (ss_self s)) y)) /\
  exists pre rest, rs_blkv (ss_self s) = pre ++ rest /\ length pre = i /\
    bnext 0 pre <= ymin + gap /\ (length rest <= k)%nat.
Definition block_done (self0 : rect_strip) (y0 s0 : Z) (s : sstate) : Prop :=
  same_x (ss_self s) self0 /\ strip_wf (ss_self s) /\
  (forall y, bcov (rs_blkv (ss_self s)) y <-> op (bcov (rs_blkv self0) y) (yrange y0 s0 y)).
Definition jump_ok (self0 : rect_strip) (y0 s0 : Z) (k i : nat) (j : jump) (s : sstate) : Prop :=
  match j with
  | Done => block_done self0 y0 s0 s
  | Next ymin ysiz => block_inv self0 y0 s0 k (S i) ymin ysiz s
  | Again ymin ysiz => block_inv self0 y0 s0 k i ymin ysiz s
  end.

Context (step : nat -> Z -> Z -> BM jump) (after : nat -> Z -> Z -> BM unit).
Context (self0 : rect_strip) (y0 s0 : Z) (R : error_code -> sstate -> Prop).
Context (step_ok : forall k i ymin ysiz s, block_inv self0 y0 s0 (S k) i ymin ysiz s ->
  (i < rs_blkc (ss_self s))%nat -> srun (step i ymin ysiz) s (jump_ok self0 y0 s0 k i) R).
Context (after_ok : forall i ymin ysiz s, block_inv self0 y0 s0 0 i ymin ysiz s ->
  rs_blkc (ss_self s) = i -> srun (after i ymin ysiz) s (fun _ => block_done self0 y0 s0) R).

Lemma block_inv_end k i ymin ysiz s :
  block_inv self0 y0 s0 k i ymin ysiz s -> (rs_blkc (ss_self s) <= i)%nat ->
  block_inv self0 y0 s0 0 i ymin ysiz s /\ rs_blkc (ss_self s) = i.
Proof.
  intros (?&?&?&?&?&?&?&pre&rest&Hv&?&?&?). unfold rs_blkc. rewrite Hv, length_app. intros ?.
  assert (length rest = 0)%nat by lia. split; [|lia].
  do 7 (split; [assumption|]). exists pre, rest. repeat split; (done || lia).
Qed.

Lemma block_loop_ok fuel k i ymin ysiz s :
  (k < fuel)%nat -> block_inv self0 y0 s0 k i ymin ysiz s ->
  srun (scan_blocks step after fuel i ymin ysiz) s (fun _ => block_done self0 y0 s0) R.
Proof.
  revert k i ymin ysiz s. induction fuel as [|fuel IH]; intros k i ymin ysiz s ? H; [lia|].
  cbn [scan_blocks]. apply srun_bind. change (srun _ s) with (srun (mret (rs_blkv (ss_self s)) : BM _) s).
  apply srun_ret. destruct (Nat.ltb_spec i (length (rs_blkv (ss_self s)))) as [Hi|Hi].
  - destruct k as [|k].
    { destruct H as (?&?&?&?&?&?&?&pre&rest&Hv&?&?&?). rewrite Hv, length_app in Hi. lia. }
    apply srun_bind. eapply srun_mono; [apply (step_ok k); done | | done].
    intros [|ymin' ysiz'|ymin' ysiz'] s' Hj; cbn in Hj; [by apply srun_ret| |];
      apply (IH k); (done || lia).
  - apply after_ok; eapply block_inv_end; done.
Qed.
End BlockLoop.

(** ** Steps of the block functions *)
Definition with_blkv (s : sstate) (v : list rect_block) : sstate :=
  MkSs (MkStrip (rs_xmin (ss_self s)) (rs_xsiz (ss_self s)) (rs_usable (ss_self s)) v) (ss_mem s).

Section Steps.
Context {A : Type} (s : sstate) (Q : A -> sstate -> Prop) (R : error_code -> sstate -> Prop).

Lemma run_check b (f : unit -> BM A) : b = true -> srun (f tt) s Q R -> srun (scheck b ≫= f) s Q R.
Proof. intros -> H. exact H. Qed.
Lemma run_blkv (f : list rect_block -> BM A) :
  srun (f (rs_blkv (ss_self s))) s Q R -> srun (blkv ≫= f) s Q R.
Proof. intros H. exact H. Qed.
Lemma run_blk i b (f : rect_block -> BM A) :
  rs_blkv (ss_self s) !! i = Some b -> srun (f b) s Q R -> srun (blk i ≫= f) s Q R.
Proof.
  intros Hi H. change (srun (slift (access (rs_blkv (ss_self s) !! i)) ≫= f) s Q R).
  rewrite Hi. exact H.
Qed.
Lemma run_set_blkv v (f : unit -> BM A) :
  srun (f tt) (with_blkv s v) Q R -> srun (set_blkv v ≫= f) s Q R.
Proof. intros H. exact H. Qed.
Lemma run_set_blk i b v (f : unit -> BM A) :
  <[i := b]> (rs_blkv (ss_self s)) = v ->
  srun (f tt) (with_blkv s v) Q R -> srun (set_blk i b ≫= f) s Q R.
Proof. intros <- H. exact H. Qed.
End Steps.

Ltac u32s := unfold COORD_MAX in *;
  repeat match goal with
         | |- context [u32 ?z] =>
             lazymatch z with context [u32 _] => fail | _ => rewrite (u32_small z) by lia end
         end.

Lemma pred_ok_bnext pre post y :
  blocks_ok 0 pre -> bnext 0 pre <= y ->
  pred_ok (pre ++ post) (length pre) (fun b => block_end b <? y) = true.
Proof.
  destruct pre as [|p pre _] using rev_ind; [done|]. rewrite blocks_ok_app, bnext_app, length_app. cbn.
  intros (Hp&?&?&?&_) ?. apply bnext_ge in Hp. rewrite Nat.add_comm. cbn.
  rewrite <- app_assoc. cbn [app]. rewrite list_lookup_middle by done. unfold block_end. u32s. lia.
Qed.

Lemma grow_blocks_ok s :
  strip_wf (ss_self s) ->
  srun grow_blocks s (fun _ s' => same_x (ss_self s') (ss_self s) /\
      rs_blkv (ss_self s') = rs_blkv (ss_self s) /\ (rs_blkc (ss_self s) < rs_usable (ss_self s'))%nat)
    (fun _ s' => ss_self s' = ss_self s).
Proof.
  intros [? Hu]. unfold grow_blocks. apply run_blkv.
  change (srun (scheck (rs_blkc (ss_self s) <=? rs_usable (ss_self s))%nat ≫= fun _ =>
    if (rs_usable (ss_self s) =? rs_blkc (ss_self s))%nat
    then xrealloc (rs_usable (ss_self s) + 1) else mret tt) s
    (fun _ s' => same_x (ss_self s') (ss_self s) /\
      rs_blkv (ss_self s') = rs_blkv (ss_self s) /\ (rs_blkc (ss_self s) < rs_usable (ss_self s'))%nat)
    (fun _ s' => ss_self s' = ss_self s)).
  apply run_check; [lia|]. destruct (Nat.eqb_spec (rs_usable (ss_self s)) (rs_blkc (ss_self s))).
  - unfold srun, xrealloc. destruct (ss_mem s 0%nat); [|done]. cbn. split; [done|]. split; [done|]. lia.
  - apply srun_ret. split; [done|]. split; [done|]. lia.
Qed.

(** [y], [ys] fits between [pre] and [post]. *)
Definition fits (pre post : list rect_block) (y ys : Z) : Prop :=
  bnext 0 pre <= y /\ 0 < ys /\ y + ys <= COORD_MAX /\
  match post with b :: _ => y + ys < rb_ymin b | [] => True end.

Lemma fits_ok pre post y ys :
  blocks_ok 0 (pre ++ post) -> fits pre post y ys -> blocks_ok 0 (pre ++ MkBlock y ys :: post).
Proof.
  rewrite !blocks_ok_app. intros [Hp Hq] (?&?&?&Hb). split; [done|]. cbn.
  repeat (split; [lia|]). destruct post as [|b post]; [done|]. cbn in *. intuition lia.
Qed.

Lemma insert_at_ok pre post y ys s :
  strip_wf (ss_self s) -> rs_blkv (ss_self s) = pre ++ post -> fits pre post y ys ->
  srun (rects_split_insert_block_at (length pre) y ys) s
    (fun _ s' => same_x (ss_self s') (ss_self s) /\ strip_wf (ss_self s') /\
                 rs_blkv (ss_self s') = pre ++ MkBlock y ys :: post)
    (fun _ s' => ss_self s' = ss_self s).
Proof.
  intros Hw Hv Hf. pose proof Hw as [Hok _]. rewrite Hv in Hok.
  pose proof (fits_ok _ _ _ _ Hok Hf) as Hok'. destruct Hf as (Hp&?&?&Hb).
  apply blocks_ok_app in Hok as [Hpre Hpost]. pose proof (bnext_ge _ _ Hpre).
  unfold rects_split_insert_block_at. apply run_blkv. rewrite Hv.
  apply run_check; [rewrite length_app; lia|].
  apply run_check.
  { rewrite lookup_app_r, Nat.sub_diag by lia. destruct post as [|b post]; [done|]. cbn.
    destruct Hpost as (?&?&?&?). u32s. lia. }
  apply run_check; [by apply pred_ok_bnext|]. apply srun_bind.
  eapply srun_mono; [by apply grow_blocks_ok | | done].
  intros [] s' (?&Hv'&Hu). cbn. rewrite take_app_length, drop_app_length.
  split; [done|]. split; [|done]. split; [done|]. cbn.
  unfold rs_blkc in *. cbn in *. rewrite Hv in Hu. rewrite length_app in *. cbn. lia.
Qed.

Ltac covers_at :=
  unfold join, minus, yrange, grows, shrinks in *; cbn [with_blkv ss_self rs_blkv];
  repeat rewrite ?bcov_app, ?bcov_cons, ?bcov_nil; unfold in_block; cbn [rb_ymin rb_ysiz]; first [lia | intuition lia].
Ltac covers := intros ?; covers_at.

Lemma jump_ok_trans op keep gap self0 y0 s0 self1 y1 s1 k k' i j s :
  (forall c c' c'', keep c c' -> keep c' c'' -> keep c c'') ->
  same_x self1 self0 -> (k' <= k)%nat ->
  (forall y, op (bcov (rs_blkv self1) y) (yrange y1 s1 y) <-> op (bcov (rs_blkv self0) y) (yrange y0 s0 y)) ->
  (forall y, keep (bcov (rs_blkv self0) y) (bcov (rs_blkv self1) y)) ->
  jump_ok op keep gap self1 y1 s1 k' i j s -> jump_ok op keep gap self0 y0 s0 k i j s.
Proof.
  intros Ht [Hx Hw] ? Hc Hk.
  assert (Hinv : forall i ymin ysiz, block_inv op keep gap self1 y1 s1 k' i ymin ysiz s ->
                              block_inv op keep gap self0 y0 s0 k i ymin ysiz s).
  { intros i' ymin ysiz ([??]&?&?&?&?&Hs&Hks&pre&rest&?&?&?&?). split; [split; congruence|].
    do 4 (split; [done|]). split; [intros y; by rewrite Hs, Hc|]. split; [eauto|].
    exists pre, rest. repeat split; (done || lia). }
  destruct j as [|ymin ysiz|ymin ysiz]; [|apply Hinv|apply Hinv].
  intros ([??]&?&Hs). split; [split; congruence|]. split; [done|]. intros y. by rewrite Hs, Hc.
Qed.
Lemma grows_trans c c' c'' : grows c c' -> grows c' c'' -> grows c c''.
Proof. unfold grows. tauto. Qed.
Lemma shrinks_trans c c' c'' : shrinks c c' -> shrinks c' c'' -> shrinks c c''.
Proof. unfold shrinks. tauto. Qed.

(** A block in the middle of the blocks, and the strip with that block changed. *)
Record mid (s : sstate) (pre : list rect_block) (b : rect_block) (rest : list rect_block) : Prop := {
  mid_wf : strip_wf (ss_self s);
  mid_v : rs_blkv (ss_self s) = pre ++ b :: rest
}.
Lemma mid_facts s pre b rest : mid s pre b rest ->
  blocks_ok 0 pre /\ 0 <= bnext 0 pre <= rb_ymin b /\ 0 < rb_ysiz b /\ rb_ymin b + rb_ysiz b <= COORD_MAX /\
  blocks_ok (rb_ymin b + rb_ysiz b + 1) rest /\ (length pre + S (length rest) <= rs_usable (ss_self s))%nat.
Proof.
  intros [[H Hu] Hv]. unfold rs_blkc in Hu. rewrite Hv in *. rewrite length_app in Hu. cbn in Hu.
  apply blocks_ok_app in H as [H1 (?&?&?&?)]. pose proof (bnext_ge _ _ H1). repeat split; (done || lia).
Qed.
Lemma mid_upd s pre b rest v : mid s pre b rest ->
  blocks_ok 0 (pre ++ v) -> (length v <= S (length rest))%nat -> strip_wf (ss_self (with_blkv s (pre ++ v))).
Proof.
  intros H ? ?. apply mid_facts in H as (?&?&?&?&?&?). split; [done|].
  unfold rs_blkc. cbn. rewrite length_app. lia.
Qed.

Lemma extend_upwards_ok pre b rest s ysiz R :
  mid s pre b rest -> 0 < ysiz -> rb_ymin b + rb_ysiz b + ysiz <= COORD_MAX ->
  srun (extend_upwards (length pre) (rb_ymin b + rb_ysiz b) (rb_ymin b + rb_ysiz b) ysiz) s
    (jump_ok join grows 0 (ss_self s) (rb_ymin b + rb_ysiz b) ysiz (length rest) (length pre)) R.
Proof.
  intros Hm ? ?. pose proof (mid_facts _ _ _ _ Hm) as (Hpre&?&?&?&Hrest&?).
  pose proof (mid_v _ _ _ _ Hm) as Hv.
  unfold extend_upwards. apply (run_blk _ _ _ _ b); [by rewrite Hv, list_lookup_middle|].
  apply run_blkv. rewrite Hv, lookup_app_r by lia. replace (S (length pre) - length pre)%nat with 1%nat by lia.
  cbn [lookup list_lookup]. destruct rest as [|next rest]; cbn [lookup list_lookup].
  { apply (run_set_blk _ _ _ _ _ (pre ++ [MkBlock (rb_ymin b) (rb_ysiz b + ysiz)])).
    { rewrite Hv, insert_app_r_alt, Nat.sub_diag by lia. cbn. by u32s. }
    apply srun_ret. split; [done|]. split.
    - eapply mid_upd; [done| |done]. rewrite blocks_ok_app. cbn. split; [done|]. lia.
    - rewrite Hv. covers. }
  destruct Hrest as (?&?&?&Hrest). apply run_check; [lia|].
  rewrite (u32_small (rb_ymin next - _)) by (unfold COORD_MAX in *; lia).
  destruct (Z.ltb_spec ysiz (rb_ymin next - (rb_ymin b + rb_ysiz b))).
  - apply (run_set_blk _ _ _ _ _ (pre ++ MkBlock (rb_ymin b) (rb_ysiz b + ysiz) :: next :: rest)).
    { rewrite Hv, insert_app_r_alt, Nat.sub_diag by lia. cbn. by u32s. }
    unfold block_end. cbn [rb_ymin rb_ysiz]. u32s. do 2 (apply run_check; [lia|]).
    rewrite (proj2 (Z.eqb_neq _ _)) by lia. rewrite Z.sub_diag. apply srun_ret.
    split; [done|]. split.
    + eapply mid_upd; [done| |done]. rewrite blocks_ok_app. cbn. unfold COORD_MAX. intuition lia.
    + rewrite Hv. covers.
  - set (v' := pre ++ MkBlock (rb_ymin b) (rb_ymin next - rb_ymin b + rb_ysiz next) :: rest).
    apply (run_set_blk _ _ _ _ _ (pre ++ MkBlock (rb_ymin b) (rb_ymin next - rb_ymin b) :: next :: rest)).
    { rewrite Hv, insert_app_r_alt, Nat.sub_diag by lia. cbn. u32s. do 3 f_equal. lia. }
    unfold block_end. cbn [rb_ymin rb_ysiz].
    replace (rb_ysiz b + (rb_ymin next - (rb_ymin b + rb_ysiz b))) with (rb_ymin next - rb_ymin b) by lia.
    u32s. do 2 (apply run_check; [lia|]).
    rewrite (proj2 (Z.eqb_eq _ _)) by lia.
    assert (Hwf : strip_wf (ss_self (with_blkv s v'))).
    { eapply mid_upd; [done| |cbn; lia]. rewrite blocks_ok_app. cbn. unfold COORD_MAX.
      replace (_ + (_ + _) + 1) with (rb_ymin next + rb_ysiz next + 1) by lia. intuition lia. }
    apply run_set_blkv.
    replace (take _ _ ++ _) with v' by (unfold v'; rewrite take_app_length, drop_app_add; done).
    apply srun_ret. destruct (Z.eqb_spec (ysiz - (rb_ymin next - (rb_ymin b + rb_ysiz b))) 0).
    + split; [done|]. split; [exact Hwf|]. rewrite Hv. unfold v'. covers.
    + split; [done|]. split; [exact Hwf|].
      do 3 (split; [unfold COORD_MAX; lia|]). do 2 (split; [rewrite Hv; unfold v'; covers|]).
      exists pre. eexists. split; [done|]. split; [done|]. split; [lia|]. cbn. lia.
Qed.

Lemma extend_block_ok pre b rest s ymin ysiz R :
  mid s pre b rest -> rb_ymin b <= ymin <= rb_ymin b + rb_ysiz b ->
  0 < ysiz -> ymin + ysiz <= COORD_MAX ->
  srun (extend_block (length pre) (rb_ymin b + rb_ysiz b) ymin ysiz) s
    (jump_ok join grows 0 (ss_self s) ymin ysiz (length rest) (length pre)) R.
Proof.
  intros Hm Hy ? ?. pose proof (mid_facts _ _ _ _ Hm) as (Hpre&?&?&?&Hrest&?).
  pose proof (mid_v _ _ _ _ Hm) as Hv. remember (rb_ymin b + rb_ysiz b) as bend eqn:Hbend.
  unfold extend_block. apply (run_blk _ _ _ _ b); [by rewrite Hv, list_lookup_middle|].
  apply run_check; [lia|]. u32s. destruct (Z.leb_spec ysiz (bend - ymin)) as [|Hlt].
  { apply srun_ret. split; [done|]. split; [apply Hm|]. rewrite Hv. covers. }
  replace (ymin + (bend - ymin)) with bend by lia. u32s. apply run_check; [lia|].
  eapply srun_mono; [rewrite Hbend; apply extend_upwards_ok; [done|lia|unfold COORD_MAX; lia] | | done].
  intros j s'. apply jump_ok_trans; [apply grows_trans|done|done|rewrite Hv; covers|by intros ??].
Qed.

Lemma extend_down_ok pre b rest s ymin ysiz R :
  mid s pre b rest -> bnext 0 pre <= ymin + 0 -> ymin < rb_ymin b -> rb_ymin b <= ymin + ysiz ->
  0 <= ymin -> ymin + ysiz <= COORD_MAX ->
  srun (let insert_height := u32 (rb_ymin b - ymin) in
        set_blk (length pre) (MkBlock (u32 (rb_ymin b - insert_height)) (u32 (rb_ysiz b + insert_height)))
          ≫= fun _ => extend_block (length pre) (rb_ymin b + rb_ysiz b) ymin ysiz) s
    (jump_ok join grows 0 (ss_self s) ymin ysiz (length rest) (length pre)) R.
Proof.
  intros Hm ? ? ? ? ?. pose proof (mid_facts _ _ _ _ Hm) as (Hpre&?&?&?&Hrest&?).
  pose proof (mid_v _ _ _ _ Hm) as Hv. cbv zeta.
  set (b' := MkBlock ymin (rb_ysiz b + (rb_ymin b - ymin))).
  apply (run_set_blk _ _ _ _ _ (pre ++ b' :: rest)).
  { rewrite Hv, insert_app_r_alt, Nat.sub_diag by lia. cbn. unfold b'. u32s. do 3 f_equal. lia. }
  assert (Hm' : mid (with_blkv s (pre ++ b' :: rest)) pre b' rest).
  { split; [|done]. eapply mid_upd; [done| |done]. rewrite blocks_ok_app. cbn. unfold COORD_MAX in *.
    replace (_ + (_ + _) + 1) with (rb_ymin b + rb_ysiz b + 1) by lia. intuition lia. }
  eapply srun_mono; [replace (rb_ymin b + rb_ysiz b) with (rb_ymin b' + rb_ysiz b') by (cbn; lia);
                     eapply extend_block_ok; [apply Hm'|cbn; lia|lia|done] | |done].
  intros j s'. apply jump_ok_trans; [apply grows_trans|done|done|rewrite Hv; unfold b'; covers..].
Qed.

(** The strip after an exception in the middle of the work. *)
Definition block_part (op keep : Prop -> Prop -> Prop) (self0 : rect_strip) (y0 s0 : Z) (s : sstate) : Prop :=
  same_x (ss_self s) self0 /\ strip_wf (ss_self s) /\
  (strip_wf self0 -> rs_blkv self0 <> [] -> rs_blkv (ss_self s) <> []) /\
  forall y, keep (bcov (rs_blkv self0) y) (bcov (rs_blkv (ss_self s)) y) /\
            (bcov (rs_blkv (ss_self s)) y -> bcov (rs_blkv self0) y \/ yrange y0 s0 y).

Lemma block_inv_mid op keep gap self0 y0 s0 k i ymin ysiz s :
  block_inv op keep gap self0 y0 s0 (S k) i ymin ysiz s -> (i < rs_blkc (ss_self s))%nat ->
  exists pre b rest, mid s pre b rest /\ i = length pre /\ bnext 0 pre <= ymin + gap /\ (length rest <= k)%nat.
Proof.
  intros (?&?&?&?&?&?&?&pre&[|b rest]&Hv&?&?&?); unfold rs_blkc; rewrite Hv, length_app; cbn in *; [lia|].
  intros _. exists pre, b, rest. repeat split; (done || lia || apply H0).
Qed.

Lemma succ_ok_mid s pre b rest : mid s pre b rest ->
  succ_ok (pre ++ b :: rest) (length pre) (fun b' => rb_ymin b + rb_ysiz b <? rb_ymin b') = true.
Proof.
  intros Hm. apply mid_facts in Hm as (?&?&?&?&Hr&?). unfold succ_ok.
  rewrite lookup_app_r by lia. replace (S (length pre) - length pre)%nat with 1%nat by lia.
  cbn. destruct rest as [|c rest]; [done|]. cbn in *. lia.
Qed.
Lemma mid_end s pre b rest : mid s pre b rest -> block_end b = rb_ymin b + rb_ysiz b.
Proof. intros Hm. apply mid_facts in Hm as (?&?&?&?&?). unfold block_end. by u32s. Qed.

Section InsertBlock.
Context (self0 : rect_strip) (y0 s0 : Z).
Notation inv := (block_inv join grows 0 self0 y0 s0).
Notation part := (fun _ : error_code => block_part join grows self0 y0 s0).

Lemma inv_part k i ymin ysiz s s' e :
  inv k i ymin ysiz s -> ss_self s' = ss_self s -> part e s'.
Proof.
  intros (?&?&?&?&?&Hj&Hk&?) Hs. unfold block_part. rewrite Hs. split; [done|]. split; [done|].
  split. { intros [Hw _] Hne. destruct (blocks_cover _ _ Hw Hne) as [y Hy]. by eapply bcov_nonempty, Hk. }
  intros y. split; [done|]. intros Hy. apply (Hj y). by left.
Qed.
Lemma insert_step_ok k i ymin ysiz s :
  inv (S k) i ymin ysiz s -> (i < rs_blkc (ss_self s))%nat ->
  srun (insert_step i ymin ysiz) s (jump_ok join grows 0 self0 y0 s0 k i) part.
Proof.
  intros Hi Hlt. destruct (block_inv_mid _ _ _ _ _ _ _ _ _ _ _ Hi Hlt) as (pre&b&rest&Hm&->&Hp&Hr).
  pose proof (mid_facts _ _ _ _ Hm) as (Hpre&?&?&?&Hrest&?). pose proof (mid_v _ _ _ _ Hm) as Hv.
  pose proof Hi as (Hx&Hwf&?&?&?&Hj&Hk&_).
  eapply srun_mono with (Q := jump_ok join grows 0 (ss_self s) ymin ysiz (length rest) (length pre))
    (R := fun _ s' => ss_self s' = ss_self s).
  2: { intros j s'. by apply jump_ok_trans; [apply grows_trans|..]. }
  2: { intros e s' Hs. by eapply inv_part. }
  unfold insert_step. apply run_blkv. apply (run_blk _ _ _ _ b); [by rewrite Hv, list_lookup_middle|].
  rewrite (mid_end _ _ _ _ Hm), Hv.
  apply run_check; [by eapply succ_ok_mid|]. do 2 (apply run_check; [apply pred_ok_bnext; (done || lia)|]).
  destruct (Z.ltb_spec (rb_ymin b + rb_ysiz b) ymin).
  { apply srun_ret. split; [done|]. split; [done|]. do 3 (split; [done|]). split; [done|].
    split; [by intros ??|]. exists (pre ++ [b]), rest. rewrite bnext_app, length_app. cbn.
    rewrite <- app_assoc. repeat split; (done || lia). }
  destruct (Z.ltb_spec ymin (rb_ymin b)).
  2: { apply extend_block_ok; (done || lia). }
  rewrite (u32_small (ymin + ysiz)) by (unfold COORD_MAX in *; lia).
  destruct (Z.leb_spec (rb_ymin b) (ymin + ysiz)); [by apply extend_down_ok|].
  apply srun_bind. eapply srun_mono; [apply (insert_at_ok pre (b :: rest)); [done|done|] | |done].
  { split; [lia|]. split; [lia|]. split; [lia|]. lia. }
  intros [] s' (?&?&Hv'). apply srun_ret. split; [done|]. split; [done|]. rewrite Hv, Hv'. covers.
Qed.

Lemma append_block_ok i ymin ysiz s :
  inv 0 i ymin ysiz s -> rs_blkc (ss_self s) = i ->
  srun (append_block i ymin ysiz) s (fun _ => block_done join self0 y0 s0) part.
Proof.
  intros Hi Hl. pose proof Hi as (Hx&Hwf&?&?&?&Hj&Hk&pre&rest&Hv&?&?&?).
  assert (rest = []) as -> by (apply length_zero_iff_nil; lia). rewrite app_nil_r in Hv.
  unfold append_block. apply run_blkv. apply run_check; [unfold rs_blkc in Hl; lia|].
  apply srun_bind. eapply srun_mono; [by apply grow_blocks_ok | |intros e s' Hs; by eapply inv_part].
  intros [] s' ([Hx1 Hx2]&Hv'&Hu). destruct Hx as [Hx Hw]. destruct Hwf as [Hok _].
  split; [split; cbn; congruence|]. split.
  - split; cbn.
    + rewrite Hv in *. apply blocks_ok_app. split; [done|]. cbn. lia.
    + unfold rs_blkc in *. cbn. rewrite length_app. cbn. lia.
  - intros y. rewrite <- Hj. revert y. covers.
Qed.

Lemma rects_split_insert_block_ok s :
  ss_self s = self0 -> strip_wf self0 -> 0 <= y0 -> 0 < s0 -> y0 + s0 <= COORD_MAX ->
  srun (rects_split_insert_block y0 s0) s (fun _ => block_done join self0 y0 s0) part.
Proof.
  intros Hs ????. unfold rects_split_insert_block. apply run_check; [lia|]. apply run_blkv.
  apply (block_loop_ok join grows 0) with (k := rs_blkc (ss_self s)).
  - intros; by apply insert_step_ok.
  - apply append_block_ok.
  - unfold rs_blkc. lia.
  - unfold block_inv. rewrite Hs. split; [done|]. do 4 (split; [done|]). split; [done|]. split; [by intros ??|].
    eexists [], _. split; [done|]. split; [done|]. split; [cbn; lia|]. done.
Qed.
End InsertBlock.

(** Blocks around the one that is worked on stay away from it. *)
Ltac covers_around Hpre Hrest :=
  let y := fresh "y" in
  intros y; pose proof (bcov_range _ _ y Hpre); pose proof (bcov_range _ _ y Hrest); covers_at.

Section RemoveBlock.
Context (self0 : rect_strip) (y0 s0 : Z).
Notation inv := (block_inv minus shrinks 1 self0 y0 s0).
Notation part := (fun _ : error_code => block_part minus shrinks self0 y0 s0).
Notation step s ymin ysiz rest pre :=
  (jump_ok minus shrinks 1 (ss_self s) ymin ysiz (length rest) (length pre)).

Lemma trim_block_ok pre b rest s ysiz R :
  mid s pre b rest -> 0 < ysiz -> rb_ymin b + ysiz <= COORD_MAX ->
  srun (trim_block (length pre) (rb_ymin b) ysiz) s (step s (rb_ymin b) ysiz rest pre) R.
Proof.
  intros Hm ? ?. pose proof (mid_facts _ _ _ _ Hm) as (Hpre&?&?&?&Hrest&?).
  pose proof (mid_v _ _ _ _ Hm) as Hv.
  unfold trim_block. apply (run_blk _ _ _ _ b); [by rewrite Hv, list_lookup_middle|].
  apply run_check; [lia|]. destruct (Z.leb_spec (rb_ysiz b) ysiz).
  - apply run_blkv, run_set_blkv. rewrite Hv, take_app_length, drop_app_add. cbn [drop].
    u32s. apply srun_ret.
    assert (Hwf : strip_wf (ss_self (with_blkv s (pre ++ rest)))).
    { eapply mid_upd; [done| |lia]. apply blocks_ok_app. split; [done|].
      eapply blocks_ok_mono; [|done]. lia. }
    destruct (Z.eqb_spec (ysiz - rb_ysiz b) 0).
    + split; [done|]. split; [exact Hwf|]. rewrite Hv. covers_around Hpre Hrest.
    + split; [done|]. split; [exact Hwf|]. do 3 (split; [unfold COORD_MAX; lia|]).
      do 2 (split; [rewrite Hv; covers_around Hpre Hrest|]).
      exists pre, rest. repeat split; (done || lia).
  - apply (run_set_blk _ _ _ _ _ (pre ++ MkBlock (rb_ymin b + ysiz) (rb_ysiz b - ysiz) :: rest)).
    { rewrite Hv, insert_app_r_alt, Nat.sub_diag by lia. cbn. by u32s. }
    apply srun_ret. split; [done|]. split.
    + eapply mid_upd; [done| |done]. rewrite blocks_ok_app. cbn.
      replace (_ + (_ - _) + 1) with (rb_ymin b + rb_ysiz b + 1) by lia. intuition lia.
    + rewrite Hv. covers_around Hpre Hrest.
Qed.

(** The range starts inside the block. *)
Lemma cut_block_ok pre b rest s ymin ysiz :
  mid s pre b rest -> rb_ymin b < ymin < rb_ymin b + rb_ysiz b -> 0 < ysiz ->
  ymin + ysiz < rb_ymin b + rb_ysiz b ->
  srun (set_blk (length pre) (MkBlock (rb_ymin b) (u32 (ymin - rb_ymin b))) ≫= fun _ =>
        rects_split_insert_block_at (length pre + 1) (u32 (ymin + ysiz))
          (u32 (rb_ymin b + rb_ysiz b - u32 (ymin + ysiz))) ≫= fun _ => mret Done) s
    (step s ymin ysiz rest pre) (fun _ => block_part minus shrinks (ss_self s) ymin ysiz).
Proof.
  intros Hm Hy ? ?. pose proof (mid_facts _ _ _ _ Hm) as (Hpre&?&?&?&Hrest&?).
  pose proof (mid_v _ _ _ _ Hm) as Hv. u32s. set (b' := MkBlock (rb_ymin b) (ymin - rb_ymin b)).
  apply (run_set_blk _ _ _ _ _ ((pre ++ [b']) ++ rest)).
  { rewrite Hv, insert_app_r_alt, Nat.sub_diag by lia. by rewrite <- app_assoc. }
  assert (Hwf : strip_wf (ss_self (with_blkv s ((pre ++ [b']) ++ rest)))).
  { rewrite <- app_assoc. eapply mid_upd; [done| |done]. rewrite blocks_ok_app. cbn. split; [done|].
    repeat (split; [unfold COORD_MAX; lia|]). eapply blocks_ok_mono; [|done]. lia. }
  apply srun_bind. replace (length pre + 1)%nat with (length (pre ++ [b'])) by (rewrite length_app; done).
  eapply srun_mono; [apply insert_at_ok; [exact Hwf|done|] | |].
  - split; [rewrite bnext_app; cbn; lia|]. split; [lia|]. split; [unfold COORD_MAX; lia|].
    destruct rest; cbn in *; lia.
  - intros [] s' (?&?&Hv'). apply srun_ret. split; [done|]. split; [done|].
    rewrite Hv, Hv'. unfold b'. covers_around Hpre Hrest.
  - intros e s' Hs. unfold block_part. rewrite Hs. split; [done|]. split; [exact Hwf|].
    split. { intros _ _. cbn. by destruct pre. }
    rewrite Hv. unfold b'. intros y. split; revert y; covers_around Hpre Hrest.
Qed.

Lemma truncate_block_ok pre b rest s ymin ysiz R :
  mid s pre b rest -> rb_ymin b < ymin < rb_ymin b + rb_ysiz b -> 0 < ysiz -> ymin + ysiz <= COORD_MAX ->
  rb_ymin b + rb_ysiz b - ymin <= ysiz ->
  srun (let remove_height := u32 (rb_ymin b + rb_ysiz b - ymin) in
        set_blk (length pre) (MkBlock (rb_ymin b) (u32 (rb_ysiz b - remove_height))) ≫= fun _ =>
        let ysiz := u32 (ysiz - remove_height) in
        mret (if ysiz =? 0 then Done else Next (u32 (ymin + remove_height)) ysiz)) s
    (step s ymin ysiz rest pre) R.
Proof.
  intros Hm Hy ? ? ?. pose proof (mid_facts _ _ _ _ Hm) as (Hpre&?&?&?&Hrest&?).
  pose proof (mid_v _ _ _ _ Hm) as Hv. cbv zeta.
  set (b' := MkBlock (rb_ymin b) (ymin - rb_ymin b)).
  apply (run_set_blk _ _ _ _ _ ((pre ++ [b']) ++ rest)).
  { rewrite Hv, insert_app_r_alt, Nat.sub_diag by lia. rewrite <- app_assoc. cbn. unfold b'. u32s.
    do 3 f_equal. lia. }
  assert (Hwf : strip_wf (ss_self (with_blkv s ((pre ++ [b']) ++ rest)))).
  { rewrite <- app_assoc. eapply mid_upd; [done| |done]. rewrite blocks_ok_app. cbn. split; [done|].
    repeat (split; [unfold COORD_MAX in *; lia|]). eapply blocks_ok_mono; [|done]. lia. }
  u32s. apply srun_ret. destruct (Z.eqb_spec (ysiz - (rb_ymin b + rb_ysiz b - ymin)) 0).
  - split; [done|]. split; [exact Hwf|]. rewrite Hv. unfold b'. covers_around Hpre Hrest.
  - split; [done|]. split; [exact Hwf|]. do 3 (split; [unfold COORD_MAX; lia|]).
    do 2 (split; [rewrite Hv; unfold b'; covers_around Hpre Hrest|]).
    exists (pre ++ [b']), rest. rewrite bnext_app, length_app. cbn. repeat split; (done || lia).
Qed.

Lemma remove_step_mid pre b rest s ymin ysiz :
  mid s pre b rest -> bnext 0 pre <= ymin + 1 -> 0 <= ymin -> 0 < ysiz -> ymin + ysiz <= COORD_MAX ->
  srun (remove_step (length pre) ymin ysiz) s
    (step s ymin ysiz rest pre) (fun _ => block_part minus shrinks (ss_self s) ymin ysiz).
Proof.
  intros Hm Hp ? ? ?. pose proof (mid_facts _ _ _ _ Hm) as (Hpre&?&?&?&Hrest&?).
  pose proof (mid_v _ _ _ _ Hm) as Hv. pose proof (succ_ok_mid _ _ _ _ Hm) as Hs.
  unfold remove_step. apply run_blkv. apply (run_blk _ _ _ _ b); [by rewrite Hv, list_lookup_middle|].
  rewrite (mid_end _ _ _ _ Hm), Hv. apply run_check; [done|].
  destruct (Z.leb_spec (rb_ymin b + rb_ysiz b) ymin).
  { apply srun_ret. split; [done|]. split; [apply Hm|]. do 3 (split; [done|]). split; [done|].
    split; [by intros ??|]. exists (pre ++ [b]), rest. rewrite bnext_app, length_app. cbn.
    rewrite <- app_assoc. repeat split; (done || lia). }
  destruct (Z.ltb_spec ymin (rb_ymin b)).
  { rewrite (u32_small (rb_ymin b - ymin)) by (unfold COORD_MAX in *; lia).
    destruct (Z.leb_spec ysiz (rb_ymin b - ymin)).
    - apply srun_ret. split; [done|]. split; [apply Hm|]. rewrite Hv. covers_around Hpre Hrest.
    - u32s. replace (ymin + (rb_ymin b - ymin)) with (rb_ymin b) by lia.
      eapply srun_mono with (R := fun _ _ => False); [apply trim_block_ok; [done|lia|unfold COORD_MAX; lia] | |done].
      intros j s'. apply jump_ok_trans; [apply shrinks_trans|done|done| |by intros ??].
      rewrite Hv. covers_around Hpre Hrest. }
  destruct (Z.ltb_spec (rb_ymin b) ymin).
  - destruct (Z.leb_spec (u32 (rb_ymin b + rb_ysiz b - ymin)) ysiz) as [Hle|Hle];
      rewrite u32_small in Hle by (unfold COORD_MAX in *; lia).
    + apply truncate_block_ok; (done || lia).
    + do 2 (apply run_check; [by u32s; lia|]). apply cut_block_ok; (done || lia).
  - assert (ymin = rb_ymin b) as -> by lia. by apply trim_block_ok.
Qed.

Lemma remove_step_ok k i ymin ysiz s :
  inv (S k) i ymin ysiz s -> (i < rs_blkc (ss_self s))%nat ->
  srun (remove_step i ymin ysiz) s (jump_ok minus shrinks 1 self0 y0 s0 k i) part.
Proof.
  intros Hi Hlt. destruct (block_inv_mid _ _ _ _ _ _ _ _ _ _ _ Hi Hlt) as (pre&b&rest&Hm&->&Hp&Hr).
  destruct Hi as ([??]&_&?&?&?&Hj&Hk&_).
  eapply srun_mono; [by eapply remove_step_mid | |].
  - intros j s'. by apply jump_ok_trans; [apply shrinks_trans|..].
  - intros e s' ([??]&?&Hn&Hc). split; [split; congruence|]. split; [done|].
    split. { intros _ _. apply Hn; [apply Hm|]. rewrite (mid_v _ _ _ _ Hm). by destruct pre. }
    intros y. specialize (Hc y). specialize (Hk y). unfold shrinks in *. tauto.
Qed.

Lemma remove_end_ok i ymin ysiz s :
  inv 0 i ymin ysiz s -> rs_blkc (ss_self s) = i ->
  srun (mret tt : BM unit) s (fun _ => block_done minus self0 y0 s0) part.
Proof.
  intros (Hx&[Hok ?]&?&?&?&Hj&Hk&pre&rest&Hv&?&?&?) Hl.
  assert (rest = []) as -> by (apply length_zero_iff_nil; lia). rewrite app_nil_r in Hv.
  apply srun_ret. split; [done|]. split; [done|]. intros y. rewrite <- Hj. rewrite Hv in *.
  pose proof (bcov_range _ _ y Hok). covers_at.
Qed.

Lemma rects_split_remove_block_ok s :
  ss_self s = self0 -> strip_wf self0 -> 0 <= y0 -> 0 < s0 -> y0 + s0 <= COORD_MAX ->
  srun (rects_split_remove_block y0 s0) s (fun _ => block_done minus self0 y0 s0) part.
Proof.
  intros Hs ????. unfold rects_split_remove_block. apply run_check; [lia|]. apply run_blkv.
  apply (block_loop_ok minus shrinks 1) with (k := rs_blkc (ss_self s)).
  - intros; by apply remove_step_ok.
  - apply remove_end_ok.
  - unfold rs_blkc. lia.
  - unfold block_inv. rewrite Hs. split; [done|]. do 4 (split; [done|]). split; [done|]. split; [by intros ??|].
    eexists [], _. split; [done|]. split; [done|]. split; [cbn; lia|]. done.
Qed.
End RemoveBlock.
