(* ===== verification/RectStrips.v ===== *)
(** The chain of strips: what splitting and merging strips does, and the loop that
    [rects_insert] and [rects_remove] share.

    A loop state is a chain [a ++ b] with the cursor within [a], whose strips end
    before the rectangle that is left; an iteration either moves the cursor or
    finishes with a strip of [b], so the lengths of [a] and [b] bound it. *)
From S2P Require Import Prelude Rect RectBlocks.
Open Scope Z_scope.

Definition xend (s : rect_strip) : Z := rs_xmin s + rs_xsiz s.
Definition scov (s : rect_strip) (x y : Z) : Prop := rs_xmin s <= x < xend s /\ bcov (rs_blkv s) y.
(** The points of a chain. *)
Definition cov (l : list rect_strip) (x y : Z) : Prop := Exists (fun s => scov s x y) l.

Definition strip_ok (lo : Z) (s : rect_strip) : Prop :=
  lo <= rs_xmin s /\ 0 < rs_xsiz s /\ xend s <= COORD_MAX /\ strip_wf s /\ rs_blkv s <> [].
Fixpoint strips_ok (lo : Z) (l : list rect_strip) : Prop :=
  match l with [] => True | s :: l => strip_ok lo s /\ strips_ok (xend s) l end.
Fixpoint xnext (lo : Z) (l : list rect_strip) : Z :=
  match l with [] => lo | s :: l => xnext (xend s) l end.

Lemma cov_nil x y : cov [] x y <-> False.
Proof. apply Exists_nil. Qed.
Lemma cov_cons s l x y : cov (s :: l) x y <-> scov s x y \/ cov l x y.
Proof. apply Exists_cons. Qed.
Lemma cov_app l m x y : cov (l ++ m) x y <-> cov l x y \/ cov m x y.
Proof. apply Exists_app. Qed.
Lemma strips_ok_app lo l m : strips_ok lo (l ++ m) <-> strips_ok lo l /\ strips_ok (xnext lo l) m.
Proof. revert lo; induction l as [|s l IH]; intros lo; cbn; [tauto|]. rewrite IH. tauto. Qed.
Lemma strips_ok_mono lo lo' l : lo' <= lo -> strips_ok lo l -> strips_ok lo' l.
Proof. destruct l; cbn; [done|]. unfold strip_ok. intuition lia. Qed.
Lemma xnext_app lo l m : xnext lo (l ++ m) = xnext (xnext lo l) m.
Proof. revert lo; induction l; intros lo; cbn; auto. Qed.
Lemma xnext_ge lo l : strips_ok lo l -> lo <= xnext lo l.
Proof.
  revert lo; induction l as [|s l IH]; intros lo; cbn; [lia|].
  intros [(?&?&?&?) Hl]. specialize (IH _ Hl). unfold xend in *. lia.
Qed.
Lemma cov_range lo l x y : strips_ok lo l -> cov l x y -> lo <= x < xnext lo l.
Proof.
  revert lo; induction l as [|s l IH]; intros lo; [by rewrite cov_nil|].
  rewrite cov_cons; cbn. intros [(?&?&?&?) Hl] [[? ?]|Hx].
  - apply xnext_ge in Hl. lia.
  - specialize (IH _ Hl Hx). unfold xend in *. lia.
Qed.
Lemma strips_ok_assert lo l : 0 <= lo -> strips_ok lo l -> rects_assert l = true.
Proof.
  revert lo; induction l as [|s l IH]; intros lo ? H; [done|].
  destruct H as [(?&?&?&[Hb _]&?) Hl]. unfold xend, COORD_MAX in *. cbn. unfold int_nonneg.
  rewrite (blocks_ok_assert 0), (IH (rs_xmin s + rs_xsiz s)) by (done || lia).
  destruct l as [|t l]; [lia|]. destruct Hl as [[? _] _]. rewrite u32_small by lia. lia.
Qed.

(** Rectangles with all coordinates below the limit. *)
Definition in_rect (r : rect) (x y : Z) : Prop :=
  r_xmin r <= x < r_xmin r + r_xsiz r /\ r_ymin r <= y < r_ymin r + r_ysiz r.
Definition rect_ok (r : rect) : Prop :=
  0 <= r_xmin r /\ 0 <= r_xsiz r /\ r_xmin r + r_xsiz r <= COORD_MAX /\
  0 <= r_ymin r /\ 0 <= r_ysiz r /\ r_ymin r + r_ysiz r <= COORD_MAX.
(** [r'] is what is left of [r] after a part of its width. *)
Definition rest_of (r r' : rect) : Prop :=
  r_xmin r <= r_xmin r' /\ 0 < r_xsiz r' /\ r_xmin r' + r_xsiz r' = r_xmin r + r_xsiz r /\
  r_ymin r' = r_ymin r /\ r_ysiz r' = r_ysiz r.

(** ** Steps *)
Section Steps.
Context {A : Type} (s : rects) (Q : A -> rects -> Prop) (R : error_code -> rects -> Prop).

Lemma run_scheck b (f : unit -> RM A) : b = true -> srun (f tt) s Q R -> srun (scheck b ≫= f) s Q R.
Proof. intros -> H. exact H. Qed.
Lemma run_total {B} (m : RM B) P (f : B -> RM A) :
  srun m s P (fun _ _ => False) -> (forall b s', P b s' -> srun (f b) s' Q R) -> srun (m ≫= f) s Q R.
Proof. intros H Hf. apply srun_bind. by eapply srun_mono; [exact H|exact Hf|]. Qed.
Lemma run_strips (f : list rect_strip -> RM A) :
  srun (f (r_strips s)) s Q R -> srun (strips ≫= f) s Q R.
Proof. intros H. exact H. Qed.
Lemma run_check_rects (f : unit -> RM A) :
  strips_ok 0 (r_strips s) -> srun (f tt) s Q R -> srun (check_rects ≫= f) s Q R.
Proof.
  intros Hok H. apply (strips_ok_assert 0) in Hok; [|lia].
  change (srun (scheck (rects_assert (r_strips s)) ≫= f) s Q R). by apply run_scheck.
Qed.
Lemma check_rects_ok (P : unit -> rects -> Prop) :
  strips_ok 0 (r_strips s) -> P tt s -> srun check_rects s P R.
Proof.
  intros Hok H. apply (strips_ok_assert 0) in Hok; [|lia].
  change (srun (scheck (rects_assert (r_strips s))) s P R). by apply srun_check.
Qed.
Lemma run_strip pre it post (f : rect_strip -> RM A) :
  r_strips s = pre ++ it :: post -> srun (f it) s Q R -> srun (strip (length pre) ≫= f) s Q R.
Proof.
  intros Hs H. change (srun (slift (access (r_strips s !! length pre)) ≫= f) s Q R).
  rewrite Hs, list_lookup_middle by done. exact H.
Qed.
Lemma run_set_strips l (f : unit -> RM A) :
  srun (f tt) (MkRects l (r_mem s)) Q R -> srun (set_strips l ≫= f) s Q R.
Proof. intros H. exact H. Qed.
Lemma run_strip_alloc n (f : nat -> RM A) :
  (forall u m, (n <= u)%nat -> srun (f u) (MkRects (r_strips s) m) Q R) ->
  (forall e m, R e (MkRects (r_strips s) m)) ->
  srun (strip_alloc n ≫= f) s Q R.
Proof.
  intros H HR. apply srun_bind. unfold srun at 1, strip_alloc.
  destruct (r_mem s 0%nat); [apply H; lia | apply HR].
Qed.
End Steps.

Definition set_x (s : rect_strip) (xmin xsiz : Z) (u : nat) : rect_strip :=
  MkStrip xmin xsiz u (rs_blkv s).

Lemma split_strip_ok pre it post off s :
  r_strips s = pre ++ it :: post -> strips_ok 0 (r_strips s) -> 0 < off < rs_xsiz it ->
  srun (rects_split_strip (length pre) off) s
    (fun _ s' => exists u, (rs_blkc it <= u)%nat /\
       r_strips s' = pre ++ set_x it (rs_xmin it) off (rs_usable it)
                         :: set_x it (rs_xmin it + off) (rs_xsiz it - off) u :: post)
    (fun _ s' => r_strips s' = r_strips s).
Proof.
  intros Hs Hok ?. unfold rects_split_strip. rewrite Hs in Hok.
  apply strips_ok_app in Hok as [H1 [(?&?&?&?) _]]. apply xnext_ge in H1.
  apply (run_strip _ _ _ pre it post); [done|]. apply run_scheck; [lia|].
  apply run_strip_alloc; [|done]. intros u m Hu. apply run_strips. cbn.
  exists u. split; [done|]. unfold set_x, xend in *. u32s.
  rewrite Hs, take_app_length, (cons_middle it), app_assoc.
  rewrite drop_app_length' by (rewrite length_app; cbn; lia). done.
Qed.

(** The strips stay a well-formed chain of the same points when one is split or two
    with the same blocks and a common edge are joined. *)
Lemma join_strips lo pre it nx post u :
  xend it = rs_xmin nx -> rs_blkv nx = rs_blkv it -> 0 < rs_xsiz it -> 0 < rs_xsiz nx -> (rs_blkc it <= u)%nat ->
  let it' := set_x it (rs_xmin it) (rs_xsiz it + rs_xsiz nx) u in
  strips_ok lo (pre ++ it :: nx :: post) ->
  strips_ok lo (pre ++ it' :: post) /\ (forall x y, cov (pre ++ it' :: post) x y <-> cov (pre ++ it :: nx :: post) x y).
Proof.
  intros Hx Hb ? ? ? it'. rewrite !strips_ok_app. cbn. unfold strip_ok, strip_wf, xend in *. cbn.
  replace (rs_xmin it + (rs_xsiz it + rs_xsiz nx)) with (rs_xmin nx + rs_xsiz nx) by lia. split.
  - unfold rs_blkc in *. cbn. intuition lia.
  - intros x y. rewrite !cov_app, !cov_cons. unfold scov, xend, it'. cbn. rewrite Hb.
    destruct (decide (x < rs_xmin nx)); intuition lia.
Qed.
Lemma split_strips lo pre it post off u :
  0 < off < rs_xsiz it -> (rs_blkc it <= u)%nat ->
  let l := pre ++ set_x it (rs_xmin it) off (rs_usable it)
               :: set_x it (rs_xmin it + off) (rs_xsiz it - off) u :: post in
  strips_ok lo (pre ++ it :: post) ->
  strips_ok lo l /\ (forall x y, cov l x y <-> cov (pre ++ it :: post) x y).
Proof.
  intros ?? l. unfold l. rewrite !strips_ok_app. cbn. unfold strip_ok, strip_wf, xend in *. cbn. split.
  - replace (rs_xmin it + off + (rs_xsiz it - off)) with (rs_xmin it + rs_xsiz it) by lia.
    unfold rs_blkc in *. cbn. intuition lia.
  - intros x y. rewrite !cov_app, !cov_cons. unfold scov, xend. cbn.
    destruct (decide (x < rs_xmin it + off)); intuition lia.
Qed.

(** The chain was changed without changing its points. *)
Definition same_area (s s' : rects) : Prop :=
  strips_ok 0 (r_strips s') /\ forall x y, cov (r_strips s') x y <-> cov (r_strips s) x y.

Lemma same_area_refl s : strips_ok 0 (r_strips s) -> same_area s s.
Proof. intros H. by split. Qed.
Lemma same_area_trans s s' s'' : same_area s s' -> same_area s' s'' -> same_area s s''.
Proof. intros [? H1] [? H2]. split; [done|]. intros x y. by rewrite H2. Qed.

Lemma merge_next_ok pre it post s R :
  r_strips s = pre ++ it :: post -> strips_ok 0 (r_strips s) ->
  srun (rects_split_merge_next (length pre)) s
    (fun b s' => if b : bool then
       same_area s s' /\ exists nx post' it', post = nx :: post' /\ r_strips s' = pre ++ it' :: post' /\
         rs_xmin it' = rs_xmin it /\ xend it' = xend nx
     else s' = s) R.
Proof.
  intros Hs Hok. unfold rects_split_merge_next. apply (run_strip _ _ _ pre it post); [done|].
  apply run_strips. rewrite Hs in Hok |- *. rewrite lookup_app_r by lia.
  replace (S (length pre) - length pre)%nat with 1%nat by lia. cbn [lookup list_lookup].
  pose proof Hok as [H1 [(?&?&?&[? Hu]&?) Hpost]]%strips_ok_app. apply xnext_ge in H1.
  destruct post as [|nx post]; cbn [lookup list_lookup]; [by apply srun_ret|].
  destruct Hpost as [(?&?&?&?) _].
  rewrite u32_small by (unfold xend, COORD_MAX in *; lia).
  destruct (Z.eqb_spec (rs_xmin nx) (rs_xmin it + rs_xsiz it)); [|by apply srun_ret].
  destruct (Nat.eqb_spec (rs_blkc nx) (rs_blkc it)); [|by apply srun_ret].
  destruct (bool_decide_reflect (rs_blkv nx = rs_blkv it)) as [Hb|]; [|by apply srun_ret]. cbn [negb].
  rewrite u32_small by (unfold xend, COORD_MAX in *; lia).
  apply run_set_strips, srun_ret. cbn.
  rewrite take_app_length. change (S (S (length pre))) with (2 + length pre)%nat.
  rewrite Nat.add_comm, drop_app_add. cbn [drop].
  destruct (join_strips 0 pre it nx post (rs_usable it)) as [Hok' Hc]; try done.
  split; [split; [done|]; cbn; rewrite Hs; done|].
  eexists nx, post, _. split; [done|]. split; [done|]. split; [done|]. unfold xend; cbn; lia.
Qed.

Lemma merge_pred_ok pre it post s R :
  r_strips s = pre ++ it :: post -> strips_ok 0 (r_strips s) ->
  srun (merge_pred (length pre)) s
    (fun b s' => if b : bool then
       same_area s s' /\ exists pre' p it', pre = pre' ++ [p] /\ r_strips s' = pre' ++ it' :: post /\
         xend it' = xend it
     else s' = s) R.
Proof.
  intros Hs Hok. destruct pre as [|p pre _] using rev_ind; [by apply srun_ret|].
  rewrite length_app, Nat.add_comm. cbn [merge_pred Nat.add length].
  rewrite <- app_assoc in Hs. cbn in Hs. eapply srun_mono; [by eapply merge_next_ok| |by intros].
  intros [] s'; [|done]. intros [? (nx&post'&it'&[= <- <-]&?&?&?)]. split; [done|]. by exists pre, p, it'.
Qed.

(** Where the loop goes on after a strip of [pre ++ it :: post]. *)
Definition moved (na nb n : nat) (x : Z) (s : rects) : Prop :=
  exists a b, r_strips s = a ++ b /\ (n <= length a)%nat /\ xnext 0 a <= x /\
    (length a <= na)%nat /\ (length b <= nb)%nat.

Lemma merge_strips_ok pre it post s R :
  r_strips s = pre ++ it :: post -> strips_ok 0 (r_strips s) ->
  srun (merge_strips (length pre)) s
    (fun n s' => same_area s s' /\ moved (length pre + 1) (length post) n (xend it) s') R.
Proof.
  intros Hs Hok. pose proof Hok as Hok'. rewrite Hs in Hok'.
  apply strips_ok_app in Hok' as [H1 [(?&?&?&?) Hp]].
  unfold merge_strips. eapply run_total; [by eapply merge_pred_ok|].
  intros [] s'; cbv beta iota.
  - intros [Ha (pre'&p&it'&->&Hs'&?)]. rewrite length_app, Nat.add_1_r. cbn [pred].
    apply strips_ok_app in H1 as [H1 [(?&?&?&_) _]]. cbn in *. rewrite xnext_app in *. cbn in *.
    apply run_check_rects; [apply Ha|]. 
    eapply run_total; [eapply merge_next_ok; [done|apply Ha]|].
    intros [] s''; cbv beta iota.
    + intros [Hb (nx&post'&it''&->&Hs''&?)]. apply run_check_rects; [apply Hb|]. apply srun_ret.
      split; [by eapply same_area_trans|]. exists pre', (it'' :: post').
      unfold xend in *. cbn. repeat split; (done || lia).
    + intros ->. apply run_check_rects; [apply Ha|]. apply srun_ret. split; [done|].
      exists (pre' ++ [it']), post. rewrite Hs', length_app, <- app_assoc, xnext_app. cbn.
      repeat split; (done || lia).
  - intros ->. eapply run_total; [by eapply merge_next_ok|].
    intros [] s'; cbv beta iota.
    + intros [Hb (nx&post'&it'&->&Hs'&?)]. apply run_check_rects; [apply Hb|]. apply srun_ret.
      split; [done|]. exists pre, (it' :: post'). unfold xend in *. cbn. repeat split; (done || lia).
    + intros ->. apply run_check_rects; [done|]. apply srun_ret. split; [by apply same_area_refl|].
      exists (pre ++ [it]), post. rewrite Hs, length_app, <- app_assoc, xnext_app. cbn.
      repeat split; (done || lia).
Qed.

(** ** The loop

    [op]: what the loop computes from the points of the chain and of the rectangle;
    [keep]: how unfinished work relates to the start. *)
Class RegionOp (op keep : Prop -> Prop -> Prop) : Prop := {
  #[global] op_proper :: Proper (iff ==> iff ==> iff) op;
  #[global] keep_proper :: Proper (iff ==> iff ==> iff) keep;
  op_seq c i j : op (op c i) j <-> op c (i \/ j);
  op_keep c i : keep c (op c i);
  op_outside c i : ~ i -> op c i <-> c;
  keep_trans c c' c'' : keep c c' -> keep c' c'' -> keep c c'';
  keep_inside c c' i i' : (op c' i' <-> op c i) -> keep c c' -> c' -> c \/ i
}.
#[export] Instance join_region : RegionOp join grows.
Proof. unfold join, grows. split; try tauto; intros ??????; tauto. Qed.
#[export] Instance minus_region : RegionOp minus shrinks.
Proof. unfold minus, shrinks. split; try tauto; intros ??????; tauto. Qed.

Definition rect_pos (r : rect) : Prop := rect_ok r /\ 0 < r_xsiz r /\ 0 < r_ysiz r.
Lemma rest_of_pos r r' : rect_pos r -> rest_of r r' -> rect_pos r'.
Proof. intros [(?&?&?&?&?&?) [??]] (?&?&?&?&?). split; [|lia]. split; [lia|]. lia. Qed.
Lemma rest_of_refl r : 0 < r_xsiz r -> rest_of r r.
Proof. unfold rest_of. lia. Qed.

Section StripLoop.
Context (op keep : Prop -> Prop -> Prop) `{!RegionOp op keep}.

Record adv (s : rects) (r : rect) (s' : rects) (r' : rect) : Prop := {
  adv_ok : strips_ok 0 (r_strips s');
  adv_rest : rest_of r r';
  adv_op x y : op (cov (r_strips s') x y) (in_rect r' x y) <-> op (cov (r_strips s) x y) (in_rect r x y);
  adv_keep x y : keep (cov (r_strips s) x y) (cov (r_strips s') x y)
}.
Definition fin (s : rects) (r : rect) (s' : rects) : Prop :=
  strips_ok 0 (r_strips s') /\
  forall x y, cov (r_strips s') x y <-> op (cov (r_strips s) x y) (in_rect r x y).
(** After an exception. *)
Definition part (s : rects) (r : rect) (s' : rects) : Prop :=
  strips_ok 0 (r_strips s') /\
  forall x y, keep (cov (r_strips s) x y) (cov (r_strips s') x y) /\
    (cov (r_strips s') x y -> cov (r_strips s) x y \/ in_rect r x y) /\
    (~ r_xmin r <= x < r_xmin r + r_xsiz r -> cov (r_strips s') x y <-> cov (r_strips s) x y).

Lemma adv_fin s r s' r' s'' : adv s r s' r' -> fin s' r' s'' -> fin s r s''.
Proof. intros [_ _ Hop _] [? H]. split; [done|]. intros x y. by rewrite H, Hop. Qed.
Lemma adv_trans s r s' r' s'' r'' : adv s r s' r' -> adv s' r' s'' r'' -> adv s r s'' r''.
Proof.
  intros [? (?&?&?&?&?) Hop Hk] [? (?&?&?&?&?) Hop' Hk']. split; [done| |..].
  - unfold rest_of. intuition (congruence || lia).
  - intros x y. by rewrite Hop', Hop.
  - intros x y. eapply keep_trans; [apply Hk|apply Hk'].
Qed.
Lemma adv_outside s r s' r' x y :
  adv s r s' r' -> ~ r_xmin r <= x < r_xmin r + r_xsiz r ->
  cov (r_strips s') x y <-> cov (r_strips s) x y.
Proof.
  intros [_ (?&?&?&?&?) Hop _] Hx. specialize (Hop x y).
  rewrite !op_outside in Hop by (unfold in_rect; lia). done.
Qed.
Lemma adv_part s r s' r' s'' : adv s r s' r' -> part s' r' s'' -> part s r s''.
Proof.
  intros Ha [? Hp]. split; [done|]. intros x y. destruct (Hp x y) as (Hk&Hi&Ho).
  pose proof (adv_outside _ _ _ _ x y Ha) as Hout. destruct Ha as [_ (?&?&?&?&?) Hop Hk'].
  specialize (Hop x y). specialize (Hk' x y). split; [by eapply keep_trans|]. split.
  - intros [Hc|Hc]%Hi; [by eapply keep_inside|]. right. unfold in_rect in *. lia.
  - intros Hx. rewrite <- Hout by done. apply Ho. lia.
Qed.

Definition jump_post (na nb : nat) (s : rects) (r : rect)
    (j : option (nat * rect)) (s' : rects) : Prop :=
  match j with
  | None => fin s r s'
  | Some (n, r') => adv s r s' r' /\ moved na nb n (r_xmin r') s'
  end.

Context (body : nat -> rect -> Z -> RM (option (nat * rect))) (after : nat -> rect -> RM unit).
Context (body_ok : forall pre it post r s, r_strips s = pre ++ it :: post -> strips_ok 0 (r_strips s) ->
  rect_pos r -> xnext 0 pre <= r_xmin r < xend it ->
  srun (body (length pre) r (xend it)) s (jump_post (length pre + 3) (length post) s r) (fun _ => part s r)).
Context (after_ok : forall r s, strips_ok 0 (r_strips s) -> rect_pos r -> xnext 0 (r_strips s) <= r_xmin r ->
  srun (after (length (r_strips s)) r) s (fun _ => fin s r) (fun _ => part s r)).

Lemma strip_end_u32 pre it post :
  strips_ok 0 (pre ++ it :: post) -> u32 (rs_xmin it + rs_xsiz it) = xend it.
Proof.
  intros [H1 [(?&?&?&_) _]]%strips_ok_app. apply xnext_ge in H1. apply u32_small.
  unfold xend, COORD_MAX in *. lia.
Qed.
Lemma loop_skip pre it post fuel r s Q R :
  r_strips s = pre ++ it :: post -> strips_ok 0 (r_strips s) -> xend it <= r_xmin r ->
  srun (strip_loop body after fuel (S (length pre)) r) s Q R ->
  srun (strip_loop body after (S fuel) (length pre) r) s Q R.
Proof.
  intros Hs Hok ? H. cbn [strip_loop]. apply run_strips. rewrite Hs, list_lookup_middle by done.
  apply run_check_rects; [done|]. rewrite (strip_end_u32 pre it post) by (rewrite <- Hs; done).
  by rewrite (proj2 (Z.leb_le _ _)) by done.
Qed.

Lemma strip_loop_ok L fuel n r s a b :
  r_strips s = a ++ b -> (n <= length a)%nat -> xnext 0 a <= r_xmin r ->
  strips_ok 0 (r_strips s) -> rect_pos r -> (length a + 4 * length b <= L)%nat ->
  (length b * (L + 1) + (length a - n) < fuel)%nat ->
  srun (strip_loop body after fuel n r) s (fun _ => fin s r) (fun _ => part s r).
Proof.
  revert n r s a b. induction fuel as [|fuel IH]; intros n r s a b Hs Hn Hx Hok Hr HL Hf; [lia|].
  destruct (decide (n = length a)) as [->|].
  2: { destruct (lookup_lt_is_Some_2 a n) as [it Hit]; [lia|].
    apply list_elem_of_split_length in Hit as (a1&a2&->&->).
    eapply loop_skip; [rewrite <- app_assoc in Hs; exact Hs|done| |].
    - pose proof Hok as Hok'. rewrite Hs in Hok'.
      apply strips_ok_app in Hok' as [Ha _]. apply strips_ok_app in Ha as [_ [_ Ha]].
      rewrite xnext_app in Hx. cbn in Hx. apply xnext_ge in Ha. lia.
    - rewrite length_app in *. cbn in *. apply (IH _ _ _ _ _ Hs); try done; rewrite length_app; cbn; lia. }
  destruct b as [|it post].
  { rewrite app_nil_r in Hs. subst a. cbn [strip_loop]. apply run_strips.
    rewrite lookup_ge_None_2 by done. by apply after_ok. }
  cbn in HL, Hf. destruct (decide (xend it <= r_xmin r)).
  - eapply loop_skip; [done..|]. eapply (IH _ _ _ (a ++ [it]) post).
    + by rewrite <- app_assoc.
    + rewrite length_app. cbn. lia.
    + rewrite xnext_app. cbn. lia.
    + done.
    + done.
    + rewrite length_app. cbn. lia.
    + rewrite length_app. cbn. lia.
  - cbn [strip_loop]. apply run_strips. rewrite Hs, list_lookup_middle by done.
    apply run_check_rects; [done|]. rewrite (strip_end_u32 a it post) by (rewrite <- Hs; done).
    rewrite (proj2 (Z.leb_gt _ _)) by lia. apply srun_bind.
    eapply srun_mono; [eapply body_ok; [done|done|done|lia]| |done].
    intros [[n' r']|] s'; cbv beta iota; [|by intros; apply srun_ret].
    intros [Hadv (a'&b'&Hs'&?&?&?&?)].
    eapply srun_mono; [eapply (IH n' r' s' a' b'); try done| |].
    + apply Hadv.
    + eapply rest_of_pos; [done|apply Hadv].
    + lia.
    + nia.
    + intros [] s''. by apply adv_fin.
    + intros e s''. by apply adv_part.
Qed.
End StripLoop.

(** ** Parts of an iteration *)
Lemma on_strip_ok pre it post f s Q R :
  r_strips s = pre ++ it :: post -> srun f (MkSs it (r_mem s)) Q R ->
  srun (on_strip (length pre) f) s
    (fun _ s' => exists t, Q tt t /\ r_strips s' = pre ++ ss_self t :: post)
    (fun e s' => exists t, R e t /\ r_strips s' = pre ++ ss_self t :: post).
Proof.
  intros Hs H. unfold srun, on_strip. rewrite Hs, list_lookup_middle by done. unfold srun in H.
  destruct (f _) as [[] t|e t|]; cbn; [| |done]; exists t; (split; [done|]);
    by rewrite insert_app_r_alt, Nat.sub_diag by lia.
Qed.

Lemma fit_strip_ok pre it post r s :
  r_strips s = pre ++ it :: post -> strips_ok 0 (r_strips s) -> 0 < r_xsiz r ->
  srun (fit_strip (length pre) r) s
    (fun w s' => w = Z.min (r_xsiz r) (rs_xsiz it) /\ same_area s s' /\
       exists it' post', r_strips s' = pre ++ it' :: post' /\ rs_xmin it' = rs_xmin it /\ rs_xsiz it' = w /\
         (w < r_xsiz r -> post' = post))
    (fun _ s' => r_strips s' = r_strips s).
Proof.
  intros Hs Hok ?. unfold fit_strip. apply (run_strip _ _ _ pre it post); [done|].
  pose proof Hok as Hok'. rewrite Hs in Hok'. pose proof Hok' as [_ [(?&?&?&?) _]]%strips_ok_app.
  destruct (Z.ltb_spec (r_xsiz r) (rs_xsiz it)) as [Hlt|Hge].
  - apply Z.ltb_lt in Hlt as Hb. rewrite Hb.
    do 2 apply srun_bind. eapply srun_mono; [eapply split_strip_ok; [done|done|lia]| |done].
    intros _ s' (u&?&Hs').
    destruct (split_strips 0 pre it post (r_xsiz r) u) as [Hok1 Hc]; [lia|done|done|].
    assert (Ha : same_area s s').
    { split; [by rewrite Hs'|]. intros x y. by rewrite Hs', Hc, Hs. }
    apply check_rects_ok; [apply Ha|]. apply srun_ret. split; [lia|]. split; [done|].
    eexists _, _. split; [done|]. split; [done|]. split; [done|]. lia.
  - rewrite Z.ltb_irrefl. apply srun_bind, srun_ret, srun_ret. split; [lia|].
    split; [by apply same_area_refl|]. by exists it, post.
Qed.

Lemma consume_spec r w : rect_pos r -> 0 < w <= r_xsiz r ->
  match consume r w with
  | None => w = r_xsiz r
  | Some r' => w < r_xsiz r /\ r' = MkRect (r_xmin r + w) (r_ymin r) (r_xsiz r - w) (r_ysiz r)
  end.
Proof.
  intros [(?&?&?&?&?&?) ?] ?. unfold consume, COORD_MAX in *. rewrite !u32_small by lia.
  destruct (Z.eqb_spec (r_xsiz r - w) 0); [lia|]. split; [lia|done].
Qed.

Definition narrow (r : rect) (w : Z) : rect := MkRect (r_xmin r) (r_ymin r) w (r_ysiz r).

Lemma narrow_all r : narrow r (r_xsiz r) = r.
Proof. by destruct r. Qed.
Lemma narrow_adv op keep `{!RegionOp op keep} s r w s' :
  0 < w < r_xsiz r -> fin op s (narrow r w) s' ->
  adv op keep s r s' (MkRect (r_xmin r + w) (r_ymin r) (r_xsiz r - w) (r_ysiz r)).
Proof.
  intros ? [? Hc]. split; [done|..].
  - unfold rest_of. cbn. lia.
  - intros x y. rewrite Hc, (op_seq (keep := keep)). apply (op_proper (keep := keep)); [done|].
    unfold in_rect, narrow. cbn. lia.
  - intros x y. rewrite Hc. apply op_keep.
Qed.

Lemma consume_post op keep `{!RegionOp op keep} na nb s r w n s' :
  rect_pos r -> 0 < w <= r_xsiz r -> fin op s (narrow r w) s' ->
  (w < r_xsiz r -> moved na nb n (r_xmin r + w) s') ->
  jump_post op keep na nb s r ((fun r' => (n, r')) <$> consume r w) s'.
Proof.
  intros Hr Hw Hf Hm. pose proof (consume_spec r w Hr Hw) as H.
  destruct (consume r w) as [r'|]; cbn.
  - destruct H as [? ->]. split; [|by apply Hm]. by apply narrow_adv; [..|lia|].
  - by rewrite H, narrow_all in Hf.
Qed.

Lemma fin_same_area op s r s' s'' : fin op s r s' -> same_area s' s'' -> fin op s r s''.
Proof. intros [_ Hc] [? Hc']. split; [done|]. intros x y. by rewrite Hc', Hc. Qed.
Lemma moved_mono na na' nb nb' n x s :
  (na <= na')%nat -> (nb <= nb')%nat -> moved na nb n x s -> moved na' nb' n x s.
Proof. intros ?? (a&b&?&?&?&?&?). exists a, b. repeat split; (done || lia). Qed.

(** Another start of an iteration. *)
Lemma jump_post_adv op keep `{!RegionOp op keep} na nb s r s' r' j s'' :
  adv op keep s r s' r' -> jump_post op keep na nb s' r' j s'' -> jump_post op keep na nb s r j s''.
Proof.
  intros Ha. destruct j as [[n r'']|]; cbn; [|by eapply adv_fin].
  intros [? ?]. split; [by eapply adv_trans|done].
Qed.

(** The first part of an iteration aligns the rectangle with a strip. *)
Definition aligned (op keep : Prop -> Prop -> Prop) (pre : list rect_strip) (it : rect_strip)
    (post : list rect_strip) (s : rects) (r : rect) (j : option (nat * rect)) (s' : rects) : Prop :=
  match j with
  | None => fin op s r s'
  | Some (n, r') => adv op keep s r s' r' /\
      exists pre' it', r_strips s' = pre' ++ it' :: post /\ n = length pre' /\ (n <= length pre + 1)%nat /\
        rs_xmin it' = r_xmin r' /\ xend it' = xend it
  end.

Lemma same_area_adv op keep `{!RegionOp op keep} s s' r :
  0 < r_xsiz r -> same_area s s' -> adv op keep s r s' r.
Proof.
  intros ? [? Hc]. split; [done|by apply rest_of_refl| |].
  - intros x y. by rewrite Hc.
  - intros x y. rewrite Hc. pose proof (op_keep (op := op) (keep := keep) (cov (r_strips s) x y) False) as Hf.
    by rewrite (op_outside (keep := keep)) in Hf by tauto.
Qed.
Lemma same_strips_part op keep `{!RegionOp op keep} s s' r :
  r_xsiz r > 0 -> strips_ok 0 (r_strips s) -> r_strips s' = r_strips s -> part keep s r s'.
Proof.
  intros ?? Hs. assert (Ha : adv op keep s r s' r).
  { apply same_area_adv; [done|lia|]. split; by rewrite Hs. }
  split; [apply Ha|]. intros x y. split; [apply Ha|]. rewrite Hs. tauto.
Qed.

Lemma split_inside_ok op keep `{!RegionOp op keep} pre it post r s :
  r_strips s = pre ++ it :: post -> strips_ok 0 (r_strips s) -> rect_pos r ->
  rs_xmin it < r_xmin r < xend it ->
  srun (split_inside (length pre) r) s (aligned op keep pre it post s r) (fun _ => part keep s r).
Proof.
  intros Hs Hok [(?&?&?&?&?&?) [??]] ?. unfold split_inside. apply (run_strip _ _ _ pre it post); [done|].
  pose proof Hok as Hok'. rewrite Hs in Hok'. pose proof Hok' as [Hlo [(?&?&?&?) _]]%strips_ok_app.
  apply xnext_ge in Hlo. unfold xend in *. u32s.
  apply srun_bind. eapply srun_mono; [eapply split_strip_ok; [done|done|lia]| |].
  2: { intros e s' Hs'. by eapply (same_strips_part op); [done|lia|..]. }
  intros _ s' (u&?&Hs').
  destruct (split_strips 0 pre it post (r_xmin r - rs_xmin it) u) as [Hok1 Hc]; [lia|done|done|].
  assert (Ha : same_area s s').
  { split; [by rewrite Hs'|]. intros x y. by rewrite Hs', Hc, Hs. }
  apply run_check_rects; [apply Ha|]. apply srun_ret. split; [by apply same_area_adv|].
  rewrite Hs', cons_middle, app_assoc. eexists _, _. split; [done|]. rewrite length_app. cbn.
  repeat split; unfold xend; cbn; lia.
Qed.
