(* ===== verification/RectProps.v ===== *)
(** Correctness of the rectangle sets: inserting a rectangle is the union with it,
    removing one the difference, moving a set is its translation, and no assertion
    of the code fails.  When memory runs out the chain stays well-formed; what an
    insertion has covered so far lies between the old set and the result, and a
    removal may have taken more than it should from the strips of the rectangle. *)
From S2P Require Import Prelude Rect RectBlocks RectStrips.
Open Scope Z_scope.

(** ** Insertion *)
Lemma new_strip_ok pre post r w s :
  r_strips s = pre ++ post -> strips_ok 0 (r_strips s) -> rect_pos r -> xnext 0 pre <= r_xmin r ->
  0 < w <= r_xsiz r -> match post with it :: _ => r_xmin r + w <= rs_xmin it | [] => True end ->
  srun (new_strip (length pre) r w) s
    (fun _ s' => fin join s (narrow r w) s' /\
       exists t, r_strips s' = pre ++ t :: post /\ rs_xmin t = r_xmin r /\ rs_xsiz t = w)
    (fun _ s' => r_strips s' = r_strips s).
Proof.
  intros Hs Hok [(?&?&?&?&?&?) [??]] ? ? Hp. unfold new_strip. apply run_strip_alloc; [|done].
  intros u m ?. apply run_strips. cbn. rewrite Hs in *. rewrite take_app_length, drop_app_length.
  split; [|by eexists]. split; cbn.
  - apply strips_ok_app in Hok as [Hl Hpost]. apply strips_ok_app. split; [done|]. cbn.
    split; [|].
    + unfold strip_ok, strip_wf, xend, COORD_MAX in *. cbn. unfold rs_blkc. cbn. intuition (discriminate || lia).
    + destruct post as [|it post]; [done|]. unfold xend. cbn in *. unfold strip_ok in *. intuition lia.
  - intros x y. rewrite Hs, !cov_app, cov_cons. unfold join, scov, xend, in_rect, narrow. cbn.
    rewrite bcov_cons, bcov_nil. unfold in_block. cbn. tauto.
Qed.

Lemma insert_before_ok pre it post r s :
  r_strips s = pre ++ it :: post -> strips_ok 0 (r_strips s) -> rect_pos r ->
  xnext 0 pre <= r_xmin r < rs_xmin it ->
  srun (insert_before (length pre) r) s (aligned join grows pre it post s r) (fun _ => part grows s r).
Proof.
  intros Hs Hok Hr ?. unfold insert_before. apply (run_strip _ _ _ pre it post); [done|].
  pose proof Hok as Hok'. rewrite Hs in Hok'. pose proof Hok' as [Hlo [(?&?&?&?) _]]%strips_ok_app.
  apply xnext_ge in Hlo. pose proof Hr as [(?&?&?&?&?&?) [??]]. unfold xend in *. u32s.
  set (w := if _ <? _ then _ else _).
  assert (Hw : w = Z.min (r_xsiz r) (rs_xmin it - r_xmin r)).
  { unfold w. destruct (Z.ltb_spec (r_xsiz r) (rs_xmin it - r_xmin r)); lia. }
  clearbody w. apply run_scheck; [lia|]. apply srun_bind.
  eapply srun_mono; [eapply (new_strip_ok pre (it :: post)); try done; lia| |].
  2: { intros e s' Hs'. eapply (same_strips_part join); [apply _|lia|done..]. }
  intros _ s' [[Hok1 Hc] (t&Hs'&Hx&Hxs)]. apply run_check_rects; [done|].
  pose proof (consume_spec r w Hr) as Hsp. destruct (consume r w) as [r'|].
  - destruct Hsp as [? ->]; [lia|].
    pose proof (narrow_adv join grows s r w s' ltac:(lia) (conj Hok1 Hc)) as Ha.
    eapply run_total; [by eapply merge_pred_ok|].
    intros [] s''; cbv beta iota.
    + intros [Hm (pre'&p&it'&->&Hs''&?)]. apply run_check_rects; [apply Hm|]. apply srun_ret. split.
      { eapply adv_trans; [apply _|exact Ha|]. apply same_area_adv; [apply _|cbn; lia|done]. }
      exists (pre' ++ [it']), it. rewrite Hs'', <- app_assoc, !length_app. cbn. repeat split; (done || lia).
    + intros ->. apply run_check_rects; [done|]. apply srun_ret. split; [done|].
      exists (pre ++ [t]), it. rewrite Hs', <- app_assoc, length_app. cbn. repeat split; (done || lia).
  - assert (w = r_xsiz r) as -> by (apply Hsp; lia). rewrite narrow_all in Hc.
    eapply run_total; [by eapply merge_next_ok|].
    intros bm s'' Hm.
    assert (Hm' : same_area s' s'' /\ exists t' post', r_strips s'' = pre ++ t' :: post').
    { destruct bm; [|subst s''; split; [by apply same_area_refl|by eauto]].
      destruct Hm as [? (nx&post'&it'&?&?&?)]. split; [done|]. by exists it', post'. }
    destruct Hm' as [Hm' (t'&post'&Hs'')].
    eapply run_total; [eapply merge_pred_ok; [done|apply Hm']|].
    intros bm' s3 Hm3. assert (Ha3 : same_area s' s3).
    { destruct bm'; [|by subst]. eapply same_area_trans; [done|apply Hm3]. }
    destruct Ha3 as [Hok3 Hc3]. apply run_check_rects; [done|]. apply srun_ret.
    split; [done|]. intros x y. by rewrite Hc3, Hc.
Qed.

Lemma strips_ok_replace lo pre it post t :
  strips_ok lo (pre ++ it :: post) -> same_x t it -> strip_wf t -> rs_blkv t <> [] ->
  strips_ok lo (pre ++ t :: post).
Proof.
  rewrite !strips_ok_app. cbn. unfold strip_ok, xend. intros (?&(?&?&?&?&?)&?) [-> ->] ??. done.
Qed.
Lemma replace_join pre it post t r s s' :
  r_strips s = pre ++ it :: post -> strips_ok 0 (r_strips s) -> rs_xmin it = r_xmin r ->
  block_done join it (r_ymin r) (r_ysiz r) t -> r_strips s' = pre ++ ss_self t :: post ->
  fin join s (narrow r (rs_xsiz it)) s'.
Proof.
  intros Hs Hok Hx (Hsx&Hw&Hc) Hs'. split.
  - rewrite Hs', Hs in *. pose proof Hok as [_ [(_&_&_&[Hb _]&Hne) _]]%strips_ok_app.
    eapply strips_ok_replace; try done. destruct (blocks_cover _ _ Hb Hne) as [y Hy].
    apply (bcov_nonempty _ y), Hc. by left.
  - intros x y. destruct Hsx as [H1 H2]. rewrite Hs', Hs, !cov_app, !cov_cons.
    unfold scov, xend. rewrite Hc, H1, H2, Hx. unfold join, in_rect, narrow, yrange. cbn. tauto.
Qed.
Lemma replace_part op keep `{!RegionOp op keep} pre it post t r s s' :
  r_strips s = pre ++ it :: post -> strips_ok 0 (r_strips s) -> rs_xmin it = r_xmin r ->
  0 < r_xsiz r -> rs_xsiz it <= r_xsiz r -> (forall c : Prop, keep c c) ->
  (forall a b p q : Prop, keep b q -> keep (a \/ p /\ b) (a \/ p /\ q)) ->
  block_part op keep it (r_ymin r) (r_ysiz r) t -> r_strips s' = pre ++ ss_self t :: post ->
  part keep s r s'.
Proof.
  intros Hs Hok Hx ? ? Hrefl Hmono (Hsx&Hw&Hn&Hc) Hs'.
  pose proof Hok as Hok'. rewrite Hs in Hok'. pose proof Hok' as [_ [(_&_&_&Hb&Hne) _]]%strips_ok_app.
  split; [rewrite Hs'; by eapply strips_ok_replace; [..|by apply Hn]|].
  intros x y. destruct Hsx as [H1 H2]. destruct (Hc y) as [Hk Hi]. rewrite Hs', Hs, !cov_app, !cov_cons.
  unfold scov, xend. rewrite H1, H2, Hx. split.
  - specialize (Hmono (cov pre x y \/ cov post x y) _ (r_xmin r <= x < r_xmin r + rs_xsiz it) _ Hk).
    revert Hmono. apply keep_proper; tauto.
  - unfold in_rect, yrange in *. intuition lia.
Qed.

Lemma insert_overlap_ok pre it post r s :
  r_strips s = pre ++ it :: post -> strips_ok 0 (r_strips s) -> rect_pos r -> rs_xmin it = r_xmin r ->
  srun (insert_overlap (length pre) r (xend it)) s
    (jump_post join grows (length pre + 1) (length post) s r) (fun _ => part grows s r).
Proof.
  intros Hs Hok Hr Hx. unfold insert_overlap. apply (run_strip _ _ _ pre it post); [done|].
  pose proof Hr as [(?&?&?&?&?&?) [??]].
  apply run_scheck; [lia|]. apply run_scheck; [rewrite (strip_end_u32 pre it post); [lia|by rewrite <- Hs]|].
  apply srun_bind. eapply srun_mono; [eapply fit_strip_ok; [done|done|lia]| |].
  2: { intros e s' Hs'. eapply (same_strips_part join); [apply _|lia|done..]. }
  intros w s1 (Hw&Ha1&it1&post1&Hs1&Hx1&Hw1&Hpost1).
  pose proof Ha1 as [Hok1 _]. pose proof Hok1 as Hok1'. rewrite Hs1 in Hok1'.
  pose proof Hok1' as [_ [(?&?&?&Hwf&?) _]]%strips_ok_app.
  apply (run_strip _ _ _ pre it1 post1); [done|]. do 2 (apply run_scheck; [lia|]).
  apply run_check_rects; [done|]. apply srun_bind.
  eapply srun_mono; [eapply on_strip_ok; [done|apply rects_split_insert_block_ok; try done; lia]| |].
  - intros _ s2 (t&Ht&Hs2).
    pose proof (replace_join _ _ _ _ r s1 s2 Hs1 Hok1 ltac:(congruence) Ht Hs2) as Hf.
    apply run_check_rects; [apply Hf|]. eapply run_total; [eapply merge_strips_ok; [done|apply Hf]|].
    intros n s3 [Ha3 Hm]. apply srun_ret. eapply jump_post_adv; [apply _|by apply same_area_adv; [apply _|..]|].
    rewrite Hw1 in Hf. apply consume_post; [apply _|done|lia|by eapply fin_same_area|].
    intros Hlt. specialize (Hpost1 Hlt). subst post1. destruct Ht as [[H1' H2'] _]. cbn in H1', H2'.
    unfold xend in Hm. by rewrite H1', H2', Hw1, Hx1, Hx in Hm.
  - intros e s2 (t&Ht&Hs2). eapply adv_part; [apply _|by apply same_area_adv; [apply _|..]|].
    eapply (replace_part join grows); try done; try lia; unfold grows; tauto.
Qed.

Lemma insert_body_ok pre it post r s :
  r_strips s = pre ++ it :: post -> strips_ok 0 (r_strips s) -> rect_pos r ->
  xnext 0 pre <= r_xmin r < xend it ->
  srun (insert_body (length pre) r (xend it)) s
    (jump_post join grows (length pre + 3) (length post) s r) (fun _ => part grows s r).
Proof.
  intros Hs Hok Hr ?. unfold insert_body. apply (run_strip _ _ _ pre it post); [done|]. apply srun_bind.
  eapply srun_mono with (Q := aligned join grows pre it post s r) (R := fun _ => part grows s r); [| |done].
  - destruct (Z.ltb_spec (r_xmin r) (rs_xmin it)); [apply insert_before_ok; (done || lia)|].
    destruct (Z.ltb_spec (rs_xmin it) (r_xmin r)); [apply split_inside_ok; (apply _ || done || lia)|].
    apply srun_ret. split; [apply same_area_adv; [apply _|apply Hr|by apply same_area_refl]|].
    exists pre, it. repeat split; (done || lia).
  - intros [[n r']|] s'; cbv beta iota; [|by intros; apply srun_ret].
    intros [Ha (pre'&it'&Hs'&->&?&Hx&He)]. rewrite <- He.
    eapply srun_mono; [eapply insert_overlap_ok; [done|apply Ha|by eapply rest_of_pos, Ha|done]| |].
    + intros j s'' Hj. eapply jump_post_adv; [apply _|done|].
      destruct j as [[n r'']|]; [|done]. destruct Hj as [? Hm]. split; [done|].
      eapply moved_mono; [|done|done]. lia.
    + intros e s'' Hp. by eapply (adv_part join grows).
Qed.

Lemma insert_after_ok r s :
  strips_ok 0 (r_strips s) -> rect_pos r -> xnext 0 (r_strips s) <= r_xmin r ->
  srun (insert_after (length (r_strips s)) r) s (fun _ => fin join s r) (fun _ => part grows s r).
Proof.
  intros Hok Hr ?. pose proof Hr as [(?&?&?&?&?&?) [??]]. unfold insert_after.
  apply run_check_rects; [done|]. apply srun_bind.
  eapply srun_mono; [apply (new_strip_ok (r_strips s) [] r (r_xsiz r)); (by rewrite app_nil_r) || done || lia| |].
  2: { intros e s' Hs'. eapply (same_strips_part join); [apply _|lia|done..]. }
  intros _ s' [Hf (t&Hs'&_)]. rewrite narrow_all in Hf. unfold COORD_MAX in *.
  do 2 (apply run_scheck; [unfold int_nonneg; lia|]). apply run_check_rects; [apply Hf|].
  eapply run_total; [eapply merge_pred_ok; [done|apply Hf]|]. intros b s'' Hm.
  assert (Ha : same_area s' s'') by (destruct b; [apply Hm|subst; apply same_area_refl, Hf]).
  apply check_rects_ok; [apply Ha|]. by eapply fin_same_area.
Qed.

Lemma rects_insert_ok r s :
  strips_ok 0 (r_strips s) -> rect_ok r ->
  srun (rects_insert r) s (fun _ => fin join s r) (fun _ => part grows s r).
Proof.
  intros Hok Hr. pose proof Hr as (?&?&?&?&?&?). unfold rects_insert. apply run_check_rects; [done|].
  apply srun_bind. eapply srun_mono with (Q := fun _ => fin join s r) (R := fun _ => part grows s r); [| |done].
  2: { intros _ s' Hf. apply check_rects_ok; [apply Hf|done]. }
  destruct ((r_xsiz r =? 0) || (r_ysiz r =? 0)) eqn:E.
  { apply srun_ret. split; [done|]. intros x y. unfold join, in_rect. intuition lia. }
  unfold COORD_MAX in *. do 2 (apply run_scheck; [unfold int_nonneg; lia|]). apply run_strips.
  apply (strip_loop_ok join grows) with (L := (4 * length (r_strips s))%nat) (a := []) (b := r_strips s).
  - apply insert_body_ok.
  - apply insert_after_ok.
  - done.
  - done.
  - done.
  - done.
  - split; [done|lia].
  - done.
  - unfold loop_fuel. cbn. lia.
Qed.

(** ** Removal *)
Lemma replace_minus pre it post t r s l :
  r_strips s = pre ++ it :: post -> strips_ok 0 (r_strips s) -> rs_xmin it = r_xmin r ->
  block_done minus it (r_ymin r) (r_ysiz r) t ->
  (forall x y, cov l x y <-> cov (pre ++ ss_self t :: post) x y) ->
  forall x y, cov l x y <-> minus (cov (r_strips s) x y) (in_rect (narrow r (rs_xsiz it)) x y).
Proof.
  intros Hs Hok Hx ([H1 H2]&Hw&Hc) Hl x y. rewrite Hl. rewrite Hs in *.
  apply strips_ok_app in Hok as [Hpre [(?&?&?&_) Hpost]].
  pose proof (cov_range _ _ x y Hpre). pose proof (cov_range _ _ x y Hpost).
  rewrite !cov_app, !cov_cons. unfold scov, xend in *. rewrite Hc, H1, H2, Hx in *.
  unfold minus, in_rect, narrow, yrange. cbn. intuition lia.
Qed.

Lemma gap_fin pre it post r w s :
  r_strips s = pre ++ it :: post -> strips_ok 0 (r_strips s) ->
  xnext 0 pre <= r_xmin r -> r_xmin r + w <= rs_xmin it -> fin minus s (narrow r w) s.
Proof.
  intros Hs Hok ? ?. split; [done|]. intros x y. rewrite Hs in *.
  apply strips_ok_app in Hok as [Hpre Hpost].
  pose proof (cov_range _ _ x y Hpre).
  pose proof (cov_range (rs_xmin it) (it :: post) x y) as Hr.
  assert (strips_ok (rs_xmin it) (it :: post)).
  { destruct Hpost as [(?&?&?&?&?) ?]. split; [|done]. unfold strip_ok. intuition lia. }
  rewrite cov_app. unfold minus, in_rect, narrow. cbn. intuition lia.
Qed.

Lemma skip_gap_ok pre it post r s R :
  r_strips s = pre ++ it :: post -> strips_ok 0 (r_strips s) -> rect_pos r ->
  xnext 0 pre <= r_xmin r < rs_xmin it ->
  srun (skip_gap (length pre) r) s (aligned minus shrinks pre it post s r) R.
Proof.
  intros Hs Hok Hr ?. unfold skip_gap. apply (run_strip _ _ _ pre it post); [done|].
  pose proof Hok as Hok'. rewrite Hs in Hok'. pose proof Hok' as [Hlo [(?&?&?&?) _]]%strips_ok_app.
  apply xnext_ge in Hlo. pose proof Hr as [(?&?&?&?&?&?) [??]]. unfold xend in *. u32s.
  set (w := if _ <? _ then _ else _).
  assert (Hw : w = Z.min (r_xsiz r) (rs_xmin it - r_xmin r)).
  { unfold w. destruct (Z.ltb_spec (r_xsiz r) (rs_xmin it - r_xmin r)); lia. }
  clearbody w. pose proof (gap_fin pre it post r w s Hs Hok ltac:(lia) ltac:(lia)) as Hf.
  pose proof (consume_spec r w Hr) as Hsp. destruct (consume r w) as [r'|].
  - destruct Hsp as [? ->]; [lia|]. apply run_check_rects; [done|]. apply srun_ret.
    split; [by apply narrow_adv; [apply _|lia|]|]. exists pre, it. cbn. repeat split; (done || lia).
  - apply srun_ret. assert (w = r_xsiz r) as -> by (apply Hsp; lia). by rewrite narrow_all in Hf.
Qed.

(** After the blocks: an empty strip is unlinked, another one merged. *)
Lemma remove_tail_ok pre it t post r s s' R :
  r_strips s = pre ++ it :: post -> strips_ok 0 (r_strips s) -> rs_xmin it = r_xmin r ->
  block_done minus it (r_ymin r) (r_ysiz r) t -> r_strips s' = pre ++ ss_self t :: post ->
  srun (if (rs_blkc (ss_self t) =? 0)%nat then
          strips ≫= fun l => set_strips (take (length pre) l ++ drop (S (length pre)) l) ≫= fun _ =>
          check_rects ≫= fun _ => mret (length pre)
        else check_rects ≫= fun _ => merge_strips (length pre)) s'
    (fun n s'' => fin minus s (narrow r (rs_xsiz it)) s'' /\
       moved (length pre + 1) (length post) n (r_xmin r + rs_xsiz it) s'') R.
Proof.
  intros Hs Hok Hx Hd Hs'. pose proof Hok as Hok'. rewrite Hs in Hok'.
  pose proof Hok' as [Hpre [(?&?&?&_) Hpost]]%strips_ok_app.
  destruct (Nat.eqb_spec (rs_blkc (ss_self t)) 0) as [E|E].
  - apply length_zero_iff_nil in E. apply run_strips, run_set_strips. rewrite Hs', take_app_length.
    change (S (length pre)) with (1 + length pre)%nat. rewrite Nat.add_comm, drop_app_add. cbn [drop].
    assert (Hf : fin minus s (narrow r (rs_xsiz it)) (MkRects (pre ++ post) (r_mem s'))).
    { split; [apply strips_ok_app; split; [done|]; eapply strips_ok_mono; [|done]; unfold xend; lia|].
      eapply replace_minus; try done. intros x y. cbn. rewrite !cov_app, cov_cons.
      unfold scov. rewrite E, bcov_nil. tauto. }
    apply run_check_rects; [apply Hf|]. apply srun_ret. split; [done|].
    exists pre, post. repeat split; (done || lia).
  - assert (Hf : fin minus s (narrow r (rs_xsiz it)) s').
    { split; [|eapply replace_minus; try done; by rewrite Hs'].
      rewrite Hs'. destruct Hd as (?&?&_). eapply strips_ok_replace; try done.
      intros E'. apply E. unfold rs_blkc. by rewrite E'. }
    apply run_check_rects; [apply Hf|].
    eapply srun_mono; [eapply merge_strips_ok; [done|apply Hf]| |done].
    intros n s'' [Ha Hm]. split; [by eapply fin_same_area|].
    destruct Hd as [[Hd1 Hd2] _]. unfold xend in Hm. by rewrite Hd1, Hd2, Hx in Hm.
Qed.

Lemma remove_overlap_ok pre it post r s :
  r_strips s = pre ++ it :: post -> strips_ok 0 (r_strips s) -> rect_pos r -> rs_xmin it = r_xmin r ->
  srun (remove_overlap (length pre) r) s
    (jump_post minus shrinks (length pre + 1) (length post) s r) (fun _ => part shrinks s r).
Proof.
  intros Hs Hok Hr Hx. unfold remove_overlap. apply (run_strip _ _ _ pre it post); [done|].
  pose proof Hr as [(?&?&?&?&?&?) [??]]. apply run_scheck; [lia|].
  apply srun_bind. eapply srun_mono; [eapply fit_strip_ok; [done|done|lia]| |].
  2: { intros e s' Hs'. eapply (same_strips_part minus); [apply _|lia|done..]. }
  intros w s1 (Hw&Ha1&it1&post1&Hs1&Hx1&Hw1&Hpost1).
  pose proof Ha1 as [Hok1 _]. pose proof Hok1 as Hok1'. rewrite Hs1 in Hok1'.
  pose proof Hok1' as [_ [(?&?&?&Hwf&?) _]]%strips_ok_app.
  apply run_check_rects; [done|]. apply srun_bind.
  eapply srun_mono; [eapply on_strip_ok; [done|apply rects_split_remove_block_ok; try done; lia]| |].
  - intros _ s2 (t&Ht&Hs2). apply (run_strip _ _ _ pre (ss_self t) post1); [done|].
    eapply run_total; [eapply (remove_tail_ok pre it1); try done; congruence|].
    intros n s3 [Hf Hm]. apply srun_ret. eapply jump_post_adv; [apply _|by apply same_area_adv; [apply _|..]|].
    rewrite Hw1 in *. apply consume_post; [apply _|done|lia|done|].
    intros Hlt. by rewrite <- (Hpost1 Hlt).
  - intros e s2 (t&Ht&Hs2). eapply (adv_part minus shrinks); [by apply same_area_adv; [apply _|..]|].
    eapply (replace_part minus shrinks); try done; try lia; unfold shrinks; tauto.
Qed.

Lemma remove_body_ok pre it post r s :
  r_strips s = pre ++ it :: post -> strips_ok 0 (r_strips s) -> rect_pos r ->
  xnext 0 pre <= r_xmin r < xend it ->
  srun (remove_body (length pre) r (xend it)) s
    (jump_post minus shrinks (length pre + 3) (length post) s r) (fun _ => part shrinks s r).
Proof.
  intros Hs Hok Hr ?. unfold remove_body. apply (run_strip _ _ _ pre it post); [done|]. apply srun_bind.
  eapply srun_mono with (Q := aligned minus shrinks pre it post s r) (R := fun _ => part shrinks s r); [| |done].
  - destruct (Z.ltb_spec (r_xmin r) (rs_xmin it)); [apply skip_gap_ok; (done || lia)|].
    destruct (Z.ltb_spec (rs_xmin it) (r_xmin r)); [apply split_inside_ok; (apply _ || done || lia)|].
    apply srun_ret. split; [apply same_area_adv; [apply _|apply Hr|by apply same_area_refl]|].
    exists pre, it. repeat split; (done || lia).
  - intros [[n r']|] s'; cbv beta iota; [|by intros; apply srun_ret].
    intros [Ha (pre'&it'&Hs'&->&?&Hx&He)].
    eapply srun_mono; [eapply remove_overlap_ok; [done|apply Ha|by eapply rest_of_pos, Ha|done]| |].
    + intros j s'' Hj. eapply jump_post_adv; [apply _|done|].
      destruct j as [[n r'']|]; [|done]. destruct Hj as [? Hm]. split; [done|].
      eapply moved_mono; [|done|done]. lia.
    + intros e s'' Hp. by eapply (adv_part minus shrinks).
Qed.

Lemma rects_remove_ok r s :
  strips_ok 0 (r_strips s) -> rect_ok r ->
  srun (rects_remove r) s (fun _ => fin minus s r) (fun _ => part shrinks s r).
Proof.
  intros Hok Hr. pose proof Hr as (?&?&?&?&?&?). unfold rects_remove. apply run_check_rects; [done|].
  apply srun_bind. eapply srun_mono with (Q := fun _ => fin minus s r) (R := fun _ => part shrinks s r); [| |done].
  2: { intros _ s' Hf. apply check_rects_ok; [apply Hf|done]. }
  destruct ((r_xsiz r =? 0) || (r_ysiz r =? 0)) eqn:E.
  { apply srun_ret. split; [done|]. intros x y. unfold minus, in_rect. intuition lia. }
  apply run_strips.
  apply (strip_loop_ok minus shrinks) with (L := (4 * length (r_strips s))%nat) (a := []) (b := r_strips s);
    try done; [apply remove_body_ok| |split; [done|lia]|unfold loop_fuel; cbn; lia].
  intros r' s' Hok' _ Hx. apply srun_ret. split; [done|]. intros x y.
  pose proof (cov_range _ _ x y Hok'). unfold minus, in_rect. intuition lia.
Qed.

(** ** While memory lasts nothing throws *)
Definition granted (m : nat -> mem_answer) : Prop := forall n, exists slack, m n = Granted slack.
Definition scalm (s : sstate) : Prop := granted (ss_mem s).
Definition rcalm (s : rects) : Prop := granted (r_mem s).

Lemma quiet_xrealloc n : quietly scalm (xrealloc n).
Proof. intros s Hs. unfold xrealloc. destruct (Hs 0%nat) as [k ->]. intros i. apply Hs. Qed.
Lemma quiet_blkv : quietly scalm blkv.
Proof. by intros s Hs. Qed.
Lemma quiet_usable : quietly scalm usable.
Proof. by intros s Hs. Qed.
Lemma quiet_set_blkv v : quietly scalm (set_blkv v).
Proof. by intros s Hs. Qed.
Lemma quiet_panic {S A} (calm : S -> Prop) : quietly calm (fun _ => SPanic : sres S A).
Proof. by intros s Hs. Qed.
#[export] Hint Resolve quiet_xrealloc quiet_blkv quiet_usable quiet_set_blkv quiet_panic : quiet.
Lemma quiet_blk i : quietly scalm (blk i).
Proof. unfold blk. quiet_run. Qed.
Lemma quiet_insert_at i ymin ysiz : quietly scalm (rects_split_insert_block_at i ymin ysiz).
Proof. unfold rects_split_insert_block_at, grow_blocks. quiet_run. Qed.
#[export] Hint Resolve quiet_blk quiet_insert_at : quiet.
Lemma quiet_extend i bend ymin ysiz : quietly scalm (extend_block i bend ymin ysiz).
Proof. unfold extend_block, extend_upwards, set_blk. quiet_run. Qed.
Lemma quiet_trim i ymin ysiz : quietly scalm (trim_block i ymin ysiz).
Proof. unfold trim_block, set_blk. quiet_run. Qed.
#[export] Hint Resolve quiet_extend quiet_trim : quiet.
Lemma quiet_block_loop step after fuel i ymin ysiz :
  (forall i ymin ysiz, quietly scalm (step i ymin ysiz)) ->
  (forall i ymin ysiz, quietly scalm (after i ymin ysiz)) ->
  quietly scalm (scan_blocks step after fuel i ymin ysiz).
Proof. intros. revert i ymin ysiz. induction fuel as [|fuel IH]; intros; cbn [scan_blocks]; quiet_run. Qed.
Lemma quiet_insert_block ymin ysiz : quietly scalm (rects_split_insert_block ymin ysiz).
Proof.
  unfold rects_split_insert_block. quiet_run. apply quiet_block_loop; intros.
  - unfold insert_step, set_blk. quiet_run.
  - unfold append_block, grow_blocks. quiet_run.
Qed.
Lemma quiet_remove_block ymin ysiz : quietly scalm (rects_split_remove_block ymin ysiz).
Proof.
  unfold rects_split_remove_block. quiet_run. apply quiet_block_loop; intros; [|quiet_run].
  unfold remove_step, set_blk. quiet_run.
Qed.

Lemma quiet_strip_alloc n : quietly rcalm (strip_alloc n).
Proof. intros s Hs. unfold strip_alloc. destruct (Hs 0%nat) as [k ->]. intros i. apply Hs. Qed.
Lemma quiet_strips : quietly rcalm strips.
Proof. by intros s Hs. Qed.
Lemma quiet_set_strips l : quietly rcalm (set_strips l).
Proof. by intros s Hs. Qed.
Lemma quiet_on_strip n f : quietly scalm f -> quietly rcalm (on_strip n f).
Proof.
  intros Hf s Hs. unfold on_strip. destruct (r_strips s !! n) as [self|]; [|done].
  specialize (Hf (MkSs self (r_mem s)) Hs). by destruct (f _).
Qed.
#[export] Hint Resolve quiet_strip_alloc quiet_strips quiet_set_strips quiet_on_strip
  quiet_insert_block quiet_remove_block : quiet.
Lemma quiet_strip n : quietly rcalm (strip n).
Proof. unfold strip. quiet_run. Qed.
Lemma quiet_check_rects : quietly rcalm check_rects.
Proof. unfold check_rects. quiet_run. Qed.
#[export] Hint Resolve quiet_strip quiet_check_rects : quiet.
Lemma quiet_split_strip n off : quietly rcalm (rects_split_strip n off).
Proof. unfold rects_split_strip. quiet_run. Qed.
Lemma quiet_merge_next n : quietly rcalm (rects_split_merge_next n).
Proof. unfold rects_split_merge_next. quiet_run. Qed.
Lemma quiet_merge_pred n : quietly rcalm (merge_pred n).
Proof. destruct n; [apply quietly_ret|apply quiet_merge_next]. Qed.
Lemma quiet_new_strip n r w : quietly rcalm (new_strip n r w).
Proof. unfold new_strip. quiet_run. Qed.
#[export] Hint Resolve quiet_split_strip quiet_merge_next quiet_merge_pred quiet_new_strip : quiet.
Lemma quiet_parts n r : quietly rcalm (split_inside n r) /\ quietly rcalm (fit_strip n r) /\
  quietly rcalm (insert_before n r) /\ quietly rcalm (skip_gap n r) /\ quietly rcalm (merge_strips n).
Proof. unfold split_inside, fit_strip, insert_before, skip_gap, merge_strips. repeat split; quiet_run. Qed.
Lemma quiet_strip_loop body after fuel n r :
  (forall n r e, quietly rcalm (body n r e)) -> (forall n r, quietly rcalm (after n r)) ->
  quietly rcalm (strip_loop body after fuel n r).
Proof. intros. revert n r. induction fuel as [|fuel IH]; intros; cbn [strip_loop]; quiet_run. Qed.

Lemma quiet_insert r : quietly rcalm (rects_insert r).
Proof.
  unfold rects_insert. quiet_run. apply quiet_strip_loop; intros n r'; [|unfold insert_after; quiet_run].
  intros e. unfold insert_body, insert_overlap. destruct (quiet_parts n r') as (?&?&?&?&?). quiet_run;
    by apply quiet_parts.
Qed.
Lemma quiet_remove r : quietly rcalm (rects_remove r).
Proof.
  unfold rects_remove. quiet_run. apply quiet_strip_loop; intros n r'; [|quiet_run].
  intros e. unfold remove_body, remove_overlap. destruct (quiet_parts n r') as (?&?&?&?&?). quiet_run;
    by apply quiet_parts.
Qed.

(** ** Moving *)
Definition bmovable (dy : Z) (b : rect_block) : Prop :=
  0 <= rb_ymin b + dy /\ rb_ymin b + rb_ysiz b + dy <= COORD_MAX.
Definition movable (dx dy : Z) (s : rect_strip) : Prop :=
  0 <= rs_xmin s + dx /\ xend s + dx <= COORD_MAX /\ Forall (bmovable dy) (rs_blkv s).
(** The points of [P] stay within the coordinates when they are moved. *)
Definition moves_within (P : Z -> Z -> Prop) (dx dy : Z) : Prop :=
  forall x y, P x y -> 0 <= x + dx < COORD_MAX /\ 0 <= y + dy < COORD_MAX.

Lemma blocks_ok_pos lo v : blocks_ok lo v -> Forall (fun b => 0 < rb_ysiz b) v.
Proof.
  revert lo; induction v as [|b v IH]; intros lo; [by constructor|].
  intros (?&?&?&?). constructor; [done|]. by eapply IH.
Qed.
Lemma moves_within_movable lo l dx dy :
  strips_ok lo l -> moves_within (cov l) dx dy -> Forall (movable dx dy) l.
Proof.
  revert lo; induction l as [|s l IH]; intros lo Hok Hm; [done|].
  destruct Hok as [(?&?&?&[Hb _]&Hne) Hok]. constructor.
  - assert (Hc : forall b x y, In b (rs_blkv s) -> rs_xmin s <= x < xend s -> in_block b y ->
                 0 <= x + dx < COORD_MAX /\ 0 <= y + dy < COORD_MAX).
    { intros b x y ???. apply Hm, cov_cons. left. split; [done|]. apply Exists_exists. by exists b. }
    assert (Hpos : Forall (fun b => 0 < rb_ysiz b) (rs_blkv s)).
    { by eapply blocks_ok_pos. }
    rewrite Forall_forall in Hpos. unfold movable, bmovable, xend, in_block in *. repeat split.
    + destruct (rs_blkv s) as [|b v]; [done|]. specialize (Hpos b ltac:(by left)).
      specialize (Hc b (rs_xmin s) (rb_ymin b) ltac:(by left)). lia.
    + destruct (rs_blkv s) as [|b v]; [done|]. specialize (Hpos b ltac:(by left)).
      specialize (Hc b (rs_xmin s + rs_xsiz s - 1) (rb_ymin b) ltac:(by left)). lia.
    + apply Forall_forall. intros b Hbv. specialize (Hpos b Hbv).
      pose proof (Hc b (rs_xmin s) (rb_ymin b) Hbv). pose proof (Hc b (rs_xmin s) (rb_ymin b + rb_ysiz b - 1) Hbv).
      lia.
  - apply (IH _ Hok). intros x y ?. apply Hm, cov_cons. by right.
Qed.

Lemma move_blocks_ok lo v dy :
  0 <= lo -> blocks_ok lo v -> Forall (bmovable dy) v ->
  blocks_ok (Z.max 0 (lo + dy)) (shift_block dy <$> v) /\
  (forall y, bcov (shift_block dy <$> v) y <-> bcov v (y - dy)) /\ (dy = 0 -> shift_block dy <$> v = v).
Proof.
  revert lo; induction v as [|b v IH]; intros lo Hlo Hok Hm.
  { split; [done|]. split; [|done]. intros y. by rewrite !bcov_nil. }
  destruct Hok as (?&?&?&Hok). apply Forall_cons_iff in Hm as [[??] Hm].
  destruct (IH (rb_ymin b + rb_ysiz b + 1) ltac:(lia) Hok Hm) as (IH1&IH2&IH3). rewrite fmap_cons. unfold COORD_MAX in *.
  assert (E : shift_block dy b = MkBlock (rb_ymin b + dy) (rb_ysiz b)) by (unfold shift_block; by rewrite u32_small by lia).
  rewrite E. split; [|split].
  - cbn. unfold COORD_MAX. do 3 (split; [lia|]). eapply blocks_ok_mono; [|done]. lia.
  - intros y. rewrite !bcov_cons, IH2. unfold in_block. cbn. intuition lia.
  - intros ->. rewrite IH3 by done. destruct b; cbn. do 2 f_equal. lia.
Qed.

Lemma move_strips_ok lo l dx dy (u : rect_strip -> nat) :
  0 <= lo -> strips_ok lo l -> Forall (movable dx dy) l -> (forall s, rs_blkc s <= rs_usable s -> rs_blkc s <= u s)%nat ->
  let l' := (fun s => move_strip dx dy (u s) s) <$> l in
  strips_ok (Z.max 0 (lo + dx)) l' /\ (forall x y, cov l' x y <-> cov l (x - dx) (y - dy)).
Proof.
  intros Hlo Hok Hm Hu. revert lo Hlo Hok Hm. induction l as [|s l IH]; intros lo Hlo Hok Hm.
  { split; [done|]. intros x y. by rewrite !cov_nil. }
  destruct Hok as [(?&?&?&[Hb Hc]&Hne) Hok]. apply Forall_cons_iff in Hm as [(?&?&Hbm) Hm].
  destruct (IH (xend s) ltac:(unfold xend; lia) Hok Hm) as [IH1 IH2].
  destruct (move_blocks_ok 0 (rs_blkv s) dy ltac:(lia) Hb Hbm) as (Hb1&Hb2&Hb3).
  assert (E : move_strip dx dy (u s) s = MkStrip (rs_xmin s + dx) (rs_xsiz s) (u s) (shift_block dy <$> rs_blkv s)).
  { unfold move_strip, xend, COORD_MAX in *. rewrite u32_small by lia.
    destruct (Z.eqb_spec dy 0); [by rewrite Hb3|done]. }
  cbn. rewrite E. split.
  - unfold strip_ok, strip_wf, xend, rs_blkc in *. cbn. rewrite length_fmap. cbn in *.
    split; [|eapply strips_ok_mono; [|done]; lia].
    do 3 (split; [lia|]). split; [split; [eapply blocks_ok_mono; [|done]; lia|by apply Hu]|].
    by destruct (rs_blkv s).
  - intros x y. rewrite !cov_cons, IH2. unfold scov, xend. cbn. rewrite Hb2. intuition lia.
Qed.

Lemma rects_move_ok dx dy s R :
  strips_ok 0 (r_strips s) -> moves_within (cov (r_strips s)) dx dy ->
  srun (rects_move dx dy) s
    (fun _ s' => strips_ok 0 (r_strips s') /\
       forall x y, cov (r_strips s') x y <-> cov (r_strips s) (x - dx) (y - dy)) R.
Proof.
  intros Hok Hm. unfold rects_move. apply run_check_rects; [done|]. apply run_strips, run_set_strips.
  destruct (move_strips_ok 0 (r_strips s) dx dy rs_usable) as [H1 H2]; try done.
  { by eapply moves_within_movable. }
  assert (Hok' : strips_ok 0 ((fun s => move_strip dx dy (rs_usable s) s) <$> r_strips s)).
  { eapply strips_ok_mono; [|done]. lia. }
  by apply check_rects_ok.
Qed.
Lemma quiet_move dx dy : quietly rcalm (rects_move dx dy).
Proof. unfold rects_move. quiet_run. Qed.

(** ** Single rectangles *)
Definition rect_empty (r : rect) : bool := (r_xsiz r =? 0) || (r_ysiz r =? 0).
Lemma rect_intersect_ok stack a b :
  rect_ok a -> rect_ok b ->
  let c := rect_intersect stack a b in
  (forall x y, in_rect c x y <-> in_rect a x y /\ in_rect b x y) /\
  (rect_empty c = false -> rect_pos c).
Proof.
  intros (?&?&?&?&?&?) (?&?&?&?&?&?). unfold rect_intersect, COORD_MAX in *. cbv zeta.
  rewrite (u32_small (r_xmin a + _)), (u32_small (r_ymin a + _)), (u32_small (r_xmin b + _)),
    (u32_small (r_ymin b + _)) by lia.
  destruct (_ || _) eqn:E.
  { split; [|done]. intros x y. unfold in_rect. cbn. lia. }
  rewrite !u32_small by lia. split.
  - intros x y. unfold in_rect. cbn. lia.
  - unfold rect_empty, rect_pos, rect_ok, COORD_MAX. cbn. lia.
Qed.

(** ** The rectangles of a chain *)
Definition sep (r r' : rect) : Prop := forall x y, ~ (in_rect r x y /\ in_rect r' x y).

Lemma foreach_cons s l :
  RECTS_FOREACH (s :: l) =
  ((fun b => MkRect (rs_xmin s) (rb_ymin b) (rs_xsiz s) (rb_ysiz b)) <$> rs_blkv s) ++ RECTS_FOREACH l.
Proof. unfold RECTS_FOREACH. cbn. done. Qed.
Lemma strip_rects_cov s x y :
  Exists (fun r => in_rect r x y) ((fun b => MkRect (rs_xmin s) (rb_ymin b) (rs_xsiz s) (rb_ysiz b)) <$> rs_blkv s)
  <-> scov s x y.
Proof.
  unfold scov, xend. induction (rs_blkv s) as [|b v IH]; cbn.
  - rewrite Exists_nil, bcov_nil. tauto.
  - rewrite Exists_cons, IH, bcov_cons. unfold in_rect, in_block. cbn. tauto.
Qed.
Lemma foreach_cov l x y : Exists (fun r => in_rect r x y) (RECTS_FOREACH l) <-> cov l x y.
Proof.
  induction l as [|s l IH]; [cbn; by rewrite Exists_nil, cov_nil|].
  by rewrite foreach_cons, Exists_app, IH, strip_rects_cov, cov_cons.
Qed.
Lemma foreach_pos lo l : 0 <= lo -> strips_ok lo l -> Forall rect_pos (RECTS_FOREACH l).
Proof.
  revert lo; induction l as [|s l IH]; intros lo ? Hok; [constructor|].
  destruct Hok as [(?&?&?&[Hb _]&_) Hok]. rewrite foreach_cons. apply Forall_app. split.
  - clear -Hb H H0 H1 H2. assert (Hlo : 0 <= 0) by lia. revert Hlo Hb. generalize 0 at 2 3 as z.
    induction (rs_blkv s) as [|b v IHv]; intros z Hz Hb; [constructor|]. destruct Hb as (?&?&?&Hb).
    constructor; [|apply (IHv (rb_ymin b + rb_ysiz b + 1)); (done || lia)].
    unfold rect_pos, rect_ok, xend in *. cbn. lia.
  - apply (IH (xend s)); [unfold xend; lia|done].
Qed.

Lemma sep_app l m :
  ForallOrdPairs sep l -> ForallOrdPairs sep m -> (forall r r', In r l -> In r' m -> sep r r') ->
  ForallOrdPairs sep (l ++ m).
Proof.
  intros Hl Hm. induction Hl as [|r l Hr Hl IH]; intros Hlm; cbn; [done|]. constructor.
  - apply Forall_app. split; [done|]. apply Forall_forall. intros r' ?. apply Hlm; [by left|done].
  - apply IH. intros r0 r' ??. apply Hlm; [by right|done].
Qed.
Lemma blocks_sep xmin xsiz lo v :
  blocks_ok lo v -> ForallOrdPairs sep ((fun b => MkRect xmin (rb_ymin b) xsiz (rb_ysiz b)) <$> v).
Proof.
  revert lo; induction v as [|b v IH]; intros lo H; [constructor|]. destruct H as (?&?&?&H).
  cbn. constructor; [|by eapply IH]. apply Forall_forall. intros r (b'&<-&Hb')%in_map_iff x y [Hr Hr'].
  assert (Hc : bcov v y) by (apply Exists_exists; exists b'; split; [done|apply Hr']).
  apply (bcov_range _ _ _ H) in Hc. unfold in_rect in *. cbn in *. lia.
Qed.
Lemma foreach_sep lo l : strips_ok lo l -> ForallOrdPairs sep (RECTS_FOREACH l).
Proof.
  revert lo; induction l as [|s l IH]; intros lo Hok; [constructor|].
  destruct Hok as [(?&?&?&[Hb _]&_) Hok]. rewrite foreach_cons.
  apply sep_app; [by eapply blocks_sep|by eapply IH|].
  intros r r' Hr Hr' x y [Hx Hx'].
  assert (Hc : cov l x y) by (apply foreach_cov, Exists_exists; by exists r').
  assert (Hs : scov s x y) by (apply strip_rects_cov, Exists_exists; by exists r).
  apply (cov_range _ _ _ _ Hok) in Hc. destruct Hs as [? _]. lia.
Qed.

(** ** The abstract rectangle set *)
Inductive rop : Type :=
| RInsert (r : rect)
| RRemove (r : rect)
| RMove (dx dy : Z).
Definition rexec (op : rop) : RM unit :=
  match op with
  | RInsert r => rects_insert r
  | RRemove r => rects_remove r
  | RMove dx dy => rects_move dx dy
  end.
(** What an operation makes of a set of points. *)
Definition rspec (op : rop) (P : Z -> Z -> Prop) (x y : Z) : Prop :=
  match op with
  | RInsert r => P x y \/ in_rect r x y
  | RRemove r => P x y /\ ~ in_rect r x y
  | RMove dx dy => P (x - dx) (y - dy)
  end.
Definition rvalid (op : rop) (P : Z -> Z -> Prop) : Prop :=
  match op with
  | RInsert r | RRemove r => rect_ok r
  | RMove dx dy => moves_within P dx dy
  end.
(** What is sure after an exception. *)
Definition rpartial (op : rop) (P P' : Z -> Z -> Prop) : Prop :=
  match op with
  | RInsert r => forall x y, (P x y -> P' x y) /\ (P' x y -> P x y \/ in_rect r x y)
  | RRemove r => forall x y, (P' x y -> P x y) /\
      (~ r_xmin r <= x < r_xmin r + r_xsiz r -> P x y -> P' x y)
  | RMove _ _ => False
  end.
Definition rects_ok (s : rects) : Prop := strips_ok 0 (r_strips s).
Definition points (s : rects) : Z -> Z -> Prop := cov (r_strips s).

Lemma rexec_ok op s :
  rects_ok s -> rvalid op (points s) ->
  srun (rexec op) s
    (fun _ s' => rects_ok s' /\ forall x y, points s' x y <-> rspec op (points s) x y)
    (fun _ s' => rects_ok s' /\ rpartial op (points s) (points s')).
Proof.
  intros Hok Hv. destruct op as [r|r|dx dy]; cbn in *.
  - eapply srun_mono; [by apply rects_insert_ok|done|]. intros e s' [? Hp]. split; [done|].
    intros x y. destruct (Hp x y) as (?&?&_). done.
  - eapply srun_mono; [by apply rects_remove_ok|done|]. intros e s' [? Hp]. split; [done|].
    intros x y. destruct (Hp x y) as (?&_&Ho). split; [done|]. intros ??. by apply Ho.
  - by apply rects_move_ok.
Qed.
Lemma quiet_rexec op : quietly rcalm (rexec op).
Proof. destruct op; [apply quiet_insert|apply quiet_remove|apply quiet_move]. Qed.

(** C6: On a well-formed rectangle set, inserting a rectangle, removing one and
    moving the set fail no assertion and leave the set well-formed.  When they
    return, the points of the set are the union with the rectangle, the difference
    from it or the translated points; they throw only if memory is refused, an
    insertion with some part of the rectangle added, a removal with all that is
    left part of the old set and everything outside the columns of the rectangle
    still in it. *)
Theorem rects_op_refines (op : rop) (s : rects) :
  rects_ok s -> rvalid op (points s) ->
  match rexec op s with
  | SRet _ s' => rects_ok s' /\ forall x y, points s' x y <-> rspec op (points s) x y
  | SThrow _ s' => rects_ok s' /\ rpartial op (points s) (points s') /\ ~ rcalm s
  | SPanic => False
  end.
Proof.
  intros Hok Hv. pose proof (rexec_ok op s Hok Hv) as H. pose proof (quiet_rexec op s) as Hq.
  unfold srun in H. destruct (rexec op s) as [[] s'|e s'|]; [done| |done].
  destruct H. split; [done|]. split; done.
Qed.

(** C36: The rectangles that [RECTS_FOREACH] visits on a well-formed set are not
    empty, no two of them share a point, and together they have the points of the
    set. *)
Theorem rects_foreach_tiles (s : rects) :
  rects_ok s ->
  Forall rect_pos (RECTS_FOREACH (r_strips s)) /\
  ForallOrdPairs sep (RECTS_FOREACH (r_strips s)) /\
  forall x y, points s x y <-> Exists (fun r => in_rect r x y) (RECTS_FOREACH (r_strips s)).
Proof.
  intros Hok. split; [by apply (foreach_pos 0)|]. split; [by apply (foreach_sep 0)|].
  intros x y. by rewrite foreach_cov.
Qed.

(** ** Examples *)
Definition plenty : nat -> mem_answer := fun _ => Granted 0.
(** Granted [n] times, then refused. *)
Definition scarce (n : nat) : nat -> mem_answer := fun i => if (i <? n)%nat then Granted 0 else Refused E_BADALLOC.
(** A window at (10,10) of 20x20 pixels with a hole at (15,12) of 10x5. *)
Definition holed : rects :=
  match (rects_insert (MkRect 10 10 20 20) ≫= fun _ => rects_remove (MkRect 15 12 10 5)) (MkRects [] plenty) with
  | SRet _ s => s
  | _ => MkRects [] plenty
  end.
Example holed_foreach : RECTS_FOREACH (r_strips holed) =
  [MkRect 10 10 5 20; MkRect 15 10 10 2; MkRect 15 17 10 13; MkRect 25 10 5 20].
Proof. reflexivity. Qed.
Lemma holed_ok : rects_ok holed.
Proof. repeat split; unfold rs_blkc; cbn; (lia || discriminate). Qed.

Lemma rects_op_refines_witness :
  match rexec (RInsert (MkRect 0 15 50 5)) holed with
  | SRet _ s' => rects_ok s' /\ forall x y, points s' x y <-> rspec (RInsert (MkRect 0 15 50 5)) (points holed) x y
  | SThrow _ s' => rects_ok s' /\ rpartial (RInsert (MkRect 0 15 50 5)) (points holed) (points s') /\ ~ rcalm holed
  | SPanic => False
  end.
Proof.
  apply (rects_op_refines (RInsert (MkRect 0 15 50 5)) holed); [exact holed_ok|].
  unfold rvalid, rect_ok, COORD_MAX. cbn. lia.
Defined.
Lemma rects_foreach_tiles_witness :
  Forall rect_pos (RECTS_FOREACH (r_strips holed)) /\
  ForallOrdPairs sep (RECTS_FOREACH (r_strips holed)) /\
  forall x y, points holed x y <-> Exists (fun r => in_rect r x y) (RECTS_FOREACH (r_strips holed)).
Proof. exact (rects_foreach_tiles holed holed_ok). Defined.

(** When the block that [rects_remove] cuts in two cannot be reallocated, its upper
    half is lost: of a window of 20 rows from which row 5 is removed, rows 0 to 4 are
    left. *)
Example rects_remove_loses_area :
  match (rects_insert (MkRect 0 0 20 20) ≫= fun _ => rects_remove (MkRect 0 5 20 1)) (MkRects [] (scarce 1)) with
  | SThrow e s' => e = E_BADALLOC /\ RECTS_FOREACH (r_strips s') = [MkRect 0 0 20 5]
  | _ => False
  end.
Proof. vm_compute. done. Qed.

(** When the second strip cannot be copied, the copy links to the second strip of
    the source. *)
Example rects_duplicate_shares_source :
  match rects_duplicate_and_move (r_strips holed) 100 0 (MkRects [] (scarce 1)) with
  | SThrow e s' => e = E_BADALLOC /\ drop 1 (r_strips s') = drop 1 (r_strips holed)
  | _ => False
  end.
Proof. vm_compute. done. Qed.
