(* ===== verification/Window.v ===== *)
(** Windows of the window server: [src/apps/wms/window.c], with [display.c].

    A display keeps its windows in Z-order, front to back.  Every window has the set
    of its points that are visible, relative to the window, and the display has the
    set of points where the background is visible.  Operations move points between
    these sets and copy the pixels of the points that became visible to the screen.

    A window is denoted by its place in the Z-order and named by [w_key] (its
    address) in the list [d_windows] of windows to draw and in [d_focus].  [d_draws]
    records the calls of [Copy_Rect] with all their arguments, [d_sent] the messages to clients.  Rectangle
    coordinates are unsigned, so that they are added to positions modulo [2^32].
    [stack] is what an uninitialised [struct rect] holds. *)
From S2P Require Import Prelude Rect.
Open Scope Z_scope.

Definition WM_WINDOW_STATE_FHIDDEN : Z := 1.
Definition WM_WINDOW_STATE_FFOCUSED : Z := 2.
Definition WM_WINDOW_STATE_FDESTROYED : Z := 32768.

Record window : Type := MkWin {
  w_key : Z;
  w_posx : Z;
  w_posy : Z;
  w_state : Z;
  w_sizex : Z;
  w_sizey : Z;
  w_disparea : rect;
  w_stride : Z;
  w_visi : list rect_strip
}.
(** The buffers [Copy_Rect] reads from: the background of the display, or the buffer
    of a window.  It always writes to [d_screen]. *)
Inductive buffer : Type := d_backgrnd | w_screen (key : Z).
(** A call of [Copy_Rect]. *)
Record draw : Type := MkDraw {
  dst_x : Z; dst_y : Z; dst_stride : Z;
  src_buffer : buffer; src_x : Z; src_y : Z; src_stride : Z;
  size_x : Z; size_y : Z; bpp : Z
}.
(** A [WM_WINDOWEVENT_STATE_CHANGE] message: receiver and the fields it sets. *)
Record message : Type := MkMsg { m_win : Z; s_oldstat : Z; s_newstat : Z; m_echo : Z }.

Record display : Type := MkDisp {
  d_sizex : Z;
  d_sizey : Z;
  d_stride : Z;
  d_bpp : Z;
  d_backvisi : list rect_strip;
  d_zorder : list window;
  d_windows : list Z;
  d_focus : option Z;
  d_draws : list draw;
  d_sent : list message;
  d_mem : nat -> mem_answer
}.
Notation DM := (SM display).

Definition set_answers (m : nat -> mem_answer) (d : display) : display :=
  MkDisp (d_sizex d) (d_sizey d) (d_stride d) (d_bpp d) (d_backvisi d) (d_zorder d) (d_windows d) (d_focus d) (d_draws d) (d_sent d) m.
Definition set_back (l : list rect_strip) (d : display) : display :=
  MkDisp (d_sizex d) (d_sizey d) (d_stride d) (d_bpp d) l (d_zorder d) (d_windows d) (d_focus d) (d_draws d) (d_sent d) (d_mem d).
Definition set_zorder (z : list window) (d : display) : display :=
  MkDisp (d_sizex d) (d_sizey d) (d_stride d) (d_bpp d) (d_backvisi d) z (d_windows d) (d_focus d) (d_draws d) (d_sent d) (d_mem d).
Definition set_windows (l : list Z) (d : display) : display :=
  MkDisp (d_sizex d) (d_sizey d) (d_stride d) (d_bpp d) (d_backvisi d) (d_zorder d) l (d_focus d) (d_draws d) (d_sent d) (d_mem d).
Definition set_focus (f : option Z) (d : display) : display :=
  MkDisp (d_sizex d) (d_sizey d) (d_stride d) (d_bpp d) (d_backvisi d) (d_zorder d) (d_windows d) f (d_draws d) (d_sent d) (d_mem d).
Definition log_draw (c : draw) (d : display) : display :=
  MkDisp (d_sizex d) (d_sizey d) (d_stride d) (d_bpp d) (d_backvisi d) (d_zorder d) (d_windows d) (d_focus d) (d_draws d ++ [c]) (d_sent d) (d_mem d).
Definition log_sent (m : message) (d : display) : display :=
  MkDisp (d_sizex d) (d_sizey d) (d_stride d) (d_bpp d) (d_backvisi d) (d_zorder d) (d_windows d) (d_focus d) (d_draws d) (d_sent d ++ [m]) (d_mem d).
Definition modify (f : display -> display) : DM unit := d ← sget; sput (f d).

Definition set_visi (l : list rect_strip) (w : window) : window :=
  MkWin (w_key w) (w_posx w) (w_posy w) (w_state w) (w_sizex w) (w_sizey w) (w_disparea w) (w_stride w) l.
Definition set_state (st : Z) (w : window) : window :=
  MkWin (w_key w) (w_posx w) (w_posy w) st (w_sizex w) (w_sizey w) (w_disparea w) (w_stride w) (w_visi w).
Definition set_pos (x y : Z) (w : window) : window :=
  MkWin (w_key w) x y (w_state w) (w_sizex w) (w_sizey w) (w_disparea w) (w_stride w) (w_visi w).
Definition set_disparea (r : rect) (w : window) : window :=
  MkWin (w_key w) (w_posx w) (w_posy w) (w_state w) (w_sizex w) (w_sizey w) r (w_stride w) (w_visi w).

(** The window at place [k] of the Z-order. *)
Definition win (k : nat) : DM window := d ← sget; slift (access (d_zorder d !! k)).
Definition update_win (k : nat) (f : window -> window) : DM unit :=
  modify (fun d => set_zorder (alter f k (d_zorder d)) d).
Definition hidden (w : window) : bool := negb (Z.land (w_state w) WM_WINDOW_STATE_FHIDDEN =? 0).

(** Operations on the visible points of a window, of the background, and on a
    rectangle set in a local variable, which an exception leaks. *)
Definition on_visi (k : nat) (m : RM unit) : DM unit := fun d =>
  match d_zorder d !! k with
  | None => SPanic
  | Some w =>
      let put s := set_answers (r_mem s) (set_zorder (<[k := set_visi (r_strips s) w]> (d_zorder d)) d) in
      match m (MkRects (w_visi w) (d_mem d)) with
      | SRet _ s => SRet tt (put s)
      | SThrow e s => SThrow e (put s)
      | SPanic => SPanic
      end
  end.
Definition on_back (m : RM unit) : DM unit := fun d =>
  let put s := set_answers (r_mem s) (set_back (r_strips s) d) in
  match m (MkRects (d_backvisi d) (d_mem d)) with
  | SRet _ s => SRet tt (put s)
  | SThrow e s => SThrow e (put s)
  | SPanic => SPanic
  end.
Definition on_local (l : list rect_strip) (m : RM unit) : DM (list rect_strip) := fun d =>
  match m (MkRects l (d_mem d)) with
  | SRet _ s => SRet (r_strips s) (set_answers (r_mem s) d)
  | SThrow e s => SThrow e (set_answers (r_mem s) d)
  | SPanic => SPanic
  end.

(** ** Drawing *)
Definition shift (r : rect) (dx dy : Z) : rect :=
  MkRect (u32 (r_xmin r + dx)) (u32 (r_ymin r + dy)) (r_xsiz r) (r_ysiz r).

(** The assertion of [Copy_Rect]; the copy itself is recorded. *)
Definition Copy_Rect (c : draw) : DM unit :=
  scheck (negb (size_x c =? 0) || negb (size_y c =? 0)) ≫= fun _ => modify (log_draw c).
Definition Window_RenderRect (k : nat) (window_rect : rect) : DM unit :=
  w ← win k;
  d ← sget;
  Copy_Rect (MkDraw (u32 (r_xmin window_rect + w_posx w)) (u32 (r_ymin window_rect + w_posy w)) (d_stride d)
               (w_screen (w_key w)) (r_xmin window_rect) (r_ymin window_rect) (w_stride w)
               (r_xsiz window_rect) (r_ysiz window_rect) (d_bpp d)).
Definition Display_RenderBackground (display_rect : rect) : DM unit :=
  d ← sget;
  Copy_Rect (MkDraw (r_xmin display_rect) (r_ymin display_rect) (d_stride d)
               d_backgrnd (r_xmin display_rect) (r_ymin display_rect) (d_stride d)
               (r_xsiz display_rect) (r_ysiz display_rect) (d_bpp d)).

Fixpoint each_rect {A} (l : list A) (f : A -> DM unit) : DM unit :=
  match l with [] => mret tt | a :: l => f a ≫= fun _ => each_rect l f end.

Definition nonempty (r : rect) : bool := negb (r_xsiz r =? 0) && negb (r_ysiz r =? 0).
(** The first rectangle with a common part, and that part. *)
Fixpoint find_common {A} (common : A -> rect) (l : list A) : option (A * rect) :=
  match l with
  | [] => None
  | a :: l => if nonempty (common a) then Some (a, common a) else find_common common l
  end.

Definition Window_DrawUnlocked (k : nat) : DM unit :=
  w ← win k; each_rect (RECTS_FOREACH (w_visi w)) (fun visi => Window_RenderRect k visi).
Definition Window_DrawRectsUnlocked (stack : rect) (k : nat) (vec : list rect) : DM unit :=
  w ← win k;
  each_rect (RECTS_FOREACH (w_visi w)) (fun visi =>
    each_rect vec (fun r =>
      let common := rect_intersect stack visi r in
      if nonempty common then Window_RenderRect k common else mret tt)).
Definition Window_DrawRectUnlocked (stack : rect) (k : nat) (r : rect) : DM unit :=
  w ← win k;
  each_rect (RECTS_FOREACH (w_visi w)) (fun visi =>
    let common := rect_intersect stack visi r in
    if nonempty common then Window_RenderRect k common else mret tt).

(** The windows of [d_windows] in their order. *)
Definition place (d : display) (key : Z) : option nat :=
  fst <$> list_find (fun w => w_key w = key) (d_zorder d).
Definition Display_Redraw : DM unit :=
  d ← sget;
  each_rect (RECTS_FOREACH (d_backvisi d)) (fun r =>
    Copy_Rect (MkDraw (r_xmin r) (r_ymin r) (d_stride d) d_backgrnd (r_xmin r) (r_ymin r) (d_stride d)
                 (r_xsiz r) (r_ysiz r) (d_bpp d))) ≫= fun _ =>
  each_rect (d_windows d) (fun key =>
    k ← slift (access (place d key));
    w ← win k;
    each_rect (RECTS_FOREACH (w_visi w)) (fun r =>
      Copy_Rect (MkDraw (u32 (w_posx w + r_xmin r)) (u32 (w_posy w + r_ymin r)) (d_stride d)
                   (w_screen (w_key w)) (r_xmin r) (r_ymin r) (w_stride w)
                   (r_xsiz r) (r_ysiz r) (d_bpp d)))).
Definition Display_RedrawRect (stack draw_rect : rect) : DM unit :=
  d ← sget;
  each_rect (RECTS_FOREACH (d_backvisi d)) (fun r =>
    let common := rect_intersect stack r draw_rect in
    if nonempty common then
      Copy_Rect (MkDraw (r_xmin common) (r_ymin common) (d_stride d)
                   d_backgrnd (r_xmin common) (r_ymin common) (d_stride d)
                   (r_xsiz common) (r_ysiz common) (d_bpp d))
    else mret tt) ≫= fun _ =>
  each_rect (d_windows d) (fun key =>
    k ← slift (access (place d key));
    w ← win k;
    each_rect (RECTS_FOREACH (w_visi w)) (fun r =>
      let common := rect_intersect stack (shift r (w_posx w) (w_posy w)) draw_rect in
      if nonempty common then
        Copy_Rect (MkDraw (r_xmin common) (r_ymin common) (d_stride d)
                     (w_screen (w_key w)) (u32 (r_xmin common - w_posx w)) (u32 (r_ymin common - w_posy w)) (w_stride w)
                     (r_xsiz common) (r_ysiz common) (d_bpp d))
      else mret tt)).

(** Loops over [w_zlink]: the places behind [k]. *)
Definition behind (k : nat) (d : display) : list nat := seq (S k) (length (d_zorder d) - S k).

Definition Display_WindowAt (d : display) (x y : Z) : option window :=
  snd <$> list_find (fun w =>
    r_xmin (w_disparea w) <= x /\ x < u32 (r_xmin (w_disparea w) + r_xsiz (w_disparea w)) /\
    r_ymin (w_disparea w) <= y /\ y < u32 (r_ymin (w_disparea w) + r_ysiz (w_disparea w)))
    (d_zorder d).

(** The display that [main] sets up: the background is visible everywhere. *)
Definition default_display (sizex sizey stride bpp : Z) (usable : nat) (m : nat -> mem_answer) : display :=
  MkDisp sizex sizey stride bpp [MkStrip 0 sizex usable [MkBlock 0 sizey]] [] [] None [] [] m.

(** ** Moving visibility between windows *)
Definition Window_UpdateDisplayArea (sizex sizey : Z) (w : window) : rect :=
  let area_xmin := if w_posx w <=? 0 then 0 else w_posx w in
  let area_ymin := if w_posy w <=? 0 then 0 else w_posy w in
  let area_xsiz :=
    if w_posx w <? 0 then (if - w_posx w <? w_sizex w then u32 (w_sizex w + w_posx w) else 0) else w_sizex w in
  let area_ysiz :=
    if w_posy w <? 0 then (if - w_posy w <? w_sizey w then u32 (w_sizey w + w_posy w) else 0) else w_sizey w in
  let area_xsiz :=
    if sizex <=? area_xmin then 0
    else if sizex <? u32 (area_xmin + area_xsiz) then u32 (sizex - area_xmin) else area_xsiz in
  let area_ysiz :=
    if sizey <=? area_ymin then 0
    else if sizey <? u32 (area_ymin + area_ysiz) then u32 (sizey - area_ymin) else area_ysiz in
  MkRect area_xmin area_ymin area_xsiz area_ysiz.

Section Visibility.
Context (stack : rect).

(** The loops that start over after each rectangle take points away from a set
    within a rectangle: its area bounds them. *)
Definition area_fuel (r : rect) : nat := S (Z.to_nat (r_xsiz r * r_ysiz r)).

Fixpoint steal_window (fuel self k : nat) (display_rect : rect) (render : bool) : DM unit :=
  match fuel with
  | O => fun _ => SPanic
  | S fuel =>
      iter ← win k;
      me ← win self;
      match find_common (fun r => rect_intersect stack (shift r (w_posx iter) (w_posy iter)) display_rect)
              (RECTS_FOREACH (w_visi iter)) with
      | None => mret tt
      | Some (_, common) =>
          let common := shift common (- w_posx iter) (- w_posy iter) in
          on_visi k (rects_remove common) ≫= fun _ =>
          let common := shift common (w_posx iter) (w_posy iter) in
          let common := shift common (- w_posx me) (- w_posy me) in
          on_visi self (rects_insert common) ≫= fun _ =>
          (if render then Window_RenderRect self common else mret tt) ≫= fun _ =>
          steal_window fuel self k display_rect render
      end
  end.
Fixpoint steal_background (fuel self : nat) (display_rect : rect) (render : bool) : DM unit :=
  match fuel with
  | O => fun _ => SPanic
  | S fuel =>
      d ← sget;
      me ← win self;
      match find_common (fun r => rect_intersect stack r display_rect) (RECTS_FOREACH (d_backvisi d)) with
      | None => mret tt
      | Some (_, common) =>
          on_back (rects_remove common) ≫= fun _ =>
          let common := shift common (- w_posx me) (- w_posy me) in
          on_visi self (rects_insert common) ≫= fun _ =>
          (if render then Window_RenderRect self common else mret tt) ≫= fun _ =>
          steal_background fuel self display_rect render
      end
  end.
Definition Window_ClaimVisibility (self : nat) (display_rect : rect) (render_immediatly : bool) : DM unit :=
  scheck (nonempty display_rect) ≫= fun _ =>
  d ← sget;
  each_rect (behind self d) (fun k =>
    steal_window (area_fuel display_rect) self k display_rect render_immediatly) ≫= fun _ =>
  steal_background (area_fuel display_rect) self display_rect render_immediatly.

(** The loops of [Window_RemoveAndInheritVisibility]. *)
Fixpoint collect_parts (l : list rect) (posx posy : Z) (window_rect : rect) (parts : list rect_strip)
    : DM (list rect_strip) :=
  match l with
  | [] => mret parts
  | r :: l =>
      let common := rect_intersect stack r window_rect in
      parts ← on_local parts (rects_insert (shift common posx posy));
      collect_parts l posx posy window_rect parts
  end.
(** The first window behind [self] that shares points with the first possible part. *)
Fixpoint find_heir (d : display) (self : nat) (l : list rect) : option (nat * rect) :=
  match l with
  | [] => None
  | r :: l =>
      match find_common (fun k => match d_zorder d !! k with
                                  | Some iter => rect_intersect stack r (w_disparea iter)
                                  | None => MkRect 0 0 0 0
                                  end) (behind self d) with
      | Some kc => Some kc
      | None => find_heir d self l
      end
  end.
Fixpoint inherit_parts (fuel self : nat) (parts : list rect_strip) : DM (list rect_strip) :=
  match fuel with
  | O => fun _ => SPanic
  | S fuel =>
      d ← sget;
      match find_heir d self (RECTS_FOREACH parts) with
      | None => mret parts
      | Some (k, common) =>
          iter ← win k;
          let common := shift common (- w_posx iter) (- w_posy iter) in
          on_visi k (rects_insert common) ≫= fun _ =>
          Window_RenderRect k common ≫= fun _ =>
          let common := shift common (w_posx iter) (w_posy iter) in
          parts ← on_local parts (rects_remove common);
          inherit_parts fuel self parts
      end
  end.
Definition inherit_background (l : list rect) : DM unit :=
  each_rect l (fun r => on_back (rects_insert r) ≫= fun _ => Display_RenderBackground r).
Definition Window_RemoveAndInheritVisibility (self : nat) (window_rect : rect) : DM unit :=
  scheck (nonempty window_rect) ≫= fun _ =>
  me ← win self;
  on_visi self check_rects ≫= fun _ =>
  parts ← collect_parts (RECTS_FOREACH (w_visi me)) (w_posx me) (w_posy me) window_rect [];
  on_visi self (rects_remove window_rect) ≫= fun _ =>
  parts ← inherit_parts (area_fuel window_rect) self parts;
  inherit_background (RECTS_FOREACH parts) ≫= fun _ =>
  on_local parts check_rects ≫= fun _ => mret tt.

(** ** Operations on windows *)

(** [LIST_REMOVE(self,w_vlink)]: the link of a window that is not in the list is not
    initialised. *)
Definition unlink_visible (key : Z) : DM unit :=
  d ← sget;
  scheck (bool_decide (key ∈ d_windows d)) ≫= fun _ =>
  sput (set_windows (filter (fun k => k <> key) (d_windows d)) d).
Definition link_visible (key : Z) : DM unit := modify (fun d => set_windows (key :: d_windows d) d).

(** [CEIL_ALIGN(CEILDIV(sizex*bpp,8),16)]. *)
Definition stride_of (sizex bpp : Z) : Z := Z.land (u32 (u32 (u32 (sizex * bpp) + 8 - 1) / 8 + (16 - 1))) (u32 (Z.lnot (16 - 1))).

(** The clamping of the size in [Window_CreateUnlocked]. *)
Definition clamp_size (pos size dsize : Z) : Z :=
  let size := if pos <? 0 then (if - pos <? size then u32 (size + pos) else 0) else size in
  let pos := if pos <? 0 then 0 else pos in
  if dsize <? pos then 0 else if dsize <? u32 (pos + size) then u32 (dsize - pos) else size.

(** [Window_TrySendMessage] of a state change.  Both assignments go to [s_oldstat],
    [s_newstat] stays 0. *)
Definition try_send_state (key old new echo : Z) : DM unit := modify (log_sent (MkMsg key new 0 echo)).

Definition focus_old : DM unit :=
  d ← sget;
  match d_focus d with
  | None => mret tt
  | Some key =>
      match place d key with
      | None => fun _ => SPanic
      | Some k => w ← win k;
          try_send_state key (Z.lor (w_state w) WM_WINDOW_STATE_FFOCUSED) (w_state w) 0
      end
  end.

(** [key] is the address of the new window, [result] the other allocations' answer
    (memory, region and mapping of the window buffer). *)
Definition Window_CreateUnlocked (key posx posy sizex sizey state : Z) (result : option error_code) : DM unit :=
  match result with
  | Some e => sthrow e
  | None =>
      d ← sget;
      let w := MkWin key posx posy (Z.land state (Z.lnot WM_WINDOW_STATE_FFOCUSED)) sizex sizey
                 (MkRect 0 0 0 0) (stride_of sizex (d_bpp d)) [] in
      let w := set_disparea (Window_UpdateDisplayArea (d_sizex d) (d_sizey d) w) w in
      let sizex := clamp_size posx sizex (d_sizex d) in
      let sizey := clamp_size posy sizey (d_sizey d) in
      sput (set_zorder (w :: d_zorder d) d) ≫= fun _ =>
      scatch
        ((if negb (sizex =? 0) && negb (sizey =? 0) && (Z.land state WM_WINDOW_STATE_FHIDDEN =? 0) then
            link_visible key ≫= fun _ => Window_ClaimVisibility 0 (w_disparea w) false
          else mret tt) ≫= fun _ =>
         if negb (Z.land state WM_WINDOW_STATE_FFOCUSED =? 0) then
           focus_old ≫= fun _ => modify (set_focus (Some key))
         else mret tt)
        (fun e => modify (fun d => set_zorder (tail (d_zorder d)) d) ≫= fun _ => sthrow e)
  end.

Fixpoint hide_loop (fuel self k : nat) : DM unit :=
  match fuel with
  | O => fun _ => SPanic
  | S fuel =>
      me ← win self;
      lower ← win k;
      match find_common (fun r => rect_intersect stack r (w_disparea lower)) (RECTS_FOREACH (w_visi me)) with
      | None => mret tt
      | Some (_, common_area) =>
          on_visi self (rects_remove common_area) ≫= fun _ =>
          let common_area := shift common_area (- w_posx lower) (- w_posy lower) in
          on_visi k (rects_insert common_area) ≫= fun _ =>
          Window_RenderRect k common_area ≫= fun _ =>
          hide_loop fuel self k
      end
  end.
Definition Window_HideUnlocked (self : nat) : DM unit :=
  me ← win self;
  if hidden me then mret tt else
  unlink_visible (w_key me) ≫= fun _ =>
  on_visi self (rects_move (w_posx me) (w_posy me)) ≫= fun _ =>
  d ← sget;
  each_rect (behind self d) (fun k =>
    lower ← win k; hide_loop (area_fuel (w_disparea lower)) self k) ≫= fun _ =>
  me ← win self;
  inherit_background (RECTS_FOREACH (w_visi me)) ≫= fun _ =>
  on_visi self check_rects ≫= fun _ =>
  update_win self (fun w => set_state (Z.lor (w_state w) WM_WINDOW_STATE_FHIDDEN) (set_visi [] w)).

Definition Window_ShowUnlocked (self : nat) : DM unit :=
  me ← win self;
  if negb (hidden me) then mret tt else
  Window_ClaimVisibility self (MkRect 0 0 (w_sizex me) (w_sizey me)) true ≫= fun _ =>
  link_visible (w_key me) ≫= fun _ =>
  update_win self (fun w => set_state (Z.land (w_state w) (Z.lnot WM_WINDOW_STATE_FHIDDEN)) w).

(** [munmap], [close] and the reference counter are outside the model; the window
    leaves the Z-order. *)
Definition Window_DestroyUnlocked (self : nat) : DM unit :=
  me ← win self;
  scheck (Z.land (w_state me) WM_WINDOW_STATE_FDESTROYED =? 0) ≫= fun _ =>
  Window_HideUnlocked self ≫= fun _ =>
  modify (fun d => set_zorder (delete self (d_zorder d)) d) ≫= fun _ =>
  modify (fun d => if bool_decide (d_focus d = Some (w_key me)) then set_focus None d else d).

(** The range of the window that leaves its place, along one axis. *)
Definition leaving (size rel : Z) : Z * Z :=
  if rel <? 0 then (u32 (size + rel), - rel) else (0, rel).
Definition Window_MoveUnlocked (self : nat) (new_posx new_posy : Z) : DM unit :=
  me ← win self;
  let rel_movx := new_posx - w_posx me in
  let rel_movy := new_posy - w_posy me in
  if (rel_movx =? 0) && (rel_movy =? 0) then mret tt else
  on_visi self check_rects ≫= fun _ =>
  let old_display_area := w_disparea me in
  if hidden me then update_win self (set_pos new_posx new_posy) else
  on_visi self check_rects ≫= fun _ =>
  (if negb (rel_movx =? 0) then
     let '(xmin, xsiz) := leaving (w_sizex me) rel_movx in
     on_visi self check_rects ≫= fun _ =>
     Window_RemoveAndInheritVisibility self (MkRect xmin 0 xsiz (w_sizey me)) ≫= fun _ =>
     update_win self (fun w => set_pos new_posx (w_posy w) w) ≫= fun _ =>
     on_visi self check_rects ≫= fun _ =>
     on_visi self (rects_move (- rel_movx) 0) ≫= fun _ =>
     on_visi self check_rects
   else mret tt) ≫= fun _ =>
  (if negb (rel_movy =? 0) then
     let '(ymin, ysiz) := leaving (w_sizey me) rel_movy in
     on_visi self check_rects ≫= fun _ =>
     Window_RemoveAndInheritVisibility self (MkRect 0 ymin (w_sizex me) ysiz) ≫= fun _ =>
     update_win self (fun w => set_pos (w_posx w) new_posy w) ≫= fun _ =>
     on_visi self check_rects ≫= fun _ =>
     on_visi self (rects_move 0 (- rel_movy)) ≫= fun _ =>
     on_visi self check_rects
   else mret tt) ≫= fun _ =>
  d ← sget;
  update_win self (fun w => set_disparea (Window_UpdateDisplayArea (d_sizex d) (d_sizey d) w) w) ≫= fun _ =>
  on_visi self check_rects ≫= fun _ =>
  me ← win self;
  reclaim_area ← on_local [] (rects_insert (w_disparea me));
  reclaim_area ← on_local reclaim_area (rects_remove old_display_area);
  each_rect (RECTS_FOREACH reclaim_area) (fun r => Window_ClaimVisibility self r false) ≫= fun _ =>
  on_visi self check_rects ≫= fun _ =>
  on_local reclaim_area check_rects ≫= fun _ =>
  Window_DrawUnlocked self ≫= fun _ =>
  on_visi self check_rects.

(** Claim the overlap with the window at place [k] in front of [self]. *)
Definition uncover (self k : nat) : DM unit :=
  me ← win self;
  iter ← win k;
  on_visi k check_rects ≫= fun _ =>
  let r := rect_intersect stack (w_disparea me) (w_disparea iter) in
  if negb (nonempty r) then mret tt else
  let r := shift r (- w_posx iter) (- w_posy iter) in
  on_visi k (rects_remove r) ≫= fun _ =>
  let r := shift r (w_posx iter) (w_posy iter) in
  Window_RenderRect self (shift r (- w_posx me) (- w_posy me)).
Definition strip_of_area (me : window) (usable : nat) : rect_strip :=
  MkStrip (u32 (r_xmin (w_disparea me) - w_posx me)) (r_xsiz (w_disparea me)) usable
    [MkBlock (u32 (r_ymin (w_disparea me) - w_posy me)) (r_ysiz (w_disparea me))].
Definition whole_area (me : window) : RM unit :=
  check_rects ≫= fun _ =>
  usable ← strip_alloc 1;
  let s := strip_of_area me usable in
  scheck (int_nonneg (rs_xmin s)) ≫= fun _ =>
  scheck (int_nonneg (rs_xsiz s) && negb (rs_xsiz s =? 0)) ≫= fun _ =>
  scheck (forallb (fun b => int_nonneg (rb_ymin b) && int_nonneg (rb_ysiz b) && negb (rb_ysiz b =? 0))
            (rs_blkv s)) ≫= fun _ =>
  set_strips [s] ≫= fun _ => check_rects.
Definition Window_BringToFront (self : nat) : DM bool :=
  match self with
  | O => mret false
  | _ =>
      me ← win self;
      (if negb (hidden me) && nonempty (w_disparea me) then
         on_visi self check_rects ≫= fun _ =>
         each_rect (seq 0 self) (uncover self) ≫= fun _ =>
         on_visi self (whole_area me)
       else mret tt) ≫= fun _ =>
      me ← win self;
      modify (fun d => set_zorder (me :: delete self (d_zorder d)) d) ≫= fun _ =>
      mret true
  end.

(** ** Focus and state *)
Definition Display_FocusWindow (target : option nat) : DM unit :=
  d ← sget;
  key ← match target with None => mret None | Some k => w ← win k; mret (Some (w_key w)) end;
  if bool_decide (d_focus d = key) then mret tt else
  focus_old ≫= fun _ =>
  modify (set_focus key) ≫= fun _ =>
  match target with
  | None => mret tt
  | Some k => w ← win k; try_send_state (w_key w) (w_state w) (Z.lor (w_state w) WM_WINDOW_STATE_FFOCUSED) 0
  end.

(** [net] is the answer of [Xsend]; [E_WOULDBLOCK] is handled. *)
Definition Window_SendMessage (m : message) (net : option error_code) : DM bool :=
  match net with
  | None => modify (log_sent m) ≫= fun _ => mret true
  | Some E_WOULDBLOCK => mret false
  | Some e => sthrow e
  end.

Definition Window_ChangeStateUnlocked (self : nat) (mask flag token : Z) (net : option error_code) : DM unit :=
  me ← win self;
  d ← sget;
  let focused := bool_decide (d_focus d = Some (w_key me)) in
  let old_flags := if focused then Z.lor (w_state me) WM_WINDOW_STATE_FFOCUSED else w_state me in
  let new_flags := Z.lor (Z.land old_flags mask) flag in
  if negb (Z.land new_flags (Z.lnot (Z.lor WM_WINDOW_STATE_FHIDDEN WM_WINDOW_STATE_FFOCUSED)) =? 0)
  then sthrow E_INVALID_ARGUMENT else
  (if negb (Z.land old_flags WM_WINDOW_STATE_FHIDDEN =? Z.land new_flags WM_WINDOW_STATE_FHIDDEN) then
     if negb (Z.land new_flags WM_WINDOW_STATE_FHIDDEN =? 0)
     then Window_HideUnlocked self else Window_ShowUnlocked self
   else mret tt) ≫= fun _ =>
  (if negb (Z.land old_flags WM_WINDOW_STATE_FFOCUSED =? Z.land new_flags WM_WINDOW_STATE_FFOCUSED) then
     if Z.land new_flags WM_WINDOW_STATE_FFOCUSED =? 0 then
       d ← sget;
       scheck (bool_decide (d_focus d = Some (w_key me))) ≫= fun _ => modify (set_focus None)
     else focus_old ≫= fun _ => modify (set_focus (Some (w_key me)))
   else mret tt) ≫= fun _ =>
  if negb (old_flags =? new_flags) || negb (token =? 0) then
    Window_SendMessage (MkMsg (w_key me) new_flags 0 token) net ≫= fun _ => mret tt
  else mret tt.
End Visibility.
