(* ===== verification/WindowMap.v ===== *)
(** The windows of a client by their ids: [src/apps/wms/windowmap.c], with the
    registration of windows in [server.c].

    The map is a table of [wm_mask + 1] chains; a window is in the chain that the low
    bits of its id select.  A window is an entry with its id and its address.  The
    answer of [Xcalloc] is an argument: [Some e] if it throws.  Ids are 32 bits wide.

    [wm_models] relates a table to the finite map from ids to windows it stands for;
    the operations implement insertion with a new id, lookup and deletion. *)
From S2P Require Import Prelude.
From stdpp Require Import gmap sets list list_numbers.
From S2P Require Import Rect Window.
Open Scope Z_scope.

Record entry : Type := MkEntry { e_id : Z; e_win : Z }.
#[export] Instance entry_eq_dec : EqDecision entry.
Proof. solve_decision. Defined.
Record WindowMap : Type := MkMap {
  wm_size : Z;
  wm_mask : Z;
  wm_nextid : Z;
  wm_map : list (list entry);
  wm_overflow : bool
}.
Notation MM := (SM WindowMap).

Definition set_nextid (n : Z) (m : WindowMap) : WindowMap :=
  MkMap (wm_size m) (wm_mask m) n (wm_map m) (wm_overflow m).
Definition set_overflow (m : WindowMap) : WindowMap :=
  MkMap (wm_size m) (wm_mask m) (wm_nextid m) (wm_map m) true.
Definition set_table (mask : Z) (t : list (list entry)) (m : WindowMap) : WindowMap :=
  MkMap (wm_size m) mask (wm_nextid m) t (wm_overflow m).
Definition set_count (n : Z) (m : WindowMap) : WindowMap :=
  MkMap n (wm_mask m) (wm_nextid m) (wm_map m) (wm_overflow m).

Definition WindowMap_Init (calloc : option error_code) : outcome WindowMap :=
  match calloc with
  | Some e => Throw e
  | None => Ret (MkMap 0 3 1 (replicate 4 []) false)
  end.

(** The chains [wm_map[0]] to [wm_map[wm_mask]]. *)
Definition chains : MM (list (list entry)) :=
  m ← sget; slift (mapM (fun i => access (wm_map m !! i)) (seq 0 (Z.to_nat (wm_mask m) + 1))).

(** The loop at [next_id]: the id found and the next one. *)
Fixpoint next_id (fuel : nat) (windows : list entry) (nextid : Z) : option (Z * Z) :=
  match fuel with
  | O => None
  | S fuel =>
      let result := nextid in
      let nextid := u32 (nextid + 1) in
      if existsb (fun iter => e_id iter =? result) windows then next_id fuel windows nextid
      else Some (result, nextid)
  end.
Definition search_id : MM Z :=
  l ← chains;
  m ← sget;
  match next_id (S (length (concat l))) (concat l) (wm_nextid m) with
  | None => fun _ => SPanic
  | Some (result, nextid) => sput (set_nextid nextid m) ≫= fun _ => mret result
  end.
Definition WindowMap_MakeID : MM Z :=
  m ← sget;
  if wm_overflow m then search_id else
  let result := wm_nextid m in
  sput (set_nextid (u32 (wm_nextid m + 1)) m) ≫= fun _ =>
  if negb (result =? 0) then mret result else
  m ← sget; sput (set_overflow m) ≫= fun _ => search_id.

Definition bucket (mask id : Z) : nat := Z.to_nat (Z.land id mask).
(** [LIST_INSERT] into the chain of the window. *)
Definition push (mask : Z) (win : entry) (t : list (list entry)) : outcome (list (list entry)) :=
  b ← access (t !! bucket mask (e_id win)); Ret (<[bucket mask (e_id win) := win :: b]> t).
Fixpoint rehash_windows (mask : Z) (windows : list entry) (t : list (list entry)) : outcome (list (list entry)) :=
  match windows with
  | [] => Ret t
  | iter :: windows => t ← push mask iter t; rehash_windows mask windows t
  end.
Fixpoint grow_mask (fuel : nat) (new_mask min_mask : Z) : option Z :=
  if new_mask <? min_mask then
    match fuel with
    | O => None
    | S fuel => grow_mask fuel (u32 (Z.lor (Z.shiftl new_mask 1) 1)) min_mask
    end
  else Some new_mask.
Definition grow_table (calloc : option error_code) : MM unit :=
  m ← sget;
  let min_mask := u32 (wm_size m * 3) / 2 in
  match grow_mask 32 (wm_mask m) min_mask with
  | None => fun _ => SPanic
  | Some new_mask =>
      let new_mask := if new_mask <? 15 then 15 else new_mask in
      match calloc with
      | Some e => sthrow e
      | None =>
          l ← chains;
          new_map ← slift (rehash_windows new_mask (concat l) (replicate (Z.to_nat (u32 (new_mask + 1))) []));
          sput (set_table new_mask new_map m)
      end
  end.
Definition WindowMap_Insert (win : entry) (calloc : option error_code) : MM unit :=
  m ← sget;
  (if wm_mask m <=? wm_size m / 2 then grow_table calloc else mret tt) ≫= fun _ =>
  m ← sget;
  t ← slift (push (wm_mask m) win (wm_map m));
  sput (set_count (u32 (wm_size m + 1)) (set_table (wm_mask m) t m)).

(** [LIST_REMOVE] of a window that is in no chain follows dangling links. *)
Definition WindowMap_Remove (win : entry) : MM unit :=
  m ← sget;
  scheck (negb (wm_size m =? 0)) ≫= fun _ =>
  scheck (bool_decide (win ∈ concat (wm_map m))) ≫= fun _ =>
  sput (set_count (u32 (wm_size m - 1)) (set_table (wm_mask m) (filter (fun e => e <> win) <$> wm_map m) m)).

Definition WindowMap_Lookup (id : Z) : MM (option entry) :=
  m ← sget;
  b ← slift (access (wm_map m !! bucket (wm_mask m) id));
  mret (snd <$> list_find (fun e => e_id e = id) b).

(** Every window of the map is destroyed; exceptions are reported and dropped. *)
Definition WindowMap_Fini (stack : rect) (m : WindowMap) : SM display unit :=
  each_rect (concat (wm_map m)) (fun iter =>
    scatch (d ← sget; k ← slift (access (place d (e_win iter))); Window_DestroyUnlocked stack k)
      (fun _ => mret tt)).

(** The requests of [server.c]: a window is created and gets an id, or it is removed. *)
Definition register_window (win : Z) (calloc : option error_code) : MM Z :=
  id ← WindowMap_MakeID; WindowMap_Insert (MkEntry id win) calloc ≫= fun _ => mret id.
(** [noack] is [WMS_COMMAND_FNOACK], [destroy] what [Window_DestroyUnlocked] throws, if it
    does: then the window is inserted again, for which the table may have to grow. *)
Definition unregister_window (id : Z) (noack : bool) (destroy calloc : option error_code) : MM (option Z) :=
  win ← WindowMap_Lookup id;
  match win with
  | None => if noack then mret None else sthrow E_INVALID_ARGUMENT
  | Some win =>
      WindowMap_Remove win ≫= fun _ =>
      match destroy with
      | None => mret (Some (e_win win))
      | Some e => WindowMap_Insert win calloc ≫= fun _ => sthrow e
      end
  end.

(** ** Tables *)
Definition entries (m : WindowMap) : list entry := concat (wm_map m).
Record table_ok (mask : Z) (t : list (list entry)) : Prop := {
  tb_mask : exists k, 2 <= k <= 31 /\ mask = Z.ones k;
  tb_length : Z.of_nat (length t) = mask + 1;
  tb_bucket i b e : t !! i = Some b -> e ∈ b -> i = bucket mask (e_id e)
}.
Record wm_ok (m : WindowMap) : Prop := {
  wm_table : table_ok (wm_mask m) (wm_map m);
  wm_ids : Forall (fun e => 0 <= e_id e < 2 ^ 32) (entries m);
  wm_nodup : NoDup (e_id <$> entries m);
  wm_count : wm_size m = Z.of_nat (length (entries m));
  wm_next : 0 <= wm_nextid m < 2 ^ 32;
  wm_fresh : wm_overflow m = false -> forall e, e ∈ entries m -> e_id e <> 0 /\ (wm_nextid m <> 0 -> e_id e < wm_nextid m);
  (** a window less, and the table need not grow *)
  wm_load : (wm_size m - 1) / 2 < wm_mask m
}.
(** The map that a table stands for. *)
Definition wm_models (m : WindowMap) (M : gmap Z Z) : Prop :=
  wm_ok m /\ forall id w, M !! id = Some w <-> MkEntry id w ∈ entries m.

Lemma ones_range k : 2 <= k <= 31 -> 3 <= Z.ones k < 2 ^ 31.
Proof.
  intros ?. rewrite Z.ones_equiv. pose proof (Z.pow_le_mono_r 2 2 k). pose proof (Z.pow_le_mono_r 2 k 31). lia.
Qed.
Lemma bucket_lt mask t id : table_ok mask t -> exists b, t !! bucket mask id = Some b.
Proof.
  intros [(k&Hk&->) Hlen _]. apply lookup_lt_is_Some. unfold bucket. rewrite Z.land_ones by lia.
  pose proof (Z.mod_pos_bound id (2 ^ k)) as Hm. rewrite Z.ones_equiv in Hlen. lia.
Qed.
Lemma concat_push {A} (t : list (list A)) i b (a : A) :
  t !! i = Some b -> concat (<[i := a :: b]> t) ≡ₚ a :: concat t.
Proof.
  revert i. induction t as [|c t IH]; intros [|i] Hi; cbn in *; [done|done|by injection Hi as ->|].
  rewrite (IH i Hi). by rewrite Permutation_middle.
Qed.
Lemma elem_of_concat {A} (t : list (list A)) a : a ∈ concat t <-> exists i b, t !! i = Some b /\ a ∈ b.
Proof.
  induction t as [|c t IH]; cbn.
  - split; [by intros ?%not_elem_of_nil|]. by intros (i&b&?&_).
  - rewrite elem_of_app, IH. split.
    + intros [?|(i&b&?&?)]; [by exists 0%nat, c|by exists (S i), b].
    + intros ([|i]&b&Hi&?); cbn in Hi; [left; by injection Hi as ->|right; by exists i, b].
Qed.
Lemma push_ok mask t e : table_ok mask t ->
  exists t', push mask e t = Ret t' /\ table_ok mask t' /\ concat t' ≡ₚ e :: concat t.
Proof.
  intros Ht. destruct (bucket_lt _ _ (e_id e) Ht) as [b Hb]. unfold push. rewrite Hb.
  eexists. split; [reflexivity|]. split; [|by apply concat_push]. destruct Ht as [Hm Hl Hbk]. split; [done|by rewrite length_insert|].
  intros i b' e' Hi He'. destruct (decide (i = bucket mask (e_id e))) as [->|].
  - rewrite list_lookup_insert_eq in Hi by (by eapply lookup_lt_Some). injection Hi as <-.
    apply elem_of_cons in He' as [->|?]; [done|]. by eapply Hbk.
  - rewrite list_lookup_insert_ne in Hi by done. by eapply Hbk.
Qed.
Lemma rehash_windows_ok mask es t : table_ok mask t ->
  exists t', rehash_windows mask es t = Ret t' /\ table_ok mask t' /\ concat t' ≡ₚ es ++ concat t.
Proof.
  revert t. induction es as [|e es IH]; intros t Ht; cbn [rehash_windows]; [by exists t|].
  destruct (push_ok mask t e Ht) as (t1&->&Ht1&Hp1). cbn. destruct (IH t1 Ht1) as (t2&->&Ht2&Hp2).
  exists t2. split; [done|]. split; [done|]. rewrite Hp2, Hp1. cbn. by rewrite Permutation_middle.
Qed.
Lemma empty_table_ok k : 2 <= k <= 31 -> table_ok (Z.ones k) (replicate (Z.to_nat (u32 (Z.ones k + 1))) []).
Proof.
  intros Hk. pose proof (ones_range k Hk). split; [by exists k| |].
  - rewrite length_replicate, u32_small by lia. lia.
  - intros i b e Hi He. apply lookup_replicate in Hi as [-> _]. by apply not_elem_of_nil in He.
Qed.
Lemma concat_replicate_nil {A} n : concat (replicate n ([] : list A)) = [].
Proof. by induction n. Qed.

(** ** Ids *)
Lemma used_spec es id : existsb (fun e => e_id e =? id) es = true <-> id ∈ e_id <$> es.
Proof.
  rewrite existsb_exists, list_elem_of_fmap. setoid_rewrite <- list_elem_of_In. split.
  - intros (e&?&?%Z.eqb_eq). by exists e.
  - intros (e&->&?). exists e. split; [done|apply Z.eqb_refl].
Qed.
Lemma next_id_none fuel es n : next_id fuel es n = None -> 0 <= n < 2 ^ 32 ->
  forall i, (i < fuel)%nat -> u32 (n + Z.of_nat i) ∈ e_id <$> es.
Proof.
  revert n. induction fuel as [|fuel IH]; intros n Hn Hr i Hi; [lia|]. cbn in Hn.
  destruct (existsb _ es) eqn:E; [|done]. apply used_spec in E. destruct i as [|i].
  { by rewrite Z.add_0_r, u32_small. }
  specialize (IH _ Hn (u32_range _) i ltac:(lia)). unfold u32, wrap in *. rewrite Zplus_mod_idemp_l in IH.
  by replace (n + Z.of_nat (S i)) with (n + 1 + Z.of_nat i) by lia.
Qed.
Lemma next_id_some fuel es n r n' : next_id fuel es n = Some (r, n') -> 0 <= n < 2 ^ 32 ->
  r ∉ e_id <$> es /\ 0 <= r < 2 ^ 32 /\ n' = u32 (r + 1).
Proof.
  revert n. induction fuel as [|fuel IH]; intros n; [done|]. cbn. destruct (existsb _ es) eqn:E.
  - intros Hs _. by apply (IH _ Hs), u32_range.
  - intros [= <- <-] ?. split; [|done]. rewrite <- used_spec. by rewrite E.
Qed.
(** The search tries more ids than there are windows. *)
Lemma next_id_ends es n : 0 <= n < 2 ^ 32 -> Z.of_nat (length es) < 2 ^ 32 ->
  exists r n', next_id (S (length es)) es n = Some (r, n').
Proof.
  intros Hn Hlen. destruct (next_id _ es n) as [[r n']|] eqn:E; [by exists r, n'|]. exfalso.
  pose proof (next_id_none _ _ _ E Hn) as Hall. set (tried := (fun i => u32 (n + Z.of_nat i)) <$> seq 0 (S (length es))).
  assert (Hsub : tried ⊆+ e_id <$> es).
  { apply NoDup_submseteq.
    - apply (NoDup_fmap_2_strong); [|apply NoDup_seq]. intros i j [_ Hi]%elem_of_seq [_ Hj]%elem_of_seq.
      unfold u32, wrap. intros Eij.
      assert (Hd : (Z.of_nat i - Z.of_nat j) mod 2 ^ 32 = 0).
      { replace (Z.of_nat i - Z.of_nat j) with ((n + Z.of_nat i) - (n + Z.of_nat j)) by lia.
        rewrite Zminus_mod, Eij, Z.sub_diag. done. }
      apply Z.mod_divide in Hd as [q Hq]; [|lia]. assert (q = 0) by nia. lia.
    - intros x (i&->&[_ Hi]%elem_of_seq)%list_elem_of_fmap. by apply Hall. }
  apply submseteq_length in Hsub. unfold tried in Hsub. rewrite !length_fmap, length_seq in Hsub. lia.
Qed.

Lemma chains_ok m (Q : list (list entry) -> WindowMap -> Prop) R :
  table_ok (wm_mask m) (wm_map m) -> Q (wm_map m) m -> srun chains m Q R.
Proof.
  intros [(k&Hk&Em) Hlen _] HQ. unfold chains. apply srun_bind. unfold srun, sget. apply (srun_lift _ _ _ _ (wm_map m)); [|done].
  replace (Z.to_nat (wm_mask m) + 1)%nat with (length (wm_map m)) by (pose proof (ones_range k Hk); lia).
  assert (Hall : forall (t : list (list entry)) pre, mapM (fun i => access ((pre ++ t) !! i)) (seq (length pre) (length t)) = Ret t).
  { induction t as [|b t IH]; intros pre; [done|]. cbn [length seq mapM]. rewrite list_lookup_middle by done. cbn.
    specialize (IH (pre ++ [b])). rewrite length_app, Nat.add_comm, <- app_assoc in IH. cbn in IH.
    unfold mbind. cbn. by rewrite IH. }
  apply (Hall (wm_map m) []).
Qed.

(** ** Operations *)
Lemma models_none m M id : wm_models m M -> M !! id = None <-> id ∉ e_id <$> entries m.
Proof.
  intros [_ HM]. rewrite list_elem_of_fmap. destruct (M !! id) as [w|] eqn:E.
  - split; [done|]. intros Hn. exfalso. apply Hn. exists (MkEntry id w). split; [done|]. by apply HM.
  - split; [|done]. intros _ ([i w]&->&Hin). apply HM in Hin. cbn in E. congruence.
Qed.
Definition fresh_in (m : WindowMap) (id : Z) : Prop :=
  wm_overflow m = false -> id <> 0 /\ (wm_nextid m <> 0 -> id < wm_nextid m).

Lemma search_id_ok m M :
  wm_models m M -> wm_overflow m = true -> wm_size m < 2 ^ 32 ->
  srun search_id m (fun id m' => wm_models m' M /\ M !! id = None /\ 0 <= id < 2 ^ 32 /\ fresh_in m' id /\
    wm_size m' = wm_size m) (fun _ _ => False).
Proof.
  intros HM Ho Hlt. pose proof HM as [[Ht Hids Hnd Hc Hn Hf Hld] Hv]. unfold search_id. apply srun_bind.
  apply chains_ok; [done|]. apply srun_bind. unfold srun at 1, sget. change (concat (wm_map m)) with (entries m).
  destruct (next_id_ends (entries m) (wm_nextid m)) as (r&n'&E); [done|lia|]. rewrite E.
  apply (next_id_some _ _ _ _ _ E) in Hn as (Hr&Hrange&->).
  change (srun (mret r) (set_nextid (u32 (r + 1)) m) (fun id m' => wm_models m' M /\ M !! id = None /\ 0 <= id < 2 ^ 32 /\
    fresh_in m' id /\ wm_size m' = wm_size m) (fun _ _ => False)).
  apply srun_ret. split; [|split; [by apply (models_none m)|split; [done|split; [|done]]]].
  - split; [|done]. split; try done; cbn; [apply u32_range|congruence].
  - unfold fresh_in. cbn. congruence.
Qed.
Lemma make_id_ok m M :
  wm_models m M -> wm_size m < 2 ^ 32 ->
  srun WindowMap_MakeID m (fun id m' => wm_models m' M /\ M !! id = None /\ 0 <= id < 2 ^ 32 /\ fresh_in m' id /\
    wm_size m' = wm_size m) (fun _ _ => False).
Proof.
  intros HM Hlt. pose proof HM as [[Ht Hids Hnd Hc Hn Hf Hld] Hv]. unfold WindowMap_MakeID. apply srun_bind. unfold srun at 1, sget.
  destruct (wm_overflow m) eqn:Ho; [by apply search_id_ok|]. cbv zeta. apply srun_bind. unfold srun at 1, sput.
  destruct (Z.eqb_spec (wm_nextid m) 0) as [E|Hne]; cbn [negb].
  - apply srun_bind. unfold srun at 1, sget. apply srun_bind. unfold srun at 1, sput.
    apply (search_id_ok (set_overflow (set_nextid (u32 (wm_nextid m + 1)) m)) M); [|done|done].
    split; [|done]. split; try done. cbn. apply u32_range.
  - specialize (Hf eq_refl). apply srun_ret. split; [|split; [|split; [done|split; [|done]]]].
    + split; [|done]. split; try done; cbn; [apply u32_range|]. intros _ e He. destruct (Hf e He) as [? Hlt'].
      split; [done|]. intros Hne'. specialize (Hlt' Hne).
      destruct (decide (wm_nextid m = 2 ^ 32 - 1)) as [E|]; [rewrite E in Hne'; done|]. rewrite u32_small by lia. lia.
    + apply (models_none m); [done|]. intros (e&E&He)%list_elem_of_fmap. apply Hf in He as [_ He]. specialize (He Hne). lia.
    + intros _. split; [done|]. cbn. intros Hne'.
      destruct (decide (wm_nextid m = 2 ^ 32 - 1)) as [E|]; [rewrite E in Hne'; done|]. rewrite u32_small by lia. lia.
Qed.

Lemma ones_step k : 0 <= k -> Z.lor (Z.shiftl (Z.ones k) 1) 1 = Z.ones (k + 1).
Proof.
  intros Hk. rewrite Z.shiftl_mul_pow2, lor_add, !Z.ones_equiv, Z.pow_add_r by lia. lia.
Qed.
Lemma grow_mask_ok fuel k min : 2 <= k <= 31 -> 31 - k <= Z.of_nat fuel -> min < 2 ^ 31 ->
  exists k', k <= k' <= 31 /\ min <= Z.ones k' /\ grow_mask fuel (Z.ones k) min = Some (Z.ones k').
Proof.
  revert k. induction fuel as [|fuel IH]; intros k Hk Hf Hm; cbn [grow_mask]; destruct (Z.ltb_spec (Z.ones k) min) as [Hlt|];
    try (exists k; split_and!; lia || done).
  - assert (k = 31) as -> by lia. rewrite Z.ones_equiv in Hlt. lia.
  - destruct (decide (k = 31)) as [->|]; [rewrite Z.ones_equiv in Hlt; lia|].
    rewrite ones_step by lia. pose proof (ones_range (k + 1) ltac:(lia)). rewrite u32_small by lia.
    destruct (IH (k + 1)) as (k'&?&?&->); [lia|lia|done|]. exists k'. split_and!; lia || done.
Qed.
(** A larger table with the same windows. *)
Lemma grow_table_ok calloc m M :
  wm_models m M -> wm_size m < 2 ^ 30 ->
  srun (grow_table calloc) m
    (fun _ m' => wm_models m' M /\ wm_size m' = wm_size m /\ wm_overflow m' = wm_overflow m /\ wm_nextid m' = wm_nextid m /\
       wm_size m' / 2 < wm_mask m')
    (fun e m' => m' = m /\ calloc = Some e).
Proof.
  intros HM Hlt. pose proof HM as [[Ht Hids Hnd Hc Hn Hf Hld] Hv]. destruct (tb_mask _ _ Ht) as (k&Hk&Em).
  unfold grow_table. apply srun_bind. unfold srun at 1, sget. cbv zeta. rewrite Em, u32_small by lia.
  destruct (grow_mask_ok 32 k (wm_size m * 3 / 2) Hk) as (k1&Hk1&Hmin&->); [lia|apply Z.div_lt_upper_bound; lia|].
  assert (Hk2 : exists k2, 2 <= k2 <= 31 /\ wm_size m / 2 < Z.ones k2 /\ (if Z.ones k1 <? 15 then 15 else Z.ones k1) = Z.ones k2).
  { destruct (Z.ltb_spec (Z.ones k1) 15); [exists 4; change (Z.ones 4) with 15|exists k1]; split_and!; try lia; try done; mlia. }
  destruct Hk2 as (k2&Hk2&Hload&->). destruct calloc as [e|]; [by apply srun_throw|].
  apply srun_bind. apply chains_ok; [done|]. change (concat (wm_map m)) with (entries m).
  destruct (rehash_windows_ok (Z.ones k2) (entries m) _ (empty_table_ok k2 Hk2)) as (t&Et&Htt&Hp).
  rewrite concat_replicate_nil, app_nil_r in Hp. apply srun_bind. apply (srun_lift _ _ _ _ t Et).
  unfold srun, sput. split; [|by split_and!]. split; [|intros id w; unfold entries; cbn; rewrite Hp; apply Hv].
  split; unfold entries in *; cbn; [done| | | |done| |mlia].
  - by rewrite Hp.
  - by rewrite Hp.
  - by rewrite Hp.
  - intros Ho e. rewrite Hp. by apply Hf.
Qed.
Lemma insert_entry_ok id w calloc m M :
  wm_models m M -> M !! id = None -> 0 <= id < 2 ^ 32 -> fresh_in m id -> wm_size m < 2 ^ 30 ->
  srun (WindowMap_Insert (MkEntry id w) calloc) m (fun _ m' => wm_models m' (<[id := w]> M))
    (fun e m' => m' = m /\ calloc = Some e).
Proof.
  intros HM Hnone Hid Hfr Hlt. unfold WindowMap_Insert. apply srun_bind. unfold srun at 1, sget. apply srun_bind.
  apply srun_mono with (Q := fun _ m' => wm_models m' M /\ wm_size m' = wm_size m /\ fresh_in m' id /\ wm_size m' / 2 < wm_mask m')
    (R := fun e m' => m' = m /\ calloc = Some e); [|intros [] m1 (HM1&Es&Hfr1&Hl1)|done].
  { destruct (Z.leb_spec (wm_mask m) (wm_size m / 2)); [|by apply srun_ret]. eapply srun_mono; [by apply (grow_table_ok calloc m M)| |done].
    intros _ m' (?&?&Eo&En&?). split_and!; [done..| |done]. unfold fresh_in in *. by rewrite Eo, En. }
  pose proof HM1 as [[Ht Hids Hnd Hc Hn Hf Hld] Hv]. apply srun_bind. unfold srun at 1, sget.
  destruct (push_ok _ _ (MkEntry id w) Ht) as (t&Et&Htt&Hp). apply srun_bind. apply (srun_lift _ _ _ _ t Et).
  unfold srun, sput. apply (models_none _ _ _ HM1) in Hnone as Hnew. split.
  - split; unfold entries in *; cbn; [done| | | |done| |rewrite u32_small by lia; mlia].
    + rewrite Hp. by constructor.
    + rewrite Hp. cbn. by constructor.
    + rewrite Hp. cbn. rewrite u32_small by lia. lia.
    + intros Ho e. rewrite Hp. intros [->|He]%elem_of_cons; [by apply Hfr1|by apply Hf].
  - intros id' w'. unfold entries. cbn. rewrite Hp, elem_of_cons. rewrite lookup_insert_Some, Hv. unfold entries.
    split; [intros [[-> ->]|[? ?]]; [by left|by right]|]. intros [[= -> ->]|Hin]; [by left|]. right. split; [|done].
    intros <-. apply Hnew, list_elem_of_fmap. by exists (MkEntry id w').
Qed.
Lemma lookup_entry_ok id m M :
  wm_models m M ->
  srun (WindowMap_Lookup id) m (fun r m' => m' = m /\ match r with
    | Some e => e ∈ entries m /\ e_id e = id /\ M !! id = Some (e_win e) | None => M !! id = None end) (fun _ _ => False).
Proof.
  intros [[Ht Hids Hnd Hc Hn Hf Hld] Hv]. unfold WindowMap_Lookup. apply srun_bind. unfold srun at 1, sget.
  destruct (bucket_lt _ _ id Ht) as [b Hb]. rewrite Hb. apply srun_bind. apply (srun_lift _ _ _ _ b); [done|].
  apply srun_ret. split; [done|]. destruct (list_find _ b) as [[i e]|] eqn:E; cbn.
  - apply list_find_Some in E as (He%list_elem_of_lookup_2&Eid&_).
    assert (Hin : e ∈ entries m) by (apply elem_of_concat; eauto). split; [done|]. split; [done|].
    apply Hv. by destruct e; cbn in *; subst.
  - apply list_find_None in E. rewrite Forall_forall in E. destruct (M !! id) as [w|] eqn:EM; [|done]. exfalso.
    apply Hv, elem_of_concat in EM as (i&b'&Hb'&Hin). pose proof (tb_bucket _ _ Ht _ _ _ Hb' Hin) as Ei. cbn in Ei. subst i.
    rewrite Hb in Hb'. injection Hb' as <-. by apply (E _ Hin).
Qed.
Lemma concat_filter {A} (P : A -> Prop) `{!forall a, Decision (P a)} (t : list (list A)) :
  concat (filter P <$> t) = filter P (concat t).
Proof. induction t as [|b t IH]; [done|]. cbn. by rewrite IH, filter_app. Qed.
Lemma filter_one e (l : list entry) : NoDup l -> e ∈ l -> length l = S (length (filter (fun a => a <> e) l)).
Proof.
  intros Hnd He. assert (Hp : l ≡ₚ e :: filter (fun a => a <> e) l); [|by rewrite Hp at 1].
  apply NoDup_Permutation; [done| |].
  - constructor; [|by apply NoDup_filter]. rewrite list_elem_of_filter. tauto.
  - intros a. rewrite elem_of_cons, list_elem_of_filter. destruct (decide (a = e)) as [->|]; tauto.
Qed.
Lemma filter_table_ok mask t (P : entry -> Prop) `{!forall e, Decision (P e)} :
  table_ok mask t -> table_ok mask (filter P <$> t).
Proof.
  intros [Hm Hl Hb]. split; [done|by rewrite length_fmap|]. intros i b e Hi He. rewrite list_lookup_fmap in Hi.
  destruct (t !! i) as [b'|] eqn:E; [|done]. injection Hi as <-. apply list_elem_of_filter in He as [_ He]. by eapply Hb.
Qed.
Lemma same_entry m e e' : NoDup (e_id <$> entries m) -> e ∈ entries m -> e' ∈ entries m -> e_id e = e_id e' -> e = e'.
Proof.
  intros Hnd [i Hi]%list_elem_of_lookup [j Hj]%list_elem_of_lookup E.
  assert (i = j) as <-; [|congruence]. eapply (NoDup_lookup _ _ _ (e_id e) Hnd); rewrite list_lookup_fmap, ?Hi, ?Hj; [done|].
  cbn. by rewrite E.
Qed.
Lemma remove_entry_ok e m M :
  wm_models m M -> e ∈ entries m -> wm_size m < 2 ^ 32 ->
  srun (WindowMap_Remove e) m (fun _ m' => wm_models m' (delete (e_id e) M)) (fun _ _ => False).
Proof.
  intros [[Ht Hids Hnd Hc Hn Hf Hld] Hv] He Hlt. unfold WindowMap_Remove. apply srun_bind. unfold srun at 1, sget.
  pose proof (NoDup_fmap_1 _ _ Hnd) as Hnd'. pose proof (filter_one e _ Hnd' He) as Hlen.
  apply srun_bind, srun_check; [lia|]. apply srun_bind, srun_check; [by apply bool_decide_eq_true|].
  unfold srun, sput. split.
  - split; unfold entries in *; cbn; rewrite ?concat_filter; [by apply filter_table_ok|..].
    + rewrite Forall_forall in Hids |- *. intros a [_ ?]%list_elem_of_filter. by apply Hids.
    + apply (sublist_NoDup _ _ Hnd), fmap_sublist, sublist_filter.
    + rewrite u32_small by lia. lia.
    + done.
    + intros Ho a [_ ?]%list_elem_of_filter. by apply Hf.
    + rewrite u32_small by lia. mlia.
  - intros id w. rewrite lookup_delete_Some, Hv. unfold entries at 2. cbn. rewrite concat_filter, list_elem_of_filter.
    change (concat (wm_map m)) with (entries m). split; (intros [Hne ?]; split; [|done]).
    + by intros <-.
    + intros E. apply Hne. by apply (same_entry m).
Qed.

(** ** The abstract map *)
Inductive mop : Type :=
| MRegister (win : Z) (calloc : option error_code)
| MUnregister (id : Z) (noack : bool) (destroy calloc : option error_code)
| MFind (id : Z).
Definition mexec (op : mop) : MM (option Z) :=
  match op with
  | MRegister win calloc => id ← register_window win calloc; mret (Some id)
  | MUnregister id noack destroy calloc => unregister_window id noack destroy calloc
  | MFind id => win ← WindowMap_Lookup id; mret (e_win <$> win)
  end.
(** An operation on the abstract map, with its result. *)
Definition mstep (op : mop) (M : gmap Z Z) (r : option Z) (M' : gmap Z Z) : Prop :=
  match op with
  | MRegister win _ => exists id, r = Some id /\ 0 <= id < 2 ^ 32 /\ M !! id = None /\ M' = <[id := win]> M
  | MUnregister id noack destroy _ => r = M !! id /\ M' = delete id M /\
      match r with Some _ => destroy = None | None => noack = true end
  | MFind id => r = M !! id /\ M' = M
  end.
(** When an operation throws; the map is then as it was. *)
Definition refuses (op : mop) (M : gmap Z Z) (e : error_code) : Prop :=
  match op with
  | MRegister _ calloc => calloc = Some e
  | MUnregister id noack destroy _ =>
      match M !! id with
      | None => noack = false /\ e = E_INVALID_ARGUMENT
      | Some _ => destroy = Some e
      end
  | MFind _ => False
  end.

(** A window that has just been removed is inserted again without a larger table. *)
Lemma reinsert_ok e calloc m M :
  wm_models m M -> e ∈ entries m -> M !! e_id e = Some (e_win e) -> wm_size m < 2 ^ 30 ->
  srun (WindowMap_Remove e ≫= fun _ => WindowMap_Insert e calloc) m (fun _ m' => wm_models m' M) (fun _ _ => False).
Proof.
  intros HM He EM Hlt. pose proof HM as [[_ Hids Hnd Hc _ Hf Hld] _]. rewrite Forall_forall in Hids.
  pose proof (filter_one e _ (NoDup_fmap_1 _ _ Hnd) He) as Hlen.
  assert (Hrm : WindowMap_Remove e m = SRet tt (set_count (u32 (wm_size m - 1))
    (set_table (wm_mask m) (filter (fun a => a <> e) <$> wm_map m) m))).
  { unfold WindowMap_Remove, mbind, SM_bind, sget, scheck.
    replace (wm_size m =? 0) with false by lia. cbn [negb]. by rewrite bool_decide_true. }
  pose proof (remove_entry_ok e m M HM He ltac:(lia)) as H. unfold srun in H. rewrite Hrm in H. apply srun_bind.
  unfold srun at 1. rewrite Hrm. set (m1 := set_count _ _) in *.
  assert (Es : wm_size m1 = wm_size m - 1) by (cbn; apply u32_small; lia).
  assert (Hno : WindowMap_Insert e calloc m1 = WindowMap_Insert e None m1).
  { unfold WindowMap_Insert, mbind, SM_bind, sget. rewrite Es.
    change (wm_mask m1) with (wm_mask m). by replace (wm_mask m <=? (wm_size m - 1) / 2) with false by lia. }
  unfold srun. rewrite Hno. fold (srun (WindowMap_Insert e None) m1 (fun _ m' => wm_models m' M) (fun _ _ => False)).
  destruct e as [id w]. eapply srun_mono; [apply (insert_entry_ok id w None m1 _ H)|..]; cbn [e_id e_win] in *.
  - apply lookup_delete_eq.
  - by apply (Hids (MkEntry id w)).
  - intros Ho. apply (Hf Ho (MkEntry id w) He).
  - lia.
  - intros _ m2 H2. by rewrite insert_delete_id in H2.
  - by intros er m2 [_ ?].
Qed.
Lemma unregister_ok id noack destroy calloc m M :
  wm_models m M -> wm_size m < 2 ^ 30 ->
  srun (unregister_window id noack destroy calloc) m
    (fun r m' => exists M', mstep (MUnregister id noack destroy calloc) M r M' /\ wm_models m' M')
    (fun e m' => wm_models m' M /\ refuses (MUnregister id noack destroy calloc) M e).
Proof.
  intros HM Hlt. unfold unregister_window. apply srun_bind. eapply srun_mono; [by apply (lookup_entry_ok id m M)| |done].
  intros [e|] m1 [-> Hr]; cbn [mstep refuses].
  - destruct Hr as (He&<-&EM). rewrite EM. destruct destroy as [er|].
    + apply srun_bind. eapply srun_mono; [exact (srun_unbind _ _ _ _ _ (reinsert_ok e calloc m M HM He EM Hlt))|..|done]; cbv beta.
      intros [] m2 H2. apply srun_bind. eapply srun_mono; [exact H2|..|done]; cbv beta.
      intros [] m3 H3. by apply srun_throw.
    + apply srun_bind. eapply srun_mono; [apply (remove_entry_ok e m M HM He); lia| |done].
      intros [] m2 HM2. apply srun_ret. by exists (delete (e_id e) M).
  - rewrite Hr. destruct noack; [apply srun_ret; exists M; by rewrite ?delete_id|by apply srun_throw].
Qed.
Lemma mexec_ok op m M :
  wm_models m M -> wm_size m < 2 ^ 30 ->
  srun (mexec op) m (fun r m' => exists M', mstep op M r M' /\ wm_models m' M')
    (fun e m' => wm_models m' M /\ refuses op M e).
Proof.
  intros HM Hlt. destruct op as [win calloc|id noack destroy calloc|id]; cbn [mexec]; [|by apply unregister_ok|].
  - unfold register_window. apply srun_bind, srun_bind.
    eapply srun_mono; [apply (make_id_ok m M HM); lia| |done]. intros id m1 (HM1&Hnone&Hid&Hfr&Es). apply srun_bind.
    eapply srun_mono; [apply (insert_entry_ok id win calloc m1 M); try done; lia| |].
    + intros [] m2 HM2. apply srun_ret, srun_ret. exists (<[id := win]> M). split; [|done]. by exists id.
    + intros e m2 [-> ?]. done.
  - apply srun_bind. eapply srun_mono; [by apply (lookup_entry_ok id m M)| |done].
    intros r m1 [-> Hr]. apply srun_ret. exists M. split; [|done]. split; [|done].
    destruct r as [e|]; cbn; [by destruct Hr as (_&_&->)|done].
Qed.

(** C8: A table of fewer than 2^30 windows behaves as a finite map from ids to windows.
    Giving a new window an id and inserting it returns an id that no window of the map has,
    also after ids have wrapped around, and adds the window under it; looking an id up finds
    what the map has, and removing it takes its window out.  No assertion or bound is
    violated and the search for a free id ends.  Whatever is thrown leaves the map as it was:
    an insertion throws only if its larger table cannot be allocated, a removal throws
    [E_INVALID_ARGUMENT] for an id that the map does not have, unless the client wants no
    answer, and what the destruction of the window throws, after it has inserted the window
    again (which never needs an allocation). *)
Theorem windowmap_refines (op : mop) (m : WindowMap) (M : gmap Z Z) :
  wm_models m M -> wm_size m < 2 ^ 30 ->
  match mexec op m with
  | SRet r m' => exists M', mstep op M r M' /\ wm_models m' M'
  | SThrow e m' => wm_models m' M /\ refuses op M e
  | SPanic => False
  end.
Proof. apply mexec_ok. Qed.

Lemma init_models : exists m, WindowMap_Init None = Ret m /\ wm_models m ∅.
Proof.
  eexists. split; [reflexivity|]. split.
  - split; cbn; [|by constructor|by constructor|done|done|by intros _ e ?%not_elem_of_nil|done].
    apply (empty_table_ok 2). lia.
  - intros id w. cbn. rewrite lookup_empty. split; [done|by intros ?%not_elem_of_nil].
Qed.
Definition map0 : WindowMap := MkMap 0 3 1 (replicate 4 []) false.
Lemma windowmap_refines_witness :
  match mexec (MRegister 4096 None) map0 with
  | SRet r m' => exists M', mstep (MRegister 4096 None) ∅ r M' /\ wm_models m' M'
  | SThrow e m' => wm_models m' ∅ /\ refuses (MRegister 4096 None) ∅ e
  | SPanic => False
  end.
Proof.
  apply (windowmap_refines (MRegister 4096 None) map0 ∅); [|reflexivity].
  destruct init_models as (m&[= <-]&Hm). exact Hm.
Defined.

(** Seven windows: the seventh makes the table grow to 16 chains. *)
Example seven_windows :
  match mapM (fun w => register_window w None) [10; 20; 30; 40; 50; 60; 70] map0 with
  | SRet ids m => ids = [1; 2; 3; 4; 5; 6; 7] /\ wm_mask m = 15 /\ length (wm_map m) = 16%nat /\ wm_size m = 7
  | _ => False
  end.
Proof. vm_compute. done. Qed.
(** The id 0, which is skipped when ids wrap around for the first time, is given to a
    window the next time. *)
Example make_id_zero :
  match register_window 10 None (MkMap 0 3 0 (replicate 4 []) false) with
  | SRet id m => id = 1 /\ match register_window 20 None (set_nextid 0 m) with SRet id' _ => id' = 0 | _ => False end
  | _ => False
  end.
Proof. vm_compute. done. Qed.
