(* ===== verification/WindowVis.v ===== *)
(** Visible points of the windows: what the loops of [window.c] that hand points from
    one set to another compute.

    [V h d k] is the set of the points of the display where window [k] is visible,
    [B d] the set where the background is.  While a window is hidden its set is
    relative to the display instead of the window; [h] names that window. *)
From S2P Require Import Prelude.
From stdpp Require Import sets list list_numbers.
From S2P Require Import Rect RectBlocks RectStrips RectProps Window.
Open Scope Z_scope.

Definition region := Z -> Z -> Prop.
Definition onscreen (d : display) (x y : Z) : Prop := 0 <= x < d_sizex d /\ 0 <= y < d_sizey d.
Definition in_window (w : window) (x y : Z) : Prop :=
  w_posx w <= x < w_posx w + w_sizex w /\ w_posy w <= y < w_posy w + w_sizey w.

Definition originx (h : option nat) (k : nat) (w : window) : Z := if decide (h = Some k) then 0 else w_posx w.
Definition originy (h : option nat) (k : nat) (w : window) : Z := if decide (h = Some k) then 0 else w_posy w.
Definition vis (h : option nat) (k : nat) (w : window) (x y : Z) : Prop :=
  cov (w_visi w) (x - originx h k w) (y - originy h k w).
Definition V (h : option nat) (d : display) (k : nat) (x y : Z) : Prop :=
  match d_zorder d !! k with Some w => vis h k w x y | None => False end.
Definition B (d : display) (x y : Z) : Prop := cov (d_backvisi d) x y.

(** Sizes and positions with room for every sum the code forms. *)
Definition win_bounds (w : window) : Prop :=
  0 < w_sizex w <= COORD_MAX /\ 0 < w_sizey w <= COORD_MAX /\
  - COORD_MAX <= w_posx w /\ w_posx w + w_sizex w <= COORD_MAX /\
  - COORD_MAX <= w_posy w /\ w_posy w + w_sizey w <= COORD_MAX.
Record geo (h : option nat) (d : display) : Prop := {
  geo_size : 0 <= d_sizex d <= COORD_MAX /\ 0 <= d_sizey d <= COORD_MAX;
  geo_back : strips_ok 0 (d_backvisi d) /\ forall x y, B d x y -> onscreen d x y;
  geo_bounds k w : d_zorder d !! k = Some w -> win_bounds w;
  geo_visi k w : d_zorder d !! k = Some w -> strips_ok 0 (w_visi w);
  geo_vis k w x y : d_zorder d !! k = Some w -> vis h k w x y ->
    onscreen d x y /\ (h <> Some k -> in_window w x y)
}.

(** Everything but the sets of points. *)
Definition frame (d d' : display) : Prop :=
  d_sizex d' = d_sizex d /\ d_sizey d' = d_sizey d /\
  set_visi [] <$> d_zorder d' = set_visi [] <$> d_zorder d /\
  d_windows d' = d_windows d /\ d_focus d' = d_focus d.
Definition looks (h : option nat) (d : display) (f : nat -> region) (g : region) : Prop :=
  (forall k x y, V h d k x y <-> f k x y) /\ (forall x y, B d x y <-> g x y).
Definition st (h : option nat) (d0 : display) (f : nat -> region) (g : region) (d : display) : Prop :=
  geo h d /\ frame d0 d /\ looks h d f g.
Definition upd (f : nat -> region) (k : nat) (P : region) : nat -> region :=
  fun j => if decide (j = k) then P else f j.

Lemma upd_same f k P : upd f k P k = P.
Proof. unfold upd. by rewrite decide_True. Qed.
Lemma upd_other f k j P : j <> k -> upd f k P j = f j.
Proof. intros. unfold upd. by rewrite decide_False. Qed.

Lemma frame_refl d : frame d d.
Proof. done. Qed.
Lemma frame_trans d d' d'' : frame d d' -> frame d' d'' -> frame d d''.
Proof. unfold frame. intuition congruence. Qed.
Lemma frame_lookup d d' k w : frame d d' -> d_zorder d !! k = Some w ->
  exists l, d_zorder d' !! k = Some (set_visi l w).
Proof.
  intros (_&_&Hz&_) Hk. pose proof (f_equal (fun z => z !! k) Hz) as E. cbn in E.
  rewrite !list_lookup_fmap, Hk in E. destruct (d_zorder d' !! k) as [w'|]; [|done].
  cbn in E. injection E as E1 E2 E3 E4 E5 E6 E7 E8. exists (w_visi w'). destruct w', w; cbn in *. by subst.
Qed.
Lemma frame_length d d' : frame d d' -> length (d_zorder d') = length (d_zorder d).
Proof. intros (_&_&Hz&_). by rewrite <- (length_fmap (set_visi [])), Hz, length_fmap. Qed.
Lemma frame_onscreen d d' x y : frame d d' -> onscreen d' x y <-> onscreen d x y.
Proof. intros (E1&E2&_). unfold onscreen. by rewrite E1, E2. Qed.

(** ** Rectangles *)
(** A rectangle lies in a box if its points do. *)
Lemma rect_box r lox hix loy hiy :
  rect_pos r -> (forall x y, in_rect r x y -> lox <= x < hix /\ loy <= y < hiy) ->
  lox <= r_xmin r /\ r_xmin r + r_xsiz r <= hix /\ loy <= r_ymin r /\ r_ymin r + r_ysiz r <= hiy.
Proof.
  intros [(?&?&?&?&?&?) [??]] Hin. unfold in_rect in Hin.
  pose proof (Hin (r_xmin r) (r_ymin r)). pose proof (Hin (r_xmin r + r_xsiz r - 1) (r_ymin r + r_ysiz r - 1)). lia.
Qed.
Lemma shift_exact r dx dy :
  rect_ok r -> 0 <= r_xmin r + dx -> r_xmin r + r_xsiz r + dx <= COORD_MAX ->
  0 <= r_ymin r + dy -> r_ymin r + r_ysiz r + dy <= COORD_MAX ->
  shift r dx dy = MkRect (r_xmin r + dx) (r_ymin r + dy) (r_xsiz r) (r_ysiz r) /\ rect_ok (shift r dx dy) /\
  (forall x y, in_rect (shift r dx dy) (x + dx) (y + dy) <-> in_rect r x y).
Proof.
  intros (?&?&?&?&?&?) ????. unfold shift. unfold COORD_MAX in *. rewrite !u32_small by lia.
  split; [done|]. split; [unfold rect_ok, COORD_MAX; cbn; lia|]. intros x y. unfold in_rect. cbn. lia.
Qed.
Lemma shift_back r dx dy : 0 <= r_xmin r <= COORD_MAX -> 0 <= r_ymin r <= COORD_MAX ->
  shift (shift r dx dy) (- dx) (- dy) = r.
Proof.
  unfold shift, COORD_MAX, u32, wrap. cbn. intros ??. destruct r; cbn in *. f_equal.
  - rewrite Zplus_mod_idemp_l. rewrite Z.mod_small; lia.
  - rewrite Zplus_mod_idemp_l. rewrite Z.mod_small; lia.
Qed.
Lemma shift_zero r : rect_ok r -> shift r 0 0 = r.
Proof.
  intros (?&?&?&?&?&?). unfold COORD_MAX in *. destruct r; unfold shift; cbn in *.
  rewrite !u32_small by lia. f_equal; lia.
Qed.
Lemma nonempty_pos r : rect_ok r -> nonempty r = true -> rect_pos r.
Proof. intros Hr. pose proof Hr as (?&?&?&?&?&?). unfold nonempty. split; [done|]. lia. Qed.
Lemma intersect_pos stack a b : rect_ok a -> rect_ok b -> nonempty (rect_intersect stack a b) = true ->
  rect_pos (rect_intersect stack a b).
Proof.
  intros Ha Hb Hn. destruct (rect_intersect_ok stack a b Ha Hb) as [_ H]. apply H.
  unfold rect_empty, nonempty in *. lia.
Qed.
Lemma intersect_empty stack a b x y : rect_ok a -> rect_ok b -> nonempty (rect_intersect stack a b) = false ->
  in_rect a x y -> ~ in_rect b x y.
Proof.
  intros Ha Hb Hn ??. destruct (rect_intersect_ok stack a b Ha Hb) as [Hab _].
  assert (Hi : in_rect (rect_intersect stack a b) x y) by by apply Hab.
  unfold nonempty, in_rect in *. lia.
Qed.
Lemma find_common_none {A} (common : A -> rect) l : find_common common l = None ->
  forall a, a ∈ l -> nonempty (common a) = false.
Proof.
  induction l as [|b l IH]; cbn; [by intros _ a ?%not_elem_of_nil|].
  destruct (nonempty (common b)) eqn:E; [done|]. intros H a [->|Ha]%elem_of_cons; [done|]. by apply IH.
Qed.
Lemma find_common_first {A} (common : A -> rect) l a c : find_common common l = Some (a, c) ->
  exists l1 l2, l = l1 ++ a :: l2 /\ c = common a /\ nonempty c = true /\ forall b, b ∈ l1 -> nonempty (common b) = false.
Proof.
  induction l as [|b l IH]; cbn; [done|]. destruct (nonempty (common b)) eqn:E.
  - intros [= <- <-]. exists [], l. split; [done|]. split; [done|]. split; [done|]. by intros ? []%not_elem_of_nil.
  - intros (l1&l2&->&?&?&Hl)%IH. exists (b :: l1), l2. do 3 (split; [done|]). intros b' [->|?]%elem_of_cons; auto.
Qed.
Lemma find_common_some {A} (common : A -> rect) l a c : find_common common l = Some (a, c) ->
  a ∈ l /\ c = common a /\ nonempty c = true.
Proof.
  induction l as [|b l IH]; cbn; [done|]. destruct (nonempty (common b)) eqn:E.
  - intros [= <- <-]. split; [left|done].
  - intros (?&?&?)%IH. split; [by right|done].
Qed.

(** ** Steps *)
Notation anyhow := (fun (_ : error_code) (_ : display) => True).

Section Steps.
Context {A : Type} (d : display) (Q : A -> display -> Prop).
Lemma run_dcheck b (f : unit -> DM A) : b = true -> srun (f tt) d Q anyhow -> srun (scheck b ≫= f) d Q anyhow.
Proof. intros -> H. exact H. Qed.
Lemma run_dget (f : display -> DM A) : srun (f d) d Q anyhow -> srun (sget ≫= f) d Q anyhow.
Proof. intros H. exact H. Qed.
Lemma run_put d' (f : unit -> DM A) : srun (f tt) d' Q anyhow -> srun (sput d' ≫= f) d Q anyhow.
Proof. intros H. exact H. Qed.
Lemma run_modify g (f : unit -> DM A) : srun (f tt) (g d) Q anyhow -> srun (modify g ≫= f) d Q anyhow.
Proof. intros H. exact H. Qed.
Lemma run_win k w (f : window -> DM A) :
  d_zorder d !! k = Some w -> srun (f w) d Q anyhow -> srun (win k ≫= f) d Q anyhow.
Proof.
  intros Hk H. change (srun (slift (access (d_zorder d !! k)) ≫= f) d Q anyhow). rewrite Hk. exact H.
Qed.
Lemma run_bind {C} (m : DM C) P (f : C -> DM A) :
  srun m d P anyhow -> (forall c d', P c d' -> srun (f c) d' Q anyhow) -> srun (m ≫= f) d Q anyhow.
Proof. intros H Hf. apply srun_bind. by eapply srun_mono; [exact H|exact Hf|]. Qed.
Lemma run_bind_pair {C C'} (m : DM C) (n : C -> DM C') P (f : C' -> DM A) :
  srun (m ≫= n) d P anyhow -> (forall c d', P c d' -> srun (f c) d' Q anyhow) ->
  srun (m ≫= fun c => n c ≫= f) d Q anyhow.
Proof.
  unfold srun, mbind, SM_bind. destruct (m d) as [c d'|e d'|]; [|done..]. intros H Hf. destruct (n c d') as [c2 d2|e2 d2|]; [by apply (Hf c2 d2)|done..].
Qed.
End Steps.

Lemma run_render {A} (d : display) (Q : A -> display -> Prop) k w r (f : unit -> DM A) :
  d_zorder d !! k = Some w -> rect_pos r ->
  (forall c, srun (f tt) (log_draw c d) Q anyhow) -> srun (Window_RenderRect k r ≫= f) d Q anyhow.
Proof.
  intros Hk [_ [? ?]] Hrun. apply srun_bind. unfold Window_RenderRect. apply (run_win _ _ _ w); [done|].
  apply run_dget. unfold Copy_Rect. apply run_dcheck; [cbn; lia|]. apply Hrun.
Qed.

Lemma srun_weaken {S A} (m : SM S A) s (Q : A -> S -> Prop) R :
  srun m s Q R -> srun m s Q (fun _ _ => True).
Proof. unfold srun. by destruct (m s). Qed.
Lemma run_check_rects_any {A} s (Q : A -> rects -> Prop) (f : unit -> RM A) :
  strips_ok 0 (r_strips s) -> srun (f tt) s Q (fun _ _ => True) -> srun (check_rects ≫= f) s Q (fun _ _ => True).
Proof. apply run_check_rects. Qed.

Lemma on_visi_ok k m d w Q :
  d_zorder d !! k = Some w -> srun m (MkRects (w_visi w) (d_mem d)) Q (fun _ _ => True) ->
  srun (on_visi k m) d
    (fun _ d' => exists s, Q tt s /\
       d' = set_answers (r_mem s) (set_zorder (<[k := set_visi (r_strips s) w]> (d_zorder d)) d)) anyhow.
Proof.
  intros Hk H. unfold srun, on_visi in *. rewrite Hk. destruct (m _) as [[] s|e s|]; [|done..]. by exists s.
Qed.
Lemma on_back_ok m d Q :
  srun m (MkRects (d_backvisi d) (d_mem d)) Q (fun _ _ => True) ->
  srun (on_back m) d (fun _ d' => exists s, Q tt s /\ d' = set_answers (r_mem s) (set_back (r_strips s) d)) anyhow.
Proof. intros H. unfold srun, on_back in *. destruct (m _) as [[] s|e s|]; [|done..]. by exists s. Qed.
Lemma on_local_ok l m d Q :
  srun m (MkRects l (d_mem d)) Q (fun _ _ => True) ->
  srun (on_local l m) d (fun l' d' => exists s, Q tt s /\ l' = r_strips s /\ d' = set_answers (r_mem s) d) anyhow.
Proof. intros H. unfold srun, on_local in *. destruct (m _) as [[] s|e s|]; [|done..]. by exists s. Qed.

(** A new set for window [k], relative to the display if [h'] says so. *)
Lemma st_rebase h h' d0 f g d k w l m (P : region) :
  (forall j, j <> k -> h = Some j <-> h' = Some j) ->
  st h d0 f g d -> d_zorder d !! k = Some w -> strips_ok 0 l ->
  (forall x y, cov l (x - originx h' k w) (y - originy h' k w) <-> P x y) ->
  (forall x y, P x y -> onscreen d x y /\ (h' <> Some k -> in_window w x y)) ->
  st h' d0 (upd f k P) g (set_answers m (set_zorder (<[k := set_visi l w]> (d_zorder d)) d)).
Proof.
  intros Hhh ([Hs Hb Hw Hv Hp]&Hf&Hl&Hg) Hk Hok HP Hin.
  assert (Hlt : (k < length (d_zorder d))%nat) by by eapply lookup_lt_Some.
  assert (Hvis : forall j w' x y, j <> k -> vis h' j w' x y <-> vis h j w' x y).
  { intros j w' x y Hj. specialize (Hhh j Hj). unfold vis, originx, originy.
    destruct (decide (h = Some j)), (decide (h' = Some j)); tauto. }
  split; [|split; [|split]].
  - split; cbn; try done.
    + intros j w' Hj. destruct (decide (j = k)) as [->|].
      * rewrite list_lookup_insert_eq in Hj by done. injection Hj as <-. exact (Hw k w Hk).
      * rewrite list_lookup_insert_ne in Hj by done. by apply (Hw j).
    + intros j w' Hj. destruct (decide (j = k)) as [->|].
      * rewrite list_lookup_insert_eq in Hj by done. by injection Hj as <-.
      * rewrite list_lookup_insert_ne in Hj by done. by apply (Hv j).
    + intros j w' x y Hj. destruct (decide (j = k)) as [->|Hne].
      * rewrite list_lookup_insert_eq in Hj by done. injection Hj as <-. intros Hc. apply Hin, HP, Hc.
      * rewrite list_lookup_insert_ne in Hj by done. rewrite Hvis by done. intros Hx.
        destruct (Hp j w' x y Hj Hx) as [? Hi]. split; [done|]. intros Hn. apply Hi. by rewrite Hhh.
  - destruct Hf as (?&?&Hz&?&?). repeat split; cbn; try done. rewrite <- Hz.
    rewrite list_fmap_insert. apply list_insert_id. by rewrite list_lookup_fmap, Hk.
  - intros j x y. unfold V. cbn. destruct (decide (j = k)) as [->|].
    + rewrite list_lookup_insert_eq, upd_same by done. apply HP.
    + rewrite list_lookup_insert_ne, upd_other by done. rewrite <- Hl. unfold V.
      destruct (d_zorder d !! j); [by apply Hvis|done].
  - exact Hg.
Qed.
Lemma st_put h d0 f g d k w l m (P : region) :
  st h d0 f g d -> d_zorder d !! k = Some w -> strips_ok 0 l ->
  (forall x y, cov l (x - originx h k w) (y - originy h k w) <-> P x y) ->
  (forall x y, P x y -> onscreen d x y /\ (h <> Some k -> in_window w x y)) ->
  st h d0 (upd f k P) g (set_answers m (set_zorder (<[k := set_visi l w]> (d_zorder d)) d)).
Proof. by apply st_rebase. Qed.
(** Window [k] replaced, with the same visible points. *)
Lemma st_replace d0 f g d k w' w0 m :
  st None d0 f g d -> (k < length (d_zorder d))%nat -> win_bounds w' -> strips_ok 0 (w_visi w') ->
  (forall x y, vis None k w' x y <-> f k x y) -> (forall x y, f k x y -> in_window w' x y) ->
  set_visi [] w0 = set_visi [] w' ->
  st None (set_zorder (<[k := w0]> (d_zorder d0)) d0) f g (set_answers m (set_zorder (<[k := w']> (d_zorder d)) d)).
Proof.
  intros ([Hs Hb Hw Hv Hp]&Hf&Hl&Hg) Hlt Hbw Hok Hvis Hin E.
  assert (Hlk : forall j w, <[k := w']> (d_zorder d) !! j = Some w -> if decide (j = k) then w = w' else d_zorder d !! j = Some w).
  { intros j w. destruct (decide (j = k)) as [->|]; [rewrite list_lookup_insert_eq by done; congruence|].
    by rewrite list_lookup_insert_ne. }
  split; [|split; [|split]].
  - split; cbn; try done; intros j w.
    + intros Hj%Hlk. destruct (decide (j = k)); [by subst|by apply (Hw j)].
    + intros Hj%Hlk. destruct (decide (j = k)); [by subst|by apply (Hv j)].
    + intros x y Hj%Hlk. destruct (decide (j = k)) as [->|]; [subst|by apply (Hp j)].
      intros Hx%Hvis. split; [|by intros; apply Hin]. apply Hl in Hx. unfold V in Hx.
      destruct (d_zorder d !! k) as [wk|] eqn:Ek; [|done]. by eapply Hp.
  - destruct Hf as (?&?&Hz&?&?). repeat split; cbn; try done. by rewrite !list_fmap_insert, Hz, E.
  - intros j x y. unfold V. cbn. destruct (decide (j = k)) as [->|].
    + by rewrite list_lookup_insert_eq.
    + rewrite list_lookup_insert_ne by done. apply (Hl j).
  - exact Hg.
Qed.
Lemma st_window h d0 f g d k w : st h d0 f g d -> d_zorder d !! k = Some w ->
  win_bounds w /\ strips_ok 0 (w_visi w) /\
  (forall x y, cov (w_visi w) (x - originx h k w) (y - originy h k w) <-> f k x y) /\
  (forall x y, f k x y -> onscreen d x y /\ (h <> Some k -> in_window w x y)).
Proof.
  intros ([Hs Hb Hw Hv Hp]&Hf&Hl&Hg) Hk.
  assert (Hc : forall x y, cov (w_visi w) (x - originx h k w) (y - originy h k w) <-> f k x y).
  { intros x y. rewrite <- (Hl k x y). unfold V. by rewrite Hk. }
  split; [by eapply Hw|]. split; [by eapply Hv|]. split; [done|].
  intros x y Hx. apply (Hp k w); [done|]. by apply Hc.
Qed.

Lemma st_log h d0 f g d c : st h d0 f g d -> st h d0 f g (log_draw c d).
Proof. intros ([? ? Hw Hv Hp]&?&?). split; [|done]. split; [done|done|exact Hw|exact Hv|exact Hp]. Qed.
Lemma st_mem h d0 f g d m : st h d0 f g d -> st h d0 f g (set_answers m d).
Proof. intros ([? ? Hw Hv Hp]&?&?). split; [|done]. split; [done|done|exact Hw|exact Hv|exact Hp]. Qed.

(** Rectangle sets in window coordinates. *)
Definition rel (h : option nat) (k : nat) (w : window) (c : rect) : region :=
  fun x y => in_rect c (x - originx h k w) (y - originy h k w).

Lemma visi_insert h d0 f g d k w c :
  st h d0 f g d -> d_zorder d !! k = Some w -> rect_ok c ->
  (forall x y, rel h k w c x y -> onscreen d x y /\ (h <> Some k -> in_window w x y)) ->
  srun (on_visi k (rects_insert c)) d
    (fun _ => st h d0 (upd f k (fun x y => f k x y \/ rel h k w c x y)) g) anyhow.
Proof.
  intros Hst Hk Hc Hin. pose proof (st_window _ _ _ _ _ _ _ Hst Hk) as (_&Hok&Hl&Hf).
  eapply srun_mono; [apply (on_visi_ok k _ d w (fun _ s' => fin join (MkRects (w_visi w) (d_mem d)) c s')); [done|]| |done].
  { eapply srun_mono; [by apply rects_insert_ok|done|done]. }
  intros _ d' (s&[Hok' Hs]&->). apply st_put; [done|done|done| |].
  - intros x y. rewrite Hs. cbn. unfold join. by rewrite Hl.
  - intros x y [?|?]; [by apply Hf|by apply Hin].
Qed.
Lemma visi_remove h d0 f g d k w c :
  st h d0 f g d -> d_zorder d !! k = Some w -> rect_ok c ->
  srun (on_visi k (rects_remove c)) d
    (fun _ => st h d0 (upd f k (fun x y => f k x y /\ ~ rel h k w c x y)) g) anyhow.
Proof.
  intros Hst Hk Hc. pose proof (st_window _ _ _ _ _ _ _ Hst Hk) as (_&Hok&Hl&Hf).
  eapply srun_mono; [apply (on_visi_ok k _ d w (fun _ s' => fin minus (MkRects (w_visi w) (d_mem d)) c s')); [done|]| |done].
  { eapply srun_mono; [by apply rects_remove_ok|done|done]. }
  intros _ d' (s&[Hok' Hs]&->). apply st_put; [done|done|done| |].
  - intros x y. rewrite Hs. cbn. unfold minus. by rewrite Hl.
  - intros x y [? _]. by apply Hf.
Qed.
Lemma visi_check h d0 f g d k w :
  st h d0 f g d -> d_zorder d !! k = Some w ->
  srun (on_visi k check_rects) d (fun _ => st h d0 f g) anyhow.
Proof.
  intros Hst Hk. pose proof (st_window _ _ _ _ _ _ _ Hst Hk) as (_&Hok&Hl&Hf).
  eapply srun_mono; [apply (on_visi_ok k _ d w (fun _ s' => s' = MkRects (w_visi w) (d_mem d))); [done|]| |done].
  { by apply check_rects_ok. }
  intros _ d' (s&->&->). cbn. replace (set_visi (w_visi w) w) with w by by destruct w.
  rewrite list_insert_id by done. by destruct d.
Qed.

Lemma st_put_back h d0 f g d l m (P : region) :
  st h d0 f g d -> strips_ok 0 l -> (forall x y, cov l x y <-> P x y) -> (forall x y, P x y -> onscreen d x y) ->
  st h d0 f P (set_answers m (set_back l d)).
Proof.
  intros ([Hs Hb Hw Hv Hp]&Hf&Hl&Hg) Hok HP Hin. split; [|split; [done|split; [done|]]].
  - split; cbn; try done. split; [done|]. intros x y Hx. by apply Hin, HP.
  - intros x y. apply HP.
Qed.
Lemma st_back h d0 f g d : st h d0 f g d ->
  strips_ok 0 (d_backvisi d) /\ (forall x y, cov (d_backvisi d) x y <-> g x y) /\ (forall x y, g x y -> onscreen d x y).
Proof.
  intros ([Hs [Hb1 Hb2] Hw Hv Hp]&Hf&Hl&Hg). split; [done|]. split; [done|]. intros x y Hx. by apply Hb2, Hg.
Qed.
Lemma back_insert h d0 f g d c :
  st h d0 f g d -> rect_ok c -> (forall x y, in_rect c x y -> onscreen d x y) ->
  srun (on_back (rects_insert c)) d (fun _ => st h d0 f (fun x y => g x y \/ in_rect c x y)) anyhow.
Proof.
  intros Hst Hc Hin. pose proof (st_back _ _ _ _ _ Hst) as (Hok&Hl&Hf).
  eapply srun_mono; [apply (on_back_ok _ d (fun _ s' => fin join (MkRects (d_backvisi d) (d_mem d)) c s'))| |done].
  { eapply srun_mono; [by apply rects_insert_ok|done|done]. }
  intros _ d' (s&[Hok' Hs]&->). eapply st_put_back; [done|done| |].
  - intros x y. rewrite Hs. cbn. unfold join. by rewrite Hl.
  - intros x y [?|?]; [by apply Hf|by apply Hin].
Qed.
Lemma back_remove h d0 f g d c :
  st h d0 f g d -> rect_ok c ->
  srun (on_back (rects_remove c)) d (fun _ => st h d0 f (fun x y => g x y /\ ~ in_rect c x y)) anyhow.
Proof.
  intros Hst Hc. pose proof (st_back _ _ _ _ _ Hst) as (Hok&Hl&Hf).
  eapply srun_mono; [apply (on_back_ok _ d (fun _ s' => fin minus (MkRects (d_backvisi d) (d_mem d)) c s'))| |done].
  { eapply srun_mono; [by apply rects_remove_ok|done|done]. }
  intros _ d' (s&[Hok' Hs]&->). eapply st_put_back; [done|done| |].
  - intros x y. rewrite Hs. cbn. unfold minus. by rewrite Hl.
  - intros x y [? _]. by apply Hf.
Qed.

(** ** Counting points *)
#[export] Instance bcov_dec v y : Decision (bcov v y).
Proof. unfold bcov, in_block. apply _. Defined.
#[export] Instance cov_dec l x y : Decision (cov l x y).
Proof. unfold cov, scov. apply _. Defined.
#[export] Instance V_dec h d k x y : Decision (V h d k x y).
Proof. unfold V, vis. destruct (d_zorder d !! k); apply _. Defined.
#[export] Instance in_rect_dec r x y : Decision (in_rect r x y).
Proof. unfold in_rect. apply _. Defined.

Definition pts (r : rect) : list (Z * Z) :=
  x ← seqZ (r_xmin r) (r_xsiz r); (fun y => (x, y)) <$> seqZ (r_ymin r) (r_ysiz r).
Lemma elem_of_pts r x y : (x, y) ∈ pts r <-> in_rect r x y.
Proof.
  unfold pts, in_rect. rewrite list_elem_of_bind. split.
  - intros (a&(b&[= -> ->]&Hb%elem_of_seqZ)%list_elem_of_fmap&Ha%elem_of_seqZ). lia.
  - intros [??]. exists x. split; [|apply elem_of_seqZ; lia].
    apply list_elem_of_fmap. exists y. split; [done|apply elem_of_seqZ; lia].
Qed.
Lemma length_pts r : length (pts r) = (Z.to_nat (r_xsiz r) * Z.to_nat (r_ysiz r))%nat.
Proof.
  unfold pts. rewrite <- (length_seqZ (r_xmin r) (r_xsiz r)). induction (seqZ (r_xmin r) (r_xsiz r)) as [|x l IH]; [done|].
  rewrite bind_cons, length_app, length_fmap, length_seqZ, IH. cbn. lia.
Qed.
Lemma filter_length_le_of {A} (P Q : A -> Prop) `{!forall x, Decision (P x), !forall x, Decision (Q x)} l :
  (forall x, x ∈ l -> P x -> Q x) -> (length (filter P l) <= length (filter Q l))%nat.
Proof.
  induction l as [|a l IH]; intros Hsub; [done|].
  assert (length (filter P l) <= length (filter Q l))%nat.
  { apply IH. intros x ?. apply Hsub. by right. }
  rewrite !filter_cons. destruct (decide (P a)), (decide (Q a)); cbn; try lia.
  exfalso. eauto using list_elem_of_here.
Qed.
Lemma filter_length_lt_of {A} (P Q : A -> Prop) `{!forall x, Decision (P x), !forall x, Decision (Q x)} l a :
  (forall x, x ∈ l -> P x -> Q x) -> a ∈ l -> Q a -> ~ P a -> (length (filter P l) < length (filter Q l))%nat.
Proof.
  intros Hsub Ha ? ?. induction Ha as [b l|b c l Ha IH]; rewrite !filter_cons.
  - rewrite decide_False, decide_True by done. cbn.
    enough (length (filter P l) <= length (filter Q l))%nat by lia. apply filter_length_le_of.
    intros x ?. apply Hsub. by right.
  - assert (length (filter P l) < length (filter Q l))%nat.
    { apply IH; [|done..]. intros x ?. apply Hsub. by right. }
    destruct (decide (P c)), (decide (Q c)); cbn; try lia. exfalso. eauto using list_elem_of_here.
Qed.

(** How many points of [r] a set has. *)
Definition num (P : region) `{!forall x y, Decision (P x y)} (r : rect) : nat :=
  length (filter (fun p => P p.1 p.2) (pts r)).
Lemma num_fuel (P : region) `{!forall x y, Decision (P x y)} r :
  0 <= r_xsiz r -> 0 <= r_ysiz r -> (num P r < area_fuel r)%nat.
Proof.
  intros. unfold num, area_fuel. pose proof (length_filter (fun p => P p.1 p.2) (pts r)) as Hle.
  rewrite length_pts in Hle. rewrite Z2Nat.inj_mul by done. lia.
Qed.
Lemma num_lt (P Q : region) `{!forall x y, Decision (P x y), !forall x y, Decision (Q x y)} r c :
  rect_pos c -> (forall x y, in_rect c x y -> in_rect r x y /\ Q x y /\ ~ P x y) ->
  (forall x y, P x y -> Q x y) -> (num P r < num Q r)%nat.
Proof.
  intros Hc Hin HPQ. destruct Hc as [_ [? ?]].
  destruct (Hin (r_xmin c) (r_ymin c)) as (Hr&HQ&HP); [unfold in_rect; lia|].
  apply (filter_length_lt_of _ _ _ (r_xmin c, r_ymin c)); [|by apply elem_of_pts|done|done].
  intros [x y] _. apply HPQ.
Qed.

(** ** The rectangles of a window *)
Lemma st_ext h d0 f g f' g' d :
  (forall k x y, f k x y <-> f' k x y) -> (forall x y, g x y <-> g' x y) -> st h d0 f g d -> st h d0 f' g' d.
Proof.
  intros Hf Hg (?&?&Hl&Hb). do 2 (split; [done|]). split; intros; [by rewrite Hl|by rewrite Hb].
Qed.

Lemma elem_of_foreach l x y : cov l x y <-> exists r, r ∈ RECTS_FOREACH l /\ in_rect r x y.
Proof. rewrite <- foreach_cov, Exists_exists. by setoid_rewrite list_elem_of_In. Qed.

Lemma tile_ok h d0 f g d k w r :
  st h d0 f g d -> d_zorder d !! k = Some w -> r ∈ RECTS_FOREACH (w_visi w) ->
  let r' := shift r (originx h k w) (originy h k w) in
  rect_pos r' /\ (forall x y, in_rect r' x y <-> rel h k w r x y) /\ (forall x y, in_rect r' x y -> f k x y).
Proof.
  intros Hst Hk Hr r'. pose proof (st_window _ _ _ _ _ _ _ Hst Hk) as (_&Hok&Hl&Hin).
  assert (Hsz : 0 <= d_sizex d <= COORD_MAX /\ 0 <= d_sizey d <= COORD_MAX) by apply Hst.
  pose proof (foreach_pos 0 _ ltac:(lia) Hok) as Hp. rewrite Forall_forall in Hp.
  specialize (Hp r Hr).
  assert (Hsub : forall x y, rel h k w r x y -> f k x y).
  { intros x y Hx. apply Hl, elem_of_foreach. by exists r. }
  set (ox := originx h k w) in *. set (oy := originy h k w) in *.
  assert (Hbox : - ox <= r_xmin r /\ r_xmin r + r_xsiz r <= d_sizex d - ox /\
                 - oy <= r_ymin r /\ r_ymin r + r_ysiz r <= d_sizey d - oy).
  { apply rect_box; [done|]. intros x y Hx. destruct (Hin (x + ox) (y + oy)) as [[??] _]; [|lia].
    apply Hsub. unfold rel. fold ox oy. by replace (x + ox - ox) with x by lia; replace (y + oy - oy) with y by lia. }
  pose proof Hp as [Hro [??]].
  destruct (shift_exact r ox oy) as (E&Hok'&Hsh); [done|lia..|].
  assert (Heq : forall x y, in_rect r' x y <-> rel h k w r x y).
  { intros x y. unfold rel, r'. fold ox oy. rewrite <- Hsh. by replace (x - ox + ox) with x by lia; replace (y - oy + oy) with y by lia. }
  split; [split; [done|unfold r'; rewrite E; cbn; lia]|]. split; [done|].
  intros x y ?. by apply Hsub, Heq.
Qed.

(** A rectangle of the display in the coordinates of a window. *)
Lemma shift_within h k w c :
  h <> Some k -> win_bounds w -> rect_pos c -> (forall x y, in_rect c x y -> in_window w x y) ->
  let c' := shift c (- w_posx w) (- w_posy w) in
  rect_pos c' /\ shift c' (w_posx w) (w_posy w) = c /\ (forall x y, rel h k w c' x y <-> in_rect c x y).
Proof.
  intros Hh (?&?&?&?&?&?) Hc Hin c'. pose proof (rect_box c _ _ _ _ Hc Hin) as Hb.
  pose proof Hc as [Hok [? ?]]. pose proof Hok as (?&?&?&?&?&?).
  destruct (shift_exact c (- w_posx w) (- w_posy w)) as (E&Hok'&Hsh); [done|lia..|].
  split; [split; [done|unfold c'; rewrite E; cbn; lia]|]. split.
  - unfold c'. rewrite <- (Z.opp_involutive (w_posx w)) at 2. rewrite <- (Z.opp_involutive (w_posy w)) at 2.
    apply shift_back; lia.
  - intros x y. unfold rel, originx, originy. rewrite !decide_False by done. unfold c'.
    replace (x - w_posx w) with (x + - w_posx w) by lia. replace (y - w_posy w) with (y + - w_posy w) by lia.
    apply Hsh.
Qed.

Definition moved_to (f : nat -> region) (k self : nat) (P : region) : nat -> region :=
  upd (upd f k (fun x y => f k x y /\ ~ P x y)) self (fun x y => f self x y \/ (f k x y /\ P x y)).
Lemma moved_to_k f k self P x y : k <> self -> moved_to f k self P k x y <-> f k x y /\ ~ P x y.
Proof. intros. unfold moved_to. by rewrite upd_other, upd_same. Qed.
Lemma moved_to_self f k self P x y : moved_to f k self P self x y <-> f self x y \/ f k x y /\ P x y.
Proof. unfold moved_to. by rewrite upd_same. Qed.
Lemma moved_to_other f k self P j : j <> k -> j <> self -> moved_to f k self P j = f j.
Proof. intros. unfold moved_to. by rewrite !upd_other. Qed.

(** Moving a part and then the rest moves the whole. *)
Lemma moved_to_seq f k self (P c : region) j x y :
  k <> self -> (forall x y, Decision (c x y)) -> (forall x y, c x y -> P x y) ->
  moved_to (moved_to f k self c) k self P j x y <-> moved_to f k self P j x y.
Proof.
  intros Hne Hd Hc. destruct (decide (j = k)) as [->|]; [|destruct (decide (j = self)) as [->|]].
  - rewrite !moved_to_k by done. specialize (Hc x y). tauto.
  - rewrite !moved_to_self, moved_to_k by done. specialize (Hc x y). destruct (Hd x y); tauto.
  - by rewrite !moved_to_other by done.
Qed.

(** One rectangle of the display is handed to a window. *)
Lemma hand_to {A} h k w (render : bool) d0 f g d c (rest : DM A) Q :
  h <> Some k -> d_zorder d0 !! k = Some w -> st h d0 f g d -> rect_pos c ->
  (forall x y, in_rect c x y -> onscreen d0 x y /\ in_window w x y) ->
  (forall d', st h d0 (upd f k (fun x y => f k x y \/ in_rect c x y)) g d' -> srun rest d' Q anyhow) ->
  srun (on_visi k (rects_insert (shift c (- w_posx w) (- w_posy w))) ≫= fun _ =>
        (if render then Window_RenderRect k (shift c (- w_posx w) (- w_posy w)) else mret tt) ≫= fun _ =>
        rest) d Q anyhow.
Proof.
  intros Hh Hk Hst Hc Hin Hrest. pose proof Hst as (_&Hf&_).
  destruct (frame_lookup _ _ _ _ Hf Hk) as [l Hl].
  pose proof (st_window _ _ _ _ _ _ _ Hst Hl) as (Hb&_&_&_).
  destruct (shift_within h k (set_visi l w) c) as (Hp&_&Hrel); [done|done|done|by intros; apply Hin|].
  cbn in Hp, Hrel. eapply run_bind.
  - eapply visi_insert; [done|done|apply Hp|]. intros x y Hx%Hrel. rewrite frame_onscreen by done.
    split; [|intros _]; by apply Hin.
  - intros [] d' Hst'. assert (Hst2 : st h d0 (upd f k (fun x y => f k x y \/ in_rect c x y)) g d').
    { eapply st_ext; [|done|exact Hst']. intros j x y. unfold upd. destruct (decide (j = k)); [|done].
      by rewrite Hrel. }
    destruct render; [|by apply srun_bind, srun_ret, Hrest]. pose proof Hst2 as (_&Hf2&_).
    destruct (frame_lookup _ _ _ _ Hf2 Hk) as [l' Hl'].
    apply (run_render _ _ _ _ _ _ Hl' Hp). intros ?. by apply Hrest, st_log.
Qed.

Section Claim.
Context (stack : rect) (self : nat) (D : rect) (render : bool) (d0 : display) (ws : window).
Context (Hself : d_zorder d0 !! self = Some ws) (HD : rect_pos D).
Context (Hin : forall x y, in_rect D x y -> onscreen d0 x y /\ in_window ws x y).

Lemma hand_to_self f g d c (rest : DM unit) Q :
  st None d0 f g d -> rect_pos c -> (forall x y, in_rect c x y -> in_rect D x y) ->
  (forall d', st None d0 (upd f self (fun x y => f self x y \/ in_rect c x y)) g d' -> srun rest d' Q anyhow) ->
  srun (on_visi self (rects_insert (shift c (- w_posx ws) (- w_posy ws))) ≫= fun _ =>
        (if render then Window_RenderRect self (shift c (- w_posx ws) (- w_posy ws)) else mret tt) ≫= fun _ =>
        rest) d Q anyhow.
Proof. intros Hst Hc Hcd. apply hand_to; try done. intros x y ?. by apply Hin, Hcd. Qed.

Lemma steal_window_ok fuel k f g d wk :
  k <> self -> d_zorder d0 !! k = Some wk -> st None d0 f g d ->
  (num (V None d k) D < fuel)%nat ->
  srun (steal_window stack fuel self k D render) d (fun _ => st None d0 (moved_to f k self (in_rect D)) g) anyhow.
Proof.
  revert f d. induction fuel as [|fuel IH]; intros f d Hne Hwk Hst Hfuel; [lia|].
  cbn [steal_window]. pose proof Hst as (Hgeo&Hf&Hlook).
  destruct (frame_lookup _ _ _ _ Hf Hwk) as [lk Hk]. destruct (frame_lookup _ _ _ _ Hf Hself) as [ls Hs].
  pose proof (st_window _ _ _ _ _ _ _ Hst Hk) as (Hb&Hok&Hcov&Hsub).
  apply (run_win _ _ _ _ _ Hk). apply (run_win _ _ _ _ _ Hs).
  cbn [w_posx w_posy set_visi w_visi].
  assert (Htile : forall r, r ∈ RECTS_FOREACH lk -> let r' := shift r (w_posx wk) (w_posy wk) in
            rect_pos r' /\ (forall x y, in_rect r' x y <-> rel None k (set_visi lk wk) r x y) /\
            forall x y, in_rect r' x y -> f k x y).
  { intros r Hr. exact (tile_ok _ _ _ _ _ _ _ _ Hst Hk Hr). }
  destruct (find_common _ _) as [[r c]|] eqn:E.
  - apply find_common_some in E as (Hr&->&Hn). destruct (Htile r Hr) as (Hr1&_&Hr3).
    set (r' := shift r _ _) in *. set (c := rect_intersect stack r' D) in *.
    assert (Hc : rect_pos c) by (apply intersect_pos; [apply Hr1|apply HD|done]).
    assert (Hci : forall x y, in_rect c x y <-> in_rect r' x y /\ in_rect D x y).
    { apply rect_intersect_ok; [apply Hr1|apply HD]. }
    destruct (shift_within None k (set_visi lk wk) c) as (Hp&Hback&Hrel); [done|done|done| |].
    { intros x y [Hx _]%Hci. destruct (Hsub x y (Hr3 x y Hx)) as [_ Hw]. by apply Hw. }
    cbn in Hp, Hback, Hrel. rewrite Hback.
    eapply run_bind; [eapply visi_remove; [done|done|apply Hp]|]. intros [] d1 Hst1.
    eapply hand_to_self; [exact Hst1|done|by intros x y []%Hci|]. intros d2 Hst2.
    assert (Hst3 : st None d0 (moved_to f k self (in_rect c)) g d2).
    { eapply st_ext; [|done|exact Hst2]. intros j x y. unfold moved_to, upd.
      destruct (decide (j = self)); [destruct (decide (self = k)); [done|]|].
      - split; [intros [?|Hx]; [by left|]|tauto]. right. split; [|done]. by apply Hr3, Hci.
      - destruct (decide (j = k)); [by rewrite Hrel|done]. }
    eapply srun_mono; [apply (IH (moved_to f k self (in_rect c))); [done|done|done|]| |done].
    + enough (num (V None d2 k) D < num (V None d k) D)%nat by lia.
      assert (HV2 : forall x y, V None d2 k x y <-> f k x y /\ ~ in_rect c x y).
      { intros x y. rewrite <- (moved_to_k f k self) by done. apply Hst3. }
      apply (num_lt _ _ _ c Hc).
      * intros x y Hx. rewrite HV2, (proj1 Hlook k x y). apply Hci in Hx as Hx'. destruct Hx'.
        split; [done|]. split; [by apply Hr3|tauto].
      * intros x y. rewrite HV2, (proj1 Hlook k x y). tauto.
    + intros [] d3. apply st_ext; [|done]. intros j x y. apply moved_to_seq; [done|apply _|by intros ?? []%Hci].
  - apply srun_ret. eapply st_ext; [|done|exact Hst]. intros j x y.
    assert (Hno : f k x y -> ~ in_rect D x y).
    { intros Hfk. apply Hcov, elem_of_foreach in Hfk as (r&Hr&Hx).
      destruct (Htile r Hr) as (Hr1&Hr2&_). eapply intersect_empty; [apply Hr1|apply HD| |by apply Hr2].
      exact (find_common_none _ _ E r Hr). }
    destruct (decide (j = k)) as [->|]; [rewrite moved_to_k by done; tauto|].
    destruct (decide (j = self)) as [->|]; [rewrite moved_to_self; tauto|by rewrite moved_to_other].
Qed.

Lemma steal_background_ok fuel f g d :
  st None d0 f g d -> (num (B d) D < fuel)%nat ->
  srun (steal_background stack fuel self D render) d
    (fun _ => st None d0 (upd f self (fun x y => f self x y \/ g x y /\ in_rect D x y))
                (fun x y => g x y /\ ~ in_rect D x y)) anyhow.
Proof.
  revert f g d. induction fuel as [|fuel IH]; intros f g d Hst Hfuel; [lia|].
  cbn [steal_background]. pose proof Hst as (Hgeo&Hf&Hlook).
  destruct (frame_lookup _ _ _ _ Hf Hself) as [ls Hs].
  pose proof (st_back _ _ _ _ _ Hst) as (Hok&Hcov&Hsub). pose proof (foreach_pos 0 _ ltac:(lia) Hok) as Hpos.
  rewrite Forall_forall in Hpos.
  apply run_dget. apply (run_win _ _ _ _ _ Hs). cbn [w_posx w_posy set_visi].
  destruct (find_common _ _) as [[r c]|] eqn:E.
  - apply find_common_some in E as (Hr&->&Hn). pose proof (Hpos r Hr) as Hr1.
    set (c := rect_intersect stack r D) in *.
    assert (Hc : rect_pos c) by (apply intersect_pos; [apply Hr1|apply HD|done]).
    assert (Hci : forall x y, in_rect c x y <-> in_rect r x y /\ in_rect D x y).
    { apply rect_intersect_ok; [apply Hr1|apply HD]. }
    assert (Hrg : forall x y, in_rect r x y -> g x y).
    { intros x y Hx. apply Hcov, elem_of_foreach. by exists r. }
    eapply run_bind; [eapply back_remove; [done|apply Hc]|]. intros [] d1 Hst1.
    eapply hand_to_self; [exact Hst1|done|by intros x y []%Hci|]. intros d2 Hst2.
    eapply srun_mono; [eapply IH; [exact Hst2|]| |done].
    + enough (num (B d2) D < num (B d) D)%nat by lia. apply (num_lt _ _ _ c Hc).
      * intros x y Hx. rewrite (proj2 (proj2 (proj2 Hst2)) x y), (proj2 Hlook x y). apply Hci in Hx as Hx'.
        destruct Hx'. split; [done|]. split; [by apply Hrg|tauto].
      * intros x y. rewrite (proj2 (proj2 (proj2 Hst2)) x y), (proj2 Hlook x y). tauto.
    + intros [] d3. apply st_ext.
      * intros j x y. unfold upd. destruct (decide (j = self)) as [->|]; [|done]. rewrite decide_True by done.
        specialize (Hrg x y). specialize (Hci x y). destruct (decide (in_rect c x y)); tauto.
      * intros x y. specialize (Hci x y). tauto.
  - apply srun_ret. assert (Hno : forall x y, g x y -> ~ in_rect D x y).
    { intros x y Hg. apply Hcov, elem_of_foreach in Hg as (r&Hr&Hx).
      eapply intersect_empty; [apply Hpos, Hr|apply HD| |done]. exact (find_common_none _ _ E r Hr). }
    eapply st_ext; [| |exact Hst].
    + intros j x y. specialize (Hno x y). unfold upd. destruct (decide (j = self)) as [->|]; [tauto|done].
    + intros x y. specialize (Hno x y). tauto.
Qed.

Fixpoint taken (f : nat -> region) (ks : list nat) : nat -> region :=
  match ks with [] => f | k :: ks => taken (moved_to f k self (in_rect D)) ks end.
Lemma taken_spec ks f j x y :
  NoDup ks -> self ∉ ks ->
  taken f ks j x y <->
    if decide (j = self) then f self x y \/ in_rect D x y /\ (exists k, k ∈ ks /\ f k x y)
    else f j x y /\ ~ (j ∈ ks /\ in_rect D x y).
Proof.
  revert f. induction ks as [|k ks IH]; intros f Hnd Hns; cbn [taken].
  { destruct (decide (j = self)) as [->|]; [|set_solver].
    split; [by left|]. intros [?|(_&k&[]%not_elem_of_nil&_)]; done. }
  apply NoDup_cons in Hnd as [Hk Hnd]. apply not_elem_of_cons in Hns as [Hne Hns]. rewrite IH by done.
  destruct (decide (j = self)) as [->|Hj].
  - rewrite moved_to_self. split.
    + intros [[?|[??]]|(?&k'&Hk'&Hf)]; [by left|right; set_solver|]. right. split; [done|].
      exists k'. rewrite moved_to_other in Hf by set_solver. set_solver.
    + intros [?|(?&k'&[->|Hk']%elem_of_cons&Hf)]; [tauto|left; by right|]. right. split; [done|].
      exists k'. rewrite moved_to_other by set_solver. done.
  - destruct (decide (j = k)) as [->|]; [rewrite moved_to_k by done; set_solver|].
    rewrite moved_to_other by done. set_solver.
Qed.

Definition claimed (f : nat -> region) (g : region) : nat -> region := fun j x y =>
  if decide (j = self) then f self x y \/ in_rect D x y /\ (g x y \/ exists k, (self < k)%nat /\ f k x y)
  else f j x y /\ ~ ((self < j)%nat /\ in_rect D x y).

Lemma st_beyond h f g d k x y : st h d0 f g d -> f k x y -> (k < length (d_zorder d0))%nat.
Proof.
  intros (_&Hf&Hl&_) Hk. apply Hl in Hk. unfold V in Hk. rewrite <- (frame_length _ _ Hf).
  destruct (d_zorder d !! k) eqn:E; [by eapply lookup_lt_Some|done].
Qed.

Lemma Window_ClaimVisibility_ok f g d :
  st None d0 f g d ->
  srun (Window_ClaimVisibility stack self D render) d
    (fun _ => st None d0 (claimed f g) (fun x y => g x y /\ ~ in_rect D x y)) anyhow.
Proof.
  intros Hst. unfold Window_ClaimVisibility. pose proof HD as [(?&?&?&?&?&?) [? ?]].
  apply run_dcheck; [unfold nonempty; lia|]. apply run_dget.
  assert (Hlen : length (d_zorder d) = length (d_zorder d0)) by apply frame_length, Hst.
  assert (Hks : forall k, k ∈ behind self d <-> (self < k < length (d_zorder d0))%nat).
  { intros k. unfold behind. rewrite elem_of_seq, Hlen. lia. }
  eapply (run_bind _ _ _ (fun _ => st None d0 (taken f (behind self d)) g)).
  { assert (Hall : forall k, k ∈ behind self d -> k <> self /\ (k < length (d_zorder d0))%nat) by (intros k ?%Hks; lia).
    clear Hks. revert f d Hst Hall Hlen. intros f d. generalize (behind self d) as ks. intros ks. revert f d.
    induction ks as [|k ks IH]; intros f d Hst Hall Hlen; cbn [each_rect taken]; [by apply srun_ret|].
    destruct (Hall k ltac:(left)) as [Hne [wk Hwk]%lookup_lt_is_Some].
    eapply run_bind; [eapply steal_window_ok; [done|done|exact Hst|by apply num_fuel]|].
    intros [] d' Hst'. apply IH; [done|set_solver|]. apply frame_length, Hst'. }
  intros [] d' Hst'. eapply srun_mono; [eapply steal_background_ok; [exact Hst'|by apply num_fuel]| |done].
  intros [] d''. apply st_ext; [|done]. intros j x y. unfold upd, claimed.
  assert (Hnd : NoDup (behind self d)) by apply NoDup_seq.
  assert (Hns : self ∉ behind self d) by (intros ?%Hks; lia).
  destruct (decide (j = self)) as [->|Hj]; rewrite taken_spec by done; [rewrite decide_True by done|rewrite decide_False by done].
  - setoid_rewrite Hks. split.
    + intros [[?|(?&k&?&?)]|[??]]; [by left|right|right; tauto]. split; [done|]. right. exists k. split; [lia|done].
    + intros [?|(?&[?|(k&?&Hk)])]; [tauto|tauto|]. left. right. split; [done|]. exists k. split; [|done].
      split; [done|]. exact (st_beyond _ _ _ _ _ _ _ Hst Hk).
  - rewrite Hks. split; intros [Hf Hn]; (split; [done|]); intros [? ?]; apply Hn.
    + split; [split; [lia|exact (st_beyond _ _ _ _ _ _ _ Hst Hf)]|done].
    + split; [lia|done].
Qed.
End Claim.

(** ** Handing points to the windows behind *)
Definition area (d : display) (k : nat) : region := fun x y =>
  match d_zorder d !! k with Some w => in_rect (w_disparea w) x y | None => False end.
#[export] Instance area_dec d k x y : Decision (area d k x y).
Proof. unfold area. destruct (d_zorder d !! k); apply _. Defined.
(** The display areas lie on the display and in their windows. *)
Definition areas_ok (d : display) : Prop := forall k w, d_zorder d !! k = Some w ->
  rect_ok (w_disparea w) /\ forall x y, in_rect (w_disparea w) x y -> onscreen d x y /\ in_window w x y.

Definition areas_behind (self : nat) (d : display) : Prop := forall k w, (self < k)%nat -> d_zorder d !! k = Some w ->
  rect_ok (w_disparea w) /\ forall x y, in_rect (w_disparea w) x y -> onscreen d x y /\ in_window w x y.

(** [j] is the first of [ks] whose area has the point. *)
Fixpoint first_in (d : display) (ks : list nat) (j : nat) (x y : Z) : Prop :=
  match ks with
  | [] => False
  | k :: ks => (j = k /\ area d k x y) \/ (~ area d k x y /\ first_in d ks j x y)
  end.
Lemma first_in_seq d a n j x y :
  first_in d (seq a n) j x y <-> (a <= j < a + n)%nat /\ area d j x y /\ forall i, (a <= i < j)%nat -> ~ area d i x y.
Proof.
  revert a. induction n as [|n IH]; intros a; cbn; [lia|]. rewrite IH. split.
  - intros [[-> ?]|(Hn&?&?&Hi)]; [split; [lia|]; split; [done|]; lia|].
    split; [lia|]. split; [done|]. intros i ?. destruct (decide (i = a)) as [->|]; [done|]. apply Hi. lia.
  - intros (?&?&Hi). destruct (decide (j = a)) as [->|]; [by left|]. right. split; [apply Hi; lia|].
    split; [lia|]. split; [done|]. intros i ?. apply Hi. lia.
Qed.
Lemma first_in_area d ks j x y : first_in d ks j x y -> j ∈ ks /\ area d j x y.
Proof. induction ks as [|k ks IH]; cbn; [done|]. intros [[-> ?]|[? ?%IH]]; set_solver. Qed.

Section Hide.
Context (stack : rect) (self : nat) (d0 : display) (Hareas : areas_ok d0).
Notation hst := (st (Some self) d0).

Lemma hide_loop_ok fuel k f g d ws wk :
  k <> self -> d_zorder d0 !! self = Some ws -> d_zorder d0 !! k = Some wk -> hst f g d ->
  (num (V (Some self) d self) (w_disparea wk) < fuel)%nat ->
  srun (hide_loop stack fuel self k) d (fun _ => hst (moved_to f self k (area d0 k)) g) anyhow.
Proof.
  intros Hne Hws Hwk. destruct (Hareas _ _ Hwk) as [HA HAin].
  assert (Harea : forall x y, area d0 k x y <-> in_rect (w_disparea wk) x y) by (intros; unfold area; by rewrite Hwk).
  revert f d. induction fuel as [|fuel IH]; intros f d Hst Hfuel; [lia|].
  cbn [hide_loop]. pose proof Hst as (Hgeo&Hf&Hlook).
  destruct (frame_lookup _ _ _ _ Hf Hwk) as [lk Hk]. destruct (frame_lookup _ _ _ _ Hf Hws) as [ls Hs].
  pose proof (st_window _ _ _ _ _ _ _ Hst Hs) as (Hb&Hok&Hcov&Hsub).
  apply (run_win _ _ _ _ _ Hs). apply (run_win _ _ _ _ _ Hk). cbn [w_posx w_posy set_visi w_visi w_disparea].
  assert (Ho : originx (Some self) self (set_visi ls ws) = 0 /\ originy (Some self) self (set_visi ls ws) = 0).
  { unfold originx, originy. by rewrite !decide_True. }
  destruct Ho as [Hox Hoy].
  assert (Hrelz : forall c x y, rel (Some self) self (set_visi ls ws) c x y <-> in_rect c x y).
  { intros c x y. unfold rel. by rewrite Hox, Hoy, !Z.sub_0_r. }
  pose proof (foreach_pos 0 _ ltac:(lia) Hok) as Hpos. rewrite Forall_forall in Hpos. cbn in Hpos.
  assert (Hcov' : forall x y, cov ls x y <-> f self x y).
  { intros x y. rewrite <- Hcov, Hox, Hoy, !Z.sub_0_r. done. }
  destruct (find_common _ _) as [[r c]|] eqn:E.
  - apply find_common_some in E as (Hr&->&Hn). pose proof (Hpos r Hr) as Hr1.
    set (c := rect_intersect stack r (w_disparea wk)) in *.
    assert (Hc : rect_pos c) by (apply intersect_pos; [apply Hr1|done|done]).
    assert (Hci : forall x y, in_rect c x y <-> in_rect r x y /\ in_rect (w_disparea wk) x y).
    { apply rect_intersect_ok; [apply Hr1|done]. }
    assert (Hrf : forall x y, in_rect r x y -> f self x y).
    { intros x y Hx. apply Hcov', elem_of_foreach. by exists r. }
    eapply run_bind; [eapply visi_remove; [done|done|apply Hc]|]. intros [] d1 Hst1.
    eapply (hand_to (Some self) k wk true); [congruence|done|exact Hst1|done| |].
    { intros x y [_ ?]%Hci. by apply HAin. }
    intros d2 Hst2.
    assert (Hst3 : hst (moved_to f self k (in_rect c)) g d2).
    { eapply st_ext; [|done|exact Hst2]. intros j x y. unfold moved_to, upd.
      destruct (decide (j = k)); [destruct (decide (k = self)); [done|]|].
      - split; [intros [?|Hx]; [by left|]|tauto]. right. split; [|done]. by apply Hrf, Hci.
      - destruct (decide (j = self)); [by rewrite Hrelz|done]. }
    eapply srun_mono; [eapply IH; [exact Hst3|]| |done].
    + enough (num (V (Some self) d2 self) (w_disparea wk) < num (V (Some self) d self) (w_disparea wk))%nat by lia.
      assert (HV2 : forall x y, V (Some self) d2 self x y <-> f self x y /\ ~ in_rect c x y).
      { intros x y. rewrite <- (moved_to_k f self k) by done. apply Hst3. }
      apply (num_lt _ _ _ c Hc).
      * intros x y Hx. rewrite HV2, (proj1 Hlook self x y). apply Hci in Hx as Hx'. destruct Hx'.
        split; [done|]. split; [by apply Hrf|tauto].
      * intros x y. rewrite HV2, (proj1 Hlook self x y). tauto.
    + intros [] d3. apply st_ext; [|done]. intros j x y.
      apply moved_to_seq; [done|apply _|]. intros ?? []%Hci. by apply Harea.
  - apply srun_ret. eapply st_ext; [|done|exact Hst]. intros j x y.
    assert (Hno : f self x y -> ~ area d0 k x y).
    { rewrite Harea. intros Hfk. apply Hcov', elem_of_foreach in Hfk as (r&Hr&Hx).
      eapply intersect_empty; [apply Hpos, Hr|done| |done]. exact (find_common_none _ _ E r Hr). }
    destruct (decide (j = self)) as [->|]; [rewrite moved_to_k by done; tauto|].
    destruct (decide (j = k)) as [->|]; [rewrite moved_to_self; tauto|by rewrite moved_to_other].
Qed.

Fixpoint passed (f : nat -> region) (ks : list nat) : nat -> region :=
  match ks with [] => f | k :: ks => passed (moved_to f self k (area d0 k)) ks end.
Lemma passed_spec ks f j x y :
  self ∉ ks ->
  passed f ks j x y <->
    if decide (j = self) then f self x y /\ ~ (exists k, k ∈ ks /\ area d0 k x y)
    else f j x y \/ f self x y /\ first_in d0 ks j x y.
Proof using Type.
  clear Hareas.
  revert f. induction ks as [|k ks IH]; intros f Hns; cbn [passed first_in].
  { destruct (decide (j = self)) as [->|]; [set_solver|tauto]. }
  apply not_elem_of_cons in Hns as [Hne Hns]. rewrite IH by done.
  destruct (decide (j = self)) as [->|Hj]; rewrite moved_to_k by done; [set_solver|].
  destruct (decide (j = k)) as [->|]; [rewrite moved_to_self|rewrite moved_to_other by done]; tauto.
Qed.
Lemma hide_all_ok ks f g d ws :
  d_zorder d0 !! self = Some ws -> hst f g d ->
  (forall k, k ∈ ks -> k <> self /\ (k < length (d_zorder d0))%nat) ->
  srun (each_rect ks (fun k => lower ← win k; hide_loop stack (area_fuel (w_disparea lower)) self k)) d
    (fun _ => hst (passed f ks) g) anyhow.
Proof.
  intros Hws. revert f d. induction ks as [|k ks IH]; intros f d Hst Hall; cbn [each_rect passed]; [by apply srun_ret|].
  destruct (Hall k ltac:(left)) as [Hne [wk Hwk]%lookup_lt_is_Some].
  destruct (frame_lookup _ _ _ _ (proj1 (proj2 Hst)) Hwk) as [lk Hk]. destruct (Hareas _ _ Hwk) as [(?&?&?&?&?&?) _].
  eapply run_bind.
  { apply (run_win _ _ _ _ _ Hk). eapply hide_loop_ok; [done|done|done|done|]. cbn. by apply num_fuel. }
  intros [] d' Hst'. apply IH; [done|]. set_solver.
Qed.
End Hide.

Lemma hand_to_background h d0 r f g d :
  st h d0 f g d -> rect_pos r -> (forall x y, in_rect r x y -> onscreen d0 x y) ->
  srun (on_back (rects_insert r) ≫= fun _ => Display_RenderBackground r) d
    (fun _ => st h d0 f (fun x y => g x y \/ in_rect r x y)) anyhow.
Proof.
  intros Hst Hr Hon. eapply run_bind.
  { eapply back_insert; [done|apply Hr|]. intros x y ?. rewrite frame_onscreen by apply Hst. by apply Hon. }
  intros [] d' Hst'. destruct Hr as [_ [Hx Hy]]. unfold Display_RenderBackground.
  apply run_dget. unfold Copy_Rect. apply run_dcheck; [clear -Hx; cbn; lia|]. by apply st_log.
Qed.
Lemma inherit_background_ok h d0 l f g d :
  st h d0 f g d -> (forall r, r ∈ l -> rect_pos r /\ forall x y, in_rect r x y -> onscreen d0 x y) ->
  srun (inherit_background l) d (fun _ => st h d0 f (fun x y => g x y \/ exists r, r ∈ l /\ in_rect r x y)) anyhow.
Proof.
  unfold inherit_background. revert g d. induction l as [|r l IH]; intros g d Hst Hl; cbn [each_rect].
  { apply srun_ret. eapply st_ext; [done| |exact Hst]. set_solver. }
  destruct (Hl r ltac:(left)) as [Hr Hon]. eapply run_bind; [by apply hand_to_background|].
  intros [] d' Hst'. eapply srun_mono; [eapply IH; [exact Hst'|intros r' ?; apply Hl; by right]| |done].
  intros [] d''. apply st_ext; [done|]. intros x y. setoid_rewrite elem_of_cons. clear. naive_solver.
Qed.

(** ** Releasing a part of a window *)
Section Release.
Context (stack : rect) (self : nat) (d0 : display) (Hareas : areas_behind self d0).
Notation rst := (st None d0).

(** What the windows behind [self] get of [S]. *)
Definition inherited (S : region) (f : nat -> region) : nat -> region := fun j x y =>
  f j x y \/ (self < j)%nat /\ S x y /\ first_in d0 (seq (1 + self) (length (d_zorder d0) - (1 + self))) j x y.
Definition uncovered (S : region) : region := fun x y =>
  S x y /\ forall j, (self < j)%nat -> ~ area d0 j x y.

Lemma collect_parts_ok l w W parts f g d :
  rst f g d -> strips_ok 0 parts -> rect_ok W ->
  (forall r, r ∈ l -> rect_pos r /\ forall x y, in_rect r x y -> onscreen d0 (x + w_posx w) (y + w_posy w)) ->
  srun (collect_parts stack l (w_posx w) (w_posy w) W parts) d
    (fun parts' d' => rst f g d' /\ strips_ok 0 parts' /\
       forall x y, cov parts' x y <-> cov parts x y \/
         in_rect W (x - w_posx w) (y - w_posy w) /\ exists r, r ∈ l /\ in_rect r (x - w_posx w) (y - w_posy w)) anyhow.
Proof.
  intros Hst Hparts HW. revert parts d Hst Hparts. induction l as [|r l IH]; intros parts d Hst Hparts Hl; cbn [collect_parts].
  { apply srun_ret. split; [done|]. split; [done|]. set_solver. }
  destruct (Hl r ltac:(left)) as [Hr Hon].
  assert (Hsz : 0 <= d_sizex d0 <= COORD_MAX /\ 0 <= d_sizey d0 <= COORD_MAX).
  { pose proof (geo_size _ _ (proj1 Hst)) as Hs. destruct (proj1 (proj2 Hst)) as (E1&E2&_). by rewrite <- E1, <- E2. }
  destruct (rect_intersect_ok stack r W (proj1 Hr) HW) as [Hci Hcp]. set (c := rect_intersect stack r W) in *.
  assert (Hins : srun (rects_insert (shift c (w_posx w) (w_posy w))) (MkRects parts (d_mem d))
    (fun _ s => strips_ok 0 (r_strips s) /\ forall x y, cov (r_strips s) x y <->
       cov parts x y \/ in_rect c (x - w_posx w) (y - w_posy w)) (fun _ _ => True)).
  { destruct (rect_empty c) eqn:E.
    - unfold rects_insert. apply run_check_rects_any; [done|]. unfold rect_empty in E.
      change (r_xsiz (shift c _ _)) with (r_xsiz c). change (r_ysiz (shift c _ _)) with (r_ysiz c). rewrite E.
      apply srun_bind, srun_ret. apply check_rects_ok; [done|]. split; [done|]. cbn. intros x y.
      unfold in_rect. intuition lia.
    - specialize (Hcp eq_refl).
      assert (Hbox : - w_posx w <= r_xmin c /\ r_xmin c + r_xsiz c <= d_sizex d0 - w_posx w /\
                     - w_posy w <= r_ymin c /\ r_ymin c + r_ysiz c <= d_sizey d0 - w_posy w).
      { apply rect_box; [done|]. intros x y [Hx _]%Hci. destruct (Hon x y Hx). lia. }
      destruct (shift_exact c (w_posx w) (w_posy w)) as (_&Hok'&Hsh); [apply Hcp|lia..|].
      eapply srun_mono; [by apply rects_insert_ok| |done]. intros [] s [? Hs]. split; [done|].
      intros x y. rewrite Hs. unfold join. cbn. rewrite <- Hsh.
      by replace (x - w_posx w + w_posx w) with x by lia; replace (y - w_posy w + w_posy w) with y by lia. }
  eapply run_bind; [by apply on_local_ok|]. intros parts' d' (s&[Hok Hs]&->&->).
  eapply srun_mono; [apply IH; [by apply st_mem|done|intros r' ?; apply Hl; by right]| |done].
  intros parts' d' (?&?&Hc'). split; [done|]. split; [done|]. intros x y. rewrite Hc', Hs, Hci.
  setoid_rewrite elem_of_cons. clear. naive_solver.
Qed.

Lemma first_in_unique ks j j' x y : first_in d0 ks j x y -> first_in d0 ks j' x y -> j = j'.
Proof. induction ks; cbn; [done|]. intros [[-> ?]|[??]] [[-> ?]|[??]]; (done || tauto). Qed.
Lemma first_in_mid ks1 k ks2 x y :
  area d0 k x y -> (forall j, j ∈ ks1 -> ~ area d0 j x y) -> first_in d0 (ks1 ++ k :: ks2) k x y.
Proof.
  intros Hk. induction ks1 as [|j ks1 IH]; intros Hn; cbn; [by left|]. right.
  split; [apply Hn; left|]. apply IH. intros i ?. apply Hn. by right.
Qed.

(** The heirs, by the areas of the windows. *)
Lemma area_frame f g d k : rst f g d -> (self < k < length (d_zorder d0))%nat ->
  exists wk lk, d_zorder d0 !! k = Some wk /\ d_zorder d !! k = Some (set_visi lk wk) /\ rect_ok (w_disparea wk) /\
    forall x y, area d0 k x y <-> in_rect (w_disparea wk) x y.
Proof.
  intros Hst [? [wk Hk]%lookup_lt_is_Some]. exists wk.
  destruct (frame_lookup _ _ _ _ (proj1 (proj2 Hst)) Hk) as [lk Hlk]. exists lk.
  do 2 (split; [done|]). split; [by apply (Hareas k)|]. intros. unfold area. by rewrite Hk.
Qed.
Lemma behind_frame f g d k : rst f g d -> k ∈ behind self d <-> (self < k < length (d_zorder d0))%nat.
Proof. intros Hst. unfold behind. rewrite elem_of_seq, (frame_length d0 d) by apply Hst. lia. Qed.
Lemma no_common f g d k r x y :
  rst f g d -> rect_pos r -> k ∈ behind self d ->
  nonempty match d_zorder d !! k with Some iter => rect_intersect stack r (w_disparea iter) | None => MkRect 0 0 0 0 end
    = false -> in_rect r x y -> ~ area d0 k x y.
Proof.
  intros Hst Hr Hk. apply (behind_frame _ _ _ _ Hst) in Hk.
  destruct (area_frame _ _ _ _ Hst Hk) as (wk&lk&_&->&HA&Har). rewrite Har. cbn.
  intros Hn Hx. by eapply intersect_empty; [apply Hr|..].
Qed.
Lemma find_heir_none f g d l : rst f g d -> (forall r, r ∈ l -> rect_pos r) -> find_heir stack d self l = None ->
  forall r k x y, r ∈ l -> (self < k)%nat -> in_rect r x y -> ~ area d0 k x y.
Proof.
  intros Hst Hpos. induction l as [|r l IH]; cbn; [by intros _ ???? []%not_elem_of_nil|].
  destruct (find_common _ _) eqn:E; [done|]. intros Hl r' k x y [->|Hr]%elem_of_cons Hk Hx Ha.
  - assert (Hlt : (k < length (d_zorder d0))%nat).
    { unfold area in Ha. destruct (d_zorder d0 !! k) eqn:E'; [by eapply lookup_lt_Some|done]. }
    revert Ha. eapply no_common; [exact Hst|apply Hpos; left| | |done]; [by apply (behind_frame _ _ _ _ Hst)|].
    apply (find_common_none _ _ E). by apply (behind_frame _ _ _ _ Hst).
  - revert Ha. eapply IH; try done. intros r0 ?. apply Hpos. by right.
Qed.
Lemma find_heir_some f g d l k c : rst f g d -> (forall r, r ∈ l -> rect_pos r) -> find_heir stack d self l = Some (k, c) ->
  (self < k < length (d_zorder d0))%nat /\ rect_pos c /\
  exists r, r ∈ l /\ (forall x y, in_rect c x y -> in_rect r x y /\ first_in d0 (behind self d) k x y).
Proof.
  intros Hst Hpos. induction l as [|r l IH]; cbn; [done|].
  destruct (find_common _ _) as [[k' c']|] eqn:E.
  - intros [= -> ->]. apply find_common_first in E as (ks1&ks2&Hks&->&Hn&Hempty).
    assert (Hr : rect_pos r) by (apply Hpos; left).
    assert (Hk : (self < k < length (d_zorder d0))%nat).
    { apply (behind_frame _ _ _ _ Hst). rewrite Hks. set_solver. }
    destruct (area_frame _ _ _ _ Hst Hk) as (wk&lk&_&Hz&HA&Har). rewrite Hz in *. cbn [w_disparea set_visi] in *.
    split; [done|]. split; [by apply intersect_pos; [apply Hr|..]|]. exists r. split; [left|].
    intros x y [Hx1 Hx2]%rect_intersect_ok; [|apply Hr|done]. split; [done|]. rewrite Hks.
    apply first_in_mid; [by apply Har|]. intros j Hj. eapply no_common; [exact Hst|done| |by apply Hempty|done].
    rewrite Hks. set_solver.
  - intros (?&?&r'&?&?)%IH; [|intros r0 ?; apply Hpos; by right]. split; [done|]. split; [done|].
    exists r'. split; [by right|done].
Qed.

Lemma inherit_parts_ok fuel W f g d parts :
  rst f g d -> strips_ok 0 parts -> (forall x y, cov parts x y -> in_rect W x y) ->
  (num (cov parts) W < fuel)%nat ->
  srun (inherit_parts stack fuel self parts) d
    (fun parts' d' => rst (inherited (cov parts) f) g d' /\ strips_ok 0 parts' /\
       forall x y, cov parts' x y <-> uncovered (cov parts) x y) anyhow.
Proof.
  revert f d parts. induction fuel as [|fuel IH]; intros f d parts Hst Hok HW Hfuel; [lia|].
  cbn [inherit_parts]. apply run_dget.
  pose proof (foreach_pos 0 _ ltac:(lia) Hok) as Hpos. rewrite Forall_forall in Hpos.
  assert (Hbh : behind self d = seq (1 + self) (length (d_zorder d0) - (1 + self))).
  { unfold behind. by rewrite (frame_length d0 d) by apply Hst. }
  destruct (find_heir _ _ _ _) as [[k c]|] eqn:E.
  - apply (find_heir_some _ _ _ _ _ _ Hst Hpos) in E as (Hk&Hc&r&Hr&Hcr).
    destruct (area_frame _ _ _ _ Hst Hk) as (wk&lk&Hz0&Hz&_&Har).
    assert (HcS : forall x y, in_rect c x y -> cov parts x y).
    { intros x y [Hx _]%Hcr. apply elem_of_foreach. by exists r. }
    assert (Hin : forall x y, in_rect c x y -> onscreen d0 x y /\ in_window wk x y).
    { intros x y [_ Hx]%Hcr. apply first_in_area in Hx as [_ Hx%Har]. apply (Hareas k); [lia|done|done]. }
    apply (run_win _ _ _ _ _ Hz). cbn [w_posx w_posy set_visi].
    pose proof (st_window _ _ _ _ _ _ _ Hst Hz) as (Hb&_).
    destruct (shift_within None k (set_visi lk wk) c) as (_&Hback&_); [done|done|done|by intros; apply Hin|].
    cbn in Hback. rewrite Hback. eapply (hand_to None k wk true); [done|done|done|done|done|].
    intros d1 Hst1. eapply run_bind.
    { apply on_local_ok. apply srun_weaken with (R := fun _ => part shrinks (MkRects parts (d_mem d1)) c).
      apply rects_remove_ok; [done|apply Hc]. }
    intros parts' d2 (s&[Hok' Hs]&->&->). cbn in Hs. unfold minus in Hs.
    eapply srun_mono; [eapply IH; [apply st_mem, Hst1|done| |]| |done].
    + intros x y [? _]%Hs. by apply HW.
    + enough (num (cov (r_strips s)) W < num (cov parts) W)%nat by lia. apply (num_lt _ _ _ c Hc).
      * intros x y Hx. rewrite Hs. pose proof (HcS x y Hx). split; [by apply HW|]. tauto.
      * intros x y. rewrite Hs. tauto.
    + intros parts'' d3 (Hst3&?&Hc3). split; [|split; [done|]].
      * eapply st_ext; [|done|exact Hst3]. intros j x y. unfold inherited, upd. rewrite Hs, <- Hbh.
        specialize (Hcr x y). specialize (HcS x y). destruct (decide (j = k)) as [->|Hj].
        -- destruct (decide (in_rect c x y)); [|tauto]. split; [|tauto]. intros _. right. split; [lia|]. tauto.
        -- split; [tauto|]. intros [?|(?&?&Hfi)]; [by left|]. right. split; [done|]. split; [|done].
           split; [done|]. intros [_ Hx]%Hcr. apply Hj. exact (first_in_unique _ _ _ _ _ Hfi Hx).
      * intros x y. rewrite Hc3. unfold uncovered. rewrite Hs. split; [tauto|]. intros [? Hn]. split; [|done].
        split; [done|]. intros Hx%Hcr. destruct Hx as [_ [_ Hx]%first_in_area]. apply (Hn k); [lia|done].
  - apply srun_ret. pose proof (find_heir_none _ _ _ _ Hst Hpos E) as Hno.
    assert (Hno' : forall k x y, cov parts x y -> (self < k)%nat -> ~ area d0 k x y).
    { intros k x y (r&Hr&Hx)%elem_of_foreach Hk. by eapply Hno. }
    split; [|split; [done|]].
    + eapply st_ext; [|done|exact Hst]. intros j x y. unfold inherited. split; [tauto|].
      intros [?|(?&Hx&Hfi)]; [done|]. apply first_in_area in Hfi as [_ Hfi]. by apply Hno' in Hfi.
    + intros x y. unfold uncovered. split; [|tauto]. intros Hx. split; [done|]. intros j ?. by apply Hno'.
Qed.

Lemma Window_RemoveAndInheritVisibility_ok W f g d ws :
  d_zorder d0 !! self = Some ws -> rst f g d -> rect_pos W ->
  let S : region := fun x y => f self x y /\ in_rect W (x - w_posx ws) (y - w_posy ws) in
  srun (Window_RemoveAndInheritVisibility stack self W) d
    (fun _ => rst (inherited S (upd f self (fun x y => f self x y /\ ~ S x y)))
                  (fun x y => g x y \/ uncovered S x y)) anyhow.
Proof.
  intros Hws Hst HW S. unfold Window_RemoveAndInheritVisibility. pose proof HW as [HW0 [? ?]].
  apply run_dcheck; [unfold nonempty; lia|].
  destruct (frame_lookup _ _ _ _ (proj1 (proj2 Hst)) Hws) as [ls Hs]. apply (run_win _ _ _ _ _ Hs).
  pose proof (st_window _ _ _ _ _ _ _ Hst Hs) as (_&Hok&Hcov&Hsub). cbn [w_visi w_posx w_posy set_visi] in *.
  change (originx None self (set_visi ls ws)) with (w_posx ws) in Hcov.
  change (originy None self (set_visi ls ws)) with (w_posy ws) in Hcov.
  eapply run_bind; [by eapply visi_check|]. intros [] d1 Hst1. eapply run_bind.
  { apply (collect_parts_ok _ ws W [] f g d1 Hst1); [done|done|]. intros r Hr.
    pose proof (foreach_pos 0 _ ltac:(lia) Hok) as Hpos. rewrite Forall_forall in Hpos.
    split; [by apply Hpos|]. intros x y Hx. rewrite <- (frame_onscreen d0 d) by apply Hst. apply Hsub, Hcov.
    replace (x + w_posx ws - w_posx ws) with x by lia. replace (y + w_posy ws - w_posy ws) with y by lia.
    apply elem_of_foreach. by exists r. }
  intros parts d2 (Hst2&Hp&Hpc).
  assert (HpS : forall x y, cov parts x y <-> S x y).
  { intros x y. rewrite Hpc, cov_nil, <- elem_of_foreach. unfold S. rewrite Hcov. tauto. }
  destruct (frame_lookup _ _ _ _ (proj1 (proj2 Hst2)) Hws) as [l2 Hs2].
  eapply run_bind; [eapply visi_remove; [done|done|apply HW]|]. intros [] d3 Hst3.
  eapply run_bind.
  { apply (inherit_parts_ok _ (MkRect (r_xmin W + w_posx ws) (r_ymin W + w_posy ws) (r_xsiz W) (r_ysiz W)) _ _ _ _ Hst3 Hp).
    - intros x y [_ Hx]%HpS. unfold in_rect in *. cbn. lia.
    - unfold area_fuel. apply (num_fuel _ (MkRect _ _ (r_xsiz W) (r_ysiz W))); cbn; lia. }
  intros parts' d4 (Hst4&Hp'&Hpc').
  pose proof (foreach_pos 0 _ ltac:(lia) Hp') as Hpos'. rewrite Forall_forall in Hpos'.
  eapply run_bind.
  { apply (inherit_background_ok _ _ _ _ _ _ Hst4). intros r Hr. split; [by apply Hpos'|].
    intros x y Hx. assert (Hc : cov parts' x y) by (apply elem_of_foreach; by exists r).
    apply Hpc' in Hc as [[Hx' _]%HpS _]. rewrite <- (frame_onscreen d0 d) by apply Hst. by apply Hsub. }
  intros [] d5 Hst5. eapply run_bind.
  { apply (on_local_ok _ _ _ (fun _ s => True)). by apply check_rects_ok. }
  intros l d6 (s&_&->&->). apply srun_ret, st_mem. eapply st_ext; [| |exact Hst5].
  - intros j x y. unfold inherited. rewrite HpS. unfold upd. destruct (decide (j = self)); [|done].
    unfold S. change (rel None self (set_visi l2 ws) W x y) with (in_rect W (x - w_posx ws) (y - w_posy ws)).
    tauto.
  - intros x y. cbv beta. rewrite <- (elem_of_foreach parts'), Hpc'. unfold uncovered. by rewrite HpS.
Qed.
End Release.
