(* ===== verification/WindowStack.v ===== *)
(** The stacking of windows: every point of the display belongs to the first window in
    Z-order whose display area has it, and to the background if there is none.

    [stacked a s f g] states this for areas [a], the screen [s], visible sets [f] and the
    background [g]; claiming and releasing points keep it for the new areas. *)
From S2P Require Import Prelude.
From stdpp Require Import sets list list_numbers.
From S2P Require Import Rect RectBlocks RectStrips RectProps Window WindowVis.
Open Scope Z_scope.

Definition stacked (a : nat -> region) (s : region) (f : nat -> region) (g : region) : Prop :=
  (forall k x y, f k x y <-> a k x y /\ forall j, (j < k)%nat -> ~ a j x y) /\
  (forall x y, g x y <-> s x y /\ forall j, ~ a j x y).

(** Areas that can be decided, with finitely many of them not empty. *)
Record finite_areas (n : nat) (a : nat -> region) : Prop := {
  fa_dec k x y : a k x y \/ ~ a k x y;
  fa_lt k x y : a k x y -> (k < n)%nat
}.

Lemma first_area n a x y : finite_areas n a ->
  (forall j, ~ a j x y) \/ exists j, a j x y /\ forall i, (i < j)%nat -> ~ a i x y.
Proof.
  intros [Hd Hlt].
  assert (H : forall m, (forall j, (j < m)%nat -> ~ a j x y) \/ exists j, a j x y /\ forall i, (i < j)%nat -> ~ a i x y).
  { induction m as [|m [IH|IH]]; [left; lia| |by right].
    destruct (Hd m x y) as [?|Hn]; [right; by exists m|]. left. intros j ?.
    destruct (decide (j = m)) as [->|]; [done|]. apply IH. lia. }
  destruct (H n) as [Hn|?]; [|by right]. left. intros j Hj. apply (Hn j); [by eapply Hlt|done].
Qed.

Lemma claim_stacked n a s f g self D :
  finite_areas n a -> stacked a s f g -> (forall x y, in_rect D x y -> s x y) ->
  stacked (upd a self (fun x y => a self x y \/ in_rect D x y)) s
    (claimed self D f g) (fun x y => g x y /\ ~ in_rect D x y).
Proof.
  intros Hfa [Hf Hg] HD. split.
  - intros k x y. unfold claimed, upd. destruct (decide (k = self)) as [->|Hk].
    + setoid_rewrite Hf. setoid_rewrite Hg. split.
      * intros [[? Hj]|(?&[[? Hj]|(k&?&?&Hj)])]; (split; [tauto|]); intros j ?; rewrite decide_False by lia;
          apply Hj; lia.
      * intros [Ha Hj]. assert (Hj' : forall j, (j < self)%nat -> ~ a j x y).
        { intros j ?. specialize (Hj j). rewrite decide_False in Hj by lia. auto. }
        destruct (fa_dec _ _ Hfa self x y) as [?|Hn]; [by left|]. destruct Ha as [?|Hd]; [done|]. right. split; [done|].
        destruct (first_area _ _ x y Hfa) as [?|(k&Hk&Hmin)]; [left; auto|]. right. exists k. split; [|done].
        destruct (decide (k < self)%nat); [by apply Hj' in Hk|]. destruct (decide (k = self)) as [->|]; [done|lia].
    + rewrite Hf. split.
      * intros [[? Hj] Hn]. split; [done|]. intros j ?. destruct (decide (j = self)) as [->|]; [|by apply Hj].
        intros [?|?]; [by apply (Hj self)|]. by apply Hn.
      * intros [? Hj]. split.
        -- split; [done|]. intros j ?. specialize (Hj j). destruct (decide (j = self)) as [->|]; tauto.
        -- intros [? ?]. specialize (Hj self). rewrite decide_True in Hj by done. tauto.
  - intros x y. rewrite Hg. unfold upd. split.
    + intros [[? Hj] Hn]. split; [done|]. intros j. destruct (decide (j = self)) as [->|]; [|by apply Hj].
      intros [?|?]; [by apply (Hj self)|done].
    + intros [? Hj]. split.
      * split; [done|]. intros j. specialize (Hj j). destruct (decide (j = self)) as [->|]; tauto.
      * specialize (Hj self). rewrite decide_True in Hj by done. tauto.
Qed.

(** The windows behind inherit what [self] gives up. *)
Lemma release_stacked n a s f g self d0 (W : region) :
  finite_areas n a -> stacked a s f g -> (forall x y, W x y \/ ~ W x y) ->
  (forall x y, a self x y -> s x y) -> n = length (d_zorder d0) ->
  (forall j x y, (self < j)%nat -> a j x y <-> area d0 j x y) ->
  let S : region := fun x y => f self x y /\ W x y in
  stacked (upd a self (fun x y => a self x y /\ ~ W x y)) s
    (inherited self d0 S (upd f self (fun x y => f self x y /\ ~ S x y)))
    (fun x y => g x y \/ uncovered self d0 S x y).
Proof.
  intros Hfa [Hf Hg] HW Hs -> Ha S.
  assert (Hself : forall x y, f self x y <-> a self x y /\ forall j, (j < self)%nat -> ~ a j x y) by (intros; apply Hf).
  split.
  - intros k x y. unfold inherited. rewrite first_in_seq. unfold upd, S. destruct (decide (k = self)) as [->|Hk].
    + rewrite Hself. split.
      * intros [[[? Hj] Hn]|[? _]]; [|lia]. split; [split; [done|tauto]|].
        intros j ?. rewrite decide_False by lia. auto.
      * intros [[? Hn] Hj]. left. split; [|tauto]. split; [done|]. intros j ?. specialize (Hj j).
        rewrite decide_False in Hj by lia. auto.
    + rewrite Hf. split.
      * intros [[? Hj]|(?&[Hfs Hw]&?&?&Hi)].
        -- split; [done|]. intros j ?. destruct (decide (j = self)) as [->|]; [|auto]. intros [? _]. by apply (Hj self).
        -- apply Hself in Hfs as [Has Hj]. split; [by apply Ha|]. intros j ?.
           destruct (decide (j = self)) as [->|]; [tauto|]. destruct (decide (j < self)%nat); [by apply Hj|].
           rewrite Ha by lia. apply Hi. lia.
      * intros [Hak Hj]. assert (Hj' : forall j, (j < k)%nat -> j <> self -> ~ a j x y).
        { intros j ??. specialize (Hj j). rewrite decide_False in Hj by done. auto. }
        destruct (decide (self < k)%nat) as [Hlt|Hge].
        2: { left. split; [done|]. intros j ?. apply Hj'; lia. }
        destruct (fa_dec _ _ Hfa self x y) as [Has|Hn].
        -- right. split; [done|]. specialize (Hj self Hlt). rewrite decide_True in Hj by done.
           split; [split; [apply Hself; split; [done|]; intros j ?; apply Hj'; lia|destruct (HW x y); tauto]|].
           split; [pose proof (fa_lt _ _ Hfa k x y Hak); lia|]. split; [by apply Ha|].
           intros i ?. rewrite <- Ha by lia. apply Hj'; lia.
        -- left. split; [done|]. intros j ?. destruct (decide (j = self)) as [->|]; [done|]. by apply Hj'.
  - intros x y. rewrite Hg. unfold uncovered, upd, S. rewrite Hself. split.
    + intros [[? Hj]|[[[? Hj] ?] Hn]].
      * split; [done|]. intros j. destruct (decide (j = self)) as [->|]; [|auto]. intros [? _]. by apply (Hj self).
      * split; [by apply Hs|]. intros j. destruct (decide (j = self)) as [->|]; [tauto|].
        destruct (decide (j < self)%nat); [auto|]. rewrite Ha by lia. apply Hn. lia.
    + intros [? Hj]. assert (Hj' : forall j, j <> self -> ~ a j x y).
      { intros j ?. specialize (Hj j). by rewrite decide_False in Hj. }
      destruct (fa_dec _ _ Hfa self x y) as [Has|Hn].
      * right. specialize (Hj self). rewrite decide_True in Hj by done. split.
        -- split; [|destruct (HW x y); tauto]. split; [done|]. intros j ?. apply Hj'. lia.
        -- intros j ?. rewrite <- Ha by lia. apply Hj'. lia.
      * left. split; [done|]. intros j. destruct (decide (j = self)) as [->|]; [done|]. by apply Hj'.
Qed.

Lemma stacked_ext a s f g a' s' f' g' :
  (forall k x y, a k x y <-> a' k x y) -> (forall x y, s x y <-> s' x y) ->
  (forall k x y, f k x y <-> f' k x y) -> (forall x y, g x y <-> g' x y) ->
  stacked a s f g -> stacked a' s' f' g'.
Proof.
  intros Ha Hs Hf Hg [H1 H2]. split.
  - intros k x y. rewrite <- Hf, H1, Ha. by setoid_rewrite Ha.
  - intros x y. rewrite <- Hg, H2, Hs. by setoid_rewrite Ha.
Qed.

Lemma in_rect_or c x y : in_rect c x y \/ ~ in_rect c x y.
Proof. destruct (decide (in_rect c x y)); tauto. Qed.

(** ** Changes of the Z-order *)
Definition in_front (P : region) (f : nat -> region) : nat -> region :=
  fun k => match k with O => P | S k => f k end.
Definition without (self : nat) (f : nat -> region) : nat -> region :=
  fun k => if decide (k < self)%nat then f k else f (S k).

Lemma delete_stacked a s f g self :
  (forall x y, ~ a self x y) -> stacked a s f g -> stacked (without self a) s (without self f) g.
Proof.
  intros Hn [Hf Hg]. split.
  - intros k x y. unfold without. destruct (decide (k < self)%nat); rewrite Hf; split; intros [? Hj]; (split; [done|]); intros j ?.
    + rewrite decide_True by lia. apply Hj. lia.
    + specialize (Hj j). rewrite decide_True in Hj by lia. apply Hj. lia.
    + destruct (decide (j < self)%nat); apply Hj; lia.
    + destruct (decide (j = self)) as [->|]; [done|]. destruct (decide (j < self)%nat).
      * specialize (Hj j). rewrite decide_True in Hj by lia. apply Hj. lia.
      * specialize (Hj (pred j)). rewrite decide_False, Nat.succ_pred in Hj by lia. apply Hj. lia.
  - intros x y. unfold without. rewrite Hg. split; intros [? Hj]; (split; [done|]); intros j.
    + destruct (decide (j < self)%nat); apply Hj.
    + destruct (decide (j = self)) as [->|]; [done|]. destruct (decide (j < self)%nat).
      * specialize (Hj j). by rewrite decide_True in Hj by lia.
      * specialize (Hj (pred j)). by rewrite decide_False, Nat.succ_pred in Hj by lia.
Qed.
Lemma push_stacked a s f g (P : region) :
  (forall x y, P x y -> s x y) -> (forall x y, P x y \/ ~ P x y) -> stacked a s f g ->
  stacked (in_front P a) s (in_front P (fun k x y => f k x y /\ ~ P x y)) (fun x y => g x y /\ ~ P x y).
Proof.
  intros Hs Hd [Hf Hg]. split.
  - intros [|k] x y; cbn; [split; [intros ?; split; [done|lia]|tauto]|]. rewrite Hf. split.
    + intros [[? Hj] ?]. split; [done|]. intros [|j] ?; [done|]. apply Hj. lia.
    + intros [? Hj]. split; [|apply (Hj 0%nat); lia]. split; [done|]. intros j ?. apply (Hj (S j)). lia.
  - intros x y. rewrite Hg. split.
    + intros [[? Hj] ?]. split; [done|]. intros [|j]; [done|apply Hj].
    + intros [? Hj]. split; [|apply (Hj 0%nat)]. split; [done|]. intros j. apply (Hj (S j)).
Qed.
Lemma front_stacked a s f g self :
  stacked a s f g ->
  stacked (in_front (a self) (without self a)) s
    (in_front (a self) (without self (fun k x y => f k x y /\ ~ ((k < self)%nat /\ a self x y)))) g.
Proof.
  intros [Hf Hg]. split.
  - intros [|k] x y; cbn; [split; [intros ?; split; [done|lia]|tauto]|].
    unfold without. destruct (decide (k < self)%nat); rewrite Hf; split.
    + intros [[? Hj] Hn]. split; [done|]. intros [|j] ?; [tauto|]. cbn. rewrite decide_True by lia. apply Hj. lia.
    + intros [? Hj]. split.
      * split; [done|]. intros j ?. specialize (Hj (S j)). cbn in Hj. rewrite decide_True in Hj by lia. apply Hj. lia.
      * intros [_ ?]. apply (Hj 0%nat); [lia|done].
    + intros [[? Hj] _]. split; [done|]. intros [|j] ?; [apply Hj; lia|]. cbn.
      destruct (decide (j < self)%nat); apply Hj; lia.
    + intros [? Hj]. split; [|lia]. split; [done|]. intros j ?.
      destruct (decide (j = self)) as [->|]; [apply (Hj 0%nat); lia|]. destruct (decide (j < self)%nat).
      * specialize (Hj (S j)). cbn in Hj. rewrite decide_True in Hj by lia. apply Hj. lia.
      * specialize (Hj j). destruct j as [|j]; [lia|]. cbn in Hj. rewrite decide_False in Hj by lia. apply Hj. lia.
  - intros x y. rewrite Hg. split; intros [? Hj]; (split; [done|]).
    + intros [|j]; [apply Hj|]. cbn. unfold without. destruct (decide (j < self)%nat); apply Hj.
    + intros j. destruct (decide (j = self)) as [->|]; [apply (Hj 0%nat)|]. destruct (decide (j < self)%nat).
      * specialize (Hj (S j)). cbn in Hj. unfold without in Hj. by rewrite decide_True in Hj by lia.
      * specialize (Hj j). destruct j as [|j]; [lia|]. cbn in Hj. unfold without in Hj. by rewrite decide_False in Hj by lia.
Qed.

(** ** Displays *)
Definition shown (d : display) (k : nat) : region := fun x y =>
  match d_zorder d !! k with Some w => hidden w = false /\ in_rect (w_disparea w) x y | None => False end.
(** The display area of a window is what lies on the display of it. *)
Definition areas_exact (d : display) : Prop := forall k w, d_zorder d !! k = Some w ->
  rect_ok (w_disparea w) /\ forall x y, in_rect (w_disparea w) x y <-> onscreen d x y /\ in_window w x y.
Record display_ok (d : display) : Prop := {
  do_geo : geo None d;
  do_areas : areas_exact d;
  do_stack : stacked (shown d) (onscreen d) (V None d) (B d)
}.

Lemma exact_behind self d : areas_exact d -> areas_behind self d.
Proof. intros H k w _ Hk. destruct (H k w Hk) as [? Hx]. split; [done|]. intros x y ?. by apply Hx. Qed.
Lemma exact_areas_ok d : areas_exact d -> areas_ok d.
Proof. intros H k w Hk. destruct (H k w Hk) as [? Hx]. split; [done|]. intros x y ?. by apply Hx. Qed.
Lemma frame_area d d' k x y : frame d d' -> area d' k x y <-> area d k x y.
Proof.
  intros Hf. unfold area. destruct (d_zorder d !! k) as [w|] eqn:E.
  - by destruct (frame_lookup _ _ _ _ Hf E) as [l ->].
  - rewrite lookup_ge_None in E. rewrite lookup_ge_None_2; [done|]. by rewrite (frame_length _ _ Hf).
Qed.
Lemma frame_shown d d' k x y : frame d d' -> shown d' k x y <-> shown d k x y.
Proof.
  intros Hf. unfold shown. destruct (d_zorder d !! k) as [w|] eqn:E.
  - by destruct (frame_lookup _ _ _ _ Hf E) as [l ->].
  - rewrite lookup_ge_None in E. rewrite lookup_ge_None_2; [done|]. by rewrite (frame_length _ _ Hf).
Qed.
Lemma frame_exact d d' : frame d d' -> areas_exact d -> areas_exact d'.
Proof.
  intros Hf H k w' Hk. destruct (d_zorder d !! k) as [w|] eqn:E.
  2: { rewrite lookup_ge_None in E. rewrite lookup_ge_None_2 in Hk; [done|]. by rewrite (frame_length _ _ Hf). }
  destruct (frame_lookup _ _ _ _ Hf E) as [l Hl]. rewrite Hl in Hk. injection Hk as <-.
  destruct (H k w E) as [? Hx]. split; [done|]. intros x y. cbn. rewrite Hx, (frame_onscreen d d') by done. done.
Qed.
Lemma shown_finite d : finite_areas (length (d_zorder d)) (shown d).
Proof.
  split; intros k x y; unfold shown; destruct (d_zorder d !! k) as [w|] eqn:E; try tauto.
  - destruct (hidden w), (decide (in_rect (w_disparea w) x y)); intuition congruence.
  - intros _. by eapply lookup_lt_Some.
Qed.
Lemma finite_upd n a k (P : region) :
  finite_areas n a -> (k < n)%nat -> (forall x y, P x y \/ ~ P x y) -> finite_areas n (upd a k P).
Proof.
  intros [Hd Hlt] Hk HP. split; intros j x y; unfold upd; destruct (decide (j = k)) as [->|]; auto.
  by apply Hlt.
Qed.
Lemma display_st d : display_ok d -> st None d (V None d) (B d) d.
Proof. intros [Hg _ _]. done. Qed.
(** The state after operations that keep the areas. *)
Lemma st_display d f g d' :
  st None d f g d' -> areas_exact d -> stacked (shown d) (onscreen d) f g -> display_ok d'.
Proof.
  intros (Hg&Hf&Hl&Hb) Ha Hs. split; [done|by eapply frame_exact|].
  eapply stacked_ext; [| | | |exact Hs]; intros; symmetry; [by apply frame_shown|by apply frame_onscreen|by apply Hl|by apply Hb].
Qed.

(** ** New windows *)
Ltac fin_axis := do 4 (split; [lia|]); intros ?; lia.
Lemma clamp_axis pos size ds :
  0 < size <= COORD_MAX -> - COORD_MAX <= pos -> pos + size <= COORD_MAX -> 0 <= ds <= COORD_MAX ->
  let amin := if pos <=? 0 then 0 else pos in
  let asiz := if pos <? 0 then (if - pos <? size then u32 (size + pos) else 0) else size in
  let asiz := if ds <=? amin then 0 else if ds <? u32 (amin + asiz) then u32 (ds - amin) else asiz in
  0 <= amin /\ 0 <= asiz /\ amin + asiz <= COORD_MAX /\ clamp_size pos size ds = asiz /\
  (forall x, amin <= x < amin + asiz <-> 0 <= x < ds /\ pos <= x < pos + size).
Proof.
  unfold COORD_MAX, clamp_size. intros ????.
  destruct (Z.leb_spec pos 0), (Z.ltb_spec pos 0); cbv zeta; try lia.
  - destruct (Z.ltb_spec (- pos) size); rewrite ?(u32_small (size + pos)), ?Z.add_0_l by lia.
    + rewrite (u32_small (size + pos)) by lia.
      destruct (Z.leb_spec ds 0), (Z.ltb_spec ds 0), (Z.ltb_spec ds (size + pos)); rewrite ?u32_small by lia; fin_axis.
    + rewrite (u32_small 0) by lia. destruct (Z.leb_spec ds 0), (Z.ltb_spec ds 0); fin_axis.
  - assert (pos = 0) as -> by lia. rewrite !Z.add_0_l, (u32_small size) by lia.
    destruct (Z.leb_spec ds 0), (Z.ltb_spec ds 0), (Z.ltb_spec ds size); rewrite ?u32_small by lia; fin_axis.
  - rewrite (u32_small (pos + size)) by lia.
    destruct (Z.leb_spec ds pos), (Z.ltb_spec ds pos), (Z.ltb_spec ds (pos + size)); rewrite ?u32_small by lia; fin_axis.
Qed.
Lemma update_area_ok sx sy w :
  win_bounds w -> 0 <= sx <= COORD_MAX -> 0 <= sy <= COORD_MAX ->
  let a := Window_UpdateDisplayArea sx sy w in
  rect_ok a /\ r_xsiz a = clamp_size (w_posx w) (w_sizex w) sx /\ r_ysiz a = clamp_size (w_posy w) (w_sizey w) sy /\
  (forall x y, in_rect a x y <-> (0 <= x < sx /\ 0 <= y < sy) /\ in_window w x y).
Proof.
  intros (?&?&?&?&?&?) Hx Hy.
  pose proof (clamp_axis (w_posx w) (w_sizex w) sx ltac:(lia) ltac:(lia) ltac:(lia) Hx) as (?&?&?&?&Hix).
  pose proof (clamp_axis (w_posy w) (w_sizey w) sy ltac:(lia) ltac:(lia) ltac:(lia) Hy) as (?&?&?&?&Hiy).
  unfold Window_UpdateDisplayArea. cbv zeta in *. split; [done|]. split; [done|]. split; [done|].
  intros x y. unfold in_rect, in_window. cbn [r_xmin r_ymin r_xsiz r_ysiz]. rewrite Hix, Hiy. tauto.
Qed.

Definition pushed (w : window) (d : display) : display := set_zorder (w :: d_zorder d) d.
Lemma pushed_geo w d : geo None d -> win_bounds w -> w_visi w = [] -> geo None (pushed w d).
Proof.
  intros [? ? Hw Hv Hp] Hb Hn. split; cbn; try done.
  - intros [|k] w' Hk; [by injection Hk as <-|by apply (Hw k)].
  - intros [|k] w' Hk; [injection Hk as <-; by rewrite Hn|by apply (Hv k)].
  - intros [|k] w' x y Hk; [injection Hk as <-; unfold vis; rewrite Hn; by intros ?%cov_nil|].
    intros Hx. destruct (Hp k w' x y Hk Hx) as [? Hw']. split; [done|]. intros _. by apply Hw'.
Qed.
Lemma pushed_exact w d :
  areas_exact d -> rect_ok (w_disparea w) ->
  (forall x y, in_rect (w_disparea w) x y <-> onscreen d x y /\ in_window w x y) -> areas_exact (pushed w d).
Proof. intros Ha Hr Hin [|k] w' Hk; [by injection Hk as <-|by apply (Ha k)]. Qed.
Lemma pushed_stacked w d :
  stacked (shown d) (onscreen d) (V None d) (B d) -> w_visi w = [] ->
  stacked (in_front (fun _ _ => False) (shown d)) (onscreen d) (V None (pushed w d)) (B d).
Proof.
  intros Hs Hn. apply (push_stacked _ _ _ _ (fun _ _ => False)) in Hs; [|done|tauto].
  eapply stacked_ext; [| | | |exact Hs]; [done|done| |tauto].
  intros [|k] x y; cbn; [|tauto]. unfold V, vis. cbn. by rewrite Hn, cov_nil.
Qed.

Lemma hidden_state state key x y sx sy stride :
  hidden (MkWin key x y (Z.land state (Z.lnot WM_WINDOW_STATE_FFOCUSED)) sx sy (MkRect 0 0 0 0) stride [])
  = negb (Z.land state WM_WINDOW_STATE_FHIDDEN =? 0).
Proof. unfold hidden. cbn [w_state]. by rewrite <- Z.land_assoc. Qed.

Lemma create_ok stack key posx posy sizex sizey state result d :
  display_ok d -> win_bounds (MkWin key posx posy state sizex sizey (MkRect 0 0 0 0) 0 []) ->
  Z.land state WM_WINDOW_STATE_FFOCUSED = 0 ->
  srun (Window_CreateUnlocked stack key posx posy sizex sizey state result) d (fun _ => display_ok) anyhow.
Proof.
  intros [Hg Ha Hs] Hb Hfoc. unfold Window_CreateUnlocked. destruct result as [e|]; [done|].
  apply run_dget. pose proof (geo_size _ _ Hg) as [Hsx Hsy].
  set (w0 := MkWin _ _ _ _ _ _ _ _ _). set (w := set_disparea _ w0).
  destruct (update_area_ok (d_sizex d) (d_sizey d) w0 Hb Hsx Hsy) as (Hr&Ex&Ey&Hin). fold w in Hr, Ex, Ey, Hin |- *.
  cbn [w_posx w_posy w_sizex w_sizey w0] in Ex, Ey.
  assert (Hgp : geo None (pushed w d)) by by apply pushed_geo.
  assert (Hap : areas_exact (pushed w d)) by by apply pushed_exact.
  pose proof (pushed_stacked w d Hs eq_refl) as Hsp. rewrite Hfoc.
  assert (Hh : hidden w = negb (Z.land state WM_WINDOW_STATE_FHIDDEN =? 0)) by apply (hidden_state state).
  assert (Hshown : forall k x y, shown (pushed w d) k x y <->
            in_front (fun x y => hidden w = false /\ in_rect (w_disparea w) x y) (shown d) k x y) by by intros [|k].
  rewrite <- Ex, <- Ey. change (set_zorder (w :: d_zorder d) d) with (pushed w d).
  apply run_put, srun_catch. apply srun_bind.
  destruct (_ && _ && _) eqn:E.
  - apply andb_true_iff in E as [E Eh]. apply andb_true_iff in E as [E1 E2].
    assert (Hrp : rect_pos (w_disparea w)).
    { split; [done|]. destruct Hr as (?&?&?&?&?&?). cbn [w_disparea w set_disparea] in *. lia. }
    assert (Hvis : hidden w = false) by (rewrite Hh, Eh; done).
    set (d1 := set_windows (key :: d_windows d) (pushed w d)).
    assert (Hst : st None d1 (V None (pushed w d)) (B d) d1).
    { split; [|done]. destruct Hgp as [? ? Hw Hv Hp]. split; [done|done|exact Hw|exact Hv|exact Hp]. }
    unfold link_visible. apply srun_mono with (Q := fun _ d' => srun (mret tt : DM unit) d' (fun _ => display_ok) anyhow)
      (R := anyhow); [apply run_modify|done|done].
    eapply srun_mono; [apply (Window_ClaimVisibility_ok stack 0 (w_disparea w) false d1 w); [done|done| |exact Hst]| |done].
    { intros x y Hx. by apply Hin. }
    intros [] d2 Hst2. apply srun_ret. eapply (st_display d1); [exact Hst2|exact Hap|].
    assert (Hfin : finite_areas (length (d_zorder d1)) (in_front (fun _ _ => False) (shown d))).
    { split; intros [|k] x y; cbn; try tauto; [apply (shown_finite d)|]. intros Hk.
      apply (fa_lt _ _ (shown_finite d)) in Hk. lia. }
    pose proof (claim_stacked _ _ _ _ _ 0 (w_disparea w) Hfin Hsp) as Hcl.
    eapply stacked_ext; [| | | |apply Hcl]; try done; [|intros x y Hx; by apply Hin].
    intros k x y. change (shown d1) with (shown (pushed w d)). rewrite (Hshown k x y). unfold upd.
    destruct (decide (k = 0%nat)) as [->|]; cbn; [tauto|]. by destruct k.
  - apply srun_ret, srun_ret. split; [done|done|]. eapply stacked_ext; [| | | |exact Hsp]; try done.
    intros [|k] x y; [|done]. cbn. rewrite Hh. split; [done|]. intros [Eh Hx]. exfalso.
    destruct (Z.eqb_spec (Z.land state WM_WINDOW_STATE_FHIDDEN) 0); [|done].
    unfold in_rect in Hx. cbn [w_disparea w set_disparea] in *. lia.
Qed.

(** ** Hiding *)
Lemma visi_to_display self d0 f g d w :
  st None d0 f g d -> d_zorder d !! self = Some w ->
  srun (on_visi self (rects_move (w_posx w) (w_posy w))) d (fun _ => st (Some self) d0 f g) anyhow.
Proof.
  intros Hst Hw. pose proof (st_window _ _ _ _ _ _ _ Hst Hw) as (_&Hok&Hcov&Hsub).
  change (originx None self w) with (w_posx w) in Hcov. change (originy None self w) with (w_posy w) in Hcov.
  pose proof (geo_size _ _ (proj1 Hst)) as [? ?].
  eapply srun_mono; [apply (on_visi_ok self _ d w (fun _ s' => strips_ok 0 (r_strips s') /\
     forall x y, cov (r_strips s') x y <-> cov (w_visi w) (x - w_posx w) (y - w_posy w))); [done|]| |done].
  { apply (rects_move_ok (w_posx w) (w_posy w) (MkRects (w_visi w) (d_mem d))); [done|].
    intros x y Hx. destruct (Hsub (x + w_posx w) (y + w_posy w)) as [[??] _]; [|lia].
    apply Hcov. by replace (x + w_posx w - w_posx w) with x by lia; replace (y + w_posy w - w_posy w) with y by lia. }
  intros [] d' (s&[Hok' Hs]&->).
  eapply (st_ext _ _ (upd f self (f self))).
  { intros j x y. unfold upd. by destruct (decide (j = self)) as [->|]. }
  { done. }
  eapply (st_rebase None (Some self)); [|exact Hst|done|done| |].
  - intros j ?. split; [done|]. intros [= ->]. done.
  - intros x y. unfold originx, originy. rewrite !decide_True, !Z.sub_0_r by done. by rewrite Hs.
  - intros x y Hx. split; [by apply Hsub|done].
Qed.

Definition all_shown_behind (self : nat) (d : display) : Prop :=
  forall j w, (self < j)%nat -> d_zorder d !! j = Some w -> hidden w = false.
Lemma behind_area self d j x y : all_shown_behind self d -> (self < j)%nat -> shown d j x y <-> area d j x y.
Proof.
  intros Hb ?. unfold shown, area. destruct (d_zorder d !! j) as [w|] eqn:E; [|done].
  rewrite (Hb j w) by done. tauto.
Qed.

(** The last step of hiding: the set of the window is dropped. *)
Definition set_hidden (w : window) : window :=
  set_state (Z.lor (w_state w) WM_WINDOW_STATE_FHIDDEN) (set_visi [] w).
Lemma set_hidden_hidden w : hidden (set_hidden w) = true.
Proof.
  unfold hidden. cbn [w_state set_hidden set_state]. apply negb_true_iff, Z.eqb_neq. intros E.
  apply (f_equal (fun z => Z.testbit z 0)) in E. rewrite Z.land_spec, Z.lor_spec, Z.bits_0 in E.
  cbn [set_visi w_state] in E. rewrite orb_true_r in E. done.
Qed.
Lemma hidden_display self d0 f g d w :
  areas_exact d0 -> d_zorder d0 !! self = Some w -> st (Some self) d0 f g d ->
  stacked (upd (shown d0) self (fun _ _ => False)) (onscreen d0) (upd f self (fun _ _ => False)) g ->
  display_ok (set_zorder (alter set_hidden self (d_zorder d)) d).
Proof.
  intros Ha Hw (Hgeo&Hf&Hl&Hb) Hs. pose proof (frame_exact _ _ Hf Ha) as Ha'.
  destruct (frame_lookup _ _ _ _ Hf Hw) as [l Hself]. destruct Hgeo as [? ? Hwb Hv Hp].
  assert (Hlk : forall j w', alter set_hidden self (d_zorder d) !! j = Some w' ->
            if decide (j = self) then w' = set_hidden (set_visi l w) else d_zorder d !! j = Some w').
  { intros j w'. destruct (decide (j = self)) as [->|].
    - rewrite list_lookup_alter_eq, Hself. cbn. by intros [= <-].
    - by rewrite list_lookup_alter_ne. }
  assert (Hvis : forall j w' x y, j <> self -> vis None j w' x y <-> vis (Some self) j w' x y).
  { intros j w' x y Hj. unfold vis, originx, originy. by rewrite !decide_False by (done || congruence). }
  split.
  - split; cbn; try done.
    + intros j w' Hj%Hlk. destruct (decide (j = self)) as [->|]; [|by apply (Hwb j)]. subst. exact (Hwb _ _ Hself).
    + intros j w' Hj%Hlk. destruct (decide (j = self)) as [->|]; [|by apply (Hv j)]. by subst.
    + intros j w' x y Hj%Hlk. destruct (decide (j = self)) as [->|]; [subst; by intros ?%cov_nil|].
      rewrite Hvis by done. intros Hx. destruct (Hp j w' x y Hj Hx) as [? Hi]. split; [done|]. intros _. apply Hi. congruence.
  - intros j w' Hj%Hlk. destruct (decide (j = self)) as [->|]; [|by apply (Ha' j)]. subst. exact (Ha' _ _ Hself).
  - eapply stacked_ext; [| | | |exact Hs].
    + intros j x y. unfold upd, shown. cbn. destruct (decide (j = self)) as [->|].
      * rewrite list_lookup_alter_eq, Hself. cbn [fmap option_fmap option_map]. rewrite set_hidden_hidden. split; [done|by intros []].
      * rewrite list_lookup_alter_ne by done. symmetry. apply (frame_shown _ _ _ x y Hf).
    + intros x y. symmetry. exact (frame_onscreen d0 d x y Hf).
    + intros j x y. unfold upd, V. cbn. destruct (decide (j = self)) as [->|].
      * rewrite list_lookup_alter_eq, Hself. cbn. unfold vis. cbn. by rewrite cov_nil.
      * rewrite list_lookup_alter_ne by done. rewrite <- Hl. unfold V.
        destruct (d_zorder d !! j); [symmetry; by apply Hvis|done].
    + intros x y. symmetry. apply Hb.
Qed.

(** The windows behind and the background share what the hidden window leaves. *)
Lemma hide_stacked self d f g l :
  let ks := seq (1 + self) (length (d_zorder d) - (1 + self)) in
  stacked (shown d) (onscreen d) f g -> all_shown_behind self d -> (forall x y, shown d self x y -> onscreen d x y) ->
  (forall x y, cov l x y <-> passed self d f ks self x y) ->
  stacked (upd (shown d) self (fun _ _ => False)) (onscreen d) (upd (passed self d f ks) self (fun _ _ => False))
    (fun x y => g x y \/ exists r, r ∈ RECTS_FOREACH l /\ in_rect r x y).
Proof.
  intros ks Hs Hbeh Hon Hcov. assert (Hns : self ∉ ks) by (unfold ks; rewrite elem_of_seq; lia).
  pose proof (release_stacked _ (shown d) _ _ _ self d (fun _ _ => True) (shown_finite d) Hs) as Hrel.
  eapply stacked_ext; [| | | |apply Hrel; [tauto|done|done|]].
  - intros j x y. unfold upd. destruct (decide (j = self)) as [->|]; [tauto|done].
  - done.
  - intros j x y. unfold inherited, upd. cbv beta. destruct (decide (j = self)) as [->|Hj].
    { split; [|done]. intros [[? []]|[? _]]; [tauto|lia]. }
    rewrite passed_spec by done. rewrite decide_False by done. fold ks.
    split; [tauto|]. intros [?|[? Hfi]]; [by left|]. right.
    split; [apply first_in_area in Hfi as [Hfi _]; unfold ks in Hfi; rewrite elem_of_seq in Hfi; lia|]. tauto.
  - intros x y. rewrite <- elem_of_foreach. rewrite Hcov, passed_spec by done.
    rewrite decide_True by done. unfold uncovered. split.
    + intros [?|[[? _] Hn]]; [by left|]. right. split; [done|]. intros (k&Hk&Hka). unfold ks in Hk.
      rewrite elem_of_seq in Hk. apply (Hn k); [lia|done].
    + intros [?|[? Hn]]; [by left|]. right. split; [done|]. intros j ? Hj. apply Hn. exists j. split; [|done].
      unfold ks. rewrite elem_of_seq. unfold area in Hj. destruct (d_zorder d !! j) eqn:Ej; [|done].
      apply lookup_lt_Some in Ej. lia.
  - intros j x y ?. by apply (behind_area self d).
Qed.

Lemma hide_ok stack self d w :
  display_ok d -> d_zorder d !! self = Some w -> all_shown_behind self d ->
  (hidden w = false -> w_key w ∈ d_windows d) ->
  srun (Window_HideUnlocked stack self) d
    (fun _ d' => display_ok d' /\ exists w', d_zorder d' !! self = Some w' /\ hidden w' = true) anyhow.
Proof.
  intros Hd Hw Hbeh Hkey. pose proof Hd as [Hg Ha Hs]. unfold Window_HideUnlocked.
  apply (run_win _ _ _ _ _ Hw). destruct (hidden w) eqn:Eh; [apply srun_ret; by eauto|].
  eapply run_bind.
  { unfold unlink_visible. apply run_dget. apply run_dcheck; [by apply bool_decide_eq_true, Hkey|].
    instantiate (1 := fun _ d' => d' = set_windows (filter (fun k => k <> w_key w) (d_windows d)) d). done. }
  intros [] d1 ->. set (d1 := set_windows _ d).
  assert (Hst : st None d1 (V None d) (B d) d1).
  { split; [|done]. destruct Hg as [? ? Hwb Hv Hp]. split; [done|done|exact Hwb|exact Hv|exact Hp]. }
  eapply run_bind; [by apply visi_to_display|]. intros [] d2 Hst2. apply run_dget.
  assert (Hlen : length (d_zorder d2) = length (d_zorder d1)) by apply frame_length, Hst2.
  assert (Hbh : behind self d2 = seq (1 + self) (length (d_zorder d1) - (1 + self))).
  { unfold behind. by rewrite Hlen. }
  assert (Hns : self ∉ behind self d2) by (rewrite Hbh, elem_of_seq; lia).
  eapply run_bind.
  { apply (hide_all_ok stack self d1 (exact_areas_ok d1 Ha) _ _ _ _ w Hw Hst2).
    intros k Hk. rewrite Hbh, elem_of_seq in Hk. lia. }
  intros [] d3 Hst3. destruct (frame_lookup _ _ _ _ (proj1 (proj2 Hst3)) Hw) as [l3 Hw3].
  apply (run_win _ _ _ _ _ Hw3).
  pose proof (st_window _ _ _ _ _ _ _ Hst3 Hw3) as (_&Hok3&Hcov3&Hsub3).
  unfold originx, originy in Hcov3. rewrite !decide_True in Hcov3 by done. cbn in Hcov3, Hok3.
  pose proof (foreach_pos 0 _ ltac:(lia) Hok3) as Hpos. rewrite Forall_forall in Hpos.
  assert (Hcov : forall x y, cov l3 x y <-> passed self d1 (V None d) (behind self d2) self x y).
  { intros x y. by rewrite <- Hcov3, !Z.sub_0_r. }
  eapply run_bind.
  { apply (inherit_background_ok _ _ _ _ _ _ Hst3). intros r Hr. split; [by apply Hpos|]. intros x y Hx.
    rewrite <- (frame_onscreen d1 d3) by apply Hst3. apply Hsub3, Hcov, elem_of_foreach. by exists r. }
  intros [] d4 Hst4. destruct (frame_lookup _ _ _ _ (proj1 (proj2 Hst4)) Hw) as [l4 Hw4].
  eapply run_bind; [by eapply visi_check|]. intros [] d5 Hst5.
  destruct (frame_lookup _ _ _ _ (proj1 (proj2 Hst5)) Hw) as [l5 Hw5].
  assert (Hok : display_ok (set_zorder (alter set_hidden self (d_zorder d5)) d5)).
  { eapply (hidden_display self d1); [exact Ha|exact Hw|exact Hst5|]. rewrite Hbh in *.
    apply hide_stacked; [done|done| |done].
    intros x y Hx. change (shown d self x y) in Hx. unfold shown in Hx. rewrite Hw in Hx. destruct Hx as [_ Hx].
    by apply (Ha _ _ Hw) in Hx as [? _]. }
  split; [exact Hok|]. exists (set_hidden (set_visi l5 w)). split; [|apply set_hidden_hidden].
  cbn. by rewrite list_lookup_alter_eq, Hw5.
Qed.

(** ** Removing a window from the Z-order and moving it to the front *)
Lemma without_lookup {A} (l : list A) self k :
  delete self l !! k = l !! (if decide (k < self)%nat then k else S k).
Proof. apply list_lookup_delete. Qed.

Lemma delete_geo self d : geo None d -> geo None (set_zorder (delete self (d_zorder d)) d).
Proof.
  intros [? ? Hw Hv Hp]. split; cbn; try done; intros k w; rewrite without_lookup.
  - apply Hw.
  - apply Hv.
  - intros x y Hk Hx. destruct (Hp _ w x y Hk Hx) as [? Hi]. split; [done|]. intros _. by apply Hi.
Qed.
Lemma delete_exact self d : areas_exact d -> areas_exact (set_zorder (delete self (d_zorder d)) d).
Proof. intros Ha k w. cbn. rewrite without_lookup. apply Ha. Qed.
Lemma delete_V self d k x y :
  V None (set_zorder (delete self (d_zorder d)) d) k x y <-> without self (V None d) k x y.
Proof. unfold V, without. cbn. rewrite without_lookup. by destruct (decide (k < self)%nat). Qed.
Lemma delete_shown self d k x y :
  shown (set_zorder (delete self (d_zorder d)) d) k x y <-> without self (shown d) k x y.
Proof. unfold shown, without. cbn. rewrite without_lookup. by destruct (decide (k < self)%nat). Qed.

Lemma delete_display self d w :
  display_ok d -> d_zorder d !! self = Some w -> hidden w = true ->
  display_ok (set_zorder (delete self (d_zorder d)) d).
Proof.
  intros [Hg Ha Hs] Hw Hh. split; [by apply delete_geo|by apply delete_exact|].
  apply (delete_stacked _ _ _ _ self) in Hs.
  2: { intros x y. unfold shown. rewrite Hw, Hh. by intros []. }
  eapply stacked_ext; [| | | |exact Hs]; try done; intros; symmetry; [apply delete_shown|apply delete_V].
Qed.

Lemma window_destroy_ok stack self d w :
  display_ok d -> d_zorder d !! self = Some w -> all_shown_behind self d ->
  (hidden w = false -> w_key w ∈ d_windows d) -> Z.land (w_state w) WM_WINDOW_STATE_FDESTROYED = 0 ->
  srun (Window_DestroyUnlocked stack self) d (fun _ => display_ok) anyhow.
Proof.
  intros Hd Hw Hb Hk Hx. unfold Window_DestroyUnlocked. apply (run_win _ _ _ _ _ Hw).
  apply run_dcheck; [lia|]. eapply run_bind; [by eapply hide_ok|]. intros [] d1 [Hd1 (w1&Hw1&Hh1)].
  apply run_modify. pose proof (delete_display _ _ _ Hd1 Hw1 Hh1) as [Hg Ha Hs].
  unfold srun, modify, sget, mbind, SM_bind, sput. cbn.
  destruct (bool_decide _); [|done]. split; [|done|done].
  destruct Hg as [? ? Hwb Hv Hp]. split; [done|done|exact Hwb|exact Hv|exact Hp].
Qed.

Lemma reorder_display self d0 f g d w :
  areas_exact d0 -> st None d0 f g d -> d_zorder d !! self = Some w ->
  stacked (in_front (shown d0 self) (without self (shown d0))) (onscreen d0) (in_front (f self) (without self f)) g ->
  display_ok (set_zorder (w :: delete self (d_zorder d)) d).
Proof.
  intros Ha (Hg&Hf&Hl&Hb) Hw Hs. apply (frame_exact _ _ Hf) in Ha.
  pose proof (delete_geo self d Hg) as [? ? Hwb Hv Hp]. pose proof (delete_exact self d Ha) as Ha'.
  assert (HV : forall k x y, V None (set_zorder (w :: delete self (d_zorder d)) d) k x y <->
                             in_front (V None d self) (without self (V None d)) k x y).
  { intros [|k] x y; [unfold V; cbn; by rewrite Hw|]. apply (delete_V self d k x y). }
  split.
  - split; cbn; try done.
    + intros [|k] w' Hk; [injection Hk as <-; by eapply geo_bounds|by apply (Hwb k)].
    + intros [|k] w' Hk; [injection Hk as <-; by eapply geo_visi|by apply (Hv k)].
    + intros [|k] w' x y Hk Hx; [injection Hk as <-|].
      * destruct (geo_vis _ _ Hg self w x y Hw Hx) as [? Hi]. split; [done|]. intros _. by apply Hi.
      * destruct (Hp k w' x y Hk Hx) as [? Hi]. split; [done|]. intros _. by apply Hi.
  - intros [|k] w' Hk; [injection Hk as <-; exact (Ha _ _ Hw)|exact (Ha' k w' Hk)].
  - eapply stacked_ext; [| | | |exact Hs].
    + intros [|k] x y; cbn.
      * rewrite <- (frame_shown d0 d) by done. unfold shown. cbn. by rewrite Hw.
      * unfold without. transitivity (without self (shown d) k x y); [|symmetry; apply (delete_shown self d k x y)].
        unfold without. destruct (decide (k < self)%nat); symmetry; by apply frame_shown.
    + intros x y. symmetry. exact (frame_onscreen d0 d x y Hf).
    + intros k x y. rewrite HV. destruct k as [|k]; cbn; [by rewrite Hl|]. unfold without.
      destruct (decide (k < self)%nat); by rewrite Hl.
    + intros x y. symmetry. apply Hb.
Qed.

Section Front.
Context (stack : rect) (self : nat) (d0 : display) (me : window).
Context (Hme : d_zorder d0 !! self = Some me) (Hexact : areas_exact d0) (Hvis : hidden me = false).

Lemma me_shown x y : shown d0 self x y <-> in_rect (w_disparea me) x y.
Proof. unfold shown. rewrite Hme, Hvis. tauto. Qed.

Lemma uncover_ok k f g d :
  st None d0 f g d -> (k < self)%nat -> (forall x y, f k x y -> area d0 k x y) ->
  srun (uncover stack self k) d
    (fun _ => st None d0 (upd f k (fun x y => f k x y /\ ~ shown d0 self x y)) g) anyhow.
Proof.
  intros Hst Hk Hfa. unfold uncover. pose proof (proj1 (proj2 Hst)) as Hf.
  destruct (frame_lookup _ _ _ _ Hf Hme) as [lm Hm].
  destruct (lookup_lt_is_Some_2 (d_zorder d0) k) as [w0 Hw0]; [apply lookup_lt_Some in Hme; lia|].
  destruct (frame_lookup _ _ _ _ Hf Hw0) as [lk Hwk].
  apply (run_win _ _ _ _ _ Hm). apply (run_win _ _ _ _ _ Hwk). eapply run_bind; [by eapply visi_check|].
  intros [] d1 Hst1. cbn [w_disparea w_posx w_posy set_visi].
  destruct (Hexact _ _ Hme) as [Hr1 Hx1]. destruct (Hexact _ _ Hw0) as [Hr2 Hx2].
  set (r := rect_intersect stack _ _).
  destruct (rect_intersect_ok stack _ _ Hr1 Hr2) as [Hri _]. fold r in Hri.
  destruct (nonempty r) eqn:En; cbn [negb].
  - assert (Hr : rect_pos r) by by apply intersect_pos.
    destruct (frame_lookup _ _ _ _ (proj1 (proj2 Hst1)) Hw0) as [l1 Hw1].
    destruct (shift_within None k (set_visi l1 w0) r) as (Hp&Hback&Hrel); [done| |done| |].
    { by eapply geo_bounds; [apply Hst1|]. }
    { intros x y [_ Hx]%Hri. by apply Hx2 in Hx as [_ ?]. }
    destruct (shift_within None self (set_visi lm me) r) as (Hpm&_&_); [done| |done| |].
    { eapply geo_bounds; [apply Hst|exact Hm]. }
    { intros x y [Hx _]%Hri. by apply Hx1 in Hx as [_ ?]. }
    cbn in Hp, Hback, Hrel, Hpm. rewrite Hback.
    eapply run_bind; [eapply visi_remove; [done|done|apply Hp]|]. intros [] d2 Hst2.
    assert (Hst3 : st None d0 (upd f k (fun x y => f k x y /\ ~ shown d0 self x y)) g d2).
    { eapply st_ext; [|done|exact Hst2]. intros j x y. unfold upd. destruct (decide (j = k)) as [->|]; [|done].
      rewrite Hrel, Hri, me_shown. split; (intros [Hfk Hn]; split; [done|]); [|tauto].
      intros ?. apply Hn. split; [done|]. apply Hfa in Hfk. unfold area in Hfk. by rewrite Hw0 in Hfk. }
    destruct (frame_lookup _ _ _ _ (proj1 (proj2 Hst3)) Hme) as [l3 Hm3].
    unfold Window_RenderRect. apply (run_win _ _ _ _ _ Hm3). apply run_dget. unfold Copy_Rect.
    apply run_dcheck; [destruct Hpm as [_ [Hpx _]]; clear -Hpx; cbn [size_x size_y]; cbn in Hpx |- *; lia|]. by apply st_log.
  - apply srun_ret. eapply st_ext; [|done|exact Hst1]. intros j x y. unfold upd.
    destruct (decide (j = k)) as [->|]; [|done]. split; [|tauto]. intros Hfk. split; [done|]. rewrite me_shown.
    intros Hx. apply Hfa in Hfk. unfold area in Hfk. rewrite Hw0 in Hfk. exact (intersect_empty stack _ _ x y Hr1 Hr2 En Hx Hfk).
Qed.

Lemma uncover_all n f g d :
  st None d0 f g d -> (n <= self)%nat -> (forall k x y, f k x y -> area d0 k x y) ->
  srun (each_rect (seq (self - n) n) (uncover stack self)) d
    (fun _ => st None d0 (fun k x y => f k x y /\ ~ ((self - n <= k < self)%nat /\ shown d0 self x y)) g) anyhow.
Proof.
  revert f d. induction n as [|n IH]; intros f d Hst Hn Hfa; cbn [seq each_rect].
  { apply srun_ret. eapply st_ext; [|done|exact Hst]. intros k x y. split; [|tauto]. intros ?. split; [done|lia]. }
  eapply run_bind; [apply uncover_ok; [exact Hst|lia|exact (Hfa _)]|]. intros [] d1 Hst1.
  replace (S (self - S n)) with (self - n)%nat by lia.
  eapply srun_mono; [apply IH; [exact Hst1|lia|]| |done].
  { intros k x y. unfold upd. destruct (decide _) as [->|]; [intros [? _]|]; by apply Hfa. }
  intros [] d2. apply st_ext; [|done]. intros k x y. unfold upd.
  destruct (decide (k = self - S n)%nat) as [->|Hk].
  - split; [intros [[? Hs] _]; split; tauto|]. intros [? Hs]. split; [split; [done|]; intros ?; apply Hs; split; [lia|done]|lia].
  - split; intros [? Hs]; (split; [done|]); intros [??]; apply Hs; split; (done || lia).
Qed.

Lemma strip_of_area_ok u : rect_pos (w_disparea me) -> win_bounds me -> (1 <= u)%nat ->
  strips_ok 0 [strip_of_area me u] /\
  forall x y, cov [strip_of_area me u] (x - w_posx me) (y - w_posy me) <-> in_rect (w_disparea me) x y.
Proof.
  intros Hp Hb Hu. destruct (Hexact _ _ Hme) as [Hr Hin].
  destruct (shift_within None self me (w_disparea me)) as ([Hp' _]&_&Hrel); [done|done|done| |].
  { intros x y Hx. by apply Hin in Hx as [_ ?]. }
  destruct Hp' as (?&?&?&?&?&?). destruct Hp as [_ [? ?]]. unfold strip_of_area.
  unfold shift in *. cbn in *. change (?a + - ?b) with (a - b) in *. split.
  - unfold strip_ok, strip_wf, xend, rs_blkc. cbn. intuition (discriminate || lia).
  - intros x y. rewrite <- Hrel. unfold rel. change (originx None self me) with (w_posx me).
    change (originy None self me) with (w_posy me). rewrite cov_cons, cov_nil. unfold scov, xend. cbn.
    rewrite bcov_cons, bcov_nil. unfold in_block, in_rect. cbn. tauto.
Qed.
(** The set of the window becomes one strip with its whole display area. *)
Lemma whole_area_ok f g d l :
  st None d0 f g d -> rect_pos (w_disparea me) -> d_zorder d !! self = Some (set_visi l me) ->
  srun (on_visi self (whole_area me)) d (fun _ => st None d0 (upd f self (shown d0 self)) g) anyhow.
Proof.
  intros Hst Hp Hw. pose proof (st_window _ _ _ _ _ _ _ Hst Hw) as (Hb&Hok&_).
  eapply srun_mono; [apply (on_visi_ok self _ d _ (fun _ s' => exists u, (1 <= u)%nat /\ r_strips s' = [strip_of_area me u]) Hw)| |done].
  { unfold whole_area. apply run_check_rects; [done|]. apply run_strip_alloc; [|done].
    intros u m Hu. destruct (strip_of_area_ok u Hp Hb Hu) as [Hs _].
    pose proof (strips_ok_assert 0 _ ltac:(lia) Hs) as Has. cbn in Has |- *. unfold int_nonneg in *.
    do 3 (apply run_scheck; [lia|]). apply run_set_strips, check_rects_ok; [done|by exists u]. }
  intros [] d' (s&(u&Hu&Es)&->). rewrite Es. destruct (strip_of_area_ok u Hp Hb Hu) as [Hs Hcov].
  apply st_put; [done|done|done| |].
  - intros x y. rewrite me_shown. apply Hcov.
  - intros x y Hx. rewrite me_shown in Hx. apply (Hexact _ _ Hme) in Hx as [? ?]. split; [|done].
    by apply (frame_onscreen d0 d _ _ (proj1 (proj2 Hst))).
Qed.
End Front.

Lemma front_ok stack self d w :
  display_ok d -> d_zorder d !! self = Some w ->
  srun (Window_BringToFront stack self) d (fun _ => display_ok) anyhow.
Proof.
  intros Hd Hw. pose proof Hd as [Hg Ha Hs]. destruct self as [|n]; [done|]. unfold Window_BringToFront.
  set (self := S n) in *. apply (run_win _ _ _ _ _ Hw).
  assert (Hin : forall k x y, V None d k x y -> area d k x y).
  { intros k x y Hx. apply Hs in Hx as [Hx _]. unfold shown, area in *. destruct (d_zorder d !! k); tauto. }
  apply (run_bind _ _ _ (fun _ => st None d (upd (fun k x y => V None d k x y /\ ~ ((k < self)%nat /\ shown d self x y)) self (shown d self)) (B d))).
  - destruct (negb _ && _) eqn:E.
    + apply andb_true_iff in E as [Eh En]. apply negb_true_iff in Eh. pose proof (display_st d Hd) as Hst.
      eapply run_bind; [by eapply visi_check|]. intros [] d1 Hst1.
      pose proof (uncover_all stack self d w Hw Ha Eh self _ _ _ Hst1 ltac:(lia) Hin) as Hall. rewrite Nat.sub_diag in Hall.
      eapply run_bind; [exact Hall|]. intros [] d2 Hst2.
      destruct (frame_lookup _ _ _ _ (proj1 (proj2 Hst2)) Hw) as [l Hw2].
      eapply srun_mono; [apply (whole_area_ok self d w Hw Ha Eh _ _ _ l Hst2); [|exact Hw2]| |done].
      { apply nonempty_pos; [by apply (Ha _ _ Hw)|done]. }
      intros [] d3. apply st_ext; [|done]. intros k x y. unfold upd. destruct (decide (k = self)); [done|].
      split; intros [? Hn]; (split; [done|]); intros [? ?]; apply Hn; (split; [lia|done]).
    + apply srun_ret. pose proof (display_st d Hd) as Hst. eapply st_ext; [|done|exact Hst].
      assert (Hno : forall x y, ~ shown d self x y).
      { intros x y. unfold shown. rewrite Hw. intros [Eh Hx]. rewrite Eh in E. cbn in E.
        unfold nonempty, in_rect in *. lia. }
      intros k x y. unfold upd. destruct (decide (k = self)) as [->|].
      * split; intros Hx; [apply (proj1 Hs) in Hx as [Hx _]; exact Hx|by apply Hno in Hx].
      * split; [|tauto]. intros ?. split; [done|]. by intros [_ ?%Hno].
  - intros [] d1 Hst1. destruct (frame_lookup _ _ _ _ (proj1 (proj2 Hst1)) Hw) as [l Hw1].
    apply (run_win _ _ _ _ _ Hw1). apply run_modify, srun_ret.
    eapply (reorder_display self d); [exact Ha|exact Hst1|exact Hw1|].
    eapply stacked_ext; [| | | |exact (front_stacked _ _ _ _ self Hs)]; try done.
    intros [|k] x y; cbn; [by rewrite upd_same|]. unfold without. destruct (decide (k < self)%nat); by rewrite upd_other by lia.
Qed.

(** ** Moving *)
Lemma alter_insert {A} (u : A -> A) (l : list A) k a : l !! k = Some a -> alter u k l = <[k := u a]> l.
Proof.
  intros Hk. apply list_eq. intros j. destruct (decide (j = k)) as [->|].
  - rewrite list_lookup_alter_eq, Hk, list_lookup_insert_eq; [done|by eapply lookup_lt_Some].
  - by rewrite list_lookup_alter_ne, list_lookup_insert_ne.
Qed.

(** The window at [self] is [w], in the other respects the display is [d0]. *)
Definition placed (self : nat) (w : window) (d0 : display) : display :=
  set_zorder (<[self := w]> (d_zorder d0)) d0.
(** Between the steps of a move: the sets follow areas [a]. *)
Definition moving (a : nat -> region) (d0 d : display) : Prop :=
  exists f g, st None d0 f g d /\ stacked a (onscreen d0) f g.

Section Moves.
Context (stack : rect) (self : nat).

(** The position changes, the visible points on the display do not. *)
Lemma reposition_ok d0 f g d w u nx ny dx dy :
  st None d0 f g d -> d_zorder d0 !! self = Some w -> win_bounds (set_pos nx ny w) ->
  (forall l, u (set_visi l w) = set_pos nx ny (set_visi l w)) ->
  dx = w_posx w - nx -> dy = w_posy w - ny ->
  (forall x y, f self x y -> in_window (set_pos nx ny w) x y) ->
  srun (update_win self u ≫= fun _ => on_visi self check_rects ≫= fun _ => on_visi self (rects_move dx dy) ≫= fun _ =>
        on_visi self check_rects) d
    (fun _ => st None (placed self (set_pos nx ny w) d0) f g) anyhow.
Proof.
  intros Hst Hw Hb Hu Edx Edy Hin. destruct (frame_lookup _ _ _ _ (proj1 (proj2 Hst)) Hw) as [l Hl].
  pose proof (st_window _ _ _ _ _ _ _ Hst Hl) as (_&Hok&Hcov&_). pose proof (lookup_lt_Some _ _ _ Hl) as Hlt.
  change (originx None self (set_visi l w)) with (w_posx w) in Hcov. change (originy None self (set_visi l w)) with (w_posy w) in Hcov.
  apply run_modify. set (d1 := set_zorder _ d).
  assert (Hl1 : d_zorder d1 !! self = Some (set_pos nx ny (set_visi l w))).
  { cbn. by rewrite list_lookup_alter_eq, Hl, <- Hu. }
  eapply run_bind; [apply (on_visi_ok self _ d1 _ (fun _ s => s = MkRects l (d_mem d1)) Hl1); by apply check_rects_ok|].
  intros [] d2 (s&->&->). cbn [r_strips r_mem]. set (d2 := set_answers _ _).
  assert (Hl2 : d_zorder d2 !! self = Some (set_pos nx ny (set_visi l w))).
  { unfold d2. cbn. rewrite list_lookup_insert_eq; [done|]. by rewrite length_alter. }
  eapply run_bind; [eapply (on_visi_ok self _ d2 _ _ Hl2); apply (rects_move_ok dx dy); [exact Hok|]|].
  { intros x y Hx. cbn in Hx. destruct Hb as (?&?&?&?&?&?).
    destruct (Hin (x + w_posx w) (y + w_posy w)); [|cbn in *; lia].
    apply Hcov. by replace (x + w_posx w - w_posx w) with x by lia; replace (y + w_posy w - w_posy w) with y by lia. }
  intros [] d3 (s&[Hok' Hs]&->). unfold d2. cbn -[check_rects]. rewrite (alter_insert _ _ _ _ Hl), !list_insert_insert_eq.
  eapply visi_check; [|cbn; by rewrite list_lookup_insert_eq].
  apply (st_replace d0 f g d self _ _ (r_mem s)); try done.
  intros x y. rewrite <- Hcov. unfold vis. cbn. rewrite Hs. cbn.
  change (originx _ _ _) with nx. change (originy _ _ _) with ny.
  by replace (x - nx - dx) with (x - w_posx w) by lia; replace (y - ny - dy) with (y - w_posy w) by lia.
Qed.

Lemma placed_behind w d0 : areas_behind self d0 -> areas_behind self (placed self w d0).
Proof.
  intros Ha k w' Hk. cbn. rewrite list_lookup_insert_ne by lia. intros Hw'. by apply (Ha k).
Qed.
Lemma placed_area w d0 j x y : (self < j)%nat -> area (placed self w d0) j x y <-> area d0 j x y.
Proof. intros ?. unfold area. cbn. by rewrite list_lookup_insert_ne by lia. Qed.

Record mid (w : window) (a : nat -> region) (d0 d : display) : Prop := {
  mid_moving : moving a d0 d;
  mid_window : d_zorder d0 !! self = Some w;
  mid_finite : finite_areas (length (d_zorder d0)) a;
  mid_behind : areas_behind self d0;
  mid_area j x y : (self < j)%nat -> a j x y <-> area d0 j x y;
  mid_self x y : a self x y -> onscreen d0 x y /\ in_window w x y
}.
Lemma mid_ext w a a' d0 d : (forall k x y, a k x y <-> a' k x y) -> mid w a d0 d -> mid w a' d0 d.
Proof.
  intros He [(f&g&Hst&Hs) Hw [Hd Hlt] Hb Ha Hon]. split; try done.
  - exists f, g. split; [done|]. by eapply stacked_ext; [exact He|done|done|done|exact Hs].
  - split; intros k x y; rewrite <- He; [apply Hd|apply Hlt].
  - intros j x y ?. rewrite <- He. by apply Ha.
  - intros x y. rewrite <- He. apply Hon.
Qed.

Lemma mid_check a d0 d w : mid w a d0 d -> srun (on_visi self check_rects) d (fun _ => mid w a d0) anyhow.
Proof.
  intros [(f&g&Hst&Hs) Hw Hfa Hb Ha Hon]. destruct (frame_lookup _ _ _ _ (proj1 (proj2 Hst)) Hw) as [l Hl].
  eapply srun_mono; [by eapply visi_check| |done]. intros [] d' Hst'. split; try done. by exists f, g.
Qed.

(** One axis of a move: what leaves its place goes to the windows behind. *)
Lemma slide_ok a d0 d w W u nx ny dx dy :
  mid w a d0 d -> rect_pos W -> win_bounds (set_pos nx ny w) ->
  (forall l, u (set_visi l w) = set_pos nx ny (set_visi l w)) ->
  dx = w_posx w - nx -> dy = w_posy w - ny ->
  (forall x y, in_window w x y -> ~ in_rect W (x - w_posx w) (y - w_posy w) -> in_window (set_pos nx ny w) x y) ->
  srun (on_visi self check_rects ≫= fun _ =>
        Window_RemoveAndInheritVisibility stack self W ≫= fun _ => update_win self u ≫= fun _ =>
        on_visi self check_rects ≫= fun _ => on_visi self (rects_move dx dy) ≫= fun _ => on_visi self check_rects) d
    (fun _ => mid (set_pos nx ny w) (upd a self (fun x y => a self x y /\ ~ in_rect W (x - w_posx w) (y - w_posy w)))
                (placed self (set_pos nx ny w) d0)) anyhow.
Proof.
  intros Hm HW Hbd Hu Edx Edy Hin. eapply run_bind; [by apply mid_check|]. clear d Hm.
  intros [] d [(f&g&Hst&Hs) Hw Hfa Hb Ha Hon]. eapply run_bind; [by apply (Window_RemoveAndInheritVisibility_ok stack self d0 Hb W f g d w)|]. intros [] d1 Hst1.
  pose proof (release_stacked _ _ _ _ _ self d0 (fun x y => in_rect W (x - w_posx w) (y - w_posy w)) Hfa Hs
    ltac:(intros; apply in_rect_or) ltac:(intros; by apply Hon) eq_refl Ha) as Hrel. cbn zeta in Hrel.
  pose proof (lookup_lt_Some _ _ _ Hw) as Hlt.
  eapply srun_mono; [apply (reposition_ok _ _ _ _ w u nx ny dx dy Hst1); try done| |done].
  - intros x y Hx. apply (proj1 Hrel) in Hx as [Hx _]. rewrite upd_same in Hx. destruct Hx as [[_ ?]%Hon ?]. by apply Hin.
  - intros [] d2 Hst2. split.
    + eexists _, _. split; [exact Hst2|exact Hrel].
    + cbn. by rewrite list_lookup_insert_eq.
    + cbn. rewrite length_insert. apply finite_upd; [done|done|]. intros x y.
      destruct (fa_dec _ _ Hfa self x y), (in_rect_or W (x - w_posx w) (y - w_posy w)); tauto.
    + by apply placed_behind.
    + intros j x y ?. rewrite placed_area, upd_other by lia. by apply Ha.
    + intros x y. rewrite upd_same. intros [[? ?]%Hon ?]. split; [done|]. by apply Hin.
Qed.
Lemma mid_stay w a d0 d : mid w a d0 d -> mid w (upd a self (a self)) (placed self w d0) d.
Proof.
  intros H. apply (mid_ext _ a).
  { intros k x y. unfold upd. by destruct (decide (k = self)) as [->|]. }
  unfold placed. rewrite list_insert_id by apply H. by destruct d0.
Qed.

(** How far a window may go along an axis in one move. *)
Definition move_ok (size rel : Z) : Prop := - size <= rel <= COORD_MAX.
Lemma leaving_ok size rel : 0 < size <= COORD_MAX -> move_ok size rel -> rel <> 0 ->
  exists m s, leaving size rel = (m, s) /\ 0 <= m /\ 0 < s /\ m + s <= COORD_MAX /\
    forall x, 0 <= x < size -> ~ m <= x < m + s <-> rel <= x < rel + size.
Proof.
  unfold move_ok, leaving. intros ???. destruct (Z.ltb_spec rel 0); eexists _, _; (split; [done|]);
    unfold COORD_MAX in *; rewrite ?u32_small by lia; (do 3 (split; [lia|])); intros x ?; lia.
Qed.
Lemma slide_x a d0 d w nx :
  mid w a d0 d -> win_bounds w -> win_bounds (set_pos nx (w_posy w) w) -> move_ok (w_sizex w) (nx - w_posx w) ->
  srun (if negb (nx - w_posx w =? 0) then
          let '(xmin, xsiz) := leaving (w_sizex w) (nx - w_posx w) in
          on_visi self check_rects ≫= fun _ =>
          Window_RemoveAndInheritVisibility stack self (MkRect xmin 0 xsiz (w_sizey w)) ≫= fun _ =>
          update_win self (fun w => set_pos nx (w_posy w) w) ≫= fun _ =>
          on_visi self check_rects ≫= fun _ =>
          on_visi self (rects_move (- (nx - w_posx w)) 0) ≫= fun _ =>
          on_visi self check_rects
        else mret tt) d
    (fun _ => mid (set_pos nx (w_posy w) w) (upd a self (fun x y => a self x y /\ nx <= x < nx + w_sizex w))
                (placed self (set_pos nx (w_posy w) w) d0)) anyhow.
Proof.
  intros Hm Hb Hb' Hmv. pose proof (mid_self _ _ _ _ Hm) as Hon. destruct (Z.eqb_spec (nx - w_posx w) 0) as [E|Hne]; cbn [negb].
  - apply srun_ret. apply mid_stay in Hm. assert (nx = w_posx w) as -> by lia. replace (set_pos _ _ w) with w by by destruct w.
    eapply mid_ext; [|exact Hm]. intros k x y. unfold upd. destruct (decide (k = self)) as [->|]; [|done].
    split; [|tauto]. intros Hx. split; [done|]. apply Hon in Hx as [_ Hx]. unfold in_window in Hx. lia.
  - destruct Hb as (?&?&?&?&?&?). destruct (leaving_ok (w_sizex w) _ ltac:(lia) Hmv Hne) as (m&s&->&?&?&?&Hl).
    assert (HW : forall x y, in_window w x y -> ~ in_rect (MkRect m 0 s (w_sizey w)) (x - w_posx w) (y - w_posy w) <-> nx <= x < nx + w_sizex w).
    { intros x y [? ?]. specialize (Hl (x - w_posx w) ltac:(lia)). unfold in_rect. cbn. lia. }
    eapply srun_mono; [apply (slide_ok a d0 d w _ _ nx (w_posy w)); [exact Hm| |done|done|lia|lia|]| |done].
    + unfold rect_pos, rect_ok. cbn. lia.
    + intros x y Hx Hn%HW; [|done]. unfold in_window in *. cbn. lia.
    + intros [] d' Hm'. eapply mid_ext; [|exact Hm']. intros k x y. unfold upd. destruct (decide (k = self)) as [->|]; [|done].
      split; (intros [Hx ?]; split; [done|]); apply Hon in Hx as [_ Hx]; by apply (HW x y Hx).
Qed.
Lemma slide_y a d0 d w ny :
  mid w a d0 d -> win_bounds w -> win_bounds (set_pos (w_posx w) ny w) -> move_ok (w_sizey w) (ny - w_posy w) ->
  srun (if negb (ny - w_posy w =? 0) then
          let '(ymin, ysiz) := leaving (w_sizey w) (ny - w_posy w) in
          on_visi self check_rects ≫= fun _ =>
          Window_RemoveAndInheritVisibility stack self (MkRect 0 ymin (w_sizex w) ysiz) ≫= fun _ =>
          update_win self (fun w => set_pos (w_posx w) ny w) ≫= fun _ =>
          on_visi self check_rects ≫= fun _ =>
          on_visi self (rects_move 0 (- (ny - w_posy w))) ≫= fun _ =>
          on_visi self check_rects
        else mret tt) d
    (fun _ => mid (set_pos (w_posx w) ny w) (upd a self (fun x y => a self x y /\ ny <= y < ny + w_sizey w))
                (placed self (set_pos (w_posx w) ny w) d0)) anyhow.
Proof.
  intros Hm Hb Hb' Hmv. pose proof (mid_self _ _ _ _ Hm) as Hon. destruct (Z.eqb_spec (ny - w_posy w) 0) as [E|Hne]; cbn [negb].
  - apply srun_ret. apply mid_stay in Hm. assert (ny = w_posy w) as -> by lia. replace (set_pos _ _ w) with w by by destruct w.
    eapply mid_ext; [|exact Hm]. intros k x y. unfold upd. destruct (decide (k = self)) as [->|]; [|done].
    split; [|tauto]. intros Hx. split; [done|]. apply Hon in Hx as [_ Hx]. unfold in_window in Hx. lia.
  - destruct Hb as (?&?&?&?&?&?). destruct (leaving_ok (w_sizey w) _ ltac:(lia) Hmv Hne) as (m&s&->&?&?&?&Hl).
    assert (HW : forall x y, in_window w x y -> ~ in_rect (MkRect 0 m (w_sizex w) s) (x - w_posx w) (y - w_posy w) <-> ny <= y < ny + w_sizey w).
    { intros x y [? ?]. specialize (Hl (y - w_posy w) ltac:(lia)). unfold in_rect. cbn. lia. }
    eapply srun_mono; [apply (slide_ok a d0 d w _ _ (w_posx w) ny); [exact Hm| |done|done|lia|lia|]| |done].
    + unfold rect_pos, rect_ok. cbn. lia.
    + intros x y Hx Hn%HW; [|done]. unfold in_window in *. cbn. lia.
    + intros [] d' Hm'. eapply mid_ext; [|exact Hm']. intros k x y. unfold upd. destruct (decide (k = self)) as [->|]; [|done].
      split; (intros [Hx ?]; split; [done|]); apply Hon in Hx as [_ Hx]; by apply (HW x y Hx).
Qed.

Lemma set_area_ok a d0 d w u A :
  mid w a d0 d -> (forall l, u (set_visi l w) = set_disparea A (set_visi l w)) ->
  mid (set_disparea A w) a (placed self (set_disparea A w) d0) (set_zorder (alter u self (d_zorder d)) d).
Proof.
  intros [(f&g&Hst&Hs) Hw Hfa Hb Ha Hon] Hu. destruct (frame_lookup _ _ _ _ (proj1 (proj2 Hst)) Hw) as [l Hl].
  pose proof (st_window _ _ _ _ _ _ _ Hst Hl) as (Hbw&Hok&Hcov&Hsub).
  pose proof (lookup_lt_Some _ _ _ Hw) as Hlt. pose proof (lookup_lt_Some _ _ _ Hl) as Hlt'. split.
  - exists f, g. split; [|done]. rewrite (alter_insert _ _ _ _ Hl), Hu.
    apply (st_replace d0 f g d self _ _ (d_mem d) Hst Hlt'); try done. intros x y Hx. destruct (Hsub _ _ Hx) as [_ Hi]. by apply Hi.
  - cbn. by rewrite list_lookup_insert_eq.
  - cbn. by rewrite length_insert.
  - by apply placed_behind.
  - intros j x y ?. rewrite placed_area by lia. by apply Ha.
  - exact Hon.
Qed.
Lemma mid_mem a d0 d w m : mid w a d0 d -> mid w a d0 (set_answers m d).
Proof. intros [(f&g&Hst&Hs) ? ? ? ? ?]. split; try done. exists f, g. split; [by apply st_mem|done]. Qed.
Lemma claim_all a d0 d w l :
  mid w a d0 d -> (forall r, r ∈ l -> rect_pos r /\ forall x y, in_rect r x y -> onscreen d0 x y /\ in_window w x y) ->
  srun (each_rect l (fun r => Window_ClaimVisibility stack self r false)) d
    (fun _ => mid w (upd a self (fun x y => a self x y \/ exists r, r ∈ l /\ in_rect r x y)) d0) anyhow.
Proof.
  revert a d. induction l as [|r l IH]; intros a d Hm Hl; cbn [each_rect].
  { apply srun_ret. eapply mid_ext; [|exact Hm]. intros k x y. unfold upd. destruct (decide (k = self)) as [->|]; [|done].
    split; [tauto|]. intros [?|(r&[]%not_elem_of_nil&_)]. done. }
  destruct (Hl r ltac:(left)) as [Hr Hin]. destruct Hm as [(f&g&Hst&Hs) Hw Hfa Hb Ha Hon].
  eapply run_bind; [by apply (Window_ClaimVisibility_ok stack self r false d0 w Hw Hr Hin f g)|]. intros [] d1 Hst1.
  pose proof (claim_stacked _ _ _ _ _ self r Hfa Hs ltac:(intros; by apply Hin)) as Hs1.
  assert (Hm1 : mid w (upd a self (fun x y => a self x y \/ in_rect r x y)) d0 d1).
  { split; try done.
    - by eexists _, _.
    - apply finite_upd; [done|by eapply lookup_lt_Some|]. intros x y.
      destruct (fa_dec _ _ Hfa self x y), (in_rect_or r x y); tauto.
    - intros j x y ?. rewrite upd_other by lia. by apply Ha.
    - intros x y. rewrite upd_same. intros [?|?]; auto. }
  eapply srun_mono; [apply (IH _ _ Hm1); intros r' ?; apply Hl; by right| |done].
  intros [] d2. apply mid_ext. intros k x y. unfold upd. destruct (decide (k = self)) as [->|]; [|done].
  rewrite decide_True by done. setoid_rewrite elem_of_cons. clear. naive_solver.
Qed.
Lemma mid_draw a d0 d w : mid w a d0 d -> srun (Window_DrawUnlocked self) d (fun _ => mid w a d0) anyhow.
Proof.
  intros [(f&g&Hst&Hs) Hw Hfa Hb Ha Hon]. destruct (frame_lookup _ _ _ _ (proj1 (proj2 Hst)) Hw) as [l Hl].
  unfold Window_DrawUnlocked. apply (run_win _ _ _ _ _ Hl). cbn [w_visi set_visi].
  pose proof (st_window _ _ _ _ _ _ _ Hst Hl) as (_&Hok&_). pose proof (foreach_pos 0 _ ltac:(lia) Hok) as Hpos.
  cbn [w_visi set_visi] in Hpos. apply srun_mono with (Q := fun _ => st None d0 f g) (R := anyhow); [|intros [] d' ?; split; by try exists f, g|done].
  clear Hs Hl Hok Hfa Ha Hon. revert d Hst. induction (RECTS_FOREACH l) as [|r rs IH]; intros d Hst; cbn [each_rect]; [by apply srun_ret|].
  inversion Hpos as [|?? Hr Hrs]; subst. destruct (frame_lookup _ _ _ _ (proj1 (proj2 Hst)) Hw) as [l' Hl'].
  apply (run_render _ _ _ _ _ _ Hl' Hr). intros ?. by apply IH, st_log.
Qed.

Lemma placed_display a d w wn :
  areas_exact d -> (self < length (d_zorder d))%nat -> hidden wn = false -> rect_ok (w_disparea wn) ->
  (forall x y, in_rect (w_disparea wn) x y <-> onscreen d x y /\ in_window wn x y) ->
  (forall k x y, a k x y <-> upd (shown d) self (in_rect (w_disparea wn)) k x y) ->
  forall d', mid w a (placed self wn d) d' -> display_ok d'.
Proof.
  intros Ha Hlt Hh Hr Hin He d' [(f&g&Hst&Hs) _ _ _ _ _]. apply (st_display _ _ _ _ Hst).
  - intros k w'. cbn. destruct (decide (k = self)) as [->|].
    + rewrite list_lookup_insert_eq by done. intros [= <-]. done.
    + rewrite list_lookup_insert_ne by done. apply Ha.
  - eapply stacked_ext; [|done|done|done|exact Hs]. intros k x y. rewrite He. unfold upd, shown. cbn.
    destruct (decide (k = self)) as [->|].
    + rewrite list_lookup_insert_eq, Hh by done. tauto.
    + by rewrite list_lookup_insert_ne.
Qed.
Lemma shown_mid d w :
  display_ok d -> d_zorder d !! self = Some w -> hidden w = false -> all_shown_behind self d -> mid w (shown d) d d.
Proof.
  intros [Hg Ha Hs] Hw Hh Hb. split; try done.
  - by exists (V None d), (B d).
  - apply shown_finite.
  - by apply exact_behind.
  - intros j x y ?. by apply (behind_area self).
  - intros x y. unfold shown. rewrite Hw, Hh. intros [_ ?]. by apply (Ha _ _ Hw).
Qed.
Lemma placed_placed w1 w2 d : placed self w2 (placed self w1 d) = placed self w2 d.
Proof. unfold placed. cbn. by rewrite list_insert_insert_eq. Qed.

(** The rectangles of the new place that are not part of the old one. *)
Lemma reclaimed_ok a d0 d w A O :
  mid w a d0 d -> rect_ok A -> rect_ok O ->
  srun (on_local [] (rects_insert A) ≫= fun l => on_local l (rects_remove O)) d
    (fun l d' => mid w a d0 d' /\ strips_ok 0 l /\ forall x y, cov l x y <-> in_rect A x y /\ ~ in_rect O x y) anyhow.
Proof.
  intros [(f&g&Hst&Hs) ? ? ? ? ?] HA HO. eapply run_bind.
  { apply on_local_ok, (srun_weaken _ _ _ (fun _ => part grows (MkRects [] (d_mem d)) A)). by apply rects_insert_ok. }
  intros l d1 (s&[Hok Hc]&->&->). cbn in Hc. unfold join in Hc. eapply srun_mono; [|intros l' d2|done].
  { apply on_local_ok, (srun_weaken _ _ _ (fun _ => part shrinks (MkRects (r_strips s) (r_mem s)) O)). by apply rects_remove_ok. }
  intros (s'&[Hok' Hc']&->&->). split; [split; try done; exists f, g; split; [by do 2 apply st_mem|done]|].
  split; [done|]. intros x y. rewrite Hc'. cbn. unfold minus. rewrite Hc, cov_nil. tauto.
Qed.

(** The second half of a move: the new area is claimed. *)
Lemma settle_ok d w w' d3 :
  areas_exact d -> d_zorder d !! self = Some w -> hidden w' = false -> win_bounds w' ->
  0 <= d_sizex d <= COORD_MAX -> 0 <= d_sizey d <= COORD_MAX ->
  mid w' (upd (shown d) self (fun x y => in_rect (w_disparea w) x y /\ in_window w' x y)) (placed self w' d) d3 ->
  srun (update_win self (fun w => set_disparea (Window_UpdateDisplayArea (d_sizex d3) (d_sizey d3) w) w) ≫= fun _ =>
        on_visi self check_rects ≫= fun _ =>
        me ← win self;
        reclaim_area ← on_local [] (rects_insert (w_disparea me));
        reclaim_area ← on_local reclaim_area (rects_remove (w_disparea w));
        each_rect (RECTS_FOREACH reclaim_area) (fun r => Window_ClaimVisibility stack self r false) ≫= fun _ =>
        on_visi self check_rects ≫= fun _ =>
        on_local reclaim_area check_rects ≫= fun _ =>
        Window_DrawUnlocked self ≫= fun _ => on_visi self check_rects) d3 (fun _ => display_ok) anyhow.
Proof.
  intros Ha Hw Hh Hb Hsx Hsy Hm. pose proof (lookup_lt_Some _ _ _ Hw) as Hlt. destruct (Ha _ _ Hw) as [HrO HO].
  assert (Hsz : d_sizex d3 = d_sizex d /\ d_sizey d3 = d_sizey d).
  { destruct (mid_moving _ _ _ _ Hm) as (?&?&(_&(Ex&Ey&_)&_)&_). done. }
  destruct Hsz as [-> ->]. set (A := Window_UpdateDisplayArea (d_sizex d) (d_sizey d) w').
  destruct (update_area_ok (d_sizex d) (d_sizey d) w' Hb Hsx Hsy) as (HrA&_&_&HA). fold A in HrA, HA.
  apply run_modify. apply (set_area_ok _ _ _ _ (fun w => set_disparea (Window_UpdateDisplayArea (d_sizex d) (d_sizey d) w) w) A) in Hm; [|done].
  rewrite placed_placed in Hm.
  eapply run_bind; [apply (mid_check _ _ _ _ Hm)|]. intros [] d4 Hm4.
  destruct (mid_moving _ _ _ _ Hm4) as (f&g&Hst4&_).
  destruct (frame_lookup _ _ _ _ (proj1 (proj2 Hst4)) (mid_window _ _ _ _ Hm4)) as [l Hl].
  apply (run_win _ _ _ _ _ Hl). cbn [w_disparea set_visi set_disparea]. 
  eapply (run_bind_pair _ _ _ _ _ _ (reclaimed_ok _ _ _ _ A (w_disparea w) Hm4 HrA HrO)).
  intros rs d5 (Hm5&Hok&Hcov). pose proof (foreach_pos 0 _ ltac:(lia) Hok) as Hpos. rewrite Forall_forall in Hpos.
  eapply run_bind; [apply (claim_all _ _ _ _ _ Hm5)|].
  { intros r Hr. split; [by apply Hpos|]. intros x y Hx. apply HA, Hcov, elem_of_foreach. by exists r. }
  intros [] d6 Hm6. eapply run_bind; [apply (mid_check _ _ _ _ Hm6)|]. intros [] d7 Hm7.
  eapply run_bind; [apply (on_local_ok _ _ _ (fun _ _ => True)); by apply check_rects_ok|]. intros _ d8 (s&_&_&->).
  eapply run_bind; [apply (mid_draw _ _ _ _ (mid_mem _ _ _ _ _ Hm7))|]. intros [] d9 Hm9.
  eapply srun_mono; [apply (mid_check _ _ _ _ Hm9)| |done]. intros [] d10 Hm10.
  eapply (placed_display _ d _ (set_disparea A w')); [exact Ha|done|exact Hh|exact HrA|exact HA| |exact Hm10].
  intros k x y. unfold upd. destruct (decide (k = self)) as [->|]; [|done]. rewrite decide_True by done.
  rewrite <- elem_of_foreach, Hcov. cbn. rewrite HA, HO. destruct (in_rect_or (w_disparea w) x y) as [Hx|Hx]; rewrite HO in Hx; unfold onscreen in *; tauto.
Qed.

Lemma move_display d w nx ny :
  display_ok d -> d_zorder d !! self = Some w -> hidden w = false -> all_shown_behind self d ->
  win_bounds (set_pos nx ny w) -> move_ok (w_sizex w) (nx - w_posx w) -> move_ok (w_sizey w) (ny - w_posy w) ->
  srun (Window_MoveUnlocked stack self nx ny) d (fun _ => display_ok) anyhow.
Proof.
  intros Hd Hw Hh Hbeh Hb Hmx Hmy. unfold Window_MoveUnlocked. apply (run_win _ _ _ _ _ Hw).
  destruct (_ && _); [by apply srun_ret|]. pose proof (shown_mid d w Hd Hw Hh Hbeh) as Hm0.
  pose proof Hd as [Hg Ha Hs]. pose proof (geo_bounds _ _ Hg _ _ Hw) as Hb0. pose proof (geo_size _ _ Hg) as [Hsx Hsy].
  eapply run_bind; [by apply mid_check|]. intros [] d1' Hm1'. rewrite Hh. cbv zeta.
  eapply run_bind; [by apply mid_check|]. intros [] d1 Hm1.
  eapply run_bind; [apply (slide_x _ _ _ _ nx Hm1 Hb0); [|done]|]. { unfold win_bounds in *. cbn in *. tauto. }
  intros [] d2 Hm2. eapply run_bind; [apply (slide_y _ _ _ _ ny Hm2); [|done|done]|]. { unfold win_bounds in *. cbn in *. tauto. }
  intros [] d3 Hm3. cbn [w_posx w_posy w_sizex w_sizey set_pos] in Hm3. apply run_dget.
  rewrite placed_placed in Hm3. change (set_pos nx ny (set_pos nx (w_posy w) w)) with (set_pos nx ny w) in Hm3.
  apply (settle_ok d w (set_pos nx ny w)); try done. eapply mid_ext; [|exact Hm3].
  intros k x y. unfold upd. destruct (decide (k = self)) as [->|]; [|done]. rewrite decide_True by done.
  unfold shown. rewrite Hw, Hh. unfold in_window. cbn. tauto.
Qed.
End Moves.
