(* ===== verification/WindowProps.v ===== *)
(** What the operations on windows promise: no assertion fails, nothing throws while
    memory is granted, and the stacking of the windows is kept, through whole
    histories of operations; the hit test agrees with it, and redrawing copies each
    visible point from the right place of the right buffer. *)
From S2P Require Import Prelude.
From stdpp Require Import sets list list_numbers.
From S2P Require Import Rect RectBlocks RectStrips RectProps Window WindowVis WindowStack.
Open Scope Z_scope.

(** ** While memory lasts nothing throws *)
Definition dcalm (d : display) : Prop := granted (d_mem d).

Lemma quietly_get_put {S A} (calm : S -> Prop) (g : S -> S) (rest : S -> SM S A) :
  (forall s, calm s -> calm (g s)) -> (forall s, quietly calm (rest s)) ->
  quietly calm (sget ≫= fun s => sput (g s) ≫= fun _ => rest s).
Proof. intros Hg Hr s Hs. exact (Hr s (g s) (Hg s Hs)). Qed.
Lemma quiet_on_visi k m : quietly rcalm m -> quietly dcalm (on_visi k m).
Proof.
  intros Hm d Hd. unfold on_visi. destruct (d_zorder d !! k) as [w|]; [|done].
  specialize (Hm (MkRects (w_visi w) (d_mem d)) Hd). by destruct (m _).
Qed.
Lemma quiet_on_back m : quietly rcalm m -> quietly dcalm (on_back m).
Proof.
  intros Hm d Hd. unfold on_back. specialize (Hm (MkRects (d_backvisi d) (d_mem d)) Hd). by destruct (m _).
Qed.
Lemma quiet_on_local l m : quietly rcalm m -> quietly dcalm (on_local l m).
Proof. intros Hm d Hd. unfold on_local. specialize (Hm (MkRects l (d_mem d)) Hd). by destruct (m _). Qed.
Lemma quiet_modify f : (forall d, d_mem (f d) = d_mem d) -> quietly dcalm (modify f).
Proof. intros Hf d Hd. change (granted (d_mem (f d))). rewrite Hf. exact Hd. Qed.
Lemma quiet_win k : quietly dcalm (win k).
Proof. unfold win. quiet_run. Qed.
Lemma quiet_update k f : quietly dcalm (update_win k f).
Proof. by apply quiet_modify. Qed.
Lemma quiet_draw c : quietly dcalm (Copy_Rect c).
Proof. unfold Copy_Rect. quiet_run. by apply quiet_modify. Qed.
Lemma quiet_each_rect {A} (l : list A) f : (forall a, quietly dcalm (f a)) -> quietly dcalm (each_rect l f).
Proof. intros Hf. induction l as [|a l IH]; cbn [each_rect]; quiet_run. Qed.
#[export] Hint Resolve quiet_on_visi quiet_on_back quiet_on_local quiet_win quiet_update quiet_draw quiet_each_rect
  quiet_insert quiet_remove quiet_move quiet_check_rects : quiet.
Lemma quiet_render k r : quietly dcalm (Window_RenderRect k r).
Proof. unfold Window_RenderRect. quiet_run. Qed.
Lemma quiet_render_back r : quietly dcalm (Display_RenderBackground r).
Proof. unfold Display_RenderBackground. quiet_run. Qed.
#[export] Hint Resolve quiet_render quiet_render_back : quiet.

Section Quiet.
Context (stack : rect).
Lemma quiet_steal_window fuel self k r b : quietly dcalm (steal_window stack fuel self k r b).
Proof. induction fuel as [|fuel IH]; cbn [steal_window]; quiet_run. Qed.
Lemma quiet_steal_background fuel self r b : quietly dcalm (steal_background stack fuel self r b).
Proof. induction fuel as [|fuel IH]; cbn [steal_background]; quiet_run. Qed.
Lemma quiet_collect l x y r parts : quietly dcalm (collect_parts stack l x y r parts).
Proof. revert parts. induction l as [|r' l IH]; intros parts; cbn [collect_parts]; quiet_run. Qed.
Lemma quiet_inherit_parts fuel self parts : quietly dcalm (inherit_parts stack fuel self parts).
Proof. revert parts. induction fuel as [|fuel IH]; intros parts; cbn [inherit_parts]; quiet_run. Qed.
Lemma quiet_hide_loop fuel self k : quietly dcalm (hide_loop stack fuel self k).
Proof. induction fuel as [|fuel IH]; cbn [hide_loop]; quiet_run. Qed.
Lemma quiet_inherit_background l : quietly dcalm (inherit_background l).
Proof. unfold inherit_background. apply quiet_each_rect. quiet_run. Qed.
Lemma quiet_unlink key : quietly dcalm (unlink_visible key).
Proof. intros d Hd. unfold unlink_visible, scheck, mbind, SM_bind, sget, sput. by destruct (bool_decide _). Qed.
End Quiet.
#[export] Hint Resolve quiet_steal_window quiet_steal_background quiet_collect quiet_inherit_parts quiet_hide_loop
  quiet_inherit_background quiet_unlink : quiet.

Lemma quiet_claim stack self r b : quietly dcalm (Window_ClaimVisibility stack self r b).
Proof. unfold Window_ClaimVisibility. quiet_run; apply quiet_each_rect; quiet_run. Qed.
Lemma quiet_release stack self r : quietly dcalm (Window_RemoveAndInheritVisibility stack self r).
Proof. unfold Window_RemoveAndInheritVisibility. quiet_run. Qed.
Lemma quiet_draw_window self : quietly dcalm (Window_DrawUnlocked self).
Proof. unfold Window_DrawUnlocked. quiet_run. Qed.
Lemma quiet_whole_area w : quietly rcalm (whole_area w).
Proof. unfold whole_area. quiet_run. Qed.
Lemma quiet_uncover stack self k : quietly dcalm (uncover stack self k).
Proof. unfold uncover. quiet_run. Qed.
#[export] Hint Resolve quiet_claim quiet_release quiet_draw_window quiet_whole_area quiet_uncover : quiet.
Lemma quiet_hide stack self : quietly dcalm (Window_HideUnlocked stack self).
Proof. unfold Window_HideUnlocked. quiet_run; apply quiet_each_rect; quiet_run. Qed.
Lemma quiet_destroy stack self : quietly dcalm (Window_DestroyUnlocked stack self).
Proof.
  unfold Window_DestroyUnlocked. quiet_run; [apply quiet_hide|..]; apply quiet_modify; [done|].
  intros d. by destruct (bool_decide _).
Qed.
Lemma quiet_window_move stack self x y : quietly dcalm (Window_MoveUnlocked stack self x y).
Proof. unfold Window_MoveUnlocked. quiet_run; apply quiet_each_rect; quiet_run. Qed.
Lemma quiet_front stack self : quietly dcalm (Window_BringToFront stack self).
Proof. unfold Window_BringToFront. quiet_run; by apply quiet_modify. Qed.
Lemma quiet_create stack key x y sx sy state :
  Z.land state WM_WINDOW_STATE_FFOCUSED = 0 ->
  quietly dcalm (Window_CreateUnlocked stack key x y sx sy state None).
Proof.
  intros Hf. unfold Window_CreateUnlocked. rewrite Hf. cbn [negb Z.eqb]. cbv zeta.
  apply (quietly_get_put dcalm); [done|]. intros d. unfold link_visible. quiet_run. by apply quiet_modify.
Qed.

(** ** Histories *)
Inductive wop : Type :=
| WCreate (key posx posy sizex sizey state : Z)
| WHide (k : nat)
| WDestroy (k : nat)
| WFront (k : nat)
| WMove (k : nat) (x y : Z).
Definition wexec (stack : rect) (op : wop) : DM unit :=
  match op with
  | WCreate key posx posy sizex sizey state => Window_CreateUnlocked stack key posx posy sizex sizey state None
  | WHide k => Window_HideUnlocked stack k
  | WDestroy k => Window_DestroyUnlocked stack k
  | WFront k => Window_BringToFront stack k ≫= fun _ => mret tt
  | WMove k x y => Window_MoveUnlocked stack k x y
  end.

(** Sizes are positive and the ends of the window are coordinates. *)
Definition axis_fits (pos size : Z) : bool :=
  (0 <? size) && (size <=? COORD_MAX) && (- COORD_MAX <=? pos) && (pos + size <=? COORD_MAX).
(** Along an axis, a window goes back at most by its size. *)
Definition step_fits (size rel : Z) : bool := (- size <=? rel) && (rel <=? COORD_MAX).
Definition shown_behind (k : nat) (d : display) : bool :=
  forallb (fun w => negb (hidden w)) (drop (S k) (d_zorder d)).
Definition linked (w : window) (d : display) : bool := hidden w || bool_decide (w_key w ∈ d_windows d).
Definition wvalid (op : wop) (d : display) : bool :=
  match op with
  | WCreate _ posx posy sizex sizey state =>
      axis_fits posx sizex && axis_fits posy sizey && (Z.land state WM_WINDOW_STATE_FFOCUSED =? 0)
  | WFront k => (k <? length (d_zorder d))%nat
  | WHide k => match d_zorder d !! k with Some w => shown_behind k d && linked w d | None => false end
  | WDestroy k =>
      match d_zorder d !! k with
      | Some w => shown_behind k d && linked w d && (Z.land (w_state w) WM_WINDOW_STATE_FDESTROYED =? 0)
      | None => false
      end
  | WMove k x y =>
      match d_zorder d !! k with
      | Some w => negb (hidden w) && shown_behind k d && axis_fits x (w_sizex w) && axis_fits y (w_sizey w) &&
                  step_fits (w_sizex w) (x - w_posx w) && step_fits (w_sizey w) (y - w_posy w)
      | None => false
      end
  end.
Fixpoint whistory_valid (stack : rect) (ops : list wop) (d : display) : bool :=
  match ops with
  | [] => true
  | op :: ops => wvalid op d && match wexec stack op d with SRet _ d' => whistory_valid stack ops d' | _ => true end
  end.

Lemma axis_fits_ok pos size : axis_fits pos size = true ->
  0 < size <= COORD_MAX /\ - COORD_MAX <= pos /\ pos + size <= COORD_MAX.
Proof. unfold axis_fits. lia. Qed.
Lemma shown_behind_ok k d : shown_behind k d = true -> all_shown_behind k d.
Proof.
  intros H j w Hj Hw. unfold shown_behind in H. rewrite forallb_forall in H. apply negb_true_iff, H, list_elem_of_In.
  apply list_elem_of_lookup. exists (j - S k)%nat. rewrite lookup_drop. by replace (S k + (j - S k))%nat with j by lia.
Qed.
Lemma linked_ok w d : linked w d = true -> hidden w = false -> w_key w ∈ d_windows d.
Proof. unfold linked. intros [Hh|Hk%bool_decide_eq_true]%orb_true_iff Hn; [congruence|done]. Qed.

Lemma wexec_ok stack op d :
  display_ok d -> wvalid op d = true -> srun (wexec stack op) d (fun _ => display_ok) anyhow.
Proof.
  intros Hd Hv. destruct op as [key x y sx sy state|k|k|k|k x y]; cbn [wexec wvalid] in *.
  - apply andb_true_iff in Hv as [[Hx%axis_fits_ok Hy%axis_fits_ok]%andb_true_iff Hf%Z.eqb_eq].
    apply create_ok; [done| |done]. unfold win_bounds. cbn. lia.
  - destruct (d_zorder d !! k) as [w|] eqn:Hw; [|done].
    apply andb_true_iff in Hv as [Hs%shown_behind_ok Hl].
    eapply srun_mono; [apply (hide_ok stack k d w); try done; by apply linked_ok| |done]. by intros [] d' [? _].
  - destruct (d_zorder d !! k) as [w|] eqn:Hw; [|done].
    apply andb_true_iff in Hv as [[Hs%shown_behind_ok Hl]%andb_true_iff Hx%Z.eqb_eq].
    apply (window_destroy_ok stack k d w); try done. by apply linked_ok.
  - apply Nat.ltb_lt, lookup_lt_is_Some in Hv as [w Hw].
    eapply run_bind; [by apply (front_ok stack k d w)|]. intros b d' ?. by apply srun_ret.
  - destruct (d_zorder d !! k) as [w|] eqn:Hw; [|done]. rewrite !andb_true_iff in Hv.
    destruct Hv as [[[[[Hh%negb_true_iff Hs%shown_behind_ok] Hx%axis_fits_ok] Hy%axis_fits_ok] Hmx] Hmy].
    apply (move_display stack k d w); try done; [unfold win_bounds; cbn; lia|..]; unfold move_ok, step_fits in *; lia.
Qed.
Lemma quiet_wexec stack op d : wvalid op d = true -> dcalm d ->
  match wexec stack op d with SRet _ d' => dcalm d' | SThrow _ _ => False | SPanic => True end.
Proof.
  intros Hv. revert d Hv. destruct op as [key x y sx sy state|k|k|k|k x y]; intros d Hv; cbn [wexec wvalid] in *.
  - apply quiet_create. lia.
  - apply quiet_hide.
  - apply quiet_destroy.
  - revert d Hv. intros d _. apply (quietly_bind dcalm); [apply quiet_front|]. quiet_run.
  - apply quiet_window_move.
Qed.

(** C5: From a display whose windows are stacked right - every point of it is visible
    in the first window in Z-order, of those not hidden, that has it, and in the
    background if there is none, and nowhere else -, a history of creating, hiding,
    destroying, raising and moving windows fails no assertion and ends with the
    windows stacked right; it throws only if memory is refused.  The history is one
    that [whistory_valid] admits: windows are not empty and have ends within the range of
    [int], they are not created with the focus; a window that is hidden or destroyed is
    hidden already or linked in the list of windows to draw (one created outside of the
    display is not), it is destroyed once, and the windows behind one that is hidden,
    destroyed or moved are not hidden; a hidden window is not moved, and a move to the left
    or up is by at most the size of the window.  (Otherwise see [hide_unlinked_window],
    [hidden_window_inherits], [move_hidden_keeps_area] and [move_keeps_old_place].) *)
Theorem window_history_stacked (stack : rect) (ops : list wop) (d : display) :
  display_ok d -> whistory_valid stack ops d = true ->
  match each_rect ops (wexec stack) d with
  | SRet _ d' => display_ok d'
  | SThrow _ _ => ~ granted (d_mem d)
  | SPanic => False
  end.
Proof.
  revert d. induction ops as [|op ops IH]; intros d Hd Hv; cbn [each_rect whistory_valid] in *; [done|].
  apply andb_true_iff in Hv as [Hv Hr]. pose proof (wexec_ok stack op d Hd Hv) as Hok.
  pose proof (quiet_wexec stack op d Hv) as Hq. unfold srun in Hok. unfold mbind, SM_bind.
  destruct (wexec stack op d) as [[] d1|e d1|]; [|done..]. specialize (IH d1 Hok Hr).
  destruct (each_rect _ _ d1); [done| |done]. intros Hg. by apply IH, Hq.
Qed.

Definition none_hidden (d : display) : bool := forallb (fun w => negb (hidden w)) (d_zorder d).
Lemma none_hidden_ok d : none_hidden d = true -> Forall (fun w => hidden w = false) (d_zorder d).
Proof.
  unfold none_hidden. rewrite forallb_forall. intros H. apply Forall_forall. intros w Hw.
  by apply negb_true_iff, H, list_elem_of_In.
Qed.
(** C35: On a display whose windows are stacked right and of which none is hidden,
    the hit test finds the window that is visible at the point, or nothing where the
    background is. *)
Theorem window_at_visible (d : display) (x y : Z) :
  display_ok d -> none_hidden d = true -> onscreen d x y ->
  match Display_WindowAt d x y with
  | Some w => exists k, d_zorder d !! k = Some w /\ V None d k x y
  | None => B d x y
  end.
Proof.
  intros [_ Ha [Hf Hg]] Hh%none_hidden_ok Hon. unfold Display_WindowAt.
  assert (Hhit : forall w k, d_zorder d !! k = Some w ->
    (r_xmin (w_disparea w) <= x /\ x < u32 (r_xmin (w_disparea w) + r_xsiz (w_disparea w)) /\
     r_ymin (w_disparea w) <= y /\ y < u32 (r_ymin (w_disparea w) + r_ysiz (w_disparea w))) <-> shown d k x y).
  { intros w k Hk. destruct (Ha _ _ Hk) as [(?&?&?&?&?&?) _]. unfold shown. rewrite Hk, (Forall_lookup_1 _ _ _ _ Hh Hk).
    unfold COORD_MAX in *. rewrite !u32_small by lia. unfold in_rect. tauto. }
  destruct (list_find _ _) as [[k w]|] eqn:E; cbn.
  - apply list_find_Some in E as (Hk&Hw&Hn). exists k. split; [done|]. apply Hf. split; [by apply (Hhit w k Hk)|].
    intros j Hj Hs. destruct (lookup_lt_is_Some_2 (d_zorder d) j) as [wj Hwj]; [apply lookup_lt_Some in Hk; lia|].
    apply (Hn j wj Hwj Hj). by apply (Hhit wj j).
  - apply list_find_None in E. apply Hg. split; [done|]. intros j Hs. unfold shown in Hs.
    destruct (d_zorder d !! j) as [wj|] eqn:Hwj; [|done]. apply (Forall_lookup_1 _ _ _ _ E Hwj).
    apply (Hhit wj j Hwj). unfold shown. by rewrite Hwj.
Qed.

(** ** The list of windows to draw *)
(** Addresses are unique, the list has only windows of the display that are not
    hidden, and it has all of them that have points on the display. *)
Record wired (d : display) : Prop := {
  wired_keys : NoDup (w_key <$> d_zorder d);
  wired_linked key : key ∈ d_windows d -> exists w, w ∈ d_zorder d /\ w_key w = key /\ hidden w = false;
  wired_shown w : w ∈ d_zorder d -> hidden w = false -> nonempty (w_disparea w) = true -> w_key w ∈ d_windows d
}.
(** A new window has a new address, and a window that is moved is in the list. *)
Definition wplain (op : wop) (d : display) : bool :=
  match op with
  | WCreate key _ _ _ _ _ => bool_decide (key ∉ w_key <$> d_zorder d)
  | WMove k _ _ => match d_zorder d !! k with Some w => bool_decide (w_key w ∈ d_windows d) | None => false end
  | _ => true
  end.
Fixpoint whistory_wired (stack : rect) (ops : list wop) (d : display) : bool :=
  match ops with
  | [] => true
  | op :: ops =>
      wvalid op d && wplain op d && match wexec stack op d with SRet _ d' => whistory_wired stack ops d' | _ => true end
  end.

(** What [wired] depends on.  Moving points between sets does not change it. *)
Definition skel_win (w : window) : Z * Z * rect := (w_key w, w_state w, w_disparea w).
Definition skel (d : display) : list (Z * Z * rect) * list Z := (skel_win <$> d_zorder d, d_windows d).
Definition returns {A} (m : DM A) (d : display) (Q : display -> Prop) : Prop :=
  match m d with SRet _ d' => Q d' | _ => True end.
Definition keeps {A} (m : DM A) : Prop := forall d, returns m d (fun d' => skel d' = skel d).

Lemma returns_bind {A B} (m : DM A) (f : A -> DM B) d P Q :
  returns m d P -> (forall a d', P d' -> returns (f a) d' Q) -> returns (m ≫= f) d Q.
Proof. unfold returns, mbind, SM_bind. intros Hm Hf. destruct (m d) as [a d'|e d'|]; [by apply Hf|done..]. Qed.
Lemma keeps_bind {A B} (m : DM A) (f : A -> DM B) : keeps m -> (forall a, keeps (f a)) -> keeps (m ≫= f).
Proof.
  intros Hm Hf d. eapply returns_bind; [apply Hm|]. intros a d' <-. apply Hf.
Qed.
Lemma keeps_ret {A} (a : A) : keeps (mret a).
Proof. by intros d. Qed.
Lemma keeps_panic {A} : keeps (fun _ => SPanic : sres display A).
Proof. by intros d. Qed.
Lemma keeps_check b : keeps (scheck b).
Proof. intros d. unfold returns, scheck. by destruct b. Qed.
Lemma keeps_lift {A} (o : outcome A) : keeps (slift o).
Proof. intros d. unfold returns, slift. by destruct o. Qed.
Lemma keeps_get : keeps sget.
Proof. by intros d. Qed.
Lemma keeps_modify f : (forall d, skel (f d) = skel d) -> keeps (modify f).
Proof. intros Hf d. apply Hf. Qed.
Lemma skel_alter f (k : nat) (z : list window) : (forall w, skel_win (f w) = skel_win w) -> skel_win <$> alter f k z = skel_win <$> z.
Proof.
  intros Hf. apply list_eq. intros j. rewrite !list_lookup_fmap. destruct (decide (j = k)) as [->|].
  - rewrite list_lookup_alter_eq. destruct (z !! k); cbn; [by rewrite Hf|done].
  - by rewrite list_lookup_alter_ne.
Qed.
Lemma keeps_update k f : (forall w, skel_win (f w) = skel_win w) -> keeps (update_win k f).
Proof. intros Hf. apply keeps_modify. intros d. unfold skel. cbn. by rewrite skel_alter. Qed.
Lemma keeps_on_visi k m : keeps (on_visi k m).
Proof.
  intros d. unfold returns, on_visi. destruct (d_zorder d !! k) as [w|] eqn:Hk; [|done].
  destruct (m _) as [[] s|e s|]; [|done..]. unfold skel. cbn. f_equal. rewrite list_fmap_insert. apply list_insert_id.
  by rewrite list_lookup_fmap, Hk.
Qed.
Lemma keeps_on_back m : keeps (on_back m).
Proof. intros d. unfold returns, on_back. by destruct (m _). Qed.
Lemma keeps_on_local l m : keeps (on_local l m).
Proof. intros d. unfold returns, on_local. by destruct (m _). Qed.
Lemma keeps_each {A} (l : list A) f : (forall a, keeps (f a)) -> keeps (each_rect l f).
Proof. intros Hf. induction l as [|a l IH]; cbn [each_rect]; [apply keeps_ret|by apply keeps_bind]. Qed.

Create HintDb keeps.
#[export] Hint Resolve keeps_ret keeps_panic keeps_check keeps_lift keeps_get keeps_on_visi keeps_on_back keeps_on_local : keeps.
Ltac keeps_run :=
  cbv zeta; repeat (match goal with
  | |- forall _, _ => intro
  | |- keeps (_ ≫= _) => apply keeps_bind
  | |- keeps (each_rect _ _) => apply keeps_each
  | |- _ => solve [eauto with keeps]
  | |- keeps (modify _) => by apply keeps_modify
  | |- keeps (update_win _ _) => by apply keeps_update
  | |- keeps (match ?x with _ => _ end) => destruct x
  end; cbv beta zeta).

Lemma keeps_win k : keeps (win k).
Proof. unfold win. keeps_run. Qed.
Lemma keeps_copy c : keeps (Copy_Rect c).
Proof. unfold Copy_Rect. keeps_run. Qed.
#[export] Hint Resolve keeps_win keeps_copy : keeps.
Lemma keeps_render k r : keeps (Window_RenderRect k r).
Proof. unfold Window_RenderRect. keeps_run. Qed.
Lemma keeps_render_back r : keeps (Display_RenderBackground r).
Proof. unfold Display_RenderBackground. keeps_run. Qed.
#[export] Hint Resolve keeps_render keeps_render_back : keeps.

Section Keeps.
Context (stack : rect).
Lemma keeps_steal_window fuel self k r b : keeps (steal_window stack fuel self k r b).
Proof. induction fuel as [|fuel IH]; cbn [steal_window]; keeps_run. Qed.
Lemma keeps_steal_background fuel self r b : keeps (steal_background stack fuel self r b).
Proof. induction fuel as [|fuel IH]; cbn [steal_background]; keeps_run. Qed.
Lemma keeps_collect l x y r parts : keeps (collect_parts stack l x y r parts).
Proof. revert parts. induction l as [|r' l IH]; intros parts; cbn [collect_parts]; keeps_run. Qed.
Lemma keeps_inherit_parts fuel self parts : keeps (inherit_parts stack fuel self parts).
Proof. revert parts. induction fuel as [|fuel IH]; intros parts; cbn [inherit_parts]; keeps_run. Qed.
Lemma keeps_hide_loop fuel self k : keeps (hide_loop stack fuel self k).
Proof. induction fuel as [|fuel IH]; cbn [hide_loop]; keeps_run. Qed.
Lemma keeps_inherit_background l : keeps (inherit_background l).
Proof. unfold inherit_background. keeps_run. Qed.
Lemma keeps_draw_window self : keeps (Window_DrawUnlocked self).
Proof. unfold Window_DrawUnlocked. keeps_run. Qed.
Lemma keeps_uncover self k : keeps (uncover stack self k).
Proof. unfold uncover. keeps_run. Qed.
End Keeps.
#[export] Hint Resolve keeps_steal_window keeps_steal_background keeps_collect keeps_inherit_parts keeps_hide_loop
  keeps_inherit_background keeps_draw_window keeps_uncover : keeps.
Lemma keeps_claim stack self r b : keeps (Window_ClaimVisibility stack self r b).
Proof. unfold Window_ClaimVisibility. keeps_run. Qed.
Lemma keeps_release stack self r : keeps (Window_RemoveAndInheritVisibility stack self r).
Proof. unfold Window_RemoveAndInheritVisibility. keeps_run. Qed.
#[export] Hint Resolve keeps_claim keeps_release : keeps.

(** The operations of a history keep the list right. *)
Lemma skel_keys d : w_key <$> d_zorder d = (fun t : Z * Z * rect => t.1.1) <$> (skel d).1.
Proof. unfold skel. cbn. by rewrite <- list_fmap_compose. Qed.
Lemma skel_in d d' w : skel d' = skel d -> w ∈ d_zorder d ->
  exists w', w' ∈ d_zorder d' /\ w_key w' = w_key w /\ hidden w' = hidden w /\ w_disparea w' = w_disparea w.
Proof.
  intros E Hw. assert (Hin : skel_win w ∈ skel_win <$> d_zorder d') by
    (change (skel_win w ∈ (skel d').1); rewrite E; by apply list_elem_of_fmap_2).
  apply list_elem_of_fmap in Hin as (w'&[= Ek Es Ea]&Hw'). exists w'. unfold hidden. by rewrite Es.
Qed.
Lemma wired_skel d d' : skel d' = skel d -> wired d -> wired d'.
Proof.
  intros E [Hk Hl Hs]. pose proof (f_equal snd E) as El. cbn in El. split.
  - rewrite skel_keys, E, <- skel_keys. done.
  - intros key Hkey. rewrite El in Hkey. destruct (Hl key Hkey) as (w&Hw&<-&Hh).
    destruct (skel_in d d' w E Hw) as (w'&?&?&?&_). exists w'. by rewrite <- Hh.
  - intros w Hw Hh Ha. rewrite El. destruct (skel_in d' d w (eq_sym E) Hw) as (w'&Hw'&Ek&Eh&Ea).
    rewrite <- Ek. apply Hs; [done|congruence|congruence].
Qed.
Lemma wired_perm d z : wired d -> z ≡ₚ d_zorder d -> wired (set_zorder z d).
Proof.
  intros [Hk Hl Hs] Hz. split; cbn.
  - by rewrite Hz.
  - intros key Hkey. destruct (Hl key Hkey) as (w&?&?&?). exists w. by rewrite Hz.
  - intros w Hw. rewrite Hz in Hw. by apply Hs.
Qed.
Lemma keeps_returns {A} (m : DM A) d (Q : display -> Prop) :
  keeps m -> (forall d', skel d' = skel d -> Q d') -> returns m d Q.
Proof. intros Hm HQ. specialize (Hm d). unfold returns in *. destruct (m d); [by apply HQ|done..]. Qed.
Lemma returns_win {A} k (f : window -> DM A) d w Q :
  d_zorder d !! k = Some w -> returns (f w) d Q -> returns (win k ≫= f) d Q.
Proof. intros Hk H. unfold returns, win, mbind, SM_bind, sget, slift in *. cbn. by rewrite Hk. Qed.
Lemma skel_lookup d d' k w : skel d' = skel d -> d_zorder d !! k = Some w ->
  exists w', d_zorder d' !! k = Some w' /\ skel_win w' = skel_win w.
Proof.
  intros E Hk. pose proof (f_equal (fun s : list (Z * Z * rect) * list Z => s.1 !! k) E) as Ek. unfold skel in Ek. cbn in Ek.
  rewrite !list_lookup_fmap, Hk in Ek. destruct (d_zorder d' !! k) as [w'|]; [|done]. exists w'. cbn in Ek. split; [done|congruence].
Qed.

Lemma returns_get {A} (f : display -> DM A) d Q : returns (f d) d Q -> returns (sget ≫= f) d Q.
Proof. done. Qed.
Lemma returns_modify {A} g (f : unit -> DM A) d Q : returns (f tt) (g d) Q -> returns (modify g ≫= f) d Q.
Proof. done. Qed.
Lemma returns_catch {A} (m : DM A) h d Q : returns m d Q -> (forall e d', returns (h e) d' Q) -> returns (scatch m h) d Q.
Proof. unfold returns, scatch. intros Hm Hh. destruct (m d); [done|apply Hh|done]. Qed.

Lemma push_linked w d : wired d -> w_key w ∉ w_key <$> d_zorder d -> hidden w = false ->
  wired (set_windows (w_key w :: d_windows d) (pushed w d)).
Proof.
  intros [Hk Hl Hs] Hn Hh. split; cbn.
  - by apply NoDup_cons.
  - intros key [->|Hkey]%elem_of_cons; [exists w; split; [left|done]|].
    destruct (Hl key Hkey) as (w'&?&?). exists w'. split; [by right|done].
  - intros w' [->|Hw']%elem_of_cons Hh' Ha; [left|right; by apply Hs].
Qed.
Lemma push_unlinked w d : wired d -> w_key w ∉ w_key <$> d_zorder d ->
  hidden w = true \/ nonempty (w_disparea w) = false -> wired (pushed w d).
Proof.
  intros [Hk Hl Hs] Hn Hh. split; cbn.
  - by apply NoDup_cons.
  - intros key Hkey. destruct (Hl key Hkey) as (w'&?&?). exists w'. split; [by right|done].
  - intros w' [->|Hw']%elem_of_cons Hh' Ha; [destruct Hh; congruence|by apply Hs].
Qed.
Lemma wired_create stack key x y sx sy state d :
  geo None d -> wvalid (WCreate key x y sx sy state) d = true -> wplain (WCreate key x y sx sy state) d = true -> wired d ->
  returns (wexec stack (WCreate key x y sx sy state)) d wired.
Proof.
  intros Hg Hv Hp Hw. cbn in Hv, Hp. apply bool_decide_eq_true in Hp. pose proof (geo_size _ _ Hg) as [Hsx Hsy].
  apply andb_true_iff in Hv as [[Hx%axis_fits_ok Hy%axis_fits_ok]%andb_true_iff Hf%Z.eqb_eq].
  cbn [wexec]. unfold Window_CreateUnlocked. rewrite Hf. change (negb (0 =? 0)) with false. cbv zeta.
  apply returns_get. set (w0 := MkWin _ _ _ _ _ _ _ _ _). set (w := set_disparea _ w0).
  destruct (update_area_ok (d_sizex d) (d_sizey d) w0) as (_&Ex&Ey&_); [unfold win_bounds; cbn; lia|done|done|].
  cbn [w_posx w_posy w_sizex w_sizey w0] in Ex, Ey. rewrite <- Ex, <- Ey. clear Ex Ey. fold w0.
  change (r_xsiz (Window_UpdateDisplayArea (d_sizex d) (d_sizey d) w0)) with (r_xsiz (w_disparea w)).
  change (r_ysiz (Window_UpdateDisplayArea (d_sizex d) (d_sizey d) w0)) with (r_ysiz (w_disparea w)).
  assert (Hh : hidden w = negb (Z.land state WM_WINDOW_STATE_FHIDDEN =? 0)) by apply (hidden_state state).
  change (returns (scatch ((if nonempty (w_disparea w) && (Z.land state WM_WINDOW_STATE_FHIDDEN =? 0)
    then link_visible key ≫= fun _ => Window_ClaimVisibility stack 0 (w_disparea w) false else mret tt) ≫= fun _ => mret tt)
    (fun e => modify (fun d => set_zorder (tail (d_zorder d)) d) ≫= fun _ => sthrow e)) (pushed w d) wired).
  apply returns_catch; [|done]. eapply returns_bind with (P := wired); [|done]. destruct (_ && _) eqn:E.
  - apply andb_true_iff in E as [_ Eh]. rewrite Eh in Hh. apply returns_modify. apply keeps_returns; [apply keeps_claim|].
    intros d' E'. eapply wired_skel; [exact E'|]. by apply (push_linked w d).
  - apply push_unlinked; [done|done|]. rewrite Hh. destruct (nonempty _), (Z.land _ _ =? 0); auto.
Qed.

Lemma unlink_hidden k w d z : wired d -> d_zorder d !! k = Some w -> hidden w = false ->
  skel_win <$> z = skel_win <$> alter set_hidden k (d_zorder d) ->
  wired (set_zorder z (set_windows (filter (fun j => j <> w_key w) (d_windows d)) d)).
Proof.
  intros Hd Hk Hh Ez. set (d1 := set_zorder (alter set_hidden k (d_zorder d)) (set_windows (filter (fun j => j <> w_key w) (d_windows d)) d)).
  apply (wired_skel d1); [unfold skel; cbn; by rewrite Ez|]. destruct Hd as [Hn Hl Hs].
  assert (Hlk : forall w', w' ∈ d_zorder d1 -> w' = set_hidden w \/ (w' ∈ d_zorder d /\ w_key w' <> w_key w)).
  { intros w' [j Hj]%list_elem_of_lookup. cbn in Hj. destruct (decide (j = k)) as [->|Hne].
    - rewrite list_lookup_alter_eq, Hk in Hj. injection Hj as <-. by left.
    - rewrite list_lookup_alter_ne in Hj by done. right. split; [by eapply list_elem_of_lookup_2|]. intros E. apply Hne.
      apply (NoDup_lookup _ _ _ (w_key w) Hn); rewrite list_lookup_fmap, ?Hj, ?Hk; cbn; congruence. }
  split.
  - cbn. replace (w_key <$> alter set_hidden k (d_zorder d)) with (w_key <$> d_zorder d); [done|].
    apply list_eq. intros j. rewrite !list_lookup_fmap. destruct (decide (j = k)) as [->|]; [|by rewrite list_lookup_alter_ne].
    by rewrite list_lookup_alter_eq, Hk.
  - intros key Hkey. cbn in Hkey. apply list_elem_of_filter in Hkey as [Hne Hkey]. destruct (Hl key Hkey) as (w'&[j Hj]%list_elem_of_lookup&Ek&Hh').
    exists w'. split; [|done]. apply list_elem_of_lookup. exists j. cbn. rewrite list_lookup_alter_ne; [done|]. intros ->. congruence.
  - intros w' Hw' Hh' Ha. destruct (Hlk w' Hw') as [->|[Hin Hne]]; [by rewrite set_hidden_hidden in Hh'|].
    cbn. apply list_elem_of_filter. split; [done|by apply Hs].
Qed.
Lemma wired_hide stack k w d : wired d -> d_zorder d !! k = Some w ->
  returns (Window_HideUnlocked stack k) d (fun d' => wired d' /\
    exists w', d_zorder d' !! k = Some w' /\ w_key w' = w_key w /\ hidden w' = true).
Proof.
  intros Hd Hk. unfold Window_HideUnlocked. apply (returns_win _ _ _ _ _ Hk). destruct (hidden w) eqn:Hh.
  { split; [done|]. by exists w. }
  set (d1 := set_windows (filter (fun j => j <> w_key w) (d_windows d)) d).
  apply returns_bind with (P := fun d' => d' = d1).
  { unfold returns, unlink_visible, scheck, mbind, SM_bind, sget, sput. by destruct (bool_decide _). }
  intros _ ? ->. eapply returns_bind; [apply keeps_on_visi|]. intros _ d2 E2. apply returns_get.
  eapply returns_bind; [apply keeps_each; intros j; keeps_run|]. intros _ d3 E3.
  eapply returns_bind; [apply keeps_win|]. intros me d4 E4.
  eapply returns_bind; [apply keeps_inherit_background|]. intros _ d5 E5.
  eapply returns_bind; [apply keeps_on_visi|]. intros _ d6 E6.
  rewrite E5, E4, E3, E2 in E6. clear E2 E3 E4 E5. unfold update_win. change (returns (modify ?g) d6 ?Q) with (Q (g d6)).
  destruct (skel_lookup d1 d6 k w E6 Hk) as (w6&Hk6&Ek). cbv beta. split.
  - apply (wired_skel (set_zorder (alter set_hidden k (d_zorder d)) d1)); [|by eapply unlink_hidden].
    unfold skel. cbn. f_equal; [|exact (f_equal snd E6)].
    pose proof (f_equal fst E6) as Ez. cbn in Ez. apply list_eq. intros j. pose proof (f_equal (fun z => z !! j) Ez) as Ej. cbn in Ej.
    rewrite !list_lookup_fmap in *. destruct (decide (j = k)) as [->|]; [|by rewrite !list_lookup_alter_ne].
    rewrite !list_lookup_alter_eq, Hk6, Hk. cbn. unfold skel_win in *. cbn. congruence.
  - exists (set_hidden w6). cbn. rewrite list_lookup_alter_eq, Hk6. split; [done|]. split; [|apply set_hidden_hidden].
    unfold skel_win in Ek. cbn. congruence.
Qed.
Lemma wired_destroy stack k d : wired d -> returns (wexec stack (WDestroy k)) d wired.
Proof.
  intros Hd. cbn [wexec]. unfold Window_DestroyUnlocked. destruct (d_zorder d !! k) as [w|] eqn:Hk.
  2: { unfold returns, win, mbind, SM_bind, sget, slift. cbn. by rewrite Hk. }
  apply (returns_win _ _ _ _ _ Hk). unfold returns at 1, scheck, mbind at 1, SM_bind at 1.
  destruct (_ =? _); [|done]. eapply returns_bind; [by eapply wired_hide|]. intros _ d1 ([Hn Hl Hs]&w1&Hk1&Ek&Hh).
  apply returns_modify. pose proof (delete_Permutation _ _ _ Hk1) as Hp.
  assert (Hwd : wired (set_zorder (delete k (d_zorder d1)) d1)).
  { split; cbn.
    - rewrite Hp in Hn. by apply NoDup_cons in Hn as [_ Hn].
    - intros key Hkey. destruct (Hl key Hkey) as (w'&Hw'&E'&Hh'). exists w'. split; [|done]. rewrite Hp in Hw'.
      apply elem_of_cons in Hw' as [->|?]; [congruence|done].
    - intros w' Hw'. apply Hs. rewrite Hp. by right. }
  change (wired ((fun d => if bool_decide (d_focus d = Some (w_key w)) then set_focus None d else d)
            (set_zorder (delete k (d_zorder d1)) d1))). cbv beta.
  destruct (bool_decide _); [|done]. by eapply wired_skel; [|exact Hwd].
Qed.
Lemma wired_front stack k d : wired d -> returns (wexec stack (WFront k)) d wired.
Proof.
  intros Hd. cbn [wexec]. eapply returns_bind with (P := wired); [|done]. unfold Window_BringToFront.
  destruct k as [|k]; [done|]. eapply returns_bind; [apply keeps_win|]. intros me d1 E1.
  eapply returns_bind with (P := wired).
  { assert (Hd1 : wired d1) by by apply (wired_skel d). destruct (_ && _); [|done].
    apply keeps_returns; [keeps_run|]. intros d' E. by apply (wired_skel d1). }
  intros _ d2 Hd2. destruct (d_zorder d2 !! S k) as [w|] eqn:Hk.
  2: { unfold returns, win, mbind, SM_bind, sget, slift. cbn. by rewrite Hk. }
  apply (returns_win _ _ _ _ _ Hk). apply returns_modify. apply wired_perm; [done|]. symmetry. by apply delete_Permutation.
Qed.
Lemma wired_area k w r d : wired d -> d_zorder d !! k = Some w -> w_key w ∈ d_windows d ->
  wired (set_zorder (alter (set_disparea r) k (d_zorder d)) d).
Proof.
  intros [Hn Hl Hs] Hk Hw.
  assert (Hlk : forall w', w' ∈ alter (set_disparea r) k (d_zorder d) -> w' = set_disparea r w \/ w' ∈ d_zorder d).
  { intros w' [j Hj]%list_elem_of_lookup. destruct (decide (j = k)) as [->|].
    - rewrite list_lookup_alter_eq, Hk in Hj. injection Hj as <-. by left.
    - rewrite list_lookup_alter_ne in Hj by done. right. by eapply list_elem_of_lookup_2. }
  split; cbn.
  - replace (w_key <$> alter (set_disparea r) k (d_zorder d)) with (w_key <$> d_zorder d); [done|].
    apply list_eq. intros j. rewrite !list_lookup_fmap. destruct (decide (j = k)) as [->|]; [|by rewrite list_lookup_alter_ne].
    by rewrite list_lookup_alter_eq, Hk.
  - intros key Hkey. destruct (Hl key Hkey) as (w'&[j Hj]%list_elem_of_lookup&Ek&Hh). destruct (decide (j = k)) as [->|].
    + exists (set_disparea r w). rewrite Hk in Hj. injection Hj as ->. split; [|done]. apply list_elem_of_lookup. exists k.
      by rewrite list_lookup_alter_eq, Hk.
    + exists w'. split; [|done]. apply list_elem_of_lookup. exists j. by rewrite list_lookup_alter_ne.
  - intros w' Hw' Hh Ha. destruct (Hlk w' Hw') as [->|?]; [done|by apply Hs].
Qed.
Lemma wired_move stack k x y d : wired d -> wplain (WMove k x y) d = true -> returns (wexec stack (WMove k x y)) d wired.
Proof.
  intros Hd Hp. cbn in Hp. destruct (d_zorder d !! k) as [w|] eqn:Hk; [|done]. apply bool_decide_eq_true in Hp.
  assert (Hsk : forall d', skel d' = skel d -> wired d') by (intros d' E; by apply (wired_skel d)).
  cbn [wexec]. unfold Window_MoveUnlocked. apply (returns_win _ _ _ _ _ Hk). cbv zeta. destruct (_ && _); [done|].
  eapply returns_bind; [apply keeps_on_visi|]. intros _ d1 E1. cbv beta in E1. destruct (hidden w).
  { apply keeps_returns; [keeps_run|]. intros d' E. apply Hsk. congruence. }
  eapply returns_bind; [apply keeps_on_visi|]. intros _ d2 E2.
  eapply returns_bind; [apply (keeps_returns _ d2 (fun d' => skel d' = skel d2)); [keeps_run|done]|]. intros _ d3 E3.
  eapply returns_bind; [apply (keeps_returns _ d3 (fun d' => skel d' = skel d3)); [keeps_run|done]|]. intros _ d4 E4.
  cbv beta in *. rewrite E3, E2, E1 in E4. clear E1 E2 E3. apply returns_get.
  destruct (skel_lookup d d4 k w E4 Hk) as (w4&Hk4&Ek).
  set (r := Window_UpdateDisplayArea (d_sizex d4) (d_sizey d4) w4).
  apply returns_bind with (P := wired).
  - unfold update_win. change (returns (modify ?g) d4 ?Q) with (Q (g d4)). cbv beta.
    replace (alter _ k (d_zorder d4)) with (alter (set_disparea r) k (d_zorder d4)).
    2: { apply list_eq. intros j. destruct (decide (j = k)) as [->|]; [|by rewrite !list_lookup_alter_ne].
         by rewrite !list_lookup_alter_eq, Hk4. }
    apply (wired_area k w4); [by apply Hsk|done|]. injection Ek as -> _ _. by rewrite (f_equal snd E4 : d_windows d4 = d_windows d).
  - intros _ d5 H5. apply keeps_returns; [keeps_run|]. intros d' E. by apply (wired_skel d5).
Qed.
Lemma wexec_wired stack op d :
  display_ok d -> wvalid op d = true -> wplain op d = true -> wired d -> returns (wexec stack op) d wired.
Proof.
  intros Hok Hv Hp Hd. destruct op as [key x y sx sy state|k|k|k|k x y].
  - by apply wired_create; [apply Hok|..].
  - cbn [wvalid wexec] in *. destruct (d_zorder d !! k) as [w|] eqn:Hk; [|done].
    pose proof (wired_hide stack k w d Hd Hk) as H. unfold returns in *. destruct (Window_HideUnlocked _ _ _); [apply H|done..].
  - by apply wired_destroy.
  - by apply wired_front.
  - by apply wired_move.
Qed.
Lemma history_wired stack ops d0 d :
  display_ok d0 -> wired d0 -> whistory_wired stack ops d0 = true -> each_rect ops (wexec stack) d0 = SRet tt d ->
  display_ok d /\ wired d.
Proof.
  revert d0. induction ops as [|op ops IH]; intros d0 Hok Hd Hv; cbn [each_rect whistory_wired] in *; [by intros [= <-]|].
  rewrite !andb_true_iff in Hv. destruct Hv as [[Hv Hp] Hr]. pose proof (wexec_ok stack op d0 Hok Hv) as H1.
  pose proof (wexec_wired stack op d0 Hok Hv Hp Hd) as H2. unfold srun in H1. unfold returns in H2. unfold mbind, SM_bind.
  destruct (wexec stack op d0) as [[] d1|e d1|]; [|done..]. by apply IH.
Qed.

(** ** Redrawing *)
Definition drawn (cs : list draw) (d : display) : display :=
  MkDisp (d_sizex d) (d_sizey d) (d_stride d) (d_bpp d) (d_backvisi d) (d_zorder d) (d_windows d) (d_focus d) (d_draws d ++ cs)
    (d_sent d) (d_mem d).
(** A call of [Copy_Rect] sets the point (x,y) of the screen to the point (x',y') of
    a buffer. *)
Definition copies (c : draw) (buf : buffer) (x y x' y' : Z) : Prop :=
  src_buffer c = buf /\ exists i j, 0 <= i < size_x c /\ 0 <= j < size_y c /\
    x = dst_x c + i /\ y = dst_y c + j /\ x' = src_x c + i /\ y' = src_y c + j.
(** Lines have the lengths of the buffers' lines, and points the width of those of
    the display. *)
Definition fitting (d : display) (c : draw) : Prop :=
  dst_stride c = d_stride d /\ bpp c = d_bpp d /\
  match src_buffer c with
  | d_backgrnd => src_stride c = d_stride d
  | w_screen key => exists w, w ∈ d_zorder d /\ w_key w = key /\ src_stride c = w_stride w
  end.

Lemma drawn_drawn cs cs' d : drawn cs' (drawn cs d) = drawn (cs ++ cs') d.
Proof. unfold drawn. cbn. by rewrite app_assoc. Qed.
Lemma drawn_nil d : drawn [] d = d.
Proof. unfold drawn. rewrite app_nil_r. by destruct d. Qed.
Lemma each_drawn {A} (l : list A) (f : A -> DM unit) (c : A -> list draw) d :
  (forall a cs, a ∈ l -> f a (drawn cs d) = SRet tt (drawn (cs ++ c a) d)) ->
  forall cs, each_rect l f (drawn cs d) = SRet tt (drawn (cs ++ concat (c <$> l)) d).
Proof.
  induction l as [|a l IH]; intros Hf cs; cbn [each_rect]; [by rewrite app_nil_r|].
  unfold mbind, SM_bind. rewrite Hf by left. cbn [fmap list_fmap concat]. rewrite app_assoc. apply IH.
  intros a' cs' ?. apply Hf. by right.
Qed.
Lemma copy_drawn c d cs : 0 < size_x c -> Copy_Rect c (drawn cs d) = SRet tt (drawn (cs ++ [c]) d).
Proof.
  intros Hx. unfold Copy_Rect, mbind, SM_bind, scheck. destruct (Z.eqb_spec (size_x c) 0); [lia|]. cbn.
  unfold modify, mbind, SM_bind, sget, sput, log_draw, drawn. cbn. by rewrite app_assoc.
Qed.
Lemma concat_singletons {A B} (f : A -> B) l : concat ((fun a => [f a]) <$> l) = f <$> l.
Proof. induction l as [|a l IH]; [done|]. cbn. by rewrite IH. Qed.
Lemma place_key d k w : NoDup (w_key <$> d_zorder d) -> d_zorder d !! k = Some w -> place d (w_key w) = Some k.
Proof.
  intros Hnd Hk. unfold place. destruct (list_find _ _) as [[j w']|] eqn:E.
  - apply list_find_Some in E as (Hj&Ekey&_). cbn. f_equal.
    apply (NoDup_lookup _ _ _ (w_key w) Hnd); rewrite list_lookup_fmap, ?Hj, ?Hk; cbn; congruence.
  - apply list_find_None in E. exfalso. by apply (Forall_lookup_1 _ _ _ _ E Hk).
Qed.

Definition back_draw (d : display) (r : rect) : draw :=
  MkDraw (r_xmin r) (r_ymin r) (d_stride d) d_backgrnd (r_xmin r) (r_ymin r) (d_stride d) (r_xsiz r) (r_ysiz r) (d_bpp d).
Definition win_draw (d : display) (w : window) (r : rect) : draw :=
  MkDraw (u32 (w_posx w + r_xmin r)) (u32 (w_posy w + r_ymin r)) (d_stride d) (w_screen (w_key w)) (r_xmin r) (r_ymin r)
    (w_stride w) (r_xsiz r) (r_ysiz r) (d_bpp d).
Definition window_draws (d : display) (key : Z) : list draw :=
  match place d key ≫= fun k => d_zorder d !! k with
  | Some w => win_draw d w <$> RECTS_FOREACH (w_visi w)
  | None => []
  end.
Definition redraw_draws (d : display) : list draw :=
  (back_draw d <$> RECTS_FOREACH (d_backvisi d)) ++ concat (window_draws d <$> d_windows d).
Lemma redraw_runs d : display_ok d -> wired d -> Display_Redraw d = SRet tt (drawn (redraw_draws d) d).
Proof.
  intros [Hg _ _] [Hnd Hl _].
  pose proof (foreach_pos 0 _ ltac:(lia) (proj1 (geo_back _ _ Hg))) as Hpb. rewrite Forall_forall in Hpb.
  unfold Display_Redraw. unfold mbind at 1, SM_bind at 1. unfold sget at 1. unfold mbind at 1, SM_bind at 1.
  pose proof (each_drawn (RECTS_FOREACH (d_backvisi d)) (fun r => Copy_Rect (back_draw d r)) (fun r => [back_draw d r]) d
    ltac:(intros r cs Hr; apply copy_drawn; apply (Hpb r Hr)) []) as E. rewrite drawn_nil, concat_singletons in E.
  unfold back_draw at 1 in E. rewrite E. clear E.
  apply (each_drawn (d_windows d) _ (window_draws d)). intros key cs (w&[k Hkw]%list_elem_of_lookup&<-&_)%Hl.
  pose proof (place_key d k w Hnd Hkw) as Hp. unfold window_draws. rewrite Hp. cbn [mbind option_bind]. rewrite Hkw.
  pose proof (foreach_pos 0 _ ltac:(lia) (geo_visi _ _ Hg _ _ Hkw)) as Hpw. rewrite Forall_forall in Hpw.
  unfold win, mbind, SM_bind, slift, sget. cbn -[Copy_Rect]. rewrite Hkw. cbn -[Copy_Rect].
  rewrite (each_drawn (RECTS_FOREACH (w_visi w)) _ (fun r => [win_draw d w r]) d).
  - by rewrite concat_singletons.
  - intros r cs' Hr. apply copy_drawn, (Hpw r Hr).
Qed.
Lemma visible_linked d k w r : display_ok d -> wired d -> d_zorder d !! k = Some w -> r ∈ RECTS_FOREACH (w_visi w) ->
  rect_pos r /\ onscreen d (w_posx w + r_xmin r) (w_posy w + r_ymin r) /\ w_key w ∈ d_windows d.
Proof.
  intros [Hg Ha [Hf _]] Hw Hk Hr. pose proof (foreach_pos 0 _ ltac:(lia) (geo_visi _ _ Hg _ _ Hk)) as Hp.
  rewrite Forall_forall in Hp. specialize (Hp r Hr). split; [done|]. destruct Hp as [(?&?&?&?&?&?) [? ?]].
  set (x := w_posx w + r_xmin r). set (y := w_posy w + r_ymin r).
  assert (HV : V None d k x y).
  { unfold V, vis. rewrite Hk, elem_of_foreach. exists r. split; [done|]. change (originx None k w) with (w_posx w). change (originy None k w) with (w_posy w).
    unfold in_rect, x, y. lia. }
  split; [eapply (geo_vis _ _ Hg k w); [done|]; unfold V in HV; by rewrite Hk in HV|].
  apply Hf in HV as [Hs _]. unfold shown in Hs. rewrite Hk in Hs. destruct Hs as [Hh Hx].
  apply (wired_shown _ Hw); [by eapply list_elem_of_lookup_2|done|]. unfold in_rect in Hx. unfold nonempty. lia.
Qed.
Lemma redraw_elem d c : display_ok d -> wired d ->
  c ∈ redraw_draws d <->
  (exists r, r ∈ RECTS_FOREACH (d_backvisi d) /\ c = back_draw d r) \/
  (exists k w r, d_zorder d !! k = Some w /\ r ∈ RECTS_FOREACH (w_visi w) /\ c = win_draw d w r).
Proof.
  intros Hd Hw. pose proof (wired_keys _ Hw) as Hnd.
  assert (Hwd : forall k w, d_zorder d !! k = Some w -> window_draws d (w_key w) = win_draw d w <$> RECTS_FOREACH (w_visi w)).
  { intros k w Hk. unfold window_draws. rewrite (place_key d k w Hnd Hk). cbn [mbind option_bind]. by rewrite Hk. }
  unfold redraw_draws. rewrite elem_of_app. f_equiv; [|split].
  - rewrite list_elem_of_fmap. split; intros (r&?&?); by exists r.
  - intros (cs&Hcs&Hc)%list_elem_of_In%in_concat. apply list_elem_of_In, list_elem_of_fmap in Hcs as (key&->&Hkey).
    apply (wired_linked _ Hw) in Hkey as (w&[k Hk]%list_elem_of_lookup&<-&_). rewrite (Hwd k w Hk) in Hc.
    apply list_elem_of_In, list_elem_of_fmap in Hc as (r&->&Hr). by exists k, w, r.
  - intros (k&w&r&Hk&Hr&->). apply list_elem_of_In, in_concat. exists (window_draws d (w_key w)). split; apply list_elem_of_In.
    + apply list_elem_of_fmap_2. by eapply visible_linked.
    + rewrite (Hwd k w Hk). by apply list_elem_of_fmap_2.
Qed.
Lemma back_copies d r buf x y x' y' :
  copies (back_draw d r) buf x y x' y' <-> buf = d_backgrnd /\ in_rect r x y /\ x' = x /\ y' = y.
Proof.
  unfold copies, in_rect. cbn. split; [intros (<-&i&j&?&?&?&?&?&?); split; [done|lia]|].
  intros (->&?&?&?). split; [done|]. exists (x - r_xmin r), (y - r_ymin r). lia.
Qed.
Lemma win_copies d w r buf x y x' y' :
  0 <= w_posx w + r_xmin r <= COORD_MAX -> 0 <= w_posy w + r_ymin r <= COORD_MAX ->
  copies (win_draw d w r) buf x y x' y' <->
  buf = w_screen (w_key w) /\ in_rect r (x - w_posx w) (y - w_posy w) /\ x' = x - w_posx w /\ y' = y - w_posy w.
Proof.
  unfold COORD_MAX. intros ? ?. unfold copies, in_rect. cbn. rewrite !u32_small by lia.
  split; [intros (<-&i&j&?&?&?&?&?&?); split; [done|lia]|].
  intros (->&?&?&?). split; [done|]. exists (x - w_posx w - r_xmin r), (y - w_posy w - r_ymin r). lia.
Qed.
Lemma redraw_copies d buf x y x' y' : display_ok d -> wired d ->
  (exists c, c ∈ redraw_draws d /\ copies c buf x y x' y') <->
  (buf = d_backgrnd /\ B d x y /\ x' = x /\ y' = y) \/
  (exists k w, d_zorder d !! k = Some w /\ buf = w_screen (w_key w) /\ V None d k x y /\
               x' = x - w_posx w /\ y' = y - w_posy w).
Proof.
  intros Hd Hw. pose proof (geo_size _ _ (do_geo _ Hd)) as [? ?].
  assert (Htile : forall k w r, d_zorder d !! k = Some w -> r ∈ RECTS_FOREACH (w_visi w) ->
    copies (win_draw d w r) buf x y x' y' <->
    buf = w_screen (w_key w) /\ in_rect r (x - w_posx w) (y - w_posy w) /\ x' = x - w_posx w /\ y' = y - w_posy w).
  { intros k w r Hk Hr. destruct (visible_linked d k w r Hd Hw Hk Hr) as (_&[? ?]&_). apply win_copies; lia. }
  split.
  - intros (c&Hc&Hx). apply redraw_elem in Hc as [(r&Hr&->)|(k&w&r&Hk&Hr&->)]; [| |done..].
    + apply back_copies in Hx as (->&Hx&->&->). left. split; [done|]. split; [|done]. unfold B. rewrite elem_of_foreach. by exists r.
    + apply (Htile k w r Hk Hr) in Hx as (->&Hx&->&->). right. exists k, w. split; [done|]. split; [done|]. split; [|done].
      unfold V, vis. rewrite Hk, elem_of_foreach. by exists r.
  - intros [(->&HB&->&->)|(k&w&Hk&->&HV&->&->)].
    + unfold B in HB. rewrite elem_of_foreach in HB. destruct HB as (r&Hr&Hx). exists (back_draw d r).
      split; [apply redraw_elem; [done|done|]; left; by exists r|by apply back_copies].
    + unfold V, vis in HV. rewrite Hk, elem_of_foreach in HV. destruct HV as (r&Hr&Hx). exists (win_draw d w r).
      split; [apply redraw_elem; [done|done|]; right; by exists k, w, r|by apply (Htile k w r)].
Qed.

(** C7: After a history of creating, hiding, destroying, raising and moving windows,
    as in [window_history_stacked], from a display whose windows are stacked right
    and whose list of windows to draw is right (such as the display set up by [main]),
    a full redraw returns and does nothing but copy to the screen: a point of the
    screen gets the same point of the background if and only if the background is
    visible there, and the point of a window's buffer at the same place relative to
    the window if and only if this window is visible there - the first in Z-order, of
    those not hidden, that has the point.  Every copy is made with the line lengths of
    its two buffers and the pixel width of the display.  New windows have addresses
    that no other window has, and a window is moved only if it was linked in the list
    when it was created (a window created outside of the display is not, see
    [moved_in_not_linked]). *)
Theorem redraw_draws_visible (stack : rect) (ops : list wop) (d0 d : display) :
  display_ok d0 -> wired d0 -> whistory_wired stack ops d0 = true -> each_rect ops (wexec stack) d0 = SRet tt d ->
  exists cs, Display_Redraw d = SRet tt (drawn cs d) /\ Forall (fitting d) cs /\
    forall buf x y x' y',
      (exists c, c ∈ cs /\ copies c buf x y x' y') <->
      (buf = d_backgrnd /\ B d x y /\ x' = x /\ y' = y) \/
      (exists k w, d_zorder d !! k = Some w /\ buf = w_screen (w_key w) /\ V None d k x y /\
                   x' = x - w_posx w /\ y' = y - w_posy w).
Proof.
  intros Hok0 Hw0 Hv Hrun. destruct (history_wired stack ops d0 d Hok0 Hw0 Hv Hrun) as [Hd Hw].
  exists (redraw_draws d). split; [by apply redraw_runs|]. split; [|intros; by apply redraw_copies].
  apply Forall_forall. intros c Hc. apply redraw_elem in Hc as [(r&_&->)|(k&w&r&Hk&_&->)]; [done| |done..].
  split; [done|]. split; [done|]. exists w. split; [by eapply list_elem_of_lookup_2|done].
Qed.

(** ** Examples *)
Lemma default_display_ok sx sy stride bpp usable m :
  0 < sx <= COORD_MAX -> 0 < sy <= COORD_MAX -> (1 <= usable)%nat -> display_ok (default_display sx sy stride bpp usable m).
Proof.
  intros Hx Hy Hu. set (d := default_display sx sy stride bpp usable m).
  assert (HB : forall x y, B d x y <-> onscreen d x y).
  { intros x y. unfold B, onscreen. cbn. rewrite cov_cons, cov_nil. unfold scov, xend. cbn.
    rewrite bcov_cons, bcov_nil. unfold in_block. cbn. intuition lia. }
  split; [split; cbn|by intros k w|split]; try done.
  - lia.
  - split; [|by intros x y; apply HB]. unfold strip_ok, strip_wf, xend, rs_blkc. cbn. intuition (discriminate || lia).
  - intros k x y. split; [by intros ?|]. by intros [? _].
  - intros x y. rewrite HB. split; [intros ?; split; [done|by intros j ?]|tauto].
Qed.

Lemma default_display_wired sx sy stride bpp usable m : wired (default_display sx sy stride bpp usable m).
Proof. split; cbn; [by apply NoDup_nil|by intros key ?%not_elem_of_nil|by intros w ?%not_elem_of_nil]. Qed.

Definition stack0 : rect := MkRect 0 0 0 0.
Definition screen0 : display := default_display 40 30 40 8 1 plenty.
Lemma screen0_ok : display_ok screen0.
Proof. apply default_display_ok; unfold COORD_MAX; lia. Qed.
Definition ops0 : list wop :=
  [WCreate 1 5 5 20 10 0; WCreate 2 15 6 20 10 0; WFront 1; WMove 0 8 0; WMove 1 30 (-3); WHide 0; WDestroy 1].

Lemma window_history_stacked_witness :
  whistory_valid stack0 ops0 screen0 = true /\
  match each_rect ops0 (wexec stack0) screen0 with
  | SRet _ d' => display_ok d'
  | SThrow _ _ => ~ granted (d_mem screen0)
  | SPanic => False
  end.
Proof.
  split; [vm_compute; reflexivity|].
  apply (window_history_stacked stack0 ops0 screen0); [exact screen0_ok|vm_compute; reflexivity].
Defined.

Definition window0 : display :=
  match wexec stack0 (WCreate 1 5 5 20 10 0) screen0 with SRet _ d' => d' | _ => screen0 end.
Lemma window0_ok : display_ok window0.
Proof.
  pose proof (wexec_ok stack0 (WCreate 1 5 5 20 10 0) screen0 screen0_ok eq_refl) as H. unfold srun in H. unfold window0.
  destruct (wexec _ _ screen0) as [[] d'|e d'|]; [exact H|exact screen0_ok|done].
Qed.
Lemma window_at_visible_witness :
  match Display_WindowAt window0 7 9 with
  | Some w => exists k, d_zorder window0 !! k = Some w /\ V None window0 k 7 9
  | None => B window0 7 9
  end.
Proof.
  apply (window_at_visible window0 7 9); [exact window0_ok| |].
  - vm_compute. reflexivity.
  - unfold onscreen. vm_compute. repeat split; discriminate.
Defined.

Definition ops1 : list wop := [WCreate 1 5 5 20 10 0; WCreate 2 15 6 20 10 0; WFront 1; WMove 0 8 (-3); WHide 1].
Definition window1 : display := match each_rect ops1 (wexec stack0) screen0 with SRet _ d' => d' | _ => screen0 end.
Lemma redraw_draws_visible_witness :
  exists cs, Display_Redraw window1 = SRet tt (drawn cs window1) /\ Forall (fitting window1) cs /\
    forall buf x y x' y',
      (exists c, c ∈ cs /\ copies c buf x y x' y') <->
      (buf = d_backgrnd /\ B window1 x y /\ x' = x /\ y' = y) \/
      (exists k w, d_zorder window1 !! k = Some w /\ buf = w_screen (w_key w) /\ V None window1 k x y /\
                   x' = x - w_posx w /\ y' = y - w_posy w).
Proof.
  apply (redraw_draws_visible stack0 ops1 screen0 window1); [exact screen0_ok|apply default_display_wired| |];
    vm_compute; reflexivity.
Defined.
(** The calls of [Copy_Rect] of a redraw. *)
Example redraw_calls :
  (match Display_Redraw window1 with SRet _ d => drop (length (d_draws window1)) (d_draws d) | _ => [] end)
  = [MkDraw 0 0 40 d_backgrnd 0 0 40 8 30 8; MkDraw 8 7 40 d_backgrnd 8 7 40 20 23 8;
     MkDraw 28 0 40 d_backgrnd 28 0 40 12 30 8; MkDraw 8 0 40 (w_screen 1) 0 3 32 20 7 8].
Proof. vm_compute. reflexivity. Qed.


(** What an observer sees of a display. *)
Definition wview (w : window) : Z * bool * rect * list rect :=
  (w_key w, hidden w, w_disparea w, RECTS_FOREACH (w_visi w)).
Definition outcome_view (r : sres display unit) : option (list rect * list (Z * bool * rect * list rect)) :=
  match r with SRet _ d => Some (RECTS_FOREACH (d_backvisi d), wview <$> d_zorder d) | _ => None end.

(** A hidden window inherits the points of a window in front that is hidden: they
    belong to no window on the display and not to the background. *)
Example hidden_window_inherits :
  outcome_view (each_rect [WCreate 1 0 0 20 30 0; WCreate 2 10 0 30 30 0; WHide 1; WHide 0] (wexec stack0) screen0)
  = Some ([MkRect 0 0 10 30; MkRect 20 0 20 30],
          [(2, true, MkRect 10 0 30 30, []); (1, true, MkRect 0 0 20 30, [MkRect 10 0 10 30])]).
Proof. vm_compute. reflexivity. Qed.
(** A window moved to the left by more than its width keeps its old points: the
    window of 10 columns shows columns 20 to 29 of itself at its old place. *)
Example move_keeps_old_place :
  outcome_view (each_rect [WCreate 1 20 0 10 30 0; WMove 0 0 0] (wexec stack0) screen0)
  = Some ([MkRect 10 0 10 30; MkRect 30 0 10 30],
          [(1, false, MkRect 0 0 10 30, [MkRect 0 0 10 30; MkRect 20 0 10 30])]).
Proof. vm_compute. reflexivity. Qed.
(** A hidden window that is moved keeps its display area. *)
Example move_hidden_keeps_area :
  outcome_view (each_rect [WCreate 1 20 0 10 30 WM_WINDOW_STATE_FHIDDEN; WMove 0 0 0] (wexec stack0) screen0)
  = Some ([MkRect 0 0 40 30], [(1, true, MkRect 20 0 10 30, [])]).
Proof. vm_compute. reflexivity. Qed.
(** Hiding a window that was created outside of the display unlinks it from a list it
    is not part of. *)
Example hide_unlinked_window :
  each_rect [WCreate 1 50 0 10 30 0; WHide 0] (wexec stack0) screen0 = SPanic.
Proof. vm_compute. reflexivity. Qed.
(** A window that was created outside of the display and moved onto it is visible, but
    not in the list of windows to draw. *)
Example moved_in_not_linked :
  match each_rect [WCreate 1 45 0 10 30 0; WMove 0 35 0] (wexec stack0) screen0 with
  | SRet _ d => Some (wview <$> d_zorder d, d_windows d)
  | _ => None
  end = Some ([(1, false, MkRect 35 0 5 30, [MkRect 0 0 5 30])], []).
Proof. vm_compute. reflexivity. Qed.
(** Showing a window claims a rectangle relative to the window as one of the display:
    an assertion fails on the window at (20,10), and the one at (-5,0) gets the
    points 5 columns further to the right than it may have. *)
Example show_claims_window_rect :
  (each_rect [WCreate 1 20 10 10 10 WM_WINDOW_STATE_FHIDDEN] (wexec stack0) ≫= fun _ => Window_ShowUnlocked stack0 0) screen0
    = SPanic /\
  outcome_view ((each_rect [WCreate 1 (-5) 0 10 30 WM_WINDOW_STATE_FHIDDEN] (wexec stack0) ≫= fun _ =>
                 Window_ShowUnlocked stack0 0) screen0)
    = Some ([MkRect 10 0 30 30], [(1, false, MkRect 0 0 5 30, [MkRect 5 0 10 30])]).
Proof. split; vm_compute; reflexivity. Qed.
